(* ===== verification/_CoqProject ===== *)
-Q . S2P
Prelude.v
Relational.v
EngineTypes.v
Runs.v
Usage.v
Classify.v
Silence.v
Redundancy.v
Recurrence.v
Score.v
Health.v
Recommend.v
Esr.v
Creates.v
Ledger.v
Purge.v
Narrow.v
Reorder.v
Latency.v
Observed.v
Activity.v
Observe.v
Regression.v
ChangeWindow.v
Failures.v
Preflight.v
Cooldowns.v
Keys.v
RunLength.v
StoredSpec.v
Store.v
Memory.v
Plans.v
Policy.v
FailureWatch.v
Apply.v
Build.v
Owner.v
ClassifyJob.v
Suggest.v
Finalize.v
Ends.v
Claims.v
Pipeline.v
Reach.v
Schedule.v
Phases.v
Tasks.v
Queue.v
Retention.v
Probe.v
NetGuard.v
Impact.v
Snapshots.v
RunTable.v
SpecKey.v
Collect.v
UsageEvidence.v
LatencyEvidence.v
Groups.v
MongoShapes.v
MongoReads.v
Profiler.v
Watch.v
SqlText.v
SqlPlans.v
PlanCache.v
Sessions.v
SqlServer.v
SqlMemory.v
Postgres.v
MongoWrites.v
Regex.v
PgShapes.v
PgReads.v
Scrub.v
UrlText.v
PgConn.v
SqlConn.v
Privileges.v
