(* ===== verification/Prelude.v ===== *)
(** * Indexterity, verified

    Indexterity watches database clusters (MongoDB, SQL Server, PostgreSQL),
    decides which indexes nobody needs and which are missing, and carries the
    decisions out: a drop is hidden first, observed for weeks and only then made
    final; a build is watched after it ran and undone if it slowed writes. This
    library models the decision rules of [apps/api/src/analysis] and the passes of
    [apps/api/src/jobs] that act on a cluster, and proves what makes them safe to
    run unattended. All paths below are under [apps/api/src] unless they start
    with [packages].

    ** The program and the files that model it

    Every file has one part of the program; its definitions keep the names of the
    code, in the order the code composes them.

    - [Prelude]: the vocabulary below, sums, sorting, text, tactics and hints.
      [Relational]: rows of a query with their neighbours, groups and aggregates.
    - [EngineTypes] (engine/types.ts, packages/contracts/src/schemas.ts): index
      specifications, query shapes, the enums of recommendations.
    - Evidence. [Runs] (analysis/types.ts): a stored run stands for many equal
      readings. [RunLength] (jobs/runs.ts, recordSnapshots and
      trimSupersededMembers of jobs/collect.ts): how readings become runs. [Usage]
      (analysis/usage.ts): counters differenced into an activity series.
      [Classify] (analysis/classify.ts): counter epochs, the trust gate and the
      usage class. [Latency], [Activity], [Observed] (analysis/latency.ts,
      activity.ts, own-outage.ts, observed.ts, jobs/observation-ledger.ts): what
      was measured, over time this program was itself running. [Snapshots]
      (mongo/snapshots.ts) is what a collect reads; [RunTable], [SpecKey] and
      [Collect] (jobs/collect.ts, namespaces.ts) what it writes: the rows that
      name indexes and namespaces, both series of runs, the day's footprint and
      the roster. [UsageEvidence] (jobs/usage-evidence.ts) and [LatencyEvidence]
      (jobs/latency-evidence.ts, insights/latency-folds.ts): what postgres
      computes of those rows, one common table expression at a time, and the
      weighted median both sides take.
    - Index algebra. [Redundancy] (analysis/safety.ts, redundancy.ts), [Recurrence]
      (client.ts), [Score] (severity.ts, score.ts, cooldown.ts).
    - Proposals. [Recommend] (analysis/recommend.ts), [Esr], [Creates], [Narrow]
      (analysis/workload.ts), [Reorder] (analysis/reorder.ts), [Purge]
      (analysis/purge.ts).
    - What an analysis says of itself. [Silence] (analysis/silence.ts), [Ledger]
      (jobs/workload-shapes.ts, served-shapes.ts, analysis/workload-outcome.ts);
      [Health] (analysis/health.ts, pressure.ts): whether a server or a collection
      hurts now.
    - Gates. [Observe], [Regression], [ChangeWindow], [Failures]
      (analysis/observe.ts, regression.ts, window.ts, failures.ts), [Preflight]
      and [Cooldowns] (jobs/preflight.ts, cooldowns.ts), [Plans]
      (billing/plans.ts), [Policy] (jobs/change-window.ts), [FailureWatch]
      (jobs/failure-watch.ts).
    - Passes. [Store]: the rows of db/schema.ts the passes write, the operations of
      engine/ports.ts they call, and the monad they run in; [StoredSpec]
      (mongo/snapshots.ts, analysis/recommend.ts): a specification as stored.
      [ClassifyJob] (jobs/classify.ts, watched.ts) proposes drops, [Suggest]
      (jobs/suggest.ts, collection-budget.ts, engine/index-names.ts) proposes
      builds, [Apply] (jobs/apply.ts) hides, [Build] (jobs/create.ts, building.ts)
      builds, [Finalize] (jobs/finalize.ts) drops or gives back; [Owner]
      (recommendations/recommendations.service.ts, analysis/rollback.ts) is what a
      person does. [Memory] is a cluster kept in memory that satisfies the laws,
      on which the passes run in the witnesses.
    - The whole. [Ends]: how long an observation lasts. [Claims]: what each pass
      does to the table's unique index. [Pipeline]: the apply and suggest tasks of
      jobs/cluster-tasks.service.ts. [Reach]: every sequence of whole tasks with the
      acts of owners (a narrowed selection and a disconnection among them:
      clusters/clusters.repository.ts, clusters.service.ts, offboard.ts),
      customers and the daily sweep, as a step relation.
    - What drives the passes. [Schedule] (jobs/schedule.ts, watermark.ts, burst.ts,
      classify-cadence.ts, mail/notify.ts and the claims of tick.service.ts): when
      a pass is due and who may dispatch it. [Queue] (jobs/dispatch.ts, locks.ts,
      failure.ts): the fan-out to clusters and the repair of stale locks. [Tasks]
      (jobs/pacing.ts, tasks.ts, timings.ts, blocked.ts, errors/unreachable.ts,
      onCluster of cluster-tasks.service.ts): one run of one pass, its pace, its
      budget and what its failure leaves. [Phases] (engine/phases.ts): where its
      time went. [Probe] (jobs/probe.ts): the look that asks for a pass early.
      [Retention] (jobs/retention.ts): what is deleted, and when.
    - The MongoDB engine. [MongoShapes] (mongo/collector.ts): the query shapes,
      literals, joins, deletes and hints read off the profiler and the store of
      query statistics; [MongoReads] (the rest of mongo/collector.ts with
      members.ts, connection.ts, self-reads.ts, version.ts, errors.ts): what each
      node answers, and what it cost; [Profiler] (mongo/profiler.ts): the marker a
      watch leaves in a profiler's filter, and the failures of its ring; [Watch]
      (mongo/failure-watch.ts): the profilers of every node of a cluster;
      [MongoWrites] (mongo/executor.ts): the adapter's writes, on a server that is
      a class of answers and commands, and a server in memory. [Keys]
      and [Groups] hold what the engine's files share of joined texts and of maps
      that merge by key.
    - The SQL Server engine. [SqlText] (mssql/connection.ts and the texts of
      collector.ts, workload.ts, delete-patterns.ts): identifiers and what is read
      off statements; [SqlPlans] (mssql/workload.ts, delete-patterns.ts,
      plan-facts.ts): a plan tree as query shapes, suggestions and purges, and
      their folds; [PlanCache] (mssql/attributions.ts and the plan reading of
      collector.ts): which plans are read, kept and given up. [Sessions] is the
      monad of calls on a server; [SqlServer] (mssql/executor.ts, version.ts and
      the catalog of collector.ts) the adapter's writes, on a server that is a
      class of answers and statements; [SqlMemory] a server in memory that reads
      those statements.
    - The PostgreSQL engine. [Postgres] (postgres/executor.ts, version.ts,
      cron-apply.ts and the catalog of collector.ts): its writes, builds through
      pg_cron among them. [PgShapes] (postgres/workload.ts): a statement whose
      literals were replaced, read by regular expressions as a query shape or a
      purge; [PgReads] (the rest of postgres/collector.ts with health.ts,
      members.ts and the catalog reads of connection.ts): what the server answers,
      and what its failures cost. [Regex] is the engine those expressions run on,
      with the relation it computes.
    - Around them. [NetGuard] (engine/net-guard.ts): which addresses may be
      dialled, directly and through a tunnel. [PgConn] and [SqlConn]
      (postgres/conn-string.ts, mssql/conn-string.ts and the checks of both
      client.ts): connection strings read, rewritten and held to the transport the
      owner agreed to, on the texts of [UrlText]. [Privileges] (mongo/role.ts,
      diagnose.ts, provision.ts, engine/provision.ts and
      jobs/privilege-check.ts): the role of MongoDB and its changes, what
      credentials are found to hold, who is told of a new privilege, and
      provisioning over the class [AdminServer]. [Impact] (analysis/build-impact.ts,
      footprint.ts): what the overview says of a build and of the footprint.
      [Scrub] (packages/errors/src/scrub.ts): what is removed from an error
      report before it is sent.

    ** How the parts interact

    [collectCluster] stores runs; [classifyCluster] and [suggestForCluster] turn them
    into proposals, rows in state PROPOSED, and the latter may approve a build by
    itself; a person ([approve]), or [promoteByScore], approves the rest. [applyCluster] moves
    an approved drop to HIDDEN and hides the index, [finalizeCluster] drops it once
    its observe window is clear or gives it back; [applyCreatesForCluster] builds,
    and [finalizeCluster] watches the build, undoes it or retires what it replaced.
    A pass is a function of [Store Live], the rows and the live cluster, in a
    state and exception monad: what is thrown ends the pass unless the code
    catches it, and what was written before stays written. The engine is the
    class [EngineSession]; theorems that need to know what its operations do to
    the indexes take the class [SessionLaws], and what a build leaves the class
    [BuildLaws]. The cluster of [Memory] satisfies both, and so do the adapters
    of MongoDB and of SQL Server over a server that does what its documentation
    says of what is sent and answers everything that is sent
    ([mongo_adapter_sound], [mssql_adapter_sound]). Where an answer is lost, on
    the network or by a time-out, a command may have been carried out though the
    call threw; what the passes then leave is not claimed. PostgreSQL cannot hide an index, so its adapter is
    characterised by theorems of its own.

    A tick claims what became due on a table of watermarks ([claimWatermark]) and
    enqueues a dispatcher, which enqueues a job per cluster ([dispatchToAllClusters]);
    the job runs its pass through [onCluster], which stands down, budgets and
    settles it by how it ended, and so decides the pace of the next one. The
    tables of that half are [Watermarks], [QueueTables] and [Board]; ticks of
    several replicas interleave claim by claim in [fleet_step].

    ** What is proved

    - The whole: in every state whole tasks and whole acts reach, a hidden index is
      one a row observes, or one somebody else hid ([pipeline_never_strands]), and
      no index has two live rows that say the same of it ([one_live_claim]), by
      induction on the step relation of [Reach]; what an act can do that lands
      inside a pass is [discarded_mid_pass_strands]. No observation outlasts three of its windows
      ([observation_ends]).
    - Proposing: a pass replaces its own proposals and nobody else's
      ([classify_sweeps_own], [suggest_commits_by_database], also where it
      throws), only past its guards ([classify_proposals_guarded]), and accounts
      for what it did not say ([classify_accounts], [suggest_accounts_for_shapes]);
      what is approved without a person, and how much of it
      ([suggest_unattended_gated], [suggest_within_budget]).
    - The passes: no pass leaves an index hidden without a row that observes it
      ([applyCluster_strands_nothing], [finalize_strands_nothing]), whatever
      throws on the way; an index is hidden or dropped only behind every gate
      ([applyCluster_hides_gated], [finalize_removes_only_cleared]); a cleared
      drop completes with its way back recorded ([cleared_drop_completes]);
      building only adds ([applyCreates_only_adds]); which drops are approved
      without a person ([promotion_gated]); a dropped index an owner rolls back
      is the index a listing had, where its keys ascend or descend and it neither
      expires nor carries a shard key ([dropped_index_put_back]).
    - Constraints, of a collation as far as its locale: no drop removes a uniqueness constraint, from the proposal of a
      re-order ([recommendReorder_sound]) over its build
      ([reorder_replacement_enforces]) to the drop of the original
      ([preflightDrop_keeps_constraint], [preflightDrop_safe]).
    - Evidence: run-length storage is faithful ([collected_runs_faithful]); the
      tables hold, of each index, what recording its readings alone would, however
      many a collect writes, whatever hides the index and whichever of the
      collect's other writes fail ([collected_history], [collect_tells_hidden]), and of each namespace a row per stretch nobody else
      touched it ([latency_rows_faithful]); reads of a whole database are reads
      of its collections ([batched_reads_agree]), and one out of reach costs only
      itself ([collect_skips_inaccessible]). The activity series conserves operations and observations
      ([usageSeries_telescopes], [usageSeries_preserves_observations]) and agrees
      with the stored columns ([usageSeries_stored_agrees]); trusted time is
      exact ([trustedWatchMs_restart_cost], [counterEpochs_disjoint]); the ledger
      remembers exactly the outages ([ownOutages_exact]). What postgres folds of
      the history is what the analysis would compute of the rows
      ([usage_evidence_exact], [latency_evidence_exact],
      [latency_overview_exact]).
    - Decisions: each verdict, class, refusal and window is characterised, mostly
      by an equivalence ([usageTrustRefusalFrom_complete],
      [classifyUsage_evidence], [coversKeyOrder_exact], [observedWindow_verdict],
      [evaluateRegression_exact], [judgeFailures_introduced],
      [inferChangeWindow_sound], [dynamicObserveDays_bounds] and others);
      proposals rest on what they say ([recommend_drops_grounded],
      [recommendCreates_accounts], [recommendNarrowing_sound], ...).
    - Driving: whatever ticks run at once and wherever they die, no occurrence of a
      pass is dispatched twice ([fleet_dispatches_once]); on one clock each is
      dispatched once ([schedule_exactly_once]); a tick answered from memory
      misses nothing ([idle_tick_misses_nothing]). How each failure of a pass is
      taken ([runClusterTask_ends]) and what the blocks then say
      ([blocks_tell_history]); pacing settles and fits ([collect_pace_settles])
      and keeps the share of the worker it promises ([paced_suggest_share]).
      Stale locks are freed and their passes dispatched again
      ([stale_pass_redispatched], [job_and_queue_agree]), those of running passes
      are not ([release_spares_running]). The sweep deletes exactly what a plan
      no longer covers and breaks no reference ([retention_exact],
      [retention_keeps_references]); what a probe reports ([probeCluster_exact],
      [baselines_busiest]); the phases add up ([phases_report]).
    - Connection strings: what the owner agreed to of the transport is what a string
      is left with, and the check before every connection then passes
      ([pg_overrides_consented], [mssql_overrides_consented]); a rewrite changes
      the one thing it is for ([pg_rewrites_exact], [mssql_rewrites_exact]), by
      cutting a URI into parts that print back, or into segments that do. What
      the segments must be for that ([editable], [ado_editable]) is a condition
      of each; strings that are not so are among the theorems below.
    - Credentials: the role is exactly what is checked for, and reads no document
      ([engine_role_exact], [provisioned_diagnosis], [degraded_role_exact]); a check
      is granted where the code's own [grantsNamespace] has it ([check_exact]);
      provisioning and upgrading touch nothing else, and a failure leaves the user
      as it was ([provision_exact], [upgrade_role_exact]); old grants and the
      statement make today's role ([upgrade_statement_exact]); the notice is shown
      to those known to lack a privilege ([notice_exact]).
    - Dialling: of hosts that are IPv4 addresses, mapped ones, and names that resolve
      to such, a connection string passes exactly when every address it may dial
      lies where its route permits, by first and last numbers and by leading bits
      ([dial_guard_numeric]); of any string, exactly when the guard's own reading
      of it does ([dial_guard_exact]); what an IPv4 address is, as numbers
      ([address_category_exact]); masks and bit strings test a prefix alike
      ([cidr_tests_agree]).
    - The MongoDB engine: the shapes of the profiler are its entries counted
      ([slow_queries_account]), one read of the store is a read per collection
      ([one_store_read_agrees]), and a constant a shape carries is in every
      execution of it and, where it is a text, short and no identifier
      ([workload_literals_guarded]);
      a profiler turned on for a drop comes back as it was, whatever the passes
      between met ([profiler_given_back], [cluster_given_back]), one command is
      enough ([watch_settles]), and a database said to be watched is watched on
      every node ([watched_on_every_node]); failures add up over groups and nodes
      ([sorted_failures_account], [combined_reading_adds_up]); our own reads are
      tallied in a bounded table ([tally_bounded]); its writes are those the
      passes rely on ([mongo_adapter_sound]) and none is sent past its guards
      ([mongo_writes_guarded]).
    - The SQL Server engine: its writes are those the passes rely on
      ([mssql_adapter_sound]), and none reaches the server past its guards
      ([mssql_writes_guarded]); names read back from the statements they are
      quoted in ([qualified_reads_back]); a plan speaks of the tables of its
      database only ([plan_shapes_of_database]); the cache of plans keeps its
      ceiling ([plan_cache_bounded]) and a store too large for one pass, that does not
      change, is read over several while the cache need not give its plans up
      ([plan_reading_converges]).
    - The PostgreSQL engine: which way a build goes ([pg_build_sound]) and when it
      is over ([pg_settle_sound]); names fit ([pg_index_name_fits]). What is read
      off a statement is in it, and statements with the words of joins, sets and
      alternatives are refused ([pg_shape_sound]); one read of the store is a read
      per table, and a database that cannot be entered or lacks the extension
      costs its own tables only ([pg_workload_exact]); each
      statement counts once ([pg_latency_split]).
    - Error reports: a connection string in a text cannot be told from any other
      once it is scrubbed ([scrub_hides_uris]), and an event that is a tree is sent
      clean, key by key ([scrub_event_exact]). Both rest on [Regex], whose engine
      finds exactly the matches there are ([reads_matches]).
    - The overview: what is left of the scans a build was for
      ([build_scans_exact]), and the ends of the footprint over any holes
      ([summarizeFootprint_ends]).
    - Where the code does not do what its comments say, the theorem states what it
      does: [recommend_cover_also_proposed], [consolidation_strands_shape],
      [seen_key_ignores_filter], [quiet_run_not_observed],
      [approved_merge_sent_back], [apply_history_loses_sightings],
      [approve_hidden_strands], [hashed_drop_not_undoable],
      [suggest_charges_its_own_proposal], [spelled_out_address_passes],
      [unread_profiler_forgotten], [sharded_usage_misread],
      [suggestion_counted_twice], [collation_flattened], [pg_unusable_index_covers],
      [pg_partial_build_stalls], [pg_statement_misread], [pg_latency_fractional],
      [scrub_shared_leaks], [scrub_misses_ado], [pg_escaped_key_redirects],
      [pg_malformed_throws], [mssql_strict_weakened], [mssql_brace_redirects],
      [wildcard_covers_config], [discarded_mid_pass_strands],
      [reorder_original_refused].

    ** Conventions, bounds and fuel

    A JavaScript number is an integer [Z] where the code counts or stamps in
    milliseconds, and an exact rational [Q] where it divides; [null] and
    [undefined] are [None], and so is the NaN of an unreadable date. Rounding is
    exact; the one logarithm (the size term of a score) is decided by integer
    powers. [Array.sort] is a stable sort; [localeCompare] is the class [Locale],
    any comparison at all; only the identity of a stored specification assumes it
    is total and transitive ([LocaleOrder]), and of a specification that no two
    keys of an object are equal to it. Loops are folds
    or structural recursion; the one loop with a step bound in the code,
    [creditSpan], carries that bound, [MAX_BUCKET_STEPS], as fuel, and
    [creditSpan_conserves] shows it consumes a whole span of up to 400 days.
    Text is UTF-8. A pass reads one instant, its context's, where the code calls
    [Date.now] several times; a run of [Tasks] has two, its start and its end, and
    work that takes exactly its budget counts as within it.

    ** What is not modelled, and what comes next

    [updatedAt] columns, cluster events and metrics of the passes, the bodies of
    mails; acts and passes that interleave inside one another; answers of
    a server that are lost; SQL Server collations that take cases for equal, and
    table names not in full; plans a cache shares with the pass that still reads
    them (they are values); the served-shape columns of a build; integer-like field names, which a
    JavaScript object would order first; name resolution, which the guard takes
    as functions; the WHATWG URL, a class of what is read of one; white space
    outside ASCII; what graphile-worker does with a job once it is added; cancelling statements; the database driver,
    the text of catalog queries, and the functions installed in a database; HTTP,
    authentication and the dashboard; what the two SQL engines ask of credentials,
    and how they provision. *)
From Stdlib Require Export ZArith QArith Qround Qminmax Lia Lqa.
From Stdlib Require Export Permutation Sorting.Sorted.
From stdpp Require Export base strings list gmap pretty.

#[export] Set Default Goal Selector "!".

Declare Scope js_scope.
Delimit Scope js_scope with js.
#[global] Open Scope Z_scope.

(** ** JavaScript's operators on optional values and numbers *)

(** [a ?? b]: the right operand when the left one is null or undefined. *)
Notation "a ?? b" := (default b a) (at level 41, left associativity) : js_scope.
#[global] Open Scope js_scope.

(** A number as a record field that the code checks with [Number.isFinite]. *)
Inductive jsnum := Finite (q : Q) | NonFinite.

Definition Qltb (x y : Q) : bool := negb (Qle_bool y x).

Definition Math_floor (q : Q) : Z := Qfloor q.
Definition Math_ceil (q : Q) : Z := Qceiling q.
(** [Math.round] rounds half towards positive infinity. *)
Definition Math_round (q : Q) : Z := Qfloor (q + (1 # 2)).

(** ** Arrays *)

(** [Array.prototype.sort] is stable; [le x y] is [compare(x, y) <= 0]. *)
Fixpoint sort_insert {A} (le : A -> A -> bool) (x : A) (l : list A) : list A :=
  match l with
  | [] => [x]
  | y :: l' => if le x y then x :: l else y :: sort_insert le x l'
  end.

Fixpoint stable_sort {A} (le : A -> A -> bool) (l : list A) : list A :=
  match l with
  | [] => []
  | x :: l' => sort_insert le x (stable_sort le l')
  end.

(** The common comparator [(a, b) => key(a) - key(b)]. *)
Definition by_key {A} (key : A -> Z) (x y : A) : bool := key x <=? key y.

(** [array.every((x, i) => f(i, x))] and [array.some((x, i) => f(i, x))]. *)
Fixpoint every_from {A} (i : nat) (f : nat -> A -> bool) (l : list A) : bool :=
  match l with
  | [] => true
  | x :: l' => f i x && every_from (S i) f l'
  end.
Definition every_i {A} (f : nat -> A -> bool) (l : list A) : bool := every_from 0 f l.
Definition some_i {A} (f : nat -> A -> bool) (l : list A) : bool :=
  negb (every_i (fun i x => negb (f i x)) l).

(** [[...new Set(l)]]: insertion order, first occurrence kept. *)
Fixpoint distinct_from (seen l : list string) : list string :=
  match l with
  | [] => []
  | x :: l' =>
      if bool_decide (x ∈ seen) then distinct_from seen l'
      else x :: distinct_from (x :: seen) l'
  end.
Definition distinct_strings (l : list string) : list string := distinct_from [] l.

Definition includes (l : list string) (x : string) : bool := bool_decide (x ∈ l).

(** Sums; a JavaScript [reduce] over exact numbers. *)
Definition zsum {A} (f : A -> Z) (l : list A) : Z := foldr (fun x s => f x + s) 0 l.
Definition qsum {A} (f : A -> Q) (l : list A) : Q := foldr (fun x s => f x + s)%Q 0%Q l.

#[global] Arguments inject_Z : simpl never.
#[global] Arguments Qfloor : simpl never.
#[global] Arguments Qceiling : simpl never.
#[global] Arguments Qplus : simpl never.
#[global] Arguments Qminus : simpl never.
#[global] Arguments Qmult : simpl never.
#[global] Arguments Qdiv : simpl never.
#[global] Arguments Qle_bool : simpl never.
#[global] Arguments zsum : simpl never.
#[global] Arguments qsum : simpl never.

Definition is_some {A} (o : option A) : bool :=
  match o with Some _ => true | None => false end.

(** Text: a decimal number, and [array.join(sep)]. *)
Definition show (z : Z) : string := pretty z.
Fixpoint join (sep : string) (l : list string) : string :=
  match l with
  | [] => ""
  | [x] => x
  | x :: l' => (x +:+ sep +:+ join sep l')%string
  end.

(** [text.includes(part)]. *)
Definition text_includes (text part : string) : bool := is_some (String.index 0 part text).

(** [String.prototype.toLowerCase] on ASCII letters; other bytes are kept. *)
Definition lower_ascii (a : Ascii.ascii) : Ascii.ascii :=
  let n := Ascii.nat_of_ascii a in
  if (65 <=? n)%nat && (n <=? 90)%nat then Ascii.ascii_of_nat (n + 32) else a.
Fixpoint toLowerCase (s : string) : string :=
  match s with
  | EmptyString => EmptyString
  | String a s => String (lower_ascii a) (toLowerCase s)
  end.

(** [Map.set], which keeps a key's place. *)
Fixpoint map_put {V} (k : string) (v : V) (l : list (string * V)) : list (string * V) :=
  match l with
  | [] => [(k, v)]
  | (k', v') :: l => if String.eqb k' k then (k, v) :: l else (k', v') :: map_put k v l
  end.
Definition map_get {V} (k : string) (l : list (string * V)) : option V :=
  snd <$> List.find (fun '(k', _) => String.eqb k' k) l.

Definition map_delete {V} (k : string) (l : list (string * V)) : list (string * V) :=
  List.filter (fun '(k', _) => negb (String.eqb k' k)) l.

(** [x.localeCompare(y) <= 0]: the runtime's locale decides. *)
Class Locale := localeLe : string -> string -> bool.

(** ** Automation *)

Create HintDb js.
Create Rewrite HintDb jsbool.
#[export] Hint Rewrite andb_true_iff andb_false_iff orb_true_iff orb_false_iff
  negb_true_iff negb_false_iff bool_decide_eq_true bool_decide_eq_false : jsbool.

Ltac bools := autorewrite with jsbool in *.
Ltac bcases :=
  repeat match goal with
  | |- context [if ?b then _ else _] => destruct b eqn:?
  | H : context [if ?b then _ else _] |- _ => destruct b eqn:?
  end.

(** ** Lemmas on numbers *)

Lemma Qltb_lt x y : Qltb x y = true <-> (x < y)%Q.
Proof.
  unfold Qltb. rewrite negb_true_iff.
  destruct (Qle_bool y x) eqn:E.
  - apply Qle_bool_iff in E. split; [discriminate|]. intros. lra.
  - split; [|done]. intros _. apply Qnot_le_lt. intros H.
    apply Qle_bool_iff in H. congruence.
Qed.

Lemma Qltb_nlt x y : Qltb x y = false <-> (y <= x)%Q.
Proof.
  rewrite <- not_true_iff_false, Qltb_lt. split; intros; lra.
Qed.

Lemma Qle_bool_niff x y : Qle_bool x y = false <-> (y < x)%Q.
Proof.
  rewrite <- not_true_iff_false, Qle_bool_iff. split; intros; lra.
Qed.

#[export] Hint Rewrite Qltb_lt Qltb_nlt Qle_bool_iff Qle_bool_niff : jsbool.

Lemma inject_Z_sub a b : (inject_Z (a - b) == inject_Z a - inject_Z b)%Q.
Proof. unfold Z.sub. now rewrite inject_Z_plus, inject_Z_opp. Qed.

Lemma Qfloor_ge (q : Q) (z : Z) : (inject_Z z <= q)%Q <-> z <= Qfloor q.
Proof.
  split; intros H.
  - rewrite <- (Qfloor_Z z). now apply Qfloor_resp_le.
  - pose proof (Qfloor_le q). rewrite Zle_Qle in H. lra.
Qed.

Lemma Qfloor_lt_iff (q : Q) (z : Z) : (q < inject_Z z)%Q <-> Qfloor q < z.
Proof.
  pose proof (Qfloor_ge q z). split; intros; [apply Z.nle_gt|]; intros;
    [|apply Qnot_le_lt; intros]; intuition (try lra; try lia).
Qed.

Lemma Math_round_mono (x y : Q) : (x <= y)%Q -> Math_round x <= Math_round y.
Proof. intros. apply Qfloor_resp_le. lra. Qed.

Lemma Math_round_Z z : Math_round (inject_Z z) = z.
Proof.
  unfold Math_round. apply Z.le_antisymm.
  - apply Z.lt_succ_r, Qfloor_lt_iff. rewrite <- Z.add_1_r, inject_Z_plus.
    change (inject_Z 1) with 1%Q. lra.
  - apply Qfloor_ge. lra.
Qed.

(** ** Lemmas on sums *)

Section sums.
Context {A : Type}.
Implicit Types (f g : A -> Z) (l : list A).

Lemma zsum_cons f x l : zsum f (x :: l) = f x + zsum f l.
Proof. done. Qed.

Lemma zsum_app f l1 l2 : zsum f (l1 ++ l2) = zsum f l1 + zsum f l2.
Proof. induction l1 as [|x l1 IH]; [done|]. simpl. rewrite !zsum_cons, IH. lia. Qed.

Lemma zsum_perm f l1 l2 : Permutation l1 l2 -> zsum f l1 = zsum f l2.
Proof. induction 1; rewrite ?zsum_cons in *; lia. Qed.

Lemma zsum_nonneg f l : (forall x, x ∈ l -> 0 <= f x) -> 0 <= zsum f l.
Proof.
  induction l as [|x l IH]; intros H; [done|]. rewrite zsum_cons.
  assert (0 <= f x) by (apply H; left). assert (0 <= zsum f l); [|lia].
  apply IH. intros y Hy. apply H. by right.
Qed.

Lemma zsum_le f g l : (forall x, x ∈ l -> f x <= g x) -> zsum f l <= zsum g l.
Proof.
  induction l as [|x l IH]; intros H; [done|]. rewrite !zsum_cons.
  assert (f x <= g x) by (apply H; left). assert (zsum f l <= zsum g l); [|lia].
  apply IH. intros y Hy. apply H. by right.
Qed.

Lemma zsum_ext f g l : (forall x, x ∈ l -> f x = g x) -> zsum f l = zsum g l.
Proof.
  intros H. apply Z.le_antisymm; apply zsum_le; intros x Hx; rewrite H by done; lia.
Qed.

Lemma qsum_nonneg (f : A -> Q) l : (forall x, x ∈ l -> 0 <= f x)%Q -> (0 <= qsum f l)%Q.
Proof.
  induction l as [|x l IH]; intros H; [done|].
  change (0 <= f x + qsum f l)%Q. assert (0 <= f x)%Q by (apply H; left). assert (0 <= qsum f l)%Q; [|lra].
  apply IH. intros y Hy. apply H. by right.
Qed.
End sums.

Lemma qsum_cons {A} (f : A -> Q) x l : qsum f (x :: l) = (f x + qsum f l)%Q.
Proof. done. Qed.

(** ** Lemmas on the stable sort *)

Section stable_sort.
Context {A : Type} (le : A -> A -> bool).
Abbreviation sorted := (StronglySorted (fun x y => le x y = true)).

Lemma sort_insert_perm x l : Permutation (sort_insert le x l) (x :: l).
Proof.
  induction l as [|y l IH]; simpl; [done|]. destruct (le x y); [done|].
  rewrite IH. apply perm_swap.
Qed.

Lemma stable_sort_perm l : Permutation (stable_sort le l) l.
Proof.
  induction l as [|x l IH]; simpl; [done|]. rewrite sort_insert_perm. by constructor.
Qed.

Lemma elem_of_stable_sort x l : x ∈ stable_sort le l <-> x ∈ l.
Proof. by rewrite stable_sort_perm. Qed.

Lemma stable_sort_id l : sorted l -> stable_sort le l = l.
Proof.
  induction 1 as [|x l Hl IH Hx]; simpl; [done|]. rewrite IH.
  destruct l as [|y l]; [done|]. simpl. inv Hx. by rewrite H1.
Qed.

Hypothesis le_total : forall x y, le x y = false -> le y x = true.
Hypothesis le_trans : forall x y z, le x y = true -> le y z = true -> le x z = true.

Lemma sort_insert_sorted x l : sorted l -> sorted (sort_insert le x l).
Proof.
  induction 1 as [|y l Hl IH Hy]; simpl; [repeat constructor|].
  destruct (le x y) eqn:E.
  - constructor; [by constructor|]. constructor; [done|].
    eapply Forall_impl; [done|]. intros z Hz. by eapply le_trans.
  - constructor; [done|]. rewrite sort_insert_perm. constructor; auto.
Qed.

Lemma stable_sort_sorted l : sorted (stable_sort le l).
Proof. induction l; simpl; [constructor|]. by apply sort_insert_sorted. Qed.

Lemma stable_sort_idemp l : stable_sort le (stable_sort le l) = stable_sort le l.
Proof. apply stable_sort_id, stable_sort_sorted. Qed.

Hypothesis le_antisym : forall x y, le x y = true -> le y x = true -> x = y.

Lemma sorted_perm_unique l1 l2 : sorted l1 -> sorted l2 -> Permutation l1 l2 -> l1 = l2.
Proof.
  intros H1. revert l2. induction H1 as [|x l1 Hl1 IH Hx]; intros l2 H2 HP.
  { apply Permutation_nil in HP. done. }
  destruct H2 as [|y l2 Hl2 Hy].
  { symmetry in HP. by apply Permutation_nil_cons in HP. }
  rewrite List.Forall_forall in Hx, Hy.
  assert (x = y) as ->.
  { assert (x ∈ y :: l2) as Hx2 by (rewrite <- HP; left).
    assert (y ∈ x :: l1) as Hy1 by (rewrite HP; left).
    apply elem_of_cons in Hx2 as [?|Hx2]; [done|].
    apply elem_of_cons in Hy1 as [?|Hy1]; [done|].
    rewrite list_elem_of_In in Hx2, Hy1. eauto. }
  f_equal. apply IH; [done|]. by apply Permutation_cons_inv in HP.
Qed.

Lemma stable_sort_of_perm l1 l2 :
  Permutation l1 l2 -> stable_sort le l1 = stable_sort le l2.
Proof.
  intros. apply sorted_perm_unique; [apply stable_sort_sorted..|].
  by rewrite !stable_sort_perm.
Qed.
End stable_sort.

Section by_key.
Context {A : Type} (key : A -> Z).

Lemma by_key_total x y : by_key key x y = false -> by_key key y x = true.
Proof. unfold by_key. lia. Qed.
Lemma by_key_trans x y z :
  by_key key x y = true -> by_key key y z = true -> by_key key x z = true.
Proof. unfold by_key. lia. Qed.
End by_key.
#[export] Hint Resolve by_key_total by_key_trans : js.

(** ** Lemmas on arrays *)

Lemma every_from_spec {A} (f : nat -> A -> bool) l i :
  every_from i f l = true <-> forall j x, l !! j = Some x -> f (i + j)%nat x = true.
Proof.
  revert i. induction l as [|y l IH]; intros i; simpl.
  { split; [|done]. intros _ j x. by rewrite lookup_nil. }
  rewrite andb_true_iff, IH. split.
  - intros [H1 H2] [|j] x Hx; simplify_eq/=.
    + by rewrite Nat.add_0_r.
    + rewrite Nat.add_succ_r. by apply H2.
  - intros H. split.
    + specialize (H 0%nat y eq_refl). by rewrite Nat.add_0_r in H.
    + intros j x Hx. specialize (H (S j) x Hx). by rewrite Nat.add_succ_r in H.
Qed.

Lemma every_i_spec {A} (f : nat -> A -> bool) l :
  every_i f l = true <-> forall j x, l !! j = Some x -> f j x = true.
Proof. apply every_from_spec. Qed.

Lemma some_i_spec {A} (f : nat -> A -> bool) l :
  some_i f l = true <-> exists j x, l !! j = Some x /\ f j x = true.
Proof.
  unfold some_i. rewrite negb_true_iff, <- not_true_iff_false, every_i_spec.
  split.
  - intros H. induction l as [|y l IH] using rev_ind.
    { destruct H. intros j x. by rewrite lookup_nil. }
    destruct (f (length l) y) eqn:E.
    { exists (length l), y. split; [|done]. by apply list_lookup_middle. }
    destruct IH as (j & x & Hx & Hf).
    { intros IH. apply H. intros j x Hx.
      apply lookup_app_Some in Hx as [Hx|[Hl Hx]]; [by apply IH|].
      apply list_lookup_singleton_Some in Hx as [Hj ->].
      replace j with (length l) by lia. by rewrite E. }
    exists j, x. split; [|done]. by apply lookup_app_l_Some.
  - intros (j & x & Hx & Hf) H. specialize (H j x Hx). by rewrite Hf in H.
Qed.

Lemma elem_of_distinct_from x seen l :
  x ∈ distinct_from seen l <-> x ∈ l /\ x ∉ seen.
Proof.
  revert seen. induction l as [|y l IH]; intros seen; simpl; [set_solver|].
  case_bool_decide; [rewrite IH; set_solver|].
  rewrite elem_of_cons, IH. destruct (decide (x = y)) as [->|]; set_solver.
Qed.

Lemma distinct_from_NoDup seen l : NoDup (distinct_from seen l).
Proof.
  revert seen. induction l as [|y l IH]; intros seen; simpl; [constructor|].
  case_bool_decide; [done|]. constructor; [|done].
  rewrite elem_of_distinct_from. set_solver.
Qed.

Lemma elem_of_distinct_strings x l : x ∈ distinct_strings l <-> x ∈ l.
Proof. unfold distinct_strings. rewrite elem_of_distinct_from. set_solver. Qed.

Lemma includes_spec l x : includes l x = true <-> x ∈ l.
Proof. apply bool_decide_eq_true. Qed.
#[export] Hint Rewrite includes_spec @every_i_spec @some_i_spec : jsbool.

Lemma elem_of_filter_bool {A} (f : A -> bool) l x :
  x ∈ List.filter f l <-> x ∈ l /\ f x = true.
Proof. rewrite !list_elem_of_In. apply List.filter_In. Qed.

Lemma existsb_elem {A} (f : A -> bool) l :
  existsb f l = true <-> exists x, x ∈ l /\ f x = true.
Proof. rewrite existsb_exists. by setoid_rewrite list_elem_of_In. Qed.

Lemma forallb_elem {A} (f : A -> bool) l :
  forallb f l = true <-> forall x, x ∈ l -> f x = true.
Proof. rewrite forallb_forall. by setoid_rewrite list_elem_of_In. Qed.
#[export] Hint Rewrite @existsb_elem @forallb_elem @elem_of_filter_bool : jsbool.

Lemma find_elem {A} (f : A -> bool) l x :
  List.find f l = Some x -> x ∈ l /\ f x = true.
Proof. intros H. by destruct (List.find_some _ _ H) as [?%list_elem_of_In ?]. Qed.

Lemma find_none_elem {A} (f : A -> bool) l x :
  List.find f l = None -> x ∈ l -> f x = false.
Proof. intros H Hx%list_elem_of_In. by eapply List.find_none. Qed.

Lemma StronglySorted_filter {A} (R : A -> A -> Prop) (f : A -> bool) l :
  StronglySorted R l -> StronglySorted R (List.filter f l).
Proof.
  induction 1 as [|x l Hl IH Hx]; simpl; [constructor|].
  destruct (f x); [|done]. constructor; [done|].
  rewrite List.Forall_forall in *. intros y [Hy _]%List.filter_In. auto.
Qed.

Lemma Forall2_both {A B} (P Q : A -> B -> Prop) l k :
  Forall2 P l k -> Forall2 Q l k -> Forall2 (fun x y => P x y /\ Q x y) l k.
Proof. induction 1; intros HQ; inv HQ; constructor; auto. Qed.

Lemma filter_all {A} (f : A -> bool) l : (forall x, x ∈ l -> f x = true) -> List.filter f l = l.
Proof.
  induction l as [|x l IH]; intros H; simpl; [done|]. rewrite H by left. f_equal. apply IH.
  intros y Hy. apply H. by right.
Qed.

Lemma filter_ext_bool {A} (f g : A -> bool) l :
  (forall x, x ∈ l -> f x = g x) -> List.filter f l = List.filter g l.
Proof.
  induction l as [|x l IH]; intros Hfg; [done|]. simpl. rewrite (Hfg x) by left.
  rewrite IH; [done|]. intros. apply Hfg. by right.
Qed.
Lemma filter_filter_bool {A} (f g : A -> bool) l :
  List.filter f (List.filter g l) = List.filter (fun x => g x && f x) l.
Proof. induction l as [|x l IH]; [done|]. simpl. destruct (g x); simpl; [|done]. by rewrite IH. Qed.
Lemma filter_length_sublist {A} (f : A -> bool) (xs ys : list A) :
  xs `sublist_of` ys -> (length (List.filter f xs) <= length (List.filter f ys))%nat.
Proof. induction 1; simpl; [done| |]; destruct (f x); simpl; lia. Qed.
Lemma filter_nothing {A} (f : A -> bool) l : (forall x, x ∈ l -> f x = false) -> List.filter f l = [].
Proof.
  induction l as [|x l IH]; intros H; simpl; [done|]. rewrite H by left. apply IH.
  intros y Hy. apply H. by right.
Qed.

Lemma sort_insert_fmap {A B} (le : A -> A -> bool) (le' : B -> B -> bool) (f : A -> B) x l :
  (forall a b, le' (f a) (f b) = le a b) -> sort_insert le' (f x) (f <$> l) = f <$> sort_insert le x l.
Proof. intros Hf. induction l as [|y l IH]; [done|]. cbn. rewrite Hf. destruct (le x y); [done|]. cbn. f_equal. exact IH. Qed.
Lemma stable_sort_fmap {A B} (le : A -> A -> bool) (le' : B -> B -> bool) (f : A -> B) l :
  (forall a b, le' (f a) (f b) = le a b) -> stable_sort le' (f <$> l) = f <$> stable_sort le l.
Proof. intros Hf. induction l as [|x l IH]; [done|]. cbn. fold (f <$> l). rewrite IH. by apply sort_insert_fmap. Qed.
Lemma filter_fmap_bool {A B} (f : B -> bool) (g : A -> B) l : List.filter f (g <$> l) = g <$> List.filter (fun x => f (g x)) l.
Proof. induction l as [|x l IH]; [done|]. cbn. fold (g <$> l). rewrite IH. by destruct (f (g x)). Qed.
Lemma NoDup_fmap_filter {A B} (f : A -> bool) (g : A -> B) l :
  NoDup (g <$> l) -> NoDup (g <$> List.filter f l).
Proof.
  induction l as [|x l IH]; csimpl; [done|]. intros [Hx Hl]%NoDup_cons.
  destruct (f x); [|auto]. csimpl. constructor; [|auto].
  intros (y & Ey & [Hy _]%elem_of_filter_bool)%list_elem_of_fmap. apply Hx. rewrite Ey.
  by apply list_elem_of_fmap_2.
Qed.

Lemma omap_ext_elem {A B} (f g : A -> option B) (l : list A) :
  (forall x, x ∈ l -> f x = g x) -> omap f l = omap g l.
Proof.
  induction l as [|x l IH]; intros H; [done|]. csimpl. rewrite (H x) by left.
  by rewrite IH by (intros y Hy; apply H; by right).
Qed.

Lemma omap_fmap {A B C} (f : B -> option C) (g : A -> B) (l : list A) :
  omap f (g <$> l) = omap (fun x => f (g x)) l.
Proof. induction l as [|x l IH]; [done|]. csimpl. by rewrite IH. Qed.

Lemma omap_sublist {A B} (f g : A -> option B) (l : list A) :
  (forall x, x ∈ l -> g x = f x \/ g x = None) -> omap g l `sublist_of` omap f l.
Proof.
  induction l as [|x l IH]; intros H; [constructor|]. csimpl.
  assert (omap g l `sublist_of` omap f l) by (apply IH; intros y Hy; apply H; by right).
  destruct (H x) as [-> | ->]; [left| |]; destruct (f x); (done || by constructor).
Qed.

Lemma sublist_filter_bool {A} (f : A -> bool) l : List.filter f l `sublist_of` l.
Proof. induction l as [|x l IH]; simpl; [constructor|]. destruct (f x); by constructor. Qed.

Lemma Forall_filter_bool {A} (P : A -> Prop) (f : A -> bool) l : Forall P l -> Forall P (List.filter f l).
Proof. induction 1; simpl; [constructor|]. destruct (f _); [constructor|]; done. Qed.

#[export] Instance filter_bool_perm {A} (f : A -> bool) :
  Proper (Permutation ==> Permutation) (List.filter f).
Proof.
  intros l1 l2 HP. induction HP as [|x l1 l2 _ IH|x y l|l1 l2 l3 _ IH1 _ IH2]; simpl; [done| | |by etransitivity].
  - by destruct (f x); [constructor|].
  - destruct (f x), (f y); try done. apply perm_swap.
Qed.

(** ** Maps *)

Lemma map_get_put {V} k k' (v : V) m : map_get k (map_put k' v m) = if String.eqb k' k then Some v else map_get k m.
Proof.
  unfold map_get. induction m as [|[x y] m IH]; cbn; [by destruct (String.eqb k' k)|].
  destruct (String.eqb x k') eqn:E1; cbn.
  - apply String.eqb_eq in E1 as ->. by destruct (String.eqb k' k).
  - destruct (String.eqb x k) eqn:E2; cbn; [|exact IH].
    apply String.eqb_eq in E2 as ->. by rewrite String.eqb_sym, E1.
Qed.
Lemma map_get_delete {V} k k' (m : list (string * V)) :
  map_get k (map_delete k' m) = if String.eqb k' k then None else map_get k m.
Proof.
  unfold map_get, map_delete. induction m as [|[x y] m IH]; cbn; [by destruct (String.eqb k' k)|].
  destruct (String.eqb x k') eqn:E1; cbn.
  - apply String.eqb_eq in E1 as ->. rewrite IH. by destruct (String.eqb k' k).
  - destruct (String.eqb x k) eqn:E2; cbn; [|exact IH]. apply String.eqb_eq in E2 as ->.
    by rewrite String.eqb_sym, E1.
Qed.
Lemma map_get_none {V} k (m : list (string * V)) : k ∉ m.*1 -> map_get k m = None.
Proof.
  unfold map_get. induction m as [|[x y] m IH]; cbn; [done|]. intros [Hx Hm]%not_elem_of_cons.
  destruct (String.eqb x k) eqn:E; [apply String.eqb_eq in E; congruence|by apply IH].
Qed.
Lemma map_get_elem {V} k (v : V) m : NoDup m.*1 -> map_get k m = Some v <-> (k, v) ∈ m.
Proof.
  induction m as [|[x y] m IH]; cbn; [by split; [|intros ?%elem_of_nil]|]. intros [Hx Hn]%NoDup_cons.
  rewrite elem_of_cons. unfold map_get. cbn. destruct (String.eqb x k) eqn:E.
  - apply String.eqb_eq in E as ->. cbn. split; [intros [= ->]; by left|]. intros [[= ->]|Hm]; [done|].
    exfalso. apply Hx. by apply (list_elem_of_fmap_2 fst _ (k, v)).
  - rewrite <- IH by done. apply String.eqb_neq in E. unfold map_get. naive_solver.
Qed.
Lemma map_put_keys {V} k (v : V) (m : list (string * V)) :
  (map_put k v m).*1 = m.*1 ++ (if bool_decide (k ∈ m.*1) then [] else [k]).
Proof.
  induction m as [|[k' v'] m IH]; [done|]. cbn -[bool_decide]. destruct (String.eqb_spec k' k) as [->|Hne].
  - rewrite bool_decide_true by left. csimpl. by rewrite app_nil_r.
  - csimpl. rewrite IH. do 2 f_equal. apply (f_equal (fun b : bool => if b then [] else [k])).
    apply bool_decide_ext. rewrite elem_of_cons. naive_solver.
Qed.
Lemma map_put_nodup {V} k (v : V) (m : list (string * V)) : NoDup m.*1 -> NoDup (map_put k v m).*1.
Proof.
  intros Hm. rewrite map_put_keys. case_bool_decide as E; [by rewrite app_nil_r|].
  apply NoDup_app. split_and!; [done| |apply NoDup_singleton]. intros x Hx ->%list_elem_of_singleton. done.
Qed.
Lemma map_delete_nodup {V} k (m : list (string * V)) : NoDup m.*1 -> NoDup (map_delete k m).*1.
Proof. apply NoDup_fmap_filter. Qed.
