(* ===== verification/Relational.v ===== *)
(** What the queries of the program use of SQL beyond a selection: window
    functions over one partition, groups and aggregates.  A partition is the list
    of its rows in the order of the window; the order of the groups of a query is
    not defined, and nothing below depends on it. *)
From S2P Require Import Prelude.

(** ** Windows *)

Section windows.
Context {A : Type}.
Implicit Types (l : list A).

(** [row_number() over w] and [lag(x) over w], beside each row. *)
Fixpoint windowed (ordinal : Z) (prev : option A) (l : list A) : list (Z * option A * A) :=
  match l with
  | [] => []
  | x :: l => (ordinal, prev, x) :: windowed (ordinal + 1) (Some x) l
  end.
Definition over l : list (Z * option A * A) := windowed 1 None l.

(** [lead(x) over w]. *)
Fixpoint leading l : list (A * option A) :=
  match l with
  | [] => []
  | x :: l => (x, head l) :: leading l
  end.

(** [sum(f) over (order by ...)], up to and with the row. *)
Fixpoint running (f : A -> Z) (sofar : Z) (l : list A) : list (A * Z) :=
  match l with
  | [] => []
  | x :: l => (x, sofar + f x) :: running f (sofar + f x) l
  end.
End windows.

(** ** Groups *)

Section groups.
Context {A K : Type} `{EqDecision K} (key : A -> K).

Definition rows_with (k : K) (l : list A) : list A := List.filter (fun x => bool_decide (key x = k)) l.
Definition group_by (l : list A) : list (K * list A) := (fun k => (k, rows_with k l)) <$> remove_dups (key <$> l).
End groups.

(** ** Aggregates, which are null over no rows *)

Definition sql_max (l : list Z) : option Z := match l with [] => None | x :: l => Some (fold_left Z.max l x) end.
Definition sql_min (l : list Z) : option Z := match l with [] => None | x :: l => Some (fold_left Z.min l x) end.
Definition sql_sum {A} (f : A -> Z) (l : list A) : option Z := match l with [] => None | _ => Some (zsum f l) end.
Definition count_where {A} (f : A -> bool) (l : list A) : Z := Z.of_nat (length (List.filter f l)).

(** ** Lemmas *)

Section lemmas.
Context {A K : Type} `{EqDecision K} (key : A -> K).

Lemma elem_of_group_by k rows l : (k, rows) ∈ group_by key l <-> k ∈ (key <$> l) /\ rows = rows_with key k l.
Proof.
  unfold group_by. rewrite list_elem_of_fmap. split.
  - intros (k' & E & Hk). injection E as -> ->. rewrite elem_of_remove_dups in Hk. by split.
  - intros [Hk ->]. exists k. split; [done|]. by apply elem_of_remove_dups.
Qed.
Lemma group_by_keys l : NoDup (group_by key l).*1.
Proof. unfold group_by. rewrite <- list_fmap_compose, list_fmap_id. apply NoDup_remove_dups. Qed.

(** The rows of one key apart from all others are a group. *)
Lemma group_by_split k segment rest : segment <> [] -> Forall (fun x => key x = k) segment -> Forall (fun x => key x <> k) rest ->
  group_by key (segment ++ rest) ≡ₚ (k, segment) :: group_by key rest.
Proof.
  intros Hne Hs Hr. unfold group_by.
  assert (rows_with key k (segment ++ rest) = segment) as Ek.
  { unfold rows_with. rewrite List.filter_app, filter_all, filter_nothing, app_nil_r; [done| |].
    - intros x Hx. rewrite Forall_forall in Hr. by apply bool_decide_eq_false_2, Hr.
    - intros x Hx. rewrite Forall_forall in Hs. by apply bool_decide_eq_true_2, Hs. }
  assert (forall k', k' <> k -> rows_with key k' (segment ++ rest) = rows_with key k' rest) as Eo.
  { intros k' Hk. unfold rows_with. rewrite List.filter_app, filter_nothing; [done|].
    intros x Hx. rewrite Forall_forall in Hs. apply bool_decide_eq_false_2. rewrite (Hs x Hx). congruence. }
  assert (k ∉ (key <$> rest)) as Hk. { intros (x & -> & Hx)%list_elem_of_fmap. rewrite Forall_forall in Hr. by apply (Hr x). }
  assert (remove_dups (key <$> segment ++ rest) ≡ₚ k :: remove_dups (key <$> rest)) as Hp.
  { apply NoDup_Permutation; [apply NoDup_remove_dups|constructor; [by rewrite elem_of_remove_dups|apply NoDup_remove_dups]|].
    intros y. rewrite elem_of_cons, !elem_of_remove_dups, fmap_app, elem_of_app.
    split; [|intros [->|?]; [left|by right]].
    - intros [(x & -> & Hx)%list_elem_of_fmap|?]; [left|by right]. rewrite Forall_forall in Hs. by apply Hs.
    - destruct segment as [|x segment]; [done|]. apply list_elem_of_fmap. exists x. split; [|left]. symmetry. by inversion Hs. }
  rewrite Hp. cbn [fmap list_fmap]. rewrite Ek. constructor.
  apply reflexive_eq, list_fmap_ext. intros i k' Hk'%list_elem_of_lookup_2. rewrite elem_of_remove_dups in Hk'. by rewrite Eo by (intros ->; done).
Qed.
Lemma group_by_nil : group_by key [] = [].
Proof. done. Qed.
End lemmas.

Lemma sql_max_spec l : match sql_max l with None => l = [] | Some m => m ∈ l /\ forall x, x ∈ l -> x <= m end.
Proof.
  destruct l as [|x l]; [done|]. cbn. revert x. induction l as [|y l IH]; intros x; cbn.
  { split; [left|]. intros z [->|[]%elem_of_nil]%elem_of_cons. lia. }
  destruct (IH (Z.max x y)) as [Hin Hle]. split.
  - apply elem_of_cons in Hin as [E|Hin]; [|by right; right]. rewrite E. destruct (Z.max_spec x y) as [[_ ->]|[_ ->]]; [right; left|left].
  - intros z Hz. assert (Z.max x y <= fold_left Z.max l (Z.max x y)) by (apply Hle; left).
    apply elem_of_cons in Hz as [->|[->|Hz]%elem_of_cons]; [lia|lia|]. apply Hle. by right.
Qed.
Lemma sql_min_spec l : match sql_min l with None => l = [] | Some m => m ∈ l /\ forall x, x ∈ l -> m <= x end.
Proof.
  destruct l as [|x l]; [done|]. cbn. revert x. induction l as [|y l IH]; intros x; cbn.
  { split; [left|]. intros z [->|[]%elem_of_nil]%elem_of_cons. lia. }
  destruct (IH (Z.min x y)) as [Hin Hle]. split.
  - apply elem_of_cons in Hin as [E|Hin]; [|by right; right]. rewrite E. destruct (Z.min_spec x y) as [[_ ->]|[_ ->]]; [left|right; left].
  - intros z Hz. assert (fold_left Z.min l (Z.min x y) <= Z.min x y) by (apply Hle; left).
    apply elem_of_cons in Hz as [->|[->|Hz]%elem_of_cons]; [lia|lia|]. apply Hle. by right.
Qed.
Lemma sql_max_is l m : m ∈ l -> (forall x, x ∈ l -> x <= m) -> sql_max l = Some m.
Proof.
  intros Hm Hle. pose proof (sql_max_spec l) as H. destruct (sql_max l) as [m'|]; [|subst; set_solver].
  destruct H as [Hin Hle']. f_equal. apply Z.le_antisymm; auto.
Qed.
Lemma sql_min_is l m : m ∈ l -> (forall x, x ∈ l -> m <= x) -> sql_min l = Some m.
Proof.
  intros Hm Hle. pose proof (sql_min_spec l) as H. destruct (sql_min l) as [m'|]; [|subst; set_solver].
  destruct H as [Hin Hle']. f_equal. apply Z.le_antisymm; auto.
Qed.
Lemma mjoin_cons {A} (x : list A) l : mjoin (x :: l) = x ++ mjoin l.
Proof. done. Qed.
Lemma zsum_fmap {A B} (f : B -> Z) (g : A -> B) l : zsum f (g <$> l) = zsum (fun x => f (g x)) l.
Proof. induction l as [|x l IH]; [done|]. cbn [fmap list_fmap]. by rewrite !zsum_cons, <- IH. Qed.
Lemma zsum_one {A} (l : list A) : zsum (fun _ => 1) l = Z.of_nat (length l).
Proof. induction l as [|x l IH]; [done|]. rewrite zsum_cons, IH. cbn [length]. lia. Qed.

(** ** Spans that an exclusion constraint keeps apart *)

Lemma ordpairs_perm {A} (R : A -> A -> Prop) l l' : (forall a b, R a b -> R b a) -> l ≡ₚ l' -> ForallOrdPairs R l -> ForallOrdPairs R l'.
Proof.
  intros HR Hp. induction Hp as [|x l l' Hp IH|x y l|l1 l2 l3 _ IH1 _ IH2]; intros Hf; [done| | |by auto].
  - inversion Hf; subst. constructor; [by rewrite <- Hp|auto].
  - inversion Hf as [|? ? Hx Hf']; subst. inversion Hf' as [|? ? Hy Hf'']; subst. apply Forall_cons in Hx as [Hxy Hx].
    constructor; [|by constructor]. constructor; [by apply HR|done].
Qed.
Lemma ordpairs_filter {A} (R : A -> A -> Prop) f l : ForallOrdPairs R l -> ForallOrdPairs R (List.filter f l).
Proof.
  induction 1 as [|x l Hx Hl IH]; [constructor|]. cbn. destruct (f x); [|done]. constructor; [|done].
  apply Forall_forall. intros y [Hy _]%elem_of_filter_bool. rewrite Forall_forall in Hx. auto.
Qed.

Section spans.
Context {A K : Type} (key : A -> K) (start fin : A -> Z).

(** [EXCLUDE USING gist (key WITH =, span WITH &&)], of inclusive spans. *)
Definition disjoint_spans (a b : A) : Prop := key a = key b -> fin a < start b \/ fin b < start a.
Definition spans_apart (a b : A) : Prop := fin a < start b.

Lemma intervals_apart rows : Forall (fun r => start r <= fin r) rows -> ForallOrdPairs disjoint_spans rows ->
  (forall a b, a ∈ rows -> b ∈ rows -> key a = key b) -> StronglySorted spans_apart (stable_sort (by_key start) rows).
Proof.
  intros Hok Hd Hi. assert (StronglySorted (fun x y => by_key start x y = true) (stable_sort (by_key start) rows)) as HS by (apply stable_sort_sorted; eauto with js).
  assert (ForallOrdPairs disjoint_spans (stable_sort (by_key start) rows)) as Hd'.
  { eapply ordpairs_perm; [|symmetry; apply stable_sort_perm|done]. unfold disjoint_spans. intros a b Hab E. specialize (Hab (eq_sym E)). tauto. }
  assert (forall r, r ∈ stable_sort (by_key start) rows -> r ∈ rows) as Hsub by (intros r; apply elem_of_stable_sort).
  revert HS Hd' Hsub. generalize (stable_sort (by_key start) rows) as l.
  induction l as [|r l IH]; intros HS Hd' Hsub; [constructor|]. apply StronglySorted_inv in HS as [HS Hr]. inversion Hd' as [|? ? Hdr Hdl]; subst.
  constructor; [apply IH; [done|done|intros; apply Hsub; by right]|]. rewrite Forall_forall in *. intros b Hb.
  specialize (Hr b Hb). specialize (Hdr b Hb). unfold by_key in Hr. unfold spans_apart.
  assert (start b <= fin b) by (apply Hok, Hsub; by right).
  destruct Hdr as [?|?]; [apply Hi; apply Hsub; [left|by right]|done|lia].
Qed.
Lemma last_interval rows r : StronglySorted spans_apart rows -> Forall (fun r => start r <= fin r) rows -> last rows = Some r ->
  r ∈ rows /\ forall x, x ∈ rows -> fin x <= fin r.
Proof.
  intros HS Hok E. pose proof (last_Some_elem_of _ _ E) as Hr. split; [done|]. revert E Hr.
  induction HS as [|x l HS IH Hx]; intros E Hr; [done|]. apply Forall_cons in Hok as [Hokx Hok].
  intros y [->|Hy]%elem_of_cons.
  - destruct l as [|z l]; [cbn in E; injection E as ->; lia|].
    assert (r ∈ z :: l) as Hr' by (by apply last_Some_elem_of). rewrite Forall_forall in Hx, Hok. specialize (Hx r Hr'). specialize (Hok r Hr').
    unfold spans_apart in Hx. lia.
  - destruct l as [|z l]; [by apply elem_of_nil in Hy|]. apply IH; [done|done| |done]. by apply last_Some_elem_of.
Qed.
Lemma first_interval r rows x : StronglySorted spans_apart (r :: rows) -> Forall (fun r => start r <= fin r) (r :: rows) -> x ∈ r :: rows -> start r <= start x.
Proof.
  intros HS Hok [->|Hx]%elem_of_cons; [lia|]. apply StronglySorted_inv in HS as [_ Hr]. rewrite Forall_forall in Hr. specialize (Hr x Hx).
  apply Forall_cons in Hok as [? _]. unfold spans_apart in Hr. lia.
Qed.
End spans.

Lemma windowed_rows {A} (l : list A) : forall ordinal prev, snd <$> windowed ordinal prev l = l.
Proof. induction l as [|x l IH]; intros; [done|]. cbn. f_equal. apply IH. Qed.
Lemma group_found {A} (key : A -> nat) (l : list A) id :
  snd <$> List.find (fun g => Nat.eqb g.1 id) (group_by key l) = match rows_with key id l with [] => None | rows => Some rows end.
Proof.
  destruct (List.find _ _) as [[k rows]|] eqn:E; cbn.
  - apply List.find_some in E as [Hin Hk]. cbn in Hk. apply Nat.eqb_eq in Hk as ->. apply list_elem_of_In, elem_of_group_by in Hin as [Hin ->].
    apply list_elem_of_fmap in Hin as (x & -> & Hx). destruct (rows_with key (key x) l) as [|y ys] eqn:Er; [|done]. exfalso.
    assert (x ∈ rows_with key (key x) l) as Hx'. { apply elem_of_filter_bool. split; [done|]. by apply bool_decide_eq_true. }
    rewrite Er in Hx'. by apply elem_of_nil in Hx'.
  - destruct (rows_with key id l) as [|x xs] eqn:Er; [done|]. exfalso.
    assert (x ∈ rows_with key id l) as [Hx Hk%bool_decide_eq_true]%elem_of_filter_bool by (rewrite Er; left).
    assert ((id, x :: xs) ∈ group_by key l) as Hg. { apply elem_of_group_by. split; [|done]. rewrite <- Hk. by apply list_elem_of_fmap_2. }
    apply list_elem_of_In in Hg. apply (List.find_none _ _ E) in Hg. cbn in Hg. by rewrite Nat.eqb_refl in Hg.
Qed.
