(* ===== verification/EngineTypes.v ===== *)
(** The vocabulary the engine's ports are written in: what an index is, what a
    query shape is, what a server-health reading is.  Models
    [apps/api/src/engine/types.ts], with the enums of
    [packages/contracts/src/schemas.ts] the engine reads and writes. *)
From S2P Require Import Prelude.

(** ** The enumerations the api and the dashboard share *)

Inductive RecommendationType :=
  | DROP_UNUSED | DROP_REDUNDANT | MERGE | CREATE | UPDATE | REORDER | ADVISORY_REVIEW.

Inductive UsageClass := CONTINUOUS | PERIODIC_ALIVE | PERIODIC_DEAD | FLAT_ZERO.

Inductive RecommendationState :=
  | PROPOSED | APPROVED | HIDDEN | OBSERVE | DROPPED | SCHEDULED | BUILDING | ACTIVE
  | ROLLED_BACK | REJECTED.

Inductive WorkloadOutcome :=
  | proposed | below_cost_floor | not_recurring | ad_hoc_client | cooldown | standing
  | index_exists | no_candidate.

Inductive ClusterEngine := MONGODB | POSTGRESQL | MSSQL.

#[export] Instance RecommendationType_eq_dec : EqDecision RecommendationType.
Proof. solve_decision. Defined.
#[export] Instance UsageClass_eq_dec : EqDecision UsageClass.
Proof. solve_decision. Defined.
#[export] Instance RecommendationState_eq_dec : EqDecision RecommendationState.
Proof. solve_decision. Defined.
#[export] Instance WorkloadOutcome_eq_dec : EqDecision WorkloadOutcome.
Proof. solve_decision. Defined.
#[export] Instance ClusterEngine_eq_dec : EqDecision ClusterEngine.
Proof. solve_decision. Defined.

(** The two directions that describe an order, [1] and [-1]. *)
Inductive SortDirection := Pos | Neg.

(** [1 | -1 | "2d" | "2dsphere" | "text" | "hashed"]. *)
Inductive IndexDirection :=
  | Ordered (d : SortDirection) | TwoD | TwoDSphere | Text | Hashed.

Record IndexKey := { field : string; direction : IndexDirection }.

(** A JSON value, for the parts of a spec the code types as [unknown]. *)
Inductive json :=
  | JNull | JBool (b : bool) | JNum (q : Q) | JStr (s : string)
  | JArr (l : list json) | JObj (l : list (string * json)).

Record IndexSpec := {
  name : string;
  keys : list IndexKey;
  unique : bool;
  ttl : bool;
  partial : bool;
  partialFilter : option (list (string * json));
  sparse : bool;
  hidden : bool;
  isShardKey : bool;
  collation : option string;
  include : option (list string);
}.

Record QueryClient := { application : option string; driver : option string }.

Record SortKey := { sk_field : string; sk_direction : SortDirection }.

(** A literal an equality predicate compared against in every sample. *)
Inductive ConstantValue := CStr (s : string) | CNum (q : Q) | CBool (b : bool).

Record LookupJoin := { from : string; foreignField : string }.

Record QueryShape := {
  equality : list string;
  sort : list SortKey;
  range : list string;
  collscan : bool;
  sortedInMemory : option bool;
  count : Z;
  docsExamined : option Z;
  observedForHours : option Q;
  clients : option (list QueryClient);
  constants : option (list (string * ConstantValue));
  lookups : option (list LookupJoin);
}.

Record ServerHealth := {
  collectionScans : Z;
  scannedObjects : Z;
  scannedKeys : Z;
  scanAndOrder : Z;
  queuedReaders : Z;
  queuedWriters : Z;
  residentMb : Z;
}.

(** [-direction] on [1 | -1]. *)
Definition negate (d : SortDirection) : SortDirection :=
  match d with Pos => Neg | Neg => Pos end.

(** [direction === 1 || direction === -1]. *)
Definition is_ordered (d : IndexDirection) : bool :=
  match d with Ordered _ => true | _ => false end.

Definition json_of_constant (c : ConstantValue) : json :=
  match c with CStr s => JStr s | CNum q => JNum q | CBool b => JBool b end.

(** Equality of two values' [JSON.stringify] texts: structural, entries in
    order, numbers by value. *)
Fixpoint json_eqb (a b : json) : bool :=
  match a, b with
  | JNull, JNull => true
  | JBool x, JBool y => Bool.eqb x y
  | JNum x, JNum y => Qeq_bool x y
  | JStr x, JStr y => String.eqb x y
  | JArr x, JArr y =>
      (fix go (x y : list json) : bool :=
         match x, y with
         | [], [] => true
         | v :: x', w :: y' => json_eqb v w && go x' y'
         | _, _ => false
         end) x y
  | JObj x, JObj y =>
      (fix go (x y : list (string * json)) : bool :=
         match x, y with
         | [], [] => true
         | (k, v) :: x', (l, w) :: y' => String.eqb k l && json_eqb v w && go x' y'
         | _, _ => false
         end) x y
  | _, _ => false
  end.

#[export] Instance SortDirection_eq_dec : EqDecision SortDirection.
Proof. solve_decision. Defined.
#[export] Instance IndexDirection_eq_dec : EqDecision IndexDirection.
Proof. solve_decision. Defined.
#[export] Instance IndexKey_eq_dec : EqDecision IndexKey.
Proof. solve_decision. Defined.
#[export] Instance SortKey_eq_dec : EqDecision SortKey.
Proof. solve_decision. Defined.
#[export] Instance QueryClient_eq_dec : EqDecision QueryClient.
Proof. solve_decision. Defined.

Lemma negate_involutive d : negate (negate d) = d.
Proof. by destruct d. Qed.

Lemma negate_ne d : negate d <> d.
Proof. by destruct d. Qed.

Lemma is_ordered_spec d : is_ordered d = true <-> exists s, d = Ordered s.
Proof. split; [destruct d; naive_solver|]. by intros [s ->]. Qed.
#[export] Hint Rewrite is_ordered_spec : jsbool.
