(* ===== verification/Runs.v ===== *)
(** Readings of cumulative counters as runs over time.  Models
    [apps/api/src/analysis/types.ts]: how a stored run is read as a span, how
    a series is ordered, and the typical interval between two observations. *)
From S2P Require Import Prelude.

(** An ISO stamp by the instant [Date.parse] reads from it, or the text it
    cannot read.  Every writer in the program stamps with [toISOString], so two
    readable stamps are the same text exactly when they are the same instant. *)
Inductive stamp := At (ms : Z) | Unreadable (text : string).

#[export] Instance stamp_eq_dec : EqDecision stamp.
Proof. solve_decision. Defined.

(** [new Date(s).getTime()], NaN as [None]. *)
Definition getTime (s : stamp) : option Z :=
  match s with At ms => Some ms | Unreadable _ => None end.

(** [new Date(ms).toISOString()]. *)
Definition toISOString (ms : Z) : stamp := At ms.

Record MemberUsage := { member : string; ops : Z; since : option stamp }.

Record Run := {
  capturedAt : stamp;
  lastSeenAt : option stamp;
  observations : option jsnum;
  maxGapMs : option jsnum;
}.

(** A database row of one of the two run-length tables: a column is a [Date]
    or its text. *)
Record RunRow := {
  row_capturedAt : Z + stamp;
  row_lastSeenAt : Z + stamp;
  row_observations : Q;
  row_maxGapMs : Q;
}.

Definition runFrom (row : RunRow) : Run :=
  let iso v := match v with inl date => toISOString date | inr s => s end in
  {| capturedAt := iso (row_capturedAt row);
     lastSeenAt := Some (iso (row_lastSeenAt row));
     observations := Some (Finite (row_observations row));
     maxGapMs := Some (Finite (row_maxGapMs row)) |}.

(** [T extends Run]. *)
Class HasRun (A : Type) := run_of : A -> Run.
#[export] Instance Run_HasRun : HasRun Run := id.

Section runs.
Context {A : Type} `{HasRun A}.
Implicit Types (r : A).

Definition spanStart r : option Z := getTime (capturedAt (run_of r)).

Definition spanEnd r : option Z :=
  let start := spanStart r in
  match lastSeenAt (run_of r) with
  | None => start
  | Some seen =>
      match getTime seen with
      | None => start
      | Some fin => match start with Some s => Some (Z.max s fin) | None => None end
      end
  end.

Definition interiorGap r : Q :=
  match maxGapMs (run_of r) with
  | Some (Finite gap) => if Qltb gap 0 then 0%Q else gap
  | _ => 0%Q
  end.

Definition observationsOf r : Z :=
  match observations (run_of r) with
  | Some (Finite n) => Z.max 1 (Math_floor n)
  | _ => 1
  end.

Definition totalObservations (runs : list A) : Z := zsum observationsOf runs.

(** A reading's bounds where its stamp is readable, as in every sorted series. *)
Definition start_ms r : Z := spanStart r ?? 0.
Definition end_ms r : Z := spanEnd r ?? 0.

Definition sortedRuns (runs : list A) : list A :=
  stable_sort (by_key start_ms) (List.filter (fun r => is_some (spanStart r)) runs).

Record Gap := { ms : Q; weight : Z }.

(** The gap inside a run, then the gap to the run after it. *)
Definition interior_gaps r : list Gap :=
  let n := observationsOf r in
  let span := end_ms r - start_ms r in
  if (1 <? n) && (0 <? span)
  then [{| ms := inject_Z span / inject_Z (n - 1); weight := n - 1 |}] else [].

Definition between_gaps r (next : option A) : list Gap :=
  match next with
  | None => []
  | Some next =>
      let between := start_ms next - end_ms r in
      if 0 <? between then [{| ms := inject_Z between; weight := 1 |}] else []
  end.

Fixpoint observationGaps (sorted : list A) : list Gap :=
  match sorted with
  | [] => []
  | r :: rest => interior_gaps r ++ between_gaps r (head rest) ++ observationGaps rest
  end.

(** The loop of [medianObservationGap], from the weight already [seen]. *)
Fixpoint median_walk (total seen : Z) (gaps : list Gap) : option Q :=
  match gaps with
  | [] => None
  | gap :: rest =>
      let seen := seen + weight gap in
      if total <? seen * 2 then Some (ms gap)
      else if seen * 2 =? total then
        match head rest with
        | None => Some (ms gap)
        | Some next => Some ((ms gap + ms next) / 2)%Q
        end
      else median_walk total seen rest
  end.

Definition by_ms (a b : Gap) : bool := Qle_bool (ms a) (ms b).

Definition medianObservationGap (runs : list A) : Q :=
  let gaps := observationGaps (sortedRuns runs) in
  match gaps with
  | [] => 0%Q
  | _ =>
      let gaps := stable_sort by_ms gaps in
      let total := zsum weight gaps in
      match median_walk total 0 gaps with
      | Some m => m
      | None => (ms <$> last gaps) ?? 0%Q
      end
  end.
End runs.

#[global] Arguments sortedRuns : simpl never.

(** ** Notions the theorems are stated with *)

(** The weight of the gaps a test selects. *)
Definition weight_where (f : Gap -> bool) (l : list Gap) : Z :=
  zsum (fun g => if f g then weight g else 0) l.

(** What a weighted median is: no more than half the weight on either side. *)
Definition weighted_median (gaps : list Gap) (m : Q) : Prop :=
  2 * weight_where (fun g => Qltb (ms g) m) gaps <= zsum weight gaps /\
  2 * weight_where (fun g => Qltb m (ms g)) gaps <= zsum weight gaps.

(** Runs in order, none starting before the previous one was last confirmed. *)
Fixpoint separated {A} `{HasRun A} (l : list A) : Prop :=
  match l with
  | r :: ((next :: _) as rest) => end_ms r <= start_ms next /\ separated rest
  | _ => True
  end.

(** A run longer than an instant was confirmed more than once. *)
Definition confirmed {A} `{HasRun A} (r : A) : Prop :=
  start_ms r < end_ms r -> 1 < observationsOf r.

Definition gap_time (g : Gap) : Q := (ms g * inject_Z (weight g))%Q.

(** ** Spans and the sorted series *)

Section run_lemmas.
Context {A : Type} `{HasRun A}.
Implicit Types (r : A) (l : list A).

Lemma observationsOf_pos r : 1 <= observationsOf r.
Proof. unfold observationsOf. repeat case_match; lia. Qed.

Lemma interiorGap_nonneg r : (0 <= interiorGap r)%Q.
Proof. unfold interiorGap. repeat case_match; bools; lra. Qed.

Lemma spanEnd_finite r : is_some (spanEnd r) = is_some (spanStart r).
Proof. unfold spanEnd. repeat case_match; naive_solver. Qed.

Lemma start_le_end r : start_ms r <= end_ms r.
Proof.
  unfold start_ms, end_ms, spanEnd. destruct (spanStart r), (lastSeenAt _) as [s|]; simpl;
    [destruct (getTime s); simpl; lia|lia|destruct (getTime s); simpl; lia|lia].
Qed.

Lemma totalObservations_ge l : Z.of_nat (length l) <= totalObservations l.
Proof.
  unfold totalObservations. induction l as [|r l IH]; [done|].
  rewrite zsum_cons. pose proof (observationsOf_pos r). simpl length. lia.
Qed.

Lemma elem_of_sortedRuns r l :
  r ∈ sortedRuns l <-> r ∈ l /\ is_some (spanStart r) = true.
Proof. unfold sortedRuns. by rewrite elem_of_stable_sort, elem_of_filter_bool. Qed.

Lemma sortedRuns_sorted l :
  StronglySorted (fun a b => start_ms a <= start_ms b) (sortedRuns l).
Proof.
  assert (HS : StronglySorted (fun a b => by_key start_ms a b = true) (sortedRuns l))
    by (apply stable_sort_sorted; eauto with js).
  induction HS as [|x s Hs IH Hx]; constructor; [done|].
  eapply Forall_impl; [done|]. unfold by_key. simpl. lia.
Qed.

Lemma sortedRuns_of_sorted l :
  StronglySorted (fun a b => start_ms a <= start_ms b) l ->
  (forall r, r ∈ l -> is_some (spanStart r) = true) -> sortedRuns l = l.
Proof.
  intros HS Hfin. unfold sortedRuns.
  rewrite (List.forallb_filter_id (fun r => is_some (spanStart r))).
  - apply stable_sort_id.
    induction HS as [|x s Hs IH Hx]; constructor.
    + apply IH. intros r Hr. apply Hfin. by right.
    + eapply Forall_impl; [done|]. unfold by_key. simpl. lia.
  - by apply forallb_elem.
Qed.

Lemma sortedRuns_idemp l : sortedRuns (sortedRuns l) = sortedRuns l.
Proof.
  apply sortedRuns_of_sorted; [apply sortedRuns_sorted|].
  intros r. by rewrite elem_of_sortedRuns; intros [].
Qed.

Lemma sortedRuns_perm l :
  Permutation (sortedRuns l) (List.filter (fun r => is_some (spanStart r)) l).
Proof. apply stable_sort_perm. Qed.

(** ** Gaps *)

Lemma interior_gaps_pos r g :
  g ∈ interior_gaps r -> (0 < ms g)%Q /\ 1 <= weight g.
Proof.
  unfold interior_gaps. destruct (_ && _) eqn:E; [|set_solver].
  bools. intros ->%list_elem_of_singleton. simpl.
  split; [|lia]. apply Qlt_shift_div_l.
  - change 0%Q with (inject_Z 0). rewrite <- Zlt_Qlt. lia.
  - rewrite Qmult_0_l. change 0%Q with (inject_Z 0). rewrite <- Zlt_Qlt. lia.
Qed.

Lemma between_gaps_pos r next g :
  g ∈ between_gaps r next -> (0 < ms g)%Q /\ 1 <= weight g.
Proof.
  unfold between_gaps. destruct next as [next|]; [|set_solver].
  destruct (0 <? _) eqn:E; [|set_solver]. intros ->%list_elem_of_singleton. simpl.
  split; [|lia]. change 0%Q with (inject_Z 0). rewrite <- Zlt_Qlt. lia.
Qed.

Lemma observationGaps_pos l g :
  g ∈ observationGaps l -> (0 < ms g)%Q /\ 1 <= weight g.
Proof.
  induction l as [|r l IH]; simpl; [set_solver|]. rewrite !elem_of_app.
  intros [?|[?|?]]; eauto using interior_gaps_pos, between_gaps_pos.
Qed.
End run_lemmas.
#[export] Hint Resolve observationsOf_pos start_le_end : js.

(** ** The weighted median *)

Lemma by_ms_total x y : by_ms x y = false -> by_ms y x = true.
Proof. unfold by_ms. bools. lra. Qed.
Lemma by_ms_trans x y z : by_ms x y = true -> by_ms y z = true -> by_ms x z = true.
Proof. unfold by_ms. bools. lra. Qed.
#[export] Hint Resolve by_ms_total by_ms_trans : js.

Lemma weight_where_none f l :
  (forall g, g ∈ l -> f g = false) -> weight_where f l = 0.
Proof.
  intros Hf. unfold weight_where. rewrite (zsum_ext _ (fun _ => 0)).
  - clear. induction l; [done|]. rewrite zsum_cons. lia.
  - intros g Hg. by rewrite Hf.
Qed.

Lemma weight_where_le f l :
  (forall g, g ∈ l -> 0 <= weight g) -> weight_where f l <= zsum weight l.
Proof. intros Hw. apply zsum_le. intros g Hg. specialize (Hw g Hg). case_match; lia. Qed.

Lemma weight_where_app f l1 l2 :
  weight_where f (l1 ++ l2) = weight_where f l1 + weight_where f l2.
Proof. apply zsum_app. Qed.

Lemma weighted_median_split pre mid suf m :
  (forall g, g ∈ pre ++ mid ++ suf -> 0 <= weight g) ->
  (forall g, g ∈ pre -> ms g <= m)%Q -> (forall g, g ∈ mid -> ms g == m)%Q ->
  (forall g, g ∈ suf -> m <= ms g)%Q ->
  2 * zsum weight pre <= zsum weight (pre ++ mid ++ suf) ->
  2 * zsum weight suf <= zsum weight (pre ++ mid ++ suf) ->
  weighted_median (pre ++ mid ++ suf) m.
Proof.
  intros Hw Hpre Hmid Hsuf Hp Hs. unfold weighted_median.
  rewrite !weight_where_app, !zsum_app in *.
  rewrite (weight_where_none _ suf) by (intros; apply Qltb_nlt; auto).
  rewrite (weight_where_none (fun g => Qltb m (ms g)) pre) by (intros; apply Qltb_nlt; auto).
  rewrite !(weight_where_none _ mid)
    by (intros g Hg; specialize (Hmid g Hg); apply Qltb_nlt; lra).
  assert (weight_where (fun g => Qltb (ms g) m) pre <= zsum weight pre)
    by (apply weight_where_le; intros; apply Hw; set_solver).
  assert (weight_where (fun g => Qltb m (ms g)) suf <= zsum weight suf)
    by (apply weight_where_le; intros; apply Hw; set_solver).
  lia.
Qed.

Lemma sorted_app_le pre suf (g h : Gap) :
  StronglySorted (fun x y => by_ms x y = true) (pre ++ suf) ->
  g ∈ pre -> h ∈ suf -> (ms g <= ms h)%Q.
Proof.
  induction pre as [|x pre IH]; simpl; [set_solver|]. intros HS Hg Hh.
  inv HS. apply elem_of_cons in Hg as [->|Hg]; [|by auto].
  rewrite List.Forall_forall in H2. apply Qle_bool_iff, H2.
  apply list_elem_of_In. set_solver.
Qed.

Lemma median_walk_spec pre suf :
  StronglySorted (fun x y => by_ms x y = true) (pre ++ suf) ->
  (forall g, g ∈ pre ++ suf -> 1 <= weight g) ->
  2 * zsum weight pre < zsum weight (pre ++ suf) -> suf <> [] ->
  exists m, median_walk (zsum weight (pre ++ suf)) (zsum weight pre) suf = Some m /\
    weighted_median (pre ++ suf) m.
Proof.
  revert pre. induction suf as [|g suf IH]; intros pre HS Hw Hpre Hne; [done|]. simpl.
  assert (Hw0 : forall g', g' ∈ pre ++ g :: suf -> 0 <= weight g')
    by (intros g' Hg'; specialize (Hw g' Hg'); lia).
  assert (HSg : forall h, h ∈ suf -> (ms g <= ms h)%Q).
  { intros h Hh. rewrite (cons_middle g pre suf), app_assoc in HS.
    eapply sorted_app_le; [exact HS| |exact Hh]. set_solver. }
  assert (HSpre : forall h, h ∈ pre -> (ms h <= ms g)%Q)
    by (intros h Hh; eapply sorted_app_le; [exact HS|done|left]).
  pose proof (zsum_app weight pre (g :: suf)) as Htot. rewrite zsum_cons in Htot.
  assert (0 <= zsum weight pre) by (apply zsum_nonneg; intros; apply Hw0; set_solver).
  destruct (_ <? _) eqn:E1.
  { exists (ms g). split; [done|]. change (g :: suf) with ([g] ++ suf).
    apply weighted_median_split; try (change ([g] ++ suf) with (g :: suf)); auto; [|lia|lia].
    intros h ->%list_elem_of_singleton. lra. }
  destruct (_ =? _) eqn:E2.
  - destruct suf as [|h suf].
    { change (zsum weight []) with 0 in Htot.
      assert (1 <= weight g) by (apply Hw; set_solver). lia. }
    simpl. eexists. split; [done|].
    assert (ms g <= ms h)%Q by (apply HSg; left).
    replace (pre ++ g :: h :: suf) with ((pre ++ [g]) ++ [] ++ h :: suf)
      by (by rewrite <- app_assoc).
    apply weighted_median_split;
      try (replace ((pre ++ [g]) ++ [] ++ h :: suf) with (pre ++ g :: h :: suf)
             by (by rewrite <- app_assoc)).
    + done.
    + intros k [Hk| ->%list_elem_of_singleton]%elem_of_app; [specialize (HSpre k Hk)|];
        apply Qle_shift_div_l; lra.
    + set_solver.
    + intros k Hk. apply Qle_shift_div_r; [lra|].
      assert (ms h <= ms k)%Q; [|specialize (HSg k Hk); lra].
      apply elem_of_cons in Hk as [->|Hk]; [lra|].
      replace (pre ++ g :: h :: suf) with ((pre ++ [g; h]) ++ suf) in HS
        by (by rewrite <- app_assoc).
      eapply sorted_app_le; [exact HS| |exact Hk]. set_solver.
    + rewrite zsum_app, zsum_cons. change (zsum weight []) with 0. lia.
    + lia.
  - specialize (IH (pre ++ [g])). rewrite <- app_assoc in IH. simpl in IH.
    rewrite (zsum_app _ pre [g]), zsum_cons in IH. change (zsum weight []) with 0 in IH.
    rewrite Z.add_0_r in IH. apply IH; [done|done|lia|].
    intros ->. change (zsum weight []) with 0 in Htot. lia.
Qed.

(** ** What the observed span adds up to *)

Lemma interior_gap_time {A} `{HasRun A} (r : A) :
  confirmed r -> (qsum gap_time (interior_gaps r) == inject_Z (end_ms r - start_ms r))%Q.
Proof.
  unfold confirmed, interior_gaps. intros Hc. pose proof (start_le_end r).
  destruct (_ && _) eqn:E; bools; rewrite ?qsum_cons; change (qsum gap_time []) with 0%Q.
  - unfold gap_time. simpl. rewrite Qplus_0_r, Qmult_comm. apply Qmult_div_r.
    change 0%Q with (inject_Z 0). rewrite inject_Z_injective. lia.
  - change 0%Q with (inject_Z 0). rewrite inject_Z_injective. lia.
Qed.

Lemma qsum_app {A} (f : A -> Q) l1 l2 : (qsum f (l1 ++ l2) == qsum f l1 + qsum f l2)%Q.
Proof.
  induction l1 as [|x l1 IH]; simpl; [change (qsum f []) with 0%Q; lra|].
  rewrite !qsum_cons, IH. lra.
Qed.

Lemma last_default_irrel {A} (x d d' : A) l : List.last (x :: l) d = List.last (x :: l) d'.
Proof. revert x. induction l as [|y l IH]; intros x; [done|]. apply (IH y). Qed.

(** Run-length storage loses no time: over a separated series whose runs
    were each confirmed, the intervals [observationGaps] reports, each weighted
    by the observations it stands for, add up to exactly the first sighting to
    the last confirmation. *)
Theorem observationGaps_conserve_time {A} `{HasRun A} (first : A) (rest : list A) :
  separated (first :: rest) -> Forall confirmed (first :: rest) ->
  (qsum gap_time (observationGaps (first :: rest)) ==
    inject_Z (end_ms (List.last (first :: rest) first) - start_ms first))%Q.
Proof.
  revert first. induction rest as [|next rest IH]; intros first Hsep Hconf; inv Hconf.
  - simpl. rewrite !qsum_app, interior_gap_time by done. change (qsum gap_time []) with 0%Q. lra.
  - destruct Hsep as [Hle Hsep]. specialize (IH next Hsep H3).
    change (observationGaps (first :: next :: rest)) with
      (interior_gaps first ++ between_gaps first (Some next) ++ observationGaps (next :: rest)).
    rewrite !qsum_app, interior_gap_time, IH by done.
    assert (qsum gap_time (between_gaps first (Some next)) ==
            inject_Z (start_ms next - end_ms first))%Q as ->.
    { simpl. destruct (0 <? _) eqn:E.
      - rewrite qsum_cons. change (qsum gap_time []) with 0%Q. unfold gap_time. simpl.
        change (inject_Z 1) with 1%Q. lra.
      - change (qsum gap_time []) with (inject_Z 0). rewrite inject_Z_injective. lia. }
    rewrite <- !inject_Z_plus, inject_Z_injective.
    replace (List.last (first :: next :: rest) first) with (List.last (next :: rest) next); [lia|].
    exact (last_default_irrel next next first rest).
Qed.

(** The typical interval between two observations is a weighted median of
    the intervals: whenever there is any interval at all, neither the shorter
    nor the longer ones carry more than half of the observations. *)
Theorem medianObservationGap_is_median {A} `{HasRun A} (runs : list A) :
  observationGaps (sortedRuns runs) <> [] ->
  weighted_median (observationGaps (sortedRuns runs)) (medianObservationGap runs).
Proof.
  intros Hne. unfold medianObservationGap. set (gaps := observationGaps (sortedRuns runs)) in *.
  pose proof (stable_sort_perm by_ms gaps) as HP. set (sg := stable_sort by_ms gaps) in *.
  assert (Hpos : forall g, g ∈ sg -> 1 <= weight g)
    by (intros g; rewrite HP; intros Hg; by eapply observationGaps_pos).
  assert (Hsg : sg <> []) by (intros E; apply Hne, Permutation_nil; by rewrite <- HP, E).
  destruct (median_walk_spec [] sg) as (m & Hm & Hmed); simpl; auto.
  - apply stable_sort_sorted; eauto with js.
  - change (zsum weight []) with 0. destruct sg as [|g sg']; [done|]. rewrite zsum_cons.
    assert (1 <= weight g) by (apply Hpos; left).
    assert (0 <= zsum weight sg'); [|lia].
    apply zsum_nonneg. intros h Hh. assert (1 <= weight h) by (apply Hpos; by right). lia.
  - change (zsum weight []) with 0 in Hm. simpl in Hm, Hmed. rewrite Hm.
    destruct gaps as [|g0 gaps']; [done|].
    unfold weighted_median, weight_where in *.
    by rewrite <- !(zsum_perm _ _ _ HP).
Qed.
