(* ===== verification/Usage.v ===== *)
(** From cumulative counters to the activity series the rules read.  Models
    [UsageSnapshot] of [apps/api/src/analysis/types.ts] and
    [apps/api/src/analysis/usage.ts]. *)
From S2P Require Import Prelude Runs.

Record UsageSnapshot := {
  us_run : Run;
  perMember : option (list MemberUsage);
  opsDelta : option Z;
  opsTotal : option Z;
  countersRestarted : option bool;
  countersStartedAt : option stamp;
}.
#[export] Instance UsageSnapshot_HasRun : HasRun UsageSnapshot := us_run.

Record UsagePoint := { up_run : Run; up_ops : Z }.
#[export] Instance UsagePoint_HasRun : HasRun UsagePoint := up_run.

(** [new Map(members.map((m) => [m.member, m]))]: a repeated key keeps the last. *)
Definition member_map (l : list MemberUsage) : gmap string MemberUsage :=
  list_to_map (reverse ((fun m => (member m, m)) <$> l)).

(** What one member's reading adds, against its previous reading if any. *)
Definition member_activity (before : option MemberUsage) (m : MemberUsage) : Z :=
  match before with
  | None => Z.max 0 (ops m)
  | Some b =>
      if negb (bool_decide (since b = since m)) || (ops m <? ops b)
      then Z.max 0 (ops m) else ops m - ops b
  end.

Definition activityBetween (previous : option (gmap string MemberUsage))
    (current : list MemberUsage) : Z :=
  zsum (fun m => member_activity (previous ≫= fun p => p !! member m) m) current.

Definition activityInFull (current : list MemberUsage) : Z :=
  zsum (fun m => Z.max 0 (ops m)) current.

Definition idle_point (run : UsageSnapshot) (n : Z) : UsagePoint :=
  {| up_run := {| capturedAt := capturedAt (us_run run);
                  lastSeenAt := Some (toISOString (end_ms run));
                  observations := Some (Finite (inject_Z n));
                  maxGapMs := Some (maxGapMs (us_run run) ?? Finite 0) |};
     up_ops := 0 |}.

Definition burst_point (run : UsageSnapshot) (n : Z) : UsagePoint :=
  {| up_run := {| capturedAt := capturedAt (us_run run);
                  lastSeenAt := Some (capturedAt (us_run run));
                  observations := Some (Finite 1);
                  maxGapMs := Some (Finite 0) |};
     up_ops := n |}.

(** One pass of the loop of [usageSeries], over the activity found for [run]. *)
Definition run_points (run : UsageSnapshot) (activity : Z) : list UsagePoint :=
  let n := observationsOf run in
  if activity =? 0 then [idle_point run n]
  else burst_point run activity :: (if 1 <? n then [idle_point run (n - 1)] else []).

Fixpoint usage_walk (previous : gmap string MemberUsage) (first : bool)
    (runs : list UsageSnapshot) : list UsagePoint :=
  match runs with
  | [] => []
  | run :: rest =>
      let members := perMember run ?? [] in
      let stored := if first then opsTotal run else opsDelta run in
      let activity :=
        stored ?? activityBetween (if first then None else Some previous) members in
      run_points run activity ++ usage_walk (member_map members) false rest
  end.

Definition usageSeries (history : list UsageSnapshot) : list UsagePoint :=
  usage_walk ∅ true (sortedRuns history).

(** One member's counter restarted between two readings of it. *)
Definition member_restarted (before m : MemberUsage) : bool :=
  (ops m <? ops before) ||
  match since before ≫= getTime, since m ≫= getTime with
  | Some was, Some now => was <? now
  | _, _ => false
  end.

Definition countersRestartedBetween (previous : option (gmap string MemberUsage))
    (current : list MemberUsage) : bool :=
  existsb (fun m =>
    match previous ≫= (fun p => p !! member m) with
    | None => false
    | Some before => member_restarted before m
    end) current.

(** The loop of [latestCounterStart]: the latest readable [since] so far, and
    its text. *)
Definition later_start (latest : option (Z * stamp)) (m : MemberUsage) : option (Z * stamp) :=
  match since m with
  | None => latest
  | Some s =>
      match getTime s with
      | None => latest
      | Some at' =>
          match latest with
          | None => Some (at', s)
          | Some (best, _) => if best <? at' then Some (at', s) else latest
          end
      end
  end.

Definition latestCounterStart (current : list MemberUsage) : option stamp :=
  snd <$> fold_left later_start current None.

(** ** Notions the theorems are stated with *)

(** Two consecutive readings of the same counters, none of which restarted. *)
Definition carried_on (prev cur : list MemberUsage) : Prop :=
  NoDup (member <$> prev) /\
  Forall2 (fun a b => member a = member b /\ since a = since b /\ 0 <= ops a <= ops b) prev cur.

(** Every reading of the series carried on from the one before it. *)
Fixpoint uninterrupted (prev : list MemberUsage) (runs : list UsageSnapshot) : Prop :=
  match runs with
  | [] => True
  | run :: rest =>
      exists cur, perMember run = Some cur /\ carried_on prev cur /\ uninterrupted cur rest
  end.

(** The member counters of the last reading. *)
Fixpoint final_members (prev : list MemberUsage) (runs : list UsageSnapshot) : list MemberUsage :=
  match runs with
  | [] => prev
  | run :: rest => final_members (perMember run ?? []) rest
  end.

(** A row as it was before the activity columns existed, and as a reader that
    projects only those columns sees it. *)
Definition unstored (run : UsageSnapshot) : UsageSnapshot :=
  {| us_run := us_run run; perMember := perMember run; opsDelta := None; opsTotal := None;
     countersRestarted := countersRestarted run; countersStartedAt := countersStartedAt run |}.
Definition projected (run : UsageSnapshot) : UsageSnapshot :=
  {| us_run := us_run run; perMember := None; opsDelta := opsDelta run; opsTotal := opsTotal run;
     countersRestarted := countersRestarted run; countersStartedAt := countersStartedAt run |}.

(** The activity columns hold what the collector computes at write time. *)
Fixpoint written (prev : list MemberUsage) (runs : list UsageSnapshot) : Prop :=
  match runs with
  | [] => True
  | run :: rest =>
      let cur := perMember run ?? [] in
      opsTotal run = Some (activityInFull cur) /\
      opsDelta run = Some (activityBetween (Some (member_map prev)) cur) /\
      written cur rest
  end.

(** ** The points of a series *)

Lemma observationsOf_idle run n : 1 <= n -> observationsOf (idle_point run n) = n.
Proof.
  intros. unfold observationsOf, Math_floor. simpl. rewrite Qfloor_Z. lia.
Qed.

Lemma observationsOf_burst run n : observationsOf (burst_point run n) = 1.
Proof. done. Qed.

Lemma run_points_observations run n :
  totalObservations (run_points run n) = observationsOf run.
Proof.
  unfold run_points, totalObservations. pose proof (observationsOf_pos run).
  destruct (_ =? _).
  - rewrite zsum_cons, observationsOf_idle by lia. change (zsum _ []) with 0. lia.
  - rewrite zsum_cons, observationsOf_burst. destruct (_ <? _) eqn:E.
    + rewrite zsum_cons, observationsOf_idle by lia. change (zsum _ []) with 0. lia.
    + change (zsum _ []) with 0. lia.
Qed.

Lemma usage_walk_observations prev first runs :
  totalObservations (usage_walk prev first runs) = totalObservations runs.
Proof.
  unfold totalObservations. revert prev first.
  induction runs as [|run rest IH]; intros; simpl; [done|].
  rewrite zsum_app, IH, zsum_cons. f_equal. apply run_points_observations.
Qed.

Lemma run_points_at run n p :
  p ∈ run_points run n -> capturedAt (up_run p) = capturedAt (us_run run).
Proof.
  unfold run_points. destruct (_ =? _); [by intros ->%list_elem_of_singleton|].
  intros [->|Hp]%elem_of_cons; [done|]. destruct (_ <? _); [|set_solver].
  by apply list_elem_of_singleton in Hp as ->.
Qed.

Lemma run_points_start run n p : p ∈ run_points run n -> spanStart p = spanStart run.
Proof. intros Hp. unfold spanStart, run_of, UsagePoint_HasRun. by rewrite (run_points_at _ _ _ Hp). Qed.

Lemma usage_walk_elem prev first runs p :
  p ∈ usage_walk prev first runs -> exists run, run ∈ runs /\ spanStart p = spanStart run.
Proof.
  revert prev first. induction runs as [|run rest IH]; intros prev first; simpl; [set_solver|].
  intros [Hp|Hp]%elem_of_app.
  - exists run. split; [left|]. by eapply run_points_start.
  - destruct (IH _ _ Hp) as (r & Hr & E). exists r. split; [by right|done].
Qed.

Lemma usage_walk_sorted prev first runs :
  StronglySorted (fun a b => start_ms a <= start_ms b) runs ->
  StronglySorted (fun a b => start_ms a <= start_ms b) (usage_walk prev first runs).
Proof.
  intros HS. revert prev first. induction HS as [|run rest Hs IH Hrun]; intros; simpl; [constructor|].
  set (n := _ ?? _). pose proof (run_points_start run n) as Hst.
  assert (Hst' : forall p, p ∈ run_points run n -> start_ms p = start_ms run)
    by (intros p Hp; unfold start_ms; by rewrite Hst).
  clear Hst. specialize (IH (member_map (perMember run ?? [])) false).
  induction (run_points run n) as [|p ps IHps]; simpl; [done|].
  constructor; [apply IHps; intros; apply Hst'; by right|].
  apply List.Forall_forall. intros q Hq%list_elem_of_In.
  rewrite (Hst' p) by left. apply elem_of_app in Hq as [Hq|Hq].
  - rewrite (Hst' q) by (by right). lia.
  - destruct (usage_walk_elem _ _ _ _ Hq) as (r & Hr%list_elem_of_In & E).
    rewrite List.Forall_forall in Hrun. specialize (Hrun r Hr).
    unfold start_ms in *. by rewrite E.
Qed.

Lemma usageSeries_sortedRuns history : sortedRuns (usageSeries history) = usageSeries history.
Proof.
  apply sortedRuns_of_sorted; [apply usage_walk_sorted, sortedRuns_sorted|].
  intros p (r & Hr & ->)%usage_walk_elem. by apply elem_of_sortedRuns in Hr as [].
Qed.

(** ** Differences of counters *)

Lemma activityBetween_none cur : activityBetween None cur = activityInFull cur.
Proof. done. Qed.

Lemma member_map_lookup (l : list MemberUsage) m :
  NoDup (member <$> l) -> m ∈ l -> member_map l !! member m = Some m.
Proof.
  intros Hnd Hm. apply elem_of_list_to_map.
  - rewrite fmap_reverse. rewrite reverse_Permutation, <- list_fmap_compose. done.
  - rewrite elem_of_reverse. apply list_elem_of_fmap. eauto.
Qed.

Lemma activityBetween_carried prev cur :
  carried_on prev cur ->
  activityBetween (Some (member_map prev)) cur = activityInFull cur - activityInFull prev.
Proof.
  intros [Hnd HF]. unfold activityBetween, activityInFull.
  assert (Hm : forall a, a ∈ prev -> member_map prev !! member a = Some a)
    by (intros; by apply member_map_lookup).
  clear Hnd. generalize dependent (member_map prev). intros pm Hm.
  induction HF as [|a b prev cur (E1 & E2 & Hle) HF IH]; [done|].
  rewrite !zsum_cons, IH by (intros; apply Hm; by right).
  simpl. rewrite <- E1, Hm by left. simpl. rewrite bool_decide_true by done. simpl.
  destruct (_ <? _) eqn:?; lia.
Qed.

Lemma run_points_ops run n : zsum up_ops (run_points run n) = n.
Proof.
  unfold run_points. destruct (_ =? _) eqn:E.
  - rewrite zsum_cons. change (zsum up_ops []) with 0. simpl. lia.
  - destruct (_ <? _); rewrite !zsum_cons; change (zsum up_ops []) with 0; simpl; lia.
Qed.

Lemma carried_on_nonneg prev cur : carried_on prev cur -> NoDup (member <$> cur).
Proof.
  intros [Hnd HF]. replace (member <$> cur) with (member <$> prev); [done|].
  clear Hnd. induction HF as [|a b ? ? (E & _) HF IH]; [done|]. csimpl. by rewrite E, IH.
Qed.

Lemma usage_walk_telescopes prev runs :
  uninterrupted prev runs -> (forall r, r ∈ runs -> opsDelta r = None) ->
  zsum up_ops (usage_walk (member_map prev) false runs) =
    activityInFull (final_members prev runs) - activityInFull prev.
Proof.
  revert prev. induction runs as [|run rest IH]; intros prev Hu Hd; [simpl; change (zsum up_ops []) with 0; lia|].
  destruct Hu as (cur & Hcur & Hc & Hu). simpl.
  rewrite (Hd run) by left. simpl. rewrite Hcur. simpl.
  rewrite zsum_app, run_points_ops, activityBetween_carried, IH by (auto; intros; apply Hd; by right).
  lia.
Qed.

(** Splitting a run into its burst and its silence keeps the count of
    collects: the activity series stands for exactly as many observations as
    the stored runs it came from. *)
Theorem usageSeries_preserves_observations history :
  totalObservations (usageSeries history) = totalObservations (sortedRuns history).
Proof. apply usage_walk_observations. Qed.

(** Differencing loses no operation: where the counters ran through the
    whole window without restarting, the activity of the series adds up to
    exactly what the last reading of the counters shows. *)
Theorem usageSeries_telescopes run rest members history :
  sortedRuns history = run :: rest ->
  (forall r, r ∈ history -> opsDelta r = None /\ opsTotal r = None) ->
  perMember run = Some members -> uninterrupted members rest ->
  zsum up_ops (usageSeries history) = activityInFull (final_members members rest).
Proof.
  intros Hs Hnone Hm Hu. unfold usageSeries. rewrite Hs. simpl.
  assert (Hin : forall r, r ∈ run :: rest -> r ∈ history)
    by (intros r; rewrite <- Hs; by intros []%elem_of_sortedRuns).
  rewrite (proj2 (Hnone run (Hin run (list_elem_of_here _ _)))), Hm. simpl.
  rewrite zsum_app, run_points_ops, activityBetween_none, usage_walk_telescopes; [lia|done|].
  intros r Hr. apply Hnone, Hin. by right.
Qed.

(** The stored activity columns and the counters give one answer: a reader
    that projects the columns and never loads the member counters builds the
    same series as one that differences the counters itself. *)
Theorem usageSeries_stored_agrees prev history :
  written prev history -> StronglySorted (fun a b => start_ms a <= start_ms b) history ->
  (forall r, r ∈ history -> is_some (spanStart r) = true) ->
  usageSeries (projected <$> history) = usageSeries (unstored <$> history).
Proof.
  intros Hw HS Hfin. unfold usageSeries.
  assert (Hs : forall f : UsageSnapshot -> UsageSnapshot, (forall r, us_run (f r) = us_run r) ->
    sortedRuns (f <$> history) = f <$> history).
  { intros f Hf.
    assert (Hst : forall r, spanStart (f r) = spanStart r)
      by (intros r; unfold spanStart; simpl; by rewrite Hf).
    apply sortedRuns_of_sorted.
    - clear Hw Hfin. induction HS as [|x l Hl IH Hx]; csimpl; constructor; [done|].
      apply Forall_fmap. eapply Forall_impl; [done|]. intros y. simpl. unfold start_ms.
      by rewrite !Hst.
    - intros r (y & -> & Hy)%list_elem_of_fmap. rewrite Hst. auto. }
  rewrite !Hs by done. clear Hs HS Hfin.
  assert (Hwalk : forall l first p pm, written p l ->
    usage_walk pm first (projected <$> l) = usage_walk (member_map p) first (unstored <$> l)).
  { clear. induction l as [|r l IH]; intros first p pm Hw; csimpl; [done|].
    destruct Hw as (Ht & Hd & Hw).
    rewrite (IH false (perMember r ?? []) _ Hw). f_equal.
    destruct first; rewrite ?Ht, ?Hd; done. }
  rewrite (Hwalk _ true prev ∅) by done. clear Hwalk.
  destruct history as [|r l]; [done|]. done.
Qed.

(** An hour's reading of one member's counter. *)
Definition hourly (hour count : Z) (delta total : option Z) : UsageSnapshot :=
  {| us_run := {| capturedAt := At (hour * 3600000); lastSeenAt := None; observations := None; maxGapMs := None |};
     perMember := Some [{| member := "m"; ops := count; since := Some (At 0) |}];
     opsDelta := delta; opsTotal := total; countersRestarted := None; countersStartedAt := None |}.

Lemma usageSeries_telescopes_witness :
  let history := [hourly 1 5 None None; hourly 2 9 None None] in
  sortedRuns history = history /\ zsum up_ops (usageSeries history) = 9.
Proof.
  split; [reflexivity|].
  apply (usageSeries_telescopes (hourly 1 5 None None) [hourly 2 9 None None]
    [{| member := "m"; ops := 5; since := Some (At 0) |}]).
  - reflexivity.
  - intros r [->|[->|[]%elem_of_nil]%elem_of_cons]%elem_of_cons; split; reflexivity.
  - reflexivity.
  - eexists. split; [reflexivity|]. split; [|exact I]. split; [apply NoDup_singleton|].
    constructor; [|constructor]. simpl. split; [reflexivity|]. split; [reflexivity|lia].
Defined.

Lemma usageSeries_stored_agrees_witness :
  let history := [hourly 1 5 (Some 5) (Some 5); hourly 2 9 (Some 4) (Some 9)] in
  written [] history /\ usageSeries (projected <$> history) = usageSeries (unstored <$> history).
Proof.
  cbv zeta.
  assert (Hw : written [] [hourly 1 5 (Some 5) (Some 5); hourly 2 9 (Some 4) (Some 9)]) by (vm_compute; auto).
  split; [exact Hw|]. apply (usageSeries_stored_agrees [] _ Hw).
  - constructor; [constructor; [constructor|constructor]|]. constructor; [vm_compute; discriminate|constructor].
  - intros r [->|[->|[]%elem_of_nil]%elem_of_cons]%elem_of_cons; reflexivity.
Defined.
