(* ===== verification/Classify.v ===== *)
(** What an index's usage history proves.  Models
    [apps/api/src/analysis/classify.ts]: the counter epochs a restart cuts a
    history into, the fold both gates read, the trust gate and the usage class. *)
From S2P Require Import Prelude Runs EngineTypes Usage.

Definition HOUR_MS : Z := 3600000.
Definition MAX_GAP_HOURS : Z := 48.
Definition MAX_GAP_MS : Z := MAX_GAP_HOURS * HOUR_MS.
Definition AUTO_APPLY_HISTORY_DAYS : Z := 7.
Definition BLIND_RECOVERY_DAYS : Z := 30.

Record ClassifyOptions := {
  recentHours : Z;
  minHistory : Z;
  minHistoryDays : Z;
  minActiveHours : Z;
  maxGapHours : Z;
}.

(** [jobs/classify.ts]'s own thresholds. *)
Definition CLASSIFY_OPTIONS : ClassifyOptions :=
  {| recentHours := 12; minHistory := 3; minHistoryDays := 3; minActiveHours := 72;
     maxGapHours := MAX_GAP_HOURS |}.

Definition parseTime (value : option stamp) : option Z := value ≫= getTime.

Record CounterEpoch := { startMs : Z; endMs : Z }.

Definition restartedBetween (previous next : UsageSnapshot) : bool :=
  match countersRestarted next with
  | Some restarted => restarted
  | None =>
      countersRestartedBetween (Some (member_map (perMember previous ?? [])))
        (perMember next ?? [])
  end.

(** [countersStartedAt(run)]; the field of the same name is the stored column. *)
Definition countersStartedAt_of (run : UsageSnapshot) : option Z :=
  match parseTime (countersStartedAt run) with
  | Some stored => Some stored
  | None => parseTime (latestCounterStart (perMember run ?? []))
  end.

(** The local function [close] of [counterEpochs]. *)
Definition close_epoch (from : UsageSnapshot) (to : Z) : CounterEpoch :=
  let begins :=
    match countersStartedAt_of from with
    | None => start_ms from
    | Some started => Z.max (start_ms from) started
    end in
  {| startMs := Z.min begins to; endMs := to |}.

(** The loop of [counterEpochs] after its first run: the epoch opened at
    [first], confirmed until [fin], with [previous] the run before. *)
Fixpoint epochs_walk (first : UsageSnapshot) (fin : Z) (previous : UsageSnapshot)
    (rest : list UsageSnapshot) : list CounterEpoch :=
  match rest with
  | [] => [close_epoch first fin]
  | run :: rest =>
      if restartedBetween previous run
      then close_epoch first fin :: epochs_walk run (end_ms run) run rest
      else epochs_walk first (end_ms run) run rest
  end.

Definition counterEpochs (history : list UsageSnapshot) : list CounterEpoch :=
  match sortedRuns history with
  | [] => []
  | run :: rest => epochs_walk run (end_ms run) run rest
  end.

Definition epoch_length (e : CounterEpoch) : Z := endMs e - startMs e.

Definition trustedWatchMs (history : list UsageSnapshot) : Z :=
  zsum epoch_length (counterEpochs history).

(** Whole days: [Math.floor(ms / (24 * HOUR_MS))]. *)
Definition trustedWatchDays (history : list UsageSnapshot) : Z :=
  trustedWatchMs history / (24 * HOUR_MS).

Record BlindWindow := { bw_startMs : Z; bw_endMs : Z }.

Record UsageFold := {
  runs : Z;
  fold_observations : Z;
  activeRuns : Z;
  fold_trustedWatchMs : Z;
  newestEndMs : option Z;
  latestActivityMs : option Z;
  maxInteriorGapMs : Q;
  blindWindows : list BlindWindow;
}.

Definition blindWindow (previous next : UsageSnapshot) : option BlindWindow :=
  let from := end_ms previous in
  let until := start_ms next in
  if until <=? from then None
  else
    match countersStartedAt_of next with
    | Some started =>
        if from <? started
        then Some {| bw_startMs := from; bw_endMs := Z.min until started |}
        else if restartedBetween previous next
        then Some {| bw_startMs := from; bw_endMs := until |} else None
    | None => Some {| bw_startMs := from; bw_endMs := until |}
    end.

(** The blind windows of a sorted series longer than [minBlindMs]. *)
Fixpoint blind_walk (minBlindMs : Z) (sorted : list UsageSnapshot) : list BlindWindow :=
  match sorted with
  | run :: ((next :: _) as rest) =>
      match blindWindow run next with
      | Some blind =>
          if minBlindMs <? bw_endMs blind - bw_startMs blind
          then blind :: blind_walk minBlindMs rest else blind_walk minBlindMs rest
      | None => blind_walk minBlindMs rest
      end
  | _ => []
  end.

(** The later of two optional instants: [latest === null || at > latest]. *)
Definition latest_of (latest : option Z) (at' : Z) : option Z :=
  match latest with
  | None => Some at'
  | Some l => if l <? at' then Some at' else Some l
  end.

Definition active (point : UsagePoint) : bool := negb (up_ops point <=? 0).

Definition foldUsage (history : list UsageSnapshot) (minBlindMs : Z) : UsageFold :=
  let sorted := sortedRuns history in
  let series := usageSeries sorted in
  let busy := List.filter active series in
  {| runs := Z.of_nat (length sorted);
     fold_observations := totalObservations series;
     activeRuns := zsum observationsOf busy;
     fold_trustedWatchMs := trustedWatchMs sorted;
     newestEndMs := fold_left latest_of (end_ms <$> sorted) None;
     latestActivityMs := fold_left latest_of (end_ms <$> busy) None;
     maxInteriorGapMs := fold_left Qmax (interiorGap <$> sorted) 0%Q;
     blindWindows := blind_walk minBlindMs sorted |}.

Inductive UsageTrustRefusal :=
  | no_history | too_few_collects | span_too_short | collection_idle
  | gap_inside_run | gap_between_runs | history_stale.
#[export] Instance UsageTrustRefusal_eq_dec : EqDecision UsageTrustRefusal.
Proof. solve_decision. Defined.

Definition usageTrustRefusalFrom (fold : UsageFold) (options : ClassifyOptions) (now : Z)
    (collectionActiveHours : option Q) : option UsageTrustRefusal :=
  if fold_observations fold <? minHistory options then Some too_few_collects
  else if runs fold =? 0 then Some no_history
  else if fold_trustedWatchMs fold <? minHistoryDays options * 24 * HOUR_MS
  then Some span_too_short
  else if match collectionActiveHours with
          | Some hours => Qltb hours (inject_Z (minActiveHours options))
          | None => false
          end then Some collection_idle
  else
    let maxGap := maxGapHours options * HOUR_MS in
    if Qltb (inject_Z maxGap) (maxInteriorGapMs fold) then Some gap_inside_run
    else
      let recovered := now - BLIND_RECOVERY_DAYS * 24 * HOUR_MS in
      if existsb (fun w => (maxGap <? bw_endMs w - bw_startMs w) && (recovered <? bw_endMs w))
           (blindWindows fold) then Some gap_between_runs
      else if match newestEndMs fold with
              | Some newest => maxGap <? now - newest
              | None => false
              end then Some history_stale
      else None.

Definition usageTrustRefusal (history : list UsageSnapshot) (options : ClassifyOptions) (now : Z)
    (collectionActiveHours : option Q) : option UsageTrustRefusal :=
  usageTrustRefusalFrom (foldUsage history 0) options now collectionActiveHours.

Definition usageHistoryIsTrustworthyFrom (fold : UsageFold) (options : ClassifyOptions) (now : Z)
    (collectionActiveHours : option Q) : bool :=
  negb (is_some (usageTrustRefusalFrom fold options now collectionActiveHours)).

Definition usageHistoryIsTrustworthy (history : list UsageSnapshot) (options : ClassifyOptions)
    (now : Z) (collectionActiveHours : option Q) : bool :=
  negb (is_some (usageTrustRefusal history options now collectionActiveHours)).

Definition trustedWatchDaysFrom (fold : UsageFold) : Z :=
  fold_trustedWatchMs fold / (24 * HOUR_MS).

Definition classifyUsageFrom (fold : UsageFold) (options : ClassifyOptions) : UsageClass :=
  if fold_observations fold <? minHistory options then FLAT_ZERO
  else if activeRuns fold =? 0 then FLAT_ZERO
  else if activeRuns fold =? fold_observations fold then CONTINUOUS
  else
    let recentlyActive :=
      match newestEndMs fold, latestActivityMs fold with
      | Some newest, Some latest => newest - recentHours options * HOUR_MS <=? latest
      | _, _ => false
      end in
    if recentlyActive then PERIODIC_ALIVE else PERIODIC_DEAD.

Definition classifyUsage (history : list UsageSnapshot) (options : ClassifyOptions) : UsageClass :=
  classifyUsageFrom (foldUsage history 0) options.

(** ** Notions the theorems are stated with *)

(** The time from the last reading before each restart to the first one after. *)
Fixpoint restart_holes (sorted : list UsageSnapshot) : Z :=
  match sorted with
  | run :: ((next :: _) as rest) =>
      (if restartedBetween run next then start_ms next - end_ms run else 0) + restart_holes rest
  | _ => 0
  end.

(** A run whose counters were already running when it was first read. *)
Definition already_counting (run : UsageSnapshot) : Prop :=
  match countersStartedAt_of run with Some started => started <= start_ms run | None => True end.

(** Epochs in order: none begins before the one before it ended. *)
Fixpoint epochs_disjoint (l : list CounterEpoch) : Prop :=
  match l with
  | e :: rest =>
      startMs e <= endMs e /\
      match rest with next :: _ => endMs e <= startMs next | [] => True end /\
      epochs_disjoint rest
  | [] => True
  end.

(** What the trust gate asks of a history, all of it. *)
Record trusted (fold : UsageFold) (options : ClassifyOptions) (now : Z)
    (activeHours : option Q) : Prop := {
  trusted_collects : minHistory options <= fold_observations fold;
  trusted_runs : runs fold <> 0;
  trusted_span : minHistoryDays options * 24 * HOUR_MS <= fold_trustedWatchMs fold;
  trusted_reads : forall hours, activeHours = Some hours ->
    (inject_Z (minActiveHours options) <= hours)%Q;
  trusted_interior : (maxInteriorGapMs fold <= inject_Z (maxGapHours options * HOUR_MS))%Q;
  trusted_blind : forall w, w ∈ blindWindows fold ->
    maxGapHours options * HOUR_MS < bw_endMs w - bw_startMs w ->
    bw_endMs w + BLIND_RECOVERY_DAYS * 24 * HOUR_MS <= now;
  trusted_fresh : forall newest, newestEndMs fold = Some newest ->
    now - newest <= maxGapHours options * HOUR_MS;
}.

(** What each usage class says about the activity series of a history. *)
Definition class_evidence (history : list UsageSnapshot) (options : ClassifyOptions)
    (c : UsageClass) : Prop :=
  let series := usageSeries history in
  let newest := newestEndMs (foldUsage history 0) in
  match c with
  | FLAT_ZERO =>
      totalObservations series < minHistory options \/ forall p, p ∈ series -> up_ops p <= 0
  | CONTINUOUS => series <> [] /\ forall p, p ∈ series -> 0 < up_ops p
  | PERIODIC_ALIVE =>
      exists p n, p ∈ series /\ 0 < up_ops p /\ newest = Some n /\
        n - recentHours options * HOUR_MS <= end_ms p
  | PERIODIC_DEAD =>
      (exists p, p ∈ series /\ 0 < up_ops p) /\ (exists p, p ∈ series /\ up_ops p <= 0) /\
      forall p n, p ∈ series -> 0 < up_ops p -> newest = Some n ->
        end_ms p < n - recentHours options * HOUR_MS
  end.

(** ** Epochs *)

Lemma close_epoch_bounds from to :
  start_ms from <= to ->
  start_ms from <= startMs (close_epoch from to) <= endMs (close_epoch from to) /\
  endMs (close_epoch from to) = to.
Proof. unfold close_epoch. simpl. case_match; lia. Qed.

Lemma epochs_walk_head first fin prev rest :
  start_ms first <= fin -> end_ms prev = fin -> separated (prev :: rest) ->
  epochs_disjoint (epochs_walk first fin prev rest) /\
  exists e l, epochs_walk first fin prev rest = e :: l /\ start_ms first <= startMs e.
Proof.
  revert first fin prev. induction rest as [|run rest IH]; intros first fin prev Hle Hend Hsep; simpl.
  - pose proof (close_epoch_bounds first fin Hle).
    split; [repeat split; lia|]. eexists _, _. split; [done|]. lia.
  - destruct Hsep as [Hpr Hsep]. pose proof (start_le_end run).
    destruct (restartedBetween prev run).
    + pose proof (close_epoch_bounds first fin Hle).
      destruct (IH run (end_ms run) run) as (Hd & e & l & E & He); [lia|done|done|].
      rewrite E in *. split.
      * split; [lia|]. split; [lia|done].
      * eexists _, _. split; [done|]. lia.
    + apply IH; [lia|done|done].
Qed.

Lemma restart_holes_cons run next rest :
  restart_holes (run :: next :: rest) =
    (if restartedBetween run next then start_ms next - end_ms run else 0) +
    restart_holes (next :: rest).
Proof. done. Qed.

Lemma epochs_walk_watch first fin prev rest :
  start_ms first <= fin -> end_ms prev = fin -> separated (prev :: rest) ->
  already_counting first -> (forall r, r ∈ rest -> already_counting r) ->
  zsum epoch_length (epochs_walk first fin prev rest) =
    end_ms (List.last (prev :: rest) prev) - start_ms first - restart_holes (prev :: rest).
Proof.
  assert (Hclose : forall r to, already_counting r -> start_ms r <= to ->
    epoch_length (close_epoch r to) = to - start_ms r).
  { intros r to Hr Hto. unfold epoch_length, close_epoch, already_counting in *. simpl.
    destruct (countersStartedAt_of r); lia. }
  revert first fin prev.
  induction rest as [|run rest IH]; intros first fin prev Hle Hend Hsep Hf Hr.
  - simpl. rewrite zsum_cons. change (zsum epoch_length []) with 0.
    rewrite Hclose by done. lia.
  - destruct Hsep as [Hpr Hsep]. pose proof (start_le_end run).
    assert (already_counting run) by (apply Hr; left).
    assert (forall r, r ∈ rest -> already_counting r) by (intros; apply Hr; by right).
    change (List.last (prev :: run :: rest) prev) with (List.last (run :: rest) prev).
    rewrite (last_default_irrel run prev run).
    rewrite restart_holes_cons. cbn [epochs_walk]. destruct (restartedBetween prev run).
    + rewrite zsum_cons, Hclose, (IH run) by (auto; lia). lia.
    + rewrite (IH first) by (auto; lia). lia.
Qed.

(** ** The folds *)

Lemma fold_latest_of l init :
  match fold_left latest_of l init with
  | None => l = [] /\ init = None
  | Some m => (m ∈ l \/ init = Some m) /\ (forall x, x ∈ l -> x <= m) /\
      forall i, init = Some i -> i <= m
  end.
Proof.
  revert init. induction l as [|x l IH]; intros init; simpl.
  { destruct init; [|done]. split; [by right|]. split; [set_solver|]. intros; simplify_eq; lia. }
  specialize (IH (latest_of init x)). destruct (fold_left _ _ _) as [m|].
  - destruct IH as (Hin & Hall & Hinit).
    assert (x <= m /\ forall i, init = Some i -> i <= m) as [Hx Hi].
    { destruct init as [i|]; simpl in Hinit.
      - destruct (i <? x) eqn:E; specialize (Hinit _ eq_refl); split; try lia;
          intros; simplify_eq; lia.
      - specialize (Hinit _ eq_refl). split; [lia|done]. }
    split; [|split; [|done]].
    + destruct Hin as [?|Hin]; [left; by right|].
      destruct init as [i|]; simpl in Hin; [destruct (i <? x)|]; simplify_eq; try (left; left); by right.
    + intros y [->|Hy]%elem_of_cons; auto.
  - destruct IH as [_ IH]. destruct init as [i|]; simpl in IH; [destruct (i <? x)|]; done.
Qed.

Lemma latest_of_empty l : fold_left latest_of l None = None <-> l = [].
Proof.
  pose proof (fold_latest_of l None) as H. destruct (fold_left _ _ _) as [m|].
  - split; [done|]. intros ->. destruct H as [[H|H] _]; [set_solver|done].
  - naive_solver.
Qed.

Lemma zsum_filter_split (f : UsagePoint -> bool) g l :
  zsum g l = zsum g (List.filter f l) + zsum g (List.filter (fun p => negb (f p)) l).
Proof.
  induction l as [|p l IH]; [done|]. simpl. rewrite zsum_cons.
  destruct (f p); simpl; rewrite zsum_cons; lia.
Qed.

Lemma observations_zero (l : list UsagePoint) : zsum observationsOf l = 0 -> l = [].
Proof.
  pose proof (totalObservations_ge l) as H. unfold totalObservations in H.
  destruct l; [done|]. simpl length in H. lia.
Qed.

Lemma usageSeries_sorted history : usageSeries (sortedRuns history) = usageSeries history.
Proof. unfold usageSeries. by rewrite sortedRuns_idemp. Qed.

Lemma filter_nil_elem {A} (f : A -> bool) l x : List.filter f l = [] -> x ∈ l -> f x = false.
Proof.
  intros Hf Hx. destruct (f x) eqn:E; [|done].
  assert (x ∈ List.filter f l) as Hx' by by apply elem_of_filter_bool. rewrite Hf in Hx'. set_solver.
Qed.

Lemma active_spec p : active p = true <-> 0 < up_ops p.
Proof. unfold active. lia. Qed.

Lemma active_not p : active p = false <-> up_ops p <= 0.
Proof. unfold active. lia. Qed.

(** A restart costs the hole it opened and nothing else: over a separated
    series whose counters were running at each first reading, the trusted watch
    time is the whole first-to-last span less the stretches between a reading
    and the restart after it — all of the span where nothing restarted. *)
Theorem trustedWatchMs_restart_cost run rest history :
  sortedRuns history = run :: rest -> separated (run :: rest) ->
  (forall r, r ∈ run :: rest -> already_counting r) ->
  trustedWatchMs history =
    end_ms (List.last (run :: rest) run) - start_ms run - restart_holes (run :: rest).
Proof.
  intros Hs Hsep Hc. unfold trustedWatchMs, counterEpochs. rewrite Hs.
  apply epochs_walk_watch; auto with js.
  - apply Hc. left.
  - intros r Hr. apply Hc. by right.
Qed.

(** Epochs never overlap: each ends before the next one begins, so no
    stretch of watch time is counted twice, whatever the counters claim about
    when they started. *)
Theorem counterEpochs_disjoint history :
  separated (sortedRuns history) -> epochs_disjoint (counterEpochs history).
Proof.
  intros Hsep. unfold counterEpochs. destruct (sortedRuns history) as [|run rest]; [done|].
  apply epochs_walk_head; auto with js.
Qed.

(** The trust gate refuses exactly when one of its seven requirements
    fails: no refusal means every requirement holds, and conversely. *)
Theorem usageTrustRefusalFrom_complete fold options now hours :
  usageTrustRefusalFrom fold options now hours = None <-> trusted fold options now hours.
Proof.
  unfold usageTrustRefusalFrom. split.
  - intros H. repeat case_match; simplify_eq; split; intros; simplify_eq; bools; try lia; try lra.
    all: match goal with
         | H : existsb ?f ?l = false, Hw : _ ∈ ?l |- _ =>
             assert (f w = false) as Hf;
             [destruct (f w) eqn:E; [|done];
              assert (existsb f l = true) by (apply existsb_elem; eauto); congruence|];
             simpl in Hf; lia
         end.
  - intros Ht. destruct Ht. repeat case_match; simplify_eq; try done; bools; exfalso; try lia.
    all: first
      [ solve [specialize (trusted_reads0 _ eq_refl); lra]
      | lra
      | specialize (trusted_fresh0 _ eq_refl); lia
      | match goal with
        | H : exists x, _ |- _ =>
            destruct H as (w & Hw & [? ?]%andb_true_iff); specialize (trusted_blind0 w Hw); lia
        end ].
Qed.

(** The class is a statement about the activity: an index classed unused
    showed no activity at all, one classed as gone quiet did and none within
    the recent window, one classed alive did within it, and one classed
    continuous moved at every look. *)
Theorem classifyUsage_evidence history options :
  0 < minHistory options -> class_evidence history options (classifyUsage history options).
Proof.
  intros Hmin. unfold classifyUsage, classifyUsageFrom, class_evidence. simpl.
  rewrite usageSeries_sorted. set (series := usageSeries history).
  destruct (_ <? _) eqn:E1; [left; lia|].
  destruct (zsum _ _ =? 0) eqn:E2.
  { right. intros p Hp. apply active_not. eapply filter_nil_elem; [|done].
    apply observations_zero. lia. }
  assert (Hbusy : exists p, p ∈ series /\ 0 < up_ops p).
  { destruct (List.filter active series) as [|p l] eqn:E; [done|].
    exists p. assert (p ∈ List.filter active series) as Hp by (rewrite E; left).
    apply elem_of_filter_bool in Hp as [? ?%active_spec]. done. }
  pose proof (zsum_filter_split active observationsOf series) as Hsplit.
  unfold totalObservations in *. destruct (_ =? zsum _ series) eqn:E3.
  { split; [intros Hnil; destruct Hbusy as (p & Hp & _); rewrite Hnil in Hp; set_solver|].
    intros p Hp. apply active_spec.
    destruct (active p) eqn:Ep; [done|].
    assert (List.filter (fun p => negb (active p)) series = []) as Hnil
      by (apply observations_zero; lia).
    apply (filter_nil_elem _ _ p) in Hnil; [|done]. simpl in Hnil. by rewrite Ep in Hnil. }
  pose proof (fold_latest_of (end_ms <$> List.filter active series) None) as Hact.
  destruct (fold_left latest_of (end_ms <$> List.filter active series) None) as [latest|].
  2: { destruct Hact as [Hnil _]. apply fmap_nil_inv in Hnil. rewrite Hnil in E2. done. }
  destruct Hact as ([Hin|] & Hall & _); [|done].
  destruct (fold_left latest_of (end_ms <$> sortedRuns history) None) as [newest|] eqn:En.
  2: { apply latest_of_empty, fmap_nil_inv in En. unfold series, usageSeries in Hbusy.
       rewrite En in Hbusy. destruct Hbusy as (p & Hp & _). simpl in Hp. set_solver. }
  destruct (_ <=? latest) eqn:E4.
  - apply list_elem_of_fmap in Hin as (p & -> & [Hp Ha%active_spec]%elem_of_filter_bool).
    exists p, newest. split; [done|]. split; [done|]. split; [done|]. lia.
  - split; [done|]. split.
    + destruct (List.filter (fun p => negb (active p)) series) as [|p l] eqn:Ei.
      * change (zsum observationsOf []) with 0 in Hsplit. lia.
      * exists p. assert (p ∈ List.filter (fun p => negb (active p)) series) as Hp by (rewrite Ei; left).
        apply elem_of_filter_bool in Hp as [? Hn]. split; [done|]. apply active_not.
        by apply negb_true_iff.
    + intros p n Hp Ha ?; simplify_eq.
      assert (end_ms p <= latest); [|lia]. apply Hall, list_elem_of_fmap.
      exists p. split; [done|]. apply elem_of_filter_bool. split; [done|]. by apply active_spec.
Qed.

(** A counter read on three hours, the server restarted before the third. *)
Definition restarted_history : list UsageSnapshot :=
  [hourly 1 5 None None; hourly 2 9 None None; hourly 3 2 None None].

Lemma restarted_sorted : sortedRuns restarted_history = restarted_history.
Proof. reflexivity. Qed.

Lemma trustedWatchMs_restart_cost_witness :
  separated restarted_history /\ trustedWatchMs restarted_history = 3600000.
Proof.
  assert (Hs : separated restarted_history) by (vm_compute; repeat split; discriminate).
  split; [exact Hs|].
  rewrite (trustedWatchMs_restart_cost (hourly 1 5 None None) [hourly 2 9 None None; hourly 3 2 None None]
    restarted_history restarted_sorted Hs).
  - reflexivity.
  - intros r [->|[->|[->|[]%elem_of_nil]%elem_of_cons]%elem_of_cons]%elem_of_cons; vm_compute; discriminate.
Defined.

Lemma counterEpochs_disjoint_witness :
  length (counterEpochs restarted_history) = 2%nat /\ epochs_disjoint (counterEpochs restarted_history).
Proof.
  split; [reflexivity|]. apply (counterEpochs_disjoint restarted_history).
  rewrite restarted_sorted. vm_compute. repeat split; discriminate.
Defined.

Lemma classifyUsage_evidence_witness :
  class_evidence restarted_history CLASSIFY_OPTIONS (classifyUsage restarted_history CLASSIFY_OPTIONS).
Proof. apply (classifyUsage_evidence restarted_history CLASSIFY_OPTIONS). reflexivity. Defined.
