(* ===== verification/Silence.v ===== *)
(** Why a pass had nothing to say, in the words the customer gets.  Models
    [apps/api/src/analysis/silence.ts]. *)
From S2P Require Import Prelude Runs Classify.

Inductive SuppressionGuard := cooldown | watched | standing | hinted | unobservable | budget.

#[export] Instance SuppressionGuard_eq_dec : EqDecision SuppressionGuard.
Proof. solve_decision. Defined.

Definition guard_text (g : SuppressionGuard) : string :=
  match g with
  | cooldown => "cooldown" | watched => "watched" | standing => "standing" | hinted => "hinted"
  | unobservable => "unobservable" | budget => "budget"
  end.

Definition SUPPRESSION_GUARDS : list SuppressionGuard :=
  [cooldown; watched; standing; hinted; budget; unobservable].

Definition kind_text (k : UsageTrustRefusal) : string :=
  match k with
  | no_history => "no-history" | too_few_collects => "too-few-collects" | span_too_short => "span-too-short"
  | collection_idle => "collection-idle" | gap_inside_run => "gap-inside-run"
  | gap_between_runs => "gap-between-runs" | history_stale => "history-stale"
  end.

(** [RefusalCounts] and [SuppressionCounts]: as stored, any key may be there. *)
Abbreviation Counts := (gmap string Z).

(** [counts[key] = (counts[key] ?? 0) + 1]. *)
Definition count_one (key : string) (counts : Counts) : Counts :=
  <[key := counts !! key ?? 0 + 1]> counts.

Definition REFUSAL_PRECEDENCE : list UsageTrustRefusal :=
  [history_stale; gap_inside_run; gap_between_runs; collection_idle; span_too_short; too_few_collects; no_history].

Definition count_of (counts : Counts) (k : UsageTrustRefusal) : Z := counts !! kind_text k ?? 0.

Definition dominant_step (counts : Counts) (best : option UsageTrustRefusal * Z) (k : UsageTrustRefusal)
    : option UsageTrustRefusal * Z :=
  let count := count_of counts k in
  if best.2 <? count then (Some k, count) else best.

Definition dominantRefusal (counts : Counts) : option UsageTrustRefusal :=
  (fold_left (dominant_step counts) REFUSAL_PRECEDENCE (None, 0)).1.

Definition usageAnalysisPaused (consideredIndexes trustedIndexes : Z) : bool :=
  (0 <? consideredIndexes) && (trustedIndexes =? 0).

(** A text in double quotes. *)
Definition quote_mark : string := String (Ascii.ascii_of_nat 34) EmptyString.
Definition in_quotes (text : string) : string := quote_mark +:+ text +:+ quote_mark.

Definition explainRefusal (kind : UsageTrustRefusal) (options : ClassifyOptions) : string :=
  let unaffected := " Redundancy findings are unaffected." in
  match kind with
  | history_stale =>
      "We have not heard from this cluster in over " +:+ show (maxGapHours options) +:+ " hours, so its usage " +:+
      "history is no longer current enough to call an index unused. This clears on the next " +:+
      "collect that reaches it." +:+ unaffected
  | gap_inside_run =>
      "There is a gap of more than " +:+ show (maxGapHours options) +:+ " hours in this cluster's usage " +:+
      "history. During a gap a busy index is indistinguishable from a dead one, so the " +:+
      "period is not counted as observation. This clears as uninterrupted history accumulates." +:+ unaffected
  | gap_between_runs =>
      "This cluster's usage counters restarted while it was not being watched, leaving more " +:+
      "than " +:+ show (maxGapHours options) +:+ " hours in which an index's use was counted by a counter that " +:+
      "no longer exists. A busy index in that stretch is indistinguishable from a dead one, so " +:+
      "this clears once " +:+ show BLIND_RECOVERY_DAYS +:+ " days of uninterrupted history follow it." +:+ unaffected
  | collection_idle =>
      "These collections have not served reads for " +:+ show (minActiveHours options) +:+ " hours yet. " +:+
      in_quotes "This index served none of the reads" +:+ " is only a claim when there were reads to serve, " +:+
      "so an idle stretch proves nothing about any index in it." +:+ unaffected
  | span_too_short =>
      "We have been watching this cluster for less than " +:+ show (minHistoryDays options) +:+ " days. That " +:+
      "is the warm-up, not a fault: usage is read as the change between readings, and a " +:+
      "span that short cannot separate an index nothing has needed yet from one nothing " +:+
      "needs. Usage findings begin once it passes, and for the first " +:+
      show AUTO_APPLY_HISTORY_DAYS +:+ " days they are yours to approve rather than the engine's " +:+
      "to apply on its own — a shorter span would call the weekly batch job's index dead " +:+
      "because it happened not to run yet, which is a reason to wait before deleting one " +:+
      "and not a reason to say nothing about it. A restart does not reset that clock — the " +:+
      "counters it zeroed are read as a fresh stretch and the time already watched still " +:+
      "counts — but the minutes between our last reading and the restart are nobody's " +:+
      "observation, so a cluster that restarts often reaches the threshold more slowly " +:+
      "than one that does not." +:+ unaffected
  | too_few_collects =>
      "Fewer than " +:+ show (minHistory options) +:+ " collects have landed for this cluster. Usage is read " +:+
      "as the change between readings, so it takes a few before there is a pattern to read." +:+ unaffected
  | no_history => "Nothing has been collected from this cluster yet." +:+ unaffected
  end.

Definition explainSuppression (guard : SuppressionGuard) (findings : Z) : string :=
  let count := if findings =? 1 then "1 finding" else show findings +:+ " findings" in
  match guard with
  | cooldown => count +:+ " held back: the index is parked after a previous change regressed reads."
  | watched => count +:+ " held back: the engine built that index and is still watching it."
  | standing => count +:+ " held back: that index already carries a recommendation."
  | hinted => count +:+ " held back from automatic action: a query pins that index by name."
  | budget =>
      count +:+ " held back from automatic action: the collection is already absorbing builds, " +:+
      "and every write to it updates every index on it. Still proposed — approve when you are " +:+
      "ready."
  | unobservable =>
      count +:+ " held back: this collection's server restarts often enough that a drop's observe " +:+
      "window would not finish. Every drop is hidden first and watched for a regression before " +:+
      "it is taken, and a restart costs the stretch it lands in — so proposing one here would " +:+
      "hide an index, fail to measure it, and put it back, indefinitely. Usage and redundancy " +:+
      "analysis are unaffected; it is the safe-drop procedure that cannot run."
  end.

(** ** Lemmas *)

(** The first of the largest counts wins, from whatever was best before. *)
Lemma dominant_fold counts ks b n :
  let '(b', n') := fold_left (dominant_step counts) ks (b, n) in
  (n' = n /\ b' = b /\ (forall k, k ∈ ks -> count_of counts k <= n)) \/
  (exists pre k post, ks = pre ++ k :: post /\ b' = Some k /\ n' = count_of counts k /\ n < n' /\
     (forall k', k' ∈ pre -> count_of counts k' < n') /\ (forall k', k' ∈ post -> count_of counts k' <= n')).
Proof.
  revert b n. induction ks as [|k ks IH]; intros b n; [left; set_solver|]. cbn [fold_left].
  unfold dominant_step at 2. cbn [snd]. destruct (Z.ltb_spec n (count_of counts k)) as [Hlt|Hle].
  - specialize (IH (Some k) (count_of counts k)). destruct (fold_left _ _ _) as [b' n'].
    destruct IH as [(-> & -> & H)|(pre & k1 & post & -> & -> & -> & H1 & H2 & H3)]; right.
    + exists [], k, ks. split_and!; try done. set_solver.
    + exists (k :: pre), k1, post. split_and!; try done; [lia|]. intros k' [->|?]%elem_of_cons; [lia|auto].
  - specialize (IH b n). destruct (fold_left _ _ _) as [b' n'].
    destruct IH as [(-> & -> & H)|(pre & k1 & post & -> & -> & -> & H1 & H2 & H3)]; [left|right].
    + split_and!; try done. intros k' [->|?]%elem_of_cons; auto.
    + exists (k :: pre), k1, post. split_and!; try done. intros k' [->|?]%elem_of_cons; [lia|auto].
Qed.

Lemma precedence_complete k : k ∈ REFUSAL_PRECEDENCE.
Proof. destruct k; unfold REFUSAL_PRECEDENCE; set_solver. Qed.

(** The reason a panel gives is one that accounts for the most indexes, the one
    hardest to escape among equals, so that two passes that counted the same say
    the same; it gives none only when nothing it knows was counted. *)
Theorem dominantRefusal_spec counts :
  match dominantRefusal counts with
  | None => forall k, count_of counts k <= 0
  | Some k => 0 < count_of counts k /\ exists before after,
      REFUSAL_PRECEDENCE = before ++ k :: after /\
      (forall k', k' ∈ before -> count_of counts k' < count_of counts k) /\
      (forall k', k' ∈ after -> count_of counts k' <= count_of counts k)
  end.
Proof.
  unfold dominantRefusal. pose proof (dominant_fold counts REFUSAL_PRECEDENCE None 0) as H.
  destruct (fold_left _ _ _) as [b n]. cbn [fst].
  destruct H as [(_ & -> & H)|(pre & k & post & E & -> & -> & H1 & H2 & H3)].
  - intros k. apply H, precedence_complete.
  - split; [done|]. by exists pre, post.
Qed.

Lemma count_one_same key counts : count_one key counts !! key = Some (counts !! key ?? 0 + 1).
Proof. apply lookup_insert_eq. Qed.
