(* ===== verification/Redundancy.v ===== *)
(** Indexes the engine must never drop, and when one index already does another's
    work.  Models [apps/api/src/analysis/safety.ts] and
    [apps/api/src/analysis/redundancy.ts]. *)
From S2P Require Import Prelude EngineTypes.

(** ** Indexes the engine must never drop *)

(** Directions whose index is the only way its own queries run at all. *)
Definition HIDE_BREAKS_QUERIES : list IndexDirection := [Text; TwoDSphere; TwoD].

Definition hideBreaksQueries (index : IndexSpec) : bool :=
  existsb (fun key => bool_decide (direction key ∈ HIDE_BREAKS_QUERIES)) (keys index).

Definition isNeverDrop (index : IndexSpec) : bool :=
  if String.eqb (name index) "_id_" then true
  else if unique index then true
  else if ttl index then true
  else if isShardKey index then true
  else if hideBreaksQueries index then true
  else false.

Lemma isNeverDrop_false index :
  isNeverDrop index = false <->
  name index <> "_id_" /\ unique index = false /\ ttl index = false /\
  isShardKey index = false /\ hideBreaksQueries index = false.
Proof.
  unfold isNeverDrop. destruct (String.eqb_spec (name index) "_id_");
    destruct (unique index), (ttl index), (isShardKey index), (hideBreaksQueries index); naive_solver.
Qed.

Lemma hideBreaksQueries_ordered index :
  forallb (fun key => is_ordered (direction key)) (keys index) = true ->
  hideBreaksQueries index = false.
Proof.
  intros Hall. apply not_true_iff_false. unfold hideBreaksQueries. rewrite existsb_elem.
  intros (key & Hkey & Hd). bools.
  specialize (Hall key Hkey). bools. destruct Hall as [d Hd']. rewrite Hd' in Hd.
  unfold HIDE_BREAKS_QUERIES in Hd. set_solver.
Qed.

Definition optionsCompatible (candidate other : IndexSpec) : bool :=
  if unique candidate && negb (unique other) then false
  else if partial candidate || sparse candidate || ttl candidate then false
  else if partial other || sparse other || hidden other then false
  else if negb (bool_decide (collation candidate = collation other)) then false
  else true.

Definition coveredColumns (index : IndexSpec) : list string :=
  (field <$> keys index) ++ (include index ?? []).

Definition coversIncludes (candidate other : IndexSpec) : bool :=
  let includes' := include candidate ?? [] in
  if (length includes' =? 0)%nat then true
  else
    let covered := coveredColumns other in
    forallb (fun column => includes covered column) includes'.

(** The loop of [coversKeyOrder]: each of the candidate's directions with the
    one the other index has there, or nothing when the fields differ. *)
Fixpoint key_pairs (candidate other : list IndexKey)
    : option (list (IndexDirection * IndexDirection)) :=
  match candidate with
  | [] => Some []
  | key :: candidate =>
      match other with
      | [] => None
      | otherKey :: other =>
          if String.eqb (field otherKey) (field key)
          then cons (direction key, direction otherKey) <$> key_pairs candidate other
          else None
      end
  end.

Definition ordered (d : IndexDirection) : bool := is_ordered d.

(** [have === -want] on two ordered directions. *)
Definition opposite (want have : IndexDirection) : bool :=
  match want, have with
  | Ordered w, Ordered h => bool_decide (h = negate w)
  | _, _ => false
  end.

Definition coversKeyOrder (candidate other : IndexSpec) : bool :=
  match key_pairs (keys candidate) (keys other) with
  | None => false
  | Some pairs =>
      if forallb (fun '(want, have) => bool_decide (have = want)) pairs then true
      else forallb (fun '(want, have) => ordered want && ordered have && opposite want have) pairs
  end.

Definition servedByBackwardWalk (candidate other : IndexSpec) : bool :=
  if negb (coversKeyOrder candidate other) then false
  else some_i (fun i key =>
         negb (bool_decide (direction <$> keys other !! i = Some (direction key)))) (keys candidate).

Definition isKeyPrefix (candidate other : IndexSpec) : bool :=
  if String.eqb (name candidate) (name other) then false
  else if (length (keys other) <=? length (keys candidate))%nat then false
  else if negb (bool_decide (collation candidate = collation other)) then false
  else coversKeyOrder candidate other.

Definition isRedundantPrefix (candidate other : IndexSpec) : bool :=
  if negb (optionsCompatible candidate other) then false
  else if negb (coversIncludes candidate other) then false
  else isKeyPrefix candidate other.

Definition isCoveredBy (candidate other : IndexSpec) : bool :=
  if isRedundantPrefix candidate other then true
  else if negb (optionsCompatible candidate other) || negb (coversIncludes candidate other)
  then false
  else (length (keys candidate) =? length (keys other))%nat && coversKeyOrder candidate other.

Definition notWorthBuilding (candidate : IndexSpec) (live : list IndexSpec) : option string :=
  if existsb (fun index => String.eqb (name index) (name candidate)) live
  then Some ("an index named " +:+ name candidate +:+ " already exists on this table")%string
  else
    match List.find (fun index => isCoveredBy candidate index) live with
    | None => None
    | Some covering =>
        Some (name covering +:+ " already serves every query this index would")%string
    end.

(** ** Notions the theorems are stated with *)

(** A key read forwards, or backwards, produces one ordering requirement. *)
Definition key_walks (backward : bool) (k : IndexKey) (want : SortKey) : Prop :=
  field k = sk_field want /\
  direction k = Ordered (if backward then negate (sk_direction want) else sk_direction want).

(** What a b-tree serves without sorting: the leading keys produce the
    requirement, all of them read forwards or all of them backwards. *)
Definition serves_order (ks : list IndexKey) (want : list SortKey) : Prop :=
  exists backward pre, pre `prefix_of` ks /\ Forall2 (key_walks backward) pre want.

Definition key_same (a b : IndexKey) : Prop := field a = field b /\ direction b = direction a.
Definition key_reversed (a b : IndexKey) : Prop :=
  field a = field b /\ exists d, direction a = Ordered d /\ direction b = Ordered (negate d).

(** ** The key order *)

Lemma key_pairs_spec ck ok ps :
  key_pairs ck ok = Some ps <->
  exists pre, pre `prefix_of` ok /\ Forall2 (fun a b => field a = field b) ck pre /\
    ps = zip_with (fun a b => (direction a, direction b)) ck pre.
Proof.
  revert ok ps. induction ck as [|k ck IH]; intros ok ps; simpl.
  { split.
    - intros [= <-]. exists []. split; [apply prefix_nil|]. by constructor.
    - intros (pre & _ & HF & ->). by inv HF. }
  destruct ok as [|o ok].
  { split; [done|]. intros (pre & Hp & HF & _). inv HF. by apply prefix_nil_not in Hp. }
  destruct (String.eqb_spec (field o) (field k)) as [E|E].
  - rewrite fmap_Some. setoid_rewrite IH. split.
    + intros (? & (pre & Hp & HF & ->) & ->). exists (o :: pre).
      split; [by apply prefix_cons|]. split; [by constructor|done].
    + intros (pre & Hp & HF & ->). inv HF. apply prefix_cons_inv_1 in Hp as Ho; subst.
      apply prefix_cons_inv_2 in Hp. eauto 10.
  - split; [done|]. intros (pre & Hp & HF & ->). inv HF.
    apply prefix_cons_inv_1 in Hp as ->. congruence.
Qed.

Lemma forallb_zip_dirs (f : IndexDirection * IndexDirection -> bool) ck pre :
  length ck = length pre ->
  forallb f (zip_with (fun a b => (direction a, direction b)) ck pre) = true <->
  Forall2 (fun a b => f (direction a, direction b) = true) ck pre.
Proof.
  revert pre. induction ck as [|k ck IH]; intros [|p pre] Hlen; simplify_eq/=.
  - split; by constructor.
  - rewrite andb_true_iff, IH by done. split; [intros []; by constructor|]. by inversion 1.
Qed.

Lemma coversKeyOrder_spec c o :
  coversKeyOrder c o = true <->
  exists pre, pre `prefix_of` keys o /\
    (Forall2 key_same (keys c) pre \/ Forall2 key_reversed (keys c) pre).
Proof.
  unfold coversKeyOrder. split.
  - destruct (key_pairs _ _) as [ps|] eqn:Ek; [|done].
    apply key_pairs_spec in Ek as (pre & Hp & HF & ->). pose proof (Forall2_length _ _ _ HF).
    intros Hb. exists pre. split; [done|]. revert Hb.
    destruct (forallb _ _) eqn:Es.
    + intros _. left. apply forallb_zip_dirs in Es; [|done].
      eapply Forall2_impl; [exact (Forall2_both _ _ _ _ HF Es)|].
      intros a b [? ?]. bools. done.
    + intros Hr. right. apply forallb_zip_dirs in Hr; [|done].
      eapply Forall2_impl; [exact (Forall2_both _ _ _ _ HF Hr)|].
      intros a b [? Hd]. split; [done|]. unfold ordered in Hd. bools.
      destruct Hd as [[[w Hw] [h Hh]] Ho]. rewrite Hw, Hh in *. simpl in Ho. bools. subst. eauto.
  - intros (pre & Hp & Hk).
    assert (HF : Forall2 (fun a b => field a = field b) (keys c) pre)
      by (destruct Hk as [Hk|Hk]; eapply Forall2_impl; try exact Hk; by intros ? ? []).
    pose proof (Forall2_length _ _ _ HF).
    assert (key_pairs (keys c) (keys o) =
      Some (zip_with (fun a b => (direction a, direction b)) (keys c) pre)) as ->
      by (apply key_pairs_spec; eauto).
    destruct Hk as [Hk|Hk].
    + replace (forallb _ _) with true; [done|]. symmetry. apply forallb_zip_dirs; [done|].
      eapply Forall2_impl; [exact Hk|]. intros a b [_ E]. by apply bool_decide_eq_true.
    + destruct (forallb _ _); [done|]. apply forallb_zip_dirs; [done|].
      eapply Forall2_impl; [exact Hk|]. intros a b (_ & d & -> & ->). simpl.
      by apply bool_decide_eq_true.
Qed.

Lemma key_same_trans a b c : key_same a b -> key_same b c -> key_same a c.
Proof. unfold key_same. intros [] []. split; congruence. Qed.
Lemma key_same_reversed a b c : key_same a b -> key_reversed b c -> key_reversed a c.
Proof. intros [E1 E2] (E3 & d & E4 & E5). split; [congruence|]. exists d. split; congruence. Qed.
Lemma key_reversed_same a b c : key_reversed a b -> key_same b c -> key_reversed a c.
Proof. intros (E1 & d & E2 & E3) [E4 E5]. split; [congruence|]. exists d. split; congruence. Qed.
Lemma key_reversed_twice a b c : key_reversed a b -> key_reversed b c -> key_same a c.
Proof.
  intros (E1 & d & E2 & E3) (E4 & d' & E5 & E6). rewrite E3 in E5. simplify_eq.
  rewrite negate_involutive in E6. split; congruence.
Qed.

Lemma Forall2_comp {A} (P Q R : A -> A -> Prop) l k m :
  (forall a b c, P a b -> Q b c -> R a c) -> Forall2 P l k -> Forall2 Q k m -> Forall2 R l m.
Proof.
  intros HR HP. revert m. induction HP; intros m HQ; inv HQ; constructor; eauto.
Qed.

Lemma prefix_Forall2 {A} (P : A -> A -> Prop) (pre l l' : list A) :
  Forall2 P l l' -> pre `prefix_of` l -> exists pre', pre' `prefix_of` l' /\ Forall2 P pre pre'.
Proof.
  intros HP [suf ->]. apply Forall2_app_inv_l in HP as (pre' & suf' & H1 & _ & ->).
  exists pre'. split; [by apply prefix_app_r|done].
Qed.

Lemma coversKeyOrder_trans a b c :
  coversKeyOrder a b = true -> coversKeyOrder b c = true -> coversKeyOrder a c = true.
Proof.
  rewrite !coversKeyOrder_spec. intros (p & Hp & Hab) (q & Hq & Hbc).
  assert (exists p', p' `prefix_of` q /\ (Forall2 key_same p p' \/ Forall2 key_reversed p p'))
    as (p' & Hp' & Hpp').
  { destruct Hbc as [Hbc|Hbc]; destruct (prefix_Forall2 _ _ _ _ Hbc Hp) as (p' & ? & ?); eauto. }
  exists p'. split; [by etrans|].
  destruct Hab as [Hab|Hab], Hpp' as [Hpp'|Hpp'];
    [left|right|right|left]; eapply Forall2_comp; try exact Hab; try exact Hpp';
    eauto using key_same_trans, key_same_reversed, key_reversed_same, key_reversed_twice.
Qed.

(** ** Redundancy as an order *)

Lemma optionsCompatible_spec a b :
  optionsCompatible a b = true <->
  (unique a = true -> unique b = true) /\
  partial a = false /\ sparse a = false /\ ttl a = false /\
  partial b = false /\ sparse b = false /\ hidden b = false /\ collation a = collation b.
Proof.
  unfold optionsCompatible.
  destruct (unique a), (unique b), (partial a), (sparse a), (ttl a), (partial b), (sparse b),
    (hidden b); simpl; try case_bool_decide; simpl; naive_solver.
Qed.

Lemma coversIncludes_spec a b :
  coversIncludes a b = true <-> forall c, c ∈ include a ?? [] -> c ∈ coveredColumns b.
Proof.
  unfold coversIncludes. destruct (include a ?? []) as [|x l]; simpl.
  { split; [set_solver|done]. }
  rewrite andb_true_iff, includes_spec, forallb_elem. setoid_rewrite includes_spec. set_solver.
Qed.

Lemma coversKeyOrder_fields a b :
  coversKeyOrder a b = true -> forall f, f ∈ field <$> keys a -> f ∈ field <$> keys b.
Proof.
  rewrite coversKeyOrder_spec. intros (pre & [suf Hb] & Hk) f Hf.
  assert (field <$> keys a = field <$> pre) as E.
  { clear Hb Hf. destruct Hk as [Hk|Hk]; induction Hk as [|x y l k [Hxy _] Hk IH]; csimpl;
      congruence. }
  rewrite Hb, fmap_app, <- E. set_solver.
Qed.

Lemma isKeyPrefix_spec a b :
  isKeyPrefix a b = true <->
  name a <> name b /\ (length (keys a) < length (keys b))%nat /\ collation a = collation b /\
  coversKeyOrder a b = true.
Proof.
  unfold isKeyPrefix. destruct (String.eqb_spec (name a) (name b)); [naive_solver|].
  destruct (Nat.leb_spec (length (keys b)) (length (keys a))); [naive_solver lia|].
  case_bool_decide; simpl; naive_solver.
Qed.

Lemma isRedundantPrefix_spec a b :
  isRedundantPrefix a b = true <->
  optionsCompatible a b = true /\ coversIncludes a b = true /\ isKeyPrefix a b = true.
Proof.
  unfold isRedundantPrefix. destruct (optionsCompatible a b), (coversIncludes a b); naive_solver.
Qed.

Lemma isRedundantPrefix_longer a b :
  isRedundantPrefix a b = true -> (length (keys a) < length (keys b))%nat.
Proof. rewrite isRedundantPrefix_spec, isKeyPrefix_spec. naive_solver. Qed.

Lemma isRedundantPrefix_trans a b c :
  isRedundantPrefix a b = true -> isRedundantPrefix b c = true -> name a <> name c ->
  isRedundantPrefix a c = true.
Proof.
  rewrite !isRedundantPrefix_spec, !isKeyPrefix_spec, !optionsCompatible_spec, !coversIncludes_spec.
  intros (Hoab & Hiab & _ & Hlab & Hcab & Hkab) (Hobc & Hibc & _ & Hlbc & Hcbc & Hkbc) Hn.
  split_and!; try naive_solver (try congruence); try lia.
  - intros x Hx. apply Hiab in Hx. unfold coveredColumns in *.
    apply elem_of_app in Hx as [Hx|Hx]; [|by apply Hibc].
    apply elem_of_app. left. by apply (coversKeyOrder_fields b c).
  - by eapply coversKeyOrder_trans.
Qed.

(** The key-order test decides exactly what it means to decide: on an
    index of ordered keys, [coversKeyOrder] holds precisely when every ordering
    a walk of the candidate serves without a sort, forwards or backwards, a
    walk of the other index serves too. *)
Theorem coversKeyOrder_exact candidate other :
  forallb (fun k => is_ordered (direction k)) (keys candidate) = true ->
  coversKeyOrder candidate other = true <->
  forall want, serves_order (keys candidate) want -> serves_order (keys other) want.
Proof.
  intros Hord. rewrite coversKeyOrder_spec. split.
  - intros (pre & Hpre & Hk) want (bw & p & Hp & HF).
    assert (exists p' bw', p' `prefix_of` pre /\ Forall2 (key_walks bw') p' want)
      as (p' & bw' & Hp' & HF').
    { destruct Hk as [Hk|Hk]; destruct (prefix_Forall2 _ _ _ _ Hk Hp) as (p' & Hp' & Hpp').
      - exists p', bw. split; [done|]. clear -HF Hpp'. revert want HF.
        induction Hpp' as [|x y ? ? [E1 E2]]; intros want HF; inv HF; constructor; auto.
        destruct H1. split; congruence.
      - exists p', (negb bw). split; [done|]. clear -HF Hpp'. revert want HF.
        induction Hpp' as [|x y ? ? (E1 & d & E2 & E3)]; intros want HF; inv HF; constructor; auto.
        destruct H1 as [E4 E5]. split; [congruence|]. rewrite E2 in E5. simplify_eq.
        rewrite E3. destruct bw; simpl; by rewrite ?negate_involutive. }
    exists bw', p'. split; [by etrans|done].
  - intros Hall. set (fwd := fun k => {| sk_field := field k;
        sk_direction := match direction k with Ordered d => d | _ => Pos end |}).
    destruct (Hall (fwd <$> keys candidate)) as (bw & pre & Hpre & HF).
    { exists false, (keys candidate). split; [done|]. apply Forall2_fmap_r.
      rewrite forallb_elem in Hord. apply Forall_Forall2_diag, list.Forall_forall. intros k Hk.
      apply Hord, is_ordered_spec in Hk as [d Hd]. split; [done|]. simpl. by rewrite Hd. }
    exists pre. split; [done|]. rewrite Forall2_fmap_r in HF. rewrite forallb_elem in Hord.
    assert (Hk : forall k, k ∈ keys candidate -> exists d, direction k = Ordered d)
      by (intros k Hin; by apply is_ordered_spec, Hord).
    clear -HF Hk. generalize dependent (keys candidate). intros ks HF Hk.
    destruct bw; [right|left]; induction HF as [|x y ? ? [E1 E2] HF IH]; constructor;
      try (apply IH; intros; apply Hk; by right);
      destruct (Hk y ltac:(left)) as [d Hd]; simpl in E1, E2; rewrite Hd in E2;
      (split; [done|]); eauto; congruence.
Qed.

(** Redundancy is a strict order, so a chain of redundant indexes always
    ends in one that is kept: no index is redundant with itself, no two are
    redundant with each other, and what covers a covering index covers the
    candidate too. *)
Theorem isRedundantPrefix_strict_order :
  (forall a, isRedundantPrefix a a = false) /\
  (forall a b, isRedundantPrefix a b = true -> isRedundantPrefix b a = false) /\
  (forall a b c, isRedundantPrefix a b = true -> isRedundantPrefix b c = true ->
     name a <> name c -> isRedundantPrefix a c = true).
Proof.
  split_and!.
  - intros a. apply not_true_iff_false. intros H%isRedundantPrefix_longer. lia.
  - intros a b Hab%isRedundantPrefix_longer. apply not_true_iff_false.
    intros Hba%isRedundantPrefix_longer. lia.
  - exact isRedundantPrefix_trans.
Qed.

(** The check before a build agrees with the check after it: an index
    judged worth building is not one the drop side would at once call redundant
    against any index that was live, and its name is free. *)
Theorem notWorthBuilding_none candidate live :
  notWorthBuilding candidate live = None ->
  forall other, other ∈ live ->
    name other <> name candidate /\ isRedundantPrefix candidate other = false /\
    isCoveredBy candidate other = false.
Proof.
  unfold notWorthBuilding. destruct (existsb _ _) eqn:En; [done|].
  destruct (List.find _ _) as [covering|] eqn:Ef; [done|]. intros _ other Hin.
  assert (Hcov : isCoveredBy candidate other = false) by (by eapply find_none_elem in Ef).
  split_and!.
  - intros E. assert (existsb (fun index => String.eqb (name index) (name candidate)) live = true);
      [|congruence].
    apply existsb_elem. exists other. split; [done|]. by apply String.eqb_eq.
  - unfold isCoveredBy in Hcov. by destruct (isRedundantPrefix candidate other).
  - done.
Qed.

(** An ascending index on the fields. *)
Definition fields_index (n : string) (fields : list string) : IndexSpec :=
  {| name := n; keys := (fun f => {| field := f; direction := Ordered Pos |}) <$> fields; unique := false;
     ttl := false; partial := false; partialFilter := None; sparse := false; hidden := false;
     isShardKey := false; collation := None; include := None |}.

Lemma coversKeyOrder_exact_witness :
  coversKeyOrder (fields_index "a" ["a"]) (fields_index "ab" ["a"; "b"]) = true /\
  forall want, serves_order (keys (fields_index "a" ["a"])) want ->
    serves_order (keys (fields_index "ab" ["a"; "b"])) want.
Proof.
  split; [reflexivity|].
  apply (coversKeyOrder_exact (fields_index "a" ["a"]) (fields_index "ab" ["a"; "b"])); reflexivity.
Defined.

Lemma isRedundantPrefix_strict_order_witness :
  isRedundantPrefix (fields_index "a" ["a"]) (fields_index "abc" ["a"; "b"; "c"]) = true.
Proof.
  apply (proj2 (proj2 isRedundantPrefix_strict_order) (fields_index "a" ["a"]) (fields_index "ab" ["a"; "b"])
    (fields_index "abc" ["a"; "b"; "c"])); [reflexivity|reflexivity|discriminate].
Defined.
