(* ===== verification/Recurrence.v ===== *)
(** Which query shapes count as a workload: who ran them and how often.
    Models [apps/api/src/analysis/client.ts] and the recurrence rules of
    [apps/api/src/analysis/workload.ts]. *)
From S2P Require Import Prelude EngineTypes.

(** ** Who ran the query *)

Definition INTERACTIVE : list string :=
  ["mongosh"; "mongo shell"; "compass"; "studio 3t"; "robo 3t"; "robomongo"; "nosqlbooster";
   "datagrip"; "dbeaver"; "tableplus"; "mongodb for vs code"; "mongo-express"; "mongocli";
   "atlas cli"]%string.

Definition looksInteractive (name : string) : bool :=
  let lower := toLowerCase name in
  existsb (fun tool => text_includes lower tool) INTERACTIVE.

Inductive ClientKind := Interactive | Application | Unknown.
#[export] Instance ClientKind_eq_dec : EqDecision ClientKind.
Proof. solve_decision. Defined.

Definition classifyClient (client : QueryClient) : ClientKind :=
  let application := application client ?? ""%string in
  let driver := driver client ?? ""%string in
  if String.eqb application "" && String.eqb driver "" then Unknown
  else if looksInteractive application || looksInteractive driver then Interactive
  else Application.

Definition isWorthIndexing (clients : list QueryClient) : bool :=
  if (length clients =? 0)%nat then true
  else existsb (fun client => negb (bool_decide (classifyClient client = Interactive))) clients.

(** ** How often *)

Definition HOURS_PER_WEEK : Q := 168.

Record WorkloadOptions := { minCount : Z; minPerWeek : Q }.

Definition executionsPerWeek (shape : QueryShape) : Q :=
  match observedForHours shape with
  | Some hours =>
      if Qle_bool hours 0 then inject_Z (count shape)
      else inject_Z (count shape) / (hours / HOURS_PER_WEEK)
  | None => inject_Z (count shape)
  end.

Definition isRecurring (shape : QueryShape) (options : WorkloadOptions) : bool :=
  if count shape <? minCount options then false
  else
    match observedForHours shape with
    | Some hours =>
        if Qle_bool hours 0 then true
        else Qle_bool (minPerWeek options) (executionsPerWeek shape)
    | None => true
    end.

Lemma isRecurring_count shape options :
  isRecurring shape options = true -> minCount options <= count shape.
Proof. unfold isRecurring. destruct (_ <? _) eqn:E; [done|]. lia. Qed.

Lemma executionsPerWeek_nonneg shape : 0 <= count shape -> (0 <= executionsPerWeek shape)%Q.
Proof.
  intros Hc. assert (0 <= inject_Z (count shape))%Q
    by (change 0%Q with (inject_Z 0); by rewrite <- Zle_Qle).
  unfold executionsPerWeek. destruct (observedForHours shape) as [h|]; [|done].
  destruct (Qle_bool h 0) eqn:E; [done|]. bools.
  apply Qle_shift_div_l; [|lra]. apply Qlt_shift_div_l; [reflexivity|]. lra.
Qed.
