(* ===== verification/Score.v ===== *)
(** What a missing index costs, how long a regressed index is parked, and how
    confident a finding is.  Models [apps/api/src/analysis/severity.ts],
    [cooldown.ts] and [score.ts] of the same directory. *)
From S2P Require Import Prelude EngineTypes Runs Recurrence.

(** ** What a missing index costs *)

Inductive ScanSeverity := CRITICAL | ELEVATED | ROUTINE.
#[export] Instance ScanSeverity_eq_dec : EqDecision ScanSeverity.
Proof. solve_decision. Defined.

Definition CRITICAL_DOCS_EXAMINED : Z := 10000000.
Definition ELEVATED_DOCS_EXAMINED : Z := 1000000.
Definition LARGE_COLLECTION_DOCS : Z := 100000.
Definition CRITICAL_DOCS_PER_EXECUTION : Z := 500000.
Definition MIN_WEEKLY_DOCS_EXAMINED : Z := 1000000.
Definition MIN_PROJECTION_OBSERVATIONS : Z := 12.
Definition MIN_PROJECTION_LIFETIME_HOURS : Z := 24.

Record ScanCost := { severity : ScanSeverity; cost_docsExamined : Z; summary : string }.

(** [value.toFixed(1)] of a non-negative value: the nearest tenth, ties up. *)
Definition toFixed1 (value : Q) : string :=
  let n := Math_round (value * 10) in
  (show (n / 10) +:+ "." +:+ show (n mod 10))%string.

Definition round (value : Q) : string :=
  if Qle_bool 1000000000 value then (toFixed1 (value / 1000000000) +:+ "B")%string
  else if Qle_bool 1000000 value then (toFixed1 (value / 1000000) +:+ "M")%string
  else if Qle_bool 1000 value then (show (Math_round (value / 1000)) +:+ "k")%string
  else show (Math_round value).

Definition perExecution (examined : Z) (count : Z) : Q :=
  if 0 <? count then (inject_Z examined / inject_Z count)%Q else 0%Q.

Definition scanCost (shape : QueryShape) (docCount : Z) : ScanCost :=
  if negb (collscan shape)
  then {| severity := ROUTINE; cost_docsExamined := 0; summary := "not scanning" |}
  else
    let examined := docsExamined shape ?? 0 in
    let per := perExecution examined (count shape) in
    if (CRITICAL_DOCS_EXAMINED <=? examined) ||
       Qle_bool (inject_Z CRITICAL_DOCS_PER_EXECUTION) per
    then {| severity := CRITICAL; cost_docsExamined := examined;
            summary := (round (inject_Z examined) +:+ " documents scanned across " +:+
                        show (count shape) +:+ " executions (~" +:+ round per +:+
                        " per query)")%string |}
    else if (ELEVATED_DOCS_EXAMINED <=? examined) || (LARGE_COLLECTION_DOCS <=? docCount)
    then {| severity := ELEVATED; cost_docsExamined := examined;
            summary := if 0 <? examined
              then (round (inject_Z examined) +:+ " documents scanned across " +:+
                    show (count shape) +:+ " executions")%string
              else ("scanning a collection of " +:+ round (inject_Z docCount) +:+
                    " documents")%string |}
    else {| severity := ROUTINE; cost_docsExamined := examined;
            summary := ("scanning a collection of " +:+ round (inject_Z docCount) +:+
                        " documents")%string |}.

(** What one shape adds to its collection's weekly cost. *)
Definition shape_weekly_cost (docCount : Z) (shape : QueryShape) : Q :=
  if negb (collscan shape) then 0%Q
  else
    let examined := docsExamined shape ?? count shape * docCount in
    (perExecution examined (count shape) * executionsPerWeek shape)%Q.

Definition weeklyScanCost (shapes : list QueryShape) (docCount : Z) : Q :=
  qsum (shape_weekly_cost docCount) shapes.

Definition bypassesChangeWindow (severity : ScanSeverity) : bool :=
  bool_decide (severity = CRITICAL).

(** More work wasted is never graded milder. *)
Definition severity_rank (s : ScanSeverity) : Z :=
  match s with ROUTINE => 0 | ELEVATED => 1 | CRITICAL => 2 end.

Definition with_examined (shape : QueryShape) (examined : option Z) : QueryShape :=
  {| equality := equality shape; sort := sort shape; range := range shape;
     collscan := collscan shape; sortedInMemory := sortedInMemory shape; count := count shape;
     docsExamined := examined; observedForHours := observedForHours shape;
     clients := clients shape; constants := constants shape; lookups := lookups shape |}.

Lemma perExecution_mono a b n : a <= b -> (perExecution a n <= perExecution b n)%Q.
Proof.
  intros Hab. unfold perExecution. destruct (0 <? n) eqn:E; [|lra].
  apply Qmult_le_compat_r; [by rewrite <- Zle_Qle|].
  apply Qinv_le_0_compat. change 0%Q with (inject_Z 0). rewrite <- Zle_Qle. lia.
Qed.

(** Grading is monotone in the measured cost: with the shape and the
    collection otherwise the same, walking more documents, or scanning a larger
    collection, never lowers the severity. *)
Theorem scanCost_monotone shape a b docs docs' :
  a <= b -> docs <= docs' ->
  severity_rank (severity (scanCost (with_examined shape (Some a)) docs)) <=
  severity_rank (severity (scanCost (with_examined shape (Some b)) docs')).
Proof.
  intros Hab Hdocs. pose proof (perExecution_mono a b (count shape) Hab).
  unfold scanCost. simpl. destruct (collscan shape); simpl; [|lia].
  repeat case_match; simpl; bools; try lia; naive_solver (try lia; try lra).
Qed.

(** ** Cooldown *)

Definition FIRST_COOLDOWN_WINDOWS : Z := 1.
Definition COOLDOWN_CAP_DAYS : Z := 365.

Definition cooldownDaysFor (observeDays regressionCount : Z) : Z :=
  let windows := FIRST_COOLDOWN_WINDOWS * 2 ^ Z.max 0 (regressionCount - 1) in
  Z.min COOLDOWN_CAP_DAYS (observeDays * windows).

Definition proposedVetoDays (observeDays : Z) : Z := cooldownDaysFor observeDays 1.

(** ** Score *)

Record DropSignals := {
  ds_usageClass : option UsageClass;
  ds_snapshots : Z;
  ds_redundant : bool;
  ds_sizeBytes : Z;
  ds_regressionWeight : Q;
}.

Record CreateSignals := {
  cs_collscan : bool;
  cs_sortedInMemory : option bool;
  cs_count : Z;
  cs_docCount : Z;
  cs_regressionWeight : Q;
  cs_severity : option ScanSeverity;
  cs_collectionIndexes : option Z;
}.

Definition GB : Z := 1024 ^ 3.
Definition SNAPSHOTS_FOR_FULL_CREDIT : Z := 125.
Definition SIGHTINGS_FOR_FULL_CREDIT : Z := 35.
Definition SNAPSHOTS_FOR_A_WEEK : Z := 28.
Definition THIN_EVIDENCE_MAX : Z := 25.
Definition REGRESSION_PENALTY : Q := 40.
Definition DAY_MS : Z := 86400000.
Definition ORDINARY_COLLECTION_INDEXES : Z := 4.
Definition CROWDING_STEP : Z := 10.
Definition CROWDING_MAX : Z := 40.

Definition crowdingPenalty (collectionIndexes : Z) : Z :=
  let over := collectionIndexes - ORDINARY_COLLECTION_INDEXES in
  if over <=? 0 then 0 else Z.min CROWDING_MAX (over * CROWDING_STEP).

Definition thinEvidencePenalty (snapshots : Z) : Z :=
  if SNAPSHOTS_FOR_A_WEEK <=? snapshots then 0
  else Math_round (inject_Z THIN_EVIDENCE_MAX *
                   (1 - inject_Z snapshots / inject_Z SNAPSHOTS_FOR_A_WEEK)).

(** The cooldown row a score reads: how often, and until when. *)
Record CooldownRow := { regressionCount : Z; until : option stamp }.

Definition regressionWeight (cooldown : CooldownRow) (observeDays now : Z) : Q :=
  let count := regressionCount cooldown in
  if count <=? 0 then 0%Q
  else
    match until cooldown with
    | None => inject_Z count
    | Some stamp =>
        match getTime stamp with
        | None => inject_Z count
        | Some until =>
            let span := cooldownDaysFor observeDays count * DAY_MS in
            if span <=? 0 then inject_Z count
            else
              let past := now - until in
              if past <=? 0 then inject_Z count
              else if span <=? past then 0%Q
              else (inject_Z count * (1 - inject_Z past / inject_Z span))%Q
        end
    end.

Definition clamp (score : Q) : Z := Z.max 0 (Z.min 100 (Math_round score)).

(** [Math.min(20, Math.round(20 * Math.log10(1 + 9 * size / GB)))], exactly:
    [Math.round(20 * log10 x)] is at least [n] when [x ^ 40] is at least
    [10 ^ (2 * n - 1)]. *)
Definition sizeCredit (sizeBytes : Z) : Z :=
  zsum (fun n => if 10 ^ (2 * Z.of_nat n - 1) * GB ^ 40 <=? (GB + 9 * sizeBytes) ^ 40 then 1 else 0)
    (seq 1 20).

Definition dropScore (signals : DropSignals) : Z :=
  let argument :=
    if ds_redundant signals then 55
    else match ds_usageClass signals with
         | Some FLAT_ZERO => 50
         | Some PERIODIC_DEAD => 35
         | _ => 0
         end in
  let history := Z.min 25 (25 * ds_snapshots signals / SNAPSHOTS_FOR_FULL_CREDIT) in
  let thin :=
    match ds_usageClass signals with
    | Some _ => thinEvidencePenalty (ds_snapshots signals)
    | None => 0
    end in
  let size := if 0 <? ds_sizeBytes signals then sizeCredit (ds_sizeBytes signals) else 0 in
  clamp (inject_Z (argument + history - thin + size)
         - ds_regressionWeight signals * REGRESSION_PENALTY)%Q.

Definition createScore (signals : CreateSignals) : Z :=
  let argument :=
    if cs_collscan signals then 40
    else if bool_decide (cs_sortedInMemory signals = Some true) then 25 else 0 in
  let frequency := Z.min 30 (30 * cs_count signals / SIGHTINGS_FOR_FULL_CREDIT) in
  let collection :=
    if 1000000 <=? cs_docCount signals then 20
    else if 10000 <=? cs_docCount signals then 14
    else if 1000 <=? cs_docCount signals then 6 else 0 in
  let severity :=
    match cs_severity signals with Some CRITICAL => 10 | Some ELEVATED => 5 | _ => 0 end in
  let crowding :=
    match cs_collectionIndexes signals with Some n => crowdingPenalty n | None => 0 end in
  clamp (inject_Z (argument + frequency + collection + severity - crowding)
         - cs_regressionWeight signals * REGRESSION_PENALTY)%Q.

Record NarrowSignals := {
  ns_observedCount : Z;
  ns_droppedKeys : Z;
  ns_totalKeys : Z;
  ns_sizeBytes : Z;
  ns_regressionWeight : Q;
}.
Definition NARROW_MAX_SCORE : Z := 60.
Definition NARROW_SIGHTINGS_FOR_FULL_CREDIT : Z := 500.

Definition narrowScore (signals : NarrowSignals) : Z :=
  let evidence :=
    Z.min 25 (25 * ns_observedCount signals / NARROW_SIGHTINGS_FOR_FULL_CREDIT) in
  let dead := 10 * ns_droppedKeys signals / Z.max 1 (ns_totalKeys signals) in
  let size :=
    if GB <=? ns_sizeBytes signals then 10
    else if 128 * 1024 * 1024 <=? ns_sizeBytes signals then 6 else 0 in
  Z.min NARROW_MAX_SCORE
    (clamp (inject_Z (15 + evidence + dead + size)
            - ns_regressionWeight signals * REGRESSION_PENALTY)%Q).

Record ReorderSignals := { rs_count : Z; rs_sizeBytes : Z; rs_regressionWeight : Q }.
Definition REORDER_MAX_SCORE : Z := 65.

Definition reorderScore (signals : ReorderSignals) : Z :=
  let frequency := Z.min 25 (25 * rs_count signals / SIGHTINGS_FOR_FULL_CREDIT) in
  let size :=
    if GB <=? rs_sizeBytes signals then 15
    else if 128 * 1024 * 1024 <=? rs_sizeBytes signals then 8 else 0 in
  Z.min REORDER_MAX_SCORE
    (clamp (inject_Z (30 + frequency - size)
            - rs_regressionWeight signals * REGRESSION_PENALTY)%Q).

Definition RECOMMENDED_AUTO_APPLY_SCORE : Z := 70.

(** ** Terms *)

Lemma clamp_range q : 0 <= clamp q <= 100.
Proof. unfold clamp. lia. Qed.

Lemma clamp_mono p q : (p <= q)%Q -> clamp p <= clamp q.
Proof. intros H%Math_round_mono. unfold clamp. lia. Qed.

Lemma clamp_le q z : (q <= inject_Z z)%Q -> 0 <= z -> clamp q <= z.
Proof. intros H%Math_round_mono ?. rewrite Math_round_Z in H. unfold clamp. lia. Qed.

Lemma zsum_indicator_bounds {A} (f : A -> bool) l :
  0 <= zsum (fun x => if f x then 1 else 0) l <= Z.of_nat (length l).
Proof.
  induction l as [|x l IH]; [done|]. rewrite zsum_cons. simpl length. case_match; lia.
Qed.

Lemma sizeCredit_range size : 0 <= sizeCredit size <= 20.
Proof. apply (zsum_indicator_bounds _ (seq 1 20)). Qed.

Lemma sizeCredit_mono a b : 0 <= a <= b -> sizeCredit a <= sizeCredit b.
Proof.
  intros Hab. apply zsum_le. intros n _.
  assert (Hpow : (GB + 9 * a) ^ 40 <= (GB + 9 * b) ^ 40).
  { apply Z.pow_le_mono_l. assert (0 < GB) by done. lia. }
  revert Hpow. generalize ((GB + 9 * a) ^ 40) ((GB + 9 * b) ^ 40) (10 ^ (2 * Z.of_nat n - 1) * GB ^ 40).
  intros x y z Hpow. destruct (z <=? x) eqn:E1, (z <=? y) eqn:E2; lia.
Qed.

Lemma thinEvidencePenalty_mono s t : s <= t -> thinEvidencePenalty t <= thinEvidencePenalty s.
Proof.
  intros Hst. rewrite Zle_Qle in Hst. unfold thinEvidencePenalty.
  change (inject_Z THIN_EVIDENCE_MAX) with 25%Q. change (inject_Z SNAPSHOTS_FOR_A_WEEK) with 28%Q.
  assert (Hq : forall x, (x / 28 == x * (1 # 28))%Q) by (intros; unfold Qdiv; reflexivity).
  destruct (_ <=? t) eqn:Et, (_ <=? s) eqn:Es; unfold SNAPSHOTS_FOR_A_WEEK in *.
  - lia.
  - rewrite <- (Math_round_Z 0). apply Math_round_mono. rewrite Hq.
    assert (s <= 28) as Hs by lia. rewrite Zle_Qle in Hs. change (inject_Z 28) with 28%Q in Hs.
    change (inject_Z 0) with 0%Q. lra.
  - rewrite <- Zle_Qle in Hst. lia.
  - apply Math_round_mono. rewrite !Hq. lra.
Qed.

Lemma thinEvidencePenalty_nonneg s : 0 <= thinEvidencePenalty s.
Proof.
  pose proof (thinEvidencePenalty_mono s (Z.max s 28)) as H.
  assert (thinEvidencePenalty (Z.max s 28) = 0) as E; [|lia].
  unfold thinEvidencePenalty, SNAPSHOTS_FOR_A_WEEK. case_match; [done|lia].
Qed.

Lemma crowdingPenalty_nonneg n : 0 <= crowdingPenalty n.
Proof. unfold crowdingPenalty, CROWDING_STEP, CROWDING_MAX. case_match; lia. Qed.

Lemma penalty_mono p q z w v :
  p <= q -> (v <= w)%Q ->
  (inject_Z p - w * z <= inject_Z q - v * z)%Q \/ (z < 0)%Q.
Proof.
  intros Hpq Hvw. rewrite Zle_Qle in Hpq. destruct (Qlt_le_dec z 0); [by right|left].
  assert (v * z <= w * z)%Q by (by apply Qmult_le_compat_r). lra.
Qed.

Lemma dropScore_argument_max (c : option UsageClass) (red : bool) :
  (if red then 55 else match c with Some FLAT_ZERO => 50 | Some PERIODIC_DEAD => 35 | _ => 0 end)
    <= 55.
Proof. destruct red, c as [[]|]; lia. Qed.

Lemma size_term_range s : 0 <= (if 0 <? s then sizeCredit s else 0) <= 20.
Proof. pose proof (sizeCredit_range s). case_match; lia. Qed.

Lemma size_term_mono a b :
  a <= b -> (if 0 <? a then sizeCredit a else 0) <= (if 0 <? b then sizeCredit b else 0).
Proof.
  intros. pose proof (sizeCredit_range b). repeat case_match; try lia. apply sizeCredit_mono. lia.
Qed.

(** Every score is a number between 0 and 100, and the two findings that
    argue from absence of evidence or touch a constraint, narrowing and
    re-ordering, stay below the recommended unattended threshold whatever the
    signals say. *)
Theorem scores_in_range d c n r :
  0 <= dropScore d <= 100 /\ 0 <= createScore c <= 100 /\
  0 <= narrowScore n < RECOMMENDED_AUTO_APPLY_SCORE /\
  0 <= reorderScore r < RECOMMENDED_AUTO_APPLY_SCORE.
Proof.
  unfold dropScore, createScore, narrowScore, reorderScore, RECOMMENDED_AUTO_APPLY_SCORE,
    NARROW_MAX_SCORE, REORDER_MAX_SCORE.
  repeat match goal with |- context [clamp ?q] =>
    let H := fresh in pose proof (clamp_range q) as H; revert H; generalize (clamp q); intros end.
  lia.
Qed.

(** More evidence never lowers a drop's score: with the same argument, a
    longer history, a larger index or a faded regression record scores at least
    as high. *)
Theorem dropScore_monotone d d' :
  ds_usageClass d = ds_usageClass d' -> ds_redundant d = ds_redundant d' ->
  ds_snapshots d <= ds_snapshots d' -> ds_sizeBytes d <= ds_sizeBytes d' ->
  (ds_regressionWeight d' <= ds_regressionWeight d)%Q ->
  dropScore d <= dropScore d'.
Proof.
  intros Ec Er Hs Hb Hw. unfold dropScore. rewrite Ec, Er. apply clamp_mono.
  pose proof (size_term_mono _ _ Hb) as Hsize.
  pose proof (thinEvidencePenalty_mono _ _ Hs) as Hthin.
  assert (25 * ds_snapshots d / SNAPSHOTS_FOR_FULL_CREDIT <=
          25 * ds_snapshots d' / SNAPSHOTS_FOR_FULL_CREDIT) as Hhist
    by (apply Z.div_le_mono; unfold SNAPSHOTS_FOR_FULL_CREDIT; lia).
  match goal with |- (inject_Z ?p - _ <= inject_Z ?q - _)%Q =>
    destruct (penalty_mono p q REGRESSION_PENALTY (ds_regressionWeight d) (ds_regressionWeight d'))
      as [H|H]; [|done|exact H|by exfalso; revert H; vm_compute] end.
  apply Z.add_le_mono; [|exact Hsize]. apply Z.sub_le_mono; [lia|]. destruct (ds_usageClass d'); lia.
Qed.

(** One regression still in force, or more, keeps an index out of
    unattended drops and a shape out of unattended builds at the recommended
    threshold, however strong everything else is. *)
Theorem regressed_below_threshold d c :
  (1 <= ds_regressionWeight d)%Q -> (1 <= cs_regressionWeight c)%Q ->
  dropScore d < RECOMMENDED_AUTO_APPLY_SCORE /\ createScore c < RECOMMENDED_AUTO_APPLY_SCORE.
Proof.
  intros Hd Hc.
  assert (Hpen : forall w z, (1 <= w)%Q -> z <= 100 ->
    clamp (inject_Z z - w * REGRESSION_PENALTY)%Q <= 60).
  { intros w z Hw Hz. rewrite Zle_Qle in Hz. apply clamp_le; [|done].
    change REGRESSION_PENALTY with 40%Q. change (inject_Z 100) with 100%Q in Hz.
    change (inject_Z 60) with 60%Q. lra. }
  unfold RECOMMENDED_AUTO_APPLY_SCORE. split.
  - assert (dropScore d <= 60); [|lia]. unfold dropScore. apply Hpen; [done|].
    pose proof (dropScore_argument_max (ds_usageClass d) (ds_redundant d)) as Ha.
    pose proof (size_term_range (ds_sizeBytes d)).
    pose proof (thinEvidencePenalty_nonneg (ds_snapshots d)).
    destruct (ds_usageClass d); lia.
  - assert (createScore c <= 60); [|lia]. unfold createScore. apply Hpen; [done|].
    assert (0 <= match cs_collectionIndexes c with Some n => crowdingPenalty n | None => 0 end)
      by (case_match; [apply crowdingPenalty_nonneg|lia]).
    repeat case_match; lia.
Qed.

(** A usage finding on less than a working week of six-hourly collects
    cannot reach the recommended threshold: under 23 collects it scores below
    70 whatever the size of the index. *)
Theorem thin_usage_below_threshold d c :
  ds_usageClass d = Some c -> ds_redundant d = false -> ds_snapshots d < 23 ->
  (0 <= ds_regressionWeight d)%Q -> dropScore d < RECOMMENDED_AUTO_APPLY_SCORE.
Proof.
  intros Ec Er Hs Hw. unfold RECOMMENDED_AUTO_APPLY_SCORE.
  assert (dropScore d <= 69); [|lia]. unfold dropScore. rewrite Ec, Er.
  assert (thinEvidencePenalty 22 <= thinEvidencePenalty (ds_snapshots d))
    by (apply thinEvidencePenalty_mono; lia).
  change (thinEvidencePenalty 22) with 5 in *.
  assert (25 * ds_snapshots d / SNAPSHOTS_FOR_FULL_CREDIT <= 4)
    by (apply Z.lt_succ_r, Z.div_lt_upper_bound; unfold SNAPSHOTS_FOR_FULL_CREDIT; lia).
  pose proof (size_term_range (ds_sizeBytes d)).
  apply clamp_le; [|done]. change REGRESSION_PENALTY with 40%Q.
  match goal with |- (inject_Z ?p - _ <= _)%Q => assert (p <= 69) as Hp end.
  { destruct c; lia. }
  rewrite Zle_Qle in Hp. lra.
Qed.

(** A regression counts in full until its cooldown ends, then fades to
    nothing over the same span again and never rises: the weight stays between
    zero and the count and only falls as time passes. *)
Theorem regressionWeight_fades row observeDays now now' :
  now <= now' ->
  let w := regressionWeight row observeDays in
  (0 <= w now <= inject_Z (Z.max 0 (regressionCount row)))%Q /\
  (w now' <= w now)%Q /\
  (forall u, until row = Some (At u) -> now <= u -> w now = inject_Z (Z.max 0 (regressionCount row))) /\
  (forall u, until row = Some (At u) -> 0 < regressionCount row -> 0 < observeDays ->
     u + cooldownDaysFor observeDays (regressionCount row) * DAY_MS <= now -> w now = 0%Q).
Proof.
  intros Hnow. simpl. set (n := regressionCount row).
  assert (Hfade : forall span past, 0 < span -> 0 <= past <= span -> 0 <= n ->
    (0 <= inject_Z n * (1 - inject_Z past / inject_Z span) <= inject_Z n)%Q).
  { intros span past Hspan [Hp1 Hp2] Hn. rewrite Zle_Qle in Hp1, Hp2, Hn. rewrite Zlt_Qlt in Hspan.
    change (inject_Z 0) with 0%Q in *.
    assert (0 <= inject_Z past / inject_Z span <= 1)%Q.
    { split; [apply Qle_shift_div_l; lra|apply Qle_shift_div_r; lra]. }
    split; [apply Qmult_le_0_compat; lra|].
    rewrite <- (Qmult_1_r (inject_Z n)) at 2. rewrite !(Qmult_comm (inject_Z n)).
    apply Qmult_le_compat_r; lra. }
  assert (Hmono : forall span p p', 0 < span -> p <= p' -> 0 <= n ->
    (inject_Z n * (1 - inject_Z p' / inject_Z span) <=
     inject_Z n * (1 - inject_Z p / inject_Z span))%Q).
  { intros span p p' Hspan Hp Hn. rewrite Zle_Qle in Hp, Hn. rewrite Zlt_Qlt in Hspan.
    change (inject_Z 0) with 0%Q in *.
    rewrite !(Qmult_comm (inject_Z n)). apply Qmult_le_compat_r; [|done].
    assert (inject_Z p / inject_Z span <= inject_Z p' / inject_Z span)%Q; [|lra].
    apply Qmult_le_compat_r; [done|]. apply Qinv_le_0_compat. lra. }
  assert (Hn0 : 0 < n -> (0 <= inject_Z n)%Q)
    by (intros; change 0%Q with (inject_Z 0); rewrite <- Zle_Qle; lia).
  unfold regressionWeight. fold n. destruct (n <=? 0) eqn:En.
  { replace (Z.max 0 n) with 0 by lia. change (inject_Z 0) with 0%Q. split_and!; try lra; auto. }
  replace (Z.max 0 n) with n by lia. specialize (Hn0 ltac:(lia)).
  destruct (until row) as [[u|]|]; simpl; try (split_and!; try lra; intros; simplify_eq; done).
  assert (Hspan0 : 0 < observeDays -> 0 < cooldownDaysFor observeDays n).
  { intros. unfold cooldownDaysFor, FIRST_COOLDOWN_WINDOWS, COOLDOWN_CAP_DAYS.
    assert (0 < 2 ^ Z.max 0 (n - 1)) by (apply Z.pow_pos_nonneg; lia). nia. }
  set (span := cooldownDaysFor observeDays n * DAY_MS).
  destruct (span <=? 0) eqn:Es.
  { split_and!; try lra; try done. intros ? [=] ? Ho%Hspan0. unfold span, DAY_MS in Es. lia. }
  repeat case_match; try lia; split_and!; try lra; try done; try (intros; simplify_eq; lia);
    try (apply Hfade; lia); try (apply Hmono; lia).
Qed.

(** The cooldown curve: one observe window for the first regression,
    doubling with each further one, and never more than a year. *)
Theorem cooldownDaysFor_curve observeDays n :
  0 <= observeDays -> 1 <= n ->
  cooldownDaysFor observeDays 1 = Z.min 365 observeDays /\
  cooldownDaysFor observeDays (n + 1) = Z.min 365 (2 * cooldownDaysFor observeDays n) /\
  cooldownDaysFor observeDays n <= 365.
Proof.
  intros Ho Hn. unfold cooldownDaysFor, FIRST_COOLDOWN_WINDOWS, COOLDOWN_CAP_DAYS.
  split_and!; [change (2 ^ Z.max 0 (1 - 1)) with 1; lia| |lia].
  replace (Z.max 0 (n + 1 - 1)) with (Z.succ (Z.max 0 (n - 1))) by lia.
  rewrite Z.pow_succ_r by lia. assert (0 < 2 ^ Z.max 0 (n - 1)) by (apply Z.pow_pos_nonneg; lia).
  nia.
Qed.

Lemma thin_usage_below_threshold_witness :
  dropScore {| ds_usageClass := Some FLAT_ZERO; ds_snapshots := 12; ds_redundant := false;
               ds_sizeBytes := 1048576; ds_regressionWeight := 0 |} < RECOMMENDED_AUTO_APPLY_SCORE.
Proof.
  apply (thin_usage_below_threshold {| ds_usageClass := Some FLAT_ZERO; ds_snapshots := 12; ds_redundant := false;
    ds_sizeBytes := 1048576; ds_regressionWeight := 0 |} FLAT_ZERO);
    [reflexivity|reflexivity|reflexivity|apply Qle_refl].
Defined.
