(* ===== verification/Health.v ===== *)
(** Whether a server or a collection is hurting right now.  Models
    [apps/api/src/analysis/health.ts] and [apps/api/src/analysis/pressure.ts]. *)
From S2P Require Import Prelude EngineTypes Score.

(** ** The server *)

Inductive HealthSeverity := H_CRITICAL | H_ELEVATED | H_HEALTHY.
#[export] Instance HealthSeverity_eq_dec : EqDecision HealthSeverity.
Proof. solve_decision. Defined.

Record HealthVerdict := { hv_severity : HealthSeverity; indexRelated : bool; hv_summary : string }.

Record HealthWording := { w_scans : string; w_walked : string; w_sorts : string; w_queue : string }.

Record HealthOptions := {
  minScans : Z;
  criticalDocsPerKey : Z;
  elevatedDocsPerKey : Z;
  criticalQueuedReaders : Z;
  criticalSorts : Z;
  elevatedSorts : Z;
  wording : HealthWording;
}.

Definition DEFAULT_HEALTH : HealthOptions :=
  {| minScans := 50; criticalDocsPerKey := 1000; elevatedDocsPerKey := 100; criticalQueuedReaders := 10;
     criticalSorts := 2500; elevatedSorts := 250;
     wording := {| w_scans := "collection scans"; w_walked := "documents"; w_sorts := "sorts without an index";
                   w_queue := "reads queued behind the global lock" |} |}.

Definition MSSQL_HEALTH : HealthOptions :=
  {| minScans := 100; criticalDocsPerKey := 200; elevatedDocsPerKey := 20; criticalQueuedReaders := 10;
     criticalSorts := 500; elevatedSorts := 20;
     wording := {| w_scans := "table scans"; w_walked := "pages"; w_sorts := "sorts spilled to tempdb";
                   w_queue := "reads waiting on a lock or page latch" |} |}.

Definition worse (a b : HealthSeverity) : HealthSeverity :=
  match a, b with
  | H_CRITICAL, _ | _, H_CRITICAL => H_CRITICAL
  | H_ELEVATED, _ | _, H_ELEVATED => H_ELEVATED
  | _, _ => H_HEALTHY
  end.

Definition health_round (value : Z) : string :=
  if 1000000 <=? value then toFixed1 (inject_Z value / 1000000) +:+ "M"
  else if 1000 <=? value then show (Math_round (inject_Z value / 1000)) +:+ "k"
  else show value.

(** Documents walked per index key; all of them where no key was read. *)
Definition docs_per_key (docs keys : Z) : Q :=
  if 0 <? keys then (inject_Z docs / inject_Z keys)%Q else inject_Z docs.

Definition scanning_severity (options : HealthOptions) (scans docs keys : Z) : HealthSeverity :=
  if scans <? minScans options then H_HEALTHY
  else if Qle_bool (inject_Z (criticalDocsPerKey options)) (docs_per_key docs keys) then H_CRITICAL
  else if Qle_bool (inject_Z (elevatedDocsPerKey options)) (docs_per_key docs keys) then H_ELEVATED
  else H_HEALTHY.
Definition sorting_severity (options : HealthOptions) (sorts : Z) : HealthSeverity :=
  if criticalSorts options <=? sorts then H_CRITICAL
  else if elevatedSorts options <=? sorts then H_ELEVATED else H_HEALTHY.

Definition assessHealth (before after : ServerHealth) (options : HealthOptions) : HealthVerdict :=
  let scans := collectionScans after - collectionScans before in
  let docs := scannedObjects after - scannedObjects before in
  let keys := scannedKeys after - scannedKeys before in
  let sorts := scanAndOrder after - scanAndOrder before in
  if (scans <? 0) || (docs <? 0) || (keys <? 0) || (sorts <? 0)
  then {| hv_severity := H_HEALTHY; indexRelated := false; hv_summary := "counters reset" |}
  else
    let scanning := scanning_severity options scans docs keys in
    let sorting := sorting_severity options sorts in
    let related := negb (bool_decide (scanning = H_HEALTHY)) || negb (bool_decide (sorting = H_HEALTHY)) in
    if criticalQueuedReaders options <=? queuedReaders after
    then {| hv_severity := H_CRITICAL; indexRelated := related;
            hv_summary := show (queuedReaders after) +:+ " " +:+ w_queue (wording options) +:+
              (if minScans options <=? scans
               then ", with " +:+ health_round scans +:+ " " +:+ w_scans (wording options) +:+ " in the window"
               else "") |}
    else
      match worse scanning sorting with
      | H_HEALTHY =>
          {| hv_severity := H_HEALTHY; indexRelated := false;
             hv_summary := if scans <? minScans options then "no significant scanning"
                           else "scanning within normal bounds" |}
      | severity =>
          {| hv_severity := severity; indexRelated := related;
             hv_summary := join ", "
               ((if minScans options <=? scans
                 then [health_round scans +:+ " " +:+ w_scans (wording options) +:+ " walking " +:+
                       health_round docs +:+ " " +:+ w_walked (wording options)] else []) ++
                (if 0 <? sorts then [health_round sorts +:+ " " +:+ w_sorts (wording options)] else [])) |}
      end.

(** ** A collection *)

Record CumulativeReads := { cr_ops : Z; cr_latencyMicros : Z }.
Record PressureVerdict := {
  underPressure : bool; currentMicros : Q; baselineMicros : Q; pressure_reason : option string }.
Record PressureOptions := { pr_factor : Z; pr_minOps : Z; pr_floorMicros : Z }.
Definition DEFAULT_PRESSURE : PressureOptions := {| pr_factor := 3; pr_minOps := 20; pr_floorMicros := 1000 |}.

Definition duration (micros : Q) : string :=
  if Qle_bool 10000 micros then show (Math_round (micros / 1000)) +:+ "ms"
  else if Qle_bool 1000 micros then toFixed1 (micros / 1000) +:+ "ms"
  else show (Math_round micros) +:+ "µs".

Definition readPressure (baseline current : CumulativeReads) (options : PressureOptions) : PressureVerdict :=
  let ops := cr_ops current - cr_ops baseline in
  let micros := cr_latencyMicros current - cr_latencyMicros baseline in
  let none := {| underPressure := false; currentMicros := 0; baselineMicros := 0; pressure_reason := None |} in
  if (ops <? 0) || (micros <? 0) then none
  else if ops <? pr_minOps options then none
  else
    let currentMicros := (inject_Z micros / inject_Z ops)%Q in
    let baselineMicros :=
      if 0 <? cr_ops baseline then (inject_Z (cr_latencyMicros baseline) / inject_Z (cr_ops baseline))%Q else 0%Q in
    let calm := {| underPressure := false; currentMicros := currentMicros; baselineMicros := baselineMicros;
                   pressure_reason := None |} in
    if Qle_bool baselineMicros 0 then calm
    else if Qltb currentMicros (inject_Z (pr_floorMicros options)) then calm
    else if Qltb currentMicros (baselineMicros * inject_Z (pr_factor options)) then calm
    else {| underPressure := true; currentMicros := currentMicros; baselineMicros := baselineMicros;
            pressure_reason := Some ("reads averaging " +:+ duration currentMicros +:+ " against a " +:+
              duration baselineMicros +:+ " baseline across " +:+ show ops +:+ " reads") |}.

(** ** Lemmas *)

Lemma inject_Z_pos z : 0 < z -> (0 < inject_Z z)%Q.
Proof. intros Hz. change 0%Q with (inject_Z 0). by rewrite <- Zlt_Qlt. Qed.

(** Quotients compared multiplied out. *)
Lemma quotient_le a b c d : 0 < b -> 0 < d ->
  (inject_Z a / inject_Z b <= inject_Z c / inject_Z d)%Q <-> a * d <= c * b.
Proof.
  intros Hb%inject_Z_pos Hd%inject_Z_pos. rewrite Zle_Qle, !inject_Z_mult.
  assert (Hbd : (0 < inject_Z b * inject_Z d)%Q) by (apply Qmult_lt_0_compat; done).
  rewrite <- (Qmult_le_r _ _ _ Hbd).
  assert (inject_Z a / inject_Z b * (inject_Z b * inject_Z d) == inject_Z a * inject_Z d)%Q as -> by (field; lra).
  assert (inject_Z c / inject_Z d * (inject_Z b * inject_Z d) == inject_Z c * inject_Z b)%Q as -> by (field; lra).
  done.
Qed.
Lemma whole_quotient a : (inject_Z a == inject_Z a / inject_Z 1)%Q.
Proof. field. Qed.
Lemma whole_le a c d : 0 < d -> (inject_Z a <= inject_Z c / inject_Z d)%Q <-> a * d <= c.
Proof. intros Hd. rewrite whole_quotient, quotient_le by lia. lia. Qed.

(** The scanning severity, multiplied out: how many documents a key must cost. *)
Lemma docs_per_key_le docs keys per :
  Qle_bool (inject_Z per) (docs_per_key docs keys) = true <-> per * (if 0 <? keys then keys else 1) <= docs.
Proof.
  rewrite Qle_bool_iff. unfold docs_per_key. destruct (Z.ltb_spec 0 keys); [by apply whole_le|].
  rewrite <- Zle_Qle. lia.
Qed.
Lemma scanning_severity_spec options scans docs keys :
  elevatedDocsPerKey options <= criticalDocsPerKey options ->
  let walks per := minScans options <= scans /\ per * (if 0 <? keys then keys else 1) <= docs in
  (scanning_severity options scans docs keys = H_CRITICAL <-> walks (criticalDocsPerKey options)) /\
  (scanning_severity options scans docs keys <> H_HEALTHY <-> walks (elevatedDocsPerKey options)).
Proof.
  intros Hd walks. unfold scanning_severity, walks. clear walks.
  destruct (Z.ltb_spec scans (minScans options)) as [Hlt|Hge]; [split; (split; [done|lia])|].
  pose proof (docs_per_key_le docs keys (criticalDocsPerKey options)) as Hc.
  pose proof (docs_per_key_le docs keys (elevatedDocsPerKey options)) as He.
  assert (Hpos : 0 < (if 0 <? keys then keys else 1)) by (destruct (Z.ltb_spec 0 keys); lia).
  revert Hc He Hpos. generalize (if 0 <? keys then keys else 1). intros k Hc He Hpos.
  assert (Hmono : criticalDocsPerKey options * k <= docs -> elevatedDocsPerKey options * k <= docs) by nia.
  destruct (Qle_bool (inject_Z (criticalDocsPerKey options)) _), (Qle_bool (inject_Z (elevatedDocsPerKey options)) _);
    naive_solver.
Qed.
Lemma sorting_severity_spec options sorts :
  elevatedSorts options <= criticalSorts options ->
  (sorting_severity options sorts = H_CRITICAL <-> criticalSorts options <= sorts) /\
  (sorting_severity options sorts <> H_HEALTHY <-> elevatedSorts options <= sorts).
Proof.
  intros Hs. unfold sorting_severity.
  destruct (Z.leb_spec (criticalSorts options) sorts), (Z.leb_spec (elevatedSorts options) sorts);
    split; split; intros; (done || lia).
Qed.

(** ** Theorems *)

(** A collection is under pressure exactly when both counters went on counting,
    the interval is thick enough, its average read reaches the floor, and it is
    the factor slower than the collection's own history, compared exactly. *)
Theorem readPressure_exact baseline current options :
  0 < pr_minOps options ->
  let ops := cr_ops current - cr_ops baseline in
  let micros := cr_latencyMicros current - cr_latencyMicros baseline in
  underPressure (readPressure baseline current options) = true <->
  pr_minOps options <= ops /\ 0 <= micros /\ 0 < cr_ops baseline /\ 0 < cr_latencyMicros baseline /\
  pr_floorMicros options * ops <= micros /\
  cr_latencyMicros baseline * pr_factor options * ops <= micros * cr_ops baseline.
Proof.
  intros Hmin ops micros. unfold readPressure. fold ops micros.
  destruct (Z.ltb_spec ops 0); [simpl; split; [done|lia]|].
  destruct (Z.ltb_spec micros 0); [simpl; split; [done|lia]|]. simpl.
  destruct (Z.ltb_spec ops (pr_minOps options)); [simpl; split; [done|lia]|].
  destruct (Z.ltb_spec 0 (cr_ops baseline)) as [Hb|Hb]; [|simpl; split; [done|lia]].
  set (B := cr_ops baseline) in *. set (L := cr_latencyMicros baseline) in *.
  assert (Hbase : (inject_Z L / inject_Z B <= 0)%Q <-> L <= 0).
  { change 0%Q with (inject_Z 0). rewrite (whole_quotient 0), quotient_le by lia. lia. }
  assert (Hfac : (inject_Z L / inject_Z B * inject_Z (pr_factor options) == inject_Z (L * pr_factor options) / inject_Z B)%Q).
  { rewrite inject_Z_mult. field. apply inject_Z_pos in Hb. lra. }
  destruct (Qle_bool _ 0) eqn:E0.
  { apply Qle_bool_iff, Hbase in E0. simpl. split; [done|lia]. }
  assert (HL : 0 < L) by (apply Z.nle_gt; intros Hn%Hbase%Qle_bool_iff; congruence).
  destruct (Qltb _ (inject_Z (pr_floorMicros options))) eqn:E1.
  { apply Qltb_lt, Qlt_not_le in E1. rewrite whole_le in E1 by lia. simpl. split; [done|lia]. }
  apply Qltb_nlt in E1. rewrite whole_le in E1 by lia.
  destruct (Qltb _ (_ * inject_Z (pr_factor options))) eqn:E2.
  - apply Qltb_lt, Qlt_not_le in E2. rewrite Hfac, quotient_le in E2 by lia. simpl. split; [done|lia].
  - apply Qltb_nlt in E2. rewrite Hfac, quotient_le in E2 by lia. simpl. split; [lia|done].
Qed.

(** What each severity of a server means, counter by counter, and when a restart
    makes the interval no evidence. *)
Theorem assessHealth_severity before after options :
  let scans := collectionScans after - collectionScans before in
  let docs := scannedObjects after - scannedObjects before in
  let keys := scannedKeys after - scannedKeys before in
  let sorts := scanAndOrder after - scanAndOrder before in
  let restarted := scans < 0 \/ docs < 0 \/ keys < 0 \/ sorts < 0 in
  let walks per := minScans options <= scans /\ per * (if 0 <? keys then keys else 1) <= docs in
  elevatedDocsPerKey options <= criticalDocsPerKey options -> elevatedSorts options <= criticalSorts options ->
  let v := assessHealth before after options in
  (hv_severity v = H_CRITICAL <-> ~ restarted /\
     (criticalQueuedReaders options <= queuedReaders after \/ walks (criticalDocsPerKey options) \/
      criticalSorts options <= sorts)) /\
  (hv_severity v <> H_HEALTHY <-> ~ restarted /\
     (criticalQueuedReaders options <= queuedReaders after \/ walks (elevatedDocsPerKey options) \/
      elevatedSorts options <= sorts)) /\
  (indexRelated v = true <-> ~ restarted /\ (walks (elevatedDocsPerKey options) \/ elevatedSorts options <= sorts)).
Proof.
  intros scans docs keys sorts restarted walks Hd Hs. unfold assessHealth. fold scans docs keys sorts.
  destruct (scanning_severity_spec options scans docs keys Hd) as [Hs1 Hs2].
  destruct (sorting_severity_spec options sorts Hs) as [Ho1 Ho2].
  change (minScans options <= scans /\ _) with (walks (criticalDocsPerKey options)) in Hs1.
  change (minScans options <= scans /\ _) with (walks (elevatedDocsPerKey options)) in Hs2.
  assert (Hreset : (scans <? 0) || (docs <? 0) || (keys <? 0) || (sorts <? 0) = true <-> restarted)
    by (rewrite !orb_true_iff, !Z.ltb_lt; unfold restarted; tauto).
  destruct ((scans <? 0) || _ || _ || _); [simpl; clearbody walks; naive_solver|].
  assert (Hr : ~ restarted) by (intros Hr; apply Hreset in Hr; done). clear Hreset. clearbody restarted walks.
  destruct (Z.leb_spec (criticalQueuedReaders options) (queuedReaders after)) as [Hq|Hq%Zlt_not_le];
    revert Hq; generalize (criticalQueuedReaders options <= queuedReaders after); intros Q Hq;
    destruct (scanning_severity _ _ _ _), (sorting_severity _ _); simpl; clear - Hs1 Hs2 Ho1 Ho2 Hr Hq;
    split_and!; naive_solver.
Qed.
