(* ===== verification/Recommend.v ===== *)
(** What the engine proposes for the indexes a collection already has.  Models
    [apps/api/src/analysis/recommend.ts]. *)
From S2P Require Import Prelude EngineTypes Runs Usage Classify Redundancy Score.

Record IndexInput := {
  spec : IndexSpec;
  usage : UsageFold;
  pendingRemoval : option bool;
}.

Definition advisoryRationale (spec : IndexSpec) : string :=
  let operator :=
    if existsb (fun key => bool_decide (direction key = Text)) (keys spec)
    then "$text" else "$near" in
  ("No recorded usage, but this index is the only way its queries run: hiding it makes " +:+
   operator +:+ " fail outright rather than run slower, so the observe window cannot test " +:+
   "the drop and the engine never proposes one. If the feature it served is gone, drop it " +:+
   "yourself with dropIndex.")%string.

Record RecommendationCandidate := {
  type : RecommendationType;
  indexName : string;
  rc_usageClass : option UsageClass;
  rationale : string;
  score : Z;
  estimatedBytesSaved : Z;
  evidenceDays : option Z;
}.

Section pass.
Context (indexes : list IndexInput) (sizes : gmap string Z) (options : ClassifyOptions)
  (regressionWeights : gmap string Q) (now : Z) (activeHours : option Q).

Definition index_trusted (index : IndexInput) : bool :=
  usageHistoryIsTrustworthyFrom (usage index) options now activeHours.

Definition eligible : list IndexInput :=
  List.filter (fun index => negb (isNeverDrop (spec index))) indexes.

(** The [dropScore] call the four loops make. *)
Definition scored (index : IndexInput) (usageClass : option UsageClass) (redundant : bool) : Z :=
  dropScore {| ds_usageClass := usageClass;
               ds_snapshots := fold_observations (usage index);
               ds_redundant := redundant;
               ds_sizeBytes := sizes !! name (spec index) ?? 0;
               ds_regressionWeight := regressionWeights !! name (spec index) ?? 0%Q |}.

Definition candidate (ty : RecommendationType) (index : IndexInput)
    (usageClass : option UsageClass) (redundant : bool) (text : string) (evidence : option Z)
    : RecommendationCandidate :=
  {| type := ty;
     indexName := name (spec index);
     rc_usageClass := usageClass;
     rationale := text;
     score := scored index usageClass redundant;
     estimatedBytesSaved := sizes !! name (spec index) ?? 0;
     evidenceDays := evidence |}.

(** The first index that stays and covers this one. *)
Definition covering (index : IndexInput) : option IndexInput :=
  List.find (fun other =>
    negb (bool_decide (pendingRemoval other = Some true)) &&
    isRedundantPrefix (spec index) (spec other)) indexes.

Definition redundant_candidate (index cover : IndexInput) : RecommendationCandidate :=
  candidate DROP_REDUNDANT index None true
    (if servedByBackwardWalk (spec index) (spec cover)
     then "Key-prefix of " +:+ name (spec cover) +:+ " with every direction reversed, which the " +:+
          "server serves by reading that index backwards — so it already covers this one."
     else "Key-prefix of " +:+ name (spec cover) +:+ ", which already covers it.")%string
    None.

Definition redundant_pass : list RecommendationCandidate :=
  omap (fun index => redundant_candidate index <$> covering index) eligible.

(** The names the first loop put in its [redundant] set. *)
Definition redundant_names : list string := indexName <$> redundant_pass.

(** The class of a trusted history that says nobody uses the index. *)
Definition dead_class (index : IndexInput) : option UsageClass :=
  if negb (index_trusted index) then None
  else match classifyUsageFrom (usage index) options with
       | FLAT_ZERO => Some FLAT_ZERO
       | PERIODIC_DEAD => Some PERIODIC_DEAD
       | _ => None
       end.

Definition unused_candidate (index : IndexInput) : option RecommendationCandidate :=
  if includes redundant_names (name (spec index)) then None
  else
    usageClass ← dead_class index;
    Some (candidate DROP_UNUSED index (Some usageClass) false
      (if bool_decide (usageClass = PERIODIC_DEAD)
       then "Was periodic, then went quiet — the workload using it appears retired."
       else "No recorded usage across the observation window.")%string
      (Some (trustedWatchDaysFrom (usage index)))).

Definition unused_pass : list RecommendationCandidate := omap unused_candidate eligible.

Definition advisory_candidate (index : IndexInput) : option RecommendationCandidate :=
  if negb (hideBreaksQueries (spec index)) then None
  else
    usageClass ← dead_class index;
    Some (candidate ADVISORY_REVIEW index (Some usageClass) false (advisoryRationale (spec index))
            (Some (trustedWatchDaysFrom (usage index)))).

Definition advisory_pass : list RecommendationCandidate := omap advisory_candidate indexes.
Definition advised : list string := indexName <$> advisory_pass.

Definition unique_advisory (index : IndexInput) : option RecommendationCandidate :=
  if negb (unique (spec index)) || String.eqb (name (spec index)) "_id_" ||
     isShardKey (spec index) then None
  else if includes advised (name (spec index)) then None
  else
    wider ← List.find (fun other =>
              negb (bool_decide (pendingRemoval other = Some true)) &&
              isKeyPrefix (spec index) (spec other) &&
              coversIncludes (spec index) (spec other)) indexes;
    Some (candidate ADVISORY_REVIEW index None true
      ("Unique index whose keys are a prefix of " +:+ name (spec wider) +:+
       (if servedByBackwardWalk (spec index) (spec wider)
        then " (with every direction reversed, which that index serves by being read backwards)"
        else "") +:+
       " — the index data is redundant, but dropping it would lose the uniqueness constraint. " +:+
       "If the constraint is obsolete, drop it yourself; if not, consider making " +:+
       name (spec wider) +:+ " unique and dropping this one. Never auto-dropped.")%string
      None).

Definition unique_pass : list RecommendationCandidate := omap unique_advisory indexes.

Definition recommendForCollection : list RecommendationCandidate :=
  redundant_pass ++ unused_pass ++ advisory_pass ++ unique_pass.
End pass.

(** ** Notions the theorems are stated with *)

Definition is_drop (c : RecommendationCandidate) : bool :=
  match type c with DROP_UNUSED | DROP_REDUNDANT => true | _ => false end.

(** The index names of a collection are distinct, as a server keeps them. *)
Definition distinct_names (indexes : list IndexInput) : Prop :=
  NoDup ((fun index => name (spec index)) <$> indexes).

(** A collection of three indexes, none of them read for months: [(a)], [(a, b)]
    and [(c)]. *)
Definition key (f : string) : IndexKey := {| field := f; direction := Ordered Pos |}.
Definition plain_index (n : string) (fields : list string) : IndexSpec :=
  {| name := n; keys := key <$> fields; unique := false; ttl := false; partial := false;
     partialFilter := None; sparse := false; hidden := false; isShardKey := false;
     collation := None; include := None |}.
Definition idle_fold (days : Z) : UsageFold :=
  {| runs := 1; fold_observations := 4 * days; activeRuns := 0;
     fold_trustedWatchMs := days * 24 * HOUR_MS; newestEndMs := Some (days * 24 * HOUR_MS);
     latestActivityMs := None; maxInteriorGapMs := 0%Q; blindWindows := [] |}.
Definition idle_index (n : string) (fields : list string) : IndexInput :=
  {| spec := plain_index n fields; usage := idle_fold 60; pendingRemoval := None |}.
Definition idle_collection : list IndexInput :=
  [idle_index "a_1" ["a"]; idle_index "a_1_b_1" ["a"; "b"]; idle_index "c_1" ["c"]].

(** ** Lemmas *)

Lemma trustworthy_span fold options now hours :
  usageHistoryIsTrustworthyFrom fold options now hours = true ->
  minHistoryDays options * 24 * HOUR_MS <= fold_trustedWatchMs fold /\
  minHistory options <= fold_observations fold.
Proof.
  unfold usageHistoryIsTrustworthyFrom, usageTrustRefusalFrom.
  destruct (fold_observations fold <? minHistory options) eqn:?; [done|].
  destruct (runs fold =? 0); [done|].
  destruct (fold_trustedWatchMs fold <? _) eqn:?; [done|]. lia.
Qed.

Lemma distinct_names_eq indexes a b :
  distinct_names indexes -> a ∈ indexes -> b ∈ indexes -> name (spec a) = name (spec b) -> a = b.
Proof.
  intros Hnd [i Hi]%list_elem_of_lookup [j Hj]%list_elem_of_lookup Hn.
  assert (i = j) as ->.
  { eapply NoDup_lookup; [exact Hnd| |]; rewrite list_lookup_fmap, ?Hi, ?Hj; simpl;
      [reflexivity|by rewrite Hn]. }
  congruence.
Qed.

Lemma NoDup_omap_names {A} (f : A -> option RecommendationCandidate) (n : A -> string) l :
  (forall x c, f x = Some c -> indexName c = n x) -> NoDup (n <$> l) -> NoDup (indexName <$> omap f l).
Proof.
  intros Hf. induction l as [|x l IH]; csimpl; [constructor|].
  intros [Hx Hl]%NoDup_cons. destruct (f x) as [c|] eqn:E; [|auto]. csimpl.
  constructor; [|auto]. rewrite (Hf _ _ E). intros (c' & Hc' & Hin)%list_elem_of_fmap. apply Hx.
  apply list_elem_of_omap in Hin as (y & Hy & Ey). rewrite Hc', (Hf _ _ Ey).
  by apply list_elem_of_fmap_2.
Qed.

Section pass_lemmas.
Context (indexes : list IndexInput) (sizes : gmap string Z) (options : ClassifyOptions)
  (weights : gmap string Q) (now : Z) (hours : option Q).
Abbreviation unprotected := (eligible indexes).
Abbreviation redundant := (redundant_pass indexes sizes weights).
Abbreviation unused := (unused_pass indexes sizes options weights now hours).
Abbreviation result := (recommendForCollection indexes sizes options weights now hours).

Lemma eligible_elem index :
  index ∈ unprotected <-> index ∈ indexes /\ isNeverDrop (spec index) = false.
Proof. unfold eligible. by rewrite elem_of_filter_bool, negb_true_iff. Qed.

Lemma covering_spec index cover :
  covering indexes index = Some cover ->
  cover ∈ indexes /\ pendingRemoval cover <> Some true /\
  isRedundantPrefix (spec index) (spec cover) = true.
Proof. intros [? H]%find_elem. bools. naive_solver. Qed.

Lemma redundant_elem c :
  c ∈ redundant <->
  exists index cover, index ∈ unprotected /\ covering indexes index = Some cover /\
    c = redundant_candidate sizes weights index cover.
Proof.
  unfold redundant_pass. rewrite list_elem_of_omap. split.
  - intros (index & Hi & H). apply fmap_Some in H as (cover & Hc & ->). eauto.
  - intros (index & cover & Hi & Hc & ->). exists index. by rewrite Hc.
Qed.

Lemma dead_class_spec index c :
  dead_class options now hours index = Some c ->
  index_trusted options now hours index = true /\ (c = FLAT_ZERO \/ c = PERIODIC_DEAD) /\
  classifyUsageFrom (usage index) options = c.
Proof.
  unfold dead_class. destruct (index_trusted _ _ _ index); [|done]. simpl.
  destruct (classifyUsageFrom _ _); intros [= <-]; auto.
Qed.

Lemma unused_elem c :
  c ∈ unused -> exists index uc, index ∈ unprotected /\ dead_class options now hours index = Some uc /\
    indexName c = name (spec index) /\ type c = DROP_UNUSED /\ rc_usageClass c = Some uc /\
    evidenceDays c = Some (trustedWatchDaysFrom (usage index)) /\
    indexName c ∉ redundant_names indexes sizes weights.
Proof.
  unfold unused_pass. rewrite list_elem_of_omap. intros (index & Hi & H).
  unfold unused_candidate in H. destruct (includes _ _) eqn:E; [done|].
  apply bind_Some in H as (uc & Hu & [= <-]). exists index, uc. simpl.
  apply bool_decide_eq_false in E. split_and!; auto.
Qed.

Lemma advisory_types c :
  c ∈ advisory_pass indexes sizes options weights now hours \/
  c ∈ unique_pass indexes sizes options weights now hours -> type c = ADVISORY_REVIEW.
Proof.
  intros [H|H]; apply list_elem_of_omap in H as (index & _ & H);
    [unfold advisory_candidate in H|unfold unique_advisory in H]; bcases; try done;
    apply bind_Some in H as (? & _ & [= <-]); done.
Qed.

Lemma filter_drops : List.filter is_drop result = List.filter is_drop (redundant ++ unused).
Proof.
  unfold recommendForCollection. rewrite app_assoc, List.filter_app.
  rewrite (filter_nothing is_drop (advisory_pass _ _ _ _ _ _ ++ _)); [apply app_nil_r|].
  intros c H. unfold is_drop. rewrite advisory_types; [done|]. by apply elem_of_app.
Qed.

Lemma result_type c : c ∈ result ->
  match type c with
  | DROP_REDUNDANT => c ∈ redundant
  | DROP_UNUSED => c ∈ unused
  | ADVISORY_REVIEW => True
  | _ => False
  end.
Proof.
  unfold recommendForCollection. rewrite !elem_of_app. intros [H|[H|H%advisory_types]].
  - pose proof H as H'. apply redundant_elem in H' as (? & ? & _ & _ & ->). done.
  - destruct (unused_elem c H) as (? & ? & _ & _ & _ & -> & _). done.
  - by rewrite H.
Qed.

(** The longest index above a redundant one is never itself redundant. *)
Lemma covering_keeper (Hnd : distinct_names indexes) n index cover :
  (forall x, x ∈ indexes -> length (keys (spec x)) <= n)%nat ->
  index ∈ indexes -> cover ∈ indexes -> pendingRemoval cover <> Some true ->
  isRedundantPrefix (spec index) (spec cover) = true ->
  exists keeper, keeper ∈ indexes /\ pendingRemoval keeper <> Some true /\
    isRedundantPrefix (spec index) (spec keeper) = true /\
    name (spec keeper) ∉ redundant_names indexes sizes weights.
Proof.
  intros Hn Hi. remember (n - length (keys (spec cover)))%nat as m eqn:Em. revert cover Em.
  induction (lt_wf m) as [m _ IH]. intros cover -> Hc Hp Hr.
  destruct (decide (name (spec cover) ∈ redundant_names indexes sizes weights)) as [Hin|];
    [|by exists cover].
  apply list_elem_of_fmap in Hin as (c & Ec & Hin%redundant_elem).
  destruct Hin as (cov' & top & Hel & Hcov & ->).
  apply covering_spec in Hcov as (Htop & Hptop & Hrtop). apply eligible_elem in Hel as [Hel _].
  assert (cov' = cover) as -> by (eapply distinct_names_eq; eauto).
  pose proof (isRedundantPrefix_longer _ _ Hr). pose proof (isRedundantPrefix_longer _ _ Hrtop).
  eapply (IH (n - length (keys (spec top)))%nat); eauto.
  - specialize (Hn _ Htop). lia.
  - eapply isRedundantPrefix_trans; eauto. intros E.
    assert (index = top) as -> by (eapply distinct_names_eq; eauto). lia.
Qed.
End pass_lemmas.

(** What a proposed drop rests on.  Every DROP names an index that is not
    protected (not [_id_], unique, TTL, shard key, text or geo); a DROP_UNUSED
    carries at least the trusted days the options ask for and a class that says
    nobody uses the index; a DROP_REDUNDANT carries no usage claim. *)
Theorem recommend_drops_grounded indexes sizes options weights now hours c :
  c ∈ recommendForCollection indexes sizes options weights now hours ->
  type c <> ADVISORY_REVIEW ->
  exists index, index ∈ indexes /\ indexName c = name (spec index) /\
    isNeverDrop (spec index) = false /\
    ((type c = DROP_REDUNDANT /\ evidenceDays c = None /\ rc_usageClass c = None /\
      exists other, other ∈ indexes /\ pendingRemoval other <> Some true /\
        isRedundantPrefix (spec index) (spec other) = true) \/
     (type c = DROP_UNUSED /\
      usageTrustRefusalFrom (usage index) options now hours = None /\
      (rc_usageClass c = Some FLAT_ZERO \/ rc_usageClass c = Some PERIODIC_DEAD) /\
      exists days, evidenceDays c = Some days /\ minHistoryDays options <= days)).
Proof.
  intros Hc Hty. apply result_type in Hc. destruct (type c) eqn:E; try done.
  - apply unused_elem in Hc
      as (index & uc & [Hi Hn]%eligible_elem & Hd & Hname & _ & Huc & Hev & _).
    apply dead_class_spec in Hd as (Ht & Hdead & _). exists index. split_and!; try done. right.
    split; [done|]. split.
    { unfold index_trusted, usageHistoryIsTrustworthyFrom in Ht.
      by destruct (usageTrustRefusalFrom _ _ _ _). }
    split; [naive_solver|]. eexists. split; [done|].
    apply trustworthy_span in Ht as [Hspan _]. unfold trustedWatchDaysFrom, HOUR_MS in *.
    apply Z.div_le_lower_bound; lia.
  - apply redundant_elem in Hc as (index & cover & [Hi Hn]%eligible_elem & Hcov & ->).
    apply covering_spec in Hcov. exists index. split_and!; try done. left. split_and!; eauto.
Qed.

(** Redundant indexes cannot cover each other out of existence: among
    distinctly named indexes, every DROP_REDUNDANT is covered by an index with
    no drop on the way which the same pass does not call redundant. *)
Theorem recommend_redundant_keeps_cover indexes sizes options weights now hours c :
  distinct_names indexes ->
  c ∈ recommendForCollection indexes sizes options weights now hours ->
  type c = DROP_REDUNDANT ->
  exists index keeper, index ∈ indexes /\ indexName c = name (spec index) /\
    keeper ∈ indexes /\ pendingRemoval keeper <> Some true /\
    isRedundantPrefix (spec index) (spec keeper) = true /\
    forall c', c' ∈ recommendForCollection indexes sizes options weights now hours ->
      type c' = DROP_REDUNDANT -> indexName c' <> name (spec keeper).
Proof.
  intros Hnd Hc Hty. apply result_type in Hc. rewrite Hty in Hc.
  apply redundant_elem in Hc as (index & cover & [Hi _]%eligible_elem & Hcov & ->).
  apply covering_spec in Hcov as (Hcin & Hp & Hr).
  destruct (covering_keeper indexes sizes weights Hnd
              (foldr Nat.max 0 ((fun x => length (keys (spec x))) <$> indexes))%nat index cover)
    as (keeper & Hk & Hpk & Hrk & Hnk); try done.
  { intros x Hx. assert (Hin : length (keys (spec x)) ∈ (fun x => length (keys (spec x))) <$> indexes)
      by (by apply (list_elem_of_fmap_2 (fun x => length (keys (spec x))))).
    induction Hin as [|y l z Hin IH]; simpl; lia. }
  exists index, keeper. split_and!; try done. intros c' Hc' Hty' E.
  apply result_type in Hc'. rewrite Hty' in Hc'. apply Hnk. rewrite <- E.
  by apply list_elem_of_fmap_2.
Qed.

(** An index is proposed for dropping at most once: the drop proposals of
    one pass over distinctly named indexes name distinct indexes. *)
Theorem recommend_drops_distinct indexes sizes options weights now hours :
  distinct_names indexes ->
  NoDup (indexName <$> List.filter is_drop
           (recommendForCollection indexes sizes options weights now hours)).
Proof.
  intros Hnd. rewrite filter_drops. apply NoDup_fmap_filter.
  assert (Hel : distinct_names (eligible indexes)) by (by apply NoDup_fmap_filter).
  rewrite fmap_app. apply NoDup_app. split_and!.
  - apply (NoDup_omap_names _ (fun i => name (spec i))); [|done].
    intros index c Hc. apply fmap_Some in Hc as (cover & _ & ->). done.
  - intros n (c & -> & Hc)%list_elem_of_fmap (c' & En & Hc')%list_elem_of_fmap.
    apply unused_elem in Hc' as (? & ? & _ & _ & _ & _ & _ & _ & Hn).
    apply Hn. rewrite <- En. by apply list_elem_of_fmap_2.
  - apply (NoDup_omap_names _ (fun i => name (spec i))); [|done].
    intros index c Hc. unfold unused_candidate in Hc. destruct (includes _ _); [done|].
    apply bind_Some in Hc as (? & _ & [= <-]). done.
Qed.

(** One pass can propose dropping an index because another covers it and
    dropping that other one because nobody reads it: [(a)] is called redundant
    under [(a, b)] in the pass that calls [(a, b)] unused. *)
Theorem recommend_cover_also_proposed :
  exists c c' : RecommendationCandidate,
    let found := recommendForCollection idle_collection ∅ CLASSIFY_OPTIONS ∅ (60 * 24 * HOUR_MS) None in
    c ∈ found /\ c' ∈ found /\ type c = DROP_REDUNDANT /\ type c' = DROP_UNUSED /\
    indexName c = "a_1"%string /\ indexName c' = "a_1_b_1"%string /\
    covering idle_collection (idle_index "a_1" ["a"]) = Some (idle_index (indexName c') ["a"; "b"]).
Proof.
  set (found := recommendForCollection _ _ _ _ _ _).
  destruct (found !! 0%nat) as [c|] eqn:E0; [|by vm_compute in E0].
  destruct (found !! 1%nat) as [c'|] eqn:E1; [|by vm_compute in E1].
  exists c, c'. apply list_elem_of_lookup_2 in E0 as H0, E1 as H1.
  split; [done|]. split; [done|]. clear H0 H1.
  vm_compute in E0, E1. simplify_eq. split_and!; reflexivity.
Qed.

Lemma recommend_drops_grounded_witness :
  exists c, c ∈ recommendForCollection idle_collection ∅ CLASSIFY_OPTIONS ∅ (60 * 24 * HOUR_MS) None /\
    type c <> ADVISORY_REVIEW /\
    exists index, index ∈ idle_collection /\ indexName c = name (spec index) /\ isNeverDrop (spec index) = false.
Proof.
  destruct (recommendForCollection idle_collection ∅ CLASSIFY_OPTIONS ∅ (60 * 24 * HOUR_MS) None)
    as [|c rest] eqn:E; [vm_compute in E; discriminate E|].
  assert (Hc : c ∈ recommendForCollection idle_collection ∅ CLASSIFY_OPTIONS ∅ (60 * 24 * HOUR_MS) None)
    by (rewrite E; left).
  assert (Ht : type c <> ADVISORY_REVIEW) by (vm_compute in E; injection E as <- _; discriminate).
  exists c. split; [left|]. split; [exact Ht|].
  destruct (recommend_drops_grounded _ _ _ _ _ _ c Hc Ht) as (index & H1 & H2 & H3 & _). by exists index.
Defined.

Lemma recommend_redundant_keeps_cover_witness :
  exists c keeper, distinct_names idle_collection /\
    c ∈ recommendForCollection idle_collection ∅ CLASSIFY_OPTIONS ∅ (60 * 24 * HOUR_MS) None /\
    type c = DROP_REDUNDANT /\ keeper ∈ idle_collection /\ indexName c <> name (spec keeper).
Proof.
  assert (Hn : distinct_names idle_collection) by (apply (bool_decide_unpack _); vm_compute; exact I).
  destruct (recommendForCollection idle_collection ∅ CLASSIFY_OPTIONS ∅ (60 * 24 * HOUR_MS) None)
    as [|c rest] eqn:E; [vm_compute in E; discriminate E|].
  assert (Hc : c ∈ recommendForCollection idle_collection ∅ CLASSIFY_OPTIONS ∅ (60 * 24 * HOUR_MS) None)
    by (rewrite E; left).
  assert (Ht : type c = DROP_REDUNDANT) by (vm_compute in E; injection E as <- _; reflexivity).
  destruct (recommend_redundant_keeps_cover _ _ _ _ _ _ c Hn Hc Ht) as (index & keeper & _ & _ & H1 & _ & _ & H2).
  exists c, keeper. split; [exact Hn|]. split; [left|]. split; [exact Ht|]. split; [exact H1|].
  exact (H2 c Hc Ht).
Defined.
