(* ===== verification/Esr.v ===== *)
(** From a query shape to the index it wants, and when an index serves it.
    Models the first half of [apps/api/src/analysis/workload.ts]: the ESR key
    list and its blocks, the tests an existing index is put to, and when one
    wanted index does another's work. *)
From S2P Require Import Prelude EngineTypes Redundancy Recurrence.

(** ** The keys a shape wants *)

(** [push]: append unless the field was seen. *)
Definition push_key (ordered : list SortKey) (key : SortKey) : list SortKey :=
  if includes (sk_field <$> ordered) (sk_field key) then ordered else ordered ++ [key].

Definition ascending (f : string) : SortKey := {| sk_field := f; sk_direction := Pos |}.

(** [[...range].sort()]: by code units. *)
Definition sorted_fields (fields : list string) : list string := stable_sort String.leb fields.

Definition esrKeys (shape : QueryShape) : list SortKey :=
  fold_left push_key
    ((ascending <$> equality shape) ++ sort shape ++ (ascending <$> sorted_fields (range shape))) [].

Record KeyBlocks := { kb_equality : list string; kb_sort : list SortKey; kb_range : list string }.

Definition keyBlocks (shape : QueryShape) (keys : list SortKey) : KeyBlocks :=
  let equality := includes (equality shape) in
  let sorted := includes (sk_field <$> sort shape) in
  {| kb_equality := sk_field <$> List.filter (fun key => equality (sk_field key)) keys;
     kb_sort := List.filter (fun key => negb (equality (sk_field key)) && sorted (sk_field key)) keys;
     kb_range := sk_field <$> List.filter (fun key =>
       negb (equality (sk_field key)) && negb (sorted (sk_field key))) keys |}.

Definition mentionedFields (shape : QueryShape) : list string :=
  equality shape ++ (sk_field <$> sort shape) ++ range shape.

(** ** Fields and filters *)

Definition fieldsOf (index : IndexSpec) : list string := field <$> keys index.

Definition isPrefix (shorter longer : list string) : bool :=
  if (length shorter =? 0)%nat || (length longer <=? length shorter)%nat then false
  else every_i (fun i f => bool_decide (longer !! i = Some f)) shorter.

Definition equalFields (a b : list string) : bool :=
  (length a =? length b)%nat && every_i (fun i f => bool_decide (b !! i = Some f)) a.

Definition describe (keys : list SortKey) : string :=
  join ", " ((fun key =>
    match sk_direction key with
    | Neg => sk_field key +:+ ": -1"
    | Pos => sk_field key
    end) <$> keys)%string.

Definition Filter := list (string * json).

Definition canonical `{Locale} (filter : Filter) : json :=
  JArr ((fun '(k, v) => JArr [JStr k; v]) <$>
        stable_sort (fun x y => localeLe x.1 y.1) filter).

Definition sameFilter `{Locale} (a b : option Filter) : bool :=
  match a, b with
  | Some x, Some y => json_eqb (canonical x) (canonical y)
  | None, None => true
  | _, _ => false
  end.

(** A want's filter is over literals. *)
Definition constants_filter (c : option (list (string * ConstantValue))) : option Filter :=
  option_map (List.map (fun '(k, v) => (k, json_of_constant v))) c.

(** ** When an existing index serves *)

(** The [matches] closure: every key is the wanted one, read in this direction. *)
Definition order_matches (index : IndexSpec) (wanted : list SortKey) (reversed : bool) : bool :=
  every_i (fun i key =>
    match wanted !! i, direction key with
    | Some want, Ordered d =>
        String.eqb (sk_field want) (field key) &&
        bool_decide (sk_direction want = if reversed then negate d else d)
    | _, _ => false
    end) (keys index).

Definition servesOrder (index : IndexSpec) (wanted : list SortKey) : bool :=
  if negb (length (keys index) =? length wanted)%nat then false
  else if negb (forallb (fun key => is_ordered (direction key)) (keys index)) then false
  else order_matches index wanted false || order_matches index wanted true.

Definition sameSet (a b : list string) : bool :=
  (length a =? length b)%nat && forallb (fun f => includes b f) a.

Definition servesWant `{Locale} (index : IndexSpec) (wantedKeys : list SortKey)
    (blocks : KeyBlocks) (partialFilter' : option (list (string * ConstantValue))) : bool :=
  let wanted := sk_field <$> wantedKeys in
  if equalFields (fieldsOf index) wanted then true
  else if sparse index ||
          negb (negb (is_some (partialFilter index)) ||
                sameFilter (partialFilter index) (constants_filter partialFilter')) then false
  else
    let span := take (length wanted) (keys index) in
    if (length span <? length wanted)%nat then false
    else if existsb (fun key => negb (is_ordered (direction key))) span then false
    else
      let equality := length (kb_equality blocks) in
      let sortEnd := (equality + length (kb_sort blocks))%nat in
      let sorted := drop equality (take sortEnd span) in
      let same_direction (flip : SortDirection -> SortDirection) :=
        every_i (fun i key => bool_decide
          (Some (direction key) = (fun k => Ordered (flip (sk_direction k))) <$> kb_sort blocks !! i))
          sorted in
      let sortServed :=
        every_i (fun i key => bool_decide
          (Some (field key) = sk_field <$> kb_sort blocks !! i)) sorted &&
        (same_direction id || same_direction negate) in
      sameSet (field <$> take equality span) (kb_equality blocks) &&
      sortServed &&
      sameSet (field <$> drop sortEnd span) (kb_range blocks).

(** ** When one wanted index does another's work *)

Record Want := {
  w_shape : QueryShape;
  wantedKeys : list SortKey;
  w_partialFilter : option (list (string * ConstantValue));
  blocks : KeyBlocks;
  lead : list string;
  scanning : bool;
  absorbedCount : Z;
  absorbedShapes : Z;
  sourceShapes : list QueryShape;
}.

Definition directedPrefixOrEqual (a b : list SortKey) : bool :=
  if (length b <? length a)%nat then false
  else every_i (fun i key => bool_decide (b !! i = Some key)) a.

Definition sortSitsInEquality (narrow : Want) (wideEquality : list string) : bool :=
  let sort := kb_sort (blocks narrow) in
  if negb (forallb (fun key => includes wideEquality (sk_field key)) sort) then false
  else (length sort =? 1)%nat || forallb (fun key => bool_decide (sk_direction key = Pos)) sort.

Definition absorbs (narrow wide : Want) : bool :=
  if is_some (w_partialFilter narrow) || is_some (w_partialFilter wide) then false
  else
    let n := blocks narrow in
    let w := blocks wide in
    if negb (forallb (includes (kb_equality w)) (kb_equality n)) then false
    else
      let sameEquality := (length (kb_equality n) =? length (kb_equality w))%nat in
      let sortFromEquality :=
        (0 <? length (kb_sort n))%nat && sortSitsInEquality narrow (kb_equality w) in
      if negb sortFromEquality && negb sameEquality && (0 <? length (kb_sort n))%nat then false
      else if negb sortFromEquality && negb (directedPrefixOrEqual (kb_sort n) (kb_sort w))
      then false
      else
        let wideCovers := kb_equality w ++ (sk_field <$> kb_sort w) ++ kb_range w in
        if negb (forallb (includes wideCovers) (kb_range n)) then false
        else
          let narrowLeads :=
            kb_equality n ++ (if sortFromEquality then sk_field <$> kb_sort n else []) in
          forallb (includes narrowLeads) (lead wide).

Definition leadWith (want : Want) : list SortKey :=
  if (length (lead want) =? 0)%nat then wantedKeys want
  else
    let leading := lead want ≫= (fun f =>
      List.filter (fun key => String.eqb (sk_field key) f) (wantedKeys want)) in
    leading ++ List.filter (fun key => negb (includes (lead want) (sk_field key))) (wantedKeys want).

(** ** Notions the theorems are stated with *)

(** First occurrence of each field wins, fields already [seen] are skipped. *)
Fixpoint first_keys (seen : list string) (l : list SortKey) : list SortKey :=
  match l with
  | [] => []
  | k :: l' =>
      if includes seen (sk_field k) then first_keys seen l'
      else k :: first_keys (sk_field k :: seen) l'
  end.

(** The shape with its range fields listed in another order. *)
Definition with_range (shape : QueryShape) (fields : list string) : QueryShape :=
  {| equality := equality shape; sort := sort shape; range := fields; collscan := collscan shape;
     sortedInMemory := sortedInMemory shape; count := count shape;
     docsExamined := docsExamined shape; observedForHours := observedForHours shape;
     clients := clients shape; constants := constants shape; lookups := lookups shape |}.

(** ** The key list *)

Lemma string_leb_total x y : String.leb x y = false -> String.leb y x = true.
Proof. destruct (String.leb_total x y); congruence. Qed.
Lemma string_leb_trans x y z :
  String.leb x y = true -> String.leb y z = true -> String.leb x z = true.
Proof.
  intros H1 H2. apply Is_true_true. apply Is_true_true in H1, H2.
  exact (transitivity (R := String.le) H1 H2).
Qed.
#[export] Hint Resolve string_leb_total string_leb_trans String.leb_antisym : js.

Lemma first_keys_equiv seen seen' l :
  (forall f, f ∈ seen <-> f ∈ seen') -> first_keys seen l = first_keys seen' l.
Proof.
  revert seen seen'. induction l as [|k l IH]; intros seen seen' He; simpl; [done|].
  unfold includes. rewrite (bool_decide_ext _ _ (He (sk_field k))).
  destruct (bool_decide _); [by apply IH|]. f_equal. apply IH. set_solver.
Qed.

Lemma first_keys_app seen l1 l2 :
  first_keys seen (l1 ++ l2) = first_keys seen l1 ++ first_keys ((sk_field <$> l1) ++ seen) l2.
Proof.
  revert seen. induction l1 as [|k l1 IH]; intros seen; csimpl; [done|].
  destruct (includes seen (sk_field k)) eqn:E.
  - rewrite IH. f_equal. apply first_keys_equiv. apply includes_spec in E. set_solver.
  - rewrite IH. simpl. do 2 f_equal. apply first_keys_equiv. set_solver.
Qed.

Lemma fold_push_key l acc :
  fold_left push_key l acc = acc ++ first_keys (sk_field <$> acc) l.
Proof.
  revert acc. induction l as [|k l IH]; intros acc; simpl; [by rewrite app_nil_r|].
  rewrite IH. unfold push_key. destruct (includes _ _) eqn:E; [done|].
  rewrite <- app_assoc. simpl. do 2 f_equal. rewrite fmap_app. apply first_keys_equiv. set_solver.
Qed.

Lemma elem_of_first_keys seen l k :
  k ∈ first_keys seen l -> k ∈ l /\ sk_field k ∉ seen.
Proof.
  revert seen. induction l as [|x l IH]; intros seen; simpl; [set_solver|].
  destruct (includes seen (sk_field x)) eqn:E; bools.
  - intros Hk%IH. set_solver.
  - apply bool_decide_eq_false in E. intros [->|Hk]%elem_of_cons; [set_solver|].
    apply IH in Hk. set_solver.
Qed.

Lemma first_keys_fields seen l f :
  f ∈ sk_field <$> first_keys seen l <-> f ∈ sk_field <$> l /\ f ∉ seen.
Proof.
  revert seen. induction l as [|x l IH]; intros seen; csimpl; [set_solver|].
  destruct (includes seen (sk_field x)) eqn:E.
  - apply includes_spec in E. rewrite IH. set_solver.
  - apply bool_decide_eq_false in E. csimpl. rewrite elem_of_cons, IH.
    destruct (decide (f = sk_field x)) as [->|]; set_solver.
Qed.

Lemma first_keys_NoDup seen l : NoDup (sk_field <$> first_keys seen l).
Proof.
  revert seen. induction l as [|x l IH]; intros seen; csimpl; [constructor|].
  destruct (includes seen (sk_field x)) eqn:E; [done|]. csimpl. constructor; [|done].
  rewrite first_keys_fields. set_solver.
Qed.

Lemma fields_ascending (l : list string) : sk_field <$> (ascending <$> l) = l.
Proof. induction l as [|f l IH]; csimpl; [done|]. by rewrite IH. Qed.

Definition esr_equality (s : QueryShape) := first_keys [] (ascending <$> equality s).
Definition esr_sort (s : QueryShape) := first_keys (equality s) (sort s).
Definition esr_range (s : QueryShape) :=
  first_keys ((sk_field <$> sort s) ++ equality s) (ascending <$> sorted_fields (range s)).

Lemma esrKeys_decompose s : esrKeys s = esr_equality s ++ esr_sort s ++ esr_range s.
Proof.
  unfold esrKeys. rewrite fold_push_key. simpl. rewrite !first_keys_app.
  unfold esr_equality, esr_sort, esr_range. by rewrite fields_ascending, app_nil_r.
Qed.

Lemma esr_equality_elem s k : k ∈ esr_equality s -> sk_field k ∈ equality s.
Proof.
  intros [Hk _]%elem_of_first_keys. apply list_elem_of_fmap in Hk as (f & -> & Hf). done.
Qed.
Lemma esr_sort_elem s k : k ∈ esr_sort s -> k ∈ sort s /\ sk_field k ∉ equality s.
Proof. apply elem_of_first_keys. Qed.
Lemma esr_range_elem s k :
  k ∈ esr_range s -> sk_field k ∉ equality s /\ sk_field k ∉ sk_field <$> sort s.
Proof. intros [_ Hk]%elem_of_first_keys. set_solver. Qed.

Lemma keyBlocks_esrKeys s :
  keyBlocks s (esrKeys s) =
  {| kb_equality := sk_field <$> esr_equality s; kb_sort := esr_sort s;
     kb_range := sk_field <$> esr_range s |}.
Proof.
  assert (HE : forall k, k ∈ esr_equality s -> includes (equality s) (sk_field k) = true)
    by (intros k Hk%esr_equality_elem; by apply includes_spec).
  assert (HS : forall k, k ∈ esr_sort s -> includes (equality s) (sk_field k) = false /\
                 includes (sk_field <$> sort s) (sk_field k) = true).
  { intros k [Hk Hn]%esr_sort_elem. split; [by apply bool_decide_eq_false|].
    apply includes_spec. by apply list_elem_of_fmap_2. }
  assert (HR : forall k, k ∈ esr_range s -> includes (equality s) (sk_field k) = false /\
                 includes (sk_field <$> sort s) (sk_field k) = false)
    by (intros k [? ?]%esr_range_elem; split; by apply bool_decide_eq_false).
  unfold keyBlocks. rewrite esrKeys_decompose, !List.filter_app. f_equal.
  - rewrite filter_all by done.
    rewrite !filter_nothing by (intros k Hk; first [by apply HS|by apply HR]).
    by rewrite !app_nil_r.
  - rewrite (filter_nothing _ (esr_equality s)) by (intros k Hk; by rewrite HE).
    rewrite (filter_all _ (esr_sort s)) by (by intros k [H1 H2]%HS; rewrite H1, H2).
    rewrite (filter_nothing _ (esr_range s)) by (by intros k [H1 H2]%HR; rewrite H1, H2). apply app_nil_r.
  - rewrite (filter_nothing _ (esr_equality s)) by (intros k Hk; by rewrite HE).
    rewrite (filter_nothing _ (esr_sort s)) by (by intros k [H1 H2]%HS; rewrite H1, H2).
    by rewrite (filter_all _ (esr_range s)) by (by intros k [H1 H2]%HR; rewrite H1, H2).
Qed.

Lemma esrKeys_NoDup s : NoDup (sk_field <$> esrKeys s).
Proof. unfold esrKeys. rewrite fold_push_key. apply first_keys_NoDup. Qed.

Lemma esrKeys_fields s f : f ∈ sk_field <$> esrKeys s <-> f ∈ mentionedFields s.
Proof.
  unfold esrKeys. rewrite fold_push_key. csimpl. rewrite first_keys_fields.
  rewrite !fmap_app, !fields_ascending. unfold mentionedFields, sorted_fields.
  rewrite !elem_of_app, elem_of_stable_sort. set_solver.
Qed.

(** The key list of a shape: every field the shape mentions exactly once,
    and nothing else; first the equality fields, then the sort keys in the
    shape's own directions, then the range fields; and [keyBlocks] finds
    exactly those three blocks again. *)
Theorem esrKeys_blocks shape :
  let b := keyBlocks shape (esrKeys shape) in
  NoDup (sk_field <$> esrKeys shape) /\
  (forall f, f ∈ sk_field <$> esrKeys shape <-> f ∈ mentionedFields shape) /\
  sk_field <$> esrKeys shape = kb_equality b ++ (sk_field <$> kb_sort b) ++ kb_range b /\
  (forall f, f ∈ kb_equality b <-> f ∈ equality shape) /\
  (forall k, k ∈ kb_sort b -> k ∈ sort shape).
Proof.
  cbv zeta. rewrite keyBlocks_esrKeys. split_and!.
  - apply esrKeys_NoDup.
  - intros f. apply esrKeys_fields.
  - by rewrite esrKeys_decompose, !fmap_app.
  - intros f. unfold esr_equality. csimpl. rewrite first_keys_fields, fields_ascending. set_solver.
  - intros k [? _]%esr_sort_elem. done.
Qed.

(** The order the range fields were recorded in does not matter: two
    recordings of a shape that differ only in it want the same index. *)
Theorem esrKeys_range_order shape fields :
  Permutation (range shape) fields -> esrKeys (with_range shape fields) = esrKeys shape.
Proof.
  intros HP. unfold esrKeys, sorted_fields. simpl.
  rewrite (stable_sort_of_perm String.leb string_leb_total string_leb_trans String.leb_antisym
             fields (range shape)); [done|]. by symmetry.
Qed.

(** ** Serving *)

Lemma isPrefix_spec a b :
  isPrefix a b = true <-> a <> [] /\ a `prefix_of` b /\ (length a < length b)%nat.
Proof.
  unfold isPrefix. destruct (Nat.eqb_spec (length a) 0) as [E|E]; simpl.
  { apply length_zero_iff_nil in E. naive_solver. }
  destruct (Nat.leb_spec (length b) (length a)); [naive_solver lia|].
  rewrite every_i_spec. split.
  - intros Hall. split; [by intros ->|]. split; [|done]. exists (drop (length a) b).
    rewrite <- (take_drop (length a) b) at 1. f_equal. symmetry.
    apply list_eq_same_length with (length a); [rewrite length_take; lia|done|].
    + intros i x y Hi Hx Hy. rewrite lookup_take_lt in Hy by done.
      specialize (Hall i x Hx). bools. congruence.
  - intros (_ & [k ->] & _) j x Hx. apply bool_decide_eq_true. by apply lookup_app_l_Some.
Qed.

Lemma equalFields_spec a b : equalFields a b = true <-> a = b.
Proof.
  unfold equalFields. rewrite andb_true_iff, Nat.eqb_eq, every_i_spec. split.
  - intros [Hl Hall]. apply list_eq_same_length with (length a); [done|done|].
    intros i x y Hi Hx Hy. specialize (Hall i x Hx). bools. congruence.
  - intros ->. split; [done|]. intros j x Hx. by apply bool_decide_eq_true.
Qed.

Lemma servesOrder_forall2 index wanted :
  servesOrder index wanted = true <->
  exists backward, Forall2 (key_walks backward) (keys index) wanted.
Proof.
  unfold servesOrder. destruct (Nat.eqb_spec (length (keys index)) (length wanted)) as [Hl|Hl]; simpl.
  2: { split; [done|]. intros (bw & HF%Forall2_length). done. }
  assert (Hm : forall bw, order_matches index wanted bw = true <->
                 Forall2 (key_walks bw) (keys index) wanted).
  { intros bw. unfold order_matches. rewrite every_i_spec, Forall2_lookup. split.
    - intros Hall i. destruct (keys index !! i) as [k|] eqn:Ek.
      + specialize (Hall i k Ek). destruct (wanted !! i) as [w|]; [|done]. constructor.
        destruct (direction k) eqn:Ed; try done. bools. destruct Hall as [E1%String.eqb_eq E2].
        split; [done|]. rewrite Ed, E2. destruct bw; by rewrite ?negate_involutive.
      + apply lookup_ge_None in Ek. rewrite (proj2 (lookup_ge_None wanted i)); [constructor|lia].
    - intros Hall i k Hk. specialize (Hall i). rewrite Hk in Hall. inv Hall.
      destruct H1 as [E1 E2]. rewrite E2. rewrite E1, String.eqb_refl. simpl.
      apply bool_decide_eq_true. destruct bw; by rewrite ?negate_involutive. }
  destruct (forallb _ _) eqn:Ef; simpl.
  - rewrite orb_true_iff, !Hm. split; [naive_solver|]. intros [[] H]; auto.
  - split; [done|]. intros (bw & HF). apply not_true_iff_false in Ef. destruct Ef.
    apply forallb_elem. intros k Hk. apply list_elem_of_lookup in Hk as [i Hi].
    eapply Forall2_lookup_l in HF as (w & _ & [_ ->]); [done|exact Hi].
Qed.

(** [servesOrder] decides exactly the promise it names, the promise the
    redundancy rule is stated in too: an index as wide as the wanted list
    serves that order, read forwards or backwards as one walk. *)
Theorem servesOrder_exact index wanted :
  servesOrder index wanted = true <->
  length (keys index) = length wanted /\ serves_order (keys index) wanted.
Proof.
  rewrite servesOrder_forall2. unfold serves_order. split.
  - intros (bw & HF). split; [by eapply Forall2_length|]. exists bw, (keys index). done.
  - intros (Hl & bw & pre & [suf Hs] & HF). exists bw.
    apply Forall2_length in HF as Hl'. assert (suf = []) as ->.
    { rewrite Hs, length_app in Hl. destruct suf; [done|]. simpl in Hl. lia. }
    rewrite app_nil_r in Hs. by rewrite Hs.
Qed.
