(* ===== verification/Creates.v ===== *)
(** Index additions from query shapes.  Models the second half of
    [apps/api/src/analysis/workload.ts]: the sort-order advisories and
    [recommendCreates], with the sink it reports declined shapes to. *)
From Stdlib Require Import Ascii.
From S2P Require Import Prelude EngineTypes Redundancy Recurrence Esr.

(** ** Text *)

Definition direction_text (d : SortDirection) : string :=
  match d with Pos => "1" | Neg => "-1" end.

(** The map key two wants are compared by: [field:direction,...]. *)
Definition keys_text (keys : list SortKey) : string :=
  join "," ((fun k => sk_field k +:+ ":" +:+ direction_text (sk_direction k))%string <$> keys).

Definition quote_char : string := String "034"%char "".
Definition backslash : string := String "092"%char "".

Definition hex_digit (n : nat) : string :=
  String (Ascii.ascii_of_nat (if (n <? 10)%nat then 48 + n else 87 + n)) "".

Definition json_char (c : Ascii.ascii) : string :=
  let n := Ascii.nat_of_ascii c in
  if (n =? 34)%nat then backslash +:+ quote_char
  else if (n =? 92)%nat then backslash +:+ backslash
  else if (n =? 8)%nat then backslash +:+ "b"
  else if (n =? 9)%nat then backslash +:+ "t"
  else if (n =? 10)%nat then backslash +:+ "n"
  else if (n =? 12)%nat then backslash +:+ "f"
  else if (n =? 13)%nat then backslash +:+ "r"
  else if (n <? 32)%nat then
    backslash +:+ "u00" +:+ hex_digit (n / 16) +:+ hex_digit (n mod 16)
  else String c "".

Fixpoint json_chars (s : string) : string :=
  match s with EmptyString => "" | String c s' => json_char c +:+ json_chars s' end.

(** A number in plain decimal notation, at most [fuel] fractional digits. *)
Fixpoint fraction_digits (fuel : nat) (num den : Z) : string :=
  match fuel with
  | O => ""
  | S fuel =>
      if num =? 0 then ""
      else show (10 * num / den) +:+ fraction_digits fuel (10 * num mod den) den
  end.
Definition number_text (q : Q) : string :=
  let n := Z.abs (Qnum q) in
  let d := Zpos (Qden q) in
  (if Qnum q <? 0 then "-" else "") +:+ show (n / d) +:+
  (if n mod d =? 0 then "" else "." +:+ fraction_digits 17 (n mod d) d).

(** [JSON.stringify] of a literal. *)
Definition constant_text (c : ConstantValue) : string :=
  match c with
  | CStr s => quote_char +:+ json_chars s +:+ quote_char
  | CNum q => number_text q
  | CBool b => if b then "true" else "false"
  end.

(** ** Sort-order advisories *)

Record SortOrderAdvisory := {
  existingIndex : string;
  soa_wantedKeys : list SortKey;
  soa_count : Z;
  soa_sourceShapes : list QueryShape;
}.

Definition nul : string := String "000"%char "".

(** The existing index on a shape's fields that cannot serve its order. *)
Definition sort_blocker (existing : list IndexSpec) (options : WorkloadOptions) (shape : QueryShape)
    : option IndexSpec :=
  if negb (bool_decide (sortedInMemory shape = Some true)) || negb (isRecurring shape options)
  then None
  else if (length (sort shape) =? 0)%nat then None
  else if negb (isWorthIndexing (clients shape ?? [])) then None
  else
    let wantedKeys := esrKeys shape in
    if (length wantedKeys =? 0)%nat then None
    else List.find (fun idx =>
           equalFields (fieldsOf idx) (sk_field <$> wantedKeys) && negb (servesOrder idx wantedKeys))
           existing.

Definition attribute_shape (shape : QueryShape) (a : SortOrderAdvisory) : SortOrderAdvisory :=
  {| existingIndex := existingIndex a; soa_wantedKeys := soa_wantedKeys a;
     soa_count := soa_count a; soa_sourceShapes := soa_sourceShapes a ++ [shape] |}.

(** The [byKey] map and the output list share their entries: one list of
    advisories in output order, each with its key. *)
Fixpoint attribute_to {A} (key : string) (f : A -> A) (entries : list (string * A))
    : option (list (string * A)) :=
  match entries with
  | [] => None
  | (k, a) :: rest =>
      if String.eqb k key then Some ((k, f a) :: rest)
      else cons (k, a) <$> attribute_to key f rest
  end.

Definition advisory_step (existing : list IndexSpec) (options : WorkloadOptions)
    (out : list (string * SortOrderAdvisory)) (shape : QueryShape)
    : list (string * SortOrderAdvisory) :=
  match sort_blocker existing options shape with
  | None => out
  | Some blocker =>
      let wantedKeys := esrKeys shape in
      let key := (name blocker +:+ nul +:+ keys_text wantedKeys)%string in
      match attribute_to key (attribute_shape shape) out with
      | Some out => out
      | None =>
          out ++ [(key, {| existingIndex := name blocker; soa_wantedKeys := wantedKeys;
                           soa_count := count shape; soa_sourceShapes := [shape] |})]
      end
  end.

Definition sortOrderAdvisories (shapes : list QueryShape) (existing : list IndexSpec)
    (options : WorkloadOptions) : list SortOrderAdvisory :=
  snd <$> fold_left (advisory_step existing options) shapes [].

(** ** Creates *)

Record CreateCandidate := {
  cc_type : RecommendationType;
  cc_keys : list SortKey;
  retireIndexes : list string;
  cc_rationale : string;
  cc_count : Z;
  cc_scanning : bool;
  cc_partialFilter : option (list (string * ConstantValue));
  cc_sourceShapes : list QueryShape;
}.

Inductive ShapeDecline := Not_recurring | Ad_hoc_client | Index_exists | No_candidate.

Record CreateOptions := { workload_options : WorkloadOptions; partialIndexes : bool }.

Definition Declines := list (QueryShape * ShapeDecline).

(** The want's keys and its partial filter: constant equality predicates leave
    the keys when the engine can build the filter and other keys remain. *)
Definition wanted_of (partialIndexes : bool) (shape : QueryShape)
    : list SortKey * option (list (string * ConstantValue)) :=
  let wantedKeys := esrKeys shape in
  let constants := constants shape ?? [] in
  let filter := List.filter (fun c => includes (equality shape) c.1) constants in
  let constantFields := filter.*1 in
  if partialIndexes && (0 <? length constantFields)%nat &&
     existsb (fun key => negb (includes constantFields (sk_field key))) wantedKeys
  then (List.filter (fun key => negb (includes constantFields (sk_field key))) wantedKeys,
        Some filter)
  else (wantedKeys, None).

Definition seen_again (shape : QueryShape) (w : Want) : Want :=
  {| w_shape := w_shape w; wantedKeys := wantedKeys w; w_partialFilter := w_partialFilter w;
     blocks := blocks w; lead := lead w; scanning := scanning w || collscan shape;
     absorbedCount := absorbedCount w; absorbedShapes := absorbedShapes w;
     sourceShapes := sourceShapes w ++ [shape] |}.

Definition new_want (shape : QueryShape) (keys : list SortKey)
    (filter : option (list (string * ConstantValue))) : Want :=
  {| w_shape := shape; wantedKeys := keys; w_partialFilter := filter;
     blocks := keyBlocks shape keys; lead := []; scanning := collscan shape;
     absorbedCount := 0; absorbedShapes := 0; sourceShapes := [shape] |}.

(** A shape the server works too hard to serve. *)
Definition is_finding (shape : QueryShape) : bool :=
  collscan shape || bool_decide (sortedInMemory shape = Some true).

(** One turn of the first loop.  [seen] and [wants] hold the same objects: one
    list in [wants] order, each want with its [seen] key. *)
Definition want_step `{Locale} (existing : list IndexSpec) (options : CreateOptions)
    (st : list (string * Want) * Declines) (shape : QueryShape)
    : list (string * Want) * Declines :=
  let '(wants, declines) := st in
  let decline reason := (wants, declines ++ [(shape, reason)]) in
  if negb (is_finding shape) then st
  else if negb (isRecurring shape (workload_options options)) then decline Not_recurring
  else if negb (isWorthIndexing (clients shape ?? [])) then decline Ad_hoc_client
  else if (length (esrKeys shape) =? 0)%nat then decline No_candidate
  else
    let '(keys, filter) := wanted_of (partialIndexes options) shape in
    let wantedKey := keys_text keys in
    match attribute_to wantedKey (seen_again shape) wants with
    | Some wants => (wants, declines)
    | None =>
        if existsb (fun idx => servesWant idx keys (keyBlocks shape keys) filter) existing
        then decline Index_exists
        else (wants ++ [(wantedKey, new_want shape keys filter)], declines)
    end.

(** What absorbing does to the widest want. *)
Definition fold_into (want widest : Want) : Want :=
  {| w_shape := w_shape widest; wantedKeys := wantedKeys widest;
     w_partialFilter := w_partialFilter widest; blocks := blocks widest;
     lead := distinct_strings (lead widest ++ lead want ++ kb_equality (blocks want) ++
       List.filter (includes (kb_equality (blocks widest))) (sk_field <$> kb_sort (blocks want)));
     scanning := scanning widest || scanning want;
     absorbedCount := absorbedCount widest + (count (w_shape want) + absorbedCount want);
     absorbedShapes := absorbedShapes widest + (1 + absorbedShapes want);
     sourceShapes := sourceShapes widest ++ sourceShapes want |}.

(** The position of the last element that satisfies [f]. *)
Fixpoint last_index {A} (f : A -> bool) (l : list A) : option nat :=
  match l with
  | [] => None
  | x :: l' =>
      match last_index f l' with
      | Some i => Some (S i)
      | None => if f x then Some O else None
      end
  end.

(** The consolidation loop over the sorted wants; each turn changes only wants
    after the current one, so the loop's array is the list of those still to
    visit.  [n] bounds the turns: one per want. *)
Fixpoint consolidate (n : nat) (wants : list Want) : list Want :=
  match n, wants with
  | S n, want :: later =>
      match last_index (absorbs want) later with
      | Some at' => consolidate n (alter (fold_into want) at' later)
      | None => want :: consolidate n later
      end
  | _, _ => []
  end.

Definition by_width (a b : Want) : bool :=
  (length (wantedKeys a) <=? length (wantedKeys b))%nat.

(** [want.wantedKeys = leadWith(want)]. *)
Definition with_lead (w : Want) : Want :=
  {| w_shape := w_shape w; wantedKeys := leadWith w; w_partialFilter := w_partialFilter w;
     blocks := blocks w; lead := lead w; scanning := scanning w;
     absorbedCount := absorbedCount w; absorbedShapes := absorbedShapes w;
     sourceShapes := sourceShapes w |}.

Definition scan_text (want : Want) (count : Z) : string :=
  ((if scanning want then "collection scan seen " +:+ show count +:+ "×"
    else "in-memory sort seen " +:+ show count +:+ "×") +:+
   (if (0 <? absorbedShapes want)%Z
    then " (also serves " +:+ show (absorbedShapes want) +:+ " narrower shape" +:+
         (if (absorbedShapes want =? 1)%Z then "" else "s") +:+ ")"
    else ""))%string.

Definition partial_note (filter : option (list (string * ConstantValue))) : string :=
  match filter with
  | None => ""
  | Some entries =>
      " Partial: only documents where " +:+
      join ", " ((fun '(f, v) => f +:+ " = " +:+ constant_text v) <$> entries)%string +:+
      " — smaller index, same query."
  end.

(** The indexes on the same documents that may be folded into the want. *)
Definition compatible `{Locale} (want : Want) (idx : IndexSpec) : bool :=
  negb (isNeverDrop idx) &&
  sameFilter (partialFilter idx) (constants_filter (w_partialFilter want)).

Definition extendable `{Locale} (existing : list IndexSpec) (want : Want) : option IndexSpec :=
  List.find (fun idx =>
    compatible want idx && isPrefix (fieldsOf idx) (sk_field <$> wantedKeys want)) existing.

Definition singles `{Locale} (existing : list IndexSpec) (want : Want) : list IndexSpec :=
  List.filter (fun idx =>
    compatible want idx && (length (keys idx) =? 1)%nat &&
    includes (sk_field <$> wantedKeys want) (fieldsOf idx !! 0%nat ?? "")) existing.

Definition create_candidate `{Locale} (existing : list IndexSpec) (want : Want) : CreateCandidate :=
  let keys := wantedKeys want in
  let count := count (w_shape want) + absorbedCount want in
  let scan := scan_text want count in
  let build ty retire text :=
    {| cc_type := ty; cc_keys := keys; retireIndexes := retire; cc_rationale := text;
       cc_count := count; cc_scanning := scanning want;
       cc_partialFilter := w_partialFilter want; cc_sourceShapes := sourceShapes want |} in
  match extendable existing want with
  | Some idx =>
      build UPDATE [name idx]
        ("Extend " +:+ name idx +:+ " to {" +:+ describe keys +:+ "} — " +:+ scan +:+ ".")%string
  | None =>
      let merged := name <$> singles existing want in
      if (2 <=? length merged)%nat then
        build MERGE merged
          ("Replace " +:+ join " + " merged +:+ " with a compound index on {" +:+ describe keys +:+
           "} — " +:+ scan +:+ ".")%string
      else
        build CREATE []
          ("Add an index on {" +:+ describe keys +:+ "} — " +:+ scan +:+ "." +:+
           partial_note (w_partialFilter want))%string
  end.

(** One turn of the last loop. *)
Definition emit_step `{Locale} (existing : list IndexSpec)
    (st : list CreateCandidate * Declines) (want : Want) : list CreateCandidate * Declines :=
  let '(candidates, declines) := st in
  if existsb (fun idx => equalFields (fieldsOf idx) (sk_field <$> wantedKeys want)) existing
  then (candidates, declines ++ ((fun shape => (shape, Index_exists)) <$> sourceShapes want))
  else (candidates ++ [create_candidate existing want], declines).

(** The candidates, and what the [onDecline] sink was told, in order. *)
Definition recommendCreates `{Locale} (shapes : list QueryShape) (existing : list IndexSpec)
    (options : CreateOptions) : list CreateCandidate * Declines :=
  let '(seen, declines) := fold_left (want_step existing options) shapes ([], []) in
  let wants := stable_sort by_width (snd <$> seen) in
  let survivors := consolidate (length wants) wants in
  fold_left (emit_step existing) (with_lead <$> survivors) ([], declines).

(** ** Notions the theorems are stated with *)

(** Every shape a list of wants answers for. *)
Definition shapes_of (wants : list Want) : list QueryShape := wants ≫= sourceShapes.

(** A want as the loops keep it: distinct keys, at least one, a lead of
    distinct fields, keys and filter together the fields its shape mentions. *)
Record want_ok (w : Want) : Prop := {
  want_distinct : NoDup (sk_field <$> wantedKeys w);
  want_some : wantedKeys w <> [];
  want_lead : NoDup (lead w);
  want_source : w_shape w ∈ sourceShapes w;
  want_covers : forall f, f ∈ mentionedFields (w_shape w) <->
    f ∈ sk_field <$> wantedKeys w \/ f ∈ (w_partialFilter w ?? []).*1;
}.

(** A scan on equality fields, seen a hundred times by an application. *)
Definition scan_on (fields : list string) (literals : list (string * ConstantValue)) : QueryShape :=
  {| equality := fields; sort := []; range := []; collscan := true; sortedInMemory := None;
     count := 100; docsExamined := None; observedForHours := None; clients := None;
     constants := Some literals; lookups := None |}.
Definition every_want : CreateOptions :=
  {| workload_options := {| minCount := 3; minPerWeek := 1%Q |}; partialIndexes := true |}.

(** ** The loops' lists *)

Lemma attribute_to_some {A} key (f : A -> A) l l' :
  attribute_to key f l = Some l' ->
  exists pre a post, l = pre ++ (key, a) :: post /\ l' = pre ++ (key, f a) :: post.
Proof.
  revert l'. induction l as [|[k a] l IH]; intros l'; simpl; [done|].
  destruct (String.eqb_spec k key) as [->|].
  - intros [= <-]. by exists [], a, l.
  - intros H. apply fmap_Some in H as (l1 & H1%IH & ->).
    destruct H1 as (pre & b & post & -> & ->). by exists ((k, a) :: pre), b, post.
Qed.

Lemma last_index_some {A} (f : A -> bool) l i :
  last_index f l = Some i ->
  exists pre x post, l = pre ++ x :: post /\ length pre = i /\ f x = true.
Proof.
  revert i. induction l as [|y l IH]; intros i; simpl; [done|].
  destruct (last_index f l) as [j|].
  - intros [= <-]. destruct (IH j eq_refl) as (pre & x & post & -> & <- & Hx).
    by exists (y :: pre), x, post.
  - destruct (f y) eqn:E; [|done]. intros [= <-]. by exists [], y, l.
Qed.

Lemma last_index_alter {A} (f : A -> bool) (g : A -> A) l i :
  last_index f l = Some i ->
  exists pre x post, l = pre ++ x :: post /\ f x = true /\ alter g i l = pre ++ g x :: post.
Proof.
  intros (pre & x & post & -> & <- & Hx)%last_index_some. exists pre, x, post.
  split; [done|]. split; [done|]. rewrite <- (Nat.add_0_r (length pre)), alter_app_r. done.
Qed.

Lemma shapes_of_app a b : shapes_of (a ++ b) = shapes_of a ++ shapes_of b.
Proof. apply bind_app. Qed.

Lemma shapes_of_middle pre w post :
  Permutation (shapes_of (pre ++ w :: post)) (sourceShapes w ++ shapes_of (pre ++ post)).
Proof.
  rewrite !shapes_of_app. unfold shapes_of at 2. csimpl. fold (shapes_of post).
  by rewrite Permutation_app_swap_app.
Qed.

Lemma consolidate_shapes n wants :
  (length wants <= n)%nat -> Permutation (shapes_of (consolidate n wants)) (shapes_of wants).
Proof.
  revert wants. induction n as [|n IH]; intros [|w later] Hn; simpl in *; try done; [lia|].
  destruct (last_index _ later) as [i|] eqn:E.
  - rewrite IH by (rewrite length_alter; lia).
    destruct (last_index_alter _ (fold_into w) _ _ E) as (pre & x & post & -> & _ & ->).
    change (w :: pre ++ x :: post) with ([] ++ w :: (pre ++ x :: post)).
    rewrite !shapes_of_middle. simpl. rewrite <- app_assoc.
    apply Permutation_app_swap_app.
  - unfold shapes_of in *. csimpl. rewrite IH by lia. done.
Qed.

Lemma consolidate_ind (P : Want -> Prop) n wants :
  (forall w x, P w -> P x -> absorbs w x = true -> P (fold_into w x)) ->
  Forall P wants -> Forall P (consolidate n wants).
Proof.
  intros Hstep. revert wants. induction n as [|n IH]; intros [|w later] Hp; simpl; try constructor.
  inv Hp. destruct (last_index _ later) as [i|] eqn:E; [|constructor; auto].
  destruct (last_index_alter _ (fold_into w) _ _ E) as (pre & x & post & -> & Hx & ->).
  apply IH. rewrite Forall_app, Forall_cons in *. destruct H2 as (? & ? & ?). eauto 10.
Qed.

Lemma with_lead_shapes wants : shapes_of (with_lead <$> wants) = shapes_of wants.
Proof. unfold shapes_of. induction wants as [|w l IH]; csimpl; [done|]. by rewrite IH. Qed.

Section run.
Context `{Locale} (existing : list IndexSpec) (options : CreateOptions).

Lemma want_step_shapes wants declines shape :
  let st := want_step existing options (wants, declines) shape in
  Permutation (st.2.*1 ++ shapes_of st.1.*2)
    (List.filter is_finding [shape] ++ declines.*1 ++ shapes_of wants.*2).
Proof.
  unfold want_step. simpl. destruct (is_finding shape); [|done]. simpl.
  assert (Hd : forall r : ShapeDecline, Permutation
    ((declines ++ [(shape, r)]).*1 ++ shapes_of wants.*2)
    ([shape] ++ declines.*1 ++ shapes_of wants.*2)).
  { intros r. rewrite fmap_app. csimpl. rewrite <- app_assoc. symmetry. apply Permutation_middle. }
  destruct (negb (isRecurring _ _)); [apply Hd|]. destruct (negb (isWorthIndexing _)); [apply Hd|].
  destruct (_ =? 0)%nat; [apply Hd|]. destruct (wanted_of _ shape) as [keys filter].
  destruct (attribute_to _ _ wants) as [wants'|] eqn:E.
  - apply attribute_to_some in E as (pre & w & post & -> & ->). simpl.
    rewrite !fmap_app. csimpl. rewrite !shapes_of_middle. simpl.
    rewrite (Permutation_app_comm (sourceShapes w) [shape]). symmetry. apply Permutation_middle.
  - destruct (existsb _ existing); [apply Hd|]. simpl. rewrite fmap_app, shapes_of_app. csimpl.
    unfold shapes_of at 2. csimpl. rewrite (Permutation_app_comm (shapes_of _) [shape]).
    symmetry. apply Permutation_middle.
Qed.

Lemma want_loop_shapes shapes st :
  let st' := fold_left (want_step existing options) shapes st in
  Permutation (st'.2.*1 ++ shapes_of st'.1.*2)
    (List.filter is_finding shapes ++ st.2.*1 ++ shapes_of st.1.*2).
Proof.
  revert st. induction shapes as [|s shapes IH]; intros [wants declines]; cbv zeta; [done|].
  cbn [fold_left]. rewrite IH, want_step_shapes.
  change (s :: shapes) with ([s] ++ shapes). rewrite List.filter_app. simpl List.filter at 2.
  rewrite <- app_assoc. apply Permutation_app_swap_app.
Qed.

Lemma create_candidate_shapes w :
  cc_sourceShapes (create_candidate existing w) = sourceShapes w.
Proof. unfold create_candidate. destruct (extendable _ _); [done|]. by destruct (2 <=? _)%nat. Qed.

Lemma create_candidate_keys w : cc_keys (create_candidate existing w) = wantedKeys w.
Proof. unfold create_candidate. destruct (extendable _ _); [done|]. by destruct (2 <=? _)%nat. Qed.

Lemma create_candidate_filter w :
  cc_partialFilter (create_candidate existing w) = w_partialFilter w.
Proof. unfold create_candidate. destruct (extendable _ _); [done|]. by destruct (2 <=? _)%nat. Qed.

Lemma emit_loop_shapes wants st :
  let st' := fold_left (emit_step existing) wants st in
  Permutation (st'.2.*1 ++ (st'.1 ≫= cc_sourceShapes))
    (shapes_of wants ++ st.2.*1 ++ (st.1 ≫= cc_sourceShapes)).
Proof.
  revert st. induction wants as [|w wants IH]; intros [cs ds]; cbv zeta; [done|].
  cbn [fold_left]. rewrite IH. unfold shapes_of at 2. csimpl. fold (shapes_of wants).
  destruct (existsb _ existing); simpl.
  - rewrite fmap_app, <- list_fmap_compose.
    replace ((fst ∘ _) <$> sourceShapes w) with (sourceShapes w)
      by (symmetry; apply list_fmap_id).
    rewrite <- !app_assoc, (Permutation_app_swap_app ds.*1 (sourceShapes w)).
    apply Permutation_app_swap_app.
  - rewrite bind_app. csimpl. rewrite app_nil_r, create_candidate_shapes.
    rewrite (Permutation_app_comm (cs ≫= _)), (Permutation_app_swap_app ds.*1).
    rewrite <- app_assoc. apply Permutation_app_swap_app.
Qed.
End run.

(** No finding is lost and none is counted twice: every shape the server
    works too hard to serve is either declined once, with its reason, or
    attributed to exactly one candidate. *)
Theorem recommendCreates_accounts `{Locale} shapes existing options :
  let '(candidates, declines) := recommendCreates shapes existing options in
  Permutation (declines.*1 ++ (candidates ≫= cc_sourceShapes)) (List.filter is_finding shapes).
Proof.
  unfold recommendCreates.
  destruct (fold_left (want_step _ _) shapes _) as [seen ds] eqn:E1. cbv zeta.
  set (survivors := consolidate _ _). set (out := fold_left _ _ _).
  pose proof (emit_loop_shapes existing (with_lead <$> survivors) ([], ds)) as He.
  fold out in He. cbv zeta in He. destruct out as [cs ds']. simpl in He. rewrite He.
  rewrite with_lead_shapes. unfold survivors. rewrite consolidate_shapes by done.
  assert (Permutation (shapes_of (stable_sort by_width (snd <$> seen))) (shapes_of (snd <$> seen)))
    as -> by (apply bind_Permutation, stable_sort_perm).
  pose proof (want_loop_shapes existing options shapes ([], [])) as Hw.
  rewrite E1 in Hw. cbv zeta in Hw. simpl in Hw. rewrite !app_nil_r in *. rewrite <- Hw.
  apply Permutation_app_comm.
Qed.

(** ** The keys a candidate ends up with *)

Lemma filter_split {A} (f g : A -> bool) l :
  Permutation (List.filter f l)
    (List.filter (fun x => f x && g x) l ++ List.filter (fun x => f x && negb (g x)) l).
Proof.
  induction l as [|x l IH]; simpl; [done|]. destruct (f x), (g x); simpl; rewrite ?IH; try done.
  apply Permutation_middle.
Qed.

Lemma filter_ext_elem {A} (f g : A -> bool) l :
  (forall x, x ∈ l -> f x = g x) -> List.filter f l = List.filter g l.
Proof. intros Hfg. apply List.filter_ext_in. intros x Hx. apply Hfg. by apply list_elem_of_In. Qed.

Lemma lead_split (l : list string) (ks : list SortKey) :
  NoDup l ->
  Permutation ((l ≫= fun f => List.filter (fun key => String.eqb (sk_field key) f) ks) ++
               List.filter (fun key => negb (includes l (sk_field key))) ks) ks.
Proof.
  induction 1 as [|f l Hf Hl IH]; simpl.
  { by rewrite filter_all by done. }
  rewrite <- IH at 3. rewrite <- app_assoc, (Permutation_app_swap_app (List.filter _ ks)).
  apply Permutation_app_head.
  rewrite (filter_split (fun key => negb (includes l (sk_field key)))
             (fun key => String.eqb (sk_field key) f)).
  apply eq_subrelation; [typeclasses eauto|]. f_equal; apply filter_ext_elem; intros k _;
    destruct (String.eqb_spec (sk_field k) f) as [<-|Hne]; simpl; unfold includes in *.
  - rewrite bool_decide_eq_false_2 by done. done.
  - by rewrite andb_false_r.
  - rewrite andb_false_r, bool_decide_eq_true_2 by (by left). done.
  - rewrite andb_true_r. f_equal. apply bool_decide_ext. rewrite elem_of_cons. naive_solver.
Qed.

Lemma leadWith_perm w : NoDup (lead w) -> Permutation (leadWith w) (wantedKeys w).
Proof. intros Hl. unfold leadWith. destruct (_ =? 0)%nat; [done|]. by apply lead_split. Qed.

Lemma new_want_ok p shape keys filter :
  (0 < length (esrKeys shape))%nat -> wanted_of p shape = (keys, filter) ->
  want_ok (new_want shape keys filter).
Proof.
  intros Hlen. unfold wanted_of. set (fs := List.filter _ _).
  destruct (_ && existsb _ _) eqn:E; intros [= <- <-].
  - apply andb_true_iff in E as [_ (k & Hk & Hn)%existsb_elem]. split; simpl.
    + apply NoDup_fmap_filter, esrKeys_NoDup.
    + intros Hnil. assert (Hin : k ∈ @nil SortKey) by (rewrite <- Hnil; by apply elem_of_filter_bool).
      set_solver.
    + constructor.
    + set_solver.
    + intros f. rewrite <- esrKeys_fields. rewrite !list_elem_of_fmap.
      setoid_rewrite elem_of_filter_bool. setoid_rewrite negb_true_iff. split.
      * intros (k' & -> & Hk'). destruct (includes fs.*1 (sk_field k')) eqn:Ei; [right|left; eauto].
        apply includes_spec in Ei. by apply list_elem_of_fmap in Ei.
      * intros [(k' & -> & Hk' & _)|(c & -> & Hc)]; [eauto|].
        apply elem_of_filter_bool in Hc as [_ Hc%includes_spec].
        apply list_elem_of_fmap. apply esrKeys_fields. unfold mentionedFields. set_solver.
  - split; simpl.
    + apply esrKeys_NoDup.
    + by destruct (esrKeys shape); simpl in Hlen; [lia|].
    + constructor.
    + set_solver.
    + intros f. rewrite <- esrKeys_fields. set_solver.
Qed.

Lemma fold_into_ok w x : want_ok w -> want_ok x -> want_ok (fold_into w x).
Proof.
  intros [] []. split; simpl; try done; [apply distinct_from_NoDup|]. apply elem_of_app. by left.
Qed.

Lemma with_lead_ok w : want_ok w -> want_ok (with_lead w).
Proof.
  intros []. pose proof (leadWith_perm w want_lead0) as HP. split; simpl; try done.
  - by rewrite HP.
  - intros E. rewrite E in HP. by apply Permutation_nil in HP.
  - intros f. rewrite want_covers0, HP. done.
Qed.

Section candidates.
Context `{Locale} (existing : list IndexSpec) (options : CreateOptions).

Lemma want_loop_ok shapes st :
  Forall want_ok st.1.*2 ->
  Forall want_ok (fold_left (want_step existing options) shapes st).1.*2.
Proof.
  revert st. induction shapes as [|s shapes IH]; intros [wants ds] Hok; simpl; [done|].
  apply IH. unfold want_step. destruct (negb (is_finding s)); [done|].
  destruct (negb (isRecurring _ _)); [done|]. destruct (negb (isWorthIndexing _)); [done|].
  destruct (Nat.eqb_spec (length (esrKeys s)) 0); [done|].
  destruct (wanted_of _ s) as [keys filter] eqn:E.
  destruct (attribute_to _ _ wants) as [wants'|] eqn:Ea; simpl in *.
  - apply attribute_to_some in Ea as (pre & w & post & -> & ->).
    rewrite fmap_app in *. csimpl in *. rewrite Forall_app, Forall_cons in *.
    destruct Hok as (? & [] & ?). split_and!; try done. split; simpl; try done.
    apply elem_of_app. by left.
  - destruct (existsb _ existing); simpl; [done|]. rewrite fmap_app. csimpl.
    rewrite Forall_app, Forall_singleton. split; [done|]. eapply new_want_ok; [|exact E]. lia.
Qed.

Lemma emit_loop_elem wants st c :
  c ∈ (fold_left (emit_step existing) wants st).1 ->
  c ∈ st.1 \/ exists w, w ∈ wants /\ c = create_candidate existing w /\
    forall idx, idx ∈ existing -> fieldsOf idx <> sk_field <$> wantedKeys w.
Proof.
  revert st. induction wants as [|w wants IH]; intros [cs ds] Hc; simpl in *; [by left|].
  apply IH in Hc as [Hc|(w' & Hw & -> & Hn)]; [|right; exists w'; set_solver].
  destruct (existsb _ existing) eqn:E; simpl in Hc; [by left|].
  apply elem_of_app in Hc as [Hc|Hc]; [by left|]. apply list_elem_of_singleton in Hc as ->.
  right. exists w. split; [set_solver|]. split; [done|]. intros idx Hi Hf.
  apply not_true_iff_false in E. apply E, existsb_elem. exists idx. split; [done|].
  by apply equalFields_spec.
Qed.

Lemma recommendCreates_elem shapes c :
  c ∈ (recommendCreates shapes existing options).1 ->
  exists w, want_ok w /\ c = create_candidate existing w /\
    forall idx, idx ∈ existing -> fieldsOf idx <> sk_field <$> wantedKeys w.
Proof.
  unfold recommendCreates. destruct (fold_left (want_step _ _) shapes _) as [seen ds] eqn:E1.
  intros Hc. apply emit_loop_elem in Hc as [Hc|(w & Hw & -> & Hn)]; [simpl in Hc; set_solver|].
  exists w. split; [|done]. apply list_elem_of_fmap in Hw as (w' & -> & Hw'). apply with_lead_ok.
  assert (Hok : Forall want_ok (stable_sort by_width (snd <$> seen))).
  { rewrite stable_sort_perm. pose proof (want_loop_ok shapes ([], [])) as Hok.
    rewrite E1 in Hok. apply Hok. constructor. }
  apply (consolidate_ind want_ok (length (stable_sort by_width (snd <$> seen)))) in Hok;
    [|auto using fold_into_ok].
  rewrite list.Forall_forall in Hok. by apply Hok.
Qed.
End candidates.

(** A candidate index is one the query it is named for can use and the
    collection does not have: its keys are distinct, at least one, and with its
    partial filter they are exactly the fields of a shape attributed to it; no
    existing index has those fields in that order. *)
Theorem recommendCreates_keys `{Locale} shapes existing options c :
  c ∈ (recommendCreates shapes existing options).1 ->
  NoDup (sk_field <$> cc_keys c) /\ cc_keys c <> [] /\
  (exists shape, shape ∈ cc_sourceShapes c /\
     forall f, f ∈ mentionedFields shape <->
       f ∈ sk_field <$> cc_keys c \/ f ∈ (cc_partialFilter c ?? []).*1) /\
  forall idx, idx ∈ existing -> fieldsOf idx <> sk_field <$> cc_keys c.
Proof.
  intros (w & [] & -> & Hn)%recommendCreates_elem.
  rewrite create_candidate_keys, create_candidate_shapes, create_candidate_filter. eauto 10.
Qed.

(** What a candidate may retire: never a protected index, only indexes on
    the same documents, and only ones the new keys replace: an UPDATE retires
    the one proper prefix it extends, a MERGE two or more single-field indexes
    on its own fields, a CREATE nothing. *)
Theorem recommendCreates_retires `{Locale} shapes existing options c :
  c ∈ (recommendCreates shapes existing options).1 ->
  exists retired, retired ⊆ existing /\ retireIndexes c = name <$> retired /\
    (forall idx, idx ∈ retired -> isNeverDrop idx = false /\
       sameFilter (partialFilter idx) (constants_filter (cc_partialFilter c)) = true) /\
    match cc_type c with
    | CREATE => retired = []
    | UPDATE => exists idx, retired = [idx] /\ fieldsOf idx <> [] /\
        fieldsOf idx `prefix_of` (sk_field <$> cc_keys c) /\
        (length (fieldsOf idx) < length (cc_keys c))%nat
    | MERGE => (2 <= length retired)%nat /\
        forall idx, idx ∈ retired -> exists f, fieldsOf idx = [f] /\ f ∈ sk_field <$> cc_keys c
    | _ => False
    end.
Proof.
  intros (w & _ & -> & _)%recommendCreates_elem.
  rewrite create_candidate_keys, create_candidate_filter. unfold create_candidate.
  destruct (extendable existing w) as [idx|] eqn:E.
  - apply find_elem in E as [Hin Hc]. unfold compatible in Hc. bools.
    destruct Hc as [[Hd Hf] (Hne & Hp & Hl)%isPrefix_spec]. rewrite length_fmap in Hl.
    exists [idx]. split_and!; [set_solver|done|set_solver|]. simpl. eauto 10.
  - assert (Hs : forall idx, idx ∈ singles existing w -> idx ∈ existing /\ isNeverDrop idx = false /\
      sameFilter (partialFilter idx) (constants_filter (w_partialFilter w)) = true /\
      exists f, fieldsOf idx = [f] /\ f ∈ sk_field <$> wantedKeys w).
    { intros idx [Hin Hc]%elem_of_filter_bool. unfold compatible in Hc. bools.
      destruct Hc as [[[Hd Hf] Hl%Nat.eqb_eq] Hw]. split_and!; try done.
      unfold fieldsOf in *. destruct (keys idx) as [|k [|]]; simplify_eq/=. eauto. }
    rewrite length_fmap. destruct (Nat.leb_spec 2 (length (singles existing w))); simpl.
    + exists (singles existing w). split_and!; try done; try naive_solver.
    + exists []. split_and!; try done; set_solver.
Qed.

(** One fold keeps the folded query on the index: when a want absorbs a
    narrower one whose own lead is empty, the surviving key list is the same
    keys and begins with exactly the narrower want's equality fields, and the
    sort fields it holds as equality. *)
Theorem absorbed_want_leads narrow wide :
  absorbs narrow wide = true -> lead narrow = [] ->
  (forall f, f ∈ kb_equality (blocks wide) -> f ∈ sk_field <$> wantedKeys wide) ->
  let merged := fold_into narrow wide in
  exists leading rest, leadWith merged = leading ++ rest /\
    Permutation (leadWith merged) (wantedKeys wide) /\
    forall f, f ∈ sk_field <$> leading <->
      f ∈ kb_equality (blocks narrow) \/
      f ∈ sk_field <$> kb_sort (blocks narrow) /\ f ∈ kb_equality (blocks wide).
Proof.
  intros Ha Hl Hin merged. pose proof (leadWith_perm merged (distinct_from_NoDup _ _)) as HP.
  assert (Hsub : forall f, f ∈ lead merged <-> f ∈ kb_equality (blocks narrow) \/
      f ∈ sk_field <$> kb_sort (blocks narrow) /\ f ∈ kb_equality (blocks wide)).
  { intros f. simpl. rewrite elem_of_distinct_strings, Hl, !elem_of_app, elem_of_filter_bool, includes_spec.
    assert (f ∈ lead wide -> f ∈ kb_equality (blocks narrow) \/
      f ∈ sk_field <$> kb_sort (blocks narrow) /\ f ∈ kb_equality (blocks wide)); [|set_solver].
    intros Hf. unfold absorbs in Ha. destruct (is_some _ || is_some _); [done|].
    destruct (forallb (includes (kb_equality (blocks wide))) _); [|done]. simpl in Ha.
    destruct (negb _ && negb _ && _); [done|]. destruct (negb _ && negb _); [done|].
    destruct (negb (forallb _ _)); [done|]. rewrite forallb_elem in Ha.
    apply Ha, includes_spec, elem_of_app in Hf as [Hf|Hf]; [by left|]. right.
    destruct (_ && sortSitsInEquality _ _) eqn:Es; [|set_solver]. split; [done|].
    apply andb_true_iff in Es as [_ Es]. unfold sortSitsInEquality in Es.
    destruct (forallb _ (kb_sort _)) eqn:Ef; [|done]. rewrite forallb_elem in Ef.
    apply list_elem_of_fmap in Hf as (k & -> & Hk). by apply includes_spec, Ef. }
  assert (Hneq : forall f, f ∈ kb_equality (blocks narrow) -> f ∈ kb_equality (blocks wide)).
  { unfold absorbs in Ha. destruct (is_some _ || is_some _); [done|].
    destruct (forallb (includes (kb_equality (blocks wide))) _) eqn:E; [|done].
    rewrite forallb_elem in E. intros f Hf. by apply includes_spec, E. }
  unfold leadWith in *. destruct (_ =? 0)%nat eqn:E0.
  - exists [], (wantedKeys merged). split; [done|]. split; [done|]. intros f. rewrite <- Hsub.
    apply Nat.eqb_eq, length_zero_iff_nil in E0. by rewrite E0.
  - eexists _, _. split; [reflexivity|]. split; [done|]. intros f. rewrite <- Hsub.
    rewrite list_elem_of_fmap. setoid_rewrite list_elem_of_bind. setoid_rewrite elem_of_filter_bool.
    setoid_rewrite String.eqb_eq. split; [by intros (k & -> & f' & [_ ->] & Hf')|].
    intros Hf. assert (Hw : f ∈ sk_field <$> wantedKeys wide)
      by (apply Hin; apply Hsub in Hf as [Hf|[_ Hf]]; auto).
    apply list_elem_of_fmap in Hw as (k & -> & Hk). eauto 10.
Qed.

(** ** Two shapes the loops strand *)

(** Folding narrowest first does not keep every folded query on the index:
    of four equality scans, on [a], on [b], on [a] and [b], and on [a], [b] and
    [c], one index [(a, b, c)] is proposed for all four, and the query on [b]
    alone does not bind its first key. *)
Theorem consolidation_strands_shape :
  exists c shape, let L : Locale := String.leb in
    let shapes := [scan_on ["a"] []; scan_on ["b"] []; scan_on ["a"; "b"] [];
                   scan_on ["a"; "b"; "c"] []] in
    recommendCreates shapes [] every_want = ([c], []) /\
    shape ∈ shapes /\ shape ∈ cc_sourceShapes c /\
    (sk_field <$> cc_keys c) !! 0%nat = Some "a"%string /\ "a"%string ∉ mentionedFields shape.
Proof.
  eexists _, (scan_on ["b"] []). split; [vm_compute; reflexivity|]. cbn. split_and!; set_solver.
Qed.

(** Two wants are told apart by their keys alone, not by their filter: a
    scan on [user] for every document, recorded after a scan on [user] that
    always asks for one literal status, is attributed to the partial index of
    the first, which does not hold the documents it reads. *)
Theorem seen_key_ignores_filter :
  exists c shape, let L : Locale := String.leb in
    let shapes := [scan_on ["user"; "status"] [("status"%string, CStr "active")];
                   scan_on ["user"] []] in
    recommendCreates shapes [] every_want = ([c], []) /\
    shape ∈ shapes /\ shape ∈ cc_sourceShapes c /\
    cc_partialFilter c = Some [("status"%string, CStr "active")] /\
    "status"%string ∉ mentionedFields shape.
Proof.
  eexists _, (scan_on ["user"] []). split; [vm_compute; reflexivity|]. cbn. split_and!; set_solver.
Qed.

Lemma recommendCreates_keys_witness :
  exists c, c ∈ (recommendCreates (H := String.leb) [scan_on ["a"; "b"] []] [] every_want).1 /\
    NoDup (sk_field <$> cc_keys c) /\ cc_keys c <> [].
Proof.
  destruct ((recommendCreates (H := String.leb) [scan_on ["a"; "b"] []] [] every_want).1) as [|c rest] eqn:E;
    [vm_compute in E; discriminate E|].
  exists c. split; [left|].
  destruct (@recommendCreates_keys String.leb [scan_on ["a"; "b"] []] [] every_want c) as (H1 & H2 & _);
    [rewrite E; left|]. split; [exact H1|exact H2].
Defined.
