(* ===== verification/Ledger.v ===== *)
(** The account a suggest pass keeps of every scanning shape it read.  Models
    [apps/api/src/jobs/workload-shapes.ts] and [jobs/served-shapes.ts], the
    [workload_shapes] table they write and read, and
    [apps/api/src/analysis/workload-outcome.ts].

    The code keys a row by the text of its namespace and its shape, and the table
    by a digest of the shape: here both are the values themselves. *)
From S2P Require Import Prelude EngineTypes Recurrence Score Creates.

(** ** The shape as stored *)

Record StoredShape := {
  ss_equality : list string;
  ss_sort : list SortKey;
  ss_range : list string;
  ss_collscan : bool;
  ss_sortedInMemory : bool;
}.
#[export] Instance StoredShape_eq_dec : EqDecision StoredShape.
Proof. solve_decision. Defined.

Definition storedShapeOf (shape : QueryShape) : StoredShape :=
  {| ss_equality := equality shape; ss_sort := sort shape; ss_range := range shape;
     ss_collscan := collscan shape; ss_sortedInMemory := bool_decide (sortedInMemory shape = Some true) |}.

Definition isScanning (shape : QueryShape) : bool :=
  collscan shape || bool_decide (sortedInMemory shape = Some true).

Definition severity_text (s : ScanSeverity) : string :=
  match s with CRITICAL => "CRITICAL" | ELEVATED => "ELEVATED" | ROUTINE => "ROUTINE" end.
Definition severityOf (value : string) : ScanSeverity :=
  if String.eqb value "CRITICAL" then CRITICAL else if String.eqb value "ELEVATED" then ELEVATED else ROUTINE.

Definition weeklyDocsExaminedOf (shape : QueryShape) (docCount : Z) : option Z :=
  examined ← match docsExamined shape with
             | Some n => Some n
             | None => if collscan shape then Some (count shape * docCount) else None
             end;
  Some (Math_round (perExecution examined (count shape) * executionsPerWeek shape)).

(** ** The ledger *)

Record PendingShape := {
  ps_database : string;
  ps_collection : string;
  ps_shape : StoredShape;
  ps_executions : Z;
  ps_docsExamined : option Z;
  ps_observedForHours : option Q;
  ps_clients : list QueryClient;
  ps_weeklyDocsExamined : option Z;
  ps_severity : ScanSeverity;
  ps_outcome : WorkloadOutcome;
  ps_proposedIndex : option string;
}.
(** The rows of [ShapeLedger], in the order they were first noted. *)
Definition ShapeLedger := list PendingShape.

Definition ps_key (row : PendingShape) : string * string * StoredShape :=
  (ps_database row, ps_collection row, ps_shape row).

Definition with_outcome (outcome : WorkloadOutcome) (index : option string) (row : PendingShape) : PendingShape :=
  {| ps_database := ps_database row; ps_collection := ps_collection row; ps_shape := ps_shape row;
     ps_executions := ps_executions row; ps_docsExamined := ps_docsExamined row;
     ps_observedForHours := ps_observedForHours row; ps_clients := ps_clients row;
     ps_weeklyDocsExamined := ps_weeklyDocsExamined row; ps_severity := ps_severity row;
     ps_outcome := outcome; ps_proposedIndex := index |}.

Definition pending_shape (database collection : string) (shape : QueryShape) (docCount : Z)
    (outcome : WorkloadOutcome) (index : option string) : PendingShape :=
  {| ps_database := database; ps_collection := collection; ps_shape := storedShapeOf shape;
     ps_executions := count shape; ps_docsExamined := docsExamined shape;
     ps_observedForHours := observedForHours shape; ps_clients := clients shape ?? [];
     ps_weeklyDocsExamined := weeklyDocsExaminedOf shape docCount;
     ps_severity := severity (scanCost shape docCount); ps_outcome := outcome; ps_proposedIndex := index |}.

(** A later verdict replaces an earlier one, except a proposal. *)
Definition revise (outcome : WorkloadOutcome) (index : option string) (row : PendingShape) : PendingShape :=
  if bool_decide (ps_outcome row = proposed) then row else with_outcome outcome index row.

Fixpoint note (database collection : string) (shape : QueryShape) (docCount : Z)
    (outcome : WorkloadOutcome) (index : option string) (ledger : ShapeLedger) : ShapeLedger :=
  match ledger with
  | [] => [pending_shape database collection shape docCount outcome index]
  | row :: rest =>
      if bool_decide (ps_key row = (database, collection, storedShapeOf shape)) then revise outcome index row :: rest
      else row :: note database collection shape docCount outcome index rest
  end.

Definition resolve (database collection : string) (docCount : Z) (shapes : list QueryShape)
    (outcome : WorkloadOutcome) (index : option string) (ledger : ShapeLedger) : ShapeLedger :=
  fold_left (fun ledger shape =>
    if negb (isScanning shape) then ledger else note database collection shape docCount outcome index ledger)
    shapes ledger.

(** ** The table *)

Record ShapeRow := {
  sr_reading : PendingShape;
  sr_firstSeenAt : Z;
  sr_lastSeenAt : Z;
  sr_observations : Z;
}.

(** One row of the upsert: the measurement replaced, the first sighting kept. *)
Fixpoint upsert_shape (now : Z) (pending : PendingShape) (table : list ShapeRow) : list ShapeRow :=
  match table with
  | [] => [{| sr_reading := pending; sr_firstSeenAt := now; sr_lastSeenAt := now; sr_observations := 1 |}]
  | row :: rest =>
      if bool_decide (ps_key (sr_reading row) = ps_key pending)
      then {| sr_reading := pending; sr_firstSeenAt := sr_firstSeenAt row; sr_lastSeenAt := now;
              sr_observations := sr_observations row + 1 |} :: rest
      else row :: upsert_shape now pending rest
  end.
Definition flush (now : Z) (ledger : ShapeLedger) (table : list ShapeRow) : list ShapeRow :=
  fold_left (fun table pending => upsert_shape now pending table) ledger table.

(** ** The shapes a build was for *)

Definition OPEN_SCANS_WINDOW_DAYS : Z := 7.

Definition serves (database collection indexName : string) (now : Z) (row : ShapeRow) : bool :=
  bool_decide (ps_database (sr_reading row) = database) && bool_decide (ps_collection (sr_reading row) = collection) &&
  bool_decide (ps_proposedIndex (sr_reading row) = Some indexName) &&
  (now - OPEN_SCANS_WINDOW_DAYS * DAY_MS <=? sr_lastSeenAt row).
(** The shapes, and the documents they examine a week. *)
Definition servedShapes (table : list ShapeRow) (database collection indexName : string) (now : Z)
    : option (list StoredShape * Z) :=
  let rows := List.filter (serves database collection indexName now) table in
  if (length rows =? 0)%nat then None
  else Some ((fun row => ps_shape (sr_reading row)) <$> rows,
             zsum (fun row => ps_weeklyDocsExamined (sr_reading row) ?? 0) rows).

(** ** The outcomes in words *)

Definition outcome_text (o : WorkloadOutcome) : string :=
  match o with
  | proposed => "proposed" | below_cost_floor => "below-cost-floor" | not_recurring => "not-recurring"
  | ad_hoc_client => "ad-hoc-client" | cooldown => "cooldown" | standing => "standing"
  | index_exists => "index-exists" | no_candidate => "no-candidate"
  end.
Definition workloadOutcomes : list WorkloadOutcome :=
  [proposed; below_cost_floor; not_recurring; ad_hoc_client; cooldown; standing; index_exists; no_candidate].
Definition outcomeOf (value : string) : option WorkloadOutcome :=
  List.find (fun o => String.eqb (outcome_text o) value) workloadOutcomes.
Definition isDeclined (o : WorkloadOutcome) : bool := negb (bool_decide (o = proposed)).

Definition explainOutcome (o : WorkloadOutcome) : string :=
  match o with
  | proposed => "An index for this shape is on the recommendations table — approve it there, or leave it and the next pass will re-derive it."
  | below_cost_floor => "This collection's scanning costs less than a million documents a week, so no index was proposed for it. That threshold is about what an index would SAVE, not about whether the query is well written — a scan of a small collection is a page or two the server is holding anyway, and it is the same query that will hurt when the collection is larger."
  | not_recurring => "Seen too few times, or too rarely, to be a workload: three sightings and a fortnightly rate are the floors. An index is maintained on every write for years, which a query that runs roughly never has not earned."
  | ad_hoc_client => "Issued by what looks like a person at a prompt rather than by an application, so no index was built to serve it. If this is a scheduled job, giving its connection an appName is what makes it count."
  | cooldown => "The index this needs is parked — a previous attempt regressed, or an owner said no. The Parked panel on the overview says until when."
  | standing => "The index this needs is already the subject of a live recommendation, so it was not proposed twice. It may be waiting for your approval."
  | index_exists => "An existing index already serves this shape: the same fields, or more of them with these leading, the equality fields in any order. For a scan, either it ran before that index was built — the workload source keeps reporting a scan for as long as it remembers it — or the planner chose not to use the index, which another index would not fix. For an in-memory sort on exactly these fields, it means the existing index's key DIRECTIONS cannot serve the sort, and a second index differing only in direction doubles this collection's write cost — so it is raised for review rather than built."
  | no_candidate => "This shape was read and no index could be derived from it — usually a query with no field that could lead an index's key."
  end.

(** What a recommender's own gate says, in the ledger's words. *)
Definition decline_outcome (d : ShapeDecline) : WorkloadOutcome :=
  match d with
  | Not_recurring => not_recurring | Ad_hoc_client => ad_hoc_client
  | Index_exists => index_exists | No_candidate => no_candidate
  end.

(** ** Lemmas *)

Lemma outcomeOf_text o : outcomeOf (outcome_text o) = Some o.
Proof. by destruct o. Qed.
Lemma severityOf_text s : severityOf (severity_text s) = s.
Proof. by destruct s. Qed.

Lemma revise_key o i row : ps_key (revise o i row) = ps_key row.
Proof. unfold revise. by case_bool_decide. Qed.

(** What a note leaves: the same shapes and possibly one more, each row as it was
    or revised. *)
Lemma note_keys d c shape n o i ledger :
  let key := (d, c, storedShapeOf shape) in
  ps_key <$> note d c shape n o i ledger =
  (ps_key <$> ledger) ++ (if bool_decide (key ∈ ps_key <$> ledger) then [] else [key]).
Proof.
  intros key. induction ledger as [|row rest IH]; [done|]. cbn -[bool_decide].
  destruct (bool_decide (ps_key row = key)) eqn:E; fold key; rewrite E; [apply bool_decide_eq_true in E|apply bool_decide_eq_false in E].
  - rewrite bool_decide_true by (rewrite E; left). cbn. by rewrite revise_key, app_nil_r.
  - cbn -[bool_decide]. rewrite IH. do 2 f_equal.
    destruct (decide (key ∈ ps_key <$> rest)); [rewrite !bool_decide_true; [done|by right|done]|].
    rewrite !bool_decide_false; [done|set_solver|done].
Qed.

Lemma note_elem d c shape n o i ledger x :
  x ∈ note d c shape n o i ledger ->
  x ∈ ledger \/ ps_key x = (d, c, storedShapeOf shape) /\ ps_outcome x = o /\ ps_proposedIndex x = i.
Proof.
  induction ledger as [|row rest IH]; cbn -[bool_decide].
  - intros ->%list_elem_of_singleton. auto.
  - case_bool_decide as E; intros [->|Hin]%elem_of_cons.
    + unfold revise. case_bool_decide; [left; left|right]. by rewrite <- E.
    + left. by right.
    + left. left.
    + destruct (IH Hin); [left; by right|by right].
Qed.

(** A proposal outlives every later verdict. *)
Lemma note_proposed d c shape n o i ledger x :
  x ∈ ledger -> ps_outcome x = proposed -> x ∈ note d c shape n o i ledger.
Proof.
  intros Hx Hp. induction ledger as [|row rest IH]; [by apply elem_of_nil in Hx|]. cbn -[bool_decide].
  apply elem_of_cons in Hx as [->|Hx].
  - case_bool_decide; [|left]. unfold revise. rewrite bool_decide_true by done. left.
  - case_bool_decide; right; auto.
Qed.

Lemma note_noted d c shape n o i ledger :
  (d, c, storedShapeOf shape) ∈ ps_key <$> note d c shape n o i ledger.
Proof. rewrite note_keys. case_bool_decide; set_solver. Qed.
Lemma note_keeps d c shape n o i ledger key :
  key ∈ ps_key <$> ledger -> key ∈ ps_key <$> note d c shape n o i ledger.
Proof. rewrite note_keys. set_solver. Qed.
Lemma note_NoDup d c shape n o i ledger :
  NoDup (ps_key <$> ledger) -> NoDup (ps_key <$> note d c shape n o i ledger).
Proof.
  rewrite note_keys. case_bool_decide; [by rewrite app_nil_r|]. intros Hn. apply NoDup_app.
  split_and!; [done|set_solver|apply NoDup_singleton].
Qed.

(** The upsert writes the reading it was given, and touches no other shape. *)
Lemma upsert_written now p table :
  exists row, row ∈ upsert_shape now p table /\ sr_reading row = p /\ sr_lastSeenAt row = now.
Proof.
  induction table as [|row rest (x & Hx & Hr)]; cbn -[bool_decide].
  - eexists. split; [left|done].
  - case_bool_decide; eexists; (split; [|split]); [left|done|done|right; exact Hx|apply Hr|apply Hr].
Qed.
Lemma upsert_other now p table row :
  row ∈ table -> ps_key (sr_reading row) <> ps_key p -> row ∈ upsert_shape now p table.
Proof.
  induction table as [|r rest IH]; intros Hx Hne; [by apply elem_of_nil in Hx|]. cbn -[bool_decide].
  apply elem_of_cons in Hx as [->|Hx]; case_bool_decide; (done || left || right; auto).
Qed.

(** A flush leaves the newest reading of every shape of the ledger. *)
Lemma flush_written now ledger table p :
  NoDup (ps_key <$> ledger) -> p ∈ ledger ->
  exists row, row ∈ flush now ledger table /\ sr_reading row = p /\ sr_lastSeenAt row = now.
Proof.
  revert table. induction ledger as [|q ledger IH]; intros table Hn Hp; [by apply elem_of_nil in Hp|].
  apply NoDup_cons in Hn as [Hq Hn]. cbn [flush fold_left]. apply elem_of_cons in Hp as [->|Hp]; [|by apply IH].
  destruct (upsert_written now q table) as (row & Hrow & Hr & Hl). exists row. split; [|done].
  clear IH Hn. revert Hrow. generalize (upsert_shape now q table). clear table.
  induction ledger as [|p' ledger IH]; intros table Hrow; [done|]. cbn [fold_left]. apply IH.
  { intros Hin. apply Hq. csimpl. by right. }
  apply upsert_other; [done|]. rewrite Hr. intros E. apply Hq. csimpl. rewrite E. left.
Qed.
