(* ===== verification/Purge.v ===== *)
(** What to say of a recurring age-based purge.  Models
    [apps/api/src/analysis/purge.ts]. *)
From S2P Require Import Prelude EngineTypes.

Record PurgePattern := { pp_field : string; pp_count : Z; medianRetentionSeconds : option Z }.
Record PurgeAdvisory := { pa_indexName : string; pa_rationale : string }.

Definition PARTITION_WORTH_MENTIONING_ROWS : Z := 10000000.

Definition retentionPhrase (seconds : option Z) : string :=
  match seconds with
  | None => "the retention window is not visible in the plan (the cutoff is a parameter)"
  | Some seconds =>
      let days := Z.max 1 (Math_round (inject_Z seconds / 86400)) in
      "retention ≈ " +:+ show days +:+ " day" +:+ (if days =? 1 then "" else "s")
  end.

Definition leads_with (f : string) (index : IndexSpec) : bool :=
  bool_decide (field <$> keys index !! 0%nat = Some f).

Definition purgeIsSupported (f : string) (indexes : list IndexSpec) : bool :=
  existsb (fun index => leads_with f index && negb (hidden index)) indexes.

Definition ttl_advisory (pattern : PurgePattern) (collection : string) : PurgeAdvisory :=
  let f := pp_field pattern in
  let seconds := medianRetentionSeconds pattern in
  let expire := "db." +:+ collection +:+ ".createIndex({ " +:+ f +:+ ": 1 }, { expireAfterSeconds: " +:+
    match seconds with None => "<your window in seconds>" | Some n => show n end +:+ " })" in
  {| pa_indexName := f +:+ "_1_ttl";
     pa_rationale := "Recurring age-based deletes on " +:+ f +:+ " (" +:+ show (pp_count pattern) +:+
       "× in the profiler, " +:+ retentionPhrase seconds +:+
       "). A TTL index would expire documents automatically and steadily: " +:+ expire +:+
       ". CAUTION: TTL deletes documents — verify the retention window and create it yourself; Indexterity never builds TTL indexes." |}.

Definition sliding_window_advisory (pattern : PurgePattern) (collection : string) (supported large : bool)
    (rowCount : Z) : PurgeAdvisory :=
  let f := pp_field pattern in
  let opening := "Recurring age-based deletes on " +:+ f +:+ " (" +:+ show (pp_count pattern) +:+
    " executions in Query Store, " +:+ retentionPhrase (medianRetentionSeconds pattern) +:+
    "). SQL Server has no TTL index, so this pattern stays your job — but two things make it much cheaper." in
  let indexAdvice :=
    if supported then "The predicate is already indexed, so the delete seeks rather than scans."
    else "There is no index leading with " +:+ f +:+ ", so each run SCANS " +:+ collection +:+
      " and holds locks for the whole pass — this is the job that makes a table unavailable at night. A nonclustered index on (" +:+
      f +:+ ") turns the scan into a range seek." in
  let partitionAdvice :=
    if large
    then "At " +:+ show (Math_round (inject_Z rowCount / 1000000)) +:+
      "M rows the better answer is not an index at all: partition " +:+ collection +:+ " on " +:+ f +:+
      " and retire whole partitions with a SLIDING WINDOW (SWITCH OUT, then drop), which retires a period as a metadata operation instead of millions of logged row deletes."
    else "If this table grows into the tens of millions of rows, partitioning it on " +:+ f +:+
      " and retiring whole partitions with a sliding window replaces the delete entirely — worth remembering before it gets there." in
  {| pa_indexName := f +:+ "_1_purge";
     pa_rationale := opening +:+ " " +:+ indexAdvice +:+ " " +:+ partitionAdvice +:+
       " Advisory only: Indexterity never changes a table's partitioning, and never writes the purge job itself." |}.

Definition purgeAdvisory (engine : ClusterEngine) (pattern : PurgePattern) (collection : string)
    (indexes : list IndexSpec) (rowCount : Z) : option PurgeAdvisory :=
  if negb (bool_decide (engine = MSSQL))
  then if existsb (fun index => ttl index && leads_with (pp_field pattern) index) indexes then None
       else Some (ttl_advisory pattern collection)
  else
    let supported := purgeIsSupported (pp_field pattern) indexes in
    let large := PARTITION_WORTH_MENTIONING_ROWS <=? rowCount in
    if supported && negb large then None
    else Some (sliding_window_advisory pattern collection supported large rowCount).
