(* ===== verification/Narrow.v ===== *)
(** Indexes wider than anything asks for.  Models [recommendNarrowing] and its
    helpers, the last part of [apps/api/src/analysis/workload.ts]. *)
From S2P Require Import Prelude EngineTypes Redundancy Recurrence Esr.

Record NarrowCandidate := {
  nc_indexName : string;
  nc_keys : list SortKey;
  droppedKeys : list string;
  observedCount : Z;
  nc_rationale : string;
}.

Definition reaches (index : IndexSpec) (shape : QueryShape) : bool :=
  bool_decide (field <$> keys index !! 0%nat = sk_field <$> esrKeys shape !! 0%nat).

(** The highest position [f] holds at: the [forEach] that keeps [lastUsed]. *)
Fixpoint last_used (f : IndexKey -> bool) (ks : list IndexKey) : option nat :=
  match ks with
  | [] => None
  | k :: ks' =>
      match last_used f ks' with
      | Some i => Some (S i)
      | None => if f k then Some O else None
      end
  end.

Definition ordered_key (k : IndexKey) : list SortKey :=
  match direction k with
  | Ordered d => [{| sk_field := field k; sk_direction := d |}]
  | _ => []
  end.

(** The text's back quotes around a field name. *)
Definition ticked (f : string) : string := ("`" +:+ f +:+ "`")%string.

Definition narrow_rationale (index : IndexSpec) (kept : list SortKey) (dropped : list string)
    : string :=
  let plural := if (length dropped =? 1)%nat then "key" else "keys" in
  ("Replace " +:+ name index +:+ " with an index on {" +:+ describe kept +:+
   "} — across every query seen using it, nothing mentions its trailing " +:+ plural +:+ " " +:+
   join ", " (ticked <$> dropped) +:+ ". Same queries served, a smaller " +:+
   "index, and one fewer " +:+ plural +:+ " to maintain on every write to this collection. " +:+
   "CAUTION: this rests on the ABSENCE of evidence, so verify against anything that runs " +:+
   "too rarely to reach the workload sample — particularly a query sorting on " +:+
   join " or " (ticked <$> dropped) +:+ ", which would fall back to an " +:+
   "in-memory sort. The old index is hidden first and restored automatically if reads " +:+
   "regress, but a blocking sort over 100 MB fails outright rather than running slowly.")%string.

(** One turn of the loop over the existing indexes. *)
Definition narrow_index (recurring worth : list QueryShape) (index : IndexSpec)
    : option NarrowCandidate :=
  if isNeverDrop index || (length (keys index) <? 2)%nat then None
  else if existsb (fun key => negb (is_ordered (direction key))) (keys index) then None
  else
    let reaching := List.filter (reaches index) worth in
    if (length reaching =? 0)%nat then None
    else
      let touched := List.filter (reaches index) recurring ≫= mentionedFields in
      match last_used (fun key => includes touched (field key)) (keys index) with
      | None => None
      | Some lastUsed =>
          if (length (keys index) - 1 <=? lastUsed)%nat then None
          else
            let kept := take (S lastUsed) (keys index) ≫= ordered_key in
            let dropped := field <$> drop (S lastUsed) (keys index) in
            Some {| nc_indexName := name index; nc_keys := kept; droppedKeys := dropped;
                    observedCount := zsum count reaching;
                    nc_rationale := narrow_rationale index kept dropped |}
      end.

Definition recommendNarrowing (shapes : list QueryShape) (existing : list IndexSpec)
    (options : WorkloadOptions) : list NarrowCandidate :=
  let recurring := List.filter (fun shape => isRecurring shape options) shapes in
  let worth := List.filter (fun shape => isWorthIndexing (clients shape ?? [])) recurring in
  if (length worth =? 0)%nat then [] else omap (narrow_index recurring worth) existing.

(** ** Lemmas *)

Lemma last_used_some f ks i :
  last_used f ks = Some i ->
  (exists k, ks !! i = Some k /\ f k = true) /\ forall k, k ∈ drop (S i) ks -> f k = false.
Proof.
  revert i. induction ks as [|k ks IH]; intros i; simpl; [done|].
  destruct (last_used f ks) as [j|] eqn:E.
  - intros [= <-]. apply (IH j eq_refl).
  - destruct (f k) eqn:Ef; [|done]. intros [= <-]. split; [by exists k|]. rewrite drop_0.
    clear IH Ef k. induction ks as [|x ks IH]; simpl in *; [set_solver|].
    destruct (last_used f ks); [done|]. destruct (f x) eqn:Ex; [done|].
    intros k [->|Hk]%elem_of_cons; [done|]. by apply IH.
Qed.

Lemma ordered_keys_fields ks :
  (forall k, k ∈ ks -> is_ordered (direction k) = true) ->
  Forall2 (key_walks false) ks (ks ≫= ordered_key).
Proof.
  induction ks as [|k ks IH]; intros Hord; csimpl; [constructor|].
  assert (is_ordered (direction k) = true) as Hk by (apply Hord; left).
  unfold ordered_key at 1. destruct (direction k) eqn:Ed; try done. csimpl. constructor.
  - split; [done|]. by rewrite Ed.
  - apply IH. intros x Hx. apply Hord. by right.
Qed.

(** What narrowing takes away nothing uses: the replacement keeps a proper
    non-empty prefix of the index's keys, in order and direction; some recurring
    query that reaches the index, from an application, argues for it; and no
    recurring query that reaches the index, an interactive one included,
    mentions a key that goes.  Protected indexes are never narrowed. *)
Theorem recommendNarrowing_sound shapes existing options c :
  c ∈ recommendNarrowing shapes existing options ->
  exists index kept dropped, index ∈ existing /\ nc_indexName c = name index /\
    keys index = kept ++ dropped /\ kept <> [] /\ dropped <> [] /\
    Forall2 (key_walks false) kept (nc_keys c) /\ droppedKeys c = field <$> dropped /\
    isNeverDrop index = false /\
    (exists shape, shape ∈ shapes /\ isRecurring shape options = true /\
       isWorthIndexing (clients shape ?? []) = true /\ reaches index shape = true) /\
    forall shape f, shape ∈ shapes -> isRecurring shape options = true ->
      reaches index shape = true -> f ∈ droppedKeys c -> f ∉ mentionedFields shape.
Proof.
  unfold recommendNarrowing. set (recurring := List.filter _ shapes).
  set (worth := List.filter _ recurring). destruct (_ =? 0)%nat; [set_solver|].
  intros (index & Hin & Hc)%list_elem_of_omap. unfold narrow_index in Hc.
  destruct (isNeverDrop index) eqn:En; [done|]. destruct (Nat.ltb_spec (length (keys index)) 2); [done|].
  simpl in Hc. destruct (existsb _ (keys index)) eqn:Eo; [done|].
  destruct (Nat.eqb_spec (length (List.filter (reaches index) worth)) 0) as [|Hr]; [done|].
  destruct (last_used _ (keys index)) as [i|] eqn:Eu; [|done].
  destruct (Nat.leb_spec (length (keys index) - 1) i); [done|]. injection Hc as <-. simpl.
  apply last_used_some in Eu as [_ Hdrop].
  exists index, (take (S i) (keys index)), (drop (S i) (keys index)).
  split_and!; try done.
  - by rewrite take_drop.
  - intros E%(f_equal length). rewrite length_take in E. cbn [length] in E. lia.
  - intros E%(f_equal length). rewrite length_drop in E. cbn [length] in E. lia.
  - apply ordered_keys_fields. intros k Hk%elem_of_take.
    apply not_true_iff_false in Eo. rewrite existsb_elem in Eo.
    destruct Hk as (j & Hj & _). apply list_elem_of_lookup_2 in Hj.
    destruct (is_ordered (direction k)) eqn:E; [done|]. destruct Eo. exists k. by rewrite E.
  - destruct (List.filter (reaches index) worth) as [|shape l] eqn:E; [done|]. exists shape.
    assert (Hs : shape ∈ List.filter (reaches index) worth) by (rewrite E; left).
    apply elem_of_filter_bool in Hs as [Hs Hre]. apply elem_of_filter_bool in Hs as [Hs Hw].
    apply elem_of_filter_bool in Hs as [Hs Hrec]. done.
  - intros shape f Hs Hrec Hre (k & -> & Hk)%list_elem_of_fmap Hm.
    specialize (Hdrop k Hk). apply bool_decide_eq_false in Hdrop. apply Hdrop.
    apply list_elem_of_bind. exists shape. split; [done|]. apply elem_of_filter_bool.
    split; [|done]. by apply elem_of_filter_bool.
Qed.

(** A three-field index, and the only shape that reaches it. *)
Definition wide_index : IndexSpec :=
  {| name := "a_1_b_1_c_1";
     keys := (fun f => {| field := f; direction := Ordered Pos |}) <$> ["a"; "b"; "c"]%string;
     unique := false; ttl := false; partial := false; partialFilter := None; sparse := false;
     hidden := false; isShardKey := false; collation := None; include := None |}.
Definition narrow_shape : QueryShape :=
  {| equality := ["a"; "b"]; sort := []; range := []; collscan := false; sortedInMemory := None;
     count := 50; docsExamined := None; observedForHours := None;
     clients := Some [{| application := Some "api"; driver := Some "nodejs" |}]; constants := None;
     lookups := None |}.

Lemma recommendNarrowing_sound_witness :
  exists c, c ∈ recommendNarrowing [narrow_shape] [wide_index] {| minCount := 3; minPerWeek := 1 # 2 |} /\
    droppedKeys c = ["c"]%string /\ "c"%string ∉ mentionedFields narrow_shape.
Proof.
  destruct (recommendNarrowing [narrow_shape] [wide_index] {| minCount := 3; minPerWeek := 1 # 2 |})
    as [|c rest] eqn:E; [vm_compute in E; discriminate E|].
  assert (Hc : c ∈ recommendNarrowing [narrow_shape] [wide_index] {| minCount := 3; minPerWeek := 1 # 2 |})
    by (rewrite E; left).
  assert (Hd : droppedKeys c = ["c"]%string) by (vm_compute in E; injection E as <- _; reflexivity).
  exists c. split; [left|]. split; [exact Hd|].
  destruct (recommendNarrowing_sound _ _ _ c Hc) as (index & kept & dropped & Hi & _ & _ & _ & _ & _ & _ & _ & _ & Hf).
  apply list_elem_of_singleton in Hi as ->.
  apply Hf; [left|reflexivity|reflexivity|rewrite Hd; left].
Defined.
