(* ===== verification/Reorder.v ===== *)
(** Re-ordering a protected index's keys, where only the direction changes.
    Models [apps/api/src/analysis/reorder.ts]. *)
From S2P Require Import Prelude EngineTypes Redundancy Recurrence Esr Creates.

Definition flip (d : SortDirection) : SortDirection :=
  if bool_decide (d = Pos) then Neg else Pos.

Record OrderingPosition := { op_position : nat; op_direction : SortDirection }.

(** The first loop: the fields seen and how many distinct ones there were. *)
Fixpoint equality_positions (seen : list string) (position : nat) (fields : list string)
    : list string * nat :=
  match fields with
  | [] => (seen, position)
  | f :: fields' =>
      if includes seen f then equality_positions seen position fields'
      else equality_positions (f :: seen) (S position) fields'
  end.

(** The second loop: one entry per sort key no earlier field claimed. *)
Fixpoint sort_positions (seen : list string) (position : nat) (keys : list SortKey)
    : list OrderingPosition :=
  match keys with
  | [] => []
  | k :: keys' =>
      if includes seen (sk_field k) then sort_positions seen position keys'
      else {| op_position := position; op_direction := sk_direction k |}
             :: sort_positions (sk_field k :: seen) (S position) keys'
  end.

Definition orderingPositions (shape : QueryShape) : list OrderingPosition :=
  let '(seen, position) := equality_positions [] 0 (equality shape) in
  sort_positions seen position (sort shape).

(** [index.keys[position]?.direction]. *)
Definition direction_at (index : IndexSpec) (want : OrderingPosition) : option IndexDirection :=
  direction <$> keys index !! op_position want.

Definition servesShapeOrder (index : IndexSpec) (shape : QueryShape) : bool :=
  let positions := orderingPositions shape in
  if (length positions =? 0)%nat then true
  else if existsb (fun want =>
            match direction_at index want with Some (Ordered _) => false | _ => true end) positions
  then false
  else
    let same := forallb (fun want =>
      bool_decide (direction_at index want = Some (Ordered (op_direction want)))) positions in
    let inverted := forallb (fun want =>
      bool_decide (direction_at index want = Some (Ordered (negate (op_direction want))))) positions in
    same || inverted.

Definition describe_directions (keys : list SortKey) : string :=
  join ", " ((fun key => sk_field key +:+ ": " +:+ direction_text (sk_direction key))%string <$> keys).

Definition isReorderable (index : IndexSpec) : bool :=
  if String.eqb (name index) "_id_" then false
  else if isShardKey index then false
  else if (length (keys index) <? 2)%nat then false
  else if ttl index then false
  else if existsb (fun key => negb (is_ordered (direction key))) (keys index) then false
  else isNeverDrop index.

Record ReorderCandidate := {
  ro_indexName : string;
  ro_keys : list SortKey;
  ro_spec : IndexSpec;
  ro_count : Z;
  ro_rationale : string;
  ro_sourceShapes : list QueryShape;
}.

(** The [build] closure: the shape's directions, or every one flipped, at the
    ordering positions; the index's own elsewhere. *)
Definition build_directions (index : IndexSpec) (positions : list OrderingPosition) (invert : bool)
    : list SortKey :=
  imap (fun i key =>
    {| sk_field := field key;
       sk_direction :=
         match List.find (fun want => (op_position want =? i)%nat) positions with
         | None => if bool_decide (direction key = Ordered Neg) then Neg else Pos
         | Some want => if invert then flip (op_direction want) else op_direction want
         end |}) (keys index).

Definition flips (index : IndexSpec) (ks : list SortKey) : nat :=
  foldr Nat.add 0%nat (imap (fun i key =>
    if bool_decide (direction <$> keys index !! i = Some (Ordered (sk_direction key)))
    then 0%nat else 1%nat) ks).

Definition targetDirections (index : IndexSpec) (shape : QueryShape) : list SortKey :=
  let positions := orderingPositions shape in
  let straight := build_directions index positions false in
  let reversed := build_directions index positions true in
  if (flips index reversed <? flips index straight)%nat then reversed else straight.

(** [{ ...index, keys }]. *)
Definition with_keys (index : IndexSpec) (ks : list SortKey) : IndexSpec :=
  {| name := name index;
     keys := (fun k => {| field := sk_field k; direction := Ordered (sk_direction k) |}) <$> ks;
     unique := unique index; ttl := ttl index; partial := partial index;
     partialFilter := partialFilter index; sparse := sparse index; hidden := hidden index;
     isShardKey := isShardKey index; collation := collation index; include := include index |}.

Definition reorder_rationale (index : IndexSpec) (count : Z) (ks : list SortKey) : string :=
  (name index +:+ " covers these fields but not in an order that serves the sort, so the " +:+
   "server orders the results in memory (seen " +:+ show count +:+ "×). Rebuild it as {" +:+
   describe_directions ks +:+ "} — the SAME KEYS in the same order, with the directions the query " +:+
   "needs. This index is unique, and the uniqueness is preserved: a unique index " +:+
   "constrains its key SET, not its key directions, so both patterns enforce exactly the " +:+
   "same rule. The replacement is built FIRST and the original is only retired once it " +:+
   "has survived its post-build watch, so there is no moment when the constraint is not " +:+
   "being enforced by one of them. Every other option — unique, the partial filter, " +:+
   "sparse, the collation — is carried over unchanged.")%string.

(** The busiest first: [sort((a, b) => b.count - a.count)]. *)
Definition busier (a b : QueryShape) : bool := count b <=? count a.

(** The shapes an index is the natural answer to. *)
Definition covered_by (recurring : list QueryShape) (index : IndexSpec) : list QueryShape :=
  List.filter (fun shape => equalFields (sk_field <$> esrKeys shape) (fieldsOf index)) recurring.

(** The ones it answers with an in-memory sort. *)
Definition blocked_by (recurring : list QueryShape) (index : IndexSpec) : list QueryShape :=
  List.filter (fun shape =>
    bool_decide (sortedInMemory shape = Some true) && negb (servesShapeOrder index shape))
    (covered_by recurring index).

(** One turn of the loop over the existing indexes. *)
Definition reorder_index (recurring : list QueryShape) (hinted : list string) (index : IndexSpec)
    : option ReorderCandidate :=
  if negb (isReorderable index) then None
  else if includes hinted (name index) then None
  else
    let covered := covered_by recurring index in
    let blocked := blocked_by recurring index in
    match stable_sort busier blocked with
    | [] => None
    | driver :: _ =>
        let ks := targetDirections index driver in
        let proposed := with_keys index ks in
        let wouldBreak := List.filter (fun shape =>
          servesShapeOrder index shape && negb (servesShapeOrder proposed shape)) covered in
        if (0 <? length wouldBreak)%nat then None
        else
          let count := zsum count blocked in
          Some {| ro_indexName := name index; ro_keys := ks; ro_spec := index; ro_count := count;
                  ro_rationale := reorder_rationale index count ks; ro_sourceShapes := blocked |}
    end.

Definition recommendReorder (shapes : list QueryShape) (existing : list IndexSpec)
    (options : WorkloadOptions) (hinted : list string) : list ReorderCandidate :=
  omap (reorder_index (List.filter (fun shape => isRecurring shape options) shapes) hinted) existing.

(** ** The ordering positions *)

Lemma flip_negate d : flip d = negate d.
Proof. by destruct d. Qed.

Lemma equality_positions_spec seen n fields :
  exists seen', equality_positions seen n fields =
    (seen', n + length (first_keys seen (ascending <$> fields)))%nat /\
    forall f, f ∈ seen' <-> f ∈ seen \/ f ∈ fields.
Proof.
  revert seen n. induction fields as [|f fields IH]; intros seen n; csimpl.
  { exists seen. split; [f_equal; lia|set_solver]. }
  destruct (includes seen f) eqn:E.
  - destruct (IH seen n) as (seen' & -> & Hs). exists seen'. split; [done|].
    apply includes_spec in E. set_solver.
  - destruct (IH (f :: seen) (S n)) as (seen' & -> & Hs). exists seen'.
    split; [f_equal; simpl; lia|set_solver].
Qed.

Lemma sort_positions_imap seen n ks :
  sort_positions seen n ks =
  imap (fun i k => {| op_position := n + i; op_direction := sk_direction k |}) (first_keys seen ks).
Proof.
  revert seen n. induction ks as [|k ks IH]; intros seen n; simpl; [done|].
  destruct (includes seen (sk_field k)); [done|]. simpl. f_equal; [f_equal; lia|].
  rewrite IH. apply imap_ext. intros i x _. simpl. f_equal. lia.
Qed.

Lemma sort_positions_equiv seen seen' n ks :
  (forall f, f ∈ seen <-> f ∈ seen') -> sort_positions seen n ks = sort_positions seen' n ks.
Proof. intros He. by rewrite !sort_positions_imap, (first_keys_equiv seen seen'). Qed.

(** The positions the code walks to are those of [esrKeys]' sort block. *)
Lemma orderingPositions_esr s :
  orderingPositions s =
  imap (fun i k => {| op_position := length (esr_equality s) + i; op_direction := sk_direction k |})
    (esr_sort s).
Proof.
  unfold orderingPositions. destruct (equality_positions_spec [] 0 (equality s)) as (seen & -> & Hs).
  rewrite (sort_positions_equiv seen (equality s)) by set_solver.
  rewrite sort_positions_imap. done.
Qed.

Definition positions_from (n : nat) (ks : list SortKey) : list OrderingPosition :=
  imap (fun i k => {| op_position := n + i; op_direction := sk_direction k |}) ks.

Lemma positions_from_cons n k ks :
  positions_from n (k :: ks) =
  {| op_position := n; op_direction := sk_direction k |} :: positions_from (S n) ks.
Proof.
  unfold positions_from. simpl. f_equal; [f_equal; lia|]. apply imap_ext.
  intros i x _. simpl. f_equal. lia.
Qed.

Lemma positions_from_elem n ks want :
  want ∈ positions_from n ks ->
  (n <= op_position want < n + length ks)%nat /\
  List.find (fun w => (op_position w =? op_position want)%nat) (positions_from n ks) = Some want.
Proof.
  revert n. induction ks as [|k ks IH]; intros n Hw; [by apply not_elem_of_nil in Hw|].
  rewrite positions_from_cons in *. simpl.
  apply elem_of_cons in Hw as [->|Hw]; simpl; [rewrite Nat.eqb_refl; split; [lia|done]|].
  apply IH in Hw as [Hl Hf]. split; [lia|].
  destruct (Nat.eqb_spec n (op_position want)); [lia|done].
Qed.

Lemma orderingPositions_elem s want :
  want ∈ orderingPositions s ->
  (op_position want < length (esrKeys s))%nat /\
  List.find (fun w => (op_position w =? op_position want)%nat) (orderingPositions s) = Some want.
Proof.
  rewrite orderingPositions_esr, esrKeys_decompose, !length_app.
  fold (positions_from (length (esr_equality s)) (esr_sort s)).
  intros [Hl Hf]%positions_from_elem. split; [lia|done].
Qed.

Lemma build_directions_at index positions invert i key :
  keys index !! i = Some key ->
  direction <$> keys (with_keys index (build_directions index positions invert)) !! i =
  Some (Ordered
    match List.find (fun want => (op_position want =? i)%nat) positions with
    | None => if bool_decide (direction key = Ordered Neg) then Neg else Pos
    | Some want => if invert then flip (op_direction want) else op_direction want
    end).
Proof.
  intros Hi. simpl. unfold build_directions. rewrite list_lookup_fmap, list_lookup_imap, Hi. done.
Qed.

Lemma targetDirections_serve index shape :
  sk_field <$> esrKeys shape = fieldsOf index ->
  servesShapeOrder (with_keys index (targetDirections index shape)) shape = true.
Proof.
  intros Hf. assert (Hlen : length (esrKeys shape) = length (keys index)).
  { by rewrite <- (length_fmap sk_field), Hf; unfold fieldsOf; rewrite length_fmap. }
  assert (exists invert, targetDirections index shape =
    build_directions index (orderingPositions shape) invert) as [invert ->]
    by (unfold targetDirections; destruct (_ <? _)%nat; eauto).
  assert (Hat : forall want, want ∈ orderingPositions shape ->
    direction_at (with_keys index (build_directions index (orderingPositions shape) invert)) want =
    Some (Ordered (if invert then negate (op_direction want) else op_direction want))).
  { intros want Hw. apply orderingPositions_elem in Hw as [Hl Hfind]. unfold direction_at.
    destruct (lookup_lt_is_Some_2 (keys index) (op_position want)) as [key Hk]; [lia|].
    rewrite (build_directions_at _ _ _ _ key Hk), Hfind. by rewrite flip_negate. }
  unfold servesShapeOrder. destruct (_ =? 0)%nat; [done|]. destruct (existsb _ _) eqn:E.
  { apply existsb_elem in E as (want & Hw & Hd). by rewrite (Hat want Hw) in Hd. }
  apply orb_true_iff. destruct invert; [right|left]; apply forallb_elem; intros want Hw;
    rewrite (Hat want Hw); by apply bool_decide_eq_true.
Qed.

Lemma isReorderable_spec index :
  isReorderable index = true ->
  unique index = true /\ ttl index = false /\ isShardKey index = false /\ name index <> "_id_" /\
  (2 <= length (keys index))%nat /\
  forall k, k ∈ keys index -> is_ordered (direction k) = true.
Proof.
  unfold isReorderable, isNeverDrop. destruct (String.eqb_spec (name index) "_id_"); [done|].
  destruct (isShardKey index); [done|].
  destruct (Nat.ltb_spec (length (keys index)) 2); [done|]. destruct (ttl index); [done|].
  destruct (existsb _ (keys index)) eqn:E; [done|].
  assert (Hord : forall k, k ∈ keys index -> is_ordered (direction k) = true).
  { intros k Hk. destruct (is_ordered (direction k)) eqn:Ek; [done|].
    apply not_true_iff_false in E. destruct E. apply existsb_elem. exists k. by rewrite Ek. }
  rewrite hideBreaksQueries_ordered by (by apply forallb_elem).
  destruct (unique index); [|done]. intros _. split_and!; done || lia.
Qed.

Lemma targetDirections_fields index shape : sk_field <$> targetDirections index shape = fieldsOf index.
Proof.
  unfold targetDirections. destruct (_ <? _)%nat; unfold build_directions, fieldsOf;
    rewrite fmap_imap; apply list_eq; intros i; rewrite list_lookup_imap, list_lookup_fmap;
    by destruct (keys index !! i).
Qed.

Lemma stable_sort_head {A} (le : A -> A -> bool) l x rest :
  stable_sort le l = x :: rest -> x ∈ l.
Proof. intros E. rewrite <- (elem_of_stable_sort le), E. left. Qed.

(** A candidate is the original's fields in their order. *)
Lemma recommendReorder_fields shapes existing options hinted c :
  c ∈ recommendReorder shapes existing options hinted ->
  ro_indexName c = name (ro_spec c) /\ sk_field <$> ro_keys c = fieldsOf (ro_spec c).
Proof.
  intros (index & Hin & Hc)%list_elem_of_omap. unfold reorder_index in Hc.
  destruct (isReorderable index); [|done]. destruct (includes hinted _); [done|]. simpl in Hc.
  destruct (stable_sort busier _) as [|driver rest]; [done|].
  destruct (0 <? _)%nat; [done|]. injection Hc as <-. simpl. split; [done|]. apply targetDirections_fields.
Qed.

(** A re-order is safe: it touches only a compound unique index that no
    query hints, keeps the same fields in the same order and every other
    option, so the constraint stays the one the index enforces; it serves the
    busiest query that was sorted in memory, and every recurring query on these
    fields whose order the index serves today is still served. *)
Theorem recommendReorder_sound shapes existing options hinted c :
  c ∈ recommendReorder shapes existing options hinted ->
  exists index, index ∈ existing /\ ro_spec c = index /\ ro_indexName c = name index /\
    unique index = true /\ (2 <= length (keys index))%nat /\ name index ∉ hinted /\
    sk_field <$> ro_keys c = fieldsOf index /\
    (exists driver, driver ∈ ro_sourceShapes c /\
       (forall other, other ∈ ro_sourceShapes c -> count other <= count driver) /\
       servesShapeOrder index driver = false /\
       servesShapeOrder (with_keys index (ro_keys c)) driver = true) /\
    forall shape, shape ∈ shapes -> isRecurring shape options = true ->
      sk_field <$> esrKeys shape = fieldsOf index -> servesShapeOrder index shape = true ->
      servesShapeOrder (with_keys index (ro_keys c)) shape = true.
Proof.
  intros (index & Hin & Hc)%list_elem_of_omap. unfold reorder_index in Hc.
  destruct (isReorderable index) eqn:Er; [|done]. destruct (includes hinted _) eqn:Eh; [done|].
  simpl in Hc. apply bool_decide_eq_false in Eh.
  destruct (stable_sort busier _) as [|driver rest] eqn:Es; [done|].
  destruct (0 <? _)%nat eqn:Ew; [done|]. injection Hc as <-. simpl.
  apply isReorderable_spec in Er as (Hu & _ & _ & _ & Hl & _).
  pose proof (stable_sort_head _ _ _ _ Es) as Hd.
  apply elem_of_filter_bool in Hd as Hd'. destruct Hd' as [Hcov Hb]. bools.
  apply elem_of_filter_bool in Hcov as [_ Hf%equalFields_spec].
  exists index. split_and!; try done.
  - apply targetDirections_fields.
  - exists driver. split_and!; try done; [|naive_solver|by apply targetDirections_serve].
    intros other Ho. rewrite <- (elem_of_stable_sort busier), Es in Ho.
    assert (Hs : StronglySorted (fun x y => busier x y = true) (driver :: rest)).
    { rewrite <- Es. apply stable_sort_sorted; unfold busier; intros; lia. }
    inv Hs. apply elem_of_cons in Ho as [->|Ho]; [lia|].
    rewrite list.Forall_forall in H2. specialize (H2 other Ho). unfold busier in H2. lia.
  - intros shape Hs Hrec Hsf Hserved. apply Nat.ltb_ge in Ew.
    destruct (servesShapeOrder (with_keys _ _) shape) eqn:E; [done|].
    assert (Hbr : shape ∈ List.filter (fun shape => servesShapeOrder index shape &&
        negb (servesShapeOrder (with_keys index (targetDirections index driver)) shape))
        (covered_by (List.filter (fun shape => isRecurring shape options) shapes) index)).
    { apply elem_of_filter_bool. rewrite Hserved, E. split; [|done].
      apply elem_of_filter_bool. split; [by apply elem_of_filter_bool|]. by apply equalFields_spec. }
    destruct (List.filter _ (covered_by _ _)); [set_solver|]. simpl in Ew. lia.
Qed.

(** A unique index read one way, and a shape sorted the mixed way. *)
Definition mixed_sort : QueryShape :=
  {| equality := [];
     sort := [{| sk_field := "room"; sk_direction := Pos |}; {| sk_field := "at"; sk_direction := Neg |}];
     range := []; collscan := false; sortedInMemory := Some true; count := 10; docsExamined := None;
     observedForHours := None; clients := None; constants := None; lookups := None |}.
Definition booking : IndexSpec :=
  {| name := "room_1_at_1";
     keys := [{| field := "room"; direction := Ordered Pos |}; {| field := "at"; direction := Ordered Pos |}];
     unique := true; ttl := false; partial := false; partialFilter := None; sparse := false;
     hidden := false; isShardKey := false; collation := None; include := Some ["guest"] |}.
Definition three_times : WorkloadOptions := {| minCount := 3; minPerWeek := 1 # 2 |}.

Lemma recommendReorder_sound_witness :
  exists c, c ∈ recommendReorder [mixed_sort] [booking] three_times [] /\
    unique (ro_spec c) = true /\ sk_field <$> ro_keys c = ["room"; "at"]%string.
Proof.
  destruct (recommendReorder [mixed_sort] [booking] three_times []) as [|c rest] eqn:E;
    [vm_compute in E; discriminate E|].
  assert (Hc : c ∈ recommendReorder [mixed_sort] [booking] three_times []) by (rewrite E; left).
  exists c. split; [left|].
  destruct (recommendReorder_sound _ _ _ _ c Hc) as (index & Hi & -> & _ & Hu & _ & _ & Hf & _).
  apply list_elem_of_singleton in Hi as ->. split; [exact Hu|exact Hf].
Defined.
