(* ===== verification/Latency.v ===== *)
(** Cumulative latency readings, and what the dashboard draws from them.
    Models [apps/api/src/analysis/latency.ts]. *)
From S2P Require Import Prelude Runs.

Record LatencyReading := {
  lr_run : Run;
  readOps : Z;
  readLatencyMicros : Z;
  writeOps : Z;
  writeLatencyMicros : Z;
}.
#[export] Instance LatencyReading_HasRun : HasRun LatencyReading := lr_run.

Record LatencyTrend := {
  samples : Z;
  currentReadMicros : option Q;
  baselineReadMicros : option Q;
  readDeltaPct : option Q;
  currentWriteMicros : option Q;
  baselineWriteMicros : option Q;
  writeDeltaPct : option Q;
}.

Definition windowAvg (deltaMicros deltaOps : Z) : option Q :=
  if deltaOps <=? 0 then None
  else if deltaMicros <? 0 then None
  else Some (inject_Z deltaMicros / inject_Z deltaOps)%Q.

Record LatencyPoint := {
  lp_capturedAt : stamp;
  readMicros : option Q;
  writeMicros : option Q;
}.

(** A metric's averages over two consecutive readings. *)
Definition read_window (prev next : LatencyReading) : option Q :=
  windowAvg (readLatencyMicros next - readLatencyMicros prev) (readOps next - readOps prev).
Definition write_window (prev next : LatencyReading) : option Q :=
  windowAvg (writeLatencyMicros next - writeLatencyMicros prev) (writeOps next - writeOps prev).

Fixpoint points_walk (sorted : list LatencyReading) : list LatencyPoint :=
  match sorted with
  | [] => []
  | reading :: rest =>
      (if start_ms reading <? end_ms reading
       then [{| lp_capturedAt := toISOString (end_ms reading); readMicros := None;
                writeMicros := None |}]
       else []) ++
      match rest with
      | [] => []
      | next :: _ =>
          {| lp_capturedAt := capturedAt (run_of next); readMicros := read_window reading next;
             writeMicros := write_window reading next |} :: points_walk rest
      end
  end.

Definition latencyPoints (readings : list LatencyReading) : list LatencyPoint :=
  points_walk (sortedRuns readings).

Inductive LatencyGap := AWAITING_SECOND_COLLECT | NO_OPS_RECORDED | COUNTERS_RESET.

Record LatencyGaps := { gap_read : option LatencyGap; gap_write : option LatencyGap }.

(** The loop of [gapFor]. *)
Fixpoint gap_walk (ops micros : LatencyReading -> Z) (reset : bool) (sorted : list LatencyReading)
    : option LatencyGap :=
  match sorted with
  | prev :: ((next :: _) as rest) =>
      let deltaOps := ops next - ops prev in
      let deltaMicros := micros next - micros prev in
      if (0 <? deltaOps) && (0 <=? deltaMicros) then None
      else gap_walk ops micros (reset || ((deltaOps <? 0) || (deltaMicros <? 0))) rest
  | _ => Some (if reset then COUNTERS_RESET else NO_OPS_RECORDED)
  end.

Definition gapFor (sorted : list LatencyReading) (ops micros : LatencyReading -> Z)
    : option LatencyGap :=
  if (length sorted <? 2)%nat then Some AWAITING_SECOND_COLLECT
  else gap_walk ops micros false sorted.

Definition latencyGaps (readings : list LatencyReading) : LatencyGaps :=
  let sorted := sortedRuns readings in
  {| gap_read := gapFor sorted readOps readLatencyMicros;
     gap_write := gapFor sorted writeOps writeLatencyMicros |}.

Definition deltaPct (baseline current : option Q) : option Q :=
  match baseline, current with
  | Some b, Some c => if Qle_bool b 0 then None else Some ((c - b) / b * 100)%Q
  | _, _ => None
  end.

Record MetricEnds := { baseline : option Q; current : option Q }.

Definition trendFrom (samples : Z) (read write : MetricEnds) : LatencyTrend :=
  {| samples := samples;
     currentReadMicros := current read;
     baselineReadMicros := baseline read;
     readDeltaPct := deltaPct (baseline read) (current read);
     currentWriteMicros := current write;
     baselineWriteMicros := baseline write;
     writeDeltaPct := deltaPct (baseline write) (current write) |}.

(** The measurable windows of a metric, in order. *)
Fixpoint windows_of (window : LatencyReading -> LatencyReading -> option Q)
    (sorted : list LatencyReading) : list Q :=
  match sorted with
  | prev :: ((next :: _) as rest) =>
      match window prev next with
      | Some r => r :: windows_of window rest
      | None => windows_of window rest
      end
  | _ => []
  end.

Definition summarizeLatency (readings : list LatencyReading) : LatencyTrend :=
  let sorted := sortedRuns readings in
  let reads := windows_of read_window sorted in
  let writes := windows_of write_window sorted in
  let baselineRead := reads !! 0%nat in
  let currentRead := reads !! (length reads - 1)%nat in
  let baselineWrite := writes !! 0%nat in
  let currentWrite := writes !! (length writes - 1)%nat in
  {| samples := totalObservations sorted;
     currentReadMicros := currentRead;
     baselineReadMicros := baselineRead;
     readDeltaPct := deltaPct baselineRead currentRead;
     currentWriteMicros := currentWrite;
     baselineWriteMicros := baselineWrite;
     writeDeltaPct := deltaPct baselineWrite currentWrite |}.

Record ReadsWindow := { rw_ops : Z; avgMicros : Q }.

Record ReadsTally := { beforeOps : Z; beforeMicros : Z; afterOps : Z; afterMicros : Z }.

(** One interval of [readsAround]'s loop. *)
Definition tally_interval (atMs windowMs : Z) (t : ReadsTally) (prev next : LatencyReading)
    : ReadsTally :=
  let ops := readOps next - readOps prev in
  let micros := readLatencyMicros next - readLatencyMicros prev in
  if negb (is_some (windowAvg micros ops)) then t
  else
    let from := end_ms prev in
    let to := start_ms next in
    if (atMs - windowMs <=? from) && (to <=? atMs) then
      {| beforeOps := beforeOps t + ops; beforeMicros := beforeMicros t + micros;
         afterOps := afterOps t; afterMicros := afterMicros t |}
    else if (atMs <=? from) && (to <=? atMs + windowMs) then
      {| beforeOps := beforeOps t; beforeMicros := beforeMicros t;
         afterOps := afterOps t + ops; afterMicros := afterMicros t + micros |}
    else t.

Fixpoint tally_walk (atMs windowMs : Z) (t : ReadsTally) (sorted : list LatencyReading) : ReadsTally :=
  match sorted with
  | prev :: ((next :: _) as rest) =>
      tally_walk atMs windowMs (tally_interval atMs windowMs t prev next) rest
  | _ => t
  end.

Definition reads_window (ops micros : Z) : option ReadsWindow :=
  if 0 <? ops then Some {| rw_ops := ops; avgMicros := inject_Z micros / inject_Z ops |} else None.

Record ReadsAround := { before : option ReadsWindow; after : option ReadsWindow; afterMs : Z }.

Definition readsAround (readings : list LatencyReading) (atMs windowMs nowMs : Z) : ReadsAround :=
  let t := tally_walk atMs windowMs
             {| beforeOps := 0; beforeMicros := 0; afterOps := 0; afterMicros := 0 |}
             (sortedRuns readings) in
  {| before := reads_window (beforeOps t) (beforeMicros t);
     after := reads_window (afterOps t) (afterMicros t);
     afterMs := Z.max 0 (Z.min windowMs (nowMs - atMs)) |}.

(** ** Which collections the charts are sent *)

Record ChartEvidence := {
  ce_database : string;
  ce_collection : string;
  readPoints : Z;
  writePoints : Z;
  points : Z;
}.

(** The [Pick] of three counts, on an evidence row of the caller's namespace. *)
Definition chartEvidence (database collection : string) (ps : list LatencyPoint) : ChartEvidence :=
  {| ce_database := database; ce_collection := collection;
     readPoints := Z.of_nat (length (List.filter (fun p => is_some (readMicros p)) ps));
     writePoints := Z.of_nat (length (List.filter (fun p => is_some (writeMicros p)) ps));
     points := Z.of_nat (length ps) |}.

Definition namespaceOf (evidence : ChartEvidence) : string :=
  (ce_database evidence +:+ "." +:+ ce_collection evidence)%string.

(** Descending by a count, then by namespace:
    [f(b) - f(a) || namespaceOf(a).localeCompare(namespaceOf(b))]. *)
Definition more_first `{Locale} (f : ChartEvidence -> Z) (a b : ChartEvidence) : bool :=
  if f a =? f b then localeLe (namespaceOf a) (namespaceOf b) else f b <? f a.

Definition topByMetric `{Locale} (evidence : list ChartEvidence) (drawable : ChartEvidence -> Z)
    (limit : nat) : list ChartEvidence :=
  take limit (stable_sort (more_first drawable) (List.filter (fun e => 0 <? drawable e) evidence)).

(** [Map.prototype.set] on a map kept in insertion order. *)
Fixpoint map_set (entry : ChartEvidence) (chosen : list ChartEvidence) : list ChartEvidence :=
  match chosen with
  | [] => [entry]
  | e :: chosen' =>
      if String.eqb (namespaceOf e) (namespaceOf entry) then entry :: chosen'
      else e :: map_set entry chosen'
  end.

(** The last loop: add until [limit] are chosen. *)
Fixpoint top_up (limit : nat) (chosen byEvidence : list ChartEvidence) : list ChartEvidence :=
  match byEvidence with
  | [] => chosen
  | entry :: rest =>
      if (limit <=? length chosen)%nat then chosen else top_up limit (map_set entry chosen) rest
  end.

Definition chartableNamespaces `{Locale} (evidence : list ChartEvidence) (limit : nat)
    : list ChartEvidence :=
  let perMetric := Nat.max 1 (limit / 2) in
  let chosen := fold_left (fun c e => map_set e c) (topByMetric evidence readPoints perMetric) [] in
  let chosen := fold_left (fun c e => map_set e c) (topByMetric evidence writePoints perMetric) chosen in
  top_up limit chosen (stable_sort (more_first points) evidence).

(** ** Lemmas *)

Lemma windowAvg_some m o q :
  windowAvg m o = Some q <-> 0 < o /\ 0 <= m /\ q = (inject_Z m / inject_Z o)%Q.
Proof.
  unfold windowAvg. destruct (Z.leb_spec o 0); [naive_solver lia|].
  destruct (Z.ltb_spec m 0); [naive_solver lia|]. naive_solver.
Qed.

Lemma windowAvg_none m o : windowAvg m o = None <-> ~ (0 < o /\ 0 <= m).
Proof.
  unfold windowAvg. destruct (Z.leb_spec o 0); [naive_solver lia|].
  destruct (Z.ltb_spec m 0); naive_solver lia.
Qed.

Lemma windowAvg_nonneg m o q : windowAvg m o = Some q -> (0 <= q)%Q.
Proof.
  intros (Ho & Hm & ->)%windowAvg_some. apply Qle_shift_div_l.
  - change 0%Q with (inject_Z 0). by rewrite <- Zlt_Qlt.
  - rewrite Qmult_0_l. change 0%Q with (inject_Z 0). by rewrite <- Zle_Qle.
Qed.

Lemma windows_of_cons window r next rest :
  windows_of window (r :: next :: rest) =
  match window r next with
  | Some q => q :: windows_of window (next :: rest)
  | None => windows_of window (next :: rest)
  end.
Proof. done. Qed.

Lemma omap_cons' {A B} (f : A -> option B) x l :
  omap f (x :: l) = match f x with Some y => y :: omap f l | None => omap f l end.
Proof. done. Qed.

(** The drawable points of either metric are its measurable windows. *)
Lemma points_windows (metric : LatencyPoint -> option Q) window sorted :
  (forall p, readMicros p = None -> writeMicros p = None -> metric p = None) ->
  (forall prev next at', metric {| lp_capturedAt := at'; readMicros := read_window prev next;
     writeMicros := write_window prev next |} = window prev next) ->
  omap metric (points_walk sorted) = windows_of window sorted.
Proof.
  intros Hnone Hw. induction sorted as [|r rest IH]; [done|].
  cbn [points_walk]. rewrite omap_app.
  replace (omap metric (if _ <? _ then _ else _)) with (@nil Q).
  2: { destruct (_ <? _); [|done]. simpl. by rewrite Hnone. }
  destruct rest as [|next rest]; [done|]. rewrite app_nil_l.
  rewrite windows_of_cons, <- IH, omap_cons', Hw. done.
Qed.

Lemma gap_walk_none ops micros reset sorted :
  gap_walk ops micros reset sorted = None <->
  windows_of (fun prev next => windowAvg (micros next - micros prev) (ops next - ops prev)) sorted <> [].
Proof.
  revert reset. induction sorted as [|prev rest IH]; intros reset; [naive_solver|].
  destruct rest as [|next rest]; [naive_solver|].
  rewrite windows_of_cons. change (gap_walk ops micros reset (prev :: next :: rest)) with
    (if (0 <? ops next - ops prev) && (0 <=? micros next - micros prev) then None
     else gap_walk ops micros (reset || ((ops next - ops prev <? 0) || (micros next - micros prev <? 0)))
            (next :: rest)).
  destruct (windowAvg _ _) eqn:E.
  - apply windowAvg_some in E as (? & ? & _). destruct (_ && _) eqn:Eb; [naive_solver|]. lia.
  - apply windowAvg_none in E. destruct (_ && _) eqn:Eb; [lia|]. apply IH.
Qed.

Lemma gapFor_none ops micros sorted :
  gapFor sorted ops micros = None <->
  windows_of (fun prev next => windowAvg (micros next - micros prev) (ops next - ops prev)) sorted <> [].
Proof.
  unfold gapFor. destruct (Nat.ltb_spec (length sorted) 2); [|apply gap_walk_none].
  destruct sorted as [|? [|]]; simpl in *; try naive_solver. lia.
Qed.

(** The reason given for an empty chart is true to the chart: a metric has
    a gap to explain exactly when the series has no drawable point of it. *)
Theorem latencyGaps_explain readings :
  (gap_read (latencyGaps readings) = None <->
     exists p, p ∈ latencyPoints readings /\ is_some (readMicros p) = true) /\
  (gap_write (latencyGaps readings) = None <->
     exists p, p ∈ latencyPoints readings /\ is_some (writeMicros p) = true).
Proof.
  assert (Hgen : forall (metric : LatencyPoint -> option Q) l,
    omap metric l <> [] <-> exists p, p ∈ l /\ is_some (metric p) = true).
  { intros metric l. induction l as [|p l IH]; simpl; [split; [done|set_solver]|].
    destruct (metric p) as [q|] eqn:E.
    - split; [|done]. intros _. exists p. rewrite E. set_solver.
    - rewrite IH. split; intros (p' & Hp & Hs); exists p'; [set_solver|].
      apply elem_of_cons in Hp as [->|]; [by rewrite E in Hs|done]. }
  unfold latencyGaps, latencyPoints. cbn [gap_read gap_write]. rewrite !gapFor_none, <- !Hgen.
  rewrite (points_windows readMicros read_window), (points_windows writeMicros write_window)
    by (done || naive_solver). done.
Qed.

(** The trend is the series' own ends: what [summarizeLatency] reports as
    before and now are the first and the last drawable point of the chart, no
    reading is negative, and [trendFrom] computes the same trend from those ends. *)
Theorem summarizeLatency_ends readings :
  let reads := omap readMicros (latencyPoints readings) in
  let writes := omap writeMicros (latencyPoints readings) in
  summarizeLatency readings =
    trendFrom (totalObservations (sortedRuns readings))
      {| baseline := head reads; current := last reads |}
      {| baseline := head writes; current := last writes |} /\
  (forall q, q ∈ reads \/ q ∈ writes -> 0 <= q)%Q.
Proof.
  unfold latencyPoints.
  rewrite (points_windows readMicros read_window), (points_windows writeMicros write_window)
    by (done || naive_solver).
  assert (Hn : forall window, (forall p n q, window p n = Some q -> 0 <= q)%Q ->
    forall l q, q ∈ windows_of window l -> (0 <= q)%Q).
  { intros window Hw l q. induction l as [|r rest IH]; simpl; [set_solver|].
    destruct rest as [|next rest]; [set_solver|]. destruct (window r next) as [x|] eqn:E; [|done].
    intros [->|?]%elem_of_cons; eauto. }
  cbv zeta. split.
  - unfold summarizeLatency, trendFrom. cbn [baseline current].
    rewrite <- !head_lookup, !last_lookup, <- !Nat.sub_1_r. done.
  - intros q [Hq|Hq]; eapply Hn; try exact Hq; intros p n x Hx;
      unfold read_window, write_window in Hx; by apply windowAvg_nonneg in Hx.
Qed.

(** ** The chart ranking *)

Abbreviation names := (fmap namespaceOf).

Lemma map_set_names e c :
  names (map_set e c) =
  if bool_decide (namespaceOf e ∈ names c) then names c else names c ++ [namespaceOf e].
Proof.
  induction c as [|x c IH]; simpl; [done|].
  destruct (String.eqb_spec (namespaceOf x) (namespaceOf e)) as [E|E]; csimpl.
  - rewrite bool_decide_eq_true_2 by (rewrite E; left). by rewrite E.
  - rewrite IH. do 2 case_bool_decide; set_solver.
Qed.

Lemma map_set_elem e c x : x ∈ map_set e c -> x = e \/ x ∈ c.
Proof.
  induction c as [|y c IH]; simpl; [set_solver|].
  destruct (String.eqb _ _); set_solver.
Qed.

Section ranking.
Context `{Locale} (evidence : list ChartEvidence) (Hnd : NoDup (names evidence)).

(** A map of the evidence's own entries. *)
Definition chosen_ok (c : list ChartEvidence) : Prop := c ⊆ evidence /\ NoDup (names c).

Lemma same_name x y : x ∈ evidence -> y ∈ evidence -> namespaceOf x = namespaceOf y -> x = y.
Proof.
  intros [i Hi]%list_elem_of_lookup [j Hj]%list_elem_of_lookup E. assert (i = j) as ->; [|congruence].
  eapply NoDup_lookup; [exact Hnd|rewrite list_lookup_fmap, Hi; reflexivity|].
  rewrite list_lookup_fmap, Hj. simpl. by rewrite E.
Qed.

Lemma map_set_ok e c : e ∈ evidence -> chosen_ok c ->
  chosen_ok (map_set e c) /\ (forall x, x ∈ map_set e c <-> x = e \/ x ∈ c) /\
  (length c <= length (map_set e c) <= S (length c))%nat.
Proof.
  intros He [Hsub Hc]. split; [split|split].
  - intros x [->|Hx]%map_set_elem; auto.
  - rewrite map_set_names. case_bool_decide; [done|]. apply NoDup_app. set_solver by auto using NoDup_singleton.
  - intros x. split; [apply map_set_elem|]. intros Hx.
    assert (Hn : namespaceOf x ∈ names (map_set e c)).
    { rewrite map_set_names. case_bool_decide.
      - destruct Hx as [->|Hx]; [done|]. by apply list_elem_of_fmap_2.
      - apply elem_of_app. destruct Hx as [->|Hx]; [set_solver|]. left. by apply list_elem_of_fmap_2. }
    apply list_elem_of_fmap in Hn as (y & E & Hy). rewrite (same_name x y); try done.
    + destruct Hx as [->|]; auto.
    + apply map_set_elem in Hy as [->|]; auto.
  - rewrite <- (length_fmap namespaceOf (map_set e c)), <- (length_fmap namespaceOf c), map_set_names.
    case_bool_decide; rewrite ?length_app; simpl; lia.
Qed.

Lemma set_all_ok l c : l ⊆ evidence -> chosen_ok c ->
  let out := fold_left (fun c e => map_set e c) l c in
  chosen_ok out /\ (forall x, x ∈ out <-> x ∈ l \/ x ∈ c) /\ (length out <= length l + length c)%nat.
Proof.
  revert c. induction l as [|e l IH]; intros c Hl Hc; simpl; [set_solver by eauto with lia|].
  destruct (map_set_ok e c) as (Hok & Hel & Hlen); [set_solver|done|].
  destruct (IH (map_set e c)) as (Hok' & Hel' & Hlen'); [set_solver|done|].
  split; [done|]. split; [|lia]. intros x. rewrite Hel', Hel. set_solver.
Qed.

Lemma top_up_ok limit l c : l ⊆ evidence -> chosen_ok c -> (length c <= limit)%nat ->
  let out := top_up limit c l in
  chosen_ok out /\ (length out <= limit)%nat /\ c ⊆ out /\
  ((limit <= length out)%nat \/ l ⊆ out).
Proof.
  revert c. induction l as [|e l IH]; intros c Hl Hc Hlen; simpl.
  { split_and!; auto with lia. right. set_solver. }
  destruct (Nat.leb_spec limit (length c)); [split_and!; auto|].
  destruct (map_set_ok e c) as (Hok & Hel & Hlen'); [set_solver|done|].
  destruct (IH (map_set e c)) as (Hok' & Hlen'' & Hsub & Hfill); [set_solver|done|lia|].
  split_and!; try done; [set_solver|]. destruct Hfill as [|Hfill]; [by left|right].
  assert (e ∈ map_set e c) by (apply Hel; by left). set_solver.
Qed.

Lemma topByMetric_sub f n : topByMetric evidence f n ⊆ evidence.
Proof.
  intros x Hx. unfold topByMetric in Hx. apply elem_of_take in Hx as (i & Hi & _).
  apply list_elem_of_lookup_2, elem_of_stable_sort, elem_of_filter_bool in Hi. naive_solver.
Qed.

Lemma topByMetric_some f n e : (0 < n)%nat -> e ∈ evidence -> 0 < f e ->
  exists x, x ∈ topByMetric evidence f n /\ 0 < f x.
Proof.
  intros Hn He Hf. unfold topByMetric.
  assert (Hin : e ∈ stable_sort (more_first f) (List.filter (fun e => 0 <? f e) evidence)).
  { apply elem_of_stable_sort, elem_of_filter_bool. split; [done|]. lia. }
  destruct (stable_sort _ _) as [|x rest] eqn:E; [set_solver|]. exists x.
  destruct n as [|n]; [lia|]. simpl. split; [left|].
  assert (Hx : x ∈ stable_sort (more_first f) (List.filter (fun e => 0 <? f e) evidence))
    by (rewrite E; left).
  apply elem_of_stable_sort, elem_of_filter_bool in Hx as [_ Hx]. lia.
Qed.
End ranking.

(** The charts get as many collections as they may, of the right kind: for
    distinct namespaces and a budget of two or more, exactly the budget (or
    everything, when there is less), no namespace twice, and a metric that some
    collection can draw is drawable in what is sent, so collections that are only
    read cannot crowd out every one that is written. *)
Theorem chartableNamespaces_fair `{Locale} evidence limit :
  NoDup (namespaceOf <$> evidence) -> (2 <= limit)%nat ->
  let out := chartableNamespaces evidence limit in
  length out = Nat.min limit (length evidence) /\ out ⊆ evidence /\
  NoDup (namespaceOf <$> out) /\
  (forall e, e ∈ evidence -> 0 < readPoints e -> exists x, x ∈ out /\ 0 < readPoints x) /\
  (forall e, e ∈ evidence -> 0 < writePoints e -> exists x, x ∈ out /\ 0 < writePoints x).
Proof.
  intros Hnd Hl. unfold chartableNamespaces. cbv zeta.
  set (n := Nat.max 1 (limit / 2)).
  assert (Hn : (1 <= n /\ 2 * n <= limit)%nat).
  { unfold n. pose proof (Nat.Div0.div_mod limit 2). pose proof (Nat.mod_upper_bound limit 2). lia. }
  assert (Hlen : forall f, (length (topByMetric evidence f n) <= n)%nat)
    by (intros f; unfold topByMetric; rewrite length_take; lia).
  destruct (set_all_ok evidence Hnd (topByMetric evidence readPoints n) [])
    as (Hok1 & Hel1 & Hlen1); [apply topByMetric_sub|split; [set_solver|constructor]|].
  destruct (set_all_ok evidence Hnd (topByMetric evidence writePoints n)
    (fold_left (fun c e => map_set e c) (topByMetric evidence readPoints n) []))
    as (Hok2 & Hel2 & Hlen2); [apply topByMetric_sub|done|].
  set (chosen := fold_left _ _ (fold_left _ _ _)) in *.
  destruct (top_up_ok evidence Hnd limit (stable_sort (more_first points) evidence) chosen)
    as ([Hsub Hndo] & Hle & Hin & Hfill).
  { intros x Hx. by apply elem_of_stable_sort in Hx. }
  { done. }
  { specialize (Hlen readPoints) as Hr. specialize (Hlen writePoints) as Hw. simpl in Hlen1. lia. }
  set (out := top_up _ _ _) in *.
  assert (Hge : (length out <= length evidence)%nat).
  { rewrite <- (length_fmap namespaceOf out), <- (length_fmap namespaceOf evidence).
    apply submseteq_length, NoDup_submseteq; [done|]. intros s (x & -> & Hx)%list_elem_of_fmap.
    by apply list_elem_of_fmap_2, Hsub. }
  split_and!; try done.
  - destruct Hfill as [|Hfill]; [lia|].
    assert (length evidence <= length out)%nat; [|lia].
    rewrite <- (length_fmap namespaceOf out), <- (length_fmap namespaceOf evidence).
    apply submseteq_length, NoDup_submseteq; [done|]. intros s (x & -> & Hx)%list_elem_of_fmap.
    apply list_elem_of_fmap_2, Hfill. by apply elem_of_stable_sort.
  - intros e He Hp. destruct (topByMetric_some evidence Hnd readPoints n e) as (x & Hx & Hpx); [lia|done..|].
    exists x. split; [|done]. apply Hin, Hel2. right. apply Hel1. by left.
  - intros e He Hp. destruct (topByMetric_some evidence Hnd writePoints n e) as (x & Hx & Hpx); [lia|done..|].
    exists x. split; [|done]. apply Hin, Hel2. by left.
Qed.
