(* ===== verification/Observed.v ===== *)
(** How much of a hidden index's observe window happened, and whether it was
    slower.  Models [apps/api/src/analysis/own-outage.ts],
    [apps/api/src/analysis/observed.ts] and the ledger those outages come from
    ([recordObservation] and [ownOutages] of
    [apps/api/src/jobs/observation-ledger.ts]). *)
From S2P Require Import Prelude Runs Score Latency.

(** ** The stretches this program itself was not running *)

Definition OWN_OUTAGE_MS : Z := 2 * 3600000.

Record OwnOutage := { fromMs : Z; toMs : Z }.
Record ObservationRun := { sinceMs : Z; lastSeenMs : Z }.

Fixpoint outages_walk (sorted : list ObservationRun) : list OwnOutage :=
  match sorted with
  | previous :: ((next :: _) as rest) =>
      if OWN_OUTAGE_MS <? sinceMs next - lastSeenMs previous
      then {| fromMs := lastSeenMs previous; toMs := sinceMs next |} :: outages_walk rest
      else outages_walk rest
  | _ => []
  end.

Definition outagesBetween (runs : list ObservationRun) : list OwnOutage :=
  outages_walk (stable_sort (by_key sinceMs) runs).

Definition spansOwnOutage (outages : list OwnOutage) (startMs endMs : Z) : bool :=
  existsb (fun outage => (startMs <? toMs outage) && (fromMs outage <? endMs)) outages.

Definition overlap (startMs endMs : Z) (outage : OwnOutage) : Z :=
  Z.max 0 (Z.min endMs (toMs outage) - Z.max startMs (fromMs outage)).

Definition ownOutageMs (outages : list OwnOutage) (startMs endMs : Z) : Z :=
  zsum (overlap startMs endMs) outages.

(** The ledger's statement: [latest] is the row last seen; within an outage's
    length it is extended, past it a new row opens. *)
Definition latest_seen (runs : list ObservationRun) : option Z :=
  match runs with
  | [] => None
  | r :: rest => Some (fold_left Z.max (lastSeenMs <$> rest) (lastSeenMs r))
  end.

Fixpoint extend_latest (latest now : Z) (runs : list ObservationRun) : list ObservationRun :=
  match runs with
  | [] => []
  | r :: rest =>
      if lastSeenMs r =? latest
      then {| sinceMs := sinceMs r; lastSeenMs := Z.max (lastSeenMs r) now |} :: rest
      else r :: extend_latest latest now rest
  end.

Definition recordObservation (runs : list ObservationRun) (now : Z) : list ObservationRun :=
  let opened := runs ++ [{| sinceMs := now; lastSeenMs := now |}] in
  match latest_seen runs with
  | None => opened
  | Some latest => if now - latest <=? OWN_OUTAGE_MS then extend_latest latest now runs else opened
  end.

Definition ownOutages (runs : list ObservationRun) : list OwnOutage :=
  outagesBetween (stable_sort (by_key sinceMs) runs).

(** ** The observe window *)

Definition OBSERVE_WALLCLOCK_MULTIPLE : Z := 3.

Inductive ObservedVerdict := V_REGRESSED | V_STABLE | V_INCOMPLETE | V_NO_BASELINE.
#[export] Instance ObservedVerdict_eq_dec : EqDecision ObservedVerdict.
Proof. solve_decision. Defined.

Record ObservedWindow := { verdict : ObservedVerdict; observedMs : Z; ratio : option Q }.

Record Window := { win_startMs : Z; win_endMs : Z; win_micros : Z; win_ops : Z }.

Inductive LatencyMetric := Read | Write.

Definition metric_ops (metric : LatencyMetric) (r : LatencyReading) : Z :=
  match metric with Read => readOps r | Write => writeOps r end.
Definition metric_micros (metric : LatencyMetric) (r : LatencyReading) : Z :=
  match metric with Read => readLatencyMicros r | Write => writeLatencyMicros r end.

(** Operations and microseconds between two readings. *)
Definition deltaOf (metric : LatencyMetric) (previous next : LatencyReading) : Z * Z :=
  (metric_ops metric next - metric_ops metric previous,
   metric_micros metric next - metric_micros metric previous).

Definition window_between (metric : LatencyMetric) (previous next : LatencyReading) : list Window :=
  let '(ops, micros) := deltaOf metric previous next in
  if (ops <? 0) || (micros <? 0) then []
  else [{| win_startMs := end_ms previous; win_endMs := start_ms next; win_micros := micros;
           win_ops := ops |}].

Fixpoint windows_walk (metric : LatencyMetric) (sorted : list LatencyReading) : list Window :=
  match sorted with
  | previous :: ((next :: _) as rest) =>
      window_between metric previous next ++ windows_walk metric rest
  | _ => []
  end.

Definition windowsOf (readings : list LatencyReading) (metric : LatencyMetric) : list Window :=
  windows_walk metric (sortedRuns readings).

Definition totalOps (windows : list Window) : Z := zsum win_ops windows.

Definition averageMicrosPerOp (windows : list Window) : option Q :=
  let micros := zsum win_micros windows in
  let ops := zsum win_ops windows in
  if 0 <? ops then Some (inject_Z micros / inject_Z ops)%Q else None.

Record ObservedOptions := {
  factor : Q;
  minWindowOps : Z;
  recordedBaselineMicrosPerOp : option Q;
  opt_ownOutages : option (list OwnOutage);
}.

Definition window_length (w : Window) : Z := win_endMs w - win_startMs w.

(** The windows watched while this program was running. *)
Definition watched_windows (readings : list LatencyReading) (metric : LatencyMetric)
    (options : ObservedOptions) : list Window :=
  List.filter (fun w =>
    negb (spansOwnOutage (opt_ownOutages options ?? []) (win_startMs w) (win_endMs w)))
    (windowsOf readings metric).

Definition windows_since (fromMs : Z) (windows : list Window) : list Window :=
  List.filter (fun w => fromMs <=? win_startMs w) windows.
Definition windows_before (fromMs observeMs : Z) (windows : list Window) : list Window :=
  List.filter (fun w => (win_endMs w <=? fromMs) && (fromMs - observeMs <=? win_startMs w)) windows.

Definition observedWindow (readings : list LatencyReading) (metric : LatencyMetric)
    (fromMs observeDays : Z) (options : ObservedOptions) : ObservedWindow :=
  let windows := watched_windows readings metric options in
  let observeMs := observeDays * DAY_MS in
  let since := windows_since fromMs windows in
  let before := windows_before fromMs observeMs windows in
  let observed := zsum window_length since in
  let answer v r := {| verdict := v; observedMs := observed; ratio := r |} in
  if observed <? observeMs then answer V_INCOMPLETE None
  else if totalOps since <? minWindowOps options then answer V_STABLE None
  else
    let baseline :=
      match averageMicrosPerOp before with
      | Some b => Some b
      | None => recordedBaselineMicrosPerOp options
      end in
    match baseline with
    | None => answer V_NO_BASELINE None
    | Some b =>
        if Qle_bool b 0 then answer V_NO_BASELINE None
        else
          match averageMicrosPerOp since with
          | None => answer V_NO_BASELINE None
          | Some current =>
              let r := (current / b)%Q in
              answer (if Qltb (factor options) r then V_REGRESSED else V_STABLE) (Some r)
          end
    end.

Definition outstayedWindow (hiddenAtMs observeDays nowMs ownOutageMs : Z) : bool :=
  observeDays * OBSERVE_WALLCLOCK_MULTIPLE * DAY_MS <? nowMs - hiddenAtMs - ownOutageMs.

Record ObservationFold := { hasHistory : bool; elapsedMs : Z; drawableMs : Z }.

Definition foldObservation (readings : list LatencyReading) (metric : LatencyMetric)
    : ObservationFold :=
  let windows := windowsOf readings metric in
  let sorted := sortedRuns readings in
  match head sorted, last sorted with
  | Some first, Some last' =>
      {| hasHistory := true;
         elapsedMs := end_ms last' - start_ms first;
         drawableMs := zsum window_length windows |}
  | _, _ => {| hasHistory := false; elapsedMs := 0; drawableMs := 0 |}
  end.

Definition observationCanFinishFrom (fold : ObservationFold) (observeDays : Z) : bool :=
  if negb (hasHistory fold) then true
  else if elapsedMs fold <=? 0 then true
  else if drawableMs fold <=? 0 then false
  else Qle_bool
         (inject_Z observeDays / (inject_Z (drawableMs fold) / inject_Z (elapsedMs fold)))
         (inject_Z observeDays * inject_Z OBSERVE_WALLCLOCK_MULTIPLE).

Definition observationCanFinish (readings : list LatencyReading) (metric : LatencyMetric)
    (observeDays : Z) : bool :=
  observationCanFinishFrom (foldObservation readings metric) observeDays.

(** ** Notions the theorems are stated with *)

(** Ticks in the order they happened. *)
Fixpoint in_order (ticks : list Z) : Prop :=
  match ticks with
  | t :: ((t' :: _) as rest) => t <= t' /\ in_order rest
  | _ => True
  end.

(** The stretches between two consecutive ticks longer than an outage's length. *)
Fixpoint tick_gaps (ticks : list Z) : list OwnOutage :=
  match ticks with
  | t :: ((t' :: _) as rest) =>
      (if OWN_OUTAGE_MS <? t' - t then [{| fromMs := t; toMs := t' |}] else []) ++ tick_gaps rest
  | _ => []
  end.

(** Stretches in order, each after the one before it by more than an outage. *)
Fixpoint ledger (runs : list ObservationRun) : Prop :=
  match runs with
  | [] => True
  | r :: rest =>
      sinceMs r <= lastSeenMs r /\
      match rest with [] => True | next :: _ => OWN_OUTAGE_MS < sinceMs next - lastSeenMs r end /\
      ledger rest
  end.

(** ** The ledger *)

Lemma tick_gaps_snoc ticks t t' :
  tick_gaps (ticks ++ [t; t']) =
  tick_gaps (ticks ++ [t]) ++ (if OWN_OUTAGE_MS <? t' - t then [{| fromMs := t; toMs := t' |}] else []).
Proof.
  induction ticks as [|x ticks IH]; simpl; [by rewrite app_nil_r|].
  destruct ticks as [|y ticks]; simpl in *; [by rewrite !app_nil_r|].
  rewrite <- app_assoc, <- IH. done.
Qed.

Lemma ledger_starts r rest : ledger (r :: rest) ->
  Forall (fun x => lastSeenMs r < sinceMs x /\ lastSeenMs r < lastSeenMs x) rest.
Proof.
  revert r. induction rest as [|x rest IH]; intros r (Hr & Hx & Hl); constructor.
  - unfold OWN_OUTAGE_MS in Hx. destruct Hl as (? & _). lia.
  - eapply Forall_impl; [apply (IH x Hl)|]. simpl. unfold OWN_OUTAGE_MS in Hx.
    destruct Hl as (? & _). lia.
Qed.

Lemma ledger_sorted runs : ledger runs -> stable_sort (by_key sinceMs) runs = runs.
Proof.
  intros Hl. apply stable_sort_id. induction runs as [|r rest IH]; constructor.
  - apply IH. by destruct Hl as (_ & _ & ?).
  - eapply Forall_impl; [by apply ledger_starts|]. intros x [? _]. destruct Hl as (? & _).
    unfold by_key. lia.
Qed.

Lemma ledger_snoc_inv runs r : ledger (runs ++ [r]) ->
  ledger runs /\ sinceMs r <= lastSeenMs r /\
  Forall (fun x => lastSeenMs x < sinceMs r) runs.
Proof.
  induction runs as [|x runs IH]; simpl; [intros (? & _); by split_and!|]. intros (Hx & Hn & Hl).
  destruct (IH Hl) as (H1 & H2 & H3). split_and!; try done.
  - destruct runs; [done|]. done.
  - constructor; [|done]. destruct runs as [|y runs]; simpl in Hn; [unfold OWN_OUTAGE_MS in Hn; lia|].
    inv H3. destruct Hl as (? & _). unfold OWN_OUTAGE_MS in Hn. lia.
Qed.

Lemma latest_seen_ledger runs r : ledger (runs ++ [r]) -> latest_seen (runs ++ [r]) = Some (lastSeenMs r).
Proof.
  intros Hl. destruct runs as [|x runs]; [done|]. simpl. f_equal.
  destruct (ledger_snoc_inv _ _ Hl) as (_ & Hr & Hx).
  rewrite fmap_app, fold_left_app. simpl.
  assert (Hle : forall l a, a < lastSeenMs r -> Forall (fun x => lastSeenMs x < sinceMs r) l ->
            fold_left Z.max (lastSeenMs <$> l) a < lastSeenMs r).
  { induction l as [|y l IH]; intros a Ha HF; simpl; [done|]. inv HF. apply IH; [lia|done]. }
  inv Hx. specialize (Hle runs (lastSeenMs x) ltac:(lia) ltac:(done)). lia.
Qed.

Lemma extend_latest_snoc runs r now :
  Forall (fun x => lastSeenMs x < lastSeenMs r) runs ->
  extend_latest (lastSeenMs r) now (runs ++ [r]) =
  runs ++ [{| sinceMs := sinceMs r; lastSeenMs := Z.max (lastSeenMs r) now |}].
Proof.
  induction 1 as [|x runs Hx _ IH]; simpl; [by rewrite Z.eqb_refl|].
  destruct (Z.eqb_spec (lastSeenMs x) (lastSeenMs r)); [lia|]. by rewrite IH.
Qed.

Lemma outages_walk_snoc runs r r' :
  outages_walk (runs ++ [r; r']) =
  outages_walk (runs ++ [r]) ++
  (if OWN_OUTAGE_MS <? sinceMs r' - lastSeenMs r
   then [{| fromMs := lastSeenMs r; toMs := sinceMs r' |}] else []).
Proof.
  induction runs as [|x runs IH]; [simpl; by destruct (_ <? _)|].
  destruct runs as [|y runs]; simpl in *; [repeat destruct (_ <? _); done|].
  rewrite IH. by destruct (OWN_OUTAGE_MS <? sinceMs y - lastSeenMs x).
Qed.

Lemma outages_walk_last runs r r' :
  sinceMs r = sinceMs r' -> outages_walk (runs ++ [r]) = outages_walk (runs ++ [r']).
Proof.
  intros E. induction runs as [|x runs IH]; [done|].
  destruct runs as [|y runs]; simpl in *; [by rewrite E|]. by rewrite IH.
Qed.

Lemma ledger_last runs r r' : ledger (runs ++ [r]) -> sinceMs r' = sinceMs r ->
  sinceMs r' <= lastSeenMs r' -> ledger (runs ++ [r']).
Proof.
  intros Hl E Hr. induction runs as [|x runs IH]; simpl in *; [tauto|].
  destruct Hl as (? & Hn & ?). split_and!; auto. destruct runs; simpl in *; [by rewrite E|done].
Qed.

Lemma ledger_open runs r now : ledger (runs ++ [r]) -> OWN_OUTAGE_MS < now - lastSeenMs r ->
  ledger ((runs ++ [r]) ++ [{| sinceMs := now; lastSeenMs := now |}]).
Proof.
  intros Hl Hn. induction runs as [|x runs IH]; simpl in *; [naive_solver lia|].
  destruct Hl as (? & Hx & ?). split_and!; auto. by destruct runs.
Qed.

Lemma ledger_after_ticks ticks t :
  in_order (ticks ++ [t]) ->
  exists runs r, fold_left recordObservation (ticks ++ [t]) [] = runs ++ [r] /\
    ledger (runs ++ [r]) /\ lastSeenMs r = t /\
    outages_walk (runs ++ [r]) = tick_gaps (ticks ++ [t]).
Proof.
  revert t. induction ticks as [|t0 ticks IH] using rev_ind; intros t Hord.
  { by exists [], {| sinceMs := t; lastSeenMs := t |}. }
  assert (in_order (ticks ++ [t0]) /\ t0 <= t) as [Hord' Hle].
  { clear IH. induction ticks as [|x ticks IH]; simpl in *; [tauto|].
    destruct ticks as [|y ticks]; simpl in *; [tauto|].
    destruct Hord as [? Hord]. destruct (IH Hord). tauto. }
  destruct (IH t0 Hord') as (runs & r & Hf & Hl & Ht & Ho).
  rewrite fold_left_app, Hf. simpl. unfold recordObservation.
  rewrite (latest_seen_ledger _ _ Hl), Ht. rewrite <- (app_assoc ticks). simpl ([t0] ++ [t]). rewrite tick_gaps_snoc, <- Ho.
  destruct (ledger_snoc_inv _ _ Hl) as (_ & Hr & Hx).
  destruct (Z.leb_spec (t - t0) OWN_OUTAGE_MS).
  - rewrite <- Ht, extend_latest_snoc
      by (eapply Forall_impl; [exact Hx|]; simpl; lia).
    eexists runs, _. split; [reflexivity|]. split_and!; [| |].
    + eapply ledger_last; [exact Hl|done|]. simpl. lia.
    + simpl. lia.
    + erewrite <- (outages_walk_last _ r) by done. destruct (Z.ltb_spec OWN_OUTAGE_MS (t - lastSeenMs r)); [lia|].
      by rewrite app_nil_r.
  - eexists (runs ++ [r]), _. split; [reflexivity|]. split_and!; [|done|].
    + apply ledger_open; [done|]. lia.
    + rewrite <- (app_assoc runs). cbn [app]. rewrite outages_walk_snoc. simpl. by rewrite Ht.
Qed.

(** The ledger remembers exactly the outages: whatever ticks reached the
    database, in order, the outages read back from the rows they left are the
    stretches between two consecutive ticks longer than [OWN_OUTAGE_MS]. *)
Theorem ownOutages_exact ticks :
  in_order ticks -> ownOutages (fold_left recordObservation ticks []) = tick_gaps ticks.
Proof.
  destruct ticks as [|t ticks _] using rev_ind; [done|]. intros Hord.
  destruct (ledger_after_ticks _ _ Hord) as (runs & r & -> & Hl & _ & <-).
  unfold ownOutages, outagesBetween. by rewrite !(ledger_sorted _ Hl).
Qed.

(** ** Observation *)

Lemma windows_walk_bounded metric first rest :
  separated (first :: rest) ->
  zsum window_length (windows_walk metric (first :: rest)) <=
  start_ms (List.last (first :: rest) first) - end_ms first \/ rest = [].
Proof.
  revert first. induction rest as [|next rest IH]; intros first Hs; [by right|left].
  destruct Hs as [Hle Hs]. change (windows_walk metric (first :: next :: rest)) with
    (window_between metric first next ++ windows_walk metric (next :: rest)).
  rewrite zsum_app. change (List.last (first :: next :: rest) first) with (List.last (next :: rest) first).
  rewrite (last_default_irrel next first next).
  assert (zsum window_length (window_between metric first next) <= start_ms next - end_ms first).
  { unfold window_between, deltaOf. destruct (_ || _).
    - change (zsum window_length []) with 0. lia.
    - rewrite zsum_cons. change (zsum window_length []) with 0. unfold window_length. simpl. lia. }
  pose proof (start_le_end next). destruct (IH next Hs) as [| ->]; [lia|].
  change (zsum window_length (windows_walk metric [next])) with 0. simpl. lia.
Qed.

(** Observation is measured, never more than what passed: over readings
    that do not overlap, the summed drawable time is at most the elapsed time,
    so a duty cycle is a share; and for any window of at least a day the
    promise that a drop can finish is exactly that the elapsed time is at most
    [OBSERVE_WALLCLOCK_MULTIPLE] times the drawable time. *)
Theorem observation_duty_cycle readings metric observeDays :
  separated (sortedRuns readings) -> 0 < observeDays ->
  let fold := foldObservation readings metric in
  drawableMs fold <= elapsedMs fold /\
  (0 < drawableMs fold ->
   observationCanFinish readings metric observeDays = true <->
   elapsedMs fold <= OBSERVE_WALLCLOCK_MULTIPLE * drawableMs fold).
Proof.
  intros Hs Hd fold. assert (Hle : drawableMs fold <= elapsedMs fold).
  { unfold fold, foldObservation, windowsOf.
    destruct (sortedRuns readings) as [|first rest] eqn:E; [done|].
    rewrite head_cons. destruct (last (first :: rest)) as [l|] eqn:El; [|simpl; lia].
    cbn [elapsedMs drawableMs].
    assert (l = List.last (first :: rest) first) as ->.
    { clear -El. revert first El. induction rest as [|x rest IH]; intros first El; [by inv El|].
      change (List.last (first :: x :: rest) first) with (List.last (x :: rest) first).
      rewrite (last_default_irrel x first x). by apply IH. }
    pose proof (start_le_end (List.last (first :: rest) first)). pose proof (start_le_end first).
    destruct (windows_walk_bounded metric first rest Hs) as [| ->]; [lia|].
    change (zsum window_length (windows_walk metric [first])) with 0. simpl. lia. }
  split; [done|]. intros Hpos. unfold observationCanFinish. fold fold.
  unfold observationCanFinishFrom. destruct (hasHistory fold) eqn:Eh; simpl.
  2: { clear -Eh Hpos. unfold fold, foldObservation in *.
       destruct (head (sortedRuns readings)), (last (sortedRuns readings)); simpl in *; done || lia. }
  destruct (Z.leb_spec (elapsedMs fold) 0); [lia|]. destruct (Z.leb_spec (drawableMs fold) 0); [lia|].
  rewrite Qle_bool_iff. set (e := elapsedMs fold) in *. set (d := drawableMs fold) in *.
  assert (0 < inject_Z e)%Q by (change 0%Q with (inject_Z 0); by rewrite <- Zlt_Qlt).
  assert (0 < inject_Z d)%Q by (change 0%Q with (inject_Z 0); by rewrite <- Zlt_Qlt).
  assert (0 < inject_Z observeDays)%Q by (change 0%Q with (inject_Z 0); by rewrite <- Zlt_Qlt).
  assert (inject_Z observeDays / (inject_Z d / inject_Z e) ==
          inject_Z observeDays * (inject_Z e / inject_Z d))%Q as -> by (field; lra).
  rewrite Qmult_le_l by done. rewrite Zle_Qle, inject_Z_mult. split; intros Hq.
  - apply (Qmult_le_compat_r _ _ (inject_Z d)) in Hq; [|lra].
    rewrite Qmult_comm, Qmult_div_r in Hq by lra. done.
  - apply Qle_shift_div_r; [done|]. done.
Qed.

(** What each verdict rests on.  INCOMPLETE means less than the window was
    watched, and nothing else does; REGRESSED and STABLE mean all of it was.
    STABLE is said of a window too quiet to have been hurt or measured no slower
    than the allowed multiple of a positive baseline, REGRESSED only of one
    measured slower; and NO_BASELINE never reports a ratio. *)
Theorem observedWindow_verdict readings metric fromMs observeDays options :
  let out := observedWindow readings metric fromMs observeDays options in
  let since := windows_since fromMs (watched_windows readings metric options) in
  observedMs out = zsum window_length since /\
  (verdict out = V_INCOMPLETE <-> observedMs out < observeDays * DAY_MS) /\
  (verdict out = V_REGRESSED <->
     observeDays * DAY_MS <= observedMs out /\ minWindowOps options <= totalOps since /\
     exists r, ratio out = Some r /\ (factor options < r)%Q) /\
  (verdict out = V_STABLE <->
     observeDays * DAY_MS <= observedMs out /\
     (totalOps since < minWindowOps options \/
      exists r, ratio out = Some r /\ (r <= factor options)%Q)) /\
  (forall r, ratio out = Some r ->
     exists b c, (0 < b)%Q /\ averageMicrosPerOp since = Some c /\ r = (c / b)%Q).
Proof.
  unfold observedWindow. cbv zeta. set (since := windows_since _ _).
  destruct (Z.ltb_spec (zsum window_length since) (observeDays * DAY_MS)); simpl.
  { split_and!; try done; naive_solver lia. }
  destruct (Z.ltb_spec (totalOps since) (minWindowOps options)); simpl.
  { split_and!; try done; naive_solver lia. }
  set (base := match averageMicrosPerOp _ with Some b => Some b | None => _ end).
  destruct base as [b|]; simpl; [|split_and!; naive_solver lia].
  destruct (Qle_bool b 0) eqn:Eb; simpl; [split_and!; naive_solver lia|].
  destruct (averageMicrosPerOp since) as [c|] eqn:Ec; simpl; [|split_and!; naive_solver lia].
  destruct (Qltb (factor options) (c / b)) eqn:Er; bools.
  - split_and!; try done; try (split; [done|lia]).
    + split; [intros _|done]. split_and!; eauto.
    + split; [done|]. intros (_ & [?|(r & [= <-] & ?)]); [lia|lra].
    + naive_solver.
  - split_and!; try done; try (split; [done|lia]).
    + split; [done|]. intros (_ & _ & r & [= <-] & ?). lra.
    + split; [intros _|done]. split; [done|]. right. eauto.
    + naive_solver.
Qed.

(** A collection whose counters stood still is not observed: its readings
    fold into one run, however long and however often confirmed, and over one
    run the observe window never fills and a drop is told it cannot finish. *)
Theorem quiet_run_not_observed (reading : LatencyReading) metric fromMs observeDays options :
  0 < observeDays ->
  verdict (observedWindow [reading] metric fromMs observeDays options) = V_INCOMPLETE /\
  observedMs (observedWindow [reading] metric fromMs observeDays options) = 0 /\
  (start_ms reading < end_ms reading ->
   observationCanFinish [reading] metric observeDays = false).
Proof.
  intros Hd. assert (Hw : windowsOf [reading] metric = []).
  { unfold windowsOf, sortedRuns. simpl. by destruct (is_some (spanStart reading)). }
  unfold observedWindow, watched_windows. rewrite Hw. cbn. unfold DAY_MS.
  change (zsum window_length []) with 0. destruct (Z.ltb_spec 0 (observeDays * 86400000)); [|lia].
  split; [done|]. split; [done|]. intros Hlt.
  unfold observationCanFinish, foldObservation. rewrite Hw.
  assert (sortedRuns [reading] = [reading]) as ->.
  { unfold sortedRuns. simpl. unfold start_ms, end_ms in Hlt. pose proof (spanEnd_finite reading).
    destruct (spanStart reading); [done|]. destruct (spanEnd reading); simpl in *; [done|lia]. }
  simpl. unfold observationCanFinishFrom. simpl. change (zsum window_length []) with 0.
  destruct (Z.leb_spec (end_ms reading - start_ms reading) 0); [lia|]. done.
Qed.

Lemma ownOutages_exact_witness :
  in_order [0; 3600000; 36000000] /\
  ownOutages (fold_left recordObservation [0; 3600000; 36000000] []) = [{| fromMs := 3600000; toMs := 36000000 |}].
Proof.
  assert (Ho : in_order [0; 3600000; 36000000]) by (simpl; lia).
  split; [exact Ho|]. rewrite (ownOutages_exact _ Ho). reflexivity.
Defined.

(** Two days of a collection nobody queried, stored as one run. *)
Definition quiet_reading : LatencyReading :=
  {| lr_run := {| capturedAt := At 0; lastSeenAt := Some (At (2 * DAY_MS)); observations := Some (Finite 48);
                  maxGapMs := Some (Finite 3600000) |};
     readOps := 7; readLatencyMicros := 70; writeOps := 0; writeLatencyMicros := 0 |}.

Lemma quiet_run_not_observed_witness :
  observedMs (observedWindow [quiet_reading] Read 0 1
    {| factor := 3 # 2; minWindowOps := 20; recordedBaselineMicrosPerOp := Some 10%Q; opt_ownOutages := None |}) = 0 /\
  observationCanFinish [quiet_reading] Read 1 = false.
Proof.
  destruct (quiet_run_not_observed quiet_reading Read 0 1
    {| factor := 3 # 2; minWindowOps := 20; recordedBaselineMicrosPerOp := Some 10%Q; opt_ownOutages := None |})
    as (_ & H1 & H2); [lia|].
  split; [exact H1|]. apply H2. reflexivity.
Defined.
