(* ===== verification/Activity.v ===== *)
(** Was the collection being used, not just the index?  Models
    [apps/api/src/analysis/activity.ts]. *)
From S2P Require Import Prelude Runs Classify.

Definition MAX_ACTIVE_CREDIT_MS : Z := 3600000.

Record ActivityPoint := { ap_run : Run; ap_readOps : Z; selfReadOps : Z }.
#[export] Instance ActivityPoint_HasRun : HasRun ActivityPoint := ap_run.

Record ActivityFold := { activeMs : Q; measurable : bool }.

(** One interval's credit: nothing where our own tally restarted or the
    collection served no read of anybody else's, else its length up to [cap]. *)
Definition interval_credit (cap : Q) (previous current : ActivityPoint) : Q :=
  let ours := selfReadOps current - selfReadOps previous in
  if ours <? 0 then 0%Q
  else
    let delta := ap_readOps current - ap_readOps previous - ours in
    if 0 <? delta then Qmin (inject_Z (start_ms current - end_ms previous)) cap else 0%Q.

Fixpoint credit_walk (cap : Q) (sorted : list ActivityPoint) : Q :=
  match sorted with
  | previous :: ((current :: _) as rest) => (interval_credit cap previous current + credit_walk cap rest)%Q
  | _ => 0%Q
  end.

Definition foldActivity (points : list ActivityPoint) : ActivityFold :=
  let sorted := sortedRuns points in
  let median := medianObservationGap sorted in
  if Qeq_bool median 0 then {| activeMs := 0%Q; measurable := false |}
  else
    let cap := Qmin median (inject_Z MAX_ACTIVE_CREDIT_MS) in
    {| activeMs := credit_walk cap sorted; measurable := true |}.

Definition activeHoursFrom (fold : ActivityFold) : Q :=
  if measurable fold then (activeMs fold / inject_Z HOUR_MS)%Q else 0%Q.

Definition activeHours (points : list ActivityPoint) : Q := activeHoursFrom (foldActivity points).

(** ** Notions the theorems are stated with *)

(** The intervals in which somebody else's reads moved the counter. *)
Definition served_reads (previous current : ActivityPoint) : bool :=
  (selfReadOps previous <=? selfReadOps current) &&
  (ap_readOps previous - selfReadOps previous <? ap_readOps current - selfReadOps current).

Fixpoint served_intervals (sorted : list ActivityPoint) : Z :=
  match sorted with
  | previous :: ((current :: _) as rest) =>
      (if served_reads previous current then 1 else 0) + served_intervals rest
  | _ => 0
  end.

(** ** Lemmas *)

Lemma medianObservationGap_nonneg {A} `{HasRun A} (runs : list A) :
  (0 <= medianObservationGap runs)%Q.
Proof.
  unfold medianObservationGap.
  assert (Hall : forall g, g ∈ observationGaps (sortedRuns runs) -> (0 < ms g)%Q /\ 1 <= weight g)
    by apply observationGaps_pos.
  destruct (observationGaps (sortedRuns runs)) as [|g0 gs] eqn:Eg; [lra|]. rewrite <- Eg in *.
  assert (Hs : forall g, g ∈ stable_sort by_ms (observationGaps (sortedRuns runs)) -> (0 < ms g)%Q)
    by (intros g Hg; apply Hall; by apply elem_of_stable_sort in Hg).
  generalize dependent (stable_sort by_ms (observationGaps (sortedRuns runs))). intros l Hs.
  assert (Hw : forall total seen l, (forall g, g ∈ l -> 0 < ms g)%Q ->
    forall m, median_walk total seen l = Some m -> (0 <= m)%Q).
  { clear. intros total seen l. revert seen. induction l as [|g l IH]; intros seen Hl m; simpl; [done|].
    assert (0 < ms g)%Q by (apply Hl; left).
    destruct (total <? _); [intros [= <-]; lra|]. destruct (_ =? total).
    - destruct l as [|g' l]; simpl; intros [= <-]; [lra|].
      assert (0 < ms g')%Q by (apply Hl; right; left). apply Qle_shift_div_l; [reflexivity|lra].
    - apply IH. intros x Hx. apply Hl. by right. }
  destruct (median_walk _ 0 l) as [m|] eqn:E; [by eapply Hw|].
  destruct (last l) as [g|] eqn:El; simpl; [|lra].
  apply last_Some_elem_of, Hs in El. lra.
Qed.

Lemma interval_credit_bounds cap previous current :
  (0 <= cap <= inject_Z MAX_ACTIVE_CREDIT_MS)%Q -> end_ms previous <= start_ms current ->
  (0 <= interval_credit cap previous current <=
   inject_Z (if served_reads previous current then MAX_ACTIVE_CREDIT_MS else 0))%Q.
Proof.
  intros Hcap Hle. unfold interval_credit, served_reads.
  assert (0 <= inject_Z (start_ms current - end_ms previous))%Q
    by (change 0%Q with (inject_Z 0); rewrite <- Zle_Qle; lia).
  destruct (Z.ltb_spec (selfReadOps current - selfReadOps previous) 0).
  { destruct (Z.leb_spec (selfReadOps previous) (selfReadOps current)); [lia|]. simpl. change (inject_Z 0) with 0%Q. lra. }
  destruct (Z.leb_spec (selfReadOps previous) (selfReadOps current)); [|lia].
  destruct (Z.ltb_spec (ap_readOps previous - selfReadOps previous) (ap_readOps current - selfReadOps current));
    simpl; destruct (0 <? _) eqn:E; try lia;
    [|change (inject_Z 0) with 0%Q; lra].
  split; [apply Q.min_glb; lra|]. eapply Qle_trans; [apply Q.le_min_r|]. lra.
Qed.

(** Activity counts somebody else's reads only, and an hour at most per
    interval: over readings that do not overlap the active hours are at most the
    number of intervals in which the collection served a read that was not this
    program's own, so a collection nobody else reads has none, however often it
    was measured. *)
Theorem activeHours_bounded points :
  separated (sortedRuns points) ->
  (0 <= activeHours points <= inject_Z (served_intervals (sortedRuns points)))%Q.
Proof.
  intros Hs. assert (Hn : 0 <= served_intervals (sortedRuns points)).
  { induction (sortedRuns points) as [|p [|c rest] IH]; try done. destruct Hs as [_ Hs].
    specialize (IH Hs). change (served_intervals (p :: c :: rest)) with
      ((if served_reads p c then 1 else 0) + served_intervals (c :: rest)).
    destruct (served_reads p c); lia. }
  assert (Hn' : (0 <= inject_Z (served_intervals (sortedRuns points)))%Q)
    by (change 0%Q with (inject_Z 0); by rewrite <- Zle_Qle).
  unfold activeHours, foldActivity. pose proof (medianObservationGap_nonneg (sortedRuns points)) as Hm.
  unfold activeHoursFrom. destruct (Qeq_bool _ 0); cbn [measurable activeMs]; [lra|].
  set (cap := Qmin _ _). assert (Hcap : (0 <= cap <= inject_Z MAX_ACTIVE_CREDIT_MS)%Q).
  { split; [apply Q.min_glb; [done|discriminate]|apply Q.le_min_r]. }
  assert (Hw : (0 <= credit_walk cap (sortedRuns points) <=
    inject_Z (served_intervals (sortedRuns points)) * inject_Z HOUR_MS)%Q).
  { clearbody cap. clear Hn Hn' Hm. induction (sortedRuns points) as [|p [|c rest] IH];
      [split; discriminate..|]. destruct Hs as [Hle Hs]. specialize (IH Hs).
    change (served_intervals (p :: c :: rest)) with
      ((if served_reads p c then 1 else 0) + served_intervals (c :: rest)).
    change (credit_walk cap (p :: c :: rest)) with
      (interval_credit cap p c + credit_walk cap (c :: rest))%Q.
    pose proof (interval_credit_bounds cap p c Hcap Hle) as Hi. rewrite inject_Z_plus.
    change (inject_Z MAX_ACTIVE_CREDIT_MS) with (inject_Z HOUR_MS) in Hi.
    destruct (served_reads p c); change MAX_ACTIVE_CREDIT_MS with HOUR_MS in Hi;
      change (inject_Z 1) with 1%Q; change (inject_Z 0) with 0%Q in *;
      change (inject_Z HOUR_MS) with (3600000 # 1)%Q in *; lra. }
  change (inject_Z HOUR_MS) with (3600000 # 1)%Q in *.
  split; [apply Qle_shift_div_l|apply Qle_shift_div_r]; try reflexivity; lra.
Qed.
