(* ===== verification/Observe.v ===== *)
(** How long a hidden index is watched.  Models
    [apps/api/src/analysis/observe.ts]. *)
From S2P Require Import Prelude Runs Usage Score.

Record ObserveWindow := { days : Z; reason : option string }.

Definition DEFAULT_OBSERVE_DAYS : Z := 30.
Definition SHORTEN_FLOOR_DAYS : Z := 7.
Definition EXTEND_CAP_DAYS : Z := 90.
Definition TENURE_MARGIN_DAYS : Z := 1.
Definition LONG_TENURE_MULTIPLE : Z := 2.
Definition VETERAN_MULTIPLE : Q := 3 # 2.
Definition DENSE_GAP_DAYS : Z := 2.
Definition DENSE_RECENT_DAYS : Z := 3.

Record ObserveContext := { watchingSince : option stamp; ctx_now : Z }.

Definition days_of (ms : Q) : Q := (ms / inject_Z DAY_MS)%Q.

Definition largestSightingGapDays (sorted : list UsagePoint) : Q :=
  days_of (fold_left Qmax (ms <$> observationGaps sorted) 0%Q).

(** Days since the index first appeared, when that was clearly after the watch
    on the cluster began. *)
Definition known_tenure (sorted : list UsagePoint) (context : ObserveContext) : option Q :=
  match head sorted, watchingSince context ≫= getTime with
  | Some first, Some watchStart =>
      let firstSeen := start_ms first in
      if TENURE_MARGIN_DAYS * DAY_MS <=? firstSeen - watchStart
      then Some (days_of (inject_Z (ctx_now context - firstSeen))) else None
  | _, _ => None
  end.

(** Periodic usage extends; usage still dense and recent settles at the floor. *)
Definition sighting_rule (active : list UsagePoint) (policyDays : Z) (context : ObserveContext)
    : option ObserveWindow :=
  if totalObservations active <? 2 then None
  else
    let largestGap := largestSightingGapDays active in
    let gapDays := Math_ceil largestGap in
    let extended := Z.min (2 * gapDays) (Z.max EXTEND_CAP_DAYS policyDays) in
    if policyDays <? extended then
      Some {| days := extended;
              reason := Some ("periodic usage with gaps up to " +:+ show gapDays +:+
                " days — window extended to cover a full cycle")%string |}
    else
      let quiet :=
        match last active with
        | None => false
        | Some lastActive =>
            Qle_bool (days_of (inject_Z (ctx_now context - end_ms lastActive)))
              (inject_Z DENSE_RECENT_DAYS)
        end in
      if Qle_bool largestGap (inject_Z DENSE_GAP_DAYS) && quiet then
        let days' := Z.min SHORTEN_FLOOR_DAYS policyDays in
        Some {| days := days';
                reason :=
                  if days' <? policyDays
                  then Some ("queried steadily and still in use — at that rate a regression shows up within " +:+
                    "days of hiding it, so the window is shortened rather than left open")%string
                  else None |}
      else None.

Definition veteran_rule (active : list UsagePoint) (tenure : option Q) (policyDays : Z)
    : option ObserveWindow :=
  match tenure with
  | None => None
  | Some known =>
      if (0 <? length active)%nat && Qle_bool (inject_Z (LONG_TENURE_MULTIPLE * policyDays)) known then
        let extended := Z.min (Z.max EXTEND_CAP_DAYS policyDays)
                              (Math_round (inject_Z policyDays * VETERAN_MULTIPLE)) in
        if policyDays <? extended then
          Some {| days := extended;
                  reason := Some ("in place " +:+ show (Math_floor known) +:+
                    " days and used during that time — window extended before removing a long-standing index")%string |}
        else None
      else None
  end.

Definition idle_rule (sorted active : list UsagePoint) (policyDays : Z) : option ObserveWindow :=
  if (length active =? 0)%nat && (2 <=? totalObservations sorted) then
    match head sorted, last sorted with
    | Some first, Some last' =>
        let spanDays := Math_floor (days_of (inject_Z (end_ms last' - start_ms first))) in
        if 2 * policyDays <=? spanDays then
          let shortened := Z.max (Z.min SHORTEN_FLOOR_DAYS policyDays) (policyDays / 2) in
          if shortened <? policyDays then
            Some {| days := shortened;
                    reason := Some ("zero usage across " +:+ show spanDays +:+
                      " days of history — window shortened")%string |}
          else None
        else None
    | _, _ => None
    end
  else None.

Definition newborn_rule (active : list UsagePoint) (tenure : option Q) (policyDays : Z)
    : option ObserveWindow :=
  match tenure with
  | None => None
  | Some known =>
      if (length active =? 0)%nat then
        let scaled := Z.max (Z.min SHORTEN_FLOOR_DAYS policyDays) (Z.min policyDays (Math_ceil known)) in
        if scaled <? policyDays then
          Some {| days := scaled;
                  reason := Some ("created " +:+ show (Math_floor known) +:+
                    " days ago and unused for its whole life — window shortened to match its age")%string |}
        else None
      else None
  end.

(** The rules in order, the first that speaks. *)
Definition dynamicObserveDays (history : list UsagePoint) (policyDays : Z) (context : ObserveContext)
    : ObserveWindow :=
  let sorted := sortedRuns history in
  let active := List.filter (fun point => 0 <? up_ops point) sorted in
  let tenure := known_tenure sorted context in
  match sighting_rule active policyDays context with
  | Some window => window
  | None =>
      match veteran_rule active tenure policyDays with
      | Some window => window
      | None =>
          match idle_rule sorted active policyDays with
          | Some window => window
          | None =>
              match newborn_rule active tenure policyDays with
              | Some window => window
              | None => {| days := policyDays; reason := None |}
              end
          end
      end
  end.

(** ** What one rule may answer *)

(** Within the bounds, and silent only about the policy itself. *)
Definition fair_window (policyDays : Z) (w : ObserveWindow) : Prop :=
  Z.min SHORTEN_FLOOR_DAYS policyDays <= days w <= Z.max EXTEND_CAP_DAYS policyDays /\
  (reason w = None <-> days w = policyDays).

Ltac rule_case :=
  repeat match goal with
  | H : (if ?b then _ else _) = Some _ |- _ => destruct b eqn:?; try done
  | H : match ?o with Some _ => _ | None => _ end = Some _ |- _ => destruct o eqn:?; try done
  | H : Some _ = Some _ |- _ => injection H as <-
  end.

Lemma sighting_rule_fair active policyDays context w :
  0 <= policyDays -> sighting_rule active policyDays context = Some w -> fair_window policyDays w.
Proof.
  unfold sighting_rule. intros Hp H. rule_case; unfold fair_window; cbn [days reason];
    unfold SHORTEN_FLOOR_DAYS, EXTEND_CAP_DAYS in *; (split; [lia|]).
  - split; [done|]. lia.
  - destruct (_ <? policyDays) eqn:E; split; done || lia.
Qed.

Lemma veteran_rule_fair active tenure policyDays w :
  0 <= policyDays -> veteran_rule active tenure policyDays = Some w ->
  fair_window policyDays w /\ policyDays < days w.
Proof.
  unfold veteran_rule. intros Hp H. rule_case. unfold fair_window; cbn [days reason].
  unfold SHORTEN_FLOOR_DAYS, EXTEND_CAP_DAYS in *. split; [|lia]. split; [lia|].
  split; [done|]. lia.
Qed.

Lemma idle_rule_fair sorted active policyDays w :
  0 <= policyDays -> idle_rule sorted active policyDays = Some w -> fair_window policyDays w /\ active = [].
Proof.
  unfold idle_rule. intros Hp H. rule_case.
  match goal with E : _ && _ = true |- _ => apply andb_true_iff in E as [? _] end. unfold fair_window; cbn [days reason].
  unfold SHORTEN_FLOOR_DAYS, EXTEND_CAP_DAYS in *. split.
  - split; [lia|]. split; [done|]. lia.
  - by apply length_zero_iff_nil, Nat.eqb_eq.
Qed.

Lemma newborn_rule_fair active tenure policyDays w :
  0 <= policyDays -> newborn_rule active tenure policyDays = Some w ->
  fair_window policyDays w /\ active = [].
Proof.
  unfold newborn_rule. intros Hp H. rule_case. unfold fair_window; cbn [days reason].
  unfold SHORTEN_FLOOR_DAYS, EXTEND_CAP_DAYS in *. split.
  - split; [lia|]. split; [done|]. lia.
  - by apply length_zero_iff_nil, Nat.eqb_eq.
Qed.

(** The window stays within its bounds whatever the history says: never
    under a week or the policy where that is tighter, never over the extension
    cap or the policy where that is longer; and it differs from the policy
    exactly when a reason is given. *)
Theorem dynamicObserveDays_bounds history policyDays context :
  0 <= policyDays -> fair_window policyDays (dynamicObserveDays history policyDays context).
Proof.
  intros Hp. unfold dynamicObserveDays.
  destruct (sighting_rule _ _ _) eqn:E1; [by eapply sighting_rule_fair|].
  destruct (veteran_rule _ _ _) eqn:E2; [by apply veteran_rule_fair in E2 as []|].
  destruct (idle_rule _ _ _) eqn:E3; [by apply idle_rule_fair in E3 as []|].
  destruct (newborn_rule _ _ _) eqn:E4; [by apply newborn_rule_fair in E4 as []|].
  unfold fair_window, SHORTEN_FLOOR_DAYS, EXTEND_CAP_DAYS. simpl. split; [lia|done].
Qed.

(** A periodic index gets a full cycle: once two sightings are on record,
    the window is at least twice the largest stretch between two of them, up to
    the extension cap, whichever rule decides it. *)
Theorem dynamicObserveDays_cycle history policyDays context :
  0 <= policyDays ->
  let active := List.filter (fun point => 0 <? up_ops point) (sortedRuns history) in
  2 <= totalObservations active ->
  Z.min (2 * Math_ceil (largestSightingGapDays active)) (Z.max EXTEND_CAP_DAYS policyDays) <=
  days (dynamicObserveDays history policyDays context).
Proof.
  intros Hp active Hobs. unfold dynamicObserveDays. fold active.
  set (extended := Z.min _ _).
  assert (Hne : active <> []) by (intros E; rewrite E in Hobs; by vm_compute in Hobs).
  destruct (sighting_rule active policyDays context) as [w|] eqn:E1.
  - unfold sighting_rule in E1. fold extended in E1.
    destruct (_ <? 2) eqn:E; [lia|]. destruct (policyDays <? extended) eqn:Ee.
    { injection E1 as <-. simpl. lia. }
    destruct (Qle_bool _ _ && _) eqn:Ed; [|done]. injection E1 as <-. cbn [days].
    apply andb_true_iff in Ed as [Hg%Qle_bool_iff _].
    assert (Math_ceil (largestSightingGapDays active) <= DENSE_GAP_DAYS).
    { unfold Math_ceil. rewrite <- (Qceiling_Z DENSE_GAP_DAYS). by apply Qceiling_resp_le. }
    unfold DENSE_GAP_DAYS, SHORTEN_FLOOR_DAYS, extended in *. lia.
  - assert (Hle : extended <= policyDays).
    { unfold sighting_rule in E1. fold extended in E1. destruct (_ <? 2) eqn:E; [lia|].
      destruct (policyDays <? extended) eqn:Ee; [done|]. lia. }
    destruct (veteran_rule _ _ _) eqn:E2; [apply veteran_rule_fair in E2 as [_ ?]; lia|].
    destruct (idle_rule _ _ _) eqn:E3; [by apply idle_rule_fair in E3 as []|].
    destruct (newborn_rule _ _ _) eqn:E4; [by apply newborn_rule_fair in E4 as []|]. done.
Qed.

Lemma dynamicObserveDays_bounds_witness :
  fair_window 30 (dynamicObserveDays [] 30 {| watchingSince := None; ctx_now := 0 |}).
Proof. apply (dynamicObserveDays_bounds [] 30 {| watchingSince := None; ctx_now := 0 |}). lia. Defined.
