(* ===== verification/Regression.v ===== *)
(** Is the collection slower than its baseline?  Models
    [apps/api/src/analysis/regression.ts]. *)
From S2P Require Import Prelude.

Record LatencySample := { ls_ops : Z; ls_latencyMicros : Z }.

Record RegressionOptions := { ro_factor : Q; ro_minWindowOps : Z }.

Inductive RegressionVerdict := REGRESSED | STABLE | UNOBSERVABLE.
#[export] Instance RegressionVerdict_eq_dec : EqDecision RegressionVerdict.
Proof. solve_decision. Defined.

(** A window of no operations passes the floor only when the floor is zero, and
    no caller sets it so; the quotient is then over a positive count. *)
Definition latencyRatio (baseline current : LatencySample) (minWindowOps : Z) : option Q :=
  let windowOps := ls_ops current - ls_ops baseline in
  if windowOps <? minWindowOps then None
  else
    let windowAvg :=
      (inject_Z (ls_latencyMicros current - ls_latencyMicros baseline) / inject_Z windowOps)%Q in
    let baselineAvg :=
      if 0 <? ls_ops baseline
      then (inject_Z (ls_latencyMicros baseline) / inject_Z (ls_ops baseline))%Q else 0%Q in
    if Qle_bool baselineAvg 0 then None else Some (windowAvg / baselineAvg)%Q.

Definition evaluateRegression (baseline current : LatencySample) (options : RegressionOptions)
    : RegressionVerdict :=
  if (ls_ops current <? ls_ops baseline) || (ls_latencyMicros current <? ls_latencyMicros baseline)
  then UNOBSERVABLE
  else
    match latencyRatio baseline current (ro_minWindowOps options) with
    | None => STABLE
    | Some ratio => if Qltb (ro_factor options) ratio then REGRESSED else STABLE
    end.

Record BuildBaseline := { builtAt : Z; bb_baseline : LatencySample }.

Definition older (oldest : option BuildBaseline) (candidate : BuildBaseline) : option BuildBaseline :=
  match oldest with
  | None => Some candidate
  | Some o => if builtAt candidate <? builtAt o then Some candidate else Some o
  end.

Definition oldestLiveBaseline (baselines : list BuildBaseline) : option BuildBaseline :=
  fold_left older baselines None.

(** ** Theorems *)

Lemma inject_pos z : 0 < z -> (0 < inject_Z z)%Q.
Proof. intros. change 0%Q with (inject_Z 0). by rewrite <- Zlt_Qlt. Qed.

Lemma inject_nonpos z : z <= 0 -> (inject_Z z <= 0)%Q.
Proof. intros. change 0%Q with (inject_Z 0). by rewrite <- Zle_Qle. Qed.

(** The verdict is exact and never guesses: UNOBSERVABLE precisely when a
    counter fell below its baseline; REGRESSED precisely when it did not, the
    window carried enough operations, the baseline had latency to compare with,
    and the window's average is over [factor] times the baseline's, compared
    without division; STABLE otherwise. *)
Theorem evaluateRegression_exact baseline current options :
  0 < ro_minWindowOps options ->
  let ops := ls_ops current - ls_ops baseline in
  let micros := ls_latencyMicros current - ls_latencyMicros baseline in
  (evaluateRegression baseline current options = UNOBSERVABLE <-> ops < 0 \/ micros < 0) /\
  (evaluateRegression baseline current options = REGRESSED <->
     0 <= micros /\ ro_minWindowOps options <= ops /\
     0 < ls_ops baseline /\ 0 < ls_latencyMicros baseline /\
     (ro_factor options * inject_Z (ls_latencyMicros baseline * ops) <
      inject_Z (micros * ls_ops baseline))%Q).
Proof.
  intros Hmin ops micros. unfold evaluateRegression.
  destruct ((_ <? _) || (_ <? _)) eqn:Er.
  { split; split; try done; intros; try lia. }
  split; [split; [|intros; lia]; intros H; exfalso; revert H|].
  { destruct (latencyRatio _ _ _); [|done]. by destruct (Qltb _ _). }
  unfold latencyRatio. fold ops micros. destruct (Z.ltb_spec ops (ro_minWindowOps options)).
  { split; [done|]. lia. }
  destruct (Z.ltb_spec 0 (ls_ops baseline)).
  2: { simpl. split; [done|]. lia. }
  pose proof (inject_pos _ H0) as Hb. assert (Hops : (0 < inject_Z ops)%Q) by (apply inject_pos; lia).
  destruct (Qle_bool _ 0) eqn:El; bools.
  { split; [done|]. intros (_ & _ & _ & Hl%inject_pos & _). exfalso.
    assert (0 < inject_Z (ls_latencyMicros baseline) / inject_Z (ls_ops baseline))%Q; [|lra].
    apply Qlt_shift_div_l; [done|]. lra. }
  assert (Hl : (0 < inject_Z (ls_latencyMicros baseline))%Q).
  { apply (Qmult_lt_compat_r _ _ (inject_Z (ls_ops baseline))) in El; [|done].
    rewrite (Qmult_comm (_ / _)), Qmult_div_r in El by lra. lra. }
  assert (Hl' : 0 < ls_latencyMicros baseline) by (change 0%Q with (inject_Z 0) in Hl; by rewrite <- Zlt_Qlt in Hl).
  rewrite !inject_Z_mult. set (m := inject_Z micros) in *. set (l := inject_Z (ls_latencyMicros baseline)) in *.
  set (b := inject_Z (ls_ops baseline)) in *. set (o := inject_Z ops) in *.
  assert (E : (m / o / (l / b) == m * b / (l * o))%Q) by (field; lra).
  assert (Hlo : (0 < l * o)%Q) by (by apply Qmult_lt_0_compat).
  assert (Hiff : (ro_factor options < m / o / (l / b))%Q <-> (ro_factor options * (l * o) < m * b)%Q).
  { rewrite E. split; intros Hq.
    - apply (Qmult_lt_compat_r _ _ (l * o)) in Hq; [|done].
      rewrite (Qmult_comm (_ / _)), Qmult_div_r in Hq by lra. done.
    - apply Qlt_shift_div_l; done. }
  destruct (Qltb _ _) eqn:Ef; bools.
  - split; [|done]. intros _. split_and!; try done; [lia|]. by apply Hiff.
  - split; [done|]. intros (_ & _ & _ & _ & Hq). apply Hiff in Hq. lra.
Qed.

(** The cumulative check compares with the state before the whole run of
    builds: the chosen baseline is one of the live ones, none was taken earlier,
    and there is none exactly when no build is live. *)
Theorem oldestLiveBaseline_first baselines :
  match oldestLiveBaseline baselines with
  | None => baselines = []
  | Some o => o ∈ baselines /\ forall b, b ∈ baselines -> builtAt o <= builtAt b
  end.
Proof.
  unfold oldestLiveBaseline.
  assert (Hgen : forall l init, match fold_left older l init with
    | None => init = None /\ l = []
    | Some o => (init = Some o \/ o ∈ l) /\
        (forall b, b ∈ l -> builtAt o <= builtAt b) /\ forall i, init = Some i -> builtAt o <= builtAt i
    end).
  { induction l as [|x l IH]; intros init; simpl.
    - destruct init as [o|]; [|done]. split; [by left|]. split; [set_solver|]. intros i [= <-]. lia.
    - specialize (IH (older init x)). destruct (fold_left older l _) as [o|].
      + destruct IH as (Hin & Hl & Hi). unfold older in *. destruct init as [i|].
        * destruct (Z.ltb_spec (builtAt x) (builtAt i)); specialize (Hi _ eq_refl); split_and!;
            try (destruct Hin as [[= <-]|]; set_solver);
            try (intros b [->|]%elem_of_cons; [lia|auto]); try (intros ? [= <-]; lia).
        * specialize (Hi _ eq_refl). split_and!; try (destruct Hin as [[= <-]|]; set_solver).
      + destruct IH as [Ho _]. unfold older in Ho. destruct init; [|done]. by destruct (_ <? _). }
  specialize (Hgen baselines None). destruct (fold_left older baselines None); naive_solver.
Qed.

Lemma evaluateRegression_exact_witness :
  evaluateRegression {| ls_ops := 100; ls_latencyMicros := 1000 |} {| ls_ops := 200; ls_latencyMicros := 4000 |}
    {| ro_factor := 3 # 2; ro_minWindowOps := 20 |} = REGRESSED.
Proof.
  apply (evaluateRegression_exact {| ls_ops := 100; ls_latencyMicros := 1000 |}
    {| ls_ops := 200; ls_latencyMicros := 4000 |} {| ro_factor := 3 # 2; ro_minWindowOps := 20 |});
    [reflexivity|]. simpl. repeat split; try lia.
Defined.
