(* ===== verification/ChangeWindow.v ===== *)
(** When elective changes may run.  Models
    [apps/api/src/analysis/window.ts]: the owner's window, and the window
    inferred from the traffic when the owner set none. *)
From S2P Require Import Prelude Runs Classify Score.

(** [new Date(ms).getUTCHours()]. *)
Definition getUTCHours (ms : Z) : Z := (ms / HOUR_MS) mod 24.

Definition inChangeWindow (now : Z) (startHour endHour : option Z) : bool :=
  match startHour, endHour with
  | Some s, Some e =>
      if s =? e then true
      else
        let hour := getUTCHours now in
        if s <? e then (s <=? hour) && (hour <? e) else (s <=? hour) || (hour <? e)
  | _, _ => true
  end.

Record TrafficSample := { ts_run : Run; ts_ops : Z }.
#[export] Instance TrafficSample_HasRun : HasRun TrafficSample := ts_run.

Record InferredWindow := { iw_startHour : Z; iw_endHour : Z; iw_reason : string }.

Definition BUCKET_HOURS : Z := 6.
Definition BUCKETS : Z := 24 / BUCKET_HOURS.
Definition MIN_WATCHED_HOURS_PER_BUCKET : Z := 3 * BUCKET_HOURS.
Definition QUIET_RATIO : Q := 3 # 4.
Definition MAX_INTERVAL_HOURS : Z := MAX_GAP_HOURS.
Definition MAX_BUCKET_STEPS : Z := BUCKETS * 400.

(** [`${String(hour).padStart(2, "0")}:00`]. *)
Definition pad (hour : Z) : string :=
  ((if (hour <? 10)%Z then "0" else "") +:+ show hour +:+ ":00")%string.

Record Slot := { slot_ops : Q; slot_hours : Q }.
Definition BucketTally := list Slot.

Definition emptyTally : BucketTally :=
  replicate (Z.to_nat BUCKETS) {| slot_ops := 0%Q; slot_hours := 0%Q |}.

Definition bucketOf (time : Z) : Z := getUTCHours time / BUCKET_HOURS.

(** [boundary.setUTCHours((bucket + 1) * BUCKET_HOURS, 0, 0, 0)]. *)
Definition boundaryOf (cursor : Z) : Z :=
  cursor / DAY_MS * DAY_MS + (bucketOf cursor + 1) * BUCKET_HOURS * HOUR_MS.

Definition credit_slot (hours ops : Q) (slot : Slot) : Slot :=
  {| slot_ops := slot_ops slot + ops; slot_hours := slot_hours slot + hours |}.

(** The loop of [creditSpan]; [fuel] is the steps left of [MAX_BUCKET_STEPS]. *)
Fixpoint credit_steps (fuel : nat) (tally : BucketTally) (cursor to total ops : Z) : BucketTally :=
  match fuel with
  | O => tally
  | S fuel =>
      if to <=? cursor then tally
      else
        let until := Z.min to (boundaryOf cursor) in
        let tally := alter
          (credit_slot (inject_Z (until - cursor) / inject_Z HOUR_MS)
                       (inject_Z (ops * (until - cursor)) / inject_Z total))
          (Z.to_nat (bucketOf cursor)) tally in
        credit_steps fuel tally until to total ops
  end.

Definition creditSpan (tally : BucketTally) (from to ops : Z) : BucketTally :=
  let total := to - from in
  if total <=? 0 then tally
  else credit_steps (Z.to_nat MAX_BUCKET_STEPS) tally from to total ops.

Definition creditQuietRun (tally : BucketTally) (from to : Z) : BucketTally :=
  creditSpan tally from to 0.

(** The gap to the next run, where the traffic can be. *)
Definition credit_gap (tally : BucketTally) (run next : TrafficSample) : BucketTally :=
  let delta := ts_ops next - ts_ops run in
  if delta <? 0 then tally
  else
    let from := end_ms run in
    let to := start_ms next in
    if (to - from <=? 0) || (MAX_INTERVAL_HOURS * HOUR_MS <? to - from) then tally
    else creditSpan tally from to delta.

(** One turn of the loop: the run itself, then the gap to the next one. *)
Definition credit_run (tally : BucketTally) (run : TrafficSample) (next : option TrafficSample)
    : BucketTally :=
  let tally := creditQuietRun tally (start_ms run) (end_ms run) in
  match next with None => tally | Some next => credit_gap tally run next end.

Fixpoint tally_runs (tally : BucketTally) (sorted : list TrafficSample) {struct sorted} : BucketTally :=
  match sorted with
  | [] => tally
  | run :: rest => tally_runs (credit_run tally run (head rest)) rest
  end.

Definition tallyNamespace (samples : list TrafficSample) : BucketTally :=
  tally_runs emptyTally (sortedRuns samples).

(** One bucket over every namespace: the summed rate, and the best coverage. *)
Definition bucket_step (bucket : nat) (acc : Q * Q) (tally : BucketTally) : option (Q * Q) :=
  slot ← tally !! bucket;
  let '(rate, watched) := acc in
  Some (if Qltb 0 (slot_hours slot) then (rate + slot_ops slot / slot_hours slot)%Q else rate,
        Qmax watched (slot_hours slot)).

Fixpoint bucket_fold (bucket : nat) (acc : Q * Q) (tallies : list BucketTally) : option (Q * Q) :=
  match tallies with
  | [] => Some acc
  | tally :: rest => acc ← bucket_step bucket acc tally; bucket_fold bucket acc rest
  end.

Definition bucket_average (tallies : list BucketTally) (bucket : nat) : option Q :=
  '(rate, watched) ← bucket_fold bucket (0%Q, 0%Q) tallies;
  if Qltb watched (inject_Z MIN_WATCHED_HOURS_PER_BUCKET) then None else Some rate.

(** The first bucket no other is quieter than. *)
Definition quieter (averages : list Q) (quietest : nat) (bucket : nat) : nat :=
  match averages !! bucket, averages !! quietest with
  | Some candidate, Some best => if Qltb candidate best then bucket else quietest
  | _, _ => quietest
  end.

Definition inferChangeWindow (namespaces : list (list TrafficSample)) : option InferredWindow :=
  let tallies := tallyNamespace <$> namespaces in
  averages ← mapM (bucket_average tallies) (seq 0 (Z.to_nat BUCKETS));
  let quietest := fold_left (quieter averages) (seq 1 (Z.to_nat BUCKETS - 1)) 0%nat in
  quiet ← averages !! quietest;
  let busiest := foldr Qmax (averages !! 0%nat ?? 0%Q) averages in
  if Qle_bool busiest 0 then None
  else if Qltb (busiest * QUIET_RATIO) quiet then None
  else
    let startHour := Z.of_nat quietest * BUCKET_HOURS in
    let endHour := (startHour + BUCKET_HOURS) mod 24 in
    let share := Math_round (quiet / busiest * 100) in
    Some {| iw_startHour := startHour; iw_endHour := endHour;
            iw_reason := "chosen automatically: " +:+ pad startHour +:+ "–" +:+ pad endHour +:+
              " UTC is the quietest six hours of the day, at " +:+ show share +:+
              "% of peak traffic" |}.

(** ** Notions the theorems are stated with *)

Definition tally_hours (t : BucketTally) : Q := qsum slot_hours t.
Definition tally_ops (t : BucketTally) : Q := qsum slot_ops t.

(** ** The owner's window *)

Lemma getUTCHours_range now : 0 <= getUTCHours now < 24.
Proof. unfold getUTCHours. apply Z.mod_pos_bound. lia. Qed.

(** A window and the window from its end back to its start split the day:
    at every instant exactly one of the two is open, whichever of them wraps
    midnight. *)
Theorem inChangeWindow_complement now s e :
  s <> e -> inChangeWindow now (Some s) (Some e) = negb (inChangeWindow now (Some e) (Some s)).
Proof.
  intros Hne. unfold inChangeWindow.
  destruct (Z.eqb_spec s e), (Z.eqb_spec e s); try lia.
  destruct (Z.ltb_spec s e), (Z.ltb_spec e s); try lia; lia.
Qed.

(** ** Crediting a span *)

Lemma boundary_multiple cursor :
  boundaryOf cursor = (cursor / (BUCKET_HOURS * HOUR_MS) + 1) * (BUCKET_HOURS * HOUR_MS).
Proof.
  unfold boundaryOf, bucketOf, getUTCHours, BUCKET_HOURS, HOUR_MS, DAY_MS.
  assert (exists d r, cursor = r + d * 24 * 3600000 /\ 0 <= r < 86400000) as (d & r & -> & Hr).
  { exists (cursor / 86400000), (cursor mod 86400000). split.
    - rewrite (Z.div_mod cursor 86400000) at 1 by lia. lia.
    - apply Z.mod_pos_bound. lia. }
  replace ((r + d * 24 * 3600000) / 86400000) with d.
  2: { replace (r + d * 24 * 3600000) with (r + d * 86400000) by lia.
       rewrite Z.div_add, Z.div_small by lia. lia. }
  rewrite Z.div_add by lia.
  rewrite Z_mod_plus_full. replace (r + d * 24 * 3600000) with (r + d * 4 * (6 * 3600000)) by lia.
  rewrite Z.div_add by lia.
  assert (Hh : 0 <= r / 3600000 < 24) by (split; [apply Z.div_pos; lia|apply Z.div_lt_upper_bound; lia]).
  rewrite (Z.mod_small (r / 3600000)) by lia.
  rewrite Z.div_div by lia. replace (3600000 * 6) with (6 * 3600000) by lia. lia.
Qed.

Lemma boundary_after cursor : cursor < boundaryOf cursor <= cursor + BUCKET_HOURS * HOUR_MS.
Proof.
  rewrite boundary_multiple. unfold BUCKET_HOURS, HOUR_MS.
  pose proof (Z.div_mod cursor (6 * 3600000) ltac:(lia)).
  pose proof (Z.mod_pos_bound cursor (6 * 3600000) ltac:(lia)). lia.
Qed.

Lemma bucketOf_range t : 0 <= bucketOf t < BUCKETS.
Proof.
  pose proof (getUTCHours_range t). unfold bucketOf. change BUCKETS with 4. unfold BUCKET_HOURS.
  split; [apply Z.div_pos; lia|apply Z.div_lt_upper_bound; lia].
Qed.

Lemma qsum_alter (f : Slot -> Q) g (d : Q) i (t : BucketTally) :
  (forall s, f (g s) == f s + d)%Q -> (i < length t)%nat ->
  (qsum f (alter g i t) == qsum f t + d)%Q.
Proof.
  intros Hg. revert i. induction t as [|s t IH]; intros [|i] Hi; simpl in *; try lia.
  - rewrite !qsum_cons, Hg. lra.
  - rewrite !qsum_cons. unfold alter in IH. rewrite IH by lia. lra.
Qed.

(** A slot's width in milliseconds. *)
Definition slot_ms : Z := BUCKET_HOURS * HOUR_MS.

Lemma split_share ops a b t : (0 < inject_Z t)%Q ->
  (inject_Z (ops * (a + b)) / inject_Z t ==
   inject_Z (ops * a) / inject_Z t + inject_Z (ops * b) / inject_Z t)%Q.
Proof. intros Ht. rewrite Z.mul_add_distr_l, inject_Z_plus. field. lra. Qed.

Lemma credit_steps_conserve fuel tally cursor to total ops :
  length tally = Z.to_nat BUCKETS -> 0 < total ->
  to <= cursor \/ (to - 1) / slot_ms - cursor / slot_ms < Z.of_nat fuel ->
  let out := credit_steps fuel tally cursor to total ops in
  length out = Z.to_nat BUCKETS /\
  (tally_hours out == tally_hours tally + inject_Z (1 * Z.max 0 (to - cursor)) / inject_Z HOUR_MS)%Q /\
  (tally_ops out == tally_ops tally + inject_Z (ops * Z.max 0 (to - cursor)) / inject_Z total)%Q.
Proof.
  revert tally cursor. induction fuel as [|fuel IH]; intros tally cursor Hl Ht Hf; cbv zeta.
  { assert (to <= cursor).
    { destruct Hf as [|Hf]; [done|]. destruct (Z.le_gt_cases to cursor); [done|].
      assert (cursor / slot_ms <= (to - 1) / slot_ms) by (apply Z.div_le_mono; unfold slot_ms, BUCKET_HOURS, HOUR_MS; lia).
      lia. }
    rewrite Z.max_l by lia. cbn [credit_steps]. rewrite !Z.mul_0_r. change (inject_Z 0) with 0%Q.
    unfold Qdiv. rewrite !Qmult_0_l, !Qplus_0_r. split_and!; [done|reflexivity..]. }
  cbn [credit_steps]. destruct (Z.leb_spec to cursor).
  { rewrite Z.max_l by lia. rewrite !Z.mul_0_r. change (inject_Z 0) with 0%Q.
    unfold Qdiv. rewrite !Qmult_0_l, !Qplus_0_r. split_and!; [done|reflexivity..]. }
  pose proof (boundary_after cursor) as Hb. set (until := Z.min to (boundaryOf cursor)).
  set (g := credit_slot _ _).
  set (tally' := alter g (Z.to_nat (bucketOf cursor)) tally).
  assert (Hl' : length tally' = Z.to_nat BUCKETS) by (unfold tally'; by rewrite length_alter).
  assert (Hi : (Z.to_nat (bucketOf cursor) < length tally)%nat)
    by (pose proof (bucketOf_range cursor); lia).
  destruct (IH tally' until) as (Hlen & Hh & Ho); [done|done| |].
  { destruct (Z.le_gt_cases to (boundaryOf cursor)); [left; lia|right].
    unfold until. rewrite Z.min_r by lia. rewrite boundary_multiple. fold slot_ms.
    rewrite Z.div_mul by (unfold slot_ms, BUCKET_HOURS, HOUR_MS; lia). lia. }
  split; [done|].
  assert (0 < inject_Z total)%Q by (change 0%Q with (inject_Z 0); by rewrite <- Zlt_Qlt).
  replace (Z.max 0 (to - cursor)) with ((until - cursor) + Z.max 0 (to - until)) by lia.
  split.
  - eapply Qeq_trans; [exact Hh|]. rewrite split_share by reflexivity. unfold tally_hours, tally'.
    rewrite (qsum_alter slot_hours g (inject_Z (until - cursor) / inject_Z HOUR_MS)) by done.
    rewrite !Z.mul_1_l, <- Qplus_assoc. reflexivity.
  - eapply Qeq_trans; [exact Ho|]. rewrite split_share by done. unfold tally_ops, tally'.
    rewrite (qsum_alter slot_ops g (inject_Z (ops * (until - cursor)) / inject_Z total)) by done.
    rewrite <- Qplus_assoc. reflexivity.
Qed.

(** Crediting a span conserves it: for any span up to the walk's own
    bound of steps, the hours the four slots gain add up to the span's length
    and the operations they gain to the operations it carried, with no slot of
    the day favoured by where the span began. *)
Theorem creditSpan_conserves tally from to ops :
  length tally = Z.to_nat BUCKETS -> from < to ->
  to - from <= (MAX_BUCKET_STEPS - 1) * slot_ms ->
  (tally_hours (creditSpan tally from to ops) ==
     tally_hours tally + inject_Z (to - from) / inject_Z HOUR_MS)%Q /\
  (tally_ops (creditSpan tally from to ops) == tally_ops tally + inject_Z ops)%Q.
Proof.
  intros Hl Hlt Hmax. unfold creditSpan. destruct (Z.leb_spec (to - from) 0); [lia|].
  destruct (credit_steps_conserve (Z.to_nat MAX_BUCKET_STEPS) tally from to (to - from) ops)
    as (_ & Hh & Ho); [done|lia| |].
  { right. rewrite Z2Nat.id by (vm_compute; discriminate).
    unfold MAX_BUCKET_STEPS, slot_ms, BUCKETS, BUCKET_HOURS, HOUR_MS in *.
    change (24 / 6 * 400) with 1600 in *. change (6 * 3600000) with 21600000 in *.
    pose proof (Z.div_mod (to - 1) 21600000 ltac:(lia)). pose proof (Z.mod_pos_bound (to - 1) 21600000 ltac:(lia)).
    pose proof (Z.div_mod from 21600000 ltac:(lia)). pose proof (Z.mod_pos_bound from 21600000 ltac:(lia)).
    lia. }
  rewrite Z.max_r in Hh, Ho by lia. rewrite Z.mul_1_l in Hh. split; [done|]. rewrite Ho.
  assert (0 < inject_Z (to - from))%Q by (change 0%Q with (inject_Z 0); rewrite <- Zlt_Qlt; lia).
  rewrite inject_Z_mult. field. lra.
Qed.

(** ** The inferred window *)

Lemma bucket_fold_watched bucket acc tallies rate watched :
  bucket_fold bucket acc tallies = Some (rate, watched) ->
  (watched == acc.2)%Q \/ exists t slot, t ∈ tallies /\ t !! bucket = Some slot /\
    (watched == slot_hours slot)%Q.
Proof.
  revert acc. induction tallies as [|t tallies IH]; intros [r0 w0]; simpl.
  { intros [= <- <-]. by left. }
  intros (acc' & Hstep & Hf)%bind_Some. unfold bucket_step in Hstep.
  apply bind_Some in Hstep as (slot & Hs & [= <-]).
  apply IH in Hf as [E|(t' & s' & Ht & Hs' & E)]; cbn [snd] in *.
  - destruct (Q.max_spec w0 (slot_hours slot)) as [[_ E']|[_ E']]; rewrite E' in E.
    + right. exists t, slot. split; [left|]. done.
    + by left.
  - right. exists t', s'. split; [by right|]. done.
Qed.

Lemma bucket_average_watched tallies bucket rate :
  bucket_average tallies bucket = Some rate ->
  exists t slot, t ∈ tallies /\ t !! bucket = Some slot /\
    (inject_Z MIN_WATCHED_HOURS_PER_BUCKET <= slot_hours slot)%Q.
Proof.
  intros ([r w] & Hf & Hw)%bind_Some. destruct (Qltb w _) eqn:E; [done|]. bools.
  apply bucket_fold_watched in Hf as [Ew|(t & slot & Ht & Hs & Ew)]; rewrite Ew in E.
  - simpl in E. exfalso. by apply E.
  - eauto.
Qed.

Lemma foldr_Qmax_elem a l :
  (foldr Qmax a l == a)%Q \/ exists x, x ∈ l /\ (foldr Qmax a l == x)%Q.
Proof.
  induction l as [|y l IH]; simpl; [by left|].
  destruct (Q.max_spec y (foldr Qmax a l)) as [[_ E]|[_ E]].
  - destruct IH as [IH|(x & Hx & IH)]; [left; by rewrite E|right].
    exists x. split; [by right|by rewrite E].
  - right. exists y. split; [left|done].
Qed.

Lemma quietest_least (averages : list Q) q :
  length averages = 4%nat ->
  fold_left (quieter averages) (seq 1 3) 0%nat = q ->
  (q < 4)%nat /\ forall b x y, averages !! q = Some x -> averages !! b = Some y -> (x <= y)%Q.
Proof.
  destruct averages as [|a0 [|a1 [|a2 [|a3 [|]]]]]; try done. intros _ <-.
  set (l := [a0; a1; a2; a3]).
  assert (Hstep : forall q b, (q < 4)%nat -> (b < 4)%nat ->
    (quieter l q b = q /\ forall x y, l !! q = Some x -> l !! b = Some y -> x <= y)%Q \/
    (quieter l q b = b /\ forall x y, l !! q = Some x -> l !! b = Some y -> y <= x)%Q).
  { intros q b Hq Hb. unfold quieter.
    destruct (lookup_lt_is_Some_2 l b) as [y Hy]; [exact Hb|].
    destruct (lookup_lt_is_Some_2 l q) as [x Hx]; [exact Hq|]. rewrite Hx, Hy.
    destruct (Qltb y x) eqn:E; bools; [right|left]; (split; [done|]); intros; simplify_eq; lra. }
  cbn [fold_left seq]. 
  destruct (Hstep 0 1)%nat as [[-> H1]|[-> H1]]; try lia;
    [destruct (Hstep 0 2)%nat as [[-> H2]|[-> H2]]|destruct (Hstep 1 2)%nat as [[-> H2]|[-> H2]]]; try lia;
    [destruct (Hstep 0 3)%nat as [[-> H3]|[-> H3]]|destruct (Hstep 2 3)%nat as [[-> H3]|[-> H3]]
    |destruct (Hstep 1 3)%nat as [[-> H3]|[-> H3]]|destruct (Hstep 2 3)%nat as [[-> H3]|[-> H3]]]; try lia;
    specialize (H1 _ _ eq_refl eq_refl); specialize (H2 _ _ eq_refl eq_refl);
    specialize (H3 _ _ eq_refl eq_refl); (split; [lia|]);
    intros [|[|[|[|]]]] x y Hx Hy; simplify_eq/=; lra.
Qed.

(** An inferred window is earned: it is one of the four six-hour slots of
    the day, every slot was watched long enough by some namespace, no slot is
    quieter, and it carries at most [QUIET_RATIO] of the traffic of a slot that
    had some. *)
Theorem inferChangeWindow_sound namespaces w :
  inferChangeWindow namespaces = Some w ->
  let tallies := tallyNamespace <$> namespaces in
  exists q rate, (q < 4)%nat /\ bucket_average tallies q = Some rate /\
    iw_startHour w = Z.of_nat q * BUCKET_HOURS /\
    iw_endHour w = (iw_startHour w + BUCKET_HOURS) mod 24 /\
    (forall b, (b < 4)%nat -> exists rate' t slot,
       bucket_average tallies b = Some rate' /\ (rate <= rate')%Q /\
       t ∈ tallies /\ t !! b = Some slot /\
       (inject_Z MIN_WATCHED_HOURS_PER_BUCKET <= slot_hours slot)%Q) /\
    exists b peak, bucket_average tallies b = Some peak /\ (0 < peak)%Q /\
      (rate <= QUIET_RATIO * peak)%Q.
Proof.
  intros (averages & Hm & H)%bind_Some tallies. fold tallies in Hm.
  apply bind_Some in H as (quiet & Hq & H). set (q := fold_left _ _ 0%nat) in *.
  apply mapM_Some in Hm. pose proof (Forall2_length _ _ _ Hm) as Hlen.
  rewrite length_seq in Hlen. change (Z.to_nat BUCKETS) with 4%nat in *.
  assert (Hat : forall b x, averages !! b = Some x -> bucket_average tallies b = Some x).
  { intros b x Hx. destruct (Forall2_lookup_r _ _ _ _ _ Hm Hx) as (b' & Hb & E).
    apply lookup_seq in Hb as [-> _]. done. }
  destruct (quietest_least averages q) as [Hq4 Hleast]; [done|done|].
  cbv zeta in H. destruct (Qle_bool _ 0) eqn:Eb; [done|]. destruct (Qltb _ quiet) eqn:Er; [done|].
  injection H as <-. bools. exists q, quiet. split_and!; try done; [by apply Hat| |].
  - intros b Hb. destruct (lookup_lt_is_Some_2 averages b) as [x Hx]; [lia|].
    destruct (bucket_average_watched _ _ _ (Hat _ _ Hx)) as (t & slot & Ht & Hs & Hw).
    exists x, t, slot. split_and!; eauto.
  - set (busiest := foldr Qmax _ averages) in *.
    assert (exists b peak, averages !! b = Some peak /\ (busiest == peak)%Q) as (b & peak & Hp & E).
    { destruct (foldr_Qmax_elem (averages !! 0%nat ?? 0%Q) averages) as [E|(x & Hx & E)].
      - destruct (lookup_lt_is_Some_2 averages 0) as [x Hx]; [lia|]. rewrite Hx in E. simpl in E.
        exists 0%nat, x. split; [done|]. unfold busiest. by rewrite Hx.
      - apply list_elem_of_lookup in Hx as [b Hb]. eauto. }
    exists b, peak. split; [by apply Hat|]. rewrite E in Eb, Er. split; [done|]. lra.
Qed.

(** A collection read hourly for four days, quiet before six in the morning. *)
Definition office_hours : list TrafficSample :=
  (fun h => let hour := Z.of_nat h in
    {| ts_run := {| capturedAt := At (hour * HOUR_MS); lastSeenAt := None; observations := None; maxGapMs := None |};
       ts_ops := 100 * (hour - 6 * (hour / 24)) + (if hour mod 24 <? 6 then - 100 * (hour mod 24) else - 600) |}) <$>
  seq 0 97.

Lemma inferChangeWindow_sound_witness :
  exists w, inferChangeWindow [office_hours] = Some w /\ iw_startHour w = 0 /\ iw_endHour w = 6.
Proof.
  destruct (inferChangeWindow [office_hours]) as [w|] eqn:E; [|vm_compute in E; discriminate E].
  exists w. split; [reflexivity|].
  destruct (inferChangeWindow_sound [office_hours] w E) as (q & rate & _ & _ & H1 & H2 & _).
  assert (Hs : iw_startHour w = 0) by (vm_compute in E; injection E as <-; reflexivity).
  split; [exact Hs|]. rewrite H2, Hs. reflexivity.
Defined.
