(* ===== verification/Failures.v ===== *)
(** Did hiding an index start breaking its queries?  Models
    [apps/api/src/analysis/failures.ts], with the reading it judges
    ([FailedOpsReading] of [apps/api/src/engine/ports.ts]) and the text of the
    instants the audit trail prints ([Date.prototype.toISOString]). *)
From S2P Require Import Prelude Score.

(** ** Instants as text *)

(** Days since 1970-01-01 as a proleptic Gregorian (year, month, day): the year
    counted from March, so that a leap day is the last of its year. *)
Definition civil_of_days (days : Z) : Z * Z * Z :=
  let z := days + 719468 in
  let era := z / 146097 in
  let doe := z mod 146097 in
  let yoe := (doe - doe / 1460 + doe / 36524 - doe / 146096) / 365 in
  let doy := doe - (365 * yoe + yoe / 4 - yoe / 100) in
  let mp := (5 * doy + 2) / 153 in
  let d := doy - (153 * mp + 2) / 5 + 1 in
  let m := if mp <? 10 then mp + 3 else mp - 9 in
  let y := yoe + era * 400 + (if m <=? 2 then 1 else 0) in
  (y, m, d).

(** [String(n).padStart(width, "0")]. *)
Fixpoint zeros (n : nat) : string :=
  match n with O => "" | S n => "0" +:+ zeros n end.
Definition pad_start (width : nat) (n : Z) : string :=
  zeros (width - String.length (show n)) +:+ show n.

(** The text for the years 0 to 9999, the only ones the program prints. *)
Definition iso_text (ms : Z) : string :=
  let '(y, m, d) := civil_of_days (ms / DAY_MS) in
  let t := ms mod DAY_MS in
  pad_start 4 y +:+ "-" +:+ pad_start 2 m +:+ "-" +:+ pad_start 2 d +:+ "T" +:+
  pad_start 2 (t / 3600000) +:+ ":" +:+ pad_start 2 (t / 60000 mod 60) +:+ ":" +:+
  pad_start 2 (t / 1000 mod 60) +:+ "." +:+ pad_start 3 (t mod 1000) +:+ "Z".

(** [date.toISOString().slice(0, 10)]. *)
Definition iso_day (ms : Z) : string := String.substring 0 10 (iso_text ms).

Definition utcMinute (ms : Z) : string :=
  let text := String.substring 0 16 (iso_text ms) in
  String.substring 0 10 text +:+ " " +:+ String.substring 11 5 text +:+ " UTC".

Example iso_text_leap_day : iso_text 1709208296789 = "2024-02-29T12:04:56.789Z".
Proof. vm_compute. reflexivity. Qed.

Example utcMinute_sample : utcMinute 1791036300000 = "2026-10-03 14:05 UTC".
Proof. vm_compute. reflexivity. Qed.

Record Tally := { t_kind : string; t_failed : Z }.
Definition FailureTally := list Tally.

Record FailedOpsWindow := {
  hinted : option Z;
  suspect : Z;
  suspectKinds : FailureTally;
  unrelated : FailureTally;
  fw_reachMs : Z;
  blindSpot : option string;
}.
Inductive FailedOpsReading := WINDOW (w : FailedOpsWindow) | NO_SOURCE (reason : string).

Record FailureSample := { fs_failed : Z; reachMs : Z }.

Definition FAILURE_BASELINE_MS : Z := 24 * 3600000.
Definition MIN_INTRODUCED_FAILURES : Z := 3.

Inductive Unattributed :=
  | FAILING_BEFORE (failed : Z) | NO_BASELINE | FEW | SHORT_BASELINE (baselineMs : Z).

Inductive FailureVerdict :=
  | INTRODUCED_HINTED (failed : Z) (unrelated : FailureTally)
  | INTRODUCED_SUSPECT (failed : Z) (kinds : FailureTally) (baselineMs : Z) (unrelated : FailureTally)
  | INCONCLUSIVE (failed : Z) (kinds : FailureTally) (because : Unattributed) (unrelated : FailureTally)
  | CLEAN (blindSpot : option string) (unrelated : FailureTally)
  | UNAVAILABLE (reason : string).

Definition judgeFailures (before : option FailureSample) (after : FailedOpsReading) (hiddenAtMs : Z)
    : FailureVerdict :=
  match after with
  | NO_SOURCE reason => UNAVAILABLE reason
  | WINDOW w =>
      let unattributed because := INCONCLUSIVE (suspect w) (suspectKinds w) because (unrelated w) in
      if match hinted w with Some n => 0 <? n | None => false end
      then INTRODUCED_HINTED (hinted w ?? 0) (unrelated w)
      else if suspect w =? 0 then CLEAN (blindSpot w) (unrelated w)
      else
        match before with
        | None => unattributed NO_BASELINE
        | Some before =>
            if 0 <? fs_failed before then unattributed (FAILING_BEFORE (fs_failed before))
            else if suspect w <? MIN_INTRODUCED_FAILURES then unattributed FEW
            else
              let baselineMs := Z.max 0 (hiddenAtMs - reachMs before) in
              if baselineMs <? FAILURE_BASELINE_MS then unattributed (SHORT_BASELINE baselineMs)
              else INTRODUCED_SUSPECT (suspect w) (suspectKinds w) baselineMs (unrelated w)
        end
  end.

(** [verdict.kind === "INTRODUCED"]. *)
Definition introduced (v : FailureVerdict) : bool :=
  match v with INTRODUCED_HINTED _ _ | INTRODUCED_SUSPECT _ _ _ _ => true | _ => false end.

(** ** The audit line *)

Definition counted (n : Z) (one many : string) : string :=
  show n +:+ " " +:+ (if n =? 1 then one else many).

Definition failedOps (n : Z) : string := counted n "failed operation" "failed operations".

Definition span (ms : Z) : string :=
  let minutes := Math_round (inject_Z ms / 60000) in
  if minutes <? 120 then counted minutes "minute" "minutes"
  else
    let hours := Math_round (inject_Z ms / 3600000) in
    if hours <? 48 then show hours +:+ " hours"
    else show (Math_round (inject_Z ms / 86400000)) +:+ " days".

Definition SHOWN_KINDS : nat := 3.

Definition tallyText (tally : FailureTally) : string :=
  let shown := join ", " ((fun t => show (t_failed t) +:+ " " +:+ t_kind t) <$> take SHOWN_KINDS tally) in
  let rest := zsum t_failed (drop SHOWN_KINDS tally) in
  if rest =? 0 then shown else shown +:+ " and " +:+ show rest +:+ " of other kinds".

Definition kindsOf (tally : FailureTally) : string :=
  match tally with [] => "" | _ => " (" +:+ tallyText tally +:+ ")" end.

Definition notCounted (tally : FailureTally) : string :=
  match tally with
  | [] => ""
  | _ => "; not counted because a hidden index cannot cause them: " +:+ tallyText tally
  end.

Definition unattributedBecause (because : Unattributed) : string :=
  match because with
  | FAILING_BEFORE failed => ", but " +:+ show failed +:+ " before it — not attributed"
  | NO_BASELINE => ", but nothing to compare against — not attributed"
  | FEW => ", fewer than the " +:+ show MIN_INTRODUCED_FAILURES +:+ " it takes to act"
  | SHORT_BASELINE baselineMs =>
      ", but only " +:+ span baselineMs +:+ " of history before it could be read, short of " +:+
      "the day it takes to pin them on the hide — not attributed"
  end.

Definition describeFailures (verdict : FailureVerdict) : string :=
  match verdict with
  | INTRODUCED_HINTED failed unrelated =>
      counted failed "query" "queries" +:+ " naming the index in a hint " +:+
      "failed since the hide, which a hidden index refuses" +:+ notCounted unrelated
  | INTRODUCED_SUSPECT failed kinds baselineMs unrelated =>
      failedOps failed +:+ " since the hide" +:+ kindsOf kinds +:+ ", and none in " +:+
      "the " +:+ span baselineMs +:+ " of history readable before it" +:+ notCounted unrelated
  | INCONCLUSIVE failed kinds because unrelated =>
      failedOps failed +:+ " since the hide" +:+ kindsOf kinds +:+ unattributedBecause because +:+
      notCounted unrelated
  | CLEAN blindSpot unrelated =>
      (match unrelated with
       | [] => "no failed operations seen since the hide"
       | _ => "no failed operations a hidden index can cause seen since the hide"
       end) +:+
      (match blindSpot with None => "" | Some blind => ", but " +:+ blind end) +:+
      notCounted unrelated
  | UNAVAILABLE reason => "failed-operations check skipped: " +:+ reason
  end.

(** On an INTRODUCED verdict, the only one it is called with. *)
Definition regressionReason (verdict : FailureVerdict) : string :=
  match verdict with
  | INTRODUCED_SUSPECT _ kinds _ _ => "failed operations during observe" +:+ kindsOf kinds
  | _ => "queries naming it in a hint failed during observe"
  end.

Definition describeWatch (reading : FailedOpsReading) : string :=
  match reading with
  | NO_SOURCE reason => "failed operations not watched: " +:+ reason
  | WINDOW w =>
      match blindSpot w with
      | None => ""
      | Some blind => "failed operations only partly watched: " +:+ blind
      end
  end.

Definition describeShortBaseline (reading : FailedOpsReading) (hiddenAtMs : Z) : string :=
  match reading with
  | NO_SOURCE _ => ""
  | WINDOW w =>
      let baselineMs := Z.max 0 (hiddenAtMs - fw_reachMs w) in
      if FAILURE_BASELINE_MS <=? baselineMs then ""
      else
        let what :=
          match hinted w with
          | None => "no failure can roll it back"
          | Some _ => "only a failed hint at the index can roll it back"
          end in
        "only " +:+ span baselineMs +:+ " of history before the hide can be read, short of the day it " +:+
        "takes to pin a failure on it, so " +:+ what
  end.

(** [merged.set(kind, (merged.get(kind) ?? 0) + failed)], in insertion order. *)
Fixpoint add_tally (merged : FailureTally) (t : Tally) : FailureTally :=
  match merged with
  | [] => [t]
  | m :: rest =>
      if String.eqb (t_kind m) (t_kind t)
      then {| t_kind := t_kind m; t_failed := t_failed m + t_failed t |} :: rest
      else m :: add_tally rest t
  end.

Definition larger_first `{Locale} (a b : Tally) : bool :=
  if t_failed a =? t_failed b then localeLe (t_kind a) (t_kind b) else t_failed b <? t_failed a.

Definition mergeTallies `{Locale} (tallies : list FailureTally) : FailureTally :=
  stable_sort larger_first (fold_left add_tally (mjoin tallies) []).

(** ** Theorems *)

(** The failures of one kind in a tally. *)
Definition of_kind (k : string) (l : FailureTally) : Z :=
  zsum (fun t => if String.eqb (t_kind t) k then t_failed t else 0) l.

(** The signal is one-way and earned: a hide is implicated exactly when a
    query naming the index in a hint failed, or at least
    [MIN_INTRODUCED_FAILURES] suspect failures followed a baseline that recorded
    none and reached back a whole day; a cluster with no failure source is never
    implicated. *)
Theorem judgeFailures_introduced before after hiddenAtMs :
  introduced (judgeFailures before after hiddenAtMs) = true <->
  exists w, after = WINDOW w /\
    ((exists n, hinted w = Some n /\ 0 < n) \/
     (MIN_INTRODUCED_FAILURES <= suspect w /\
      exists b, before = Some b /\ fs_failed b <= 0 /\
        FAILURE_BASELINE_MS <= hiddenAtMs - reachMs b) /\ suspect w <> 0).
Proof.
  unfold judgeFailures. destruct after as [w|r]; [|split; [done|naive_solver]].
  destruct (hinted w) as [n|] eqn:Eh; [destruct (Z.ltb_spec 0 n)|].
  { simpl. naive_solver. }
  all: destruct (Z.eqb_spec (suspect w) 0); [simpl; naive_solver lia|].
  all: destruct before as [b|]; [|simpl; naive_solver lia].
  all: destruct (Z.ltb_spec 0 (fs_failed b)); [simpl; naive_solver lia|].
  all: destruct (Z.ltb_spec (suspect w) MIN_INTRODUCED_FAILURES); [simpl; naive_solver lia|].
  all: destruct (Z.ltb_spec (Z.max 0 (hiddenAtMs - reachMs b)) FAILURE_BASELINE_MS);
    simpl; unfold FAILURE_BASELINE_MS in *; split; try done.
  all: try (intros (? & [= <-] & [(? & ? & ?)|[(_ & ? & [= <-] & _ & ?) _]]); simplify_eq; lia).
  all: intros _; exists w; split; [done|]; right; split; [|done]; split; [done|]; exists b;
    split_and!; try done; lia.
Qed.

Lemma of_kind_cons k t l :
  of_kind k (t :: l) = (if String.eqb (t_kind t) k then t_failed t else 0) + of_kind k l.
Proof. done. Qed.

Lemma add_tally_kind k merged t :
  of_kind k (add_tally merged t) = of_kind k merged + (if String.eqb (t_kind t) k then t_failed t else 0).
Proof.
  induction merged as [|m rest IH]; simpl.
  { rewrite of_kind_cons. change (of_kind k []) with 0. lia. }
  destruct (String.eqb_spec (t_kind m) (t_kind t)) as [E|E]; rewrite !of_kind_cons; simpl.
  - rewrite E. destruct (String.eqb (t_kind t) k); lia.
  - rewrite IH. lia.
Qed.

Lemma add_tally_kinds merged t :
  t_kind <$> add_tally merged t =
  if bool_decide (t_kind t ∈ t_kind <$> merged) then t_kind <$> merged
  else (t_kind <$> merged) ++ [t_kind t].
Proof.
  induction merged as [|m rest IH]; simpl; [done|].
  destruct (String.eqb_spec (t_kind m) (t_kind t)) as [E|E]; csimpl.
  - rewrite bool_decide_eq_true_2 by (rewrite E; left). done.
  - rewrite IH. do 2 case_bool_decide; set_solver.
Qed.

(** Merging sources adds up: the merged tally has each kind once, with the
    failures of that kind over all the sources. *)
Theorem mergeTallies_sums `{Locale} tallies :
  NoDup (t_kind <$> mergeTallies tallies) /\
  forall k, of_kind k (mergeTallies tallies) = of_kind k (mjoin tallies).
Proof.
  unfold mergeTallies. rewrite stable_sort_perm. split.
  - assert (Hn : forall l acc, NoDup (t_kind <$> acc) -> NoDup (t_kind <$> fold_left add_tally l acc)).
    { induction l as [|t l IH]; intros acc Ha; simpl; [done|]. apply IH. rewrite add_tally_kinds.
      case_bool_decide; [done|]. apply NoDup_app. set_solver by auto using NoDup_singleton. }
    apply Hn. constructor.
  - intros k.
    assert (forall l, of_kind k (stable_sort larger_first l) = of_kind k l) as ->
      by (intros l; apply zsum_perm, stable_sort_perm).
    assert (Hs : forall l acc, of_kind k (fold_left add_tally l acc) = of_kind k acc + of_kind k l).
    { induction l as [|t l IH]; intros acc; simpl; [change (of_kind k []) with 0; lia|].
      rewrite IH, add_tally_kind, of_kind_cons. lia. }
    rewrite Hs. change (of_kind k []) with 0. lia.
Qed.
