(* ===== verification/Preflight.v ===== *)
(** The check against live state right before a hide or a drop.  Models
    [apps/api/src/jobs/preflight.ts]; the live readings it asks the collector
    for are its arguments. *)
From S2P Require Import Prelude EngineTypes Redundancy.

Record PreflightResult := { safe : bool; pf_reason : string; pf_spec : option IndexSpec }.

Record DropTarget := {
  dt_type : RecommendationType;
  dt_indexName : string;
  supersededBy : option string;
}.

Record IndexUsage := { iu_indexName : string; iu_ops : Z }.

(** [JSON.stringify(filter ?? null)], two of them compared. *)
Definition filter_json (filter : option (list (string * json))) : json :=
  match filter with Some entries => JObj entries | None => JNull end.

Definition enforcesTheSame (original replacement : IndexSpec) : bool :=
  if String.eqb (name replacement) (name original) then false
  else if negb (length (keys replacement) =? length (keys original))%nat then false
  else if negb (every_i (fun i key =>
         bool_decide (field <$> keys original !! i = Some (field key))) (keys replacement)) then false
  else if existsb (fun key => negb (is_ordered (direction key))) (keys replacement) then false
  else if negb (Bool.eqb (unique replacement) (unique original)) then false
  else if negb (Bool.eqb (sparse replacement) (sparse original)) then false
  else if negb (bool_decide (collation replacement = collation original)) then false
  else if negb (json_eqb (filter_json (partialFilter replacement)) (filter_json (partialFilter original)))
  then false
  else if hidden replacement then false
  else if negb (coversIncludes original replacement) then false
  else true.

Definition find_index (specs : list IndexSpec) (n : string) : option IndexSpec :=
  List.find (fun candidate => String.eqb (name candidate) n) specs.

(** Why a protected index may not go, if it may not. *)
Definition protected_refusal (specs : list IndexSpec) (spec : IndexSpec) (target : DropTarget)
    : option string :=
  if negb (isNeverDrop spec) then None
  else
    match supersededBy target with
    | None => Some "index is now protected (unique/ttl/shard key/_id_/text/geo)"%string
    | Some replacementName =>
        match find_index specs replacementName with
        | None => Some ("the replacement " +:+ replacementName +:+
            " is not on the cluster, so dropping this would remove its constraint")%string
        | Some replacement =>
            if negb (enforcesTheSame spec replacement)
            then Some (replacementName +:+
              " no longer matches this index's keys and options, so it cannot be assumed to enforce the same rule")%string
            else None
        end
    end.

Definition uncovered_refusal (specs : list IndexSpec) (spec : IndexSpec) (target : DropTarget)
    : option string :=
  if bool_decide (dt_type target = DROP_REDUNDANT) && negb (is_some (supersededBy target)) then
    match List.find (fun other => isRedundantPrefix spec other) specs with
    | None => Some "covering index no longer present"%string
    | Some _ => None
    end
  else None.

Definition usage_of (usage : list IndexUsage) (n : string) : Z :=
  zsum iu_ops (List.filter (fun stat => String.eqb (iu_indexName stat) n) usage).

Definition used_refusal (usage : list IndexUsage) (spec : IndexSpec) (target : DropTarget)
    : option string :=
  if bool_decide (dt_type target = DROP_UNUSED) then
    let ops := usage_of usage (name spec) in
    if 0 <? ops then Some ("index now has " +:+ show ops +:+ " recent ops")%string else None
  else None.

Definition hinted_refusal (hinted : list string) (spec : IndexSpec) : option string :=
  if includes hinted (name spec)
  then Some "the workload names this index with hint(), so hiding it would make those queries fail"%string
  else None.

Definition preflightDrop (specs : list IndexSpec) (usage : list IndexUsage) (hinted : list string)
    (target : DropTarget) : PreflightResult :=
  match find_index specs (dt_indexName target) with
  | None => {| safe := false; pf_reason := "index no longer exists"; pf_spec := None |}
  | Some spec =>
      let refused reason := {| safe := false; pf_reason := reason; pf_spec := Some spec |} in
      match protected_refusal specs spec target with
      | Some reason => refused reason
      | None =>
          match uncovered_refusal specs spec target with
          | Some reason => refused reason
          | None =>
              match used_refusal usage spec target with
              | Some reason => refused reason
              | None =>
                  match hinted_refusal hinted spec with
                  | Some reason => refused reason
                  | None => {| safe := true; pf_reason := "ok"; pf_spec := Some spec |}
                  end
              end
          end
      end
  end.

(** ** Lemmas *)

Lemma find_index_spec specs n s : find_index specs n = Some s -> s ∈ specs /\ name s = n.
Proof. intros [? E%String.eqb_eq]%find_elem. done. Qed.

Lemma enforcesTheSame_spec original replacement :
  enforcesTheSame original replacement = true ->
  name replacement <> name original /\
  field <$> keys replacement = field <$> keys original /\
  unique replacement = unique original /\ sparse replacement = sparse original /\
  collation replacement = collation original /\
  json_eqb (filter_json (partialFilter replacement)) (filter_json (partialFilter original)) = true /\
  hidden replacement = false /\ coversIncludes original replacement = true.
Proof.
  unfold enforcesTheSame.
  destruct (String.eqb_spec (name replacement) (name original)); [done|].
  destruct (Nat.eqb_spec (length (keys replacement)) (length (keys original))); [|done]. simpl.
  destruct (every_i _ (keys replacement)) eqn:Ef; [|done]. simpl. destruct (existsb _ _); [done|].
  destruct (Bool.eqb (unique _) _) eqn:Eu; [|done]. destruct (Bool.eqb (sparse _) _) eqn:Es; [|done].
  destruct (bool_decide (collation _ = _)) eqn:Ec; [|done]. simpl.
  destruct (json_eqb _ _); [|done]. simpl. destruct (hidden replacement); [done|].
  destruct (coversIncludes _ _); [|done]. intros _. rewrite every_i_spec in Ef.
  split_and!; try done.
  - apply list_eq_same_length with (length (keys original)); rewrite ?length_fmap; try done.
    intros i x y Hi Hx Hy. rewrite !list_lookup_fmap in *.
    apply fmap_Some in Hx as (k & Hk & ->). specialize (Ef i k Hk). apply bool_decide_eq_true in Ef.
    congruence.
  - by apply Bool.eqb_prop.
  - by apply Bool.eqb_prop.
  - by apply bool_decide_eq_true in Ec.
Qed.

Lemma preflightDrop_safe_iff specs usage hinted target :
  safe (preflightDrop specs usage hinted target) = true <->
  exists spec, find_index specs (dt_indexName target) = Some spec /\
    pf_spec (preflightDrop specs usage hinted target) = Some spec /\
    protected_refusal specs spec target = None /\ uncovered_refusal specs spec target = None /\
    used_refusal usage spec target = None /\ hinted_refusal hinted spec = None.
Proof.
  unfold preflightDrop. destruct (find_index _ _) as [spec|]; [|naive_solver].
  destruct (protected_refusal specs spec target) eqn:E1;
    [simpl; split; [done|intros (s' & [= <-] & ?); naive_solver]|].
  destruct (uncovered_refusal specs spec target) eqn:E2;
    [simpl; split; [done|intros (s' & [= <-] & ?); naive_solver]|].
  destruct (used_refusal usage spec target) eqn:E3;
    [simpl; split; [done|intros (s' & [= <-] & ?); naive_solver]|].
  destruct (hinted_refusal hinted spec) eqn:E4;
    [simpl; split; [done|intros (s' & [= <-] & ?); naive_solver]|].
  simpl. split; [intros _; by exists spec|done].
Qed.

(** What a passed pre-flight means on the cluster as it is now: the index
    is there; it is not protected, or the row's named replacement is there too
    and enforces the same rule; a redundant one is covered by a visible index; an
    unused one has no recorded operations; and no query hints it. *)
Theorem preflightDrop_safe specs usage hinted target :
  safe (preflightDrop specs usage hinted target) = true ->
  exists spec, spec ∈ specs /\ name spec = dt_indexName target /\
    pf_spec (preflightDrop specs usage hinted target) = Some spec /\
    (isNeverDrop spec = true ->
       exists r, r ∈ specs /\ supersededBy target = Some (name r) /\ enforcesTheSame spec r = true) /\
    (dt_type target = DROP_REDUNDANT -> supersededBy target = None ->
       exists other, other ∈ specs /\ isRedundantPrefix spec other = true /\ hidden other = false) /\
    (dt_type target = DROP_UNUSED -> usage_of usage (name spec) <= 0) /\
    name spec ∉ hinted.
Proof.
  rewrite preflightDrop_safe_iff. intros (spec & Hf & Hs & Hp & Hu & Huse & Hh). exists spec.
  apply find_index_spec in Hf as [Hin Hn]. split_and!; try done.
  - intros Hnd. unfold protected_refusal in Hp. rewrite Hnd in Hp. simpl in Hp.
    destruct (supersededBy target) as [rn|]; [|done].
    destruct (find_index specs rn) as [r|] eqn:Er; [|done].
    destruct (enforcesTheSame spec r) eqn:Ee; [|done].
    apply find_index_spec in Er as [Hr <-]. eauto.
  - intros Ht Hsup. unfold uncovered_refusal in Hu. rewrite Ht, Hsup in Hu. simpl in Hu.
    destruct (List.find _ specs) as [other|] eqn:Eo; [|done]. apply find_elem in Eo as [Ho Hr].
    exists other. split_and!; try done.
    apply isRedundantPrefix_spec in Hr as (Hopt & _). apply optionsCompatible_spec in Hopt. naive_solver.
  - intros Ht. unfold used_refusal in Huse. rewrite Ht in Huse. simpl in Huse.
    destruct (Z.ltb_spec 0 (usage_of usage (name spec))); [done|lia].
  - unfold hinted_refusal in Hh. destruct (includes hinted (name spec)) eqn:E; [done|].
    by apply bool_decide_eq_false in E.
Qed.

(** No drop removes a constraint: when the pre-flight lets a unique index
    go, another index that is not hidden enforces uniqueness over the same
    fields, the same documents and the same collation, and stays when this one
    is removed. *)
Theorem preflightDrop_keeps_constraint specs usage hinted target spec :
  safe (preflightDrop specs usage hinted target) = true ->
  pf_spec (preflightDrop specs usage hinted target) = Some spec ->
  unique spec = true ->
  exists r, r ∈ List.filter (fun s => negb (String.eqb (name s) (name spec))) specs /\
    unique r = true /\ hidden r = false /\ field <$> keys r = field <$> keys spec /\
    sparse r = sparse spec /\ collation r = collation spec /\
    json_eqb (filter_json (partialFilter r)) (filter_json (partialFilter spec)) = true.
Proof.
  rewrite preflightDrop_safe_iff. intros (s & Hf & Hs & Hp & _) Hspec Hu.
  rewrite Hspec in Hs. injection Hs as <-.
  unfold protected_refusal in Hp. replace (isNeverDrop spec) with true in Hp.
  2: { unfold isNeverDrop. rewrite Hu. by destruct (String.eqb _ _). }
  simpl in Hp. destruct (supersededBy target) as [rn|]; [|done].
  destruct (find_index specs rn) as [r|] eqn:Er; [|done].
  destruct (enforcesTheSame spec r) eqn:Ee; [|done].
  apply enforcesTheSame_spec in Ee as (Hn & Hk & Hu' & Hsp & Hc & Hj & Hh & _).
  apply find_index_spec in Er as [Hr _]. exists r. split_and!; try done; [|congruence].
  apply elem_of_filter_bool. split; [done|].
  by destruct (String.eqb_spec (name r) (name spec)).
Qed.

(** A unique index and the replacement built beside it with one direction
    turned. *)
Definition slot_index (n : string) (second : SortDirection) : IndexSpec :=
  {| name := n;
     keys := [{| field := "room"; direction := Ordered Pos |}; {| field := "at"; direction := Ordered second |}];
     unique := true; ttl := false; partial := false; partialFilter := None; sparse := false;
     hidden := false; isShardKey := false; collation := None; include := None |}.
Definition slots : list IndexSpec := [slot_index "old" Pos; slot_index "new" Neg].
Definition retire_old : DropTarget :=
  {| dt_type := DROP_REDUNDANT; dt_indexName := "old"; supersededBy := Some "new"%string |}.

Lemma preflightDrop_safe_witness :
  safe (preflightDrop slots [] [] retire_old) = true /\
  exists spec, spec ∈ slots /\ name spec = "old"%string /\ name spec ∉ @nil string.
Proof.
  split; [reflexivity|].
  destruct (preflightDrop_safe slots [] [] retire_old eq_refl) as (spec & H1 & H2 & _ & _ & _ & _ & H3).
  exists spec. split; [exact H1|]. split; [exact H2|exact H3].
Defined.

Lemma preflightDrop_keeps_constraint_witness :
  pf_spec (preflightDrop slots [] [] retire_old) = Some (slot_index "old" Pos) /\
  exists r, r ∈ List.filter (fun s => negb (String.eqb (name s) "old")) slots /\ unique r = true /\ hidden r = false.
Proof.
  split; [reflexivity|].
  destruct (preflightDrop_keeps_constraint slots [] [] retire_old (slot_index "old" Pos) eq_refl eq_refl eq_refl)
    as (r & H1 & H2 & H3 & _).
  exists r. split; [exact H1|]. split; [exact H2|exact H3].
Defined.
