(* ===== verification/Cooldowns.v ===== *)
(** Indexes the engine leaves alone for a while.  Models
    [apps/api/src/jobs/cooldowns.ts] over one cluster's rows of the
    [index_cooldowns] table. *)
From S2P Require Import Prelude Runs Score.

Record CooldownTarget := { cd_database : string; cd_collection : string; cd_indexName : string }.
#[export] Instance CooldownTarget_eq_dec : EqDecision CooldownTarget.
Proof. solve_decision. Defined.
#[export] Instance CooldownTarget_countable : Countable CooldownTarget.
Proof.
  refine (inj_countable'
    (fun t => (cd_database t, cd_collection t, cd_indexName t))
    (fun '(d, c, i) => {| cd_database := d; cd_collection := c; cd_indexName := i |}) _).
  by intros [].
Defined.

(** A row by the table's unique key; [until] null is forever. *)
Record Cooldown := { cd_reason : string; cd_count : Z; cd_until : option Z }.
Abbreviation Cooldowns := (gmap CooldownTarget Cooldown).

Definition nul_char : string := String (Ascii.ascii_of_nat 0) "".
Definition cooldownKey (database collection indexName : string) : string :=
  database +:+ nul_char +:+ collection +:+ nul_char +:+ indexName.

Definition WHOLE_COLLECTION : string := "".
Definition collectionCooldownKey (database collection : string) : string :=
  cooldownKey database collection WHOLE_COLLECTION.
Definition isWholeCollection (indexName : string) : bool := String.eqb indexName WHOLE_COLLECTION.

Definition in_force (now : Z) (c : Cooldown) : bool :=
  match cd_until c with None => true | Some until => now <? until end.

(** The targets whose key [activeCooldownKeys] returns. *)
Definition activeCooldownKeys (table : Cooldowns) (now : Z) : list string :=
  (fun '(t, _) => cooldownKey (cd_database t) (cd_collection t) (cd_indexName t)) <$>
  List.filter (fun '(_, c) => in_force now c) (map_to_list table).

Definition clearCooldown (table : Cooldowns) (target : CooldownTarget) : Cooldowns * bool :=
  (delete target table, is_some (table !! target)).

Definition recordManualVeto (table : Cooldowns) (target : CooldownTarget) (days : option Z)
    (reason : string) (now : Z) : Cooldowns * option Z :=
  let until := (fun days => now + days * DAY_MS) <$> days in
  let row :=
    match table !! target with
    | None => {| cd_reason := reason; cd_count := 0; cd_until := until |}
    | Some existing => {| cd_reason := reason; cd_count := cd_count existing; cd_until := until |}
    end in
  (<[target := row]> table, until).

Definition recordRegression (table : Cooldowns) (target : CooldownTarget) (observeDays : Z)
    (reason : string) (now : Z) : Cooldowns * Z :=
  let count := (cd_count <$> table !! target) ?? 0 + 1 in
  let until := now + cooldownDaysFor observeDays count * DAY_MS in
  (<[target := {| cd_reason := reason; cd_count := count; cd_until := Some until |}]> table, until).

(** ** Theorems *)

(** The regressions of one index, one after another at the given instants. *)
Definition regress (observeDays : Z) (reason : string) (target : CooldownTarget)
    (table : Cooldowns) (now : Z) : Cooldowns :=
  (recordRegression table target observeDays reason now).1.

Lemma regress_lookup observeDays reason target table now :
  regress observeDays reason target table now !! target =
  Some {| cd_reason := reason; cd_count := (cd_count <$> table !! target) ?? 0 + 1;
          cd_until := Some (now + cooldownDaysFor observeDays ((cd_count <$> table !! target) ?? 0 + 1) * DAY_MS) |}.
Proof. unfold regress, recordRegression. simpl. apply lookup_insert_eq. Qed.

(** Regressions add up and only the index concerned pays: after a list of
    regressions of one index its row counts them all on top of what it had, it
    is parked from the last of them for the days the curve gives that count, and
    every other row is as it was. *)
Theorem recordRegression_escalates observeDays reason target table nows now :
  let after := fold_left (regress observeDays reason target) (nows ++ [now]) table in
  let count := (cd_count <$> table !! target) ?? 0 + Z.of_nat (length nows) + 1 in
  after !! target = Some {| cd_reason := reason; cd_count := count;
                            cd_until := Some (now + cooldownDaysFor observeDays count * DAY_MS) |} /\
  forall other, other <> target -> after !! other = table !! other.
Proof.
  cbv zeta. rewrite fold_left_app. simpl.
  assert (Hc : forall l t, (cd_count <$> fold_left (regress observeDays reason target) l t !! target) ?? 0 =
    (cd_count <$> t !! target) ?? 0 + Z.of_nat (length l)).
  { induction l as [|x l IH]; intros t; [simpl; lia|]. cbn [fold_left]. rewrite IH, regress_lookup.
    simpl length. simpl. lia. }
  split.
  - rewrite regress_lookup, Hc. done.
  - intros other Hne.
    assert (Ho : forall l t, fold_left (regress observeDays reason target) l t !! other = t !! other).
    { induction l as [|x l IH]; intros t; [done|]. cbn [fold_left]. rewrite IH.
      apply (lookup_insert_ne). done. }
    etransitivity; [apply (lookup_insert_ne); done|]. apply Ho.
Qed.

(** A veto is not a regression, and a clear forgets one: vetoing sets the
    date (never, when no days are given) and leaves the regression count, and
    clearing removes the row with its count, whatever else the table holds. *)
Theorem veto_and_clear table target days reason now :
  let vetoed := (recordManualVeto table target days reason now).1 in
  (cd_count <$> vetoed !! target) ?? 0 = (cd_count <$> table !! target) ?? 0 /\
  (forall later, (in_force later <$> vetoed !! target) =
     Some match days with None => true | Some d => later <? now + d * DAY_MS end) /\
  (clearCooldown vetoed target).1 = (clearCooldown table target).1 /\
  (clearCooldown vetoed target).1 !! target = None.
Proof.
  unfold recordManualVeto, clearCooldown. simpl.
  rewrite !lookup_insert_eq. split_and!.
  - by destruct (table !! target).
  - intros later. unfold in_force. by destruct (table !! target), days.
  - apply (delete_insert_eq).
  - apply (lookup_delete_eq).
Qed.
