(* ===== verification/Keys.v ===== *)
(** Keys of several names joined by the NUL character ([watchKey] of
    [apps/api/src/jobs/watched.ts], [workloadKey] of [apps/api/src/engine/ports.ts]):
    names without that character can be read back from a key. *)
From S2P Require Import Prelude Cooldowns.

Lemma text_assoc (a b c : string) : a +:+ (b +:+ c) = (a +:+ b) +:+ c.
Proof. induction a as [|x a IH]; [done|]. change (String x (a +:+ (b +:+ c)) = String x ((a +:+ b) +:+ c)). by rewrite IH. Qed.

(** A name without the byte the keys are joined by. *)
Fixpoint nul_free (s : string) : bool :=
  match s with EmptyString => true | String a s => negb (String.eqb (String a "") nul_char) && nul_free s end.
Lemma nul_split a a' b b' : nul_free a = true -> nul_free a' = true ->
  a +:+ nul_char +:+ b = a' +:+ nul_char +:+ b' -> a = a' /\ b = b'.
Proof.
  revert a'. induction a as [|x a IH]; intros [|x' a'] Ha Ha' E.
  - split; [done|]. by injection E.
  - injection E as E _. cbn in Ha'. rewrite <- E in Ha'. done.
  - injection E as E _. cbn in Ha. rewrite E in Ha. done.
  - change (String x (a +:+ nul_char +:+ b) = String x' (a' +:+ nul_char +:+ b')) in E. injection E as -> E.
    cbn in Ha, Ha'. apply andb_true_iff in Ha as [_ Ha], Ha' as [_ Ha']. destruct (IH a' Ha Ha' E) as [-> ->]. done.
Qed.
Lemma digit_not_nul n : negb (String.eqb (String (pretty_N_char n) "") nul_char) = true.
Proof. unfold pretty_N_char. by destruct n as [|[[[[?|?|]|[?|?|]|]|[[?|?|]|[?|?|]|]|]|[[[?|?|]|[?|?|]|]|[[?|?|]|[?|?|]|]|]|]]. Qed.
Lemma nul_free_pretty x s : nul_free s = true -> nul_free (pretty_N_go x s) = true.
Proof.
  revert s. induction (N.lt_wf_0 x) as [x _ IH]; intros s Hs. assert (x = 0 \/ 0 < x)%N as [->|Hx] by lia.
  - by rewrite pretty_N_go_0.
  - rewrite pretty_N_go_step by done. apply IH; [by apply N.div_lt|]. cbn [nul_free]. by rewrite digit_not_nul, Hs.
Qed.
Lemma nul_free_pretty_N n : nul_free (pretty (n : N)) = true.
Proof. unfold pretty, pretty_N. case_decide; [done|]. by apply nul_free_pretty. Qed.
Lemma nul_free_show z : nul_free (show z) = true.
Proof.
  destruct z as [|p|p]; [done|exact (nul_free_pretty_N (Npos p))|]. change (nul_free ("-" +:+ pretty (Npos p)) = true).
  exact (nul_free_pretty_N (Npos p)).
Qed.
