(* ===== verification/RunLength.v ===== *)
(** How readings become runs.  Models [apps/api/src/jobs/runs.ts] and, for the
    rows of one index, the write path of [recordSnapshots] and
    [trimSupersededMembers] of [apps/api/src/jobs/collect.ts]. *)
From Stdlib Require Import Ascii.
From S2P Require Import Prelude Runs Usage Classify.

Record CurrentRun := { fingerprint : string; cr_lastSeenAt : Z }.

Definition extendsRun (current : option CurrentRun) (fp : string) (now : Z) : bool :=
  match current with
  | None => false
  | Some current =>
      if negb (String.eqb (fingerprint current) fp) then false
      else
        let sinceLastSeen := now - cr_lastSeenAt current in
        if sinceLastSeen <? 0 then false else sinceLastSeen <=? MAX_GAP_MS
  end.

Definition sep0 : string := String "000"%char "".
Definition sep1 : string := String "001"%char "".

(** The [since] text of a member; a readable stamp is one [toISOString] text per
    instant, written here as the instant. *)
Definition stamp_text (s : stamp) : string :=
  match s with At ms => show ms | Unreadable text => text end.

Definition counterFingerprint `{Locale} (members : list MemberUsage) : string :=
  join sep1 ((fun m => member m +:+ sep0 +:+ show (ops m) +:+ sep0 +:+ (stamp_text <$> since m) ?? "") <$>
    stable_sort (fun a b => localeLe (member a) (member b)) members).

Definition latencyFingerprint (readOps selfReadOps writeOps : Z) : string :=
  join sep0 [show (readOps - selfReadOps); show writeOps].

(** A row of [index_snapshots] for one index. *)
Record StoredRun := {
  sr_capturedAt : Z;
  sr_lastSeenAt : Z;
  sr_observations : Z;
  sr_maxGapMs : Z;
  sr_perMember : list MemberUsage;
  sr_opsDelta : Z;
  sr_opsTotal : Z;
  sr_countersRestarted : bool;
  sr_countersStartedAt : option stamp;
}.

Definition current_of `{Locale} (run : StoredRun) : CurrentRun :=
  {| fingerprint := counterFingerprint (sr_perMember run); cr_lastSeenAt := sr_lastSeenAt run |}.

(** The [update] of an extended run. *)
Definition extend_run (run : StoredRun) (now : Z) : StoredRun :=
  {| sr_capturedAt := sr_capturedAt run; sr_lastSeenAt := now;
     sr_observations := sr_observations run + 1;
     sr_maxGapMs := Z.max (sr_maxGapMs run) (now - sr_lastSeenAt run);
     sr_perMember := sr_perMember run; sr_opsDelta := sr_opsDelta run; sr_opsTotal := sr_opsTotal run;
     sr_countersRestarted := sr_countersRestarted run;
     sr_countersStartedAt := sr_countersStartedAt run |}.

(** The [insert] of a new run, priced against the run before it. *)
Definition open_run (previous : option (gmap string MemberUsage)) (members : list MemberUsage)
    (now : Z) : StoredRun :=
  {| sr_capturedAt := now; sr_lastSeenAt := now; sr_observations := 1; sr_maxGapMs := 0;
     sr_perMember := members; sr_opsDelta := activityBetween previous members;
     sr_opsTotal := activityInFull members;
     sr_countersRestarted := countersRestartedBetween previous members;
     sr_countersStartedAt := latestCounterStart members |}.

Definition trim_members (run : StoredRun) : StoredRun :=
  {| sr_capturedAt := sr_capturedAt run; sr_lastSeenAt := sr_lastSeenAt run;
     sr_observations := sr_observations run; sr_maxGapMs := sr_maxGapMs run; sr_perMember := [];
     sr_opsDelta := sr_opsDelta run; sr_opsTotal := sr_opsTotal run;
     sr_countersRestarted := sr_countersRestarted run;
     sr_countersStartedAt := sr_countersStartedAt run |}.

(** One collect's reading of the index; the rows newest first. *)
Definition recordSnapshot `{Locale} (rows : list StoredRun) (reading : Z * list MemberUsage)
    : list StoredRun :=
  let '(now, members) := reading in
  match rows with
  | [] => [open_run None members now]
  | run :: older =>
      if extendsRun (Some (current_of run)) (counterFingerprint members) now
      then extend_run run now :: older
      else open_run (Some (member_map (sr_perMember run))) members now :: trim_members run :: older
  end.

(** The row as the analysis loads it. *)
Definition load_run (run : StoredRun) : UsageSnapshot :=
  {| us_run := runFrom {| row_capturedAt := inl (sr_capturedAt run);
                          row_lastSeenAt := inl (sr_lastSeenAt run);
                          row_observations := inject_Z (sr_observations run);
                          row_maxGapMs := inject_Z (sr_maxGapMs run) |};
     perMember := Some (sr_perMember run); opsDelta := Some (sr_opsDelta run);
     opsTotal := Some (sr_opsTotal run); countersRestarted := Some (sr_countersRestarted run);
     countersStartedAt := sr_countersStartedAt run |}.

(** ** Notions the theorems are stated with *)

(** Readings in the order they were taken. *)
Fixpoint taken_in_order (readings : list (Z * list MemberUsage)) : Prop :=
  match readings with
  | (t, _) :: (((t', _) :: _) as rest) => t <= t' /\ taken_in_order rest
  | _ => True
  end.

(** Rows newest first, as the collector leaves them. *)
Fixpoint stored_ok (rows : list StoredRun) : Prop :=
  match rows with
  | [] => True
  | run :: older =>
      sr_capturedAt run <= sr_lastSeenAt run /\ 1 <= sr_observations run /\
      0 <= sr_maxGapMs run <= MAX_GAP_MS /\
      match older with [] => True | prev :: _ => sr_lastSeenAt prev <= sr_capturedAt run end /\
      stored_ok older
  end.

(** ** Lemmas *)

Lemma load_start run : start_ms (load_run run) = sr_capturedAt run.
Proof. done. Qed.

Lemma load_end run : sr_capturedAt run <= sr_lastSeenAt run -> end_ms (load_run run) = sr_lastSeenAt run.
Proof. intros. unfold end_ms, spanEnd. simpl. lia. Qed.

Lemma load_observations run : 1 <= sr_observations run -> observationsOf (load_run run) = sr_observations run.
Proof. intros. unfold observationsOf. simpl. unfold Math_floor. rewrite Qfloor_Z. lia. Qed.

Lemma load_interior run : 0 <= sr_maxGapMs run -> interiorGap (load_run run) = inject_Z (sr_maxGapMs run).
Proof.
  intros Hg. unfold interiorGap. simpl. replace (Qltb (inject_Z (sr_maxGapMs run)) 0) with false; [done|].
  symmetry. apply Qltb_nlt. change 0%Q with (inject_Z 0). by rewrite <- Zle_Qle.
Qed.

Section collect.
Context `{Locale}.

Definition newest_seen (rows : list StoredRun) : option Z := sr_lastSeenAt <$> head rows.

Lemma recordSnapshot_ok rows now members :
  stored_ok rows -> (forall t, newest_seen rows = Some t -> t <= now) ->
  let rows' := recordSnapshot rows (now, members) in
  stored_ok rows' /\ newest_seen rows' = Some now /\
  zsum sr_observations rows' = zsum sr_observations rows + 1 /\
  (rows <> [] -> List.last (sr_capturedAt <$> rows') 0 = List.last (sr_capturedAt <$> rows) 0).
Proof.
  intros Hok Hnow. destruct rows as [|run older]; simpl.
  { by split_and!. }
  destruct Hok as (H1 & H2 & H3 & H4 & H5). specialize (Hnow _ eq_refl).
  destruct (String.eqb _ _); simpl; [destruct (_ <? 0) eqn:E0; [|destruct (_ <=? MAX_GAP_MS) eqn:E1]|];
    rewrite !zsum_cons; simpl; split_and!; try done; try lia.
Qed.

Lemma collect_all readings rows :
  stored_ok rows -> taken_in_order readings ->
  (forall t m rest, readings = (t, m) :: rest -> forall s, newest_seen rows = Some s -> s <= t) ->
  let out := fold_left recordSnapshot readings rows in
  stored_ok out /\
  newest_seen out = (match last readings with Some (t, _) => Some t | None => newest_seen rows end) /\
  zsum sr_observations out = zsum sr_observations rows + Z.of_nat (length readings) /\
  (rows <> [] -> List.last (sr_capturedAt <$> out) 0 = List.last (sr_capturedAt <$> rows) 0).
Proof.
  revert rows. induction readings as [|[t m] readings IH]; intros rows Hok Hord Hfirst; cbv zeta.
  { simpl. split_and!; try done. lia. }
  destruct (recordSnapshot_ok rows t m Hok) as (Hok' & Hn & Hz & Hl); [eauto|].
  cbn [fold_left]. destruct (IH (recordSnapshot rows (t, m))) as (A & B & C & D); [done| | |].
  { by destruct readings as [|[t' m'] ?]; [|destruct Hord]. }
  { intros t' m' rest -> s Hs. rewrite Hn in Hs. injection Hs as <-. by destruct Hord. }
  assert (Hne : recordSnapshot rows (t, m) <> []) by (intros E; by rewrite E in Hn).
  split_and!; [done| | |].
  - rewrite B, Hn. destruct readings as [|r readings]; [done|]. rewrite last_cons_cons.
    destruct (last (r :: readings)) as [[]|] eqn:E; [done|]. by apply last_None in E.
  - rewrite C, Hz. simpl length. lia.
  - intros Hr. rewrite D by done. by apply Hl.
Qed.
End collect.

Lemma stored_separated rows : stored_ok rows -> separated (load_run <$> rev rows).
Proof.
  induction rows as [|run older IH]; [done|]. intros (H1 & _ & _ & H4 & Hok). simpl.
  specialize (IH Hok). rewrite fmap_app. csimpl.
  destruct older as [|prev older]; [done|]. simpl in *. rewrite fmap_app in *. csimpl in *.
  destruct Hok as (Hp & _). 
  assert (Hgen : forall l (a b : UsageSnapshot), separated (l ++ [a]) -> end_ms a <= start_ms b ->
    separated ((l ++ [a]) ++ [b])).
  { induction l as [|x l IHl]; intros a b Hs Hab; simpl; [done|].
    destruct l as [|y l]; simpl in *; [naive_solver|]. destruct Hs as [? Hs]. split; [done|].
    by apply (IHl a b). }
  apply Hgen; [done|]. rewrite load_start, load_end by done. done.
Qed.

(** Run-length storage loses no reading and hides no hole: whatever an
    index's readings, taken in order, the stored rows stand for exactly as many
    observations, begin at the first reading and end at the last, never overlap,
    and no row's interior gap exceeds the hole the trust gate tolerates. *)
Theorem collected_runs_faithful `{Locale} t m readings :
  taken_in_order ((t, m) :: readings) ->
  let rows := rev (fold_left recordSnapshot ((t, m) :: readings) []) in
  let history := load_run <$> rows in
  totalObservations history = Z.of_nat (S (length readings)) /\
  start_ms (hd (load_run (open_run None m t)) history) = t /\
  (exists m', last ((t, m) :: readings) = Some (end_ms (List.last history (load_run (open_run None m t))), m')) /\
  separated history /\
  forall r, r ∈ history -> (interiorGap r <= inject_Z MAX_GAP_MS)%Q.
Proof.
  intros Hord. cbv zeta. cbn [fold_left].
  set (out := fold_left recordSnapshot readings (recordSnapshot [] (t, m))).
  destruct (collect_all readings (recordSnapshot [] (t, m))) as (Hok & Hn & Hz & Hl).
  { apply (recordSnapshot_ok [] t m); done. }
  { destruct readings as [|[t' m'] readings]; [done|]. by destruct Hord. }
  { intros t' m' rest -> s [= <-]. by destruct Hord. }
  fold out in Hok, Hn, Hz, Hl.
  assert (Hall : forall r, r ∈ out -> sr_capturedAt r <= sr_lastSeenAt r /\ 1 <= sr_observations r /\
            0 <= sr_maxGapMs r <= MAX_GAP_MS).
  { clear -Hok. induction out as [|r out IH]; [set_solver|]. destruct Hok as (? & ? & ? & _ & ?).
    intros x [->|Hx]%elem_of_cons; auto. }
  assert (Hne : out <> []).
  { intros E. rewrite E in Hz. change (zsum sr_observations []) with 0 in Hz. simpl in Hz.
    rewrite zsum_cons in Hz. change (zsum sr_observations []) with 0 in Hz. simpl in Hz. lia. }
  split_and!.
  - unfold totalObservations. rewrite (zsum_perm _ _ (load_run <$> out)) by (by rewrite <- Permutation_rev).
    assert (Hsum : zsum observationsOf (load_run <$> out) = zsum sr_observations out).
    { clear -Hall. induction out as [|r out IH]; [done|]. csimpl. rewrite !zsum_cons, IH, load_observations.
      - done.
      - by apply Hall; left.
      - intros x Hx. apply Hall. by right. }
    rewrite Hsum, Hz. simpl. rewrite zsum_cons. change (zsum sr_observations []) with 0. simpl. lia.
  - specialize (Hl ltac:(done)). simpl in Hl. rewrite <- Hl. clear -Hne.
    destruct out as [|r out] using rev_ind; [done|]. rewrite rev_app_distr. simpl.
    rewrite load_start, fmap_app. simpl. by rewrite List.last_last.
  - destruct out as [|r out]; [done|]. simpl rev. rewrite fmap_app. csimpl. rewrite List.last_last.
    rewrite load_end by (by apply Hall; left). simpl in Hn.
    destruct readings as [|x readings]; [simpl in *; injection Hn as ->; eauto|].
    rewrite last_cons_cons. destruct (last (x :: readings)) as [[t' m']|] eqn:E;
      [injection Hn as ->; eauto|by apply last_None in E].
  - by apply stored_separated.
  - intros r (x & -> & Hx)%list_elem_of_fmap. rewrite list_elem_of_In, <- in_rev, <- list_elem_of_In in Hx.
    destruct (Hall x) as (_ & _ & Hg); [done|]. rewrite load_interior, <- Zle_Qle by lia. lia.
Qed.

Lemma collected_runs_faithful_witness :
  taken_in_order [(0, []); (3600000, []); (3600000 * 60, [])] /\
  totalObservations (load_run <$>
    rev (fold_left (recordSnapshot (H := String.leb)) [(0, []); (3600000, []); (3600000 * 60, [])] [])) = 3.
Proof.
  assert (Ho : taken_in_order [(0, []); (3600000, []); (3600000 * 60, [])]) by (simpl; lia).
  split; [exact Ho|].
  exact (proj1 (@collected_runs_faithful String.leb 0 [] [(3600000, []); (3600000 * 60, [])] Ho)).
Defined.
