(* ===== verification/StoredSpec.v ===== *)
(** An index's specification as stored JSON.  Models [serializeSpec] of
    [apps/api/src/mongo/snapshots.ts] and [parseStoredSpec] with its schema of
    [apps/api/src/analysis/recommend.ts].  The order [jsonb] gives an object's
    keys is not modelled. *)
From S2P Require Import Prelude EngineTypes.

Local Open Scope string_scope.

(** ** Writing *)

Definition direction_json (d : IndexDirection) : json :=
  match d with
  | Ordered Pos => JNum 1 | Ordered Neg => JNum (-1) | TwoD => JStr "2d" | TwoDSphere => JStr "2dsphere"
  | Text => JStr "text" | Hashed => JStr "hashed"
  end.

Definition key_json (k : IndexKey) : json :=
  JObj [("field", JStr (field k)); ("direction", direction_json (direction k))].

(** A value or JSON's [null]. *)
Definition or_null {A} (f : A -> json) (v : option A) : json :=
  match v with Some v => f v | None => JNull end.

Definition serializeSpec (spec : IndexSpec) : json :=
  JObj ([("name", JStr (name spec)); ("keys", JArr (key_json <$> keys spec)); ("unique", JBool (unique spec));
         ("ttl", JBool (ttl spec)); ("partial", JBool (partial spec));
         ("partialFilter", or_null JObj (partialFilter spec)); ("sparse", JBool (sparse spec));
         ("hidden", JBool (hidden spec)); ("isShardKey", JBool (isShardKey spec));
         ("collation", or_null JStr (collation spec))] ++
        match include spec with
        | Some ((_ :: _) as columns) => [("include", JArr (JStr <$> columns))]
        | _ => []
        end).

(** ** Reading: the schema's parse, [None] where it throws *)

Definition as_string (v : json) : option string := match v with JStr s => Some s | _ => None end.
Definition as_bool (v : json) : option bool := match v with JBool b => Some b | _ => None end.
Definition as_array (v : json) : option (list json) := match v with JArr l => Some l | _ => None end.
Definition as_object (v : json) : option (list (string * json)) :=
  match v with JObj l => Some l | _ => None end.

Definition member (object : list (string * json)) (key : string) : option json :=
  snd <$> List.find (fun '(k, _) => String.eqb k key) object.

(** A required member, and one that may be missing or [null]. *)
Definition required {A} (parse : json -> option A) (object : list (string * json)) (key : string)
    : option A := member object key ≫= parse.
Definition nullish {A} (parse : json -> option A) (object : list (string * json)) (key : string)
    : option (option A) :=
  match member object key with
  | None | Some JNull => Some None
  | Some v => Some <$> parse v
  end.

Definition directionSchema (v : json) : option IndexDirection :=
  match v with
  | JNum q => if Qeq_bool q 1 then Some (Ordered Pos) else if Qeq_bool q (-1) then Some (Ordered Neg) else None
  | JStr s =>
      if String.eqb s "2d" then Some TwoD else if String.eqb s "2dsphere" then Some TwoDSphere
      else if String.eqb s "text" then Some Text else if String.eqb s "hashed" then Some Hashed else None
  | _ => None
  end.

Definition keySchema (v : json) : option IndexKey :=
  object ← as_object v;
  f ← required as_string object "field";
  d ← required directionSchema object "direction";
  Some {| field := f; direction := d |}.

Definition array_of {A} (parse : json -> option A) (v : json) : option (list A) :=
  l ← as_array v; mapM parse l.

(** [z.array(z.string()).optional()]: missing, but not [null]. *)
Definition optional_strings (object : list (string * json)) (key : string) : option (option (list string)) :=
  match member object key with None => Some None | Some v => Some <$> array_of as_string v end.

Definition parseStoredSpec (v : json) : option IndexSpec :=
  object ← as_object v;
  n ← required as_string object "name";
  ks ← required (array_of keySchema) object "keys";
  u ← required as_bool object "unique";
  t ← required as_bool object "ttl";
  p ← required as_bool object "partial";
  pf ← nullish as_object object "partialFilter";
  sp ← required as_bool object "sparse";
  h ← required as_bool object "hidden";
  sh ← required as_bool object "isShardKey";
  co ← nullish as_string object "collation";
  inc ← optional_strings object "include";
  Some {| name := n; keys := ks; unique := u; ttl := t; partial := p; partialFilter := pf; sparse := sp;
          hidden := h; isShardKey := sh; collation := co; include := inc |}.

(** ** The round trip *)

(** An empty list of covering columns is stored as none. *)
Definition stored_include (columns : option (list string)) : option (list string) :=
  match columns with Some (_ :: _) => columns | _ => None end.

Definition with_include (columns : option (list string)) (s : IndexSpec) : IndexSpec :=
  {| name := name s; keys := keys s; unique := unique s; ttl := ttl s; partial := partial s;
     partialFilter := partialFilter s; sparse := sparse s; hidden := hidden s;
     isShardKey := isShardKey s; collation := collation s; include := columns |}.

Lemma mapM_serialized {A} (f : A -> json) parse (l : list A) :
  (forall x, parse (f x) = Some x) -> mapM parse (f <$> l) = Some l.
Proof. intros Hf. apply mapM_Some_2. apply Forall2_fmap_l, Forall_Forall2_diag, Forall_true. done. Qed.

Lemma keySchema_json k : keySchema (key_json k) = Some k.
Proof. by destruct k as [f [[|]| | | |]]. Qed.

(** A stored specification reads back as itself, whatever the index is: its keys
    with their directions and special types, every option and its covering
    columns, an empty list of them apart. *)
Theorem storedSpec_roundtrip spec :
  parseStoredSpec (serializeSpec spec) = Some (with_include (stored_include (include spec)) spec).
Proof.
  destruct spec as [n ks u t p pf sp h sh co inc].
  assert (Hk : array_of keySchema (JArr (key_json <$> ks)) = Some ks) by (apply mapM_serialized, keySchema_json).
  assert (Hi : forall l, array_of as_string (JArr (JStr <$> l)) = Some l) by (intros l; by apply mapM_serialized).
  unfold parseStoredSpec, serializeSpec, required, nullish, optional_strings, member, or_null, stored_include.
  simpl keys. generalize dependent (key_json <$> ks). intros stored Hk.
  destruct inc as [[|c cs]|]; [clear Hi|specialize (Hi (c :: cs)); csimpl in Hi|clear Hi];
    destruct pf as [pf|], co as [co|]; cbn -[array_of]; rewrite Hk; cbn -[array_of]; try rewrite Hi; reflexivity.
Qed.
