(* ===== verification/Store.v ===== *)
(** What the passes read and write: the rows of one cluster's tables
    ([recommendations], [actions], [index_cooldowns], [roi_metrics] of
    [apps/api/src/db/schema.ts]) and the customer's cluster behind the ports of
    [apps/api/src/engine/ports.ts].

    A pass is a function of this state that may throw, and what it did before it
    threw stays done: no pass runs in a transaction.  One instant [now] stands
    for every [new Date()] of a pass.  The [updatedAt] columns, events, mails and
    metrics are left out. *)
From S2P Require Import Prelude EngineTypes Preflight Cooldowns Regression Failures StoredSpec Ledger.

(** ** Rows *)

Inductive RecommendationSource := CLASSIFY | WORKLOAD | RETIRE.

(** [targetSpec.options]. *)
Record BuildOptions := {
  bo_unique : bool;
  bo_sparse : bool;
  bo_collation : option string;
  bo_partialFilter : option (list (string * json));
  bo_include : option (list string);
}.

Record TargetSpec := {
  ts_keys : list string;
  ts_retire : list string;
  ts_partial : option (list (string * json));
  ts_options : option BuildOptions;
  ts_supersededBy : option string;
}.

(** The columns of [recommendations], grouped by what writes them: the finding,
    which no pass rewrites; what the hide recorded; what the build recorded. *)
Record Finding := {
  f_type : RecommendationType;
  f_source : RecommendationSource;
  f_usageClass : option UsageClass;
  f_database : string;
  f_collection : string;
  f_indexName : string;
  f_score : Z;
  f_evidenceDays : option Z;
  f_estimatedBytesSaved : Z;
  f_urgent : bool;
  f_targetSpec : option TargetSpec;
}.

Record HideColumns := {
  hiddenAt : option Z;
  observeDays : option Z;
  observeReason : option string;
  baselineReadOps : option Z;
  baselineReadLatency : option Z;
  baselineFailedOps : option Z;
  baselineFailedReachMs : option Z;
}.

Record BuildColumns := {
  bc_builtAt : option Z;
  baselineWriteOps : option Z;
  baselineWriteLatency : option Z;
}.

Record Recommendation := {
  rec_id : nat;
  finding : Finding;
  state : RecommendationState;
  rationale : string;
  hide_columns : HideColumns;
  build_columns : BuildColumns;
}.

Definition rec_type (r : Recommendation) : RecommendationType := f_type (finding r).
Definition rec_database (r : Recommendation) : string := f_database (finding r).
Definition rec_collection (r : Recommendation) : string := f_collection (finding r).
Definition rec_indexName (r : Recommendation) : string := f_indexName (finding r).

(** ** One live claim per index

    The table's partial unique index: two rows that are still going somewhere may
    not say the same of one index, that it should go or that it should be built.
    An advisory claims nothing. *)

Definition DROP_TYPES : list RecommendationType := [DROP_UNUSED; DROP_REDUNDANT].
Definition BUILD_TYPES : list RecommendationType := [CREATE; UPDATE; MERGE; REORDER].
Definition LIVE_STATES : list RecommendationState :=
  [PROPOSED; APPROVED; HIDDEN; OBSERVE; SCHEDULED; BUILDING].
Definition is_live (r : Recommendation) : bool := bool_decide (state r ∈ LIVE_STATES).

(** What a row claims whatever its state, and what the index holds of it. *)
Definition claim_key (f : Finding) : string * string * string * bool :=
  (f_database f, f_collection f, f_indexName f, bool_decide (f_type f ∈ DROP_TYPES)).
Definition claim_of (r : Recommendation) : option (string * string * string * bool) :=
  if is_live r && negb (bool_decide (rec_type r = ADVISORY_REVIEW)) then Some (claim_key (finding r)) else None.
Definition same_claim (new r : Recommendation) : bool :=
  match claim_of new with None => false | Some k => bool_decide (claim_of r = Some k) end.

(** [.set({...})] on one row. *)
Definition set_state (s : RecommendationState) (r : Recommendation) : Recommendation :=
  {| rec_id := rec_id r; finding := finding r; state := s; rationale := rationale r;
     hide_columns := hide_columns r; build_columns := build_columns r |}.
Definition set_rationale (text : string) (r : Recommendation) : Recommendation :=
  {| rec_id := rec_id r; finding := finding r; state := state r; rationale := text;
     hide_columns := hide_columns r; build_columns := build_columns r |}.
Definition set_hide (h : HideColumns) (r : Recommendation) : Recommendation :=
  {| rec_id := rec_id r; finding := finding r; state := state r; rationale := rationale r;
     hide_columns := h; build_columns := build_columns r |}.
Definition set_build (b : BuildColumns) (r : Recommendation) : Recommendation :=
  {| rec_id := rec_id r; finding := finding r; state := state r; rationale := rationale r;
     hide_columns := hide_columns r; build_columns := b |}.
Definition clear_hiddenAt (h : HideColumns) : HideColumns :=
  {| hiddenAt := None; observeDays := observeDays h; observeReason := observeReason h;
     baselineReadOps := baselineReadOps h; baselineReadLatency := baselineReadLatency h;
     baselineFailedOps := baselineFailedOps h; baselineFailedReachMs := baselineFailedReachMs h |}.

Definition no_hide : HideColumns :=
  {| hiddenAt := None; observeDays := None; observeReason := None; baselineReadOps := None;
     baselineReadLatency := None; baselineFailedOps := None; baselineFailedReachMs := None |}.
Definition no_build : BuildColumns :=
  {| bc_builtAt := None; baselineWriteOps := None; baselineWriteLatency := None |}.

Inductive ActionKind := HIDE | DROP | BUILD_ACTION | ROLLBACK.
(** How to undo an action: the dropped index's stored specification, or the
    built index's name. *)
Inductive RollbackToken := SpecToken (spec : json) | NameToken (indexName : string).
Definition spec_token (spec : IndexSpec) : RollbackToken := SpecToken (serializeSpec spec).
Record Action := {
  act_rec : nat;
  act_kind : ActionKind;
  act_result : string;
  rollbackToken : option RollbackToken;
}.

Record RoiMetric := { roi_rec : option nat; freedBytes : Z; indexCountDelta : Z }.

(** What a producer's last pass said of its own silence. *)
Record AnalysisNote := {
  decidedAt : Z;
  consideredIndexes : Z;
  trustedIndexes : Z;
  refusals : gmap string Z;
  suppressed : gmap string Z;
}.

#[export] Instance RecommendationSource_eq_dec : EqDecision RecommendationSource.
Proof. solve_decision. Defined.
#[export] Instance RecommendationSource_countable : Countable RecommendationSource.
Proof.
  apply (inj_countable' (fun s => match s with CLASSIFY => 0 | WORKLOAD => 1 | RETIRE => 2 end)%nat
    (fun n => match n with 0 => CLASSIFY | 1 => WORKLOAD | _ => RETIRE end)%nat).
  by intros [].
Defined.
#[export] Instance ActionKind_eq_dec : EqDecision ActionKind.
Proof. solve_decision. Defined.

(** ** The watch on failing operations: the ports' types and the [failure_watches] table *)

Record WatchGap := { gap_host : string; gap_from : Z; gap_to : Z }.

Record WatchTarget := {
  wt_database : string; wt_collection : string; wt_indexName : string; beforeHide : bool }.

Record WatchMemory := {
  wm_starts : gmap string Z; wm_confirmed : gmap string Z; wm_gaps : list WatchGap }.

Record Watched := {
  w_since : gmap string Z;
  w_ours : bool;
  w_confirmed : list string;
  w_gaps : list WatchGap;
  w_ringReachMs : option Z;
}.
Inductive DatabaseWatch :=
  | WATCHED (w : Watched) | UNWATCHED (reason : string) (ours : bool) | RELEASED (ours : bool).

Definition ours (w : DatabaseWatch) : bool :=
  match w with WATCHED w => w_ours w | UNWATCHED _ o | RELEASED o => o end.

Record WatchRow := {
  starts : gmap string Z;
  confirmed : gmap string Z;
  gaps : list WatchGap;
  watching : bool;
  ringReachAt : option Z;
  ringCheckedAt : option Z;
}.
Abbreviation WatchTable := (gmap string WatchRow).

(** ** The customer's cluster *)

(** What was thrown: [IndexBuildRefusedError], or anything else. *)
Inductive exn := Refused (message : string) | Thrown (message : string).
Definition messageOf (e : exn) : string :=
  match e with Refused m | Thrown m => m end.

Record CreateIndexOptions := {
  co_name : string;
  co_unique : bool;
  co_sparse : bool;
  co_collation : option string;
  co_partialFilterExpression : option (list (string * json));
  co_include : option (list string);
}.

Inductive IndexBuildOutcome := BUILT | OUTCOME_SCHEDULED.
Inductive IndexBuildSettlement := PENDING | READY | FAILED (message : string).

(** A session with the cluster: [IndexCollector]'s readings of its current state,
    [IndexExecutor]'s writes, and [FailureWatch]'s [reconcile] where the engine
    has one, which brings the nodes' profilers in line and says what each
    database's watch came to.  Any call may throw. *)
Class EngineSession (Live : Type) := {
  listIndexes : Live -> string -> string -> exn + list IndexSpec;
  collectUsage : Live -> string -> string -> exn + list IndexUsage;
  collectHintedIndexes : Live -> string -> string -> exn + list string;
  readLatency : Live -> string -> string -> exn + LatencySample;
  collectionWrites : Live -> string -> string -> exn + LatencySample;
  latencyByCollection : option (Live -> string -> exn + list (string * LatencySample));
  collectFailedOps : Live -> string -> string -> Z -> string -> exn + FailedOpsReading;
  hide : Live -> string -> string -> string -> Live * (exn + unit);
  unhide : Live -> string -> string -> string -> Live * (exn + unit);
  drop_index : Live -> string -> string -> string -> Live * (exn + unit);
  create : Live -> string -> string -> list (string * SortDirection) -> CreateIndexOptions ->
    Live * (exn + IndexBuildOutcome);
  settleBuild : option (Live -> string -> string -> string -> Live * (exn + IndexBuildSettlement));
  reconcile : option (Live -> list WatchTarget -> list string -> gmap string WatchMemory ->
    Live * (exn + list (string * DatabaseWatch)));
}.

Definition set_hidden (h : bool) (s : IndexSpec) : IndexSpec :=
  {| name := name s; keys := keys s; unique := unique s; ttl := ttl s; partial := partial s;
     partialFilter := partialFilter s; sparse := sparse s; hidden := h;
     isShardKey := isShardKey s; collation := collation s; include := include s |}.

(** The named index hidden or shown, and the named index gone. *)
Definition mark_hidden (h : bool) (n : string) (specs : list IndexSpec) : list IndexSpec :=
  (fun s => if String.eqb (name s) n then set_hidden h s else s) <$> specs.
Definition without_index (n : string) (specs : list IndexSpec) : list IndexSpec :=
  List.filter (fun s => negb (String.eqb (name s) n)) specs.

(** The index a build leaves, as the collector reads it back. *)
Definition created_spec (keys : list (string * SortDirection)) (options : CreateIndexOptions) : IndexSpec :=
  {| name := co_name options;
     keys := (fun '(f, d) => {| field := f; direction := Ordered d |}) <$> keys;
     unique := co_unique options; ttl := false; partial := is_some (co_partialFilterExpression options);
     partialFilter := co_partialFilterExpression options; sparse := co_sparse options; hidden := false;
     isShardKey := false; collation := co_collation options; include := co_include options |}.

(** What the passes rely on of an adapter, against the indexes really on the
    cluster: a listing is true; a write changes the named index of the named
    collection and nothing else; one that throws changed nothing; building an
    index, or asking how a build went, hides none; and a profiler is not an
    index. *)
Class SessionLaws (Live : Type) `{EngineSession Live} (indexes : Live -> string -> string -> list IndexSpec) := {
  listIndexes_true l d c specs : listIndexes l d c = inr specs -> specs = indexes l d c;
  hide_effect l d c n l' out : hide l d c n = (l', out) ->
    indexes l' d c = (if out is inr _ then mark_hidden true n (indexes l d c) else indexes l d c) /\
    forall d' c', (d', c') <> (d, c) -> indexes l' d' c' = indexes l d' c';
  unhide_effect l d c n l' out : unhide l d c n = (l', out) ->
    indexes l' d c = (if out is inr _ then mark_hidden false n (indexes l d c) else indexes l d c) /\
    forall d' c', (d', c') <> (d, c) -> indexes l' d' c' = indexes l d' c';
  drop_effect l d c n l' out : drop_index l d c n = (l', out) ->
    indexes l' d c = (if out is inr _ then without_index n (indexes l d c) else indexes l d c) /\
    forall d' c', (d', c') <> (d, c) -> indexes l' d' c' = indexes l d' c';
  create_hides_nothing l d c ks options d' c' spec :
    spec ∈ indexes (create l d c ks options).1 d' c' -> hidden spec = true -> spec ∈ indexes l d' c';
  settle_hides_nothing settle l d c n d' c' spec : settleBuild = Some settle ->
    spec ∈ indexes (settle l d c n).1 d' c' -> hidden spec = true -> spec ∈ indexes l d' c';
  reconcile_effect watch l targets release memory d c : reconcile = Some watch ->
    indexes (watch l targets release memory).1 d c = indexes l d c;
}.

(** What building relies on besides, of an engine whose indexes are those that
    [holds]: a build that is done has left one more index, of the name it was
    given and visible, and the very one asked for where the engine can hold it; one
    that throws, or only started, has left nothing; and what is listed, and orders no
    table, is among what the engine holds. *)
Class BuildLaws (Live : Type) `{EngineSession Live} (indexes : Live -> string -> string -> list IndexSpec)
    (holds : IndexSpec -> Prop) := {
  create_effect l d c ks options l' out :
    co_name options ∉ (name <$> indexes l d c) -> create l d c ks options = (l', out) ->
    (if out is inr BUILT
     then exists spec, indexes l' d c ≡ₚ indexes l d c ++ [spec] /\ name spec = co_name options /\ hidden spec = false /\
            (holds (created_spec ks options) -> spec = created_spec ks options)
     else indexes l' d c = indexes l d c) /\
    forall d' c', (d', c') <> (d, c) -> indexes l' d' c' = indexes l d' c';
  listed_holds l d c spec : spec ∈ indexes l d c -> isShardKey spec = false -> holds (set_hidden false spec);
}.

(** ** Passes *)

Record Store (Live : Type) := {
  recs : list Recommendation;
  actions : list Action;
  cooldowns : Cooldowns;
  roi : list RoiMetric;
  nextId : nat;
  watchTable : WatchTable;
  notes : gmap RecommendationSource AnalysisNote;
  shapes : list ShapeRow;
  live : Live;
}.
#[global] Arguments recs {Live}.
#[global] Arguments actions {Live}.
#[global] Arguments cooldowns {Live}.
#[global] Arguments roi {Live}.
#[global] Arguments nextId {Live}.
#[global] Arguments watchTable {Live}.
#[global] Arguments notes {Live}.
#[global] Arguments shapes {Live}.
#[global] Arguments live {Live}.

Definition pass (Live A : Type) : Type := Store Live -> Store Live * (exn + A).

#[export] Instance pass_ret {Live} : MRet (pass Live) := fun A a s => (s, inr a).
#[export] Instance pass_bind {Live} : MBind (pass Live) := fun A B k m s =>
  match m s with (s', inr a) => k a s' | (s', inl e) => (s', inl e) end.

Section passes.
Context {Live : Type}.
Abbreviation pass := (pass Live).

Definition throw {A} (e : exn) : pass A := fun s => (s, inl e).
Definition try_catch {A} (m : pass A) (handler : exn -> pass A) : pass A :=
  fun s => match m s with (s', inr a) => (s', inr a) | (s', inl e) => handler e s' end.
Definition get : pass (Store Live) := fun s => (s, inr s).

(** A reading of the cluster, and a write to it. *)
Definition read {A} (f : Live -> exn + A) : pass A := fun s => (s, f (live s)).
Definition write {A} (f : Live -> Live * (exn + A)) : pass A :=
  fun s => let '(l, out) := f (live s) in
    ({| recs := recs s; actions := actions s; cooldowns := cooldowns s; roi := roi s;
        nextId := nextId s; watchTable := watchTable s; notes := notes s; shapes := shapes s; live := l |}, out).

Definition with_recs (f : list Recommendation -> list Recommendation) (s : Store Live) : Store Live :=
  {| recs := f (recs s); actions := actions s; cooldowns := cooldowns s; roi := roi s;
     nextId := nextId s; watchTable := watchTable s; notes := notes s; shapes := shapes s; live := live s |}.

(** [update(recommendations).set(...).where(eq(recommendations.id, id))]. *)
Definition update_where (id : nat) (f : Recommendation -> Recommendation)
    (rows : list Recommendation) : list Recommendation :=
  (fun r => if (rec_id r =? id)%nat then f r else r) <$> rows.
Definition update_rec (id : nat) (f : Recommendation -> Recommendation) : pass unit :=
  fun s => (with_recs (update_where id f) s, inr tt).

(** [insert(actions)]; newest first. *)
Definition insert_action (id : nat) (kind : ActionKind) (result : string) (token : option RollbackToken)
    : pass unit :=
  fun s => ({| recs := recs s;
               actions := {| act_rec := id; act_kind := kind; act_result := result;
                             rollbackToken := token |} :: actions s;
               cooldowns := cooldowns s; roi := roi s; nextId := nextId s; watchTable := watchTable s; notes := notes s; shapes := shapes s; live := live s |}, inr tt).

(** The rows of [failure_watches] rewritten. *)
Definition update_watches (f : WatchTable -> WatchTable) : pass unit :=
  fun s => ({| recs := recs s; actions := actions s; cooldowns := cooldowns s; roi := roi s;
               nextId := nextId s; watchTable := f (watchTable s); notes := notes s; shapes := shapes s; live := live s |}, inr tt).

Definition insert_roi (row : RoiMetric) : pass unit :=
  fun s => ({| recs := recs s; actions := actions s; cooldowns := cooldowns s; roi := row :: roi s;
               nextId := nextId s; watchTable := watchTable s; notes := notes s; shapes := shapes s; live := live s |}, inr tt).

(** [recordRegression] on the cluster's table; the date the index is parked until. *)
Definition park (target : CooldownTarget) (observeDays : Z) (reason : string) (now : Z) : pass Z :=
  fun s =>
    let '(table, until) := recordRegression (cooldowns s) target observeDays reason now in
    ({| recs := recs s; actions := actions s; cooldowns := table; roi := roi s;
        nextId := nextId s; watchTable := watchTable s; notes := notes s; shapes := shapes s; live := live s |}, inr until).

(** [insert ... onConflictDoNothing ... returning]: whether the row landed. *)
Definition insert_rec (row : nat -> Recommendation) : pass bool :=
  fun s =>
    let new := row (nextId s) in
    if existsb (same_claim new) (recs s) then (s, inr false)
    else ({| recs := recs s ++ [new]; actions := actions s; cooldowns := cooldowns s;
             roi := roi s; nextId := S (nextId s); watchTable := watchTable s; notes := notes s; shapes := shapes s;
             live := live s |}, inr true).

(** One row of a batch inserted. *)
Definition file {A} (row : A -> nat -> Recommendation) (_ : unit) (x : A) : pass unit :=
  insert_rec (row x);; mret tt.

(** [delete(recommendations)], which takes the rows' actions with it and leaves
    their savings without a row. *)
Definition delete_recs (doomed : Recommendation -> bool) : pass unit :=
  fun s =>
    let gone := rec_id <$> List.filter doomed (recs s) in
    ({| recs := List.filter (fun r => negb (doomed r)) (recs s);
        actions := List.filter (fun a => negb (bool_decide (act_rec a ∈ gone))) (actions s);
        cooldowns := cooldowns s;
        roi := (fun m => {| roi_rec := id ← roi_rec m; if bool_decide (id ∈ gone) then None else Some id;
                            freedBytes := freedBytes m; indexCountDelta := indexCountDelta m |}) <$> roi s;
        nextId := nextId s; watchTable := watchTable s; notes := notes s; shapes := shapes s; live := live s |}, inr tt).

(** The note of a producer, replaced whole. *)
Definition put_note (source : RecommendationSource) (note : AnalysisNote) : pass unit :=
  fun s => ({| recs := recs s; actions := actions s; cooldowns := cooldowns s; roi := roi s;
               nextId := nextId s; watchTable := watchTable s; notes := <[source := note]> (notes s); shapes := shapes s;
               live := live s |}, inr tt).

(** The rows of [workload_shapes] rewritten. *)
Definition update_shapes (f : list ShapeRow -> list ShapeRow) : pass unit :=
  fun s => ({| recs := recs s; actions := actions s; cooldowns := cooldowns s; roi := roi s;
               nextId := nextId s; watchTable := watchTable s; notes := notes s; shapes := f (shapes s);
               live := live s |}, inr tt).

(** [for (const x of xs) ...], the exceptions it does not catch ending it. *)
Fixpoint for_each {A S} (xs : list A) (acc : S) (body : S -> A -> pass S) : pass S :=
  match xs with
  | [] => mret acc
  | x :: xs => acc ← body acc x; for_each xs acc body
  end.

(** The rows in a state. *)
Definition in_state (st : RecommendationState) (s : Store Live) : list Recommendation :=
  List.filter (fun r => bool_decide (state r = st)) (recs s).
End passes.

#[global] Arguments update_where : simpl never.

(** ** The pre-flight against the live cluster *)

Definition drop_target (r : Recommendation) : DropTarget :=
  {| dt_type := rec_type r; dt_indexName := rec_indexName r;
     supersededBy := f_targetSpec (finding r) ≫= ts_supersededBy |}.

(** [preflightDrop] reading as it goes: the usage only for an unused drop nothing
    refused yet, the hints last. *)
Definition preflightLive {Live} `{EngineSession Live} (r : Recommendation) : pass Live PreflightResult :=
  let target := drop_target r in
  let d := rec_database r in
  let c := rec_collection r in
  specs ← read (fun l => listIndexes l d c);
  let early := preflightDrop specs [] [] target in
  if negb (safe early) then mret early
  else
    usage ← (if bool_decide (dt_type target = DROP_UNUSED)
              then read (fun l => collectUsage l d c) else mret []);
    let mid := preflightDrop specs usage [] target in
    if negb (safe mid) then mret mid
    else
      hinted ← read (fun l => collectHintedIndexes l d c);
      mret (preflightDrop specs usage hinted target).

(** ** Lemmas *)

Section lemmas.
Context {Live : Type} `{EngineSession Live}.

(** The pre-flight reads and writes nothing. *)
Lemma preflightLive_store r s : (preflightLive r s).1 = s.
Proof.
  unfold preflightLive, mbind, pass_bind, read. destruct (listIndexes _ _ _); [done|]. simpl.
  destruct (safe _); [|done]. simpl.
  case_bool_decide; simpl.
  - destruct (collectUsage _ _ _); [done|]. simpl. destruct (safe _); [|done]. simpl.
    by destruct (collectHintedIndexes _ _ _).
  - destruct (safe _); [|done]. simpl. by destruct (collectHintedIndexes _ _ _).
Qed.

(** A passed one passed on what the cluster answered. *)
Lemma preflightLive_safe r s s' check :
  preflightLive r s = (s', inr check) -> safe check = true ->
  exists specs usage hinted,
    listIndexes (live s) (rec_database r) (rec_collection r) = inr specs /\
    collectHintedIndexes (live s) (rec_database r) (rec_collection r) = inr hinted /\
    (rec_type r = DROP_UNUSED -> collectUsage (live s) (rec_database r) (rec_collection r) = inr usage) /\
    check = preflightDrop specs usage hinted (drop_target r).
Proof.
  unfold preflightLive, mbind, pass_bind, read. destruct (listIndexes _ _ _) as [|specs] eqn:E1; [done|]. simpl.
  destruct (safe (preflightDrop specs [] [] _)) eqn:Es1.
  2: { simpl. intros [= <- <-]. congruence. }
  simpl. case_bool_decide as Ht; simpl.
  - destruct (collectUsage _ _ _) as [|usage] eqn:E2; [done|]. simpl.
    destruct (safe (preflightDrop specs usage [] _)) eqn:Es2.
    2: { simpl. intros [= <- <-]. congruence. }
    simpl. destruct (collectHintedIndexes _ _ _) as [|hs] eqn:E3; [done|]. simpl.
    intros [= <- <-] _. by exists specs, usage, hs.
  - rewrite Es1. simpl. destruct (collectHintedIndexes _ _ _) as [|hs] eqn:E3; [done|]. simpl.
    intros [= <- <-] _. by exists specs, [], hs.
Qed.

Lemma update_where_ids id f rows :
  (forall r, rec_id (f r) = rec_id r) -> rec_id <$> update_where id f rows = rec_id <$> rows.
Proof.
  intros Hf. unfold update_where. rewrite <- list_fmap_compose. apply list_fmap_ext.
  intros _ r _. simpl. by destruct (rec_id r =? id)%nat.
Qed.

Lemma NoDup_id_inj (rows : list Recommendation) r1 r2 :
  NoDup (rec_id <$> rows) -> r1 ∈ rows -> r2 ∈ rows -> rec_id r1 = rec_id r2 -> r1 = r2.
Proof.
  induction rows as [|x rows IH]; csimpl; [set_solver|]. intros [Hx Hn]%NoDup_cons.
  intros [->|H1]%elem_of_cons [->|H2]%elem_of_cons E; auto; exfalso; apply Hx;
    [rewrite E|rewrite <- E]; by apply list_elem_of_fmap_2.
Qed.

Lemma elem_of_update_where id f rows r :
  r ∈ rows -> rec_id r <> id -> r ∈ update_where id f rows.
Proof.
  intros Hr Hid. apply list_elem_of_fmap. exists r. split; [|done].
  by destruct (Nat.eqb_spec (rec_id r) id).
Qed.

Lemma elem_of_update_where_hit f rows r :
  r ∈ rows -> f r ∈ update_where (rec_id r) f rows.
Proof. intros Hr. apply list_elem_of_fmap. exists r. by rewrite Nat.eqb_refl. Qed.

Lemma elem_of_update_where_inv id f rows r :
  r ∈ update_where id f rows ->
  exists r0, r0 ∈ rows /\ (rec_id r0 = id /\ r = f r0 \/ rec_id r0 <> id /\ r = r0).
Proof.
  intros (r0 & -> & Hr0)%list_elem_of_fmap. exists r0. split; [done|].
  destruct (Nat.eqb_spec (rec_id r0) id); naive_solver.
Qed.
End lemmas.

Lemma elem_of_mark_hidden h n specs s :
  s ∈ mark_hidden h n specs ->
  exists s0, s0 ∈ specs /\ name s = name s0 /\ hidden s = (if String.eqb (name s0) n then h else hidden s0).
Proof.
  intros (s0 & -> & Hs0)%list_elem_of_fmap. exists s0. split; [done|]. by destruct (String.eqb _ _).
Qed.

(** ** What a pass keeps whatever it does and wherever it throws *)

Section preserves.
Context {Live : Type} (P : Store Live -> Prop).

Definition preserves {A} (m : pass Live A) : Prop := forall s, P s -> P (m s).1.

Lemma preserves_ret {A} (a : A) : preserves (mret a).
Proof. intros s Hs. exact Hs. Qed.
Lemma preserves_get : preserves get.
Proof. intros s Hs. exact Hs. Qed.
Lemma preserves_throw {A} e : preserves (throw (A := A) e).
Proof. intros s Hs. exact Hs. Qed.
Lemma preserves_read {A} (f : Live -> exn + A) : preserves (read f).
Proof. intros s Hs. exact Hs. Qed.

Lemma preserves_bind {A B} (m : pass Live A) (k : A -> pass Live B) :
  preserves m -> (forall a, preserves (k a)) -> preserves (mbind k m).
Proof.
  intros Hm Hk s Hs. specialize (Hm s Hs). unfold mbind, pass_bind.
  destruct (m s) as [s' [e|a]]; [done|]. by apply Hk.
Qed.

Lemma preserves_get_bind {B} (k : Store Live -> pass Live B) :
  (forall s0, P s0 -> preserves (k s0)) -> preserves (mbind k get).
Proof. intros Hk s Hs. by apply Hk. Qed.

Lemma bind_post {A B} (m : pass Live A) (k : A -> pass Live B) s :
  P (m s).1 -> (forall a s', m s = (s', inr a) -> P (k a s').1) -> P (mbind k m s).1.
Proof.
  intros Hm Hk. unfold mbind, pass_bind. destruct (m s) as [s' [e|a]]; [done|]. by apply Hk.
Qed.

Lemma preserves_try {A} (m : pass Live A) handler :
  preserves m -> (forall e, preserves (handler e)) -> preserves (try_catch m handler).
Proof.
  intros Hm Hh s Hs. specialize (Hm s Hs). unfold try_catch.
  destruct (m s) as [s' [e|a]]; [by apply Hh|done].
Qed.

Lemma preserves_for_each {A S} (xs : list A) (body : S -> A -> pass Live S) :
  (forall acc x, x ∈ xs -> preserves (body acc x)) -> forall acc, preserves (for_each xs acc body).
Proof.
  induction xs as [|x xs IH]; intros Hb acc; [apply preserves_ret|]. cbn [for_each].
  apply preserves_bind; [apply Hb; left|]. intros acc'. apply IH. intros acc'' y Hy. apply Hb. by right.
Qed.
End preserves.

(** A first part keeps [P], from which what is left reaches [R]. *)
Lemma leads_bind {Live A B} (P R : Store Live -> Prop) (m : pass Live A) (k : A -> pass Live B) s :
  preserves P m -> P s -> (forall s, P s -> R s) -> (forall a s', P s' -> R (k a s').1) -> R (mbind k m s).1.
Proof.
  intros Hm Hs Hr Hk. apply bind_post; [by apply Hr, Hm|]. intros a s' E. apply Hk.
  specialize (Hm s Hs). by rewrite E in Hm.
Qed.
Lemma preserves_and {Live A} (P Q : Store Live -> Prop) (m : pass Live A) :
  preserves P m -> preserves Q m -> preserves (fun s => P s /\ Q s) m.
Proof. intros HP HQ s [Hp Hq]. split; auto. Qed.

Create HintDb passes.
#[export] Hint Resolve preserves_ret preserves_get preserves_throw preserves_read : passes.

(** *** Rows keep their ids and new ones get a free one *)

Section keyed.
Context {Live : Type}.

(** Ids are unique and the next one is free. *)
Definition well_keyed (s : Store Live) : Prop :=
  NoDup (rec_id <$> recs s) /\ Forall (fun r => (rec_id r < nextId s)%nat) (recs s).

Lemma keyed_same s s' :
  rec_id <$> recs s' = rec_id <$> recs s -> nextId s' = nextId s -> well_keyed s -> well_keyed s'.
Proof.
  intros Hr Hn [H1 H2]. split; [by rewrite Hr|].
  assert (Hb : Forall (fun i => (i < nextId s)%nat) (rec_id <$> recs s)) by by apply Forall_fmap.
  rewrite <- Hr in Hb. apply Forall_fmap in Hb. by rewrite Hn.
Qed.

Lemma keyed_update id f : (forall r, rec_id (f r) = rec_id r) -> preserves well_keyed (update_rec id f).
Proof. intros Hf s. apply keyed_same; [by apply update_where_ids|done]. Qed.
Lemma keyed_write {A} (f : Live -> Live * (exn + A)) : preserves well_keyed (write f).
Proof. intros s Hs. unfold write. destruct (f (live s)). exact Hs. Qed.
Lemma keyed_action id kind text token : preserves well_keyed (insert_action id kind text token).
Proof. intros s Hs. exact Hs. Qed.
Lemma keyed_roi row : preserves well_keyed (insert_roi row).
Proof. intros s Hs. exact Hs. Qed.
Lemma keyed_park target days reason now : preserves well_keyed (park target days reason now).
Proof. intros s Hs. exact Hs. Qed.
Lemma keyed_watches f : preserves well_keyed (update_watches f).
Proof. intros s Hs. exact Hs. Qed.
Lemma keyed_note source note : preserves well_keyed (put_note source note).
Proof. intros s Hs. exact Hs. Qed.
Lemma keyed_shapes f : preserves well_keyed (update_shapes f).
Proof. intros s Hs. exact Hs. Qed.
Lemma keyed_insert row : (forall id, rec_id (row id) = id) -> preserves well_keyed (insert_rec row).
Proof.
  intros Hrow s [H1 H2]. unfold insert_rec. destruct (existsb _ _); [done|]. split; simpl.
  - rewrite fmap_app, NoDup_app. split_and!; [done| |apply NoDup_singleton].
    csimpl. rewrite Hrow. intros i (r & E & Hr)%list_elem_of_fmap E'%list_elem_of_singleton.
    rewrite list.Forall_forall in H2. specialize (H2 r Hr). lia.
  - rewrite Forall_app, Forall_singleton, Hrow. split; [|lia]. eapply Forall_impl; [exact H2|]. simpl. lia.
Qed.
Lemma keyed_delete doomed : preserves well_keyed (delete_recs doomed).
Proof.
  intros s [H1 H2]. split; simpl; [|by apply Forall_filter_bool].
  eapply sublist_NoDup; [exact H1|]. apply fmap_sublist, sublist_filter_bool.
Qed.
End keyed.
#[export] Hint Resolve keyed_update keyed_write keyed_action keyed_roi keyed_park keyed_watches keyed_note keyed_shapes keyed_insert keyed_delete : passes.

(** *** A row no update is aimed at stays as it is *)

Section kept_row.
Context {Live : Type} (x : Recommendation).

Definition has_row (s : Store Live) : Prop := x ∈ recs s /\ NoDup (rec_id <$> recs s).

Lemma row_update id f : id <> rec_id x -> (forall r, rec_id (f r) = rec_id r) ->
  preserves has_row (update_rec id f).
Proof.
  intros Hid Hf s [Hx Hnd]. split; [by apply elem_of_update_where|]. simpl. by rewrite update_where_ids.
Qed.
Lemma row_write {A} (f : Live -> Live * (exn + A)) : preserves has_row (write f).
Proof. intros s Hs. unfold write. destruct (f (live s)). exact Hs. Qed.
Lemma row_action id kind text token : preserves has_row (insert_action id kind text token).
Proof. intros s Hs. exact Hs. Qed.
Lemma row_roi row : preserves has_row (insert_roi row).
Proof. intros s Hs. exact Hs. Qed.
Lemma row_park target days reason now : preserves has_row (park target days reason now).
Proof. intros s Hs. exact Hs. Qed.
Lemma row_watches f : preserves has_row (update_watches f).
Proof. intros s Hs. exact Hs. Qed.
Lemma row_note source note : preserves has_row (put_note source note).
Proof. intros s Hs. exact Hs. Qed.
Lemma row_shapes f : preserves has_row (update_shapes f).
Proof. intros s Hs. exact Hs. Qed.
Lemma row_delete doomed : doomed x = false -> preserves has_row (delete_recs doomed).
Proof.
  intros Hd s [Hx Hnd]. split; simpl.
  - apply elem_of_filter_bool. by rewrite Hd.
  - eapply sublist_NoDup; [exact Hnd|]. apply fmap_sublist, sublist_filter_bool.
Qed.

(** A row picked by its state is another one. *)
Lemma picked_other s st r : has_row s -> state x <> st -> r ∈ in_state st s -> rec_id r <> rec_id x.
Proof.
  intros [Hx Hnd] Hst [Hr Hs%bool_decide_eq_true]%elem_of_filter_bool E. apply Hst.
  by rewrite <- (NoDup_id_inj (recs s) r x).
Qed.
End kept_row.
#[export] Hint Resolve row_update row_write row_action row_roi row_park row_watches row_note row_shapes : passes.

(** An update of a row that was picked by its state. *)
Ltac picked :=
  repeat match goal with
  | E : _ = _ :: _, Hr : _ ∈ _ :: _ |- _ => rewrite <- E in Hr
  | Hr : _ ∈ (if ?b then _ else _) |- _ => destruct b
  | Hr : _ ∈ List.filter _ _ |- _ => apply elem_of_filter_bool in Hr as [Hr _]
  end;
  match goal with Hr : _ ∈ in_state ?st ?s |- _ => apply (picked_other _ s st); [assumption|congruence|exact Hr] end.

(** One step of a pass by its shape, or by what is known of its parts. *)
Ltac preserve_step :=
  match goal with
  | |- preserves _ (mbind _ get) => apply preserves_get_bind; intros
  | |- preserves _ (mbind _ _) => apply preserves_bind; [|intros]
  | |- preserves _ (try_catch _ _) => apply preserves_try; [|intros]
  | |- preserves _ (for_each _ _ _) => apply preserves_for_each; intros
  | |- preserves _ (match ?x with _ => _ end) => destruct x eqn:?
  | |- preserves _ (let _ := _ in _) => cbv zeta
  | |- forall _, _ => intros
  | |- preserves _ _ => solve [eauto with passes]
  | |- preserves (has_row _) (update_rec _ _) => apply row_update; [picked|done]
  end.
Ltac preserve := repeat preserve_step.

Section preflight_keeps.
Context {Live : Type} `{EngineSession Live}.
Lemma preserves_preflight P r : preserves P (preflightLive (Live := Live) r).
Proof. intros s Hs. by rewrite preflightLive_store. Qed.
End preflight_keeps.
#[export] Hint Resolve preserves_preflight : passes.

(** *** One live claim per index *)

Section claims.
Context {Live : Type}.

Definition one_claim (s : Store Live) : Prop := NoDup (omap claim_of (recs s)).

(** The same, with the rows of some ids known to be live, and the same, with the
    claims of some ids held whatever becomes of their rows. *)
Definition live_ids (ids : list nat) (s : Store Live) : Prop :=
  one_claim s /\ forall x, x ∈ recs s -> rec_id x ∈ ids -> is_live x = true.
Definition reserved_claim (ids : list nat) (r : Recommendation) : option (string * string * string * bool) :=
  if (is_live r || bool_decide (rec_id r ∈ ids)) && negb (bool_decide (rec_type r = ADVISORY_REVIEW))
  then Some (claim_key (finding r)) else None.
Definition reserved (ids : list nat) (s : Store Live) : Prop := NoDup (omap (reserved_claim ids) (recs s)).

Lemma live_reserved ids s : live_ids ids s -> reserved ids s.
Proof.
  intros [Hc Hl]. unfold reserved, one_claim in *. erewrite omap_ext_elem; [exact Hc|].
  intros x Hx. unfold reserved_claim, claim_of. case_bool_decide as E; [|by rewrite orb_false_r].
  by rewrite (Hl x Hx E).
Qed.
Lemma reserved_one ids s : reserved ids s -> one_claim s.
Proof.
  intros Hr. eapply sublist_NoDup; [exact Hr|]. apply omap_sublist. intros x _.
  unfold reserved_claim, claim_of. destruct (is_live x); simpl; [auto|]. destruct (_ && _); auto.
Qed.
Lemma live_ids_one ids s : live_ids ids s -> one_claim s.
Proof. by intros [? _]. Qed.
Lemma one_live_ids s : one_claim s -> live_ids [] s.
Proof. intros Hs. split; [done|]. by intros x _ []%elem_of_nil. Qed.
Lemma live_ids_sub ids ids' s : ids' ⊆ ids -> live_ids ids s -> live_ids ids' s.
Proof. intros Hs [? H]. split; auto. Qed.

(** Rows picked by a live state, where ids are unique. *)
Lemma live_picked st s ids : st ∈ LIVE_STATES -> NoDup (rec_id <$> recs s) -> live_ids ids s ->
  live_ids ((rec_id <$> in_state st s) ++ ids) s.
Proof.
  intros Hst Hnd [Hc Hl]. split; [done|]. intros x Hx [(y & E & Hy)%list_elem_of_fmap|?]%elem_of_app; [|by apply Hl].
  apply elem_of_filter_bool in Hy as [Hy Hs%bool_decide_eq_true].
  rewrite (NoDup_id_inj (recs s) x y) by done. unfold is_live. rewrite Hs. by apply bool_decide_eq_true.
Qed.

(** An update that leaves the finding and can only settle a row keeps the claims
    to those there were. *)
Definition settling (f : Recommendation -> Recommendation) : Prop :=
  forall r, rec_id (f r) = rec_id r /\ finding (f r) = finding r /\ (is_live (f r) = true -> is_live r = true).
Definition reviving (f : Recommendation -> Recommendation) : Prop :=
  forall r, rec_id (f r) = rec_id r /\ finding (f r) = finding r /\ is_live (f r) = true.

Lemma claims_update ids id f rows :
  (forall r, rec_id (f r) = rec_id r /\ finding (f r) = finding r) ->
  (forall r, r ∈ rows -> rec_id r = id -> rec_id r ∈ ids \/ (is_live (f r) = true -> is_live r = true)) ->
  omap (reserved_claim ids) (update_where id f rows) `sublist_of` omap (reserved_claim ids) rows.
Proof.
  intros Hf Hl. unfold update_where. rewrite omap_fmap. apply omap_sublist. intros x Hx. simpl.
  destruct (Nat.eqb_spec (rec_id x) id) as [E|_]; [|by left].
  destruct (Hf x) as [E1 E2]. unfold reserved_claim, rec_type. rewrite E1, E2.
  destruct (Hl x Hx E) as [Hin|Hs].
  - rewrite bool_decide_true by done. rewrite !orb_true_r. by left.
  - destruct (is_live (f x)); [rewrite Hs by done; by left|]. simpl.
    destruct (bool_decide (rec_id x ∈ ids)); [|by right]. rewrite orb_true_r. by left.
Qed.

Lemma reserved_nil r : reserved_claim [] r = claim_of r.
Proof. unfold reserved_claim, claim_of. by rewrite bool_decide_false, orb_false_r by apply not_elem_of_nil. Qed.
Lemma omap_reserved_nil (rows : list Recommendation) : omap (reserved_claim []) rows = omap claim_of rows.
Proof. apply omap_ext_elem. intros x _. apply reserved_nil. Qed.
Lemma reserved_nil_one s : reserved [] s <-> one_claim s.
Proof. unfold reserved, one_claim. by rewrite omap_reserved_nil. Qed.

Lemma claim_settle id f : settling f -> preserves one_claim (update_rec id f).
Proof.
  intros Hf s Hs. apply reserved_nil_one in Hs. apply reserved_nil_one.
  eapply sublist_NoDup; [exact Hs|]. apply claims_update; [intros r; by destruct (Hf r) as (? & ? & _)|].
  intros r _ _. right. apply Hf.
Qed.
Lemma claim_live_settle ids id f : id ∉ ids -> settling f -> preserves (live_ids ids) (update_rec id f).
Proof.
  intros Hid Hf s [Hc Hl]. split; [by apply claim_settle|]. intros x Hx Hin.
  apply elem_of_update_where_inv in Hx as (x0 & Hx0 & [[E ->]|[_ ->]]); [|by apply Hl].
  destruct (Hf x0) as (E1 & _ & _). rewrite E1, E in Hin. done.
Qed.
Lemma claim_live_revive ids id f : id ∈ ids -> reviving f -> preserves (live_ids ids) (update_rec id f).
Proof.
  intros Hid Hf s Hs. split.
  - apply (reserved_one ids). pose proof (live_reserved _ _ Hs) as Hr. eapply sublist_NoDup; [exact Hr|].
    apply claims_update; [intros r; by destruct (Hf r) as (? & ? & _)|]. intros r _ ->. by left.
  - intros x Hx Hin. apply elem_of_update_where_inv in Hx as (x0 & Hx0 & [[E ->]|[_ ->]]); [apply Hf|by apply Hs].
Qed.
Lemma claim_reserved_held ids id f : id ∈ ids -> (forall r, rec_id (f r) = rec_id r /\ finding (f r) = finding r) ->
  preserves (reserved ids) (update_rec id f).
Proof.
  intros Hid Hf s Hs. eapply sublist_NoDup; [exact Hs|]. apply claims_update; [done|]. intros r _ ->. by left.
Qed.

Lemma claim_insert row : preserves one_claim (insert_rec row).
Proof.
  intros s Hs. unfold insert_rec. destruct (existsb _ _) eqn:E; [done|]. unfold one_claim in *. simpl.
  rewrite omap_app. apply NoDup_app. csimpl. unfold same_claim in E.
  destruct (claim_of (row (nextId s))) as [k|] eqn:Ek; split_and!; try done; [|apply NoDup_singleton|by set_solver|by constructor].
  intros k' (x & Hx & Ex)%list_elem_of_omap ->%list_elem_of_singleton.
  assert (existsb (fun r => bool_decide (claim_of r = Some k)) (recs s) = true); [|congruence].
  apply existsb_elem. exists x. split; [done|]. by apply bool_decide_eq_true.
Qed.
Lemma claim_live_insert ids row : (forall id, is_live (row id) = true) -> preserves (live_ids ids) (insert_rec row).
Proof.
  intros Hrow s [Hc Hl]. split; [by apply claim_insert|]. unfold insert_rec. destruct (existsb _ _); [done|].
  intros x [Hx| ->%list_elem_of_singleton]%elem_of_app; [by apply Hl|done].
Qed.
Lemma claim_delete doomed : preserves one_claim (delete_recs doomed).
Proof.
  intros s Hs. unfold one_claim in *. simpl. eapply sublist_NoDup; [exact Hs|]. clear Hs.
  induction (recs s) as [|x rows IH]; [constructor|]. simpl. destruct (doomed x); simpl.
  - destruct (claim_of x); [by constructor|done].
  - destruct (claim_of x); [by constructor|done].
Qed.

Lemma write_rows {A} (f : Live -> Live * (exn + A)) s : recs (write f s).1 = recs s.
Proof. unfold write. by destruct (f (live s)). Qed.
Lemma claim_write {A} (f : Live -> Live * (exn + A)) : preserves one_claim (write f).
Proof. intros s Hs. unfold one_claim. by rewrite write_rows. Qed.
Lemma claim_live_write {A} ids (f : Live -> Live * (exn + A)) : preserves (live_ids ids) (write f).
Proof. intros s Hs. unfold live_ids, one_claim. by rewrite write_rows. Qed.
Lemma claim_reserved_write {A} ids (f : Live -> Live * (exn + A)) : preserves (reserved ids) (write f).
Proof. intros s Hs. unfold reserved. by rewrite write_rows. Qed.
End claims.

(** A row settled, or still going. *)
Ltac settle :=
  intros ?; split_and!; [reflexivity|reflexivity|
    first [exact (fun E => E) | (intros E; vm_compute in E; discriminate E) | reflexivity]].
(** The id of a row that was picked is among the ids held. *)
Ltac held_id :=
  first [ assumption | apply elem_of_app; left; apply list_elem_of_fmap_2; assumption
        | apply list_elem_of_fmap_2; assumption ].
Ltac picked_id :=
  first [ held_id
        | repeat match goal with
          | E : _ = _ :: _, Hr : _ ∈ _ :: _ |- _ => rewrite <- E in Hr
          | Hr : _ ∈ (if ?b then _ else _) |- _ => destruct b
          | Hr : _ ∈ List.filter _ _ |- _ => apply elem_of_filter_bool in Hr as [Hr _]
          end; held_id ].
(** One step of a pass over the claims: what leaves the rows alone, or an update
    of a row. *)
Ltac claim_step :=
  first [ preserve_step
        | apply claim_settle; settle
        | apply claim_live_settle; [assumption|settle]
        | apply claim_live_revive; [picked_id|settle]
        | apply claim_reserved_held; [picked_id|by intros ?]
        | apply claim_insert
        | apply claim_live_insert; reflexivity
        | apply claim_delete
        | solve [let Hs := fresh in intros ? Hs; exact Hs]
        | apply claim_write | apply claim_live_write | apply claim_reserved_write ].
Ltac keep_claims := repeat claim_step.

Section loops.
Context {Live A S : Type}.

(** An invariant of a loop, over the elements still to come: each turn keeps it,
    or throws into a state that satisfies [E]. *)
Lemma for_each_inv (body : S -> A -> pass Live S) (I : list A -> Store Live -> Prop)
    (E : Store Live -> Prop) xs acc s :
  (forall x rest acc s, I (x :: rest) s ->
     match body acc x s with (s', inr _) => I rest s' | (s', inl _) => E s' end) ->
  I xs s ->
  match for_each xs acc body s with (s', inr _) => I [] s' | (s', inl _) => E s' end.
Proof.
  intros Hb. revert acc s. induction xs as [|x xs IH]; intros acc s HI; [done|].
  cbn [for_each]. unfold mbind, pass_bind. specialize (Hb x xs acc s HI).
  destruct (body acc x s) as [s' [e|acc']]; [done|]. by apply IH.
Qed.
End loops.

(** *** A batch of rows filed *)

Section filed.
Context {Live A : Type} (row : A -> nat -> Recommendation).

(** Filing throws nothing and changes nothing but the rows: it adds some of the
    batch in order, each under a new id, and leaves out a row only where one that
    makes the same claim is there already. *)
Lemma file_all xs (s : Store Live) :
  (forall x id, rec_id (row x id) = id) ->
  exists s' new filed, for_each xs tt (file row) s = (s', inr tt) /\
    recs s' = recs s ++ new /\ live s' = live s /\ cooldowns s' = cooldowns s /\ notes s' = notes s /\
    shapes s' = shapes s /\ (nextId s <= nextId s')%nat /\
    Forall (fun r => (nextId s <= rec_id r)%nat) new /\ filed `sublist_of` xs /\
    Forall2 (fun x r => r = row x (rec_id r)) filed new /\
    forall x, x ∈ xs -> exists r, r ∈ recs s' /\ (r = row x (rec_id r) \/ exists id, same_claim (row x id) r = true).
Proof.
  intros Hid. revert s. induction xs as [|x xs IH]; intros s.
  { exists s, [], []. rewrite app_nil_r. split_and!; try done. by intros x []%elem_of_nil. }
  cbn [for_each]. unfold mbind at 1, pass_bind at 1, file at 1. unfold mbind at 1, pass_bind at 1, insert_rec at 1.
  destruct (existsb (same_claim (row x (nextId s))) (recs s)) eqn:E; cbv beta iota delta [mret pass_ret].
  - destruct (IH s) as (s' & new & filed & Er & Hr & H1 & H2 & H3 & H4 & H5 & H6 & H7 & H8 & H9).
    exists s', new, filed. split_and!; try done; [by apply sublist_cons|].
    intros y [->|Hy]%elem_of_cons; [|by apply H9]. apply existsb_elem in E as (r & Hin & Hc).
    exists r. split; [rewrite Hr; apply elem_of_app; by left|]. right. by eexists.
  - match goal with |- context [for_each xs tt (file row) ?s1] => destruct (IH s1) as (s' & new & filed & Er & Hr & H1 & H2 & H3 & H4 & H5 & H6 & H7 & H8 & H9) end.
    simpl in *. exists s', (row x (nextId s) :: new), (x :: filed). split_and!; try done.
    + by rewrite Hr, <- app_assoc.
    + lia.
    + constructor; [by rewrite Hid|]. eapply Forall_impl; [exact H6|]. simpl. lia.
    + by constructor.
    + constructor; [by rewrite Hid|done].
    + intros y [->|Hy]%elem_of_cons; [|by apply H9]. exists (row x (nextId s)). split; [|left; by rewrite Hid].
      rewrite Hr. apply elem_of_app. left. apply elem_of_app. right. left.
Qed.

Lemma filed_from xs filed new r :
  filed `sublist_of` xs -> Forall2 (fun x r => r = row x (rec_id r)) filed new -> r ∈ new ->
  exists x, x ∈ xs /\ r = row x (rec_id r).
Proof.
  intros Hsub Hrow [i Hi]%list_elem_of_lookup. destruct (Forall2_lookup_r _ _ _ _ _ Hrow Hi) as (x & Hf & Hx).
  exists x. split; [|done]. apply (elem_of_sublist filed); [|done]. by eapply list_elem_of_lookup_2.
Qed.
End filed.
