(* ===== verification/Memory.v ===== *)
(** A cluster held in memory: one implementation of the ports of [Store], that
    shows their laws can be kept, and on which concrete passes run. *)
From S2P Require Import Prelude EngineTypes Preflight Regression Failures Store.

(** The indexes of each collection, and what every reading answers. *)
Record Memory := {
  mem_indexes : gmap (string * string) (list IndexSpec);
  mem_usage : list IndexUsage;
  mem_hints : list string;
  mem_latency : LatencySample;
  mem_failed : FailedOpsReading;
}.

Definition memory_indexes (m : Memory) (d c : string) : list IndexSpec := mem_indexes m !! (d, c) ?? [].

Definition with_indexes (m : Memory) (d c : string) (specs : list IndexSpec) : Memory :=
  {| mem_indexes := <[(d, c) := specs]> (mem_indexes m); mem_usage := mem_usage m;
     mem_hints := mem_hints m; mem_latency := mem_latency m; mem_failed := mem_failed m |}.

(** A hide or a drop of an index that is not there throws; a build of a name that
    is taken does too. *)
Definition has_index (m : Memory) (d c n : string) : bool :=
  is_some (find_index (memory_indexes m d c) n).

#[export] Instance memory_session : EngineSession Memory := {|
  listIndexes m d c := inr (memory_indexes m d c);
  collectUsage m _ _ := inr (mem_usage m);
  collectHintedIndexes m _ _ := inr (mem_hints m);
  readLatency m _ _ := inr (mem_latency m);
  collectionWrites m _ _ := inr (mem_latency m);
  latencyByCollection := None;
  collectFailedOps m _ _ _ _ := inr (mem_failed m);
  hide m d c n :=
    if has_index m d c n then (with_indexes m d c (mark_hidden true n (memory_indexes m d c)), inr tt)
    else (m, inl (Thrown "index not found"));
  unhide m d c n := (with_indexes m d c (mark_hidden false n (memory_indexes m d c)), inr tt);
  drop_index m d c n :=
    if has_index m d c n then (with_indexes m d c (without_index n (memory_indexes m d c)), inr tt)
    else (m, inl (Thrown "index not found"));
  create m d c ks options :=
    if has_index m d c (co_name options) then (m, inl (Thrown "name taken"))
    else (with_indexes m d c (memory_indexes m d c ++ [created_spec ks options]), inr BUILT);
  settleBuild := None;
  reconcile := None;
|}.

Lemma memory_with m d c specs : memory_indexes (with_indexes m d c specs) d c = specs.
Proof. unfold memory_indexes. simpl. by rewrite lookup_insert_eq. Qed.

Lemma memory_with_ne m d c specs d' c' :
  (d', c') <> (d, c) -> memory_indexes (with_indexes m d c specs) d' c' = memory_indexes m d' c'.
Proof. intros Hne. unfold memory_indexes. simpl. rewrite lookup_insert_ne; congruence. Qed.

#[export] Instance memory_laws : SessionLaws Memory memory_indexes.
Proof.
  split.
  - by intros l d c specs [= ->].
  - intros l d c n l' out. simpl. destruct (has_index _ _ _ _); intros [= <- <-]; [|done].
    split; [apply memory_with|]. intros. by apply memory_with_ne.
  - intros l d c n l' out [= <- <-]. split; [apply memory_with|]. intros. by apply memory_with_ne.
  - intros l d c n l' out. simpl. destruct (has_index _ _ _ _); intros [= <- <-]; [|done].
    split; [apply memory_with|]. intros. by apply memory_with_ne.
  - intros l d c ks options d' c' spec. simpl. destruct (has_index _ _ _ _); [done|]. simpl.
    destruct (decide ((d', c') = (d, c))) as [[= -> ->]|Hne]; [|by rewrite memory_with_ne].
    rewrite memory_with, elem_of_app. by intros [?| ->%list_elem_of_singleton].
  - done.
  - done.
Qed.
#[export] Instance memory_builds : BuildLaws Memory memory_indexes (fun _ => True).
Proof.
  split; [|done]. intros l d c ks options l' out Hn. simpl. destruct (has_index _ _ _ _); intros [= <- <-]; [done|].
  split; [|intros; by apply memory_with_ne]. exists (created_spec ks options). by rewrite memory_with.
Qed.

(** ** A small shop *)

Definition ascending_index (n : string) (fields : list string) : IndexSpec :=
  {| name := n; keys := (fun f => {| field := f; direction := Ordered Pos |}) <$> fields;
     unique := false; ttl := false; partial := false; partialFilter := None; sparse := false;
     hidden := false; isShardKey := false; collation := None; include := None |}.

(** A collection with an index another one covers. *)
Definition shop : Memory :=
  {| mem_indexes := {[ ("shop", "orders") := [ascending_index "a_1" ["a"]; ascending_index "a_1_b_1" ["a"; "b"]] ]};
     mem_usage := []; mem_hints := []; mem_latency := {| ls_ops := 100; ls_latencyMicros := 5000 |};
     mem_failed := NO_SOURCE "the profiler is off" |}.

Definition shop_finding : Finding :=
  {| f_type := EngineTypes.DROP_REDUNDANT; f_source := CLASSIFY; f_usageClass := None; f_database := "shop";
     f_collection := "orders"; f_indexName := "a_1"; f_score := 80; f_evidenceDays := None;
     f_estimatedBytesSaved := 4096; f_urgent := false; f_targetSpec := None |}.

Definition shop_row (st : EngineTypes.RecommendationState) (h : HideColumns) : Recommendation :=
  {| rec_id := 0; finding := shop_finding; state := st; rationale := "covered by a_1_b_1";
     hide_columns := h; build_columns := no_build |}.

Definition shop_store (rows : list Recommendation) (m : Memory) : Store Memory :=
  {| recs := rows; actions := []; cooldowns := ∅; roi := []; nextId := 1; watchTable := ∅; notes := ∅; shapes := []; live := m |}.
