(* ===== verification/Plans.v ===== *)
(** What each plan allows.  Models [apps/api/src/billing/plans.ts]. *)
From S2P Require Import Prelude.

Inductive Plan := FREE | PRO | SCALE | SELF_HOSTED.
#[export] Instance Plan_eq_dec : EqDecision Plan.
Proof. solve_decision. Defined.

Definition PLANS : list Plan := [FREE; PRO; SCALE; SELF_HOSTED].
Definition DEFAULT_PLAN : Plan := FREE.

Definition plan_text (p : Plan) : string :=
  match p with
  | FREE => "FREE" | PRO => "PRO" | SCALE => "SCALE" | SELF_HOSTED => "SELF_HOSTED"
  end.

(** The stored value, of which only a text can be a plan. *)
Definition isPlan (value : string) : option Plan :=
  List.find (fun p => String.eqb (plan_text p) value) PLANS.

(** A cap; [None] is [Number.POSITIVE_INFINITY]. *)
Abbreviation limit := (option Z).

Record Entitlements := {
  maxClusters : limit;
  maxMembers : limit;
  workloadAnalysis : bool;
  autoApply : bool;
  retentionDays : Z;
}.

Definition entitlementsFor (plan : Plan) : Entitlements :=
  match plan with
  | FREE => {| maxClusters := Some 1; maxMembers := Some 3; workloadAnalysis := true;
               autoApply := false; retentionDays := 90 |}
  | PRO => {| maxClusters := Some 5; maxMembers := Some 15; workloadAnalysis := true;
              autoApply := true; retentionDays := 183 |}
  | SCALE => {| maxClusters := None; maxMembers := None; workloadAnalysis := true;
                autoApply := true; retentionDays := 365 |}
  | SELF_HOSTED => {| maxClusters := Some 1; maxMembers := None; workloadAnalysis := true;
                      autoApply := true; retentionDays := 365 |}
  end.

Definition planFrom (value : string) : Plan := isPlan value ?? DEFAULT_PLAN.

Record LimitVerdict := { allowed : bool; lv_reason : option string }.
Definition ALLOWED : LimitVerdict := {| allowed := true; lv_reason := None |}.

Definition describe_limit (l : limit) : string :=
  match l with Some n => show n | None => "unlimited" end.

Inductive Meter := clusters | members.
Definition meter_text (m : Meter) : string :=
  match m with clusters => "clusters" | members => "members" end.

Definition limitFor (plan : Plan) (what : Meter) : limit :=
  match what with
  | clusters => maxClusters (entitlementsFor plan)
  | members => maxMembers (entitlementsFor plan)
  end.

Definition below (current : Z) (l : limit) : bool :=
  match l with Some n => current <? n | None => true end.

Definition withinLimit (plan : Plan) (what : Meter) (current : Z) : LimitVerdict :=
  let limit := limitFor plan what in
  if below current limit then ALLOWED
  else
    {| allowed := false;
       lv_reason := Some ("the " +:+ plan_text plan +:+ " plan allows " +:+ describe_limit limit +:+ " " +:+
         meter_text what +:+ " and this organization has " +:+ show current +:+ ". " +:+
         "Remove one, or move to a plan with room for more.") |}.

Definition allowsAutoApply (plan : Plan) : LimitVerdict :=
  if autoApply (entitlementsFor plan) then ALLOWED
  else
    {| allowed := false;
       lv_reason := Some ("applying changes without approval is not part of the " +:+ plan_text plan +:+
         " plan. Every recommendation is still made, and you can approve any of them yourself — " +:+
         "what a paid plan adds is the engine doing it unattended.") |}.

Definition allowsWorkloadAnalysis (plan : Plan) : LimitVerdict :=
  if workloadAnalysis (entitlementsFor plan) then ALLOWED
  else
    {| allowed := false;
       lv_reason := Some ("workload analysis proposes new indexes from your query shapes, and the " +:+
         plan_text plan +:+ " plan does not include it. Dropping unused and redundant indexes is unaffected.") |}.

Record PolicyAutomation := { autoApplyScore : option Z; instantCreate : bool }.

Definition entitledAutomation (policy : PolicyAutomation) (plan : Plan) : PolicyAutomation :=
  if autoApply (entitlementsFor plan) then policy
  else {| autoApplyScore := None; instantCreate := false |}.

(** ** Theorems *)

(** Adding members or clusters one at a time, each only when the plan's verdict
    allows it. *)
Fixpoint admit_all (plan : Plan) (what : Meter) (requests : nat) (current : Z) : Z :=
  match requests with
  | O => current
  | S n => admit_all plan what n
             (if allowed (withinLimit plan what current) then current + 1 else current)
  end.

Lemma withinLimit_allowed plan what current :
  allowed (withinLimit plan what current) = below current (limitFor plan what).
Proof. unfold withinLimit. by destruct (below _ _). Qed.

(** A meter never passes its cap however often one more is asked for, it reaches
    the cap when asked often enough, and a stored text that is no plan grants
    what the most restrictive plan does. *)
Theorem plan_caps_hold plan what requests current cap :
  limitFor plan what = Some cap -> 0 <= current <= cap ->
  admit_all plan what requests current = Z.min cap (current + Z.of_nat requests).
Proof.
  intros Hl. revert current. induction requests as [|n IH]; intros current Hc; simpl; [lia|].
  rewrite withinLimit_allowed, Hl. simpl. destruct (Z.ltb_spec current cap); rewrite IH; lia.
Qed.
