(* ===== verification/Policy.v ===== *)
(** One cluster's policy row and the change window that applies.  Models
    [apps/api/src/jobs/change-window.ts]. *)
From S2P Require Import Prelude Runs Score Observe ChangeWindow Plans.

(** The columns of [policies] the passes read. *)
Record Policy := {
  p_workloadAnalysis : bool;
  maxCollectionSizeBytes : option Z;
  observeWindowDays : Z;
  p_autoApplyScore : option Z;
  p_instantCreate : bool;
  changeWindowStartHour : option Z;
  changeWindowEndHour : option Z;
  inferredWindowStartHour : option Z;
  inferredWindowEndHour : option Z;
  inferredWindowReason : option string;
}.

(** What a cluster with no row saved gets, the column defaults. *)
Definition default_policy : Policy :=
  {| p_workloadAnalysis := true; maxCollectionSizeBytes := None;
     observeWindowDays := DEFAULT_OBSERVE_DAYS; p_autoApplyScore := None; p_instantCreate := false;
     changeWindowStartHour := None; changeWindowEndHour := None; inferredWindowStartHour := None;
     inferredWindowEndHour := None; inferredWindowReason := None |}.

Definition effectiveChangeWindow (p : Policy) : option Z * option Z :=
  match changeWindowStartHour p, changeWindowEndHour p with
  | Some s, Some e => (Some s, Some e)
  | _, _ => (inferredWindowStartHour p, inferredWindowEndHour p)
  end.

(** [inChangeWindow(new Date(), window.startHour, window.endHour)]. *)
Definition window_open (p : Policy) (now : Z) : bool :=
  let '(s, e) := effectiveChangeWindow p in inChangeWindow now s e.

Definition automation (p : Policy) (plan : Plan) : PolicyAutomation :=
  entitledAutomation {| autoApplyScore := p_autoApplyScore p; instantCreate := p_instantCreate p |} plan.

(** ** The inferred window *)

Definition INFERENCE_WINDOW_DAYS : Z := 30.

(** A row of [latency_samples]. *)
Record LatencyRow := {
  namespaceId : Z;
  lrow_capturedAt : Z;
  lrow_lastSeenAt : Z;
  lrow_observations : Z;
  lrow_maxGapMs : Z;
  lrow_ops : Z;
}.

Definition traffic_of (row : LatencyRow) : TrafficSample :=
  {| ts_run := runFrom {| row_capturedAt := inl (lrow_capturedAt row);
                          row_lastSeenAt := inl (lrow_lastSeenAt row);
                          row_observations := inject_Z (lrow_observations row);
                          row_maxGapMs := inject_Z (lrow_maxGapMs row) |};
     ts_ops := lrow_ops row |}.

(** [byNamespace], in the order the namespaces are first met. *)
Fixpoint add_row (row : LatencyRow) (groups : list (Z * list TrafficSample))
    : list (Z * list TrafficSample) :=
  match groups with
  | [] => [(namespaceId row, [traffic_of row])]
  | (k, series) :: rest =>
      if k =? namespaceId row then (k, series ++ [traffic_of row]) :: rest
      else (k, series) :: add_row row rest
  end.
Definition by_namespace (rows : list LatencyRow) : list (Z * list TrafficSample) :=
  fold_left (fun groups row => add_row row groups) rows [].

Definition set_inferred (w : option InferredWindow) (p : Policy) : Policy :=
  {| p_workloadAnalysis := p_workloadAnalysis p; maxCollectionSizeBytes := maxCollectionSizeBytes p;
     observeWindowDays := observeWindowDays p; p_autoApplyScore := p_autoApplyScore p;
     p_instantCreate := p_instantCreate p; changeWindowStartHour := changeWindowStartHour p;
     changeWindowEndHour := changeWindowEndHour p;
     inferredWindowStartHour := iw_startHour <$> w; inferredWindowEndHour := iw_endHour <$> w;
     inferredWindowReason := iw_reason <$> w |}.

(** [entitled] is where the plan's history begins ([historyWindow]). *)
Definition refreshInferredWindow (policy : option Policy) (rows : list LatencyRow) (entitled now : Z)
    : option Policy * option (Z * Z) :=
  let cutoff := Z.max (now - INFERENCE_WINDOW_DAYS * DAY_MS) entitled in
  let kept := List.filter (fun row => cutoff <=? lrow_lastSeenAt row) rows in
  let inferred := inferChangeWindow (snd <$> by_namespace kept) in
  (Some (set_inferred inferred (policy ?? default_policy)),
   (fun w => (iw_startHour w, iw_endHour w)) <$> inferred).

(** ** Theorems *)

(** The owner's window always wins: a refresh, whatever the traffic, leaves the
    window of an owner who set one, and for one who did not the engine's choice
    is what it inferred or, when it inferred nothing, no restriction. *)
Theorem refreshInferredWindow_respects_owner p rows entitled now :
  exists p', (refreshInferredWindow (Some p) rows entitled now).1 = Some p' /\
    p_autoApplyScore p' = p_autoApplyScore p /\ observeWindowDays p' = observeWindowDays p /\
    (is_Some (changeWindowStartHour p) /\ is_Some (changeWindowEndHour p) ->
       forall t, window_open p' t = window_open p t) /\
    (changeWindowStartHour p = None \/ changeWindowEndHour p = None ->
       forall t, window_open p' t =
         match (refreshInferredWindow (Some p) rows entitled now).2 with
         | Some (s, e) => inChangeWindow t (Some s) (Some e)
         | None => true
         end).
Proof.
  unfold refreshInferredWindow. simpl. set (w := inferChangeWindow _). eexists. split; [done|].
  split; [done|]. split; [done|].
  unfold window_open, effectiveChangeWindow. simpl. split.
  - intros [[s Hs] [e He]] t. by rewrite Hs, He.
  - intros Ho t. destruct (changeWindowStartHour p), (changeWindowEndHour p), w; naive_solver.
Qed.
