(* ===== verification/FailureWatch.v ===== *)
(** The profiler kept on for the drops in flight.  Models
    [apps/api/src/jobs/failure-watch.ts] over one cluster's rows of
    [failure_watches]; the engine's [reconcile] is an operation of the session. *)
From S2P Require Import Prelude EngineTypes Failures Store.

(** ** Operations *)

Definition HIDE_TYPES : list RecommendationType := [DROP_UNUSED; DROP_REDUNDANT; MERGE].
Definition is_hide_type (t : RecommendationType) : bool := bool_decide (t ∈ HIDE_TYPES).

Definition WATCH_RESUME_MS : Z := 2 * 3600000.

Definition recent (now at_ : Z) : bool := now - at_ <=? WATCH_RESUME_MS.

Definition memoryOf (row : WatchRow) (now : Z) : WatchMemory :=
  {| wm_starts := starts row;
     wm_confirmed := filter (fun '(_, at_) => recent now at_ = true) (confirmed row);
     wm_gaps := gaps row |}.

(** [Math.min(...values)], which is [Infinity] of nothing. *)
Definition earliest (since : gmap string Z) : option Z :=
  foldr (fun '(_, t) (m : option Z) => Some match m with Some m => Z.min t m | None => t end)
    None (map_to_list since).

Definition ends_after (gap : WatchGap) (start : option Z) : bool :=
  match start with Some t => t <? gap_to gap | None => false end.

Definition rememberWatch (previous : option WatchRow) (watch : Watched) (now : Z) : WatchRow :=
  let seen := w_confirmed watch in
  let start := earliest (w_since watch) in
  {| starts := w_since watch;
     confirmed :=
       list_to_map ((fun host => (host, now)) <$> seen) ∪
       filter (fun '(host, at_) => host ∉ seen /\ recent now at_ = true)
         ((confirmed <$> previous) ?? ∅);
     gaps := List.filter (fun gap => ends_after gap start)
       (List.filter (fun gap => negb (includes seen (gap_host gap))) ((gaps <$> previous) ?? []) ++
        w_gaps watch);
     watching := true;
     ringReachAt := w_ringReachMs watch;
     ringCheckedAt := Some now |}.

(** [observedDatabases === null || observedDatabases.includes(database)]. *)
Definition inScope (observedDatabases : option (list string)) (database : string) : bool :=
  match observedDatabases with None => true | Some l => includes l database end.

Definition watch_targets (rows : list Recommendation) (observed : option (list string))
    : list WatchTarget :=
  (fun r => {| wt_database := rec_database r; wt_collection := rec_collection r;
               wt_indexName := rec_indexName r;
               beforeHide := bool_decide (state r = APPROVED) |}) <$>
  List.filter (fun r => inScope observed (rec_database r))
    (List.filter (fun r => bool_decide (state r = HIDDEN) || is_hide_type (rec_type r))
      (List.filter (fun r => bool_decide (state r = APPROVED) || bool_decide (state r = HIDDEN)) rows)).

Definition watch_release (table : WatchTable) (targets : list WatchTarget) : list string :=
  List.filter (fun n => negb (includes (wt_database <$> targets) n)) (fst <$> map_to_list table).

(** What a pass that did not find every node watching writes. *)
Definition not_watching (previous : option WatchRow) : WatchRow :=
  match previous with
  | None => {| starts := ∅; confirmed := ∅; gaps := []; watching := false; ringReachAt := None;
               ringCheckedAt := None |}
  | Some r => {| starts := starts r; confirmed := confirmed r; gaps := gaps r; watching := false;
                 ringReachAt := ringReachAt r; ringCheckedAt := ringCheckedAt r |}
  end.

(** The row of one reconciled database: gone once nothing of ours is there. *)
Definition record_watch (listed : WatchTable) (now : Z) (table : WatchTable)
    (entry : string * DatabaseWatch) : WatchTable :=
  let '(database, w) := entry in
  if negb (ours w) then delete database table
  else
    match w with
    | WATCHED watch => <[database := rememberWatch (listed !! database) watch now]> table
    | _ => <[database := not_watching (table !! database)]> table
    end.

(** The states a pass came to, by database. *)
Abbreviation Watches := (gmap string DatabaseWatch).

Section keep.
Context {Live : Type} `{EngineSession Live}.

Definition keepFailureWatches (observed : option (list string)) (now : Z) : pass Live Watches :=
  match reconcile with
  | None => mret ∅
  | Some watch =>
      s ← get;
      let targets := watch_targets (recs s) observed in
      watches ← write (fun l => watch l targets (watch_release (watchTable s) targets)
                                  ((fun row => memoryOf row now) <$> watchTable s));
      update_watches (fold_left (record_watch (watchTable s) now) watches);;
      mret (list_to_map watches)
  end.

Definition keepFailureWatchesOrNone (observed : option (list string)) (now : Z) : pass Live Watches :=
  try_catch (keepFailureWatches observed now) (fun _ => mret ∅).

Definition release_one (table : WatchTable) (entry : string * DatabaseWatch) : WatchTable :=
  if ours entry.2 then table else delete entry.1 table.

Definition releaseFailureWatches : pass Live unit :=
  match reconcile with
  | None => mret tt
  | Some watch =>
      s ← get;
      match fst <$> map_to_list (watchTable s) with
      | [] => mret tt
      | listed =>
          watches ← write (fun l => watch l [] listed ∅);
          update_watches (fold_left release_one watches)
      end
  end.
End keep.

Definition is_watched (w : option DatabaseWatch) : option Watched :=
  match w with Some (WATCHED w) => Some w | _ => None end.

Definition namespace_of (r : Recommendation) : string := rec_database r +:+ "." +:+ rec_collection r.

Definition hideableAt (watch : option DatabaseWatch) (ns : string) : option Z :=
  (fun w => (w_since w !! ns) ?? 0 + FAILURE_BASELINE_MS) <$> is_watched watch.

Definition HINTED_LINE : string :=
  "aborted: the workload names this index with hint(), so hiding it would make those queries fail".

Section withdraw.
Context {Live : Type} `{EngineSession Live}.

(** The hints on a collection, nothing where they cannot be read.  The code
    reads each collection once per pass; nothing it does meanwhile changes them. *)
Definition hints_on (l : Live) (r : Recommendation) : list string :=
  match collectHintedIndexes l (rec_database r) (rec_collection r) with inr h => h | inl _ => [] end.

Definition is_hinted (watches : Watches) (l : Live) (r : Recommendation) : bool :=
  is_hide_type (rec_type r) && is_some (is_watched (watches !! rec_database r)) &&
  includes (hints_on l r) (rec_indexName r).

Definition withdraw_one (watches : Watches) (withdrawn : list nat) (r : Recommendation)
    : pass Live (list nat) :=
  s ← get;
  if is_hinted watches (live s) r then
    update_rec (rec_id r) (set_state PROPOSED);;
    insert_action (rec_id r) HIDE HINTED_LINE None;;
    mret (rec_id r :: withdrawn)
  else mret withdrawn.

Definition withdrawHinted (watches : Watches) : pass Live (list nat) :=
  if decide (watches = ∅) then mret []
  else
    s ← get;
    for_each (in_state APPROVED s) [] (withdraw_one watches).
End withdraw.

Definition waitingLine (database collection : string) (since : Z) : string :=
  "waiting: recording failed operations on " +:+ database +:+ "." +:+ collection +:+ " until " +:+
  utcMinute (since + FAILURE_BASELINE_MS) +:+ " before hiding, so a failure after the hide has a " +:+
  "day to be compared against — Indexterity turned the profiler on for it".

Definition waitingAgainLine (database collection : string) (since : Z) : string :=
  "waiting again: the record of failed operations on " +:+ database +:+ "." +:+ collection +:+
  " started over at " +:+ utcMinute since +:+
  ", as it does when a server restarts and its profiler loses Indexterity's " +:+
  "settings, so the hide waits until " +:+ utcMinute (since + FAILURE_BASELINE_MS) +:+
  " for a day to compare against".

(** The newest HIDE line of a row's trail. *)
Definition last_hide (trail : list Action) (id : nat) : option string :=
  act_result <$> List.find (fun a => (act_rec a =? id)%nat && bool_decide (act_kind a = HIDE)) trail.

Section waiting.
Context {Live : Type}.

Definition waiting_since (watches : Watches) (now : Z) (r : Recommendation) : option Z :=
  if is_hide_type (rec_type r) then
    match hideableAt (watches !! rec_database r) (namespace_of r) with
    | Some t => if now <? t then Some (t - FAILURE_BASELINE_MS) else None
    | None => None
    end
  else None.

Definition note_waiting (watches : Watches) (trail : list Action) (now : Z) (acc : unit)
    (r : Recommendation) : pass Live unit :=
  match waiting_since watches now r with
  | None => mret tt
  | Some since =>
      let previous := last_hide trail (rec_id r) in
      if match previous with
         | Some text => text_includes text ("until " +:+ utcMinute (since + FAILURE_BASELINE_MS))
         | None => false
         end
      then mret tt
      else
        insert_action (rec_id r) HIDE
          (if match previous with Some text => String.prefix "waiting" text | None => false end
           then waitingAgainLine (rec_database r) (rec_collection r) since
           else waitingLine (rec_database r) (rec_collection r) since) None
  end.

Definition noteWaitingDrops (approved : list Recommendation) (watches : Watches) (now : Z)
    : pass Live unit :=
  s ← get;
  for_each approved tt (note_waiting watches (actions s) now).
End waiting.

Definition watchLine (reading : FailedOpsReading) (watch : option DatabaseWatch) (hiddenAtMs : Z) : string :=
  let seen := describeWatch reading in
  let short := describeShortBaseline reading hiddenAtMs in
  let line :=
    match watch, reading with
    | Some (UNWATCHED reason _), _ => if String.eqb seen "" then seen else seen +:+ "; " +:+ reason
    | Some (WATCHED w), WINDOW window =>
        if w_ours w && String.eqb seen ""
        then "failed operations watched since " +:+ utcMinute (fw_reachMs window) +:+
             ", by the profiler Indexterity turned on"
        else seen
    | _, _ => seen
    end in
  if String.eqb short "" then line else if String.eqb line "" then short else line +:+ " — " +:+ short.

(** ** Lemmas *)

Section keep_lemmas.
Context {Live : Type} `{EngineSession Live} (indexes : Live -> string -> string -> list IndexSpec)
  `{!SessionLaws Live indexes}.

(** Keeping the watches touches their table and the profilers, nothing else. *)
Lemma keepFailureWatchesOrNone_effect observed now (s : Store Live) :
  exists s' watches, keepFailureWatchesOrNone observed now s = (s', inr watches) /\
    recs s' = recs s /\ actions s' = actions s /\ nextId s' = nextId s /\
    forall d c, indexes (live s') d c = indexes (live s) d c.
Proof.
  unfold keepFailureWatchesOrNone, try_catch, keepFailureWatches.
  destruct reconcile as [watch|] eqn:E; [|by eexists _, _].
  unfold mbind, pass_bind, get, write.
  match goal with |- context [watch (live s) ?t ?r ?m] =>
    pose proof (fun d c => reconcile_effect watch (live s) t r m d c E) as Hw;
    destruct (watch (live s) t r m) as [l [e|watches]] end; by eexists _, _.
Qed.

Lemma releaseFailureWatches_effect (s : Store Live) :
  exists s' out, releaseFailureWatches s = (s', out) /\
    recs s' = recs s /\ actions s' = actions s /\ nextId s' = nextId s /\
    forall d c, indexes (live s') d c = indexes (live s) d c.
Proof.
  unfold releaseFailureWatches. destruct reconcile as [watch|] eqn:E; [|by eexists _, _].
  unfold mbind at 1, pass_bind at 1, get. destruct (fst <$> _) as [|n listed]; [by eexists _, _|].
  unfold mbind, pass_bind, write.
  pose proof (fun d c => reconcile_effect watch (live s) [] (n :: listed) ∅ d c E) as Hw.
  destruct (watch (live s) _ _ _) as [l [e|watches]]; by eexists _, _.
Qed.
End keep_lemmas.

(** ** Theorems *)

(** A drop on its way out, in a database being observed. *)
Definition in_flight (observed : option (list string)) (r : Recommendation) : Prop :=
  (state r = HIDDEN \/ state r = APPROVED /\ rec_type r ∈ HIDE_TYPES) /\
  inScope observed (rec_database r) = true.

Lemma elem_of_watch_targets rows observed t :
  t ∈ watch_targets rows observed <->
  exists r, r ∈ rows /\ in_flight observed r /\
    t = {| wt_database := rec_database r; wt_collection := rec_collection r;
           wt_indexName := rec_indexName r; beforeHide := bool_decide (state r = APPROVED) |}.
Proof.
  unfold watch_targets, in_flight, is_hide_type. rewrite list_elem_of_fmap.
  setoid_rewrite elem_of_filter_bool. setoid_rewrite elem_of_filter_bool.
  setoid_rewrite elem_of_filter_bool. setoid_rewrite orb_true_iff.
  setoid_rewrite bool_decide_eq_true. split.
  - intros (r & -> & ((Hr & H1) & H2) & H3). exists r. split_and!; try done. naive_solver.
  - intros (r & Hr & (H1 & H2) & ->). exists r. split_and!; try done; naive_solver.
Qed.

(** A profiler is given back exactly when nothing needs it: a database leaves
    the list of watched ones' to-be-released names precisely when it is listed
    and no drop in flight is in it, and every drop in flight is a target, asked
    to record hints too only while its index is still visible. *)
Theorem watch_released_iff_unwanted rows table observed database :
  (database ∈ watch_release table (watch_targets rows observed) <->
   is_Some (table !! database) /\
   forall r, r ∈ rows -> in_flight observed r -> rec_database r <> database) /\
  (forall r, r ∈ rows -> in_flight observed r ->
   exists t, t ∈ watch_targets rows observed /\ wt_database t = rec_database r /\
     wt_collection t = rec_collection r /\ wt_indexName t = rec_indexName r /\
     (beforeHide t = true <-> state r = APPROVED)).
Proof.
  split.
  - unfold watch_release. rewrite elem_of_filter_bool, negb_true_iff.
    rewrite <- not_true_iff_false, includes_spec, !list_elem_of_fmap. split.
    + intros [([d row] & -> & Hd%elem_of_map_to_list) Hn]. split; [eauto|].
      intros r Hr Hf E. apply Hn.
      eexists. split; [|by apply elem_of_watch_targets; exists r]. done.
    + intros [[row Hrow] Hn]. split.
      * exists (database, row). by rewrite elem_of_map_to_list.
      * intros (t & -> & (r & Hr & Hf & ->)%elem_of_watch_targets). simpl in Hn. by eapply Hn.
  - intros r Hr Hf. eexists. split; [by apply elem_of_watch_targets; exists r|]. simpl.
    by rewrite bool_decide_eq_true.
Qed.

(** A restart is bridged for two hours and no longer: what the next pass is
    handed of a node is that it was confirmed, and when, exactly if this pass saw
    it, or an earlier one did within the bound and this one did not see it. *)
Theorem rememberWatch_bridges previous watch now later host t :
  wm_confirmed (memoryOf (rememberWatch previous watch now) later) !! host = Some t <->
  later - t <= WATCH_RESUME_MS /\
  ((host ∈ w_confirmed watch /\ t = now) \/
   (host ∉ w_confirmed watch /\ now - t <= WATCH_RESUME_MS /\
    ((confirmed <$> previous) ?? ∅) !! host = Some t)).
Proof.
  unfold memoryOf, rememberWatch, recent. simpl. rewrite map_lookup_filter_Some.
  rewrite lookup_union_Some_raw, <- not_elem_of_list_to_map.
  rewrite <- list_fmap_compose, map_lookup_filter_Some.
  rewrite list_fmap_id. 
  assert (Hs : (list_to_map ((fun h => (h, now)) <$> w_confirmed watch) : gmap string Z) !! host = Some t <->
    host ∈ w_confirmed watch /\ t = now).
  { induction (w_confirmed watch) as [|h l IH]; simpl; [rewrite lookup_empty; set_solver|].
    destruct (decide (h = host)) as [->|Hne].
    - rewrite lookup_insert_eq. set_solver.
    - rewrite (lookup_insert_ne _ _ _ _ Hne), IH. set_solver. }
  rewrite Hs, !Z.leb_le. naive_solver.
Qed.

(** ** What the watch keeps of the rows *)

Section watch_keeps.
Context {Live : Type} `{EngineSession Live}.

Lemma keyed_keep observed now : preserves well_keyed (keepFailureWatchesOrNone (Live := Live) observed now).
Proof. unfold keepFailureWatchesOrNone, keepFailureWatches. preserve. Qed.
Lemma keyed_release : preserves well_keyed (releaseFailureWatches (Live := Live)).
Proof. unfold releaseFailureWatches. preserve. Qed.
Lemma keyed_withdraw watches : preserves well_keyed (withdrawHinted (Live := Live) watches).
Proof. unfold withdrawHinted, withdraw_one. preserve. Qed.
Lemma keyed_waiting rows watches now : preserves well_keyed (noteWaitingDrops (Live := Live) rows watches now).
Proof. unfold noteWaitingDrops, note_waiting. preserve. Qed.

Lemma row_keep x observed now : preserves (has_row x) (keepFailureWatchesOrNone (Live := Live) observed now).
Proof. unfold keepFailureWatchesOrNone, keepFailureWatches. preserve. Qed.
Lemma row_withdraw x watches :
  state x <> APPROVED -> preserves (has_row x) (withdrawHinted (Live := Live) watches).
Proof. intros Hx. unfold withdrawHinted, withdraw_one. preserve. Qed.
Lemma row_waiting x rows watches now :
  preserves (has_row x) (noteWaitingDrops (Live := Live) rows watches now).
Proof. unfold noteWaitingDrops, note_waiting. preserve. Qed.
End watch_keeps.
#[export] Hint Resolve keyed_keep keyed_release keyed_withdraw keyed_waiting : passes.
#[export] Hint Resolve row_keep row_withdraw row_waiting : passes.
