(* ===== verification/Apply.v ===== *)
(** Approved drops become hidden ones.  Models [apps/api/src/jobs/apply.ts]. *)
From S2P Require Import Prelude EngineTypes Runs Usage Classify RunLength Observe ChangeWindow.
From S2P Require Import Plans Policy Failures Preflight Cooldowns Regression Store FailureWatch Memory.

(** ** Auto-approval *)

Definition autoApprovable (r : Recommendation) : bool :=
  bool_decide (state r = PROPOSED) &&
  negb (bool_decide (rec_type r ∈ [ADVISORY_REVIEW; REORDER])) &&
  match f_evidenceDays (finding r) with
  | None => true
  | Some days => AUTO_APPLY_HISTORY_DAYS <=? days
  end.

Definition promote (threshold : Z) (r : Recommendation) : Recommendation :=
  if autoApprovable r && (threshold <=? f_score (finding r)) then set_state APPROVED r else r.

Definition promoteByScore {Live} (threshold : option Z) : pass Live unit :=
  match threshold with
  | None => mret tt
  | Some threshold => fun s => (with_recs (fmap (promote threshold)) s, inr tt)
  end.

(** ** One pass *)

(** What the pass reads of the database and is told of the cluster.  The usage
    history of an index is its stored runs, newest first, as the collector left
    them; [historySince] is where the plan's history begins. *)
Record ApplyContext := {
  ac_policy : option Policy;
  ac_plan : Plan;
  ac_readOnly : bool;
  ac_canHide : bool;
  ac_observed : option (list string);
  ac_watchingSince : option stamp;
  ac_historySince : Z;
  ac_history : Recommendation -> list StoredRun;
  ac_now : Z;
}.

(** A stored run as this pass selects it: the counters, without the columns the
    collector priced them into. *)
Definition apply_snapshot (run : StoredRun) : UsageSnapshot :=
  {| us_run := us_run (load_run run); perMember := Some (sr_perMember run); opsDelta := None;
     opsTotal := None; countersRestarted := None; countersStartedAt := None |}.

Definition apply_series (ctx : ApplyContext) (r : Recommendation) : list UsagePoint :=
  usageSeries (apply_snapshot <$>
    List.filter (fun run => ac_historySince ctx <=? sr_lastSeenAt run) (ac_history ctx r)).

Definition observe_window (ctx : ApplyContext) (r : Recommendation) : ObserveWindow :=
  dynamicObserveDays (apply_series ctx r) (observeWindowDays (ac_policy ctx ?? default_policy))
    {| watchingSince := ac_watchingSince ctx; ctx_now := ac_now ctx |}.

Definition applyResult (canHide : bool) (window : ObserveWindow)
    (failures : option (FailedOpsReading * option DatabaseWatch * Z)) : string :=
  let what :=
    if canHide then "ok; observing " +:+ show (days window) +:+ " days"
    else "ok; not hidden (this engine has no reversible hide) — observing usage for " +:+
         show (days window) +:+ " days" in
  let observing := match reason window with None => what | Some why => what +:+ " — " +:+ why end in
  let watch :=
    match failures with
    | None => ""
    | Some (reading, watch, hiddenAtMs) => watchLine reading watch hiddenAtMs
    end in
  if String.eqb watch "" then observing else observing +:+ "; " +:+ watch.

Inductive ApplyOutcome := Skipped | SentBack | Hid | HideFailed (e : exn).

(** When the failures on the row's collection began to be recorded, if the
    profiler is on for it. *)
Definition watched_since (watches : Watches) (r : Recommendation) : option Z :=
  (fun w => (w_since w !! namespace_of r) ?? 0) <$> is_watched (watches !! rec_database r).

(** The rows the loop does not touch: withdrawn, out of scope, not a drop, or
    still short of its day of recorded failures. *)
Definition passed_over (ctx : ApplyContext) (watches : Watches) (withdrawn : list nat) (r : Recommendation) : bool :=
  bool_decide (rec_id r ∈ withdrawn) ||
  negb (inScope (ac_observed ctx) (rec_database r)) ||
  negb (is_hide_type (rec_type r)) ||
  match watched_since watches r with
  | None => false
  | Some since => ac_now ctx - since <? FAILURE_BASELINE_MS
  end.

Section apply.
Context {Live : Type} `{EngineSession Live}.

Definition noteHideFailure (id : nat) (e : exn) : pass Live unit :=
  let line := "hide failed, retried next pass: " +:+ messageOf e in
  s ← get;
  if bool_decide (last_hide (actions s) id = Some line) then mret tt
  else insert_action id HIDE line None.

(** The [catch] of one drop: an index this pass hid is put back first. *)
Definition on_failure (hiddenOnCluster : bool) (r : Recommendation) (e : exn) : pass Live ApplyOutcome :=
  (if hiddenOnCluster
   then try_catch (write (fun l => unhide l (rec_database r) (rec_collection r) (rec_indexName r)))
          (fun _ => mret tt)
   else mret tt);;
  noteHideFailure (rec_id r) e;;
  mret (HideFailed e).

(** The index is hidden, or would be on an engine that can: record it. *)
Definition record_hide (ctx : ApplyContext) (watches : Watches) (r : Recommendation)
    (check : PreflightResult) : pass Live ApplyOutcome :=
  let d := rec_database r in
  let c := rec_collection r in
  let now := ac_now ctx in
  baseline ← (if ac_canHide ctx
              then sample ← read (fun l => readLatency l d c); mret (Some sample)
              else mret None);
  failuresBefore ← (if ac_canHide ctx
                    then reading ← read (fun l =>
                           collectFailedOps l d c (watched_since watches r ?? 0) (rec_indexName r));
                         mret (Some reading)
                    else mret None);
  let window := observe_window ctx r in
  let before := match failuresBefore with Some (WINDOW w) => Some w | _ => None end in
  update_rec (rec_id r) (fun row =>
    set_state HIDDEN (set_hide
      {| hiddenAt := Some now; observeDays := Some (days window); observeReason := reason window;
         baselineReadOps := ls_ops <$> baseline; baselineReadLatency := ls_latencyMicros <$> baseline;
         baselineFailedOps := suspect <$> before; baselineFailedReachMs := fw_reachMs <$> before |} row));;
  insert_action (rec_id r) HIDE
    (applyResult (ac_canHide ctx) window
      ((fun reading => (reading, watches !! d, now)) <$> failuresBefore))
    (spec_token <$> pf_spec check);;
  mret Hid.

(** The pre-flight and the hide. *)
Definition check_and_hide (ctx : ApplyContext) (r : Recommendation)
    : pass Live (PreflightResult + ApplyOutcome) :=
  check ← preflightLive r;
  if negb (safe check) then
    update_rec (rec_id r) (set_state PROPOSED);;
    insert_action (rec_id r) HIDE ("aborted: " +:+ pf_reason check) None;;
    mret (inr SentBack)
  else
    (if ac_canHide ctx
     then write (fun l => hide l (rec_database r) (rec_collection r) (rec_indexName r))
     else mret tt);;
    mret (inl check).

(** One turn of the loop.  Nothing after the row's move to HIDDEN throws. *)
Definition apply_one (ctx : ApplyContext) (watches : Watches) (withdrawn : list nat)
    (r : Recommendation) : pass Live ApplyOutcome :=
  if passed_over ctx watches withdrawn r then mret Skipped
  else
    checked ← try_catch (check_and_hide ctx r) (fun e => o ← on_failure false r e; mret (inr o));
    match checked with
    | inr outcome => mret outcome
    | inl check => try_catch (record_hide ctx watches r check) (on_failure (ac_canHide ctx) r)
    end.

Definition tally (acc : Z * list exn) (o : ApplyOutcome) : Z * list exn :=
  let '(hidden, failed) := acc in
  match o with
  | Hid => (hidden + 1, failed)
  | HideFailed e => (hidden, failed ++ [e])
  | _ => acc
  end.

(** The approved rows, hidden one by one; the first error of all ends it. *)
Definition hide_approved (ctx : ApplyContext) (approved : list Recommendation) : pass Live Z :=
  watches ← keepFailureWatchesOrNone (ac_observed ctx) (ac_now ctx);
  withdrawn ← withdrawHinted watches;
  noteWaitingDrops
    (List.filter (fun r => negb (bool_decide (rec_id r ∈ withdrawn)) &&
       inScope (ac_observed ctx) (rec_database r)) approved)
    watches (ac_now ctx);;
  out ← for_each approved (0, []) (fun acc r =>
    o ← apply_one ctx watches withdrawn r; mret (tally acc o));
  match out.2 with
  | e :: _ => throw e
  | [] => mret out.1
  end.

(** Nothing past the promotion happens outside the change window, on a read-only
    cluster, or with nothing approved. *)
Definition applyCluster (ctx : ApplyContext) : pass Live Z :=
  let policy := ac_policy ctx ?? default_policy in
  promoteByScore (autoApplyScore (automation policy (ac_plan ctx)));;
  s ← get;
  let approved := in_state APPROVED s in
  match approved with
  | [] => mret 0
  | _ =>
    if negb (window_open policy (ac_now ctx)) then mret 0
    else if ac_readOnly ctx then mret 0
    else hide_approved ctx approved
  end.
End apply.

(** ** Lemmas *)

Lemma promote_id t r : rec_id (promote t r) = rec_id r.
Proof. unfold promote. by destruct (_ && _). Qed.
Lemma promote_finding t r : finding (promote t r) = finding r.
Proof. unfold promote. by destruct (_ && _). Qed.

Lemma autoApprovable_spec r :
  autoApprovable r = true <->
  state r = PROPOSED /\ rec_type r <> ADVISORY_REVIEW /\ rec_type r <> REORDER /\
  forall d, f_evidenceDays (finding r) = Some d -> AUTO_APPLY_HISTORY_DAYS <= d.
Proof.
  unfold autoApprovable. rewrite !andb_true_iff, negb_true_iff, bool_decide_eq_true, bool_decide_eq_false.
  rewrite !elem_of_cons, elem_of_nil. destruct (f_evidenceDays (finding r)) as [d|].
  - rewrite Z.leb_le. naive_solver.
  - naive_solver.
Qed.

Section apply_lemmas.
Context {Live : Type} `{EngineSession Live}.

Lemma noteHideFailure_effect id e s :
  exists s', noteHideFailure (Live := Live) id e s = (s', inr tt) /\ recs s' = recs s /\ live s' = live s.
Proof. unfold noteHideFailure, mbind, pass_bind, get. case_bool_decide; eexists; done. Qed.

Lemma on_failure_effect hid r e s :
  exists s', on_failure hid r e s = (s', inr (HideFailed e)) /\ recs s' = recs s /\
    live s' = if hid then (unhide (live s) (rec_database r) (rec_collection r) (rec_indexName r)).1
              else live s.
Proof.
  unfold on_failure, mbind at 1, pass_bind at 1, try_catch, write. destruct hid.
  - destruct (unhide _ _ _ _) as [l [e'|[]]]; cbn;
      unfold mbind, pass_bind;
      match goal with |- context [noteHideFailure ?i ?x ?t] =>
        destruct (noteHideFailure_effect i x t) as (s' & -> & Hr & Hl) end;
      exists s'; rewrite Hr, Hl; done.
  - cbn. unfold mbind, pass_bind.
    destruct (noteHideFailure_effect (rec_id r) e s) as (s' & -> & Hr & Hl). exists s'.
    rewrite Hr, Hl. done.
Qed.

(** The row as the hide leaves it, given the baselines it read. *)
Definition hidden_row (ctx : ApplyContext) (r : Recommendation) (baseline : option LatencySample)
    (before : option FailedOpsWindow) (row : Recommendation) : Recommendation :=
  set_state HIDDEN (set_hide
    {| hiddenAt := Some (ac_now ctx); observeDays := Some (days (observe_window ctx r));
       observeReason := reason (observe_window ctx r);
       baselineReadOps := ls_ops <$> baseline; baselineReadLatency := ls_latencyMicros <$> baseline;
       baselineFailedOps := suspect <$> before; baselineFailedReachMs := fw_reachMs <$> before |} row).

(** What a turn of the loop does, case by case. *)
Inductive turn (ctx : ApplyContext) (watches : Watches) (withdrawn : list nat) (r : Recommendation) (s : Store Live)
    : Store Live -> ApplyOutcome -> Prop :=
  | turn_skipped : passed_over ctx watches withdrawn r = true -> turn ctx watches withdrawn r s s Skipped
  | turn_sent_back s' check :
      passed_over ctx watches withdrawn r = false -> (preflightLive r s).2 = inr check -> safe check = false ->
      recs s' = update_where (rec_id r) (set_state PROPOSED) (recs s) -> live s' = live s ->
      turn ctx watches withdrawn r s s' SentBack
  | turn_hid s' check baseline before text :
      passed_over ctx watches withdrawn r = false -> (preflightLive r s).2 = inr check -> safe check = true ->
      recs s' = update_where (rec_id r) (hidden_row ctx r baseline before) (recs s) ->
      is_some baseline = ac_canHide ctx ->
      (if ac_canHide ctx
       then hide (live s) (rec_database r) (rec_collection r) (rec_indexName r) = (live s', inr tt)
       else live s' = live s) ->
      head (actions s') = Some {| act_rec := rec_id r; act_kind := HIDE; act_result := text;
                                  rollbackToken := spec_token <$> pf_spec check |} ->
      tail (actions s') = actions s ->
      turn ctx watches withdrawn r s s' Hid
  | turn_failed s' e :
      passed_over ctx watches withdrawn r = false -> recs s' = recs s ->
      (live s' = live s \/
       (exists e', hide (live s) (rec_database r) (rec_collection r) (rec_indexName r) = (live s', inl e')) \/
       (exists l, hide (live s) (rec_database r) (rec_collection r) (rec_indexName r) = (l, inr tt) /\
          live s' = (unhide l (rec_database r) (rec_collection r) (rec_indexName r)).1)) ->
      turn ctx watches withdrawn r s s' (HideFailed e).

(** The hide is done or not to be done: the rest of the turn. *)
Lemma record_hide_turn ctx watches withdrawn r s s1 check :
  passed_over ctx watches withdrawn r = false -> (preflightLive r s).2 = inr check -> safe check = true ->
  recs s1 = recs s -> actions s1 = actions s ->
  (if ac_canHide ctx
   then hide (live s) (rec_database r) (rec_collection r) (rec_indexName r) = (live s1, inr tt)
   else live s1 = live s) ->
  exists s' o, try_catch (record_hide ctx watches r check) (on_failure (ac_canHide ctx) r) s1 = (s', inr o) /\
    turn ctx watches withdrawn r s s' o.
Proof.
  intros Hp Hf Hsafe Hr Ha Hl.
  assert (Hfail : forall e, ac_canHide ctx = true ->
    exists s' o, on_failure true r e s1 = (s', inr o) /\ turn ctx watches withdrawn r s s' o).
  { intros e Hc. destruct (on_failure_effect true r e s1) as (s' & E & Hr' & Hl'). rewrite Hc in Hl.
    do 2 eexists. split; [done|]. apply turn_failed; [done|congruence|]. right; right. by exists (live s1). }
  unfold try_catch, record_hide, mbind, pass_bind, read. destruct (ac_canHide ctx) eqn:Hc.
  - destruct (readLatency _ _ _) as [e|sample]; cbn; [by apply Hfail|].
    destruct (collectFailedOps _ _ _ _ _) as [e|reading]; cbn; [by apply Hfail|].
    do 2 eexists. split; [done|].
    eapply (turn_hid _ _ _ _ _ _ check (Some sample)
      (match reading with WINDOW w => Some w | _ => None end)); cbn; rewrite ?Hr, ?Hc; done.
  - cbn. do 2 eexists. split; [done|].
    eapply (turn_hid _ _ _ _ _ _ check None None); cbn; rewrite ?Hr, ?Hc; done.
Qed.

Lemma apply_one_turn ctx watches withdrawn r s :
  exists s' o, apply_one ctx watches withdrawn r s = (s', inr o) /\ turn ctx watches withdrawn r s s' o.
Proof.
  unfold apply_one. destruct (passed_over ctx watches withdrawn r) eqn:Hp.
  { do 2 eexists. split; [done|]. by apply turn_skipped. }
  unfold mbind at 1, pass_bind at 1.
  pose proof (preflightLive_store r s) as Hs.
  assert (Hfail : forall e s1, recs s1 = recs s ->
    (live s1 = live s \/
      exists e', hide (live s) (rec_database r) (rec_collection r) (rec_indexName r) = (live s1, inl e')) ->
    exists s' o, on_failure false r e s1 = (s', inr o) /\ turn ctx watches withdrawn r s s' o).
  { intros e s1 Hr Hl. destruct (on_failure_effect false r e s1) as (s' & E & Hr' & Hl').
    do 2 eexists. split; [done|]. apply turn_failed; [done|congruence|]. rewrite Hl'. tauto. }
  unfold try_catch at 1, check_and_hide, mbind at 1, pass_bind at 1.
  destruct (preflightLive r s) as [s0 [e|check]] eqn:Ep; simpl in Hs; subst s0.
  { destruct (Hfail e s eq_refl (or_introl eq_refl)) as (s' & o & E & Ht).
    exists s', o. split; [|done]. unfold mbind, pass_bind. by rewrite E. }
  assert (Hf : (preflightLive r s).2 = inr check) by by rewrite Ep.
  destruct (safe check) eqn:Hsafe; simpl.
  - unfold mbind at 1, pass_bind at 1. destruct (ac_canHide ctx) eqn:Hc.
    + unfold write. destruct (hide _ _ _ _) as [l [e|[]]] eqn:Eh.
      * unfold mbind, pass_bind. match goal with |- context [on_failure false r e ?t] =>
          destruct (Hfail e t eq_refl (or_intror (ex_intro _ e eq_refl))) as (s' & o & -> & Ht) end.
        by exists s', o.
      * cbn. rewrite <- Hc. apply record_hide_turn; rewrite ?Hc; done.
    + cbn. rewrite <- Hc. apply record_hide_turn; rewrite ?Hc; done.
  - do 2 eexists. split; [done|]. by eapply turn_sent_back.
Qed.
End apply_lemmas.

(** ** Notions the theorems are stated with *)

(** An index of this name is on the cluster, hidden. *)
Definition hidden_on {Live} (indexes : Live -> string -> string -> list IndexSpec) (l : Live)
    (d c n : string) : Prop :=
  exists spec, spec ∈ indexes l d c /\ name spec = n /\ hidden spec = true.

(** A row that names the index is observing it. *)
Definition recorded (now : Z) (rows : list Recommendation) (d c n : string) : Prop :=
  exists r, r ∈ rows /\ state r = HIDDEN /\ rec_database r = d /\ rec_collection r = c /\
    rec_indexName r = n /\ hiddenAt (hide_columns r) = Some now /\
    is_Some (baselineReadOps (hide_columns r)).

(** Rows of which some were sent back to PROPOSED. *)
Definition demoted (rows rows' : list Recommendation) : Prop :=
  Forall2 (fun r r' => r' = r \/ r' = set_state PROPOSED r) rows rows'.

Lemma demoted_refl rows : demoted rows rows.
Proof. induction rows; constructor; auto. Qed.

Lemma demoted_trans rows1 rows2 rows3 : demoted rows1 rows2 -> demoted rows2 rows3 -> demoted rows1 rows3.
Proof.
  intros H1. revert rows3. induction H1 as [|r1 r2 l1 l2 Hr Hl IH]; intros rows3 H2; inv H2; [constructor|].
  constructor; [naive_solver|]. by apply IH.
Qed.

Lemma update_where_demoted id rows : demoted rows (update_where id (set_state PROPOSED) rows).
Proof.
  induction rows as [|r rows IH]; [constructor|]. unfold update_where. csimpl. constructor; [|done].
  destruct (_ =? _)%nat; auto.
Qed.

Lemma demoted_ids rows rows' : demoted rows rows' -> rec_id <$> rows' = rec_id <$> rows.
Proof. induction 1 as [|r r' l l' Hr Hl IH]; [done|]. csimpl. rewrite IH. f_equal. by destruct Hr as [-> | ->]. Qed.

Lemma demoted_elem rows rows' r :
  demoted rows rows' -> r ∈ rows -> exists r', r' ∈ rows' /\ (r' = r \/ r' = set_state PROPOSED r).
Proof.
  induction 1 as [|x x' l l' Hx Hl IH]; [set_solver|]. intros [->|Hr]%elem_of_cons.
  - exists x'. split; [left|done].
  - destruct (IH Hr) as (r' & ? & ?). exists r'. split; [by right|done].
Qed.

Lemma demoted_hidden rows rows' r :
  demoted rows rows' -> r ∈ rows' -> state r = HIDDEN -> r ∈ rows.
Proof.
  induction 1 as [|x x' l l' Hx Hl IH]; [set_solver|]. intros [->|Hr]%elem_of_cons Hs.
  - destruct Hx as [-> | ->]; [left|done].
  - right. auto.
Qed.

Section pass_lemmas.
Context {Live : Type} `{EngineSession Live}.

(** Only rows seen hinted are withdrawn. *)
Lemma withdraw_loop_hinted watches rows : forall acc (s s' : Store Live) w,
  for_each rows acc (withdraw_one watches) s = (s', inr w) -> forall id, id ∈ w ->
  id ∈ acc \/ exists r, r ∈ rows /\ rec_id r = id /\ is_hinted watches (live s) r = true.
Proof.
  induction rows as [|r rows IH]; intros acc s s' w; [intros [= <- <-]; auto|].
  cbn [for_each]. unfold mbind at 1, pass_bind at 1, withdraw_one, mbind at 1, pass_bind at 1, get at 1.
  destruct (is_hinted watches (live s) r) eqn:Eh; cbn; intros E id Hid;
    destruct (IH _ _ _ _ E id Hid) as [Hin|(x & Hx & Hi)].
  - apply elem_of_cons in Hin as [->|Hin]; [right|by left]. exists r. split_and!; [left|done|done].
  - right. exists x. split; [by right|done].
  - by left.
  - right. exists x. split; [by right|done].
Qed.

Lemma withdrawHinted_effect watches s :
  exists s' w, withdrawHinted (Live := Live) watches s = (s', inr w) /\ live s' = live s /\
    demoted (recs s) (recs s') /\
    (forall id, id ∈ w -> exists r, r ∈ recs s /\ rec_id r = id /\ is_hinted watches (live s) r = true) /\
    nextId s' = nextId s.
Proof.
  unfold withdrawHinted. destruct (decide (watches = ∅)).
  { do 2 eexists. split; [done|]. split; [done|]. split_and!; [apply demoted_refl|set_solver|done]. }
  unfold mbind, pass_bind, get.
  pose proof (for_each_inv (withdraw_one watches) (fun _ s' => live s' = live s /\ demoted (recs s) (recs s') /\ nextId s' = nextId s)
    (fun _ => False) (in_state APPROVED s) [] s) as Hinv.
  assert (Hbody : forall r (rest : list Recommendation) acc (s1 : Store Live),
    live s1 = live s /\ demoted (recs s) (recs s1) /\ nextId s1 = nextId s ->
    match withdraw_one watches acc r s1 with
    | (s2, inr _) => live s2 = live s /\ demoted (recs s) (recs s2) /\ nextId s2 = nextId s
    | (_, inl _) => False end).
  { intros r rest acc s1 (Hl & Hd & Hn). unfold withdraw_one, mbind, pass_bind, get.
    destruct (is_hinted _ _ _); simpl; split_and!; try done.
    eapply demoted_trans; [done|]. apply update_where_demoted. }
  specialize (Hinv Hbody (conj eq_refl (conj (demoted_refl _) eq_refl))).
  destruct (for_each _ _ _ s) as [s' [e|w]] eqn:E; [done|]. destruct Hinv as (Hl & Hd & Hn).
  exists s', w. split_and!; try done. intros id Hid.
  destruct (withdraw_loop_hinted _ _ _ _ _ _ E id Hid) as [?|(r & [Hr _]%elem_of_filter_bool & Hi)];
    [set_solver|]. by exists r.
Qed.

Lemma noteWaitingDrops_effect rows watches now s :
  exists s', noteWaitingDrops (Live := Live) rows watches now s = (s', inr tt) /\
    live s' = live s /\ recs s' = recs s /\ nextId s' = nextId s.
Proof.
  unfold noteWaitingDrops, mbind, pass_bind, get.
  assert (Hb : forall trail r acc s1, live s1 = live s /\ recs s1 = recs s /\ nextId s1 = nextId s ->
    match note_waiting (Live := Live) watches trail now acc r s1 with
    | (s2, inr _) => live s2 = live s /\ recs s2 = recs s /\ nextId s2 = nextId s | (_, inl _) => False end).
  { intros trail r acc s1 (Hl & Hd & Hn). unfold note_waiting.
    destruct (waiting_since _ _ _); [|done]. cbv zeta.
    by match goal with |- context [if ?b then mret tt else _] => destruct b end. }
  pose proof (for_each_inv (note_waiting watches (actions s) now)
    (fun _ s' => live s' = live s /\ recs s' = recs s /\ nextId s' = nextId s) (fun _ => False) rows tt s
    ltac:(intros; by apply Hb) (conj eq_refl (conj eq_refl eq_refl))) as Hinv.
  destruct (for_each _ _ _ s) as [s' [e|[]]]; [done|]. by exists s'.
Qed.
End pass_lemmas.

(** The rows still to come are as they were picked, and not hidden. *)
Definition pending (rest rows : list Recommendation) : Prop :=
  NoDup (rec_id <$> rows) /\ NoDup (rec_id <$> rest) /\
  forall r, r ∈ rest -> exists r', r' ∈ rows /\ rec_id r' = rec_id r /\ finding r' = finding r /\ state r' <> HIDDEN.

Lemma pending_update r rest rows f :
  (forall x, rec_id (f x) = rec_id x) -> pending (r :: rest) rows ->
  pending rest (update_where (rec_id r) f rows).
Proof.
  intros Hf (Hn & Hr & Hp). csimpl in Hr. apply NoDup_cons in Hr as [Hr Hn'].
  split_and!; [by rewrite update_where_ids|done|]. intros x Hx.
  destruct (Hp x) as (x' & Hx' & Hid & Hfi & Hs); [by right|]. exists x'. split_and!; try done.
  apply elem_of_update_where; [done|]. rewrite Hid. intros E. apply Hr. rewrite <- E. by apply list_elem_of_fmap_2.
Qed.

Lemma pending_tail r rest rows : pending (r :: rest) rows -> pending rest rows.
Proof.
  intros (? & Hr & Hp). csimpl in Hr. apply NoDup_cons in Hr as [? ?]. split_and!; try done.
  intros x Hx. apply Hp. by right.
Qed.

(** A row already hidden survives another row's turn. *)
Lemma pending_keeps r rest rows f x :
  pending (r :: rest) rows -> x ∈ rows -> state x = HIDDEN -> x ∈ update_where (rec_id r) f rows.
Proof.
  intros (Hn & _ & Hp) Hx Hs. apply elem_of_update_where; [done|]. intros E.
  destruct (Hp r) as (r' & Hr' & Hid & _ & Hs'); [left|]. apply Hs'.
  rewrite (NoDup_id_inj rows r' x); congruence.
Qed.

Lemma pending_start rows rows' :
  NoDup (rec_id <$> rows) -> demoted rows rows' ->
  pending (List.filter (fun r => bool_decide (state r = APPROVED)) rows) rows'.
Proof.
  intros Hn Hd. split_and!.
  - by rewrite (demoted_ids _ _ Hd).
  - by apply NoDup_fmap_filter.
  - intros r [Hr Hs%bool_decide_eq_true]%elem_of_filter_bool.
    destruct (demoted_elem _ _ _ Hd Hr) as (r' & Hr' & [-> | ->]); eexists; (split_and!; [done..|]);
      simpl; congruence.
Qed.

(** ** What the pass keeps of the rows *)

Section apply_keeps.
Context {Live : Type} `{EngineSession Live}.

Lemma keyed_promote threshold : preserves well_keyed (promoteByScore (Live := Live) threshold).
Proof.
  destruct threshold as [t|]; [|apply preserves_ret]. intros s. apply keyed_same; [|done]. simpl.
  rewrite <- list_fmap_compose. apply list_fmap_ext. intros _ r _. apply promote_id.
Qed.
Lemma row_promote x threshold :
  state x <> PROPOSED -> preserves (has_row x) (promoteByScore (Live := Live) threshold).
Proof.
  destruct threshold as [t|]; [|intros; apply preserves_ret]. intros Hx s [H1 H2]. split; simpl.
  - apply list_elem_of_fmap. exists x. split; [|done]. unfold promote, autoApprovable. by rewrite bool_decide_false.
  - rewrite <- list_fmap_compose. erewrite list_fmap_ext; [exact H2|]. intros _ r _. apply promote_id.
Qed.
#[local] Hint Resolve keyed_promote row_promote : passes.

Lemma keyed_apply_one ctx watches withdrawn r : preserves well_keyed (apply_one (Live := Live) ctx watches withdrawn r).
Proof. unfold apply_one, check_and_hide, record_hide, on_failure, noteHideFailure. preserve. Qed.
Lemma keyed_apply ctx : preserves well_keyed (applyCluster (Live := Live) ctx).
Proof.
  unfold applyCluster, hide_approved, apply_one, check_and_hide, record_hide, on_failure, noteHideFailure. preserve.
Qed.

(** A row that is already observing its index is left alone. *)
Lemma row_apply x ctx : state x = HIDDEN -> preserves (has_row x) (applyCluster (Live := Live) ctx).
Proof.
  intros Hx. assert (state x <> PROPOSED) by congruence. assert (state x <> APPROVED) by congruence.
  unfold applyCluster, hide_approved, apply_one, check_and_hide, record_hide, on_failure, noteHideFailure. preserve.
Qed.
End apply_keeps.

Section pass_theorems.
Context {Live : Type} `{EngineSession Live} (indexes : Live -> string -> string -> list IndexSpec)
  `{!SessionLaws Live indexes}.

Lemma hide_hides l d c n l' d' c' n' :
  hide l d c n = (l', inr tt) -> hidden_on indexes l' d' c' n' ->
  hidden_on indexes l d' c' n' \/ (d', c', n') = (d, c, n).
Proof.
  intros [Hd Hf]%hide_effect (spec & Hs & Hn & Hh).
  destruct (decide ((d', c') = (d, c))) as [[= -> ->]|Hne].
  - rewrite Hd in Hs. apply elem_of_mark_hidden in Hs as (s0 & Hs0 & En & Eh).
    destruct (String.eqb_spec (name s0) n); [right; congruence|]. left. exists s0. split_and!; congruence.
  - left. rewrite Hf in Hs by done. by exists spec.
Qed.

Lemma hide_failed_same l d c n l' e d' c' n' :
  hide l d c n = (l', inl e) -> hidden_on indexes l' d' c' n' -> hidden_on indexes l d' c' n'.
Proof.
  intros [Hd Hf]%hide_effect (spec & Hs & Hn & Hh). exists spec. split_and!; try done.
  destruct (decide ((d', c') = (d, c))) as [[= -> ->]|Hne]; [by rewrite Hd in Hs|by rewrite Hf in Hs].
Qed.

Lemma unhide_shows l d c n l' d' c' n' :
  unhide l d c n = (l', inr tt) -> hidden_on indexes l' d' c' n' ->
  hidden_on indexes l d' c' n' /\ (d', c', n') <> (d, c, n).
Proof.
  intros [Hd Hf]%unhide_effect (spec & Hs & Hn & Hh).
  destruct (decide ((d', c') = (d, c))) as [[= -> ->]|Hne].
  - rewrite Hd in Hs. apply elem_of_mark_hidden in Hs as (s0 & Hs0 & En & Eh).
    destruct (String.eqb_spec (name s0) n) as [E0|Hn0]; [congruence|].
    split; [exists s0; split_and!; congruence|]. intros [= ->]. congruence.
  - rewrite Hf in Hs by done. split; [by exists spec|]. intros [= -> -> ->]. done.
Qed.

Definition policy_of (ctx : ApplyContext) : Policy := ac_policy ctx ?? default_policy.

(** The rows after the promotion. *)
Definition promoted (ctx : ApplyContext) (rows : list Recommendation) : list Recommendation :=
  match autoApplyScore (automation (policy_of ctx) (ac_plan ctx)) with
  | None => rows
  | Some t => promote t <$> rows
  end.

(** The watches a pass keeps, once it has promoted, and the cluster it then
    looks for hints on. *)
Definition kept (ctx : ApplyContext) (s : Store Live) : Store Live * (exn + Watches) :=
  keepFailureWatchesOrNone (ac_observed ctx) (ac_now ctx)
    (promoteByScore (autoApplyScore (automation (policy_of ctx) (ac_plan ctx))) s).1.
Definition kept_watches (ctx : ApplyContext) (s : Store Live) : Watches :=
  match (kept ctx s).2 with inr watches => watches | inl _ => ∅ end.

Lemma apply_loop ctx ws w (I : list Recommendation -> Store Live -> Prop) approved s :
  (forall r rest s s' o, I (r :: rest) s -> apply_one ctx ws w r s = (s', inr o) ->
     turn ctx ws w r s s' o -> I rest s') -> I approved s ->
  exists s' out, for_each approved (0, []) (fun acc r =>
    o ← apply_one ctx ws w r; mret (tally acc o)) s = (s', inr out) /\ I [] s'.
Proof.
  intros Hstep HI.
  pose proof (for_each_inv (fun acc r => o ← apply_one ctx ws w r; mret (tally acc o)) I (fun _ => False)
    approved (0, []) s) as Hinv.
  destruct (for_each _ _ _ s) as [s' [e|out]]; [exfalso|exists s', out; split; [done|]];
    (apply Hinv; [|done]; intros r rest acc s1 Hs1; unfold mbind, pass_bind;
     destruct (apply_one_turn ctx ws w r s1) as (s2 & o & E & Ht); rewrite E; simpl; by eapply Hstep).
Qed.

(** How a pass ends: promoted and no more, or the loop over what was approved. *)
Lemma applyCluster_run ctx s (I : list Recommendation -> Store Live -> Prop) :
  (forall s1, recs s1 = promoted ctx (recs s) -> live s1 = live s ->
     List.filter (fun r => bool_decide (state r = APPROVED)) (promoted ctx (recs s)) = [] \/
     window_open (policy_of ctx) (ac_now ctx) = false \/ ac_readOnly ctx = true -> I [] s1) ->
  (forall s1 w, window_open (policy_of ctx) (ac_now ctx) = true -> ac_readOnly ctx = false ->
     (forall d c, indexes (live s1) d c = indexes (live s) d c) ->
     demoted (promoted ctx (recs s)) (recs s1) ->
     (forall id, id ∈ w -> exists r, r ∈ promoted ctx (recs s) /\ rec_id r = id /\
        is_hinted (kept_watches ctx s) (live (kept ctx s).1) r = true) ->
     I (List.filter (fun r => bool_decide (state r = APPROVED)) (promoted ctx (recs s))) s1 /\
     forall r rest s2 s3 o, I (r :: rest) s2 -> apply_one ctx (kept_watches ctx s) w r s2 = (s3, inr o) ->
       turn ctx (kept_watches ctx s) w r s2 s3 o -> I rest s3) ->
  I [] (applyCluster ctx s).1.
Proof.
  intros Hstop Hloop. unfold applyCluster, hide_approved. fold (policy_of ctx).
  unfold mbind at 1, pass_bind at 1. unfold kept_watches, kept in Hloop.
  assert (exists s1, promoteByScore (autoApplyScore (automation (policy_of ctx) (ac_plan ctx))) s = (s1, inr tt) /\
    recs s1 = promoted ctx (recs s) /\ live s1 = live s) as (s1 & Es & Hr & Hl).
  { unfold promoteByScore, promoted. destruct (autoApplyScore _); eexists; done. }
  rewrite Es in Hloop |- *. cbn [fst] in Hloop.
  unfold mbind at 1, pass_bind at 1, get at 1.
  assert (Hin : in_state APPROVED s1 =
    List.filter (fun r => bool_decide (state r = APPROVED)) (promoted ctx (recs s))) by
    (unfold in_state; by rewrite Hr).
  destruct (in_state APPROVED s1) as [|r0 approved] eqn:Ea; [by apply (Hstop s1); auto|].
  rewrite <- Ea in *. clear Ea.
  destruct (window_open _ _) eqn:Ew; simpl; [|by apply (Hstop s1); auto].
  destruct (ac_readOnly ctx) eqn:Ero; [by apply (Hstop s1); auto|].
  unfold mbind at 1, pass_bind at 1.
  destruct (keepFailureWatchesOrNone_effect indexes (ac_observed ctx) (ac_now ctx) s1)
    as (s1' & ws & Ek & Hrk & _ & _ & Hlk). rewrite Ek in Hloop |- *.
  unfold mbind at 1, pass_bind at 1.
  destruct (withdrawHinted_effect ws s1') as (s2 & w & -> & Hl2 & Hd2 & Hw2 & _).
  unfold mbind at 1, pass_bind at 1.
  match goal with |- context [noteWaitingDrops ?rows ?ws ?t s2] =>
    destruct (noteWaitingDrops_effect rows ws t s2) as (s3 & -> & Hl3 & Hr3 & _) end.
  destruct (Hloop s3 w) as [HI Hstep]; try done.
  { intros d c. by rewrite Hl3, Hl2, Hlk, Hl. }
  { by rewrite Hr3, <- Hr, <- Hrk. }
  { rewrite <- Hr, <- Hrk. exact Hw2. }
  rewrite <- Hin in HI.
  destruct (apply_loop ctx ws w I _ s3 Hstep HI) as (s4 & out & E & HI4).
  unfold mbind at 1, pass_bind at 1. rewrite E. by destruct (out.2).
Qed.

Lemma promoted_ids ctx rows : rec_id <$> promoted ctx rows = rec_id <$> rows.
Proof.
  unfold promoted. destruct (autoApplyScore _) as [t|]; [|done].
  rewrite <- list_fmap_compose. apply list_fmap_ext. intros _ r _. apply promote_id.
Qed.

(** A row as the promotion may have found it: approved, or eligible and scored
    high enough for what the plan entitles the policy to. *)
Definition approvable (ctx : ApplyContext) (r : Recommendation) : Prop :=
  state r = APPROVED \/
  exists t, autoApplyScore (automation (policy_of ctx) (ac_plan ctx)) = Some t /\
    autoApprovable r = true /\ t <= f_score (finding r).

Lemma promoted_approved ctx rows r :
  r ∈ promoted ctx rows -> state r = APPROVED ->
  exists r0, r0 ∈ rows /\ rec_id r0 = rec_id r /\ finding r0 = finding r /\ approvable ctx r0.
Proof.
  unfold promoted, approvable. destruct (autoApplyScore _) as [t|].
  - intros (r0 & -> & Hr0)%list_elem_of_fmap Hs. exists r0.
    rewrite promote_id, promote_finding. split_and!; try done.
    unfold promote in Hs. destruct (autoApprovable r0) eqn:E; [|by left]. simpl in Hs.
    destruct (Z.leb_spec t (f_score (finding r0))); [right; eauto|by left].
  - intros Hr Hs. exists r. split_and!; try done. by left.
Qed.

Lemma promoted_hidden ctx rows r : r ∈ promoted ctx rows -> state r = HIDDEN -> r ∈ rows.
Proof.
  unfold promoted. destruct (autoApplyScore _) as [t|]; [|done].
  intros (r0 & -> & Hr0)%list_elem_of_fmap. unfold promote. by destruct (_ && _).
Qed.

Lemma hidden_on_same l l' d c n :
  (forall d c, indexes l' d c = indexes l d c) -> hidden_on indexes l' d c n -> hidden_on indexes l d c n.
Proof. intros E (spec & Hs & ?). exists spec. by rewrite <- E. Qed.

(** A hidden index was hidden before, or a row is observing it from this pass on. *)
Lemma hidden_accounted ctx s d c n :
  (forall l d c n, (unhide l d c n).2 = inr tt) -> NoDup (rec_id <$> recs s) ->
  hidden_on indexes (live (applyCluster ctx s).1) d c n ->
  hidden_on indexes (live s) d c n \/ recorded (ac_now ctx) (recs (applyCluster ctx s).1) d c n.
Proof.
  intros Hun Hnd.
  set (I := fun (rest : list Recommendation) (s' : Store Live) =>
    pending rest (recs s') /\ forall d c n, hidden_on indexes (live s') d c n ->
      hidden_on indexes (live s) d c n \/ recorded (ac_now ctx) (recs s') d c n).
  enough (I [] (applyCluster ctx s).1) as [_ HI] by apply HI.
  assert (Hnd' : NoDup (rec_id <$> promoted ctx (recs s))) by by rewrite promoted_ids.
  apply applyCluster_run.
  { intros s1 Hr Hl _. split; [|rewrite Hl; by left]. rewrite Hr. split_and!; [done|constructor|set_solver]. }
  intros s1 w _ _ Hl Hd _. split.
  { split; [by apply pending_start|]. intros d' c' n' Hh. left. by eapply hidden_on_same. }
  intros r rest s2 s3 o [Hp Hc] _ Ht. unfold I. destruct Ht as [_|s3 check _ _ _ Hr3 Hl3|s3 check bl bf tx _ _ _ Hr3 Hb Hh _ _|s3 e _ Hr3 Hl3].
  - split; [by eapply pending_tail|done].
  - rewrite Hr3, Hl3. split; [by apply pending_update|]. intros d' c' n' [?|(x & Hx & Hs & ?)]%Hc; [by left|].
    right. exists x. split; [by eapply pending_keeps|done].
  - rewrite Hr3. split; [by apply pending_update|]. intros d' c' n' Hhid.
    assert (hidden_on indexes (live s2) d' c' n' \/
      ac_canHide ctx = true /\ (d', c', n') = (rec_database r, rec_collection r, rec_indexName r)) as [Hold|[Hcan Hnew]].
    { destruct (ac_canHide ctx); [|rewrite Hh in Hhid; by left].
      destruct (hide_hides _ _ _ _ _ _ _ _ Hh Hhid); auto. }
    + destruct (Hc _ _ _ Hold) as [?|(x & Hx & Hs & ?)]; [by left|].
      right. exists x. split; [by eapply pending_keeps|done].
    + right. destruct Hp as (_ & _ & Hp). destruct (Hp r) as (r' & Hr' & Hid & Hf & _); [left|].
      exists (hidden_row ctx r bl bf r'). injection Hnew as -> -> ->. rewrite <- Hid.
      split; [by apply elem_of_update_where_hit|]. unfold rec_database, rec_collection, rec_indexName. simpl.
      rewrite Hf, Hcan in *. split_and!; try done. by destruct bl.
  - rewrite Hr3. split; [by eapply pending_tail|]. intros d' c' n' Hhid. apply Hc.
    destruct Hl3 as [Hl3|[[e' Hl3]|(l & Hh & Hl3)]].
    + by rewrite <- Hl3.
    + by eapply hide_failed_same.
    + specialize (Hun l (rec_database r) (rec_collection r) (rec_indexName r)).
      destruct (unhide l _ _ _) as [l' out] eqn:Eu. simpl in *. subst out l'.
      destruct (unhide_shows _ _ _ _ _ _ _ _ Eu Hhid) as [Hhid' Hne].
      by destruct (hide_hides _ _ _ _ _ _ _ _ Hh Hhid').
Qed.

(** C5. No index is left hidden behind the pipeline's back: whatever throws
    during an apply pass, an index that is hidden when it ends was hidden before,
    or a row is observing it from this pass on, with the read-latency baseline
    the regression gate needs.  Holds as long as un-hiding does not itself fail. *)
Theorem applyCluster_strands_nothing ctx s d c n :
  (forall l d c n, (unhide l d c n).2 = inr tt) -> NoDup (rec_id <$> recs s) ->
  hidden_on indexes (live (applyCluster ctx s).1) d c n ->
  hidden_on indexes (live s) d c n \/ recorded (ac_now ctx) (recs (applyCluster ctx s).1) d c n.
Proof. apply hidden_accounted. Qed.

(** Everything a hide waits for: the row was approved, or eligible to be; the
    change window is open and the cluster writable; the database is observed and
    the row a drop; a watched collection has its day of recorded failures; and
    the pre-flight passed on the cluster the hide was sent to. *)
Definition hide_gate (ctx : ApplyContext) (s : Store Live) (r' : Recommendation) : Prop :=
  exists r l specs usage hinted,
    r ∈ recs s /\ rec_id r = rec_id r' /\ finding r = finding r' /\ approvable ctx r /\
    window_open (policy_of ctx) (ac_now ctx) = true /\ ac_readOnly ctx = false /\
    inScope (ac_observed ctx) (rec_database r) = true /\ rec_type r ∈ HIDE_TYPES /\
    (forall since, watched_since (kept_watches ctx s) r = Some since ->
       FAILURE_BASELINE_MS <= ac_now ctx - since) /\
    specs = indexes l (rec_database r) (rec_collection r) /\
    collectHintedIndexes l (rec_database r) (rec_collection r) = inr hinted /\
    (rec_type r = DROP_UNUSED -> collectUsage l (rec_database r) (rec_collection r) = inr usage) /\
    safe (preflightDrop specs usage hinted (drop_target r)) = true /\
    (ac_canHide ctx = true ->
       (hide l (rec_database r) (rec_collection r) (rec_indexName r)).2 = inr tt).

Lemma passed_over_false ctx ws w r :
  passed_over ctx ws w r = false ->
  rec_id r ∉ w /\ inScope (ac_observed ctx) (rec_database r) = true /\ rec_type r ∈ HIDE_TYPES /\
  (forall since, watched_since ws r = Some since -> FAILURE_BASELINE_MS <= ac_now ctx - since).
Proof.
  unfold passed_over, is_hide_type. rewrite !orb_false_iff, !negb_false_iff.
  intros (((H1%bool_decide_eq_false & H2) & H3%bool_decide_eq_true) & H4). split_and!; try done.
  intros since Hs. rewrite Hs in H4. lia.
Qed.

(** C6. Nothing is hidden that a gate did not clear: a row that an apply pass
    leaves HIDDEN was so before, untouched, or passed every condition of
    [hide_gate]. *)
Theorem applyCluster_hides_gated ctx s r' :
  NoDup (rec_id <$> recs s) ->
  r' ∈ recs (applyCluster ctx s).1 -> state r' = HIDDEN ->
  r' ∈ recs s \/ hide_gate ctx s r'.
Proof.
  intros Hnd.
  set (picked := List.filter (fun r => bool_decide (state r = APPROVED)) (promoted ctx (recs s))).
  set (I := fun (rest : list Recommendation) (s' : Store Live) =>
    pending rest (recs s') /\ (forall r, r ∈ rest -> r ∈ picked) /\
    forall r', r' ∈ recs s' -> state r' = HIDDEN -> r' ∈ recs s \/ hide_gate ctx s r').
  enough (I [] (applyCluster ctx s).1) as (_ & _ & HI) by apply HI.
  assert (Hnd' : NoDup (rec_id <$> promoted ctx (recs s))) by by rewrite promoted_ids.
  apply applyCluster_run.
  { intros s1 Hr Hl _. unfold I. rewrite Hr. split_and!; [split_and!; [done|constructor|set_solver]|set_solver|].
    intros x Hx Hs. left. by eapply promoted_hidden. }
  intros s1 w Hw Hro Hl Hd _. split.
  { split_and!; [by apply pending_start|done|]. intros x Hx Hs. left.
    eapply promoted_hidden; [|done]. by eapply demoted_hidden. }
  intros r rest s2 s3 o (Hp & Hpick & Hc) _ Ht. unfold I.
  assert (Hpick' : forall x, x ∈ rest -> x ∈ picked) by (intros x Hx; apply Hpick; by right).
  destruct Ht as [_|s3 check _ _ _ Hr3 Hl3|s3 check bl bf tx Hpo Hpf Hsafe Hr3 Hb Hh _ _|s3 e _ Hr3 Hl3];
    rewrite ?Hr3.
  - split_and!; [by eapply pending_tail|done|done].
  - split_and!; [by apply pending_update|done|]. intros x Hx Hs.
    apply elem_of_update_where_inv in Hx as (x0 & Hx0 & [[_ ->]|[_ ->]]); [done|auto].
  - split_and!; [by apply pending_update|done|]. intros x Hx Hs.
    apply elem_of_update_where_inv in Hx as (x0 & Hx0 & [[Hid ->]|[_ ->]]); [right|auto].
    destruct Hp as (Hnd2 & _ & Hp). destruct (Hp r) as (r1 & Hr1 & Hid1 & Hf1 & _); [left|].
    assert (x0 = r1) as -> by (eapply NoDup_id_inj; [exact Hnd2|done|done|congruence]).
    assert (r ∈ picked) as [Hin Hst%bool_decide_eq_true]%elem_of_filter_bool by (apply Hpick; left).
    destruct (promoted_approved ctx _ _ Hin Hst) as (r0 & Hr0 & Hid0 & Hf0 & Happ).
    destruct (preflightLive r s2) as [s2' [|check']] eqn:Epf; [done|]. injection Hpf as ->.
    destruct (preflightLive_safe r s2 s2' check Epf Hsafe) as (specs & usage & hinted & Hl1 & Hl2 & Hl4 & ->).
    apply passed_over_false in Hpo as (_ & Hsc & Hty & Hday).
    assert (Hall : rec_database r0 = rec_database r /\ rec_collection r0 = rec_collection r /\
      rec_indexName r0 = rec_indexName r /\ rec_type r0 = rec_type r /\ drop_target r0 = drop_target r /\
      namespace_of r0 = namespace_of r).
    { unfold namespace_of, drop_target, rec_database, rec_collection, rec_indexName, rec_type. by rewrite Hf0. }
    destruct Hall as (Ed & Ec & En & Et & Edt & Ens).
    exists r0, (live s2), specs, usage, hinted. unfold watched_since. rewrite Ed, Ec, En, Et, Edt, Ens.
    split_and!; try done; simpl; [congruence|congruence|by apply listIndexes_true|].
    intros Hcan. rewrite Hcan in Hh. by rewrite Hh.
  - split_and!; [by eapply pending_tail|done|done].
Qed.
End pass_theorems.

(** Who may be approved without a person: a pass moves a row from PROPOSED
    to APPROVED exactly when the plan allows acting unattended, the policy names
    a score the row reaches, the row is neither an advisory nor a re-order, and
    any usage evidence behind it spans a week; nothing else about any row, and
    nothing on the cluster, changes. *)
Theorem promotion_gated {Live} (policy : Policy) (plan : Plan) (s : Store Live) :
  let '(s', out) := promoteByScore (autoApplyScore (automation policy plan)) s in
  out = inr tt /\ live s' = live s /\
  Forall2 (fun r r' =>
    let gate := plan <> FREE /\ state r = PROPOSED /\ rec_type r <> ADVISORY_REVIEW /\
      rec_type r <> REORDER /\
      (forall d, f_evidenceDays (finding r) = Some d -> 7 <= d) /\
      exists t, p_autoApplyScore policy = Some t /\ t <= f_score (finding r) in
    (gate /\ r' = set_state APPROVED r) \/ (~ gate /\ r' = r)) (recs s) (recs s').
Proof.
  assert (Hsame : forall l : list Recommendation, autoApplyScore (automation policy plan) = None ->
    Forall2 (fun r r' =>
      let gate := plan <> FREE /\ state r = PROPOSED /\ rec_type r <> ADVISORY_REVIEW /\
        rec_type r <> REORDER /\ (forall d, f_evidenceDays (finding r) = Some d -> 7 <= d) /\
        exists t, p_autoApplyScore policy = Some t /\ t <= f_score (finding r) in
      (gate /\ r' = set_state APPROVED r) \/ (~ gate /\ r' = r)) l l).
  { intros l Hn. induction l; constructor; [|done]. right. split; [|done].
    intros (Hp & _ & _ & _ & _ & t & Ht & _). destruct plan; naive_solver. }
  unfold promoteByScore. destruct (autoApplyScore (automation policy plan)) as [t|] eqn:Et.
  2: { split_and!; auto. }
  split_and!; [done..|]. simpl. clear Hsame.
  assert (plan <> FREE /\ p_autoApplyScore policy = Some t) as [Hpl Ht] by (destruct plan; naive_solver).
  induction (recs s) as [|r l IH]; [constructor|]. csimpl. constructor; [|done].
  unfold promote. destruct (autoApprovable r && (t <=? f_score (finding r))) eqn:E.
  - apply andb_true_iff in E as [(?&?&?&?)%autoApprovable_spec ?%Z.leb_le]. left. split; [|done].
    split_and!; try done. by exists t.
  - right. split; [|done]. intros (_ & H1 & H2 & H3 & H4 & t' & Ht' & Hle).
    apply andb_false_iff in E as [E|E].
    + apply not_true_iff_false in E. apply E, autoApprovable_spec. by split_and!.
    + rewrite Ht in Ht'. injection Ht' as <-. lia.
Qed.

(** ** What this pass sees of an index's history *)

(** Rows as the collector leaves them: every row but the newest was trimmed. *)
Lemma collected_trimmed `{Locale} readings rows :
  Forall (fun run => sr_perMember run = []) (tail rows) ->
  Forall (fun run => sr_perMember run = []) (tail (fold_left recordSnapshot readings rows)).
Proof.
  revert rows. induction readings as [|[now members] readings IH]; intros rows Hr; [done|].
  cbn [fold_left]. apply IH. destruct rows as [|run older]; simpl; [constructor|].
  destruct (String.eqb _ _); simpl; [|by constructor].
  destruct (_ <? 0); simpl; [by constructor|]. destruct (_ <=? _); simpl; [done|by constructor].
Qed.

Definition has_members (run : UsageSnapshot) : bool :=
  match perMember run with Some (_ :: _) => true | _ => false end.

(** Without the stored columns, a run with no counters reads as idle. *)
Lemma usage_walk_blind prev first runs :
  Forall (fun run => opsDelta run = None /\ opsTotal run = None) runs ->
  totalObservations (List.filter (fun p => 0 <? up_ops p) (usage_walk prev first runs)) <=
  Z.of_nat (length (List.filter has_members runs)).
Proof.
  revert prev first. induction runs as [|run runs IH]; intros prev first Hr; [done|].
  apply Forall_cons in Hr as [[Hd Ht] Hr]. cbn [usage_walk].
  rewrite Hd, Ht. replace (if first then None else None : option Z) with (@None Z) by by destruct first.
  simpl default. rewrite List.filter_app. unfold totalObservations in *. rewrite zsum_app.
  match goal with |- context [usage_walk ?a ?b runs] => specialize (IH a b Hr) end.
  set (act := activityBetween _ _).
  assert (Hone : zsum observationsOf (List.filter (fun p => 0 <? up_ops p) (run_points run act)) <=
    if has_members run then 1 else 0).
  { unfold has_members. assert (Hact : perMember run ?? [] = [] -> act = 0)
      by (intros E; unfold act; by rewrite E).
    unfold run_points. destruct (Z.eqb_spec act 0) as [->|Hne].
    { simpl. change (zsum observationsOf (A := UsagePoint) []) with 0.
      destruct (perMember run) as [[|]|]; simpl; lia. }
    destruct (perMember run) as [[|m ms]|]; simpl in Hact; [by destruct Hne; auto| |by destruct Hne; auto].
    assert (Hidle : List.filter (fun p => 0 <? up_ops p)
      (if 1 <? observationsOf run then [idle_point run (observationsOf run - 1)] else []) = [])
      by by destruct (1 <? _).
    cbn [List.filter]. rewrite Hidle. destruct (0 <? _).
    - rewrite zsum_cons, observationsOf_burst. change (zsum observationsOf (A := UsagePoint) []) with 0. lia.
    - change (zsum observationsOf (A := UsagePoint) []) with 0. lia. }
  simpl List.filter. destruct (has_members run); simpl length; lia.
Qed.

(** The pass that sizes the observe window is blind to an index's sightings:
    over rows the collector wrote, the usage history it builds holds at most one,
    so the rule that extends the window over a full cycle of periodic usage
    never applies. *)
Theorem apply_history_loses_sightings `{Locale} ctx r readings policyDays context :
  ac_history ctx r = fold_left recordSnapshot readings [] ->
  sighting_rule (List.filter (fun point => 0 <? up_ops point) (sortedRuns (apply_series ctx r)))
    policyDays context = None.
Proof.
  intros Hh. unfold sighting_rule. rewrite (proj2 (Z.ltb_lt _ _)); [done|].
  unfold apply_series. rewrite usageSeries_sortedRuns. unfold usageSeries.
  eapply Z.le_lt_trans; [apply usage_walk_blind|].
  { rewrite List.Forall_forall. intros x Hx%list_elem_of_In. unfold sortedRuns in Hx.
    rewrite elem_of_stable_sort, elem_of_filter_bool in Hx. destruct Hx as [Hx _].
    by apply list_elem_of_fmap in Hx as (run & -> & _). }
  assert (Hp : forall l : list UsageSnapshot,
    (length (List.filter has_members (sortedRuns l)) <= length (List.filter has_members l))%nat).
  { intros l. unfold sortedRuns.
    assert (Hperm : Permutation (List.filter has_members (stable_sort (by_key start_ms)
        (List.filter (fun r => is_some (spanStart r)) l)))
      (List.filter has_members (List.filter (fun r => is_some (spanStart r)) l)))
      by by rewrite stable_sort_perm.
    etransitivity; [apply Nat.eq_le_incl, (Permutation_length Hperm)|].
    clear Hperm. induction l as [|x l IH]; simpl; [done|].
    destruct (is_some _); simpl; destruct (has_members x); simpl; lia. }
  eapply Z.le_lt_trans; [apply inj_le, Hp|]. rewrite Hh. pose proof (collected_trimmed readings [] (Forall_nil_2 _)) as Ht.
  assert (Hone : forall rows, Forall (fun run => sr_perMember run = []) rows ->
    List.filter has_members (apply_snapshot <$>
      List.filter (fun run => ac_historySince ctx <=? sr_lastSeenAt run) rows) = []).
  { intros rows Hr. induction Hr as [|run rows E Hr IH]; [done|]. simpl.
    destruct (_ <=? _); [|done]. csimpl. unfold has_members at 1. simpl. by rewrite E. }
  destruct (fold_left recordSnapshot readings []) as [|newest older]; [done|]. simpl in Ht |- *.
  destruct (_ <=? _); csimpl.
  - destruct (has_members _); simpl length; rewrite (Hone _ Ht); simpl; lia.
  - rewrite (Hone _ Ht). simpl. lia.
Qed.

(** An index one job reads once a month, collected daily for a hundred days, on a
    server restarted on day 95. *)
Definition monthly_readings : list (Z * list MemberUsage) :=
  (fun d => let day := Z.of_nat d in
    (day * 86400000,
     [{| member := "m"; ops := (if day <? 95 then 1 + day / 30 else 0);
         since := Some (At (if day <? 95 then 0 else 95 * 86400000)) |}])) <$> seq 0 101.

Definition monthly_rows : list StoredRun :=
  fold_left (recordSnapshot (H := String.leb)) monthly_readings [].

Definition monthly_drop : Recommendation :=
  {| rec_id := 0;
     finding := {| f_type := DROP_REDUNDANT; f_source := CLASSIFY; f_usageClass := None; f_database := "shop";
       f_collection := "orders"; f_indexName := "a_1"; f_score := 80; f_evidenceDays := None;
       f_estimatedBytesSaved := 4096; f_urgent := false; f_targetSpec := None |};
     state := APPROVED; rationale := ""; hide_columns := no_hide; build_columns := no_build |}.

Definition monthly_context : ApplyContext :=
  {| ac_policy := None; ac_plan := PRO; ac_readOnly := false; ac_canHide := true; ac_observed := None;
     ac_watchingSince := Some (At 0); ac_historySince := 0;
     ac_history := fun _ => monthly_rows; ac_now := 101 * 86400000 |}.

(** The window it gets is half the policy's, for having no usage at all; the
    usage the collector stored calls for two cycles of it. *)
Example monthly_index_window :
  days (observe_window monthly_context monthly_drop) = 15 /\
  days (dynamicObserveDays (usageSeries (load_run <$> monthly_rows)) DEFAULT_OBSERVE_DAYS
    {| watchingSince := Some (At 0); ctx_now := 101 * 86400000 |}) = 60.
Proof. split; vm_compute; reflexivity. Qed.

(** ** Concrete passes *)

Definition shop_context : ApplyContext :=
  {| ac_policy := None; ac_plan := PRO; ac_readOnly := false; ac_canHide := true; ac_observed := None;
     ac_watchingSince := None; ac_historySince := 0; ac_history := fun _ => [];
     ac_now := 1000 * 86400000 |}.

Definition shop_before : Store Memory := shop_store [shop_row APPROVED no_hide] shop.
Definition shop_after : Store Memory := (applyCluster shop_context shop_before).1.

Lemma shop_hidden : hidden_on memory_indexes (live shop_after) "shop" "orders" "a_1".
Proof.
  exists (set_hidden true (ascending_index "a_1" ["a"])). split; [|done].
  replace (memory_indexes (live shop_after) "shop" "orders") with
    [set_hidden true (ascending_index "a_1" ["a"]); ascending_index "a_1_b_1" ["a"; "b"]] by (vm_compute; reflexivity).
  left.
Qed.

Lemma applyCluster_strands_nothing_witness :
  hidden_on memory_indexes (live shop_after) "shop" "orders" "a_1" /\
  (hidden_on memory_indexes (live shop_before) "shop" "orders" "a_1" \/
   recorded (ac_now shop_context) (recs shop_after) "shop" "orders" "a_1").
Proof.
  split; [exact shop_hidden|].
  apply (applyCluster_strands_nothing memory_indexes shop_context shop_before);
    [reflexivity|apply NoDup_singleton|exact shop_hidden].
Defined.

Lemma applyCluster_hides_gated_witness :
  exists r', r' ∈ recs shop_after /\ state r' = HIDDEN /\
    (r' ∈ recs shop_before \/ hide_gate memory_indexes shop_context shop_before r').
Proof.
  destruct (recs shop_after) as [|r' rest] eqn:E; [vm_compute in E; discriminate E|].
  exists r'. split_and!; [left|vm_compute in E; injection E as <- _; reflexivity|].
  apply (applyCluster_hides_gated memory_indexes shop_context shop_before);
    [apply NoDup_singleton| |vm_compute in E; injection E as <- _; reflexivity].
  change (r' ∈ recs shop_after). rewrite E. left.
Defined.

Lemma apply_history_loses_sightings_witness :
  sighting_rule (List.filter (fun point => 0 <? up_ops point)
    (sortedRuns (apply_series monthly_context monthly_drop))) 30
    {| watchingSince := Some (At 0); ctx_now := 101 * 86400000 |} = None /\
  is_Some (sighting_rule (List.filter (fun point => 0 <? up_ops point)
    (sortedRuns (usageSeries (load_run <$> monthly_rows)))) 30
    {| watchingSince := Some (At 0); ctx_now := 101 * 86400000 |}).
Proof.
  split; [|vm_compute; eauto].
  apply (@apply_history_loses_sightings String.leb monthly_context monthly_drop monthly_readings). reflexivity.
Defined.
