(* ===== verification/Build.v ===== *)
(** Approved builds become indexes.  Models [apps/api/src/jobs/create.ts] and
    [apps/api/src/jobs/building.ts], with the key encoding and the re-order row
    of [apps/api/src/jobs/suggest.ts].  The two columns [servedShapes] adds for
    the overview are left out. *)
From S2P Require Import Prelude EngineTypes Redundancy Esr Reorder Recurrence Policy Preflight Regression Store Memory.

(** ** The target a row carries *)

(** [entry.endsWith(":-1")], with [entry.slice(0, -3)]. *)
Fixpoint strip_desc (entry : string) : option string :=
  match entry with
  | EmptyString => None
  | String c rest => if String.eqb entry ":-1" then Some "" else String c <$> strip_desc rest
  end.

Definition encodeKeys (keys : list SortKey) : list string :=
  (fun key => match sk_direction key with Neg => sk_field key +:+ ":-1" | Pos => sk_field key end) <$> keys.

(** [keys[field] = direction] on an object: a field met again keeps its place. *)
Fixpoint set_key (f : string) (d : SortDirection) (keys : list (string * SortDirection))
    : list (string * SortDirection) :=
  match keys with
  | [] => [(f, d)]
  | (g, e) :: rest => if String.eqb g f then (g, d) :: rest else (g, e) :: set_key f d rest
  end.

Definition decode_entry (entry : string) : string * SortDirection :=
  match strip_desc entry with Some f => (f, Neg) | None => (entry, Pos) end.

Definition decodeKeys (entries : list string) : list (string * SortDirection) :=
  fold_left (fun keys entry => let '(f, d) := decode_entry entry in set_key f d keys) entries [].

(** The [targetSpec] of a REORDER proposal. *)
Definition reorder_target (c : ReorderCandidate) : TargetSpec :=
  {| ts_keys := encodeKeys (ro_keys c); ts_retire := [ro_indexName c]; ts_partial := None;
     ts_options := Some
       {| bo_unique := unique (ro_spec c); bo_sparse := sparse (ro_spec c);
          bo_collation := collation (ro_spec c); bo_partialFilter := partialFilter (ro_spec c);
          bo_include := match include (ro_spec c) with Some ((_ :: _) as l) => Some l | _ => None end |};
     ts_supersededBy := None |}.

(** ** The build *)

Definition specOf (n : string) (ks : list (string * SortDirection)) (target : TargetSpec) : IndexSpec :=
  let carried := ts_options target in
  let filter :=
    match ts_partial target with Some f => Some f | None => carried ≫= bo_partialFilter end in
  {| name := n; keys := (fun '(f, d) => {| field := f; direction := Ordered d |}) <$> ks;
     unique := (bo_unique <$> carried) ?? false; ttl := false; partial := is_some filter;
     partialFilter := filter; sparse := (bo_sparse <$> carried) ?? false; hidden := false;
     isShardKey := false; collation := carried ≫= bo_collation; include := carried ≫= bo_include |}.

Definition create_options (n : string) (target : TargetSpec) : CreateIndexOptions :=
  let carried := ts_options target in
  {| co_name := n;
     co_unique := (bo_unique <$> carried) ?? false;
     co_sparse := (bo_sparse <$> carried) ?? false;
     co_collation := carried ≫= bo_collation;
     co_partialFilterExpression :=
       match carried ≫= bo_partialFilter with Some f => Some f | None => ts_partial target end;
     co_include := match carried ≫= bo_include with Some ((_ :: _) as l) => Some l | _ => None end |}.

Record BuildContext := { bx_policy : option Policy; bx_readOnly : bool; bx_now : Z }.

Section build.
Context {Live : Type} `{EngineSession Live}.

Definition closeUnbuilt (r : Recommendation) (why result : string) : pass Live unit :=
  update_rec (rec_id r) (fun row => set_state REJECTED (set_rationale (rationale r +:+ " — " +:+ why) row));;
  insert_action (rec_id r) BUILD_ACTION result None.

(** The row of an index that is there. *)
Definition activate (now : Z) (writes : LatencySample) (row : Recommendation) : Recommendation :=
  set_state ACTIVE (set_build {| bc_builtAt := Some now; baselineWriteOps := Some (ls_ops writes);
                                 baselineWriteLatency := Some (ls_latencyMicros writes) |} row).

Definition finish_build (now : Z) (r : Recommendation) : pass Live unit :=
  writes ← read (fun l => collectionWrites l (rec_database r) (rec_collection r));
  update_rec (rec_id r) (activate now writes);;
  insert_action (rec_id r) BUILD_ACTION "ok" (Some (NameToken (rec_indexName r))).

(** One turn of the loop: how many indexes it built or scheduled. *)
Definition build_one (now : Z) (built : Z) (r : Recommendation) : pass Live Z :=
  match f_targetSpec (finding r) with
  | None => mret built
  | Some target =>
    match ts_keys target with
    | [] => mret built
    | entries =>
      let ks := decodeKeys entries in
      if bool_decide (rec_type r = REORDER) && negb (is_some (ts_options target)) then
        insert_action (rec_id r) BUILD_ACTION
          "refused: no original options recorded, so the replacement could not match it" None;;
        mret built
      else
        specs ← read (fun l => listIndexes l (rec_database r) (rec_collection r));
        match notWorthBuilding (specOf (rec_indexName r) ks target) specs with
        | Some unbuilt =>
            closeUnbuilt r ("not built: " +:+ unbuilt) ("not built: " +:+ unbuilt);; mret built
        | None =>
            outcome ← try_catch
              (o ← write (fun l => create l (rec_database r) (rec_collection r) ks
                                     (create_options (rec_indexName r) target));
               mret (Some o))
              (fun e => match e with
                | Refused m =>
                    closeUnbuilt r ("refused by the engine: " +:+ m) ("refused: " +:+ m);; mret None
                | _ => throw e
                end);
            match outcome with
            | None => mret built
            | Some OUTCOME_SCHEDULED =>
                update_rec (rec_id r) (set_state BUILDING);;
                insert_action (rec_id r) BUILD_ACTION
                  "scheduled: the build runs on the cluster and a later tick records the result" None;;
                mret (built + 1)
            | Some BUILT => finish_build now r;; mret (built + 1)
            end
        end
    end
  end.

Definition applyCreatesForCluster (ctx : BuildContext) : pass Live Z :=
  s ← get;
  let approved := List.filter (fun r => bool_decide (rec_type r ∈ BUILD_TYPES)) (in_state APPROVED s) in
  match approved with
  | [] => mret 0
  | _ =>
    let open := window_open (bx_policy ctx ?? default_policy) (bx_now ctx) in
    let buildable := if open then approved else List.filter (fun r => f_urgent (finding r)) approved in
    match buildable with
    | [] => mret 0
    | _ => if bx_readOnly ctx then mret 0 else for_each buildable 0 (build_one (bx_now ctx))
    end
  end.

(** ** Builds that finish later *)

Definition settle_one (settle : Live -> string -> string -> string -> Live * (exn + IndexBuildSettlement))
    (trim : string -> string) (now : Z) (settled : Z) (r : Recommendation) : pass Live Z :=
  outcome ← write (fun l => settle l (rec_database r) (rec_collection r) (rec_indexName r));
  match outcome with
  | PENDING => mret settled
  | FAILED message =>
      update_rec (rec_id r) (set_state APPROVED);;
      insert_action (rec_id r) BUILD_ACTION
        ("failed: " +:+ trim message +:+ " — a failed concurrent build leaves an " +:+
         "invalid index behind, which this role cannot remove: DROP INDEX CONCURRENTLY " +:+
         "IF EXISTS " +:+ rec_indexName r) None;;
      mret (settled + 1)
  | READY => finish_build now r;; mret (settled + 1)
  end.

(** [trim] is [String.prototype.trim], which only shapes the message. *)
Definition settleBuildsForCluster (trim : string -> string) (now : Z) : pass Live Z :=
  s ← get;
  match in_state BUILDING s, settleBuild with
  | [], _ | _, None => mret 0
  | building, Some settle => for_each building 0 (settle_one settle trim now)
  end.
End build.

(** ** Lemmas *)

Lemma append_length (a b : string) : String.length (a +:+ b) = (String.length a + String.length b)%nat.
Proof. induction a as [|c a IH]; [done|]. change (S (String.length (a +:+ b)) = S (String.length a) + String.length b)%nat. lia. Qed.

Lemma strip_desc_app f : strip_desc (f +:+ ":-1") = Some f.
Proof.
  induction f as [|c f IH]; [done|]. cbn [String.append strip_desc].
  change (String c f +:+ ":-1") with (String c (f +:+ ":-1")). cbn [strip_desc].
  destruct (String.eqb_spec (String c (f +:+ ":-1")) ":-1") as [E|_]; [|by rewrite IH].
  injection E as _ E. apply (f_equal String.length) in E. rewrite append_length in E. simpl in E. lia.
Qed.

Lemma set_key_new f d ks : f ∉ fst <$> ks -> set_key f d ks = ks ++ [(f, d)].
Proof.
  induction ks as [|[g e] ks IH]; csimpl; [done|]. intros Hn.
  destruct (String.eqb_spec g f); [set_solver|]. rewrite IH; [done|set_solver].
Qed.

Lemma decodeKeys_encoded ks acc :
  (forall k, k ∈ ks -> strip_desc (sk_field k) = None) ->
  NoDup ((fst <$> acc) ++ (sk_field <$> ks)) ->
  fold_left (fun keys entry => let '(f, d) := decode_entry entry in set_key f d keys) (encodeKeys ks) acc =
  acc ++ ((fun k => (sk_field k, sk_direction k)) <$> ks).
Proof.
  revert acc. induction ks as [|k ks IH]; intros acc Hk Hn; [by rewrite app_nil_r|].
  assert (Hd : decode_entry (match sk_direction k with Neg => sk_field k +:+ ":-1" | Pos => sk_field k end) =
    (sk_field k, sk_direction k)).
  { unfold decode_entry. destruct (sk_direction k); [by rewrite Hk by left|by rewrite strip_desc_app]. }
  unfold encodeKeys. csimpl. cbn [fold_left]. rewrite Hd. csimpl in Hn.
  apply NoDup_app in Hn as (H1 & H2 & H3). apply NoDup_cons in H3 as [H3 H4].
  rewrite set_key_new by (intros ?; eapply H2; [done|left]).
  change (list_fmap _ _ _ ks) with (encodeKeys ks). rewrite IH.
  - by rewrite <- app_assoc.
  - intros x Hx. apply Hk. by right.
  - rewrite fmap_app. csimpl. rewrite <- app_assoc. apply NoDup_app. split_and!; [done| |by constructor].
    intros x Hx. by apply H2.
Qed.

Lemma json_eqb_refl : forall j, json_eqb j j = true.
Proof.
  fix IH 1. intros [| | q | s | l | l]; simpl; [done|by destruct b|by apply Qeq_bool_iff|apply String.eqb_refl| |].
  - induction l as [|v l IHl]; [done|]. by rewrite IH.
  - induction l as [|[k v] l IHl]; [done|]. by rewrite String.eqb_refl, IH.
Qed.

(** ** Theorems *)

(** The key encoding of a row's target loses nothing: what the suggest pass
    wrote, the build reads back, field by field in order with its direction, for
    fields that are distinct and do not themselves end in the suffix. *)
Theorem keys_roundtrip ks :
  NoDup (sk_field <$> ks) -> (forall k, k ∈ ks -> strip_desc (sk_field k) = None) ->
  decodeKeys (encodeKeys ks) = (fun k => (sk_field k, sk_direction k)) <$> ks.
Proof. intros Hn Hk. unfold decodeKeys. by rewrite decodeKeys_encoded. Qed.


Section build_theorems.
Context {Live : Type} `{EngineSession Live} (indexes : Live -> string -> string -> list IndexSpec)
  `{!SessionLaws Live indexes} (holds : IndexSpec -> Prop) `{!BuildLaws Live indexes holds}.

(** What may appear on the cluster: the index an approved build row names, in a
    window or urgent, when nothing there had its name or covered it. *)
Definition buildable_index (ctx : BuildContext) (rows : list Recommendation) (d c : string)
    (before : list IndexSpec) (spec : IndexSpec) : Prop :=
  exists r target, r ∈ rows /\ state r = APPROVED /\ rec_type r ∈ BUILD_TYPES /\
    bx_readOnly ctx = false /\
    (window_open (bx_policy ctx ?? default_policy) (bx_now ctx) = true \/ f_urgent (finding r) = true) /\
    rec_database r = d /\ rec_collection r = c /\ f_targetSpec (finding r) = Some target /\
    (rec_type r = REORDER -> is_Some (ts_options target)) /\
    name spec = rec_indexName r /\ hidden spec = false /\
    (holds (created_spec (decodeKeys (ts_keys target)) (create_options (rec_indexName r) target)) ->
     spec = created_spec (decodeKeys (ts_keys target)) (create_options (rec_indexName r) target)) /\
    notWorthBuilding (specOf (rec_indexName r) (decodeKeys (ts_keys target)) target) before = None.

(** The cluster grew by such indexes, one at a time, wherever the catalog lists them. *)
Inductive grown (ctx : BuildContext) (rows : list Recommendation) (d c : string)
    : list IndexSpec -> list IndexSpec -> Prop :=
  | grown_none specs : grown ctx rows d c specs specs
  | grown_more specs before spec after :
      grown ctx rows d c specs before -> buildable_index ctx rows d c before spec -> after ≡ₚ before ++ [spec] ->
      grown ctx rows d c specs after.

Lemma notWorthBuilding_name candidate specs :
  notWorthBuilding candidate specs = None -> name candidate ∉ (name <$> specs).
Proof.
  unfold notWorthBuilding. destruct (existsb _ _) eqn:E; [done|]. intros _.
  intros (s & Hn & Hs)%list_elem_of_fmap. apply not_true_iff_false in E. apply E.
  apply existsb_elem. exists s. by rewrite Hn, String.eqb_refl.
Qed.

Lemma closeUnbuilt_live (r : Recommendation) why result (s : Store Live) :
  exists s', closeUnbuilt r why result s = (s', inr tt) /\ live s' = live s.
Proof. eexists. split; done. Qed.

Lemma finish_build_live now r (s : Store Live) : live (finish_build now r s).1 = live s.
Proof. unfold finish_build, mbind, pass_bind, read. by destruct (collectionWrites _ _ _). Qed.

(** One turn leaves the cluster alone, or sent it one build that was worth it. *)
Lemma build_one_live now built r s s' out :
  build_one now built r s = (s', out) ->
  live s' = live s \/
  exists target specs o, f_targetSpec (finding r) = Some target /\
    (rec_type r = REORDER -> is_Some (ts_options target)) /\
    specs = indexes (live s) (rec_database r) (rec_collection r) /\
    notWorthBuilding (specOf (rec_indexName r) (decodeKeys (ts_keys target)) target) specs = None /\
    create (live s) (rec_database r) (rec_collection r) (decodeKeys (ts_keys target))
      (create_options (rec_indexName r) target) = (live s', o).
Proof.
  unfold build_one. destruct (f_targetSpec (finding r)) as [target|]; [|intros [= <- <-]; by left].
  destruct (ts_keys target) as [|entry entries] eqn:Ek; [intros [= <- <-]; by left|].
  destruct (bool_decide (rec_type r = REORDER) && negb (is_some (ts_options target))) eqn:Er;
    [intros [= <- <-]; by left|].
  unfold mbind at 1, pass_bind at 1, read.
  destruct (listIndexes _ _ _) as [e|specs] eqn:El; [intros [= <- <-]; by left|].
  destruct (notWorthBuilding _ specs) as [unbuilt|] eqn:En; [intros [= <- <-]; by left|].
  unfold mbind at 1, pass_bind at 1, try_catch, write, mbind at 1, pass_bind at 1.
  destruct (create _ _ _ _ _) as [l o] eqn:Ec. intros Ht.
  right. exists target, specs, o. rewrite Ek, Ec. split_and!; try done.
  - intros Hre. rewrite bool_decide_eq_true_2 in Er by done. by destruct (ts_options target).
  - by apply listIndexes_true.
  - f_equal. destruct o as [[m|m]|[|]]; [by injection Ht as <- <-|by injection Ht as <- <-| |by injection Ht as <- <-].
    simpl in Ht. unfold mbind, pass_bind in Ht.
    match type of Ht with context [finish_build now r ?t] =>
      pose proof (finish_build_live now r t) as Hl; destruct (finish_build now r t) as [s2 [e|[]]] end;
      by injection Ht as <- <-.
Qed.

(** C15. Building only ever adds: whatever a build pass does, and wherever it
    throws, every collection keeps the indexes it had, unchanged, and what is new
    are indexes approved rows asked for, visible and as asked where the engine can
    hold that, each inside the change window or urgent, none sharing a name with
    or already served by one that was there, and no re-order without the
    original's options. *)
Theorem applyCreates_only_adds ctx s d c :
  grown ctx (recs s) d c (indexes (live s) d c) (indexes (live (applyCreatesForCluster ctx s).1) d c).
Proof.
  unfold applyCreatesForCluster, mbind at 1, pass_bind at 1, get.
  set (approved := List.filter _ (in_state APPROVED s)).
  destruct approved as [|r0 approved'] eqn:Ea; [constructor|]. rewrite <- Ea. clear r0 approved' Ea.
  set (buildable := if window_open _ _ then _ else _).
  assert (Hb : forall r, r ∈ buildable -> r ∈ recs s /\ state r = APPROVED /\ rec_type r ∈ BUILD_TYPES /\
    (window_open (bx_policy ctx ?? default_policy) (bx_now ctx) = true \/ f_urgent (finding r) = true)).
  { assert (Ha : forall r, r ∈ approved -> r ∈ recs s /\ state r = APPROVED /\ rec_type r ∈ BUILD_TYPES).
    { unfold approved, in_state. intros r [[? ?%bool_decide_eq_true]%elem_of_filter_bool ?%bool_decide_eq_true]%elem_of_filter_bool.
      done. }
    unfold buildable. intros r Hr. destruct (window_open _ _).
    - destruct (Ha r Hr) as (? & ? & ?). auto.
    - apply elem_of_filter_bool in Hr as [Hr Hu]. destruct (Ha r Hr) as (? & ? & ?). auto. }
  destruct buildable as [|r0 buildable'] eqn:Eb; [constructor|]. rewrite <- Eb in *. clear r0 buildable' Eb.
  destruct (bx_readOnly ctx) eqn:Ero; [constructor|].
  assert (Hbody : forall r rest acc s1,
    ((forall x, x ∈ r :: rest -> x ∈ buildable) /\
      grown ctx (recs s) d c (indexes (live s) d c) (indexes (live s1) d c)) ->
    (forall x, x ∈ rest -> x ∈ buildable) /\
    grown ctx (recs s) d c (indexes (live s) d c) (indexes (live (build_one (bx_now ctx) acc r s1).1) d c)).
  { intros r rest acc s1 [Hin Hg]. split; [intros x Hx; apply Hin; by right|].
    destruct (build_one (bx_now ctx) acc r s1) as [s2 out] eqn:Et. simpl.
    destruct (build_one_live _ _ _ _ _ _ Et) as [->|(target & specs & o & Htg & Hre & -> & Hnw & Hc)]; [done|].
    apply notWorthBuilding_name in Hnw as Hnm. simpl in Hnm.
    apply create_effect in Hc as [Hc Hfr]; [|done].
    destruct (decide ((d, c) = (rec_database r, rec_collection r))) as [[= -> ->]|Hne]; [|by rewrite Hfr].
    destruct o as [e|[|]]; [by rewrite Hc| |by rewrite Hc]. destruct Hc as (spec & Hp & Hsn & Hsh & Hsx).
    eapply grown_more; [done| |exact Hp]. destruct (Hb r) as (H1 & H2 & H3 & H4); [apply Hin; left|].
    exists r, target. by split_and!. }
  pose proof (for_each_inv (build_one (bx_now ctx))
    (fun rest s1 => (forall x, x ∈ rest -> x ∈ buildable) /\
      grown ctx (recs s) d c (indexes (live s) d c) (indexes (live s1) d c))
    (fun s1 => grown ctx (recs s) d c (indexes (live s) d c) (indexes (live s1) d c)) buildable 0 s) as Hinv.
  destruct (for_each _ _ _ s) as [s' [e|n]]; apply Hinv; try (split; [done|constructor]);
    intros r rest acc s1 Hs1; specialize (Hbody r rest acc s1 Hs1);
    destruct (build_one _ _ _ s1) as [s2 [?|?]]; simpl in Hbody; tauto.
Qed.
End build_theorems.

(** ** Concrete builds *)


(** An approved build of [{ c: -1 }] on the shop. *)
Definition shop_build : Store Memory :=
  shop_store
    [{| rec_id := 0;
        finding := {| f_type := CREATE; f_source := WORKLOAD; f_usageClass := None; f_database := "shop"; f_collection := "orders";
          f_indexName := "c_-1"; f_score := 70; f_evidenceDays := None; f_estimatedBytesSaved := 0;
          f_urgent := false;
          f_targetSpec := Some {| ts_keys := ["c:-1"]; ts_retire := []; ts_partial := None; ts_options := None;
                                  ts_supersededBy := None |} |};
        state := APPROVED; rationale := ""; hide_columns := no_hide; build_columns := no_build |}] shop.
Definition shop_build_context : BuildContext := {| bx_policy := None; bx_readOnly := false; bx_now := 0 |}.

Lemma applyCreates_only_adds_witness :
  name <$> memory_indexes (live (applyCreatesForCluster shop_build_context shop_build).1) "shop" "orders" =
    ["a_1"; "a_1_b_1"; "c_-1"]%string /\
  grown (fun _ => True) shop_build_context (recs shop_build) "shop" "orders" (memory_indexes (live shop_build) "shop" "orders")
    (memory_indexes (live (applyCreatesForCluster shop_build_context shop_build).1) "shop" "orders").
Proof.
  split; [vm_compute; reflexivity|].
  apply (applyCreates_only_adds memory_indexes (fun _ => True) shop_build_context shop_build "shop" "orders").
Defined.

(** ** What the passes keep of the rows *)

Section build_keeps.
Context {Live : Type} `{EngineSession Live}.

Lemma keyed_creates ctx : preserves well_keyed (applyCreatesForCluster (Live := Live) ctx).
Proof. unfold applyCreatesForCluster, build_one, finish_build, activate, closeUnbuilt. preserve. Qed.
Lemma keyed_settle trim now : preserves well_keyed (settleBuildsForCluster (Live := Live) trim now).
Proof. unfold settleBuildsForCluster, settle_one, finish_build, activate. preserve. Qed.

(** The rows a pass was not asked to build are left. *)
Lemma row_creates x ctx :
  state x <> APPROVED -> preserves (has_row x) (applyCreatesForCluster (Live := Live) ctx).
Proof.
  intros Hx. unfold applyCreatesForCluster, build_one, finish_build, activate, closeUnbuilt. preserve.
Qed.
Lemma row_settle x trim now :
  state x <> BUILDING -> preserves (has_row x) (settleBuildsForCluster (Live := Live) trim now).
Proof. intros Hx. unfold settleBuildsForCluster, settle_one, finish_build, activate. preserve. Qed.
End build_keeps.
