(* ===== verification/Owner.v ===== *)
(** What an owner can do to a recommendation.  Models [approve], [rollback],
    [unhide] and [shortenObserveWindow] of
    [apps/api/src/recommendations/recommendations.service.ts] with the queries of
    its repository, and [apps/api/src/analysis/rollback.ts]. *)
From S2P Require Import Prelude EngineTypes Preflight Cooldowns Score Observe Failures StoredSpec Store.
From S2P Require Import Redundancy Memory Policy FailureWatch Apply Build.

(** ** Rebuilding an index from its stored specification *)

(** The key document; [None] for a special key type, or no key at all. *)
Fixpoint rebuild_loop (ks : list IndexKey) (built : list (string * SortDirection))
    : option (list (string * SortDirection)) :=
  match ks with
  | [] => Some built
  | k :: ks =>
      match direction k with
      | Ordered d => rebuild_loop ks (set_key (field k) d built)
      | _ => None
      end
  end.
Definition rebuildKeys (spec : IndexSpec) : option (list (string * SortDirection)) :=
  built ← rebuild_loop (keys spec) [];
  match keys spec with [] => None | _ => Some built end.

Definition rebuildOptions (spec : IndexSpec) : CreateIndexOptions :=
  {| co_name := name spec; co_unique := unique spec; co_sparse := sparse spec;
     co_collation := collation spec; co_partialFilterExpression := partialFilter spec;
     co_include := stored_include (include spec) |}.

(** ** The use cases *)

(** A declared refusal, which the handler raises to the caller. *)
Inductive Refusal :=
  | NOT_FOUND (message : string) | CONFLICT (message : string) | BAD_REQUEST (message : string).

(** The caller and the cluster: whether the caller's organization owns it, what it
    observes, and its policy's window where one was saved. *)
Record OwnerContext := {
  oc_owns : bool;
  oc_observed : option (list string);
  oc_readOnly : bool;
  oc_canHide : bool;
  oc_observeWindowDays : option Z;
  oc_now : Z;
}.

Definition no_recommendation : Refusal := NOT_FOUND "recommendation not found".

Definition find_row (rows : list Recommendation) (id : nat) : option Recommendation :=
  List.find (fun r => (rec_id r =? id)%nat) rows.

Section owner.
Context {Live : Type} `{EngineSession Live}.

(** The tenancy boundary: the row, only if the caller owns its cluster. *)
Definition ownedBy (ctx : OwnerContext) (id : nat) : pass Live (option Recommendation) :=
  s ← get; mret (if oc_owns ctx then find_row (recs s) id else None).

(** [update ... returning], the row where there still is one. *)
Definition setState (id : nat) (f : Recommendation -> Recommendation) : pass Live (option Recommendation) :=
  update_rec id f;; s ← get; mret (find_row (recs s) id).

(** What the table's unique index throws where an update would give an index a
    second live claim.  Only an approval can revive a settled row. *)
Definition guard_claims (id : nat) (f : Recommendation -> Recommendation) : pass Live unit :=
  s ← get;
  if bool_decide (NoDup (omap claim_of (update_where id f (recs s)))) then mret tt
  else throw (Thrown "duplicate key value violates unique constraint recommendations_one_live_claim").

Definition approve (ctx : OwnerContext) (id : nat) : pass Live (Refusal + Recommendation) :=
  owned ← ownedBy ctx id;
  match owned with
  | None => mret (inl no_recommendation)
  | Some owned =>
      if negb (inScope (oc_observed ctx) (rec_database owned)) then
        mret (inl (CONFLICT (rec_database owned +:+
          " is not one of the databases this cluster observes — " +:+
          "reload the page, or add it back in the cluster's settings.")))
      else if oc_readOnly ctx then
        mret (inl (CONFLICT ("this cluster is read-only, so nothing can be applied to it — " +:+
          "switch it to live in the cluster's settings first.")))
      else
        guard_claims id (set_state APPROVED);;
        row ← setState id (set_state APPROVED);
        mret match row with None => inl no_recommendation | Some row => inr row end
  end.

Definition veto (r : Recommendation) (reason : string) (days : option Z) (now : Z) : pass Live (option Z) :=
  fun s =>
    let '(table, until) := recordManualVeto (cooldowns s)
      {| cd_database := rec_database r; cd_collection := rec_collection r; cd_indexName := rec_indexName r |}
      days reason now in
    ({| recs := recs s; actions := actions s; cooldowns := table; roi := roi s; nextId := nextId s;
        watchTable := watchTable s; notes := notes s; shapes := shapes s; live := live s |}, inr until).

(** The newest specification a drop of the row recorded. *)
Definition drop_token (trail : list Action) (id : nat) : option json :=
  head (omap (fun a =>
    if (act_rec a =? id)%nat && bool_decide (act_kind a = DROP)
    then match rollbackToken a with Some (SpecToken spec) => Some spec | _ => None end
    else None) trail).

(** What the token rebuilds, where it can be read and its keys are ordered. *)
Definition rebuilt (token : json) : option (list (string * SortDirection) * CreateIndexOptions) :=
  spec ← parseStoredSpec token;
  ks ← rebuildKeys spec;
  Some (ks, rebuildOptions spec).

Definition rollback (ctx : OwnerContext) (id : nat) : pass Live (Refusal + Recommendation) :=
  owned ← ownedBy ctx id;
  match owned with
  | None => mret (inl no_recommendation)
  | Some r =>
    if negb (bool_decide (state r = DROPPED))
    then mret (inl (CONFLICT "only a dropped index can be undone"))
    else
      s ← get;
      match drop_token (actions s) (rec_id r) with
      | None => mret (inl (CONFLICT "no rollback token recorded for this drop"))
      | Some token =>
        match rebuilt token with
        | None => mret (inl (CONFLICT "stored spec cannot be rebuilt automatically"))
        | Some (ks, options) =>
          if oc_readOnly ctx then mret (inl (CONFLICT "cluster is read-only"))
          else
            write (fun l => create l (rec_database r) (rec_collection r) ks options);;
            insert_roi {| roi_rec := Some (rec_id r); freedBytes := - f_estimatedBytesSaved (finding r);
                          indexCountDelta := -1 |};;
            veto r "drop undone by an owner"
              (Some (proposedVetoDays (observeDays (hide_columns r) ?? DEFAULT_OBSERVE_DAYS))) (oc_now ctx);;
            updated ← setState (rec_id r) (set_state ROLLED_BACK);
            match updated with
            | None => mret (inl no_recommendation)
            | Some updated => insert_action (rec_id r) ROLLBACK "ok" None;; mret (inr updated)
            end
        end
      end
  end.

(** Cancel a drop while its index is hidden.  [cooldownDays] is the owner's answer:
    not given, or a number of days, or never. *)
Definition unhideRecommendation (ctx : OwnerContext) (id : nat) (cooldownDays : option (option Z))
    : pass Live (Refusal + Recommendation) :=
  owned ← ownedBy ctx id;
  match owned with
  | None => mret (inl no_recommendation)
  | Some r =>
    if negb (bool_decide (state r = HIDDEN))
    then mret (inl (CONFLICT "only a hidden index can be un-hidden"))
    else if oc_readOnly ctx then mret (inl (CONFLICT "cluster is read-only"))
    else
      (if oc_canHide ctx
       then write (fun l => unhide l (rec_database r) (rec_collection r) (rec_indexName r)) else mret tt);;
      let parkFor := cooldownDays ??
        Some (proposedVetoDays (observeDays (hide_columns r) ?? DEFAULT_OBSERVE_DAYS)) in
      until ← veto r "drop cancelled by an owner" parkFor (oc_now ctx);
      updated ← setState (rec_id r) (fun row => set_state REJECTED (set_rationale
        (rationale r +:+ " — cancelled by an owner; " +:+
          match until with None => "not to be re-proposed" | Some t => "not re-proposed until " +:+ iso_day t end)
        (set_hide {| hiddenAt := None; observeDays := None; observeReason := None; baselineReadOps := None;
           baselineReadLatency := None; baselineFailedOps := baselineFailedOps (hide_columns row);
           baselineFailedReachMs := baselineFailedReachMs (hide_columns row) |} row)));
      match updated with
      | None => mret (inl no_recommendation)
      | Some updated =>
          insert_action (rec_id r) HIDE
            match until with
            | None => "un-hidden on request; parked indefinitely"
            | Some t => "un-hidden on request; cooling down until " +:+ iso_day t
            end None;;
          mret (inr updated)
      end
  end.

(** Days already served, at least one. *)
Definition servedDays (now hiddenAt : Z) : Z :=
  Z.max 1 (Math_ceil (inject_Z (now - hiddenAt) / inject_Z DAY_MS)).

Definition shortened (days : Z) (r : Recommendation) : Recommendation :=
  set_hide
    {| hiddenAt := hiddenAt (hide_columns r); observeDays := Some days;
       observeReason := Some ("shortened to " +:+ show days +:+ " day(s) by an owner");
       baselineReadOps := baselineReadOps (hide_columns r);
       baselineReadLatency := baselineReadLatency (hide_columns r);
       baselineFailedOps := baselineFailedOps (hide_columns r);
       baselineFailedReachMs := baselineFailedReachMs (hide_columns r) |} r.

Definition shortenObserveWindow (ctx : OwnerContext) (id : nat) (days : option Z)
    : pass Live (Refusal + Recommendation) :=
  owned ← ownedBy ctx id;
  match owned with
  | None => mret (inl no_recommendation)
  | Some r =>
    match bool_decide (state r = HIDDEN), hiddenAt (hide_columns r) with
    | true, Some hidden =>
      let current := observeDays (hide_columns r) ?? (oc_observeWindowDays ctx ?? DEFAULT_OBSERVE_DAYS) in
      let served := servedDays (oc_now ctx) hidden in
      let wanted := days ?? served in
      if current <=? wanted then
        mret (inl (BAD_REQUEST ("this drop is already observing for " +:+ show current +:+
          " day(s) — a window can be shortened here, never lengthened")))
      else if wanted <? served then
        mret (inl (BAD_REQUEST ("this index has been hidden for " +:+ show served +:+
          " day(s); the window cannot be shortened below what it has already observed")))
      else
        updated ← setState (rec_id r) (shortened wanted);
        match updated with
        | None => mret (inl no_recommendation)
        | Some updated =>
            insert_action (rec_id r) HIDE ("observe window shortened from " +:+ show current +:+ " to " +:+
              show wanted +:+ " day(s) on request") None;;
            mret (inr updated)
        end
    | _, _ => mret (inl (CONFLICT "only a hidden index has an observe window"))
    end
  end.
End owner.

#[global] Arguments guard_claims : simpl never.

(** ** Lemmas *)

(** What a rebuild can give back: ordered keys, no field twice, and nothing the
    options of a build do not carry. *)
Definition rebuildable (spec : IndexSpec) : Prop :=
  keys spec <> [] /\ Forall (fun k => is_ordered (direction k) = true) (keys spec) /\
  NoDup (field <$> keys spec) /\ ttl spec = false /\ isShardKey spec = false /\
  partial spec = is_some (partialFilter spec) /\ include spec <> Some [].

Definition rebuilt_key (k : string * SortDirection) : IndexKey :=
  {| field := k.1; direction := Ordered k.2 |}.

Lemma rebuild_loop_ordered ks : forall built,
  Forall (fun k => is_ordered (direction k) = true) ks -> NoDup (built.*1 ++ (field <$> ks)) ->
  exists more, rebuild_loop ks built = Some (built ++ more) /\ rebuilt_key <$> more = ks.
Proof.
  induction ks as [|[f d] ks IH]; intros built Ho Hnd; [exists []; by rewrite app_nil_r|].
  apply Forall_cons in Ho as [Hd Ho]. destruct d as [d| | | |]; try done. simpl.
  csimpl in Hnd. pose proof Hnd as (Hb & Hdis & _)%NoDup_app.
  rewrite set_key_new by (intros Hin; by eapply Hdis; [|left]).
  destruct (IH (built ++ [(f, d)])) as (more & -> & Hmore); [done| |].
  { rewrite fmap_app, <- app_assoc. done. }
  exists ((f, d) :: more). rewrite <- app_assoc. csimpl. by rewrite Hmore.
Qed.

Lemma rebuilt_spec spec : rebuildable spec ->
  exists ks options, rebuilt (serializeSpec spec) = Some (ks, options) /\ co_name options = name spec /\
    created_spec ks options = set_hidden false spec.
Proof.
  intros (Hne & Ho & Hnd & Ht & Hsh & Hp & Hi). unfold rebuilt. rewrite storedSpec_roundtrip. simpl.
  destruct (rebuild_loop_ordered (keys spec) [] Ho Hnd) as (ks & E & Hks). unfold rebuildKeys. simpl. rewrite E. simpl.
  destruct spec as [n keys u t p pf sp h sh co inc]. simpl in *. destruct keys as [|k keys]; [done|].
  do 2 eexists. split; [reflexivity|]. split; [done|].
  unfold created_spec, set_hidden, rebuildOptions. simpl. subst t sh p.
  assert (Hinc : stored_include (stored_include inc) = inc) by (by destruct inc as [[|]|]).
  rewrite Hinc. f_equal. rewrite <- Hks. apply list_fmap_ext. by intros _ [f d] _.
Qed.

(** A special key type cannot be rebuilt. *)
Lemma rebuilt_special spec :
  existsb (fun k => negb (is_ordered (direction k))) (keys spec) = true -> rebuilt (serializeSpec spec) = None.
Proof.
  intros Hx. unfold rebuilt. rewrite storedSpec_roundtrip. simpl. unfold rebuildKeys. simpl.
  enough (forall built, rebuild_loop (keys spec) built = None) as -> by done.
  induction (keys spec) as [|k ks IH]; intros built; [done|]. simpl in *.
  destruct (direction k); simpl in *; auto.
Qed.


Lemma find_row_spec rows id r : find_row rows id = Some r -> r ∈ rows /\ rec_id r = id.
Proof. by intros [? ?%Nat.eqb_eq]%find_elem. Qed.

Lemma find_row_unique rows r : NoDup (rec_id <$> rows) -> r ∈ rows -> find_row rows (rec_id r) = Some r.
Proof.
  intros Hnd Hr. unfold find_row. destruct (List.find _ rows) as [x|] eqn:E.
  - apply find_elem in E as [Hx Hid%Nat.eqb_eq]. f_equal. by eapply NoDup_id_inj.
  - pose proof (List.find_none _ _ E r) as Hn. simpl in Hn. rewrite Nat.eqb_refl in Hn.
    discriminate Hn. by apply list_elem_of_In.
Qed.

Lemma find_row_update rows id f r :
  (forall row, rec_id (f row) = rec_id row) -> find_row rows id = Some r ->
  find_row (update_where id f rows) id = Some (f r).
Proof.
  intros Hf. unfold find_row, update_where. induction rows as [|x rows IH]; [done|]. csimpl.
  destruct (Nat.eqb_spec (rec_id x) id) as [E|E].
  - intros [= ->]. rewrite Hf, E, Nat.eqb_refl. done.
  - destruct (Nat.eqb_spec (rec_id x) id); [done|]. apply IH.
Qed.

(** The days served reach to now. *)
Lemma served_covers now hiddenAt : now - hiddenAt <= servedDays now hiddenAt * DAY_MS.
Proof.
  unfold servedDays, Math_ceil.
  assert (Hq : (inject_Z (now - hiddenAt) / inject_Z DAY_MS <= inject_Z (Qceiling (inject_Z (now - hiddenAt) / inject_Z DAY_MS)))%Q)
    by apply Qle_ceiling.
  set (q := Qceiling _) in *. apply (Qmult_le_compat_r _ _ (inject_Z DAY_MS)) in Hq; [|done].
  rewrite Qmult_comm, Qmult_div_r in Hq by done. rewrite <- inject_Z_mult, <- Zle_Qle in Hq.
  unfold DAY_MS in *. lia.
Qed.

Section owner_lemmas.
Context {Live : Type} `{EngineSession Live}.

Lemma guard_claims_same id f (s : Store Live) : (guard_claims id f s).1 = s.
Proof. unfold guard_claims, mbind, pass_bind, get. by destruct (bool_decide _). Qed.

(** An undo that goes through. *)
Lemma rollback_run ctx r (s : Store Live) token ks options l' out :
  oc_owns ctx = true -> oc_readOnly ctx = false ->
  find_row (recs s) (rec_id r) = Some r -> state r = DROPPED ->
  drop_token (actions s) (rec_id r) = Some token -> rebuilt token = Some (ks, options) ->
  create (live s) (rec_database r) (rec_collection r) ks options = (l', inr out) ->
  exists s', rollback ctx (rec_id r) s = (s', inr (inr (set_state ROLLED_BACK r))) /\ live s' = l' /\
    recs s' = update_where (rec_id r) (set_state ROLLED_BACK) (recs s) /\
    roi s' = {| roi_rec := Some (rec_id r); freedBytes := - f_estimatedBytesSaved (finding r);
                indexCountDelta := -1 |} :: roi s /\
    cooldowns s' = (recordManualVeto (cooldowns s)
      {| cd_database := rec_database r; cd_collection := rec_collection r; cd_indexName := rec_indexName r |}
      (Some (proposedVetoDays (observeDays (hide_columns r) ?? DEFAULT_OBSERVE_DAYS)))
      "drop undone by an owner" (oc_now ctx)).1.
Proof.
  intros Ho Hro Hf Hs Ht Hb Hc.
  unfold rollback, ownedBy, mbind, pass_bind, get. rewrite Ho. simpl. rewrite Hf, bool_decide_true by done. simpl.
  rewrite Ht, Hb, Hro. unfold write. rewrite Hc. unfold insert_roi, veto, setState, insert_action, mbind, pass_bind.
  cbn -[recordManualVeto find_row].
  rewrite (find_row_update (recs s) (rec_id r) (set_state ROLLED_BACK) r) by done.
  eexists. split_and!; reflexivity.
Qed.

(** A refused undo changes nothing. *)
Lemma rollback_unreadable ctx r (s : Store Live) token :
  oc_owns ctx = true -> find_row (recs s) (rec_id r) = Some r -> state r = DROPPED ->
  drop_token (actions s) (rec_id r) = Some token -> rebuilt token = None ->
  rollback ctx (rec_id r) s = (s, inr (inl (CONFLICT "stored spec cannot be rebuilt automatically"))).
Proof.
  intros Ho Hf Hs Ht Hb. unfold rollback, ownedBy, mbind, pass_bind, get. rewrite Ho. simpl.
  rewrite Hf, bool_decide_true by done. simpl. by rewrite Ht, Hb.
Qed.

(** *** What an owner's act keeps of the rows *)

Lemma keyed_veto r reason days now : preserves well_keyed (veto (Live := Live) r reason days now).
Proof. intros s Hs. exact Hs. Qed.
Lemma row_veto x r reason days now : preserves (has_row x) (veto (Live := Live) r reason days now).
Proof. intros s Hs. exact Hs. Qed.
#[local] Hint Resolve keyed_veto row_veto : passes.

Lemma keyed_approve ctx id : preserves well_keyed (approve (Live := Live) ctx id).
Proof. unfold approve, guard_claims, ownedBy, setState. preserve. Qed.
Lemma keyed_rollback ctx id : preserves well_keyed (rollback (Live := Live) ctx id).
Proof. unfold rollback, ownedBy, setState. preserve. Qed.
Lemma keyed_unhide ctx id days : preserves well_keyed (unhideRecommendation (Live := Live) ctx id days).
Proof. unfold unhideRecommendation, ownedBy, setState. preserve. Qed.
Lemma keyed_shorten ctx id days : preserves well_keyed (shortenObserveWindow (Live := Live) ctx id days).
Proof. unfold shortenObserveWindow, ownedBy, setState, shortened. preserve. Qed.
End owner_lemmas.

(** ** Theorems *)

Section owner_theorems.
Context {Live : Type} `{EngineSession Live}.

(** An unused hashed index can be dropped but not put back: hiding one
    breaks no query, so it is not protected and the pre-flight lets it go, while
    an undo rebuilds ordered keys only and refuses it for good.  The comment on
    [rebuildKeys] says an index with a special key type is never dropped. *)
Theorem hashed_drop_not_undoable specs usage hinted target spec :
  find_index specs (dt_indexName target) = Some spec -> Hashed ∈ direction <$> keys spec ->
  isNeverDrop spec = false -> dt_type target = DROP_UNUSED ->
  usage_of usage (name spec) <= 0 -> name spec ∉ hinted ->
  safe (preflightDrop specs usage hinted target) = true /\
  forall ctx r (s : Store Live),
    oc_owns ctx = true -> find_row (recs s) (rec_id r) = Some r -> state r = DROPPED ->
    drop_token (actions s) (rec_id r) = Some (serializeSpec spec) ->
    rollback ctx (rec_id r) s = (s, inr (inl (CONFLICT "stored spec cannot be rebuilt automatically"))).
Proof.
  intros Hf Hh Hnd Ht Hu Hhi. split.
  - unfold preflightDrop, protected_refusal, uncovered_refusal, used_refusal, hinted_refusal.
    rewrite Hf, Hnd, Ht. simpl. destruct (Z.ltb_spec 0 (usage_of usage (name spec))); [lia|].
    unfold includes. by rewrite bool_decide_false.
  - intros ctx r s Ho Hr Hs Htok. eapply rollback_unreadable; try done. apply rebuilt_special.
    apply List.existsb_exists. apply list_elem_of_fmap in Hh as (k & E & Hk). exists k.
    split; [by apply list_elem_of_In|]. by rewrite <- E.
Qed.

(** The window a hidden row observes for. *)
Definition window_of (ctx : OwnerContext) (r : Recommendation) : Z :=
  observeDays (hide_columns r) ?? (oc_observeWindowDays ctx ?? DEFAULT_OBSERVE_DAYS).

(** What an owner's request for a shorter window does to the rows. *)
Lemma shorten_effect ctx id days (s : Store Live) :
  let s' := (shortenObserveWindow ctx id days s).1 in
  live s' = live s /\
  (recs s' = recs s \/
   exists r t wanted, find_row (recs s) id = Some r /\ state r = HIDDEN /\ hiddenAt (hide_columns r) = Some t /\
     servedDays (oc_now ctx) t <= wanted < window_of ctx r /\
     recs s' = update_where id (shortened wanted) (recs s)).
Proof.
  unfold shortenObserveWindow, ownedBy, mbind, pass_bind, get. simpl.
  destruct (oc_owns ctx); [|auto]. destruct (find_row (recs s) id) as [r|] eqn:Er; [|auto].
  pose proof (find_row_spec _ _ _ Er) as [_ Hid].
  case_bool_decide as Hs; [|auto]. destruct (hiddenAt (hide_columns r)) as [t|] eqn:Et; [|auto].
  fold (window_of ctx r). set (wanted := days ?? servedDays (oc_now ctx) t).
  destruct (Z.leb_spec (window_of ctx r) wanted); [auto|]. destruct (Z.ltb_spec wanted (servedDays (oc_now ctx) t)); [auto|].
  unfold setState, mbind, pass_bind. rewrite Hid. simpl.
  rewrite (find_row_update (recs s) id (shortened wanted) r) by done. simpl.
  split; [done|]. right. exists r, t, wanted. split_and!; try done; lia.
Qed.

(** An owner can only shorten a hidden index's observation, never lengthen
    it and never end it: whatever is asked, only that row's window changes, to
    fewer days than it had and at least the days already served, so that it
    cannot be due before now. *)
Theorem shorten_never_lengthens ctx id days (s : Store Live) r r' :
  NoDup (rec_id <$> recs s) -> r ∈ recs s -> rec_id r' = rec_id r ->
  r' ∈ recs (shortenObserveWindow ctx id days s).1 ->
  r' = r \/
  exists t wanted, rec_id r = id /\ state r = HIDDEN /\ hiddenAt (hide_columns r) = Some t /\
    r' = shortened wanted r /\ wanted < window_of ctx r /\ oc_now ctx <= t + wanted * DAY_MS.
Proof.
  intros Hnd Hr Hid Hr'. destruct (shorten_effect ctx id days s) as [_ [E|(x & t & w & Hf & Hs & Ht & Hw & E)]].
  - left. rewrite E in Hr'. by eapply NoDup_id_inj.
  - rewrite E in Hr'. apply elem_of_update_where_inv in Hr' as (r0 & Hr0 & [[Hi ->]|[_ ->]]).
    + assert (r0 = r) as -> by by eapply NoDup_id_inj.
      apply find_row_spec in Hf as [Hx Hxi]. assert (x = r) as -> by (eapply NoDup_id_inj; [done..|congruence]).
      right. exists t, w. split_and!; try done; [lia|].
      assert (Hc : oc_now ctx - t <= servedDays (oc_now ctx) t * DAY_MS) by apply served_covers.
      unfold DAY_MS in *. lia.
    + left. by eapply NoDup_id_inj.
Qed.
End owner_theorems.

(** A hashed index nobody reads. *)
Definition hashed_index : IndexSpec :=
  {| name := "user_hashed"; keys := [{| field := "user"; direction := Hashed |}]; unique := false; ttl := false;
     partial := false; partialFilter := None; sparse := false; hidden := false; isShardKey := false;
     collation := None; include := None |}.

Lemma hashed_drop_not_undoable_witness :
  safe (preflightDrop [hashed_index] [] []
    {| dt_type := DROP_UNUSED; dt_indexName := "user_hashed"; supersededBy := None |}) = true.
Proof.
  apply (hashed_drop_not_undoable (Live := Memory) [hashed_index] [] []
    {| dt_type := DROP_UNUSED; dt_indexName := "user_hashed"; supersededBy := None |} hashed_index);
    [reflexivity|left|reflexivity|reflexivity|vm_compute; discriminate|apply not_elem_of_nil].
Defined.

(** A row three days into a fourteen-day window, asked for five. *)
Definition served_row : Recommendation :=
  shop_row HIDDEN {| hiddenAt := Some 0; observeDays := Some 14; observeReason := None; baselineReadOps := Some 100;
    baselineReadLatency := Some 5000; baselineFailedOps := None; baselineFailedReachMs := None |}.
Definition shop_owner : OwnerContext :=
  {| oc_owns := true; oc_observed := None; oc_readOnly := false; oc_canHide := true;
     oc_observeWindowDays := None; oc_now := 3 * DAY_MS |}.

Lemma shorten_never_lengthens_witness :
  observeDays (hide_columns (shortened 5 served_row)) = Some 5 /\
  (shortened 5 served_row = served_row \/
   exists t wanted, rec_id served_row = 0%nat /\ state served_row = HIDDEN /\
     hiddenAt (hide_columns served_row) = Some t /\ shortened 5 served_row = shortened wanted served_row /\
     wanted < window_of shop_owner served_row /\ oc_now shop_owner <= t + wanted * DAY_MS).
Proof.
  split; [reflexivity|].
  apply (shorten_never_lengthens shop_owner 0 (Some 5) (shop_store [served_row] shop) served_row (shortened 5 served_row)).
  - apply NoDup_singleton.
  - left.
  - reflexivity.
  - vm_compute. left.
Defined.
