(* ===== verification/ClassifyJob.v ===== *)
(** The pass that proposes drops.  Models [apps/api/src/jobs/classify.ts] and the
    guards of [apps/api/src/jobs/watched.ts].  The evidence of
    the stored history ([usageEvidence], [collectionEvidence]) is an argument of
    the pass; the instants it asks the clock for are one. *)
From S2P Require Import Prelude EngineTypes Runs Classify Redundancy Score Recommend Silence.
From S2P Require Import Observed Activity Observe StoredSpec Cooldowns Store Memory.

(** ** The guards *)

Definition watchKey (database collection indexName : string) : string :=
  database +:+ nul_char +:+ collection +:+ nul_char +:+ indexName.

Definition row_key (r : Recommendation) : string :=
  watchKey (rec_database r) (rec_collection r) (rec_indexName r).

(** Indexes the engine built and is still judging. *)
Definition stillWatched (observeDays now : Z) (r : Recommendation) : bool :=
  bool_decide (state r = APPROVED) || is_some (baselineWriteOps (build_columns r)) ||
  match bc_builtAt (build_columns r) with
  | Some built => now - built <? observeDays * DAY_MS
  | None => false
  end.
Definition watchedIndexKeys (rows : list Recommendation) (observeDays now : Z) : list string :=
  row_key <$> List.filter (fun r =>
    bool_decide (rec_type r ∈ BUILD_TYPES) && bool_decide (state r ∈ [APPROVED; ACTIVE]) &&
    stillWatched observeDays now r) rows.

(** Indexes with a drop already on the way. *)
Definition pendingRemovalKeys (rows : list Recommendation) : list string :=
  row_key <$> List.filter (fun r =>
    bool_decide (rec_type r ∈ DROP_TYPES) && bool_decide (state r ∈ [PROPOSED; APPROVED; HIDDEN])) rows.

(** Indexes with a live row the caller's own sweep does not clear. *)
Definition swept (source : RecommendationSource) (r : Recommendation) : bool :=
  bool_decide (state r = PROPOSED) && bool_decide (f_source (finding r) = source).
Definition standingRecommendationKeys (rows : list Recommendation) (types : list RecommendationType)
    (ownSource : RecommendationSource) : list string :=
  row_key <$> List.filter (fun r =>
    bool_decide (rec_type r ∈ types) && is_live r && negb (swept ownSource r)) rows.

(** ** What a pass reads *)

Record EvidenceRow := {
  er_database : string;
  er_collection : string;
  er_indexName : string;
  er_spec : json;
  er_usage : UsageFold;
  er_sizeBytes : Z;
  er_memberCount : Z;
  er_hinted : bool;
}.

Record CollectionEvidence := { activity : ActivityFold; observation : ObservationFold }.
Definition NO_EVIDENCE : CollectionEvidence :=
  {| activity := {| activeMs := 0; measurable := false |};
     observation := {| hasHistory := false; elapsedMs := 0; drawableMs := 0 |} |}.

Record ClassifyContext := {
  kc_rows : list EvidenceRow;
  kc_evidence : string -> string -> option CollectionEvidence;
  kc_roster : option (list string);
  kc_observeWindowDays : option Z;
  kc_now : Z;
}.

(** Copies of an index, off the roster's roles. *)
Definition indexCopies (roster : option (list string)) : option Z :=
  nodes ← roster;
  let dataBearing := Z.of_nat (length (List.filter (fun role => negb (String.eqb role "mongos")) nodes)) in
  if 0 <? dataBearing then Some dataBearing else None.

Record Entry := { en_database : string; en_collection : string; byIndex : list (string * EvidenceRow) }.

Definition add_evidence (acc : list (string * Entry)) (row : EvidenceRow) : list (string * Entry) :=
  let key := er_database row +:+ nul_char +:+ er_collection row in
  let entry := map_get key acc ??
    {| en_database := er_database row; en_collection := er_collection row; byIndex := [] |} in
  map_put key {| en_database := en_database entry; en_collection := en_collection entry;
                 byIndex := map_put (er_indexName row) row (byIndex entry) |} acc.
Definition byCollection (rows : list EvidenceRow) : list Entry :=
  snd <$> fold_left add_evidence rows [].

(** Regression weights by collection and index; a collection is named by its two
    names with a space between. *)
Definition scope_of (database collection : string) : string := database +:+ " " +:+ collection.
Definition regressionWeights (table : Cooldowns) (observeDays now : Z) : gmap string (gmap string Q) :=
  fold_left (fun weights '(target, row) =>
    let scope := scope_of (cd_database target) (cd_collection target) in
    <[scope := <[cd_indexName target :=
        regressionWeight {| regressionCount := cd_count row; until := At <$> cd_until row |} observeDays now]>
      (weights !! scope ?? ∅)]> weights) (map_to_list table) ∅.

(** ** One collection *)

Section entry.
Context (ctx : ClassifyContext) (s_rows : list Recommendation) (table : Cooldowns).

Definition observe_days : Z := kc_observeWindowDays ctx ?? DEFAULT_OBSERVE_DAYS.
Definition cooled : list string := activeCooldownKeys table (kc_now ctx).
Definition watched_keys : list string := watchedIndexKeys s_rows observe_days (kc_now ctx).
Definition departing : list string := pendingRemovalKeys s_rows.
Definition standing_keys : list string := standingRecommendationKeys s_rows DROP_TYPES CLASSIFY.
Definition hintedKeys : list string :=
  (fun row => watchKey (er_database row) (er_collection row) (er_indexName row)) <$>
  List.filter er_hinted (kc_rows ctx).

Definition sizes_of (entry : Entry) : gmap string Z :=
  fold_left (fun sizes '(n, row) =>
    <[n := er_sizeBytes row * (indexCopies (kc_roster ctx) ?? Z.max 1 (er_memberCount row))]> sizes)
    (byIndex entry) ∅.

(** [None] where a stored specification does not parse, which throws. *)
Definition inputs_of (entry : Entry) : option (list IndexInput) :=
  mapM (fun '(n, row) =>
    spec ← parseStoredSpec (er_spec row);
    Some {| Recommend.spec := spec; usage := er_usage row;
            pendingRemoval := Some (includes departing (watchKey (en_database entry) (en_collection entry) n)) |})
    (byIndex entry).

Definition evidence_for (entry : Entry) : CollectionEvidence :=
  kc_evidence ctx (en_database entry) (en_collection entry) ?? NO_EVIDENCE.
Definition active_of (entry : Entry) : Q := activeHoursFrom (activity (evidence_for entry)).

(** The guard that withholds a candidate, the first that does. *)
Definition withheld (entry : Entry) (c : RecommendationCandidate) : option SuppressionGuard :=
  let key := watchKey (en_database entry) (en_collection entry) (indexName c) in
  let drop := negb (bool_decide (type c = ADVISORY_REVIEW)) in
  if drop && includes cooled (cooldownKey (en_database entry) (en_collection entry) (indexName c)) then Some cooldown
  else if includes watched_keys key then Some watched
  else if drop && includes standing_keys key then Some standing
  else if drop && includes hintedKeys key then Some hinted
  else if bool_decide (type c ∈ DROP_TYPES) &&
          negb (observationCanFinishFrom (observation (evidence_for entry)) observe_days) then Some unobservable
  else None.

Definition classify_row (entry : Entry) (c : RecommendationCandidate) (id : nat) : Recommendation :=
  {| rec_id := id;
     finding := {| f_type := type c; f_source := CLASSIFY; f_usageClass := rc_usageClass c;
       f_database := en_database entry; f_collection := en_collection entry; f_indexName := indexName c;
       f_score := score c; f_evidenceDays := evidenceDays c; f_estimatedBytesSaved := estimatedBytesSaved c;
       f_urgent := false; f_targetSpec := None |};
     state := PROPOSED; rationale := Recommend.rationale c; hide_columns := no_hide; build_columns := no_build |}.

(** What the pass has decided so far: the proposals, and its account of the rest. *)
Record Decided := {
  toInsert : list (Entry * RecommendationCandidate);
  dc_considered : Z;
  dc_trusted : Z;
  dc_refusals : Counts;
  dc_suppressed : Counts;
}.

(** The gate's verdict on one index. *)
Definition judge_index (active : Q) (d : Decided) (index : IndexInput) : Decided :=
  if isNeverDrop (Recommend.spec index) then d
  else
    let refusal := usageTrustRefusalFrom (usage index) CLASSIFY_OPTIONS (kc_now ctx) (Some active) in
    {| toInsert := toInsert d; dc_considered := dc_considered d + 1;
       dc_trusted := if refusal is None then dc_trusted d + 1 else dc_trusted d;
       dc_refusals := match refusal with None => dc_refusals d | Some k => count_one (kind_text k) (dc_refusals d) end;
       dc_suppressed := dc_suppressed d |}.

Definition judge_candidate (entry : Entry) (d : Decided) (c : RecommendationCandidate) : Decided :=
  match withheld entry c with
  | Some g => {| toInsert := toInsert d; dc_considered := dc_considered d; dc_trusted := dc_trusted d;
                 dc_refusals := dc_refusals d; dc_suppressed := count_one (guard_text g) (dc_suppressed d) |}
  | None => {| toInsert := toInsert d ++ [(entry, c)]; dc_considered := dc_considered d;
               dc_trusted := dc_trusted d; dc_refusals := dc_refusals d; dc_suppressed := dc_suppressed d |}
  end.

Definition candidates_of (entry : Entry) (inputs : list IndexInput) : list RecommendationCandidate :=
  recommendForCollection inputs (sizes_of entry) CLASSIFY_OPTIONS
    (regressionWeights table observe_days (kc_now ctx) !! scope_of (en_database entry) (en_collection entry) ?? ∅)
    (kc_now ctx) (Some (active_of entry)).

Definition judge_entry (d : option Decided) (entry : Entry) : option Decided :=
  d ← d;
  inputs ← inputs_of entry;
  let judged := fold_left (judge_index (active_of entry)) inputs d in
  Some (fold_left (judge_candidate entry) (candidates_of entry inputs) judged).

Definition decide_all : option Decided :=
  fold_left judge_entry (byCollection (kc_rows ctx))
    (Some {| toInsert := []; dc_considered := 0; dc_trusted := 0; dc_refusals := ∅; dc_suppressed := ∅ |}).

(** ** The live set *)

Definition newest_end (row : EvidenceRow) : Z := newestEndMs (er_usage row) ?? 0.
Definition newestSeen : Z := fold_left (fun latest row => Z.max latest (newest_end row)) (kc_rows ctx) 0.
Definition live_keys : list string :=
  (fun row => watchKey (er_database row) (er_collection row) (er_indexName row)) <$>
  List.filter (fun row => newest_end row =? newestSeen) (kc_rows ctx).

(** A proposed drop of an index the newest collect did not see. *)
Definition is_gone (r : Recommendation) : bool :=
  bool_decide (state r = PROPOSED) && bool_decide (rec_type r ∈ DROP_TYPES) &&
  negb (includes live_keys (row_key r)).
End entry.

(** ** The pass *)

Definition propose {Live} : unit -> Entry * RecommendationCandidate -> pass Live unit :=
  file (fun p => classify_row p.1 p.2).

Definition classifyCluster {Live} (ctx : ClassifyContext) : pass Live Z :=
  s ← get;
  match decide_all ctx (recs s) (cooldowns s) with
  | None => throw (Thrown "a stored specification does not parse")
  | Some d =>
      delete_recs (swept CLASSIFY);;
      for_each (toInsert d) tt propose;;
      (if bool_decide (kc_rows ctx = []) then mret tt else delete_recs (is_gone ctx));;
      put_note CLASSIFY
        {| decidedAt := kc_now ctx; consideredIndexes := dc_considered d; trustedIndexes := dc_trusted d;
           refusals := dc_refusals d; suppressed := dc_suppressed d |};;
      mret (Z.of_nat (length (toInsert d)))
  end.

(** ** Lemmas *)

(** The sum of a table of counts. *)
Definition total (counts : Counts) : Z := zsum snd (map_to_list counts).

Lemma total_count_one key counts : total (count_one key counts) = total counts + 1.
Proof.
  unfold total, count_one. rewrite <- insert_delete_eq.
  rewrite (zsum_perm snd _ _ (map_to_list_insert (delete key counts) key _ (lookup_delete_eq _ _))), zsum_cons.
  destruct (counts !! key) as [n|] eqn:E; simpl.
  - assert (Hd : counts = <[key := n]> (delete key counts)) by by rewrite insert_delete_id.
    rewrite Hd at 2.
    rewrite (zsum_perm snd _ _ (map_to_list_insert (delete key counts) key n (lookup_delete_eq _ _))), zsum_cons.
    simpl. lia.
  - rewrite delete_id by done. lia.
Qed.

Section decided.
Context (ctx : ClassifyContext) (rows : list Recommendation) (table : Cooldowns).

(** Nothing is lost between the gate, the guards and the proposals. *)
Record accounts (d : Decided) : Prop := {
  acc_gate : dc_considered d = dc_trusted d + total (dc_refusals d);
  acc_guards : forall e c, (e, c) ∈ toInsert d -> withheld ctx rows table e c = None;
}.

Lemma judge_index_accounts active d index :
  accounts d -> accounts (judge_index ctx active d index) /\ toInsert (judge_index ctx active d index) = toInsert d /\
  dc_suppressed (judge_index ctx active d index) = dc_suppressed d.
Proof.
  intros [Hg Hi]. unfold judge_index. destruct (isNeverDrop _); [done|].
  destruct (usageTrustRefusalFrom _ _ _ _) as [k|]; split_and!; try done; split; simpl; try done;
    rewrite ?total_count_one; lia.
Qed.

Lemma judge_inputs_accounts active inputs d :
  accounts d -> let d' := fold_left (judge_index ctx active) inputs d in
  accounts d' /\ toInsert d' = toInsert d /\ dc_suppressed d' = dc_suppressed d.
Proof.
  revert d. induction inputs as [|i inputs IH]; intros d Hd; [done|]. cbn [fold_left].
  destruct (judge_index_accounts active d i Hd) as (H1 & <- & <-). by apply IH.
Qed.

Lemma judge_candidates_accounts entry cs d :
  accounts d -> let d' := fold_left (judge_candidate ctx rows table entry) cs d in
  accounts d' /\
  Z.of_nat (length (toInsert d')) + total (dc_suppressed d') =
    Z.of_nat (length (toInsert d)) + total (dc_suppressed d) + Z.of_nat (length cs) /\
  (forall e c, (e, c) ∈ toInsert d' -> (e, c) ∈ toInsert d \/ e = entry /\ c ∈ cs).
Proof.
  revert d. induction cs as [|c cs IH]; intros d Hd; [split_and!; [done|simpl; lia|auto]|]. cbn [fold_left].
  assert (Hc : accounts (judge_candidate ctx rows table entry d c) /\
    Z.of_nat (length (toInsert (judge_candidate ctx rows table entry d c))) +
      total (dc_suppressed (judge_candidate ctx rows table entry d c)) =
      Z.of_nat (length (toInsert d)) + total (dc_suppressed d) + 1 /\
    (forall e c', (e, c') ∈ toInsert (judge_candidate ctx rows table entry d c) ->
       (e, c') ∈ toInsert d \/ e = entry /\ c' = c)).
  { destruct Hd as [Hg Hi]. unfold judge_candidate. destruct (withheld ctx rows table entry c) eqn:E; split_and!; simpl.
    - by split.
    - rewrite total_count_one. lia.
    - auto.
    - split; simpl; [done|]. intros e c' [?|[= -> ->]%list_elem_of_singleton]%elem_of_app; auto.
    - rewrite length_app. simpl. lia.
    - intros e c' [?|[= -> ->]%list_elem_of_singleton]%elem_of_app; auto. }
  destruct Hc as (H1 & H2 & H3). destruct (IH _ H1) as (H4 & H5 & H6). split_and!; [done|simpl in *; lia|].
  intros e c' Hin. destruct (H6 e c' Hin) as [[?|[-> ->]]%H3|[-> ?]]; [by left|right; split; [done|left]|right; split; [done|by right]].
Qed.

(** Every candidate of every collection, those the guards withheld included. *)
Definition all_candidates : list RecommendationCandidate :=
  entry ← byCollection (kc_rows ctx);
  match inputs_of rows entry with None => [] | Some inputs => candidates_of ctx table entry inputs end.

Lemma judge_entries_accounts entries d d' :
  accounts d -> fold_left (judge_entry ctx rows table) entries (Some d) = Some d' ->
  accounts d' /\
  Z.of_nat (length (toInsert d')) + total (dc_suppressed d') =
    Z.of_nat (length (toInsert d)) + total (dc_suppressed d) +
    Z.of_nat (length (entry ← entries;
      match inputs_of rows entry with None => [] | Some inputs => candidates_of ctx table entry inputs end)) /\
  (forall e c, (e, c) ∈ toInsert d' -> (e, c) ∈ toInsert d \/
     e ∈ entries /\ exists inputs, inputs_of rows e = Some inputs /\ c ∈ candidates_of ctx table e inputs).
Proof.
  revert d. induction entries as [|entry entries IH]; intros d Hd.
  { intros [= <-]. split_and!; [done|simpl; lia|auto]. }
  cbn [fold_left]. unfold judge_entry at 2. simpl. destruct (inputs_of rows entry) as [inputs|] eqn:Ei.
  2: { simpl. clear. intros E. exfalso. revert E. induction entries as [|e es IHe]; [done|]. exact IHe. }
  simpl. destruct (judge_inputs_accounts (active_of ctx entry) inputs d Hd) as (H1 & H2 & H3).
  destruct (judge_candidates_accounts entry (candidates_of ctx table entry inputs) _ H1) as (H4 & H5 & H6).
  intros Hrun. destruct (IH _ H4 Hrun) as (H7 & H8 & H9). rewrite H2, H3 in H5. split_and!; [done| |].
  - rewrite length_app. unfold mbind in H8. lia.
  - intros e c Hin. destruct (H9 e c Hin) as [Hin'|(He & i & Hi & Hc)].
    + destruct (H6 e c Hin') as [Hd'|[-> Hc]]; [left; by rewrite <- H2|].
      right. split; [left|]. eauto.
    + right. split; [by right|]. eauto.
Qed.
End decided.

(** The rows a batch of proposals adds. *)
Lemma insert_loop {Live} batch (s : Store Live) :
  exists s' new, for_each batch tt propose s = (s', inr tt) /\
    recs s' = recs s ++ new /\ live s' = live s /\ cooldowns s' = cooldowns s /\
    (forall r, r ∈ new -> (nextId s <= rec_id r)%nat /\
       exists entry c, (entry, c) ∈ batch /\ r = classify_row entry c (rec_id r)).
Proof.
  destruct (file_all (fun p => classify_row p.1 p.2) batch s) as
    (s' & new & filed & E & Hr & Hl & Hc & _ & _ & _ & Hid & Hsub & Hrow & _); [done|].
  exists s', new. split_and!; try done. intros r Hin. rewrite list.Forall_forall in Hid. split; [by apply Hid|].
  destruct (filed_from (fun p => classify_row p.1 p.2) _ _ _ _ Hsub Hrow Hin) as ([e c] & Hb & Ex). by exists e, c.
Qed.

(** The whole pass on the rows. *)
Lemma classify_run {Live} ctx (s : Store Live) d :
  decide_all ctx (recs s) (cooldowns s) = Some d ->
  exists s' new, classifyCluster ctx s = (s', inr (Z.of_nat (length (toInsert d)))) /\ live s' = live s /\
    recs s' = List.filter (fun r => bool_decide (kc_rows ctx = []) || negb (is_gone ctx r))
      (List.filter (fun r => negb (swept CLASSIFY r)) (recs s) ++ new) /\
    notes s' !! CLASSIFY = Some {| decidedAt := kc_now ctx; consideredIndexes := dc_considered d;
      trustedIndexes := dc_trusted d; refusals := dc_refusals d; suppressed := dc_suppressed d |} /\
    (forall r, r ∈ new -> (nextId s <= rec_id r)%nat /\
       exists entry c, (entry, c) ∈ toInsert d /\ r = classify_row entry c (rec_id r)).
Proof.
  intros Hd. unfold classifyCluster, mbind at 1, pass_bind at 1, get. rewrite Hd.
  unfold mbind at 1, pass_bind at 1. unfold delete_recs at 1. cbn -[toInsert].
  destruct (insert_loop (toInsert d) ((delete_recs (swept CLASSIFY) s).1)) as (s1 & new & E & Hr & Hl & _ & Hn).
  unfold delete_recs in E. cbn -[toInsert] in E. unfold mbind at 1, pass_bind at 1. rewrite E.
  exists ((put_note CLASSIFY {| decidedAt := kc_now ctx; consideredIndexes := dc_considered d;
      trustedIndexes := dc_trusted d; refusals := dc_refusals d; suppressed := dc_suppressed d |}
    ((if bool_decide (kc_rows ctx = []) then mret tt else delete_recs (is_gone ctx)) s1).1).1), new.
  case_bool_decide as Hrows; simpl.
  - split_and!; try done; [|apply lookup_insert_eq]. rewrite Hr. symmetry. by apply filter_all.
  - split_and!; try done; [|apply lookup_insert_eq]. by rewrite Hr.
Qed.

Lemma classify_throws {Live} ctx (s : Store Live) :
  decide_all ctx (recs s) (cooldowns s) = None -> (classifyCluster ctx s).1 = s.
Proof. intros Hd. unfold classifyCluster, mbind, pass_bind, get. by rewrite Hd. Qed.

Lemma decide_accounts ctx rows table d :
  decide_all ctx rows table = Some d ->
  accounts ctx rows table d /\
  Z.of_nat (length (toInsert d)) + total (dc_suppressed d) = Z.of_nat (length (all_candidates ctx rows table)) /\
  (forall e c, (e, c) ∈ toInsert d -> e ∈ byCollection (kc_rows ctx) /\
     exists inputs, inputs_of rows e = Some inputs /\ c ∈ candidates_of ctx table e inputs).
Proof.
  intros Hd. unfold decide_all in Hd. eapply judge_entries_accounts in Hd as (H1 & H2 & H3).
  - split_and!; [exact H1|exact H2|]. intros e c [[]%elem_of_nil|?]%H3; done.
  - split; [done|]. by intros e c []%elem_of_nil.
Qed.

(** What no guard withheld. *)
Lemma withheld_none ctx rows table entry c :
  withheld ctx rows table entry c = None ->
  let key := watchKey (en_database entry) (en_collection entry) (indexName c) in
  key ∉ watchedIndexKeys rows (observe_days ctx) (kc_now ctx) /\
  (type c <> ADVISORY_REVIEW -> key ∉ activeCooldownKeys table (kc_now ctx) /\
     key ∉ standingRecommendationKeys rows DROP_TYPES CLASSIFY /\ key ∉ hintedKeys ctx) /\
  (type c ∈ DROP_TYPES -> observationCanFinishFrom (observation (evidence_for ctx entry)) (observe_days ctx) = true).
Proof.
  unfold withheld, includes, cooled, watched_keys, standing_keys.
  repeat case_bool_decide; simpl; try done; destruct (observationCanFinishFrom _ _); simpl; try done; naive_solver.
Qed.

(** ** Theorems *)

(** A classify pass accounts for its own silence: every index the usage gate
    was asked about was trusted or is counted under one refusal, and every finding
    the rules derived was proposed or is counted under the one guard that
    withheld it. *)
Theorem classify_accounts {Live} ctx (s s' : Store Live) n :
  classifyCluster ctx s = (s', inr n) ->
  exists note, notes s' !! CLASSIFY = Some note /\
    consideredIndexes note = trustedIndexes note + total (refusals note) /\
    n + total (suppressed note) = Z.of_nat (length (all_candidates ctx (recs s) (cooldowns s))).
Proof.
  intros E. destruct (decide_all ctx (recs s) (cooldowns s)) as [d|] eqn:Hd.
  - destruct (classify_run ctx s d Hd) as (s1 & new & E1 & _ & _ & Hn & _). rewrite E1 in E. injection E as <- <-.
    destruct (decide_accounts _ _ _ _ Hd) as ([Hg _] & Hc & _). eexists. split_and!; [exact Hn|exact Hg|exact Hc].
  - unfold classifyCluster, mbind, pass_bind, get in E. by rewrite Hd in E.
Qed.

(** A classify pass replaces its own proposals and nobody else's: of the
    rows there were, it deletes exactly the ones it had proposed itself, and the
    proposed drops of indexes the newest collect no longer saw; a pass that throws
    deletes nothing.  Rows that were approved, hidden, built or closed, and the
    retirements finalize filed, are left as they are. *)
Theorem classify_sweeps_own {Live} ctx (s : Store Live) x :
  well_keyed s -> x ∈ recs s ->
  match decide_all ctx (recs s) (cooldowns s) with
  | None => (classifyCluster ctx s).1 = s
  | Some _ =>
      x ∈ recs (classifyCluster ctx s).1 <->
      ~ (state x = PROPOSED /\
         (f_source (finding x) = CLASSIFY \/
          kc_rows ctx <> [] /\ rec_type x ∈ DROP_TYPES /\ row_key x ∉ live_keys ctx))
  end.
Proof.
  intros [_ Hlt] Hx. destruct (decide_all _ _ _) as [d|] eqn:Hd; [|by apply classify_throws].
  destruct (classify_run ctx s d Hd) as (s1 & new & -> & _ & Hr & _ & Hnew). cbn [fst]. rewrite Hr.
  rewrite elem_of_filter_bool, elem_of_app, elem_of_filter_bool.
  assert (Hn : x ∉ new).
  { intros Hin. rewrite list.Forall_forall in Hlt. specialize (Hlt x Hx). destruct (Hnew x Hin). lia. }
  unfold is_gone, swept, includes. repeat case_bool_decide; simpl; naive_solver.
Qed.

(** C12. Every drop a classify pass proposes is one its guards let through: the
    index is not parked by a regression or a veto, the engine did not build it and
    is not still watching it, no live row that outlives the sweep already claims
    it, no query was ever seen to hint it, the collection's own history says an
    observe window can finish, and the newest collect saw it. *)
Theorem classify_proposals_guarded {Live} ctx (s : Store Live) x :
  x ∈ recs (classifyCluster ctx s).1 -> x ∉ recs s ->
  state x = PROPOSED /\ f_source (finding x) = CLASSIFY /\
  (rec_type x <> ADVISORY_REVIEW ->
     row_key x ∉ activeCooldownKeys (cooldowns s) (kc_now ctx) /\
     row_key x ∉ watchedIndexKeys (recs s) (observe_days ctx) (kc_now ctx) /\
     row_key x ∉ standingRecommendationKeys (recs s) DROP_TYPES CLASSIFY /\
     row_key x ∉ hintedKeys ctx /\ row_key x ∈ live_keys ctx) /\
  exists entry inputs c, entry ∈ byCollection (kc_rows ctx) /\ inputs_of (recs s) entry = Some inputs /\
    c ∈ candidates_of ctx (cooldowns s) entry inputs /\ finding x = finding (classify_row entry c 0) /\
    (rec_type x ∈ DROP_TYPES ->
       observationCanFinishFrom (observation (evidence_for ctx entry)) (observe_days ctx) = true).
Proof.
  intros Hx Hold. destruct (decide_all ctx (recs s) (cooldowns s)) as [d|] eqn:Hd;
    [|by rewrite classify_throws in Hx].
  destruct (classify_run ctx s d Hd) as (s1 & new & E & _ & Hr & _ & Hnew). rewrite E in Hx. cbn [fst] in Hx.
  rewrite Hr, elem_of_filter_bool, elem_of_app, elem_of_filter_bool in Hx. destruct Hx as [[[? _]|Hin] Hgone]; [done|].
  destruct (Hnew x Hin) as (_ & entry & c & Hins & Ex).
  destruct (decide_accounts _ _ _ _ Hd) as ([_ Hg] & _ & Hfrom).
  destruct (withheld_none _ _ _ _ _ (Hg _ _ Hins)) as (Hw & Hdrop & Hobs).
  destruct (Hfrom _ _ Hins) as (He & inputs & Hi & Hc).
  assert (Hty : rec_type x = type c) by by rewrite Ex.
  assert (Hkey : row_key x = watchKey (en_database entry) (en_collection entry) (indexName c)) by by rewrite Ex.
  split_and!; [by rewrite Ex|by rewrite Ex| |].
  - intros Hadv. rewrite Hty in Hadv. destruct (Hdrop Hadv) as (H1 & H2 & H3). rewrite Hkey. split_and!; try done.
    assert (Hd' : type c ∈ DROP_TYPES).
    { unfold candidates_of in Hc. apply (result_type _ _ _ _ _ _ c) in Hc. unfold DROP_TYPES.
      destruct (type c); (done || (apply elem_of_cons; left; done) || (apply elem_of_cons; right; left)). }
    assert (Hne : kc_rows ctx <> []) by (intros E0; rewrite E0 in He; by apply elem_of_nil in He).
    rewrite bool_decide_false in Hgone by done. unfold is_gone in Hgone. rewrite Hty, Hkey in Hgone.
    rewrite !bool_decide_true in Hgone by (done || by rewrite Ex). simpl in Hgone. by apply negb_true_iff, negb_false_iff, includes_spec in Hgone.
  - exists entry, inputs, c. split_and!; try done; [by rewrite Ex|]. by rewrite Hty.
Qed.

(** ** What the pass keeps *)

Section classify_keeps.
Context {Live : Type}.

Lemma keyed_classify ctx : preserves well_keyed (classifyCluster (Live := Live) ctx).
Proof. unfold classifyCluster, propose, file. preserve. Qed.

Lemma classify_keeps ctx (s : Store Live) x :
  x ∈ recs s -> state x <> PROPOSED -> x ∈ recs (classifyCluster ctx s).1.
Proof.
  intros Hx Hs. destruct (decide_all ctx (recs s) (cooldowns s)) as [d|] eqn:Hd; [|by rewrite classify_throws].
  destruct (classify_run ctx s d Hd) as (s1 & new & -> & _ & Hr & _). cbn [fst]. rewrite Hr.
  rewrite elem_of_filter_bool, elem_of_app, elem_of_filter_bool. unfold is_gone, swept.
  rewrite !(bool_decide_false (state x = PROPOSED)) by done. rewrite orb_true_r. auto.
Qed.

Lemma classify_live ctx (s : Store Live) : live (classifyCluster ctx s).1 = live s.
Proof.
  destruct (decide_all ctx (recs s) (cooldowns s)) as [d|] eqn:Hd; [|by rewrite classify_throws].
  by destruct (classify_run ctx s d Hd) as (s1 & new & -> & Hl & _).
Qed.
End classify_keeps.

(** ** On the shop *)

(** Two indexes collected for ten days, the shorter one covered by the longer. *)
Definition shop_evidence (n : string) (fields : list string) : EvidenceRow :=
  {| er_database := "shop"; er_collection := "orders"; er_indexName := n;
     er_spec := serializeSpec (ascending_index n fields); er_usage := idle_fold 10; er_sizeBytes := 4096;
     er_memberCount := 3; er_hinted := false |}.
Definition shop_classify : ClassifyContext :=
  {| kc_rows := [shop_evidence "a_1" ["a"]; shop_evidence "a_1_b_1" ["a"; "b"]]; kc_evidence := fun _ _ => None;
     kc_roster := None; kc_observeWindowDays := None; kc_now := 10 * DAY_MS |}.
Definition shop_empty : Store Memory := shop_store [] shop.
Definition shop_classified : Store Memory := (classifyCluster shop_classify shop_empty).1.
(** A drop of an index that has gone, and one that is hidden. *)
Definition shop_retired : Recommendation :=
  {| rec_id := 0;
     finding := {| f_type := DROP_REDUNDANT; f_source := RETIRE; f_usageClass := None; f_database := "shop";
       f_collection := "orders"; f_indexName := "c_1"; f_score := 55; f_evidenceDays := None;
       f_estimatedBytesSaved := 0; f_urgent := false; f_targetSpec := None |};
     state := PROPOSED; rationale := ""; hide_columns := no_hide; build_columns := no_build |}.

Lemma classify_accounts_witness : exists note, notes shop_classified !! CLASSIFY = Some note /\
  consideredIndexes note = trustedIndexes note + total (refusals note) /\
  1 + total (suppressed note) = Z.of_nat (length (all_candidates shop_classify (recs shop_empty) (cooldowns shop_empty))).
Proof. apply (classify_accounts shop_classify shop_empty shop_classified). vm_compute. reflexivity. Defined.

Lemma classify_sweeps_own_witness :
  ~ shop_retired ∈ recs (classifyCluster shop_classify (shop_store [shop_retired] shop)).1.
Proof.
  pose proof (classify_sweeps_own shop_classify (shop_store [shop_retired] shop) shop_retired) as H.
  destruct (decide_all shop_classify (recs (shop_store [shop_retired] shop))
    (cooldowns (shop_store [shop_retired] shop))) as [d|] eqn:E; [|vm_compute in E; discriminate E].
  rewrite H.
  - intros Hn. apply Hn. split; [reflexivity|]. right. split_and!; [discriminate|right; left|].
    apply (bool_decide_unpack _). vm_compute. exact I.
  - split; [apply NoDup_singleton|repeat constructor].
  - left.
Defined.

Lemma classify_proposals_guarded_witness : exists x, x ∈ recs shop_classified /\ rec_indexName x = "a_1"%string /\
  row_key x ∉ standingRecommendationKeys (recs shop_empty) DROP_TYPES CLASSIFY /\ row_key x ∈ live_keys shop_classify.
Proof.
  exists (classify_row {| en_database := "shop"; en_collection := "orders"; byIndex := [] |}
    (redundant_candidate {[ "a_1"%string := 12288 ]} ∅
      {| Recommend.spec := ascending_index "a_1" ["a"]; usage := idle_fold 10; pendingRemoval := Some false |}
      {| Recommend.spec := ascending_index "a_1_b_1" ["a"; "b"]; usage := idle_fold 10; pendingRemoval := Some false |}) 1).
  match goal with |- ?x ∈ _ /\ _ => assert (Hx : x ∈ recs shop_classified) by (vm_compute; left) end.
  split; [exact Hx|]. split; [reflexivity|].
  destruct (classify_proposals_guarded shop_classify shop_empty _ Hx) as (_ & _ & H & _); [apply not_elem_of_nil|].
  destruct H as (_ & _ & H1 & _ & H2); [discriminate|]. split; [exact H1|exact H2].
Defined.
