(* ===== verification/Suggest.v ===== *)
(** The pass that proposes builds.  Models [apps/api/src/jobs/suggest.ts],
    [jobs/collection-budget.ts] and [engine/index-names.ts].  The readings it
    makes of the cluster beyond those of [Store] are a class of ports of its own. *)
From S2P Require Import Prelude EngineTypes Runs Redundancy Recurrence Score Esr Creates Ledger.
From S2P Require Import Purge Narrow Reorder Observe Cooldowns Store Plans Policy Build ClassifyJob Memory.

(** ** The ports *)

Record CollectionStorage := { dataSizeBytes : Z; docCount : Z }.
Definition workloadKey (database collection : string) : string := database +:+ nul_char +:+ collection.

(** [None] of a list of collections: the credentials cannot reach the database. *)
Class WorkloadPorts (Live : Type) := {
  listDatabaseNames : Live -> exn + list string;
  listCollectionNames : Live -> string -> exn + option (list string);
  collectDeletePatterns : Live -> string -> string -> exn + list PurgePattern;
  collectionStorage : Live -> string -> string -> exn + CollectionStorage;
  indexSizes : Live -> string -> string -> exn + gmap string Z;
  collectWorkload : Live -> list (string * string) -> exn + gmap string (list QueryShape);
}.

Definition keyedIndexName (keys : list SortKey) (partial : bool) : string :=
  let name := join "_" ((fun key => sk_field key +:+ "_" +:+ direction_text (sk_direction key)) <$> keys) in
  if partial then name +:+ "_partial" else name.

(** ** The budget of a collection *)

Definition pendingBuildsByCollection (rows : list Recommendation) : gmap string Z :=
  fold_left (fun counts row =>
    if (0 <? length (default [] (ts_retire <$> f_targetSpec (finding row))))%nat then counts
    else
      let key := scope_of (rec_database row) (rec_collection row) in
      <[key := (counts !! key ?? 0) + 1]> counts)
    (List.filter (fun r => bool_decide (rec_type r ∈ [CREATE; UPDATE; MERGE]) && is_live r) rows) ∅.

Definition collectionIndexesAfterBuild (existingIndexes pendingBuilds : Z) : Z :=
  existingIndexes + pendingBuilds + 1.

Record UnattendedBuild := {
  ub_type : RecommendationType;
  ub_scanning : bool;
  ub_severity : ScanSeverity;
  ub_count : Z;
  ub_minCount : Z;
  ub_instantCreateEnabled : bool;
  ub_readOnly : bool;
}.
Definition wouldBuildUnattended (build : UnattendedBuild) : bool :=
  bool_decide (ub_type build = CREATE) && ub_scanning build &&
  negb (bool_decide (ub_severity build = ROUTINE)) && (ub_minCount build <=? ub_count build) &&
  ub_instantCreateEnabled build && negb (ub_readOnly build).

(** ** What a pass works with *)

Definition WORKLOAD_OPTIONS : WorkloadOptions := {| minCount := 3; minPerWeek := 1 # 2 |}.
Definition TTL_MIN_DELETES : Z := 3.
Definition TRIVIAL_COLLECTION_DOCS : Z := 100.
Definition INSTANT_MIN_COUNT : Z := 5.
Definition NARROW_MIN_SAVING_BYTES : Z := 32 * 1024 * 1024.

Record SuggestContext := {
  sx_policy : option Policy;
  sx_plan : Plan;
  sx_engine : ClusterEngine;
  sx_readOnly : bool;
  sx_canPartial : bool;
  sx_nameIndex : string -> list SortKey -> bool -> string;
  sx_observed : option (list string);
  sx_now : Z;
}.
Definition sx_observeDays (ctx : SuggestContext) : Z :=
  (observeWindowDays <$> sx_policy ctx) ?? DEFAULT_OBSERVE_DAYS.

(** A row to insert. *)
Record Draft := { dr_finding : Finding; dr_state : RecommendationState; dr_rationale : string }.
Definition draft_row (d : Draft) (id : nat) : Recommendation :=
  {| rec_id := id; finding := dr_finding d; state := dr_state d; rationale := dr_rationale d;
     hide_columns := no_hide; build_columns := no_build |}.
Definition draft (type : RecommendationType) (st : RecommendationState) (database collection indexName text : string)
    (score : Z) (urgent : bool) (target : option TargetSpec) : Draft :=
  {| dr_finding := {| f_type := type; f_source := WORKLOAD; f_usageClass := None; f_database := database;
       f_collection := collection; f_indexName := indexName; f_score := score; f_evidenceDays := None;
       f_estimatedBytesSaved := 0; f_urgent := urgent; f_targetSpec := target |};
     dr_state := st; dr_rationale := text |}.
Definition names_draft (collection indexName : string) (d : Draft) : bool :=
  String.eqb (f_collection (dr_finding d)) collection && String.eqb (f_indexName (dr_finding d)) indexName.

Record LookupWant := { lw_from : string; lw_foreignField : string; lw_count : Z; lw_perWeek : Q }.

(** What the pass carries: across databases, and within one. *)
Record Work := {
  pendingBuilds : gmap string Z;
  heldFromInstant : Z;
  belowDocFloor : Z;
  aboveSizeCeiling : Z;
  indexCache : gmap string (list IndexSpec);
  created : Z;
  instantApproved : Z;
  drafts : list Draft;
  lookupWants : list (string * LookupWant);
  ledger : ShapeLedger;
}.
Definition push (d : Draft) (w : Work) : Work :=
  {| pendingBuilds := pendingBuilds w; heldFromInstant := heldFromInstant w; belowDocFloor := belowDocFloor w;
     aboveSizeCeiling := aboveSizeCeiling w; indexCache := indexCache w; created := created w;
     instantApproved := instantApproved w; drafts := drafts w ++ [d]; lookupWants := lookupWants w;
     ledger := ledger w |}.
Definition with_ledger (f : ShapeLedger -> ShapeLedger) (w : Work) : Work :=
  {| pendingBuilds := pendingBuilds w; heldFromInstant := heldFromInstant w; belowDocFloor := belowDocFloor w;
     aboveSizeCeiling := aboveSizeCeiling w; indexCache := indexCache w; created := created w;
     instantApproved := instantApproved w; drafts := drafts w; lookupWants := lookupWants w;
     ledger := f (ledger w) |}.
Definition with_cache (key : string) (specs : list IndexSpec) (w : Work) : Work :=
  {| pendingBuilds := pendingBuilds w; heldFromInstant := heldFromInstant w; belowDocFloor := belowDocFloor w;
     aboveSizeCeiling := aboveSizeCeiling w; indexCache := <[key := specs]> (indexCache w); created := created w;
     instantApproved := instantApproved w; drafts := drafts w; lookupWants := lookupWants w; ledger := ledger w |}.
Definition with_wants (f : list (string * LookupWant) -> list (string * LookupWant)) (w : Work) : Work :=
  {| pendingBuilds := pendingBuilds w; heldFromInstant := heldFromInstant w; belowDocFloor := belowDocFloor w;
     aboveSizeCeiling := aboveSizeCeiling w; indexCache := indexCache w; created := created w;
     instantApproved := instantApproved w; drafts := drafts w; lookupWants := f (lookupWants w);
     ledger := ledger w |}.
(** A collection not read, for its few documents or for its size. *)
Definition count_skipped (floor ceiling : Z) (w : Work) : Work :=
  {| pendingBuilds := pendingBuilds w; heldFromInstant := heldFromInstant w;
     belowDocFloor := belowDocFloor w + floor; aboveSizeCeiling := aboveSizeCeiling w + ceiling;
     indexCache := indexCache w; created := created w; instantApproved := instantApproved w; drafts := drafts w;
     lookupWants := lookupWants w; ledger := ledger w |}.
(** What a create candidate counts against: its collection's budget, the builds
    approved unattended, the ones held from that. *)
Definition count_build (key : string) (netNew instant held : bool) (w : Work) : Work :=
  {| pendingBuilds := if netNew then <[key := (pendingBuilds w !! key ?? 0) + 1]> (pendingBuilds w) else pendingBuilds w;
     heldFromInstant := if held then heldFromInstant w + 1 else heldFromInstant w;
     belowDocFloor := belowDocFloor w; aboveSizeCeiling := aboveSizeCeiling w; indexCache := indexCache w;
     created := created w; instantApproved := if instant then instantApproved w + 1 else instantApproved w;
     drafts := drafts w; lookupWants := lookupWants w; ledger := ledger w |}.

Definition index_weights (table : Cooldowns) (observeDays now : Z) : gmap string Q :=
  fold_left (fun weights '(target, row) =>
    <[cd_database target +:+ " " +:+ cd_collection target +:+ " " +:+ cd_indexName target :=
        regressionWeight {| regressionCount := cd_count row; until := At <$> cd_until row |} observeDays now]> weights)
    (map_to_list table) ∅.

(** ** One collection *)

Section suggest.
Context `{Locale} (ctx : SuggestContext) (cooled standingKeys : list string) (weights : gmap string Q).

Definition weight_of (d c n : string) : Q := weights !! (d +:+ " " +:+ c +:+ " " +:+ n) ?? 0%Q.

(** Purge advisories. *)
Definition purge_step (d c : string) (indexes : list IndexSpec) (docs : Z) (w : Work) (pattern : PurgePattern) : Work :=
  match purgeAdvisory (sx_engine ctx) pattern c indexes docs with
  | None => w
  | Some advisory =>
      if includes cooled (cooldownKey d c (pa_indexName advisory)) then w
      else push (draft ADVISORY_REVIEW PROPOSED d c (pa_indexName advisory) (pa_rationale advisory)
                   (Z.min 80 (30 + pp_count pattern * 10)) false None) w
  end.

(** The joins of a shape, counted by foreign collection and field. *)
Definition lookup_step (d : string) (shape : QueryShape) (wants : list (string * LookupWant)) (join : LookupJoin)
    : list (string * LookupWant) :=
  let key := d +:+ nul_char +:+ from join +:+ nul_char +:+ foreignField join in
  let prev := map_get key wants ??
    {| lw_from := from join; lw_foreignField := foreignField join; lw_count := 0; lw_perWeek := 0 |} in
  map_put key {| lw_from := lw_from prev; lw_foreignField := lw_foreignField prev;
                 lw_count := lw_count prev + count shape;
                 lw_perWeek := (lw_perWeek prev + executionsPerWeek shape)%Q |} wants.
Definition note_lookups (d : string) (shapes : list QueryShape) (w : Work) : Work :=
  with_wants (fun wants => fold_left (fun wants shape =>
    fold_left (lookup_step d shape) (default [] (lookups shape)) wants) shapes wants) w.

Definition note_all (d c : string) (docs : Z) (shapes : list QueryShape) (outcome : WorkloadOutcome) (w : Work) : Work :=
  with_ledger (fun ledger => fold_left (fun ledger shape => note d c shape docs outcome None ledger) shapes ledger) w.

(** [existing]'s estimated cost of one more index. *)
Definition build_cost (sizes : gmap string Z) (docs : Z) : string :=
  let values := (map_to_list sizes).*2 in
  let avgIndexBytes : Q :=
    if (0 <? length values)%nat then (inject_Z (zsum id values) / inject_Z (Z.of_nat (length values)))%Q
    else inject_Z (docs * 16) in
  " Est. build ≈ " +:+ show (Z.max 1 (Math_round (avgIndexBytes / 1024))) +:+ " KB (+1 write per doc write).".

Definition worst_severity (costs : list ScanCost) : ScanSeverity :=
  if existsb (fun cost => bool_decide (severity cost = CRITICAL)) costs then CRITICAL
  else if existsb (fun cost => bool_decide (severity cost = ELEVATED)) costs then ELEVATED else ROUTINE.

Section collection.
Context (d c : string) (docs : Z) (shapes : list QueryShape) (existing : list IndexSpec) (sizes : gmap string Z).

Definition cost_text : string := build_cost sizes docs.
Definition costs : list ScanCost := (fun shape => scanCost shape docs) <$> shapes.
Definition collection_severity : ScanSeverity := worst_severity costs.
Definition worst : option ScanCost :=
  List.find (fun cost => bool_decide (severity cost = collection_severity)) costs.
Definition name_taken (n : string) : bool := existsb (fun idx => String.eqb (name idx) n) existing.
Definition resolved (outcome : WorkloadOutcome) (index : option string) (answered : list QueryShape) (w : Work) : Work :=
  with_ledger (resolve d c docs answered outcome index) w.

Definition reorder_step (st : Work * list string) (candidate : ReorderCandidate) : Work * list string :=
  let '(w, reordering) := st in
  let n := sx_nameIndex ctx c (ro_keys candidate) false in
  let declined outcome :=
    (resolved outcome (if bool_decide (outcome = standing) then Some n else None) (ro_sourceShapes candidate) w,
     reordering) in
  if includes cooled (cooldownKey d c n) then declined cooldown
  else if includes standingKeys (watchKey d c n) then declined standing
  else if name_taken n then declined index_exists
  else if existsb (names_draft c n) (drafts w) then declined standing
  else
    (push (draft REORDER PROPOSED d c n (ro_rationale candidate +:+ cost_text)
             (reorderScore {| rs_count := ro_count candidate; rs_sizeBytes := sizes !! ro_indexName candidate ?? 0;
                              rs_regressionWeight := weight_of d c n |}) false (Some (reorder_target candidate)))
       (resolved proposed (Some n) (ro_sourceShapes candidate) w),
     reordering ++ [ro_indexName candidate]).

Definition sort_advisory_text (advisory : SortOrderAdvisory) : string :=
  let keys := join ", " ((fun key => sk_field key +:+ ": " +:+ direction_text (sk_direction key)) <$>
                         soa_wantedKeys advisory) in
  existingIndex advisory +:+
  " covers these fields but not in an order that serves the sort, so the server orders the results in memory (seen " +:+
  show (soa_count advisory) +:+ "×). An index on {" +:+ keys +:+ "} would serve it: db." +:+ c +:+
  ".createIndex({ " +:+ keys +:+
  " }). CAUTION: that is a second index on the same fields — it doubles the write cost for this collection, so decide whether both are worth keeping before building it.".

Definition sort_step (reordering : list string) (w : Work) (advisory : SortOrderAdvisory) : Work :=
  if includes reordering (existingIndex advisory) then w
  else
    let n := existingIndex advisory +:+ "_sortorder" in
    if includes cooled (cooldownKey d c n) then resolved cooldown None (soa_sourceShapes advisory) w
    else
      push (draft ADVISORY_REVIEW PROPOSED d c n (sort_advisory_text advisory)
              (Z.min 70 (25 + soa_count advisory * 5)) false None)
        (resolved proposed (Some n) (soa_sourceShapes advisory) w).

Definition create_target (candidate : CreateCandidate) : TargetSpec :=
  {| ts_keys := encodeKeys (cc_keys candidate); ts_retire := retireIndexes candidate;
     ts_partial := option_map (List.map (fun '(f, v) => (f, json_of_constant v))) (cc_partialFilter candidate);
     ts_options := None; ts_supersededBy := None |}.

Definition create_text (candidate : CreateCandidate) (instant regressed crowded : bool) (collectionIndexes : Z) : string :=
  (if instant then cc_rationale candidate +:+ " (auto-approved: " +:+
                   toLowerCase (severity_text collection_severity) +:+ " scan)"
   else cc_rationale candidate) +:+
  match worst with
  | Some cost => if cc_scanning candidate then " Cost: " +:+ summary cost +:+ "." else ""
  | None => ""
  end +:+ cost_text +:+
  (if regressed
   then " " +:+ c +:+ "'s writes are measurably slower than before the last run of builds on it, so this one is left for you to approve rather than built unattended."
   else if crowded
   then " This would be index " +:+ show collectionIndexes +:+ " on " +:+ c +:+
     ", and every write to the collection updates all of them — so its score is reduced and it is left for you to approve rather than built unattended."
   else "").

Definition create_step (w : Work) (candidate : CreateCandidate) : Work :=
  let n := sx_nameIndex ctx c (cc_keys candidate) (is_some (cc_partialFilter candidate)) in
  if includes cooled (cooldownKey d c n) then resolved cooldown None (cc_sourceShapes candidate) w
  else if includes standingKeys (watchKey d c n) then resolved standing (Some n) (cc_sourceShapes candidate) w
  else if name_taken n then resolved index_exists None (cc_sourceShapes candidate) w
  else
    let w := resolved proposed (Some n) (cc_sourceShapes candidate) w in
    let budgetKey := scope_of d c in
    let netNew := (length (retireIndexes candidate) =? 0)%nat in
    let collectionIndexes :=
      collectionIndexesAfterBuild (Z.of_nat (length existing)) (pendingBuilds w !! budgetKey ?? 0) in
    let regressed := includes cooled (collectionCooldownKey d c) in
    let crowded := netNew && (0 <? crowdingPenalty collectionIndexes) || regressed in
    let score := createScore
      {| cs_collscan := cc_scanning candidate; cs_sortedInMemory := Some (negb (cc_scanning candidate));
         cs_count := cc_count candidate; cs_docCount := docs; cs_regressionWeight := weight_of d c n;
         cs_severity := Some collection_severity;
         cs_collectionIndexes := if netNew then Some collectionIndexes else None |} in
    let unattended := wouldBuildUnattended
      {| ub_type := cc_type candidate; ub_scanning := cc_scanning candidate; ub_severity := collection_severity;
         ub_count := cc_count candidate; ub_minCount := INSTANT_MIN_COUNT;
         ub_instantCreateEnabled := Plans.instantCreate (automation (sx_policy ctx ?? default_policy) (sx_plan ctx));
         ub_readOnly := sx_readOnly ctx |} in
    let instant := unattended && negb crowded in
    let urgent := instant && bool_decide (collection_severity = CRITICAL) in
    push (draft (cc_type candidate) (if instant then APPROVED else PROPOSED) d c n
            (create_text candidate instant regressed crowded collectionIndexes) score urgent
            (Some (create_target candidate)))
      (count_build budgetKey netNew instant (unattended && crowded) w).

Definition narrow_step (w : Work) (candidate : NarrowCandidate) : Work :=
  let n := sx_nameIndex ctx c (nc_keys candidate) false in
  if includes cooled (cooldownKey d c n) then w
  else if includes standingKeys (watchKey d c n) then w
  else if name_taken n then w
  else if existsb (names_draft c n) (drafts w) then w
  else
    let currentBytes := sizes !! nc_indexName candidate ?? 0 in
    let dropped := Z.of_nat (length (droppedKeys candidate)) in
    let totalKeys := Z.of_nat (length (nc_keys candidate)) + dropped in
    let saving := Math_round (inject_Z (currentBytes * dropped) / inject_Z totalKeys) in
    if saving <? NARROW_MIN_SAVING_BYTES then w
    else push (draft UPDATE PROPOSED d c n (nc_rationale candidate +:+ cost_text)
                 (narrowScore {| ns_observedCount := observedCount candidate; ns_droppedKeys := dropped;
                                 ns_totalKeys := totalKeys; ns_sizeBytes := currentBytes;
                                 ns_regressionWeight := weight_of d c n |}) false
                 (Some {| ts_keys := encodeKeys (nc_keys candidate); ts_retire := [nc_indexName candidate];
                          ts_partial := None; ts_options := None; ts_supersededBy := None |})) w.

(** The four producers on one collection, in order. *)
Definition analyse (hinted : list string) (w : Work) : Work :=
  let '(w, reordering) := fold_left reorder_step (recommendReorder shapes existing WORKLOAD_OPTIONS hinted) (w, []) in
  let w := fold_left (sort_step reordering) (sortOrderAdvisories shapes existing WORKLOAD_OPTIONS) w in
  let '(creates, declines) :=
    recommendCreates shapes existing {| workload_options := WORKLOAD_OPTIONS; partialIndexes := sx_canPartial ctx |} in
  let w := with_ledger (fun ledger => fold_left (fun ledger '(shape, reason) =>
    note d c shape docs (decline_outcome reason) None ledger) declines ledger) w in
  let w := fold_left create_step (stable_sort (fun a b => cc_count b <=? cc_count a) creates) w in
  fold_left narrow_step (recommendNarrowing shapes existing WORKLOAD_OPTIONS) w.
End collection.
End suggest.

(** ** The pass *)

Section passes.
Context {Live : Type} `{EngineSession Live, WorkloadPorts Live, Locale}.
Context (ctx : SuggestContext) (cooled standingKeys : list string) (weights : gmap string Q).

Definition purge_collection (d : string) (w : Work) (c : string) : pass Live Work :=
  patterns ← read (fun l => collectDeletePatterns l d c);
  let purgeWorthy := List.filter (fun p => TTL_MIN_DELETES <=? pp_count p) patterns in
  if (length purgeWorthy =? 0)%nat then mret w
  else
    indexes ← read (fun l => listIndexes l d c);
    docs ← try_catch (storage ← read (fun l => collectionStorage l d c); mret (docCount storage))
             (fun _ => mret 0);
    mret (fold_left (purge_step ctx cooled d c indexes docs) purgeWorthy w).

Definition judge_eligible (d : string) (st : Work * list (string * Z)) (c : string)
    : pass Live (Work * list (string * Z)) :=
  let '(w, eligible) := st in
  storage ← read (fun l => collectionStorage l d c);
  mret (if docCount storage <? TRIVIAL_COLLECTION_DOCS then (count_skipped 1 0 w, eligible)
        else match sx_policy ctx ≫= maxCollectionSizeBytes with
             | Some ceiling =>
                 if ceiling <? dataSizeBytes storage then (count_skipped 0 1 w, eligible)
                 else (w, eligible ++ [(c, docCount storage)])
             | None => (w, eligible ++ [(c, docCount storage)])
             end).

Definition has_blocking_sort (shapes : list QueryShape) : bool :=
  existsb (fun shape => bool_decide (sortedInMemory shape = Some true) && isRecurring shape WORKLOAD_OPTIONS) shapes.

Definition analyse_collection (d : string) (workload : gmap string (list QueryShape)) (w : Work)
    (target : string * Z) : pass Live Work :=
  let '(c, docs) := target in
  let shapes := workload !! workloadKey d c ?? [] in
  let scanning := List.filter isScanning shapes in
  let w := note_all d c docs scanning no_candidate (note_lookups d shapes w) in
  if Qltb (weeklyScanCost shapes docs) (inject_Z MIN_WEEKLY_DOCS_EXAMINED) && negb (has_blocking_sort shapes)
  then mret (note_all d c docs scanning below_cost_floor w)
  else
    existing ← read (fun l => listIndexes l d c);
    sizes ← read (fun l => indexSizes l d c);
    let w := with_cache (workloadKey d c) existing w in
    hinted ← (if existsb isReorderable existing then read (fun l => collectHintedIndexes l d c) else mret []);
    mret (analyse ctx cooled standingKeys weights d c docs shapes existing sizes hinted w).

(** A join whose foreign side has no index to lead with. *)
Definition lookup_text (d : string) (want : LookupWant) : string :=
  "$lookup joins " +:+ d +:+ "." +:+ lw_from want +:+ " on " +:+ lw_foreignField want +:+ " (seen " +:+
  show (lw_count want) +:+ "×) — without this index every joined document scans " +:+ lw_from want +:+ ".".
Definition propose_lookup (d : string) (want : LookupWant) (foreignDocs : Z) (w : Work) : Work :=
  let n := sx_nameIndex ctx (lw_from want) [{| sk_field := lw_foreignField want; sk_direction := Pos |}] false in
  if foreignDocs <? TRIVIAL_COLLECTION_DOCS then w
  else if Qltb (inject_Z foreignDocs * lw_perWeek want) (inject_Z MIN_WEEKLY_DOCS_EXAMINED) then w
  else if includes cooled (cooldownKey d (lw_from want) n) then w
  else if includes standingKeys (watchKey d (lw_from want) n) then w
  else if existsb (fun row => String.eqb (f_database (dr_finding row)) d && names_draft (lw_from want) n row) (drafts w)
  then w
  else push (draft CREATE PROPOSED d (lw_from want) n (lookup_text d want)
    (createScore {| cs_collscan := true; cs_sortedInMemory := None; cs_count := lw_count want;
       cs_docCount := foreignDocs; cs_regressionWeight := weight_of weights d (lw_from want) n;
       cs_severity := None; cs_collectionIndexes := None |}) false
    (Some {| ts_keys := [lw_foreignField want]; ts_retire := []; ts_partial := None; ts_options := None;
             ts_supersededBy := None |})) w.

Definition lookup_want (d : string) (w : Work) (want : LookupWant) : pass Live Work :=
  let cacheKey := workloadKey d (lw_from want) in
  found ← match indexCache w !! cacheKey with
          | Some specs => mret (Some (specs, w))
          | None =>
              try_catch (specs ← read (fun l => listIndexes l d (lw_from want));
                         mret (Some (specs, with_cache cacheKey specs w)))
                (fun _ => mret None)
          end;
  match found with
  | None => mret w
  | Some (foreignIndexes, w) =>
      if existsb (leads_with (lw_foreignField want)) foreignIndexes then mret w
      else
        storage ← read (fun l => collectionStorage l d (lw_from want));
        mret (propose_lookup d want (docCount storage) w)
  end.

(** The findings of one database, in place of the ones it had. *)
Definition of_database (d : string) (r : Recommendation) : bool := swept WORKLOAD r && String.eqb (rec_database r) d.
Definition file_draft : unit -> Draft -> pass Live unit := file draft_row.
Definition commit_database (d : string) (w : Work) : pass Live Work :=
  delete_recs (of_database d);;
  for_each (drafts w) tt file_draft;;
  update_shapes (flush (sx_now ctx) (ledger w));;
  mret {| pendingBuilds := pendingBuilds w; heldFromInstant := heldFromInstant w; belowDocFloor := belowDocFloor w;
          aboveSizeCeiling := aboveSizeCeiling w; indexCache := indexCache w;
          created := created w + Z.of_nat (length (drafts w)); instantApproved := instantApproved w;
          drafts := []; lookupWants := []; ledger := [] |}.

Definition suggest_database (w : Work) (entry : string * list string) : pass Live Work :=
  let '(d, collections) := entry in
  w ← for_each collections w (purge_collection d);
  '(w, eligible) ← for_each collections (w, []) (judge_eligible d);
  workload ← read (fun l => collectWorkload l ((fun '(c, _) => (d, c)) <$> eligible));
  w ← for_each eligible w (analyse_collection d workload);
  w ← for_each (lookupWants w) w (fun w '(_, want) => lookup_want d w want);
  commit_database d w.

(** The databases the session reports, those it cannot reach left out. *)
Definition list_database (acc : list (string * list string)) (d : string) : pass Live (list (string * list string)) :=
  found ← read (fun l => listCollectionNames l d);
  mret (match found with Some collections => map_put d collections acc | None => acc end).
Definition in_selection (d : string) : bool :=
  match sx_observed ctx with None => true | Some observed => includes observed d end.

Definition list_databases : pass Live (list (string * list string)) :=
  databases ← read listDatabaseNames;
  for_each (List.filter in_selection databases) [] list_database.

Definition set_if (count : Z) (key : string) (counts : gmap string Z) : gmap string Z :=
  if 0 <? count then <[key := count]> counts else counts.
Definition workload_note (w : Work) (previous : option AnalysisNote) : AnalysisNote :=
  {| decidedAt := sx_now ctx;
     consideredIndexes := (consideredIndexes <$> previous) ?? 0;
     trustedIndexes := (trustedIndexes <$> previous) ?? 0;
     refusals := (refusals <$> previous) ?? ∅;
     suppressed := set_if (heldFromInstant w) "budget" (set_if (belowDocFloor w) "trivial-collection"
                     (set_if (aboveSizeCeiling w) "oversize-collection" ∅)) |}.

Definition suggest_databases (w : Work) : pass Live (Z * Z) :=
  byDatabase ← list_databases;
  w ← for_each byDatabase w suggest_database;
  delete_recs (fun r => swept WORKLOAD r && negb (includes byDatabase.*1 (rec_database r)));;
  s ← get;
  put_note WORKLOAD (workload_note w (notes s !! WORKLOAD));;
  mret (created w, instantApproved w).
End passes.

Definition first_work (rows : list Recommendation) : Work :=
  {| pendingBuilds := pendingBuildsByCollection rows; heldFromInstant := 0; belowDocFloor := 0;
     aboveSizeCeiling := 0; indexCache := ∅; created := 0; instantApproved := 0; drafts := [];
     lookupWants := []; ledger := [] |}.

Definition suggestForCluster {Live} `{EngineSession Live, WorkloadPorts Live, Locale} (ctx : SuggestContext)
    : pass Live (Z * Z) :=
  if bool_decide (p_workloadAnalysis <$> sx_policy ctx = Some false) then mret (0, 0)
  else
    s ← get;
    suggest_databases ctx (activeCooldownKeys (cooldowns s) (sx_now ctx))
      (standingRecommendationKeys (recs s) BUILD_TYPES WORKLOAD)
      (index_weights (cooldowns s) (sx_observeDays ctx) (sx_now ctx)) (first_work (recs s)).

(** ** Passes that only read *)

Section reading.
Context {Live : Type} (l : Live).

(** The store is left as it was, and what is returned of a cluster [l] has [P]. *)
Definition reading {A} (P : A -> Prop) (m : pass Live A) : Prop :=
  forall s, live s = l -> (m s).1 = s /\ forall a, (m s).2 = inr a -> P a.

Lemma reading_ret {A} (P : A -> Prop) a : P a -> reading P (mret a).
Proof. intros Ha s _. split; [done|]. by intros ? [= <-]. Qed.
Lemma reading_read {A} (P : A -> Prop) f : (forall a, f l = inr a -> P a) -> reading P (read f).
Proof. intros Hf s <-. split; [done|]. intros a. apply Hf. Qed.
Lemma reading_bind {A B} (P : A -> Prop) (R : B -> Prop) (m : pass Live A) k :
  reading P m -> (forall a, P a -> reading R (k a)) -> reading R (m ≫= k).
Proof.
  intros Hm Hk s Hs. destruct (Hm s Hs) as [H1 H2]. unfold mbind, pass_bind.
  destruct (m s) as [s' [e|a]]; simpl in *; subst s'; [done|]. apply Hk; auto.
Qed.
Lemma reading_try {A} (P : A -> Prop) (m : pass Live A) handler :
  reading P m -> (forall e, reading P (handler e)) -> reading P (try_catch m handler).
Proof.
  intros Hm Hh s Hs. destruct (Hm s Hs) as [H1 H2]. unfold try_catch.
  destruct (m s) as [s' [e|a]]; simpl in *; subst s'; [by apply Hh|]. split; [done|]. intros ? [= <-]. auto.
Qed.
Lemma reading_for_each {A S} (P : list A -> S -> Prop) xs acc (body : S -> A -> pass Live S) :
  P [] acc ->
  (forall seen acc x, x ∈ xs -> P seen acc -> reading (P (seen ++ [x])) (body acc x)) ->
  reading (P xs) (for_each xs acc body).
Proof.
  intros H0 Hb. change xs with ([] ++ xs) at 1. revert H0. generalize (@nil A). revert acc.
  induction xs as [|x xs IH]; intros acc seen H0; [rewrite app_nil_r; by apply reading_ret|].
  cbn [for_each]. eapply reading_bind; [apply Hb; [left|exact H0]|]. intros acc' H1.
  change (x :: xs) with ([x] ++ xs). rewrite app_assoc. apply IH; [|done].
  intros. apply Hb; [by right|done].
Qed.
(** What follows a reading starts from the same store. *)
Lemma reading_then {A B} (P : A -> Prop) (m : pass Live A) (k : A -> pass Live B) s s' out :
  reading P m -> live s = l -> (m ≫= k) s = (s', out) ->
  (exists e, out = inl e /\ s' = s) \/ exists a, P a /\ k a s = (s', out).
Proof.
  intros Hm Hs. destruct (Hm s Hs) as [H1 H2]. unfold mbind, pass_bind.
  destruct (m s) as [s1 [e|a]]; simpl in *; subst s1; [intros [= <- <-]; by left; exists e|].
  intros E. right. exists a. auto.
Qed.
End reading.

(** ** What a pass drafts *)

Section drafting.
Context {Live : Type} `{EngineSession Live, WorkloadPorts Live, Locale}.
Context (ctx : SuggestContext) (cooled standingKeys : list string) (weights : gmap string Q).
Context (l : Live) (base : gmap string Z) (d : string) (must : list (string * string * StoredShape)).

(** A collection whose workload is read, with its documents. *)
Definition eligible_docs (c : string) : option Z :=
  match collectionStorage l d c with
  | inl _ => None
  | inr storage =>
      if docCount storage <? TRIVIAL_COLLECTION_DOCS then None
      else match sx_policy ctx ≫= maxCollectionSizeBytes with
           | Some ceiling => if ceiling <? dataSizeBytes storage then None else Some (docCount storage)
           | None => Some (docCount storage)
           end
  end.

(** The workload a pass reads of a collection, of so many documents. *)
Definition workload_read (c : string) (docs : Z) (shapes : list QueryShape) : Prop :=
  eligible_docs c = Some docs /\
  exists targets workload, collectWorkload l targets = inr workload /\ shapes = workload !! workloadKey d c ?? [].

(** What a build nobody approves is for: a candidate of the collection's workload that
    scans, is seen often enough, on a collection whose scans are not routine and which
    is not crowded. *)
Definition grounded (x : Draft) : Prop :=
  exists docs shapes existing candidate,
    workload_read (f_collection (dr_finding x)) docs shapes /\
    listIndexes l d (f_collection (dr_finding x)) = inr existing /\
    candidate ∈ (recommendCreates shapes existing {| workload_options := WORKLOAD_OPTIONS; partialIndexes := sx_canPartial ctx |}).1 /\
    f_indexName (dr_finding x) = sx_nameIndex ctx (f_collection (dr_finding x)) (cc_keys candidate) (is_some (cc_partialFilter candidate)) /\
    ts_keys <$> f_targetSpec (dr_finding x) = Some (encodeKeys (cc_keys candidate)) /\
    cc_scanning candidate = true /\ INSTANT_MIN_COUNT <= cc_count candidate /\
    collection_severity docs shapes <> ROUTINE /\
    Z.of_nat (length existing) + (base !! scope_of d (f_collection (dr_finding x)) ?? 0) + 1 <= ORDINARY_COLLECTION_INDEXES.

(** The gates of a build nobody approves. *)
Record unattended (x : Draft) : Prop := {
  un_type : f_type (dr_finding x) = CREATE;
  un_optedIn : Plans.instantCreate (automation (sx_policy ctx ?? default_policy) (sx_plan ctx)) = true;
  un_writable : sx_readOnly ctx = false;
  un_retires : ts_retire <$> f_targetSpec (dr_finding x) = Some [];
  un_writes : collectionCooldownKey d (f_collection (dr_finding x)) ∉ cooled;
  un_free : forall specs, listIndexes l d (f_collection (dr_finding x)) = inr specs ->
    f_indexName (dr_finding x) ∉ name <$> specs;
  un_grounded : grounded x;
}.

Record draft_ok (x : Draft) : Prop := {
  dk_source : f_source (dr_finding x) = WORKLOAD;
  dk_database : f_database (dr_finding x) = d;
  dk_type : f_type (dr_finding x) ∉ DROP_TYPES;
  dk_cooled : cooldownKey d (f_collection (dr_finding x)) (f_indexName (dr_finding x)) ∉ cooled;
  dk_standing : f_type (dr_finding x) <> ADVISORY_REVIEW ->
    watchKey d (f_collection (dr_finding x)) (f_indexName (dr_finding x)) ∉ standingKeys;
  dk_state : dr_state x = PROPOSED \/ dr_state x = APPROVED /\ unattended x;
}.

(** The unattended builds of a collection. *)
Definition unattended_on (c : string) (x : Draft) : bool :=
  bool_decide (dr_state x = APPROVED) && String.eqb (f_collection (dr_finding x)) c.
Definition approved_on (c : string) (w : Work) : Z := Z.of_nat (length (List.filter (unattended_on c) (drafts w))).
Definition within_budget (c : string) (builds : Z) : Prop :=
  builds = 0 \/ exists specs, listIndexes l d c = inr specs /\
    Z.of_nat (length specs) + (base !! scope_of d c ?? 0) + builds <= ORDINARY_COLLECTION_INDEXES.

(** The ledger names a proposal for every shape it says one was made for. *)
Definition backed (w : Work) (row : PendingShape) : Prop :=
  ps_database row = d /\
  (ps_outcome row = proposed -> exists x, x ∈ drafts w /\ f_collection (dr_finding x) = ps_collection row /\
     ps_proposedIndex row = Some (f_indexName (dr_finding x))).

Record work_ok (w : Work) : Prop := {
  wk_drafts : Forall draft_ok (drafts w);
  wk_grows : forall key, base !! key ?? 0 <= pendingBuilds w !! key ?? 0;
  wk_counted : forall c, (base !! scope_of d c ?? 0) + approved_on c w <= pendingBuilds w !! scope_of d c ?? 0;
  wk_budget : forall c, within_budget c (approved_on c w);
  wk_backed : Forall (backed w) (ledger w);
  wk_keys : NoDup (ps_key <$> ledger w);
  wk_noted : must ⊆ ps_key <$> ledger w;
}.

Lemma approved_on_push c x w :
  approved_on c (push x w) = approved_on c w + (if unattended_on c x then 1 else 0).
Proof.
  unfold approved_on. simpl. rewrite List.filter_app, length_app. simpl. destruct (unattended_on c x); simpl; lia.
Qed.

(** A draft that waits for approval. *)
Lemma work_push x w : draft_ok x -> dr_state x = PROPOSED -> work_ok w -> work_ok (push x w).
Proof.
  intros Hx Hs [H1' H2' H3' H4' H5' H6' H7'].
  assert (E : forall c, approved_on c (push x w) = approved_on c w).
  { intros c. rewrite approved_on_push. unfold unattended_on. rewrite bool_decide_false by congruence. simpl. lia. }
  split; try done; [simpl; by rewrite Forall_app, Forall_singleton|intros c; rewrite E; apply H3'|intros c; rewrite E; apply H4'|].
  eapply Forall_impl; [exact H5'|]. intros row [Hd Hb]. split; [done|]. intros Hp.
  destruct (Hb Hp) as (y & Hy & Hr). exists y. split; [|done]. simpl. apply elem_of_app. by left.
Qed.

(** A verdict on a shape: a proposal only for a draft of that name. *)
Lemma work_note c shape docs o i w :
  (o = proposed -> exists x, x ∈ drafts w /\ f_collection (dr_finding x) = c /\ i = Some (f_indexName (dr_finding x))) ->
  work_ok w -> work_ok (with_ledger (note d c shape docs o i) w).
Proof.
  intros Ho [H1' H2' H3' H4' H5' H6' H7']. split; try done; simpl; [|by apply note_NoDup|intros k Hk; apply note_keeps; auto].
  rewrite list.Forall_forall in *. intros row [Hr|(Hk & E1 & E2)]%note_elem; [by apply H5'|].
  unfold ps_key in Hk. injection Hk as Hd Hc _. split; [done|]. intros Hp. rewrite E1 in Hp.
  destruct (Ho Hp) as (x & Hx & Hxc & ->). exists x. by rewrite Hc, E2.
Qed.
Lemma work_resolve c docs answered o i w :
  (o = proposed -> exists x, x ∈ drafts w /\ f_collection (dr_finding x) = c /\ i = Some (f_indexName (dr_finding x))) ->
  work_ok w -> work_ok (resolved d c docs o i answered w).
Proof.
  unfold resolved, resolve. revert w. induction answered as [|shape answered IH]; intros w Ho Hw; [by destruct w|].
  cbn [fold_left]. destruct (isScanning shape); simpl; [|by apply IH].
  apply (IH (with_ledger (note d c shape docs o i) w)); [done|]. by apply work_note.
Qed.
Lemma work_note_all c docs answered o w :
  o <> proposed -> work_ok w -> work_ok (note_all d c docs answered o w).
Proof.
  intros Ho. unfold note_all. revert w. induction answered as [|shape answered IH]; intros w Hw; [by destruct w|].
  cbn [fold_left]. apply (IH (with_ledger (note d c shape docs o None) w)). by apply work_note.
Qed.

(** A draft that counts against its collection. *)
Lemma work_build x c netNew instant held w :
  draft_ok x -> f_collection (dr_finding x) = c ->
  (dr_state x = APPROVED -> netNew = true /\ exists specs, listIndexes l d c = inr specs /\
     Z.of_nat (length specs) + (pendingBuilds w !! scope_of d c ?? 0) + 1 <= ORDINARY_COLLECTION_INDEXES) ->
  work_ok w -> work_ok (push x (count_build (scope_of d c) netNew instant held w)).
Proof.
  intros Hx Hc Hb [W1 W2 W3 W4 W5 W6 W7].
  set (w' := count_build (scope_of d c) netNew instant held w).
  assert (Hg : forall k, pendingBuilds w !! k ?? 0 <= pendingBuilds w' !! k ?? 0).
  { intros k. simpl. destruct netNew; [|lia]. destruct (decide (k = scope_of d c)) as [->|Hk].
    - rewrite lookup_insert_eq. simpl. lia.
    - rewrite lookup_insert_ne by done. lia. }
  assert (Hap : forall c', approved_on c' (push x w') = approved_on c' w + (if unattended_on c' x then 1 else 0))
    by (intros c'; by rewrite approved_on_push).
  split; try done.
  - simpl. by rewrite Forall_app, Forall_singleton.
  - intros k. etransitivity; [apply W2|apply Hg].
  - intros c'. rewrite Hap. cbn [pendingBuilds push]. destruct (unattended_on c' x) eqn:Eu; [|rewrite Z.add_0_r; etransitivity; [apply W3|apply Hg]].
    unfold unattended_on in Eu. apply andb_true_iff in Eu as [Ha%bool_decide_eq_true Ec%String.eqb_eq].
    rewrite Hc in Ec. subst c'. destruct (Hb Ha) as [-> _]. specialize (W3 c). simpl. rewrite lookup_insert_eq. simpl. lia.
  - intros c'. rewrite Hap. destruct (unattended_on c' x) eqn:Eu; [|rewrite Z.add_0_r; apply W4].
    unfold unattended_on in Eu. apply andb_true_iff in Eu as [Ha%bool_decide_eq_true Ec%String.eqb_eq].
    rewrite Hc in Ec. subst c'. destruct (Hb Ha) as [_ (specs & Hl & Hle)]. right. exists specs. split; [done|].
    specialize (W3 c). lia.
  - eapply Forall_impl; [exact W5|]. intros row [Hd' Hbk]. split; [done|]. intros Hp.
    destruct (Hbk Hp) as (y & Hy & Hr). exists y. split; [|done]. simpl. apply elem_of_app. by left.
Qed.

Lemma not_drop t : t ∈ [ADVISORY_REVIEW; CREATE; UPDATE; MERGE; REORDER] -> t ∉ DROP_TYPES.
Proof. unfold DROP_TYPES. set_solver. Qed.

(** A proposal no guard withheld. *)
Lemma draft_proposed t c n text score urgent target :
  t ∈ [ADVISORY_REVIEW; CREATE; UPDATE; MERGE; REORDER] ->
  includes cooled (cooldownKey d c n) = false ->
  (t <> ADVISORY_REVIEW -> includes standingKeys (watchKey d c n) = false) ->
  draft_ok (draft t PROPOSED d c n text score urgent target).
Proof.
  intros Ht Hc Hs. split; simpl; auto using not_drop.
  - by rewrite <- includes_spec, Hc.
  - intros Hne. by rewrite <- includes_spec, (Hs Hne).
Qed.

Lemma purge_step_ok c indexes docs w pattern : work_ok w -> work_ok (purge_step ctx cooled d c indexes docs w pattern).
Proof.
  intros Hw. unfold purge_step. destruct (purgeAdvisory _ _ _ _ _) as [a|]; [|done].
  destruct (includes _ _) eqn:Ec; [done|]. apply work_push; [|done|done]. apply draft_proposed; [set_solver|done|done].
Qed.

Section collection.
Context (c : string) (docs : Z) (qshapes : list QueryShape) (existing : list IndexSpec) (sizes : gmap string Z).
Hypothesis listed : listIndexes l d c = inr existing.
Hypothesis measured : workload_read c docs qshapes.

(** The verdict and its draft, in either order. *)
Lemma work_propose x n answered w :
  draft_ok x -> dr_state x = PROPOSED -> f_collection (dr_finding x) = c -> f_indexName (dr_finding x) = n ->
  work_ok w -> work_ok (push x (resolved d c docs proposed (Some n) answered w)).
Proof.
  intros Hx Hs Hc Hn Hw. change (work_ok (resolved d c docs proposed (Some n) answered (push x w))).
  apply work_resolve; [|by apply work_push]. intros _. exists x. split_and!; [|done|congruence].
  simpl. apply elem_of_app. right. left.
Qed.

Lemma reorder_step_ok st candidate :
  work_ok st.1 -> work_ok (reorder_step ctx cooled standingKeys weights d c docs existing sizes st candidate).1.
Proof.
  destruct st as [w reordering]. intros Hw. unfold reorder_step.
  destruct (includes cooled _) eqn:Ec; [by apply work_resolve|].
  destruct (includes standingKeys _) eqn:Es; [by apply work_resolve|].
  destruct (name_taken _ _); [by apply work_resolve|]. destruct (existsb _ _); [by apply work_resolve|].
  apply work_propose; try done. apply draft_proposed; [set_solver|done|done].
Qed.

Lemma sort_step_ok reordering w advisory :
  work_ok w -> work_ok (sort_step cooled d c docs reordering w advisory).
Proof.
  intros Hw. unfold sort_step. destruct (includes reordering _); [done|].
  destruct (includes cooled _) eqn:Ec; [by apply work_resolve|].
  apply work_propose; try done. apply draft_proposed; [set_solver|done|done].
Qed.

Lemma narrow_step_ok w candidate :
  work_ok w -> work_ok (narrow_step ctx cooled standingKeys weights d c docs existing sizes w candidate).
Proof.
  intros Hw. unfold narrow_step. destruct (includes cooled _) eqn:Ec; [done|].
  destruct (includes standingKeys _) eqn:Es; [done|]. destruct (name_taken _ _); [done|]. destruct (existsb _ _); [done|].
  destruct (_ <? _); [done|]. apply work_push; [|done|done]. apply draft_proposed; [set_solver|done|done].
Qed.

Lemma name_free n : name_taken existing n = false -> n ∉ name <$> existing.
Proof.
  unfold name_taken. intros E (idx & -> & Hi)%list_elem_of_fmap. apply not_true_iff_false in E. apply E.
  apply existsb_elem. exists idx. split; [done|]. by apply String.eqb_eq.
Qed.

Lemma candidate_type options candidate : candidate ∈ (recommendCreates qshapes existing options).1 ->
  cc_type candidate ∈ [ADVISORY_REVIEW; CREATE; UPDATE; MERGE; REORDER] /\
  cc_type candidate <> ADVISORY_REVIEW /\ (cc_type candidate = CREATE -> retireIndexes candidate = []).
Proof.
  intros (want & _ & -> & _)%recommendCreates_elem. unfold create_candidate.
  destruct (extendable _ _); [simpl; set_solver|]. destruct (2 <=? _)%nat; simpl; set_solver.
Qed.

Lemma create_step_ok w candidate :
  candidate ∈ (recommendCreates qshapes existing {| workload_options := WORKLOAD_OPTIONS; partialIndexes := sx_canPartial ctx |}).1 ->
  work_ok w -> work_ok (create_step ctx cooled standingKeys weights d c docs qshapes existing sizes w candidate).
Proof.
  intros Hcand Hw. pose proof (candidate_type _ _ Hcand) as (Ht & Hadv & Hret). unfold create_step.
  destruct (includes cooled _) eqn:Ec; [by apply work_resolve|].
  destruct (includes standingKeys _) eqn:Es; [by apply work_resolve|].
  destruct (name_taken _ _) eqn:En; [by apply work_resolve|]. cbv zeta.
  set (n := sx_nameIndex _ _ _ _) in *. set (key := scope_of d c).
  set (unatt := wouldBuildUnattended _). set (crowded := _ || _).
  match goal with |- work_ok (push ?x (count_build _ ?nn ?ii ?hh _)) => set (y := x); set (netNew := nn) in * end.
  change (work_ok (resolved d c docs proposed (Some n) (cc_sourceShapes candidate)
    (push y (count_build key netNew (unatt && negb crowded) (unatt && crowded) w)))).
  apply work_resolve.
  { intros _. exists y. split_and!; try done. simpl. apply elem_of_app. right. left. }
  assert (Ha : unatt && negb crowded = true -> cc_type candidate = CREATE /\
    (cc_scanning candidate = true /\ INSTANT_MIN_COUNT <= cc_count candidate /\ collection_severity docs qshapes <> ROUTINE) /\
    Plans.instantCreate (automation (sx_policy ctx ?? default_policy) (sx_plan ctx)) = true /\ sx_readOnly ctx = false /\
    netNew && (0 <? crowdingPenalty (collectionIndexesAfterBuild (Z.of_nat (length existing))
      (pendingBuilds w !! key ?? 0))) = false /\ includes cooled (collectionCooldownKey d c) = false).
  { intros [Hu Hcr]%andb_true_iff. apply negb_true_iff in Hcr. unfold crowded in Hcr. apply orb_false_iff in Hcr as [Hcr Hreg].
    unfold unatt, wouldBuildUnattended in Hu. simpl in Hu. rewrite !andb_true_iff in Hu.
    destruct Hu as [[[[[Hty%bool_decide_eq_true Hsc] Hsev] Hcnt%Z.leb_le] Hin] Hro]. apply negb_true_iff in Hsev, Hro. apply bool_decide_eq_false in Hsev.
    split_and!; done. }
  assert (Hroom : unatt && negb crowded = true -> netNew = true /\
    Z.of_nat (length existing) + (pendingBuilds w !! key ?? 0) + 1 <= ORDINARY_COLLECTION_INDEXES).
  { intros E. destruct (Ha E) as (Hty & _ & _ & _ & Hcr & _). assert (Hnn : netNew = true) by (unfold netNew; by rewrite (Hret Hty)).
    split; [done|]. rewrite Hnn in Hcr. simpl in Hcr. apply Z.ltb_ge in Hcr. unfold crowdingPenalty, collectionIndexesAfterBuild in Hcr.
    destruct (Z.leb_spec (Z.of_nat (length existing) + (pendingBuilds w !! key ?? 0) + 1 - ORDINARY_COLLECTION_INDEXES) 0); [lia|].
    unfold CROWDING_MAX, CROWDING_STEP in Hcr. lia. }
  apply work_build; [|done| |done].
  - split; simpl; auto using not_drop.
    + by rewrite <- includes_spec, Ec.
    + by rewrite <- includes_spec, Es.
    + destruct (unatt && negb crowded) eqn:E; [|by left]. right. split; [done|].
      destruct (Ha eq_refl) as (Hty & (Hsc & Hcnt & Hsev) & Hin & Hro & _ & Hreg). destruct (Hroom eq_refl) as [_ Hle]. split; simpl; auto.
      * by rewrite (Hret Hty).
      * by rewrite <- includes_spec, Hreg.
      * intros specs Hl. rewrite listed in Hl. injection Hl as <-. by apply name_free.
      * exists docs, qshapes, existing, candidate. split_and!; try done. pose proof (wk_grows _ Hw key) as Hg. simpl. fold key. lia.
  - simpl. destruct (unatt && negb crowded) eqn:E; [|done]. intros _. destruct (Hroom eq_refl) as [-> Hle]. split; [done|].
    exists existing. by split.
Qed.

Lemma fold_keeps {A B} (P : B -> Prop) (f : B -> A -> B) xs b :
  (forall b x, x ∈ xs -> P b -> P (f b x)) -> P b -> P (fold_left f xs b).
Proof.
  revert b. induction xs as [|x xs IH]; intros b Hf Hb; [done|]. cbn [fold_left].
  apply IH; [|apply Hf; [left|done]]. intros. apply Hf; [by right|done].
Qed.

Lemma analyse_ok hinted w :
  work_ok w -> work_ok (analyse ctx cooled standingKeys weights d c docs qshapes existing sizes hinted w).
Proof.
  intros Hw. unfold analyse.
  destruct (fold_left (reorder_step _ _ _ _ _ _ _ _ _) _ (w, [])) as [w1 reordering] eqn:E1.
  assert (Hw1 : work_ok w1).
  { change w1 with ((w1, reordering).1). rewrite <- E1. apply (fold_keeps (fun st => work_ok st.1)); [|done].
    intros. by apply reorder_step_ok. }
  destruct (recommendCreates _ _ _) as [creates declines] eqn:E2. clear E1 Hw w.
  assert (Hw2 : work_ok (fold_left (sort_step cooled d c docs reordering)
    (sortOrderAdvisories qshapes existing WORKLOAD_OPTIONS) w1)) by (apply fold_keeps; [intros; by apply sort_step_ok|done]).
  apply fold_keeps; [intros; by apply narrow_step_ok|]. apply fold_keeps.
  { intros w candidate Hin. apply elem_of_stable_sort in Hin.
    apply (create_step_ok w candidate). rewrite E2. exact Hin. }
  revert Hw2. generalize (fold_left (sort_step cooled d c docs reordering)
    (sortOrderAdvisories qshapes existing WORKLOAD_OPTIONS) w1). clear.
  induction declines as [|[shape reason] declines IH]; intros w Hw; [by destruct w|]. cbn [fold_left].
  apply (IH (with_ledger (note d c shape docs (decline_outcome reason) None) w)).
  apply work_note; [|done]. by destruct reason.
Qed.
End collection.

Lemma work_lookups qshapes w : work_ok w -> work_ok (note_lookups d qshapes w).
Proof. by intros []. Qed.
Lemma work_cache key specs w : work_ok w -> work_ok (with_cache key specs w).
Proof. by intros []. Qed.
Lemma work_skipped floor ceiling w : work_ok w -> work_ok (count_skipped floor ceiling w).
Proof. by intros []. Qed.

Lemma propose_lookup_ok want docs w :
  work_ok w -> work_ok (propose_lookup ctx cooled standingKeys weights d want docs w).
Proof.
  intros Hw. unfold propose_lookup. destruct (_ <? _); [done|]. destruct (Qltb _ _); [done|].
  destruct (includes cooled _) eqn:Ec; [done|]. destruct (includes standingKeys _) eqn:Es; [done|].
  destruct (existsb _ _); [done|]. apply work_push; [|done|done]. apply draft_proposed; [set_solver|done|done].
Qed.

Lemma purge_collection_ok w c : work_ok w -> reading l work_ok (purge_collection ctx cooled d w c).
Proof.
  intros Hw. unfold purge_collection. eapply reading_bind; [by apply (reading_read _ (fun _ => True))|].
  intros patterns _. destruct (_ =? 0)%nat; [by apply reading_ret|].
  eapply reading_bind; [by apply (reading_read _ (fun _ => True))|]. intros indexes _.
  eapply (reading_bind _ (fun _ => True)).
  { apply reading_try; [|intros; by apply reading_ret].
    eapply reading_bind; [by apply (reading_read _ (fun _ => True))|]. intros. by apply reading_ret. }
  intros docs _. apply reading_ret. apply fold_keeps; [intros; by apply purge_step_ok|done].
Qed.

Lemma lookup_want_ok w want : work_ok w -> reading l work_ok (lookup_want ctx cooled standingKeys weights d w want).
Proof.
  intros Hw. unfold lookup_want.
  eapply (reading_bind _ (fun found => forall specs w', found = Some (specs, w') -> work_ok w')).
  { destruct (indexCache w !! _); [apply reading_ret; by intros ? ? [= _ <-]|].
    apply reading_try; [|intros; by apply reading_ret].
    eapply reading_bind; [by apply (reading_read _ (fun _ => True))|]. intros specs _.
    apply reading_ret. intros ? ? [= _ <-]. by apply work_cache. }
  intros [[specs w']|] Hf; [|by apply reading_ret]. specialize (Hf _ _ eq_refl).
  destruct (existsb _ _); [by apply reading_ret|].
  eapply reading_bind; [by apply (reading_read _ (fun _ => True))|]. intros storage _.
  apply reading_ret. by apply propose_lookup_ok.
Qed.
End drafting.

(** ** One database *)

Section database.
Context {Live : Type} `{EngineSession Live, WorkloadPorts Live, Locale}.
Context (ctx : SuggestContext) (cooled standingKeys : list string) (weights : gmap string Q).
Context (l : Live) (base : gmap string Z) (d : string).
Abbreviation work_ok := (work_ok ctx cooled standingKeys l base d).
Abbreviation eligible_docs := (eligible_docs ctx l d).

Definition eligible_in (collections : list string) : list (string * Z) :=
  omap (fun c => pair c <$> eligible_docs c) collections.

Definition shape_keys (workload : gmap string (list QueryShape)) (target : string * Z)
    : list (string * string * StoredShape) :=
  (fun shape => (d, target.1, storedShapeOf shape)) <$>
  List.filter isScanning (workload !! workloadKey d target.1 ?? []).

Lemma judge_eligible_ok must seen st c :
  work_ok must st.1 /\ st.2 = eligible_in seen ->
  reading l (fun st => work_ok must st.1 /\ st.2 = eligible_in (seen ++ [c])) (judge_eligible ctx d st c).
Proof.
  destruct st as [w eligible]. intros [Hw He]. simpl in He. unfold judge_eligible.
  eapply reading_bind; [apply (reading_read _ (fun storage => collectionStorage l d c = inr storage)); auto|].
  intros storage Hs. apply reading_ret. unfold eligible_in. rewrite omap_app.
  change (omap _ seen) with (eligible_in seen). rewrite <- He. csimpl. unfold eligible_docs.
  rewrite Hs. destruct (_ <? TRIVIAL_COLLECTION_DOCS); [split; [by apply work_skipped|by rewrite app_nil_r]|].
  destruct (sx_policy ctx ≫= _); [|done].
  destruct (_ <? _); [split; [by apply work_skipped|by rewrite app_nil_r]|done].
Qed.

Lemma note_all_noted c docs answered o w :
  ((fun shape => (d, c, storedShapeOf shape)) <$> answered) ++ (ps_key <$> ledger w)
    ⊆ ps_key <$> ledger (note_all d c docs answered o w).
Proof.
  unfold note_all. simpl. generalize (ledger w). clear w. induction answered as [|shape answered IH]; intros rows; [done|].
  cbn [fold_left]. etransitivity; [|apply IH]. csimpl. intros k Hk.
  apply elem_of_cons in Hk as [->|[Hk|Hk]%elem_of_app]; apply elem_of_app; [right; apply note_noted|by left|right; by apply note_keeps].
Qed.

Lemma work_noted must c docs answered o w :
  o <> proposed -> work_ok must w ->
  work_ok (must ++ ((fun shape => (d, c, storedShapeOf shape)) <$> answered)) (note_all d c docs answered o w).
Proof.
  intros Ho Hw. destruct (work_note_all ctx cooled standingKeys l base d must c docs answered o w Ho Hw).
  pose proof (note_all_noted c docs answered o w) as Hn. split; try done.
  intros k [Hk|Hk]%elem_of_app; apply Hn, elem_of_app; [right; by apply Hw|by left].
Qed.

Lemma analyse_collection_ok workload must w target :
  workload_read ctx l d target.1 target.2 (workload !! workloadKey d target.1 ?? []) -> work_ok must w ->
  reading l (work_ok (must ++ shape_keys workload target))
    (analyse_collection ctx cooled standingKeys weights d workload w target).
Proof.
  destruct target as [c docs]. intros Hm Hw. cbn [fst snd] in Hm. unfold analyse_collection.
  set (qshapes := workload !! workloadKey d c ?? []).
  assert (Hw1 : work_ok (must ++ shape_keys workload (c, docs))
    (note_all d c docs (List.filter isScanning qshapes) no_candidate (note_lookups d qshapes w))).
  { apply work_noted; [done|]. by apply work_lookups. }
  destruct (Qltb _ _ && _); [apply reading_ret; by apply work_note_all|].
  eapply reading_bind; [apply (reading_read _ (fun specs => listIndexes l d c = inr specs)); auto|]. intros existing Hl.
  eapply reading_bind; [by apply (reading_read _ (fun _ => True))|]. intros sizes _.
  eapply (reading_bind _ (fun _ => True)).
  { destruct (existsb _ _); [by apply reading_read|by apply reading_ret]. }
  intros hinted _. apply reading_ret. apply analyse_ok; [done|done|]. by apply work_cache.
Qed.

(** Nothing of a database is left over for the next. *)
Definition between (w : Work) : Prop :=
  drafts w = [] /\ lookupWants w = [] /\ ledger w = [] /\
  forall key, base !! key ?? 0 <= pendingBuilds w !! key ?? 0.

Lemma between_ok w : between w -> work_ok [] w.
Proof.
  intros (Hd & _ & Hl & Hb). split; rewrite ?Hd, ?Hl; try done.
  - intros c. unfold approved_on. rewrite Hd. simpl. specialize (Hb (scope_of d c)). lia.
  - intros c. left. unfold approved_on. by rewrite Hd.
  - constructor.
Qed.

(** The rows of a database after its batch. *)
Lemma commit_run batch (s : Store Live) :
  exists s' w' new filed, commit_database ctx d batch s = (s', inr w') /\
    drafts w' = [] /\ lookupWants w' = [] /\ ledger w' = [] /\ pendingBuilds w' = pendingBuilds batch /\
    live s' = live s /\ cooldowns s' = cooldowns s /\ (nextId s <= nextId s')%nat /\
    shapes s' = flush (sx_now ctx) (ledger batch) (shapes s) /\
    recs s' = List.filter (fun r => negb (of_database d r)) (recs s) ++ new /\
    Forall (fun r => (nextId s <= rec_id r)%nat) new /\ filed `sublist_of` drafts batch /\
    Forall2 (fun x r => r = draft_row x (rec_id r)) filed new /\
    forall x, x ∈ drafts batch -> exists r, r ∈ recs s' /\ rec_database r = f_database (dr_finding x) /\
      rec_collection r = f_collection (dr_finding x) /\ rec_indexName r = f_indexName (dr_finding x).
Proof.
  destruct (file_all draft_row (drafts batch) (delete_recs (of_database d) s).1) as
    (s1 & new & filed & E & Hr & H1' & H2' & H3' & H4' & H5' & H6' & H7' & H8' & H9'); [done|].
  unfold commit_database, mbind at 1, pass_bind at 1, delete_recs. unfold mbind at 1, pass_bind at 1.
  unfold delete_recs in E. cbn [fst] in E. unfold file_draft. rewrite E.
  do 4 eexists. split; [reflexivity|]. simpl in *. split_and!; try done; [by rewrite H4'|].
  intros x Hx. destruct (H9' x Hx) as (r & Hin & [Er|[id Hc]]); [exists r; split; [done|]; by rewrite Er|].
  exists r. split; [done|]. unfold same_claim, claim_of at 1 in Hc.
  destruct (is_live (draft_row x id) && _); [|done]. apply bool_decide_eq_true in Hc. unfold claim_of in Hc.
  destruct (is_live r && _); [|done]. unfold claim_key in Hc. injection Hc as Hd' Hc' Hn' _.
  split_and!; [exact Hd'|exact Hc'|exact Hn'].
Qed.

(** What one database comes to: a throw leaves the store as it was; otherwise a
    batch was committed that kept every rule, with a row for each shape read. *)
Lemma suggest_database_run w collections s s' out :
  live s = l -> between w ->
  suggest_database ctx cooled standingKeys weights w (d, collections) s = (s', out) ->
  match out with
  | inl _ => s' = s
  | inr w' =>
      between w' /\ exists batch workload,
        collectWorkload l ((fun '(c, _) => (d, c)) <$> eligible_in collections) = inr workload /\
        work_ok (eligible_in collections ≫= shape_keys workload) batch /\ s' = (commit_database ctx d batch s).1
  end.
Proof.
  intros Hs Hw%between_ok E. unfold suggest_database in E.
  eapply (reading_then l (work_ok [])) in E as [(e & -> & ->)|(w1 & Hw1 & E)]; [done| | |exact Hs].
  2: { apply (reading_for_each l (fun _ => work_ok [])); [done|]. intros. by apply purge_collection_ok. }
  eapply (reading_then l (fun st => work_ok [] st.1 /\ st.2 = eligible_in collections)) in E
    as [(e & -> & ->)|([w2 eligible] & [Hw2 He] & E)]; [done| | |exact Hs].
  2: { apply (reading_for_each l (fun seen st => work_ok [] st.1 /\ st.2 = eligible_in seen)); [done|].
       intros. by apply judge_eligible_ok. }
  simpl in Hw2, He. subst eligible.
  eapply (reading_then l (fun workload => collectWorkload l _ = inr workload)) in E
    as [(e & -> & ->)|(workload & Ew & E)]; [done| |by apply reading_read|exact Hs].
  eapply (reading_then l (work_ok (eligible_in collections ≫= shape_keys workload))) in E
    as [(e & -> & ->)|(w3 & Hw3 & E)]; [done| | |exact Hs].
  2: { apply (reading_for_each l (fun seen => work_ok (seen ≫= shape_keys workload))); [done|].
       intros seen acc x Hx Hacc. rewrite bind_app. csimpl. rewrite app_nil_r. apply analyse_collection_ok; [|done].
       apply list_elem_of_omap in Hx as (c & _ & Hc). destruct (eligible_docs c) as [docs|] eqn:Ed; [|done]. injection Hc as <-.
       split; [done|]. by eexists _, _. }
  eapply (reading_then l (work_ok (eligible_in collections ≫= shape_keys workload))) in E
    as [(e & -> & ->)|(w4 & Hw4 & E)]; [done| | |exact Hs].
  2: { apply (reading_for_each l (fun _ => work_ok (eligible_in collections ≫= shape_keys workload))); [done|].
       intros _ acc [key want] _ Hacc. by apply lookup_want_ok. }
  destruct (commit_run w4 s) as (s1 & w' & new & filed & Hout & Hd' & Hk' & Hl' & Hp' & _).
  rewrite E in Hout. injection Hout as <- ->.
  split; [split_and!; try done; intros key; rewrite Hp'; apply Hw4|].
  exists w4, workload. split_and!; [done|done|]. by rewrite E.
Qed.
End database.

(** ** Every database *)

Section whole.
Context {Live : Type} `{EngineSession Live, WorkloadPorts Live, Locale}.
Context (ctx : SuggestContext) (cooled standingKeys : list string) (weights : gmap string Q) (s0 : Store Live).
Abbreviation base := (pendingBuildsByCollection (recs s0)).
Abbreviation draft_ok := (draft_ok ctx cooled standingKeys (live s0) base).

(** The rows that became of a database's unattended builds. *)
Definition built_on (d c : string) (r : Recommendation) : bool :=
  bool_decide (state r = APPROVED) && String.eqb (rec_database r) d && String.eqb (rec_collection r) c.
Definition new_row (done : list string) (r : Recommendation) : Prop :=
  (nextId s0 <= rec_id r)%nat /\ rec_database r ∈ done /\
  exists x, draft_ok (rec_database r) x /\ r = draft_row x (rec_id r).

(** Where the pass stands when it has committed some databases. *)
Record progress (done : list string) (s : Store Live) (w : Work) : Prop := {
  pg_live : live s = live s0;
  pg_between : between base w;
  pg_ids : (nextId s0 <= nextId s)%nat;
  pg_rows : exists new,
    recs s = List.filter (fun r => negb (swept WORKLOAD r && includes done (rec_database r))) (recs s0) ++ new /\
    Forall (new_row done) new /\
    forall d c, within_budget (live s0) base d c (Z.of_nat (length (List.filter (built_on d c) new)));
}.

Lemma new_row_more done d r : new_row done r -> new_row (done ++ [d]) r.
Proof. intros (Hi & Hd & Hx). split_and!; [done|set_solver|done]. Qed.

(** Rows of a batch are builds as often as its drafts are. *)
Lemma built_filed d c filed new :
  Forall2 (fun x r => r = draft_row x (rec_id r)) filed new -> Forall (fun x => f_database (dr_finding x) = d) filed ->
  length (List.filter (built_on d c) new) = length (List.filter (unattended_on c) filed).
Proof.
  induction 1 as [|x r filed new Hx _ IH]; [done|]. intros [Hd Hf]%Forall_cons. specialize (IH Hf).
  assert (E : built_on d c r = unattended_on c x).
  { rewrite Hx. unfold built_on, unattended_on, rec_database, rec_collection. simpl. rewrite Hd, String.eqb_refl.
    by rewrite andb_true_r. }
  simpl. rewrite E. destruct (unattended_on c x); simpl; by rewrite IH.
Qed.
Lemma built_elsewhere d c new :
  Forall (fun r => rec_database r <> d) new -> List.filter (built_on d c) new = [].
Proof.
  induction 1 as [|r new Hr _ IH]; [done|]. simpl. unfold built_on at 1.
  apply String.eqb_neq in Hr. by rewrite Hr, andb_false_r.
Qed.
Lemma progress_database done d collections s w s' out :
  d ∉ done -> progress done s w ->
  suggest_database ctx cooled standingKeys weights w (d, collections) s = (s', out) ->
  match out with inl _ => s' = s | inr w' => progress (done ++ [d]) s' w' end.
Proof.
  intros Hd [Hl Hb Hid (new0 & Hr & Hn0 & Hbud)] E.
  pose proof (suggest_database_run ctx cooled standingKeys weights (live s0) base d w collections s s' out Hl Hb E) as Hrun.
  destruct out as [e|w']; [done|]. destruct Hrun as (Hb' & batch & workload & _ & Hw & ->).
  destruct (commit_run ctx d batch s) as (s1 & w1 & new & filed & Ec & _ & _ & _ & _ & Hl1 & _ & Hid1 & _ & Hr1 & Hi1 & Hsub & Hf & _).
  rewrite Ec. cbn [fst]. destruct Hw as [W1 _ _ W4 _ _ _].
  assert (Hin : forall r, r ∈ new -> new_row (done ++ [d]) r /\ rec_database r = d).
  { rewrite list.Forall_forall in W1. rewrite list.Forall_forall in Hi1. intros r Hin.
    destruct (filed_from draft_row _ _ _ r Hsub Hf Hin) as (x & Hx & Ex).
    assert (Hdb : rec_database r = d) by (rewrite Ex; apply (W1 x Hx)).
    split; [|done]. split_and!; [specialize (Hi1 r Hin); lia|set_solver|]. rewrite Hdb. eauto. }
  assert (Hold : Forall (fun r => rec_database r <> d) new0).
  { eapply Forall_impl; [exact Hn0|]. intros r (_ & Hdone & _) <-. done. }
  split; [congruence|done|lia|]. exists (new0 ++ new). split_and!.
  - rewrite Hr1, Hr, List.filter_app, filter_filter_bool, app_assoc. f_equal. f_equal.
    + apply filter_ext_bool. intros r _. unfold of_database, includes.
      destruct (swept WORKLOAD r); [|done]. simpl. destruct (String.eqb_spec (rec_database r) d) as [->|Hne].
      * rewrite andb_false_r. symmetry. apply negb_false_iff, bool_decide_eq_true. set_solver.
      * rewrite andb_true_r. f_equal. apply bool_decide_ext. set_solver.
    + apply filter_all. intros r Hr0. rewrite list.Forall_forall in Hold. unfold of_database.
      apply Hold, String.eqb_neq in Hr0. by rewrite Hr0, andb_false_r.
  - rewrite Forall_app. split; [|apply list.Forall_forall; intros r Hr'; by apply Hin]. eapply Forall_impl; [exact Hn0|]. apply new_row_more.
  - intros d' c. rewrite List.filter_app, length_app. destruct (decide (d' = d)) as [->|Hne].
    + rewrite (built_elsewhere d c new0 Hold). simpl. rewrite (built_filed d c filed new Hf)
        by (rewrite list.Forall_forall in W1; apply list.Forall_forall; intros x Hx; apply W1; by eapply elem_of_sublist).
      pose proof (filter_length_sublist (unattended_on c) _ _ Hsub) as Hle. specialize (W4 c).
      unfold approved_on in W4. destruct W4 as [W4|(specs & Hs & Hle')]; [left; lia|]. right. exists specs. split; [done|lia].
    + rewrite (built_elsewhere d' c new), Nat.add_0_r; [apply Hbud|].
      apply list.Forall_forall. intros r Hr'. destruct (Hin r Hr') as [_ ->]. congruence.
Qed.

Lemma progress_loop dbs done s w s' out :
  NoDup (done ++ dbs.*1) -> progress done s w ->
  for_each dbs w (suggest_database ctx cooled standingKeys weights) s = (s', out) ->
  exists committed rest w', dbs.*1 = committed ++ rest /\ progress (done ++ committed) s' w' /\
    match out with inl _ => rest <> [] | inr _ => rest = [] end.
Proof.
  revert done s w. induction dbs as [|[d collections] dbs IH]; intros done s w Hnd Hp.
  { intros [= <- <-]. exists [], [], w. by rewrite (app_nil_r done). }
  cbn [for_each]. unfold mbind, pass_bind. csimpl in Hnd.
  destruct (suggest_database _ _ _ _ w (d, collections) s) as [s1 out1] eqn:E1.
  assert (Hd : d ∉ done) by (apply NoDup_app in Hnd as (_ & Hd & _); set_solver).
  pose proof (progress_database done d collections s w s1 out1 Hd Hp E1) as Hs1.
  destruct out1 as [e|w1].
  - intros [= <- <-]. subst s1. exists [], (d :: dbs.*1), w. by rewrite (app_nil_r done).
  - intros E. change (done ++ d :: dbs.*1) with (done ++ [d] ++ dbs.*1) in Hnd. rewrite app_assoc in Hnd.
    destruct (IH _ _ _ Hnd Hs1 E) as (committed & rest & w' & Edb & Hp' & Hout).
    exists (d :: committed), rest, w'. rewrite <- app_assoc in Hp'. csimpl. by rewrite Edb.
Qed.

Lemma list_databases_reads s : live s = live s0 ->
  (list_databases ctx s).1 = s /\ forall dbs, (list_databases ctx s).2 = inr dbs -> NoDup dbs.*1.
Proof.
  intros Hs. apply (reading_bind (live s0) (fun _ => True) (fun dbs => NoDup dbs.*1)); [by apply reading_read| |done].
  intros names _. apply (reading_for_each (live s0) (fun _ dbs => NoDup dbs.*1)); [by constructor|].
  intros _ dbs d _ Hn. eapply reading_bind; [by apply (reading_read _ (fun _ => True))|].
  intros [collections|] _; apply reading_ret; [|done]. rewrite map_put_keys. case_bool_decide as E; [by rewrite app_nil_r|].
  apply NoDup_app. split_and!; [done|set_solver|apply NoDup_singleton].
Qed.
End whole.

(** ** The pass as a whole *)

Section run.
Context {Live : Type} `{EngineSession Live, WorkloadPorts Live, Locale}.

(** What a cooled or a standing index is, for the store a pass starts from. *)
Definition sx_cooled (ctx : SuggestContext) (s : Store Live) : list string :=
  activeCooldownKeys (cooldowns s) (sx_now ctx).
Definition sx_standing (s : Store Live) : list string := standingRecommendationKeys (recs s) BUILD_TYPES WORKLOAD.

Definition analysis_on (ctx : SuggestContext) : Prop := p_workloadAnalysis <$> sx_policy ctx <> Some false.

Definition finished {A} (out : exn + A) : bool := match out with inl _ => false | inr _ => true end.

(** Either no database was listed and nothing was done, or the pass committed
    some of the databases, and all of them unless it threw. *)
Lemma suggest_run ctx (s s' : Store Live) out :
  analysis_on ctx -> suggestForCluster ctx s = (s', out) ->
  match (list_databases ctx s).2 with
  | inl e => s' = s /\ out = inl e
  | inr dbs =>
      exists committed rest new, dbs.*1 = committed ++ rest /\ live s' = live s /\
        recs s' = List.filter (fun r => negb (swept WORKLOAD r &&
                    (finished out || includes committed (rec_database r)))) (recs s) ++ new /\
        Forall (new_row ctx (sx_cooled ctx s) (sx_standing s) s committed) new /\
        (forall d c, within_budget (live s) (pendingBuildsByCollection (recs s)) d c
           (Z.of_nat (length (List.filter (built_on d c) new)))) /\
        match out with inl _ => rest <> [] | inr _ => rest = [] end
  end.
Proof.
  intros Hon. unfold suggestForCluster. rewrite bool_decide_false by done.
  unfold mbind at 1, pass_bind at 1, get. fold (sx_cooled ctx s). fold (sx_standing s).
  unfold suggest_databases, mbind at 1, pass_bind at 1.
  destruct (list_databases_reads ctx s s eq_refl) as [Es Hnd].
  destruct (list_databases ctx s) as [s1 [e|dbs]]; simpl in Es, Hnd |- *; subst s1; [by intros [= <- <-]|].
  specialize (Hnd dbs eq_refl).
  assert (H0' : progress ctx (sx_cooled ctx s) (sx_standing s) s [] s (first_work (recs s))).
  { split; [done|done|done|]. exists []. rewrite app_nil_r. split_and!; [|constructor|intros; by left].
    symmetry. apply filter_all. intros r _. unfold includes. by rewrite bool_decide_false, andb_false_r by apply not_elem_of_nil. }
  unfold mbind at 1, pass_bind at 1.
  destruct (for_each dbs _ _ s) as [s1 out1] eqn:E1.
  destruct (progress_loop _ _ _ _ s dbs [] s _ s1 out1 Hnd H0' E1) as (committed & rest & w' & Edb & [Hl Hb Hid (new & Hr & Hn & Hbud)] & Hout).
  simpl in Hr, Hn. destruct out1 as [e|w1].
  - intros [= <- <-]. by exists committed, rest, new.
  - intros E. injection E as <- <-. exists committed, rest, new. subst rest. rewrite app_nil_r in Edb.
    split_and!; try done; [by rewrite app_nil_r|]. simpl. rewrite Hr, List.filter_app, filter_filter_bool. f_equal.
    + apply filter_ext_bool. intros r _. rewrite Edb. destruct (swept WORKLOAD r); simpl; [|done].
      by destruct (includes committed (rec_database r)).
    + apply filter_all. intros r Hin. rewrite list.Forall_forall in Hn. destruct (Hn r Hin) as (_ & Hc & _).
      rewrite Edb. apply includes_spec in Hc. by rewrite Hc, andb_false_r.
Qed.

Lemma suggest_off ctx (s : Store Live) :
  p_workloadAnalysis <$> sx_policy ctx = Some false -> (suggestForCluster ctx s).1 = s.
Proof. intros Hoff. unfold suggestForCluster. by rewrite bool_decide_true. Qed.

(** Every row a pass adds is one of its drafts. *)
Lemma suggest_new ctx (s : Store Live) x :
  x ∈ recs (suggestForCluster ctx s).1 -> x ∉ recs s ->
  exists draft, draft_ok ctx (sx_cooled ctx s) (sx_standing s) (live s) (pendingBuildsByCollection (recs s)) (rec_database x) draft /\
    x = draft_row draft (rec_id x).
Proof.
  intros Hx Hold. destruct (decide (p_workloadAnalysis <$> sx_policy ctx = Some false)) as [Hoff|Hon].
  { rewrite suggest_off in Hx by done. done. }
  destruct (suggestForCluster ctx s) as [s' out] eqn:E. simpl in Hx.
  pose proof (suggest_run ctx s s' out Hon E) as Hrun. destruct (list_databases ctx s).2 as [e|dbs].
  { destruct Hrun as [-> _]. done. }
  destruct Hrun as (committed & rest & new & _ & _ & Hr & Hn & _). rewrite Hr, elem_of_app, elem_of_filter_bool in Hx.
  destruct Hx as [[? _]|Hin]; [done|]. rewrite list.Forall_forall in Hn. apply (Hn x Hin).
Qed.

(** ** Theorems *)


(** The builds one pass approves by itself stay within the collection's
    budget: with the indexes already on it and the builds already pending when the
    pass began, they never make more than the ordinary number of indexes. *)
Theorem suggest_within_budget ctx (s : Store Live) d c :
  well_keyed s ->
  let builds := List.filter (fun r => built_on d c r && (nextId s <=? rec_id r)%nat)
                  (recs (suggestForCluster ctx s).1) in
  builds = [] \/ exists specs, listIndexes (live s) d c = inr specs /\
    Z.of_nat (length specs) + (pendingBuildsByCollection (recs s) !! scope_of d c ?? 0) +
      Z.of_nat (length builds) <= ORDINARY_COLLECTION_INDEXES.
Proof.
  intros [_ Hlt] builds. rewrite list.Forall_forall in Hlt.
  assert (Hnone : forall rows, (forall r, r ∈ rows -> r ∈ recs s) ->
    List.filter (fun r => built_on d c r && (nextId s <=? rec_id r)%nat) rows = []).
  { intros rows Hsub. apply filter_nothing. intros r Hr. apply Hsub, Hlt in Hr.
    destruct (Nat.leb_spec (nextId s) (rec_id r)); [lia|]. apply andb_false_r. }
  destruct (decide (p_workloadAnalysis <$> sx_policy ctx = Some false)) as [Hoff|Hon].
  { left. unfold builds. rewrite suggest_off by done. by apply Hnone. }
  unfold builds. destruct (suggestForCluster ctx s) as [s' out] eqn:E. simpl.
  pose proof (suggest_run ctx s s' out Hon E) as Hrun. destruct (list_databases ctx s).2 as [e|dbs].
  { destruct Hrun as [-> _]. left. by apply Hnone. }
  destruct Hrun as (committed & rest & new & _ & _ & Hr & Hn & Hbud & _).
  rewrite Hr, List.filter_app, Hnone by (intros r [? _]%elem_of_filter_bool; done). simpl.
  rewrite (filter_ext_bool _ (built_on d c)).
  - destruct (Hbud d c) as [Hz|Hb]; [left; by apply length_zero_iff_nil, Nat2Z.inj|by right].
  - intros r Hin. rewrite list.Forall_forall in Hn. destruct (Hn r Hin) as [Hid _].
    apply Nat.leb_le in Hid. by rewrite Hid, andb_true_r.
Qed.

(** A suggest pass replaces its own proposals and nobody else's, database by
    database: of the rows there were, one that finishes deletes exactly its own
    earlier proposals; one that throws has replaced those of the databases it had
    committed and left every other row as it was; one that cannot list the
    databases, or is turned off, changes nothing. *)
Theorem suggest_commits_by_database ctx (s s' : Store Live) out x :
  well_keyed s -> x ∈ recs s -> analysis_on ctx -> suggestForCluster ctx s = (s', out) ->
  match (list_databases ctx s).2 with
  | inl _ => s' = s
  | inr dbs =>
      exists committed rest, dbs.*1 = committed ++ rest /\
        match out with
        | inl _ => rest <> [] /\
            (x ∈ recs s' <-> ~ (state x = PROPOSED /\ f_source (finding x) = WORKLOAD /\ rec_database x ∈ committed))
        | inr _ => rest = [] /\ (x ∈ recs s' <-> ~ (state x = PROPOSED /\ f_source (finding x) = WORKLOAD))
        end
  end.
Proof.
  intros [_ Hlt] Hx Hon E. pose proof (suggest_run ctx s s' out Hon E) as Hrun.
  destruct (list_databases ctx s).2 as [e|dbs]; [by destruct Hrun|].
  destruct Hrun as (committed & rest & new & Edb & _ & Hr & Hn & _ & Hout). exists committed, rest. split; [done|].
  assert (Hnew : x ∉ new).
  { intros Hin. rewrite list.Forall_forall in Hlt, Hn. specialize (Hlt x Hx). destruct (Hn x Hin) as [Hid _]. lia. }
  assert (Hiff : x ∈ recs s' <-> ~ (swept WORKLOAD x = true /\ finished out || includes committed (rec_database x) = true)).
  { rewrite Hr, elem_of_app, elem_of_filter_bool, negb_true_iff, <- not_true_iff_false, andb_true_iff. naive_solver. }
  unfold swept in Hiff. rewrite andb_true_iff, !bool_decide_eq_true in Hiff.
  destruct out; (split; [done|]); rewrite Hiff; simpl; rewrite ?includes_spec; naive_solver.
Qed.

(** Every scanning shape a suggest pass reads is accounted for: when a
    database is done, each scanning shape the workload reported for one of its
    eligible collections has a row in the table, seen now, and a row that says an
    index was proposed names an index there is a live or filed row for. *)
Theorem suggest_accounts_for_shapes ctx cooled standingKeys weights w d collections (s s' : Store Live) w' c docs shape :
  drafts w = [] -> lookupWants w = [] -> ledger w = [] ->
  suggest_database ctx cooled standingKeys weights w (d, collections) s = (s', inr w') ->
  c ∈ collections -> eligible_docs ctx (live s) d c = Some docs -> isScanning shape = true ->
  exists workload, collectWorkload (live s) ((fun '(c, _) => (d, c)) <$> eligible_in ctx (live s) d collections) = inr workload /\
  (shape ∈ workload !! workloadKey d c ?? [] ->
   exists row, row ∈ shapes s' /\ ps_key (sr_reading row) = (d, c, storedShapeOf shape) /\ sr_lastSeenAt row = sx_now ctx /\
     (ps_outcome (sr_reading row) = proposed -> exists r, r ∈ recs s' /\ rec_database r = d /\ rec_collection r = c /\
        ps_proposedIndex (sr_reading row) = Some (rec_indexName r))).
Proof.
  intros Hd Hk Hl E Hc Hel Hscan.
  assert (Hb : between (pendingBuilds w) w) by done.
  pose proof (suggest_database_run ctx cooled standingKeys weights (live s) _ d w collections s s' (inr w') eq_refl Hb E)
    as (_ & batch & workload & Ew & [W1 _ _ _ W5 W6 W7] & Es).
  exists workload. split; [done|]. intros Hsh.
  assert (Hkey : (d, c, storedShapeOf shape) ∈ ps_key <$> ledger batch).
  { apply W7. apply list_elem_of_bind. exists (c, docs). split.
    - unfold shape_keys. simpl. apply list_elem_of_fmap. exists shape. split; [done|]. by apply elem_of_filter_bool.
    - apply list_elem_of_omap. exists c. split; [done|]. by rewrite Hel. }
  apply list_elem_of_fmap in Hkey as (p & Ep & Hp). rewrite list.Forall_forall in W5. destruct (W5 p Hp) as [_ Hback].
  destruct (commit_run ctx d batch s) as (s1 & w1 & new & filed & Ec & _ & _ & _ & _ & _ & _ & _ & Hsh1 & _ & _ & _ & _ & Hfiled).
  rewrite Ec in Es. simpl in Es. subst s1.
  destruct (flush_written (sx_now ctx) (ledger batch) (shapes s) p W6 Hp) as (row & Hrow & Er & Hseen).
  exists row. rewrite Hsh1, Er. split_and!; [done|done|done|]. intros Hprop.
  destruct (Hback Hprop) as (x & Hx & Hxc & Hxn). destruct (Hfiled x Hx) as (r & Hr & Hrd & Hrc & Hrn).
  rewrite list.Forall_forall in W1. destruct (W1 x Hx) as [_ Hdb _ _ _ _]. injection Ep as Epd Epc _.
  exists r. split_and!; [done|congruence|congruence|congruence].
Qed.
End run.

(** ** What the rows of a pass keep *)

Section suggest_keeps.
Context {Live : Type} `{EngineSession Live, WorkloadPorts Live, Locale}.

Lemma suggest_live ctx (s : Store Live) : live (suggestForCluster ctx s).1 = live s.
Proof.
  destruct (decide (p_workloadAnalysis <$> sx_policy ctx = Some false)) as [Hoff|Hon]; [by rewrite suggest_off|].
  destruct (suggestForCluster ctx s) as [s' out] eqn:E. pose proof (suggest_run ctx s s' out Hon E) as Hrun.
  destruct (list_databases ctx s).2; [by destruct Hrun as [-> _]|]. by destruct Hrun as (? & ? & ? & _ & Hl & _).
Qed.

Lemma suggest_keeps ctx (s : Store Live) x :
  x ∈ recs s -> state x <> PROPOSED -> x ∈ recs (suggestForCluster ctx s).1.
Proof.
  intros Hx Hs. destruct (decide (p_workloadAnalysis <$> sx_policy ctx = Some false)) as [Hoff|Hon]; [by rewrite suggest_off|].
  destruct (suggestForCluster ctx s) as [s' out] eqn:E. pose proof (suggest_run ctx s s' out Hon E) as Hrun.
  destruct (list_databases ctx s).2; [by destruct Hrun as [-> _]|].
  destruct Hrun as (? & ? & ? & _ & _ & Hr & _). simpl. rewrite Hr, elem_of_app, elem_of_filter_bool. left.
  unfold swept. by rewrite (bool_decide_false (state x = PROPOSED)).
Qed.
End suggest_keeps.

(** ** On a shop that scans *)

#[local] Instance by_code_point : Locale := String.leb.

Definition scan_c : QueryShape :=
  {| equality := ["c"]; sort := []; range := []; collscan := true; sortedInMemory := None; count := 40;
     docsExamined := Some 4000000; observedForHours := Some 168%Q; clients := None; constants := None; lookups := None |}.
Definition three_indexes : Memory :=
  with_indexes shop "shop" "orders"
    [ascending_index "_id_" ["_id"]; ascending_index "a_1" ["a"]; ascending_index "b_1" ["b"]].
#[local] Instance scanned_orders : WorkloadPorts Memory := {|
  listDatabaseNames _ := inr ["shop"];
  listCollectionNames _ _ := inr (Some ["orders"]);
  collectDeletePatterns _ _ _ := inr [];
  collectionStorage _ _ _ := inr {| dataSizeBytes := 1000000; docCount := 100000 |};
  indexSizes _ _ _ := inr ∅;
  collectWorkload _ _ := inr {[ workloadKey "shop" "orders" := [scan_c] ]};
|}.
Definition suggest_policy (instant : bool) : Policy :=
  {| p_workloadAnalysis := true; maxCollectionSizeBytes := None; observeWindowDays := 30; p_autoApplyScore := None;
     p_instantCreate := instant; changeWindowStartHour := None; changeWindowEndHour := None;
     inferredWindowStartHour := None; inferredWindowEndHour := None; inferredWindowReason := None |}.
Definition shop_suggest (instant : bool) : SuggestContext :=
  {| sx_policy := Some (suggest_policy instant); sx_plan := PRO; sx_engine := MONGODB; sx_readOnly := false;
     sx_canPartial := true; sx_nameIndex _ keys partial := keyedIndexName keys partial; sx_observed := None;
     sx_now := 0 |}.
(** One pass over a store, and the one row it leaves. *)
Definition suggested (instant : bool) (s : Store Memory) : Store Memory := (suggestForCluster (shop_suggest instant) s).1.
Definition scanned_shop : Store Memory := shop_store [] three_indexes.
Definition only_row (s : Store Memory) : option (string * RecommendationState * Z) :=
  match recs s with [r] => Some (rec_indexName r, state r, f_score (finding r)) | _ => None end.

(** A proposal is charged for itself.  The builds pending on a collection are
    counted before the pass deletes its own earlier proposals, so those count too:
    on the same shop with the same workload, the build a first pass proposes at 89
    is proposed at 79 by the next, as one index more than there would be; and the
    build a pass would have approved by itself is held back once an earlier pass
    has proposed it. *)
Theorem suggest_charges_its_own_proposal :
  only_row (suggested false scanned_shop) = Some ("c_1"%string, PROPOSED, 89) /\
  only_row (suggested false (suggested false scanned_shop)) = Some ("c_1"%string, PROPOSED, 79) /\
  only_row (suggested true scanned_shop) = Some ("c_1"%string, APPROVED, 89) /\
  only_row (suggested true (suggested false scanned_shop)) = Some ("c_1"%string, PROPOSED, 79).
Proof. vm_compute. auto. Qed.

Definition built_row : Recommendation :=
  match recs (suggested true scanned_shop) with r :: _ => r | [] => shop_row PROPOSED no_hide end.


Lemma suggest_within_budget_witness :
  let builds := List.filter (fun r => built_on "shop" "orders" r && (1 <=? rec_id r)%nat)
                  (recs (suggested true scanned_shop)) in
  builds = [] \/ exists specs, listIndexes three_indexes "shop" "orders" = inr specs /\
    Z.of_nat (length specs) + (pendingBuildsByCollection [] !! scope_of "shop" "orders" ?? 0) +
      Z.of_nat (length builds) <= ORDINARY_COLLECTION_INDEXES.
Proof.
  apply (suggest_within_budget (shop_suggest true) scanned_shop "shop" "orders"). split; [constructor|constructor].
Defined.

Lemma suggest_commits_by_database_witness :
  shop_retired ∈ recs (suggested true (shop_store [shop_retired] three_indexes)).
Proof.
  pose proof (suggest_commits_by_database (shop_suggest true) (shop_store [shop_retired] three_indexes)
    (suggested true (shop_store [shop_retired] three_indexes)) (inr (1, 1)) shop_retired) as Hd.
  assert (E : (list_databases (shop_suggest true) (shop_store [shop_retired] three_indexes)).2 =
    inr [("shop"%string, ["orders"%string])]) by (vm_compute; reflexivity).
  rewrite E in Hd. destruct Hd as (committed & rest & _ & _ & Hiff).
  - split; [apply NoDup_singleton|repeat constructor].
  - left.
  - discriminate.
  - vm_compute. reflexivity.
  - apply Hiff. intros [_ Hs]. discriminate Hs.
Defined.

Lemma suggest_accounts_for_shapes_witness : exists row,
  row ∈ shapes (suggest_database (shop_suggest true) [] [] ∅ (first_work []) ("shop"%string, ["orders"]) scanned_shop).1 /\
  ps_key (sr_reading row) = ("shop"%string, "orders"%string, storedShapeOf scan_c).
Proof.
  destruct (suggest_database (shop_suggest true) [] [] ∅ (first_work []) ("shop"%string, ["orders"]) scanned_shop)
    as [s' [e|w']] eqn:E; [vm_compute in E; discriminate E|].
  destruct (suggest_accounts_for_shapes (shop_suggest true) [] [] ∅ (first_work []) "shop" ["orders"] scanned_shop s' w'
    "orders" 100000 scan_c) as (workload & Hw & Hrow); try reflexivity; [exact E|left|].
  destruct Hrow as (row & Hr & Hk & _); [|by exists row]. injection Hw as <-. vm_compute. left.
Defined.
