(* ===== verification/Finalize.v ===== *)
(** Hidden drops are finished or given back; new builds graduate or are rolled
    back.  Models [apps/api/src/jobs/finalize.ts] and [noteOwnOutages] of
    [apps/api/src/jobs/observation-ledger.ts].  The release of the profilers a
    read-only cluster still has is [FailureWatch.releaseFailureWatches]. *)
From S2P Require Import Prelude EngineTypes Runs Score Latency Observed Observe Regression Failures.
From S2P Require Import Preflight Cooldowns Failures Store Plans Policy FailureWatch Memory Apply.

(** ** Constants and context *)

Definition OBSERVED_FACTOR : Q := 3 # 2.
Definition OBSERVED_MIN_OPS : Z := 20.
Definition CUMULATIVE_REGRESSION_OPTIONS : RegressionOptions :=
  {| ro_factor := 13 # 10; ro_minWindowOps := 20 |}.
Definition SUPERSEDED_SCORE : Z := 55.

Definition WATCHED_TYPES : list RecommendationType := [CREATE; UPDATE; MERGE; REORDER].

Record FinalizeContext := {
  fc_policy : option Policy;
  fc_readOnly : bool;
  fc_canHide : bool;
  fc_observed : option (list string);
  fc_outages : list OwnOutage;
  fc_latency : string -> string -> list LatencyReading;
  fc_now : Z;
}.

Definition policy_days (ctx : FinalizeContext) : Z := observeWindowDays (fc_policy ctx ?? default_policy).
Definition windowOpen (ctx : FinalizeContext) : bool :=
  window_open (fc_policy ctx ?? default_policy) (fc_now ctx).

(** The stored readings of a collection last seen at or after an instant. *)
Definition collectionLatencyHistory (ctx : FinalizeContext) (r : Recommendation) (since : Z)
    : list LatencyReading :=
  List.filter (fun reading => since <=? end_ms reading) (fc_latency ctx (rec_database r) (rec_collection r)).

(** Did [metric] slow down since [fromMs], [days] of it observed? *)
Definition observed_since (ctx : FinalizeContext) (r : Recommendation) (metric : LatencyMetric)
    (fromMs days baseOps baseMicros : Z) : ObservedWindow :=
  observedWindow (collectionLatencyHistory ctx r (fromMs - days * DAY_MS)) metric fromMs days
    {| factor := OBSERVED_FACTOR; minWindowOps := OBSERVED_MIN_OPS;
       recordedBaselineMicrosPerOp :=
         if 0 <? baseOps then Some (inject_Z baseMicros / inject_Z baseOps)%Q else None;
       opt_ownOutages := Some (fc_outages ctx) |}.

Definition undecided (w : ObservedWindow) : bool :=
  match verdict w with V_INCOMPLETE | V_NO_BASELINE => true | _ => false end.

Definition outstayed (ctx : FinalizeContext) (fromMs days : Z) : bool :=
  outstayedWindow fromMs days (fc_now ctx) (ownOutageMs (fc_outages ctx) fromMs (fc_now ctx)).

Definition measured_text (w : ObservedWindow) (days : Z) : string :=
  "only " +:+ show (Math_round (inject_Z (observedMs w) / inject_Z DAY_MS)) +:+ " of " +:+ show days +:+
  " days could be measured in " +:+ show OBSERVE_WALLCLOCK_MULTIPLE +:+ "× the window".

Definition rec_target (r : Recommendation) : CooldownTarget :=
  {| cd_database := rec_database r; cd_collection := rec_collection r; cd_indexName := rec_indexName r |}.

(** ** The trail of our own outages *)

Definition NOT_WATCHED : string := "not watched:".
Definition notWatchedLine (outage : OwnOutage) (chargedMs : Z) : string :=
  NOT_WATCHED +:+ " Indexterity itself was not running from " +:+ utcMinute (fromMs outage) +:+ " to " +:+
  utcMinute (toMs outage) +:+ ", so that stretch is not counted as observation, and the " +:+
  "observe window moves out by " +:+ span chargedMs.

(** The lines one hidden row's window calls for. *)
Definition outage_lines (outages : list OwnOutage) (now : Z) (r : Recommendation) : list string :=
  match hiddenAt (hide_columns r) with
  | None => []
  | Some from =>
      (fun outage => notWatchedLine outage (ownOutageMs [outage] from (toMs outage))) <$>
      List.filter (fun outage => (from <? toMs outage) && (fromMs outage <? now)) outages
  end.

Section finalize.
Context {Live : Type} `{EngineSession Live}.

Definition note_outage (said : list Action) (id : nat) (_ : unit) (line : string) : pass Live unit :=
  if existsb (fun a => (act_rec a =? id)%nat && String.eqb (act_result a) line) said then mret tt
  else insert_action id HIDE line None.

Definition noteOwnOutages (hidden : list Recommendation) (outages : list OwnOutage) (now : Z)
    : pass Live unit :=
  s ← get;
  for_each hidden tt (fun _ r =>
    for_each (outage_lines outages now r) tt (note_outage (actions s) (rec_id r))).

(** ** Graduation *)

Definition already_claimed (d c n : string) (r : Recommendation) : bool :=
  String.eqb (rec_database r) d && String.eqb (rec_collection r) c && String.eqb (rec_indexName r) n &&
  bool_decide (state r ∈ [PROPOSED; APPROVED; HIDDEN]).

Definition retire_rationale (r : Recommendation) : string :=
  if bool_decide (rec_type r = REORDER)
  then "Superseded by " +:+ rec_indexName r +:+ ", which carries the same keys in the same order with " +:+
       "the directions the workload needs, and the same options — including the unique " +:+
       "constraint, which it has been enforcing alongside this one since it was built. It " +:+
       "has now survived its post-build watch, so this one is no longer doing anything the " +:+
       "replacement is not."
  else "Superseded by " +:+ rec_indexName r +:+ ", which has now survived its post-build watch.".

Definition retirement_row (r : Recommendation) (n : string) (id : nat) : Recommendation :=
  {| rec_id := id;
     finding :=
       {| f_type := DROP_REDUNDANT; f_source := RETIRE; f_usageClass := None; f_database := rec_database r;
          f_collection := rec_collection r; f_indexName := n; f_score := SUPERSEDED_SCORE;
          f_evidenceDays := None; f_estimatedBytesSaved := 0; f_urgent := false;
          f_targetSpec :=
            if bool_decide (rec_type r = REORDER)
            then Some {| ts_keys := []; ts_retire := []; ts_partial := None; ts_options := None;
                         ts_supersededBy := Some (rec_indexName r) |}
            else None |};
     state := PROPOSED; rationale := retire_rationale r; hide_columns := no_hide;
     build_columns := no_build |}.

Definition retire_one (r : Recommendation) (_ : unit) (n : string) : pass Live unit :=
  let d := rec_database r in
  let c := rec_collection r in
  s ← get;
  if existsb (already_claimed d c n) (recs s) then mret tt
  else
    landed ← insert_rec (retirement_row r n);
    if (landed : bool)
    then insert_action (rec_id r) BUILD_ACTION ("graduated; proposed retiring " +:+ n) None
    else mret tt.

Definition retireSuperseded (r : Recommendation) : pass Live unit :=
  match f_targetSpec (finding r) with
  | None => mret tt
  | Some target => for_each (ts_retire target) tt (retire_one r)
  end.

(** What the write watch carries from row to row: the collections it reported,
    and the databases whose live writes it read. *)
Record WatchLoop := {
  reported : list string;
  read_tables : gmap string (exn + list (string * LatencySample));
}.

Definition from_sum {A} (v : exn + A) : pass Live A := fun s => (s, v).

Definition liveWritesOf (loop : WatchLoop) (d c : string) : pass Live (WatchLoop * LatencySample) :=
  match latencyByCollection with
  | None => w ← read (fun l => collectionWrites l d c); mret (loop, w)
  | Some tablesOf =>
      s ← get;
      let tables := read_tables loop !! d ?? tablesOf (live s) d in
      let loop' := {| reported := reported loop; read_tables := <[d := tables]> (read_tables loop) |} in
      rows ← from_sum tables;
      mret (loop', (snd <$> List.find (fun '(k, _) => String.eqb k c) rows) ??
                   {| ls_ops := 0; ls_latencyMicros := 0 |})
  end.

Definition build_baseline (r : Recommendation) : option BuildBaseline :=
  match bc_builtAt (build_columns r), baselineWriteOps (build_columns r),
        baselineWriteLatency (build_columns r) with
  | Some t, Some o, Some m => Some {| builtAt := t; bb_baseline := {| ls_ops := o; ls_latencyMicros := m |} |}
  | _, _, _ => None
  end.

Definition same_collection (a b : Recommendation) : bool :=
  String.eqb (rec_database a) (rec_database b) && String.eqb (rec_collection a) (rec_collection b).

Definition judgeCumulative (ctx : FinalizeContext) (watched : list Recommendation) (loop : WatchLoop)
    (r : Recommendation) : pass Live WatchLoop :=
  let ns := namespace_of r in
  if includes (reported loop) ns then mret loop
  else
    let chain := omap build_baseline (List.filter (fun row => same_collection row r) watched) in
    match oldestLiveBaseline chain with
    | None => mret loop
    | Some oldest =>
        if bc_builtAt (build_columns r) ?? 0 <=? builtAt oldest then mret loop
        else
          out ← liveWritesOf loop (rec_database r) (rec_collection r);
          let '(loop, writes) := out in
          let loop := {| reported := ns :: reported loop; read_tables := read_tables loop |} in
          match evaluateRegression (bb_baseline oldest) writes CUMULATIVE_REGRESSION_OPTIONS with
          | REGRESSED =>
              let slower :=
                match latencyRatio (bb_baseline oldest) writes
                        (ro_minWindowOps CUMULATIVE_REGRESSION_OPTIONS) with
                | None => "measurably"
                | Some ratio => show (Math_round ((ratio - 1) * 100)) +:+ "%"
                end in
              let why := "writes " +:+ slower +:+ " slower than before the run of builds that began " +:+
                         iso_day (builtAt oldest) in
              until ← park {| cd_database := rec_database r; cd_collection := rec_collection r;
                              cd_indexName := WHOLE_COLLECTION |} (policy_days ctx) why (fc_now ctx);
              insert_action (rec_id r) BUILD_ACTION
                ("graduated, but " +:+ why +:+ " — " +:+ ns +:+ " will not be built on unattended until " +:+
                 iso_day until) None;;
              mret loop
          | _ => mret loop
          end
    end.

(** One built index under its write watch. *)
Definition watch_one (ctx : FinalizeContext) (watched : list Recommendation) (loop : WatchLoop)
    (r : Recommendation) : pass Live WatchLoop :=
  if negb (inScope (fc_observed ctx) (rec_database r)) then mret loop
  else
    match build_baseline r with
    | None => mret loop
    | Some b =>
        let days := policy_days ctx in
        let observed := observed_since ctx r Write (builtAt b) days (ls_ops (bb_baseline b))
                          (ls_latencyMicros (bb_baseline b)) in
        if undecided observed && negb (outstayed ctx (builtAt b) days) then mret loop
        else
          (if undecided observed
           then insert_action (rec_id r) BUILD_ACTION
                  ("write watch cut short: " +:+ measured_text observed days) None
           else mret tt);;
          match verdict observed with
          | V_REGRESSED =>
              write (fun l => drop_index l (rec_database r) (rec_collection r) (rec_indexName r));;
              until ← park (rec_target r) days "write-latency regression after build" (fc_now ctx);
              update_rec (rec_id r) (fun row => set_state ROLLED_BACK (set_rationale
                (rationale r +:+ " — rolled back: write-latency regression; cooling down until " +:+
                 iso_day until) row));;
              insert_action (rec_id r) DROP
                ("rolled back + cooldown until " +:+ iso_day until +:+
                 ": write-latency regression after build") None;;
              mret loop
          | _ =>
              loop ← judgeCumulative ctx watched loop r;
              update_rec (rec_id r) (fun row => set_build
                {| bc_builtAt := bc_builtAt (build_columns row); baselineWriteOps := None;
                   baselineWriteLatency := None |} row);;
              retireSuperseded r;;
              mret loop
          end
    end.

(** ** Hidden drops *)

Record Dropped := { dropped : Z; freed : Z }.

Definition un_hide (r : Recommendation) : pass Live unit :=
  write (fun l => unhide l (rec_database r) (rec_collection r) (rec_indexName r)).

(** Un-hidden, and the row back to PROPOSED with its [hiddenAt] cleared. *)
Definition propose_again (r : Recommendation) : pass Live unit :=
  update_rec (rec_id r) (fun row => set_state PROPOSED (set_hide (clear_hiddenAt (hide_columns row)) row)).

Definition out_of_scope (ctx : FinalizeContext) (r : Recommendation) : pass Live unit :=
  restored ← (if fc_canHide ctx && is_some (hiddenAt (hide_columns r))
              then try_catch (un_hide r;; mret "un-hidden")
                     (fun e => mret ("could not un-hide (" +:+ messageOf e +:+ ")"))
              else mret "un-hidden");
  propose_again r;;
  insert_action (rec_id r) DROP
    ("aborted + " +:+ restored +:+ ": " +:+ rec_database r +:+ " is no longer an observed database") None.

(** A regression while hidden: the index comes back and is left alone a while. *)
Definition reject (ctx : FinalizeContext) (r : Recommendation) (cooldown : string)
    (because result : string -> string) : pass Live unit :=
  un_hide r;;
  until ← park (rec_target r) (policy_days ctx) cooldown (fc_now ctx);
  let day := iso_day until in
  update_rec (rec_id r) (fun row => set_state REJECTED (set_rationale
    (rationale r +:+ " — auto-rejected: " +:+ because day)
    (set_hide (clear_hiddenAt (hide_columns row)) row)));;
  insert_action (rec_id r) DROP (result day) None.

Definition failure_because (v : FailureVerdict) (day : string) : string :=
  (match v with
   | INTRODUCED_HINTED _ _ => "queries naming it in a hint failed while it was hidden"
   | _ => "queries began failing while it was hidden"
   end) +:+ "; cooling down until " +:+ day.

(** Outstayed its window unmeasured: un-hidden and proposed again from scratch. *)
Definition put_back (r : Recommendation) (observed : ObservedWindow) (days : Z) : pass Live unit :=
  un_hide r;;
  update_rec (rec_id r) (fun row => set_state PROPOSED (set_hide
    {| hiddenAt := None; observeDays := None; observeReason := None; baselineReadOps := None;
       baselineReadLatency := None; baselineFailedOps := baselineFailedOps (hide_columns row);
       baselineFailedReachMs := baselineFailedReachMs (hide_columns row) |} row));;
  insert_action (rec_id r) HIDE ("aborted + un-hidden: " +:+ measured_text observed days) None.

Definition not_asked (canHide : bool) : FailureVerdict :=
  UNAVAILABLE (if canHide then "no baseline was taken when the index was hidden"
               else "nothing was hidden, so no query could fail for want of the index").

(** The elective half: the change window, the pre-flight, the drop. *)
Definition drop_elective (ctx : FinalizeContext) (acc : Dropped) (r : Recommendation)
    (failures : FailureVerdict) : pass Live Dropped :=
  if negb (windowOpen ctx) then mret acc
  else
    check ← preflightLive r;
    if negb (safe check) then
      match pf_spec check with
      | Some _ =>
          (if fc_canHide ctx then un_hide r else mret tt);;
          propose_again r;;
          insert_action (rec_id r) DROP ("aborted + un-hidden: " +:+ pf_reason check) None;;
          mret acc
      | None =>
          update_rec (rec_id r) (set_state DROPPED);;
          insert_action (rec_id r) DROP "index already absent" None;;
          mret acc
      end
    else
      write (fun l => drop_index l (rec_database r) (rec_collection r) (rec_indexName r));;
      update_rec (rec_id r) (set_state DROPPED);;
      insert_action (rec_id r) DROP ("ok — " +:+ describeFailures failures) (spec_token <$> pf_spec check);;
      insert_roi {| roi_rec := Some (rec_id r); freedBytes := f_estimatedBytesSaved (finding r); indexCountDelta := 1 |};;
      mret {| dropped := dropped acc + 1; freed := freed acc + f_estimatedBytesSaved (finding r) |}.

(** The hide's own baseline, when the index was really hidden. *)
Definition read_baseline (r : Recommendation) : option (Z * Z * Z) :=
  match hiddenAt (hide_columns r), baselineReadOps (hide_columns r), baselineReadLatency (hide_columns r) with
  | Some t, Some o, Some m => Some (t, o, m)
  | _, _, _ => None
  end.

Definition days_of_row (ctx : FinalizeContext) (r : Recommendation) : Z :=
  observeDays (hide_columns r) ?? policy_days ctx.

(** [judgeFailures] on the row's own sample and a fresh reading. *)
Definition failures_since (r : Recommendation) (hiddenAtMs : Z) (reading : FailedOpsReading)
    : FailureVerdict :=
  judgeFailures
    ((fun failed => {| fs_failed := failed; reachMs := baselineFailedReachMs (hide_columns r) ?? 0 |}) <$>
      baselineFailedOps (hide_columns r)) reading hiddenAtMs.

(** The window an engine without a hide waits out, by the clock. *)
Definition clock_elapsed (ctx : FinalizeContext) (r : Recommendation) : bool :=
  match hiddenAt (hide_columns r) with
  | None => true
  | Some t =>
      negb (fc_now ctx - t - ownOutageMs (fc_outages ctx) t (fc_now ctx) <? days_of_row ctx r * DAY_MS)
  end.

Definition due_one (ctx : FinalizeContext) (acc : Dropped) (r : Recommendation) : pass Live Dropped :=
  if negb (inScope (fc_observed ctx) (rec_database r)) then out_of_scope ctx r;; mret acc
  else
    match read_baseline r with
    | Some (hiddenAtMs, baseOps, baseMicros) =>
        let days := days_of_row ctx r in
        reading ← read (fun l =>
          collectFailedOps l (rec_database r) (rec_collection r) hiddenAtMs (rec_indexName r));
        let failures := failures_since r hiddenAtMs reading in
        if introduced failures then
          reject ctx r (regressionReason failures) (failure_because failures)
            (fun day => "aborted + cooldown until " +:+ day +:+ ": " +:+ describeFailures failures);;
          mret acc
        else
          let observed := observed_since ctx r Read hiddenAtMs days baseOps baseMicros in
          if undecided observed && outstayed ctx hiddenAtMs days then put_back r observed days;; mret acc
          else if undecided observed then mret acc
          else
            match verdict observed with
            | V_REGRESSED =>
                reject ctx r "read-latency regression during observe"
                  (fun day => "read-latency regression; cooling down until " +:+ day)
                  (fun day => "aborted + cooldown until " +:+ day +:+ ": read-latency regression during observe");;
                mret acc
            | _ => drop_elective ctx acc r failures
            end
    | None =>
        if negb (clock_elapsed ctx r) then mret acc
        else drop_elective ctx acc r (not_asked (fc_canHide ctx))
    end.

(** ** The pass *)

Definition finalizeCluster (ctx : FinalizeContext) : pass Live Z :=
  s ← get;
  let due := List.filter (fun r => is_some (hiddenAt (hide_columns r))) (in_state HIDDEN s) in
  noteOwnOutages due (fc_outages ctx) (fc_now ctx);;
  let watched := List.filter (fun r => bool_decide (rec_type r ∈ WATCHED_TYPES)) (in_state ACTIVE s) in
  let listed := negb (bool_decide (watchTable s = ∅)) in
  if (length due =? 0)%nat && (length watched =? 0)%nat && negb listed then mret 0
  else if fc_readOnly ctx then try_catch releaseFailureWatches (fun _ => mret tt);; mret 0
  else
    watches ← keepFailureWatchesOrNone (fc_observed ctx) (fc_now ctx);
    withdrawn ← withdrawHinted watches;
    s ← get;
    noteWaitingDrops
      (List.filter (fun r => negb (bool_decide (rec_id r ∈ withdrawn)) &&
         inScope (fc_observed ctx) (rec_database r)) (in_state APPROVED s))
      watches (fc_now ctx);;
    for_each watched {| reported := []; read_tables := ∅ |} (watch_one ctx watched);;
    acc ← for_each due {| dropped := 0; freed := 0 |} (due_one ctx);
    mret (dropped acc).
End finalize.

(** ** What one hidden row's turn comes to *)

Section due_effects.
Context {Live : Type} `{EngineSession Live}.

(** The gates before the elective half: errors, then latency; or the clock. *)
Definition observed_clear (ctx : FinalizeContext) (r : Recommendation) (l : Live) : Prop :=
  match read_baseline r with
  | Some (t, o, m) =>
      verdict (observed_since ctx r Read t (days_of_row ctx r) o m) = V_STABLE /\
      exists reading,
        collectFailedOps l (rec_database r) (rec_collection r) t (rec_indexName r) = inr reading /\
        introduced (failures_since r t reading) = false
  | None => clock_elapsed ctx r = true
  end.

Definition is_unhidden (r : Recommendation) (l l' : Live) : Prop :=
  unhide l (rec_database r) (rec_collection r) (rec_indexName r) = (l', inr tt).
Definition is_dropped (r : Recommendation) (l l' : Live) : Prop :=
  drop_index l (rec_database r) (rec_collection r) (rec_indexName r) = (l', inr tt).

(** The row given back: proposed again or rejected, no longer hidden. *)
Definition given_back (f : Recommendation -> Recommendation) : Prop :=
  (forall row, rec_id (f row) = rec_id row /\ finding (f row) = finding row) /\
  ((forall row, state (f row) = PROPOSED) \/ (forall row, state (f row) = REJECTED)).

Inductive due_effect (ctx : FinalizeContext) (r : Recommendation) (s s' : Store Live) : Prop :=
  | due_kept : recs s' = recs s -> live s' = live s -> due_effect ctx r s s'
  | due_unhide_failed e :
      unhide (live s) (rec_database r) (rec_collection r) (rec_indexName r) = (live s', inl e) ->
      due_effect ctx r s s'
  | due_back f :
      given_back f -> recs s' = update_where (rec_id r) f (recs s) -> is_unhidden r (live s) (live s') ->
      due_effect ctx r s s'
  | due_back_unhidden f :
      fc_canHide ctx = false \/ hiddenAt (hide_columns r) = None ->
      given_back f -> recs s' = update_where (rec_id r) f (recs s) -> live s' = live s ->
      due_effect ctx r s s'
  | due_absent check :
      (preflightLive r s).2 = inr check -> safe check = false -> pf_spec check = None ->
      recs s' = update_where (rec_id r) (set_state DROPPED) (recs s) -> live s' = live s ->
      due_effect ctx r s s'
  | due_dropped check text :
      inScope (fc_observed ctx) (rec_database r) = true -> observed_clear ctx r (live s) ->
      windowOpen ctx = true -> (preflightLive r s).2 = inr check -> safe check = true ->
      recs s' = update_where (rec_id r) (set_state DROPPED) (recs s) -> is_dropped r (live s) (live s') ->
      head (actions s') = Some {| act_rec := rec_id r; act_kind := DROP; act_result := text;
                                  rollbackToken := spec_token <$> pf_spec check |} ->
      head (roi s') = Some {| roi_rec := Some (rec_id r); freedBytes := f_estimatedBytesSaved (finding r);
                              indexCountDelta := 1 |} ->
      due_effect ctx r s s'
  | due_drop_failed e :
      drop_index (live s) (rec_database r) (rec_collection r) (rec_indexName r) = (live s', inl e) ->
      recs s' = recs s -> due_effect ctx r s s'.

Lemma reject_effect ctx r cooldown because result (s s' : Store Live) out :
  reject ctx r cooldown because result s = (s', out) -> due_effect ctx r s s'.
Proof.
  unfold reject, un_hide, mbind at 1, pass_bind at 1, write.
  destruct (unhide _ _ _ _) as [l [e|[]]] eqn:Eu.
  - intros [= <- <-]. eapply due_unhide_failed. exact Eu.
  - simpl. unfold mbind, pass_bind, park, recordRegression. cbn. intros [= <- <-].
    eapply due_back; [|reflexivity|exact Eu]. split; [done|by right].
Qed.

Lemma put_back_effect ctx r observed days (s s' : Store Live) out :
  put_back r observed days s = (s', out) -> due_effect ctx r s s'.
Proof.
  unfold put_back, un_hide, mbind at 1, pass_bind at 1, write.
  destruct (unhide _ _ _ _) as [l [e|[]]] eqn:Eu.
  - intros [= <- <-]. eapply due_unhide_failed. exact Eu.
  - cbn. intros [= <- <-]. eapply due_back; [|reflexivity|exact Eu]. split; [done|by left].
Qed.

Lemma out_of_scope_effect ctx r (s s' : Store Live) out :
  out_of_scope ctx r s = (s', out) -> due_effect ctx r s s'.
Proof.
  unfold out_of_scope, mbind at 1, pass_bind at 1.
  destruct (fc_canHide ctx && is_some (hiddenAt (hide_columns r))) eqn:Ec.
  - unfold try_catch, un_hide, mbind at 1, pass_bind at 1, write.
    destruct (unhide _ _ _ _) as [l [e|[]]] eqn:Eu; cbn; intros [= <- <-].
    + eapply due_unhide_failed. exact Eu.
    + eapply due_back; [|reflexivity|exact Eu]. split; [done|by left].
  - cbn. intros [= <- <-]. eapply due_back_unhidden; [| |reflexivity|done]; [|split; [done|by left]].
    apply andb_false_iff in Ec as [Ec|Ec]; [by left|right]. by destruct (hiddenAt _).
Qed.

Lemma drop_elective_effect ctx acc r failures (s s' : Store Live) out :
  inScope (fc_observed ctx) (rec_database r) = true -> observed_clear ctx r (live s) ->
  drop_elective ctx acc r failures s = (s', out) -> due_effect ctx r s s'.
Proof.
  intros Hsc Hob. unfold drop_elective. destruct (windowOpen ctx) eqn:Ew; simpl;
    [|intros [= <- <-]; by apply due_kept].
  unfold mbind at 1, pass_bind at 1. pose proof (preflightLive_store r s) as Hs.
  destruct (preflightLive r s) as [s0 [e|check]] eqn:Ep; simpl in Hs; subst s0;
    [intros [= <- <-]; by apply due_kept|].
  assert (Hp : (preflightLive r s).2 = inr check) by by rewrite Ep.
  destruct (safe check) eqn:Esafe; simpl.
  - unfold mbind at 1, pass_bind at 1, write.
    destruct (drop_index _ _ _ _) as [l [e|[]]] eqn:Ed; cbn; intros [= <- <-].
    + eapply due_drop_failed; [exact Ed|done].
    + by eapply due_dropped.
  - destruct (pf_spec check) eqn:Esp.
    + unfold mbind at 1, pass_bind at 1. destruct (fc_canHide ctx) eqn:Ec.
      * unfold un_hide, write. destruct (unhide _ _ _ _) as [l [e|[]]] eqn:Eu; cbn; intros [= <- <-].
        -- eapply due_unhide_failed. exact Eu.
        -- eapply due_back; [|reflexivity|exact Eu]. split; [done|by left].
      * cbn. intros [= <- <-]. eapply due_back_unhidden; [by left| |reflexivity|done]. split; [done|by left].
    + cbn. intros [= <- <-]. by eapply due_absent.
Qed.

Lemma bind_effect {A B} ctx r (m : pass Live A) (b : B) s s' out :
  (forall s' out, m s = (s', out) -> due_effect ctx r s s') ->
  (m ;; mret b) s = (s', out) -> due_effect ctx r s s'.
Proof.
  intros Hm. unfold mbind, pass_bind. destruct (m s) as [s1 [e|a]] eqn:E; intros [= <- <-]; by eapply Hm.
Qed.

Lemma due_one_effect ctx acc r (s s' : Store Live) out :
  due_one ctx acc r s = (s', out) -> due_effect ctx r s s'.
Proof.
  unfold due_one. destruct (inScope _ _) eqn:Esc; simpl.
  2: { apply bind_effect. intros. by eapply out_of_scope_effect. }
  assert (Hobs : observed_clear ctx r (live s) = observed_clear ctx r (live s)) by done.
  unfold observed_clear at 1 in Hobs.
  destruct (read_baseline r) as [[[t o] m]|] eqn:Eb.
  - unfold mbind at 1, pass_bind at 1, read.
    destruct (collectFailedOps _ _ _ _ _) as [e|reading] eqn:Ef; [intros [= <- <-]; by apply due_kept|].
    destruct (introduced _) eqn:Ei.
    { apply bind_effect. intros. by eapply reject_effect. }
    destruct (undecided _) eqn:Eu; simpl.
    { destruct (outstayed _ _ _); [|intros [= <- <-]; by apply due_kept].
      apply bind_effect. intros. by eapply put_back_effect. }
    destruct (verdict (observed_since _ _ _ _ _ _ _)) eqn:Ev;
      [apply bind_effect; intros; by eapply reject_effect| | |];
      try (unfold undecided in Eu; rewrite Ev in Eu; done).
    apply drop_elective_effect; [done|]. rewrite <- Hobs. split; [done|]. by exists reading.
  - destruct (clock_elapsed ctx r) eqn:Ec; simpl; [|intros [= <- <-]; by apply due_kept].
    apply drop_elective_effect; [done|]. by rewrite <- Hobs.
Qed.
End due_effects.

(** ** What one built index's turn comes to *)

Section watch_effects.
Context {Live : Type} `{EngineSession Live}.

(** Rows a pass added: proposals, under ids no row had. *)
Definition fresh_rows (s s' : Store Live) (new : list Recommendation) : Prop :=
  (nextId s <= nextId s')%nat /\ NoDup (rec_id <$> new) /\
  Forall (fun r => state r = PROPOSED /\ (nextId s <= rec_id r < nextId s')%nat) new.

Lemma fresh_none s s' : nextId s' = nextId s -> fresh_rows s s' [].
Proof. unfold fresh_rows. intros ->. split_and!; [done|constructor|constructor]. Qed.

Lemma liveWritesOf_effect loop d c (s s' : Store Live) out :
  liveWritesOf loop d c s = (s', out) -> s' = s.
Proof.
  unfold liveWritesOf, mbind, pass_bind, read, get, from_sum. destruct latencyByCollection as [tables|].
  - simpl. destruct (read_tables loop !! d ?? tables (live s) d); by intros [= <- <-].
  - destruct (collectionWrites _ _ _); by intros [= <- <-].
Qed.

Lemma judgeCumulative_effect ctx watched loop r (s s' : Store Live) out :
  judgeCumulative ctx watched loop r s = (s', out) ->
  recs s' = recs s /\ live s' = live s /\ nextId s' = nextId s.
Proof.
  unfold judgeCumulative. destruct (includes _ _); [by intros [= <- <-]|].
  destruct (oldestLiveBaseline _) as [oldest|]; [|by intros [= <- <-]].
  destruct (_ <=? _); [by intros [= <- <-]|].
  unfold mbind at 1, pass_bind at 1.
  destruct (liveWritesOf _ _ _ _) as [s1 [e|[loop' w]]] eqn:E; apply liveWritesOf_effect in E as ->;
    [by intros [= <- <-]|].
  destruct (evaluateRegression _ _ _); by intros [= <- <-].
Qed.

Lemma retire_one_effect r acc n (s s' : Store Live) out :
  retire_one r acc n s = (s', out) ->
  out = inr tt /\ live s' = live s /\ exists new, recs s' = recs s ++ new /\ fresh_rows s s' new.
Proof.
  unfold retire_one, mbind at 1, pass_bind at 1, get. destruct (existsb (already_claimed _ _ _) _).
  { intros [= <- <-]. split_and!; try done. exists []. rewrite app_nil_r. split; [done|by apply fresh_none]. }
  unfold mbind, pass_bind, insert_rec. destruct (existsb _ _); cbn; intros [= <- <-]; split_and!; try done.
  - exists []. rewrite app_nil_r. split; [done|by apply fresh_none].
  - eexists. split; [done|]. split_and!; simpl; [lia|apply NoDup_singleton|]. constructor; [|constructor].
    simpl. split; [done|lia].
Qed.

Lemma fresh_app s0 s1 s2 new1 new2 :
  fresh_rows s0 s1 new1 -> fresh_rows s1 s2 new2 -> fresh_rows s0 s2 (new1 ++ new2).
Proof.
  intros (H1 & N1 & F1) (H2 & N2 & F2). split_and!; [lia| |].
  - rewrite fmap_app. apply NoDup_app. split_and!; [done| |done].
    intros x (r1 & -> & Hr1)%list_elem_of_fmap (r2 & E & Hr2)%list_elem_of_fmap.
    rewrite list.Forall_forall in F1, F2. specialize (F1 _ Hr1). specialize (F2 _ Hr2). lia.
  - apply Forall_app. split; (eapply Forall_impl; [done|]); simpl; intros ? [? ?]; split; try done; lia.
Qed.

Lemma retireSuperseded_effect r (s s' : Store Live) out :
  retireSuperseded r s = (s', out) ->
  out = inr tt /\ live s' = live s /\ exists new, recs s' = recs s ++ new /\ fresh_rows s s' new.
Proof.
  assert (Hnone : live s = live s /\ exists new, recs s = recs s ++ new /\ fresh_rows s s new).
  { split; [done|]. exists []. rewrite app_nil_r. split; [done|by apply fresh_none]. }
  unfold retireSuperseded. destruct (f_targetSpec (finding r)) as [target|]; [|by intros [= <- <-]].
  pose proof (for_each_inv (retire_one r) (fun _ s1 => live s1 = live s /\
    exists new, recs s1 = recs s ++ new /\ fresh_rows s s1 new) (fun _ => False) (ts_retire target) tt s) as Hinv.
  destruct (for_each _ _ _ s) as [s1 out1]. intros [= <- <-].
  assert (Hi : match out1 with inr _ => live s1 = live s /\
    exists new, recs s1 = recs s ++ new /\ fresh_rows s s1 new | inl _ => False end).
  { destruct out1; apply Hinv; try done;
      (intros n rest [] s2 (Hl & new & Hr & Hf); destruct (retire_one r tt n s2) as [s3 o] eqn:E;
       apply retire_one_effect in E as (-> & Hl' & new' & Hr' & Hf'); split; [congruence|];
       exists (new ++ new'); rewrite Hr', Hr, app_assoc; split; [done|by eapply fresh_app]). }
  by destruct out1 as [|[]].
Qed.

(** What licenses the drop of an index the program built: it slowed writes. *)
Definition write_regressed (ctx : FinalizeContext) (r : Recommendation) : Prop :=
  inScope (fc_observed ctx) (rec_database r) = true /\
  exists b, build_baseline r = Some b /\
    verdict (observed_since ctx r Write (builtAt b) (policy_days ctx) (ls_ops (bb_baseline b))
      (ls_latencyMicros (bb_baseline b))) = V_REGRESSED.

(** A row changed in place, never into a hidden one. *)
Definition unhiding (f : Recommendation -> Recommendation) : Prop :=
  forall row, rec_id (f row) = rec_id row /\ finding (f row) = finding row /\
    (state row <> HIDDEN -> state (f row) <> HIDDEN).

Record watch_effect (ctx : FinalizeContext) (r : Recommendation) (s s' : Store Live) : Prop := {
  we_live :
    live s' = live s \/
    (write_regressed ctx r /\
     exists out, drop_index (live s) (rec_database r) (rec_collection r) (rec_indexName r) = (live s', out));
  we_recs : exists f new, unhiding f /\ recs s' = update_where (rec_id r) f (recs s) ++ new /\
    fresh_rows s s' new;
}.

Lemma update_where_id id rows : update_where id (fun row => row) rows = rows.
Proof. unfold update_where. rewrite <- (list_fmap_id rows) at 2. apply list_fmap_ext. intros _ r _. by destruct (_ =? _)%nat. Qed.

Lemma watch_same ctx r s s' :
  recs s' = recs s -> live s' = live s -> nextId s' = nextId s -> watch_effect ctx r s s'.
Proof.
  intros Hr Hl Hn. split; [by left|]. exists (fun row => row), []. rewrite update_where_id, app_nil_r.
  split_and!; [done|done|by apply fresh_none].
Qed.

Lemma graduate_effect ctx watched loop r (s s' : Store Live) out :
  (loop ← judgeCumulative ctx watched loop r;
   update_rec (rec_id r) (fun row => set_build
     {| bc_builtAt := bc_builtAt (build_columns row); baselineWriteOps := None;
        baselineWriteLatency := None |} row);;
   retireSuperseded r;;
   mret loop) s = (s', out) -> watch_effect ctx r s s'.
Proof.
  unfold mbind at 1, pass_bind at 1.
  destruct (judgeCumulative ctx watched loop r s) as [s1 [e|loop']] eqn:Ej;
    apply judgeCumulative_effect in Ej as (Hr & Hl & Hn); [intros [= <- <-]; by apply watch_same|].
  unfold mbind at 1, pass_bind at 1, update_rec, mbind, pass_bind.
  destruct (retireSuperseded r _) as [s2 out2] eqn:Er.
  apply retireSuperseded_effect in Er as (-> & Hl2 & new & Hr2 & Hf). intros [= <- <-]. simpl in Hl2, Hr2.
  split; [left; congruence|]. eexists _, new. rewrite Hr2, Hr. split_and!; [|reflexivity|].
  - done.
  - unfold fresh_rows in *. simpl in Hf. by rewrite <- Hn.
Qed.

Lemma watch_one_effect ctx watched loop r (s s' : Store Live) out :
  watch_one ctx watched loop r s = (s', out) -> watch_effect ctx r s s'.
Proof.
  unfold watch_one. destruct (inScope _ _) eqn:Esc; simpl; [|intros [= <- <-]; by apply watch_same].
  destruct (build_baseline r) as [b|] eqn:Eb; [|intros [= <- <-]; by apply watch_same].
  destruct (undecided _) eqn:Eu; simpl.
  - destruct (outstayed _ _ _); simpl; [|intros [= <- <-]; by apply watch_same].
    unfold mbind at 1, pass_bind at 1, insert_action at 1.
    destruct (verdict _) eqn:Ev; [unfold undecided in Eu; by rewrite Ev in Eu| | |];
      intros [Hl Hr]%graduate_effect; (split; [exact Hl|]); done.
  - unfold mbind at 1, pass_bind at 1. simpl.
    destruct (verdict _) eqn:Ev; [|by apply graduate_effect..].
    assert (Hw : write_regressed ctx r) by (split; [done|]; by exists b).
    unfold mbind at 1, pass_bind at 1, write.
    destruct (drop_index _ _ _ _) as [l [e|[]]] eqn:Ed.
    + intros [= <- <-]. split; [right; split; [done|]; eexists; exact Ed|].
      exists (fun row => row), []. simpl. rewrite update_where_id, app_nil_r. split_and!; [done|done|by apply fresh_none].
    + unfold mbind, pass_bind, park, recordRegression. cbn. intros [= <- <-].
      split; [right; split; [done|]; eexists; exact Ed|].
      eexists _, []. simpl. rewrite app_nil_r. split_and!; [|reflexivity|by apply fresh_none].
      done.
Qed.
End watch_effects.

Section finalize_pass.
Context {Live : Type} `{EngineSession Live}.

Lemma noteOwnOutages_effect hidden outages now (s : Store Live) :
  exists s', noteOwnOutages hidden outages now s = (s', inr tt) /\
    live s' = live s /\ recs s' = recs s /\ nextId s' = nextId s.
Proof.
  set (I := fun s' : Store Live => live s' = live s /\ recs s' = recs s /\ nextId s' = nextId s).
  unfold noteOwnOutages, mbind, pass_bind, get.
  assert (Hline : forall said id lines s1, I s1 ->
    match for_each lines tt (note_outage (Live := Live) said id) s1 with (s2, inr _) => I s2 | _ => False end).
  { intros said id lines s1 HI.
    apply (for_each_inv (note_outage said id) (fun _ => I) (fun _ => False)); [|done].
    intros line rest acc s2 HI2. unfold note_outage. by destruct (existsb _ _). }
  pose proof (for_each_inv (fun (_ : unit) r => for_each (outage_lines outages now r) tt
    (note_outage (Live := Live) (actions s) (rec_id r))) (fun _ => I) (fun _ => False) hidden tt s
    (fun r rest acc s1 HI => Hline (actions s) (rec_id r) (outage_lines outages now r) s1 HI)
    (conj eq_refl (conj eq_refl eq_refl))) as Hinv.
  destruct (for_each _ _ _ s) as [s' [e|[]]]; [done|]. by exists s'.
Qed.

(** Withdrawing approved rows leaves the hidden ones as they were. *)
Lemma withdrawHinted_keeps watches (s : Store Live) :
  NoDup (rec_id <$> recs s) -> forall x, x ∈ recs s -> state x = HIDDEN -> x ∈ recs (withdrawHinted watches s).1.
Proof. intros Hnd x Hx Hs. apply (row_withdraw x); [congruence|done]. Qed.

Definition due_rows (s : Store Live) : list Recommendation :=
  List.filter (fun r => is_some (hiddenAt (hide_columns r))) (in_state HIDDEN s).
Definition watched_rows (s : Store Live) : list Recommendation :=
  List.filter (fun r => bool_decide (rec_type r ∈ WATCHED_TYPES)) (in_state ACTIVE s).

Context (indexes : Live -> string -> string -> list IndexSpec) `{!SessionLaws Live indexes}.

(** The two loops, each by its invariant. *)
Lemma finalize_loops ctx watched due s (P : Store Live -> Prop)
    (J K : list Recommendation -> Store Live -> Prop) :
  J watched s -> (forall r rest s1 s2, J (r :: rest) s1 -> watch_effect ctx r s1 s2 -> J rest s2) ->
  (forall s1, J [] s1 -> K due s1) ->
  (forall r rest s1 s2, K (r :: rest) s1 -> due_effect ctx r s1 s2 -> K rest s2) ->
  (forall rest s1, J rest s1 -> P s1) -> (forall rest s1, K rest s1 -> P s1) ->
  P ((for_each watched {| reported := []; read_tables := ∅ |} (watch_one ctx watched);;
      acc ← for_each due {| dropped := 0; freed := 0 |} (due_one ctx);
      mret (dropped acc)) s).1.
Proof.
  intros HJ0 HJ HJK HK HJP HKP. unfold mbind at 1, pass_bind at 1.
  pose proof (for_each_inv (watch_one ctx watched) J P watched {| reported := []; read_tables := ∅ |} s) as Hw.
  destruct (for_each watched _ _ s) as [s4 out4].
  assert (Hw' : match out4 with inr _ => J [] s4 | inl _ => P s4 end).
  { destruct out4; apply Hw; try done; (intros r rest acc s5 H5;
      destruct (watch_one ctx watched acc r s5) as [s6 out6] eqn:E6;
      apply watch_one_effect in E6; destruct out6; [by eapply HJP, HJ|by eapply HJ]). }
  destruct out4 as [e|loop]; [done|]. unfold mbind, pass_bind.
  pose proof (for_each_inv (due_one ctx) K P due {| dropped := 0; freed := 0 |} s4) as Hd.
  destruct (for_each due _ _ s4) as [s5 out5].
  assert (Hd' : match out5 with inr _ => K [] s5 | inl _ => P s5 end).
  { destruct out5; apply Hd; auto; (intros r rest acc s6 H6;
      destruct (due_one ctx acc r s6) as [s7 out7] eqn:E7;
      apply due_one_effect in E7; destruct out7; [by eapply HKP, HK|by eapply HK]). }
  destruct out5 as [e|acc]; [done|]. by eapply HKP.
Qed.

(** A property of a pass, from an invariant of each of its two loops. *)
Lemma finalizeCluster_run ctx s (P : Store Live -> Prop) (J K : list Recommendation -> Store Live -> Prop) :
  (forall s1, recs s1 = recs s -> (forall d c, indexes (live s1) d c = indexes (live s) d c) ->
     nextId s1 = nextId s -> P s1) ->
  (fc_readOnly ctx = false -> forall s1, (forall d c, indexes (live s1) d c = indexes (live s) d c) ->
     demoted (recs s) (recs s1) -> nextId s1 = nextId s ->
     (NoDup (rec_id <$> recs s) -> forall x, x ∈ recs s -> state x = HIDDEN -> x ∈ recs s1) ->
     J (watched_rows s) s1) ->
  (forall r rest s1 s2, J (r :: rest) s1 -> watch_effect ctx r s1 s2 -> J rest s2) ->
  (forall s1, J [] s1 -> K (due_rows s) s1) ->
  (forall r rest s1 s2, K (r :: rest) s1 -> due_effect ctx r s1 s2 -> K rest s2) ->
  (forall rest s1, J rest s1 -> P s1) -> (forall rest s1, K rest s1 -> P s1) ->
  P (finalizeCluster ctx s).1.
Proof.
  intros Hstop Hstart HJ HJK HK HJP HKP. unfold finalizeCluster.
  fold (due_rows s) (watched_rows s).
  unfold mbind at 1, pass_bind at 1, get at 1. unfold mbind at 1, pass_bind at 1.
  destruct (noteOwnOutages_effect (due_rows s) (fc_outages ctx) (fc_now ctx) s) as (s1 & E1 & Hl1 & Hr1 & Hn1).
  fold (due_rows s) (watched_rows s). rewrite E1.
  destruct (_ && _); [apply Hstop; [done|intros d c; simpl; by rewrite Hl1|done]|].
  destruct (fc_readOnly ctx).
  { destruct (releaseFailureWatches_effect indexes s1) as (s2 & out & Er & Hr2 & _ & Hn2 & Hl2).
    unfold mbind, pass_bind, try_catch. rewrite Er.
    destruct out; simpl; (apply Hstop; [congruence|intros d c; by rewrite Hl2, Hl1|congruence]). }
  unfold mbind at 1, pass_bind at 1.
  destruct (keepFailureWatchesOrNone_effect indexes (fc_observed ctx) (fc_now ctx) s1)
    as (s1' & ws & -> & Hrk & _ & Hnk & Hlk).
  unfold mbind at 1, pass_bind at 1.
  destruct (withdrawHinted_effect ws s1') as (s2 & w & E2 & Hl2 & Hd2 & _ & Hn2).
  pose proof (withdrawHinted_keeps ws s1') as Hk. rewrite E2 in Hk |- *. simpl in Hk.
  unfold mbind at 1, pass_bind at 1, get at 1. unfold mbind at 1, pass_bind at 1.
  match goal with |- context [noteWaitingDrops ?rows ?ws ?t s2] =>
    destruct (noteWaitingDrops_effect rows ws t s2) as (s3 & -> & Hl3 & Hr3 & Hn3) end.
  apply (finalize_loops ctx (watched_rows s) (due_rows s) s3 P J K); [|done..].
  apply Hstart; [done| |congruence|congruence|by rewrite Hr3, <- Hr1, <- Hrk].
  intros d c. by rewrite Hl3, Hl2, Hlk, Hl1.
Qed.
End finalize_pass.

(** ** Theorems *)

Section finalize_theorems.
Context {Live : Type} `{EngineSession Live} (indexes : Live -> string -> string -> list IndexSpec)
  `{!SessionLaws Live indexes}.

Definition names_on (l : Live) (d c : string) : list string := name <$> indexes l d c.

Lemma unhide_names l d c n l' out d' c' :
  unhide l d c n = (l', out) -> names_on l' d' c' = names_on l d' c'.
Proof.
  intros [Hd Hf]%unhide_effect. unfold names_on.
  destruct (decide ((d', c') = (d, c))) as [[= -> ->]|Hne]; [|by rewrite Hf].
  rewrite Hd. destruct out; [done|]. unfold mark_hidden. rewrite <- list_fmap_compose.
  apply list_fmap_ext. intros _ x _. simpl. by destruct (String.eqb _ _).
Qed.

Lemma drop_names l d c n l' out d' c' m :
  drop_index l d c n = (l', out) -> m ∈ names_on l d' c' -> m ∉ names_on l' d' c' ->
  (d', c', m) = (d, c, n).
Proof.
  intros [Hd Hf]%drop_effect. unfold names_on.
  destruct (decide ((d', c') = (d, c))) as [[= -> ->]|Hne]; [|by rewrite Hf].
  rewrite Hd. destruct out as [e|[]]; [done|]. intros (x & -> & Hx)%list_elem_of_fmap Hm.
  destruct (String.eqb_spec (name x) n) as [->|Hne]; [done|]. exfalso. apply Hm.
  apply list_elem_of_fmap_2, elem_of_filter_bool. split; [done|]. by destruct (String.eqb_spec (name x) n).
Qed.

(** Why an index may be gone after a pass: a hidden row cleared by the error
    check and a stable read latency over its whole window (or, never hidden,
    by the clock), in scope, in the change window, and by a pre-flight of the
    cluster as it then was; or a build of ours that slowed writes. *)
Definition removable (ctx : FinalizeContext) (rows : list Recommendation) (d c n : string) : Prop :=
  fc_readOnly ctx = false /\
  exists r, r ∈ rows /\ (rec_database r, rec_collection r, rec_indexName r) = (d, c, n) /\
    inScope (fc_observed ctx) d = true /\
    ((state r = HIDDEN /\ windowOpen ctx = true /\
      exists l usage hinted, observed_clear ctx r l /\
        collectHintedIndexes l d c = inr hinted /\
        (rec_type r = DROP_UNUSED -> collectUsage l d c = inr usage) /\
        safe (preflightDrop (indexes l d c) usage hinted (drop_target r)) = true) \/
     (state r = ACTIVE /\ rec_type r ∈ WATCHED_TYPES /\ write_regressed ctx r)).

(** Every index that went since [s] had a reason to. *)
Definition accounted (ctx : FinalizeContext) (s s1 : Store Live) : Prop :=
  forall d c n, n ∈ names_on (live s) d c -> n ∉ names_on (live s1) d c -> removable ctx (recs s) d c n.

Lemma accounted_same ctx s s1 s2 :
  accounted ctx s s1 -> (forall d c, names_on (live s2) d c = names_on (live s1) d c) -> accounted ctx s s2.
Proof. intros H1 E d c n. rewrite E. apply H1. Qed.

Lemma accounted_drop ctx s s1 s2 r out :
  accounted ctx s s1 ->
  drop_index (live s1) (rec_database r) (rec_collection r) (rec_indexName r) = (live s2, out) ->
  (out = inr tt -> removable ctx (recs s) (rec_database r) (rec_collection r) (rec_indexName r)) ->
  accounted ctx s s2.
Proof.
  intros H1 Hd Hr d c n Hin Hout. destruct (decide (n ∈ names_on (live s1) d c)) as [Hin1|]; [|by apply H1].
  pose proof (drop_names _ _ _ _ _ _ _ _ _ Hd Hin1 Hout) as [= -> -> ->]. apply Hr.
  destruct out as [e|[]]; [|done]. exfalso. apply Hout. apply drop_effect in Hd as [Hd _].
  unfold names_on. by rewrite Hd.
Qed.

(** A turn over a hidden row accounts for what it drops. *)
Lemma accounted_due ctx s s1 s2 r :
  fc_readOnly ctx = false -> r ∈ due_rows s -> due_effect ctx r s1 s2 ->
  accounted ctx s s1 -> accounted ctx s s2.
Proof.
  intros Hro [[Hr Hs%bool_decide_eq_true]%elem_of_filter_bool _]%elem_of_filter_bool He Hc.
  destruct He as [_ Hl|e Hu|f _ _ Hu|f _ _ _ Hl|check _ _ _ _ Hl|check tx Hsc Hob Hwo Hp Hsafe _ Hd _ _|e Hd _].
  - eapply accounted_same; [done|]. by rewrite Hl.
  - eapply accounted_same; [done|]. intros. by eapply unhide_names.
  - eapply accounted_same; [done|]. intros. by eapply unhide_names.
  - eapply accounted_same; [done|]. by rewrite Hl.
  - eapply accounted_same; [done|]. by rewrite Hl.
  - eapply accounted_drop; [done..|]. intros _. split; [done|]. exists r. split_and!; try done. left.
    split_and!; try done.
    destruct (preflightLive r s1) as [s1' [|check']] eqn:Ep; [done|]. injection Hp as ->.
    destruct (preflightLive_safe r s1 s1' check Ep Hsafe) as (specs & usage & hinted & Hl & Hh & Hu & ->).
    apply listIndexes_true in Hl as ->. exists (live s1), usage, hinted. by split_and!.
  - eapply accounted_drop; [done..|]. done.
Qed.

(** C3. The irreversible step is the gated one: if an index was on the cluster
    before a finalize pass and is not after it, the pass had every reason
    [removable] lists; out of the change window only our own regressing builds
    can go, and on a read-only cluster nothing can. *)
Theorem finalize_removes_only_cleared ctx s d c n :
  n ∈ names_on (live s) d c -> n ∉ names_on (live (finalizeCluster ctx s).1) d c ->
  removable ctx (recs s) d c n.
Proof.
  set (Inv := fun (rows rest : list Recommendation) (s1 : Store Live) =>
    fc_readOnly ctx = false /\ (forall r, r ∈ rest -> r ∈ rows) /\ accounted ctx s s1).
  enough (accounted ctx s (finalizeCluster ctx s).1) as Hc by apply Hc.
  apply (finalizeCluster_run indexes ctx s (accounted ctx s) (Inv (watched_rows s)) (Inv (due_rows s))).
  - intros s1 _ Hl _ d' c' n'. unfold names_on. by rewrite Hl.
  - intros Hro s1 Hl _ _ _. split_and!; [done|done|]. intros d' c' n'. unfold names_on. by rewrite Hl.
  - intros r rest s1 s2 (Hro & Hin & Hc) [Hl _]. split_and!; [done|set_solver|].
    destruct Hl as [Hl|[Hw [out Hd]]]; [eapply accounted_same; [done|]; by rewrite Hl|].
    eapply accounted_drop; [done..|]. intros _. split; [done|]. exists r.
    assert (r ∈ watched_rows s) as [[Hr Hs%bool_decide_eq_true]%elem_of_filter_bool Ht%bool_decide_eq_true]%elem_of_filter_bool
      by (apply Hin; left).
    split_and!; try done; [apply Hw|]. by right.
  - intros s1 (Hro & _ & Hc). split_and!; done.
  - intros r rest s1 s2 (Hro & Hin & Hc) He. split_and!; [done|set_solver|].
    eapply accounted_due; [done| |done|done]. apply Hin. left.
  - by intros rest s1 (_ & _ & Hc).
  - by intros rest s1 (_ & _ & Hc).
Qed.

Lemma drop_hidden l d c n l' out d' c' n' :
  drop_index l d c n = (l', out) -> hidden_on indexes l' d' c' n' ->
  hidden_on indexes l d' c' n' /\ (out = inr tt -> (d', c', n') <> (d, c, n)).
Proof.
  intros [Hd Hf]%drop_effect (spec & Hs & Hn & Hh).
  destruct (decide ((d', c') = (d, c))) as [[= -> ->]|Hne].
  - rewrite Hd in Hs. destruct out as [e|[]]; [split; [by exists spec|done]|].
    apply elem_of_filter_bool in Hs as [Hs Hne]. split; [by exists spec|]. intros _ [= ->].
    by rewrite Hn, String.eqb_refl in Hne.
  - rewrite Hf in Hs by done. split; [by exists spec|]. intros _ [= -> -> ->]. done.
Qed.

Lemma preflightLive_absent r (s : Store Live) check :
  (preflightLive r s).2 = inr check -> pf_spec check = None ->
  rec_indexName r ∉ names_on (live s) (rec_database r) (rec_collection r).
Proof.
  assert (Hkey : forall specs usage hinted, pf_spec (preflightDrop specs usage hinted (drop_target r)) = None ->
    forall x, x ∈ specs -> name x <> rec_indexName r).
  { intros specs usage hinted. unfold preflightDrop.
    destruct (find_index specs (dt_indexName (drop_target r))) as [spec|] eqn:Ef.
    - intros Hn. exfalso. revert Hn. repeat (case_match; try done).
    - intros _ x Hx E. unfold find_index in Ef. pose proof (find_none_elem _ _ _ Ef Hx) as Hf. simpl in Hf.
      by rewrite E, String.eqb_refl in Hf. }
  unfold preflightLive, mbind, pass_bind, mret, pass_ret, read.
  destruct (listIndexes _ _ _) as [e|specs] eqn:El; [done|]. apply listIndexes_true in El as ->. simpl.
  intros Hc Hn. unfold names_on. intros (x & E & Hx)%list_elem_of_fmap. symmetry in E. revert E.
  destruct (safe (preflightDrop _ [] [] _)) eqn:E1; simpl in Hc; [|injection Hc as <-; by eapply Hkey].
  destruct (bool_decide _); simpl in Hc.
  - destruct (collectUsage _ _ _) as [|usage]; [done|]. simpl in Hc.
    destruct (safe (preflightDrop _ usage [] _)); simpl in Hc; [|injection Hc as <-; by eapply Hkey].
    destruct (collectHintedIndexes _ _ _); [done|]. injection Hc as <-. by eapply Hkey.
  - rewrite E1 in Hc. simpl in Hc.
    destruct (collectHintedIndexes _ _ _); [done|]. injection Hc as <-. by eapply Hkey.
Qed.

(** Every hidden index is the owner's own, or a row's that is observing it. *)
Definition tracked (owners : string -> string -> string -> Prop) (s : Store Live) : Prop :=
  forall d c n, hidden_on indexes (live s) d c n ->
    owners d c n \/
    exists r, r ∈ recs s /\ state r = HIDDEN /\
      (rec_database r, rec_collection r, rec_indexName r) = (d, c, n).

(** The rows still to come mean the same findings as when they were picked. *)
Definition aligned (rest : list Recommendation) (s : Store Live) : Prop :=
  forall r x, r ∈ rest -> x ∈ recs s -> rec_id x = rec_id r -> finding x = finding r.
Definition bounded (rest : list Recommendation) (s : Store Live) : Prop :=
  forall r, r ∈ rest -> (rec_id r < nextId s)%nat.

Lemma aligned_update id f rest (s s' : Store Live) :
  (forall row, rec_id (f row) = rec_id row /\ finding (f row) = finding row) ->
  recs s' = update_where id f (recs s) -> aligned rest s -> aligned rest s'.
Proof.
  intros Hf Hr Ha r x Hin Hx E. rewrite Hr in Hx.
  apply elem_of_update_where_inv in Hx as (x0 & Hx0 & [[_ ->]|[_ ->]]); [|by eapply Ha].
  destruct (Hf x0) as [E1 ->]. eapply Ha; [done..|]. congruence.
Qed.

(** A tracked index stays tracked when the rows observing other indexes stay,
    and the cluster hides no more than it did. *)
Lemma tracked_step owners s s' (gone : string -> string -> string -> Prop) :
  tracked owners s ->
  (forall d c n, hidden_on indexes (live s') d c n -> hidden_on indexes (live s) d c n /\ ~ gone d c n) ->
  (forall x, x ∈ recs s -> state x = HIDDEN ->
     ~ gone (rec_database x) (rec_collection x) (rec_indexName x) -> x ∈ recs s') ->
  tracked owners s'.
Proof.
  intros Ht Hl Hr d c n Hh. destruct (Hl _ _ _ Hh) as [Hh' Hg].
  destruct (Ht _ _ _ Hh') as [?|(x & Hx & Hs & [= <- <- <-])]; [by left|]. right. exists x. auto.
Qed.

Section strands.
Context (ctx : FinalizeContext) (owners : string -> string -> string -> Prop).
Hypothesis Hcan : fc_canHide ctx = true.
Hypothesis Hun : forall l d c n, (unhide l d c n).2 = inr tt.

Lemma watch_keeps_tracked r s1 s2 :
  (forall x, x ∈ recs s1 -> rec_id x = rec_id r -> state x <> HIDDEN) ->
  watch_effect ctx r s1 s2 -> tracked owners s1 -> tracked owners s2.
Proof.
  intros Hnh [Hl (f & new & Hf & Hr & Hfr)] Ht.
  eapply (tracked_step owners s1 s2 (fun _ _ _ => False)); [done| |].
  - intros d c n Hh. split; [|tauto]. destruct Hl as [Hl|[_ [out Hd]]]; [by rewrite <- Hl|].
    by eapply drop_hidden.
  - intros x Hx Hs _. rewrite Hr. apply elem_of_app. left. apply elem_of_update_where; [done|].
    intros E. by apply (Hnh x).
Qed.

Lemma due_keeps_tracked r rest s1 s2 :
  is_Some (hiddenAt (hide_columns r)) -> aligned (r :: rest) s1 ->
  due_effect ctx r s1 s2 -> tracked owners s1 -> tracked owners s2.
Proof.
  intros Hhid Ha He Ht.
  set (gone := fun d c n => (d, c, n) = (rec_database r, rec_collection r, rec_indexName r)).
  assert (Hother : forall f x, x ∈ recs s1 -> state x = HIDDEN ->
    ~ gone (rec_database x) (rec_collection x) (rec_indexName x) -> x ∈ update_where (rec_id r) f (recs s1)).
  { intros f x Hx Hs Hg. apply elem_of_update_where; [done|]. intros E. apply Hg.
    pose proof (Ha r x ltac:(left) Hx E) as Hf. unfold gone, rec_database, rec_collection, rec_indexName.
    by rewrite Hf. }
  destruct He as [Hr Hl|e Hu|f _ Hr Hu|f Hno _ _ _|check Hp _ Hsp Hr Hl|check tx _ _ _ _ _ Hr Hd _ _|e Hd Hr].
  - intros d c n. rewrite Hl, Hr. apply Ht.
  - specialize (Hun (live s1) (rec_database r) (rec_collection r) (rec_indexName r)). by rewrite Hu in Hun.
  - eapply (tracked_step owners s1 s2 gone); [done| |by rewrite Hr; apply Hother].
    intros d c n Hh. destruct (unhide_shows indexes _ _ _ _ _ _ _ _ Hu Hh). done.
  - destruct Hno as [?|Hno]; [congruence|]. rewrite Hno in Hhid. by destruct Hhid.
  - eapply (tracked_step owners s1 s2 gone); [done| |by rewrite Hr; apply Hother].
    intros d c n Hh. rewrite Hl in Hh. split; [done|]. intros [= -> -> ->].
    destruct Hh as (spec & Hs & Hn & _). apply (preflightLive_absent _ _ _ Hp Hsp).
    rewrite <- Hn. by apply list_elem_of_fmap_2.
  - eapply (tracked_step owners s1 s2 gone); [done| |by rewrite Hr; apply Hother].
    intros d c n Hh. destruct (drop_hidden _ _ _ _ _ _ _ _ _ Hd Hh). auto.
  - intros d c n Hh. rewrite Hr. apply Ht. by eapply drop_hidden.
Qed.

Lemma due_keeps_aligned r rest s1 s2 :
  due_effect ctx r s1 s2 -> is_Some (hiddenAt (hide_columns r)) -> aligned (r :: rest) s1 -> aligned rest s2.
Proof.
  intros He Hhid Ha. assert (Ha' : aligned rest s1) by (intros x y Hx; apply Ha; by right).
  destruct He as [Hr _|e Hu|f [Hf _] Hr _|f _ [Hf _] Hr _|check _ _ _ Hr _|check tx _ _ _ _ _ Hr _ _ _|e _ Hr].
  - intros x y. rewrite Hr. apply Ha'.
  - specialize (Hun (live s1) (rec_database r) (rec_collection r) (rec_indexName r)). by rewrite Hu in Hun.
  - by eapply aligned_update.
  - by eapply aligned_update.
  - by eapply (aligned_update _ (set_state DROPPED)).
  - by eapply (aligned_update _ (set_state DROPPED)).
  - intros x y. rewrite Hr. apply Ha'.
Qed.

Lemma watch_keeps_rows r rest due s1 s2 :
  watch_effect ctx r s1 s2 -> bounded (rest ++ due) s1 ->
  (forall y x, y ∈ r :: rest -> x ∈ recs s1 -> rec_id x = rec_id y -> state x <> HIDDEN) ->
  aligned due s1 ->
  (forall y x, y ∈ rest -> x ∈ recs s2 -> rec_id x = rec_id y -> state x <> HIDDEN) /\
  aligned due s2 /\ bounded (rest ++ due) s2.
Proof.
  intros [_ (f & new & Hf & Hr & Hn & _ & Hnew)] Hb Hnh Ha. rewrite list.Forall_forall in Hnew.
  assert (Hinv : forall y x, y ∈ rest ++ due -> x ∈ recs s2 -> rec_id x = rec_id y ->
    exists x0, x0 ∈ recs s1 /\ rec_id x0 = rec_id y /\ finding x = finding x0 /\
      (state x0 <> HIDDEN -> state x <> HIDDEN)).
  { intros y x Hy Hx E. rewrite Hr in Hx. apply elem_of_app in Hx as [Hx|Hx].
    - apply elem_of_update_where_inv in Hx as (x0 & Hx0 & [[_ ->]|[_ ->]]).
      + destruct (Hf x0) as (E1 & E2 & E3). exists x0. split_and!; try done. congruence.
      + by exists x0.
    - specialize (Hb y Hy). specialize (Hnew x Hx). lia. }
  split_and!.
  - intros y x Hy Hx E. destruct (Hinv y x) as (x0 & H0 & H1 & _ & H2); [apply elem_of_app; by left|done|done|].
    apply H2. eapply (Hnh y); [by right|done|done].
  - intros y x Hy Hx E. destruct (Hinv y x) as (x0 & H0 & H1 & -> & _); [apply elem_of_app; by right|done|done|].
    by eapply Ha.
  - intros y Hy. specialize (Hb y Hy). lia.
Qed.

(** A row by its id, before and after some rows were sent back. *)
Lemma demoted_same rows rows' : NoDup (rec_id <$> rows) -> demoted rows rows' ->
  forall r x, r ∈ rows -> x ∈ rows' -> rec_id x = rec_id r ->
  finding x = finding r /\ (x = r \/ x = set_state PROPOSED r).
Proof.
  intros Hnd Hd r x Hr [i Hi]%list_elem_of_lookup E.
  destruct (Forall2_lookup_r _ _ _ _ _ Hd Hi) as (x0 & H0%list_elem_of_lookup_2 & Hx).
  assert (x0 = r) as -> by (eapply NoDup_id_inj; [done..|]; by destruct Hx as [-> | ->]).
  by destruct Hx as [-> | ->]; auto.
Qed.

(** The invariant over the loops of the pass. *)
Lemma finalize_tracked s :
  well_keyed s -> tracked owners s -> tracked owners (finalizeCluster ctx s).1.
Proof.
  intros [Hnd Hlt] Ht. rewrite list.Forall_forall in Hlt.
  set (K := fun rest s1 => tracked owners s1 /\ aligned rest s1 /\
    forall r, r ∈ rest -> is_Some (hiddenAt (hide_columns r))).
  set (J := fun rest s1 => tracked owners s1 /\ bounded (rest ++ due_rows s) s1 /\ aligned (due_rows s) s1 /\
    forall y x, y ∈ rest -> x ∈ recs s1 -> rec_id x = rec_id y -> state x <> HIDDEN).
  assert (Hdue : forall r, r ∈ due_rows s -> r ∈ recs s /\ is_Some (hiddenAt (hide_columns r))).
  { intros r [[Hr _]%elem_of_filter_bool Hh]%elem_of_filter_bool. split; [done|].
    destruct (hiddenAt (hide_columns r)); [eauto|done]. }
  assert (Hwat : forall r, r ∈ watched_rows s -> r ∈ recs s /\ state r = ACTIVE).
  { intros r [[Hr Hs%bool_decide_eq_true]%elem_of_filter_bool _]%elem_of_filter_bool. done. }
  apply (finalizeCluster_run indexes ctx s (tracked owners) J K).
  - intros s1 Hr Hl _ d c n Hh. rewrite Hr. apply Ht. by eapply hidden_on_same.
  - intros _ s1 Hl Hd Hn Hkeep. specialize (Hkeep Hnd).
    pose proof (demoted_same (recs s) (recs s1) Hnd Hd) as Hid.
    unfold J. split_and!.
    + intros d c n Hh. apply (hidden_on_same indexes _ _ _ _ _ Hl) in Hh. destruct (Ht _ _ _ Hh) as [?|(x & Hx & Hs & E)]; [by left|].
      right. exists x. auto.
    + intros r [Hr|Hr]%elem_of_app; rewrite Hn; apply Hlt; [by apply Hwat|by apply Hdue].
    + intros r x Hr Hx E. apply (Hid r x); [by apply Hdue|done..].
    + intros y x Hy Hx E. destruct (Hwat y Hy) as [Hyr Hys].
      destruct (Hid y x Hyr Hx E) as [_ [-> | ->]]; simpl; congruence.
  - intros r rest s1 s2 (H1 & H2 & H3 & H4) He.
    assert (Hb : bounded (rest ++ due_rows s) s1) by (intros y Hy; apply H2; by right).
    destruct (watch_keeps_rows r rest (due_rows s) s1 s2 He Hb H4 H3) as (H5 & H6 & H7).
    unfold J. split_and!; try done. eapply watch_keeps_tracked; [|done|done]. intros x. apply H4. left.
  - intros s1 (H1 & _ & H3 & _). unfold K. split_and!; [done|done|]. intros r Hr. by apply Hdue.
  - intros r rest s1 s2 (H1 & H2 & H3) He.
    assert (Hh : is_Some (hiddenAt (hide_columns r))) by (apply H3; left).
    unfold K. split_and!; [by eapply due_keeps_tracked|by eapply due_keeps_aligned|]. intros x Hx. apply H3. by right.
  - by intros rest s1 (? & _).
  - by intros rest s1 (? & _).
Qed.
(** C4. No finalize pass loses track of a hidden index: whatever throws on the
    way, an index that is hidden when the pass ends is one the owner hid, or a
    row still observes it — every path that takes a row out of HIDDEN put its
    index back, dropped it, or found it gone.  Holds where the engine can hide
    and un-hiding does not itself fail. *)
Theorem finalize_strands_nothing s :
  well_keyed s -> tracked owners s -> tracked owners (finalizeCluster ctx s).1.
Proof. apply finalize_tracked. Qed.
End strands.

(** A drop nothing holds back, step by step. *)
Lemma due_one_drops ctx acc r s check l' :
  inScope (fc_observed ctx) (rec_database r) = true -> observed_clear ctx r (live s) ->
  windowOpen ctx = true -> (preflightLive r s).2 = inr check -> safe check = true ->
  is_dropped r (live s) l' ->
  exists s' spec text,
    due_one ctx acc r s =
      (s', inr {| dropped := dropped acc + 1; freed := freed acc + f_estimatedBytesSaved (finding r) |}) /\
    live s' = l' /\ rec_indexName r ∉ names_on l' (rec_database r) (rec_collection r) /\
    recs s' = update_where (rec_id r) (set_state DROPPED) (recs s) /\
    spec ∈ indexes (live s) (rec_database r) (rec_collection r) /\ name spec = rec_indexName r /\
    actions s' = {| act_rec := rec_id r; act_kind := DROP; act_result := text;
                    rollbackToken := Some (spec_token spec) |} :: actions s /\
    roi s' = {| roi_rec := Some (rec_id r); freedBytes := f_estimatedBytesSaved (finding r);
                indexCountDelta := 1 |} :: roi s.
Proof.
  intros Hsc Hob Hw Hp Hsafe Hd. pose proof (preflightLive_store r s) as Hst.
  destruct (preflightLive r s) as [s0 [|check']] eqn:Ep; [done|]. simpl in Hp, Hst. injection Hp as ->. subst s0.
  destruct (preflightLive_safe r s s check Ep Hsafe) as (specs & usage & hinted & Hl & _ & _ & Hck).
  apply listIndexes_true in Hl. pose proof Hsafe as Hsafe'. rewrite Hck in Hsafe'.
  apply preflightDrop_safe_iff in Hsafe' as (spec & Hf & Hspec & _). rewrite <- Hck in Hspec.
  apply find_index_spec in Hf as [Hin Hn]. rewrite Hl in Hin.
  assert (Hgone : rec_indexName r ∉ names_on l' (rec_database r) (rec_collection r)).
  { apply drop_effect in Hd as [Hd _]. unfold names_on. rewrite Hd.
    intros (x & E & [_ Hx]%elem_of_filter_bool)%list_elem_of_fmap. by rewrite <- E, String.eqb_refl in Hx. }
  assert (Hel : forall failures, exists s' text,
    drop_elective ctx acc r failures s = (s', inr {| dropped := dropped acc + 1;
      freed := freed acc + f_estimatedBytesSaved (finding r) |}) /\ live s' = l' /\
    recs s' = update_where (rec_id r) (set_state DROPPED) (recs s) /\
    actions s' = {| act_rec := rec_id r; act_kind := DROP; act_result := text;
                    rollbackToken := Some (spec_token spec) |} :: actions s /\
    roi s' = {| roi_rec := Some (rec_id r); freedBytes := f_estimatedBytesSaved (finding r);
                indexCountDelta := 1 |} :: roi s).
  { intros failures. unfold drop_elective. rewrite Hw. simpl. unfold mbind at 1, pass_bind at 1.
    rewrite Ep, Hsafe. simpl. unfold mbind at 1, pass_bind at 1, write. rewrite Hd, Hspec. cbn.
    do 2 eexists. split_and!; reflexivity. }
  enough (exists failures, due_one ctx acc r s = drop_elective ctx acc r failures s) as (failures & ->).
  { destruct (Hel failures) as (s' & text & H1 & H2 & H3 & H4 & H5). exists s', spec, text. by split_and!. }
  unfold due_one, observed_clear in *. rewrite Hsc. simpl.
  destruct (read_baseline r) as [[[t o] m]|]; [|rewrite Hob; by eexists].
  destruct Hob as (Hv & reading & Hr & Hi). exists (failures_since r t reading).
  unfold mbind at 1, pass_bind at 1, read. rewrite Hr, Hi. unfold undecided. by rewrite Hv.
Qed.

(** C10. A drop that earned it completes, and can be undone: an in-scope row
    whose observation is clear, inside the change window, with a safe pre-flight
    and a cluster that accepts the drop, ends DROPPED in the same turn, with the
    index gone, its bytes booked, and the index's specification as it was on the
    cluster kept in the audit trail as the rollback token. *)
Theorem cleared_drop_completes ctx acc r s check l' :
  inScope (fc_observed ctx) (rec_database r) = true -> observed_clear ctx r (live s) ->
  windowOpen ctx = true -> (preflightLive r s).2 = inr check -> safe check = true ->
  is_dropped r (live s) l' ->
  exists s' spec text,
    due_one ctx acc r s =
      (s', inr {| dropped := dropped acc + 1; freed := freed acc + f_estimatedBytesSaved (finding r) |}) /\
    live s' = l' /\ rec_indexName r ∉ names_on l' (rec_database r) (rec_collection r) /\
    recs s' = update_where (rec_id r) (set_state DROPPED) (recs s) /\
    spec ∈ indexes (live s) (rec_database r) (rec_collection r) /\ name spec = rec_indexName r /\
    actions s' = {| act_rec := rec_id r; act_kind := DROP; act_result := text;
                    rollbackToken := Some (spec_token spec) |} :: actions s /\
    roi s' = {| roi_rec := Some (rec_id r); freedBytes := f_estimatedBytesSaved (finding r);
                indexCountDelta := 1 |} :: roi s.
Proof. apply due_one_drops. Qed.
End finalize_theorems.

(** ** A concrete pass *)

(** The shop with the covered index hidden on day 10 for a day's window, and its
    collection's reads before and since, as fast as ever. *)
Definition shop_reads (day : Z) : LatencyReading :=
  {| lr_run := {| capturedAt := At (day * DAY_MS); lastSeenAt := None; observations := None; maxGapMs := None |};
     readOps := 100 * day; readLatencyMicros := 1000 * day; writeOps := 0; writeLatencyMicros := 0 |}.
Definition shop_observing : Recommendation :=
  shop_row HIDDEN
    {| hiddenAt := Some (10 * DAY_MS); observeDays := Some 1; observeReason := None;
       baselineReadOps := Some 100; baselineReadLatency := Some 1000; baselineFailedOps := None;
       baselineFailedReachMs := None |}.
Definition shop_hiding : Store Memory :=
  shop_store [shop_observing] (hide shop "shop" "orders" "a_1").1.
Definition shop_finalize : FinalizeContext :=
  {| fc_policy := None; fc_readOnly := false; fc_canHide := true; fc_observed := None;
     fc_outages := []; fc_latency := fun _ _ => shop_reads <$> [8; 9; 10; 11; 12];
     fc_now := 12 * DAY_MS |}.

Lemma shop_names_before : names_on memory_indexes (live shop_hiding) "shop" "orders" = ["a_1"; "a_1_b_1"]%string.
Proof. vm_compute. reflexivity. Qed.
Lemma shop_names_after :
  names_on memory_indexes (live (finalizeCluster shop_finalize shop_hiding).1) "shop" "orders" = ["a_1_b_1"]%string.
Proof. vm_compute. reflexivity. Qed.

Lemma finalize_removes_only_cleared_witness :
  names_on memory_indexes (live shop_hiding) "shop" "orders" = ["a_1"; "a_1_b_1"]%string /\
  names_on memory_indexes (live (finalizeCluster shop_finalize shop_hiding).1) "shop" "orders" = ["a_1_b_1"]%string /\
  removable memory_indexes shop_finalize (recs shop_hiding) "shop" "orders" "a_1".
Proof.
  split; [exact shop_names_before|]. split; [exact shop_names_after|].
  apply (finalize_removes_only_cleared memory_indexes shop_finalize shop_hiding).
  - rewrite shop_names_before. left.
  - rewrite shop_names_after. intros [[=]|[]%elem_of_nil]%elem_of_cons.
Defined.

Lemma shop_tracked : tracked memory_indexes (fun _ _ _ => False) shop_hiding.
Proof.
  intros d c n (spec & Hs & Hn & Hh). right. exists shop_observing. split; [left|]. split; [done|].
  unfold memory_indexes in Hs. destruct (decide (("shop", "orders") = (d, c))) as [[= <- <-]|Hne].
  - replace (mem_indexes (live shop_hiding) !! ("shop", "orders")%string ?? []) with
      [set_hidden true (ascending_index "a_1" ["a"]); ascending_index "a_1_b_1" ["a"; "b"]] in Hs
      by (vm_compute; reflexivity).
    apply elem_of_cons in Hs as [->|Hs]; [by rewrite <- Hn|].
    apply list_elem_of_singleton in Hs as ->. done.
  - exfalso. revert Hs.
    replace (mem_indexes (live shop_hiding)) with
      (<[("shop", "orders") := [set_hidden true (ascending_index "a_1" ["a"]); ascending_index "a_1_b_1" ["a"; "b"]]]>
        (mem_indexes shop)) by (vm_compute; reflexivity).
    rewrite lookup_insert_ne by done. unfold shop. simpl. rewrite lookup_singleton_ne by done. simpl. set_solver.
Qed.

Lemma finalize_strands_nothing_witness :
  tracked memory_indexes (fun _ _ _ => False) shop_hiding /\
  tracked memory_indexes (fun _ _ _ => False) (finalizeCluster shop_finalize shop_hiding).1.
Proof.
  split; [exact shop_tracked|].
  apply (finalize_strands_nothing memory_indexes shop_finalize (fun _ _ _ => False)).
  - reflexivity.
  - reflexivity.
  - split; [apply NoDup_singleton|]. constructor; [simpl; lia|constructor].
  - exact shop_tracked.
Defined.

Lemma cleared_drop_completes_witness :
  exists s' acc, due_one shop_finalize {| dropped := 0; freed := 0 |} shop_observing shop_hiding = (s', inr acc) /\
    recs s' = [set_state DROPPED shop_observing].
Proof.
  destruct (cleared_drop_completes memory_indexes shop_finalize {| dropped := 0; freed := 0 |} shop_observing
    shop_hiding {| safe := true; pf_reason := "ok"; pf_spec := Some (set_hidden true (ascending_index "a_1" ["a"])) |}
    (drop_index (live shop_hiding) "shop" "orders" "a_1").1) as (s' & spec & text & H1 & _ & _ & H2 & _).
  - reflexivity.
  - split; [vm_compute; reflexivity|]. exists (NO_SOURCE "the profiler is off"). split; vm_compute; reflexivity.
  - reflexivity.
  - vm_compute. reflexivity.
  - reflexivity.
  - vm_compute. reflexivity.
  - do 2 eexists. split; [exact H1|]. rewrite H2. reflexivity.
Defined.

(** ** What the pass keeps of the rows *)

Section finalize_keeps.
Context {Live : Type} `{EngineSession Live}.

Lemma keyed_from_sum {A} (v : exn + A) : preserves well_keyed (from_sum (Live := Live) v).
Proof. intros s Hs. exact Hs. Qed.
#[local] Hint Resolve keyed_from_sum : passes.

Lemma keyed_finalize ctx : preserves well_keyed (finalizeCluster (Live := Live) ctx).
Proof.
  unfold finalizeCluster, noteOwnOutages, note_outage, watch_one, judgeCumulative, liveWritesOf,
    retireSuperseded, retire_one, due_one, out_of_scope, reject, put_back, propose_again, un_hide, drop_elective.
  preserve.
Qed.
End finalize_keeps.
