(* ===== verification/Ends.v ===== *)
(** No index stays hidden for ever: how long the observation of [Finalize]
    ([apps/api/src/jobs/finalize.ts]) can last. *)
From S2P Require Import Prelude EngineTypes Observed Preflight Store Memory Policy FailureWatch Apply Finalize.
From S2P Require Import Score Failures.

(** ** Decided rows *)

Section decided.
Context {Live : Type} `{EngineSession Live} (id : nat).

(** The row of that id is not being observed. *)
Definition decided (s : Store Live) : Prop := forall x, x ∈ recs s -> rec_id x = id -> state x <> HIDDEN.
(** A pass that, when it gets through, leaves it decided. *)
Definition decides {A} (m : pass Live A) : Prop := forall s s' a, m s = (s', inr a) -> decided s'.

Lemma decides_first {A B} (m : pass Live A) (k : A -> pass Live B) :
  decides m -> (forall a, preserves decided (k a)) -> decides (m ≫= k).
Proof.
  intros Hm Hk s s' b. unfold mbind, pass_bind. destruct (m s) as [s1 [e|a]] eqn:E; [done|]. intros Ek.
  specialize (Hk a s1 (Hm _ _ _ E)). by rewrite Ek in Hk.
Qed.
Lemma decides_then {A B} (m : pass Live A) (k : A -> pass Live B) :
  (forall a, decides (k a)) -> decides (m ≫= k).
Proof.
  intros Hk s s' b. unfold mbind, pass_bind. destruct (m s) as [s1 [e|a]] eqn:E; [done|]. apply Hk.
Qed.
Lemma decides_for_each {A S} xs (acc : S) (body : S -> A -> pass Live S) x :
  x ∈ xs -> (forall acc, decides (body acc x)) -> (forall acc y, preserves decided (body acc y)) ->
  decides (for_each xs acc body).
Proof.
  intros Hx Hb Hk. revert acc. induction xs as [|y xs IH]; intros acc; [by apply elem_of_nil in Hx|].
  cbn [for_each]. apply elem_of_cons in Hx as [->|Hx].
  - apply decides_first; [done|]. intros acc'. by apply preserves_for_each.
  - apply decides_then. intros acc'. by apply IH.
Qed.

(** What no update of a finalize pass does is hide. *)
Lemma decided_update id' f :
  (forall r, rec_id (f r) = rec_id r) -> (forall r, state (f r) = HIDDEN -> state r = HIDDEN) ->
  preserves decided (update_rec id' f).
Proof.
  intros Hi Hf s Hs x Hx Hid Hh. simpl in Hx.
  apply elem_of_update_where_inv in Hx as (x0 & Hx0 & [[E ->]|[_ ->]]); [|by apply (Hs x0)].
  rewrite Hi in Hid. apply (Hs x0); auto.
Qed.
Lemma decides_update f :
  (forall r, rec_id (f r) = rec_id r) -> (forall r, state (f r) <> HIDDEN) -> decides (update_rec id f).
Proof.
  intros Hi Hf s s' [] [= <-] x Hx Hid. simpl in Hx.
  apply elem_of_update_where_inv in Hx as (x0 & Hx0 & [[E ->]|[E ->]]); [apply Hf|done].
Qed.
Lemma decided_insert row : (forall i, state (row i) <> HIDDEN) -> preserves decided (insert_rec row).
Proof.
  intros Hr s Hs x. unfold insert_rec. destruct (existsb _ _); [apply Hs|]. simpl.
  intros [Hx| ->%list_elem_of_singleton]%elem_of_app; [by apply Hs|]. intros _. apply Hr.
Qed.
Lemma decided_write {A} (f : Live -> Live * (exn + A)) : preserves decided (write f).
Proof. intros s Hs. unfold decided. by rewrite write_rows. Qed.
End decided.

Ltac decide_step :=
  first [ preserve_step
        | apply decided_update; [done|by intros ?; intros]
        | apply decided_insert; done
        | apply decided_write
        | solve [let Hs := fresh in intros ? Hs; exact Hs] ].
Ltac keep_decided := repeat decide_step.

(** ** One turn *)

Section turns.
Context {Live : Type} `{EngineSession Live} (ctx : FinalizeContext) (r : Recommendation).
Abbreviation decides := (decides (Live := Live) (rec_id r)).
Abbreviation decided := (decided (Live := Live)).

Lemma decided_due id acc y : preserves (decided id) (due_one (Live := Live) ctx acc y).
Proof. unfold due_one, out_of_scope, reject, put_back, propose_again, un_hide, drop_elective. keep_decided. Qed.

(** A row still hidden the longest its window may last. *)
Definition expired : Prop := exists t, hiddenAt (hide_columns r) = Some t /\ 0 <= days_of_row ctx r /\
  days_of_row ctx r * OBSERVE_WALLCLOCK_MULTIPLE * DAY_MS < fc_now ctx - t - ownOutageMs (fc_outages ctx) t (fc_now ctx).

Lemma propose_again_decides : decides (propose_again r).
Proof. apply decides_update; done. Qed.
Lemma out_of_scope_decides : decides (out_of_scope ctx r).
Proof.
  apply decides_then. intros restored. apply decides_first; [apply propose_again_decides|].
  intros []. intros s Hs. exact Hs.
Qed.
Lemma reject_decides cooldown because result : decides (reject ctx r cooldown because result).
Proof.
  apply decides_then. intros []. apply decides_then. intros day.
  apply decides_first; [apply decides_update; done|]. intros [] s Hs. exact Hs.
Qed.
Lemma put_back_decides observed days : decides (put_back r observed days).
Proof.
  apply decides_then. intros []. apply decides_first; [apply decides_update; done|]. intros [] s Hs. exact Hs.
Qed.
Lemma drop_elective_decides acc failures : windowOpen ctx = true -> decides (drop_elective ctx acc r failures).
Proof.
  intros Hw. unfold drop_elective. rewrite Hw. cbn [negb]. apply decides_then. intros check.
  destruct (negb (safe check)); [destruct (pf_spec check)|].
  - apply decides_then. intros []. apply decides_first; [apply propose_again_decides|]. intros []. keep_decided.
  - apply decides_first; [apply decides_update; done|]. intros []. keep_decided.
  - apply decides_then. intros []. apply decides_first; [apply decides_update; done|]. intros []. keep_decided.
Qed.

Lemma due_decides acc : windowOpen ctx = true -> expired -> decides (due_one ctx acc r).
Proof.
  intros Hw (t & Ht & Hd & Hlong). unfold due_one.
  destruct (negb _). { apply decides_first; [apply out_of_scope_decides|intros []; apply preserves_ret]. }
  assert (Hclock : clock_elapsed ctx r = true).
  { unfold clock_elapsed. rewrite Ht. apply negb_true_iff, Z.ltb_ge. unfold OBSERVE_WALLCLOCK_MULTIPLE, DAY_MS in *. lia. }
  rewrite Hclock. unfold read_baseline. rewrite Ht.
  destruct (baselineReadOps _) as [o|]; [|by apply drop_elective_decides].
  destruct (baselineReadLatency _) as [m|]; [|by apply drop_elective_decides].
  apply decides_then. intros reading. destruct (introduced _).
  { apply decides_first; [apply reject_decides|intros []; apply preserves_ret]. }
  assert (Hout : outstayed ctx t (days_of_row ctx r) = true) by (by apply Z.ltb_lt).
  rewrite Hout. destruct (undecided _) eqn:Hu; simpl.
  { apply decides_first; [apply put_back_decides|intros []; apply preserves_ret]. }
  destruct (verdict _); try (by apply drop_elective_decides).
  apply decides_first; [apply reject_decides|intros []; apply preserves_ret].
Qed.
End turns.

(** ** The pass *)

Section pass.
Context {Live : Type} `{EngineSession Live}.

(** C8. No index is observed for ever: a finalize pass of a writable cluster that
    gets through while the change window is open leaves no row hidden for longer
    than three of its observe windows, our own outages not counted.  Whatever the
    collector measured, the row is dropped, rejected, or put back and proposed
    again. *)
Theorem observation_ends ctx (s s' : Store Live) n r :
  fc_readOnly ctx = false -> windowOpen ctx = true -> r ∈ recs s -> state r = HIDDEN -> expired ctx r ->
  finalizeCluster ctx s = (s', inr n) ->
  forall x, x ∈ recs s' -> rec_id x = rec_id r -> state x <> HIDDEN.
Proof.
  intros Hro Hw Hr Hh Hex E. unfold finalizeCluster in E. unfold mbind at 1, pass_bind at 1, get in E.
  set (due := List.filter _ (in_state HIDDEN s)) in E.
  assert (Hdue : r ∈ due).
  { apply elem_of_filter_bool. split; [|destruct Hex as (t & -> & _); done].
    apply elem_of_filter_bool. split; [done|by apply bool_decide_eq_true]. }
  match type of E with ?m s = _ => enough (Hd : decides (rec_id r) m) by (exact (Hd _ _ _ E)) end.
  apply decides_then. intros _. rewrite Hro.
  assert (Hlen : (length due =? 0)%nat = false) by (apply Nat.eqb_neq; destruct due; [by apply elem_of_nil in Hdue|done]).
  rewrite Hlen. cbn [andb]. do 5 (apply decides_then; intros ?).
  apply decides_first; [|intros acc; apply preserves_ret].
  apply (decides_for_each _ due _ _ r); [done| |].
  - intros acc. by apply due_decides.
  - intros acc y. apply decided_due.
Qed.
End pass.

(** ** On the shop *)

(** The shop's hidden index, nothing collected since, four days later. *)
Definition blind_finalize : FinalizeContext :=
  {| fc_policy := None; fc_readOnly := false; fc_canHide := true; fc_observed := None; fc_outages := [];
     fc_latency := fun _ _ => []; fc_now := 14 * DAY_MS |}.

Lemma observation_ends_witness :
  Forall (fun x => rec_id x = rec_id shop_observing -> state x <> HIDDEN)
    (recs (finalizeCluster blind_finalize shop_hiding).1).
Proof.
  apply Forall_forall. apply (observation_ends blind_finalize shop_hiding _ 0 shop_observing).
  - reflexivity.
  - reflexivity.
  - left.
  - reflexivity.
  - exists (10 * DAY_MS). split_and!; vm_compute; (reflexivity || discriminate).
  - vm_compute. reflexivity.
Defined.
