(* ===== verification/Claims.v ===== *)
(** No pass runs into the table's unique index: what each of the passes of
    [apps/api/src/jobs] and each owner's act does to the live claims of
    [recommendations_one_live_claim] ([apps/api/src/db/schema.ts]). *)
From S2P Require Import Prelude EngineTypes Preflight Store Policy FailureWatch Apply Build.
From S2P Require Import ClassifyJob Suggest Finalize Owner.

Section claims.
Context {Live : Type} `{EngineSession Live}.

(** ** Hiding *)

Lemma claim_promote threshold ids : preserves (live_ids ids) (promoteByScore (Live := Live) threshold).
Proof.
  destruct threshold as [t|]; [|apply preserves_ret]. intros s [Hc Hl].
  assert (Hp : forall r, is_live (promote t r) = is_live r).
  { intros r. unfold promote. destruct (autoApprovable r) eqn:E; [|done]. simpl. destruct (_ <=? _); [|done].
    apply autoApprovable_spec in E as (E & _). unfold is_live. by rewrite E. }
  split; simpl.
  - unfold one_claim. simpl. rewrite omap_fmap. erewrite omap_ext_elem; [exact Hc|]. intros x _.
    unfold claim_of, rec_type. by rewrite Hp, promote_finding.
  - intros x (y & -> & Hy)%list_elem_of_fmap. rewrite promote_id, Hp. auto.
Qed.

Lemma claim_keep observed now ids : preserves (live_ids ids) (keepFailureWatchesOrNone (Live := Live) observed now).
Proof. unfold keepFailureWatchesOrNone, keepFailureWatches. keep_claims. Qed.
Lemma claim_waiting rows watches now ids : preserves (live_ids ids) (noteWaitingDrops (Live := Live) rows watches now).
Proof. unfold noteWaitingDrops, note_waiting. keep_claims. Qed.

Lemma claim_withdraw watches ids (s : Store Live) :
  NoDup (rec_id <$> recs s) -> live_ids ids s -> live_ids ids (withdrawHinted watches s).1.
Proof.
  intros Hnd Hs. unfold withdrawHinted. destruct (decide _); [done|]. unfold mbind at 1, pass_bind at 1, get.
  apply (live_ids_sub ((rec_id <$> in_state APPROVED s) ++ ids)); [set_solver|].
  assert (Hl : preserves (live_ids ((rec_id <$> in_state APPROVED s) ++ ids))
    (for_each (in_state APPROVED s) [] (withdraw_one (Live := Live) watches))).
  { unfold withdraw_one. keep_claims. }
  apply Hl, live_picked; [set_solver|done|done].
Qed.

(** Ids of their own, and the rows of some ids still going. *)
Definition going (ids : list nat) (s : Store Live) : Prop := well_keyed s /\ live_ids ids s.

Lemma going_both {A} ids (m : pass Live A) :
  preserves well_keyed m -> preserves (live_ids ids) m -> preserves (going ids) m.
Proof. apply preserves_and. Qed.
Lemma going_withdraw ids watches : preserves (going ids) (withdrawHinted watches).
Proof. intros s [Hk Hs]. split; [by apply keyed_withdraw|]. apply claim_withdraw; [apply Hk|done]. Qed.
Lemma going_keep ids observed now : preserves (going ids) (keepFailureWatchesOrNone observed now).
Proof. apply going_both; [apply keyed_keep|apply claim_keep]. Qed.
Lemma going_waiting ids rows watches now : preserves (going ids) (noteWaitingDrops rows watches now).
Proof. apply going_both; [apply keyed_waiting|apply claim_waiting]. Qed.

(** Every update of the apply loop leaves its row going. *)
Lemma claim_apply_one ctx watches withdrawn r ids :
  rec_id r ∈ ids -> preserves (live_ids ids) (apply_one (Live := Live) ctx watches withdrawn r).
Proof.
  intros Hr. unfold apply_one, check_and_hide, record_hide, on_failure, noteHideFailure. keep_claims.
Qed.

Lemma going_hide_approved ctx (s1 : Store Live) :
  preserves (going ((rec_id <$> in_state APPROVED s1) ++ [])) (hide_approved ctx (in_state APPROVED s1)).
Proof.
  unfold hide_approved.
  apply preserves_bind; [apply going_keep|intros watches].
  apply preserves_bind; [apply going_withdraw|intros withdrawn].
  apply preserves_bind; [apply going_waiting|intros _].
  apply preserves_bind; [|intros out; destruct out.2; [apply preserves_ret|apply preserves_throw]].
  apply preserves_for_each. intros acc r Hr. apply preserves_bind; [|intros o; apply preserves_ret].
  apply going_both; [apply keyed_apply_one|]. apply claim_apply_one.
  rewrite app_nil_r. by apply list_elem_of_fmap_2.
Qed.

Lemma claim_apply ctx (s : Store Live) : well_keyed s -> one_claim s -> one_claim (applyCluster ctx s).1.
Proof.
  intros Hk Hc. unfold applyCluster. apply bind_post.
  { apply (live_ids_one []), claim_promote. by apply one_live_ids. }
  intros [] s1 E1. unfold mbind at 1, pass_bind at 1, get.
  assert (Hk1 : well_keyed s1).
  { pose proof (keyed_promote (Plans.autoApplyScore (automation (ac_policy ctx ?? default_policy) (ac_plan ctx))) s Hk) as Hp.
    by rewrite E1 in Hp. }
  assert (Hc1 : live_ids [] s1).
  { pose proof (claim_promote (Plans.autoApplyScore (automation (ac_policy ctx ?? default_policy) (ac_plan ctx))) [] s (one_live_ids s Hc)) as Hp.
    by rewrite E1 in Hp. }
  destruct (in_state APPROVED s1) as [|r0 rows] eqn:Ea; [apply Hc1|]. rewrite <- Ea. clear r0 rows Ea.
  destruct (negb _); [apply Hc1|]. destruct (ac_readOnly ctx); [apply Hc1|].
  destruct (going_hide_approved ctx s1 s1) as [_ [Hone _]]; [|exact Hone].
  split; [done|]. apply live_picked; [set_solver|apply Hk1|done].
Qed.

(** ** Building *)

Lemma claim_build_one now built r ids :
  rec_id r ∈ ids -> preserves (reserved ids) (build_one (Live := Live) now built r).
Proof. intros Hr. unfold build_one, finish_build, closeUnbuilt. keep_claims. Qed.

(** The rows a pass picks hold their claims while it runs. *)
Lemma held_loop {A} st (s : Store Live) (m : pass Live A) :
  st ∈ LIVE_STATES -> well_keyed s -> one_claim s ->
  preserves (reserved (rec_id <$> in_state st s)) m -> one_claim (m s).1.
Proof.
  intros Hst Hk Hc Hm. apply (reserved_one (rec_id <$> in_state st s)), Hm, live_reserved.
  rewrite <- (app_nil_r (rec_id <$> _)). apply live_picked; [done|apply Hk|by apply one_live_ids].
Qed.

Lemma claim_creates ctx (s : Store Live) : well_keyed s -> one_claim s -> one_claim (applyCreatesForCluster ctx s).1.
Proof.
  intros Hk Hc. unfold applyCreatesForCluster, mbind at 1, pass_bind at 1, get.
  apply (held_loop APPROVED); [set_solver|done|done|]. keep_claims. apply claim_build_one. picked_id.
Qed.

Lemma claim_settle_builds trim now (s : Store Live) :
  well_keyed s -> one_claim s -> one_claim (settleBuildsForCluster trim now s).1.
Proof.
  intros Hk Hc. unfold settleBuildsForCluster, mbind at 1, pass_bind at 1, get.
  apply (held_loop BUILDING); [set_solver|done|done|]. unfold settle_one, finish_build. keep_claims.
Qed.

(** ** Proposing *)

Lemma claim_classify ctx : preserves one_claim (classifyCluster (Live := Live) ctx).
Proof. unfold classifyCluster, propose, file. keep_claims. Qed.

(** Everything the suggest pass is made of. *)
Ltac unfold_suggest :=
  unfold suggestForCluster, suggest_databases, list_databases, list_database, suggest_database, purge_collection,
    judge_eligible, analyse_collection, lookup_want, commit_database, file_draft, file.
Lemma keyed_suggest `{WorkloadPorts Live, Locale} ctx : preserves well_keyed (suggestForCluster (Live := Live) ctx).
Proof. unfold_suggest. preserve. Qed.
Lemma claim_suggest `{WorkloadPorts Live, Locale} ctx : preserves one_claim (suggestForCluster (Live := Live) ctx).
Proof. unfold_suggest. keep_claims. Qed.

(** ** Finalizing *)

(** A watched build is settled already: what happens to it revives nothing. *)
Lemma claim_watch_one ctx watched loop r ids :
  rec_id r ∉ ids -> preserves (live_ids ids) (watch_one (Live := Live) ctx watched loop r).
Proof.
  intros Hr. unfold watch_one, judgeCumulative, liveWritesOf, retireSuperseded, retire_one. keep_claims.
Qed.

Lemma claim_due_one ctx acc r ids :
  rec_id r ∈ ids -> preserves (reserved ids) (due_one (Live := Live) ctx acc r).
Proof.
  intros Hr. unfold due_one, out_of_scope, reject, put_back, propose_again, un_hide, drop_elective. keep_claims.
Qed.

Lemma going_one ids (s : Store Live) : going ids s -> one_claim s.
Proof. intros [_ [? _]]. done. Qed.

Lemma going_outages ids hidden outages now : preserves (going ids) (noteOwnOutages (Live := Live) hidden outages now).
Proof. apply going_both; unfold noteOwnOutages, note_outage; [preserve|keep_claims]. Qed.

Lemma claim_finalize_loops ctx watched due ids (s : Store Live) :
  (forall r, r ∈ watched -> rec_id r ∉ ids) -> (forall r, r ∈ due -> rec_id r ∈ ids) -> going ids s ->
  one_claim ((for_each watched {| reported := []; read_tables := ∅ |} (watch_one ctx watched);;
    acc ← for_each due {| dropped := 0; freed := 0 |} (due_one ctx); mret (dropped acc)) s).1.
Proof.
  intros Hw Hd [_ Hs]. apply (leads_bind (live_ids ids)); [|done|apply live_ids_one|].
  { apply preserves_for_each. intros acc r Hr. apply claim_watch_one. auto. }
  intros _ s1 Hs1. apply (reserved_one ids). apply (leads_bind (reserved ids)); [|by apply live_reserved|done|].
  - apply preserves_for_each. intros acc r Hr. apply claim_due_one. auto.
  - intros acc s2 Hs2. exact Hs2.
Qed.

Lemma claim_finalize ctx (s : Store Live) : well_keyed s -> one_claim s -> one_claim (finalizeCluster ctx s).1.
Proof.
  intros Hk Hc. unfold finalizeCluster, mbind at 1, pass_bind at 1, get.
  set (ids := (rec_id <$> in_state HIDDEN s) ++ []).
  assert (Hg : going ids s).
  { split; [done|]. apply live_picked; [set_solver|apply Hk|by apply one_live_ids]. }
  apply (leads_bind (going ids)); [apply going_outages|done|apply going_one|]. intros _ s1 Hs1.
  destruct (_ && _); [by eapply going_one|]. destruct (fc_readOnly ctx).
  { apply (going_one ids). enough (Hp : preserves (going ids) (try_catch releaseFailureWatches (fun _ => mret tt);; mret 0))
      by by apply Hp.
    apply going_both; unfold releaseFailureWatches; [preserve|keep_claims]. }
  apply (leads_bind (going ids)); [apply going_keep|done|apply going_one|]. intros watches s2 Hs2.
  apply (leads_bind (going ids)); [apply going_withdraw|done|apply going_one|]. intros withdrawn s3 Hs3.
  apply (leads_bind (going ids)); [apply preserves_get|done|apply going_one|]. intros s4 s5 Hs5.
  apply (leads_bind (going ids)); [apply going_waiting|done|apply going_one|]. intros _ s6 Hs6.
  apply (claim_finalize_loops ctx _ _ ids); [| |done].
  - intros r [Hr _]%elem_of_filter_bool Hin. unfold ids in Hin. rewrite app_nil_r in Hin.
    apply list_elem_of_fmap in Hin as (y & E & Hy). apply elem_of_filter_bool in Hr as [Hr Hs%bool_decide_eq_true].
    apply elem_of_filter_bool in Hy as [Hy Hs'%bool_decide_eq_true].
    rewrite (NoDup_id_inj (recs s) r y) in Hs by (apply Hk || done). congruence.
  - intros r [Hr _]%elem_of_filter_bool. unfold ids. apply elem_of_app. left. by apply list_elem_of_fmap_2.
Qed.

(** ** Owners *)

Lemma claim_approve ctx id : preserves one_claim (approve (Live := Live) ctx id).
Proof.
  intros s Hs. unfold approve, ownedBy, setState, mbind, pass_bind, get. simpl.
  destruct (oc_owns ctx); [|done]. destruct (find_row (recs s) id); [|done].
  destruct (inScope _ _); [|done]. destruct (oc_readOnly ctx); [done|]. simpl.
  unfold guard_claims, mbind, pass_bind, get. case_bool_decide as Hn; [|done]. exact Hn.
Qed.
Lemma claim_rollback ctx id : preserves one_claim (rollback (Live := Live) ctx id).
Proof. unfold rollback, ownedBy, setState, veto. keep_claims. Qed.
Lemma claim_cancel ctx id days : preserves one_claim (unhideRecommendation (Live := Live) ctx id days).
Proof. unfold unhideRecommendation, ownedBy, setState, veto. keep_claims. Qed.
Lemma claim_shorten ctx id days : preserves one_claim (shortenObserveWindow (Live := Live) ctx id days).
Proof. unfold shortenObserveWindow, ownedBy, setState, shortened. keep_claims. Qed.
End claims.
