(* ===== verification/Pipeline.v ===== *)
(** The passes together.  Models the [apply] and [suggest] tasks of
    [apps/api/src/jobs/cluster-tasks.service.ts] over the passes of [Apply],
    [Build] and [Suggest]. *)
From S2P Require Import Prelude EngineTypes Preflight Regression Redundancy Store Policy Plans.
From S2P Require Import FailureWatch Memory Apply Build Finalize Failures Cooldowns StoredSpec Owner Score Observe Suggest.

Section tasks.
Context {Live : Type} `{EngineSession Live}.

(** Builds asked for earlier are settled, then drops are hidden, then builds run;
    one that throws ends the task. *)
Definition apply_task (trim : string -> string) (actx : ApplyContext) (bctx : BuildContext) : pass Live unit :=
  settleBuildsForCluster trim (ac_now actx);;
  applyCluster actx;;
  applyCreatesForCluster bctx;;
  mret tt.

(** What an analysis approved by itself is built right after it. *)
Definition suggest_task `{WorkloadPorts Live, Locale} (sctx : SuggestContext) (bctx : BuildContext) : pass Live unit :=
  '(_, instantApproved) ← suggestForCluster sctx;
  if 0 <? instantApproved then applyCreatesForCluster bctx;; mret tt else mret tt.
End tasks.

(** ** Lemmas *)

Section merge.
Context {Live : Type} `{EngineSession Live} (indexes : Live -> string -> string -> list IndexSpec)
  `{!SessionLaws Live indexes}.

Lemma hide_names l d c n l' out d' c' :
  hide l d c n = (l', out) -> names_on indexes l' d' c' = names_on indexes l d' c'.
Proof.
  intros [Hd Hf]%hide_effect. unfold names_on.
  destruct (decide ((d', c') = (d, c))) as [[= -> ->]|Hne]; [|by rewrite Hf].
  rewrite Hd. destruct out; [done|]. unfold mark_hidden. rewrite <- list_fmap_compose.
  apply list_fmap_ext. intros _ x _. simpl. by destruct (String.eqb _ _).
Qed.

(** A turn hides and shows; it neither adds nor removes an index. *)
Lemma turn_names ctx ws w r (s s' : Store Live) o d c :
  turn ctx ws w r s s' o -> names_on indexes (live s') d c = names_on indexes (live s) d c.
Proof.
  intros [_|s1 check _ _ _ _ Hl|s1 check bl bf tx _ _ _ _ _ Hh _ _|s1 e _ _ Hl]; [done|by rewrite Hl| |].
  - destruct (ac_canHide ctx); [by eapply hide_names|by rewrite Hh].
  - destruct Hl as [Hl|[[e' Hl]|(l & Hh & Hl)]]; [by rewrite Hl|by eapply hide_names|].
    rewrite Hl. destruct (unhide l _ _ _) as [l' out] eqn:Eu. simpl.
    rewrite (unhide_names indexes _ _ _ _ _ _ _ _ Eu). by eapply hide_names.
Qed.

Lemma turn_recs ctx ws w r (s s' : Store Live) o :
  turn ctx ws w r s s' o -> recs s' = recs s \/
  exists f, (forall x, rec_id (f x) = rec_id x) /\ recs s' = update_where (rec_id r) f (recs s).
Proof.
  intros [_|s1 check _ _ _ Hr _|s1 check bl bf tx _ _ _ Hr _ _ _ _|s1 e _ Hr _]; rewrite ?Hr; auto;
    right; (eexists; split; [|reflexivity]); done.
Qed.

Lemma turn_pending ctx ws w r rest (s s' : Store Live) o :
  pending (r :: rest) (recs s) -> turn ctx ws w r s s' o -> pending rest (recs s').
Proof.
  intros Hp [->|(f & Hf & ->)]%turn_recs; [by eapply pending_tail|by apply pending_update].
Qed.

(** The pre-flight of an index that is not there. *)
Lemma apply_one_absent ctx ws w r (s : Store Live) :
  passed_over ctx ws w r = false ->
  listIndexes (live s) (rec_database r) (rec_collection r) =
    inr (indexes (live s) (rec_database r) (rec_collection r)) ->
  rec_indexName r ∉ names_on indexes (live s) (rec_database r) (rec_collection r) ->
  exists s', apply_one ctx ws w r s = (s', inr SentBack) /\ live s' = live s /\
    recs s' = update_where (rec_id r) (set_state PROPOSED) (recs s).
Proof.
  intros Hp Hl Hn. unfold apply_one. rewrite Hp. unfold mbind at 1, pass_bind at 1, try_catch, check_and_hide.
  assert (Hpf : preflightLive r s =
    (s, inr {| safe := false; pf_reason := "index no longer exists"; pf_spec := None |})).
  { unfold preflightLive, mbind, pass_bind, read. rewrite Hl. unfold preflightDrop, find_index. simpl.
    destruct (List.find _ _) as [x|] eqn:Ef; [|done]. exfalso. apply Hn.
    apply find_elem in Ef as [Hx E%String.eqb_eq]. rewrite <- E. by apply list_elem_of_fmap_2. }
  unfold mbind at 1, pass_bind at 1. rewrite Hpf. by eexists.
Qed.

(** The apply pass sends an approved merge back, and the build pass leaves it. *)
Lemma merge_taken_for_drop ctx bctx (s : Store Live) r :
  NoDup (rec_id <$> recs s) -> r ∈ recs s -> state r = APPROVED -> rec_type r = MERGE ->
  window_open (policy_of ctx) (ac_now ctx) = true -> ac_readOnly ctx = false ->
  inScope (ac_observed ctx) (rec_database r) = true ->
  (forall since, watched_since (kept_watches ctx s) r = Some since ->
     FAILURE_BASELINE_MS <= ac_now ctx - since) ->
  rec_indexName r ∉ hints_on (live (kept ctx s).1) r ->
  (forall l d c, listIndexes l d c = inr (indexes l d c)) ->
  rec_indexName r ∉ names_on indexes (live s) (rec_database r) (rec_collection r) ->
  exists r', rec_id r' = rec_id r /\ state r' = PROPOSED /\ r' ∈ recs (applyCluster ctx s).1 /\
    r' ∈ recs (applyCreatesForCluster bctx (applyCluster ctx s).1).1.
Proof.
  intros Hnd Hr Hs Ht Hw Hro Hsc Hwa Hhi Hli Hn.
  set (I := fun (rest : list Recommendation) (s1 : Store Live) =>
    pending rest (recs s1) /\
    rec_indexName r ∉ names_on indexes (live s1) (rec_database r) (rec_collection r) /\
    (r ∈ rest \/ rec_id r ∉ rec_id <$> rest /\
       exists r', r' ∈ recs s1 /\ rec_id r' = rec_id r /\ state r' = PROPOSED)).
  enough (I [] (applyCluster ctx s).1) as ((Hnd' & _) & _ & [Hin|(_ & r' & Hr' & Hid & Hst)]); [set_solver| |].
  { exists r'. split_and!; try done. apply row_creates; [congruence|done]. }
  assert (Hrp : r ∈ List.filter (fun r => bool_decide (state r = APPROVED)) (promoted ctx (recs s))).
  { apply elem_of_filter_bool. split; [|by apply bool_decide_eq_true]. unfold promoted.
    destruct (autoApplyScore _) as [t|]; [|done]. apply list_elem_of_fmap. exists r. split; [|done].
    unfold promote, autoApprovable. by rewrite Hs. }
  apply (applyCluster_run indexes).
  { intros s1 _ _ [E|[E|E]]; [rewrite E in Hrp; set_solver|congruence..]. }
  intros s1 w _ _ Hl Hd Hw0.
  assert (Hnw : rec_id r ∉ w).
  { intros (x & Hx & Hid & Hh)%Hw0. apply elem_of_filter_bool in Hrp as [Hrp _].
    assert (x = r) as -> by (eapply NoDup_id_inj; [by rewrite promoted_ids|done..]).
    unfold is_hinted in Hh. apply andb_true_iff in Hh as [_ Hh%includes_spec]. by apply Hhi. }
  split.
  { split_and!; [|unfold names_on; by rewrite Hl|by left]. apply pending_start; [by rewrite promoted_ids|done]. }
  intros x rest s2 s3 o (Hp & Hn2 & Hcase) E Hturn. unfold I.
  assert (Hn3 : rec_indexName r ∉ names_on indexes (live s3) (rec_database r) (rec_collection r))
    by by rewrite (turn_names _ _ _ _ _ _ _ _ _ Hturn).
  destruct Hcase as [Hin|(Hni & r' & Hr' & Hid & Hst)].
  - apply elem_of_cons in Hin as [<-|Hin].
    + destruct (apply_one_absent ctx (kept_watches ctx s) w r s2) as (s3' & E' & Hl' & Hrec); [|done|done|].
      { unfold passed_over, is_hide_type. rewrite bool_decide_false, Hsc, Ht by done. simpl.
        destruct (watched_since _ r) as [since|]; [|done]. specialize (Hwa since eq_refl). lia. }
      rewrite E in E'. injection E' as -> ->. rewrite Hrec.
      split_and!; [by apply pending_update|done|right].
      destruct Hp as (_ & Hnd2 & Hp). csimpl in Hnd2. apply NoDup_cons in Hnd2 as [Hni _]. split; [done|].
      destruct (Hp r) as (r1 & Hr1 & Hid1 & _ & _); [left|].
      exists (set_state PROPOSED r1). rewrite <- Hid1. split_and!; try done. by apply elem_of_update_where_hit.
    + split_and!; [by eapply turn_pending|done|by left].
  - csimpl in Hni. apply not_elem_of_cons in Hni as [Hne Hni].
    split_and!; [by eapply turn_pending|done|right]. split; [done|]. exists r'. split_and!; try done.
    destruct (turn_recs _ _ _ _ _ _ _ Hturn) as [->|(f & _ & ->)]; [done|].
    apply elem_of_update_where; [done|]. congruence.
Qed.

(** An approved merge is never built inside the change window: the apply
    task takes the MERGE row for a drop, finds no index of its name to hide and
    sends it back to PROPOSED before the build pass, which then passes it over;
    whatever the task does or throws besides, the row is PROPOSED when it ends. *)
Theorem approved_merge_sent_back trim ctx bctx (s : Store Live) r :
  NoDup (rec_id <$> recs s) -> r ∈ recs s -> state r = APPROVED -> rec_type r = MERGE ->
  in_state BUILDING s = [] ->
  window_open (policy_of ctx) (ac_now ctx) = true -> ac_readOnly ctx = false ->
  inScope (ac_observed ctx) (rec_database r) = true ->
  (forall since, watched_since (kept_watches ctx s) r = Some since ->
     FAILURE_BASELINE_MS <= ac_now ctx - since) ->
  rec_indexName r ∉ hints_on (live (kept ctx s).1) r ->
  (forall l d c, listIndexes l d c = inr (indexes l d c)) ->
  rec_indexName r ∉ names_on indexes (live s) (rec_database r) (rec_collection r) ->
  exists r', rec_id r' = rec_id r /\ state r' = PROPOSED /\ r' ∈ recs (apply_task trim ctx bctx s).1.
Proof.
  intros Hnd Hr Hs Ht Hb Hw Hro Hsc Hwa Hhi Hli Hn.
  destruct (merge_taken_for_drop ctx bctx s r) as (r' & Hid & Hst & Ha & Hc); [done..|].
  exists r'. split_and!; [done..|].
  assert (Hset : settleBuildsForCluster trim (ac_now ctx) s = (s, inr 0)).
  { unfold settleBuildsForCluster, mbind, pass_bind, get. by rewrite Hb. }
  unfold apply_task, mbind, pass_bind. rewrite Hset.
  destruct (applyCluster ctx s) as [s1 [e|n]]; [done|]. simpl in *.
  by destruct (applyCreatesForCluster bctx s1) as [s2 [e|k]].
Qed.
End merge.

(** ** A drop and its undo *)

Lemma elem_of_names_inj specs (x y : IndexSpec) :
  NoDup (name <$> specs) -> x ∈ specs -> y ∈ specs -> name x = name y -> x = y.
Proof.
  induction specs as [|z specs IH]; csimpl; [set_solver|]. intros [Hz Hn]%NoDup_cons.
  intros [->|H1]%elem_of_cons [->|H2]%elem_of_cons E; auto; exfalso; apply Hz;
    [rewrite E|rewrite <- E]; by apply list_elem_of_fmap_2.
Qed.

Lemma absent_unchanged n specs :
  n ∉ name <$> specs -> without_index n specs = specs /\ forall h, mark_hidden h n specs = specs.
Proof.
  unfold without_index, mark_hidden. induction specs as [|x specs IH]; csimpl; [done|].
  intros [Hx Hn]%not_elem_of_cons. destruct (IH Hn) as [-> Hm].
  destruct (String.eqb_spec (name x) n); [congruence|]. split; [done|]. intros h. by rewrite Hm.
Qed.

(** An index removed and put back visible: the same indexes. *)
Lemma put_back_same specs spec :
  NoDup (name <$> specs) -> spec ∈ specs ->
  without_index (name spec) specs ++ [set_hidden false spec] ≡ₚ mark_hidden false (name spec) specs.
Proof.
  induction specs as [|x specs IH]; [set_solver|]. csimpl. intros [Hx Hn]%NoDup_cons [->|Hin]%elem_of_cons.
  - destruct (absent_unchanged (name x) specs Hx) as [Hw Hm]. unfold without_index, mark_hidden in *. csimpl.
    rewrite String.eqb_refl. simpl. rewrite Hw, Hm. by rewrite Permutation_app_comm.
  - unfold without_index, mark_hidden in *. csimpl. destruct (String.eqb_spec (name x) (name spec)) as [E|_].
    + exfalso. apply Hx. rewrite E. by apply list_elem_of_fmap_2.
    + simpl. by rewrite IH.
Qed.

(** A veto is in force from the moment it is recorded. *)
Lemma veto_later days now :
  (forall d, days = Some d -> 0 < d) -> now < now + proposedVetoDays (days ?? DEFAULT_OBSERVE_DAYS) * DAY_MS.
Proof.
  intros Hd. unfold proposedVetoDays, cooldownDaysFor, DAY_MS, COOLDOWN_CAP_DAYS, FIRST_COOLDOWN_WINDOWS.
  destruct days as [d|]; simpl; [specialize (Hd d eq_refl)|unfold DEFAULT_OBSERVE_DAYS]; lia.
Qed.

Section undo.
Context {Live : Type} `{EngineSession Live} (indexes : Live -> string -> string -> list IndexSpec)
  `{!SessionLaws Live indexes} (holds : IndexSpec -> Prop) `{!BuildLaws Live indexes holds}.

End undo.

(** An approved merge on the shop, to be built as [a_1_c_1]. *)
Definition shop_merge_row : Recommendation :=
  {| rec_id := 0;
     finding := {| f_type := MERGE; f_source := WORKLOAD; f_usageClass := None; f_database := "shop"; f_collection := "orders";
       f_indexName := "a_1_c_1"; f_score := 70; f_evidenceDays := None; f_estimatedBytesSaved := 0;
       f_urgent := false;
       f_targetSpec := Some {| ts_keys := ["a"; "c"]; ts_retire := ["a_1"; "c_1"]; ts_partial := None;
                               ts_options := None; ts_supersededBy := None |} |};
     state := APPROVED; rationale := ""; hide_columns := no_hide; build_columns := no_build |}.
Definition shop_merge : Store Memory := shop_store [shop_merge_row] shop.

Lemma approved_merge_sent_back_witness :
  exists r', rec_id r' = 0%nat /\ state r' = PROPOSED /\
    r' ∈ recs (apply_task (fun text => text) shop_context shop_build_context shop_merge).1.
Proof.
  apply (approved_merge_sent_back memory_indexes (fun text => text) shop_context shop_build_context
    shop_merge shop_merge_row); try reflexivity.
  - apply NoDup_singleton.
  - left.
  - intros since E. vm_compute in E. discriminate E.
  - apply (bool_decide_unpack _). vm_compute. exact I.
  - replace (names_on memory_indexes (live shop_merge) (rec_database shop_merge_row) (rec_collection shop_merge_row))
      with ["a_1"; "a_1_b_1"]%string by (vm_compute; reflexivity).
    apply (bool_decide_unpack _). vm_compute. exact I.
Defined.

