(* ===== verification/Reach.v ===== *)
(** Every sequence of the tasks, an owner's acts and the customer's own changes: the
    [apply], [classify], [suggest] and [finalize] tasks of
    [apps/api/src/jobs/cluster-tasks.service.ts], the use cases of
    [apps/api/src/recommendations/recommendations.service.ts], the narrowing of the
    selection ([apps/api/src/clusters/clusters.repository.ts]) and the disconnection
    of a cluster ([apps/api/src/clusters/offboard.ts]), as the steps of one relation.
    A step runs to its end before the next starts.  In the program tasks have a queue
    each and an owner's act may land in the middle of a pass, which this relation does
    not show; [discarded_mid_pass_strands] is what can then happen. *)
From S2P Require Import Prelude EngineTypes Preflight Store Memory Policy FailureWatch Apply Build.
From S2P Require Import ClassifyJob Suggest Finalize Owner Claims Pipeline.

Section reach.
Context {Live : Type} `{EngineSession Live} (indexes : Live -> string -> string -> list IndexSpec)
  `{!SessionLaws Live indexes} (owners : string -> string -> string -> Prop).

(** What the daily sweep does to the decisions: the rows it dooms go, their
    actions with them, and a metric of theirs loses the reference. *)
Definition sweepDecisions (doomed : Recommendation -> bool) (s : Store Live) : Store Live :=
  let gone := rec_id <$> List.filter doomed (recs s) in
  {| recs := List.filter (fun r => negb (doomed r)) (recs s);
     actions := List.filter (fun a => negb (existsb (Nat.eqb (act_rec a)) gone)) (actions s);
     cooldowns := cooldowns s;
     roi := (fun m => if existsb (fun id => bool_decide (roi_rec m = Some id)) gone
                      then {| roi_rec := None; freedBytes := freedBytes m; indexCountDelta := indexCountDelta m |}
                      else m) <$> roi s;
     nextId := nextId s; watchTable := watchTable s; notes := notes s; shapes := shapes s; live := live s |}.

(** [discardProposalsOutsideScope]: the open proposals whose database is no longer
    observed, where nothing has happened on the cluster yet. *)
Definition outside_scope (observed : option (list string)) (r : Recommendation) : bool :=
  match observed with
  | None => false
  | Some observed => bool_decide (state r ∈ [PROPOSED; APPROVED; SCHEDULED]) && negb (includes observed (rec_database r))
  end.
Definition discardProposalsOutsideScope (observed : option (list string)) : pass Live Z := fun s =>
  ((delete_recs (outside_scope observed) s).1, inr (Z.of_nat (length (List.filter (outside_scope observed) (recs s))))).

(** [restoreHiddenIndexes]; [reachable] is whether a session could be opened. *)
Definition restore_one (unhidden : Z) (r : Recommendation) : pass Live Z :=
  try_catch (write (fun l => unhide l (rec_database r) (rec_collection r) (rec_indexName r));; mret (unhidden + 1)) (fun _ => mret unhidden).
Definition restoreHiddenIndexes (reachable canHide : bool) : pass Live Z :=
  s ← get;
  let inFlight := List.filter (fun r => bool_decide (state r ∈ [HIDDEN; OBSERVE])) (recs s) in
  if (0 <? length inFlight)%nat || (0 <? length (map_to_list (watchTable s)))%nat then
    if reachable then
      try_catch releaseFailureWatches (fun _ => mret tt);;
      for_each (if canHide then inFlight else []) 0 restore_one
    else mret 0
  else mret 0.
(** The row of the cluster deleted, and by cascade all that refers to it. *)
Definition deleteById : pass Live unit := fun s =>
  ({| recs := []; actions := []; cooldowns := ∅; roi := []; nextId := nextId s; watchTable := ∅; notes := ∅; shapes := []; live := live s |}, inr tt).
(** [disconnect]: what was hidden is put back, then the cluster is deleted. *)
Definition disconnect (reachable canHide : bool) : pass Live Z :=
  unhidden ← restoreHiddenIndexes reachable canHide;
  deleteById;;
  mret unhidden.

(** One task, one owner's act or one change on the cluster by somebody else.
    The engine can hide; an approval is of a row that is not being observed; a
    cluster is disconnected while it answers; and whatever somebody else hides is
    among [owners]. *)
Inductive step (s : Store Live) : Store Live -> Prop :=
  | step_apply trim actx bctx : step s (apply_task trim actx bctx s).1
  | step_classify ctx : step s (classifyCluster ctx s).1
  | step_suggest (ports : WorkloadPorts Live) (locale : Locale) sctx bctx : step s (suggest_task sctx bctx s).1
  | step_finalize ctx : fc_canHide ctx = true -> step s (finalizeCluster ctx s).1
  | step_approve ctx id :
      (forall r, r ∈ recs s -> rec_id r = id -> state r <> HIDDEN) -> step s (approve ctx id s).1
  | step_rollback ctx id : step s (rollback ctx id s).1
  | step_unhide ctx id days : oc_canHide ctx = true -> step s (unhideRecommendation ctx id days s).1
  | step_shorten ctx id days : step s (shortenObserveWindow ctx id days s).1
  | step_retention doomed :
      (forall r, r ∈ recs s -> doomed r = true -> state r ∈ [DROPPED; REJECTED; ROLLED_BACK]) ->
      step s (sweepDecisions doomed s)
  | step_discard observed : step s (discardProposalsOutsideScope observed s).1
  | step_disconnect : step s (disconnect true true s).1
  | step_customer l :
      (forall d c n, hidden_on indexes l d c n -> hidden_on indexes (live s) d c n \/ owners d c n) ->
      step s (write (fun _ => (l, inr tt)) s).1.

(** ** Lemmas *)

(** No index hidden that was not. *)
Definition hides_no_more (l0 : Live) (s : Store Live) : Prop :=
  forall d c n, hidden_on indexes (live s) d c n -> hidden_on indexes l0 d c n.

Section hides.
Context (l0 : Live).
Lemma hides_update id f : preserves (hides_no_more l0) (update_rec id f).
Proof. intros s Hs. exact Hs. Qed.
Lemma hides_action id kind text token : preserves (hides_no_more l0) (insert_action id kind text token).
Proof. intros s Hs. exact Hs. Qed.
Lemma hides_roi row : preserves (hides_no_more l0) (insert_roi row).
Proof. intros s Hs. exact Hs. Qed.
Lemma hides_veto r reason days now : preserves (hides_no_more l0) (veto r reason days now).
Proof. intros s Hs. exact Hs. Qed.
Lemma hides_create d c ks options :
  preserves (hides_no_more l0) (write (fun l => create l d c ks options)).
Proof.
  intros s Hs d' c' n (spec & Hin & Hn & Hh). apply Hs. exists spec. split_and!; try done.
  unfold write in Hin. destruct (create (live s) d c ks options) as [l out] eqn:E. simpl in Hin.
  eapply create_hides_nothing; [|done]. by rewrite E.
Qed.
Lemma hides_settle settle d c n : settleBuild = Some settle ->
  preserves (hides_no_more l0) (write (fun l => settle l d c n)).
Proof.
  intros Es s Hs d' c' n' (spec & Hin & Hn & Hh). apply Hs. exists spec. split_and!; try done.
  unfold write in Hin. destruct (settle (live s) d c n) as [l out] eqn:E. simpl in Hin.
  eapply settle_hides_nothing; [done| |done]. by rewrite E.
Qed.
#[local] Hint Resolve hides_update hides_action hides_roi hides_veto hides_create hides_settle : passes.

Lemma hides_creates ctx : preserves (hides_no_more l0) (applyCreatesForCluster ctx).
Proof. unfold applyCreatesForCluster, build_one, finish_build, closeUnbuilt. preserve. Qed.
Lemma hides_settling trim now : preserves (hides_no_more l0) (settleBuildsForCluster trim now).
Proof. unfold settleBuildsForCluster, settle_one, finish_build. preserve. Qed.
Lemma hides_rollback ctx id : preserves (hides_no_more l0) (rollback ctx id).
Proof. unfold rollback, ownedBy, setState. preserve. Qed.
Lemma hides_approve ctx id : preserves (hides_no_more l0) (approve ctx id).
Proof. unfold approve, guard_claims, ownedBy, setState. preserve. Qed.
End hides.

Lemma keyed_sweep doomed s : well_keyed s -> well_keyed (sweepDecisions doomed s).
Proof.
  intros [Hn Hi]. split; cbn; [by apply NoDup_fmap_filter|].
  apply Forall_forall. intros r [Hr _]%elem_of_filter_bool. rewrite Forall_forall in Hi. by apply Hi.
Qed.
Lemma claim_sweep doomed s : one_claim s -> one_claim (sweepDecisions doomed s).
Proof.
  unfold one_claim. cbn. intros Hc. eapply sublist_NoDup; [exact Hc|]. clear Hc.
  induction (recs s) as [|r l IH]; [constructor|]. csimpl.
  destruct (claim_of r) as [k|] eqn:E; destruct (doomed r); csimpl; rewrite ?E; (exact IH || by constructor).
Qed.

(** The invariant: rows have ids of their own, and nothing hidden is lost track of. *)
Definition inv (s : Store Live) : Prop := well_keyed s /\ tracked indexes owners s.

(** A pass that hides nothing and leaves the observing rows keeps it. *)
Lemma inv_quiet {A} (m : pass Live A) s :
  preserves well_keyed m -> (forall l0, preserves (hides_no_more l0) m) ->
  (forall x, x ∈ recs s -> state x = HIDDEN -> x ∈ recs (m s).1) -> inv s -> inv (m s).1.
Proof.
  intros Hk Hh Hr [Hwk Ht]. split; [by apply Hk|].
  apply (tracked_step indexes owners s (m s).1 (fun _ _ _ => False)); [done| |auto].
  intros d c n Hd. split; [|tauto]. apply (Hh (live s) s); [|done]. by intros ? ? ?.
Qed.

Section tasks.
Context (Hun : forall l d c n, (unhide l d c n).2 = inr tt).

Lemma inv_apply ctx : preserves inv (applyCluster ctx).
Proof.
  intros s [Hwk Ht]. split; [by apply keyed_apply|]. intros d c n Hh.
  assert (Hnd : NoDup (rec_id <$> recs s)) by apply Hwk.
  destruct (hidden_accounted indexes ctx s d c n Hun Hnd Hh) as [Hb|(r & Hr & Hs & <- & <- & <- & _)];
    [|right; by exists r].
  destruct (Ht _ _ _ Hb) as [?|(x & Hx & Hs & E)]; [by left|]. right. exists x.
  split; [by apply row_apply|done].
Qed.

Lemma inv_creates ctx : preserves inv (applyCreatesForCluster ctx).
Proof.
  intros s Hs. apply inv_quiet; [apply keyed_creates|intros l0; apply hides_creates| |done].
  intros x Hx Hst. apply row_creates; [congruence|]. split; [done|apply Hs].
Qed.

Lemma inv_task trim actx bctx : preserves inv (apply_task trim actx bctx).
Proof.
  unfold apply_task.
  apply preserves_bind; [|intros _; apply preserves_bind; [apply inv_apply|intros _; apply preserves_bind;
    [|intros _; apply preserves_ret]]].
  - intros s Hs. apply inv_quiet; [apply keyed_settle|intros l0; apply hides_settling| |done].
    intros x Hx Hst. apply row_settle; [congruence|]. split; [done|apply Hs].
  - apply inv_creates.
Qed.

Lemma inv_classify ctx : preserves inv (classifyCluster ctx).
Proof.
  intros s [Hwk Ht]. split; [by apply keyed_classify|]. intros d c n Hh. rewrite classify_live in Hh.
  destruct (Ht _ _ _ Hh) as [?|(x & Hx & Hs & E)]; [by left|]. right. exists x.
  split; [apply classify_keeps; [done|congruence]|done].
Qed.

Lemma inv_suggest `{WorkloadPorts Live, Locale} sctx bctx : preserves inv (suggest_task sctx bctx).
Proof.
  unfold suggest_task. apply preserves_bind.
  - intros s [Hwk Ht]. split; [by apply keyed_suggest|]. intros d c n Hh. rewrite suggest_live in Hh.
    destruct (Ht _ _ _ Hh) as [?|(x & Hx & Hs & E)]; [by left|]. right. exists x.
    split; [apply suggest_keeps; [done|congruence]|done].
  - intros [created instant]. destruct (0 <? instant); [|apply preserves_ret].
    apply preserves_bind; [apply inv_creates|intros _; apply preserves_ret].
Qed.

Lemma inv_finalize ctx : fc_canHide ctx = true -> preserves inv (finalizeCluster ctx).
Proof. intros Hc s [Hwk Ht]. split; [by apply keyed_finalize|by apply finalize_tracked]. Qed.

Lemma approve_recs ctx id (s : Store Live) :
  recs (approve ctx id s).1 = recs s \/ recs (approve ctx id s).1 = update_where id (set_state APPROVED) (recs s).
Proof.
  unfold approve, ownedBy, setState, mbind, pass_bind, get. simpl. destruct (oc_owns ctx); [|auto].
  destruct (find_row (recs s) id); [|auto]. destruct (inScope _ _); [|auto]. destruct (oc_readOnly ctx); [auto|].
  simpl. pose proof (guard_claims_same id (set_state APPROVED) s) as Hg.
  destruct (guard_claims id _ s) as [s1 [e|[]]]; simpl in Hg; subst s1; simpl; [by left|by right].
Qed.

Lemma inv_approve ctx id s :
  (forall r, r ∈ recs s -> rec_id r = id -> state r <> HIDDEN) -> inv s -> inv (approve ctx id s).1.
Proof.
  intros Hid. apply inv_quiet; [apply keyed_approve|intros l0; apply hides_approve|].
  intros x Hx Hs. destruct (approve_recs ctx id s) as [-> | ->]; [done|].
  apply elem_of_update_where; [done|]. intros E. by apply (Hid x).
Qed.

Lemma rollback_recs ctx id (s : Store Live) :
  recs (rollback ctx id s).1 = recs s \/
  exists r, r ∈ recs s /\ state r = DROPPED /\
    recs (rollback ctx id s).1 = update_where (rec_id r) (set_state ROLLED_BACK) (recs s).
Proof.
  unfold rollback, ownedBy, setState, veto, insert_roi, insert_action, write, mbind, pass_bind, get. simpl.
  destruct (oc_owns ctx); [|auto]. destruct (find_row (recs s) id) as [r|] eqn:Er; [|auto].
  apply find_row_spec in Er as [Hr _]. case_bool_decide as Hs; [|auto]. simpl.
  destruct (drop_token _ _) as [token|]; [|auto]. destruct (rebuilt token) as [[ks options]|]; [|auto].
  destruct (oc_readOnly ctx); [auto|]. destruct (create _ _ _ _ _) as [l [e|o]]; [auto|]. simpl.
  right. exists r. split_and!; [done..|]. by destruct (find_row _ _).
Qed.

Lemma inv_rollback ctx id : preserves inv (rollback ctx id).
Proof.
  intros s Hs. apply inv_quiet; [apply keyed_rollback|intros l0; apply hides_rollback| |done].
  intros x Hx Hst. destruct (rollback_recs ctx id s) as [-> |(r & Hr & Hd & ->)]; [done|].
  apply elem_of_update_where; [done|]. intros E.
  assert (x = r) as -> by (eapply NoDup_id_inj; [apply Hs|done..]). congruence.
Qed.

Lemma inv_shorten ctx id days : preserves inv (shortenObserveWindow ctx id days).
Proof.
  intros s [Hwk Ht]. split; [by apply keyed_shorten|]. intros d c n.
  destruct (shorten_effect ctx id days s) as [-> Hr]. intros [?|(x & Hx & Hs & E)]%Ht; [by left|right].
  destruct Hr as [-> |(r & t & w & _ & _ & _ & _ & ->)]; [by exists x|].
  destruct (decide (rec_id x = id)) as [<-|Hne].
  - exists (shortened w x). split; [by apply elem_of_update_where_hit|done].
  - exists x. split; [by apply elem_of_update_where|done].
Qed.

(** A cancelled drop put its index back. *)
Lemma cancel_effect ctx id days (s : Store Live) :
  oc_canHide ctx = true ->
  let s' := (unhideRecommendation ctx id days s).1 in
  (recs s' = recs s /\ live s' = live s) \/
  exists r f, r ∈ recs s /\ recs s' = update_where (rec_id r) f (recs s) /\
    unhide (live s) (rec_database r) (rec_collection r) (rec_indexName r) = (live s', inr tt).
Proof.
  intros Hc. unfold unhideRecommendation, ownedBy, setState, veto, insert_action, write, mbind, pass_bind, get.
  simpl. destruct (oc_owns ctx); [|auto]. destruct (find_row (recs s) id) as [r|] eqn:Er; [|auto].
  apply find_row_spec in Er as [Hr _]. case_bool_decide; [|auto]. simpl. destruct (oc_readOnly ctx); [auto|].
  rewrite Hc. pose proof (Hun (live s) (rec_database r) (rec_collection r) (rec_indexName r)) as Hu.
  destruct (unhide _ _ _ _) as [l out] eqn:Eu. simpl in Hu. subst out. simpl. right. exists r.
  destruct (find_row (update_where _ _ _) _); eexists; (split; [done|]); (split; [reflexivity|exact Eu]).
Qed.

Lemma inv_cancel ctx id days : oc_canHide ctx = true -> preserves inv (unhideRecommendation ctx id days).
Proof.
  intros Hc s [Hwk Ht]. split; [by apply keyed_unhide|].
  destruct (cancel_effect ctx id days s Hc) as [[Hr Hl]|(r & f & Hr & Hrs & Hu)].
  - intros d c n. rewrite Hr, Hl. apply Ht.
  - eapply (tracked_step indexes owners s _ (fun d c n => (d, c, n) = (rec_database r, rec_collection r, rec_indexName r)));
      [done| |].
    + intros d c n Hh. by destruct (unhide_shows indexes _ _ _ _ _ _ _ _ Hu Hh).
    + intros x Hx Hs Hg. rewrite Hrs. apply elem_of_update_where; [done|]. intros E. apply Hg.
      by rewrite (NoDup_id_inj (recs s) x r) by (apply Hwk || done).
Qed.

Lemma inv_sweep doomed s :
  (forall r, r ∈ recs s -> doomed r = true -> state r ∈ [DROPPED; REJECTED; ROLLED_BACK]) ->
  inv s -> inv (sweepDecisions doomed s).
Proof.
  intros Hd [Hwk Ht]. split; [by apply keyed_sweep|]. intros d c n [?|(r & Hr & Hs & E)]%Ht; [by left|right].
  exists r. split; [|done]. cbn. apply elem_of_filter_bool. split; [done|]. apply negb_true_iff.
  destruct (doomed r) eqn:Ed; [|done]. specialize (Hd r Hr Ed). rewrite Hs in Hd. set_solver.
Qed.

Lemma inv_discard observed : preserves inv (discardProposalsOutsideScope observed).
Proof.
  intros s Hs. apply inv_quiet; [intros s' Hs'; by apply (keyed_delete (outside_scope observed))|by intros l0 s' Hs'| |done].
  intros x Hx Hst. cbn. apply elem_of_filter_bool. split; [done|]. unfold outside_scope. destruct observed; [|done].
  rewrite bool_decide_eq_false_2; [done|]. rewrite Hst. set_solver.
Qed.

(** Putting back: every index of the rows is shown again, and none is hidden. *)
Lemma restore_shows rows acc (s : Store Live) : exists s' n, for_each rows acc restore_one s = (s', inr n) /\
  forall d c n, hidden_on indexes (live s') d c n ->
    hidden_on indexes (live s) d c n /\ forall r, r ∈ rows -> (rec_database r, rec_collection r, rec_indexName r) <> (d, c, n).
Proof.
  revert acc s. induction rows as [|r rows IH]; intros acc s.
  { exists s, acc. split; [done|]. intros d c n Hh. split; [done|]. by intros r ?%not_elem_of_nil. }
  cbn [for_each]. unfold mbind at 1, pass_bind at 1, restore_one at 1, try_catch, mbind at 1, pass_bind at 1, write.
  pose proof (Hun (live s) (rec_database r) (rec_collection r) (rec_indexName r)) as Hu.
  destruct (unhide _ _ _ _) as [l o] eqn:Eu. cbn [snd] in Hu. subst o. cbn.
  match goal with |- context [for_each rows (acc + 1) restore_one ?s1] => destruct (IH (acc + 1) s1) as (s' & m & -> & Hh) end.
  exists s', m. split; [done|]. intros d c n [Hl Hne]%Hh. cbn [live] in Hl. destruct (unhide_shows indexes _ _ _ _ _ _ _ _ Eu Hl) as [Hs Hd].
  split; [done|]. intros x [->|Hx]%elem_of_cons; [congruence|by apply Hne].
Qed.
Lemma restore_effect (s : Store Live) : tracked indexes owners s -> exists s' n, restoreHiddenIndexes true true s = (s', inr n) /\
  forall d c n, hidden_on indexes (live s') d c n -> owners d c n.
Proof.
  intros Ht. unfold restoreHiddenIndexes, mbind at 1, pass_bind at 1, get. cbn beta iota.
  set (rows := List.filter _ (recs s)). cbv zeta.
  assert (Hin : forall r, r ∈ recs s -> state r = HIDDEN -> r ∈ rows).
  { intros r Hr Hst. apply elem_of_filter_bool. split; [done|]. apply bool_decide_eq_true. rewrite Hst. set_solver. }
  destruct ((0 <? length rows)%nat || _) eqn:Eb.
  - destruct (releaseFailureWatches_effect indexes s) as (s1 & out & E & _ & _ & _ & Hl).
    assert (try_catch releaseFailureWatches (fun _ => mret tt) s = (s1, inr tt)) as Ec by (unfold try_catch; rewrite E; by destruct out as [e|[]]).
    unfold mbind, pass_bind. rewrite Ec. destruct (restore_shows rows 0 s1) as (s2 & m & -> & Hs2). exists s2, m. split; [done|].
    intros d c n [Hh Hne]%Hs2. assert (hidden_on indexes (live s) d c n) as Hh' by (destruct Hh as (x & Hx & H1 & H2); exists x; by rewrite <- Hl).
    destruct (Ht _ _ _ Hh') as [?|(r & Hr & Hst & Er)]; [done|]. by destruct (Hne r (Hin r Hr Hst)).
  - exists s, 0. split; [done|]. apply orb_false_iff in Eb as [Eb _]. intros d c n Hh. destruct (Ht _ _ _ Hh) as [?|(r & Hr & Hst & _)]; [done|].
    specialize (Hin r Hr Hst). exfalso. destruct rows; [by apply not_elem_of_nil in Hin|done].
Qed.
Lemma inv_disconnect : preserves inv (disconnect true true).
Proof.
  intros s [Hwk Ht]. destruct (restore_effect s Ht) as (s1 & n & E & Hs1). unfold disconnect, mbind, pass_bind. rewrite E. cbn.
  split; [split; constructor|]. intros d c m Hh. left. by apply Hs1.
Qed.

(** C1. No sequence of whole passes and whole acts loses track of a hidden index:
    whatever tasks run one after another, whatever they throw half way, whatever
    owners ask between them, the selection narrowed and the cluster disconnected
    included, and whatever the customer changes between them, an index that is
    hidden is one somebody else hid, or a row is observing it, so that a later
    finalize pass will drop it or put it back. Each runs to its end before the next
    starts; the engine can hide, un-hiding does not itself fail, a cluster is
    disconnected while it can be reached, nobody approves a row that is already
    observing, and the daily sweep dooms only settled rows. An act that lands in the
    middle of a pass is outside this theorem, and can strand an index. *)
Theorem pipeline_never_strands s s' :
  well_keyed s -> tracked indexes owners s -> rtc step s s' -> well_keyed s' /\ tracked indexes owners s'.
Proof.
  intros Hwk Ht Hs. enough (inv s') by done. assert (Hi : inv s) by done. clear Hwk Ht.
  induction Hs as [|s1 s2 s3 Hstep _ IH]; [done|]. apply IH. clear IH.
  destruct Hstep as [trim actx bctx|ctx|ports locale sctx bctx|ctx Hc|ctx id Hid|ctx id|ctx id days Hc|ctx id days|doomed Hd|observed| |l Hl].
  - by apply inv_task.
  - by apply inv_classify.
  - by apply inv_suggest.
  - by apply inv_finalize.
  - by apply inv_approve.
  - by apply inv_rollback.
  - by apply inv_cancel.
  - by apply inv_shorten.
  - by apply inv_sweep.
  - by apply inv_discard.
  - by apply inv_disconnect.
  - destruct Hi as [Hwk Ht]. split; [done|]. intros d c n [Hh|Ho]%Hl; [by apply Ht|by left].
Qed.
End tasks.

(** ** One live claim per index *)

Definition claims_inv (s : Store Live) : Prop := well_keyed s /\ one_claim s.

Lemma claims_both {A} (m : pass Live A) :
  preserves well_keyed m -> (forall s, well_keyed s -> one_claim s -> one_claim (m s).1) -> preserves claims_inv m.
Proof. intros Hk Hc s [H1 H2]. split; auto. Qed.

Lemma claims_task trim actx bctx : preserves claims_inv (apply_task trim actx bctx).
Proof.
  unfold apply_task.
  apply preserves_bind; [|intros _; apply preserves_bind; [|intros _; apply preserves_bind; [|intros _; apply preserves_ret]]];
    apply claims_both; auto using keyed_settle, keyed_apply, keyed_creates, claim_settle_builds, claim_apply, claim_creates.
Qed.

Lemma claims_suggest `{WorkloadPorts Live, Locale} sctx bctx : preserves claims_inv (suggest_task sctx bctx).
Proof.
  unfold suggest_task. apply preserves_bind.
  - apply claims_both; [apply keyed_suggest|]. intros s _. apply claim_suggest.
  - intros [created instant]. destruct (0 <? instant); [|apply preserves_ret].
    apply preserves_bind; [|intros _; apply preserves_ret].
    apply claims_both; auto using keyed_creates, claim_creates.
Qed.

Lemma keyed_restore reachable canHide : preserves well_keyed (restoreHiddenIndexes reachable canHide).
Proof. unfold restoreHiddenIndexes, restore_one. preserve. Qed.
Lemma keyed_disconnect : preserves well_keyed (disconnect true true).
Proof.
  unfold disconnect. apply preserves_bind; [apply keyed_restore|]. intros n. apply preserves_bind; [|intros _; apply preserves_ret].
  intros s _. split; constructor.
Qed.
Lemma claim_disconnect : preserves one_claim (disconnect true true).
Proof.
  unfold disconnect. apply preserves_bind.
  - assert (forall f, preserves one_claim (update_watches (Live := Live) f)) by (intros f s Hs; exact Hs).
    unfold restoreHiddenIndexes, restore_one, releaseFailureWatches. preserve; apply claim_write.
  - intros n. apply preserves_bind; [|intros _; apply preserves_ret]. intros s _. constructor.
Qed.

(** C2. Nothing is ever said twice of one index: whatever tasks run one after
    another, whatever they throw, and whatever owners and customers do between them,
    no index has two rows that are still going and both want it gone, or both want
    it built. Each task and each act runs to its end before the next starts, on an
    engine that can hide; an approval is not of a row that is already observing, and
    a cluster is disconnected while it can be reached. *)
Theorem one_live_claim s s' :
  well_keyed s -> one_claim s -> rtc step s s' -> one_claim s'.
Proof.
  intros Hwk Hc Hs. enough (claims_inv s') by by destruct H0. assert (Hi : claims_inv s) by done. clear Hwk Hc.
  induction Hs as [|s1 s2 s3 Hstep _ IH]; [done|]. apply IH. clear IH.
  destruct Hstep as [trim actx bctx|ctx|ports locale sctx bctx|ctx Hc|ctx id Hid|ctx id|ctx id days Hc|ctx id days|doomed Hd|observed| |l Hl];
    [by apply claims_task| |by apply claims_suggest|..|split; [by apply keyed_sweep, Hi|by apply claim_sweep, Hi]| | |done].
  all: revert Hi; match goal with |- claims_inv ?s -> claims_inv (?m ?s).1 => apply (claims_both m) end.
  - apply keyed_classify.
  - intros s _. apply claim_classify.
  - apply keyed_finalize.
  - apply claim_finalize.
  - apply keyed_approve.
  - intros s _. apply claim_approve.
  - apply keyed_rollback.
  - intros s _. apply claim_rollback.
  - apply keyed_unhide.
  - intros s _. apply claim_cancel.
  - apply keyed_shorten.
  - intros s _. apply claim_shorten.
  - intros s Hs. by apply (keyed_delete (outside_scope observed)).
  - intros s _ Hs. by apply (claim_delete (outside_scope observed)).
  - apply keyed_disconnect.
  - intros s _. apply claim_disconnect.
Qed.
End reach.

(** ** On the shop *)

(** The shop observing a drop whose index queries have come to name. *)
Definition hinted_shop : Memory :=
  {| mem_indexes := mem_indexes (live shop_hiding); mem_usage := []; mem_hints := ["a_1"%string];
     mem_latency := mem_latency shop; mem_failed := mem_failed shop |}.
Definition hinted_hiding : Store Memory := shop_store [shop_observing] hinted_shop.

(** Approved while it is observing, then the two tasks. *)
Definition approved_hiding : Store Memory := (approve shop_owner 0 hinted_hiding).1.
Definition applied_hiding : Store Memory :=
  (apply_task (fun text => text) shop_context shop_build_context approved_hiding).1.
Definition finalized_hiding : Store Memory := (finalizeCluster shop_finalize applied_hiding).1.

(** Why an approval must not be of a row that is already observing: the
    endpoint takes a row in any state, so approving a HIDDEN one starts it over.
    When the pre-flight then refuses it, here because queries name the index, the
    row goes back to PROPOSED with the index still hidden: those queries keep
    failing, and no later finalize pass finds a row to put the index back for. *)
Theorem approve_hidden_strands :
  tracked memory_indexes (fun _ _ _ => False) hinted_hiding /\
  (approve shop_owner 0 hinted_hiding).2 = inr (inr (set_state APPROVED shop_observing)) /\
  hidden_on memory_indexes (live finalized_hiding) "shop" "orders" "a_1" /\
  recs finalized_hiding = [set_state PROPOSED shop_observing] /\
  ~ tracked memory_indexes (fun _ _ _ => False) finalized_hiding.
Proof.
  assert (Hh : hidden_on memory_indexes (live finalized_hiding) "shop" "orders" "a_1").
  { exists (set_hidden true (ascending_index "a_1" ["a"])). split; [|done]. vm_compute. left. }
  assert (Hr : recs finalized_hiding = [set_state PROPOSED shop_observing]) by (vm_compute; reflexivity).
  split_and!; [exact shop_tracked|vm_compute; reflexivity|exact Hh|exact Hr|].
  intros Ht. destruct (Ht _ _ _ Hh) as [[]|(r & Hin & Hs & _)]. rewrite Hr in Hin.
  apply list_elem_of_singleton in Hin as ->. discriminate Hs.
Qed.

(** An act between a pass's reading of a row and its turn.  The selection is narrowed
    while an apply pass runs: the approved row it has read is deleted, its turn then
    hides the index, and the update that should record it finds no row.  The index
    stays hidden and nothing knows of it. *)
Theorem discarded_mid_pass_strands :
  let read := shop_row APPROVED no_hide in
  let narrowed := (discardProposalsOutsideScope (Some ["other"%string]) shop_before).1 in
  let after := (apply_one shop_context ∅ [] read narrowed).1 in
  read ∈ recs shop_before /\ recs narrowed = [] /\ recs after = [] /\
  hidden_on memory_indexes (live after) "shop" "orders" "a_1" /\ ~ tracked memory_indexes (fun _ _ _ => False) after.
Proof.
  cbn zeta. assert (Hr : recs (apply_one shop_context ∅ [] (shop_row APPROVED no_hide) (discardProposalsOutsideScope (Some ["other"%string]) shop_before).1).1 = [])
    by (vm_compute; reflexivity).
  assert (Hh : hidden_on memory_indexes (live (apply_one shop_context ∅ [] (shop_row APPROVED no_hide)
    (discardProposalsOutsideScope (Some ["other"%string]) shop_before).1).1) "shop" "orders" "a_1").
  { exists (set_hidden true (ascending_index "a_1" ["a"])). split; [|done]. vm_compute. left. }
  split_and!; [left|vm_compute; reflexivity|exact Hr|exact Hh|].
  intros Ht. destruct (Ht _ _ _ Hh) as [[]|(r & Hin & _)]. rewrite Hr in Hin. by apply not_elem_of_nil in Hin.
Qed.

Lemma shop_visible : tracked memory_indexes (fun _ _ _ => False) shop_before.
Proof.
  intros d c n (spec & Hs & _ & Hh). exfalso. revert Hs. unfold memory_indexes. simpl.
  destruct (decide ((d, c) = ("shop", "orders"))) as [->|Hne].
  - rewrite lookup_singleton_eq. simpl.
    intros [->|[->|[]%elem_of_nil]%elem_of_cons]%elem_of_cons; discriminate Hh.
  - rewrite lookup_singleton_ne by congruence. simpl. by intros []%elem_of_nil.
Qed.

(** The shop's approved drop hidden, then finalized. *)
Lemma pipeline_never_strands_witness :
  well_keyed (finalizeCluster shop_finalize
    (apply_task (fun text => text) shop_context shop_build_context shop_before).1).1 /\
  tracked memory_indexes (fun _ _ _ => False) (finalizeCluster shop_finalize
    (apply_task (fun text => text) shop_context shop_build_context shop_before).1).1.
Proof.
  apply (pipeline_never_strands memory_indexes (fun _ _ _ => False)) with (s := shop_before).
  - reflexivity.
  - split; [apply NoDup_singleton|]. repeat constructor.
  - exact shop_visible.
  - eapply rtc_l; [apply (step_apply memory_indexes)|].
    eapply rtc_l; [apply (step_finalize memory_indexes) with (ctx := shop_finalize); reflexivity|apply rtc_refl].
Defined.

(** The shop classified, its proposal hidden, and finalized. *)
Lemma one_live_claim_witness :
  one_claim (finalizeCluster shop_finalize
    (apply_task (fun text => text) shop_context shop_build_context (classifyCluster shop_classify shop_before).1).1).1.
Proof.
  apply (one_live_claim memory_indexes (fun _ _ _ => False)) with (s := shop_before).
  - split; [apply NoDup_singleton|]. repeat constructor.
  - apply NoDup_singleton.
  - eapply rtc_l; [apply (step_classify memory_indexes)|].
    eapply rtc_l; [apply (step_apply memory_indexes)|].
    eapply rtc_l; [apply (step_finalize memory_indexes) with (ctx := shop_finalize); reflexivity|apply rtc_refl].
Defined.
