(* ===== verification/Schedule.v ===== *)
(** The schedule and the claims that keep it: [apps/api/src/jobs/schedule.ts],
    [watermark.ts], [burst.ts], [classify-cadence.ts] and [queued.ts], the
    claim half of [tick.service.ts], and the alert cooldown of
    [apps/api/src/mail/notify.ts], which lives in the same table.

    An instant is its UTC milliseconds.  Every claim is one statement of
    postgres and is one step here; between two statements of a tick any other
    tick of any replica may run, on any clock, and a tick may die anywhere. *)
From S2P Require Import Prelude Classify Score.

(** ** The passes *)

Inductive TaskName :=
  | t_collect | t_classify | t_suggest | t_apply | t_finalize | t_probe
  | scheduleProbe | scheduleCollect | scheduleSuggest | scheduleApply | scheduleFinalize
  | retention | digest.
#[export] Instance TaskName_eq_dec : EqDecision TaskName.
Proof. solve_decision. Defined.

Definition TASK_NAMES : list TaskName :=
  [t_collect; t_classify; t_suggest; t_apply; t_finalize; t_probe;
   scheduleProbe; scheduleCollect; scheduleSuggest; scheduleApply; scheduleFinalize; retention; digest].
Definition task_text (t : TaskName) : string :=
  match t with
  | t_collect => "collect" | t_classify => "classify" | t_suggest => "suggest"
  | t_apply => "apply" | t_finalize => "finalize" | t_probe => "probe"
  | scheduleProbe => "scheduleProbe" | scheduleCollect => "scheduleCollect"
  | scheduleSuggest => "scheduleSuggest" | scheduleApply => "scheduleApply"
  | scheduleFinalize => "scheduleFinalize" | retention => "retention" | digest => "digest"
  end.

Record Cadence := { fastMinutes : Z }.
Definition DEFAULT_CADENCE : Cadence := {| fastMinutes := 5 |}.
(** What the environment accepts for [FAST_PASS_INTERVAL_MINUTES]. *)
Definition minutesDividingAnHour (minutes : Z) : bool := (0 <? minutes) && (60 mod minutes =? 0).

Definition MINUTE_MS : Z := 60000.
Definition getUTCMinutes (ms : Z) : Z := (ms / MINUTE_MS) mod 60.
(** 1970-01-01 was a Thursday. *)
Definition getUTCDay (ms : Z) : Z := (ms / DAY_MS + 4) mod 7.
Definition setUTCMinutes (ms minutes : Z) : Z := (ms / HOUR_MS) * HOUR_MS + minutes * MINUTE_MS + ms mod MINUTE_MS.
Definition setUTCHours (ms hour minute : Z) : Z := (ms / DAY_MS) * DAY_MS + hour * HOUR_MS + minute * MINUTE_MS.
(** [at.setUTCDate(at.getUTCDate() - days)]. *)
Definition days_back (ms days : Z) : Z := ms - days * DAY_MS.

Definition everyMinutes (minutes now : Z) : Z :=
  let at_ := (now / MINUTE_MS) * MINUTE_MS in
  setUTCMinutes at_ (getUTCMinutes at_ / minutes * minutes).
Definition dailyAt (hour minute now : Z) : Z :=
  let at_ := setUTCHours now hour minute in
  if now <? at_ then days_back at_ 1 else at_.
Definition weeklyAt (weekday hour minute now : Z) : Z :=
  let at_ := setUTCHours now hour minute in
  let back := (getUTCDay at_ - weekday + 7) mod 7 in
  let at_ := days_back at_ back in
  if now <? at_ then days_back at_ 7 else at_.

Record ScheduledPass := { task : TaskName; cron : string; occurrenceAt : Z -> Cadence -> Z }.

Definition BURST_SCHEDULE : list ScheduledPass :=
  [{| task := scheduleCollect; cron := "0 * * * *"; occurrenceAt now _ := everyMinutes 60 now |};
   {| task := scheduleSuggest; cron := "30 * * * *"; occurrenceAt now _ := everyMinutes 60 now |};
   {| task := scheduleApply; cron := "*/5 * * * *"; occurrenceAt now c := everyMinutes (fastMinutes c) now |};
   {| task := scheduleProbe; cron := "2,7,12,17,22,27,32,37,42,47,52,57 * * * *";
      occurrenceAt now c := everyMinutes (fastMinutes c) now |};
   {| task := scheduleFinalize; cron := "0 * * * *"; occurrenceAt now _ := everyMinutes 60 now |};
   {| task := retention; cron := "0 3 * * *"; occurrenceAt now _ := dailyAt 3 0 now |};
   {| task := digest; cron := "0 9 * * 1"; occurrenceAt now _ := weeklyAt 1 9 0 now |}].

(** [lastDispatchedAt] is what the watermark table holds. *)
Definition duePasses (now : Z) (lastDispatchedAt : TaskName -> option Z) (schedule : list ScheduledPass)
    (cadence : Cadence) : list (ScheduledPass * Z) :=
  omap (fun pass =>
    let occurrence := occurrenceAt pass now cadence in
    match lastDispatchedAt (task pass) with
    | None => Some (pass, occurrence)
    | Some last => if last <? occurrence then Some (pass, occurrence) else None
    end) schedule.

Definition occurrenceMoved (since now : Z) (cadence : Cadence) (schedule : list ScheduledPass) : bool :=
  existsb (fun pass => occurrenceAt pass since cadence <? occurrenceAt pass now cadence) schedule.

(** ** Watermarks *)

(** The table [worker_watermarks]. *)
Notation Watermarks := (gmap string Z).

(** One conditional upsert; true when it wrote. *)
Definition claimWatermark (key : string) (notBefore now : Z) (w : Watermarks) : Watermarks * bool :=
  match w !! key with
  | Some at_ => if at_ <? notBefore then (<[key := now]> w, true) else (w, false)
  | None => (<[key := now]> w, true)
  end.
Definition deferWatermark (key : string) (at_ : Z) (w : Watermarks) : Watermarks := <[key := at_]> w.

Definition passKey (pass : string) : string := "pass:" +:+ pass.
Definition alertKey (scope : string) : string := "alert:" +:+ scope.
Definition chaseKey (pass clusterId : string) : string := "chase:" +:+ pass +:+ ":" +:+ clusterId.
Definition RESET_LOCKS_PASS : string := "resetLocks".

(** ** The claims of a tick *)

Definition last_dispatched (w : Watermarks) (t : TaskName) : option Z := w !! passKey (task_text t).

(** What a tick has done so far: the table, the passes it enqueued with the
    occurrence each was enqueued for, oldest first, and the ones it lost. *)
Record Burst := { b_marks : Watermarks; dispatched : list (TaskName * Z); alreadyClaimed : list TaskName }.

(** One turn of the loop: the claim, then the enqueue. *)
Definition claim_pass (now : Z) (b : Burst) (due : ScheduledPass * Z) : Burst :=
  let '(pass, occurrence) := due in
  let '(w, won) := claimWatermark (passKey (task_text (task pass))) occurrence now (b_marks b) in
  if won
  then {| b_marks := w; dispatched := dispatched b ++ [(task pass, occurrence)]; alreadyClaimed := alreadyClaimed b |}
  else {| b_marks := w; dispatched := dispatched b; alreadyClaimed := alreadyClaimed b ++ [task pass] |}.

Definition claimDuePasses (now : Z) (cadence : Cadence) (w : Watermarks) : Burst :=
  foldl (claim_pass now) {| b_marks := w; dispatched := []; alreadyClaimed := [] |}
    (duePasses now (last_dispatched w) BURST_SCHEDULE cadence).

(** [releaseLocks]: the claim the stale-lock repair takes first. *)
Definition claimRepair (now : Z) (cadence : Cadence) (w : Watermarks) : Watermarks * bool :=
  claimWatermark (passKey RESET_LOCKS_PASS) (everyMinutes (fastMinutes cadence) now) now w.

(** What one process remembers between ticks. *)
Record TickMemory := { resolvedAt : option Z; drainsInFlight : Z; lastDrainComplete : bool; queued : bool }.

Definition nothingToDo (now : Z) (cadence : Cadence) (m : TickMemory) : bool :=
  if fastMinutes cadence <=? fastMinutes DEFAULT_CADENCE then false
  else match resolvedAt m with
       | None => false
       | Some since =>
           if (0 <? drainsInFlight m) || negb (lastDrainComplete m) then false
           else if queued m then false
           else negb (occurrenceMoved since now cadence BURST_SCHEDULE)
       end.

(** ** When classify is chased *)

Record ChaseIntervals := { minIntervalMs : Z; idleIntervalMs : Z }.
Definition chaseNotBefore (now : Z) (evidenceLanded : bool) (intervals : ChaseIntervals) : Z :=
  let elapsed := if evidenceLanded then minIntervalMs intervals
                 else Z.max (minIntervalMs intervals) (idleIntervalMs intervals) in
  now - elapsed.
Definition classifyChaseIsDue (clusterId : string) (evidenceLanded : bool) (intervals : ChaseIntervals) (now : Z)
    (w : Watermarks) : Watermarks * bool :=
  claimWatermark (chaseKey "classify" clusterId) (chaseNotBefore now evidenceLanded intervals) now w.

(** ** Alerts *)

Definition ALERT_COOLDOWN_MS : Z := 24 * 60 * 60 * 1000.
Definition ALERT_RETRY_MS : Z := 5 * 60 * 1000.
Definition alertAllowed (key : string) (cooldownMs now : Z) (w : Watermarks) : Watermarks * bool :=
  claimWatermark (alertKey key) (now - cooldownMs) now w.
Definition alertSettled (attempted delivered : Z) (transportConfigured : bool) : bool :=
  (0 <? delivered) || (attempted =? 0) || negb transportConfigured.
(** [settled] is what the send reports.  The second component is whether it was
    called. *)
Definition raiseAlert (key : string) (settled : bool) (now : Z) (w : Watermarks) : Watermarks * bool :=
  let '(w, allowed) := alertAllowed key ALERT_COOLDOWN_MS now w in
  if negb allowed then (w, false)
  else if settled then (w, true)
  else (deferWatermark (alertKey key) (now - ALERT_COOLDOWN_MS + ALERT_RETRY_MS) w, true).

(** ** Ticks side by side *)

(** A tick that has read the watermarks and works down its due passes. *)
Record Tick := { tick_now : Z; tick_cadence : Cadence; tick_due : list (ScheduledPass * Z) }.
Record Fleet := { marks : Watermarks; ticks : list Tick; enqueued : list (TaskName * Z) }.

Definition begin_tick (now : Z) (cadence : Cadence) (w : Watermarks) : Tick :=
  {| tick_now := now; tick_cadence := cadence;
     tick_due := duePasses now (last_dispatched w) BURST_SCHEDULE cadence |}.

Inductive fleet_step : Fleet -> Fleet -> Prop :=
  | tick_begins f now cadence :
      minutesDividingAnHour (fastMinutes cadence) = true ->
      fleet_step f {| marks := marks f; ticks := begin_tick now cadence (marks f) :: ticks f; enqueued := enqueued f |}
  | tick_claims f now cadence due rest before after :
      ticks f = before ++ {| tick_now := now; tick_cadence := cadence; tick_due := due :: rest |} :: after ->
      fleet_step f
        (let b := claim_pass now {| b_marks := marks f; dispatched := enqueued f; alreadyClaimed := [] |} due in
         {| marks := b_marks b; ticks := before ++ {| tick_now := now; tick_cadence := cadence; tick_due := rest |} :: after;
            enqueued := dispatched b |})
  | tick_dies_claimed f now cadence due rest before after :
      ticks f = before ++ {| tick_now := now; tick_cadence := cadence; tick_due := due :: rest |} :: after ->
      fleet_step f
        {| marks := b_marks (claim_pass now {| b_marks := marks f; dispatched := []; alreadyClaimed := [] |} due);
           ticks := before ++ after; enqueued := enqueued f |}
  | tick_ends f t before after :
      ticks f = before ++ t :: after ->
      fleet_step f {| marks := marks f; ticks := before ++ after; enqueued := enqueued f |}
  | repair_claims f now cadence :
      fleet_step f {| marks := fst (claimRepair now cadence (marks f)); ticks := ticks f; enqueued := enqueued f |}
  | chase_claims f clusterId evidence intervals now :
      fleet_step f {| marks := fst (classifyChaseIsDue clusterId evidence intervals now (marks f));
                      ticks := ticks f; enqueued := enqueued f |}
  | alert_raised f key settled now :
      fleet_step f {| marks := fst (raiseAlert key settled now (marks f)); ticks := ticks f; enqueued := enqueued f |}.

Definition fresh_fleet : Fleet := {| marks := ∅; ticks := []; enqueued := [] |}.
Definition fleet_reachable : Fleet -> Prop := rtc fleet_step fresh_fleet.

(** The occurrences of one pass that were enqueued, oldest first. *)
Definition occurrences_of (t : TaskName) (log : list (TaskName * Z)) : list Z :=
  omap (fun '(t', o) => if bool_decide (t' = t) then Some o else None) log.

(** ** Occurrences *)

(** What the claims rely on of an [occurrenceAt]: the latest point of a fixed
    set at or before the instant. *)
Class Recurring (occ : Z -> Z) := {
  occ_le x : occ x <= x;
  occ_mono x y : x <= y -> occ x <= occ y;
  occ_idem x : occ (occ x) = occ x;
}.

(** It is the latest: an occurrence not after [s] is not after [s]'s own. *)
Lemma occ_latest occ `{Recurring occ} now s : occ now <= s -> occ now <= occ s.
Proof. intros Hs%(occ_mono (occ := occ)). by rewrite occ_idem in Hs. Qed.

(** Every [period], from [anchor]. *)
Definition anchored (period anchor x : Z) : Z := (x - anchor) / period * period + anchor.

Lemma anchored_unique period anchor k x :
  k * period + anchor <= x < k * period + anchor + period -> anchored period anchor x = k * period + anchor.
Proof.
  intros Hx. unfold anchored. f_equal. f_equal. symmetry.
  apply (Z.div_unique_pos _ _ _ (x - anchor - k * period)); lia.
Qed.

Lemma anchored_recurring period anchor : 0 < period -> Recurring (anchored period anchor).
Proof.
  intros Hp. unfold anchored. split.
  - intros x. pose proof (Z.mul_div_le (x - anchor) period Hp). lia.
  - intros x y Hxy. pose proof (Z.div_le_mono (x - anchor) (y - anchor) period Hp). nia.
  - intros x. replace ((x - anchor) / period * period + anchor - anchor) with ((x - anchor) / period * period) by lia.
    by rewrite Z.div_mul by lia.
Qed.

(** Every [step] from the start of each [period], which the last step may cut short. *)
Definition stepped (period step x : Z) : Z := x / period * period + x mod period / step * step.

Lemma stepped_within period step x :
  0 < period -> 0 < step -> x / period * period <= stepped period step x <= x.
Proof.
  intros Hp Hs. unfold stepped.
  pose proof (Z.mul_div_le (x mod period) step Hs). pose proof (Z.div_mod x period).
  pose proof (Z.mod_pos_bound x period Hp).
  pose proof (Z.div_pos (x mod period) step). nia.
Qed.

Lemma stepped_recurring period step : 0 < period -> 0 < step -> Recurring (stepped period step).
Proof.
  intros Hp Hs. split.
  - intros x. by apply stepped_within.
  - intros x y Hxy. pose proof (stepped_within period step x Hp Hs) as Hx.
    pose proof (stepped_within period step y Hp Hs) as Hy.
    pose proof (Z.div_le_mono x y period Hp Hxy) as [Hd|Hd]%Zle_lt_or_eq.
    + pose proof (Z.mod_pos_bound x period Hp). pose proof (Z.div_mod x period). nia.
    + unfold stepped. rewrite Hd. apply Z.add_le_mono_l, Z.mul_le_mono_nonneg_r; [lia|].
      apply Z.div_le_mono; [done|]. rewrite !Z.mod_eq by lia. rewrite Hd. lia.
  - intros x. pose proof (stepped_within period step x Hp Hs) as Hx.
    assert (Hq : stepped period step x / period = x / period).
    { pose proof (Z.mod_pos_bound x period Hp). pose proof (Z.div_mod x period). symmetry.
      apply (Z.div_unique_pos _ _ _ (stepped period step x - period * (x / period))); lia. }
    unfold stepped at 1. rewrite Z.mod_eq, Hq by lia.
    replace (stepped period step x - period * (x / period)) with (x mod period / step * step)
      by (unfold stepped; lia).
    by rewrite Z.div_mul by lia.
Qed.

Lemma everyMinutes_stepped minutes now :
  0 < minutes -> everyMinutes minutes now = stepped HOUR_MS (minutes * MINUTE_MS) now.
Proof.
  intros Hm. unfold everyMinutes, stepped, setUTCMinutes, getUTCMinutes, HOUR_MS, MINUTE_MS.
  rewrite Z.div_mul by lia. rewrite Z.mod_mul by lia.
  replace (now / 60000 * 60000 / 3600000) with (now / 3600000); cycle 1.
  { change 3600000 with (60000 * 60). rewrite <- !Z.div_div by lia. by rewrite Z.div_mul by lia. }
  replace (now mod 3600000 / (minutes * 60000)) with ((now / 60000) mod 60 / minutes); [lia|].
  rewrite Z.mul_comm, <- Z.div_div by lia. f_equal.
  change 3600000 with (60000 * 60). rewrite Z.rem_mul_r by lia.
  rewrite (Z.mul_comm 60000), Z.div_add, (Z.div_small (now mod 60000)) by (try apply Z.mod_pos_bound; lia). lia.
Qed.

Lemma dailyAt_anchored hour minute now :
  0 <= hour * HOUR_MS + minute * MINUTE_MS < DAY_MS ->
  dailyAt hour minute now = anchored DAY_MS (hour * HOUR_MS + minute * MINUTE_MS) now.
Proof.
  intros Hoff. unfold dailyAt, days_back, setUTCHours. set (off := hour * HOUR_MS + minute * MINUTE_MS) in *.
  pose proof (Z.div_mod now DAY_MS). pose proof (Z.mod_pos_bound now DAY_MS).
  assert (0 < DAY_MS) by (unfold DAY_MS; lia).
  rewrite <- Z.add_assoc. fold off. case (Z.ltb_spec now (now / DAY_MS * DAY_MS + off)); intros Hlt.
  - rewrite (anchored_unique _ _ (now / DAY_MS - 1)); lia.
  - rewrite (anchored_unique _ _ (now / DAY_MS)); lia.
Qed.

Definition WEEK_MS : Z := 7 * DAY_MS.
Lemma weeklyAt_anchored weekday hour minute now :
  0 <= hour * HOUR_MS + minute * MINUTE_MS < DAY_MS ->
  weeklyAt weekday hour minute now =
  anchored WEEK_MS ((weekday - 4) * DAY_MS + hour * HOUR_MS + minute * MINUTE_MS) now.
Proof.
  intros Hoff. unfold weeklyAt, days_back, setUTCHours, getUTCDay. set (off := hour * HOUR_MS + minute * MINUTE_MS) in *.
  assert (0 < DAY_MS) by (unfold DAY_MS; lia).
  rewrite <- !(Z.add_assoc _ (hour * HOUR_MS)). fold off.
  assert (Hd : (now / DAY_MS * DAY_MS + off) / DAY_MS = now / DAY_MS).
  { symmetry. apply (Z.div_unique_pos _ _ _ off); lia. }
  rewrite Hd. clear Hd. pose proof (Z.div_mod now DAY_MS). pose proof (Z.mod_pos_bound now DAY_MS).
  set (d := now / DAY_MS) in *. set (x := (d + 4) mod 7 - weekday + 7).
  pose proof (Z.div_mod x 7). pose proof (Z.mod_pos_bound x 7).
  pose proof (Z.div_mod (d + 4) 7). set (back := x mod 7) in *.
  set (k := (d + 4) / 7 + x / 7 - 1).
  assert (Hk : d * DAY_MS + off - back * DAY_MS = k * WEEK_MS + ((weekday - 4) * DAY_MS + off)).
  { replace d with (back + 7 * k + weekday - 4) at 1 by (unfold k, x in *; lia). unfold WEEK_MS. lia. }
  case (Z.ltb_spec now (d * DAY_MS + off - back * DAY_MS)); intros Hlt.
  - rewrite (anchored_unique _ _ (k - 1)); [|unfold WEEK_MS in *]; [unfold WEEK_MS in *; lia|].
    assert (back = 0) by nia. lia.
  - rewrite (anchored_unique _ _ k); [lia|]. rewrite <- Hk. unfold WEEK_MS. split; [lia|].
    assert (back <= 6) by lia. nia.
Qed.

Lemma recurring_ext occ occ' : (forall x, occ x = occ' x) -> Recurring occ -> Recurring occ'.
Proof. intros E [Hle Hmono Hidem]. split; intros *; rewrite <- !E; eauto. Qed.

Lemma everyMinutes_recurring minutes : 0 < minutes -> Recurring (everyMinutes minutes).
Proof.
  intros Hm. eapply recurring_ext; [intros x; symmetry; by apply everyMinutes_stepped|].
  apply stepped_recurring; unfold HOUR_MS, MINUTE_MS; lia.
Qed.

(** Every pass of the schedule recurs. *)
Lemma schedule_recurs cadence pass :
  minutesDividingAnHour (fastMinutes cadence) = true -> pass ∈ BURST_SCHEDULE ->
  Recurring (fun now => occurrenceAt pass now cadence).
Proof.
  unfold minutesDividingAnHour. intros [Hm%Z.ltb_lt _]%andb_true_iff Hin.
  repeat (apply elem_of_cons in Hin as [->|Hin]; [cbn|]); [..|by apply elem_of_nil in Hin];
    try (by apply everyMinutes_recurring).
  - eapply recurring_ext; [intros x; symmetry; by apply dailyAt_anchored|].
    by apply anchored_recurring.
  - eapply recurring_ext; [intros x; symmetry; by apply weeklyAt_anchored|].
    by apply anchored_recurring.
Qed.

(** ** Claims *)

Lemma passKey_inj t t' : passKey (task_text t) = passKey (task_text t') -> t = t'.
Proof. destruct t, t'; try done; discriminate. Qed.
Lemma passKey_repair t : passKey RESET_LOCKS_PASS <> passKey (task_text t).
Proof. by destruct t. Qed.
Lemma alertKey_pass key pass : alertKey key <> passKey pass.
Proof. discriminate. Qed.
Lemma chaseKey_pass pass' clusterId pass : chaseKey pass' clusterId <> passKey pass.
Proof. discriminate. Qed.
#[export] Hint Resolve passKey_repair alertKey_pass chaseKey_pass : js.

Lemma claimWatermark_won key notBefore now w w' :
  claimWatermark key notBefore now w = (w', true) ->
  w' = <[key := now]> w /\ (forall at_, w !! key = Some at_ -> at_ < notBefore).
Proof.
  unfold claimWatermark. destruct (w !! key) as [at_|]; [case (Z.ltb_spec at_ notBefore)|]; intros; simplify_eq.
  - split; [done|]. intros ? [= <-]. done.
  - split; [done|]. discriminate.
Qed.
Lemma claimWatermark_lost key notBefore now w w' :
  claimWatermark key notBefore now w = (w', false) -> w' = w /\ exists at_, w !! key = Some at_ /\ notBefore <= at_.
Proof.
  unfold claimWatermark. destruct (w !! key) as [at_|]; [case (Z.ltb_spec at_ notBefore)|]; intros; simplify_eq. eauto.
Qed.
Lemma claimWatermark_other key notBefore now w key' :
  key <> key' -> fst (claimWatermark key notBefore now w) !! key' = w !! key'.
Proof.
  intros Hk. destruct (claimWatermark key notBefore now w) as [w' []] eqn:E.
  - apply claimWatermark_won in E as [-> _]. by apply lookup_insert_ne.
  - by apply claimWatermark_lost in E as [-> _].
Qed.

(** The passes' marks only move forward. *)
Definition marks_le (w w' : Watermarks) : Prop :=
  forall t m, last_dispatched w t = Some m -> exists m', last_dispatched w' t = Some m' /\ m <= m'.
#[export] Instance marks_le_preorder : PreOrder marks_le.
Proof.
  split; [by intros w t m ?; exists m|].
  intros w1 w2 w3 H12 H23 t m Hm. destruct (H12 t m Hm) as (m2 & H2 & ?). destruct (H23 t m2 H2) as (m3 & ? & ?).
  exists m3. split; [done|lia].
Qed.
Lemma marks_le_other w w' : (forall t, last_dispatched w' t = last_dispatched w t) -> marks_le w w'.
Proof. intros E t m Hm. exists m. by rewrite E. Qed.

Definition covers (w : Watermarks) (t : TaskName) (o : Z) : Prop :=
  exists m, last_dispatched w t = Some m /\ o <= m.
Lemma covers_le w w' t o : marks_le w w' -> covers w t o -> covers w' t o.
Proof. intros Hle (m & Hm & Ho). destruct (Hle t m Hm) as (m' & ? & ?). exists m'. split; [done|lia]. Qed.

(** What was enqueued is in order, and behind the marks. *)
Definition log_ok (w : Watermarks) (log : list (TaskName * Z)) : Prop :=
  forall t, StronglySorted Z.lt (occurrences_of t log) /\ (forall o, o ∈ occurrences_of t log -> covers w t o).
Lemma log_ok_le w w' log : marks_le w w' -> log_ok w log -> log_ok w' log.
Proof. intros Hle Hlog t. destruct (Hlog t) as [? Hc]. split; [done|]. eauto using covers_le. Qed.

Lemma sorted_snoc (l : list Z) o : StronglySorted Z.lt l -> (forall x, x ∈ l -> x < o) -> StronglySorted Z.lt (l ++ [o]).
Proof.
  induction l as [|x l IH]; intros Hs Ho; cbn; [by repeat constructor|].
  inversion_clear Hs as [|? ? Hl Hx]. constructor.
  - apply IH; [done|]. intros y Hy. apply Ho. by right.
  - apply Forall_app. split; [done|]. constructor; [|done]. apply Ho. by left.
Qed.
Lemma sorted_nodup (l : list Z) : StronglySorted Z.lt l -> NoDup l.
Proof.
  induction 1 as [|x l Hl IH Hx]; constructor; [|done]. intros Hin. rewrite Forall_forall in Hx.
  specialize (Hx _ Hin). lia.
Qed.

Lemma claim_pass_other now b due t : t <> task due.1 -> last_dispatched (b_marks (claim_pass now b due)) t = last_dispatched (b_marks b) t.
Proof.
  intros Ht. destruct due as [pass o]. unfold claim_pass, last_dispatched.
  pose proof (claimWatermark_other (passKey (task_text (task pass))) o now (b_marks b) (passKey (task_text t))) as H.
  destruct (claimWatermark _ _ _ _) as [w []]; cbn in *; apply H; intros ?%passKey_inj; naive_solver.
Qed.

Lemma claim_pass_covers now b pass o : o <= now -> covers (b_marks (claim_pass now b (pass, o))) (task pass) o.
Proof.
  intros Ho. unfold claim_pass, covers, last_dispatched. destruct (claimWatermark _ _ _ _) as [w []] eqn:E; cbn.
  - apply claimWatermark_won in E as [-> _]. exists now. by rewrite lookup_insert_eq.
  - by apply claimWatermark_lost in E as [-> ?].
Qed.

Lemma claim_pass_le now b pass o : o <= now -> marks_le (b_marks b) (b_marks (claim_pass now b (pass, o))).
Proof.
  intros Ho t m Hm. destruct (decide (t = task pass)) as [->|Ht]; cycle 1.
  { exists m. rewrite claim_pass_other; [done|]. exact Ht. }
  unfold claim_pass, last_dispatched in *. destruct (claimWatermark _ _ _ _) as [w []] eqn:E; cbn.
  - apply claimWatermark_won in E as [-> Hlt]. exists now. rewrite lookup_insert_eq. split; [done|].
    apply Hlt in Hm. lia.
  - apply claimWatermark_lost in E as [-> _]. by exists m.
Qed.

Lemma occurrences_app t log log' : occurrences_of t (log ++ log') = occurrences_of t log ++ occurrences_of t log'.
Proof. apply omap_app. Qed.
Lemma occurrences_snoc t log t' o :
  occurrences_of t (log ++ [(t', o)]) = occurrences_of t log ++ (if bool_decide (t' = t) then [o] else []).
Proof. rewrite occurrences_app. cbn. by destruct (bool_decide _). Qed.

(** One claim keeps the log in order: it succeeds only past every occurrence already enqueued. *)
Lemma claim_pass_log now b pass o :
  o <= now -> log_ok (b_marks b) (dispatched b) ->
  log_ok (b_marks (claim_pass now b (pass, o))) (dispatched (claim_pass now b (pass, o))).
Proof.
  intros Ho Hlog. pose proof (claim_pass_covers now b pass o Ho) as Hcov.
  pose proof (log_ok_le _ _ _ (claim_pass_le now b pass o Ho) Hlog) as Hok. revert Hcov Hok.
  unfold claim_pass. destruct (claimWatermark _ _ _ _) as [w []] eqn:E; cbn; [|done]. intros Hcov Hok t.
  apply claimWatermark_won in E as [-> Hlt]. rewrite occurrences_snoc. destruct (Hok t) as [Hs Hc].
  case_bool_decide as Ht; [subst t|by rewrite app_nil_r]. split.
  - apply sorted_snoc; [done|]. intros x Hx. destruct (Hlog (task pass)) as [_ Hm].
    destruct (Hm x Hx) as (m & Hm' & ?). apply Hlt in Hm'. lia.
  - intros x [Hx|Hx]%elem_of_app; [by apply Hc|]. apply list_elem_of_singleton in Hx as ->. done.
Qed.

(** ** Interleaved ticks *)

(** A tick in flight: each pass it still owes is due for it, and every other one is covered. *)
Record tick_ok (w : Watermarks) (tk : Tick) : Prop := {
  ok_cadence : minutesDividingAnHour (fastMinutes (tick_cadence tk)) = true;
  ok_due p o : (p, o) ∈ tick_due tk -> p ∈ BURST_SCHEDULE /\ o = occurrenceAt p (tick_now tk) (tick_cadence tk);
  ok_rest p : p ∈ BURST_SCHEDULE ->
    covers w (task p) (occurrenceAt p (tick_now tk) (tick_cadence tk)) \/
    (p, occurrenceAt p (tick_now tk) (tick_cadence tk)) ∈ tick_due tk;
}.
Lemma tick_ok_le w w' tk : marks_le w w' -> tick_ok w tk -> tick_ok w' tk.
Proof. intros Hle [? ? Hr]. split; [done..|]. intros p [Hc|?]%Hr; eauto using covers_le. Qed.

Record fleet_ok (f : Fleet) : Prop := {
  fleet_ticks : Forall (tick_ok (marks f)) (ticks f);
  fleet_log : log_ok (marks f) (enqueued f);
}.

Lemma begin_tick_ok now cadence w : minutesDividingAnHour (fastMinutes cadence) = true -> tick_ok w (begin_tick now cadence w).
Proof.
  intros Hc. split; [done| |]; cbn [begin_tick tick_due tick_now tick_cadence]; unfold duePasses.
  - intros p o (x & Hx & E)%list_elem_of_omap. destruct (last_dispatched w (task x)); [case_match|]; simplify_eq; done.
  - intros p Hp. destruct (last_dispatched w (task p)) as [m|] eqn:Hm.
    + case (Z.ltb_spec m (occurrenceAt p now cadence)); intros Hlt; [right|left; by exists m].
      apply list_elem_of_omap. exists p. split; [done|]. rewrite Hm. cbn zeta. by rewrite (proj2 (Z.ltb_lt _ _) Hlt).
    + right. apply list_elem_of_omap. exists p. split; [done|]. by rewrite Hm.
Qed.

Lemma tick_due_le w now cadence p o rest :
  tick_ok w {| tick_now := now; tick_cadence := cadence; tick_due := (p, o) :: rest |} -> o <= now.
Proof.
  intros [Hc Hd _]. destruct (Hd p o) as [Hp ->]; [left|]. cbn in *. pose proof (schedule_recurs _ _ Hc Hp).
  apply (occ_le (occ := fun now => occurrenceAt p now cadence)).
Qed.

Lemma tick_advances w w' now cadence p o rest :
  marks_le w w' -> covers w' (task p) o ->
  tick_ok w {| tick_now := now; tick_cadence := cadence; tick_due := (p, o) :: rest |} ->
  tick_ok w' {| tick_now := now; tick_cadence := cadence; tick_due := rest |}.
Proof.
  intros Hle Hcov [Hc Hd Hr]. cbn in *. split; [done| |]; cbn.
  - intros p' o' Hin. apply Hd. by right.
  - intros p' Hp'. destruct (Hr p' Hp') as [?|[E|?]%elem_of_cons]; eauto using covers_le. left. by injection E as -> <-.
Qed.

(** A claim of another namespace leaves the passes' marks alone. *)
Lemma repair_le now cadence w : marks_le w (fst (claimRepair now cadence w)).
Proof. apply marks_le_other. intros t. apply claimWatermark_other. auto with js. Qed.
Lemma chase_le clusterId evidence intervals now w : marks_le w (fst (classifyChaseIsDue clusterId evidence intervals now w)).
Proof. apply marks_le_other. intros t. apply claimWatermark_other. auto with js. Qed.
Lemma raiseAlert_other key settled now w key' :
  alertKey key <> key' -> fst (raiseAlert key settled now w) !! key' = w !! key'.
Proof.
  intros Hk. unfold raiseAlert, alertAllowed, deferWatermark.
  pose proof (claimWatermark_other (alertKey key) (now - ALERT_COOLDOWN_MS) now w key' Hk) as H.
  destruct (claimWatermark _ _ _ _) as [w' []]; cbn in *; [|done].
  destruct settled; cbn; [done|]. by rewrite lookup_insert_ne.
Qed.
Lemma alert_le key settled now w : marks_le w (fst (raiseAlert key settled now w)).
Proof. apply marks_le_other. intros t. apply raiseAlert_other. auto with js. Qed.
#[export] Hint Resolve repair_le chase_le alert_le : js.

Lemma fleet_advances f w : fleet_ok f -> marks_le (marks f) w -> fleet_ok {| marks := w; ticks := ticks f; enqueued := enqueued f |}.
Proof.
  intros [Ht Hl] Hle. split; cbn; [|by eapply log_ok_le]. eapply Forall_impl; [exact Ht|]. intros tk. by apply tick_ok_le.
Qed.

(** Every step keeps the fleet in order and the marks moving forward. *)
Lemma fleet_step_ok f f' : fleet_step f f' -> fleet_ok f -> fleet_ok f' /\ marks_le (marks f) (marks f').
Proof.
  intros Hs Hok. pose proof Hok as [Ht Hl].
  destruct Hs as [f now cadence Hc|f now cadence [p o] rest before after E|f now cadence [p o] rest before after E
                 |f t before after E|f now cadence|f clusterId evidence intervals now|f key settled now].
  - split; [split; cbn; [constructor; [by apply begin_tick_ok|done]|done]|reflexivity].
  - rewrite E in Ht. apply Forall_app in Ht as [Hb [Htk Ha]%Forall_cons].
    pose proof (tick_due_le _ _ _ _ _ _ Htk) as Ho. cbn zeta.
    set (b := {| b_marks := marks f; dispatched := enqueued f; alreadyClaimed := [] |}).
    pose proof (claim_pass_le now b p o Ho) as Hle. split; [split|done]; cbn [marks ticks enqueued].
    + apply Forall_app. split; [|apply Forall_cons; split].
      * eapply Forall_impl; [exact Hb|]. intros tk. by apply tick_ok_le.
      * eapply tick_advances; [exact Hle| |exact Htk]. by apply claim_pass_covers.
      * eapply Forall_impl; [exact Ha|]. intros tk. by apply tick_ok_le.
    + by apply (claim_pass_log now b).
  - rewrite E in Ht. apply Forall_app in Ht as [Hb [Htk Ha]%Forall_cons].
    pose proof (tick_due_le _ _ _ _ _ _ Htk) as Ho.
    pose proof (claim_pass_le now {| b_marks := marks f; dispatched := []; alreadyClaimed := [] |} p o Ho) as Hle.
    split; [split|done]; cbn [marks ticks enqueued].
    + apply Forall_app. split; (eapply Forall_impl; [eassumption|]; intros tk; by apply tick_ok_le).
    + by eapply log_ok_le.
  - rewrite E in Ht. apply Forall_app in Ht as [Hb [Htk Ha]%Forall_cons].
    split; [split; cbn; [by apply Forall_app|done]|reflexivity].
  - split; [apply fleet_advances; auto with js|apply repair_le].
  - split; [apply fleet_advances; auto with js|apply chase_le].
  - split; [apply fleet_advances; auto with js|apply alert_le].
Qed.

Lemma fleet_steps_ok f f' : rtc fleet_step f f' -> fleet_ok f -> fleet_ok f' /\ marks_le (marks f) (marks f').
Proof.
  induction 1 as [f|f f1 f' Hs _ IH]; intros Hok; [by split|].
  destruct (fleet_step_ok _ _ Hs Hok) as [Hok1 Hle1]. destruct (IH Hok1) as [? ?]. split; [done|by etrans].
Qed.
Lemma fresh_fleet_ok : fleet_ok fresh_fleet.
Proof. split; [by constructor|]. intros t. split; [constructor|]. intros o Ho. by apply elem_of_nil in Ho. Qed.

(** ** A tick alone *)

(** A due pass nobody else claims meanwhile is won. *)
Definition unclaimed (w : Watermarks) (due : ScheduledPass * Z) : Prop :=
  forall m, last_dispatched w (task due.1) = Some m -> m < due.2.
Definition dues_log (l : list (ScheduledPass * Z)) : list (TaskName * Z) := (fun '(p, o) => (task p, o)) <$> l.

Lemma claim_pass_wins now b p o :
  unclaimed (b_marks b) (p, o) ->
  claim_pass now b (p, o) =
  {| b_marks := <[passKey (task_text (task p)) := now]> (b_marks b);
     dispatched := dispatched b ++ [(task p, o)]; alreadyClaimed := alreadyClaimed b |}.
Proof.
  unfold unclaimed, last_dispatched, claim_pass, claimWatermark. cbn. intros Hu.
  destruct (_ !! _) as [m|]; [|done]. by rewrite (proj2 (Z.ltb_lt _ _) (Hu m eq_refl)).
Qed.

Lemma claim_dues now l b :
  NoDup (task ∘ fst <$> l) -> Forall (unclaimed (b_marks b)) l ->
  let b' := foldl (claim_pass now) b l in
  dispatched b' = dispatched b ++ dues_log l /\ alreadyClaimed b' = alreadyClaimed b /\
  forall t, last_dispatched (b_marks b') t =
    if bool_decide (t ∈ task ∘ fst <$> l) then Some now else last_dispatched (b_marks b) t.
Proof.
  revert b. induction l as [|[p o] l IH]; intros b Hn Hu; cbn [foldl fmap list_fmap dues_log].
  - rewrite app_nil_r. split_and!; [done..|]. intros t. by rewrite bool_decide_eq_false_2 by apply not_elem_of_nil.
  - apply NoDup_cons in Hn as [Hp Hn]. apply Forall_cons in Hu as [Hu Hl]. rewrite claim_pass_wins by done.
    match goal with |- context [foldl _ ?b1 l] => destruct (IH b1) as (Hd & Ha & Hm) end; [done| |].
    { eapply Forall_impl; [apply Forall_and; split; [exact Hl|apply Forall_forall; intros x Hx; exact Hx]|].
      intros [p' o'] [Hu' Hin] m. unfold last_dispatched. cbn. rewrite lookup_insert_ne; [by apply Hu'|].
      intros E%passKey_inj. apply Hp. apply list_elem_of_fmap. exists (p', o'). cbn in *. by rewrite E. }
    rewrite Hd, Ha. cbn. split_and!; [by rewrite <- app_assoc|done|]. intros t. rewrite Hm. cbn.
    unfold last_dispatched at 1. cbn. destruct (decide (t = task p)) as [->|Ht].
    + rewrite bool_decide_eq_false_2 by done. rewrite bool_decide_eq_true_2 by left. apply lookup_insert_eq.
    + rewrite lookup_insert_ne by (intros ?%passKey_inj; by apply Ht).
      assert (bool_decide (t ∈ task ∘ fst <$> l) = bool_decide (t ∈ task p :: (task ∘ fst <$> l))) as ->; [|done].
      apply bool_decide_ext. rewrite elem_of_cons. naive_solver.
Qed.

Lemma BURST_tasks_nodup : NoDup (task <$> BURST_SCHEDULE).
Proof. refine (bool_decide_unpack _ _). vm_compute. exact I. Qed.

Definition due_at (now : Z) (cadence : Cadence) (w : Watermarks) (p : ScheduledPass) : bool :=
  match last_dispatched w (task p) with None => true | Some m => m <? occurrenceAt p now cadence end.
Lemma duePasses_filter now cadence w schedule :
  duePasses now (last_dispatched w) schedule cadence =
  (fun p => (p, occurrenceAt p now cadence)) <$> List.filter (due_at now cadence w) schedule.
Proof.
  unfold duePasses, due_at. induction schedule as [|p l IH]; [done|]. cbn -[last_dispatched].
  destruct (last_dispatched w (task p)) as [m|]; [case (Z.ltb _ _)|]; cbn -[last_dispatched]; by rewrite IH.
Qed.
Lemma duePasses_unclaimed now cadence w : Forall (unclaimed w) (duePasses now (last_dispatched w) BURST_SCHEDULE cadence).
Proof.
  rewrite duePasses_filter. apply Forall_fmap, Forall_forall. intros p [_ Hd]%elem_of_filter_bool m Hm.
  cbn in *. unfold due_at in Hd. rewrite Hm in Hd. by apply Z.ltb_lt.
Qed.
Lemma NoDup_fmap_inj {A B} (f : A -> B) l x y : NoDup (f <$> l) -> x ∈ l -> y ∈ l -> f x = f y -> x = y.
Proof.
  intros Hn Hx Hy E. apply list_elem_of_lookup in Hx as [i Hi], Hy as [j Hj].
  enough (i = j) by congruence. apply (NoDup_lookup (f <$> l) i j (f x)); [done|rewrite list_lookup_fmap..].
  - by rewrite Hi.
  - by rewrite Hj, E.
Qed.
Lemma duePasses_nodup now cadence w : NoDup (task ∘ fst <$> duePasses now (last_dispatched w) BURST_SCHEDULE cadence).
Proof.
  rewrite duePasses_filter, <- list_fmap_compose. apply (NoDup_fmap_filter _ task), BURST_tasks_nodup.
Qed.

(** One tick alone dispatches what is due and loses nothing. *)
Lemma claimDuePasses_alone now cadence w :
  let b := claimDuePasses now cadence w in
  dispatched b = dues_log (duePasses now (last_dispatched w) BURST_SCHEDULE cadence) /\ alreadyClaimed b = [] /\
  forall p, p ∈ BURST_SCHEDULE -> last_dispatched (b_marks b) (task p) =
    if due_at now cadence w p then Some now else last_dispatched w (task p).
Proof.
  destruct (claim_dues now (duePasses now (last_dispatched w) BURST_SCHEDULE cadence)
    {| b_marks := w; dispatched := []; alreadyClaimed := [] |}) as (Hd & Ha & Hm);
    [apply duePasses_nodup|apply duePasses_unclaimed|].
  unfold claimDuePasses. split_and!; [done..|]. intros p Hp. rewrite Hm. cbn [b_marks].
  assert (bool_decide (task p ∈ task ∘ fst <$> duePasses now (last_dispatched w) BURST_SCHEDULE cadence)
          = due_at now cadence w p) as ->; [|done].
  apply eq_true_iff_eq. rewrite bool_decide_eq_true, duePasses_filter, <- list_fmap_compose. unfold compose. cbn [fst].
  rewrite list_elem_of_fmap. split.
  - intros (p' & E & [Hin Hf]%elem_of_filter_bool). by rewrite (NoDup_fmap_inj task BURST_SCHEDULE p p' BURST_tasks_nodup Hp Hin E).
  - intros Hf. exists p. split; [done|]. by apply elem_of_filter_bool.
Qed.

Lemma occurrences_of_none t (l : list (ScheduledPass * Z)) :
  t ∉ (task ∘ fst <$> l) -> occurrences_of t (dues_log l) = [].
Proof.
  induction l as [|[p o] l IH]; csimpl; [done|]. intros [Hp Hl]%not_elem_of_cons.
  rewrite bool_decide_eq_false_2 by (intros E; by apply Hp). by apply IH.
Qed.
Lemma occurrences_of_due now cadence f l p :
  NoDup (task <$> l) -> p ∈ l ->
  occurrences_of (task p) (dues_log ((fun p => (p, occurrenceAt p now cadence)) <$> List.filter f l)) =
  if f p then [occurrenceAt p now cadence] else [].
Proof.
  induction l as [|x l IH]; csimpl; intros Hn Hp; [by apply elem_of_nil in Hp|].
  apply NoDup_cons in Hn as [Hx Hn].
  assert (Hnone : forall t, t ∉ (task <$> l) ->
    occurrences_of t (dues_log ((fun p => (p, occurrenceAt p now cadence)) <$> List.filter f l)) = []).
  { intros t Ht. apply occurrences_of_none. rewrite <- list_fmap_compose.
    intros (y & -> & [Hy _]%elem_of_filter_bool)%list_elem_of_fmap. apply Ht. by apply list_elem_of_fmap_2. }
  apply elem_of_cons in Hp as [->|Hp].
  - destruct (f x); csimpl; [|by apply Hnone]. rewrite bool_decide_eq_true_2 by done. f_equal. by apply Hnone.
  - destruct (f x); csimpl; [|by apply IH]. rewrite bool_decide_eq_false_2; [by apply IH|].
    intros E. apply Hx. rewrite E. by apply (list_elem_of_fmap_2 task).
Qed.

(** Ticks one after another. *)
Fixpoint run_ticks (cadence : Cadence) (nows : list Z) (w : Watermarks) : list (TaskName * Z) :=
  match nows with
  | [] => []
  | now :: nows => let b := claimDuePasses now cadence w in dispatched b ++ run_ticks cadence nows (b_marks b)
  end.

(** What a pass is owed: each occurrence the ticks saw, once. *)
Fixpoint owed (last : option Z) (occurrences : list Z) : list Z :=
  match occurrences with
  | [] => []
  | o :: rest => if bool_decide (last = Some o) then owed last rest else o :: owed (Some o) rest
  end.

(** Where a pass's mark stands after a tick at [prev]. *)
Definition stands (occ : Z -> Z) (mark : option Z) (prev : option Z) : Prop :=
  match prev with
  | None => mark = None
  | Some prev => exists m, mark = Some m /\ occ prev <= m <= prev
  end.

(** A pass is due exactly when its occurrence is a new one. *)
Lemma due_new now cadence w p prev :
  Recurring (fun now => occurrenceAt p now cadence) ->
  stands (fun now => occurrenceAt p now cadence) (last_dispatched w (task p)) prev ->
  (forall x, prev = Some x -> x <= now) ->
  due_at now cadence w p = negb (bool_decide ((fun x => occurrenceAt p x cadence) <$> prev = Some (occurrenceAt p now cadence))).
Proof.
  intros HR Hs Hle. set (occ := fun now => occurrenceAt p now cadence) in *. unfold due_at.
  change (occurrenceAt p now cadence) with (occ now). destruct prev as [x|]; cbn in Hs; [|by rewrite Hs].
  destruct Hs as (m & -> & Hm). specialize (Hle x eq_refl). cbn. change (occurrenceAt p x cadence) with (occ x).
  pose proof (occ_mono (occ := occ) x now Hle). pose proof (occ_latest occ now m).
  pose proof (occ_mono (occ := occ) m x ltac:(lia)). case_bool_decide as E; cbn.
  - injection E as E. apply Z.ltb_ge. lia.
  - apply Z.ltb_lt. assert (occ x <> occ now) by congruence. lia.
Qed.

Lemma run_ticks_owed cadence p nows : 
  minutesDividingAnHour (fastMinutes cadence) = true -> p ∈ BURST_SCHEDULE -> StronglySorted Z.le nows ->
  forall w prev, stands (fun now => occurrenceAt p now cadence) (last_dispatched w (task p)) prev ->
  (forall x, prev = Some x -> Forall (Z.le x) nows) ->
  occurrences_of (task p) (run_ticks cadence nows w) =
  owed ((fun x => occurrenceAt p x cadence) <$> prev) ((fun now => occurrenceAt p now cadence) <$> nows).
Proof.
  intros Hc Hp. pose proof (schedule_recurs cadence p Hc Hp) as HR.
  set (occ := fun now => occurrenceAt p now cadence) in *.
  induction 1 as [|now nows Hsort IH Hall]; intros w prev Hs Hle; [done|]. cbn [run_ticks fmap list_fmap owed].
  destruct (claimDuePasses_alone now cadence w) as (Hd & _ & Hm). specialize (Hm p Hp).
  pose proof (due_new now cadence w p prev HR Hs) as Hdue.
  specialize (Hdue (fun x Hx => Forall_inv (Hle x Hx))). rewrite Hdue in Hm.
  rewrite occurrences_app, Hd, duePasses_filter.
  rewrite (occurrences_of_due _ _ _ _ _ BURST_tasks_nodup Hp), Hdue.
  change (occurrenceAt p now cadence) with (occ now) in *. case_bool_decide as E; cbn [negb app] in *.
  - rewrite bool_decide_eq_true_2 by done. apply IH; [by rewrite Hm|].
    intros x Hx. exact (Forall_inv_tail (Hle x Hx)).
  - rewrite bool_decide_eq_false_2 by done. f_equal. apply (IH _ (Some now)); [|by intros ? [= <-]].
    cbn. exists now. split; [done|]. pose proof (occ_le (occ := occ) now). lia.
Qed.

(** ** The guarantees *)

(** C9. However many ticks run at once, on whatever clocks, and wherever they
    die, the occurrences of a pass that were enqueued only move forward: none is
    enqueued twice. *)
Theorem fleet_dispatches_once f t :
  fleet_reachable f ->
  StronglySorted Z.lt (occurrences_of t (enqueued f)) /\ NoDup (occurrences_of t (enqueued f)).
Proof.
  intros Hr. destruct (fleet_steps_ok _ _ Hr fresh_fleet_ok) as [[_ Hl] _]. destruct (Hl t) as [Hs _].
  split; [done|by apply sorted_nodup].
Qed.

(** C21. Ticks that follow one another on a clock that does not run back enqueue
    each pass once for every occurrence they saw, in order, whatever the pass
    and however irregular the ticks. *)
Theorem schedule_exactly_once cadence p nows :
  minutesDividingAnHour (fastMinutes cadence) = true -> p ∈ BURST_SCHEDULE -> StronglySorted Z.le nows ->
  occurrences_of (task p) (run_ticks cadence nows ∅) = owed None ((fun now => occurrenceAt p now cadence) <$> nows).
Proof. intros Hc Hp Hs. by apply (run_ticks_owed cadence p nows Hc Hp Hs ∅ None). Qed.

(** a tick answered from memory misses nothing.  Once a tick of this
    process has finished its claim round at [since], whatever other ticks do
    after it, nothing is due at a [now] the memory calls idle. *)
Theorem idle_tick_misses_nothing f f' tk now m :
  fleet_reachable f -> tk ∈ ticks f -> tick_due tk = [] -> rtc fleet_step f f' ->
  resolvedAt m = Some (tick_now tk) -> nothingToDo now (tick_cadence tk) m = true ->
  duePasses now (last_dispatched (marks f')) BURST_SCHEDULE (tick_cadence tk) = [].
Proof.
  intros Hr Htk Hdone Hs Hm Hidle. destruct (fleet_steps_ok _ _ Hr fresh_fleet_ok) as [[Ht Hl] _].
  destruct (fleet_steps_ok _ _ Hs (Build_fleet_ok _ Ht Hl)) as [_ Hle].
  rewrite Forall_forall in Ht. destruct (Ht _ Htk) as [_ _ Hrest]. rewrite Hdone in Hrest.
  unfold nothingToDo in Hidle. rewrite Hm in Hidle. repeat (case_match; [done|]).
  apply negb_true_iff in Hidle. rewrite duePasses_filter.
  destruct (List.filter _ BURST_SCHEDULE) as [|p l] eqn:E; [done|exfalso].
  assert (p ∈ List.filter (due_at now (tick_cadence tk) (marks f')) BURST_SCHEDULE) as [Hp Hd]%elem_of_filter_bool
    by (rewrite E; left).
  destruct (Hrest p Hp) as [Hc|Hn]; [|by apply elem_of_nil in Hn].
  destruct (covers_le _ _ _ _ Hle Hc) as (mk & Hmk & Ho). unfold due_at in Hd. rewrite Hmk in Hd.
  apply Z.ltb_lt in Hd. enough (occurrenceMoved (tick_now tk) now (tick_cadence tk) BURST_SCHEDULE = true) by congruence.
  apply existsb_exists. exists p. split; [by apply list_elem_of_In|]. apply Z.ltb_lt. lia.
Qed.

(** The next alert of a key after one at [now]: past the cooldown, or past the
    retry interval when nothing was sent. *)
Theorem raiseAlert_next key settled now w w' later :
  raiseAlert key settled now w = (w', true) ->
  snd (raiseAlert key settled later w') = (now + (if settled then ALERT_COOLDOWN_MS else ALERT_RETRY_MS) <? later).
Proof.
  unfold raiseAlert at 1. destruct (alertAllowed _ _ _ _) as [w1 []] eqn:E; cbn; [|by intros].
  apply claimWatermark_won in E as [-> _]. intros E.
  assert (Hat : w' !! alertKey key = Some (if settled then now else now - ALERT_COOLDOWN_MS + ALERT_RETRY_MS)).
  { destruct settled; injection E as <-; [|unfold deferWatermark]; by rewrite lookup_insert_eq. }
  unfold raiseAlert, alertAllowed, claimWatermark. rewrite Hat.
  replace (now + (if settled then ALERT_COOLDOWN_MS else ALERT_RETRY_MS) <? later)
    with ((if settled then now else now - ALERT_COOLDOWN_MS + ALERT_RETRY_MS) <? later - ALERT_COOLDOWN_MS).
  - destruct (_ <? _); [|done]. by destruct settled.
  - apply eq_true_iff_eq. rewrite !Z.ltb_lt. destruct settled; lia.
Qed.

(** ** Two replicas on a fifteen-minute cadence *)

Definition quarter : Cadence := {| fastMinutes := 15 |}.
(** 2023-11-14, 22:13:20, and the other replica two seconds behind. *)
Definition replica_a : Z := 1700000000000.
Definition replica_b : Z := 1699999998000.
(** Both read the empty table; then [b] claims its first pass, then [a] the same one. *)
Definition both_read : Fleet :=
  {| marks := ∅; ticks := [begin_tick replica_a quarter ∅; begin_tick replica_b quarter ∅]; enqueued := [] |}.
Definition claims_first (f : Fleet) (before after : list Tick) (tk : Tick) : Fleet :=
  match tick_due tk with
  | [] => f
  | due :: rest =>
      let b := claim_pass (tick_now tk) {| b_marks := marks f; dispatched := enqueued f; alreadyClaimed := [] |} due in
      {| marks := b_marks b;
         ticks := before ++ {| tick_now := tick_now tk; tick_cadence := tick_cadence tk; tick_due := rest |} :: after;
         enqueued := dispatched b |}
  end.
Definition b_claimed : Fleet :=
  claims_first both_read [begin_tick replica_a quarter ∅] [] (begin_tick replica_b quarter ∅).
Definition both_claimed : Fleet :=
  claims_first b_claimed [] (List.tl (ticks b_claimed)) (begin_tick replica_a quarter ∅).

Lemma both_claimed_reachable : fleet_reachable both_claimed.
Proof.
  eapply rtc_l; [exact (tick_begins fresh_fleet replica_b quarter eq_refl)|].
  eapply rtc_l; [exact (tick_begins _ replica_a quarter eq_refl)|].
  eapply rtc_l; [exact (tick_claims both_read replica_b quarter _ _ [begin_tick replica_a quarter ∅] [] eq_refl)|].
  eapply rtc_l; [exact (tick_claims b_claimed replica_a quarter _ _ [] (List.tl (ticks b_claimed)) eq_refl)|].
  apply rtc_refl.
Qed.
(** One of them enqueued it. *)
Example both_claimed_once : enqueued both_claimed = [(scheduleCollect, 1699999200000)].
Proof. vm_compute. reflexivity. Qed.

Lemma fleet_dispatches_once_witness :
  StronglySorted Z.lt (occurrences_of scheduleCollect (enqueued both_claimed)) /\
  NoDup (occurrences_of scheduleCollect (enqueued both_claimed)).
Proof. apply fleet_dispatches_once. exact both_claimed_reachable. Defined.

(** Four ticks of the digest over a Monday morning: 08:59, 09:00, 09:01, and a week later. *)
Definition monday : list Z := [1700470740000; 1700470800000; 1700470860000; 1701075660000].
Definition digest_pass : ScheduledPass :=
  {| task := digest; cron := "0 9 * * 1"; occurrenceAt now _ := weeklyAt 1 9 0 now |}.
Lemma schedule_exactly_once_witness :
  occurrences_of digest (run_ticks quarter monday ∅) = [1699866000000; 1700470800000; 1701075600000].
Proof.
  etrans; [apply (schedule_exactly_once quarter digest_pass monday)|].
  - reflexivity.
  - do 6 right. left.
  - repeat constructor; vm_compute; discriminate.
  - vm_compute. reflexivity.
Defined.

(** [a] alone, its round over, asked again a minute later. *)
Definition idle_memory : TickMemory :=
  {| resolvedAt := Some replica_a; drainsInFlight := 0; lastDrainComplete := true; queued := false |}.
Definition a_after (n : nat) : Fleet :=
  let dues := duePasses replica_a (last_dispatched ∅) BURST_SCHEDULE quarter in
  let b := foldl (claim_pass replica_a) {| b_marks := ∅; dispatched := []; alreadyClaimed := [] |} (take n dues) in
  {| marks := b_marks b; enqueued := dispatched b;
     ticks := [{| tick_now := replica_a; tick_cadence := quarter; tick_due := drop n dues |}] |}.
Lemma a_step n : (n < 7)%nat -> fleet_step (a_after n) (a_after (S n)).
Proof.
  intros Hn. do 7 (destruct n as [|n]; [match goal with |- fleet_step ?f _ =>
    exact (tick_claims f replica_a quarter _ _ [] [] eq_refl) end|]). lia.
Qed.
Lemma a_after_reachable : fleet_reachable (a_after 7).
Proof.
  eapply rtc_l; [exact (tick_begins fresh_fleet replica_a quarter eq_refl)|].
  change (rtc fleet_step (a_after 0) (a_after 7)). do 7 (eapply rtc_l; [apply a_step; lia|]). apply rtc_refl.
Qed.
Lemma idle_tick_misses_nothing_witness :
  duePasses (replica_a + MINUTE_MS) (last_dispatched (marks (a_after 7))) BURST_SCHEDULE quarter = [].
Proof.
  apply (idle_tick_misses_nothing (a_after 7) (a_after 7)
    {| tick_now := replica_a; tick_cadence := quarter; tick_due := [] |} _ idle_memory).
  - exact a_after_reachable.
  - left.
  - reflexivity.
  - apply rtc_refl.
  - reflexivity.
  - vm_compute. reflexivity.
Defined.
