(* ===== verification/Phases.v ===== *)
(** Where a pass spent its time: [apps/api/src/engine/phases.ts].

    Instants are milliseconds.  [enter] hands back a function that ends the
    phase; it is the phase's [Handle] here, with the flag that makes a second
    call do nothing. *)
From S2P Require Import Prelude.

Record Phase := { ph_name : string; totalMs : Z; calls : Z; running : bool }.

(** [totals] and [open], in the order their keys were added, and the functions
    [enter] has returned. *)
Record Handle := { h_name : string; h_started : Z; h_ended : bool }.
Record PassPhases := {
  totals : list (string * (Z * Z));
  open : list (string * list Z);
  handles : list Handle;
}.
Definition no_phases : PassPhases := {| totals := []; open := []; handles := [] |}.

Definition enter (name : string) (started : Z) (p : PassPhases) : PassPhases :=
  {| totals := totals p;
     open := map_put name (default [] (map_get name (open p)) ++ [started]) (open p);
     handles := handles p ++ [{| h_name := name; h_started := started; h_ended := false |}] |}.

(** [remaining.splice(remaining.indexOf(started), 1)], when it is there. *)
Fixpoint remove_first (x : Z) (l : list Z) : list Z :=
  match l with
  | [] => []
  | y :: l => if y =? x then l else y :: remove_first x l
  end.

(** The function of the [n]th [enter], called at [now]. *)
Definition leave (n : nat) (now : Z) (p : PassPhases) : PassPhases :=
  match handles p !! n with
  | None => p
  | Some h =>
      if h_ended h then p
      else
        let remaining := remove_first (h_started h) (default [] (map_get (h_name h) (open p))) in
        let found := default (0, 0) (map_get (h_name h) (totals p)) in
        {| totals := map_put (h_name h) (found.1 + (now - h_started h), found.2 + 1) (totals p);
           open := if (length remaining =? 0)%nat then map_delete (h_name h) (open p)
                   else map_put (h_name h) remaining (open p);
           handles := <[n := {| h_name := h_name h; h_started := h_started h; h_ended := true |}]> (handles p) |}
  end.

Definition elapsed (now : Z) (starts : list Z) : Z := foldr (fun started sum => (now - started) + sum) 0 starts.

Definition merged (now : Z) (p : PassPhases) : list (string * (Z * Z * bool)) :=
  foldl (fun m '(name, starts) =>
      let '(total, n, _) := default (0, 0, false) (map_get name m) in
      map_put name (total + elapsed now starts, n + Z.of_nat (length starts), true) m)
    ((fun '(name, (total, n)) => (name, (total, n, false))) <$> totals p) (open p).

Definition phases (now : Z) (p : PassPhases) : list Phase :=
  stable_sort (fun a b => totalMs b <=? totalMs a)
    ((fun '(name, (total, n, r)) => {| ph_name := name; totalMs := total; calls := n; running := r |}) <$> merged now p).

Definition phase_text (ph : Phase) : string :=
  let spent := ph_name ph +:+ " " +:+ show (Math_round (inject_Z (totalMs ph) / inject_Z 1000)) +:+ "s/" +:+
               show (calls ph) in
  if running ph then spent +:+ " (still running)" else spent.
Definition summary (top : nat) (now : Z) (p : PassPhases) : string :=
  let worth := List.filter (fun ph => 1000 <=? totalMs ph) (phases now p) in
  if (length worth =? 0)%nat then "" else join ", " (phase_text <$> take top worth).

(** ** What was timed *)

(** A pass as the spans it entered, each ended or not. *)
Record Span := { sp_name : string; sp_from : Z; sp_to : option Z }.
Inductive Timing := Entered (name : string) (now : Z) | Left (n : nat) (now : Z).

Definition timed (p : PassPhases) (t : Timing) : PassPhases :=
  match t with Entered name now => enter name now p | Left n now => leave n now p end.
Definition span_timed (spans : list Span) (t : Timing) : list Span :=
  match t with
  | Entered name now => spans ++ [{| sp_name := name; sp_from := now; sp_to := None |}]
  | Left n now =>
      match spans !! n with
      | Some {| sp_name := name; sp_from := from; sp_to := None |} =>
          <[n := {| sp_name := name; sp_from := from; sp_to := Some now |}]> spans
      | _ => spans
      end
  end.
Definition span_ms (now : Z) (sp : Span) : Z := default now (sp_to sp) - sp_from sp.
Definition named (name : string) : list Span -> list Span := List.filter (fun sp => String.eqb (sp_name sp) name).
Definition total_ms (now : Z) (spans : list Span) : Z := foldr (fun sp sum => span_ms now sp + sum) 0 spans.
Definition unended (sp : Span) : bool := negb (is_some (sp_to sp)).

(** The row the report owes a name: nothing when it was never entered. *)
Definition phase_of (now : Z) (name : string) (spans : list Span) : option (Z * Z * bool) :=
  match named name spans with
  | [] => None
  | mine => Some (total_ms now mine, Z.of_nat (length mine), existsb unended mine)
  end.

(** ** The report and the spans *)

Definition ended (sp : Span) : bool := negb (unended sp).
Definition ended_tally (l : list Span) : option (Z * Z) :=
  match l with [] => None | _ => Some (total_ms 0 l, Z.of_nat (length l)) end.
Definition ended_of (name : string) (spans : list Span) : option (Z * Z) := ended_tally (List.filter ended (named name spans)).
Definition open_of (name : string) (spans : list Span) : list Z :=
  sp_from <$> List.filter unended (named name spans).
Definition handle_of (sp : Span) : Handle :=
  {| h_name := sp_name sp; h_started := sp_from sp; h_ended := ended sp |}.

Lemma total_ms_app now l l' : total_ms now (l ++ l') = total_ms now l + total_ms now l'.
Proof. unfold total_ms. induction l as [|x l IH]; cbn; [done|]. rewrite IH. lia. Qed.
Lemma elapsed_perm now l l' : l ≡ₚ l' -> elapsed now l = elapsed now l'.
Proof. unfold elapsed. induction 1; cbn; lia. Qed.
Lemma ended_tally_middle a sp b :
  ended_tally (a ++ sp :: b) =
  Some ((default (0, 0) (ended_tally (a ++ b))).1 + span_ms 0 sp, (default (0, 0) (ended_tally (a ++ b))).2 + 1).
Proof.
  assert (Hd : default (0, 0) (ended_tally (a ++ b)) = (total_ms 0 (a ++ b), Z.of_nat (length (a ++ b)))) by by destruct (a ++ b).
  assert (Hs : ended_tally (a ++ sp :: b) = Some (total_ms 0 (a ++ sp :: b), Z.of_nat (length (a ++ sp :: b)))) by by destruct a.
  rewrite Hd, Hs, !total_ms_app, !length_app. cbn. change (foldr _ 0 b) with (total_ms 0 b). do 2 f_equal; lia.
Qed.
Lemma named_app name l l' : named name (l ++ l') = named name l ++ named name l'.
Proof. apply List.filter_app. Qed.
Lemma total_ms_split now l :
  total_ms now l = total_ms 0 (List.filter ended l) + elapsed now (sp_from <$> List.filter unended l).
Proof.
  unfold total_ms, elapsed in *. induction l as [|[n f [t|]] l IH]; cbn; [done|..]; rewrite IH; unfold span_ms; cbn; lia.
Qed.
Lemma length_split (l : list Span) :
  Z.of_nat (length l) =
  Z.of_nat (length (List.filter ended l)) + Z.of_nat (length (sp_from <$> List.filter unended l)).
Proof. induction l as [|[n f [t|]] l IH]; cbn in *; rewrite ?length_fmap in *; cbn; lia. Qed.
Lemma existsb_unended l : existsb unended l = negb (length (List.filter unended l) =? 0)%nat.
Proof. induction l as [|x l IH]; cbn; [done|]. by destruct (unended x). Qed.

(** What holds between a pass's phases and the spans behind them. *)
Record reports (p : PassPhases) (spans : list Span) : Prop := {
  r_handles : handles p = handle_of <$> spans;
  r_totals name : map_get name (totals p) = ended_of name spans;
  r_open name : exists starts, starts ≡ₚ open_of name spans /\
    map_get name (open p) = match starts with [] => None | _ => Some starts end;
  r_totals_keys : NoDup (totals p).*1;
  r_open_keys : NoDup (open p).*1;
}.

Lemma reports_none : reports no_phases [].
Proof. split; try done; [by exists []|constructor..]. Qed.

Lemma default_starts (o : option (list Z)) starts :
  o = match starts with [] => None | _ => Some starts end -> default [] o = starts.
Proof. intros ->. by destruct starts. Qed.

Lemma reports_enter p spans name now :
  reports p spans -> reports (enter name now p) (spans ++ [{| sp_name := name; sp_from := now; sp_to := None |}]).
Proof.
  intros [Hh Ht Ho Hkt Hko]. split; cbn [enter totals open handles]; [by rewrite Hh, fmap_app| | |done|by apply map_put_nodup].
  - intros n. rewrite Ht. unfold ended_of. rewrite named_app, List.filter_app. cbn.
    destruct (String.eqb name n); cbn; by rewrite app_nil_r.
  - intros n. destruct (Ho n) as (starts & Hp & E). unfold open_of. rewrite named_app, List.filter_app, fmap_app.
    rewrite map_get_put. cbn [named List.filter sp_name]. destruct (String.eqb name n) eqn:En; cbn [List.filter unended is_some sp_to negb fmap list_fmap sp_from].
    + apply String.eqb_eq in En as ->. exists (starts ++ [now]). rewrite (default_starts _ _ E).
      split; [by rewrite Hp|]. by destruct starts.
    + exists starts. by rewrite app_nil_r.
Qed.

Lemma remove_first_perm x l l' : l ≡ₚ x :: l' -> remove_first x l ≡ₚ l'.
Proof.
  revert l'. induction l as [|y l IH]; intros l' Hp; [by apply Permutation_nil_cons in Hp|]. cbn.
  case (Z.eqb_spec y x) as [->|Hne]; [by apply Permutation_cons_inv in Hp|].
  assert (Hy : y ∈ l'). { assert (y ∈ x :: l') as [?|?]%elem_of_cons by (rewrite <- Hp; left); done. }
  apply elem_of_Permutation in Hy as [k Hk]. rewrite Hk. constructor. apply IH.
  apply (Permutation_cons_inv (a := y)). rewrite Hp, Hk. constructor.
Qed.

Lemma reports_leave p l1 l2 name from now :
  let sp := {| sp_name := name; sp_from := from; sp_to := None |} in
  let sp' := {| sp_name := name; sp_from := from; sp_to := Some now |} in
  reports p (l1 ++ sp :: l2) -> reports (leave (length l1) now p) (l1 ++ sp' :: l2).
Proof.
  intros sp sp' [Hh Ht Ho Hkt Hko]. unfold leave.
  assert (Hhd : handles p !! length l1 = Some (handle_of sp)).
  { rewrite Hh, list_lookup_fmap, lookup_app_r, Nat.sub_diag by done. done. }
  rewrite Hhd. change (h_ended (handle_of sp)) with false. cbn [h_name h_started handle_of]. cbn [sp_name sp_from sp].
  destruct (Ho name) as (starts & Hp & E). rewrite (default_starts _ _ E).
  assert (Hrem : remove_first from starts ≡ₚ open_of name (l1 ++ sp' :: l2)).
  { apply remove_first_perm. rewrite Hp. unfold open_of. rewrite !named_app, !List.filter_app, !fmap_app. cbn.
    rewrite String.eqb_refl. cbn. by rewrite Permutation_middle. }
  split; cbn [totals open handles].
  - rewrite Hh, fmap_app, fmap_cons. rewrite <- (length_fmap handle_of l1), insert_app_r_alt by lia.
    by rewrite Nat.sub_diag, fmap_app.
  - intros n. rewrite map_get_put, !Ht. destruct (String.eqb name n) eqn:En.
    + apply String.eqb_eq in En as ->. unfold ended_of. rewrite !named_app, !List.filter_app. cbn.
      rewrite !String.eqb_refl. cbn. by rewrite ended_tally_middle.
    + unfold ended_of. rewrite !named_app, !List.filter_app. cbn. by rewrite En.
  - intros n. destruct (String.eqb name n) eqn:En.
    + apply String.eqb_eq in En as <-. exists (remove_first from starts). split; [done|].
      destruct (remove_first from starts) as [|x k] eqn:Er; cbn [length Nat.eqb].
      * by rewrite map_get_delete, String.eqb_refl.
      * by rewrite map_get_put, String.eqb_refl.
    + destruct (Ho n) as (starts' & Hp' & E'). exists starts'. split.
      * rewrite Hp'. unfold open_of. rewrite !named_app. cbn. by rewrite En.
      * rewrite <- E'. destruct (_ =? 0)%nat; [by rewrite map_get_delete, En|by rewrite map_get_put, En].
  - by apply map_put_nodup.
  - destruct (_ =? 0)%nat; [by apply map_delete_nodup|by apply map_put_nodup].
Qed.

Lemma reports_timed p spans t : reports p spans -> reports (timed p t) (span_timed spans t).
Proof.
  intros Hr. destruct t as [name now|n now]; cbn [timed span_timed]; [by apply reports_enter|].
  destruct (spans !! n) as [[name from to]|] eqn:E.
  - pose proof E as Hn%lookup_lt_Some. destruct to as [t|].
    + unfold leave. rewrite (r_handles _ _ Hr), list_lookup_fmap, E. done.
    + pose proof (take_drop_middle _ _ _ E) as Hsp. rewrite <- Hsp in Hr.
      assert (Hl : length (take n spans) = n) by (rewrite length_take; lia).
      apply reports_leave with (now := now) in Hr. rewrite Hl in Hr.
      rewrite insert_take_drop by done. done.
  - unfold leave. rewrite (r_handles _ _ Hr), list_lookup_fmap, E. done.
Qed.
Lemma reports_all ts p spans : reports p spans -> reports (foldl timed p ts) (foldl span_timed spans ts).
Proof. revert p spans. induction ts as [|t ts IH]; intros p spans Hr; [done|]. by apply IH, reports_timed. Qed.

(** Merging the open phases in, name by name. *)
Lemma merged_get now (op : list (string * list Z)) m name :
  NoDup op.*1 ->
  map_get name (foldl (fun m '(name, starts) =>
      let '(total, n, _) := default (0, 0, false) (map_get name m) in
      map_put name (total + elapsed now starts, n + Z.of_nat (length starts), true) m) m op) =
  match map_get name op with
  | None => map_get name m
  | Some starts =>
      let '(total, n, _) := default (0, 0, false) (map_get name m) in
      Some (total + elapsed now starts, n + Z.of_nat (length starts), true)
  end.
Proof.
  revert m. induction op as [|[k starts] op IH]; intros m Hn; [done|]. cbn [foldl].
  apply NoDup_cons in Hn as [Hk Hn]. rewrite IH by done. clear IH.
  destruct (map_get k m ?? (0, 0, false)) as [[total n] r] eqn:Em.
  rewrite map_get_put. destruct (String.eqb k name) eqn:E.
  - apply String.eqb_eq in E as ->. rewrite (map_get_none name op) by done.
    unfold map_get at 1. cbn. rewrite String.eqb_refl. cbn. by rewrite Em.
  - unfold map_get at 3. cbn. by rewrite E.
Qed.
Lemma merged_keys now (op : list (string * list Z)) m :
  NoDup m.*1 -> NoDup (foldl (fun m '(name, starts) =>
      let '(total, n, _) := default (0, 0, false) (map_get name m) in
      map_put name (total + elapsed now starts, n + Z.of_nat (length starts), true) m) m op).*1.
Proof.
  revert m. induction op as [|[k starts] op IH]; intros m Hm; [done|]. cbn [foldl]. apply IH.
  destruct (map_get k m ?? (0, 0, false)) as [[total n] r]. by apply map_put_nodup.
Qed.
Lemma map_get_totals name (t : list (string * (Z * Z))) :
  map_get name ((fun '(name, (total, n)) => (name, (total, n, false))) <$> t) = (fun x => (x, false)) <$> map_get name t.
Proof.
  unfold map_get. induction t as [|[k [total n]] t IH]; [done|]. cbn. by destruct (String.eqb k name).
Qed.

Lemma merged_spans now p spans name : reports p spans -> map_get name (merged now p) = phase_of now name spans.
Proof.
  intros [_ Ht Ho _ Hko]. unfold merged. rewrite merged_get by done. rewrite map_get_totals, Ht.
  destruct (Ho name) as (starts & Hp & ->). unfold phase_of, ended_of.
  set (mine := named name spans) in *. pose proof (total_ms_split now mine) as Hsum. pose proof (length_split mine) as Hlen.
  fold (open_of name spans) in Hp. unfold open_of in Hp. fold mine in Hp.
  rewrite <- (elapsed_perm now _ _ Hp) in Hsum. rewrite <- (Permutation_length Hp) in Hlen.
  pose proof (existsb_unended mine) as Hex. rewrite <- (length_fmap sp_from), <- (Permutation_length Hp) in Hex.
  set (fin := List.filter ended mine) in *. clearbody mine fin.
  destruct mine as [|sp mine]; [destruct fin, starts; cbn in Hlen; (done || lia)|].
  rewrite Hsum, Hlen, Hex. clear Hsum Hex Hp. destruct starts as [|s starts].
  - destruct fin as [|f fin]; [cbn in Hlen; lia|]. cbn [ended_tally fmap option_fmap option_map elapsed foldr length Nat.eqb negb].
    do 3 f_equal; lia.
  - by destruct fin.
Qed.

Lemma sorted_impl {A} (R R' : A -> A -> Prop) l :
  (forall a b, R a b -> R' a b) -> StronglySorted R l -> StronglySorted R' l.
Proof.
  intros HR. induction 1 as [|x l Hl IH Hx]; constructor; [done|]. eapply Forall_impl; [exact Hx|]. apply HR.
Qed.

(** The report of a pass, whatever it entered and left and in whatever order:
    each name once, dearest first, with the time of all its spans up to now, how
    often it was entered, and whether one is still open. *)
Theorem phases_report (ts : list Timing) now :
  let p := foldl timed no_phases ts in
  let spans := foldl span_timed [] ts in
  NoDup (ph_name <$> phases now p) /\
  StronglySorted (fun a b => totalMs b <= totalMs a) (phases now p) /\
  forall ph, ph ∈ phases now p <->
    phase_of now (ph_name ph) spans = Some (totalMs ph, calls ph, running ph).
Proof.
  intros p spans. pose proof (reports_all ts _ _ reports_none) as Hr. fold p spans in Hr.
  assert (Hk : NoDup (merged now p).*1).
  { apply merged_keys. rewrite <- list_fmap_compose.
    rewrite (list_fmap_ext _ fst); [exact (r_totals_keys _ _ Hr)|]. by intros _ [? [? ?]] _. }
  unfold phases. split_and!.
  - rewrite stable_sort_perm, <- list_fmap_compose. rewrite (list_fmap_ext _ fst); [done|]. by intros _ [? [[? ?] ?]] _.
  - apply (sorted_impl (fun a b => (totalMs b <=? totalMs a) = true)); [|apply stable_sort_sorted].
    + intros a b. apply Z.leb_le.
    + intros a b. rewrite Z.leb_gt, Z.leb_le. lia.
    + intros a b c. rewrite !Z.leb_le. lia.
  - intros [name total n r]. rewrite elem_of_stable_sort, list_elem_of_fmap. cbn.
    rewrite <- (merged_spans now p spans name Hr), (map_get_elem name (total, n, r)) by done. split.
    + intros ([k [[t c] o]] & [= -> -> -> ->] & Hin). done.
    + intros Hin. by exists (name, (total, n, r)).
Qed.
