(* ===== verification/Tasks.v ===== *)
(** One run of one pass against one cluster: the pacing of
    [apps/api/src/jobs/pacing.ts], the decision table [runClusterTask] of
    [tasks.ts], what it writes ([blocked.ts], [timings.ts]), which errors are the
    customer's cluster not answering ([apps/api/src/errors/unreachable.ts]), and
    [onCluster] of [cluster-tasks.service.ts], which puts a pass's pace, budget
    and error handling together.

    A pass is the time it takes and how it ends.  A run starts at one instant
    and ends at another; the statements that record it succeed.  Log lines, the
    dashboard nudge and the body of a mail are left out. *)
From S2P Require Import Prelude Classify Schedule Phases.

(** ** Pacing *)

Definition PASS_BUDGET_MS : Z := 300000.
Definition PACED_PASSES : list string := ["collect"; "suggest"].
Definition isPaced (task : string) : bool := existsb (String.eqb task) PACED_PASSES.
Definition MAX_TIER : Z := 2.
Definition STEP_UP_SHARE : Q := 3 # 4.
Definition STEP_DOWN_SHARE : Q := 1 # 2.

Inductive ClusterTaskOutcome :=
  ok | unreachable | tunnel_down | unsupported | credentials | insecure | gone | timed_out | failed.
#[export] Instance ClusterTaskOutcome_eq_dec : EqDecision ClusterTaskOutcome.
Proof. solve_decision. Defined.

(** The column is an integer, so a tier is finite. *)
Definition clamped (tier : Z) : Z := Z.min MAX_TIER (Z.max 0 tier).
Definition pacedBudgetMs (tier : Z) : Z := PASS_BUDGET_MS * 2 ^ clamped tier.
Definition pacedEveryHours (tier : Z) : Z := 2 ^ clamped tier.

Definition nextTier (tier : Z) (outcome : ClusterTaskOutcome) (durationMs : Z) : Z :=
  let current := clamped tier in
  if bool_decide (outcome = timed_out) then clamped (current + 1)
  else if negb (bool_decide (outcome = ok)) then current
  else if Qle_bool (STEP_UP_SHARE * inject_Z (pacedBudgetMs current)) (inject_Z durationMs) then clamped (current + 1)
  else if (0 <? current) && Qle_bool (inject_Z durationMs) (STEP_DOWN_SHARE * inject_Z (pacedBudgetMs (current - 1)))
  then current - 1
  else current.

Definition isDue (tier : Z) (lastStartedAt : option Z) (now : Z) : bool :=
  let current := clamped tier in
  match lastStartedAt with
  | None => true
  | Some last =>
      if current =? 0 then true else pacedEveryHours current <=? now / HOUR_MS - last / HOUR_MS
  end.

Record Pace := { tier : Z; lastStartedAt : option Z }.
Definition UNPACED : Pace := {| tier := 0; lastStartedAt := None |}.

(** ** What a run leaves *)

Inductive BlockedReason := UNREACHABLE | TUNNEL_DOWN | INSECURE | CREDENTIALS | UNSUPPORTED | TIMED_OUT | ERROR.
#[export] Instance BlockedReason_eq_dec : EqDecision BlockedReason.
Proof. solve_decision. Defined.

Record Block := { reason : BlockedReason; detail : string; since : Z }.
Record PassTiming := {
  pt_tier : Z; pt_startedAt : Z; pt_durationMs : Z; pt_outcome : ClusterTaskOutcome;
  pt_budgetMs : option Z; pt_phases : list Phase }.
Record PassRunRow := {
  pr_cluster : string; pr_task : string; pr_startedAt : Z; pr_durationMs : Z; pr_outcome : ClusterTaskOutcome }.
Record Mail := { m_scope : string; m_cluster : string; m_subject : string }.

(** The tables [cluster_blocks], [cluster_pass_timings], [cluster_pass_runs] and
    [worker_watermarks], the mails handed to the notifier, and the clusters the
    gauge calls unreachable. *)
Record Board := {
  blocks : gmap (string * string) Block;
  timings : gmap (string * string) PassTiming;
  runs : list PassRunRow;
  watermarks : Watermarks;
  mails : list Mail;
  unreachables : gset string;
}.
Definition fresh_board : Board :=
  {| blocks := ∅; timings := ∅; runs := []; watermarks := ∅; mails := []; unreachables := ∅ |}.

Definition with_blocks (f : gmap (string * string) Block -> gmap (string * string) Block) (b : Board) : Board :=
  {| blocks := f (blocks b); timings := timings b; runs := runs b; watermarks := watermarks b; mails := mails b;
     unreachables := unreachables b |}.

(** The insert's [since] is the column's default, [now()]. *)
Definition markBlocked (clusterId task : string) (why : BlockedReason) (text : string) (now : Z) : Board -> Board :=
  with_blocks (fun t =>
    <[(clusterId, task) :=
      {| reason := why; detail := text;
         since := match t !! (clusterId, task) with
                  | Some old => if bool_decide (reason old = why) then since old else now
                  | None => now
                  end |}]> t).
Definition markUnblocked (clusterId task : string) : Board -> Board := with_blocks (delete (clusterId, task)).

Definition HISTORY_PASSES : list string := ["collect"; "suggest"; "classify"; "finalize"].
Definition KEPT_PHASES : nat := 8.
Definition nonNegative (ms : Z) : Z := Z.max 0 ms.
Definition kept_phase (ph : Phase) : Phase :=
  {| ph_name := ph_name ph; totalMs := nonNegative (totalMs ph); calls := calls ph; running := running ph |}.

(** The history's key is the cluster, the pass and the start. *)
Definition same_run (x y : PassRunRow) : bool :=
  String.eqb (pr_cluster x) (pr_cluster y) && String.eqb (pr_task x) (pr_task y) && (pr_startedAt x =? pr_startedAt y).
Definition recordPassTiming (clusterId task : string) (t : PassTiming) (next : Z) (b : Board) : Board :=
  let row := {| pt_tier := next; pt_startedAt := pt_startedAt t; pt_durationMs := nonNegative (pt_durationMs t);
                pt_outcome := pt_outcome t; pt_budgetMs := pt_budgetMs t;
                pt_phases := kept_phase <$> take KEPT_PHASES (pt_phases t) |} in
  let run := {| pr_cluster := clusterId; pr_task := task; pr_startedAt := pt_startedAt row;
                pr_durationMs := pt_durationMs row; pr_outcome := pt_outcome row |} in
  {| blocks := blocks b; timings := <[(clusterId, task) := row]> (timings b);
     runs := if existsb (String.eqb task) HISTORY_PASSES
             then if existsb (same_run run) (runs b) then runs b else runs b ++ [run] else runs b;
     watermarks := watermarks b; mails := mails b; unreachables := unreachables b |}.

Definition paceOf (clusterId task : string) (b : Board) : Pace :=
  match timings b !! (clusterId, task) with
  | None => UNPACED
  | Some row => {| tier := pt_tier row; lastStartedAt := Some (pt_startedAt row) |}
  end.
Definition pacesDue (task : string) (clusterIds : list string) (now : Z) (b : Board) : list string :=
  List.filter (fun id =>
    match timings b !! (id, task) with
    | None => true
    | Some row => isDue (pt_tier row) (Some (pt_startedAt row)) now
    end) clusterIds.

(** The gauge. *)
Definition recordClusterTask (clusterId : string) (outcome : ClusterTaskOutcome) (b : Board) : Board :=
  {| blocks := blocks b; timings := timings b; runs := runs b; watermarks := watermarks b; mails := mails b;
     unreachables := match outcome with
                     | ok | unsupported | insecure | gone => unreachables b ∖ {[clusterId]}
                     | unreachable => {[clusterId]} ∪ unreachables b
                     | _ => unreachables b
                     end |}.
Definition observeClusterFleet (clusterIds : list string) (b : Board) : Board :=
  {| blocks := blocks b; timings := timings b; runs := runs b; watermarks := watermarks b; mails := mails b;
     unreachables := unreachables b ∩ list_to_set clusterIds |}.

(** ** What a pass throws *)

Inductive pass_error :=
  | ClusterGoneError (clusterId : string)
  | UnsupportedServerError (message : string)
  | InsecureConnectionError (message : string)
  | TunnelUnavailableError (tunnelId : string)
  | ClusterCredentialsError (message : string)
  | PassBudgetExceededError (task : string) (budgetMs : Z)
  | PoolExhaustedError (waitedMs : Z)
  | ClusterUnreachableError (message : string)
  | DriverError (name message : string)
  | NotAnError (text : string).

Definition humanBudget (ms : Z) : string :=
  if ms <? 1000 then show ms +:+ "ms"
  else
    let seconds := Math_round (inject_Z ms / inject_Z 1000) in
    if seconds <? 120 then (if seconds =? 1 then "1 second" else show seconds +:+ " seconds")
    else
      let minutes := Math_round (inject_Z seconds / inject_Z 60) in
      if minutes =? 1 then "1 minute" else show minutes +:+ " minutes".

Definition error_message (e : pass_error) : string :=
  match e with
  | ClusterGoneError id => "cluster " +:+ id +:+ " no longer exists — nothing to do"
  | UnsupportedServerError m | InsecureConnectionError m | ClusterCredentialsError m
  | ClusterUnreachableError m | DriverError _ m => m
  | TunnelUnavailableError _ => "the tunnel this cluster is reached through could not be brought up"
  | PassBudgetExceededError task budget =>
      "the " +:+ task +:+ " pass ran past its " +:+ humanBudget budget +:+ " budget and was abandoned"
  | PoolExhaustedError waited =>
      "every connection to this cluster stayed busy for " +:+
      show (Math_round (inject_Z waited / inject_Z 1000)) +:+ " seconds, so a statement was never sent"
  | NotAnError text => text
  end.
Definition error_name (e : pass_error) : string :=
  match e with
  | ClusterGoneError _ => "ClusterGoneError"
  | UnsupportedServerError _ => "UnsupportedServerError"
  | InsecureConnectionError _ => "Error"
  | TunnelUnavailableError _ => "TunnelUnavailableError"
  | ClusterCredentialsError _ => "ClusterCredentialsError"
  | PassBudgetExceededError _ _ => "PassBudgetExceededError"
  | PoolExhaustedError _ => "PoolExhaustedError"
  | ClusterUnreachableError _ => "ClusterUnreachableError"
  | DriverError name _ => name
  | NotAnError text => text
  end.
(** [String(error)] of an error with no message is its name. *)
Definition thrown_message (e : pass_error) : string :=
  if String.eqb (error_message e) "" then error_name e else error_message e.

(** The regular expressions, as the alternatives they list; [/i] folds ASCII. *)
Definition matches_i (alternatives : list string) (text : string) : bool :=
  existsb (fun part => text_includes (toLowerCase text) (toLowerCase part)) alternatives.
Definition TRANSPORT_MESSAGE : list string :=
  ["getaddrinfo"; "querySrv"; "queryTxt"; "ECONNREFUSED"; "ECONNRESET"; "EHOSTUNREACH"; "ENETUNREACH";
   "ETIMEDOUT"; "ETIMEOUT"; "ESOCKET"; "Failed to connect"; "Server selection timed out"].
Definition CUSTOMER_DRIVER_MESSAGE : list string :=
  ["querySrv"; "queryTxt"; "ESOCKET"; "Failed to connect"; "Server selection timed out"].
Definition CUSTOMER_DRIVER_NAME (name : string) : bool :=
  existsb (text_includes name)
    ["MongoServerSelectionError"; "MongoNetworkError"; "MongoNetworkTimeoutError"; "MongoTimeoutError"] ||
  String.eqb name "ConnectionError".

Definition isUnreachableError (e : pass_error) : bool :=
  match e with
  | ClusterUnreachableError _ => true
  | NotAnError _ => false
  | e => CUSTOMER_DRIVER_NAME (error_name e) || matches_i CUSTOMER_DRIVER_MESSAGE (error_message e)
  end.
Definition asClusterUnreachable (e : pass_error) : pass_error :=
  match e with
  | ClusterUnreachableError _ | NotAnError _ => e
  | e =>
      if CUSTOMER_DRIVER_NAME (error_name e) || matches_i TRANSPORT_MESSAGE (error_message e)
      then ClusterUnreachableError (thrown_message e) else e
  end.

(** ** One run *)

(** How long work takes, and how it ends. *)
Record Timed := { ms : Z; result : pass_error + unit }.

(** The race against the wall clock: work that outlasts the budget is abandoned at it. *)
Definition withPassBudget (task : string) (budgetMs : Z) (run : Timed) : Timed :=
  if budgetMs <? ms run then {| ms := budgetMs; result := inl (PassBudgetExceededError task budgetMs) |} else run.

(** What a run is given: when it starts, what it times, the time its own budget
    covered, the budgets and the pace, and whether a mail of a scope settles. *)
Record RunContext := {
  rc_started : Z;
  rc_phases : PassPhases;
  rc_budgetedMs : option Z;
  rc_tier : option Z;
  rc_budgetMs : option Z;
  rc_reportedBudgetMs : option Z;
  rc_settles : string -> bool;
}.

(** [recordTiming] of [depsFor], which decides the next run's pace. *)
Definition recordTiming (ctx : RunContext) (clusterId task : string) (t : PassTiming) : Board -> Board :=
  recordPassTiming clusterId task t
    match rc_tier ctx with
    | None => 0
    | Some tier => nextTier tier (pt_outcome t) (default (pt_durationMs t) (rc_budgetedMs ctx))
    end.
Definition settle (ctx : RunContext) (clusterId task : string) (ended : Z) (outcome : ClusterTaskOutcome)
    (budget : option Z) (b : Board) : Board :=
  let b := recordClusterTask clusterId outcome b in
  if bool_decide (outcome = gone) then b
  else recordTiming ctx clusterId task
         {| pt_tier := 0; pt_startedAt := rc_started ctx; pt_durationMs := ended - rc_started ctx;
            pt_outcome := outcome; pt_budgetMs := budget; pt_phases := phases ended (rc_phases ctx) |} b.
Definition alert (ctx : RunContext) (now : Z) (scope clusterId subject : string) (b : Board) : Board :=
  let '(w, sent) := raiseAlert scope (rc_settles ctx scope) now (watermarks b) in
  {| blocks := blocks b; timings := timings b; runs := runs b; watermarks := w;
     mails := if sent then mails b ++ [{| m_scope := scope; m_cluster := clusterId; m_subject := subject |}] else mails b;
     unreachables := unreachables b |}.

(** Ran out of time, or waited for a connection as long as a statement may run. *)
Definition timed_out_branch (ctx : RunContext) (task clusterId : string) (ended : Z) (e : pass_error) (b : Board) : Board :=
  let budget := match e with PassBudgetExceededError _ budget => Some budget | _ => rc_budgetMs ctx end in
  let b := settle ctx clusterId task ended timed_out budget b in
  let spent := summary 4 ended (rc_phases ctx) in
  let breakdown := if String.eqb spent "" then "" else " — " +:+ spent in
  let pacing := isPaced task && is_some (rc_tier ctx) in
  let pacedTier := default 0 (rc_tier ctx) in
  let paced := pacing && (pacedTier <? MAX_TIER) in
  let next :=
    if paced
    then " — paced: the next run gets " +:+
         show (Math_round (inject_Z (pacedBudgetMs (pacedTier + 1)) / inject_Z 60000)) +:+ " minutes, every " +:+
         show (pacedEveryHours (pacedTier + 1)) +:+ " hours"
    else "" in
  let b := markBlocked clusterId task TIMED_OUT (error_message e +:+ breakdown +:+ next) ended b in
  if paced then b
  else alert ctx ended (clusterId +:+ ":timed-out") clusterId
         (if pacing then task +:+ " does not fit even at its slowest pace"
          else task +:+ " is taking longer than Indexterity will wait") b.

(** The pass, against its wall clock when it has one. *)
Definition budgeted_run (task : string) (ctx : RunContext) (run : Timed) : Timed :=
  match rc_budgetMs ctx with None => run | Some budget => withPassBudget task budget run end.

(** The decision table.  [Some e] is rethrown, for the queue to retry. *)
Definition runClusterTask (task clusterId : string) (ctx : RunContext) (run : Timed) (b : Board)
    : Board * option pass_error :=
  let pass := budgeted_run task ctx run in
  let ended := rc_started ctx + ms pass in
  let settled := fun outcome => settle ctx clusterId task ended outcome (rc_reportedBudgetMs ctx) in
  let blocked := fun why text => markBlocked clusterId task why text ended in
  match result pass with
  | inr _ => (markUnblocked clusterId task (settled ok b), None)
  | inl (ClusterGoneError _) => (settled gone b, None)
  | inl (UnsupportedServerError message) =>
      (alert ctx ended (clusterId +:+ ":unsupported") clusterId "cluster version not supported"
         (blocked UNSUPPORTED message (settled unsupported b)), None)
  | inl (InsecureConnectionError message) =>
      (alert ctx ended (clusterId +:+ ":insecure") clusterId
         (task +:+ " skipped — this cluster's connection string is not using TLS")
         (blocked INSECURE message (settled insecure b)), None)
  | inl (TunnelUnavailableError tunnelId) =>
      (alert ctx ended ("tunnel:" +:+ tunnelId) clusterId
         (task +:+ " skipped — the VPN tunnel to this cluster is down")
         (blocked TUNNEL_DOWN
            ("The VPN tunnel this cluster is reached through is not up. The database itself may be " +:+
             "answering fine; what is not is the gateway.")
            (settled tunnel_down b)), None)
  | inl (ClusterCredentialsError message) => (blocked CREDENTIALS message (settled credentials b), None)
  | inl ((PassBudgetExceededError _ _ | PoolExhaustedError _) as e) =>
      (timed_out_branch ctx task clusterId ended e b, None)
  | inl e =>
      if negb (isUnreachableError e)
      then (blocked ERROR (thrown_message e) (settled failed b), Some e)
      else (alert ctx ended (clusterId +:+ ":" +:+ task) clusterId (task +:+ " skipped — cluster unreachable")
              (blocked UNREACHABLE (thrown_message e) (settled unreachable b)), None)
  end.

(** ** A pass against a cluster *)

Definition BUDGETED_PASSES : list string := ["collect"; "classify"; "probe"].
Definition isBudgeted (task : string) : bool := existsb (String.eqb task) BUDGETED_PASSES.

(** The work of a pass; a suggest's analysis and the instant build after it. *)
Record PassWork := { main : Timed; build : Timed }.

(** [run(id, pass)]: what a suggest budgets is its analysis, and only it. *)
Definition run_work (task : string) (budgetMs : Z) (w : PassWork) : Timed * option Z :=
  if String.eqb task "suggest"
  then let analysis := withPassBudget task budgetMs (main w) in
       match result analysis with
       | inl _ => (analysis, None)
       | inr _ => ({| ms := ms analysis + ms (build w); result := result (build w) |}, Some (ms analysis))
       end
  else (main w, None).

(** The pace a run starts with, [None] when the pass is not paced. *)
Definition pace_for (task clusterId : string) (b : Board) : option Pace :=
  if isPaced task then Some (paceOf clusterId task b) else None.
(** The budget [onCluster] gives a run. *)
Definition budget_for (task : string) (pace : option Pace) : option Z :=
  match pace with
  | Some pace => Some (pacedBudgetMs (tier pace))
  | None => if isBudgeted task then Some PASS_BUDGET_MS else None
  end.
Definition stands_down (task : string) (pace : option Pace) (now : Z) : bool :=
  match pace with
  | Some pace => String.eqb task "suggest" && negb (isDue (tier pace) (lastStartedAt pace) now)
  | None => false
  end.

(** The run an attempt makes, [None] when it stands down. *)
Definition cluster_run (task clusterId : string) (now : Z) (timedPhases : PassPhases) (settles : string -> bool)
    (w : PassWork) (b : Board) : option (RunContext * Timed) :=
  let pace := pace_for task clusterId b in
  if stands_down task pace now then None
  else
    let passBudgetMs := budget_for task pace in
    let '(run, budgetedMs) := run_work task (default PASS_BUDGET_MS passBudgetMs) w in
    Some ({| rc_started := now; rc_phases := timedPhases; rc_budgetedMs := budgetedMs; rc_tier := tier <$> pace;
             rc_budgetMs := if String.eqb task "suggest" then None else passBudgetMs;
             rc_reportedBudgetMs := passBudgetMs; rc_settles := settles |}, run).
Definition onCluster (task clusterId : string) (now : Z) (timedPhases : PassPhases) (settles : string -> bool)
    (w : PassWork) (b : Board) : Board * option pass_error :=
  match cluster_run task clusterId now timedPhases settles w b with
  | None => (b, None)
  | Some (ctx, run) => runClusterTask task clusterId ctx run b
  end.

(** ** How a run ends *)

(** The outcome each ending is settled as. *)
Definition outcome_of (r : pass_error + unit) : ClusterTaskOutcome :=
  match r with
  | inr _ => ok
  | inl e =>
      match e with
      | ClusterGoneError _ => gone
      | UnsupportedServerError _ => unsupported
      | InsecureConnectionError _ => insecure
      | TunnelUnavailableError _ => tunnel_down
      | ClusterCredentialsError _ => credentials
      | PassBudgetExceededError _ _ | PoolExhaustedError _ => timed_out
      | e => if isUnreachableError e then unreachable else failed
      end
  end.
Definition blocked_as (o : ClusterTaskOutcome) : option BlockedReason :=
  match o with
  | ok | gone => None
  | unreachable => Some UNREACHABLE | tunnel_down => Some TUNNEL_DOWN | unsupported => Some UNSUPPORTED
  | credentials => Some CREDENTIALS | insecure => Some INSECURE | timed_out => Some TIMED_OUT | failed => Some ERROR
  end.
(** Which outcomes may mail; a timeout that pacing answers does not. *)
Definition may_mail (task : string) (tier : option Z) (o : ClusterTaskOutcome) : bool :=
  match o with
  | unreachable | tunnel_down | unsupported | insecure => true
  | timed_out => negb (isPaced task && is_some tier && (default 0 tier <? MAX_TIER))
  | _ => false
  end.

Definition ended_at (task : string) (ctx : RunContext) (run : Timed) : Z := rc_started ctx + ms (budgeted_run task ctx run).
Definition run_outcome (task : string) (ctx : RunContext) (run : Timed) : ClusterTaskOutcome :=
  outcome_of (result (budgeted_run task ctx run)).

Definition same_tables (b b' : Board) : Prop := blocks b' = blocks b /\ timings b' = timings b /\ runs b' = runs b.
Lemma alert_tables ctx now scope c subject b : same_tables b (alert ctx now scope c subject b).
Proof. unfold alert. by destruct (raiseAlert _ _ _ _). Qed.
Lemma settle_blocks ctx c t ended o budget b : blocks (settle ctx c t ended o budget b) = blocks b.
Proof. unfold settle. by destruct (bool_decide _). Qed.
Lemma settle_mails ctx c t ended o budget b : mails (settle ctx c t ended o budget b) = mails b.
Proof. unfold settle. by destruct (bool_decide _). Qed.

(** What one run does to the block of its pass. *)
Definition block_view (x : Block) : BlockedReason * Z := (reason x, since x).
Definition block_after (o : ClusterTaskOutcome) (now : Z) (old : option (BlockedReason * Z)) : option (BlockedReason * Z) :=
  match o with
  | gone => old
  | o => (fun why => (why, match old with
                           | Some (why', since) => if bool_decide (why' = why) then since else now
                           | None => now
                           end)) <$> blocked_as o
  end.

Ltac run_cases :=
  unfold runClusterTask, run_outcome, ended_at;
  match goal with |- context [budgeted_run ?t ?c ?r] => destruct (budgeted_run t c r) as [? [[]|[]]] end;
  cbn [result ms outcome_of]; try (destruct (isUnreachableError _)); cbn [negb fst snd].

Lemma run_blocks task c ctx run b :
  block_view <$> blocks (runClusterTask task c ctx run b).1 !! (c, task) =
  block_after (run_outcome task ctx run) (ended_at task ctx run) (block_view <$> blocks b !! (c, task)).
Proof.
  assert (Hm : forall why text now b', blocks b' = blocks b ->
    block_view <$> blocks (markBlocked c task why text now b') !! (c, task) =
    Some (why, match block_view <$> blocks b !! (c, task) with
               | Some (why', since) => if bool_decide (why' = why) then since else now
               | None => now
               end)).
  { intros why text now b' E. unfold markBlocked. cbn. rewrite lookup_insert_eq, E. by destruct (blocks b !! _). }
  run_cases; try (rewrite (proj1 (alert_tables _ _ _ _ _ _))); try (rewrite Hm by apply settle_blocks; done).
  all: try (unfold timed_out_branch; match goal with |- context [if ?p then _ else alert _ _ _ _ _ _] => destruct p end;
    rewrite ?(proj1 (alert_tables _ _ _ _ _ _)); rewrite Hm by apply settle_blocks; done).
  - by rewrite settle_blocks.
  - cbn. by rewrite lookup_delete_eq.
Qed.

Lemma run_blocks_other task c ctx run b key :
  key <> (c, task) -> blocks (runClusterTask task c ctx run b).1 !! key = blocks b !! key.
Proof.
  intros Hk. assert (Hm : forall why text now b', blocks b' = blocks b ->
    blocks (markBlocked c task why text now b') !! key = blocks b !! key).
  { intros why text now b' E. unfold markBlocked. cbn. by rewrite lookup_insert_ne, E. }
  run_cases; try (rewrite (proj1 (alert_tables _ _ _ _ _ _))); try (rewrite Hm by apply settle_blocks; done).
  all: try (unfold timed_out_branch; match goal with |- context [if ?p then _ else alert _ _ _ _ _ _] => destruct p end;
    rewrite ?(proj1 (alert_tables _ _ _ _ _ _)); rewrite Hm by apply settle_blocks; done).
  - by rewrite settle_blocks.
  - cbn. by rewrite lookup_delete_ne.
Qed.

(** The pace a run leaves the next one. *)
Definition run_next (task : string) (ctx : RunContext) (run : Timed) : Z :=
  match rc_tier ctx with
  | None => 0
  | Some tier =>
      nextTier tier (run_outcome task ctx run) (default (ended_at task ctx run - rc_started ctx) (rc_budgetedMs ctx))
  end.
Lemma settle_timing ctx c t ended o budget b :
  o <> gone ->
  timings (settle ctx c t ended o budget b) !! (c, t) =
  Some {| pt_tier := match rc_tier ctx with
                     | None => 0
                     | Some tier => nextTier tier o (default (ended - rc_started ctx) (rc_budgetedMs ctx))
                     end;
          pt_startedAt := rc_started ctx; pt_durationMs := nonNegative (ended - rc_started ctx); pt_outcome := o;
          pt_budgetMs := budget; pt_phases := kept_phase <$> take KEPT_PHASES (phases ended (rc_phases ctx)) |}.
Proof.
  intros Ho. unfold settle. rewrite bool_decide_eq_false_2 by done. apply lookup_insert_eq.
Qed.
(** Every outcome but [gone] is timed. *)
Lemma run_timing task c ctx run b :
  run_outcome task ctx run <> gone ->
  exists row, timings (runClusterTask task c ctx run b).1 !! (c, task) = Some row /\
    pt_outcome row = run_outcome task ctx run /\ pt_startedAt row = rc_started ctx /\ pt_tier row = run_next task ctx run.
Proof.
  assert (Hs : forall ended o budget b', o <> gone -> timings b' = timings (settle ctx c task ended o budget b) ->
    exists row, timings b' !! (c, task) = Some row /\ pt_outcome row = o /\ pt_startedAt row = rc_started ctx /\
      pt_tier row = match rc_tier ctx with
                    | None => 0
                    | Some tier => nextTier tier o (default (ended - rc_started ctx) (rc_budgetedMs ctx))
                    end).
  { intros ended o budget b' Ho ->. rewrite settle_timing by done. by eexists. }
  unfold run_next. run_cases; intros Hg; try done;
    try (eapply Hs; [done|]; rewrite ?(proj1 (proj2 (alert_tables _ _ _ _ _ _))); reflexivity).
  all: unfold timed_out_branch; match goal with |- context [if ?p then _ else alert _ _ _ _ _ _] => destruct p end;
    (eapply Hs; [done|]; rewrite ?(proj1 (proj2 (alert_tables _ _ _ _ _ _))); reflexivity).
Qed.
Lemma run_gone task c ctx run b :
  run_outcome task ctx run = gone -> same_tables b (runClusterTask task c ctx run b).1.
Proof. run_cases; intros Hg; try discriminate. done. Qed.
Lemma run_pace task c ctx run b :
  run_outcome task ctx run <> gone ->
  paceOf c task (runClusterTask task c ctx run b).1 =
    {| tier := run_next task ctx run; lastStartedAt := Some (rc_started ctx) |}.
Proof. intros (row & E & _ & Es & Et)%(run_timing task c ctx run b). unfold paceOf. by rewrite E, Es, Et. Qed.

(** ** The story a block tells *)

Record Attempt := {
  at_task : string; at_cluster : string; at_now : Z; at_phases : PassPhases; at_settles : string -> bool; at_work : PassWork }.
Definition attempted (b : Board) (a : Attempt) : Board :=
  (onCluster (at_task a) (at_cluster a) (at_now a) (at_phases a) (at_settles a) (at_work a) b).1.
(** When an attempt ended and how; [None] when it stood down. *)
Definition came_to (b : Board) (a : Attempt) : option (Z * ClusterTaskOutcome) :=
  match cluster_run (at_task a) (at_cluster a) (at_now a) (at_phases a) (at_settles a) (at_work a) b with
  | None => None
  | Some (ctx, run) => Some (ended_at (at_task a) ctx run, run_outcome (at_task a) ctx run)
  end.
(** The runs of one pass on one cluster among a fleet's, newest first. *)
Fixpoint history (key : string * string) (l : list Attempt) (b : Board) (past : list (Z * ClusterTaskOutcome))
    : list (Z * ClusterTaskOutcome) :=
  match l with
  | [] => past
  | a :: l =>
      history key l (attempted b a)
        (if bool_decide ((at_cluster a, at_task a) = key) then option_list (came_to b a) ++ past else past)
  end.

(** Where the unbroken run of failures for one reason that ends at [now] began. *)
Fixpoint since_of (why : BlockedReason) (now : Z) (past : list (Z * ClusterTaskOutcome)) : Z :=
  match past with
  | [] => now
  | (t, o) :: past =>
      if bool_decide (o = gone) then since_of why now past
      else if bool_decide (blocked_as o = Some why) then since_of why t past else now
  end.
(** What a history leaves standing. *)
Fixpoint streak (past : list (Z * ClusterTaskOutcome)) : option (BlockedReason * Z) :=
  match past with
  | [] => None
  | (t, o) :: past =>
      if bool_decide (o = gone) then streak past else (fun why => (why, since_of why t past)) <$> blocked_as o
  end.

Lemma since_of_streak why now past :
  since_of why now past = match streak past with
                          | Some (why', since) => if bool_decide (why' = why) then since else now
                          | None => now
                          end.
Proof.
  revert now. induction past as [|[t o] past IH]; intros now; [done|]. cbn. destruct (bool_decide (o = gone)); [apply IH|].
  destruct (blocked_as o) as [r|]; [|done]. cbn. case_bool_decide as E; case_bool_decide as E'; simplify_eq; done.
Qed.
Lemma streak_cons t o past : streak ((t, o) :: past) = block_after o t (streak past).
Proof.
  cbn. case_bool_decide as E; [by subst|]. assert (block_after o t (streak past) = (fun why => (why, since_of why t past)) <$> blocked_as o) as ->; [|done].
  destruct o; try done; cbn; by rewrite since_of_streak.
Qed.

Lemma attempted_block b a key :
  block_view <$> blocks (attempted b a) !! key =
  match (if bool_decide ((at_cluster a, at_task a) = key) then came_to b a else None) with
  | None => block_view <$> blocks b !! key
  | Some (t, o) => block_after o t (block_view <$> blocks b !! key)
  end.
Proof.
  unfold attempted, came_to, onCluster. destruct (cluster_run _ _ _ _ _ _ _) as [[ctx run]|]; [|by case_bool_decide].
  case_bool_decide as E; [subst key; apply run_blocks|]. by rewrite run_blocks_other.
Qed.

(** ** Pacing *)

(** A collect of one length, attempt after attempt. *)
Definition nothing_timed : PassWork -> string -> string -> Z -> Attempt := fun w task cluster now =>
  {| at_task := task; at_cluster := cluster; at_now := now; at_phases := no_phases; at_settles := fun _ => true;
     at_work := w |}.
Definition lands (d : Z) : PassWork := {| main := {| ms := d; result := inr tt |}; build := {| ms := 0; result := inr tt |} |}.
Definition collect_of (d : Z) (cluster : string) (now : Z) : Attempt := nothing_timed (lands d) "collect" cluster now.

(** The tier after a run of length [d] at [tier]. *)
Definition after_run (d tier : Z) : Z :=
  let run := withPassBudget "collect" (pacedBudgetMs tier) {| ms := d; result := inr tt |} in
  nextTier tier (outcome_of (result run)) (ms run).

Lemma clamped_range tier : 0 <= clamped tier <= MAX_TIER.
Proof. unfold clamped, MAX_TIER. lia. Qed.
Lemma clamped_cases tier : clamped tier = 0 \/ clamped tier = 1 \/ clamped tier = 2.
Proof. pose proof (clamped_range tier). unfold MAX_TIER in *. lia. Qed.
Lemma clamped_id tier : clamped (clamped tier) = clamped tier.
Proof. unfold clamped, MAX_TIER. lia. Qed.
Lemma pacedBudget_clamped tier : pacedBudgetMs (clamped tier) = pacedBudgetMs tier.
Proof. unfold pacedBudgetMs. by rewrite clamped_id. Qed.

Lemma after_run_clamped d tier : after_run d (clamped tier) = after_run d tier.
Proof. unfold after_run, nextTier. by rewrite !clamped_id, !pacedBudget_clamped. Qed.

(** The table: when a tier of 0, 1 or 2 moves. *)
Lemma after_run_table d :
  after_run d 0 = (if 225000 <=? d then 1 else 0) /\
  after_run d 1 = (if 450000 <=? d then 2 else if d <=? 150000 then 0 else 1) /\
  after_run d 2 = (if d <=? 300000 then 1 else 2).
Proof.
  assert (Hq : forall p q x, Qle_bool ((p # q) * inject_Z x) (inject_Z d) = (p * x <=? d * Zpos q)).
  { intros p q x. unfold Qle_bool, Qmult, inject_Z. cbn [Qnum Qden]. by rewrite Pos.mul_1_r, Z.mul_1_r. }
  assert (Hq' : forall p q x, Qle_bool (inject_Z d) ((p # q) * inject_Z x) = (d * Zpos q <=? p * x)).
  { intros p q x. unfold Qle_bool, Qmult, inject_Z. cbn [Qnum Qden]. by rewrite Pos.mul_1_r, Z.mul_1_r. }
  unfold after_run, nextTier, withPassBudget, STEP_UP_SHARE, STEP_DOWN_SHARE, outcome_of.
  change (clamped 0) with 0. change (clamped 1) with 1. change (clamped 2) with 2.
  change (pacedBudgetMs 0) with 300000. change (pacedBudgetMs 1) with 600000. change (pacedBudgetMs 2) with 1200000.
  change (pacedBudgetMs (1 - 1)) with 300000. change (pacedBudgetMs (2 - 1)) with 600000.
  change (clamped (0 + 1)) with 1. change (clamped (1 + 1)) with 2. change (clamped (2 + 1)) with 2.
  cbn [ms result]. split_and!;
    match goal with |- context [?x <? d] => destruct (Z.ltb_spec x d) end; cbn [ms result];
    rewrite ?Hq, ?Hq'; repeat (match goal with |- context [?x <=? ?y] => destruct (Z.leb_spec x y) end);
    try lia; reflexivity.
Qed.

Definition settled_at (d t : Z) : Prop := 0 <= t <= MAX_TIER /\ after_run d t = t.

(** Two runs of one length settle the tier: no flapping. *)
Lemma after_run_settles d tier : settled_at d (after_run d (after_run d tier)).
Proof.
  destruct (after_run_table d) as (E0 & E1 & E2). rewrite <- (after_run_clamped d tier). unfold settled_at, MAX_TIER.
  destruct (clamped_cases tier) as [->|[->| ->]];
    repeat (rewrite ?E0, ?E1, ?E2; repeat (match goal with |- context [?x <=? ?y] => destruct (Z.leb_spec x y) end)); lia.
Qed.
(** What the settled tier's budget covers. *)
Lemma settled_fits d t : settled_at d t -> d <= pacedBudgetMs MAX_TIER -> d <= pacedBudgetMs t.
Proof.
  intros [Ht E] Hd. destruct (after_run_table d) as (E0 & E1 & E2). unfold MAX_TIER in *.
  change (pacedBudgetMs 2) with 1200000 in Hd. assert (t = 0 \/ t = 1 \/ t = 2) as [->|[->| ->]] by lia.
  - change (pacedBudgetMs 0) with 300000. rewrite E0 in E. destruct (Z.leb_spec 225000 d); lia.
  - change (pacedBudgetMs 1) with 600000. rewrite E1 in E. destruct (Z.leb_spec 450000 d); lia.
  - change (pacedBudgetMs 2) with 1200000. lia.
Qed.

Lemma collect_run c now p settles w b :
  let t := tier (paceOf c "collect" b) in
  cluster_run "collect" c now p settles w b =
  Some ({| rc_started := now; rc_phases := p; rc_budgetedMs := None; rc_tier := Some t; rc_budgetMs := Some (pacedBudgetMs t);
           rc_reportedBudgetMs := Some (pacedBudgetMs t); rc_settles := settles |}, main w).
Proof. reflexivity. Qed.

Lemma collect_tier d c now b :
  tier (paceOf c "collect" (attempted b (collect_of d c now))) = after_run d (tier (paceOf c "collect" b)).
Proof.
  unfold attempted, onCluster, collect_of, nothing_timed. cbn [at_task at_cluster at_now at_phases at_settles at_work].
  rewrite collect_run. set (t := tier (paceOf c "collect" b)).
  rewrite run_pace by (unfold run_outcome, budgeted_run, withPassBudget; cbn; by destruct (_ <? _)).
  unfold run_next, run_outcome, ended_at, budgeted_run, after_run.
  cbn [rc_budgetMs rc_tier rc_started rc_budgetedMs tier lands main default].
  unfold withPassBudget. cbn [ms]. destruct (pacedBudgetMs t <? d); cbn [ms result outcome_of]; f_equal; lia.
Qed.
Lemma collects_tier d c nows b :
  (2 <= length nows)%nat -> settled_at d (tier (paceOf c "collect" (foldl attempted b (collect_of d c <$> nows)))).
Proof.
  intros Hl. assert (Hk : forall l b', settled_at d (tier (paceOf c "collect" b')) ->
    settled_at d (tier (paceOf c "collect" (foldl attempted b' (collect_of d c <$> l))))).
  { induction l as [|n l IH]; intros b' Hs; [done|]. cbn. apply IH. rewrite collect_tier.
    destruct Hs as [? E]. unfold settled_at. by rewrite E. }
  destruct nows as [|n1 [|n2 nows]]; [cbn in Hl; lia..|]. cbn. apply Hk. rewrite !collect_tier. apply after_run_settles.
Qed.

(** ** The share of the worker a paced suggest takes *)

(** The suggests of a cluster that ran among a fleet's attempts: when each
    started, and its tier. *)
Definition suggest_start (c : string) (b : Board) (a : Attempt) : option (Z * Z) :=
  if bool_decide ((at_cluster a, at_task a) = (c, "suggest")) then
    match came_to b a with
    | Some (_, o) => if bool_decide (o = gone) then None else Some (at_now a, tier (paceOf c "suggest" b))
    | None => None
    end
  else None.
Fixpoint suggest_starts (c : string) (l : list Attempt) (b : Board) : list (Z * Z) :=
  match l with
  | [] => []
  | a :: l => option_list (suggest_start c b a) ++ suggest_starts c l (attempted b a)
  end.
Definition paced_budget (run : Z * Z) : Z := if 0 <? clamped run.2 then pacedBudgetMs run.2 else 0.
Definition budget_sum (l : list (Z * Z)) : Z := foldr (fun run sum => paced_budget run + sum) 0 l.
Definition hour (now : Z) : Z := now / HOUR_MS.

Lemma attempted_other_pace b a c t :
  (at_cluster a, at_task a) <> (c, t) -> paceOf c t (attempted b a) = paceOf c t b.
Proof.
  intros Hk. unfold attempted, onCluster. destruct (cluster_run _ _ _ _ _ _ _) as [[ctx run]|]; [|done].
  assert (Hs : forall ended o budget b', timings b' = timings (settle ctx (at_cluster a) (at_task a) ended o budget b) ->
    paceOf c t b' = paceOf c t b).
  { intros ended o budget b' E. unfold paceOf. rewrite E. unfold settle. destruct (bool_decide _); [done|].
    cbn. by rewrite lookup_insert_ne by congruence. }
  run_cases; try (eapply Hs; rewrite ?(proj1 (proj2 (alert_tables _ _ _ _ _ _))); reflexivity).
  all: unfold timed_out_branch; match goal with |- context [if ?p then _ else alert _ _ _ _ _ _] => destruct p end;
    (eapply Hs; rewrite ?(proj1 (proj2 (alert_tables _ _ _ _ _ _))); reflexivity).
Qed.

(** A suggest that runs was due, and is the last start from then on; one that does not leaves the pace. *)
Lemma suggest_start_some c b a s t :
  suggest_start c b a = Some (s, t) ->
  s = at_now a /\ t = tier (paceOf c "suggest" b) /\ isDue t (lastStartedAt (paceOf c "suggest" b)) s = true /\
  lastStartedAt (paceOf c "suggest" (attempted b a)) = Some s.
Proof.
  unfold suggest_start. case_bool_decide as Ek; [|done]. injection Ek as Ec Et.
  unfold came_to, attempted, onCluster. rewrite Ec, Et.
  destruct (cluster_run "suggest" c _ _ _ _ _) as [[ctx run]|] eqn:E; [|done].
  case_bool_decide as Eg; [done|]. intros [= <- <-]. rewrite run_pace by done. unfold cluster_run in E.
  destruct (stands_down _ _ _) eqn:Es; [done|]. split_and!; [done..| |].
  - change (stands_down "suggest" (pace_for "suggest" c b) (at_now a))
      with (negb (isDue (tier (paceOf c "suggest" b)) (lastStartedAt (paceOf c "suggest" b)) (at_now a))) in Es.
    by apply negb_false_iff.
  - destruct (run_work _ _ _) as [r m]. by injection E as <- _.
Qed.
Lemma suggest_start_none c b a :
  suggest_start c b a = None -> paceOf c "suggest" (attempted b a) = paceOf c "suggest" b.
Proof.
  unfold suggest_start. case_bool_decide as Ek; [|by intros _; apply attempted_other_pace]. injection Ek as Ec Et.
  unfold came_to, attempted, onCluster. rewrite Ec, Et.
  destruct (cluster_run "suggest" c _ _ _ _ _) as [[ctx run]|] eqn:E; [|done].
  case_bool_decide as Eg; [|done]. intros _. destruct (run_gone "suggest" c ctx run b Eg) as (_ & Ht & _).
  unfold paceOf. by rewrite Ht.
Qed.

Lemma paced_gap s t prev : isDue t (Some prev) s = true -> prev <= s -> paced_budget (s, t) <= PASS_BUDGET_MS * (hour s - hour prev).
Proof.
  unfold isDue, paced_budget, pacedBudgetMs, pacedEveryHours, hour. cbn. intros Hd Hle.
  assert (Hh : prev / HOUR_MS <= s / HOUR_MS) by (apply Z.div_le_mono; [unfold HOUR_MS; lia|done]).
  destruct (Z.ltb_spec 0 (clamped t)) as [Hp|Hp]; [|unfold PASS_BUDGET_MS; lia].
  destruct (Z.eqb_spec (clamped t) 0) as [|_]; [lia|]. apply Z.leb_le in Hd. rewrite clamped_id in Hd.
  apply Z.mul_le_mono_nonneg_l; [unfold PASS_BUDGET_MS; lia|done].
Qed.

(** The share of the worker a paced suggest may take never moves.  Whatever
    triggers it and however often, from one recorded start to the last, the
    budgets of the paced runs add up to at most one base budget for every hour
    that passed. *)
Theorem paced_suggest_share c l b prev :
  StronglySorted Z.le (at_now <$> l) -> Forall (fun a => prev <= at_now a) l ->
  lastStartedAt (paceOf c "suggest" b) = Some prev ->
  budget_sum (suggest_starts c l b) <= PASS_BUDGET_MS * (hour (List.last (suggest_starts c l b).*1 prev) - hour prev).
Proof.
  revert b prev. induction l as [|a l IH]; intros b prev Hs Hle Hp; cbn [suggest_starts]; [cbn; unfold PASS_BUDGET_MS; lia|].
  cbn in Hs. inversion_clear Hs as [|? ? Hs' Ha]. apply Forall_cons in Hle as [Hpa Hpl].
  destruct (suggest_start c b a) as [[s t]|] eqn:E.
  - apply suggest_start_some in E as (-> & -> & Hd & Hl). rewrite Hp in Hd.
    pose proof (paced_gap _ _ _ Hd Hpa) as Hg.
    specialize (IH (attempted b a) (at_now a) Hs' (proj1 (Forall_fmap _ _ _) Ha) Hl).
    assert (Hlast : forall (l : list Z) x d, List.last (x :: l) d = List.last l x).
    { induction l0 as [|y l0 IHl]; intros x d; [done|]. change (List.last (x :: y :: l0) d) with (List.last (y :: l0) d).
      rewrite IHl. symmetry. apply IHl. }
    set (rest := suggest_starts c l (attempted b a)) in *.
    change (option_list (Some ?x) ++ rest) with (x :: rest). rewrite fmap_cons, Hlast.
    change (budget_sum (?x :: rest)) with (paced_budget x + budget_sum rest). cbn [fst]. lia.
  - apply suggest_start_none in E. apply IH; [done..|]. by rewrite E.
Qed.

(** ** The guarantees *)

(** The block of a pass on a cluster tells the story of its runs.  After
    any attempts of any passes on any clusters, it stands exactly when the last
    run failed, for that run's reason, and it dates from where the unbroken
    run of failures for that reason began. *)
Theorem blocks_tell_history l key :
  block_view <$> blocks (foldl attempted fresh_board l) !! key = streak (history key l fresh_board []).
Proof.
  enough (Hg : forall b past, block_view <$> blocks b !! key = streak past ->
    block_view <$> blocks (foldl attempted b l) !! key = streak (history key l b past)) by by apply Hg.
  induction l as [|a l IH]; intros b past Hb; [done|]. cbn [foldl history]. apply IH. rewrite attempted_block.
  case_bool_decide; [|done]. destruct (came_to b a) as [[t o]|]; [|done].
  change (option_list (Some ?x) ++ past) with (x :: past). by rewrite streak_cons, Hb.
Qed.

(** How a run ends.  It is rethrown for the queue to retry exactly when its
    failure is one nothing names; every other failure is skipped.  Whatever the
    outcome the run is timed, except that a cluster that is gone leaves the
    tables as they are; and at most one mail goes out, none when the outcome has
    nobody to tell or the pacing answers it. *)
Theorem runClusterTask_ends task c ctx run b :
  let '(b', thrown) := runClusterTask task c ctx run b in
  let o := run_outcome task ctx run in
  (forall e, thrown = Some e <-> o = failed /\ result (budgeted_run task ctx run) = inl e) /\
  (o <> gone -> exists row, timings b' !! (c, task) = Some row /\ pt_outcome row = o /\ pt_startedAt row = rc_started ctx) /\
  (o = gone -> same_tables b b') /\
  (mails b' = mails b \/ may_mail task (rc_tier ctx) o = true /\ exists m, mails b' = mails b ++ [m] /\ m_cluster m = c).
Proof.
  destruct (runClusterTask task c ctx run b) as [b' thrown] eqn:E. cbn zeta.
  assert (Eb : b' = (runClusterTask task c ctx run b).1) by by rewrite E.
  assert (Et : thrown = (runClusterTask task c ctx run b).2) by by rewrite E. clear E. split_and!.
  - subst thrown. run_cases; intros e; split; naive_solver.
  - intros Hg. destruct (run_timing task c ctx run b Hg) as (row & ? & ? & ? & _). subst b'. by exists row.
  - intros Hg. subst b'. by apply run_gone.
  - subst b'. assert (Ha : forall now scope subject b1, mails b1 = mails b ->
      mails (alert ctx now scope c subject b1) = mails b \/
      exists m, mails (alert ctx now scope c subject b1) = mails b ++ [m] /\ m_cluster m = c).
    { intros now scope subject b1 E. unfold alert. destruct (raiseAlert _ _ _ _) as [w []]; cbn; rewrite E; eauto. }
    assert (Hm : forall (P : Prop) now scope subject b1, mails b1 = mails b -> P ->
      mails (alert ctx now scope c subject b1) = mails b \/
      P /\ exists m, mails (alert ctx now scope c subject b1) = mails b ++ [m] /\ m_cluster m = c).
    { intros P now scope subject b1 E HP. destruct (Ha now scope subject b1 E); auto. }
    run_cases; try (left; apply settle_mails); try (apply Hm; [apply settle_mails|done]).
    all: unfold timed_out_branch, may_mail;
      destruct (isPaced task && is_some (rc_tier ctx) && (default 0 (rc_tier ctx) <? MAX_TIER));
      [left; apply settle_mails|apply Hm; [apply settle_mails|done]].
Qed.

(** a collect that fits the longest budget lands.  Whatever the pace it
    starts from, after two runs of one length every later run at that length
    ends within its budget, at a tier that no longer moves. *)
Theorem collect_pace_settles d c nows now b :
  0 <= d <= pacedBudgetMs MAX_TIER -> (2 <= length nows)%nat ->
  let b' := foldl attempted b (collect_of d c <$> nows) in
  came_to b' (collect_of d c now) = Some (now + d, ok) /\
  tier (paceOf c "collect" (attempted b' (collect_of d c now))) = tier (paceOf c "collect" b').
Proof.
  intros [_ Hd] Hn b'. pose proof (collects_tier d c nows b Hn) as Hs. fold b' in Hs.
  pose proof (settled_fits _ _ Hs Hd) as Hf. split; [|by rewrite collect_tier; destruct Hs].
  unfold came_to, collect_of, nothing_timed. cbn [at_task at_cluster at_now at_phases at_settles at_work].
  rewrite collect_run. unfold ended_at, run_outcome, budgeted_run, withPassBudget. cbn [rc_budgetMs lands main ms rc_started].
  destruct (Z.ltb_spec (pacedBudgetMs (tier (paceOf c "collect" b'))) d) as [|_]; [lia|]. done.
Qed.

(** ** A slow cluster *)

(** Twelve minutes of collecting: past the base budget, inside the longest. *)
Definition slow : Z := 720000.
Definition hours_at : list Z := [HOUR_MS; 2 * HOUR_MS].
Lemma collect_pace_settles_witness :
  let b' := foldl attempted fresh_board (collect_of slow "c" <$> hours_at) in
  came_to b' (collect_of slow "c" (6 * HOUR_MS)) = Some (6 * HOUR_MS + slow, ok) /\
  tier (paceOf "c" "collect" (attempted b' (collect_of slow "c" (6 * HOUR_MS)))) = tier (paceOf "c" "collect" b').
Proof. apply (collect_pace_settles slow "c" hours_at (6 * HOUR_MS) fresh_board); vm_compute; (lia || split; discriminate). Defined.
(** It timed out twice on the way, and pacing answered both: nobody was mailed. *)
Example slow_collect_paced :
  let b' := foldl attempted fresh_board (collect_of slow "c" <$> hours_at) in
  block_view <$> blocks b' !! ("c", "collect") = Some (TIMED_OUT, HOUR_MS + 300000) /\
  tier (paceOf "c" "collect" b') = 2 /\ mails b' = [].
Proof. vm_compute. done. Qed.

(** Suggests that take as long, asked for every half hour after the first. *)
Definition slow_suggest (now : Z) : Attempt := nothing_timed (lands slow) "suggest" "c" now.
Definition half_hours : list Z := (fun n => HOUR_MS + 1800000 * Z.of_nat n) <$> seq 1 16.
Definition suggested : Board := attempted fresh_board (slow_suggest HOUR_MS).
Lemma paced_suggest_share_witness :
  suggest_starts "c" (slow_suggest <$> half_hours) suggested = [(3 * HOUR_MS, 1); (7 * HOUR_MS, 2)] /\
  budget_sum (suggest_starts "c" (slow_suggest <$> half_hours) suggested) <=
    PASS_BUDGET_MS * (hour (List.last (suggest_starts "c" (slow_suggest <$> half_hours) suggested).*1 HOUR_MS) - hour HOUR_MS).
Proof.
  split; [vm_compute; reflexivity|].
  apply (paced_suggest_share "c" (slow_suggest <$> half_hours) suggested HOUR_MS).
  - vm_compute. repeat constructor; discriminate.
  - vm_compute. repeat constructor; discriminate.
  - vm_compute. reflexivity.
Defined.
