(* ===== verification/Queue.v ===== *)
(** The queue between the schedule and the passes: the fan-out of
    [apps/api/src/jobs/dispatch.ts], the repair of [locks.ts], the chases of
    [cluster-tasks.service.ts] and the dead-letter rule of [failure.ts].

    The queue's own tables belong to graphile-worker.  What the code reads and
    updates of them is here, a job's task, key, cluster, lock and run time and a
    named queue's lock; what [addJob] does to them is not, so the jobs added are
    the result. *)
From S2P Require Import Prelude Schedule Tasks.

(** ** Rows of the queue *)

Record Job := {
  j_task : string;
  j_key : option string;
  j_cluster : option string;
  j_lockedAt : option Z;
  j_runAt : Z;
}.
Record QueueRow := { q_name : string; q_lockedAt : option Z }.
Record QueueTables := { jobs : list Job; queues : list QueueRow }.

(** ** Dispatch *)

(** [TaskSpec], as every per-cluster pass is enqueued. *)
Record TaskSpec := { maxAttempts : Z; jobKey : string; jobKeyMode : string; queueName : string }.
Record Added := { ad_task : string; ad_cluster : string; ad_spec : TaskSpec }.

Definition pass_name (task clusterId : string) : string := task +:+ ":" +:+ clusterId.
Definition clusterJobOptions (task clusterId : string) : TaskSpec :=
  {| maxAttempts := 5; jobKey := pass_name task clusterId; jobKeyMode := "replace"; queueName := pass_name task clusterId |}.

(** [runningPasses]: the clusters whose job of this pass is locked. *)
Definition locked (task : string) (t : QueueTables) : list string :=
  omap (fun j =>
    if is_some (j_lockedAt j) && match j_key j with Some key => String.prefix (task +:+ ":") key | None => false end
    then j_cluster j else None) (jobs t).

Definition enqueueUnlessRunning (running : list string) (task clusterId : string) : option Added :=
  if bool_decide (clusterId ∈ running) then None
  else Some {| ad_task := task; ad_cluster := clusterId; ad_spec := clusterJobOptions task clusterId |}.
Definition enqueueClusterPass (task clusterId : string) (t : QueueTables) : option Added :=
  enqueueUnlessRunning (locked task t) task clusterId.

(** The jobs added, in the order of the roster, and how many. *)
Definition dispatchToAllClusters (roster : list string) (task : string) (due : option (list string)) (t : QueueTables)
    : list Added * Z :=
  let running := locked task t in
  let added := omap (fun id =>
    if match due with Some eligible => bool_decide (id ∈ eligible) | None => true end
    then enqueueUnlessRunning running task id else None) roster in
  (added, Z.of_nat (length added)).

(** ** What a pass sets off *)

(** The end of a collect: classify when its interval is over, and suggest. *)
Definition collect_chases (clusterId : string) (inserted : Z) (intervals : ChaseIntervals) (now : Z) (t : QueueTables)
    (w : Watermarks) : Watermarks * list Added :=
  let '(w, due) := classifyChaseIsDue clusterId (0 <? inserted) intervals now w in
  (w, (if due then option_list (enqueueClusterPass "classify" clusterId t) else []) ++
      option_list (enqueueClusterPass "suggest" clusterId t)).
(** The end of a probe that found something. *)
Definition probe_chases {Finding} (clusterId : string) (findings : list Finding) (t : QueueTables) : list Added :=
  if (length findings =? 0)%nat then [] else option_list (enqueueClusterPass "suggest" clusterId t).

(** ** Locks *)

Definition STALE_LOCK_INTERVAL : Z := 4 * 3600000.
Definition BUDGETED_STALE_MULTIPLE : Z := 3.

(** In whole seconds. *)
Definition budgetedStaleInterval (task : string) : Z :=
  let budget := if isPaced task then pacedBudgetMs MAX_TIER else PASS_BUDGET_MS in
  Math_ceil (inject_Z (budget * BUDGETED_STALE_MULTIPLE) / inject_Z 1000).
(** Keyed by the interval as it is written in the statement. *)
Definition budgetedGroups : list (list string * Z) :=
  snd <$> foldl (fun byInterval task =>
    let seconds := budgetedStaleInterval task in
    let key := show seconds +:+ " seconds" in
    map_put key (fst (default ([], 0) (map_get key byInterval)) ++ [task], seconds) byInterval) [] BUDGETED_PASSES.

Definition older_than (interval now : Z) (lockedAt : option Z) : bool :=
  match lockedAt with Some at_ => at_ <? now - interval | None => false end.
Definition unlock_job (now : Z) (j : Job) : Job :=
  {| j_task := j_task j; j_key := j_key j; j_cluster := j_cluster j; j_lockedAt := None; j_runAt := Z.max (j_runAt j) now |}.
Definition unlock_queue (q : QueueRow) : QueueRow := {| q_name := q_name q; q_lockedAt := None |}.

(** The statements: every row that qualifies, and for queues their names. *)
Definition unlock_jobs (which : Job -> bool) (interval now : Z) (l : list Job) : list Job :=
  (fun j => if which j && older_than interval now (j_lockedAt j) then unlock_job now j else j) <$> l.
Definition unlock_queues (which : QueueRow -> bool) (interval now : Z) (l : list QueueRow) : list QueueRow * list string :=
  let hit := fun q => which q && older_than interval now (q_lockedAt q) in
  ((fun q => if hit q then unlock_queue q else q) <$> l, q_name <$> List.filter hit l).

(** [split_part(name, ':', 1)]. *)
Fixpoint before_colon (name : string) : string :=
  match name with
  | EmptyString => EmptyString
  | String c rest => if String.eqb (String c EmptyString) ":" then EmptyString else String c (before_colon rest)
  end.

Definition in_group (tasks : list string) (task : string) : bool := existsb (String.eqb task) tasks.
Definition every {A} (_ : A) : bool := true.

Definition releaseStaleLocks (now : Z) (t : QueueTables) : QueueTables * list string :=
  let js := foldl (fun js '(tasks, seconds) => unlock_jobs (fun j => in_group tasks (j_task j)) (seconds * 1000) now js)
              (jobs t) budgetedGroups in
  let js := unlock_jobs every STALE_LOCK_INTERVAL now js in
  let '(qs, budgetedQueues) :=
    foldl (fun '(qs, freed) '(tasks, seconds) =>
      let '(qs, names) := unlock_queues (fun q => in_group tasks (before_colon (q_name q))) (seconds * 1000) now qs in
      (qs, freed ++ names)) (queues t, []) budgetedGroups in
  let '(qs, freed) := unlock_queues every STALE_LOCK_INTERVAL now qs in
  ({| jobs := js; queues := qs |}, budgetedQueues ++ freed).

(** ** Dead letters *)

Definition CLUSTER_TASKS : list string := ["collect"; "classify"; "suggest"; "apply"; "finalize"].
(** A failed job; its payload is the cluster it names, when it names one. *)
Record FailedJobInfo := { fj_task : string; fj_attempts : Z; fj_maxAttempts : Z; fj_cluster : option string }.
Definition finalClusterFailure (job : FailedJobInfo) : option string :=
  if fj_attempts job <? fj_maxAttempts job then None
  else if negb (existsb (String.eqb (fj_task job)) CLUSTER_TASKS) then None
  else fj_cluster job.

(** ** How long a lock stands *)

(** Three of its longest budgets for a budgeted pass, four hours for the rest. *)
Definition stale_ms (task : string) : Z :=
  if String.eqb task "collect" then 3600000
  else if isBudgeted task then 900000 else STALE_LOCK_INTERVAL.

Lemma budgetedGroups_eq : budgetedGroups = [(["collect"], 3600); (["classify"; "probe"], 900)].
Proof. vm_compute. reflexivity. Qed.

Definition stale (task : string) (now : Z) (lockedAt : option Z) : bool := older_than (stale_ms task) now lockedAt.

Lemma older_le i i' now at_ : i <= i' -> older_than i' now at_ = true -> older_than i now at_ = true.
Proof. destruct at_; [|done]. cbn. rewrite !Z.ltb_lt. lia. Qed.

(** The four statements amount to one rule, whatever the row. *)
Lemma stale_rule task now at_ :
  (in_group ["collect"] task && older_than 3600000 now at_) || (in_group ["classify"; "probe"] task && older_than 900000 now at_)
  || older_than STALE_LOCK_INTERVAL now at_ = stale task now at_.
Proof.
  unfold stale, stale_ms, in_group, isBudgeted, BUDGETED_PASSES, existsb.
  pose proof (older_le 3600000 STALE_LOCK_INTERVAL now at_) as H1. pose proof (older_le 900000 STALE_LOCK_INTERVAL now at_) as H2.
  unfold STALE_LOCK_INTERVAL in *.
  destruct (String.eqb_spec task "collect") as [->|]; cbn.
  - destruct (older_than (4 * 3600000) now at_); [|by rewrite !orb_false_r]. rewrite H1 by (lia || done). done.
  - destruct (String.eqb task "classify"), (String.eqb task "probe"); cbn; try done;
      (destruct (older_than (4 * 3600000) now at_); [|by rewrite !orb_false_r]; rewrite H2 by (lia || done); done).
Qed.

Lemma unlock_job_idle i now j : older_than i now (j_lockedAt (unlock_job now j)) = false.
Proof. done. Qed.
Lemma unlock_job_twice now j : unlock_job now (unlock_job now j) = unlock_job now j.
Proof. unfold unlock_job. cbn. f_equal. lia. Qed.

(** Jobs and queues, row by row. *)
Lemma release_jobs now t :
  jobs (releaseStaleLocks now t).1 = (fun j => if stale (j_task j) now (j_lockedAt j) then unlock_job now j else j) <$> jobs t.
Proof.
  unfold releaseStaleLocks. rewrite budgetedGroups_eq. cbn [foldl]. destruct (unlock_queues _ _ _ _), (unlock_queues _ _ _ _).
  destruct (unlock_queues _ _ _ _) as [? ?]. cbn [jobs fst]. unfold unlock_jobs. rewrite <- !list_fmap_compose.
  apply list_fmap_ext. intros _ j _. unfold compose. rewrite <- stale_rule. cbn [every andb].
  change (3600 * 1000) with 3600000. change (900 * 1000) with 900000.
  destruct (in_group ["collect"] (j_task j) && older_than 3600000 now (j_lockedAt j)) eqn:E1.
  { cbn [orb]. rewrite !unlock_job_idle, !andb_false_r. by rewrite unlock_job_idle. }
  destruct (in_group ["classify"; "probe"] (j_task j) && older_than 900000 now (j_lockedAt j)) eqn:E2; cbn [orb]; done.
Qed.
Lemma release_queues now t :
  queues (releaseStaleLocks now t).1 =
  (fun q => if stale (before_colon (q_name q)) now (q_lockedAt q) then unlock_queue q else q) <$> queues t.
Proof.
  unfold releaseStaleLocks. rewrite budgetedGroups_eq. cbn [foldl unlock_queues queues fst].
  rewrite <- !list_fmap_compose. apply list_fmap_ext. intros _ q _. unfold compose. rewrite <- stale_rule. cbn [every andb].
  change (3600 * 1000) with 3600000. change (900 * 1000) with 900000.
  destruct (in_group ["collect"] (before_colon (q_name q)) && older_than 3600000 now (q_lockedAt q)) eqn:E1.
  { cbn [orb q_name unlock_queue q_lockedAt older_than]. by rewrite andb_false_r. }
  destruct (in_group ["classify"; "probe"] (before_colon (q_name q)) && older_than 900000 now (q_lockedAt q)) eqn:E2;
    cbn [orb]; done.
Qed.

Definition freed_if (hit : QueueRow -> bool) (q : QueueRow) : QueueRow := if hit q then unlock_queue q else q.

Lemma release_names now t n :
  n ∈ (releaseStaleLocks now t).2 <->
  exists q, q ∈ queues t /\ q_name q = n /\ stale (before_colon n) now (q_lockedAt q) = true.
Proof.
  unfold releaseStaleLocks. rewrite budgetedGroups_eq. cbn [foldl unlock_queues snd app].
  change (3600 * 1000) with 3600000. change (900 * 1000) with 900000.
  set (h1 := fun q => in_group ["collect"] (before_colon (q_name q)) && older_than 3600000 now (q_lockedAt q)).
  set (h2 := fun q => in_group ["classify"; "probe"] (before_colon (q_name q)) && older_than 900000 now (q_lockedAt q)).
  set (h3 := fun q => every q && older_than STALE_LOCK_INTERVAL now (q_lockedAt q)).
  assert (Hr : forall q, stale (before_colon (q_name q)) now (q_lockedAt q) = h1 q || h2 q || h3 q)
    by (intros q; by rewrite <- stale_rule).
  assert (Hf : forall (h g : QueueRow -> bool) l, (forall q, h (unlock_queue q) = false) ->
    n ∈ q_name <$> List.filter h (freed_if g <$> l) <->
    exists q, q ∈ l /\ q_name q = n /\ h q = true /\ g q = false).
  { intros h g l Hu. rewrite list_elem_of_fmap. unfold freed_if. split.
    - intros (q & -> & [(x & -> & Hx)%list_elem_of_fmap Hh]%elem_of_filter_bool).
      destruct (g x) eqn:E; [by rewrite Hu in Hh|]. by exists x.
    - intros (q & Hq & <- & Hh & E). exists q. split; [done|]. apply elem_of_filter_bool. split; [|done].
      apply list_elem_of_fmap. exists q. by rewrite E. }
  assert (Hu : forall i (k : bool) q, k && older_than i now (q_lockedAt (unlock_queue q)) = false) by (intros; apply andb_false_r).
  change (n ∈ ((q_name <$> List.filter h1 (queues t)) ++ (q_name <$> List.filter h2 (freed_if h1 <$> queues t)))
            ++ (q_name <$> List.filter h3 (freed_if h2 <$> (freed_if h1 <$> queues t))) <->
    exists q, q ∈ queues t /\ q_name q = n /\ stale (before_colon n) now (q_lockedAt q) = true).
  rewrite !elem_of_app, (Hf h2 h1) by (intros; apply Hu).
  assert (Hc : freed_if h2 <$> (freed_if h1 <$> queues t) = freed_if (fun q => h1 q || h2 q) <$> queues t).
  { rewrite <- list_fmap_compose. apply list_fmap_ext. intros _ q _. unfold compose, freed_if. destruct (h1 q); cbn [orb]; [|done].
    unfold h2. cbn [unlock_queue q_lockedAt older_than]. by rewrite andb_false_r. }
  rewrite Hc, Hf by (intros; apply Hu). rewrite list_elem_of_fmap. setoid_rewrite elem_of_filter_bool. split.
  - intros [[(q & -> & Hq & Hh)|(q & Hq & <- & Hh & _)]|(q & Hq & <- & Hh & _)]; exists q; rewrite Hr, Hh, ?orb_true_r; done.
  - intros (q & Hq & <- & Hs). rewrite Hr in Hs. destruct (h1 q) eqn:E1; [left; left; by exists q|].
    destruct (h2 q) eqn:E2; [left; right; by exists q|]. right. exists q. cbn in Hs. by rewrite E1, E2.
Qed.

(** ** The guarantees *)

Lemma three_budgets task c b budget :
  budget_for task (pace_for task c b) = Some budget -> BUDGETED_STALE_MULTIPLE * budget <= stale_ms task.
Proof.
  unfold budget_for, pace_for, stale_ms, isPaced, isBudgeted, PACED_PASSES, BUDGETED_PASSES, existsb, STALE_LOCK_INTERVAL.
  assert (Ht : forall tier, pacedBudgetMs tier <= 1200000).
  { intros tier. unfold pacedBudgetMs. by destruct (clamped_cases tier) as [->|[->| ->]]. }
  unfold BUDGETED_STALE_MULTIPLE. destruct (String.eqb_spec task "collect") as [->|].
  - intros [= <-]. specialize (Ht (tier (paceOf c "collect" b))). lia.
  - destruct (String.eqb_spec task "suggest") as [->|]; cbn.
    + intros [= <-]. specialize (Ht (tier (paceOf c "suggest" b))). lia.
    + destruct (String.eqb task "classify"), (String.eqb task "probe"); cbn; intros [= <-]; unfold PASS_BUDGET_MS; lia.
Qed.

(** The repair leaves a running pass alone.  A pass that has a budget keeps
    its lock for three of them, at whatever pace its cluster runs it. *)
Theorem release_spares_running now t j c b budget at_ :
  j ∈ jobs t -> j_lockedAt j = Some at_ -> budget_for (j_task j) (pace_for (j_task j) c b) = Some budget ->
  now - at_ <= BUDGETED_STALE_MULTIPLE * budget -> j ∈ jobs (releaseStaleLocks now t).1.
Proof.
  intros Hj Ha Hb Hage. rewrite release_jobs. apply list_elem_of_fmap. exists j. split; [|done].
  assert (stale (j_task j) now (j_lockedAt j) = false) as ->; [|done]. rewrite Ha. cbn. apply Z.ltb_ge.
  pose proof (three_budgets _ _ _ _ Hb). lia.
Qed.

Lemma locked_after now t task c :
  (forall j key, j ∈ jobs t -> j_cluster j = Some c -> j_key j = Some key -> String.prefix (task +:+ ":") key = true ->
     stale (j_task j) now (j_lockedAt j) = true \/ j_lockedAt j = None) ->
  c ∉ locked task (releaseStaleLocks now t).1.
Proof.
  intros Hs (j' & Hj' & E)%list_elem_of_omap. rewrite release_jobs in Hj'. apply list_elem_of_fmap in Hj' as (j & -> & Hj).
  destruct (stale (j_task j) now (j_lockedAt j)) eqn:Es; [done|].
  destruct (is_some (j_lockedAt j)) eqn:El; [|done]. destruct (j_key j) as [key|] eqn:Ek; [|done]. cbn [andb] in E.
  destruct (String.prefix _ key) eqn:Ep; [|done].
  destruct (Hs j key Hj E Ek Ep) as [?|En]; [congruence|by rewrite En in El].
Qed.

Lemma before_colon_pass task c : task ∈ task_text <$> TASK_NAMES -> before_colon (pass_name task c) = task.
Proof. intros Hin. repeat (apply elem_of_cons in Hin as [->|Hin]; [reflexivity|]). by apply elem_of_nil in Hin. Qed.

(** a lock a dead worker left does not silence a pass.  Once the locks of its
    jobs for a cluster are stale, the repair frees them and its queue, and the
    dispatch of the same tick enqueues the pass again, on that queue. *)
Theorem stale_pass_redispatched now t roster task c due q :
  task ∈ task_text <$> TASK_NAMES -> c ∈ roster -> match due with Some eligible => c ∈ eligible | None => True end ->
  (forall j key, j ∈ jobs t -> j_cluster j = Some c -> j_key j = Some key -> String.prefix (task +:+ ":") key = true ->
     stale (j_task j) now (j_lockedAt j) = true \/ j_lockedAt j = None) ->
  q ∈ queues t -> q_name q = pass_name task c -> stale task now (q_lockedAt q) = true ->
  let '(t', freed) := releaseStaleLocks now t in
  pass_name task c ∈ freed /\ {| q_name := pass_name task c; q_lockedAt := None |} ∈ queues t' /\
  {| ad_task := task; ad_cluster := c; ad_spec := clusterJobOptions task c |} ∈ (dispatchToAllClusters roster task due t').1.
Proof.
  intros Htask Hc Hdue Hs Hq Hn Hold. pose proof (locked_after now t task c Hs) as Hl.
  pose proof (release_queues now t) as Hqs. pose proof (release_names now t (pass_name task c)) as Hns.
  destruct (releaseStaleLocks now t) as [t' freed]. cbn [fst snd] in *. pose proof (before_colon_pass task c Htask) as Hb. split_and!.
  - apply Hns. exists q. by rewrite Hb.
  - rewrite Hqs. apply list_elem_of_fmap. exists q. split; [|done]. rewrite Hn, Hb, Hold. unfold unlock_queue. by rewrite Hn.
  - unfold dispatchToAllClusters. cbn [fst]. apply list_elem_of_omap. exists c. split; [done|].
    assert (match due with Some eligible => bool_decide (c ∈ eligible) | None => true end = true) as ->
      by (destruct due; [by apply bool_decide_eq_true|done]).
    unfold enqueueUnlessRunning. by rewrite bool_decide_eq_false_2.
Qed.

(** Jobs and queues are freed together: a pass whose job and queue were locked at one instant never has one without the other. *)
Theorem job_and_queue_agree now t i k j q c :
  jobs t !! i = Some j -> queues t !! k = Some q -> j_task j ∈ task_text <$> TASK_NAMES ->
  q_name q = pass_name (j_task j) c -> q_lockedAt q = j_lockedAt j ->
  j_lockedAt <$> jobs (releaseStaleLocks now t).1 !! i = q_lockedAt <$> queues (releaseStaleLocks now t).1 !! k.
Proof.
  intros Hi Hk Ht Hn El. rewrite release_jobs, release_queues, !list_lookup_fmap, Hi, Hk. cbn.
  rewrite Hn, (before_colon_pass _ _ Ht), El. destruct (stale _ _ _); cbn; congruence.
Qed.

(** ** A worker that died *)

Definition dead_job : Job :=
  {| j_task := "classify"; j_key := Some "classify:c"; j_cluster := Some "c"; j_lockedAt := Some 0; j_runAt := 0 |}.
Definition busy_job : Job :=
  {| j_task := "collect"; j_key := Some "collect:d"; j_cluster := Some "d"; j_lockedAt := Some 0; j_runAt := 0 |}.
Definition wedged : QueueTables :=
  {| jobs := [dead_job; busy_job];
     queues := [{| q_name := "classify:c"; q_lockedAt := Some 0 |}; {| q_name := "collect:d"; q_lockedAt := Some 0 |}] |}.
(** Sixteen minutes later. *)
Definition later : Z := 960000.

Lemma release_spares_running_witness : busy_job ∈ jobs (releaseStaleLocks later wedged).1.
Proof.
  apply (release_spares_running later wedged busy_job "d" (attempted (attempted fresh_board (collect_of 720000 "d" 0)) (collect_of 720000 "d" 0))
    1200000 0).
  - right. left.
  - reflexivity.
  - vm_compute. reflexivity.
  - vm_compute. discriminate.
Defined.

Lemma stale_pass_redispatched_witness :
  let '(t', freed) := releaseStaleLocks later wedged in
  pass_name "classify" "c" ∈ freed /\ {| q_name := pass_name "classify" "c"; q_lockedAt := None |} ∈ queues t' /\
  {| ad_task := "classify"; ad_cluster := "c"; ad_spec := clusterJobOptions "classify" "c" |}
    ∈ (dispatchToAllClusters ["c"; "d"] "classify" None t').1.
Proof.
  apply (stale_pass_redispatched later wedged ["c"; "d"] "classify" "c" None {| q_name := "classify:c"; q_lockedAt := Some 0 |}).
  - right. left.
  - left.
  - exact I.
  - intros j key [->|[->|Hj%elem_of_nil]%elem_of_cons]%elem_of_cons Hc Hk Hp; [left; reflexivity|discriminate|done].
  - left.
  - reflexivity.
  - reflexivity.
Defined.
