(* ===== verification/Retention.v ===== *)
(** What the daily sweep deletes: [apps/api/src/jobs/retention.ts], on the plan
    windows of [Plans].  The rows carry the columns the sweep reads.  One
    instant stands for every [Date.now()] of a sweep. *)
From S2P Require Import Prelude Score EngineTypes Plans.

(** ** Tables *)

(** A run of [latency_samples] or [index_snapshots], and the row of
    [cluster_namespaces] or [cluster_indexes] it points at. *)
Record SeriesRow := { sr_cluster : string; sr_dimension : nat; sr_lastSeenAt : Z }.
Record DimensionRow := { dm_id : nat; dm_cluster : string; dm_createdAt : Z }.
(** A row of [workload_shapes] or [cluster_footprint_days], by the stamp it ages on. *)
Record AgedRow := { ag_cluster : string; ag_at : Z }.
Record DecisionRow := { dc_id : nat; dc_cluster : string; dc_state : RecommendationState; dc_updatedAt : Z }.
Record DeadLetter := { dl_attempts : Z; dl_maxAttempts : Z; dl_locked : bool; dl_updatedAt : Z }.

Record Db := {
  latencySamples : list SeriesRow;
  indexSnapshots : list SeriesRow;
  clusterNamespaces : list DimensionRow;
  clusterIndexes : list DimensionRow;
  workloadShapes : list AgedRow;
  footprintDays : list AgedRow;
  decisions : list DecisionRow;
  actions : list nat;
  passRuns : list Z;
  observationRuns : list Z;
  sessions : list Z;
  verifications : list Z;
  deadLetters : list DeadLetter;
}.

Definition LONGEST_PLAN_DAYS : Z := foldr Z.max 0 ((fun plan => retentionDays (entitlementsFor plan)) <$> PLANS).
Definition MAX_DEAD_LETTERS_PER_RUN : nat := 5000.
Definition DEAD_LETTER_DAYS : Z := 90.
Definition PASS_HISTORY_DAYS : Z := 14.

(** [delete ... where doomed returning id]: what is left, and how many went. *)
Definition sweep {A} (doomed : A -> bool) (rows : list A) : list A * Z :=
  (List.filter (fun r => negb (doomed r)) rows, Z.of_nat (length (List.filter doomed rows))).
Definition remaining {A} (doomed : A -> bool) (rows : list A) : list A := (sweep doomed rows).1.
Definition count {A} (doomed : A -> bool) (rows : list A) : Z := (sweep doomed rows).2.

Definition one_of (ids : list string) (cluster : string) : bool := existsb (String.eqb cluster) ids.
Definition series_doomed (ids : list string) (cutoff : Z) (r : SeriesRow) : bool :=
  one_of ids (sr_cluster r) && (sr_lastSeenAt r <? cutoff).
Definition aged_doomed (ids : list string) (cutoff : Z) (r : AgedRow) : bool :=
  one_of ids (ag_cluster r) && (ag_at r <? cutoff).
(** Old and unreferenced, in the tables as they then are. *)
Definition dimension_doomed (ids : list string) (cutoff : Z) (series : list SeriesRow) (d : DimensionRow) : bool :=
  one_of ids (dm_cluster d) && (dm_createdAt d <? cutoff) &&
  negb (existsb (fun r => (sr_dimension r =? dm_id d)%nat) series).
Definition TERMINAL_STATES : list RecommendationState := [DROPPED; REJECTED; ROLLED_BACK].
Definition decision_doomed (ids : list string) (cutoff : Z) (d : DecisionRow) : bool :=
  one_of ids (dc_cluster d) && bool_decide (dc_state d ∈ TERMINAL_STATES) && (dc_updatedAt d <? cutoff).

Definition pruneHistory (ids : list string) (cutoff : Z) (db : Db) : Db * Z :=
  let samples := sweep (series_doomed ids cutoff) (latencySamples db) in
  let snapshots := sweep (series_doomed ids cutoff) (indexSnapshots db) in
  let dimensions := sweep (dimension_doomed ids cutoff snapshots.1) (clusterIndexes db) in
  let namespaces := sweep (dimension_doomed ids cutoff samples.1) (clusterNamespaces db) in
  let shapes := sweep (aged_doomed ids cutoff) (workloadShapes db) in
  let days := sweep (aged_doomed ids cutoff) (footprintDays db) in
  ({| latencySamples := samples.1; indexSnapshots := snapshots.1; clusterNamespaces := namespaces.1;
      clusterIndexes := dimensions.1; workloadShapes := shapes.1; footprintDays := days.1;
      decisions := decisions db; actions := actions db; passRuns := passRuns db;
      observationRuns := observationRuns db; sessions := sessions db; verifications := verifications db;
      deadLetters := deadLetters db |},
   samples.2 + snapshots.2 + dimensions.2 + namespaces.2 + shapes.2 + days.2).

(** A decision's actions go with it. *)
Definition pruneDecisions (ids : list string) (cutoff : Z) (db : Db) : Db * Z :=
  let gone := dc_id <$> List.filter (decision_doomed ids cutoff) (decisions db) in
  let left := sweep (decision_doomed ids cutoff) (decisions db) in
  ({| latencySamples := latencySamples db; indexSnapshots := indexSnapshots db;
      clusterNamespaces := clusterNamespaces db; clusterIndexes := clusterIndexes db;
      workloadShapes := workloadShapes db; footprintDays := footprintDays db; decisions := left.1;
      actions := List.filter (fun id => negb (existsb (Nat.eqb id) gone)) (actions db); passRuns := passRuns db;
      observationRuns := observationRuns db; sessions := sessions db; verifications := verifications db;
      deadLetters := deadLetters db |}, left.2).

(** Which of a longer backlog go is postgres's choice; here the first. *)
Definition pruneDeadLetterJobs (now : Z) (rows : list DeadLetter) : list DeadLetter * Z :=
  let dead := fun r => (dl_maxAttempts r <=? dl_attempts r) && negb (dl_locked r) &&
                       (dl_updatedAt r <? now - DEAD_LETTER_DAYS * DAY_MS) in
  let fix go (left : nat) (rows : list DeadLetter) : list DeadLetter * Z :=
    match left, rows with
    | O, _ | _, [] => (rows, 0)
    | S n, r :: rows =>
        if dead r then let '(kept, k) := go n rows in (kept, k + 1)
        else let '(kept, k) := go left rows in (r :: kept, k)
    end in
  go MAX_DEAD_LETTERS_PER_RUN rows.

(** The deployment's own rows, on both paths out of the sweep. *)
Definition prune_deployment (now : Z) (db : Db) : Db * Z :=
  let dead := pruneDeadLetterJobs now (deadLetters db) in
  let sess := sweep (fun expiresAt => expiresAt <? now) (sessions db) in
  let veri := sweep (fun expiresAt => expiresAt <? now) (verifications db) in
  let passes := sweep (fun startedAt => startedAt <? now - PASS_HISTORY_DAYS * DAY_MS) (passRuns db) in
  let observed := sweep (fun lastSeenAt => lastSeenAt <? now - LONGEST_PLAN_DAYS * DAY_MS) (observationRuns db) in
  ({| latencySamples := latencySamples db; indexSnapshots := indexSnapshots db;
      clusterNamespaces := clusterNamespaces db; clusterIndexes := clusterIndexes db;
      workloadShapes := workloadShapes db; footprintDays := footprintDays db; decisions := decisions db;
      actions := actions db; passRuns := passes.1; observationRuns := observed.1; sessions := sess.1;
      verifications := veri.1; deadLetters := dead.1 |},
   dead.2 + (sess.2 + veri.2) + passes.2 + observed.2).

(** The clusters of each plan, a plan in the order it first appears. *)
Fixpoint plan_put (plan : Plan) (id : string) (byPlan : list (Plan * list string)) : list (Plan * list string) :=
  match byPlan with
  | [] => [(plan, [id])]
  | (p, ids) :: rest => if bool_decide (p = plan) then (p, ids ++ [id]) :: rest else (p, ids) :: plan_put plan id rest
  end.
Definition byPlan (owned : list (string * string)) : list (Plan * list string) :=
  foldl (fun m '(clusterId, plan) => plan_put (planFrom plan) clusterId m) [] owned.
Definition cutoff_of (now : Z) (plan : Plan) : Z := now - retentionDays (entitlementsFor plan) * DAY_MS.

Definition prune_plan (now : Z) (acc : Db * Z) (group : Plan * list string) : Db * Z :=
  let '(db, pruned) := acc in
  let '(plan, ids) := group in
  let '(db, history) := pruneHistory ids (cutoff_of now plan) db in
  let '(db, decided) := pruneDecisions ids (cutoff_of now plan) db in
  (db, pruned + history + decided).

(** [owned] is each cluster and the plan column of its organization. *)
Definition pruneOldSamples (now : Z) (owned : list (string * string)) (db : Db) : Db * Z :=
  let '(db, pruned) := foldl (prune_plan now) (db, 0) (byPlan owned) in
  let '(db, deployment) := prune_deployment now db in
  (db, pruned + deployment).

(** ** What is left *)

(** The window a cluster's rows age on. *)
Definition window_passed (now : Z) (owned : list (string * string)) (cluster : string) (at_ : Z) : bool :=
  existsb (fun '(c, plan) => String.eqb cluster c && (at_ <? cutoff_of now (planFrom plan))) owned.

Lemma plan_put_passed now plan id m cluster at_ :
  existsb (fun '(p, ids) => one_of ids cluster && (at_ <? cutoff_of now p)) (plan_put plan id m) =
  existsb (fun '(p, ids) => one_of ids cluster && (at_ <? cutoff_of now p)) m ||
  (String.eqb cluster id && (at_ <? cutoff_of now plan)).
Proof.
  induction m as [|[p ids] m IH]; cbn [plan_put existsb].
  - unfold one_of. cbn. by rewrite !orb_false_r.
  - case_bool_decide as E; cbn [existsb].
    + subst p. unfold one_of. rewrite existsb_app. cbn [existsb]. rewrite orb_false_r.
      destruct (existsb (String.eqb cluster) ids), (String.eqb cluster id), (at_ <? _); cbn; by rewrite ?orb_true_r, ?orb_false_r.
    + rewrite IH. by rewrite orb_assoc.
Qed.
Lemma byPlan_passed now owned cluster at_ :
  existsb (fun '(p, ids) => one_of ids cluster && (at_ <? cutoff_of now p)) (byPlan owned) =
  window_passed now owned cluster at_.
Proof.
  unfold byPlan, window_passed.
  assert (Hg : forall m, existsb (fun '(p, ids) => one_of ids cluster && (at_ <? cutoff_of now p))
      (foldl (fun m '(clusterId, plan) => plan_put (planFrom plan) clusterId m) m owned) =
    existsb (fun '(p, ids) => one_of ids cluster && (at_ <? cutoff_of now p)) m ||
    existsb (fun '(c, plan) => String.eqb cluster c && (at_ <? cutoff_of now (planFrom plan))) owned).
  { induction owned as [|[c plan] owned IH]; intros m; cbn [foldl existsb]; [by rewrite orb_false_r|].
    rewrite IH, plan_put_passed. by rewrite orb_assoc. }
  by rewrite Hg.
Qed.

Lemma filter_negb_or {A} (f g : A -> bool) l :
  List.filter (fun x => negb (g x)) (List.filter (fun x => negb (f x)) l) = List.filter (fun x => negb (f x || g x)) l.
Proof. rewrite filter_filter_bool. apply filter_ext_bool. intros x _. by destruct (f x), (g x). Qed.

(** The plans' sweeps of one table amount to one. *)
Lemma prune_plans_table {A} (get : Db -> list A) (cluster : A -> string) (stamp : A -> Z) (may : A -> bool) now groups db n :
  (forall acc group, get (prune_plan now acc group).1 =
     List.filter (fun r => negb (one_of group.2 (cluster r) && may r && (stamp r <? cutoff_of now group.1))) (get acc.1)) ->
  get (foldl (prune_plan now) (db, n) groups).1 =
  List.filter (fun r => negb (may r &&
    existsb (fun '(p, ids) => one_of ids (cluster r) && (stamp r <? cutoff_of now p)) groups)) (get db).
Proof.
  intros Hstep. change (get db) with (get (db, n).1) at 1. generalize (db, n) as acc. clear db n.
  induction groups as [|[p ids] groups IH]; intros acc; cbn [foldl existsb].
  - rewrite (filter_ext_bool _ (fun _ => true)); [|intros r _; by rewrite andb_false_r].
    clear. induction (get acc.1) as [|x l IH]; [done|]. cbn. by rewrite <- IH.
  - rewrite IH, Hstep. cbn [fst snd]. rewrite filter_negb_or. apply filter_ext_bool. intros r _. f_equal.
    by destruct (one_of ids (cluster r)), (may r), (stamp r <? _), (existsb _ groups).
Qed.

(** What a step of the sweep does to one table. *)

Lemma prune_plan_samples now acc group :
  latencySamples (prune_plan now acc group).1 = remaining (series_doomed group.2 (cutoff_of now group.1)) (latencySamples acc.1).
Proof. by destruct acc, group. Qed.
Lemma prune_plan_snapshots now acc group :
  indexSnapshots (prune_plan now acc group).1 = remaining (series_doomed group.2 (cutoff_of now group.1)) (indexSnapshots acc.1).
Proof. by destruct acc, group. Qed.
Lemma prune_plan_decisions now acc group :
  decisions (prune_plan now acc group).1 = remaining (decision_doomed group.2 (cutoff_of now group.1)) (decisions acc.1).
Proof. by destruct acc, group. Qed.

Lemma deployment_keeps now db :
  let db' := (prune_deployment now db).1 in
  latencySamples db' = latencySamples db /\ indexSnapshots db' = indexSnapshots db /\
  clusterNamespaces db' = clusterNamespaces db /\ clusterIndexes db' = clusterIndexes db /\
  decisions db' = decisions db /\ actions db' = actions db.
Proof. done. Qed.
Lemma pruneOldSamples_plans now owned db :
  exists db1, db1 = (foldl (prune_plan now) (db, 0) (byPlan owned)).1 /\
    (pruneOldSamples now owned db).1 = (prune_deployment now db1).1.
Proof.
  unfold pruneOldSamples. destruct (foldl _ _ _) as [db1 n]. destruct (prune_deployment now db1) eqn:E.
  exists db1. by rewrite E.
Qed.

(** The sweep deletes what a plan's window has passed and nothing else.  A
    run of history goes when it ended before the window of its cluster's plan; a
    decision goes when it did and is over; one that is still proposed, approved,
    building or observed stays, however old. *)
Theorem retention_exact now owned db :
  let db' := (pruneOldSamples now owned db).1 in
  let kept := fun r => negb (window_passed now owned (sr_cluster r) (sr_lastSeenAt r)) in
  latencySamples db' = List.filter kept (latencySamples db) /\
  indexSnapshots db' = List.filter kept (indexSnapshots db) /\
  decisions db' = List.filter (fun d => negb (bool_decide (dc_state d ∈ TERMINAL_STATES) &&
    window_passed now owned (dc_cluster d) (dc_updatedAt d))) (decisions db).
Proof.
  cbn zeta. destruct (pruneOldSamples_plans now owned db) as (db1 & E1 & ->).
  destruct (deployment_keeps now db1) as (-> & -> & _ & _ & -> & _). subst db1. split_and!.
  - rewrite (prune_plans_table latencySamples sr_cluster sr_lastSeenAt (fun _ => true)).
    + apply filter_ext_bool. intros r _. by rewrite byPlan_passed.
    + intros acc group. rewrite prune_plan_samples. apply filter_ext_bool. intros r _. by rewrite andb_true_r.
  - rewrite (prune_plans_table indexSnapshots sr_cluster sr_lastSeenAt (fun _ => true)).
    + apply filter_ext_bool. intros r _. by rewrite byPlan_passed.
    + intros acc group. rewrite prune_plan_snapshots. apply filter_ext_bool. intros r _. by rewrite andb_true_r.
  - rewrite (prune_plans_table decisions dc_cluster dc_updatedAt (fun d => bool_decide (dc_state d ∈ TERMINAL_STATES))).
    + apply filter_ext_bool. intros d _. by rewrite byPlan_passed.
    + intros acc group. apply prune_plan_decisions.
Qed.

(** ** References *)

Definition referenced (series : list SeriesRow) (dimensions : list DimensionRow) : Prop :=
  forall r, r ∈ series -> exists d, d ∈ dimensions /\ dm_id d = sr_dimension r.
(** The foreign keys: a run's dimension, an action's decision. *)
Record references (db : Db) : Prop := {
  ref_samples : referenced (latencySamples db) (clusterNamespaces db);
  ref_snapshots : referenced (indexSnapshots db) (clusterIndexes db);
  ref_actions : forall id, id ∈ actions db -> id ∈ dc_id <$> decisions db;
}.

Lemma elem_of_remaining {A} (doomed : A -> bool) x rows : x ∈ remaining doomed rows <-> x ∈ rows /\ doomed x = false.
Proof. unfold remaining. cbn. by rewrite elem_of_filter_bool, negb_true_iff. Qed.

Lemma referenced_prune ids cutoff series dimensions :
  referenced series dimensions ->
  referenced (remaining (series_doomed ids cutoff) series)
    (remaining (dimension_doomed ids cutoff (remaining (series_doomed ids cutoff) series)) dimensions).
Proof.
  intros Href r Hr. pose proof Hr as [Hin _]%elem_of_remaining. destruct (Href r Hin) as (d & Hd & E).
  exists d. split; [|done]. apply elem_of_remaining. split; [done|]. unfold dimension_doomed.
  assert (existsb (fun r => (sr_dimension r =? dm_id d)%nat) (remaining (series_doomed ids cutoff) series) = true) as ->;
    [|by rewrite andb_false_r].
  apply existsb_exists. exists r. split; [by apply list_elem_of_In|]. by rewrite E, Nat.eqb_refl.
Qed.

Lemma references_plan now acc group : references acc.1 -> references (prune_plan now acc group).1.
Proof.
  destruct acc as [db n], group as [p ids]. cbn [fst]. intros [Hs Hn Ha]. split; cbn.
  - by apply (referenced_prune ids (cutoff_of now p)).
  - by apply (referenced_prune ids (cutoff_of now p)).
  - intros id [Hid Hg%negb_true_iff]%elem_of_filter_bool. apply Ha in Hid as (d & -> & Hd)%list_elem_of_fmap.
    apply list_elem_of_fmap_2. apply elem_of_filter_bool. split; [done|]. apply negb_true_iff.
    destruct (decision_doomed ids (cutoff_of now p) d) eqn:E; [|done]. rewrite <- Hg. symmetry.
    apply existsb_exists. exists (dc_id d). split; [|by rewrite Nat.eqb_refl].
    apply list_elem_of_In, list_elem_of_fmap_2. by apply elem_of_filter_bool.
Qed.

(** C39. The sweep breaks no reference: in the order it deletes, every run it
    leaves still has the index or namespace it is about, and every action its
    decision. *)
Theorem retention_keeps_references now owned db :
  references db -> references (pruneOldSamples now owned db).1.
Proof.
  intros Hdb. destruct (pruneOldSamples_plans now owned db) as (db1 & E1 & ->).
  enough (references db1) as [Hs Hn Ha] by by split. subst db1.
  assert (Hg : forall groups acc, references acc.1 -> references (foldl (prune_plan now) acc groups).1).
  { induction groups as [|g groups IH]; intros acc Hacc; [done|]. cbn. by apply IH, references_plan. }
  by apply Hg.
Qed.

(** ** A year-old run *)

Definition old_db : Db :=
  {| latencySamples := [{| sr_cluster := "c"; sr_dimension := 1; sr_lastSeenAt := 0 |};
                        {| sr_cluster := "c"; sr_dimension := 2; sr_lastSeenAt := 100 * DAY_MS |}];
     indexSnapshots := [];
     clusterNamespaces := [{| dm_id := 1; dm_cluster := "c"; dm_createdAt := 0 |}; {| dm_id := 2; dm_cluster := "c"; dm_createdAt := 0 |}];
     clusterIndexes := []; workloadShapes := []; footprintDays := [];
     decisions := [{| dc_id := 7; dc_cluster := "c"; dc_state := DROPPED; dc_updatedAt := 0 |};
                   {| dc_id := 8; dc_cluster := "c"; dc_state := HIDDEN; dc_updatedAt := 0 |}];
     actions := [7%nat; 8%nat]; passRuns := []; observationRuns := []; sessions := []; verifications := []; deadLetters := [] |}.
Example old_db_swept :
  clusterNamespaces (pruneOldSamples (120 * DAY_MS) [("c", "FREE")] old_db).1 =
    [{| dm_id := 2; dm_cluster := "c"; dm_createdAt := 0 |}] /\
  actions (pruneOldSamples (120 * DAY_MS) [("c", "FREE")] old_db).1 = [8%nat] /\
  (pruneOldSamples (120 * DAY_MS) [("c", "FREE")] old_db).2 = 3.
Proof. vm_compute. done. Qed.
Lemma retention_keeps_references_witness : references (pruneOldSamples (120 * DAY_MS) [("c", "FREE")] old_db).1.
Proof.
  apply (retention_keeps_references (120 * DAY_MS) [("c", "FREE")] old_db). split.
  - intros r [->|[->|Hr%elem_of_nil]%elem_of_cons]%elem_of_cons; [eexists; split; [left|done]|eexists; split; [right; left|done]|done].
  - by intros r Hr%elem_of_nil.
  - intros id Hid. exact Hid.
Defined.
