(* ===== verification/Probe.v ===== *)
(** The five-minute look at a cluster: [apps/api/src/jobs/probe.ts], over the
    verdicts of [Health].

    The collector and postgres's ordering of text are parameters.  The samples
    of a namespace are a list; the newest is the last by its stamp. *)
From S2P Require Import Prelude EngineTypes Store Health.

Definition PROBE_COLLECTIONS : nat := 20.
Definition PROBE_PLANS_SHIPPED : Z := 250.

Definition healthOptionsFor (engine : ClusterEngine) : HealthOptions :=
  match engine with MSSQL => MSSQL_HEALTH | _ => DEFAULT_HEALTH end.

Record PressureFinding := { pf_database : option string; pf_collection : option string; pf_reason : string }.

(** ** Baselines *)

Record ReadSample := { rs_capturedAt : Z; rs_reads : CumulativeReads }.
Record Namespace := { ns_database : string; ns_collection : string; ns_samples : list ReadSample }.
Record Baseline := { bl_database : string; bl_collection : string; bl_reads : CumulativeReads }.

Section baselines.
Context (textLe : string -> string -> bool).

Definition newest (samples : list ReadSample) : option ReadSample :=
  head (stable_sort (fun a b => rs_capturedAt b <=? rs_capturedAt a) samples).
(** Busiest first; the names settle ties. *)
Definition baseline_le (a b : Baseline) : bool :=
  if cr_ops (bl_reads b) <? cr_ops (bl_reads a) then true
  else if cr_ops (bl_reads a) <? cr_ops (bl_reads b) then false
  else if String.eqb (bl_database a) (bl_database b) then textLe (bl_collection a) (bl_collection b)
  else textLe (bl_database a) (bl_database b).
Definition latestBaselines (namespaces : list Namespace) (limit : nat) : list Baseline :=
  take limit (stable_sort baseline_le
    (omap (fun ns => (fun s => {| bl_database := ns_database ns; bl_collection := ns_collection ns; bl_reads := rs_reads s |})
                       <$> newest (ns_samples ns)) namespaces)).
End baselines.

(** ** The probe *)

(** What the collector answers: the two health readings, and read latency by
    whichever of its methods the engine has. *)
Record Collector := {
  firstHealth : exn + option ServerHealth;
  secondHealth : exn + option ServerHealth;
  latencyByCollectionWithin : option (string -> Z -> exn + option (list (string * CumulativeReads)));
  latencyByCollection : option (string -> exn + list (string * CumulativeReads));
  collectionLatency : string -> string -> exn + CumulativeReads;
}.

Definition server_findings (engine : ClusterEngine) (c : Collector) : exn + list PressureFinding :=
  match firstHealth c with
  | inl e => inl e
  | inr None => inr []
  | inr (Some first) =>
      match secondHealth c with
      | inl e => inl e
      | inr None => inr []
      | inr (Some second) =>
          let verdict := assessHealth first second (healthOptionsFor engine) in
          inr (if negb (bool_decide (hv_severity verdict = H_HEALTHY)) && indexRelated verdict
               then [{| pf_database := None; pf_collection := None; pf_reason := hv_summary verdict |}] else [])
      end
  end.

(** The reading of one collection now, and the databases left to the collect. *)
Definition current_reads (c : Collector) (d coll : string) : option CumulativeReads :=
  match latencyByCollectionWithin c with
  | Some within => match within d PROBE_PLANS_SHIPPED with inr (Some read) => map_get coll read | _ => None end
  | None =>
      match latencyByCollection c with
      | Some by_collection => match by_collection d with inr read => map_get coll read | inl _ => None end
      | None => match collectionLatency c d coll with inr reads => Some reads | inl _ => None end
      end
  end.
Definition deferred (c : Collector) (busiest : list Baseline) : list string :=
  match latencyByCollectionWithin c with
  | Some within =>
      List.filter (fun d => match within d PROBE_PLANS_SHIPPED with inr None => true | _ => false end)
        (remove_dups (bl_database <$> busiest))
  | None => []
  end.

Definition pressure_of (c : Collector) (b : Baseline) : option PressureFinding :=
  current ← current_reads c (bl_database b) (bl_collection b);
  let verdict := readPressure (bl_reads b) current DEFAULT_PRESSURE in
  if underPressure verdict
  then (fun reason => {| pf_database := Some (bl_database b); pf_collection := Some (bl_collection b); pf_reason := reason |})
         <$> pressure_reason verdict
  else None.

Definition probeCluster (textLe : string -> string -> bool) (engine : ClusterEngine) (namespaces : list Namespace)
    (c : Collector) : exn + (list PressureFinding * list string) :=
  let busiest := latestBaselines textLe namespaces PROBE_COLLECTIONS in
  if (length busiest =? 0)%nat then inr ([], [])
  else match server_findings engine c with
       | inl e => inl e
       | inr server => inr (server ++ omap (pressure_of c) busiest, deferred c busiest)
       end.

(** ** Lemmas *)

Lemma newest_spec samples s :
  newest samples = Some s -> s ∈ samples /\ forall s', s' ∈ samples -> rs_capturedAt s' <= rs_capturedAt s.
Proof.
  unfold newest. intros Hs. set (le := fun a b => rs_capturedAt b <=? rs_capturedAt a) in *.
  assert (Hsort : StronglySorted (fun x y => le x y = true) (stable_sort le samples)).
  { apply stable_sort_sorted; unfold le; intros *; rewrite ?Z.leb_le, ?Z.leb_gt; lia. }
  destruct (stable_sort le samples) as [|x l] eqn:E; [done|]. injection Hs as ->. split.
  - apply (elem_of_stable_sort le). rewrite E. left.
  - intros s' Hs'. apply (elem_of_stable_sort le) in Hs'. rewrite E in Hs'.
    apply elem_of_cons in Hs' as [->|Hs']; [lia|]. apply StronglySorted_inv in Hsort as [_ Hf].
    rewrite Forall_forall in Hf. apply Hf, Z.leb_le in Hs'. done.
Qed.

(** A sort by a key first: what was left out by the limit is no busier than what was kept. *)
Lemma sort_insert_key {A} (le : A -> A -> bool) (key : A -> Z) :
  (forall x y, le x y = true -> key y <= key x) -> (forall x y, le x y = false -> key x <= key y) ->
  forall x l, StronglySorted (fun a b => key b <= key a) l -> StronglySorted (fun a b => key b <= key a) (sort_insert le x l).
Proof.
  intros Ht Hf x l. induction 1 as [|y l Hl IH Hy]; cbn; [repeat constructor|]. destruct (le x y) eqn:E.
  - constructor; [by constructor|]. constructor; [by apply Ht|]. eapply Forall_impl; [exact Hy|]. cbn.
    intros z Hz. apply Ht in E. lia.
  - constructor; [done|]. rewrite sort_insert_perm. constructor; [by apply Hf|done].
Qed.
Lemma stable_sort_key {A} (le : A -> A -> bool) (key : A -> Z) l :
  (forall x y, le x y = true -> key y <= key x) -> (forall x y, le x y = false -> key x <= key y) ->
  StronglySorted (fun a b => key b <= key a) (stable_sort le l).
Proof. intros Ht Hf. induction l; cbn; [constructor|]. by apply sort_insert_key. Qed.

Lemma sorted_take {A} (key : A -> Z) l n x y :
  StronglySorted (fun a b => key b <= key a) l -> x ∈ take n l -> y ∈ drop n l -> key y <= key x.
Proof.
  intros Hs. revert n. induction Hs as [|a l Hl IH Ha]; intros [|n]; cbn; [by intros ?%elem_of_nil..|].
  intros [->|Hx]%elem_of_cons Hy; [|by eapply IH]. rewrite Forall_forall in Ha. apply Ha.
  eapply elem_of_submseteq; [exact Hy|]. apply sublist_submseteq, sublist_drop.
Qed.

Section exact.
Context (textLe : string -> string -> bool).

Lemma baseline_le_ops a b :
  (baseline_le textLe a b = true -> cr_ops (bl_reads b) <= cr_ops (bl_reads a)) /\
  (baseline_le textLe a b = false -> cr_ops (bl_reads a) <= cr_ops (bl_reads b)).
Proof.
  unfold baseline_le. destruct (Z.ltb_spec (cr_ops (bl_reads b)) (cr_ops (bl_reads a))); [split; [lia|done]|].
  destruct (Z.ltb_spec (cr_ops (bl_reads a)) (cr_ops (bl_reads b))); [split; [done|lia]|]. split; lia.
Qed.

(** What a probe reports.  A finding that names a collection is one whose
    reads since its newest stored sample are thick enough, slow enough, and at
    least three times as slow as its history; the collection is among the
    busiest there are; and every such collection that could be read is reported. *)
Theorem probeCluster_exact engine namespaces c findings left d coll :
  probeCluster textLe engine namespaces c = inr (findings, left) ->
  (exists f, f ∈ findings /\ pf_database f = Some d /\ pf_collection f = Some coll) <->
  exists b current, b ∈ latestBaselines textLe namespaces PROBE_COLLECTIONS /\ bl_database b = d /\ bl_collection b = coll /\
    current_reads c d coll = Some current /\
    let ops := cr_ops current - cr_ops (bl_reads b) in
    let micros := cr_latencyMicros current - cr_latencyMicros (bl_reads b) in
    20 <= ops /\ 0 <= micros /\ 0 < cr_ops (bl_reads b) /\ 0 < cr_latencyMicros (bl_reads b) /\
    1000 * ops <= micros /\ cr_latencyMicros (bl_reads b) * 3 * ops <= micros * cr_ops (bl_reads b).
Proof.
  intros E. unfold probeCluster in E. set (busiest := latestBaselines textLe namespaces PROBE_COLLECTIONS) in *.
  assert (Hserver : forall l f, server_findings engine c = inr l -> f ∈ l -> pf_database f = None).
  { unfold server_findings. intros l f. destruct (firstHealth c) as [|[first|]]; [done| |intros [= <-] ?%elem_of_nil; done].
    destruct (secondHealth c) as [|[second|]]; [done| |intros [= <-] ?%elem_of_nil; done].
    intros [= <-]. destruct (_ && _); [intros ->%list_elem_of_singleton; done|intros ?%elem_of_nil; done]. }
  assert (Hp : forall b f, pressure_of c b = Some f -> pf_database f = Some (bl_database b) /\ pf_collection f = Some (bl_collection b)).
  { intros b f. unfold pressure_of. destruct (current_reads _ _ _); [|done]. cbn. destruct (underPressure _); [|done].
    destruct (pressure_reason _); [|done]. by intros [= <-]. }
  assert (Hr : forall b current, underPressure (readPressure (bl_reads b) current DEFAULT_PRESSURE) = true ->
    exists r, pressure_reason (readPressure (bl_reads b) current DEFAULT_PRESSURE) = Some r).
  { intros b current. unfold readPressure. cbn zeta. repeat (case_match; try done); cbn; eauto. }
  assert (Hfind : (exists f, f ∈ findings /\ pf_database f = Some d /\ pf_collection f = Some coll) <->
    exists b f, b ∈ busiest /\ pressure_of c b = Some f /\ bl_database b = d /\ bl_collection b = coll).
  { destruct (length busiest =? 0)%nat eqn:El.
    { injection E as <- _. apply Nat.eqb_eq, nil_length_inv in El. rewrite El.
      split; [by intros (f & ?%elem_of_nil & _)|by intros (b & f & ?%elem_of_nil & _)]. }
    destruct (server_findings engine c) as [e|server] eqn:Es; [done|]. injection E as <- _. split.
    - intros (f & [Hf|Hf]%elem_of_app & Hd & Hc); [by rewrite (Hserver _ _ eq_refl Hf) in Hd|].
      apply list_elem_of_omap in Hf as (b & Hb & Eb). exists b, f. destruct (Hp _ _ Eb) as [E1 E2].
      split_and!; try done; congruence.
    - intros (b & f & Hb & Eb & <- & <-). exists f. split; [|by apply Hp]. apply elem_of_app. right.
      apply list_elem_of_omap. by exists b. }
  rewrite Hfind. split.
  - intros (b & f & Hb & Eb & <- & <-). unfold pressure_of in Eb.
    destruct (current_reads c (bl_database b) (bl_collection b)) as [current|] eqn:Ec; [|done]. cbn in Eb.
    destruct (underPressure _) eqn:Eu; [|done]. exists b, current. split_and!; try done.
    all: apply readPressure_exact in Eu; [|done]; by apply Eu.
  - intros (b & current & Hb & <- & <- & Ec & Hall). unfold pressure_of.
    assert (Eu : underPressure (readPressure (bl_reads b) current DEFAULT_PRESSURE) = true)
      by (apply readPressure_exact; [done|exact Hall]).
    destruct (Hr _ _ Eu) as [r Er]. eexists b, _. split_and!; [done| |done..]. rewrite Ec. cbn. rewrite Eu, Er. done.
Qed.

(** The baselines: each a namespace's newest sample, at most twenty, and no
    namespace left out is busier than one that is in. *)
Theorem baselines_busiest namespaces b :
  b ∈ latestBaselines textLe namespaces PROBE_COLLECTIONS ->
  (length (latestBaselines textLe namespaces PROBE_COLLECTIONS) <= 20)%nat /\
  (exists ns s, ns ∈ namespaces /\ s ∈ ns_samples ns /\
     b = {| bl_database := ns_database ns; bl_collection := ns_collection ns; bl_reads := rs_reads s |} /\
     forall s', s' ∈ ns_samples ns -> rs_capturedAt s' <= rs_capturedAt s) /\
  (forall ns s, ns ∈ namespaces -> newest (ns_samples ns) = Some s -> cr_ops (bl_reads b) < cr_ops (rs_reads s) ->
     {| bl_database := ns_database ns; bl_collection := ns_collection ns; bl_reads := rs_reads s |}
       ∈ latestBaselines textLe namespaces PROBE_COLLECTIONS).
Proof.
  unfold latestBaselines. set (all := omap _ namespaces). intros Hb. split_and!.
  - rewrite length_take. unfold PROBE_COLLECTIONS. lia.
  - apply elem_of_take in Hb as (i & Hi & _). apply list_elem_of_lookup_2, elem_of_stable_sort in Hi.
    apply list_elem_of_omap in Hi as (ns & Hns & E). apply fmap_Some in E as (s & Es & ->).
    apply newest_spec in Es as [Hs Hmax]. by exists ns, s.
  - intros ns s Hns Hs Hlt. set (y := {| bl_database := _ |}).
    assert (Hy : y ∈ stable_sort (baseline_le textLe) all).
    { apply elem_of_stable_sort, list_elem_of_omap. exists ns. by rewrite Hs. }
    rewrite <- (take_drop PROBE_COLLECTIONS (stable_sort _ all)) in Hy. apply elem_of_app in Hy as [?|Hy]; [done|exfalso].
    pose proof (stable_sort_key (baseline_le textLe) (fun b => cr_ops (bl_reads b)) all
      (fun a b => proj1 (baseline_le_ops a b)) (fun a b => proj2 (baseline_le_ops a b))) as Hsort.
    pose proof (sorted_take _ _ _ _ _ Hsort Hb Hy). cbn in *. lia.
Qed.
End exact.

(** ** A collection that slowed down *)

Definition orders_then : Namespace :=
  {| ns_database := "shop"; ns_collection := "orders";
     ns_samples := [{| rs_capturedAt := 1; rs_reads := {| cr_ops := 500; cr_latencyMicros := 100000 |} |};
                    {| rs_capturedAt := 2; rs_reads := {| cr_ops := 1000; cr_latencyMicros := 1000000 |} |}] |}.
Definition orders_now : Collector :=
  {| firstHealth := inr None; secondHealth := inr None; latencyByCollectionWithin := None; latencyByCollection := None;
     collectionLatency := fun _ _ => inr {| cr_ops := 1050; cr_latencyMicros := 1250000 |} |}.
Lemma probeCluster_exact_witness :
  (exists f, f ∈ [{| pf_database := Some "shop"; pf_collection := Some "orders";
                     pf_reason := "reads averaging 5.0ms against a 1.0ms baseline across 50 reads" |}] /\
     pf_database f = Some "shop" /\ pf_collection f = Some "orders").
Proof.
  apply (probeCluster_exact String.leb MONGODB [orders_then] orders_now _ []); [vm_compute; reflexivity|].
  eexists {| bl_database := "shop"; bl_collection := "orders"; bl_reads := {| cr_ops := 1000; cr_latencyMicros := 1000000 |} |},
    {| cr_ops := 1050; cr_latencyMicros := 1250000 |}.
  split_and!; try reflexivity; try (cbn; lia). left.
Defined.
Lemma baselines_busiest_witness :
  (length (latestBaselines String.leb [orders_then] PROBE_COLLECTIONS) <= 20)%nat.
Proof.
  apply (baselines_busiest String.leb [orders_then]
    {| bl_database := "shop"; bl_collection := "orders"; bl_reads := {| cr_ops := 1000; cr_latencyMicros := 1000000 |} |}).
  left.
Defined.
