(* ===== verification/NetGuard.v ===== *)
(** Which addresses the control plane may dial: [apps/api/src/engine/net-guard.ts].

    An address is its text, as the code judges it.  [isIP] is Node's: an IPv4
    address is four decimal octets without leading zeros; an IPv6 address is
    groups of hexadecimal digits, at most one run of zeros left out, possibly an
    IPv4 address for the last two groups and a zone.  [parse4] and [parse6] also
    say which address that is.  Name resolution is a parameter. *)
From Stdlib Require Import Ascii.
From S2P Require Import Prelude.

(** ** Text *)

Definition code (c : Ascii.ascii) : Z := Z.of_N (Ascii.N_of_ascii c).
Definition in_codes (lo hi : Z) (c : Ascii.ascii) : bool := (lo <=? code c) && (code c <=? hi).
Definition is_digit : Ascii.ascii -> bool := in_codes 48 57.
Definition is_char (text : string) (c : Ascii.ascii) : bool := String.eqb (String c EmptyString) text.

(** [text.split(sep)] for a separator of one character. *)
Fixpoint split_on (sep : string) (text : string) : list string :=
  match text with
  | EmptyString => [EmptyString]
  | String c rest =>
      if is_char sep c then EmptyString :: split_on sep rest
      else match split_on sep rest with
           | [] => [String c EmptyString]
           | part :: parts => String c part :: parts
           end
  end.
Fixpoint drop_chars (n : nat) (text : string) : string :=
  match n, text with
  | S n, String _ rest => drop_chars n rest
  | _, _ => text
  end.
Fixpoint all_chars (f : Ascii.ascii -> bool) (text : string) : bool :=
  match text with
  | EmptyString => true
  | String c rest => f c && all_chars f rest
  end.

(** [Number(text)] of decimal digits. *)
Fixpoint digits_from (acc : Z) (text : string) : Z :=
  match text with
  | EmptyString => acc
  | String c rest => digits_from (acc * 10 + (code c - 48)) rest
  end.
Definition decimal (text : string) : Z := digits_from 0 text.

Definition hex_value (c : Ascii.ascii) : option Z :=
  if is_digit c then Some (code c - 48)
  else if in_codes 97 102 c then Some (code c - 87)
  else if in_codes 65 70 c then Some (code c - 55)
  else None.
(** [Number.parseInt(text, 16)]: the longest run of digits, [None] for NaN. *)
Fixpoint parse_hex_from (acc : option Z) (text : string) : option Z :=
  match text with
  | EmptyString => acc
  | String c rest =>
      match hex_value c with
      | Some d => parse_hex_from (Some (default 0 acc * 16 + d)) rest
      | None => acc
      end
  end.
Definition parse_hex (text : string) : option Z := parse_hex_from None text.
Definition is_hex (c : Ascii.ascii) : bool := is_some (hex_value c).

(** ** [isIP] *)

Definition octet_of (part : string) : option Z :=
  let n := String.length part in
  if (n =? 0)%nat || (3 <? n)%nat || negb (all_chars is_digit part) then None
  else if (1 <? n)%nat && String.prefix "0" part then None
  else if 255 <? decimal part then None else Some (decimal part).
Definition parse4 (text : string) : option Z :=
  match split_on "." text with
  | [a; b; c; d] =>
      a ← octet_of a; b ← octet_of b; c ← octet_of c; d ← octet_of d;
      Some (((a * 256 + b) * 256 + c) * 256 + d)
  | _ => None
  end.

Definition group_of (part : string) : option Z :=
  let n := String.length part in
  if (n =? 0)%nat || (4 <? n)%nat || negb (all_chars is_hex part) then None else parse_hex part.
(** The groups of one side of the elision; an IPv4 address may end the last side. *)
Fixpoint groups_of (last_side : bool) (parts : list string) : option (list Z) :=
  match parts with
  | [] => Some []
  | [part] =>
      match group_of part with
      | Some g => Some [g]
      | None =>
          if last_side then match parse4 part with Some v => Some [v / 65536; v mod 65536] | None => None end else None
      end
  | part :: parts => g ← group_of part; gs ← groups_of last_side parts; Some (g :: gs)
  end.
Definition side_of (last_side : bool) (side : string) : option (list Z) :=
  if String.eqb side "" then Some [] else groups_of last_side (split_on ":" side).

(** [text.split("::")]: what is before the first, and what is after it when there is one. *)
Fixpoint split_elision (text : string) : string * option string :=
  match text with
  | EmptyString => (EmptyString, None)
  | String c rest =>
      if is_char ":" c && String.prefix ":" rest
      then (EmptyString, Some (match rest with String _ after => after | EmptyString => EmptyString end))
      else let '(before, after) := split_elision rest in (String c before, after)
  end.
(** The zone after [%], when it is one. *)
Definition zone_char (c : Ascii.ascii) : bool :=
  is_digit c || in_codes 97 122 c || in_codes 65 90 c || is_char "-" c || is_char "." c || is_char ":" c.
Definition without_zone (text : string) : option string :=
  match split_on "%" text with
  | [address] => Some address
  | [address; zone] => if negb (String.eqb zone "") && all_chars zone_char zone then Some address else None
  | _ => None
  end.

(** The eight groups of an IPv6 address. *)
Definition parse6 (text : string) : option (list Z) :=
  address ← without_zone text;
  match split_elision address with
  | (whole, None) => gs ← side_of true whole; if (length gs =? 8)%nat then Some gs else None
  | (head, Some tail) =>
      left ← side_of false head; right ← side_of true tail;
      let n := (length left + length right)%nat in
      if (n <=? 7)%nat then Some (left ++ replicate (8 - n) 0 ++ right) else None
  end.

Definition isIP (text : string) : Z :=
  if is_some (parse4 text) then 4 else if is_some (parse6 text) then 6 else 0.

(** ** Categories *)

Inductive AddressCategory := PUBLIC | PRIVATE | FORBIDDEN.
#[export] Instance AddressCategory_eq_dec : EqDecision AddressCategory.
Proof. solve_decision. Defined.
Record AddressVerdict := { category : AddressCategory; ag_reason : string }.
Record Range := { cidr : string; r_category : AddressCategory; r_reason : string }.

Definition V4_RANGES : list Range :=
  [{| cidr := "0.0.0.0/8"; r_category := FORBIDDEN; r_reason := "unspecified address" |};
   {| cidr := "127.0.0.0/8"; r_category := PRIVATE; r_reason := "loopback" |};
   {| cidr := "10.0.0.0/8"; r_category := PRIVATE; r_reason := "private network (RFC1918)" |};
   {| cidr := "172.16.0.0/12"; r_category := PRIVATE; r_reason := "private network (RFC1918)" |};
   {| cidr := "192.168.0.0/16"; r_category := PRIVATE; r_reason := "private network (RFC1918)" |};
   {| cidr := "100.64.0.0/10"; r_category := PRIVATE; r_reason := "carrier-grade NAT" |};
   {| cidr := "169.254.0.0/16"; r_category := FORBIDDEN; r_reason := "link-local / cloud metadata" |};
   {| cidr := "192.0.0.0/24"; r_category := FORBIDDEN; r_reason := "IETF protocol assignments" |};
   {| cidr := "192.0.2.0/24"; r_category := FORBIDDEN; r_reason := "documentation range" |};
   {| cidr := "198.18.0.0/15"; r_category := FORBIDDEN; r_reason := "benchmarking range" |};
   {| cidr := "198.51.100.0/24"; r_category := FORBIDDEN; r_reason := "documentation range" |};
   {| cidr := "203.0.113.0/24"; r_category := FORBIDDEN; r_reason := "documentation range" |};
   {| cidr := "224.0.0.0/4"; r_category := FORBIDDEN; r_reason := "multicast" |};
   {| cidr := "240.0.0.0/4"; r_category := FORBIDDEN; r_reason := "reserved" |}].

(** [/^\d{1,3}$/]. *)
Definition is_octet_text (part : string) : bool :=
  negb (String.length part =? 0)%nat && (String.length part <=? 3)%nat && all_chars is_digit part.
Definition ipv4_step (acc : option Z) (part : string) : option Z :=
  value ← acc;
  if negb (is_octet_text part) then None
  else if 255 <? decimal part then None else Some (value * 256 + decimal part).
Definition ipv4ToInt (ip : string) : option Z :=
  let parts := split_on "." ip in
  if negb (length parts =? 4)%nat then None else foldl ipv4_step (Some 0) parts.

(** JavaScript's bitwise operators work on signed 32-bit integers; [>>> 0] reads one as unsigned. *)
Definition W : Z := 2 ^ 32.
Definition to_int32 (x : Z) : Z := (x + 2 ^ 31) mod W - 2 ^ 31.
Definition ushr0 (x : Z) : Z := x mod W.
Definition shl32 (x n : Z) : Z := to_int32 (Z.shiftl (to_int32 x) (n mod 32)).
Definition and32 (x y : Z) : Z := to_int32 (Z.land (to_int32 x) (to_int32 y)).

(** [Number(text)] of a prefix length written in digits, [None] for anything else the table does not hold. *)
Definition prefix_length (text : string) : option Z :=
  if negb (String.eqb text "") && all_chars is_digit text then Some (decimal text) else None.
Definition inCidr (ip : Z) (cidr : string) : bool :=
  match split_on "/" cidr with
  | base :: bitsRaw :: _ =>
      match ipv4ToInt base, prefix_length bitsRaw with
      | Some baseInt, Some bits =>
          if bits =? 0 then true
          else let mask := ushr0 (shl32 4294967295 (32 - bits)) in
               ushr0 (and32 ip mask) =? ushr0 (and32 baseInt mask)
      | _, _ => false
      end
  | _ => false
  end.

(** [/^::ffff:(\d{1,3}(?:\.\d{1,3}){3})$/i], and the hexadecimal form. *)
Definition after_mapped (ip : string) : option string :=
  if String.prefix "::ffff:" (toLowerCase ip) then Some (drop_chars 7 ip) else None.
Definition unwrapMappedV4 (ip : string) : option string :=
  rest ← after_mapped ip;
  if (length (split_on "." rest) =? 4)%nat && forallb is_octet_text (split_on "." rest) then Some rest
  else match split_on ":" rest with
       | [high; low] =>
           high ← group_of high; low ← group_of low;
           Some (show (high / 256) +:+ "." +:+ show (high mod 256) +:+ "." +:+ show (low / 256) +:+ "." +:+ show (low mod 256))
       | _ => None
       end.

(** A test of the first characters, in turn. *)
Fixpoint matches_head (tests : list (Ascii.ascii -> bool)) (text : string) : bool :=
  match tests, text with
  | [], _ => true
  | t :: tests, String c rest => t c && matches_head tests rest
  | _ :: _, EmptyString => false
  end.
Definition lower_hex (c : Ascii.ascii) : bool := is_digit c || in_codes 97 102 c.
Definition one_of_chars (chars : list string) (c : Ascii.ascii) : bool := existsb (fun x => is_char x c) chars.

Definition classifyV6 (ip : string) : AddressVerdict :=
  let lower := toLowerCase ip in
  if String.eqb lower "::" || String.eqb lower "::0" then {| category := FORBIDDEN; ag_reason := "unspecified address" |}
  else if String.eqb lower "::1" then {| category := PRIVATE; ag_reason := "loopback" |}
  else if matches_head [is_char "f"; one_of_chars ["c"; "d"]; lower_hex; lower_hex; is_char ":"] lower
  then {| category := PRIVATE; ag_reason := "unique local address (RFC4193)" |}
  else if matches_head [is_char "f"; is_char "e"; one_of_chars ["8"; "9"; "a"; "b"]; lower_hex; is_char ":"] lower
  then {| category := FORBIDDEN; ag_reason := "link-local" |}
  else if matches_head [is_char "f"; is_char "f"; lower_hex; lower_hex; is_char ":"] lower
  then {| category := FORBIDDEN; ag_reason := "multicast" |}
  else if String.prefix "2001:0db8:" lower || String.prefix "2001:db8:" lower
  then {| category := FORBIDDEN; ag_reason := "documentation range" |}
  else {| category := PUBLIC; ag_reason := "public address" |}.

Definition not_an_address : AddressVerdict := {| category := FORBIDDEN; ag_reason := "not an IP address" |}.
Definition classify_v4 (value : Z) : AddressVerdict :=
  match List.find (fun range => inCidr value (cidr range)) V4_RANGES with
  | Some range => {| category := r_category range; ag_reason := r_reason range |}
  | None => {| category := PUBLIC; ag_reason := "public address" |}
  end.
(** [classifyAddress(ip)]; [again] is its call of itself on the IPv4 text of a mapped address. *)
Definition classify_with (again : string -> AddressVerdict) (ip : string) : AddressVerdict :=
  let version := isIP ip in
  if version =? 6
  then match unwrapMappedV4 ip with
       | Some mapped => again mapped
       | None => classifyV6 ip
       end
  else if negb (version =? 4) then not_an_address
  else match ipv4ToInt ip with None => not_an_address | Some value => classify_v4 value end.
(** That text is not version 6 itself ([classifyAddress_again]): two rounds are enough. *)
Definition classifyAddress : string -> AddressVerdict :=
  classify_with (classify_with (fun _ => not_an_address)).

(** ** The direct route *)

Record TargetGuardOptions := { allowPrivate : bool }.

Definition assertAddress (host ip : string) (options : TargetGuardOptions) : string + unit :=
  let verdict := classifyAddress ip in
  match category verdict with
  | PUBLIC => inr tt
  | PRIVATE =>
      if allowPrivate options then inr tt
      else inl ("refusing to connect to " +:+ host +:+ " (" +:+ ip +:+ "): " +:+ ag_reason verdict +:+
        " — set ALLOW_PRIVATE_CLUSTER_TARGETS=true if this deployment manages databases on a private network")
  | FORBIDDEN => inl ("refusing to connect to " +:+ host +:+ " (" +:+ ip +:+ "): " +:+ ag_reason verdict)
  end.

(** [for (x of xs) await f(x)]: the first refusal ends it. *)
Fixpoint all_pass {A} (f : A -> string + unit) (xs : list A) : string + unit :=
  match xs with
  | [] => inr tt
  | x :: xs => match f x with inl e => inl e | inr _ => all_pass f xs end
  end.

(** The host of [host:port]; the text in_codes the brackets of an IPv6 literal. *)
Fixpoint until_bracket (text : string) : option string :=
  match text with
  | EmptyString => None
  | String c rest => if is_char "]" c then Some EmptyString else String c <$> until_bracket rest
  end.
Definition host_of (hostPort : string) : string :=
  let plain := default hostPort (head (split_on ":" hostPort)) in
  match hostPort with
  | String c rest =>
      if is_char "[" c
      then match until_bracket rest with
           | Some inside => if String.eqb inside "" then plain else inside
           | None => plain
           end
      else plain
  | EmptyString => plain
  end.

Section resolution.
(** What the resolvers answer; [None] when they throw. *)
Context (lookup resolveSrv : string -> option (list string)).

Definition assertHostname (host : string) (options : TargetGuardOptions) : string + unit :=
  match lookup host with
  | None => inr tt
  | Some addresses => all_pass (fun address => assertAddress host address options) addresses
  end.
Definition assert_target (isSrv : bool) (options : TargetGuardOptions) (hostPort : string) : string + unit :=
  let host := host_of hostPort in
  if String.eqb host "" then inr tt
  else if negb (isIP host =? 0) then assertAddress host host options
  else
    let targets := if isSrv then default [] (resolveSrv ("_mongodb._tcp." +:+ host)) else [] in
    match targets with
    | [] => assertHostname host options
    | _ => all_pass (fun target => assertHostname target options) targets
    end.
Definition assertTargetsAllowed (hosts : list string) (isSrv : bool) (options : TargetGuardOptions) : string + unit :=
  all_pass (assert_target isSrv options) hosts.
End resolution.

(** ** The tunnelled route *)

Record Cidr := { c_address : string; c_bits : Z }.
(** [Number(prefix)] of text that need not be digits is a parameter: the
    number, [None] when it is not an integer. *)
Definition parseCidr (number : string -> option Z) (entry : string) : string + Cidr :=
  let parts := split_on "/" entry in
  let address := default "" (head parts) in
  if isIP address =? 0 then inl (entry +:+ " is not an address")
  else
    let width := if isIP address =? 6 then 128 else 32 in
    match (match parts with _ :: prefix :: _ => number prefix | _ => Some width end) with
    | Some bits =>
        if (bits <? 0) || (width <? bits) then inl (entry +:+ " has an impossible prefix length")
        else inr {| c_address := address; c_bits := bits |}
    | None => inl (entry +:+ " has an impossible prefix length")
    end.

(** [value.toString(2).padStart(width, "0")], as characters; [parseInt] of a
    group that starts with no hexadecimal digit is NaN. *)
Fixpoint bits_of (width : nat) (value : Z) : list Ascii.ascii :=
  match width with
  | O => []
  | S n => bits_of n (value / 2) ++ [if Z.odd value then "1"%char else "0"%char]
  end.
Definition padded (width : nat) (value : option Z) : list Ascii.ascii :=
  match value with
  | Some value => bits_of (Nat.max width (S (Z.to_nat (Z.log2 value)))) value
  | None => replicate (width - 3) "0"%char ++ ["N"; "a"; "N"]%char
  end.
(** [(text ?? "") === "" ? [] : text.split(":")]. *)
Definition groups_text (text : string) : list string := if String.eqb text "" then [] else split_on ":" text.
Definition group_bits (group : string) : list Ascii.ascii :=
  padded 16 (parse_hex (if String.eqb group "" then "0" else group)).
Definition toBits (address : string) : list Ascii.ascii :=
  if isIP address =? 4
  then concat ((fun octet => padded 8 (Some (decimal octet))) <$> split_on "." address)
  else
    let '(head, after) := split_elision address in
    let left := groups_text head in
    let right := match after with Some after => groups_text (fst (split_elision after)) | None => [] end in
    let middle := replicate (8 - length left - length right) "0" in
    concat (group_bits <$> (left ++ middle ++ right)).
Definition withinCidr (address : string) (c : Cidr) : bool :=
  if negb (isIP address =? isIP (c_address c)) then false
  else if c_bits c =? 0 then true
  else bool_decide (take (Z.to_nat (c_bits c)) (toBits address) = take (Z.to_nat (c_bits c)) (toBits (c_address c))).

Definition assertDialableThroughTunnel (address : string) (allowedIps : list Cidr) : string + unit :=
  let verdict := classifyAddress address in
  match category verdict with
  | FORBIDDEN =>
      inl ("refusing to connect to " +:+ address +:+ " through the tunnel: " +:+ ag_reason verdict +:+ " — " +:+
           "never a database, whatever route reaches it")
  | _ =>
      if existsb (withinCidr address) allowedIps then inr tt
      else inl ("refusing to connect to " +:+ address +:+ ": outside this tunnel's AllowedIPs, so the peer did not " +:+
                "agree to carry it")
  end.

Record TunnelRoute := { allowedIps : list string; resolve : string -> option (list string) }.
Inductive DialRoute := direct (allowPrivate : bool) | tunnel (route : TunnelRoute).

Fixpoint parse_all (number : string -> option Z) (entries : list string) : string + list Cidr :=
  match entries with
  | [] => inr []
  | entry :: entries =>
      match parseCidr number entry with
      | inl e => inl e
      | inr c => match parse_all number entries with inl e => inl e | inr cs => inr (c :: cs) end
      end
  end.
Definition assert_tunnel_target (route : TunnelRoute) (cidrs : list Cidr) (hostPort : string) : string + unit :=
  let host := host_of hostPort in
  if String.eqb host "" then inr tt
  else if negb (isIP host =? 0) then assertDialableThroughTunnel host cidrs
  else match resolve route host with
       | None => inr tt
       | Some addresses => all_pass (fun address => assertDialableThroughTunnel address cidrs) addresses
       end.
Definition assertTunnelHostsAllowed (number : string -> option Z) (hosts : list string) (route : TunnelRoute) : string + unit :=
  match parse_all number (allowedIps route) with
  | inl e => inl e
  | inr cidrs => all_pass (assert_tunnel_target route cidrs) hosts
  end.

Definition assertDialTargetsAllowed (lookup resolveSrv : string -> option (list string)) (number : string -> option Z)
    (hosts : list string) (isSrv : bool) (route : DialRoute) : string + unit :=
  match route with
  | direct allow => assertTargetsAllowed lookup resolveSrv hosts isSrv {| allowPrivate := allow |}
  | tunnel route => assertTunnelHostsAllowed number hosts route
  end.

(** ** Texts and their parts *)

Notation not_char sep := (fun c => negb (is_char sep c)).

Lemma app_cons c s t : String c s +:+ t = String c (s +:+ t).
Proof. done. Qed.
Lemma append_assoc_text a b c : (a +:+ b) +:+ c = a +:+ b +:+ c.
Proof. induction a as [|x a IH]; [done|]. rewrite !app_cons. by f_equal. Qed.
Lemma append_empty_r s : s +:+ "" = s.
Proof. induction s as [|c s IH]; [done|]. by rewrite app_cons, IH. Qed.
Lemma is_char_self c : is_char (String c EmptyString) c = true.
Proof. apply String.eqb_refl. Qed.
Lemma all_chars_impl (f g : Ascii.ascii -> bool) text :
  (forall c, f c = true -> g c = true) -> all_chars f text = true -> all_chars g text = true.
Proof. intros I. induction text as [|c rest IH]; [done|]. cbn. rewrite !andb_true_iff. naive_solver. Qed.
Lemma all_chars_app f a b : all_chars f (a +:+ b) = all_chars f a && all_chars f b.
Proof.
  induction a as [|c a IH]; [done|]. change (String c a +:+ b) with (String c (a +:+ b)).
  cbn [all_chars]. by rewrite IH, andb_assoc.
Qed.
Lemma split_on_whole sep text : all_chars (not_char sep) text = true -> split_on sep text = [text].
Proof.
  induction text as [|c rest IH]; [done|]. cbn. rewrite andb_true_iff, negb_true_iff. intros [-> H]. by rewrite IH.
Qed.
Lemma split_on_part c a b :
  all_chars (not_char (String c EmptyString)) a = true ->
  split_on (String c EmptyString) (a +:+ String c b) = a :: split_on (String c EmptyString) b.
Proof.
  induction a as [|d a IH].
  - intros _. change (EmptyString +:+ String c b) with (String c b). cbn [split_on]. by rewrite is_char_self.
  - change (String d a +:+ String c b) with (String d (a +:+ String c b)). cbn [split_on all_chars].
    rewrite andb_true_iff, negb_true_iff. intros [-> H]. by rewrite IH.
Qed.
(** A condition on every part and on the separator is one on the whole. *)
Lemma split_on_chars f c text :
  f c = true -> all_chars f text = forallb (all_chars f) (split_on (String c EmptyString) text).
Proof.
  intros Hc. induction text as [|d rest IH]; [done|]. cbn [split_on all_chars]. destruct (is_char (String c EmptyString) d) eqn:E.
  - apply String.eqb_eq in E. injection E as ->. cbn [forallb all_chars]. by rewrite Hc, IH.
  - rewrite IH. destruct (split_on _ rest) as [|part parts] eqn:Es; cbn [forallb all_chars]; [by destruct (f d)|by rewrite andb_assoc].
Qed.
Lemma split_on_nonempty sep text : split_on sep text <> [].
Proof.
  destruct text as [|c rest]; cbn [split_on]; [discriminate|].
  destruct (is_char sep c); [discriminate|]. destruct (split_on sep rest); discriminate.
Qed.
(** No part holds the separator. *)
Lemma split_on_free sep text : Forall (fun part => all_chars (not_char sep) part = true) (split_on sep text).
Proof.
  induction text as [|c rest IH]; cbn [split_on]; [by repeat constructor|].
  destruct (is_char sep c) eqn:E; [by constructor|].
  destruct (split_on sep rest) as [|part parts]; [constructor; [cbn [all_chars]; by rewrite E|done]|].
  inversion IH; subst. constructor; [cbn [all_chars]; by rewrite E|done].
Qed.
Lemma split_on_one sep text part : split_on sep text = [part] -> text = part.
Proof.
  revert part. induction text as [|c rest IH]; intros part; cbn [split_on]; [by intros [= <-]|].
  destruct (is_char sep c).
  - intros H. pose proof (split_on_nonempty sep rest). naive_solver.
  - destruct (split_on sep rest) as [|p [|q ps]] eqn:E; [by pose proof (split_on_nonempty sep rest)| |done].
    intros [= <-]. f_equal. by apply IH.
Qed.

(** ** IPv4 texts *)

Lemma octet_of_text part a : octet_of part = Some a -> is_octet_text part = true /\ decimal part = a /\ 0 <= a <= 255.
Proof.
  unfold octet_of, is_octet_text. intros H.
  destruct (String.length part =? 0)%nat eqn:E0; [done|]. cbn [orb negb andb] in *.
  destruct (3 <? String.length part)%nat eqn:E3; [done|]. cbn [orb] in H.
  destruct (all_chars is_digit part) eqn:Ed; [|done]. cbn [negb] in H.
  destruct (_ && String.prefix _ _); [done|]. destruct (255 <? decimal part) eqn:E; [done|]. injection H as <-.
  assert (forall text acc, 0 <= acc -> all_chars is_digit text = true -> 0 <= digits_from acc text) as Hpos.
  { clear. intros text. induction text as [|c rest IH]; intros acc Hacc; [done|]. cbn [all_chars digits_from].
    rewrite andb_true_iff. intros [Hc Hr]. apply IH; [|done]. unfold is_digit, in_codes in Hc. lia. }
  specialize (Hpos part 0 ltac:(lia) Ed). unfold decimal in *. split; [|split; [done|lia]].
  rewrite andb_true_r. apply Nat.leb_le. apply Nat.ltb_ge in E3. done.
Qed.
Lemma octet_text_digits part : is_octet_text part = true -> all_chars is_digit part = true.
Proof. unfold is_octet_text. rewrite !andb_true_iff. tauto. Qed.

(** The four octets of an IPv4 text. *)
Definition octets (text : string) (a b c d : Z) : Prop :=
  exists pa pb pc pd, split_on "." text = [pa; pb; pc; pd] /\
    octet_of pa = Some a /\ octet_of pb = Some b /\ octet_of pc = Some c /\ octet_of pd = Some d.
Lemma parse4_octets text v :
  parse4 text = Some v <-> exists a b c d, octets text a b c d /\ v = ((a * 256 + b) * 256 + c) * 256 + d.
Proof.
  unfold parse4, octets. split.
  - destruct (split_on "." text) as [|pa [|pb [|pc [|pd [|]]]]] eqn:E; try done.
    destruct (octet_of pa) as [a|] eqn:Ea; [|done]. destruct (octet_of pb) as [b|] eqn:Eb; [|done].
    destruct (octet_of pc) as [c|] eqn:Ec; [|done]. destruct (octet_of pd) as [d|] eqn:Ed; [|done].
    intros [= <-]. by eauto 20.
  - intros (a & b & c & d & (pa & pb & pc & pd & -> & Ha & Hb & Hc & Hd) & ->). by simplify_option_eq.
Qed.
Lemma parse4_range text v : parse4 text = Some v -> 0 <= v < W.
Proof.
  rewrite parse4_octets. intros (a & b & c & d & (pa & pb & pc & pd & _ & Ha & Hb & Hc & Hd) & ->).
  apply octet_of_text in Ha as (_ & _ & ?), Hb as (_ & _ & ?), Hc as (_ & _ & ?), Hd as (_ & _ & ?).
  unfold W. lia.
Qed.
Lemma parse4_parts text v : parse4 text = Some v ->
  length (split_on "." text) = 4%nat /\ forallb is_octet_text (split_on "." text) = true.
Proof.
  rewrite parse4_octets. intros (a & b & c & d & (pa & pb & pc & pd & -> & Ha & Hb & Hc & Hd) & ->).
  apply octet_of_text in Ha as (Ha & _ & _), Hb as (Hb & _ & _), Hc as (Hc & _ & _), Hd as (Hd & _ & _).
  split; [done|]. cbn [forallb]. by rewrite Ha, Hb, Hc, Hd.
Qed.
Lemma ipv4_step_octet part a value : octet_of part = Some a -> ipv4_step (Some value) part = Some (value * 256 + a).
Proof.
  intros (Ht & Hd & Hr)%octet_of_text. unfold ipv4_step. cbn [mbind option_bind]. rewrite Ht, Hd. cbn [negb].
  by destruct (Z.ltb_spec 255 a); [lia|].
Qed.
(** [ipv4ToInt] reads what [isIP] accepts as version 4. *)
Lemma ipv4ToInt_parse4 text v : parse4 text = Some v -> ipv4ToInt text = Some v.
Proof.
  rewrite parse4_octets. intros (a & b & c & d & (pa & pb & pc & pd & E & Ha & Hb & Hc & Hd) & ->).
  unfold ipv4ToInt. rewrite E. cbn [length Nat.eqb negb foldl].
  rewrite (ipv4_step_octet _ _ _ Ha), (ipv4_step_octet _ _ _ Hb), (ipv4_step_octet _ _ _ Hc), (ipv4_step_octet _ _ _ Hd).
  done.
Qed.
Definition dot_or_digit (c : Ascii.ascii) : bool := is_digit c || is_char "." c.
Lemma octet_parts_chars text : forallb is_octet_text (split_on "." text) = true -> all_chars dot_or_digit text = true.
Proof.
  intros H. rewrite (split_on_chars dot_or_digit "."%char) by done. rewrite forallb_forall in H |- *. intros part Hin.
  apply H, octet_text_digits in Hin. revert Hin. apply all_chars_impl. intros c Hc. unfold dot_or_digit. by rewrite Hc.
Qed.
Lemma dot_or_digit_not c sep : dot_or_digit c = true -> dot_or_digit sep = false -> negb (is_char (String sep EmptyString) c) = true.
Proof.
  intros Hc Hs. apply negb_true_iff. apply not_true_iff_false. intros E. apply String.eqb_eq in E.
  injection E as ->. congruence.
Qed.
(** An IPv4 text holds nothing but digits and dots. *)
Lemma parse4_free text v sep : parse4 text = Some v -> dot_or_digit sep = false ->
  all_chars (not_char (String sep EmptyString)) text = true.
Proof.
  intros H Hs. apply parse4_parts in H as [_ H]. apply octet_parts_chars in H. revert H.
  apply all_chars_impl. intros c Hc. by apply dot_or_digit_not.
Qed.
Lemma parse4_isIP text v : parse4 text = Some v -> isIP text = 4.
Proof. intros H. unfold isIP. by rewrite H. Qed.

(** A number below 256 and its text. *)
Definition octet_prints (a : Z) : bool :=
  bool_decide (octet_of (show a) = Some a) && bool_decide (prefix_length (show a) = Some a)
  && all_chars (not_char ".") (show a) && all_chars (not_char "/") (show a).
Lemma octets_print a : 0 <= a < 256 -> octet_prints a = true.
Proof.
  intros Ha. assert (forallb octet_prints (seqZ 0 256) = true) as H by by vm_compute.
  rewrite forallb_forall in H. apply H. apply list_elem_of_In, elem_of_seqZ. lia.
Qed.
Lemma show_octet a : 0 <= a < 256 ->
  octet_of (show a) = Some a /\ prefix_length (show a) = Some a
  /\ all_chars (not_char ".") (show a) = true /\ all_chars (not_char "/") (show a) = true.
Proof.
  intros H%octets_print. unfold octet_prints in H. rewrite !andb_true_iff, !bool_decide_eq_true in H. tauto.
Qed.
Lemma dot_app x : "." +:+ x = String "." x.
Proof. done. Qed.
Lemma parse4_dotted a b c d : 0 <= a < 256 -> 0 <= b < 256 -> 0 <= c < 256 -> 0 <= d < 256 ->
  parse4 (show a +:+ "." +:+ show b +:+ "." +:+ show c +:+ "." +:+ show d) = Some (((a * 256 + b) * 256 + c) * 256 + d).
Proof.
  intros (Ha & _ & Fa & _)%show_octet (Hb & _ & Fb & _)%show_octet (Hc & _ & Fc & _)%show_octet (Hd & _ & Fd & _)%show_octet.
  apply parse4_octets. exists a, b, c, d. split; [|done]. exists (show a), (show b), (show c), (show d). split; [|done].
  rewrite !dot_app, !split_on_part by done. by rewrite split_on_whole.
Qed.

(** ** Masks *)

Lemma ushr0_to_int32 x : ushr0 (to_int32 x) = ushr0 x.
Proof. unfold ushr0, to_int32. rewrite Zminus_mod_idemp_l. f_equal. lia. Qed.
Lemma ushr0_and x y : ushr0 (and32 x y) = Z.land (ushr0 x) (ushr0 y).
Proof.
  unfold and32. rewrite ushr0_to_int32, <- (ushr0_to_int32 x), <- (ushr0_to_int32 y).
  unfold ushr0, W. rewrite <- !Z.land_ones by lia. apply Z.bits_inj'. intros n Hn. rewrite !Z.land_spec.
  by destruct (Z.testbit (to_int32 x) n), (Z.testbit (to_int32 y) n), (Z.testbit (Z.ones 32) n).
Qed.
Lemma mask_eq k : 0 <= k < 32 -> ushr0 (shl32 4294967295 k) = Z.ldiff (Z.ones 32) (Z.ones k).
Proof.
  intros Hk. unfold shl32. rewrite ushr0_to_int32, (Z.mod_small k) by lia. change (to_int32 4294967295) with (-1).
  unfold ushr0, W. rewrite <- Z.land_ones by lia. apply Z.bits_inj'. intros n Hn.
  rewrite Z.land_spec, Z.ldiff_spec, Z.shiftl_spec by lia. rewrite (Z.testbit_ones_nonneg k) by lia.
  destruct (Z.ltb_spec n k).
  - rewrite Z.testbit_neg_r by lia. by rewrite andb_false_r.
  - rewrite Z.bits_m1 by lia. by rewrite andb_true_r.
Qed.
(** Masking drops the low bits. *)
Lemma masked ip k : 0 <= ip < W -> 0 <= k < 32 -> ushr0 (and32 ip (ushr0 (shl32 4294967295 k))) = ip / 2 ^ k * 2 ^ k.
Proof.
  intros Hip Hk. rewrite ushr0_and, mask_eq by done.
  assert (ushr0 (Z.ldiff (Z.ones 32) (Z.ones k)) = Z.ldiff (Z.ones 32) (Z.ones k)) as ->.
  { unfold ushr0, W. rewrite <- Z.land_ones by lia. apply Z.bits_inj'. intros n Hn. rewrite Z.land_spec, Z.ldiff_spec.
    by destruct (Z.testbit (Z.ones 32) n), (Z.testbit (Z.ones k) n). }
  assert (ushr0 ip = ip) as -> by (unfold ushr0; by apply Z.mod_small).
  rewrite <- Z.shiftr_div_pow2, <- Z.shiftl_mul_pow2, <- Z.ldiff_ones_r by lia.
  apply Z.bits_inj'. intros n Hn. rewrite Z.land_spec, !Z.ldiff_spec.
  assert (Z.testbit ip n && Z.testbit (Z.ones 32) n = Z.testbit ip n) as E.
  { rewrite <- Z.land_spec, Z.land_ones by lia. by rewrite Z.mod_small. }
  rewrite andb_assoc. by rewrite E.
Qed.

(** The network of an IPv4 address at a prefix length, as a number. *)
Definition network (value bits : Z) : Z := value / 2 ^ (32 - bits).

Lemma inCidr_network ip cidr base bitsRaw baseInt bits :
  split_on "/" cidr = [base; bitsRaw] -> ipv4ToInt base = Some baseInt -> prefix_length bitsRaw = Some bits ->
  0 <= ip < W -> 0 <= baseInt < W -> 0 <= bits <= 32 ->
  inCidr ip cidr = (network ip bits =? network baseInt bits).
Proof.
  intros E Eb En Hip Hb Hbits. unfold inCidr, network. rewrite E, Eb, En.
  destruct (Z.eqb_spec bits 0) as [->|].
  - change (2 ^ (32 - 0)) with W. rewrite !Z.div_small by done. done.
  - cbv zeta. rewrite !masked by lia. assert (0 < 2 ^ (32 - bits)) by (apply Z.pow_pos_nonneg; lia).
    apply Bool.eq_true_iff_eq. rewrite !Z.eqb_eq. split; [|by intros ->]. intros H1. nia.
Qed.
Lemma network_interval ip base bits : 0 <= bits <= 32 ->
  (network ip bits =? network base bits) =
  (network base bits * 2 ^ (32 - bits) <=? ip) && (ip <=? network base bits * 2 ^ (32 - bits) + 2 ^ (32 - bits) - 1).
Proof.
  intros H. unfold network. assert (0 < 2 ^ (32 - bits)) by (apply Z.pow_pos_nonneg; lia).
  apply Bool.eq_true_iff_eq. rewrite Z.eqb_eq, andb_true_iff, !Z.leb_le.
  generalize dependent (2 ^ (32 - bits)). intros p Hp. generalize (base / p). intros q. split.
  - intros <-. pose proof (Z.mul_div_le ip p Hp). pose proof (Z.mul_succ_div_gt ip p Hp). nia.
  - intros []. symmetry. apply (Z.div_unique ip p q (ip - q * p)); lia.
Qed.

(** ** What an IPv4 address is *)

Definition quad (a b c d : Z) : Z := ((a * 256 + b) * 256 + c) * 256 + d.
Record AddressBlock := { b_first : Z; b_last : Z; b_category : AddressCategory }.
Definition holds (v : Z) (b : AddressBlock) : bool := (b_first b <=? v) && (v <=? b_last b).
(** The blocks of IPv4 that are not public, by their first and last address. *)
Definition special_blocks : list AddressBlock :=
  [{| b_first := quad 0 0 0 0; b_last := quad 0 255 255 255; b_category := FORBIDDEN |};
   {| b_first := quad 127 0 0 0; b_last := quad 127 255 255 255; b_category := PRIVATE |};
   {| b_first := quad 10 0 0 0; b_last := quad 10 255 255 255; b_category := PRIVATE |};
   {| b_first := quad 172 16 0 0; b_last := quad 172 31 255 255; b_category := PRIVATE |};
   {| b_first := quad 192 168 0 0; b_last := quad 192 168 255 255; b_category := PRIVATE |};
   {| b_first := quad 100 64 0 0; b_last := quad 100 127 255 255; b_category := PRIVATE |};
   {| b_first := quad 169 254 0 0; b_last := quad 169 254 255 255; b_category := FORBIDDEN |};
   {| b_first := quad 192 0 0 0; b_last := quad 192 0 0 255; b_category := FORBIDDEN |};
   {| b_first := quad 192 0 2 0; b_last := quad 192 0 2 255; b_category := FORBIDDEN |};
   {| b_first := quad 198 18 0 0; b_last := quad 198 19 255 255; b_category := FORBIDDEN |};
   {| b_first := quad 198 51 100 0; b_last := quad 198 51 100 255; b_category := FORBIDDEN |};
   {| b_first := quad 203 0 113 0; b_last := quad 203 0 113 255; b_category := FORBIDDEN |};
   {| b_first := quad 224 0 0 0; b_last := quad 239 255 255 255; b_category := FORBIDDEN |};
   {| b_first := quad 240 0 0 0; b_last := quad 255 255 255 255; b_category := FORBIDDEN |}].

(** The row of the table stands for the block. *)
Definition row_is (r : Range) (b : AddressBlock) : bool :=
  match split_on "/" (cidr r) with
  | [base; bitsRaw] =>
      match ipv4ToInt base, prefix_length bitsRaw with
      | Some base, Some bits =>
          (0 <=? base) && (base <? W) && (0 <=? bits) && (bits <=? 32)
          && (b_first b =? network base bits * 2 ^ (32 - bits))
          && (b_last b =? network base bits * 2 ^ (32 - bits) + 2 ^ (32 - bits) - 1)
          && bool_decide (b_category b = r_category r)
      | _, _ => false
      end
  | _ => false
  end.
Lemma row_is_spec r b v : row_is r b = true -> 0 <= v < W -> inCidr v (cidr r) = holds v b /\ r_category r = b_category b.
Proof.
  unfold row_is. destruct (split_on "/" (cidr r)) as [|base [|bitsRaw [|]]] eqn:E; try done.
  destruct (ipv4ToInt base) as [b0|] eqn:Eb; [|done]. destruct (prefix_length bitsRaw) as [bits|] eqn:En; [|done].
  rewrite !andb_true_iff, bool_decide_eq_true, !Z.leb_le, Z.ltb_lt, !Z.eqb_eq. intros ([[[[[R1 R2] R3] R4] Hf] Hl] & Hc) Hv.
  split; [|done]. erewrite inCidr_network by done. rewrite network_interval by lia.
  unfold holds. by rewrite Hf, Hl.
Qed.
Lemma rows_are_blocks : Forall2 (fun r b => row_is r b = true) V4_RANGES special_blocks.
Proof. unfold V4_RANGES, special_blocks. repeat (apply Forall2_cons_2; [vm_compute; reflexivity|]). apply Forall2_nil_2. Qed.

(** No two of the blocks overlap. *)
Definition apart (b b' : AddressBlock) : bool := (b_last b <? b_first b') || (b_last b' <? b_first b).
Lemma blocks_apart i j b b' : special_blocks !! i = Some b -> special_blocks !! j = Some b' -> i <> j -> apart b b' = true.
Proof.
  assert (forallb (fun i => forallb (fun j => (i =? j)%nat ||
    match special_blocks !! i, special_blocks !! j with Some b, Some b' => apart b b' | _, _ => true end) (seq 0 14)) (seq 0 14) = true)
    as H by by vm_compute.
  intros Hi Hj Hne. rewrite forallb_forall in H. pose proof (lookup_lt_Some _ _ _ Hi). pose proof (lookup_lt_Some _ _ _ Hj).
  change (length special_blocks) with 14%nat in *.
  specialize (H i ltac:(apply in_seq; lia)). rewrite forallb_forall in H. specialize (H j ltac:(apply in_seq; lia)).
  rewrite Hi, Hj in H. by destruct (Nat.eqb_spec i j).
Qed.
Lemma block_unique v b b' : b ∈ special_blocks -> b' ∈ special_blocks -> holds v b = true -> holds v b' = true -> b = b'.
Proof.
  intros [i Hi]%list_elem_of_lookup [j Hj]%list_elem_of_lookup H H'. destruct (decide (i = j)) as [->|Hne]; [congruence|].
  pose proof (blocks_apart _ _ _ _ Hi Hj Hne) as Ha. unfold apart, holds in *. lia.
Qed.

(** The category of an IPv4 address: its block's, public when it is in none. *)
Definition category_of (v : Z) : AddressCategory :=
  from_option b_category PUBLIC (List.find (holds v) special_blocks).
Lemma classify_v4_category v : 0 <= v < W -> category (classify_v4 v) = category_of v.
Proof.
  intros Hv. unfold classify_v4, category_of. induction rows_are_blocks as [|r b rs bs Hr _ IH]; [done|].
  destruct (row_is_spec r b v Hr Hv) as [E Ec]. cbn [List.find]. rewrite E. by destruct (holds v b).
Qed.
Lemma category_of_block v b : b ∈ special_blocks -> holds v b = true -> category_of v = b_category b.
Proof.
  intros Hin Hh. unfold category_of. destruct (List.find _ _) as [b'|] eqn:E.
  - apply find_some in E as [Hin' Hh']. cbn. by rewrite (block_unique v b b' Hin (proj2 (list_elem_of_In _ _) Hin') Hh Hh').
  - apply list_elem_of_In in Hin. pose proof (find_none _ _ E b Hin). congruence.
Qed.

(** ** IPv6 texts *)

Lemma split_elision_whole text : all_chars (not_char ":") text = true -> split_elision text = (text, None).
Proof.
  induction text as [|c rest IH]; [done|]. cbn [all_chars split_elision]. rewrite andb_true_iff, negb_true_iff.
  intros [-> H]. cbn [andb]. by rewrite IH.
Qed.
Lemma all_chars_parts f sep text : all_chars f text = true -> Forall (fun part => all_chars f part = true) (split_on sep text).
Proof.
  induction text as [|c rest IH]; cbn [split_on]; [by repeat constructor|]. cbn [all_chars]. rewrite andb_true_iff.
  intros [Hc Hr]. specialize (IH Hr). destruct (is_char sep c); [by constructor|].
  destruct (split_on sep rest) as [|part parts]; [constructor; [cbn [all_chars]; by rewrite Hc|done]|].
  inversion IH; subst. constructor; [|done]. cbn [all_chars]. by rewrite Hc.
Qed.
Lemma without_zone_part text address : without_zone text = Some address -> address ∈ split_on "%" text.
Proof.
  unfold without_zone. destruct (split_on "%" text) as [|a [|z [|]]]; intros H; try done.
  - injection H as <-. by left.
  - destruct (_ && _); [|done]. injection H as <-. by left.
Qed.
Lemma without_zone_none text : all_chars (not_char "%") text = true -> without_zone text = Some text.
Proof. intros H. unfold without_zone. by rewrite split_on_whole. Qed.
(** An IPv6 address has a colon. *)
Lemma parse6_colon text : all_chars (not_char ":") text = true -> parse6 text = None.
Proof.
  intros H. unfold parse6. destruct (without_zone text) as [address|] eqn:E; [|done]. cbn [mbind option_bind].
  apply without_zone_part in E. apply (all_chars_parts _ "%") in H. rewrite Forall_forall in H. apply H in E.
  rewrite split_elision_whole by done. unfold side_of. destruct (String.eqb address ""); [done|].
  rewrite split_on_whole by done. cbn [groups_of]. destruct (group_of address); [done|]. by destruct (parse4 address).
Qed.

Lemma hex_value_range c d : hex_value c = Some d -> 0 <= d < 16.
Proof. unfold hex_value, is_digit, in_codes. repeat case_match; intros [= <-]; lia. Qed.
Lemma parse_hex_range text acc v : 0 <= acc -> parse_hex_from (Some acc) text = Some v ->
  0 <= v < (acc + 1) * 16 ^ Z.of_nat (String.length text).
Proof.
  revert acc. induction text as [|c rest IH]; intros acc Ha; cbn [parse_hex_from String.length].
  - intros [= <-]. lia.
  - assert (16 ^ Z.of_nat (S (String.length rest)) = 16 * 16 ^ Z.of_nat (String.length rest)) as ->
      by (rewrite Nat2Z.inj_succ, Z.pow_succ_r by lia; done).
    assert (1 <= 16 ^ Z.of_nat (String.length rest)) by (apply Z.pow_le_mono_r with (b := 0); lia).
    destruct (hex_value c) as [d|] eqn:E.
    + apply hex_value_range in E. cbn [default from_option id]. intros H1%IH; [nia|lia].
    + intros [= <-]. nia.
Qed.
Lemma group_of_range part g : group_of part = Some g -> 0 <= g < 65536.
Proof.
  unfold group_of. destruct (String.length part =? 0)%nat eqn:E0; [done|].
  destruct (4 <? String.length part)%nat eqn:E4; [done|]. cbn [orb]. destruct (negb _); [done|].
  destruct part as [|c rest]; [done|]. unfold parse_hex. cbn [parse_hex_from].
  destruct (hex_value c) as [d|] eqn:E; [|done]. apply hex_value_range in E. cbn [default from_option].
  intros H%parse_hex_range; [|lia]. apply Nat.ltb_ge in E4. cbn [String.length] in E4.
  assert (16 ^ Z.of_nat (String.length rest) <= 16 ^ 3) by (apply Z.pow_le_mono_r; lia). nia.
Qed.
(** The dotted text of two groups. *)
Lemma dotted_groups high low : 0 <= high < 65536 -> 0 <= low < 65536 ->
  parse4 (show (high / 256) +:+ "." +:+ show (high mod 256) +:+ "." +:+ show (low / 256) +:+ "." +:+ show (low mod 256))
  = Some (high * 65536 + low).
Proof.
  intros Hh Hl. rewrite parse4_dotted by (split; [|]; Z.to_euclidean_division_equations; lia). f_equal.
  Z.to_euclidean_division_equations; lia.
Qed.

(** What [unwrapMappedV4] finds has no colon, so it is not version 6 itself. *)
Lemma unwrapMappedV4_colon ip mapped : unwrapMappedV4 ip = Some mapped -> all_chars (not_char ":") mapped = true.
Proof.
  unfold unwrapMappedV4. destruct (after_mapped ip) as [rest|]; [|done]. cbn [mbind option_bind].
  destruct (_ && forallb is_octet_text _) eqn:E.
  - intros [= <-]. apply andb_true_iff in E as [_ E]. apply octet_parts_chars in E. revert E. apply all_chars_impl.
    intros c Hc. by apply dot_or_digit_not.
  - destruct (split_on ":" rest) as [|h [|l [|]]]; try done.
    destruct (group_of h) as [x|] eqn:Eh; [|done]. destruct (group_of l) as [y|] eqn:El; [|done]. cbn [mbind option_bind].
    intros [= <-]. apply group_of_range in Eh, El. by eapply parse4_free; [apply dotted_groups|].
Qed.
Lemma classify_with_flat f g text : parse6 text = None -> classify_with f text = classify_with g text.
Proof.
  intros H. unfold classify_with. assert (isIP text =? 6 = false) as ->; [|done].
  unfold isIP. rewrite H. by destruct (parse4 text).
Qed.
(** Calling itself once is all [classifyAddress] ever does. *)
Lemma classifyAddress_again ip : classifyAddress ip = classify_with classifyAddress ip.
Proof.
  unfold classifyAddress at 1. unfold classify_with at 1 3. destruct (isIP ip =? 6); [|done].
  destruct (unwrapMappedV4 ip) as [mapped|] eqn:E; [|done].
  apply unwrapMappedV4_colon, parse6_colon in E. unfold classifyAddress. by apply classify_with_flat.
Qed.

Lemma lower_colon c : lower_ascii c = ":"%char -> c = ":"%char.
Proof. destruct c as [[] [] [] [] [] [] [] []]; vm_compute; try done. Qed.
Lemma lower_f c : lower_ascii c = "f"%char -> c = "f"%char \/ c = "F"%char.
Proof. destruct c as [[] [] [] [] [] [] [] []]; vm_compute; intros H; first [discriminate H | by left | by right]. Qed.
Lemma prefix_lower a x s : String.prefix (String a x) (toLowerCase s) = true ->
  exists c y, s = String c y /\ lower_ascii c = a /\ String.prefix x (toLowerCase y) = true.
Proof.
  destruct s as [|c y]; [done|]. cbn [toLowerCase String.prefix]. destruct (Ascii.ascii_dec a (lower_ascii c)); [|done].
  intros H. by exists c, y.
Qed.
(** A text that starts as a mapped address: its first group and what follows. *)
Lemma after_mapped_shape ip rest : after_mapped ip = Some rest ->
  exists ffff, ip = "::" +:+ ffff +:+ ":" +:+ rest /\ all_chars (not_char ":") ffff = true /\ group_of ffff = Some 65535.
Proof.
  unfold after_mapped. destruct (String.prefix _ _) eqn:E; [|done].
  intros [= <-].
  apply prefix_lower in E as (c1 & r1 & -> & ->%lower_colon & E). apply prefix_lower in E as (c2 & r2 & -> & ->%lower_colon & E).
  apply prefix_lower in E as (c3 & r3 & -> & H3%lower_f & E). apply prefix_lower in E as (c4 & r4 & -> & H4%lower_f & E).
  apply prefix_lower in E as (c5 & r5 & -> & H5%lower_f & E). apply prefix_lower in E as (c6 & r6 & -> & H6%lower_f & E).
  apply prefix_lower in E as (c7 & r7 & -> & ->%lower_colon & _).
  exists (String c3 (String c4 (String c5 (String c6 EmptyString)))). split; [done|].
  by destruct H3 as [->| ->], H4 as [->| ->], H5 as [->| ->], H6 as [->| ->].
Qed.
Lemma groups_of_cons last_side p ps : ps <> [] ->
  groups_of last_side (p :: ps) = (g ← group_of p; gs ← groups_of last_side ps; Some (g :: gs)).
Proof. by destruct ps. Qed.
Lemma groups_two parts h l : groups_of true parts = Some [h; l] ->
  (exists p v, parts = [p] /\ parse4 p = Some v /\ h = v / 65536 /\ l = v mod 65536)
  \/ (exists p q, parts = [p; q] /\ group_of p = Some h /\ group_of q = Some l).
Proof.
  destruct parts as [|p [|q [|r rs]]]; [done| | |].
  - cbn [groups_of]. destruct (group_of p); [done|]. destruct (parse4 p) as [v|] eqn:E; [|done]. intros [= <- <-]. left. by exists p, v.
  - cbn [groups_of]. destruct (group_of p) as [g|] eqn:Ep; [|done]. cbn [mbind option_bind].
    destruct (group_of q) as [g'|] eqn:Eq; cbn [mbind option_bind]; [intros [= <- <-]; right; by eauto|].
    by destruct (parse4 q).
  - rewrite !groups_of_cons by done. destruct (group_of p); [|done]. destruct (group_of q); [|done]. cbn [mbind option_bind].
    destruct (groups_of true (r :: rs)) as [[|x gs]|] eqn:E; [|done|done]. exfalso. destruct rs as [|s rs].
    + cbn [groups_of] in E. destruct (group_of r); [done|]. by destruct (parse4 r).
    + rewrite groups_of_cons in E by done. destruct (group_of r); [|done]. cbn [mbind option_bind] in E.
      by destruct (groups_of true (s :: rs)).
Qed.
Lemma split_elision_head x : split_elision ("::" +:+ x) = ("", Some x).
Proof.
  change ("::" +:+ x) with (String ":" (String ":" x)). cbn [split_elision].
  assert (String.prefix ":" (String ":" x) = true) as -> by by destruct x. done.
Qed.
(** The groups of an address that starts as a mapped one. *)
Lemma parse6_mapped ip rest : after_mapped ip = Some rest -> all_chars (not_char "%") ip = true ->
  parse6 ip = (gs ← groups_of true (split_on ":" rest);
               if (length gs <=? 6)%nat then Some (replicate (7 - length gs) 0 ++ 65535 :: gs) else None).
Proof.
  intros (ffff & -> & Hf & Hg)%after_mapped_shape Hz. unfold parse6. rewrite (without_zone_none _ Hz). cbn [mbind option_bind].
  rewrite split_elision_head.
  change (side_of false "") with (Some ([] : list Z)). cbn [mbind option_bind].
  unfold side_of. destruct (String.eqb_spec (ffff +:+ ":" +:+ rest) "") as [E|_]; [by destruct ffff|].
  change (":" +:+ rest) with (String ":" rest). rewrite split_on_part by done.
  rewrite groups_of_cons by apply split_on_nonempty. rewrite Hg. cbn [mbind option_bind].
  destruct (groups_of true (split_on ":" rest)) as [gs|]; [|done]. cbn [mbind option_bind length Nat.add app].
  by destruct (length gs <=? 6)%nat eqn:E; cbn [Nat.leb]; rewrite E.
Qed.
Lemma mapped_tail gs h l : (length gs <= 6)%nat ->
  replicate (7 - length gs) 0 ++ 65535 :: gs = [0; 0; 0; 0; 0; 65535; h; l] -> gs = [h; l].
Proof. destruct gs as [|? [|? [|? [|? [|? [|? [|? ?]]]]]]]; cbn; intros Hl E; first [discriminate E | by injection E as -> -> | lia]. Qed.

(** The IPv4 address a text stands for: a dotted one, or an IPv6 address of the
    mapped block, written from [::ffff:] on and without a zone. *)
Definition stands_for (ip : string) (v : Z) : Prop :=
  parse4 ip = Some v \/
  (is_some (after_mapped ip) = true /\ all_chars (not_char "%") ip = true
   /\ parse6 ip = Some [0; 0; 0; 0; 0; 65535; v / 65536; v mod 65536]).

Lemma mapped_unwrap ip v :
  is_some (after_mapped ip) = true -> all_chars (not_char "%") ip = true ->
  parse6 ip = Some [0; 0; 0; 0; 0; 65535; v / 65536; v mod 65536] ->
  exists mapped, unwrapMappedV4 ip = Some mapped /\ parse4 mapped = Some v.
Proof.
  destruct (after_mapped ip) as [rest|] eqn:Ea; [|done]. intros _ Hz. rewrite (parse6_mapped _ _ Ea Hz).
  destruct (groups_of true _) as [gs|] eqn:Eg; [|done]. cbn [mbind option_bind].
  destruct (Nat.leb_spec (length gs) 6) as [Hl|]; [|done]. intros [= ->%mapped_tail]; [|done].
  unfold unwrapMappedV4. rewrite Ea. cbn [mbind option_bind].
  apply groups_two in Eg as [(p & v' & E & Hp & Hh & Hlo)|(p & q & E & Hp & Hq)].
  - assert (v' = v) as -> by (rewrite (Z_div_mod_eq_full v' 65536), (Z_div_mod_eq_full v 65536); lia).
    apply split_on_one in E as ->. destruct (parse4_parts _ _ Hp) as [-> ->]. by exists p.
  - destruct (_ && forallb is_octet_text _) eqn:Ed.
    + exfalso. apply andb_true_iff in Ed as [_ Ed%octet_parts_chars].
      rewrite split_on_whole in E; [done|]. revert Ed. apply all_chars_impl. intros c Hc. by apply dot_or_digit_not.
    + rewrite E, Hp, Hq. cbn [mbind option_bind]. eexists. split; [done|].
      rewrite dotted_groups by (by eapply group_of_range). f_equal. rewrite (Z_div_mod_eq_full v 65536) at 3. lia.
Qed.
Lemma classify_parse4 f ip v : parse4 ip = Some v -> category (classify_with f ip) = category_of v.
Proof.
  intros H. unfold classify_with. rewrite (parse4_isIP _ _ H), (ipv4ToInt_parse4 _ _ H). cbn [Z.eqb Pos.eqb negb].
  by apply classify_v4_category, (parse4_range _ _ H).
Qed.
Lemma stands_for_category ip v : stands_for ip v -> category (classifyAddress ip) = category_of v.
Proof.
  intros [H|(Ha & Hz & H6)]; [by apply classify_parse4|]. rewrite classifyAddress_again.
  destruct (mapped_unwrap _ _ Ha Hz H6) as (mapped & Hu & Hp). unfold classify_with.
  assert (isIP ip =? 6 = true) as ->.
  { unfold isIP. destruct (parse4 ip) as [w|] eqn:E4; [|by rewrite H6].
    apply (parse4_free _ _ ":"%char) in E4; [|done]. apply parse6_colon in E4. congruence. }
  rewrite Hu. by apply classify_parse4.
Qed.

(** ** Bit strings *)

Lemma bits_of_length n v : length (bits_of n v) = n.
Proof. revert v. induction n as [|n IH]; intros v; [done|]. cbn [bits_of]. rewrite length_app, IH. cbn. lia. Qed.
Lemma bits_of_app n m v : bits_of (n + m) v = bits_of n (v / 2 ^ Z.of_nat m) ++ bits_of m v.
Proof.
  revert v. induction m as [|m IH]; intros v.
  - rewrite Nat.add_0_r, Z.div_1_r. by rewrite app_nil_r.
  - rewrite Nat.add_succ_r. cbn [bits_of]. rewrite IH, app_assoc. do 3 f_equal.
    rewrite Nat2Z.inj_succ, Z.pow_succ_r, Z.div_div by lia. done.
Qed.
Lemma bits_of_low n a b : bits_of n (a * 2 ^ Z.of_nat n + b) = bits_of n b.
Proof.
  revert b. induction n as [|n IH]; intros b; [done|]. cbn [bits_of].
  rewrite Nat2Z.inj_succ, Z.pow_succ_r by lia.
  replace (a * (2 * 2 ^ Z.of_nat n) + b) with (b + (a * 2 ^ Z.of_nat n) * 2) by lia.
  rewrite Z.div_add by lia. rewrite (Z.add_comm (b / 2)), IH. f_equal.
  by rewrite Z.odd_add, Z.odd_mul, andb_false_r, xorb_false_r.
Qed.
Lemma bits_of_inj n x y : 0 <= x < 2 ^ Z.of_nat n -> 0 <= y < 2 ^ Z.of_nat n -> bits_of n x = bits_of n y -> x = y.
Proof.
  revert x y. induction n as [|n IH]; intros x y; [cbn; lia|].
  rewrite Nat2Z.inj_succ, Z.pow_succ_r by lia. cbn [bits_of]. intros Hx Hy [E Eo]%app_inj_tail.
  apply IH in E; [|Z.to_euclidean_division_equations; lia|Z.to_euclidean_division_equations; lia].
  rewrite (Z.div2_odd x), (Z.div2_odd y), !Z.div2_div, E. by destruct (Z.odd x), (Z.odd y).
Qed.
Lemma padded_octet a : 0 <= a <= 255 -> padded 8 (Some a) = bits_of 8 a.
Proof.
  intros Ha. unfold padded. rewrite Nat.max_l; [done|].
  destruct (decide (a = 0)) as [->|]; [cbn; lia|]. assert (Z.log2 a < 8) by (apply Z.log2_lt_pow2; lia). lia.
Qed.
(** Four octets side by side are the number's 32 bits. *)
Lemma toBits_parse4 text v : parse4 text = Some v -> toBits text = bits_of 32 v.
Proof.
  intros H. unfold toBits. rewrite (parse4_isIP _ _ H). cbn [Z.eqb Pos.eqb].
  apply parse4_octets in H as (a & b & c & d & (pa & pb & pc & pd & E & Ha & Hb & Hc & Hd) & ->). rewrite E.
  apply octet_of_text in Ha as (_ & <- & Ha), Hb as (_ & <- & Hb), Hc as (_ & <- & Hc), Hd as (_ & <- & Hd).
  cbn [fmap list_fmap concat]. rewrite !padded_octet by lia.
  generalize dependent (decimal pa). generalize dependent (decimal pb). generalize dependent (decimal pc). generalize dependent (decimal pd).
  intros d Hd c Hc b Hb a Ha. rewrite app_nil_r.
  assert (forall n x y, 0 <= y <= 255 -> bits_of (n + 8) (x * 256 + y) = bits_of n x ++ bits_of 8 y) as step.
  { intros n x y Hy. rewrite bits_of_app. change (2 ^ Z.of_nat 8) with 256. f_equal.
    - rewrite Z.add_comm, Z.div_add by lia. by rewrite (Z.div_small y) by lia.
    - apply (bits_of_low 8 x y). }
  change 32%nat with (24 + 8)%nat. rewrite step by done. change 24%nat with (16 + 8)%nat. rewrite step by done.
  change 16%nat with (8 + 8)%nat. rewrite step by done. by rewrite <- !app_assoc.
Qed.
(** The first bits of an IPv4 address are its network's. *)
Lemma take_bits v bits : 0 <= v < W -> 0 <= bits <= 32 -> take (Z.to_nat bits) (bits_of 32 v) = bits_of (Z.to_nat bits) (network v bits).
Proof.
  intros Hv Hb. replace 32%nat with (Z.to_nat bits + Z.to_nat (32 - bits))%nat by lia. rewrite bits_of_app.
  rewrite take_app_length' by by rewrite bits_of_length. unfold network. by rewrite Z2Nat.id by lia.
Qed.
Lemma network_range v bits : 0 <= v < W -> 0 <= bits <= 32 -> 0 <= network v bits < 2 ^ Z.of_nat (Z.to_nat bits).
Proof.
  intros Hv Hb. unfold network. assert (0 < 2 ^ (32 - bits)) by (apply Z.pow_pos_nonneg; lia).
  split; [apply Z.div_pos; lia|]. rewrite Z2Nat.id by lia. apply Z.div_lt_upper_bound; [done|].
  rewrite <- Z.pow_add_r by lia. replace (32 - bits + bits) with 32 by lia. unfold W in Hv. lia.
Qed.
Lemma withinCidr_network address c x y : parse4 address = Some x -> parse4 (c_address c) = Some y -> 0 <= c_bits c <= 32 ->
  withinCidr address c = (network x (c_bits c) =? network y (c_bits c)).
Proof.
  intros Hx Hy Hb. unfold withinCidr. rewrite (parse4_isIP _ _ Hx), (parse4_isIP _ _ Hy). cbn [Z.eqb Pos.eqb negb].
  pose proof (parse4_range _ _ Hx) as Rx. pose proof (parse4_range _ _ Hy) as Ry.
  destruct (Z.eqb_spec (c_bits c) 0) as [->|Hne].
  - unfold network. change (2 ^ (32 - 0)) with W. by rewrite !Z.div_small.
  - rewrite (toBits_parse4 _ _ Hx), (toBits_parse4 _ _ Hy), !take_bits by done.
    apply Bool.eq_true_iff_eq. rewrite bool_decide_eq_true, Z.eqb_eq. split; [|by intros ->].
    apply bits_of_inj; by apply network_range.
Qed.
Lemma written_cidr base bits y : parse4 base = Some y -> 0 <= bits < 256 ->
  split_on "/" (base +:+ "/" +:+ show bits) = [base; show bits].
Proof.
  intros Hb Hn. change ("/" +:+ show bits) with (String "/" (show bits)).
  rewrite split_on_part by (by eapply parse4_free). f_equal. apply split_on_whole, show_octet, Hn.
Qed.

(** The two ways of testing a prefix agree. For IPv4 addresses, the masks
    of [inCidr], in JavaScript's signed 32-bit arithmetic, and the bit strings
    of [withinCidr] both say exactly that the two addresses are in one network
    of that prefix length, at every length from 0 to 32. *)
Theorem cidr_tests_agree (address base : string) (x y bits : Z) :
  parse4 address = Some x -> parse4 base = Some y -> 0 <= bits <= 32 ->
  inCidr x (base +:+ "/" +:+ show bits) = (network x bits =? network y bits)
  /\ withinCidr address {| c_address := base; c_bits := bits |} = (network x bits =? network y bits).
Proof.
  intros Hx Hy Hb. split; [|by apply withinCidr_network].
  apply (inCidr_network _ _ base (show bits)); [|by apply ipv4ToInt_parse4| |by eapply parse4_range..|done].
  - eapply written_cidr; [done|lia].
  - apply show_octet. lia.
Qed.
Lemma cidr_tests_agree_witness :
  inCidr (quad 10 63 2 1) ("10.32.0.0" +:+ "/" +:+ show 11) = true
  /\ withinCidr "10.64.2.1" {| c_address := "10.32.0.0"; c_bits := 11 |} = false.
Proof.
  split.
  - rewrite (proj1 (cidr_tests_agree "10.63.2.1" "10.32.0.0" (quad 10 63 2 1) (quad 10 32 0 0) 11
      ltac:(by vm_compute) ltac:(by vm_compute) ltac:(lia))). by vm_compute.
  - rewrite (proj2 (cidr_tests_agree "10.64.2.1" "10.32.0.0" (quad 10 64 2 1) (quad 10 32 0 0) 11
      ltac:(by vm_compute) ltac:(by vm_compute) ltac:(lia))). by vm_compute.
Defined.

(** ** The guard *)

Lemma all_pass_forall {A} (f : A -> string + unit) xs : all_pass f xs = inr tt <-> forall x, x ∈ xs -> f x = inr tt.
Proof.
  induction xs as [|x xs IH]; cbn [all_pass].
  - split; [intros _ y Hy; by apply elem_of_nil in Hy|done].
  - destruct (f x) as [e|[]] eqn:E.
    + split; [done|]. intros H. rewrite <- E. apply H. by left.
    + rewrite IH. split; [intros H y [->|Hy]%elem_of_cons; [done|by apply H]|intros H y Hy; apply H; by right].
Qed.

(** What a host of a connection string makes the driver dial, as far as it is
    known when the guard runs: the literal it is, what its name resolves to, or
    what the names its service record lists resolve to. *)
Inductive dials (lookup resolveSrv : string -> option (list string)) (isSrv : bool) (hostPort : string) : string -> Prop :=
| dials_literal : isIP (host_of hostPort) <> 0 -> dials lookup resolveSrv isSrv hostPort (host_of hostPort)
| dials_name addresses address :
    host_of hostPort <> "" -> isIP (host_of hostPort) = 0 ->
    (isSrv = true -> default [] (resolveSrv ("_mongodb._tcp." +:+ host_of hostPort)) = []) ->
    lookup (host_of hostPort) = Some addresses -> address ∈ addresses -> dials lookup resolveSrv isSrv hostPort address
| dials_service targets target addresses address :
    isIP (host_of hostPort) = 0 -> host_of hostPort <> "" -> isSrv = true ->
    resolveSrv ("_mongodb._tcp." +:+ host_of hostPort) = Some targets -> target ∈ targets ->
    lookup target = Some addresses -> address ∈ addresses -> dials lookup resolveSrv isSrv hostPort address.

(** What each route accepts of an address. *)
Definition direct_permits (allow : bool) (address : string) : Prop :=
  category (classifyAddress address) = PUBLIC \/ category (classifyAddress address) = PRIVATE /\ allow = true.
Definition tunnel_permits (cidrs : list Cidr) (address : string) : Prop :=
  category (classifyAddress address) <> FORBIDDEN /\ exists c, c ∈ cidrs /\ withinCidr address c = true.

Lemma assertAddress_permits host ip options : assertAddress host ip options = inr tt <-> direct_permits (allowPrivate options) ip.
Proof. unfold assertAddress, direct_permits. destruct (category _), (allowPrivate options); naive_solver. Qed.
Lemma assertDialable_permits address cidrs : assertDialableThroughTunnel address cidrs = inr tt <-> tunnel_permits cidrs address.
Proof.
  unfold assertDialableThroughTunnel, tunnel_permits.
  assert (existsb (withinCidr address) cidrs = true <-> exists c, c ∈ cidrs /\ withinCidr address c = true) as Hc.
  { rewrite existsb_exists. by setoid_rewrite list_elem_of_In. }
  destruct (category _); destruct (existsb _ _); naive_solver.
Qed.
Lemma assertHostname_permits lookup host options : assertHostname lookup host options = inr tt <->
  forall addresses address, lookup host = Some addresses -> address ∈ addresses -> direct_permits (allowPrivate options) address.
Proof.
  unfold assertHostname. destruct (lookup host) as [xs|]; [|naive_solver]. rewrite all_pass_forall.
  setoid_rewrite assertAddress_permits. naive_solver.
Qed.
Lemma assert_target_permits lookup resolveSrv isSrv options hostPort :
  assert_target lookup resolveSrv isSrv options hostPort = inr tt <->
  forall address, dials lookup resolveSrv isSrv hostPort address -> direct_permits (allowPrivate options) address.
Proof.
  unfold assert_target. destruct (String.eqb_spec (host_of hostPort) "") as [E|E].
  - split; [|done]. intros _ address []; [|done..]. rewrite E in *. done.
  - destruct (Z.eqb_spec (isIP (host_of hostPort)) 0) as [Ei|Ei]; cbn [negb].
    + set (ts := if isSrv then _ else _). assert (Hd : forall address, dials lookup resolveSrv isSrv hostPort address <->
        exists t xs, t ∈ match ts with [] => [host_of hostPort] | _ => ts end /\ lookup t = Some xs /\ address ∈ xs).
      { intros address. subst ts. split.
        - intros []; [done|..].
          + exists (host_of hostPort), addresses. split; [|done]. destruct isSrv; [rewrite H1 by done|]; by left.
          + subst isSrv. rewrite H2. cbn [default from_option id]. destruct targets; [by apply elem_of_nil in H3|]. by exists target, addresses.
        - intros (t & xs & Ht & Hl & Hx). destruct isSrv.
          + destruct (resolveSrv _) as [[|u us]|] eqn:Er; cbn [default from_option id] in Ht.
            * apply list_elem_of_singleton in Ht as ->. by eapply dials_name; [..|by rewrite Er|done|done].
            * by eapply dials_service.
            * apply list_elem_of_singleton in Ht as ->. by eapply dials_name; [..|by rewrite Er|done|done].
          + apply list_elem_of_singleton in Ht as ->. by eapply dials_name. }
      setoid_rewrite Hd. clear Hd. destruct ts as [|u us].
      * rewrite assertHostname_permits. split; [intros H address (t & xs & ->%list_elem_of_singleton & Hl & Hx); by eapply H|].
        intros H xs address Hl Hx. apply H. exists (host_of hostPort), xs. split; [by left|done].
      * rewrite all_pass_forall. setoid_rewrite assertHostname_permits. naive_solver.
    + rewrite assertAddress_permits. cbn. split; [|intros H; by apply H, dials_literal]. intros H address []; done.
Qed.
Lemma assert_tunnel_target_permits route cidrs hostPort :
  assert_tunnel_target route cidrs hostPort = inr tt <->
  forall address, dials (resolve route) (fun _ => None) false hostPort address -> tunnel_permits cidrs address.
Proof.
  unfold assert_tunnel_target. destruct (String.eqb_spec (host_of hostPort) "") as [E|E].
  - split; [|done]. intros _ address []; [|done..]. rewrite E in *. done.
  - destruct (Z.eqb_spec (isIP (host_of hostPort)) 0) as [Ei|Ei]; cbn [negb].
    + destruct (resolve route (host_of hostPort)) as [xs|] eqn:Er.
      * rewrite all_pass_forall. setoid_rewrite assertDialable_permits. split.
        -- intros H address []; [done| |done]. apply H. congruence.
        -- intros H address Hx. apply H. by eapply dials_name.
      * split; [|done]. intros _ address []; [done|congruence|done].
    + rewrite assertDialable_permits. split; [intros H address []; done|intros H; by apply H, dials_literal].
Qed.

(** Which addresses the hosts of a connection string make the driver dial, by a route. *)
Definition dials_by (lookup resolveSrv : string -> option (list string)) (isSrv : bool) (route : DialRoute)
    (hostPort address : string) : Prop :=
  match route with
  | direct _ => dials lookup resolveSrv isSrv hostPort address
  | tunnel route => dials (resolve route) (fun _ => None) false hostPort address
  end.
Definition permits (number : string -> option Z) (route : DialRoute) (address : string) : Prop :=
  match route with
  | direct allow => direct_permits allow address
  | tunnel route => exists cidrs, parse_all number (allowedIps route) = inr cidrs /\ tunnel_permits cidrs address
  end.
(** The list of a tunnel parses. *)
Definition route_parses (number : string -> option Z) (route : DialRoute) : Prop :=
  match route with
  | direct _ => True
  | tunnel route => exists cidrs, parse_all number (allowedIps route) = inr cidrs
  end.

(** The guard, by its own reading of texts: it lets a connection string through exactly when every address
    it makes the driver dial is one its route permits. Every one of them counts:
    the literals, all the answers a name resolves to, and all those of each name
    a service record lists. By the direct route it permits what is public, and
    what is private where the deployment allows it; through a tunnel, what is not
    forbidden and inside one of the tunnel's networks, once the whole list of
    networks parses. *)
Theorem dial_guard_exact (lookup resolveSrv : string -> option (list string)) (number : string -> option Z)
    (hosts : list string) (isSrv : bool) (route : DialRoute) :
  assertDialTargetsAllowed lookup resolveSrv number hosts isSrv route = inr tt <->
  route_parses number route
  /\ forall hostPort address, hostPort ∈ hosts -> dials_by lookup resolveSrv isSrv route hostPort address ->
     permits number route address.
Proof.
  destruct route as [allow|route]; cbn [assertDialTargetsAllowed route_parses dials_by permits].
  - unfold assertTargetsAllowed. rewrite all_pass_forall. setoid_rewrite assert_target_permits. naive_solver.
  - unfold assertTunnelHostsAllowed. destruct (parse_all number (allowedIps route)) as [e|cidrs]; [naive_solver|].
    rewrite all_pass_forall. setoid_rewrite assert_tunnel_target_permits. naive_solver.
Qed.

(** ** The guard, by the numbers *)

(** An address, by its number: an IPv4 one, or that one as an IPv6 address of the
    mapped block; how each is written; and a host of a connection string, a literal
    address or a name, with the port there may be after it. *)
Inductive Address := Dotted (v : Z) | Mapped (v : Z).
Definition number_of (a : Address) : Z := match a with Dotted v | Mapped v => v end.
Definition dotted (v : Z) : string :=
  show (v / 2 ^ 24) +:+ "." +:+ show (v / 2 ^ 16 mod 256) +:+ "." +:+ show (v / 2 ^ 8 mod 256) +:+ "." +:+ show (v mod 256).
Definition address_text (a : Address) : string := match a with Dotted v => dotted v | Mapped v => "::ffff:" +:+ dotted v end.
Inductive HostName := Literal (a : Address) | Named (n : string).
Definition host_text (host : HostName * option string) : string :=
  match fst host with
  | Literal (Dotted v) => dotted v
  | Literal (Mapped v) => "[" +:+ address_text (Mapped v) +:+ "]"
  | Named n => n
  end +:+ (if snd host is Some port then ":" +:+ port else "").
(** A name is none of an address: it has no colon and no bracket, and something
    besides digits and dots. *)
Definition host_ok (host : HostName) : Prop :=
  match host with
  | Literal a => 0 <= number_of a < 2 ^ 32
  | Named n => all_chars (fun c => negb (is_char ":" c) && negb (is_char "[" c)) n = true /\ all_chars dot_or_digit n = false
  end.

(** A resolver that answers addresses, and as the guard is given it. *)
Definition Resolver : Type := string -> option (list Address).
Definition resolver_ok (dns : Resolver) : Prop := forall n answers a, dns n = Some answers -> a ∈ answers -> 0 <= number_of a < 2 ^ 32.
Definition resolver_texts (dns : Resolver) (n : string) : option (list string) :=
  match dns n with Some answers => Some (address_text <$> answers) | None => None end.
(** A way of dialling: directly, or through a tunnel that carries the networks given
    by an address and a prefix length, and that resolves names at its other end. *)
Inductive Way := Directly (allow : bool) | Through (networks : list (Z * Z)) (peer : Resolver).
Definition way_ok (way : Way) : Prop :=
  match way with
  | Directly _ => True
  | Through networks peer => resolver_ok peer /\ forall base bits, (base, bits) ∈ networks -> 0 <= base < 2 ^ 32 /\ 0 <= bits <= 32
  end.
Definition network_text (n : Z * Z) : string := dotted (fst n) +:+ "/" +:+ show (snd n).
Definition way_route (way : Way) : DialRoute :=
  match way with
  | Directly allow => direct allow
  | Through networks peer => tunnel {| allowedIps := network_text <$> networks; resolve := resolver_texts peer |}
  end.

(** The addresses a host may have the driver dial. Directly: the literal, or all a
    name resolves to, or, of a name that is a service's, all that each name its record
    lists resolves to. Through a tunnel no service record is looked up. *)
Inductive dialled (dns : Resolver) (resolveSrv : string -> option (list string)) (isSrv : bool) : Way -> HostName -> Address -> Prop :=
  | dialled_literal way a : dialled dns resolveSrv isSrv way (Literal a) a
  | dialled_directly allow n answers a :
      (isSrv = true -> default [] (resolveSrv ("_mongodb._tcp." +:+ n)) = []) -> dns n = Some answers -> a ∈ answers ->
      dialled dns resolveSrv isSrv (Directly allow) (Named n) a
  | dialled_service allow n targets t answers a :
      isSrv = true -> resolveSrv ("_mongodb._tcp." +:+ n) = Some targets -> t ∈ targets -> dns t = Some answers -> a ∈ answers ->
      dialled dns resolveSrv isSrv (Directly allow) (Named n) a
  | dialled_through networks peer n answers a :
      peer n = Some answers -> a ∈ answers -> dialled dns resolveSrv isSrv (Through networks peer) (Named n) a.
(** What may be dialled: directly, an address of no special block, or of a private one
    where private targets are allowed; through a tunnel, a dotted address of no
    forbidden block that shares its leading bits with one of the networks. *)
Definition may_dial (way : Way) (a : Address) : Prop :=
  match way with
  | Directly allow => forall b, b ∈ special_blocks -> holds (number_of a) b = true -> b_category b = PRIVATE /\ allow = true
  | Through networks _ =>
      (forall b, b ∈ special_blocks -> holds (number_of a) b = true -> b_category b <> FORBIDDEN) /\
      exists v base bits, a = Dotted v /\ (base, bits) ∈ networks /\ v / 2 ^ (32 - bits) = base / 2 ^ (32 - bits)
  end.

Lemma parse4_number v : 0 <= v < 2 ^ 32 -> parse4 (dotted v) = Some v.
Proof.
  intros Hv. unfold dotted. rewrite parse4_dotted; [f_equal|..]; change (2 ^ 24) with 16777216; change (2 ^ 16) with 65536; change (2 ^ 8) with 256;
    change (2 ^ 32) with 4294967296 in Hv; Z.to_euclidean_division_equations; lia.
Qed.
Lemma dotted_group v : 0 <= v < 2 ^ 32 -> group_of (dotted v) = None.
Proof.
  intros Hv%parse4_number. destruct (group_of (dotted v)) as [g|] eqn:E; [|done]. exfalso. unfold group_of in E.
  destruct (all_chars is_hex (dotted v)) eqn:Eh; [|by rewrite orb_true_r in E]. destruct (parse4_parts _ _ Hv) as [Hl _].
  rewrite split_on_whole in Hl; [done|]. revert Eh. apply all_chars_impl. intros c Hc. apply negb_true_iff. apply not_true_iff_false.
  intros Ed%String.eqb_eq. injection Ed as ->. by vm_compute in Hc.
Qed.
Lemma mapped_after v : after_mapped ("::ffff:" +:+ dotted v) = Some (dotted v).
Proof.
  unfold after_mapped. change (toLowerCase ("::ffff:" +:+ dotted v)) with ("::ffff:" +:+ toLowerCase (dotted v)).
  assert (forall x, String.prefix "::ffff:" ("::ffff:" +:+ x) = true) as -> by by intros []. done.
Qed.
Lemma mapped_groups v : 0 <= v < 2 ^ 32 -> parse6 ("::ffff:" +:+ dotted v) = Some [0; 0; 0; 0; 0; 65535; v / 65536; v mod 65536].
Proof.
  intros Hv. pose proof (parse4_number v Hv) as Hp. rewrite (parse6_mapped _ _ (mapped_after v)).
  - rewrite split_on_whole by (by eapply (parse4_free _ _ ":"%char)). cbn [groups_of]. by rewrite dotted_group, Hp.
  - rewrite all_chars_app. apply andb_true_iff. split; [done|]. by eapply (parse4_free _ _ "%"%char).
Qed.
Lemma address_stands a : 0 <= number_of a < 2 ^ 32 -> stands_for (address_text a) (number_of a).
Proof.
  destruct a as [v|v]; intros Hv; [left; by apply parse4_number|right]. cbn [address_text number_of]. split_and!.
  - by rewrite mapped_after.
  - rewrite all_chars_app. apply andb_true_iff. split; [done|]. eapply (parse4_free _ _ "%"%char); [by apply parse4_number|done].
  - by apply mapped_groups.
Qed.
Lemma address_category a : 0 <= number_of a < 2 ^ 32 -> category (classifyAddress (address_text a)) = category_of (number_of a).
Proof. intros Ha. by apply stands_for_category, address_stands. Qed.
Lemma address_isIP a : 0 <= number_of a < 2 ^ 32 -> isIP (address_text a) = if a is Dotted _ then 4 else 6.
Proof.
  destruct a as [v|v]; intros Hv; [by apply parse4_isIP with v, parse4_number|]. cbn [address_text]. unfold isIP.
  destruct (parse4 ("::ffff:" +:+ dotted v)) as [w|] eqn:E; [by apply (parse4_free _ _ ":"%char) in E|]. by rewrite mapped_groups.
Qed.

Lemma host_of_plain x port : all_chars (fun c => negb (is_char ":" c) && negb (is_char "[" c)) x = true ->
  host_of (x +:+ (if port is Some port then ":" +:+ port else "")) = x.
Proof.
  intros Hx. assert (all_chars (not_char ":") x = true) as Hc by (revert Hx; apply all_chars_impl; intros c; by rewrite andb_true_iff; intros []).
  unfold host_of. assert (default (x +:+ (if port is Some port then ":" +:+ port else "")) (head (split_on ":" (x +:+ (if port is Some port then ":" +:+ port else "")))) = x) as ->.
  { destruct port as [port|].
    - change (":" +:+ port) with (String ":" port). by rewrite split_on_part.
    - rewrite append_empty_r. by rewrite split_on_whole. }
  destruct x as [|c x].
  - by destruct port as [port|].
  - change (String c x +:+ ?y) with (String c (x +:+ y)). cbn iota. cbn [all_chars] in Hx. rewrite !andb_true_iff, !negb_true_iff in Hx.
    by destruct Hx as [[_ ->] _].
Qed.
Lemma until_bracket_app x rest : all_chars (not_char "]") x = true -> until_bracket (x +:+ String "]" rest) = Some x.
Proof.
  induction x as [|c x IH]; [done|]. change (String c x +:+ ?y) with (String c (x +:+ y)). cbn [until_bracket all_chars]. rewrite andb_true_iff, negb_true_iff.
  intros [-> H]. by rewrite IH.
Qed.
Lemma dotted_plain v : 0 <= v < 2 ^ 32 -> all_chars (fun c => negb (is_char ":" c) && negb (is_char "[" c)) (dotted v) = true.
Proof.
  intros Hv%parse4_number%parse4_parts. destruct Hv as [_ Hv]. apply octet_parts_chars in Hv. revert Hv. apply all_chars_impl.
  intros c Hc. rewrite !(dot_or_digit_not c) by done. done.
Qed.
Definition host_address (h : HostName) : string := match h with Literal a => address_text a | Named n => n end.
Lemma host_of_text h port : host_ok h -> host_of (host_text (h, port)) = host_address h.
Proof.
  unfold host_text, host_address. cbn [fst snd]. destruct h as [[v|v]|n]; cbn [host_ok number_of].
  - intros Hv. by apply host_of_plain, dotted_plain.
  - intros Hv. unfold host_of. rewrite !append_assoc_text. change ("[" +:+ ?x) with (String "[" x). cbn iota.
    change (is_char "[" "[") with true. cbn iota. change ("]" +:+ ?x) with (String "]" x).
    rewrite until_bracket_app; [done|]. cbn [address_text]. rewrite all_chars_app. apply andb_true_iff. split; [done|].
    eapply (parse4_free _ _ "]"%char); [by apply parse4_number|done].
  - intros [Hn _]. by apply host_of_plain.
Qed.
Lemma named_isIP n : host_ok (Named n) -> isIP n = 0 /\ n <> "".
Proof.
  intros [Hn Hd]. split; [|by intros ->]. unfold isIP. destruct (parse4 n) as [v|] eqn:E.
  - apply parse4_parts in E as [_ E%octet_parts_chars]. congruence.
  - rewrite parse6_colon; [done|]. revert Hn. apply all_chars_impl. intros c. by rewrite andb_true_iff; intros [].
Qed.
Lemma literal_isIP a : 0 <= number_of a < 2 ^ 32 -> isIP (address_text a) <> 0 /\ address_text a <> "".
Proof. intros Ha. rewrite (address_isIP a Ha). split; [by destruct a|]. intros E. pose proof (address_isIP a Ha) as H. rewrite E in H. by destruct a. Qed.

Lemma parse_networks (number : string -> option Z) (networks : list (Z * Z)) :
  (forall bits, 0 <= bits <= 32 -> number (show bits) = Some bits) ->
  (forall base bits, (base, bits) ∈ networks -> 0 <= base < 2 ^ 32 /\ 0 <= bits <= 32) ->
  parse_all number (network_text <$> networks) = inr ((fun n => {| c_address := dotted (fst n); c_bits := snd n |}) <$> networks).
Proof.
  intros Hn. induction networks as [|[base bits] networks IH]; intros Hok; [done|].
  destruct (Hok base bits) as [Hb Hbits]; [by left|]. pose proof (parse4_number base Hb) as Hp. rewrite !fmap_cons. cbn [parse_all].
  unfold parseCidr. change (network_text (base, bits)) with (dotted base +:+ "/" +:+ show bits). rewrite (written_cidr _ _ _ Hp) by lia. cbn [head from_option id].
  rewrite (parse4_isIP _ _ Hp). cbn [Z.eqb Pos.eqb]. rewrite Hn by done.
  destruct (Z.ltb_spec bits 0); [lia|]. destruct (Z.ltb_spec 32 bits); [lia|]. cbn [orb].
  rewrite IH; [done|].
  intros b n Hin. apply Hok. by right.
Qed.

Lemma directly_permits allow a : 0 <= number_of a < 2 ^ 32 ->
  direct_permits allow (address_text a) <-> may_dial (Directly allow) a.
Proof.
  intros Ha. unfold direct_permits. rewrite (address_category a Ha). cbn [may_dial]. unfold category_of. destruct (List.find _ _) as [b|] eqn:E.
  - apply find_some in E as [Hin%list_elem_of_In Hh]. cbn [from_option]. split.
    + intros Hp b' Hin' Hh'. rewrite <- (block_unique _ _ _ Hin Hin' Hh Hh'). destruct Hp as [Hp|[Hp ->]]; [|done].
      exfalso. revert Hin Hp. clear. intros Hin. repeat (apply elem_of_cons in Hin as [->|Hin]; [done|]). by apply elem_of_nil in Hin.
    + intros H. right. by apply H.
  - cbn [from_option]. split; [|by left]. intros _ b Hin Hh. exfalso. apply list_elem_of_In in Hin. pose proof (find_none _ _ E b Hin). congruence.
Qed.
Lemma through_permits networks peer a : 0 <= number_of a < 2 ^ 32 -> way_ok (Through networks peer) ->
  tunnel_permits ((fun n => {| c_address := dotted (fst n); c_bits := snd n |}) <$> networks) (address_text a) <-> may_dial (Through networks peer) a.
Proof.
  intros Ha [_ Hok]. unfold tunnel_permits. rewrite (address_category a Ha). cbn [may_dial]. apply Morphisms_Prop.and_iff_morphism.
  - unfold category_of. destruct (List.find _ _) as [b|] eqn:E; cbn [from_option].
    + apply find_some in E as [Hin%list_elem_of_In Hh]. split; [|naive_solver]. intros Hc b' Hin' Hh'. by rewrite <- (block_unique _ _ _ Hin Hin' Hh Hh').
    + split; [|done]. intros _ b Hin Hh. exfalso. apply list_elem_of_In in Hin. pose proof (find_none _ _ E b Hin). congruence.
  - split.
    + intros (c & ([base bits] & -> & Hin)%list_elem_of_fmap & Hw). destruct (Hok _ _ Hin) as [Hb Hbits]. cbn [fst snd] in Hw.
      destruct a as [v|v].
      * exists v, base, bits. split_and!; [done|done|]. rewrite (withinCidr_network _ _ v base) in Hw; [by apply Z.eqb_eq in Hw|by apply parse4_number|by apply parse4_number|done].
      * unfold withinCidr in Hw. cbn [c_address] in Hw. rewrite (address_isIP (Mapped v) Ha), (parse4_isIP _ _ (parse4_number base Hb)) in Hw. done.
    + intros (v & base & bits & -> & Hin & Hv). destruct (Hok _ _ Hin) as [Hb Hbits]. exists {| c_address := dotted base; c_bits := bits |}.
      split; [apply list_elem_of_fmap; by exists (base, bits)|]. cbn [address_text]. rewrite (withinCidr_network _ _ v base); [by apply Z.eqb_eq|by apply parse4_number|by apply parse4_number|done].
Qed.

Lemma way_parses number way : (forall bits, 0 <= bits <= 32 -> number (show bits) = Some bits) -> way_ok way -> route_parses number (way_route way).
Proof.
  intros Hn. destruct way as [allow|networks peer]; [done|]. intros [_ Hok]. cbn [way_route route_parses allowedIps].
  rewrite parse_networks by done. by eexists.
Qed.
Lemma way_permits number way a : (forall bits, 0 <= bits <= 32 -> number (show bits) = Some bits) -> 0 <= number_of a < 2 ^ 32 -> way_ok way ->
  permits number (way_route way) (address_text a) <-> may_dial way a.
Proof.
  intros Hn Ha Hway. destruct way as [allow|networks peer]; [by apply directly_permits|]. cbn [way_route permits allowedIps].
  rewrite <- through_permits by done. destruct Hway as [_ Hok]. rewrite parse_networks by done. naive_solver.
Qed.
Lemma dialled_range dns resolveSrv isSrv way host a : host_ok host -> resolver_ok dns -> way_ok way ->
  dialled dns resolveSrv isSrv way host a -> 0 <= number_of a < 2 ^ 32.
Proof. intros Hh Hd Hw H. destruct H; [done|by eapply Hd..|]. destruct Hw as [Hp _]. by eapply Hp. Qed.

Lemma resolver_answers dns n address :
  (exists answers, resolver_texts dns n = Some answers /\ address ∈ answers) <-> exists answers a, dns n = Some answers /\ a ∈ answers /\ address = address_text a.
Proof.
  unfold resolver_texts. destruct (dns n) as [answers|]; [|naive_solver]. split.
  - intros (_ & [= <-] & (a & -> & Ha)%list_elem_of_fmap). by exists answers, a.
  - intros (_ & a & [= <-] & Ha & ->). eexists. split; [done|]. by apply list_elem_of_fmap_2.
Qed.
(** What is dialled, as texts and as numbers. *)
Lemma dialled_text dns resolveSrv isSrv way host port a : host_ok host -> dialled dns resolveSrv isSrv way host a ->
  dials_by (resolver_texts dns) resolveSrv isSrv (way_route way) (host_text (host, port)) (address_text a).
Proof.
  intros Hh Hd. pose proof (host_of_text host port Hh) as Ht. destruct Hd as [way a|allow n answers a Hs Hn Ha|allow n targets t answers a Hi Hs Ht' Hn Ha|networks peer n answers a Hn Ha];
    cbn [host_address] in Ht; cbn [way_route dials_by].
  - destruct (literal_isIP a Hh) as [Hi _]. destruct way as [allow|networks peer]; cbn [way_route dials_by]; rewrite <- Ht; apply dials_literal; by rewrite Ht.
  - destruct (named_isIP n Hh) as [Hi Hne]. destruct (proj2 (resolver_answers dns n (address_text a))) as (texts & E & Hin); [by exists answers, a|].
    eapply dials_name; rewrite ?Ht; done.
  - destruct (named_isIP n Hh) as [Hi' Hne]. destruct (proj2 (resolver_answers dns t (address_text a))) as (texts & E & Hin); [by exists answers, a|].
    eapply dials_service; rewrite ?Ht; done.
  - destruct (named_isIP n Hh) as [Hi Hne]. destruct (proj2 (resolver_answers peer n (address_text a))) as (texts & E & Hin); [by exists answers, a|].
    eapply dials_name; rewrite ?Ht; done.
Qed.
Lemma dials_dialled dns resolveSrv isSrv way host port address : host_ok host ->
  dials_by (resolver_texts dns) resolveSrv isSrv (way_route way) (host_text (host, port)) address ->
  exists a, address = address_text a /\ dialled dns resolveSrv isSrv way host a.
Proof.
  intros Hh Hd. pose proof (host_of_text host port Hh) as Ht. destruct host as [a|n]; cbn [host_address] in Ht.
  - exists a. destruct (literal_isIP a Hh) as [Hi _].
    assert (forall lookup resolveSrv isSrv, dials lookup resolveSrv isSrv (host_text (Literal a, port)) address -> address = address_text a) as Hl.
    { intros lookup rs srv H. destruct H as [H|? ? ? H|? ? ? ? H]; [done|by rewrite Ht in H..]. }
    split; [|constructor]. destruct way as [allow|networks peer]; cbn [way_route dials_by] in Hd; by eapply Hl, Hd.
  - destruct (named_isIP n Hh) as [Hi Hne]. destruct way as [allow|networks peer]; cbn [way_route dials_by] in Hd; destruct Hd as [Hl|texts address _ _ Hs Hl Hin|targets t texts address _ _ His Hs Ht' Hl Hin]; try (by rewrite Ht in Hl); try rewrite Ht in Hs; try rewrite Ht in Hl; try done.
    + destruct (proj1 (resolver_answers dns n address)) as (answers & a & E & Ha & ->); [by exists texts|]. exists a. split; [done|]. by eapply dialled_directly.
    + destruct (proj1 (resolver_answers dns t address)) as (answers & a & E & Ha & ->); [by exists texts|]. exists a. split; [done|]. by eapply dialled_service.
    + destruct (proj1 (resolver_answers peer n address)) as (answers & a & E & Ha & ->); [by exists texts|]. exists a. split; [done|]. by eapply dialled_through.
Qed.

(** C22. What the guard lets a connection string dial, by the numbers. The hosts are
    IPv4 addresses as dotted texts or in brackets from [::ffff:] on, and names, each
    with a port or none; the resolvers answer addresses of those two spellings; a
    tunnel's networks are a dotted address and a prefix length. Then the guard passes
    exactly where every address that may be dialled may be: the literals, all the
    answers of a name, and, directly, all those of each name a service record lists.
    Directly that is an address in none of the special blocks, given by their first
    and last numbers, or one in a private block where private targets are allowed;
    through a tunnel, one written as a dotted text, in no forbidden block, that shares
    its leading bits with one of the networks. A name that does not resolve is let through. Other spellings of
    IPv6 addresses are judged by their spelling and not covered
    ([spelled_out_address_passes]). *)
Theorem dial_guard_numeric (dns : Resolver) (resolveSrv : string -> option (list string)) (number : string -> option Z)
    (hosts : list (HostName * option string)) (isSrv : bool) (way : Way) :
  (forall bits, 0 <= bits <= 32 -> number (show bits) = Some bits) ->
  (forall host port, (host, port) ∈ hosts -> host_ok host) -> resolver_ok dns -> way_ok way ->
  assertDialTargetsAllowed (resolver_texts dns) resolveSrv number (host_text <$> hosts) isSrv (way_route way) = inr tt <->
  forall host port a, (host, port) ∈ hosts -> dialled dns resolveSrv isSrv way host a -> may_dial way a.
Proof.
  intros Hnum Hh Hdns Hway. rewrite (dial_guard_exact _ _ _ _ _ _). split.
  - intros [_ Hp] host port a Hin Hd. pose proof (dialled_range _ _ _ _ _ _ (Hh _ _ Hin) Hdns Hway Hd) as Ha.
    apply (way_permits number way a Hnum Ha Hway), (Hp (host_text (host, port))); [by apply list_elem_of_fmap_2|].
    apply (dialled_text dns resolveSrv isSrv way host port a); eauto.
  - intros Hp. split; [by apply way_parses|]. intros text address ([host port] & -> & Hin)%list_elem_of_fmap Hd.
    destruct (dials_dialled _ _ _ _ _ _ _ (Hh _ _ Hin) Hd) as (a & -> & Ha). apply (way_permits number way a Hnum); [|done|by eapply Hp].
    by eapply dialled_range; eauto.
Qed.

(** A name with a public address, the metadata address in brackets, and a tunnel to one
    private network. *)
Definition example_dns : Resolver := fun n => if String.eqb n "db.example" then Some [Dotted (quad 93 184 216 34)] else None.
Lemma example_dns_ok : resolver_ok example_dns.
Proof. intros n answers a. unfold example_dns. destruct (String.eqb n "db.example"); [|done]. intros [= <-] ->%list_elem_of_singleton. done. Qed.
Lemma example_number bits : 0 <= bits <= 32 -> prefix_length (show bits) = Some bits.
Proof. intros H. apply show_octet. lia. Qed.
Lemma outside_blocks v b (P : Prop) : forallb (fun b => negb (holds v b)) special_blocks = true -> b ∈ special_blocks -> holds v b = true -> P.
Proof. rewrite forallb_forall. intros H Hin%list_elem_of_In Hh. specialize (H b Hin). by rewrite Hh in H. Qed.
Lemma dial_guard_numeric_witness :
  assertDialTargetsAllowed (resolver_texts example_dns) (fun _ => None) prefix_length
    (host_text <$> [(Named "db.example", Some "27017")]) false (way_route (Directly false)) = inr tt /\
  assertDialTargetsAllowed (resolver_texts example_dns) (fun _ => None) prefix_length
    (host_text <$> [(Literal (Mapped (quad 169 254 169 254)), Some "27017")]) false (way_route (Directly true)) <> inr tt /\
  assertDialTargetsAllowed (resolver_texts example_dns) (fun _ => None) prefix_length
    (host_text <$> [(Literal (Dotted (quad 192 168 1 1)), None)]) false (way_route (Through [(quad 10 0 0 0, 8)] example_dns)) <> inr tt.
Proof.
  split_and!.
  - apply (dial_guard_numeric example_dns (fun _ => None) prefix_length [(Named "db.example", Some "27017")] false (Directly false)
      example_number); [intros host port [= -> ->]%list_elem_of_singleton; done|apply example_dns_ok|done|].
    intros host port a [= -> ->]%list_elem_of_singleton Hd. inversion Hd as [|? ? ? ? _ Hn Ha|? ? ? ? ? ? Hs|]; subst; [|done].
    injection Hn as <-. apply list_elem_of_singleton in Ha as ->. intros b. by apply outside_blocks.
  - intros H. eapply (dial_guard_numeric example_dns (fun _ => None) prefix_length [(Literal (Mapped (quad 169 254 169 254)), Some "27017")] false
      (Directly true) example_number) in H; [|intros host port [= -> ->]%list_elem_of_singleton; done|apply example_dns_ok|done|by left|constructor].
    destruct (H {| b_first := quad 169 254 0 0; b_last := quad 169 254 255 255; b_category := FORBIDDEN |}) as [E _]; [by do 6 right; left|done|done].
  - intros H. eapply (dial_guard_numeric example_dns (fun _ => None) prefix_length [(Literal (Dotted (quad 192 168 1 1)), None)] false
      (Through [(quad 10 0 0 0, 8)] example_dns) example_number) in H;
      [|intros host port [= -> ->]%list_elem_of_singleton; done|apply example_dns_ok| |by left|constructor].
    + destruct H as (_ & v & base & bits & [= <-] & [= -> ->]%list_elem_of_singleton & E). by vm_compute in E.
    + split; [apply example_dns_ok|]. by intros base bits [= -> ->]%list_elem_of_singleton.
Defined.

(** What an address is judged to be, as numbers. An IPv4 address, written
    in four octets or as an IPv6 address of the mapped block in either spelling
    that starts with [::ffff:], has the category of the one special block its
    number falls in, and is public when it falls in none; the blocks are apart,
    so the order of the table decides nothing. *)
Theorem address_category_exact (ip : string) (v : Z) : stands_for ip v ->
  (forall b, b ∈ special_blocks -> holds v b = true -> category (classifyAddress ip) = b_category b)
  /\ ((forall b, b ∈ special_blocks -> holds v b = false) -> category (classifyAddress ip) = PUBLIC)
  /\ (forall b b', b ∈ special_blocks -> b' ∈ special_blocks -> holds v b = true -> holds v b' = true -> b = b').
Proof.
  intros H. rewrite (stands_for_category _ _ H). split; [|split].
  - intros b. apply category_of_block.
  - intros Hn. unfold category_of. destruct (List.find _ _) as [b|] eqn:E; [|done].
    apply find_some in E as [Hin Hh]. apply list_elem_of_In in Hin. rewrite Hn in Hh; done.
  - apply block_unique.
Qed.
Lemma address_category_exact_witness :
  category (classifyAddress "::FFFF:a9fe:A9FE") = FORBIDDEN
  /\ category (classifyAddress "::ffff:10.1.2.3") = PRIVATE
  /\ category (classifyAddress "172.32.0.1") = PUBLIC.
Proof.
  split; [|split].
  - refine (proj1 (address_category_exact "::FFFF:a9fe:A9FE" (quad 169 254 169 254) _)
      {| b_first := quad 169 254 0 0; b_last := quad 169 254 255 255; b_category := FORBIDDEN |} _ _);
      [right; by vm_compute|by do 6 right; left|by vm_compute].
  - refine (proj1 (address_category_exact "::ffff:10.1.2.3" (quad 10 1 2 3) _)
      {| b_first := quad 10 0 0 0; b_last := quad 10 255 255 255; b_category := PRIVATE |} _ _);
      [right; by vm_compute|by do 2 right; left|by vm_compute].
  - refine (proj1 (proj2 (address_category_exact "172.32.0.1" (quad 172 32 0 1) _)) _); [left; by vm_compute|].
    apply Forall_forall. by repeat constructor.
Defined.

(** The judgement follows the spelling of an IPv6 address, not the address.
    The metadata address written from [::ffff:] on is refused even where private
    targets are allowed; written with its zeros, or with a zone, it is the same address, is judged
    public, and a connection string that names it passes the direct route of a
    deployment that allows no private target. The loopback address written with
    its zeros passes too. *)
Theorem spelled_out_address_passes (lookup resolveSrv : string -> option (list string)) (number : string -> option Z) :
  Forall (fun text => parse6 text = Some [0; 0; 0; 0; 0; 65535; 169 * 256 + 254; 169 * 256 + 254])
    ["::ffff:169.254.169.254"; "0:0:0:0:0:ffff:a9fe:a9fe"; "::ffff:169.254.169.254%1"]
  /\ Forall (fun text => parse6 text = Some [0; 0; 0; 0; 0; 0; 0; 1]) ["::1"; "0:0:0:0:0:0:0:1"]
  /\ assertDialTargetsAllowed lookup resolveSrv number ["[::ffff:169.254.169.254]:27017"] false (direct true) <> inr tt
  /\ assertDialTargetsAllowed lookup resolveSrv number ["[::1]:27017"] false (direct false) <> inr tt
  /\ assertDialTargetsAllowed lookup resolveSrv number
       ["[0:0:0:0:0:ffff:a9fe:a9fe]:27017"; "[::ffff:169.254.169.254%1]:27017"; "[0:0:0:0:0:0:0:1]:27017"] false (direct false)
     = inr tt.
Proof.
  assert (forall xs (gs : option (list Z)), forallb (fun x => bool_decide (parse6 x = gs)) xs = true ->
    Forall (fun x => parse6 x = gs) xs) as same.
  { intros xs gs H. apply Forall_forall. intros x Hx%list_elem_of_In. rewrite forallb_forall in H. by eapply bool_decide_eq_true, H. }
  split; [apply same; by vm_compute|]. split; [apply same; by vm_compute|].
  split; [by vm_compute|]. split; by vm_compute.
Qed.
