(* ===== verification/Impact.v ===== *)
(** What the overview says of a build and of the footprint: [apps/api/src/analysis/build-impact.ts]
    with the rows it is given ([InsightsRepository.shapesByDigest]), and
    [apps/api/src/analysis/footprint.ts].

    As in [Ledger], the digest of a shape is the shape itself. *)
From S2P Require Import Prelude Relational EngineTypes Classify Ledger.

(** ** The scanning a build was for *)

Definition SCANS_SETTLE_MS : Z := 24 * HOUR_MS.
Definition PASS_SLACK_MS : Z := HOUR_MS.

Record ServedShapesRecord := {
  sv_database : string;
  sv_collection : string;
  sv_builtAt : Z;
  servedShapeDigests : option (list StoredShape);
  baselineWeeklyDocsExamined : option Z;
}.
Record SeenShape := {
  sn_database : string;
  sn_collection : string;
  sn_digest : StoredShape;
  sn_weeklyDocsExamined : option Z;
  sn_lastSeenAt : Z;
}.
Record ScanCount := { sc_shapes : Z; sc_weeklyDocsExamined : Z }.
Record BuildScanReading := { bs_shapes : Z; bs_weeklyDocsExamined : Z; bs_since : option ScanCount }.

(** The rows of a cluster's table with one of the digests. *)
Definition seen_shape (row : ShapeRow) : SeenShape :=
  {| sn_database := ps_database (sr_reading row); sn_collection := ps_collection (sr_reading row);
     sn_digest := ps_shape (sr_reading row); sn_weeklyDocsExamined := ps_weeklyDocsExamined (sr_reading row);
     sn_lastSeenAt := sr_lastSeenAt row |}.
Definition shapesByDigest (table : list ShapeRow) (digests : list StoredShape) : list SeenShape :=
  seen_shape <$> List.filter (fun row => bool_decide (ps_shape (sr_reading row) ∈ digests)) table.

Definition still_scanning (build : ServedShapesRecord) (wanted : list StoredShape) (settledAt : Z) (shape : SeenShape) : bool :=
  bool_decide (sn_database shape = sv_database build) && bool_decide (sn_collection shape = sv_collection build) &&
  bool_decide (sn_digest shape ∈ wanted) && (settledAt - PASS_SLACK_MS <=? sn_lastSeenAt shape).
Definition scansFor (build : ServedShapesRecord) (shapes : list SeenShape) (workloadReadAt : option Z) : option BuildScanReading :=
  match servedShapeDigests build, baselineWeeklyDocsExamined build with
  | Some digests, Some baseline =>
      if (length digests =? 0)%nat then None
      else
        let settledAt := sv_builtAt build + SCANS_SETTLE_MS in
        let judged := match workloadReadAt with Some at_ => settledAt <=? at_ | None => false end in
        let wanted := remove_dups digests in
        let still := List.filter (still_scanning build wanted settledAt) shapes in
        Some {| bs_shapes := Z.of_nat (length wanted); bs_weeklyDocsExamined := baseline;
                bs_since := if judged
                            then Some {| sc_shapes := Z.of_nat (length still);
                                         sc_weeklyDocsExamined := zsum (fun shape => sn_weeklyDocsExamined shape ?? 0) still |}
                            else None |}
  | _, _ => None
  end.

(** ** The footprint *)

Record IndexSizePoint := { ip_day : string; totalBytes : option Z; ip_indexCount : Z }.
Record FootprintSummary := { firstBytes : option Z; latestBytes : option Z; changeBytes : option Z }.

Definition summarizeFootprint (points : list IndexSizePoint) : FootprintSummary :=
  let drawn := List.filter (fun point => is_some (totalBytes point)) points in
  let first := head drawn ≫= totalBytes in
  let latest := last drawn ≫= totalBytes in
  match first, latest with
  | Some f, Some l =>
      if (length drawn <? 2)%nat then {| firstBytes := first; latestBytes := latest; changeBytes := None |}
      else {| firstBytes := first; latestBytes := latest; changeBytes := Some (l - f) |}
  | _, _ => {| firstBytes := first; latestBytes := latest; changeBytes := None |}
  end.

(** ** Passes that read the workload after a build *)

(** The suggest passes that wrote the table, each with its time and its ledger. *)
Definition run_passes (passes : list (Z * ShapeLedger)) (table : list ShapeRow) : list ShapeRow :=
  foldl (fun table '(now, ledger) => flush now ledger table) table passes.
(** The last of them that saw a shape, and what it read of it. *)
Definition last_reading (passes : list (Z * ShapeLedger)) (key : string * string * StoredShape) : option (Z * PendingShape) :=
  foldl (fun acc '(now, ledger) =>
    match List.find (fun p => bool_decide (ps_key p = key)) ledger with Some p => Some (now, p) | None => acc end) None passes.

Definition shape_key (row : ShapeRow) : string * string * StoredShape := ps_key (sr_reading row).

Lemma upsert_keys now p table :
  shape_key <$> upsert_shape now p table =
  (shape_key <$> table) ++ (if bool_decide (ps_key p ∈ shape_key <$> table) then [] else [ps_key p]).
Proof.
  induction table as [|row rest IH]; [done|]. cbn -[bool_decide]. destruct (bool_decide (ps_key (sr_reading row) = ps_key p)) eqn:E.
  - apply bool_decide_eq_true in E. rewrite bool_decide_true by (unfold shape_key; rewrite E; left). cbn. unfold shape_key at 1 3. cbn. by rewrite app_nil_r, E.
  - apply bool_decide_eq_false in E. cbn -[bool_decide]. rewrite IH. do 2 f_equal.
    rewrite (bool_decide_ext (ps_key p ∈ shape_key row :: (shape_key <$> rest)) (ps_key p ∈ shape_key <$> rest)); [done|].
    unfold shape_key at 1. set_solver.
Qed.
Lemma upsert_NoDup now p table :
  NoDup (shape_key <$> table) -> NoDup (shape_key <$> upsert_shape now p table).
Proof.
  rewrite upsert_keys. case_bool_decide as E; [by rewrite app_nil_r|]. intros Hn. apply NoDup_app.
  split_and!; [done|set_solver|apply NoDup_singleton].
Qed.
Lemma flush_NoDup now ledger table :
  NoDup (shape_key <$> table) -> NoDup (shape_key <$> flush now ledger table).
Proof. revert table. induction ledger as [|p ledger IH]; intros table H; [done|]. cbn. by apply IH, upsert_NoDup. Qed.
Lemma upsert_elem now p table row :
  NoDup (shape_key <$> table) -> row ∈ upsert_shape now p table ->
  sr_reading row = p /\ sr_lastSeenAt row = now \/ row ∈ table /\ shape_key row <> ps_key p.
Proof.
  induction table as [|r rest IH]; cbn -[bool_decide].
  - intros _ ->%list_elem_of_singleton. by left.
  - intros [Hr Hn]%NoDup_cons. case_bool_decide as E; intros [->|Hin]%elem_of_cons.
    + by left.
    + right. split; [by right|]. intros E'. apply Hr. apply list_elem_of_fmap. exists row. split; [|done]. unfold shape_key in *. congruence.
    + right. split; [left|done].
    + destruct (IH Hn Hin) as [?|[]]; [by left|right]. split; [by right|done].
Qed.
(** A row after a flush: as the ledger has it, or as it was where the ledger does not. *)
Lemma flush_elem now ledger table row :
  NoDup (shape_key <$> table) -> NoDup (ps_key <$> ledger) -> row ∈ flush now ledger table ->
  match List.find (fun p => bool_decide (ps_key p = shape_key row)) ledger with
  | Some p => sr_reading row = p /\ sr_lastSeenAt row = now
  | None => row ∈ table
  end.
Proof.
  revert table. induction ledger as [|p ledger IH]; intros table Ht Hl Hin; [done|]. cbn [flush fold_left] in Hin.
  apply NoDup_cons in Hl as [Hp Hl]. specialize (IH _ (upsert_NoDup now p _ Ht) Hl Hin). cbn [List.find].
  case_bool_decide as E.
  - destruct (List.find _ ledger) as [q|] eqn:Eq.
    + exfalso. apply find_some in Eq as [Hq Ek%bool_decide_eq_true]. apply Hp. rewrite E, <- Ek.
      apply list_elem_of_fmap. exists q. split; [done|]. by apply list_elem_of_In.
    + by destruct (upsert_elem _ _ _ _ Ht IH) as [?|[]].
  - destruct (List.find _ ledger) as [q|]; [done|]. destruct (upsert_elem _ _ _ _ Ht IH) as [[H1 _]|[]]; [|done].
    unfold shape_key in E. by rewrite H1 in E.
Qed.
Lemma run_passes_snoc passes now ledger table : run_passes (passes ++ [(now, ledger)]) table = flush now ledger (run_passes passes table).
Proof. unfold run_passes. by rewrite foldl_app. Qed.
Lemma run_NoDup passes table :
  NoDup (shape_key <$> table) -> NoDup (shape_key <$> run_passes passes table).
Proof.
  intros H. induction passes as [|[now ledger] passes IH] using rev_ind; [done|]. rewrite run_passes_snoc. by apply flush_NoDup.
Qed.
(** A row after the passes: what the last of them to see its shape read, at that time. *)
Lemma run_elem passes table row :
  NoDup (shape_key <$> table) -> Forall (fun '(_, ledger) => NoDup (ps_key <$> ledger)) passes ->
  row ∈ run_passes passes table ->
  match last_reading passes (shape_key row) with
  | Some (at_, p) => sr_reading row = p /\ sr_lastSeenAt row = at_
  | None => row ∈ table
  end.
Proof.
  intros Ht. induction passes as [|[now ledger] passes IH] using rev_ind; [by intros _ Hin|]. intros [Hps Hl]%Forall_app Hin.
  apply Forall_inv in Hl. rewrite run_passes_snoc in Hin. apply flush_elem in Hin; [|by apply run_NoDup|exact Hl].
  unfold last_reading. rewrite foldl_app. cbn [foldl]. fold (last_reading passes (shape_key row)).
  destruct (List.find _ ledger) as [p|]; [done|]. by apply IH.
Qed.
Lemma upsert_keeps now p table key :
  key ∈ shape_key <$> table -> key ∈ shape_key <$> upsert_shape now p table.
Proof. rewrite upsert_keys. set_solver. Qed.
Lemma run_keeps passes table key :
  key ∈ shape_key <$> table -> key ∈ shape_key <$> run_passes passes table.
Proof.
  intros H. induction passes as [|[now ledger] passes IH] using rev_ind; [done|]. rewrite run_passes_snoc.
  revert IH. generalize (run_passes passes table). clear H.
  induction ledger as [|p ledger IH]; intros t Hk; [done|]. cbn [flush fold_left]. by apply IH, upsert_keeps.
Qed.

(** ** What became of the scans *)

Section build.
Context (table : list ShapeRow) (database collection indexName : string) (builtAt : Z).
Context (passes : list (Z * ShapeLedger)) (others : list StoredShape).
Context (digests : list StoredShape) (baseline : Z).
Hypothesis distinct_rows : NoDup (shape_key <$> table).
Hypothesis distinct_ledgers : Forall (fun '(_, ledger) => NoDup (ps_key <$> ledger)) passes.
Hypothesis seen_before : Forall (fun row => sr_lastSeenAt row <= builtAt) table.
Hypothesis recorded : servedShapes table database collection indexName builtAt = Some (digests, baseline).

(** The shapes of the build that a pass saw scanning after it had settled. *)
Definition scanned_after (digest : StoredShape) : bool :=
  match last_reading passes (database, collection, digest) with
  | Some (at_, _) => builtAt + SCANS_SETTLE_MS - PASS_SLACK_MS <=? at_
  | None => false
  end.
Definition weekly_after (digest : StoredShape) : Z :=
  ('(_, p) ← last_reading passes (database, collection, digest); ps_weeklyDocsExamined p) ?? 0.

Let record : ServedShapesRecord :=
  {| sv_database := database; sv_collection := collection; sv_builtAt := builtAt;
     servedShapeDigests := Some digests; baselineWeeklyDocsExamined := Some baseline |}.
Let settled : Z := builtAt + SCANS_SETTLE_MS.
Let rows : list ShapeRow :=
  List.filter (fun row => still_scanning record (remove_dups digests) settled (seen_shape row))
    (List.filter (fun row => bool_decide (ps_shape (sr_reading row) ∈ digests ++ others)) (run_passes passes table)).

Lemma recorded_digests : digests <> [] /\ NoDup digests /\ forall d, d ∈ digests -> (database, collection, d) ∈ shape_key <$> table.
Proof.
  unfold servedShapes in recorded. destruct (_ =? 0)%nat eqn:E; [done|]. injection recorded as Hd _.
  assert (forall row, row ∈ List.filter (serves database collection indexName builtAt) table ->
    row ∈ table /\ shape_key row = (database, collection, ps_shape (sr_reading row))) as Hrow.
  { intros row [Hin Hs]%elem_of_filter_bool. split; [done|]. unfold serves in Hs. rewrite !andb_true_iff, !bool_decide_eq_true in Hs.
    unfold shape_key, ps_key. destruct Hs as [[[-> ->] _] _]. done. }
  split; [|split].
  - intros ->. apply fmap_nil_inv in Hd. by rewrite Hd in E.
  - rewrite <- Hd. apply (NoDup_fmap_1 (fun d => (database, collection, d))). rewrite <- list_fmap_compose.
    rewrite (list_fmap_ext _ shape_key); [by apply NoDup_fmap_filter|].
    intros i row Hi%list_elem_of_lookup_2. by rewrite (proj2 (Hrow row Hi)).
  - rewrite <- Hd. intros d (row & -> & Hin)%list_elem_of_fmap. apply Hrow in Hin as [Hin Hk].
    apply list_elem_of_fmap. by exists row.
Qed.
Lemma still_row row : row ∈ rows <->
  row ∈ run_passes passes table /\ exists d, d ∈ digests /\ shape_key row = (database, collection, d) /\ scanned_after d = true.
Proof.
  unfold rows. rewrite !elem_of_filter_bool, bool_decide_eq_true. unfold still_scanning.
  rewrite !andb_true_iff, !bool_decide_eq_true, elem_of_remove_dups, Z.leb_le. cbn.
  split.
  - intros [[Hin _] [[[H1 H2] H3] H4]]. split; [done|]. exists (ps_shape (sr_reading row)). split; [done|].
    assert (shape_key row = (database, collection, ps_shape (sr_reading row))) as Hk by (unfold shape_key, ps_key; congruence).
    split; [done|]. unfold scanned_after. pose proof (run_elem _ _ _ distinct_rows distinct_ledgers Hin) as Hr. rewrite Hk in Hr.
    destruct (last_reading _ _) as [[at_ p]|]; [destruct Hr as [_ <-]; unfold settled in H4; lia|].
    rewrite Forall_forall in seen_before. apply seen_before in Hr. unfold settled, SCANS_SETTLE_MS, PASS_SLACK_MS, HOUR_MS in H4. lia.
  - intros (Hin & d & Hd & Hk & Hs). unfold shape_key, ps_key in Hk. injection Hk as H1 H2 H3. subst d.
    split; [split; [done|set_solver]|]. split; [done|]. unfold scanned_after in Hs.
    pose proof (run_elem _ _ _ distinct_rows distinct_ledgers Hin) as Hr. unfold shape_key, ps_key in Hr. rewrite H1, H2 in Hr.
    destruct (last_reading _ _) as [[at_ p]|]; [|done]. destruct Hr as [_ ->]. unfold settled. lia.
Qed.
Lemma still_shapes : Permutation ((fun row => ps_shape (sr_reading row)) <$> rows) (List.filter scanned_after digests).
Proof.
  destruct recorded_digests as (_ & Hn & Hk). apply NoDup_Permutation.
  - apply (NoDup_fmap_1 (fun d => (database, collection, d))). rewrite <- list_fmap_compose.
    rewrite (list_fmap_ext _ shape_key); [by apply NoDup_fmap_filter, NoDup_fmap_filter, run_NoDup|].
    intros i row Hi%list_elem_of_lookup_2. apply still_row in Hi as (_ & d & _ & E & _). cbn.
    unfold shape_key, ps_key in *. by injection E as -> -> _.
  - rewrite <- (list_fmap_id digests) in Hn. apply NoDup_fmap_filter with (f := scanned_after) in Hn. by rewrite list_fmap_id in Hn.
  - intros d. rewrite elem_of_filter_bool, list_elem_of_fmap. split.
    + intros (row & -> & (_ & d' & Hd & E & Hs)%still_row). unfold shape_key, ps_key in E. by injection E as _ _ ->.
    + intros [Hd Hs]. pose proof (run_keeps passes _ _ (Hk d Hd)) as (row & E & Hin)%list_elem_of_fmap.
      exists row. split; [unfold shape_key, ps_key in E; by injection E|]. apply still_row. split; [done|]. by exists d.
Qed.
Lemma still_weekly row : row ∈ rows -> ps_weeklyDocsExamined (sr_reading row) ?? 0 = weekly_after (ps_shape (sr_reading row)).
Proof.
  intros (Hin & d & _ & E & Hs)%still_row. pose proof (run_elem _ _ _ distinct_rows distinct_ledgers Hin) as Hr.
  rewrite E in Hr. unfold scanned_after in Hs. unfold shape_key, ps_key in E. injection E as _ _ ->. unfold weekly_after.
  destruct (last_reading _ _) as [[at_ p]|]; [|done]. by destruct Hr as [-> _].
Qed.
(** The answer about a build: a build recorded with the shapes it was for is
    told from what the later passes saw. The shapes and the reading they had are
    those the record took; nothing is said of after until the workload was read
    end to end a day later; then the shapes still scanning are exactly those of
    the build that some pass last saw an hour before that day was over or later,
    with the documents that pass read. What other collections scan the same way,
    and what was seen only before, does not count. *)
Theorem build_scans_exact (readAt : option Z) :
  scansFor record (shapesByDigest (run_passes passes table) (digests ++ others)) readAt =
  Some {| bs_shapes := Z.of_nat (length digests); bs_weeklyDocsExamined := baseline;
          bs_since := if (match readAt with Some at_ => builtAt + SCANS_SETTLE_MS <=? at_ | None => false end)
                      then Some {| sc_shapes := Z.of_nat (length (List.filter scanned_after digests));
                                   sc_weeklyDocsExamined := zsum weekly_after (List.filter scanned_after digests) |}
                      else None |}.
Proof.
  destruct recorded_digests as (Hne & Hn & _). unfold scansFor. cbn [servedShapeDigests baselineWeeklyDocsExamined record sv_builtAt].
  destruct (Nat.eqb_spec (length digests) 0) as [E|_]; [by destruct digests|].
  assert (length (remove_dups digests) = length digests) as Hlen.
  { apply Permutation_length, NoDup_Permutation; [apply NoDup_remove_dups|done|]. intros d. apply elem_of_remove_dups. }
  unfold shapesByDigest. rewrite filter_fmap_bool. fold settled. fold rows. rewrite Hlen, length_fmap, zsum_fmap.
  rewrite <- (Permutation_length still_shapes), length_fmap, <- (zsum_perm _ _ _ still_shapes), zsum_fmap.
  by rewrite (zsum_ext (fun row => sn_weeklyDocsExamined (seen_shape row) ?? 0) _ rows still_weekly).
Qed.
(** A build never has more shapes left than it was for. *)
Corollary build_scans_bounded readAt reading since :
  scansFor record (shapesByDigest (run_passes passes table) (digests ++ others)) readAt = Some reading ->
  bs_since reading = Some since -> 0 <= sc_shapes since <= bs_shapes reading.
Proof.
  rewrite build_scans_exact. intros [= <-]. cbn [bs_since bs_shapes].
  destruct readAt as [at_|]; [|done]. destruct (_ <=? at_); [|done]. intros [= <-]. cbn [sc_shapes]. pose proof (List.filter_length_le scanned_after digests). lia.
Qed.
End build.

(** ** The ends of the footprint *)

Notation hole := (fun point => totalBytes point = None).
Lemma drawn_holes points : Forall hole points -> List.filter (fun point => is_some (totalBytes point)) points = [].
Proof. induction 1 as [|p points Hp _ IH]; [done|]. cbn. by rewrite Hp. Qed.
(** Whatever days are missing before, between and after, the two ends are the
    first and the last day something was measured, and the change is between them. *)
Theorem summarizeFootprint_ends before middle after (p q : IndexSizePoint) (x y : Z) :
  Forall hole before -> Forall hole after -> totalBytes p = Some x -> totalBytes q = Some y ->
  summarizeFootprint (before ++ p :: middle ++ q :: after) =
  {| firstBytes := Some x; latestBytes := Some y; changeBytes := Some (y - x) |}.
Proof.
  intros Hb Ha Hp Hq. unfold summarizeFootprint. rewrite List.filter_app, drawn_holes by done. cbn [List.filter app].
  rewrite Hp. cbn [is_some]. rewrite List.filter_app. cbn [List.filter]. rewrite Hq, (drawn_holes after) by done. cbn [is_some head].
  rewrite app_comm_cons, last_snoc. cbn [mbind option_bind]. rewrite Hp, Hq. cbn [length app]. rewrite length_app. cbn [length].
  by rewrite Nat.add_1_r.
Qed.
(** One measured day is not a trend, and none is nothing at all. *)
Theorem summarizeFootprint_short before after (p : IndexSizePoint) (x : Z) :
  Forall hole before -> Forall hole after -> totalBytes p = Some x ->
  summarizeFootprint (before ++ p :: after) = {| firstBytes := Some x; latestBytes := Some x; changeBytes := None |}
  /\ summarizeFootprint before = {| firstBytes := None; latestBytes := None; changeBytes := None |}.
Proof.
  intros Hb Ha Hp. unfold summarizeFootprint. rewrite List.filter_app, (drawn_holes before) by done. cbn [List.filter app].
  rewrite Hp, drawn_holes by done. cbn. by rewrite Hp.
Qed.
