(* ===== verification/Snapshots.v ===== *)
(** What a collect reads off a cluster: [collectSnapshots] of
    [apps/api/src/mongo/snapshots.ts], against the collector of
    [apps/api/src/engine/ports.ts].

    The collector is a record of its answers, each of which may be an error; the
    reads that answer for a whole database are optional, as in the code.  Reads
    issued together fail with the first error in the order they are written.
    An index whose name is one a JavaScript object inherits, [constructor] say,
    is outside the model: [groupByIndex] keys a plain object by name. *)
From S2P Require Import Prelude EngineTypes StoredSpec Runs.

(** ** The collector *)

Inductive read_error := DatabaseInaccessibleError (message : string) | ReadError (message : string).

Record IndexUsageStat := { iu_indexName : string; iu_host : string; iu_ops : Z; iu_since : stamp }.
Record LatencyPair := { lp_ops : Z; lp_latencyMicros : Z }.
Record CollectionLatency := { cl_reads : LatencyPair; cl_writes : LatencyPair }.

Record CollectorReads := {
  listDatabaseNames : read_error + list string;
  cr_listCollectionNames : string -> read_error + list string;
  cr_listIndexes : string -> string -> read_error + list IndexSpec;
  cr_collectUsage : string -> string -> read_error + list IndexUsageStat;
  indexSizes : string -> string -> read_error + list (string * Z);
  cr_collectHintedIndexes : string -> string -> read_error + list string;
  cr_collectionLatency : string -> string -> read_error + CollectionLatency;
  cr_latencyByCollection : option (string -> read_error + list (string * CollectionLatency));
  hintedByCollection : option (string -> list string -> read_error + list (string * list string));
  indexesByCollection : option (string -> read_error + list (string * list IndexSpec));
  usageByCollection : option (string -> read_error + list (string * list IndexUsageStat));
  indexSizesByCollection : option (string -> read_error + list (string * list (string * Z)));
  selfReadOps : option (string -> string -> Z);
}.

(** ** What is read *)

Record CollectedSnapshot := {
  cs_database : string;
  cs_collection : string;
  cs_indexName : string;
  cs_spec : json;
  cs_sizeBytes : Z;
  cs_perMember : list MemberUsage;
  cs_hinted : bool;
}.
Record CollectedLatency := {
  cl_database : string;
  cl_collection : string;
  cl_readOps : Z;
  cl_readLatencyMicros : Z;
  cl_writeOps : Z;
  cl_writeLatencyMicros : Z;
  cl_selfReadOps : Z;
}.
Record CollectResult := { snapshots : list CollectedSnapshot; latency : list CollectedLatency }.

Definition NO_ACTIVITY : CollectionLatency :=
  {| cl_reads := {| lp_ops := 0; lp_latencyMicros := 0 |}; cl_writes := {| lp_ops := 0; lp_latencyMicros := 0 |} |}.

Definition groupByIndex (usage : list IndexUsageStat) : list (string * list IndexUsageStat) :=
  fold_left (fun grouped stat =>
    let bucket := map_get (iu_indexName stat) grouped ?? [] in
    map_put (iu_indexName stat) (bucket ++ [stat]) grouped) usage [].

(** [await]: an error ends it. *)
Definition and_then {A B} (m : read_error + A) (k : A -> read_error + B) : read_error + B :=
  match m with inl e => inl e | inr a => k a end.
Notation "'let!' x ':=' m 'in' k" := (and_then m (fun x => k)) (at level 200, x pattern, right associativity).

(** A read for the whole database, where the engine has it. *)
Definition batched {A} (read : option (read_error + A)) : read_error + option A :=
  match read with None => inr None | Some answer => let! a := answer in inr (Some a) end.
(** The answer for one collection: from the database's, or asked. *)
Definition answer_for {A} (all : option (list (string * A))) (collection : string) (absent : A) (ask : read_error + A)
    : read_error + A :=
  match all with None => ask | Some all => inr (map_get collection all ?? absent) end.

Record DatabaseReads := {
  db_latencies : option (list (string * CollectionLatency));
  db_hints : option (list (string * list string));
  db_specs : option (list (string * list IndexSpec));
  db_usage : option (list (string * list IndexUsageStat));
  db_sizes : option (list (string * list (string * Z)));
}.
Definition read_database (collector : CollectorReads) (database : string) (collections : list string) : read_error + DatabaseReads :=
  let! latencies := batched ((fun read => read database) <$> cr_latencyByCollection collector) in
  let! hints := batched ((fun read => read database collections) <$> hintedByCollection collector) in
  let! specs := batched ((fun read => read database) <$> indexesByCollection collector) in
  let! usage := batched ((fun read => read database) <$> usageByCollection collector) in
  let! sizes := batched ((fun read => read database) <$> indexSizesByCollection collector) in
  inr {| db_latencies := latencies; db_hints := hints; db_specs := specs; db_usage := usage; db_sizes := sizes |}.

Definition member_usage (stat : IndexUsageStat) : MemberUsage :=
  {| member := iu_host stat; ops := iu_ops stat; since := Some (iu_since stat) |}.
Definition snapshot_of (database collection : string) (usageByIndex : list (string * list IndexUsageStat))
    (sizes : list (string * Z)) (hinted : list string) (spec : IndexSpec) : CollectedSnapshot :=
  {| cs_database := database; cs_collection := collection; cs_indexName := name spec; cs_spec := serializeSpec spec;
     cs_sizeBytes := map_get (name spec) sizes ?? 0;
     cs_perMember := member_usage <$> (map_get (name spec) usageByIndex ?? []);
     cs_hinted := includes hinted (name spec) |}.
Definition latency_of (database collection : string) (reading : CollectionLatency) : CollectedLatency :=
  {| cl_database := database; cl_collection := collection;
     cl_readOps := lp_ops (cl_reads reading); cl_readLatencyMicros := lp_latencyMicros (cl_reads reading);
     cl_writeOps := lp_ops (cl_writes reading); cl_writeLatencyMicros := lp_latencyMicros (cl_writes reading);
     cl_selfReadOps := 0 |}.
(** [.catch(() => [])]. *)
Definition or_empty {A} (m : read_error + list A) : read_error + list A := match m with inl _ => inr [] | inr l => inr l end.

Definition read_collection (collector : CollectorReads) (all : DatabaseReads) (database collection : string)
    : read_error + CollectResult :=
  let! specs := answer_for (db_specs all) collection [] (cr_listIndexes collector database collection) in
  let! usage := answer_for (db_usage all) collection [] (cr_collectUsage collector database collection) in
  let! sizes := answer_for (db_sizes all) collection [] (indexSizes collector database collection) in
  let! hinted := answer_for (db_hints all) collection [] (or_empty (cr_collectHintedIndexes collector database collection)) in
  let! collLatency := answer_for (db_latencies all) collection NO_ACTIVITY (cr_collectionLatency collector database collection) in
  inr {| snapshots := snapshot_of database collection (groupByIndex usage) sizes hinted <$> specs;
         latency := [latency_of database collection collLatency] |}.

Definition nothing_read : CollectResult := {| snapshots := []; latency := [] |}.
Definition also_read (a b : CollectResult) : CollectResult :=
  {| snapshots := snapshots a ++ snapshots b; latency := latency a ++ latency b |}.
(** [for (x of xs) { ... }] of a loop that pushes what it reads. *)
Fixpoint read_each {A} (read : A -> read_error + CollectResult) (xs : list A) : read_error + CollectResult :=
  match xs with
  | [] => inr nothing_read
  | x :: xs => let! here := read x in let! rest := read_each read xs in inr (also_read here rest)
  end.
Definition collect_database (collector : CollectorReads) (database : string) : read_error + CollectResult :=
  match cr_listCollectionNames collector database with
  | inl (DatabaseInaccessibleError _) => inr nothing_read
  | inl e => inl e
  | inr collections =>
      let! all := read_database collector database collections in
      read_each (read_collection collector all database) collections
  end.

(** Our own reads are filled in once the pass is done reading. *)
Definition with_self_reads (selfReads : string -> string -> Z) (sample : CollectedLatency) : CollectedLatency :=
  {| cl_database := cl_database sample; cl_collection := cl_collection sample; cl_readOps := cl_readOps sample;
     cl_readLatencyMicros := cl_readLatencyMicros sample; cl_writeOps := cl_writeOps sample;
     cl_writeLatencyMicros := cl_writeLatencyMicros sample;
     cl_selfReadOps := selfReads (cl_database sample) (cl_collection sample) |}.
Definition collectSnapshots (collector : CollectorReads) : read_error + CollectResult :=
  let! databases := listDatabaseNames collector in
  let! result := read_each (collect_database collector) databases in
  inr {| snapshots := snapshots result;
         latency := match selfReadOps collector with
                    | None => latency result
                    | Some selfReads => with_self_reads selfReads <$> latency result
                    end |}.

(** ** Lemmas *)

Lemma read_each_app {A} (read : A -> read_error + CollectResult) xs ys :
  read_each read (xs ++ ys) = (let! a := read_each read xs in let! b := read_each read ys in inr (also_read a b)).
Proof.
  induction xs as [|x xs IH]; cbn [read_each app and_then].
  - destruct (read_each read ys) as [e|[s l]]; done.
  - destruct (read x) as [e|r]; [done|]. cbn [and_then]. rewrite IH. destruct (read_each read xs) as [e|rs]; [done|]. cbn [and_then].
    destruct (read_each read ys) as [e|ss]; [done|]. cbn [and_then]. unfold also_read. cbn. by rewrite !app_assoc.
Qed.
Lemma read_each_ext {A} (f g : A -> read_error + CollectResult) xs :
  (forall x, x ∈ xs -> f x = g x) -> read_each f xs = read_each g xs.
Proof.
  induction xs as [|x xs IH]; intros H; [done|]. cbn [read_each]. rewrite (H x) by left.
  rewrite IH; [done|]. intros y Hy. apply H. by right.
Qed.
Lemma groupByIndex_get usage n :
  map_get n (groupByIndex usage) ?? [] = List.filter (fun stat => String.eqb (iu_indexName stat) n) usage.
Proof.
  unfold groupByIndex. rewrite <- fold_left_rev_right. rewrite <- (rev_involutive usage) at 2.
  induction (rev usage) as [|stat stats IH]; [done|]. cbn [foldr rev]. rewrite map_get_put, List.filter_app. cbn [List.filter].
  destruct (String.eqb_spec (iu_indexName stat) n) as [->|]; [by rewrite <- IH|]. by rewrite app_nil_r.
Qed.

(** ** Databases out of reach *)

(** A database the credentials cannot reach costs the collect that database and
    nothing else: it reads what it would if the cluster did not list it, and
    every other error of a read ends it. *)
Definition listing (collector : CollectorReads) (databases : list string) : CollectorReads :=
  {| listDatabaseNames := inr databases; cr_listCollectionNames := cr_listCollectionNames collector;
     cr_listIndexes := cr_listIndexes collector; cr_collectUsage := cr_collectUsage collector; indexSizes := indexSizes collector;
     cr_collectHintedIndexes := cr_collectHintedIndexes collector; cr_collectionLatency := cr_collectionLatency collector;
     cr_latencyByCollection := cr_latencyByCollection collector; hintedByCollection := hintedByCollection collector;
     indexesByCollection := indexesByCollection collector; usageByCollection := usageByCollection collector;
     indexSizesByCollection := indexSizesByCollection collector; selfReadOps := selfReadOps collector |}.
Definition out_of_reach (collector : CollectorReads) (database : string) : bool :=
  match cr_listCollectionNames collector database with inl (DatabaseInaccessibleError _) => true | _ => false end.

Theorem collect_skips_inaccessible collector databases :
  listDatabaseNames collector = inr databases ->
  collectSnapshots collector =
  collectSnapshots (listing collector (List.filter (fun database => negb (out_of_reach collector database)) databases)).
Proof.
  intros Hd. unfold collectSnapshots. rewrite Hd. cbn [listDatabaseNames listing and_then selfReadOps].
  assert (read_each (collect_database collector) databases =
    read_each (collect_database collector) (List.filter (fun database => negb (out_of_reach collector database)) databases)) as ->;
    [|by destruct collector].
  clear Hd. induction databases as [|d ds IH]; [done|]. cbn [List.filter read_each]. rewrite IH.
  destruct (out_of_reach collector d) eqn:E; cbn [negb read_each]; [|done].
  unfold collect_database at 1. unfold out_of_reach in E.
  destruct (cr_listCollectionNames collector d) as [[]|]; try done. cbn [and_then].
  match goal with |- and_then ?read _ = _ => by destruct read as [|[]] end.
Qed.

(** ** Batched reads *)

Definition per_collection (collector : CollectorReads) : CollectorReads :=
  {| listDatabaseNames := listDatabaseNames collector; cr_listCollectionNames := cr_listCollectionNames collector;
     cr_listIndexes := cr_listIndexes collector; cr_collectUsage := cr_collectUsage collector; indexSizes := indexSizes collector;
     cr_collectHintedIndexes := cr_collectHintedIndexes collector; cr_collectionLatency := cr_collectionLatency collector;
     cr_latencyByCollection := None; hintedByCollection := None; indexesByCollection := None; usageByCollection := None;
     indexSizesByCollection := None; selfReadOps := selfReadOps collector |}.

(** A batched read answers every collection of the list as asking for it would;
    a collection it leaves out is one that answers with nothing. *)
Definition batch_agrees {A} (read : option (read_error + list (string * A))) (collections : list string) (absent : A)
    (ask : string -> read_error + A) : Prop :=
  match read with
  | None => True
  | Some answer => exists all, answer = inr all /\ forall c, c ∈ collections -> ask c = inr (map_get c all ?? absent)
  end.
Definition batches_agree (collector : CollectorReads) (database : string) (collections : list string) : Prop :=
  batch_agrees ((fun read => read database) <$> cr_latencyByCollection collector) collections NO_ACTIVITY (cr_collectionLatency collector database)
  /\ batch_agrees ((fun read => read database collections) <$> hintedByCollection collector) collections []
       (fun c => or_empty (cr_collectHintedIndexes collector database c))
  /\ batch_agrees ((fun read => read database) <$> indexesByCollection collector) collections [] (cr_listIndexes collector database)
  /\ batch_agrees ((fun read => read database) <$> usageByCollection collector) collections [] (cr_collectUsage collector database)
  /\ batch_agrees ((fun read => read database) <$> indexSizesByCollection collector) collections [] (indexSizes collector database).

Lemma batched_answer {A} (read : option (read_error + list (string * A))) collections absent ask :
  batch_agrees read collections absent ask ->
  exists all, batched read = inr all /\ forall c, c ∈ collections -> answer_for all c absent (ask c) = ask c.
Proof.
  destruct read as [answer|]; cbn; [|by exists None]. intros (all & -> & H). exists (Some all). split; [done|].
  intros c Hc. by rewrite H.
Qed.

(** Reading a database at once, or a collection at a time, is one thing: a
    collect of an engine whose batched reads answer as its single ones do
    collects exactly what it would without them, errors included. *)
Theorem batched_reads_agree (collector : CollectorReads) :
  (forall database collections, cr_listCollectionNames collector database = inr collections ->
     batches_agree collector database collections) ->
  collectSnapshots collector = collectSnapshots (per_collection collector).
Proof.
  intros H. unfold collectSnapshots. cbn [listDatabaseNames per_collection selfReadOps].
  destruct (listDatabaseNames collector) as [e|databases]; [done|]. cbn [and_then].
  rewrite (read_each_ext (collect_database collector) (collect_database (per_collection collector))); [done|].
  intros d _. unfold collect_database. cbn [cr_listCollectionNames per_collection].
  destruct (cr_listCollectionNames collector d) as [e|collections] eqn:E; [done|].
  destruct (H d collections E) as (Hl & Hh & Hs & Hu & Hz).
  apply batched_answer in Hl as (l & El & Hl), Hh as (h & Eh & Hh), Hs as (s & Es & Hs), Hu as (u & Eu & Hu), Hz as (z & Ez & Hz).
  unfold read_database. rewrite El, Eh, Es, Eu, Ez. cbn [and_then]. cbn [per_collection cr_latencyByCollection
    hintedByCollection indexesByCollection usageByCollection indexSizesByCollection fmap option_fmap option_map batched and_then].
  apply read_each_ext. intros c Hc. unfold read_collection. cbn [db_specs db_usage db_sizes db_hints db_latencies].
  rewrite Hs, Hu, Hz, Hh, Hl by done. done.
Qed.

(** An engine that reads the sizes and the latencies of a database at once. *)
Definition batching : CollectorReads :=
  {| listDatabaseNames := inr ["shop"%string; "sealed"%string];
     cr_listCollectionNames := fun database =>
       if String.eqb database "shop" then inr ["orders"%string; "empty"%string] else inl (DatabaseInaccessibleError "sealed");
     cr_listIndexes := fun _ collection =>
       inr (if String.eqb collection "orders" then
         [{| name := "city_1"; keys := [{| field := "city"; direction := Ordered Pos |}]; unique := false; ttl := false; partial := false;
             partialFilter := None; sparse := false; hidden := false; isShardKey := false; collation := None; include := None |}] else []);
     cr_collectUsage := fun _ _ => inr [{| iu_indexName := "city_1"; iu_host := "a"; iu_ops := 3; iu_since := At 0 |}];
     indexSizes := fun _ collection => inr (if String.eqb collection "orders" then [("city_1"%string, 4096)] else []);
     cr_collectHintedIndexes := fun _ _ => inl (ReadError "no plan cache");
     cr_collectionLatency := fun _ collection => inr (if String.eqb collection "orders" then
       {| cl_reads := {| lp_ops := 9; lp_latencyMicros := 90 |}; cl_writes := {| lp_ops := 1; lp_latencyMicros := 5 |} |} else NO_ACTIVITY);
     cr_latencyByCollection := Some (fun _ => inr [("orders"%string,
       {| cl_reads := {| lp_ops := 9; lp_latencyMicros := 90 |}; cl_writes := {| lp_ops := 1; lp_latencyMicros := 5 |} |})]);
     hintedByCollection := None; indexesByCollection := None; usageByCollection := None;
     indexSizesByCollection := Some (fun _ => inr [("orders"%string, [("city_1"%string, 4096)])]); selfReadOps := Some (fun _ _ => 2) |}.
Lemma batched_reads_agree_witness :
  collectSnapshots batching = collectSnapshots (per_collection batching)
  /\ (exists result, collectSnapshots batching = inr result /\ length (snapshots result) = 1%nat /\ length (latency result) = 2%nat).
Proof.
  split; [|by eexists]. apply (batched_reads_agree batching). intros database collections. cbn.
  destruct (String.eqb database "shop"); [|done]. intros [= <-].
  split_and!; cbn; try done; (eexists; split; [reflexivity|]); intros c [->|[->|Hc%elem_of_nil]%elem_of_cons]%elem_of_cons; done.
Defined.
