(* ===== verification/RunTable.v ===== *)
(** How a collect writes one of the two run-length tables.  [recordSnapshots] and
    [recordLatency] of [apps/api/src/jobs/collect.ts] follow the same steps: read
    the newest run of each owner, sort the readings into runs to extend and runs
    to insert, and write each list with one statement.  The steps are stated here
    once, over what differs between the tables.

    A table is a list of rows, the ones inserted last first; a row has an id.

    The rows a series refers to, one per index or namespace, are found the same
    way in both ([dimensionIds], and [namespaceIds] of [jobs/namespaces.ts]):
    read them all, insert the missing ones, read those back. *)
From S2P Require Import Prelude.

Lemma map_put_fresh {V} k (v : V) m : k ∉ m.*1 -> map_put k v m = m ++ [(k, v)].
Proof.
  induction m as [|[k' v'] m IH]; [done|]. cbn. intros [Hne Hm]%not_elem_of_cons. destruct (String.eqb_spec k' k); [done|].
  by rewrite IH.
Qed.
Lemma find_app {A} (f : A -> bool) l1 l2 :
  List.find f (l1 ++ l2) = match List.find f l1 with Some x => Some x | None => List.find f l2 end.
Proof. induction l1 as [|x l1 IH]; [done|]. cbn. by destruct (f x). Qed.

(** A row of such a table: its id, the index or namespace it is a run of, and
    when it began. *)
Class RunTableRow (Row : Type) := { row_id : Row -> nat; row_owner : Row -> nat; row_capturedAt : Row -> Z }.
(** What differs between the tables: when a reading was taken; whether it
    continues a run; the run with it; the run it opens after the one before it, if
    any; and what becomes of that one. *)
Class RunSeries (Row Reading : Type) `{RunTableRow Row} := {
  row_at : Reading -> Z;
  continues : Row -> Reading -> bool;
  extended : Reading -> Row -> Row;
  opened : nat -> nat -> option Row -> Reading -> Row;
  superseded : Row -> Row;
}.
(** A run keeps its id, its owner and when it began, whatever is written of it. *)
Class RunSeriesLaws (Row Reading : Type) `{RunSeries Row Reading} : Prop := {
  extended_id r (row : Row) : row_id (extended r row) = row_id row;
  extended_owner r (row : Row) : row_owner (extended r row) = row_owner row;
  extended_at r (row : Row) : row_capturedAt (extended r row) = row_capturedAt row;
  superseded_id (row : Row) : row_id (superseded row) = row_id row;
  superseded_owner (row : Row) : row_owner (superseded row) = row_owner row;
  superseded_at (row : Row) : row_capturedAt (superseded row) = row_capturedAt row;
  opened_id id owner run r : row_id (opened id owner run r : Row) = id;
  opened_owner id owner run r : row_owner (opened id owner run r : Row) = owner;
  opened_at id owner run r : row_capturedAt (opened id owner run r : Row) = row_at r;
}.

Section rows.
Context {Row : Type} {RowOps : RunTableRow Row}.

(** [order by captured_at desc limit 1] among the rows of an owner. *)
Definition owned (owner : nat) (rows : list Row) : list Row := List.filter (fun row => (row_owner row =? owner)%nat) rows.
Definition newest_run (rows : list Row) (owner : nat) : option Row :=
  head (stable_sort (fun a b => row_capturedAt b <=? row_capturedAt a) (owned owner rows)).

Definition rows_ok (next : nat) (rows : list Row) : Prop :=
  NoDup (row_id <$> rows) /\ (forall row, row ∈ rows -> (row_id row < next)%nat)
  /\ forall owner, StronglySorted (fun a b => row_capturedAt b <= row_capturedAt a) (owned owner rows).
End rows.

Record WriteCounts := { wc_inserted : Z; wc_extended : Z }.

Section run_table.
Context {Row Reading : Type} {RowOps : RunTableRow Row} {SeriesOps : RunSeries Row Reading}.

(** The readings that extend a run, with its id, and the rows the others open. *)
Record RunWrites := { rw_extend : list (nat * Reading); rw_insert : list Row; rw_superseded : list nat; rw_next : nat }.
Definition sort_reading (rows : list Row) (w : RunWrites) (reading : nat * Reading) : RunWrites :=
  let '(owner, r) := reading in
  let insert :=
    {| rw_extend := rw_extend w; rw_insert := opened (rw_next w) owner (newest_run rows owner) r :: rw_insert w;
       rw_superseded := match newest_run rows owner with Some run => rw_superseded w ++ [row_id run] | None => rw_superseded w end;
       rw_next := S (rw_next w) |} in
  match newest_run rows owner with
  | Some run =>
      if continues run r
      then {| rw_extend := rw_extend w ++ [(row_id run, r)]; rw_insert := rw_insert w; rw_superseded := rw_superseded w; rw_next := rw_next w |}
      else insert
  | None => insert
  end.
Definition sort_readings (next : nat) (rows : list Row) (readings : list (nat * Reading)) : RunWrites :=
  fold_left (sort_reading rows) readings {| rw_extend := []; rw_insert := []; rw_superseded := []; rw_next := next |}.

(** [update ... from unnest(...) as v where s.id = v.id]. *)
Definition apply_extend (extend : list (nat * Reading)) (row : Row) : Row :=
  match List.find (fun '(id, _) => (id =? row_id row)%nat) extend with Some (_, r) => extended r row | None => row end.
Definition apply_superseded (ids : list nat) (row : Row) : Row :=
  if existsb (Nat.eqb (row_id row)) ids then superseded row else row.

Definition write_runs (next : nat) (rows : list Row) (readings : list (nat * Reading)) : nat * list Row * WriteCounts :=
  let w := sort_readings next rows readings in
  (rw_next w,
   apply_superseded (rw_superseded w) <$> (rw_insert w ++ (apply_extend (rw_extend w) <$> rows)),
   {| wc_inserted := Z.of_nat (length (rw_insert w)); wc_extended := Z.of_nat (length (rw_extend w)) |}).

(** ** One owner at a time *)

(** What the two statements do to the runs of one owner, newest first. *)
Definition run_step (id owner : nat) (runs : list Row) (r : Reading) : list Row :=
  match runs with
  | [] => [opened id owner None r]
  | run :: older =>
      if continues run r then extended r run :: older
      else opened id owner (Some run) r :: superseded run :: older
  end.
Context {SeriesLaws : RunSeriesLaws Row Reading}.

Lemma newest_run_head next rows owner : rows_ok next rows -> newest_run rows owner = head (owned owner rows).
Proof.
  intros (_ & _ & Hs). unfold newest_run. rewrite stable_sort_id; [done|]. specialize (Hs owner).
  induction Hs as [|x l _ IH Hx]; constructor; [done|]. eapply Forall_impl; [done|]. intros y. cbn. lia.
Qed.
Lemma owned_in owner rows row : row ∈ owned owner rows <-> row ∈ rows /\ row_owner row = owner.
Proof. unfold owned. rewrite elem_of_filter_bool. by rewrite Nat.eqb_eq. Qed.
Lemma newest_run_in rows owner row : newest_run rows owner = Some row -> row ∈ rows /\ row_owner row = owner.
Proof.
  unfold newest_run. intros H%head_Some_elem_of. apply elem_of_stable_sort in H. by apply owned_in.
Qed.

(** ** The lists the readings are sorted into *)

Section readings.
Context (next : nat) (rows : list Row) (readings : list (nat * Reading)).
Hypothesis table_ok : rows_ok next rows.
Hypothesis one_each : NoDup readings.*1.
Let w := sort_readings next rows readings.

Definition reading_of (owner : nat) : option Reading := snd <$> List.find (fun '(o, _) => (o =? owner)%nat) readings.
Lemma reading_of_spec owner r : reading_of owner = Some r <-> (owner, r) ∈ readings.
Proof.
  unfold reading_of. clear w. induction readings as [|[o r'] l IH]; [cbn; split; [done|intros H; by apply elem_of_nil in H]|].
  cbn in one_each. apply NoDup_cons in one_each as [Ho Hl]. specialize (IH Hl). cbn [List.find]. rewrite elem_of_cons.
  destruct (Nat.eqb_spec o owner) as [->|Hne].
  - cbn. split; [intros [= ->]; by left|]. intros [[= ->]|H]; [done|]. exfalso. apply Ho. apply list_elem_of_fmap. by exists (owner, r).
  - rewrite IH. split; [by right|]. intros [[= -> ->]|H]; done.
Qed.

Lemma sorted_extend id r : (id, r) ∈ rw_extend w <->
  exists owner run, (owner, r) ∈ readings /\ newest_run rows owner = Some run /\ continues run r = true /\ row_id run = id.
Proof.
  subst w. unfold sort_readings. clear one_each. induction readings as [|[o r'] l IH] using rev_ind.
  - cbn. split; [intros H; by apply elem_of_nil in H|]. intros (o & run & H & _). by apply elem_of_nil in H.
  - rewrite fold_left_app. cbn [fold_left sort_reading]. setoid_rewrite elem_of_app. setoid_rewrite list_elem_of_singleton.
    destruct (newest_run rows o) as [run|] eqn:E; [destruct (continues run r') eqn:Ec|]; cbn [rw_extend].
    + rewrite elem_of_app, list_elem_of_singleton, IH. split.
      * intros [(o' & x & ? & ?)|[= -> ->]]; [exists o', x; tauto|]. exists o, run. tauto.
      * intros (o' & x & [?|[= -> ->]] & Hx & ?); [left; by exists o', x|]. right. rewrite E in Hx. injection Hx as ->. naive_solver.
    + rewrite IH. split; [intros (o' & x & ? & ?); exists o', x; tauto|].
      intros (o' & x & [?|[= -> ->]] & Hx & ?); [by exists o', x|]. rewrite E in Hx. injection Hx as ->. naive_solver congruence.
    + rewrite IH. split; [intros (o' & x & ? & ?); exists o', x; tauto|].
      intros (o' & x & [?|[= -> ->]] & Hx & ?); [by exists o', x|]. congruence.
Qed.
Lemma sorted_superseded id : id ∈ rw_superseded w <->
  exists owner r run, (owner, r) ∈ readings /\ newest_run rows owner = Some run /\ continues run r = false /\ row_id run = id.
Proof.
  subst w. unfold sort_readings. clear one_each. induction readings as [|[o r'] l IH] using rev_ind.
  - cbn. split; [intros H; by apply elem_of_nil in H|]. intros (o & r & run & H & _). by apply elem_of_nil in H.
  - rewrite fold_left_app. cbn [fold_left sort_reading]. setoid_rewrite elem_of_app. setoid_rewrite list_elem_of_singleton.
    destruct (newest_run rows o) as [run|] eqn:E; [destruct (continues run r') eqn:Ec|]; cbn [rw_superseded].
    + rewrite IH. split; [intros (o' & r & x & ? & ?); exists o', r, x; tauto|].
      intros (o' & r & x & [?|[= -> ->]] & Hx & ?); [by exists o', r, x|]. rewrite E in Hx. injection Hx as ->. naive_solver congruence.
    + rewrite elem_of_app, list_elem_of_singleton, IH. split.
      * intros [(o' & r & x & ? & ?)| ->]; [exists o', r, x; tauto|]. exists o, r', run. tauto.
      * intros (o' & r & x & [?|[= -> ->]] & Hx & ?); [left; by exists o', r, x|]. right. rewrite E in Hx. injection Hx as ->. naive_solver.
    + rewrite IH. split; [intros (o' & r & x & ? & ?); exists o', r, x; tauto|].
      intros (o' & r & x & [?|[= -> ->]] & Hx & ?); [by exists o', r, x|]. congruence.
Qed.

Lemma sorted_ids : (next <= rw_next w)%nat /\ NoDup (row_id <$> rw_insert w)
  /\ forall row, row ∈ rw_insert w -> (next <= row_id row < rw_next w)%nat.
Proof.
  subst w. unfold sort_readings. clear one_each. induction readings as [|[o r'] l IH] using rev_ind.
  - cbn. split; [done|]. split; [constructor|]. intros row H. by apply elem_of_nil in H.
  - rewrite fold_left_app. cbn [fold_left]. set (w := fold_left (sort_reading rows) l _) in *.
    assert (rw_next (sort_reading rows w (o, r')) = rw_next w /\ rw_insert (sort_reading rows w (o, r')) = rw_insert w \/
       rw_next (sort_reading rows w (o, r')) = S (rw_next w) /\
       rw_insert (sort_reading rows w (o, r')) = opened (rw_next w) o (newest_run rows o) r' :: rw_insert w) as [[-> ->]|[-> ->]]; [|done|].
    { cbn [sort_reading]. destruct (newest_run rows o) as [run|]; [destruct (continues run r')|]; cbn; auto. }
    destruct IH as (Hn & Hd & Hr). split; [lia|]. split.
    + cbn. rewrite opened_id. constructor; [|done]. intros (row & Hid & Hin)%list_elem_of_fmap. apply Hr in Hin. lia.
    + intros row [->|Hin]%elem_of_cons; [rewrite opened_id; lia|]. apply Hr in Hin. lia.
Qed.
Lemma sorted_insert owner : exists id,
  owned owner (rw_insert w) =
  match reading_of owner with
  | Some r =>
      match newest_run rows owner with
      | Some run => if continues run r then [] else [opened id owner (Some run) r]
      | None => [opened id owner None r]
      end
  | None => []
  end.
Proof.
  subst w. unfold sort_readings, reading_of. induction readings as [|[o r'] l IH] using rev_ind; [by exists O|].
  rewrite fmap_app in one_each. apply NoDup_app in one_each as (Hl & Ho & _). destruct (IH Hl) as [id Hid]. clear IH.
  rewrite fold_left_app. cbn [fold_left]. set (w := fold_left (sort_reading rows) l _) in *.
  rewrite find_app. destruct (Nat.eqb_spec o owner) as [->|Hne].
  - assert (List.find (fun '(o, _) => (o =? owner)%nat) l = None) as Hf.
    { destruct (List.find _ l) as [[o r]|] eqn:E; [|done]. apply find_some in E as [Hin <-%Nat.eqb_eq].
      exfalso. apply (Ho o); [|cbn; by left]. apply list_elem_of_fmap. exists (o, r). split; [done|]. by apply list_elem_of_In. }
    rewrite Hf in Hid |- *. cbn in Hid |- *. rewrite Nat.eqb_refl. cbn. exists (rw_next w).
    unfold owned in *. destruct (newest_run rows owner) as [run|]; [destruct (continues run r')|];
      cbn [rw_insert List.filter]; rewrite ?opened_owner, ?Nat.eqb_refl, Hid; done.
  - exists id. cbn [List.find]. destruct (Nat.eqb_spec o owner); [done|].
    replace (owned owner (rw_insert (sort_reading rows w (o, r')))) with (owned owner (rw_insert w)).
    { rewrite Hid. by destruct (List.find _ l). }
    cbn [sort_reading]. destruct (newest_run rows o) as [run|]; [destruct (continues run r')|]; cbn; try done;
      rewrite opened_owner; by destruct (Nat.eqb_spec o owner).
Qed.

(** ** What the statements do to a row *)

Lemma same_row row row' : row ∈ rows -> row' ∈ rows -> row_id row = row_id row' -> row = row'.
Proof.
  destruct table_ok as (Hn & _). intros H H' E. clear -Hn H H' E. induction rows as [|x l IH]; [by apply elem_of_nil in H|].
  cbn in Hn. apply NoDup_cons in Hn as [Hx Hl]. apply elem_of_cons in H as [->|H], H' as [->|H']; [done| | |by apply IH].
  - exfalso. apply Hx. rewrite E. apply list_elem_of_fmap. by exists row'.
  - exfalso. apply Hx. rewrite <- E. apply list_elem_of_fmap. by exists row.
Qed.
Lemma extend_row row : row ∈ rows ->
  apply_extend (rw_extend w) row =
  match reading_of (row_owner row), newest_run rows (row_owner row) with
  | Some r, Some run => if (row_id run =? row_id row)%nat && continues run r then extended r row else row
  | _, _ => row
  end.
Proof.
  intros Hin. unfold apply_extend. destruct (List.find _ (rw_extend w)) as [[id r]|] eqn:E.
  - apply find_some in E as [Hw E%Nat.eqb_eq]. apply list_elem_of_In, sorted_extend in Hw as (o & run & Hr & Hn & Hc & <-).
    destruct (newest_run_in _ _ _ Hn) as [Hrun Ho]. apply (same_row run row Hrun Hin) in E. subst run.
    rewrite Ho, Hn. apply reading_of_spec in Hr as ->. by rewrite Nat.eqb_refl, Hc.
  - destruct (reading_of (row_owner row)) as [r|] eqn:Er; [|done]. destruct (newest_run rows (row_owner row)) as [run|] eqn:En; [|done].
    destruct (Nat.eqb_spec (row_id run) (row_id row)) as [Ei|]; [|done]. destruct (continues run r) eqn:Ec; [|done].
    apply reading_of_spec in Er. assert ((row_id run, r) ∈ rw_extend w) as Hw by (apply sorted_extend; by exists (row_owner row), run).
    apply list_elem_of_In in Hw. apply (find_none _ _ E) in Hw. cbn in Hw. by rewrite Ei, Nat.eqb_refl in Hw.
Qed.
Lemma superseded_row row row' : row ∈ rows -> row_id row' = row_id row ->
  apply_superseded (rw_superseded w) row' =
  match reading_of (row_owner row), newest_run rows (row_owner row) with
  | Some r, Some run => if (row_id run =? row_id row)%nat && negb (continues run r) then superseded row' else row'
  | _, _ => row'
  end.
Proof.
  intros Hin Hid. unfold apply_superseded. rewrite Hid. destruct (existsb _ (rw_superseded w)) eqn:E.
  - apply existsb_elem in E as (id & Hw & <-%Nat.eqb_eq). apply sorted_superseded in Hw as (o & r & run & Hr & Hn & Hc & Ei).
    destruct (newest_run_in _ _ _ Hn) as [Hrun Ho]. apply (same_row run row Hrun Hin) in Ei. subst run.
    rewrite Ho, Hn. apply reading_of_spec in Hr as ->. by rewrite Nat.eqb_refl, Hc.
  - destruct (reading_of (row_owner row)) as [r|] eqn:Er; [|done]. destruct (newest_run rows (row_owner row)) as [run|] eqn:En; [|done].
    destruct (Nat.eqb_spec (row_id run) (row_id row)) as [Ei|]; [|done]. destruct (continues run r) eqn:Ec; [done|].
    apply reading_of_spec in Er. exfalso. apply not_true_iff_false in E. apply E. apply existsb_elem. exists (row_id run).
    split; [apply sorted_superseded; by exists (row_owner row), r, run|]. by apply Nat.eqb_eq.
Qed.

Lemma owned_fmap owner (f : Row -> Row) l : (forall row, row_owner (f row) = row_owner row) ->
  owned owner (f <$> l) = f <$> owned owner l.
Proof. intros H. unfold owned. induction l as [|x l IH]; [done|]. cbn. rewrite H. destruct (_ =? owner)%nat; cbn; by rewrite <- IH. Qed.
Lemma apply_extend_same extend row : row_id (apply_extend extend row) = row_id row /\ row_owner (apply_extend extend row) = row_owner row.
Proof.
  unfold apply_extend. destruct (List.find _ extend) as [[id r]|]; [|done]. by rewrite extended_id, extended_owner.
Qed.
Lemma apply_superseded_same ids row : row_id (apply_superseded ids row) = row_id row /\ row_owner (apply_superseded ids row) = row_owner row.
Proof. unfold apply_superseded. destruct (existsb _ _); [|done]. by rewrite superseded_id, superseded_owner. Qed.
Lemma fresh_row_kept row : (next <= row_id row)%nat -> apply_superseded (rw_superseded w) row = row.
Proof.
  intros Hr. unfold apply_superseded. destruct (existsb _ _) eqn:E; [|done]. exfalso.
  apply existsb_elem in E as (id & Hw & <-%Nat.eqb_eq). apply sorted_superseded in Hw as (o & r & run & _ & Hn & _ & Ei).
  apply newest_run_in in Hn as [Hin _]. destruct table_ok as (_ & Hlt & _). apply Hlt in Hin. lia.
Qed.

(** The two statements write each owner's runs as one reading at a time would,
    and leave an owner alone that was not read. *)
Lemma write_runs_owned owner : exists id,
  owned owner (write_runs next rows readings).1.2 =
  match reading_of owner with Some r => run_step id owner (owned owner rows) r | None => owned owner rows end.
Proof.
  destruct (sorted_insert owner) as [id Hid]. exists id. cbn [write_runs fst snd]. fold w.
  rewrite owned_fmap by (intros; apply apply_superseded_same). unfold owned at 1. rewrite List.filter_app.
  fold (owned owner (rw_insert w)) (owned owner (apply_extend (rw_extend w) <$> rows)).
  rewrite owned_fmap by (intros; apply apply_extend_same). rewrite fmap_app, <- list_fmap_compose.
  assert (Hnew : apply_superseded (rw_superseded w) <$> owned owner (rw_insert w) = owned owner (rw_insert w)).
  { rewrite <- (list_fmap_id (owned owner (rw_insert w))) at 2. apply list_fmap_ext. intros i row Hi%list_elem_of_lookup_2.
    apply owned_in in Hi as [Hi _]. apply fresh_row_kept. destruct sorted_ids as (_ & _ & Hr). apply (Hr row Hi). }
  rewrite Hnew, Hid. clear Hnew Hid.
  pose proof (newest_run_head next rows owner table_ok) as Hnw.
  assert (Hold : forall row, row ∈ owned owner rows -> (apply_superseded (rw_superseded w) ∘ apply_extend (rw_extend w)) row =
    match reading_of owner, newest_run rows owner with
    | Some r, Some run => if (row_id run =? row_id row)%nat then (if continues run r then extended r row else superseded row) else row
    | _, _ => row
    end).
  { intros row [Hin Ho]%owned_in. unfold compose. rewrite (superseded_row row) by (done || apply apply_extend_same).
    rewrite extend_row by done. rewrite Ho. destruct (reading_of owner) as [r|]; [|done].
    destruct (newest_run rows owner) as [run|]; [|done]. destruct (_ =? _)%nat; [|done]. by destruct (continues run r). }
  rewrite (list_fmap_ext _ _ _ (fun i row Hi => Hold row (list_elem_of_lookup_2 _ _ _ Hi))). clear Hold.
  destruct (reading_of owner) as [r|]; [|by rewrite list_fmap_id]. rewrite Hnw.
  destruct (owned owner rows) as [|run older] eqn:Eo; [done|]. cbn [head run_step fmap list_fmap]. rewrite Nat.eqb_refl.
  assert ((fun row => if (row_id run =? row_id row)%nat then if continues run r then extended r row else superseded row else row) <$> older = older) as ->.
  { rewrite <- (list_fmap_id older) at 2. apply list_fmap_ext. intros i row Hi%list_elem_of_lookup_2.
    destruct (Nat.eqb_spec (row_id run) (row_id row)) as [E|]; [|done]. exfalso.
    assert (NoDup (row_id <$> run :: older)) as Hnd.
    { rewrite <- Eo. unfold owned. apply NoDup_fmap_filter, table_ok. }
    cbn in Hnd. apply NoDup_cons in Hnd as [Hx _]. apply Hx. rewrite E. apply list_elem_of_fmap. by exists row. }
  by destruct (continues run r).
Qed.

Lemma write_runs_counts : let counts := (write_runs next rows readings).2 in
  wc_inserted counts + wc_extended counts = Z.of_nat (length readings).
Proof.
  cbn. fold w. subst w. unfold sort_readings. clear one_each. induction readings as [|[o r'] l IH] using rev_ind; [done|].
  rewrite fold_left_app, length_app. cbn [fold_left sort_reading length].
  destruct (newest_run rows o) as [run|]; [destruct (continues run r')|]; cbn [rw_insert rw_extend length]; rewrite ?length_app; cbn; lia.
Qed.

(** A table stays in order when the readings come after what it holds. *)
Hypothesis later : forall owner r row, (owner, r) ∈ readings -> row ∈ owned owner rows -> row_capturedAt row <= row_at r.

Lemma run_step_sorted id owner r runs :
  StronglySorted (fun a b => row_capturedAt b <= row_capturedAt a) runs ->
  (forall row, row ∈ runs -> row_capturedAt row <= row_at r) ->
  StronglySorted (fun a b => row_capturedAt b <= row_capturedAt a) (run_step id owner runs r).
Proof.
  intros Hs Hl. unfold run_step. destruct Hs as [|run older Hs Hr]; [by repeat constructor|].
  destruct (continues run r).
  - constructor; [done|]. by rewrite extended_at.
  - constructor; [constructor; [done|by rewrite superseded_at]|]. rewrite opened_at. constructor.
    + rewrite superseded_at. apply Hl. left.
    + apply Forall_forall. intros row Hin. apply Hl. by right.
Qed.
Lemma write_runs_ids : row_id <$> (write_runs next rows readings).1.2 = (row_id <$> rw_insert w) ++ (row_id <$> rows).
Proof.
  cbn [write_runs fst snd]. fold w. rewrite !fmap_app, <- !list_fmap_compose. f_equal; apply list_fmap_ext; intros i row _; cbn.
  - by rewrite (proj1 (apply_superseded_same _ _)).
  - by rewrite (proj1 (apply_superseded_same _ _)), (proj1 (apply_extend_same _ _)).
Qed.
Lemma write_runs_ok : rows_ok (write_runs next rows readings).1.1 (write_runs next rows readings).1.2.
Proof.
  destruct sorted_ids as (Hn & Hd & Hr). destruct table_ok as (Hd0 & Hr0 & Hs0). split_and!.
  - rewrite write_runs_ids. apply NoDup_app. split_and!; [done| |done].
    intros id (row & -> & Hi%Hr)%list_elem_of_fmap (row' & E & Hi'%Hr0)%list_elem_of_fmap. lia.
  - intros row Hin. assert (row_id row ∈ (row_id <$> rw_insert w) ++ (row_id <$> rows)) as Hid.
    { rewrite <- write_runs_ids. apply list_elem_of_fmap. by exists row. }
    cbn [write_runs fst snd]. fold w. apply elem_of_app in Hid as [(x & -> & Hx%Hr)%list_elem_of_fmap|(x & -> & Hx%Hr0)%list_elem_of_fmap]; lia.
  - intros owner. destruct (write_runs_owned owner) as [id ->]. destruct (reading_of owner) as [r|] eqn:E; [|done].
    apply run_step_sorted; [done|]. apply reading_of_spec in E. intros row. by apply later.
Qed.
End readings.
End run_table.

(** ** The dimension of a series *)

Section known_rows.
Context {Row : Type} (row_key : Row -> string).

(** [for (row of rows) map.set(key(row), row)]. *)
Definition remember (rows : list Row) (known : list (string * Row)) : list (string * Row) :=
  fold_left (fun known row => map_put (row_key row) row known) rows known.
Definition row_for (key : string) (rows : list Row) : option Row := List.find (fun row => String.eqb (row_key row) key) rows.

Lemma row_for_elem key rows row : NoDup (row_key <$> rows) -> row_for key rows = Some row <-> row ∈ rows /\ row_key row = key.
Proof.
  intros Hn. unfold row_for. induction rows as [|x l IH]; cbn; [split; [done|intros [H _]; by apply elem_of_nil in H]|].
  cbn in Hn. apply NoDup_cons in Hn as [Hx Hl]. rewrite elem_of_cons. destruct (String.eqb_spec (row_key x) key) as [E|E].
  - split; [intros [= ->]; auto|]. intros [[->|Hin] <-]; [done|]. exfalso. apply Hx. rewrite E. apply list_elem_of_fmap. by exists row.
  - rewrite (IH Hl). naive_solver.
Qed.
Lemma remember_get rows known key : NoDup (row_key <$> rows) ->
  map_get key (remember rows known) = match row_for key rows with Some row => Some row | None => map_get key known end.
Proof.
  unfold remember, row_for. revert known. induction rows as [|x l IH]; intros known Hn; [done|]. cbn in Hn.
  apply NoDup_cons in Hn as [Hx Hl]. cbn [fold_left List.find]. rewrite IH by done. rewrite map_get_put.
  destruct (String.eqb_spec (row_key x) key) as [E|]; [|done].
  destruct (List.find _ l) as [y|] eqn:Ey; [|done]. apply find_some in Ey as [Hin Ek%String.eqb_eq]. exfalso. apply Hx.
  rewrite E, <- Ek. apply list_elem_of_fmap. exists y. split; [done|]. by apply list_elem_of_In.
Qed.

End known_rows.

Section dimension.
Context {Row Item : Type} (row_id : Row -> nat) (row_key : Row -> string) (item_key : Item -> string).
(** The row made of an item; whether the unique index of the table takes a row for
    the item's; and which rows are read back after an insert. *)
Context (new_row : nat -> Item -> Row) (conflict : Row -> Item -> bool) (read_back : list Item -> Row -> bool).

(** [insert ... on conflict do nothing]. *)
Definition insert_row (table : nat * list Row) (item : Item) : nat * list Row :=
  let '(next, rows) := table in
  if existsb (fun row => conflict row item) rows then (next, rows) else (S next, rows ++ [new_row next item]).
Definition resolve_rows (next : nat) (rows : list Row) (missing : list (string * Row) -> list Item)
    : nat * list Row * list (string * Row) :=
  let known := remember row_key rows [] in
  match missing known with
  | [] => (next, rows, known)
  | items =>
      let '(next, rows) := fold_left insert_row items (next, rows) in
      (next, rows, remember row_key (List.filter (read_back items) rows) known)
  end.

Context (item_ok : Item -> Prop).
Hypothesis new_id : forall id item, row_id (new_row id item) = id.
Hypothesis new_key : forall id item, item_ok item -> row_key (new_row id item) = item_key item.
Hypothesis conflict_key : forall row item, item_ok item -> conflict row item = true -> row_key row = item_key item.

Definition dimension_ok (next : nat) (rows : list Row) : Prop :=
  NoDup (row_id <$> rows) /\ NoDup (row_key <$> rows) /\ forall row, row ∈ rows -> (row_id row < next)%nat.

(** Items that are new get a row each, with ids of their own. *)
Lemma insert_rows items next rows :
  (forall item, item ∈ items -> item_ok item) ->
  dimension_ok next rows -> NoDup (item_key <$> items) -> (forall item, item ∈ items -> row_for row_key (item_key item) rows = None) ->
  exists new, fold_left insert_row items (next, rows) = ((next + length items)%nat, rows ++ new)
    /\ dimension_ok (next + length items) (rows ++ new)
    /\ Forall2 (fun row item => row_key row = item_key item /\ (next <= row_id row)%nat /\ row = new_row (row_id row) item) new items.
Proof.
  revert next rows. induction items as [|item items IH]; intros next rows Hall Hok Hn Hm.
  { exists []. cbn. rewrite app_nil_r, Nat.add_0_r. auto. }
  cbn in Hn. apply NoDup_cons in Hn as [Hi Hn]. cbn [fold_left insert_row].
  assert (Hfree : item_key item ∉ row_key <$> rows).
  { intros (row & E & Hin)%list_elem_of_fmap. specialize (Hm item ltac:(left)). destruct Hok as (_ & Hk & _).
    assert (row_for row_key (item_key item) rows = Some row) by (apply row_for_elem; auto). congruence. }
  assert (existsb (fun row => conflict row item) rows = false) as ->.
  { apply not_true_iff_false. intros (row & Hin & Hcf)%existsb_elem. apply Hfree.
    rewrite <- (conflict_key row item (Hall item ltac:(left)) Hcf).
    apply list_elem_of_fmap. by exists row. }
  destruct Hok as (Hid & Hk & Hlt).
  destruct (IH (S next) (rows ++ [new_row next item])) as (new & E & Hok' & Hnew).
  - intros it Hit. apply Hall. by right.
  - split_and!.
    + rewrite fmap_app. apply NoDup_app. split_and!; [done| |apply NoDup_singleton].
      intros id (row & -> & Hin%Hlt)%list_elem_of_fmap. cbn. rewrite new_id, list_elem_of_singleton. lia.
    + rewrite fmap_app. apply NoDup_app. split_and!; [done| |apply NoDup_singleton].
      intros k Hin. cbn. rewrite new_key, list_elem_of_singleton by (apply Hall; left). intros ->. done.
    + intros row [Hin%Hlt|Hin%list_elem_of_singleton]%elem_of_app; [lia|]. subst. rewrite new_id. lia.
  - done.
  - intros it Hit. unfold row_for. rewrite find_app. fold (row_for row_key (item_key it) rows). rewrite Hm by (by right).
    cbn. rewrite new_key by (apply Hall; left). destruct (String.eqb_spec (item_key item) (item_key it)) as [E|]; [|done].
    exfalso. apply Hi. rewrite E. apply list_elem_of_fmap. by exists it.
  - exists (new_row next item :: new). rewrite <- app_assoc in E, Hok'. cbn [app length] in *.
    rewrite <- Nat.add_succ_comm in *. split_and!; [done|done|]. constructor; [rewrite new_id, new_key by (apply Hall; left); done|].
    eapply Forall2_impl; [done|]. cbn. intros row it (? & ? & ?). split_and!; [done|lia|done].
Qed.

(** Afterwards the map is the table: it gives every key its row, old or new. *)
Lemma resolve_rows_spec next rows missing :
  let items := missing (remember row_key rows []) in
  (forall item, item ∈ items -> item_ok item) ->
  (forall id item, item ∈ items -> read_back items (new_row id item) = true) ->
  dimension_ok next rows -> NoDup (item_key <$> items) -> (forall item, item ∈ items -> row_for row_key (item_key item) rows = None) ->
  exists new, let '(next', rows', known) := resolve_rows next rows missing in
    next' = (next + length items)%nat /\ rows' = rows ++ new /\ dimension_ok next' rows'
    /\ Forall2 (fun row item => row_key row = item_key item /\ (next <= row_id row)%nat /\ row = new_row (row_id row) item) new items
    /\ forall key, map_get key known = row_for row_key key rows'.
Proof.
  intros items Hc Hb Hok Hn Hm. unfold resolve_rows. fold items. destruct items as [|item its] eqn:Ei.
  { exists []. rewrite app_nil_r. cbn [length]. rewrite Nat.add_0_r. split_and!; [done|done|done|constructor|].
    intros key. rewrite remember_get by apply Hok. by destruct (row_for row_key key rows). }
  rewrite <- Ei in *. clear Ei item its. destruct (insert_rows items next rows Hc Hok Hn Hm) as (new & E & Hok' & Hnew).
  rewrite E. exists new. split_and!; [done|done|done|done|]. intros key.
  assert (NoDup (row_key <$> List.filter (read_back items) (rows ++ new))) as Hnd by (apply NoDup_fmap_filter, Hok').
  rewrite remember_get by done. rewrite remember_get by apply Hok. destruct (row_for row_key key (List.filter _ _)) as [row|] eqn:Er.
  - apply row_for_elem in Er as [Hin Hk]; [|done]. symmetry. apply row_for_elem; [apply Hok'|].
    by apply elem_of_filter_bool in Hin as [Hin _].
  - destruct (row_for row_key key rows) as [row|] eqn:Eo.
    + symmetry. apply row_for_elem; [apply Hok'|]. apply row_for_elem in Eo as [Hin Hk]; [|apply Hok]. split; [|done]. apply elem_of_app. by left.
    + change (None = row_for row_key key (rows ++ new)). unfold row_for. rewrite find_app. fold (row_for row_key key rows). rewrite Eo.
      destruct (List.find _ new) as [row|] eqn:Ew; [|done]. exfalso. apply find_some in Ew as [Hin Hk].
      apply list_elem_of_In in Hin. destruct (list_elem_of_lookup_1 _ _ Hin) as [i Hi].
      destruct (Forall2_lookup_l _ _ _ _ _ Hnew Hi) as (item & Hit & _ & _ & Erow).
      unfold row_for in Er. apply find_none with (x := row) in Er; [congruence|].
      apply list_elem_of_In, elem_of_filter_bool. split; [apply elem_of_app; by right|].
      rewrite Erow. apply Hb. by apply list_elem_of_lookup_2 in Hit.
Qed.
End dimension.

(** ** A series over its dimension *)

Lemma rows_ok_le `{RunTableRow Row} next next' (rows : list Row) : (next <= next')%nat -> rows_ok next rows -> rows_ok next' rows.
Proof. intros Hle (Hd & Hlt & Hs). split_and!; [done| |done]. intros row Hr%Hlt. lia. Qed.
Lemma owned_none `{RunTableRow Row} owner (rows : list Row) : (forall row, row ∈ rows -> row_owner row <> owner) -> owned owner rows = [].
Proof. intros Hn. apply filter_nothing. intros row Hr%Hn. by apply Nat.eqb_neq. Qed.
Lemma NoDup_fmap_elem {A B} (f : A -> B) l x y : NoDup (f <$> l) -> x ∈ l -> y ∈ l -> f x = f y -> x = y.
Proof.
  induction l as [|z l IH]; intros Hn Hx Hy E; [by apply elem_of_nil in Hx|]. cbn in Hn. apply NoDup_cons in Hn as [Hz Hl].
  apply elem_of_cons in Hx as [->|Hx], Hy as [->|Hy]; [done| | |by apply IH].
  - exfalso. apply Hz. rewrite E. apply list_elem_of_fmap. by exists y.
  - exfalso. apply Hz. rewrite <- E. apply list_elem_of_fmap. by exists x.
Qed.

Section series.
Context {Dim Item Row : Type} {RowOps : RunTableRow Row} {SeriesOps : RunSeries Row (Z * Item)} {SeriesLaws : RunSeriesLaws Row (Z * Item)}.
Context (dim_id : Dim -> nat) (dim_key : Dim -> string) (item_key : Item -> string).
Hypothesis read_at : forall now item, row_at (now, item) = now.

(** The runs of what has a key, newest first. *)
Definition runs_of (dims : list Dim) (rows : list Row) (key : string) : list Row :=
  match row_for dim_key key dims with Some d => owned (dim_id d) rows | None => [] end.
Definition item_for (key : string) (items : list Item) : option Item := List.find (fun item => String.eqb (item_key item) key) items.
Definition readings_for (now : Z) (dims : list Dim) (items : list Item) : list (nat * (Z * Item)) :=
  omap (fun item => (fun d => (dim_id d, (now, item))) <$> row_for dim_key (item_key item) dims) items.
(** A table whose rows belong to the dimension and are no later than now. *)
Definition series_ok (next : nat) (now : Z) (rows : list Row) : Prop :=
  rows_ok next rows /\ forall row, row ∈ rows -> (row_owner row < next)%nat /\ row_capturedAt row <= now.

Lemma item_for_spec items key item : NoDup (item_key <$> items) -> item_for key items = Some item <-> item ∈ items /\ item_key item = key.
Proof. apply (row_for_elem item_key). Qed.

Context (next next' : nat) (dims dims' : list Dim) (rows : list Row) (items : list Item) (now : Z).
Hypothesis next_le : (next <= next')%nat.
Hypothesis dims_ok : dimension_ok dim_id dim_key next' dims'.
Hypothesis dims_kept : forall key d, row_for dim_key key dims = Some d -> exists d', row_for dim_key key dims' = Some d' /\ dim_id d' = dim_id d.
Hypothesis dims_new : forall key d, row_for dim_key key dims' = Some d -> row_for dim_key key dims = None -> (next <= dim_id d)%nat.
Hypothesis rows_fine : series_ok next now rows.
Hypothesis items_distinct : NoDup (item_key <$> items).
Hypothesis items_known : forall item, item ∈ items -> exists d, row_for dim_key (item_key item) dims' = Some d.
Let readings := readings_for now dims' items.

Lemma reading_elem id r : (id, r) ∈ readings <->
  exists item d, r = (now, item) /\ item ∈ items /\ row_for dim_key (item_key item) dims' = Some d /\ dim_id d = id.
Proof.
  unfold readings, readings_for. rewrite list_elem_of_omap. split.
  - intros (item & Hi & (d & Hd & [= -> ->])%fmap_Some). by exists item, d.
  - intros (item & d & -> & Hi & Hd & <-). exists item. by rewrite Hd.
Qed.
Lemma readings_distinct : NoDup readings.*1.
Proof.
  unfold readings, readings_for. assert (forall l, NoDup (item_key <$> l) -> (forall item, item ∈ l -> item ∈ items) ->
    NoDup (omap (fun item => (fun d => (dim_id d, (now, item))) <$> row_for dim_key (item_key item) dims') l).*1) as Hgen; [|by apply Hgen].
  induction l as [|x l IH]; intros Hl Hsub; [constructor|]. cbn in Hl. apply NoDup_cons in Hl as [Hx Hl].
  specialize (IH Hl (fun i Hi => Hsub i ltac:(by right))). cbn. destruct (items_known x (Hsub x ltac:(left))) as [d Hd]. rewrite Hd. cbn.
  constructor; [|done]. intros ([id r] & E & (y & Hy & (d' & Hd' & [= -> _])%fmap_Some)%list_elem_of_omap)%list_elem_of_fmap. cbn in E.
  apply row_for_elem in Hd as [Hin Hk], Hd' as [Hin' Hk']; [|apply dims_ok..].
  assert (d = d') as -> by (eapply (NoDup_fmap_elem dim_id); [apply dims_ok|done..]).
  apply Hx. apply list_elem_of_fmap. exists y. split; [congruence|done].
Qed.
Lemma written_row id owner runs item row :
  (forall x, x ∈ runs -> row_capturedAt x <= now) -> row ∈ run_step id owner runs (now, item) -> row_capturedAt row <= now.
Proof.
  intros Hx. unfold run_step. destruct runs as [|run older].
  - intros ->%list_elem_of_singleton. rewrite opened_at, read_at. lia.
  - destruct (continues run (now, item)); intros [->|Hr]%elem_of_cons.
    + rewrite extended_at. apply Hx. left.
    + apply Hx. by right.
    + rewrite opened_at, read_at. lia.
    + apply elem_of_cons in Hr as [->|Hr]; [rewrite superseded_at; apply Hx; left|apply Hx; by right].
Qed.

(** A collect of the items: every key's runs are what its own reading makes of
    them, and those of a key that was not read are as they were. *)
Lemma series_step :
  let '(next2, rows', _) := write_runs next' rows readings in
  (next' <= next2)%nat /\ series_ok next2 now rows'
  /\ forall key, exists id owner,
       runs_of dims' rows' key =
       match item_for key items with Some item => run_step id owner (runs_of dims rows key) (now, item) | None => runs_of dims rows key end.
Proof.
  destruct rows_fine as [Hrows Hown]. pose proof (rows_ok_le _ _ _ next_le Hrows) as Hrows'.
  assert (Hlater : forall owner r row, (owner, r) ∈ readings -> row ∈ owned owner rows -> row_capturedAt row <= row_at r).
  { intros owner r row (item & d & -> & _)%reading_elem [Hr _]%owned_in. rewrite read_at. by apply Hown. }
  pose proof (write_runs_ok next' rows readings Hrows' readings_distinct Hlater) as Hok.
  pose proof (write_runs_owned next' rows readings Hrows' readings_distinct) as Hof.
  pose proof (sorted_ids next' rows readings) as (Hnx & _).
  destruct (write_runs next' rows readings) as [[next2 rows'] counts] eqn:Ew. cbn [fst snd] in *.
  assert (next2 = rw_next (sort_readings next' rows readings)) as -> by (unfold write_runs in Ew; congruence).
  split; [done|]. split; [split; [done|]|].
  - intros row Hr. destruct (Hof (row_owner row)) as [id Ho]. assert (row ∈ owned (row_owner row) rows') as Hr' by by apply owned_in.
    rewrite Ho in Hr'. destruct (reading_of readings (row_owner row)) as [r|] eqn:Er.
    + apply reading_of_spec, reading_elem in Er as (item & d & -> & Hi & Hd & E); [|apply readings_distinct]. split.
      * rewrite <- E. apply row_for_elem in Hd as [Hd _]; [|apply dims_ok]. apply dims_ok in Hd. lia.
      * eapply written_row; [|done]. intros x [Hx _]%owned_in. by apply Hown.
    + apply owned_in in Hr' as [Hr' _]. apply Hown in Hr' as []. split; [lia|done].
  - intros key. unfold runs_of. destruct (row_for dim_key key dims') as [d'|] eqn:Ed'.
    + destruct (Hof (dim_id d')) as [id Ho]. rewrite Ho. clear Ho. exists id, (dim_id d').
      assert (Hrun : match row_for dim_key key dims with Some d => owned (dim_id d) rows | None => [] end = owned (dim_id d') rows).
      { destruct (row_for dim_key key dims) as [d|] eqn:Ed.
        - destruct (dims_kept key d Ed) as (d2 & Ed2 & Ei). rewrite Ed' in Ed2. injection Ed2 as <-. by rewrite Ei.
        - specialize (dims_new key d' Ed' Ed). rewrite owned_none; [done|]. intros x [Hx _]%Hown E. lia. }
      rewrite Hrun. clear Hrun. destruct (item_for key items) as [item|] eqn:Ei.
      * apply item_for_spec in Ei as [Hi Hk]; [|done]. assert (reading_of readings (dim_id d') = Some (now, item)) as ->; [|done].
        apply reading_of_spec; [apply readings_distinct|]. apply reading_elem. exists item, d'. by rewrite Hk.
      * destruct (reading_of readings (dim_id d')) as [r|] eqn:Erd; [|done]. exfalso.
        apply reading_of_spec, reading_elem in Erd as (item & d & -> & Hi & Hd & E); [|apply readings_distinct].
        apply row_for_elem in Hd as [Hd Hk], Ed' as [Hd' Hk']; [|apply dims_ok..].
        assert (d = d') as -> by (eapply (NoDup_fmap_elem dim_id); [apply dims_ok|done..]).
        assert (item_for key items = Some item) by (apply item_for_spec; [done|]; split; [done|congruence]). congruence.
    + exists O, O. destruct (row_for dim_key key dims) as [d|] eqn:Ed.
      { destruct (dims_kept key d Ed) as (d2 & Ed2 & _). congruence. }
      destruct (item_for key items) as [item|] eqn:Ei; [|done]. exfalso.
      apply item_for_spec in Ei as [Hi <-]; [|done]. destruct (items_known item Hi) as [d Hd]. congruence.
Qed.
End series.
