(* ===== verification/SpecKey.v ===== *)
(** The identity of an index in the store: [shapeKey], [withoutHidden],
    [canonicalSpec] and [hiddenOf] of [apps/api/src/jobs/collect.ts], and what
    they rely on of the [jsonb] column [cluster_indexes.spec] and its digest
    ([apps/api/src/db/schema.ts]). *)
From S2P Require Import Prelude EngineTypes Creates Cooldowns ClassifyJob.

Definition withoutHidden (spec : json) : json :=
  match spec with
  | JObj entries => JObj (List.filter (fun '(key, _) => negb (String.eqb key "hidden")) entries)
  | _ => spec
  end.
Definition hidden_entry (entry : string * json) : bool :=
  String.eqb (fst entry) "hidden" && match snd entry with JBool b => b | _ => false end.
Definition hiddenOf (spec : json) : bool :=
  match spec with JObj entries => existsb hidden_entry entries | _ => false end.

Section keys.
Context `{Locale}.

Definition entry_text (entry : string * string) : string :=
  quote_char +:+ json_chars (fst entry) +:+ quote_char +:+ ":" +:+ snd entry.
Fixpoint canonicalSpec (spec : json) : string :=
  match spec with
  | JArr items => "[" +:+ join "," (map canonicalSpec items) +:+ "]"
  | JObj entries =>
      "{" +:+ join "," (map entry_text (stable_sort (fun a b => localeLe (fst a) (fst b))
        (map (fun entry => (fst entry, canonicalSpec (snd entry))) entries))) +:+ "}"
  | JNull => "null"
  | JBool b => constant_text (CBool b)
  | JNum q => constant_text (CNum q)
  | JStr s => constant_text (CStr s)
  end.
Definition shapeKey (database collection indexName : string) (spec : json) : string :=
  watchKey database collection indexName +:+ nul_char +:+ canonicalSpec (withoutHidden spec).
End keys.

(** ** JSON up to the order of keys *)

Lemma json_ind' (P : json -> Prop) :
  P JNull -> (forall b, P (JBool b)) -> (forall q, P (JNum q)) -> (forall s, P (JStr s)) ->
  (forall l, Forall P l -> P (JArr l)) -> (forall es, Forall (fun e => P (snd e)) es -> P (JObj es)) -> forall j, P j.
Proof.
  intros Hn Hb Hq Hs Ha Ho. fix IH 1. intros [|b|q|s|l|es]; [exact Hn|apply Hb|apply Hq|apply Hs| |].
  - apply Ha. induction l as [|x l IHl]; constructor; [apply IH|exact IHl].
  - apply Ho. induction es as [|[k v] es IHl]; constructor; [apply IH|exact IHl].
Qed.

(** The same value, its objects' entries in whatever order. *)
Inductive same_value : json -> json -> Prop :=
| same_atom v : same_value v v
| same_array l l' : Forall2 same_value l l' -> same_value (JArr l) (JArr l')
| same_object es es1 es' :
    Permutation es es1 -> Forall2 (fun a b => fst a = fst b /\ same_value (snd a) (snd b)) es1 es' ->
    same_value (JObj es) (JObj es').

(** No two of the keys are equal to [localeCompare], which takes texts that are
    canonically equivalent for equal. *)
Definition told_apart `{Locale} (keys : list string) : Prop :=
  forall a b, a ∈ keys -> b ∈ keys -> localeLe a b = true -> localeLe b a = true -> a = b.
(** No object has a key twice, or two that are equal to [localeCompare]. *)
Fixpoint distinct_keys `{Locale} (j : json) : Prop :=
  match j with
  | JArr l => foldr (fun x p => distinct_keys x /\ p) True l
  | JObj es => NoDup es.*1 /\ told_apart es.*1 /\ foldr (fun e p => distinct_keys (snd e) /\ p) True es
  | _ => True
  end.
Lemma foldr_and {A} (P : A -> Prop) l : foldr (fun x p => P x /\ p) True l <-> Forall P l.
Proof. induction l as [|x l IH]; cbn; [split; [constructor|done]|]. rewrite Forall_cons. tauto. Qed.

(** [localeCompare] orders the texts it compares, the ones it takes for equal
    together. *)
Class LocaleOrder `{Locale} : Prop := {
  locale_total a b : localeLe a b = false -> localeLe b a = true;
  locale_trans a b c : localeLe a b = true -> localeLe b c = true -> localeLe a c = true;
}.

Section canonical.
Context `{LocaleOrder}.

Lemma sorted_by_keys {V} (l1 l2 : list (string * V)) :
  NoDup l1.*1 -> told_apart l1.*1 -> Permutation l1 l2 ->
  stable_sort (fun a b => localeLe (fst a) (fst b)) l1 = stable_sort (fun a b => localeLe (fst a) (fst b)) l2.
Proof.
  intros Hn Ha Hp. set (le := fun a b : string * V => localeLe (fst a) (fst b)).
  assert (Ht : forall x y, le x y = false -> le y x = true) by (intros; by apply locale_total).
  assert (Hr : forall x y z, le x y = true -> le y z = true -> le x z = true) by (intros x y z; apply locale_trans).
  assert (Hs : forall l, StronglySorted (fun x y => le x y = true) (stable_sort le l)) by (intros; by apply stable_sort_sorted).
  assert (Hu : forall s1 s2, NoDup s1.*1 -> told_apart s1.*1 -> StronglySorted (fun x y => le x y = true) s1 -> StronglySorted (fun x y => le x y = true) s2 ->
    Permutation s1 s2 -> s1 = s2).
  { clear -H0. intros s1. induction s1 as [|x s1 IH]; intros s2 Hn Ha S1 S2 HP; [by apply Permutation_nil in HP|].
    destruct s2 as [|y s2]; [symmetry in HP; by apply Permutation_nil_cons in HP|].
    apply StronglySorted_inv in S1 as [S1 F1], S2 as [S2 F2]. rewrite List.Forall_forall in F1, F2.
    assert (x = y) as ->.
    { assert (x ∈ y :: s2) as [->|Hx]%elem_of_cons by (rewrite <- HP; left); [done|].
      assert (y ∈ x :: s1) as [->|Hy]%elem_of_cons by (rewrite HP; left); [done|].
      rewrite list_elem_of_In in Hx. specialize (F2 x Hx). specialize (F1 y (proj1 (list_elem_of_In _ _) Hy)).
      cbn in Hn. apply NoDup_cons in Hn as [Hn _]. exfalso. apply Hn.
      rewrite (Ha _ _ (list_elem_of_here _ _) (list_elem_of_further _ _ _ (list_elem_of_fmap_2 fst s1 y Hy)) F1 F2). apply list_elem_of_fmap. by exists y. }
    f_equal. cbn in Hn. apply NoDup_cons in Hn as [_ Hn]. apply IH; [done| |done|done|by apply Permutation_cons_inv in HP].
    intros a b Hx Hy. apply Ha; by right. }
  apply Hu; [| |done|done|].
  - rewrite (stable_sort_perm le l1). done.
  - intros a b Hx Hy. apply Ha; by rewrite <- (stable_sort_perm le l1).
  - rewrite !stable_sort_perm. done.
Qed.

(** The canonical text does not depend on the order of keys. *)
Lemma canonicalSpec_same a : forall b, same_value a b -> distinct_keys b -> canonicalSpec a = canonicalSpec b.
Proof.
  induction a as [|x|q|s|l IHl|es IHe] using json_ind'; intros b Hs Hd; inversion Hs as [|l0 l' Hl|es0 es1 es' Hp Hf]; subst; try done.
  - cbn [canonicalSpec]. do 3 f_equal. cbn in Hd. apply foldr_and in Hd. clear Hs. revert IHl Hd.
    induction Hl as [|x y l l' Hxy _ IH]; intros IHl Hd; [done|]. inversion IHl; inversion Hd; subst. cbn. f_equal; auto.
  - cbn [canonicalSpec]. do 3 f_equal. cbn in Hd. destruct Hd as (Hn & Ha & Hd). apply foldr_and in Hd.
    rewrite Hp in IHe. assert (Hk : es1.*1 = es'.*1).
    { clear -Hf. induction Hf as [|a b l l' [E _] _ IH]; [done|]. cbn. by rewrite E, IH. }
    assert (Hm : forall l : list (string * json), (map (fun e => (fst e, canonicalSpec (snd e))) l).*1 = l.*1).
    { intros l. induction l as [|e l IH]; [done|]. cbn. f_equal. apply IH. }
    rewrite (sorted_by_keys _ (map (fun e => (fst e, canonicalSpec (snd e))) es1)); [do 2 f_equal|..].
    + clear -IHe Hf Hd. induction Hf as [|a b l l' [E Hv] _ IH]; [done|]. inversion IHe; inversion Hd; subst. cbn.
      rewrite E. f_equal; [f_equal; auto|auto].
    + rewrite Hm, Hp, Hk. done.
    + rewrite Hm. intros x y Hx Hy. apply Ha; by rewrite <- Hk, <- Hp.
    + by apply Permutation_map.
Qed.
End canonical.

Lemma same_withoutHidden a b : same_value a b -> same_value (withoutHidden a) (withoutHidden b).
Proof.
  intros [v|l l' Hl|es es1 es' Hp Hf]; cbn; [constructor|by constructor|].
  apply (same_object _ (List.filter (fun '(key, _) => negb (String.eqb key "hidden")) es1)).
  - clear -Hp. induction Hp as [|[k v] l l' _ IH|[k v] [k' v'] l|]; cbn; [done| | |by etrans].
    + destruct (negb _); [by constructor|done].
    + destruct (negb (String.eqb k "hidden")), (negb (String.eqb k' "hidden")); try done. constructor.
  - clear -Hf. induction Hf as [|[k v] [k' v'] l l' [E Hv] _ IH]; [constructor|]. cbn in *. subst k'.
    destruct (negb _); [by constructor|done].
Qed.
Lemma same_hiddenOf a b : same_value a b -> hiddenOf a = hiddenOf b.
Proof.
  intros [v|l l' Hl|es es1 es' Hp Hf]; cbn; [done|done|]. trans (existsb hidden_entry es1).
  - clear -Hp. induction Hp as [|x l l' _ IH|x y l|]; cbn; [done|by rewrite IH| |congruence].
    by destruct (hidden_entry x), (hidden_entry y).
  - clear -Hf. induction Hf as [|[k v] [k' v'] l l' [E Hv] _ IH]; [done|]. cbn in *. subst k'. rewrite IH. f_equal.
    unfold hidden_entry. cbn. f_equal. by destruct Hv.
Qed.
Lemma withoutHidden_distinct `{Locale} s : distinct_keys s -> distinct_keys (withoutHidden s).
Proof.
  destruct s as [| | | | |es]; try done. cbn. intros (Hn & Ha & Hd). split; [by apply NoDup_fmap_filter|]. split.
  { intros a b (x & -> & [Hx _]%elem_of_filter_bool)%list_elem_of_fmap (y & -> & [Hy _]%elem_of_filter_bool)%list_elem_of_fmap. apply Ha; by apply list_elem_of_fmap_2. }
  apply foldr_and. apply foldr_and in Hd. by apply Forall_filter_bool.
Qed.

(** ** The column *)

(** What postgres gives back of a value stored as [jsonb], and the digest of the
    specification it generates. *)
Class SpecColumn := { jsonb : json -> json; spec_digest : json -> string }.
(** A value comes back as itself up to the order of its keys, and the digest, of
    the specification without [hidden], tells different ones apart. *)
Class SpecColumnLaws `{SpecColumn} : Prop := {
  jsonb_same s : same_value (jsonb s) s;
  digest_tells s s' : spec_digest s = spec_digest s' -> same_value (withoutHidden s) (withoutHidden s');
}.

Section stored.
Context `{LocaleOrder} `{SpecColumnLaws}.

(** A specification read back from the store has the key it was stored under, and
    says the same of being hidden. *)
Lemma shapeKey_stored d c n s : distinct_keys s -> shapeKey d c n (jsonb s) = shapeKey d c n s.
Proof.
  intros Hd. unfold shapeKey. do 2 f_equal. apply canonicalSpec_same; [apply same_withoutHidden, jsonb_same|by apply withoutHidden_distinct].
Qed.
Lemma shapeKey_digest d c n s s' : distinct_keys s' -> spec_digest s = spec_digest s' -> shapeKey d c n s = shapeKey d c n s'.
Proof.
  intros Hd E. unfold shapeKey. do 2 f_equal. apply canonicalSpec_same; [by apply digest_tells|by apply withoutHidden_distinct].
Qed.
Lemma hiddenOf_stored s : hiddenOf (jsonb s) = hiddenOf s.
Proof. apply same_hiddenOf, jsonb_same. Qed.
End stored.

(** ** A column there can be *)

(** Values are countable, so a digest that tells all of them apart exists. *)
Fixpoint value_tree (j : json) : gen_tree (bool + (Z * positive) + string) :=
  match j with
  | JNull => GenNode 0 []
  | JBool b => GenLeaf (inl (inl b))
  | JNum q => GenLeaf (inl (inr (Qnum q, Qden q)))
  | JStr s => GenLeaf (inr s)
  | JArr l => GenNode 1 (map value_tree l)
  | JObj es => GenNode 2 (map (fun e => GenNode 3 [GenLeaf (inr (fst e)); value_tree (snd e)]) es)
  end.
Fixpoint tree_value (t : gen_tree (bool + (Z * positive) + string)) : json :=
  match t with
  | GenLeaf (inl (inl b)) => JBool b
  | GenLeaf (inl (inr (n, d))) => JNum {| Qnum := n; Qden := d |}
  | GenLeaf (inr s) => JStr s
  | GenNode 1 l => JArr (map tree_value l)
  | GenNode 2 l => JObj (map (fun e => match e with GenNode _ [GenLeaf (inr k); v] => (k, tree_value v) | _ => (""%string, JNull) end) l)
  | GenNode _ _ => JNull
  end.
Lemma tree_value_tree j : tree_value (value_tree j) = j.
Proof.
  induction j as [|b|[n d]|s|l IH|es IH] using json_ind'; try done; cbn; f_equal.
  - induction IH as [|x l Hx _ IH]; [done|]. cbn. by rewrite Hx, IH.
  - induction IH as [|[k v] l Hx _ IH]; [done|]. cbn in *. by rewrite Hx, IH.
Qed.
Definition plain_column : SpecColumn :=
  {| jsonb := fun s => s; spec_digest := fun s => pretty (Npos (encode (value_tree (withoutHidden s)))) |}.
Lemma plain_column_laws : @SpecColumnLaws plain_column.
Proof.
  split; [constructor|]. intros s s' E. cbn in E. apply (inj pretty) in E. injection E as E. apply (inj encode) in E.
  rewrite <- (tree_value_tree (withoutHidden s)), E, tree_value_tree. constructor.
Qed.
Lemma code_point_order : @LocaleOrder String.leb.
Proof.
  split.
  - intros a b E. destruct (String.leb_total a b) as [Hab|Hba]; [|exact Hba]. unfold localeLe in E. by rewrite Hab in E.
  - intros a b c. unfold localeLe. change (String.leb a b = true -> String.leb b c = true -> String.leb a c = true).
    rewrite <- !Is_true_true. apply (transitivity (R := String.le)).
Qed.
Lemma code_points_apart keys : @told_apart String.leb keys.
Proof. intros a b _ _. apply String.leb_antisym. Qed.
