(* ===== verification/Collect.v ===== *)
(** What a collect writes: [collectCluster] of [apps/api/src/jobs/collect.ts] with
    [jobs/namespaces.ts], over one cluster's tables.

    The rows of [cluster_indexes] and [cluster_namespaces] name what the two
    series are about; [RunTable] has the steps both series share.  Ids come from
    one counter.  The four writes of a collect go to tables of their own, so
    their order does not show; each of them lands or fails ([CollectWrite]), whatever
    becomes of the others, and the first in the list that fails is the error told;
    whether the credentials hold what a release added ([checkNewPrivileges]) and the
    counters of metrics are left out. *)
From S2P Require Import Prelude EngineTypes Cooldowns Keys Store ClassifyJob Suggest SpecKey.
From S2P Require Import StoredSpec Snapshots Runs Usage Classify RunLength RunTable.

(** ** The tables *)

Record IndexRow := {
  xi_id : nat;
  xi_database : string;
  xi_collection : string;
  xi_indexName : string;
  xi_spec : json;
}.
Record SnapshotRow := {
  sp_id : nat;
  sp_indexId : nat;
  sp_sizeBytes : Z;
  sp_hinted : bool;
  sp_run : StoredRun;
}.
Record NamespaceRow := { nr_id : nat; nr_database : string; nr_collection : string }.
Record LatencySampleRow := {
  lr_id : nat;
  lr_namespaceId : nat;
  lr_readOps : Z;
  lr_selfReadOps : Z;
  lr_readLatencyMicros : Z;
  lr_writeOps : Z;
  lr_writeLatencyMicros : Z;
  lr_capturedAt : Z;
  lr_lastSeenAt : Z;
  lr_observations : Z;
  lr_maxGapMs : Z;
}.
Record FootprintDay := { fd_day : Z; fd_totalBytes : Z; fd_indexCount : Z }.
Inductive node_role := primary | secondary | mongos | standalone | unknown_role.
Inductive node_state := answered | unreachable | refused.
Record ClusterNode := { nd_host : string; nd_role : node_role; nd_state : node_state }.
Record Tables := {
  clusterIndexes : list IndexRow;
  indexSnapshots : list SnapshotRow;
  clusterNamespaces : list NamespaceRow;
  latencySamples : list LatencySampleRow;
  clusterFootprintDays : list FootprintDay;
  clusterRoster : option (list ClusterNode * Z);
  next_id : nat;
}.

Section collect.
Context `{Locale} `{SpecColumn}.

(** ** The dimension of the indexes *)

Definition index_key (row : IndexRow) : string :=
  shapeKey (xi_database row) (xi_collection row) (xi_indexName row) (xi_spec row).
Definition identity (snapshot : CollectedSnapshot) : string :=
  watchKey (cs_database snapshot) (cs_collection snapshot) (cs_indexName snapshot).
Definition shape (snapshot : CollectedSnapshot) : string :=
  shapeKey (cs_database snapshot) (cs_collection snapshot) (cs_indexName snapshot) (cs_spec snapshot).
Definition index_row (id : nat) (snapshot : CollectedSnapshot) : IndexRow :=
  {| xi_id := id; xi_database := cs_database snapshot; xi_collection := cs_collection snapshot;
     xi_indexName := cs_indexName snapshot; xi_spec := jsonb (cs_spec snapshot) |}.
(** [cluster_indexes_identity]. *)
Definition index_conflict (row : IndexRow) (snapshot : CollectedSnapshot) : bool :=
  String.eqb (xi_database row) (cs_database snapshot) && String.eqb (xi_collection row) (cs_collection snapshot)
  && String.eqb (xi_indexName row) (cs_indexName snapshot) && String.eqb (spec_digest (xi_spec row)) (spec_digest (cs_spec snapshot)).
Definition missing_indexes (wanted : list CollectedSnapshot) (byShape : list (string * IndexRow)) : list CollectedSnapshot :=
  List.filter (fun snapshot => negb (is_some (map_get (shape snapshot) byShape))) wanted.
Definition read_back_indexes (missing : list CollectedSnapshot) (row : IndexRow) : bool :=
  includes (cs_indexName <$> missing) (xi_indexName row).

(** What the cluster says of a row being hidden replaces what the row says. *)
Definition is_stale (byShape : list (string * IndexRow)) (snapshot : CollectedSnapshot) : bool :=
  match map_get (shape snapshot) byShape with
  | Some row => negb (Bool.eqb (hiddenOf (xi_spec row)) (hiddenOf (cs_spec snapshot)))
  | None => false
  end.
Definition with_spec (spec : json) (row : IndexRow) : IndexRow :=
  {| xi_id := xi_id row; xi_database := xi_database row; xi_collection := xi_collection row;
     xi_indexName := xi_indexName row; xi_spec := spec |}.
Definition refresh_spec (byShape : list (string * IndexRow)) (rows : list IndexRow) (snapshot : CollectedSnapshot) : list IndexRow :=
  match map_get (shape snapshot) byShape with
  | Some found => (fun row => if (xi_id row =? xi_id found)%nat then with_spec (jsonb (cs_spec snapshot)) row else row) <$> rows
  | None => rows
  end.
Definition dimensionIds (next : nat) (rows : list IndexRow) (snapshots : list CollectedSnapshot)
    : nat * list IndexRow * list (string * nat) :=
  let '(next, rows, byShape) :=
    resolve_rows index_key index_row index_conflict read_back_indexes next rows (missing_indexes snapshots) in
  let ids := fold_left (fun ids snapshot =>
    match map_get (shape snapshot) byShape with Some row => map_put (identity snapshot) (xi_id row) ids | None => ids end)
    snapshots [] in
  let stale := List.filter (is_stale byShape) snapshots in
  (next, fold_left (refresh_spec byShape) stale rows, ids).

(** ** The snapshots *)

Definition snapshot_continues (run : SnapshotRow) (reading : Z * CollectedSnapshot) : bool :=
  let '(now, snapshot) := reading in
  extendsRun (Some (current_of (sp_run run))) (counterFingerprint (cs_perMember snapshot)) now.
Definition snapshot_extended (reading : Z * CollectedSnapshot) (row : SnapshotRow) : SnapshotRow :=
  let '(now, snapshot) := reading in
  {| sp_id := sp_id row; sp_indexId := sp_indexId row; sp_sizeBytes := cs_sizeBytes snapshot;
     sp_hinted := sp_hinted row || cs_hinted snapshot; sp_run := extend_run (sp_run row) now |}.
Definition snapshot_opened (id indexId : nat) (run : option SnapshotRow) (reading : Z * CollectedSnapshot) : SnapshotRow :=
  let '(now, snapshot) := reading in
  {| sp_id := id; sp_indexId := indexId; sp_sizeBytes := cs_sizeBytes snapshot; sp_hinted := cs_hinted snapshot;
     sp_run := open_run ((fun run => member_map (sr_perMember (sp_run run))) <$> run) (cs_perMember snapshot) now |}.
Definition snapshot_superseded (row : SnapshotRow) : SnapshotRow :=
  {| sp_id := sp_id row; sp_indexId := sp_indexId row; sp_sizeBytes := sp_sizeBytes row; sp_hinted := sp_hinted row;
     sp_run := trim_members (sp_run row) |}.
#[export] Instance snapshot_row : RunTableRow SnapshotRow :=
  {| row_id := sp_id; row_owner := sp_indexId; row_capturedAt := fun row => sr_capturedAt (sp_run row) |}.
#[export] Instance snapshot_series : RunSeries SnapshotRow (Z * CollectedSnapshot) :=
  {| row_at := fst; continues := snapshot_continues; extended := snapshot_extended; opened := snapshot_opened;
     superseded := snapshot_superseded |}.

Definition nothing_written : WriteCounts := {| wc_inserted := 0; wc_extended := 0 |}.
Definition recordSnapshots (t : Tables) (snapshots : list CollectedSnapshot) (now : Z) : Tables * WriteCounts :=
  match snapshots with
  | [] => (t, nothing_written)
  | _ =>
      let '(next, rows, ids) := dimensionIds (next_id t) (clusterIndexes t) snapshots in
      let readings := omap (fun snapshot => (fun id => (id, (now, snapshot))) <$> map_get (identity snapshot) ids) snapshots in
      let '(next, runs, counts) := write_runs next (indexSnapshots t) readings in
      ({| clusterIndexes := rows; indexSnapshots := runs; clusterNamespaces := clusterNamespaces t;
          latencySamples := latencySamples t; clusterFootprintDays := clusterFootprintDays t; clusterRoster := clusterRoster t;
          next_id := next |}, counts)
  end.

(** ** Latency *)

Definition namespace_key (row : NamespaceRow) : string := workloadKey (nr_database row) (nr_collection row).
Definition sample_key (sample : CollectedLatency) : string := workloadKey (cl_database sample) (cl_collection sample).
Definition namespace_row (id : nat) (sample : CollectedLatency) : NamespaceRow :=
  {| nr_id := id; nr_database := cl_database sample; nr_collection := cl_collection sample |}.
Definition namespace_conflict (row : NamespaceRow) (sample : CollectedLatency) : bool :=
  String.eqb (nr_database row) (cl_database sample) && String.eqb (nr_collection row) (cl_collection sample).
Definition missing_namespaces (wanted : list CollectedLatency) (ids : list (string * NamespaceRow)) : list CollectedLatency :=
  snd <$> fold_left (fun missing sample =>
    if is_some (map_get (sample_key sample) ids) then missing else map_put (sample_key sample) sample missing) wanted [].
Definition read_back_namespaces (missing : list CollectedLatency) (row : NamespaceRow) : bool :=
  includes (cl_collection <$> missing) (nr_collection row).
Definition namespaceIds (next : nat) (rows : list NamespaceRow) (wanted : list CollectedLatency)
    : nat * list NamespaceRow * list (string * NamespaceRow) :=
  match wanted with
  | [] => (next, rows, [])
  | _ => resolve_rows namespace_key namespace_row namespace_conflict read_back_namespaces next rows (missing_namespaces wanted)
  end.

Definition latency_current (row : LatencySampleRow) : CurrentRun :=
  {| fingerprint := latencyFingerprint (lr_readOps row) (lr_selfReadOps row) (lr_writeOps row); cr_lastSeenAt := lr_lastSeenAt row |}.
Definition latency_continues (run : LatencySampleRow) (reading : Z * CollectedLatency) : bool :=
  let '(now, sample) := reading in
  extendsRun (Some (latency_current run)) (latencyFingerprint (cl_readOps sample) (cl_selfReadOps sample) (cl_writeOps sample)) now.
Definition latency_extended (reading : Z * CollectedLatency) (row : LatencySampleRow) : LatencySampleRow :=
  let '(now, sample) := reading in
  {| lr_id := lr_id row; lr_namespaceId := lr_namespaceId row; lr_readOps := cl_readOps sample; lr_selfReadOps := cl_selfReadOps sample;
     lr_readLatencyMicros := cl_readLatencyMicros sample; lr_writeOps := cl_writeOps sample;
     lr_writeLatencyMicros := cl_writeLatencyMicros sample; lr_capturedAt := lr_capturedAt row; lr_lastSeenAt := now;
     lr_observations := lr_observations row + 1; lr_maxGapMs := Z.max (lr_maxGapMs row) (now - lr_lastSeenAt row) |}.
Definition latency_opened (id namespaceId : nat) (run : option LatencySampleRow) (reading : Z * CollectedLatency) : LatencySampleRow :=
  let '(now, sample) := reading in
  {| lr_id := id; lr_namespaceId := namespaceId; lr_readOps := cl_readOps sample; lr_selfReadOps := cl_selfReadOps sample;
     lr_readLatencyMicros := cl_readLatencyMicros sample; lr_writeOps := cl_writeOps sample;
     lr_writeLatencyMicros := cl_writeLatencyMicros sample; lr_capturedAt := now; lr_lastSeenAt := now;
     lr_observations := 1; lr_maxGapMs := 0 |}.
#[export] Instance latency_row : RunTableRow LatencySampleRow :=
  {| row_id := lr_id; row_owner := lr_namespaceId; row_capturedAt := lr_capturedAt |}.
#[export] Instance latency_series : RunSeries LatencySampleRow (Z * CollectedLatency) :=
  {| row_at := fst; continues := latency_continues; extended := latency_extended; opened := latency_opened; superseded := fun row => row |}.
Definition recordLatency (t : Tables) (latency : list CollectedLatency) (now : Z) : Tables * WriteCounts :=
  match latency with
  | [] => (t, nothing_written)
  | _ =>
      let '(next, rows, ids) := namespaceIds (next_id t) (clusterNamespaces t) latency in
      let readings := omap (fun sample => (fun row => (nr_id row, (now, sample))) <$> map_get (sample_key sample) ids) latency in
      let '(next, runs, counts) := write_runs next (latencySamples t) readings in
      ({| clusterIndexes := clusterIndexes t; indexSnapshots := indexSnapshots t; clusterNamespaces := rows;
          latencySamples := runs; clusterFootprintDays := clusterFootprintDays t; clusterRoster := clusterRoster t;
          next_id := next |}, counts)
  end.

(** ** The day's footprint and the roster *)

(** [date_trunc('day', now)] of the database's zone is a parameter. *)
Context (day_of : Z -> Z).
Fixpoint put_day (row : FootprintDay) (days : list FootprintDay) : list FootprintDay :=
  match days with
  | [] => [row]
  | d :: days => if fd_day d =? fd_day row then row :: days else d :: put_day row days
  end.
Definition recordFootprintDay (t : Tables) (snapshots : list CollectedSnapshot) (now : Z) : Tables :=
  match snapshots with
  | [] => t
  | _ =>
      {| clusterIndexes := clusterIndexes t; indexSnapshots := indexSnapshots t; clusterNamespaces := clusterNamespaces t;
         latencySamples := latencySamples t;
         clusterFootprintDays := put_day {| fd_day := day_of now; fd_totalBytes := zsum cs_sizeBytes snapshots;
                                            fd_indexCount := Z.of_nat (length snapshots) |} (clusterFootprintDays t);
         clusterRoster := clusterRoster t; next_id := next_id t |}
  end.
Definition recordRoster (t : Tables) (nodes : option (list ClusterNode)) (now : Z) : Tables :=
  match nodes with
  | None => t
  | Some nodes =>
      {| clusterIndexes := clusterIndexes t; indexSnapshots := indexSnapshots t; clusterNamespaces := clusterNamespaces t;
         latencySamples := latencySamples t; clusterFootprintDays := clusterFootprintDays t;
         clusterRoster := Some (nodes, now); next_id := next_id t |}
  end.

(** ** The collect *)

Record CollectOutcome := { co_snapshots : Z; co_inserted : Z; co_extended : Z }.
(** The four writes of a collect, which are awaited together and are in no transaction.
    Each lands whole or, where [failing] has an error for it, not at all. *)
Inductive CollectWrite := to_snapshots | to_latency | to_roster | to_footprint.
Definition ALL_WRITES : list CollectWrite := [to_snapshots; to_latency; to_roster; to_footprint].
Definition landing {A} (failing : CollectWrite -> option string) (write : CollectWrite) (landed lost : A) : A :=
  if is_some (failing write) then lost else landed.
(** The collector's answers, and the instant read once they are in. *)
Definition collectCluster (collector : CollectorReads) (collectNodes : read_error + option (list ClusterNode)) (failing : CollectWrite -> option string)
    (now : Z) (t : Tables) : Tables * (read_error + CollectOutcome) :=
  match collectSnapshots collector, collectNodes with
  | inl e, _ | inr _, inl e => (t, inl e)
  | inr result, inr nodes =>
      let '(t, written) := landing failing to_snapshots (recordSnapshots t (snapshots result) now) (t, nothing_written) in
      let '(t, latencyWritten) := landing failing to_latency (recordLatency t (latency result) now) (t, nothing_written) in
      let t := landing failing to_roster (recordRoster t nodes now) t in
      let t := landing failing to_footprint (recordFootprintDay t (snapshots result) now) t in
      match omap failing ALL_WRITES with
      | e :: _ => (t, inl (ReadError e))
      | [] =>
          (t, inr {| co_snapshots := Z.of_nat (length (snapshots result));
                     co_inserted := wc_inserted written + wc_inserted latencyWritten;
                     co_extended := wc_extended written + wc_extended latencyWritten |})
      end
  end.
End collect.

(** ** Names *)

Definition names_ok (database collection indexName : string) : bool :=
  nul_free database && nul_free collection && nul_free indexName.
Lemma watchKey_shape `{Locale} d c n s d' c' n' s' : names_ok d c n = true -> names_ok d' c' n' = true ->
  shapeKey d c n s = shapeKey d' c' n' s' -> d = d' /\ c = c' /\ n = n' /\ canonicalSpec (withoutHidden s) = canonicalSpec (withoutHidden s').
Proof.
  unfold names_ok, shapeKey, watchKey. rewrite !andb_true_iff. intros [[H1 H2] H3] [[H1' H2'] H3'] E.
  rewrite <- !text_assoc in E. apply nul_split in E as [-> E]; [|done..].
  apply nul_split in E as [-> E]; [|done..]. by apply nul_split in E as [-> ->].
Qed.
Lemma watchKey_inj d c n d' c' n' : names_ok d c n = true -> names_ok d' c' n' = true ->
  watchKey d c n = watchKey d' c' n' -> d = d' /\ c = c' /\ n = n'.
Proof.
  unfold names_ok, watchKey. rewrite !andb_true_iff. intros [[H1 H2] H3] [[H1' H2'] H3'] E.
  apply nul_split in E as [-> E]; [|done..]. by apply nul_split in E as [-> ->].
Qed.

(** ** The dimension *)

Section dimension.
Context `{LocaleOrder} `{SpecColumnLaws}.

Definition snapshot_ok (snapshot : CollectedSnapshot) : Prop :=
  names_ok (cs_database snapshot) (cs_collection snapshot) (cs_indexName snapshot) = true /\ distinct_keys (cs_spec snapshot).
(** A collect reads each index once, and names hold no NUL. *)
Definition snapshots_ok (snaps : list CollectedSnapshot) : Prop :=
  NoDup (identity <$> snaps) /\ forall s, s ∈ snaps -> snapshot_ok s.
Definition row_names_ok (row : IndexRow) : Prop := names_ok (xi_database row) (xi_collection row) (xi_indexName row) = true.
Definition indexes_ok (next : nat) (rows : list IndexRow) : Prop :=
  dimension_ok xi_id index_key next rows /\ forall row, row ∈ rows -> row_names_ok row.

Lemma shape_identity s s' : snapshot_ok s -> snapshot_ok s' -> shape s = shape s' -> identity s = identity s'.
Proof.
  intros [Hs _] [Hs' _] E. unfold shape in E. destruct (watchKey_shape _ _ _ _ _ _ _ _ Hs Hs' E) as (E1 & E2 & E3 & _).
  unfold identity. by rewrite E1, E2, E3.
Qed.
Lemma same_snapshot snaps s s' : snapshots_ok snaps -> s ∈ snaps -> s' ∈ snaps -> shape s = shape s' -> s = s'.
Proof.
  intros [Hn Hok] Hs Hs' E. apply shape_identity in E; [|by apply Hok..]. clear Hok. induction snaps as [|x l IH]; [by apply elem_of_nil in Hs|].
  cbn in Hn. apply NoDup_cons in Hn as [Hx Hl]. apply elem_of_cons in Hs as [->|Hs], Hs' as [->|Hs']; [done| | |by apply IH].
  - exfalso. apply Hx. rewrite E. apply list_elem_of_fmap. by exists s'.
  - exfalso. apply Hx. rewrite <- E. apply list_elem_of_fmap. by exists s.
Qed.
Lemma shapes_NoDup snaps : snapshots_ok snaps -> NoDup (shape <$> snaps).
Proof.
  intros [Hn Hok]. induction snaps as [|x l IH]; [constructor|]. cbn in *. apply NoDup_cons in Hn as [Hx Hl]. constructor.
  - intros (y & E & Hy)%list_elem_of_fmap. apply Hx. apply list_elem_of_fmap. exists y. split; [|done].
    apply shape_identity; [apply Hok; left|apply Hok; by right|done].
  - apply IH; [done|]. intros s Hs. apply Hok. by right.
Qed.
Lemma index_key_row id s : snapshot_ok s -> index_key (index_row id s) = shape s.
Proof. intros [_ Hd]. unfold index_key, index_row, shape. cbn. by apply shapeKey_stored. Qed.
Lemma index_conflict_key row s : snapshot_ok s -> index_conflict row s = true -> index_key row = shape s.
Proof.
  intros [_ Hd]. unfold index_conflict. rewrite !andb_true_iff, !String.eqb_eq. intros [[[E1 E2] E3] E4].
  unfold index_key, shape. rewrite E1, E2, E3. by apply shapeKey_digest.
Qed.

(** Writing what is hidden keeps every row's id and key. *)
Definition refresh_row (byShape : list (string * IndexRow)) (row : IndexRow) (s : CollectedSnapshot) : IndexRow :=
  match map_get (shape s) byShape with
  | Some found => if (xi_id row =? xi_id found)%nat then with_spec (jsonb (cs_spec s)) row else row
  | None => row
  end.
Lemma refresh_rows byShape stale rows : fold_left (refresh_spec byShape) stale rows = (fun row => fold_left (refresh_row byShape) stale row) <$> rows.
Proof.
  revert rows. induction stale as [|s stale IH]; intros rows; [symmetry; apply list_fmap_id|]. cbn [fold_left]. rewrite IH.
  unfold refresh_spec. unfold refresh_row at 3. destruct (map_get (shape s) byShape) as [found|]; [|done].
  rewrite <- list_fmap_compose. done.
Qed.
Lemma refresh_row_id byShape row s : xi_id (refresh_row byShape row s) = xi_id row.
Proof. unfold refresh_row. destruct (map_get _ _); [|done]. by destruct (_ =? _)%nat. Qed.
Lemma refresh_fold_id byShape stale row : xi_id (fold_left (refresh_row byShape) stale row) = xi_id row.
Proof. revert row. induction stale as [|s stale IH]; intros row; [done|]. cbn. by rewrite IH, refresh_row_id. Qed.
Lemma refresh_none byShape stale row :
  (forall s found, s ∈ stale -> map_get (shape s) byShape = Some found -> xi_id found <> xi_id row) ->
  fold_left (refresh_row byShape) stale row = row.
Proof.
  induction stale as [|s stale IH]; intros Hn; [done|]. cbn [fold_left]. assert (refresh_row byShape row s = row) as ->.
  { unfold refresh_row. destruct (map_get _ _) as [found|] eqn:E; [|done].
    destruct (Nat.eqb_spec (xi_id row) (xi_id found)) as [Ei|]; [|done]. exfalso. by apply (Hn s found); [left|..]. }
  apply IH. intros s' found Hs'. apply Hn. by right.
Qed.
Lemma refresh_some byShape stale row s0 :
  (forall s found, s ∈ stale -> map_get (shape s) byShape = Some found -> xi_id found = xi_id row -> s = s0) ->
  fold_left (refresh_row byShape) stale row = row \/ fold_left (refresh_row byShape) stale row = with_spec (jsonb (cs_spec s0)) row.
Proof.
  induction stale as [|s stale IH] using rev_ind; intros Hu; [by left|]. rewrite fold_left_app. cbn [fold_left].
  specialize (IH ltac:(intros s' found Hs'; apply Hu; apply elem_of_app; by left)).
  assert (Hid : xi_id (fold_left (refresh_row byShape) stale row) = xi_id row) by apply refresh_fold_id.
  unfold refresh_row at 1 3. destruct (map_get (shape s) byShape) as [found|] eqn:E; [|done]. rewrite Hid.
  destruct (Nat.eqb_spec (xi_id row) (xi_id found)) as [En|]; [|done].
  rewrite (Hu s found); [|apply elem_of_app; right; by left|done|done]. right. by destruct IH as [-> | ->].
Qed.
Lemma refresh_one byShape stale row s0 :
  s0 ∈ stale -> (exists found, map_get (shape s0) byShape = Some found /\ xi_id found = xi_id row) ->
  (forall s found, s ∈ stale -> map_get (shape s) byShape = Some found -> xi_id found = xi_id row -> s = s0) ->
  fold_left (refresh_row byShape) stale row = with_spec (jsonb (cs_spec s0)) row.
Proof.
  intros Hin (f0 & Ef & Ei) Hu. apply list_elem_of_split in Hin as (l1 & l2 & ->). rewrite fold_left_app. cbn [fold_left].
  assert (Hu1 : forall s found, s ∈ l1 -> map_get (shape s) byShape = Some found -> xi_id found = xi_id row -> s = s0).
  { intros s found Hs. apply Hu. apply elem_of_app. by left. }
  assert (refresh_row byShape (fold_left (refresh_row byShape) l1 row) s0 = with_spec (jsonb (cs_spec s0)) row) as ->.
  { unfold refresh_row at 1. rewrite Ef, refresh_fold_id, Ei, Nat.eqb_refl. by destruct (refresh_some byShape l1 row s0 Hu1) as [-> | ->]. }
  assert (Hu2 : forall s found, s ∈ l2 -> map_get (shape s) byShape = Some found ->
    xi_id found = xi_id (with_spec (jsonb (cs_spec s0)) row) -> s = s0).
  { intros s found Hs. apply Hu. apply elem_of_app. right. by right. }
  by destruct (refresh_some byShape l2 _ s0 Hu2) as [-> | ->].
Qed.

Lemma row_for_fmap {Row} (row_key : Row -> string) (g : Row -> Row) key rows :
  (forall row, row ∈ rows -> row_key (g row) = row_key row) -> row_for row_key key (g <$> rows) = g <$> row_for row_key key rows.
Proof.
  intros Hg. unfold row_for. induction rows as [|row rows IH]; [done|]. cbn. rewrite Hg by left.
  destruct (String.eqb _ key); [done|]. apply IH. intros x Hx. apply Hg. by right.
Qed.

(** A refreshed row keeps its names, and its key. *)
Lemma refreshed_row byShape stale row :
  row_names_ok row -> (forall s, s ∈ stale -> snapshot_ok s) ->
  (forall s found, s ∈ stale -> map_get (shape s) byShape = Some found -> xi_id row = xi_id found -> index_key row = shape s) ->
  let row' := fold_left (refresh_row byShape) stale row in index_key row' = index_key row /\ row_names_ok row'.
Proof.
  cbv zeta. induction stale as [|s stale IH] using rev_ind; intros Hr Hs Hk; [done|]. rewrite fold_left_app. cbn [fold_left].
  destruct IH as [IHk IHn]; [done|intros x Hx; apply Hs; apply elem_of_app; by left|intros x f Hx; apply Hk; apply elem_of_app; by left|].
  unfold refresh_row at 1 3. destruct (map_get (shape s) byShape) as [found|] eqn:E; [|done]. rewrite refresh_fold_id.
  destruct (Nat.eqb_spec (xi_id row) (xi_id found)) as [En|]; [|done]. split; [|done].
  assert (s ∈ stale ++ [s]) as Hin by (apply elem_of_app; right; by left).
  specialize (Hk s found Hin E En). destruct (Hs s Hin) as [Hn Hd]. rewrite Hk.
  unfold index_key. cbn [with_spec xi_database xi_collection xi_indexName xi_spec]. rewrite shapeKey_stored by done.
  rewrite Hk in IHk. unfold index_key, shape in IHk. destruct (watchKey_shape _ _ _ _ _ _ _ _ IHn Hn IHk) as (-> & -> & -> & _). done.
Qed.

Lemma ids_get byShape snaps s : NoDup (identity <$> snaps) -> s ∈ snaps ->
  map_get (identity s) (fold_left (fun ids s =>
    match map_get (shape s) byShape with Some row => map_put (identity s) (xi_id row) ids | None => ids end) snaps [])
  = xi_id <$> map_get (shape s) byShape.
Proof.
  intros Hn Hin. apply list_elem_of_split in Hin as (l1 & l2 & ->). rewrite fmap_app in Hn. cbn in Hn.
  apply NoDup_app in Hn as (_ & H12 & Hn2). apply NoDup_cons in Hn2 as [Hs2 _].
  rewrite fold_left_app. cbn [fold_left]. set (ids1 := fold_left _ l1 []).
  assert (Hkeep : forall l ids, identity s ∉ identity <$> l ->
    map_get (identity s) (fold_left (fun ids s =>
      match map_get (shape s) byShape with Some row => map_put (identity s) (xi_id row) ids | None => ids end) l ids) = map_get (identity s) ids).
  { intros l. induction l as [|x l IH]; intros ids Hx; [done|]. cbn in Hx. apply not_elem_of_cons in Hx as [Hx Hl]. cbn [fold_left].
    rewrite IH by done. destruct (map_get (shape x) byShape); [|done]. rewrite map_get_put. by destruct (String.eqb_spec (identity x) (identity s)) as [E|]. }
  rewrite Hkeep by done. destruct (map_get (shape s) byShape) as [row|]; cbn.
  - by rewrite map_get_put, String.eqb_refl.
  - unfold ids1. rewrite Hkeep; [done|]. intros Hx. apply (H12 _ Hx). by left.
Qed.

(** What [dimensionIds] leaves: every index read has a row with its key and says
    of being hidden what was read, the map gives its id, the rows there were keep
    id and key, and the others are new. *)
Lemma dimensionIds_spec next rows snaps :
  indexes_ok next rows -> snapshots_ok snaps ->
  let '(next', rows', ids) := dimensionIds next rows snaps in
  (next <= next')%nat /\ indexes_ok next' rows'
  /\ (forall s, s ∈ snaps -> exists row, row_for index_key (shape s) rows' = Some row
        /\ map_get (identity s) ids = Some (xi_id row) /\ hiddenOf (xi_spec row) = hiddenOf (cs_spec s))
  /\ (forall key row, row_for index_key key rows = Some row ->
        exists row', row_for index_key key rows' = Some row' /\ xi_id row' = xi_id row)
  /\ (forall key row, row_for index_key key rows' = Some row -> row_for index_key key rows = None ->
        (next <= xi_id row)%nat /\ exists s, s ∈ snaps /\ shape s = key).
Proof.
  intros [Hdim Hnames] Hsn. pose proof Hsn as [Hid Hok]. unfold dimensionIds.
  set (items := missing_indexes snaps (remember index_key rows [])).
  assert (Hit : forall s, s ∈ items <-> s ∈ snaps /\ row_for index_key (shape s) rows = None).
  { intros s. unfold items, missing_indexes. rewrite elem_of_filter_bool, negb_true_iff.
    rewrite remember_get by apply Hdim. destruct (row_for index_key (shape s) rows); cbn; naive_solver. }
  destruct (resolve_rows_spec xi_id index_key shape index_row index_conflict read_back_indexes snapshot_ok
    (fun _ _ => eq_refl) index_key_row index_conflict_key next rows (missing_indexes snaps)) as [new Hnew]; fold items.
  { intros s Hs. by apply Hok, Hit. }
  { intros id s Hs. unfold read_back_indexes. apply includes_spec. cbn. apply list_elem_of_fmap. by exists s. }
  { done. }
  { unfold items, missing_indexes. apply NoDup_fmap_filter, shapes_NoDup, Hsn. }
  { intros s Hs. by apply Hit. }
  destruct (resolve_rows _ _ _ _ next rows (missing_indexes snaps)) as [[next1 rows1] byShape].
  fold items in Hnew. destruct Hnew as (Hn1 & Hr1 & Hok1 & Hnew & Hby).
  subst next1 rows1. set (stale := List.filter (is_stale byShape) snaps).
  assert (Hstale : forall s, s ∈ stale -> s ∈ snaps) by (intros s [Hs _]%elem_of_filter_bool; done).
  assert (Hin1 : forall key row, row_for index_key key (rows ++ new) = Some row <-> row ∈ rows ++ new /\ index_key row = key)
    by (intros; apply row_for_elem, Hok1).
  assert (Hsame : forall row row', row ∈ rows ++ new -> row' ∈ rows ++ new -> xi_id row = xi_id row' -> row = row').
  { intros row row' Hr Hr' E. destruct Hok1 as (Hn & _). clear -Hn Hr Hr' E. by eapply (NoDup_fmap_elem xi_id). }
  assert (Hnames1 : forall row, row ∈ rows ++ new -> row_names_ok row).
  { intros row [Hin|Hin]%elem_of_app; [by apply Hnames|]. apply list_elem_of_lookup in Hin as [i Hi].
    destruct (Forall2_lookup_l _ _ _ _ _ Hnew Hi) as (s & Hs & _ & _ & ->). apply list_elem_of_lookup_2, Hit in Hs as [Hs _].
    apply (Hok s Hs). }
  assert (Hg : forall row, row ∈ rows ++ new -> index_key (fold_left (refresh_row byShape) stale row) = index_key row
    /\ row_names_ok (fold_left (refresh_row byShape) stale row)).
  { intros row Hin. apply refreshed_row; [by apply Hnames1|intros s Hs; apply Hok; auto|].
    intros s found Hs Hf E. rewrite Hby in Hf. apply Hin1 in Hf as [Hf <-]. by rewrite (Hsame row found Hin Hf E). }
  rewrite refresh_rows. split_and!.
  - lia.
  - destruct Hok1 as (Hd & Hk & Hlt). split; [split_and!|].
    + rewrite <- list_fmap_compose. rewrite (list_fmap_ext _ xi_id); [done|]. intros i row _. cbn. apply refresh_fold_id.
    + rewrite <- list_fmap_compose. rewrite (list_fmap_ext _ index_key); [done|]. intros i row Hi%list_elem_of_lookup_2. cbn. by apply Hg.
    + intros row (x & -> & Hx)%list_elem_of_fmap. rewrite refresh_fold_id. auto.
    + intros row (x & -> & Hx)%list_elem_of_fmap. by apply Hg.
  - intros s Hs. assert (exists row, row_for index_key (shape s) (rows ++ new) = Some row) as [row Hrow].
    { destruct (row_for index_key (shape s) rows) as [row|] eqn:E.
      - exists row. apply Hin1. apply row_for_elem in E as [E Ek]; [|apply Hdim]. split; [apply elem_of_app; by left|done].
      - assert (s ∈ items) as Hm by by apply Hit. apply list_elem_of_lookup in Hm as [i Hi].
        destruct (Forall2_lookup_r _ _ _ _ _ Hnew Hi) as (row & Hr & Hk & _). exists row. apply Hin1.
        split; [apply elem_of_app; right; by apply list_elem_of_lookup_2 in Hr|done]. }
    exists (fold_left (refresh_row byShape) stale row). split_and!.
    + rewrite row_for_fmap by (intros; by apply Hg). by rewrite Hrow.
    + rewrite ids_get by done. rewrite Hby, Hrow. cbn. by rewrite refresh_fold_id.
    + pose proof (proj1 (Hin1 _ _) Hrow) as [Hin Hkey].
      assert (Huniq : forall s' found, s' ∈ stale -> map_get (shape s') byShape = Some found -> xi_id found = xi_id row -> s' = s).
      { intros s' found Hs' Hf E. rewrite Hby in Hf. apply Hin1 in Hf as [Hf Hfk]. rewrite (Hsame found row Hf Hin E) in Hfk.
        apply (same_snapshot snaps); [done|auto|done|congruence]. }
      destruct (is_stale byShape s) eqn:Est.
      * rewrite (refresh_one byShape stale row s); [cbn; apply hiddenOf_stored| |exists row; by rewrite Hby|done].
        by apply elem_of_filter_bool.
      * rewrite refresh_none.
        { unfold is_stale in Est. rewrite Hby, Hrow in Est. apply negb_false_iff, Bool.eqb_prop in Est. done. }
        intros s' found Hs' Hf E. pose proof (Huniq s' found Hs' Hf E) as ->. apply elem_of_filter_bool in Hs' as [_ Hs']. congruence.
  - intros key row Hr. exists (fold_left (refresh_row byShape) stale row). rewrite refresh_fold_id. split; [|done].
    rewrite row_for_fmap by (intros; by apply Hg). assert (row_for index_key key (rows ++ new) = Some row) as ->; [|done].
    apply Hin1. apply row_for_elem in Hr as [Hr Hk]; [|apply Hdim]. split; [apply elem_of_app; by left|done].
  - intros key row'. rewrite row_for_fmap by (intros; by apply Hg). intros (row & Hr & ->)%fmap_Some Hnone. rewrite refresh_fold_id.
    apply Hin1 in Hr as [[Hr|Hr]%elem_of_app Hk].
    + assert (row_for index_key key rows = Some row) by (apply row_for_elem; [apply Hdim|done]). congruence.
    + apply list_elem_of_lookup in Hr as [i Hi]. destruct (Forall2_lookup_l _ _ _ _ _ Hnew Hi) as (s & Hs & Hsk & Hlt & _).
      split; [done|]. apply list_elem_of_lookup_2, Hit in Hs as [Hs _]. exists s. split; [done|]. congruence.
Qed.

Lemma list_omap_ext_elem {A B} (f g : A -> option B) (l : list A) : (forall x, x ∈ l -> f x = g x) -> omap f l = omap g l.
Proof.
  induction l as [|x l IH]; intros H'; [done|]. cbn. rewrite (H' x) by left. rewrite IH; [done|]. intros y Hy. apply H'. by right.
Qed.

(** ** What a collect leaves of the history *)

(** The runs stored of the index with a key, newest first. *)
Definition history (t : Tables) (key : string) : list StoredRun :=
  sp_run <$> runs_of xi_id index_key (clusterIndexes t) (indexSnapshots t) key.
#[export] Instance snapshot_laws : RunSeriesLaws SnapshotRow (Z * CollectedSnapshot).
Proof. by split; intros; repeat match goal with reading : (_ * _)%type |- _ => destruct reading end. Qed.

Lemma run_step_recorded now id owner runs s :
  sp_run <$> run_step id owner runs (now, s) = recordSnapshot (sp_run <$> runs) (now, cs_perMember s).
Proof. destruct runs as [|run older]; [done|]. cbn -[extendsRun]. by destruct (extendsRun _ _ _). Qed.

(** One collect writes the history of every index as that index alone would
    have it written, and touches no other. *)
Lemma recordSnapshots_spec t snaps now :
  indexes_ok (next_id t) (clusterIndexes t) -> series_ok (next_id t) now (indexSnapshots t) -> snapshots_ok snaps ->
  let t' := (recordSnapshots t snaps now).1 in
  (next_id t <= next_id t')%nat /\ indexes_ok (next_id t') (clusterIndexes t') /\ series_ok (next_id t') now (indexSnapshots t')
  /\ (forall key, history t' key =
        match item_for shape key snaps with
        | Some s => recordSnapshot (history t key) (now, cs_perMember s)
        | None => history t key
        end)
  /\ (forall s, s ∈ snaps -> exists row, row_for index_key (shape s) (clusterIndexes t') = Some row /\ hiddenOf (xi_spec row) = hiddenOf (cs_spec s))
  /\ (forall key row, row_for index_key key (clusterIndexes t) = Some row ->
        exists row', row_for index_key key (clusterIndexes t') = Some row' /\ xi_id row' = xi_id row).
Proof.
  intros Hix Hser Hsn. cbv zeta. unfold recordSnapshots. destruct snaps as [|s0 snaps0] eqn:Esn.
  { split; [done|]. split; [done|]. split; [done|]. split; [done|].
    split; [intros s Hs; by apply elem_of_nil in Hs|intros key row Hr; by exists row]. }
  rewrite <- Esn in *. clear s0 snaps0 Esn.
  pose proof (dimensionIds_spec _ _ _ Hix Hsn) as D.
  destruct (dimensionIds (next_id t) (clusterIndexes t) snaps) as [[next' rows'] ids]. destruct D as (Hle & Hix' & Hs & Hold & Hnew).
  assert (omap (fun s => (fun id => (id, (now, s))) <$> map_get (identity s) ids) snaps = readings_for xi_id index_key shape now rows' snaps) as ->.
  { unfold readings_for. apply list_omap_ext_elem. intros s Hin. destruct (Hs s Hin) as (row & -> & -> & _). done. }
  pose proof (series_step xi_id index_key shape (fun _ _ => eq_refl) (next_id t) next' (clusterIndexes t) rows' (indexSnapshots t) snaps now Hle
    (proj1 Hix') Hold (fun key d H1 H2 => proj1 (Hnew key d H1 H2)) Hser (shapes_NoDup _ Hsn)
    (fun s Hin => let '(ex_intro _ row (conj Hr _)) := Hs s Hin in ex_intro _ row Hr)) as Hstep.
  destruct (write_runs next' (indexSnapshots t) _) as [[next2 runs] counts]. destruct Hstep as (Hle2 & Hser' & Hruns). cbn [fst next_id clusterIndexes indexSnapshots].
  split; [lia|]. split.
  { destruct Hix' as [(Hd & Hk & Hlt) Hn]. split; [split_and!; [done|done|]|done]. intros row Hr%Hlt. lia. }
  split; [done|]. split.
  { intros key. unfold history. cbn [clusterIndexes indexSnapshots]. destruct (Hruns key) as (id & owner & ->).
    destruct (item_for shape key snaps) as [s|]; [apply run_step_recorded|done]. }
  split; [|done]. intros s Hin. destruct (Hs s Hin) as (row & Hr & _ & Hh). by exists row.
Qed.

(** ** Latency *)

Definition latency_runs (t : Tables) (key : string) : list LatencySampleRow :=
  runs_of nr_id namespace_key (clusterNamespaces t) (latencySamples t) key.
#[export] Instance latency_laws : RunSeriesLaws LatencySampleRow (Z * CollectedLatency).
Proof. by split; intros; repeat match goal with reading : (_ * _)%type |- _ => destruct reading end. Qed.

Lemma missing_filter wanted ids : NoDup (sample_key <$> wanted) ->
  missing_namespaces wanted ids = List.filter (fun sample => negb (is_some (map_get (sample_key sample) ids))) wanted.
Proof.
  intros Hn. unfold missing_namespaces.
  assert (forall acc, NoDup (acc.*1 ++ (sample_key <$> wanted)) ->
    snd <$> fold_left (fun missing sample =>
      if is_some (map_get (sample_key sample) ids) then missing else map_put (sample_key sample) sample missing) wanted acc =
    acc.*2 ++ List.filter (fun sample => negb (is_some (map_get (sample_key sample) ids))) wanted) as Hgen.
  { clear Hn. induction wanted as [|x l IH]; intros acc Hn; [by rewrite app_nil_r|]. cbn [fold_left List.filter].
    destruct (is_some _); cbn [negb].
    - apply IH. cbn in Hn. apply NoDup_app in Hn as (Ha & Hd & Hl). apply NoDup_cons in Hl as [_ Hl].
      apply NoDup_app. split_and!; [done| |done]. intros k Hk Hk'. apply (Hd k Hk). by right.
    - assert (sample_key x ∉ acc.*1) as Hx.
      { intros Hk. apply NoDup_app in Hn as (_ & Hd & _). apply (Hd _ Hk). left. }
      rewrite (map_put_fresh _ _ _ Hx). rewrite IH; [by rewrite fmap_app, <- app_assoc|]. rewrite fmap_app, <- app_assoc. done. }
  rewrite (Hgen []); done.
Qed.
Lemma namespaces_known next rows wanted :
  dimension_ok nr_id namespace_key next rows -> NoDup (sample_key <$> wanted) ->
  let '(next', rows', ids) := resolve_rows namespace_key namespace_row namespace_conflict read_back_namespaces next rows (missing_namespaces wanted) in
  (next <= next')%nat /\ dimension_ok nr_id namespace_key next' rows'
  /\ (forall sample, sample ∈ wanted -> exists row, row_for namespace_key (sample_key sample) rows' = Some row)
  /\ (forall key, map_get key ids = row_for namespace_key key rows')
  /\ (forall key row, row_for namespace_key key rows = Some row -> row_for namespace_key key rows' = Some row)
  /\ (forall key row, row_for namespace_key key rows' = Some row -> row_for namespace_key key rows = None -> (next <= nr_id row)%nat).
Proof.
  intros Hd Hn. set (items := missing_namespaces wanted (remember namespace_key rows [])).
  assert (Hit : forall s, s ∈ items <-> s ∈ wanted /\ row_for namespace_key (sample_key s) rows = None).
  { intros s. unfold items. rewrite missing_filter by done. rewrite elem_of_filter_bool, negb_true_iff.
    rewrite remember_get by apply Hd. destruct (row_for namespace_key (sample_key s) rows); cbn; naive_solver. }
  destruct (resolve_rows_spec nr_id namespace_key sample_key namespace_row namespace_conflict read_back_namespaces (fun _ => True)
    (fun _ _ => eq_refl) (fun _ _ _ => eq_refl)) with (next := next) (rows := rows) (missing := missing_namespaces wanted) as [new Hnew]; fold items.
  { intros row s _. unfold namespace_conflict. rewrite andb_true_iff, !String.eqb_eq. intros [E1 E2]. unfold namespace_key, sample_key. by rewrite E1, E2. }
  { done. }
  { intros id s Hs. unfold read_back_namespaces. apply includes_spec. cbn. apply list_elem_of_fmap. by exists s. }
  { done. }
  { unfold items. rewrite missing_filter by done. by apply NoDup_fmap_filter. }
  { intros s Hs. by apply Hit. }
  destruct (resolve_rows _ _ _ _ next rows (missing_namespaces wanted)) as [[next1 rows1] ids]. fold items in Hnew.
  destruct Hnew as (-> & -> & Hok1 & Hnew & Hby).
  assert (Hin1 : forall key row, row_for namespace_key key (rows ++ new) = Some row <-> row ∈ rows ++ new /\ namespace_key row = key)
    by (intros; apply row_for_elem, Hok1).
  split; [lia|]. split; [done|]. split; [|split; [done|split]].
  - intros s Hs. destruct (row_for namespace_key (sample_key s) rows) as [row|] eqn:E.
    + exists row. apply Hin1. apply row_for_elem in E as [E Ek]; [|apply Hd]. split; [apply elem_of_app; by left|done].
    + assert (s ∈ items) as Hm by by apply Hit. apply list_elem_of_lookup in Hm as [i Hi].
      destruct (Forall2_lookup_r _ _ _ _ _ Hnew Hi) as (row & Hr & Hk & _). exists row. apply Hin1.
      split; [apply elem_of_app; right; by apply list_elem_of_lookup_2 in Hr|done].
  - intros key row Hr. apply Hin1. apply row_for_elem in Hr as [Hr Hk]; [|apply Hd]. split; [apply elem_of_app; by left|done].
  - intros key row Hr Hnone. apply Hin1 in Hr as [[Hr|Hr]%elem_of_app Hk].
    + assert (row_for namespace_key key rows = Some row) by (apply row_for_elem; [apply Hd|done]). congruence.
    + apply list_elem_of_lookup in Hr as [i Hi]. by destruct (Forall2_lookup_l _ _ _ _ _ Hnew Hi) as (s & Hs & Hsk & Hlt & _).
Qed.
Lemma recordLatency_spec t samples now :
  dimension_ok nr_id namespace_key (next_id t) (clusterNamespaces t) -> series_ok (next_id t) now (latencySamples t) -> NoDup (sample_key <$> samples) ->
  let t' := (recordLatency t samples now).1 in
  (next_id t <= next_id t')%nat /\ dimension_ok nr_id namespace_key (next_id t') (clusterNamespaces t') /\ series_ok (next_id t') now (latencySamples t')
  /\ forall key, exists id owner, latency_runs t' key =
        match item_for sample_key key samples with
        | Some s => run_step id owner (latency_runs t key) (now, s)
        | None => latency_runs t key
        end.
Proof.
  intros Hd Hser Hn. cbv zeta. unfold recordLatency. destruct samples as [|s0 samples0] eqn:Es.
  { split; [done|]. split; [done|]. split; [done|]. by exists O, O. }
  unfold namespaceIds. rewrite <- Es in *. destruct samples as [|s1 samples1] eqn:Es1; [done|]. rewrite <- Es1 in *. clear Es Es1 s0 samples0 s1 samples1.
  pose proof (namespaces_known _ _ _ Hd Hn) as D. destruct (resolve_rows _ _ _ _ _ _ _) as [[next' rows'] ids].
  destruct D as (Hle & Hd' & Hs & Hids & Hold & Hnew).
  assert (omap (fun s => (fun row => (nr_id row, (now, s))) <$> map_get (sample_key s) ids) samples = readings_for nr_id namespace_key sample_key now rows' samples) as ->.
  { unfold readings_for. apply list_omap_ext_elem. intros s Hin. by rewrite Hids. }
  pose proof (series_step nr_id namespace_key sample_key (fun _ _ => eq_refl) (next_id t) next' (clusterNamespaces t) rows' (latencySamples t) samples now Hle
    Hd' (fun key d Hk => ex_intro _ d (conj (Hold key d Hk) eq_refl)) Hnew Hser Hn Hs) as Hstep.
  destruct (write_runs next' (latencySamples t) _) as [[next2 runs] counts]. destruct Hstep as (Hle2 & Hser' & Hruns).
  cbn [fst next_id clusterNamespaces latencySamples]. split; [lia|]. split.
  { destruct Hd' as (Hi & Hk & Hlt). split_and!; [done|done|]. intros row Hr%Hlt. lia. }
  split; [done|]. exact Hruns.
Qed.

(** ** Any number of collects *)

Definition no_tables : Tables :=
  {| clusterIndexes := []; indexSnapshots := []; clusterNamespaces := []; latencySamples := []; clusterFootprintDays := [];
     clusterRoster := None; next_id := 0 |}.
(** A collect: the instant it read, the collector's answers and its nodes, and the
    writes that fail. *)
Record Collect :=
  { ct_at : Z; ct_reads : CollectorReads; ct_nodes : read_error + option (list ClusterNode); ct_failing : CollectWrite -> option string }.
Definition run_collect (day_of : Z -> Z) (t : Tables) (c : Collect) : Tables :=
  (collectCluster day_of (ct_reads c) (ct_nodes c) (ct_failing c) (ct_at c) t).1.
Definition after_collects (day_of : Z -> Z) (collects : list Collect) : Tables :=
  fold_left (run_collect day_of) collects no_tables.
(** What a collect got, when its reads went through. *)
Definition collected (c : Collect) : option CollectResult :=
  match collectSnapshots (ct_reads c), ct_nodes c with inr result, inr _ => Some result | _, _ => None end.
Definition collect_ok (c : Collect) : Prop :=
  match collected c with
  | Some result => snapshots_ok (snapshots result) /\ NoDup (sample_key <$> latency result)
  | None => True
  end.
(** Collects after one another, none before [from]. *)
Fixpoint taken_after (from : Z) (collects : list Collect) : Prop :=
  match collects with [] => True | c :: rest => from <= ct_at c /\ taken_after (ct_at c) rest end.
(** What of it is in the write's tables: nothing where the write failed. *)
Definition stored_of (write : CollectWrite) (c : Collect) : option CollectResult := landing (ct_failing c) write (collected c) None.
(** The readings of one index, and of one namespace, that were stored. *)
Definition index_readings (key : string) (collects : list Collect) : list (Z * list MemberUsage) :=
  omap (fun c => result ← stored_of to_snapshots c; s ← item_for shape key (snapshots result); Some (ct_at c, cs_perMember s)) collects.
Definition namespace_readings (key : string) (collects : list Collect) : list (Z * CollectedLatency) :=
  omap (fun c => result ← stored_of to_latency c; s ← item_for sample_key key (latency result); Some (ct_at c, s)) collects.

Definition collected_ok (now : Z) (t : Tables) : Prop :=
  (indexes_ok (next_id t) (clusterIndexes t) /\ series_ok (next_id t) now (indexSnapshots t))
  /\ (dimension_ok nr_id namespace_key (next_id t) (clusterNamespaces t) /\ series_ok (next_id t) now (latencySamples t)).

Lemma series_ok_le `{RunTableRow Row} next next' now now' (rows : list Row) :
  (next <= next')%nat -> now <= now' -> series_ok next now rows -> series_ok next' now' rows.
Proof. intros Hn Ht [Hr Hs]. split; [by eapply rows_ok_le|]. intros row [Ho Hc]%Hs. split; lia. Qed.
Lemma indexes_ok_le next next' rows : (next <= next')%nat -> indexes_ok next rows -> indexes_ok next' rows.
Proof. intros Hle [(Hd & Hk & Hlt) Hn]. split; [split_and!; [done|done|]|done]. intros row Hr%Hlt. lia. Qed.
Lemma dimension_ok_le {Row} (row_id : Row -> nat) row_key next next' rows :
  (next <= next')%nat -> dimension_ok row_id row_key next rows -> dimension_ok row_id row_key next' rows.
Proof. intros Hle (Hd & Hk & Hlt). split_and!; [done|done|]. intros row Hr%Hlt. lia. Qed.

(** The two writes of tables with runs, landed or not. *)
Lemma snapshots_landing c t result : collected_ok (ct_at c) t -> snapshots_ok (snapshots result) ->
  let t' := (landing (ct_failing c) to_snapshots (recordSnapshots t (snapshots result) (ct_at c)) (t, nothing_written)).1 in
  collected_ok (ct_at c) t' /\ latency_runs t' = latency_runs t /\
  forall key, history t' key =
    match item_for shape key (snapshots result) with
    | Some s => landing (ct_failing c) to_snapshots (recordSnapshot (history t key) (ct_at c, cs_perMember s)) (history t key)
    | None => history t key
    end.
Proof.
  intros [[Hix Hsr] [Hdm Hlr]] Hsn. unfold landing. destruct (is_some (ct_failing c to_snapshots)); cbn [fst].
  { split; [by split|]. split; [done|]. intros key. by destruct (item_for shape key (snapshots result)). }
  pose proof (recordSnapshots_spec t (snapshots result) (ct_at c) Hix Hsr Hsn) as S. cbv zeta in S.
  assert (Hkeep : clusterNamespaces (recordSnapshots t (snapshots result) (ct_at c)).1 = clusterNamespaces t /\
    latencySamples (recordSnapshots t (snapshots result) (ct_at c)).1 = latencySamples t).
  { unfold recordSnapshots. destruct (snapshots result); [done|]. destruct (dimensionIds _ _ _) as [[] ]. by destruct (write_runs _ _ _) as [[]]. }
  destruct (recordSnapshots t (snapshots result) (ct_at c)) as [t1 written]. cbn [fst] in *.
  destruct S as (Hle1 & Hix1 & Hsr1 & Hh1 & _). destruct Hkeep as [Kn Kl]. split; [split; [by split|split]|split; [|done]].
  - rewrite Kn. by eapply dimension_ok_le.
  - rewrite Kl. by eapply series_ok_le.
  - unfold latency_runs. by rewrite Kn, Kl.
Qed.
Lemma latency_landing c t result : collected_ok (ct_at c) t -> NoDup (sample_key <$> latency result) ->
  let t' := (landing (ct_failing c) to_latency (recordLatency t (latency result) (ct_at c)) (t, nothing_written)).1 in
  collected_ok (ct_at c) t' /\ history t' = history t /\
  forall key, exists id owner, latency_runs t' key =
    match item_for sample_key key (latency result) with
    | Some s => landing (ct_failing c) to_latency (run_step id owner (latency_runs t key) (ct_at c, s)) (latency_runs t key)
    | None => latency_runs t key
    end.
Proof.
  intros [[Hix Hsr] [Hdm Hlr]] Hlt. unfold landing. destruct (is_some (ct_failing c to_latency)); cbn [fst].
  { split; [by split|]. split; [done|]. intros key. exists O, O. by destruct (item_for sample_key key (latency result)). }
  pose proof (recordLatency_spec t (latency result) (ct_at c) Hdm Hlr Hlt) as L. cbv zeta in L.
  assert (Hkeep : clusterIndexes (recordLatency t (latency result) (ct_at c)).1 = clusterIndexes t /\
    indexSnapshots (recordLatency t (latency result) (ct_at c)).1 = indexSnapshots t).
  { unfold recordLatency. destruct (latency result); [done|]. destruct (namespaceIds _ _ _) as [[] ]. by destruct (write_runs _ _ _) as [[]]. }
  destruct (recordLatency t (latency result) (ct_at c)) as [t2 latencyWritten]. cbn [fst] in *.
  destruct L as (Hle & Hdm2 & Hlr2 & Hh2). destruct Hkeep as [Ki Ks]. split; [split; [split|by split]|split; [|done]].
  - rewrite Ki. by eapply indexes_ok_le.
  - rewrite Ks. by eapply series_ok_le.
  - unfold history. by rewrite Ki, Ks.
Qed.
(** One collect. *)
Lemma collectCluster_spec day_of c t :
  collected_ok (ct_at c) t -> collect_ok c ->
  let t' := run_collect day_of t c in
  collected_ok (ct_at c) t'
  /\ (forall key, history t' key =
        match result ← stored_of to_snapshots c; item_for shape key (snapshots result) with
        | Some s => recordSnapshot (history t key) (ct_at c, cs_perMember s)
        | None => history t key
        end)
  /\ (forall key, exists id owner, latency_runs t' key =
        match result ← stored_of to_latency c; item_for sample_key key (latency result) with
        | Some s => run_step id owner (latency_runs t key) (ct_at c, s)
        | None => latency_runs t key
        end).
Proof.
  intros Ht Hok. unfold collect_ok, stored_of, run_collect, collectCluster in *. destruct (collected c) as [result|] eqn:Ec.
  2: { assert (forall write, landing (ct_failing c) write (@None CollectResult) None = None) as En by (intros write; unfold landing; by destruct (is_some _)).
       setoid_rewrite En. unfold collected in Ec. destruct (collectSnapshots (ct_reads c)); [|destruct (ct_nodes c); [|done]]; (split; [done|split; [done|by exists O, O]]). }
  unfold collected in Ec. destruct (collectSnapshots (ct_reads c)) as [e|result']; [done|]. destruct (ct_nodes c) as [e|nodes]; [done|]. injection Ec as ->.
  destruct Hok as [Hsn Hlt]. pose proof (snapshots_landing c t result Ht Hsn) as S. cbv zeta in S.
  destruct (landing (ct_failing c) to_snapshots (recordSnapshots _ _ _) _) as [t1 written]. cbn [fst] in S. destruct S as (Ht1 & El1 & Hh1).
  pose proof (latency_landing c t1 result Ht1 Hlt) as L. cbv zeta in L.
  destruct (landing (ct_failing c) to_latency (recordLatency _ _ _) _) as [t2 latencyWritten]. cbn [fst] in L. destruct L as (Ht2 & Eh2 & Hh2).
  set (t3 := landing (ct_failing c) to_footprint _ _).
  assert (clusterIndexes t3 = clusterIndexes t2 /\ indexSnapshots t3 = indexSnapshots t2 /\ clusterNamespaces t3 = clusterNamespaces t2
    /\ latencySamples t3 = latencySamples t2 /\ next_id t3 = next_id t2) as (E1 & E2 & E3 & E4 & E5).
  { subst t3. unfold landing, recordFootprintDay, recordRoster. destruct (is_some (ct_failing c to_footprint)), (is_some (ct_failing c to_roster)), (snapshots result), nodes; done. }
  assert (collected_ok (ct_at c) t3 /\ history t3 = history t1 /\ latency_runs t3 = latency_runs t2) as (Ht3 & Eh3 & El3).
  { rewrite <- Eh2. unfold collected_ok, history, latency_runs. rewrite E1, E2, E3, E4, E5. done. }
  assert (forall (rest : list string) (x : CollectOutcome), (match rest with e :: _ => (t3, inl (ReadError e)) | [] => (t3, inr x) end : Tables * (read_error + CollectOutcome)).1 = t3) as ->
    by by intros [].
  rewrite Eh3, El3. split; [done|]. split.
  - intros key. rewrite Hh1. unfold landing. destruct (is_some (ct_failing c to_snapshots)); cbn [mbind option_bind]; [|done]. by destruct (item_for shape key (snapshots result)).
  - intros key. destruct (Hh2 key) as (id & owner & E). exists id, owner. rewrite E, El1. unfold landing. destruct (is_some (ct_failing c to_latency)); cbn [mbind option_bind]; [|done].
    by destruct (item_for sample_key key (latency result)).
Qed.

Lemma collected_ok_later now now' t : now <= now' -> collected_ok now t -> collected_ok now' t.
Proof. intros Hle [[H1' H2'] [H3' H4']]. by split; split; [|eapply series_ok_le| |eapply series_ok_le]. Qed.
Lemma history_from day_of collects from t key :
  collected_ok from t -> taken_after from collects -> Forall collect_ok collects ->
  history (fold_left (run_collect day_of) collects t) key
  = fold_left recordSnapshot (index_readings key collects) (history t key).
Proof.
  revert from t. induction collects as [|c collects IH]; intros from t Ht Ho Hok; [done|]. destruct Ho as [Hle Ho].
  apply Forall_cons in Hok as [Hc Hok]. destruct (collectCluster_spec day_of c t (collected_ok_later _ _ _ Hle Ht) Hc) as (Ht' & Hh & _).
  cbn [fold_left]. rewrite (IH (ct_at c)) by done. rewrite Hh. unfold index_readings. cbn [omap list_omap].
  destruct (stored_of to_snapshots c) as [result|]; [|done]. cbn [mbind option_bind]. by destruct (item_for shape key (snapshots result)).
Qed.
Lemma series_ok_nil `{RunTableRow Row} next now : series_ok next now ([] : list Row).
Proof.
  split; [split_and!; [constructor| |constructor]|]; intros row Hr; by apply elem_of_nil in Hr.
Qed.
Lemma dimension_ok_nil {Row} (row_id : Row -> nat) row_key next : dimension_ok row_id row_key next [].
Proof. split_and!; [constructor|constructor|]. intros row Hr. by apply elem_of_nil in Hr. Qed.
Lemma no_tables_ok now : collected_ok now no_tables.
Proof.
  split; (split; [|apply series_ok_nil]); [split; [apply dimension_ok_nil|]|apply dimension_ok_nil].
  intros row Hr. by apply elem_of_nil in Hr.
Qed.


(** After a collect every index it read has one row, which says of being hidden
    what was read, and an index there was keeps the row it had. *)
Theorem collect_tells_hidden (t : Tables) (snaps : list CollectedSnapshot) (now : Z) :
  indexes_ok (next_id t) (clusterIndexes t) -> series_ok (next_id t) now (indexSnapshots t) -> snapshots_ok snaps ->
  let t' := (recordSnapshots t snaps now).1 in
  NoDup (index_key <$> clusterIndexes t')
  /\ (forall s, s ∈ snaps -> exists row, row_for index_key (shape s) (clusterIndexes t') = Some row /\ hiddenOf (xi_spec row) = hiddenOf (cs_spec s))
  /\ (forall key row, row_for index_key key (clusterIndexes t) = Some row ->
        exists row', row_for index_key key (clusterIndexes t') = Some row' /\ xi_id row' = xi_id row).
Proof.
  intros Hix Hser Hsn. destruct (recordSnapshots_spec t snaps now Hix Hser Hsn) as (_ & [Hd _] & _ & _ & Hh & Hk). split; [apply Hd|done].
Qed.

(** ** What a row of latency stands for *)

(** The operations of a reading that this program did not cause. *)
Definition foreign (s : CollectedLatency) : Z * Z := (cl_readOps s - cl_selfReadOps s, cl_writeOps s).
Definition shows (row : LatencySampleRow) (s : CollectedLatency) : Prop :=
  (lr_readOps row, lr_selfReadOps row, lr_readLatencyMicros row, lr_writeOps row, lr_writeLatencyMicros row) =
  (cl_readOps s, cl_selfReadOps s, cl_readLatencyMicros s, cl_writeOps s, cl_writeLatencyMicros s).
(** Readings at most [gap] apart. *)
Fixpoint close_by (gap : Z) (block : list (Z * CollectedLatency)) : Prop :=
  match block with (t, _) :: (((t', _) :: _) as rest) => 0 <= t' - t <= gap /\ close_by gap rest | _ => True end.
(** A row stands for a block of readings in a row: it begins and ends with them and
    counts them, none saw an operation of anybody else since the first, no two are
    further apart than it says, and it shows the counters of the last. *)
Definition row_tells (row : LatencySampleRow) (block : list (Z * CollectedLatency)) : Prop :=
  exists t0 s0 t1 s1, head block = Some (t0, s0) /\ last block = Some (t1, s1)
    /\ lr_capturedAt row = t0 /\ lr_lastSeenAt row = t1 /\ lr_observations row = Z.of_nat (length block)
    /\ shows row s1 /\ Forall (fun r => foreign (snd r) = foreign s1) block
    /\ 0 <= lr_maxGapMs row <= MAX_GAP_MS /\ close_by (lr_maxGapMs row) block.
(** A new row begins where somebody else's operation shows, or where nobody looked
    for too long. *)
Definition row_ends (row : LatencySampleRow) (next : list (Z * CollectedLatency)) : Prop :=
  exists t s, head next = Some (t, s) /\
    (foreign s <> (lr_readOps row - lr_selfReadOps row, lr_writeOps row) \/ MAX_GAP_MS < t - lr_lastSeenAt row).
Inductive rows_tell : list LatencySampleRow -> list (list (Z * CollectedLatency)) -> Prop :=
| rows_tell_nil : rows_tell [] []
| rows_tell_cons row rows block blocks :
    row_tells row block -> rows_tell rows blocks -> (forall older, head rows = Some older -> row_ends older block) ->
    rows_tell (row :: rows) (block :: blocks).

Lemma latencyFingerprint_inj a b c a' b' c' : latencyFingerprint a b c = latencyFingerprint a' b' c' -> a - b = a' - b' /\ c = c'.
Proof.
  unfold latencyFingerprint. cbn [join]. intros E. apply nul_split in E as [E1 E2]; [|apply nul_free_show..].
  apply (inj pretty) in E1, E2. done.
Qed.
Lemma latency_continues_spec row now s :
  latency_continues row (now, s) = true <->
  foreign s = (lr_readOps row - lr_selfReadOps row, lr_writeOps row) /\ 0 <= now - lr_lastSeenAt row <= MAX_GAP_MS.
Proof.
  unfold latency_continues, extendsRun, latency_current, foreign. cbn [fingerprint cr_lastSeenAt]. split.
  - destruct (String.eqb_spec (latencyFingerprint (lr_readOps row) (lr_selfReadOps row) (lr_writeOps row))
      (latencyFingerprint (cl_readOps s) (cl_selfReadOps s) (cl_writeOps s))) as [E|]; [|done]. cbn [negb].
    apply latencyFingerprint_inj in E as [-> ->]. destruct (_ <? 0) eqn:E0; [done|]. intros E1. split; [done|lia].
  - intros [[= E1 E2] Ht]. unfold latencyFingerprint. rewrite E1, E2, String.eqb_refl. cbn [negb].
    destruct (Z.ltb_spec (now - lr_lastSeenAt row) 0); lia.
Qed.
Lemma close_by_le gap gap' block : gap <= gap' -> close_by gap block -> close_by gap' block.
Proof.
  intros Hg. induction block as [|[t s] [|[t' s'] rest] IH]; [done|done|]. intros [Ht Hr]. split; [lia|by apply IH].
Qed.
Lemma close_by_snoc gap block t s t' s' : last block = Some (t, s) -> 0 <= t' - t <= gap -> close_by gap block -> close_by gap (block ++ [(t', s')]).
Proof.
  intros Hl Ht. induction block as [|[a x] [|[b y] rest] IH]; [done| |].
  - cbn in Hl. injection Hl as <- <-. done.
  - intros [Hab Hr]. split; [done|]. by apply IH.
Qed.
Lemma rows_tell_step id owner rows blocks now s :
  rows_tell rows blocks -> (forall row, head rows = Some row -> lr_lastSeenAt row <= now) ->
  exists blocks', rows_tell (run_step id owner rows (now, s)) blocks' /\ concat (rev blocks') = concat (rev blocks) ++ [(now, s)]
    /\ forall row, head (run_step id owner rows (now, s)) = Some row -> lr_lastSeenAt row = now.
Proof.
  intros Ht Hnow. assert (Hopen : forall run, row_tells (latency_opened id owner run (now, s)) [(now, s)]).
  { intros run. exists now, s, now, s. cbn. unfold MAX_GAP_MS. split_and!; try done; by repeat constructor. }
  destruct Ht as [|row rows block blocks Hrow Hrows Hend].
  { exists [[(now, s)]]. split_and!; [by constructor; [|constructor|]|done|by intros row [= <-]]. }
  cbn [run_step continues latency_series]. specialize (Hnow row eq_refl).
  destruct (latency_continues row (now, s)) eqn:Ec.
  - apply latency_continues_spec in Ec as [Hf Hgap]. destruct Hrow as (t0 & s0 & t1 & s1 & Hh & Hl & Hc & Hs & Ho & Hsh & Hsame & Hg & Hcl).
    exists ((block ++ [(now, s)]) :: blocks). split_and!.
    + constructor; [|done|].
      * exists t0, s0, now, s. assert (foreign s = foreign s1) as Hfs.
        { rewrite Hf. unfold foreign. unfold shows in Hsh. injection Hsh as -> -> _ -> _. done. }
        split_and!; cbn.
        -- by destruct block.
        -- apply last_snoc.
        -- done.
        -- done.
        -- rewrite length_app. cbn. lia.
        -- done.
        -- apply Forall_app. split; [|by constructor]. eapply Forall_impl; [done|]. cbn. intros r ->. done.
        -- lia.
        -- lia.
        -- eapply close_by_snoc; [done|lia|]. eapply close_by_le; [|done]. lia.
      * intros older Ho'. destruct (Hend older Ho') as (t & x & Hhd & Hx). exists t, x. split; [|done]. by destruct block.
    + cbn [rev]. rewrite !concat_app. cbn. by rewrite !app_nil_r, app_assoc.
    + by intros r [= <-].
  - exists ([(now, s)] :: block :: blocks). split_and!.
    + constructor; [apply Hopen|by constructor|]. intros older [= <-]. exists now, s. split; [done|].
      destruct (decide (foreign s = (lr_readOps row - lr_selfReadOps row, lr_writeOps row))) as [Hf|]; [|by left]. right.
      apply not_true_iff_false in Ec. destruct (decide (now - lr_lastSeenAt row <= MAX_GAP_MS)); [|lia].
      exfalso. apply Ec. apply latency_continues_spec. split; [done|lia].
    + cbn [rev]. rewrite !concat_app. cbn. by rewrite !app_nil_r.
    + by intros r [= <-].
Qed.

Lemma latency_from day_of collects from t key blocks :
  collected_ok from t -> taken_after from collects -> Forall collect_ok collects ->
  rows_tell (latency_runs t key) blocks -> (forall row, head (latency_runs t key) = Some row -> lr_lastSeenAt row <= from) ->
  exists blocks', rows_tell (latency_runs
      (fold_left (run_collect day_of) collects t) key) blocks'
    /\ concat (rev blocks') = concat (rev blocks) ++ namespace_readings key collects.
Proof.
  revert from t blocks. induction collects as [|c collects IH]; intros from t blocks Ht Ho Hok Hb Hl.
  { exists blocks. by rewrite app_nil_r. }
  destruct Ho as [Hle Ho]. apply Forall_cons in Hok as [Hc Hok].
  destruct (collectCluster_spec day_of c t (collected_ok_later _ _ _ Hle Ht) Hc) as (Ht' & _ & Hh). destruct (Hh key) as (id & owner & E). clear Hh.
  cbn [fold_left]. unfold namespace_readings. cbn [omap list_omap]. fold (namespace_readings key collects).
  destruct (stored_of to_latency c) as [result|] eqn:Ec; cbn [mbind option_bind] in *;
    [destruct (item_for sample_key key (latency result)) as [s|]; cbn [mbind option_bind] in *|].
  - destruct (rows_tell_step id owner _ _ (ct_at c) s Hb) as (blocks1 & Hb1 & Ecat & Hl1); [intros row Hr; specialize (Hl row Hr); lia|].
    rewrite <- E in Hb1, Hl1. destruct (IH (ct_at c) _ blocks1 Ht' Ho Hok Hb1) as (blocks' & Hb' & Ecat').
    { intros row Hr. by rewrite (Hl1 row Hr). }
    exists blocks'. split; [done|]. by rewrite Ecat', Ecat, <- app_assoc.
  - rewrite <- E in Hb, Hl. apply (IH (ct_at c)); [done..|]. intros row Hr. specialize (Hl row Hr). lia.
  - rewrite <- E in Hb, Hl. apply (IH (ct_at c)); [done..|]. intros row Hr. specialize (Hl row Hr). lia.
Qed.

(** A row of latency stands for readings nobody else touched the collection
    between. After any collects, in order, the rows of a namespace cut its readings
    into blocks without losing one: a row begins, ends and counts as its block
    does, shows the counters of the block's last reading, saw no operation but our
    own since its first, and hides no hole longer than the trust gate tolerates;
    and a new row begins only where another's operation shows or such a hole is. *)
Theorem latency_rows_faithful (day_of : Z -> Z) (from : Z) (collects : list Collect) (key : string) :
  taken_after from collects -> Forall collect_ok collects ->
  exists blocks, rows_tell (latency_runs (after_collects day_of collects) key) blocks
    /\ concat (rev blocks) = namespace_readings key collects.
Proof.
  intros Ho Hok. destruct (latency_from day_of collects from no_tables key [] (no_tables_ok from) Ho Hok) as (blocks & Hb & E);
    [constructor|done|]. by exists blocks.
Qed.
End dimension.

(** ** A cluster of one collection *)

Section example.
#[local] Instance code_points : Locale := String.leb.
#[local] Existing Instance code_point_order.
#[local] Existing Instance plain_column.
#[local] Existing Instance plain_column_laws.

Definition by_city (hide : bool) : IndexSpec :=
  {| name := "city_1"; keys := [{| field := "city"; direction := Ordered Pos |}]; unique := false; ttl := false;
     partial := false; partialFilter := None; sparse := false; hidden := hide; isShardKey := false; collation := None; include := None |}.
Definition one_collection (hide : bool) (uses reads : Z) : CollectorReads :=
  {| listDatabaseNames := inr ["shop"%string]; cr_listCollectionNames := fun _ => inr ["orders"%string];
     cr_listIndexes := fun _ _ => inr [by_city hide];
     cr_collectUsage := fun _ _ => inr [{| iu_indexName := "city_1"; iu_host := "a:27017"; iu_ops := uses; iu_since := At 0 |}];
     indexSizes := fun _ _ => inr [("city_1"%string, 4096)]; cr_collectHintedIndexes := fun _ _ => inr [];
     cr_collectionLatency := fun _ _ => inr {| cl_reads := {| lp_ops := reads; lp_latencyMicros := 10 * reads |};
                                               cl_writes := {| lp_ops := 0; lp_latencyMicros := 0 |} |};
     cr_latencyByCollection := None; hintedByCollection := None; indexesByCollection := None; usageByCollection := None;
     indexSizesByCollection := None; selfReadOps := Some (fun _ _ => 2) |}.
(** Seen, seen again hidden, read in vain, seen used by a collect that could not store
    its latency, and by one that could store nothing else. *)
Definition all_land (_ : CollectWrite) : option string := None.
Definition latency_lost (write : CollectWrite) : option string := match write with to_latency => Some "deadlock"%string | _ => None end.
Definition snapshots_lost (write : CollectWrite) : option string := match write with to_snapshots => Some "deadlock"%string | _ => None end.
Definition some_collects : list Collect :=
  [{| ct_at := 1000; ct_reads := one_collection false 5 7; ct_nodes := inr None; ct_failing := all_land |};
   {| ct_at := 2000; ct_reads := one_collection true 5 7; ct_nodes := inr (Some []); ct_failing := all_land |};
   {| ct_at := 3000; ct_reads := one_collection false 5 7; ct_nodes := inl (ReadError "down"); ct_failing := all_land |};
   {| ct_at := 4000; ct_reads := one_collection true 6 9; ct_nodes := inr None; ct_failing := latency_lost |};
   {| ct_at := 5000; ct_reads := one_collection true 7 11; ct_nodes := inr None; ct_failing := snapshots_lost |}].
Definition city_key : string := shapeKey "shop" "orders" "city_1" (serializeSpec (by_city false)).

Lemma one_collection_ok at_ hide uses reads nodes failing :
  collect_ok {| ct_at := at_; ct_reads := one_collection hide uses reads; ct_nodes := inr nodes; ct_failing := failing |}.
Proof.
  split; [split|]; [apply NoDup_singleton| |apply NoDup_singleton].
  intros s Hs. apply list_elem_of_singleton in Hs as ->. split; [reflexivity|]. cbn. split_and!; try done; try apply code_points_apart.
  all: by apply (bool_decide_unpack _); vm_compute.
Qed.
Lemma some_collects_ok : taken_after 0 some_collects /\ Forall collect_ok some_collects.
Proof. split; [cbn; lia|]. repeat apply Forall_cons_2; [apply one_collection_ok..|done|apply one_collection_ok|apply one_collection_ok|constructor]. Qed.
Lemma latency_rows_faithful_witness :
  length (latency_runs (after_collects (fun t => t) some_collects) (workloadKey "shop" "orders")) = 2%nat
  /\ exists blocks, rows_tell (latency_runs (after_collects (fun t => t) some_collects) (workloadKey "shop" "orders")) blocks
      /\ concat (rev blocks) = namespace_readings (workloadKey "shop" "orders") some_collects.
Proof. split; [vm_compute; reflexivity|]. apply (latency_rows_faithful (fun t => t) 0); apply some_collects_ok. Defined.
End example.
