(* ===== verification/UsageEvidence.v ===== *)
(** What the classify job asks of [index_snapshots], folded in postgres:
    [apps/api/src/jobs/usage-evidence.ts], and the reading of it at the top of
    [classifyCluster] ([apps/api/src/jobs/classify.ts]).

    The query is modelled one common table expression at a time, on the rows of
    one cluster.  Its comment claims that it computes what [foldUsage] computes of
    the same rows; that is the theorem below. *)
From S2P Require Import Prelude Relational Runs EngineTypes Usage Classify Observed Activity Latency ClassifyJob.

(** A row of [index_snapshots].  The four columns an older writer leaves out are
    null in its rows; [per_member] is emptied on a superseded run. *)
Record SnapshotColumns := {
  sc_indexId : nat;
  sc_capturedAt : Z;
  sc_lastSeenAt : Z;
  sc_observations : Z;
  sc_maxGapMs : Z;
  sc_sizeBytes : Z;
  sc_hinted : bool;
  sc_perMember : list MemberUsage;
  sc_opsDelta : option Z;
  sc_opsTotal : option Z;
  sc_countersRestarted : option bool;
  sc_countersStartedAt : option Z;
}.

(** The comparison of two texts under the database's collation: the first sorts
    after the second. *)
Class Collation := text_after : stamp -> stamp -> bool.

Section query.
Context `{Collation}.

(** *** ordered *)
Definition span_end (row : SnapshotColumns) : Z := Z.max (sc_lastSeenAt row) (sc_capturedAt row).
Record Ordered := {
  od_row : SnapshotColumns;
  od_ordinal : Z;
  od_previousMembers : option (list MemberUsage);
  od_previousEnd : option Z;
}.
Definition order_row (w : Z * option SnapshotColumns * SnapshotColumns) : Ordered :=
  let '(ordinal, previous, row) := w in
  {| od_row := row; od_ordinal := ordinal; od_previousMembers := sc_perMember <$> previous; od_previousEnd := span_end <$> previous |}.
Definition in_window (since : Z) (row : SnapshotColumns) : bool := since <=? sc_lastSeenAt row.
(** One partition of the window. *)
Definition ordered (rows : list SnapshotColumns) : list Ordered :=
  order_row <$> over (stable_sort (by_key sc_capturedAt) rows).

(** *** priced *)
Definition same_member (cur prev : MemberUsage) : bool := String.eqb (member prev) (member cur).
Definition left_joined (cur prev : list MemberUsage) : list (MemberUsage * option MemberUsage) :=
  mjoin ((fun c => match List.filter (same_member c) prev with [] => [(c, None)] | ps => (fun p => (c, Some p)) <$> ps end) <$> cur).
Definition joined (cur prev : list MemberUsage) : list (MemberUsage * MemberUsage) :=
  mjoin ((fun c => (fun p => (c, p)) <$> List.filter (same_member c) prev) <$> cur).
Definition delta_of (pair : MemberUsage * option MemberUsage) : Z :=
  let '(cur, prev) := pair in
  match prev with
  | None => Z.max 0 (ops cur)
  | Some prev =>
      if negb (bool_decide (since prev = since cur)) || (ops cur <? ops prev) then Z.max 0 (ops cur) else ops cur - ops prev
  end.
Definition restart_of (pair : MemberUsage * MemberUsage) : bool :=
  let '(cur, prev) := pair in
  (ops cur <? ops prev) ||
  match since prev, since cur with
  | Some was, Some now => text_after now was
  | _, _ => false
  end.
Record Priced := { pr_from : Ordered; pr_ops : Z; pr_restarted : bool; pr_startedAt : option Z }.
Definition price (o : Ordered) : Priced :=
  let row := od_row o in
  {| pr_from := o;
     pr_ops :=
       if od_ordinal o =? 1
       then sc_opsTotal row ?? zsum (fun m => Z.max 0 (ops m)) (sc_perMember row)
       else sc_opsDelta row ?? zsum delta_of (left_joined (sc_perMember row) (od_previousMembers o ?? []));
     pr_restarted :=
       sc_countersRestarted row ?? existsb restart_of (joined (sc_perMember row) (od_previousMembers o ?? []));
     pr_startedAt :=
       match sc_countersStartedAt row with
       | Some started => Some started
       | None => sql_max (omap (fun m => since m ≫= getTime) (sc_perMember row))
       end |}.
Definition pr_row (p : Priced) : SnapshotColumns := od_row (pr_from p).

(** *** epoched, epochs, watched *)
Definition epoched (rows : list Priced) : list (Priced * Z) := running (fun p => if pr_restarted p then 1 else 0) 0 rows.
Definition epoch_watch (rows : list (Priced * Z)) : Z :=
  let epoch_start := sql_min ((fun r => sc_capturedAt (pr_row r.1)) <$> rows) ?? 0 in
  let epoch_end := sql_max ((fun r => span_end (pr_row r.1)) <$> rows) ?? 0 in
  let first_started := head rows ≫= (fun r => pr_startedAt r.1) in
  epoch_end - Z.min (Z.max epoch_start (first_started ?? epoch_start)) epoch_end.
Definition watched (rows : list Priced) : option Z := sql_sum (fun g => epoch_watch g.2) (group_by snd (epoched rows)).

(** *** blinded *)
Definition blind_end (p : Priced) : option Z :=
  let row := pr_row p in
  match od_previousEnd (pr_from p) with
  | None => None
  | Some previous_end =>
      if (od_ordinal (pr_from p) =? 1) || (sc_capturedAt row <=? previous_end) then None
      else if match pr_startedAt p with Some started => previous_end <? started | None => false end
      then Some (Z.min (sc_capturedAt row) (pr_startedAt p ?? 0))
      else if negb (is_some (pr_startedAt p)) || pr_restarted p then Some (sc_capturedAt row) else None
  end.
Definition blind_pair (minBlindMs : Z) (p : Priced) : option (Z * Z) :=
  match od_previousEnd (pr_from p), blind_end p with
  | Some from, Some until => if minBlindMs <? until - from then Some (from, until) else None
  | _, _ => None
  end.

(** *** The row of one index *)
Record EvidenceColumns := {
  ec_indexId : nat;
  ec_runs : Z;
  ec_observations : option Z;
  ec_activeRuns : Z;
  ec_trustedWatchMs : option Z;
  ec_newestEndMs : option Z;
  ec_latestActivityMs : option Z;
  ec_maxInteriorGapMs : Z;
  ec_blindWindows : list (Z * Z);
  ec_sizeBytes : option Z;
  ec_memberCount : option Z;
  ec_hinted : bool;
}.
Definition moved (p : Priced) : bool := 0 <? pr_ops p.
Definition evidence_row (minBlindMs : Z) (group : nat * list SnapshotColumns) : EvidenceColumns :=
  let p := price <$> ordered group.2 in
  {| ec_indexId := group.1;
     ec_runs := Z.of_nat (length p);
     ec_observations := sql_sum (fun r => sc_observations (pr_row r)) p;
     ec_activeRuns := count_where moved p;
     ec_trustedWatchMs := watched p;
     ec_newestEndMs := sql_max ((fun r => span_end (pr_row r)) <$> p);
     ec_latestActivityMs := sql_max ((fun r => sc_capturedAt (pr_row r)) <$> List.filter moved p);
     ec_maxInteriorGapMs := sql_max ((fun r => sc_maxGapMs (pr_row r)) <$> p) ?? 0;
     ec_blindWindows := omap (blind_pair minBlindMs) p;
     ec_sizeBytes := (fun r => sc_sizeBytes (pr_row r)) <$> last p;
     ec_memberCount := (fun r => Z.of_nat (length (sc_perMember (pr_row r)))) <$> last p;
     ec_hinted := existsb (fun r => sc_hinted (pr_row r)) p |}.
Definition evidenceQuery (rows : list SnapshotColumns) (since minBlindMs : Z) : list EvidenceColumns :=
  evidence_row minBlindMs <$> group_by sc_indexId (List.filter (in_window since) rows).

(** *** The reading of it *)

(** A count comes as a number, or as the digits of a bigint; null is 0. *)
Definition count (value : option Z) : Z := value ?? 0.
Definition blindWindowsOf (value : list (Z * Z)) : list BlindWindow :=
  omap (fun '(from, until) => if from <? until then Some {| bw_startMs := from; bw_endMs := until |} else None) value.
Record IndexEvidence := { ie_usage : UsageFold; ie_sizeBytes : Z; ie_memberCount : Z; ie_hinted : bool }.
Definition foldFrom (row : EvidenceColumns) : IndexEvidence :=
  {| ie_usage :=
       {| runs := ec_runs row;
          fold_observations := count (ec_observations row);
          activeRuns := ec_activeRuns row;
          fold_trustedWatchMs := count (ec_trustedWatchMs row);
          newestEndMs := Some (count (ec_newestEndMs row));
          latestActivityMs := ec_latestActivityMs row;
          maxInteriorGapMs := inject_Z (ec_maxInteriorGapMs row);
          blindWindows := blindWindowsOf (ec_blindWindows row) |};
     ie_sizeBytes := count (ec_sizeBytes row);
     ie_memberCount := count (ec_memberCount row);
     ie_hinted := ec_hinted row |}.
Definition usageEvidence (rows : list SnapshotColumns) (since minBlindMs : Z) : list (nat * IndexEvidence) :=
  (fun row => (ec_indexId row, foldFrom row)) <$> evidenceQuery rows since minBlindMs.
Definition evidence_for_index (id : nat) (evidence : list (nat * IndexEvidence)) : option IndexEvidence :=
  snd <$> List.find (fun e => Nat.eqb e.1 id) evidence.
End query.

(** ** Notions the theorems are stated with *)

(** The row as the analysis would load it. *)
Definition snapshot_of (row : SnapshotColumns) : UsageSnapshot :=
  {| us_run := runFrom {| row_capturedAt := inl (sc_capturedAt row); row_lastSeenAt := inl (sc_lastSeenAt row);
                          row_observations := inject_Z (sc_observations row); row_maxGapMs := inject_Z (sc_maxGapMs row) |};
     perMember := Some (sc_perMember row); opsDelta := sc_opsDelta row; opsTotal := sc_opsTotal row;
     countersRestarted := sc_countersRestarted row; countersStartedAt := At <$> sc_countersStartedAt row |}.

(** What every row satisfies: a range has no negative length, a run was read, each
    member is read once, and every stamp is one a writer made. *)
Record row_ok (row : SnapshotColumns) : Prop := {
  ok_span : sc_capturedAt row <= sc_lastSeenAt row;
  ok_observed : 1 <= sc_observations row;
  ok_gap : 0 <= sc_maxGapMs row;
  ok_members : NoDup (member <$> sc_perMember row);
  ok_stamps : Forall (fun m => match since m with Some (Unreadable _) => False | _ => True end) (sc_perMember row);
}.
(** The exclusion constraint of the table: two runs of an index share no instant. *)
Definition disjoint_runs : SnapshotColumns -> SnapshotColumns -> Prop := disjoint_spans sc_indexId sc_capturedAt sc_lastSeenAt.
Definition table_ok (rows : list SnapshotColumns) : Prop := Forall row_ok rows /\ ForallOrdPairs disjoint_runs rows.
(** Stamps are written by [toISOString], whose texts sort as their instants do. *)
Class CollationLaws `{Collation} : Prop := stamps_sort : forall a b, text_after (At a) (At b) = (b <? a).

(** The runs of one index in the window, as the analysis would load them. *)
Definition history_of (rows : list SnapshotColumns) (since : Z) (id : nat) : list UsageSnapshot :=
  snapshot_of <$> rows_with sc_indexId id (List.filter (in_window since) rows).

(** ** Lemmas *)

(** *** Members *)

Lemma filter_member (c : MemberUsage) (prev : list MemberUsage) : NoDup (member <$> prev) ->
  List.filter (same_member c) prev = match member_map prev !! member c with None => [] | Some p => [p] end.
Proof.
  intros Hn. destruct (member_map prev !! member c) as [p|] eqn:E.
  - assert (p ∈ prev /\ member p = member c) as [Hp Hm].
    { unfold member_map in E. apply elem_of_list_to_map_2 in E. rewrite elem_of_reverse in E.
      apply list_elem_of_fmap in E as (q & [= Hq ->] & Hin). done. }
    clear E. induction prev as [|q prev IH]; [set_solver|]. cbn in Hn. apply NoDup_cons in Hn as [Hq Hn].
    cbn [List.filter]. unfold same_member at 1. apply elem_of_cons in Hp as [<-|Hp].
    + rewrite Hm, String.eqb_refl. f_equal. apply filter_nothing. intros x Hx. unfold same_member. apply String.eqb_neq.
      intros Ex. apply Hq. rewrite Hm, <- Ex. by apply list_elem_of_fmap_2.
    + destruct (String.eqb_spec (member q) (member c)) as [Eq|]; [|by apply IH].
      exfalso. apply Hq. rewrite Eq, <- Hm. by apply list_elem_of_fmap_2.
  - apply filter_nothing. intros x Hx. unfold same_member. apply String.eqb_neq. intros Ex.
    pose proof (member_map_lookup prev x Hn Hx) as Hl. rewrite Ex in Hl. congruence.
Qed.
Lemma left_joined_sum cur prev : NoDup (member <$> prev) ->
  zsum delta_of (left_joined cur prev) = activityBetween (Some (member_map prev)) cur.
Proof.
  intros Hn. unfold activityBetween, left_joined. induction cur as [|c cur IH]; [done|]. rewrite fmap_cons, mjoin_cons.
  rewrite zsum_app, zsum_cons, IH. f_equal. cbn [mbind option_bind]. rewrite filter_member by done.
  destruct (member_map prev !! member c) as [p|]; cbn [fmap list_fmap]; rewrite zsum_cons; cbn [delta_of member_activity]; change (zsum delta_of []) with 0; lia.
Qed.

Section laws.
Context `{CollationLaws}.

Lemma joined_restart cur prev : NoDup (member <$> prev) ->
  Forall (fun m => match since m with Some (Unreadable _) => False | _ => True end) cur ->
  Forall (fun m => match since m with Some (Unreadable _) => False | _ => True end) prev ->
  existsb restart_of (joined cur prev) = countersRestartedBetween (Some (member_map prev)) cur.
Proof.
  intros Hn Hc Hp. unfold countersRestartedBetween, joined. induction Hc as [|c cur Hc _ IH]; [done|]. rewrite fmap_cons, mjoin_cons. cbn [existsb].
  rewrite existsb_app, IH. f_equal. cbn [mbind option_bind]. rewrite filter_member by done.
  destruct (member_map prev !! member c) as [p|] eqn:E; [|done]. cbn [fmap list_fmap existsb]. rewrite orb_false_r.
  unfold restart_of, member_restarted. f_equal.
  assert (p ∈ prev) as Hin.
  { unfold member_map in E. apply elem_of_list_to_map_2 in E. rewrite elem_of_reverse in E.
    by apply list_elem_of_fmap in E as (q & [= _ ->] & ?). }
  rewrite Forall_forall in Hp. specialize (Hp p Hin).
  destruct (since p) as [[?|?]|], (since c) as [[?|?]|]; first [done | cbn; apply stamps_sort].
Qed.
End laws.

(** *** Greatest stamps *)

Lemma latest_of_max l m : fold_left latest_of l (Some m) = Some (fold_left Z.max l m).
Proof.
  revert m. induction l as [|x l IH]; intros m; [done|]. cbn [fold_left latest_of].
  replace (if m <? x then Some x else Some m) with (Some (Z.max m x)); [apply IH|]. destruct (Z.ltb_spec m x); f_equal; lia.
Qed.
Lemma latest_is_max l : fold_left latest_of l None = sql_max l.
Proof. destruct l as [|x l]; [done|]. apply latest_of_max. Qed.

Definition stamped (best : option Z) : option (Z * stamp) := (fun b => (b, At b)) <$> best.
Lemma later_starts members best :
  Forall (fun m => match since m with Some (Unreadable _) => False | _ => True end) members ->
  fold_left later_start members (stamped best) = stamped (fold_left latest_of (omap (fun m => since m ≫= getTime) members) best).
Proof.
  intros Hm. revert best. induction Hm as [|m members Hm _ IH]; intros best; [done|]. cbn [fold_left].
  assert (later_start (stamped best) m = stamped (match since m ≫= getTime with Some t => latest_of best t | None => best end)) as ->.
  { unfold later_start. destruct (since m) as [[t|t]|]; cbn; [|done..]. destruct best as [b|]; cbn; [|done]. by destruct (b <? t). }
  rewrite IH. cbn. by destruct (since m ≫= getTime).
Qed.
Lemma latest_start members :
  Forall (fun m => match since m with Some (Unreadable _) => False | _ => True end) members ->
  parseTime (latestCounterStart members) = sql_max (omap (fun m => since m ≫= getTime) members).
Proof.
  intros Hm. unfold latestCounterStart. change (@None (Z * stamp)) with (stamped None). rewrite later_starts, latest_is_max by done. by destruct (sql_max _).
Qed.

(** *** A row and its price *)

Lemma span_end_ok row : row_ok row -> span_end row = end_ms (snapshot_of row).
Proof. intros Hr. unfold span_end, end_ms, spanEnd. cbn. lia. Qed.
Lemma span_end_last row : row_ok row -> span_end row = sc_lastSeenAt row.
Proof. intros [Hs _ _ _ _]. unfold span_end. lia. Qed.
Lemma snapshot_start row : start_ms (snapshot_of row) = sc_capturedAt row.
Proof. done. Qed.
Lemma snapshot_observations row : row_ok row -> observationsOf (snapshot_of row) = sc_observations row.
Proof. intros Hr. pose proof (ok_observed _ Hr). unfold observationsOf. cbn. unfold Math_floor. rewrite Qfloor_Z. lia. Qed.
Lemma snapshot_gap row : row_ok row -> interiorGap (snapshot_of row) = inject_Z (sc_maxGapMs row).
Proof.
  intros Hr. pose proof (ok_gap _ Hr). unfold interiorGap. cbn. destruct (Qltb _ _) eqn:E; [|done]. apply Qltb_lt in E.
  exfalso. revert E. apply Qle_not_lt. change 0%Q with (inject_Z 0). by rewrite <- Zle_Qle.
Qed.
Lemma price_started `{Collation} o : row_ok (od_row o) -> pr_startedAt (price o) = countersStartedAt_of (snapshot_of (od_row o)).
Proof.
  intros Hr. cbn [pr_startedAt price]. unfold countersStartedAt_of. cbn [countersStartedAt snapshot_of perMember default].
  destruct (sc_countersStartedAt (od_row o)); [done|]. cbn. symmetry. apply latest_start, ok_stamps, Hr.
Qed.

Section prices.
Context `{CollationLaws}.

Definition prices (ordinal : Z) (prev : option SnapshotColumns) (l : list SnapshotColumns) : list Priced :=
  (fun w => price (order_row w)) <$> windowed ordinal prev l.

Lemma price_restarted ordinal prev row : row_ok prev -> row_ok row ->
  pr_restarted (price (order_row (ordinal, Some prev, row))) = restartedBetween (snapshot_of prev) (snapshot_of row).
Proof.
  intros Hp Hr. cbn [price pr_restarted order_row od_row od_previousMembers]. unfold restartedBetween.
  cbn [countersRestarted snapshot_of perMember]. destruct (sc_countersRestarted row); [done|].
  apply joined_restart; [apply ok_members, Hp|apply ok_stamps, Hr|apply ok_stamps, Hp].
Qed.

(** The activity series, from the prices. *)
Lemma priced_series l : forall ordinal prev, 1 <= ordinal -> (ordinal =? 1) = negb (is_some prev) -> Forall row_ok l ->
  (forall p, prev = Some p -> row_ok p) ->
  usage_walk (member_map ((sc_perMember <$> prev) ?? [])) (negb (is_some prev)) (snapshot_of <$> l) =
  mjoin ((fun p => run_points (snapshot_of (pr_row p)) (pr_ops p)) <$> prices ordinal prev l).
Proof.
  induction l as [|row l IH]; intros ordinal prev Ho He Hl Hp; [done|]. apply Forall_cons in Hl as [Hr Hl].
  unfold prices. cbn [windowed]. rewrite !fmap_cons, mjoin_cons. cbn [usage_walk]. f_equal.
  - unfold pr_row. cbn [price pr_from order_row od_row pr_ops od_ordinal od_previousMembers perMember snapshot_of opsTotal opsDelta].
    rewrite He. f_equal. destruct prev as [prev|]; cbn [is_some negb fmap option_fmap option_map default].
    + destruct (sc_opsDelta row); [done|]. cbn [default]. symmetry. apply left_joined_sum, ok_members. by apply Hp.
    + destruct (sc_opsTotal row); done.
  - cbn [perMember snapshot_of default]. apply (IH (ordinal + 1) (Some row)); [lia| |done|congruence]. cbn. lia.
Qed.

Lemma blind_walk_cons minBlindMs run next rest :
  blind_walk minBlindMs (run :: next :: rest) =
  match blindWindow run next with
  | Some blind => if minBlindMs <? bw_endMs blind - bw_startMs blind then blind :: blind_walk minBlindMs (next :: rest) else blind_walk minBlindMs (next :: rest)
  | None => blind_walk minBlindMs (next :: rest)
  end.
Proof. done. Qed.
Lemma priced_blind minBlindMs l : forall ordinal prev, 1 <= ordinal -> row_ok prev -> Forall row_ok l ->
  blind_walk minBlindMs (snapshot_of <$> prev :: l) = blindWindowsOf (omap (blind_pair minBlindMs) (prices (ordinal + 1) (Some prev) l)).
Proof.
  induction l as [|row l IH]; intros ordinal prev Ho Hp Hl; [done|]. apply Forall_cons in Hl as [Hr Hl].
  unfold prices. cbn [windowed]. rewrite !fmap_cons, blind_walk_cons, <- (fmap_cons snapshot_of row l).
  rewrite (IH (ordinal + 1) row) by (done || lia).
  set (p := price (order_row (ordinal + 1, Some prev, row))).
  assert (blind_end p = bw_endMs <$> blindWindow (snapshot_of prev) (snapshot_of row)) as Eb.
  { unfold blind_end. rewrite (price_started (order_row (ordinal + 1, Some prev, row))) by done. unfold p. rewrite price_restarted by done.
    unfold pr_row. cbn [pr_from price order_row od_row od_previousEnd od_ordinal fmap option_fmap option_map].
    rewrite (proj2 (Z.eqb_neq (ordinal + 1) 1)) by lia. cbn [orb]. unfold blindWindow. rewrite <- span_end_ok by done. rewrite snapshot_start.
    destruct (sc_capturedAt row <=? span_end prev); [done|].
    destruct (countersStartedAt_of (snapshot_of row)) as [t|]; cbn; [|done]. destruct (span_end prev <? t); [done|].
    by destruct (restartedBetween _ _). }
  assert (forall w, blindWindow (snapshot_of prev) (snapshot_of row) = Some w -> bw_startMs w = span_end prev /\ bw_startMs w < bw_endMs w) as Hw.
  { intros w. unfold blindWindow. rewrite <- span_end_ok by done. rewrite snapshot_start. destruct (Z.leb_spec (sc_capturedAt row) (span_end prev)); [done|].
    destruct (countersStartedAt_of (snapshot_of row)) as [t|]; [destruct (Z.ltb_spec (span_end prev) t); [|destruct (restartedBetween _ _)]|];
      intros [= <-]; cbn; lia. }
  assert (blind_pair minBlindMs p = (blindWindow (snapshot_of prev) (snapshot_of row) ≫= fun w =>
    if minBlindMs <? bw_endMs w - bw_startMs w then Some (bw_startMs w, bw_endMs w) else None)) as Ep.
  { unfold blind_pair. rewrite Eb. change (od_previousEnd (pr_from p)) with (Some (span_end prev)).
    destruct (blindWindow _ _) as [w|]; [|done]. destruct (Hw w eq_refl) as [<- _]. done. }
  cbn [omap list_omap]. fold p. fold (prices (ordinal + 1 + 1) (Some row) l). rewrite Ep.
  destruct (blindWindow (snapshot_of prev) (snapshot_of row)) as [w|]; [|done]. destruct (Hw w eq_refl) as [_ E2]. cbn [mbind option_bind].
  destruct (minBlindMs <? bw_endMs w - bw_startMs w); [|done]. cbn.
  rewrite (proj2 (Z.ltb_lt _ _) E2). destruct w; done.
Qed.
End prices.

(** *** Epochs *)

Definition apart : SnapshotColumns -> SnapshotColumns -> Prop := spans_apart sc_capturedAt sc_lastSeenAt.

(** The rows of an epoch so far: its first, its last, all of one number. *)
Record epoch_so_far (k : Z) (segment : list (Priced * Z)) (first last : SnapshotColumns) : Prop := {
  ef_number : Forall (fun r => r.2 = k) segment;
  ef_first : exists p, head segment = Some p /\ pr_row p.1 = first /\ pr_startedAt p.1 = countersStartedAt_of (snapshot_of first);
  ef_last : exists p, p ∈ segment /\ pr_row p.1 = last;
  ef_between : Forall (fun r => sc_capturedAt first <= sc_capturedAt (pr_row r.1) /\ span_end (pr_row r.1) <= span_end last) segment;
}.

Section epochs.
Context `{CollationLaws}.

Lemma epoch_watch_closes k segment first last : epoch_so_far k segment first last ->
  epoch_watch segment = epoch_length (close_epoch (snapshot_of first) (span_end last)).
Proof.
  intros [_ (pf & Ef & Hf & Hs) (pl & Hl & El) Hb]. unfold epoch_watch. rewrite Ef. cbn [mbind option_bind]. rewrite Hs.
  assert (pf ∈ segment) as Hin. { destruct segment; [done|]. injection Ef as ->. left. }
  rewrite (sql_min_is _ (sc_capturedAt first)), (sql_max_is _ (span_end last)).
  - unfold epoch_length, close_epoch. cbn [startMs endMs]. rewrite snapshot_start.
    destruct (countersStartedAt_of _); cbn; lia.
  - apply list_elem_of_fmap. exists pl. by rewrite El.
  - intros x (r & -> & Hr)%list_elem_of_fmap. rewrite Forall_forall in Hb. by apply Hb.
  - apply list_elem_of_fmap. exists pf. by rewrite Hf.
  - intros x (r & -> & Hr)%list_elem_of_fmap. rewrite Forall_forall in Hb. by apply Hb.
Qed.

Lemma running_ge {A} (f : A -> Z) (l : list A) : (forall x, 0 <= f x) -> forall k r, r ∈ running f k l -> k <= r.2.
Proof.
  intros Hf. induction l as [|x l IH]; intros k r; cbn [running]; [by intros []%elem_of_nil|].
  intros [->|Hr]%elem_of_cons; cbn; [specialize (Hf x); lia|]. specialize (IH _ _ Hr). specialize (Hf x). lia.
Qed.

Definition restart_step (p : Priced) : Z := if pr_restarted p then 1 else 0.

Lemma watched_walk l : forall ordinal k segment first last, 1 <= ordinal -> Forall row_ok l -> row_ok last ->
  StronglySorted apart (last :: l) -> sc_capturedAt first <= sc_capturedAt last -> epoch_so_far k segment first last ->
  zsum (fun g => epoch_watch g.2) (group_by snd (segment ++ running restart_step k (prices (ordinal + 1) (Some last) l))) =
  zsum epoch_length (epochs_walk (snapshot_of first) (end_ms (snapshot_of last)) (snapshot_of last) (snapshot_of <$> l)).
Proof.
  induction l as [|row l IH]; intros ordinal k segment first last Ho Hl Hlast HS Hle Hseg.
  { cbn [prices windowed fmap list_fmap running epochs_walk]. rewrite app_nil_r.
    rewrite <- (app_nil_r segment). rewrite (zsum_perm _ _ ((k, segment) :: group_by snd [])).
    - cbn [group_by]. rewrite !zsum_cons. cbn [snd]. erewrite epoch_watch_closes by done. by rewrite span_end_ok.
    - apply group_by_split; [|apply ef_number in Hseg; done|done]. intros ->. by destruct Hseg as [_ (? & ? & _) _ _]. }
  apply Forall_cons in Hl as [Hr Hl]. apply StronglySorted_inv in HS as [HS Ha]. apply Forall_cons in Ha as [Har Ha].
  pose proof (ok_span _ Hlast) as Hspan. pose proof (ok_span _ Hr) as Hspan'. unfold apart, spans_apart in Har.
  unfold prices. cbn [windowed]. rewrite fmap_cons. fold (prices (ordinal + 1 + 1) (Some row) l). cbn [running].
  set (p := price (order_row (ordinal + 1, Some last, row))). rewrite fmap_cons. cbn [epochs_walk].
  assert (pr_restarted p = restartedBetween (snapshot_of last) (snapshot_of row)) as Ep by (by apply price_restarted).
  assert (pr_startedAt p = countersStartedAt_of (snapshot_of row)) as Es by (by apply (price_started (order_row (ordinal + 1, Some last, row)))).
  assert (restart_step p = if restartedBetween (snapshot_of last) (snapshot_of row) then 1 else 0) as -> by (unfold restart_step; by rewrite Ep).
  destruct (restartedBetween (snapshot_of last) (snapshot_of row)) eqn:Er.
  - rewrite (zsum_perm _ _ ((k, segment) :: group_by snd ([(p, k + 1)] ++ running restart_step (k + 1) (prices (ordinal + 1 + 1) (Some row) l)))).
    + rewrite !zsum_cons. cbn [snd]. erewrite epoch_watch_closes by done. rewrite <- span_end_ok by done. f_equal.
      apply IH; [lia|done|done|done|lia|]. constructor.
      * by repeat constructor.
      * by exists (p, k + 1).
      * exists (p, k + 1). split; [left|done].
      * repeat constructor; cbn; lia.
    + apply group_by_split.
      * intros ->. by destruct Hseg as [_ (? & ? & _) _ _].
      * apply Hseg.
      * constructor; [cbn; lia|]. apply Forall_forall. intros r Hin. apply running_ge in Hin; [lia|].
        intros q. unfold restart_step. destruct (pr_restarted q); lia.
  - rewrite Z.add_0_r. rewrite (cons_middle (p, k) segment), app_assoc. apply IH; [lia|done|done|done|lia|].
    destruct Hseg as [Hn (pf & Ef & Hf & Hs) (pl & Hpl & El) Hb]. constructor.
    + apply Forall_app. split; [done|]. by repeat constructor.
    + exists pf. destruct segment; [done|]. done.
    + exists (p, k). split; [|done]. apply elem_of_app. right. left.
    + apply Forall_app. split; [|repeat constructor; cbn; [lia|lia]]. eapply Forall_impl; [exact Hb|]. cbn. intros r [? ?].
      split; [done|]. rewrite (span_end_last last) in * by done. rewrite (span_end_last row) by done. lia.
Qed.
End epochs.

(** *** The runs of an index in order *)

Lemma runs_apart rows : Forall row_ok rows -> ForallOrdPairs disjoint_runs rows ->
  (forall a b, a ∈ rows -> b ∈ rows -> sc_indexId a = sc_indexId b) -> StronglySorted apart (stable_sort (by_key sc_capturedAt) rows).
Proof. intros Hok. apply (intervals_apart sc_indexId). eapply Forall_impl; [exact Hok|]. apply ok_span. Qed.
Lemma sorted_snapshots rows : sortedRuns (snapshot_of <$> rows) = snapshot_of <$> stable_sort (by_key sc_capturedAt) rows.
Proof.
  unfold sortedRuns. rewrite filter_all by (by intros x (r & -> & _)%list_elem_of_fmap). by apply stable_sort_fmap.
Qed.
Lemma Qmax_Z a b : Qmax (inject_Z a) (inject_Z b) = inject_Z (Z.max a b).
Proof.
  unfold Qmax, GenericMinMax.gmax, Qcompare, inject_Z. cbn. rewrite !Z.mul_1_r.
  destruct (Z.compare_spec a b); f_equal; lia.
Qed.
Lemma fold_Qmax_Z l m : fold_left Qmax (inject_Z <$> l) (inject_Z m) = inject_Z (fold_left Z.max l m).
Proof. revert m. induction l as [|x l IH]; intros m; [done|]. cbn. by rewrite Qmax_Z, IH. Qed.

Section fold.
Context `{CollationLaws}.

Lemma prices_rows ordinal prev l : pr_row <$> prices ordinal prev l = l.
Proof.
  unfold prices. rewrite <- list_fmap_compose. rewrite <- (windowed_rows l ordinal prev) at 2. apply list_fmap_ext. by intros i [[? ?] ?] _.
Qed.
Lemma active_points row n : List.filter active (run_points row n) = if 0 <? n then [burst_point row n] else [].
Proof.
  unfold run_points. destruct (Z.eqb_spec n 0) as [->|Hn]; [done|]. cbn [List.filter]. unfold active at 1. cbn [up_ops burst_point].
  assert (List.filter active (if 1 <? observationsOf row then [idle_point row (observationsOf row - 1)] else []) = []) as ->
    by (by destruct (1 <? observationsOf row)).
  destruct (Z.leb_spec n 0), (Z.ltb_spec 0 n); try lia; done.
Qed.
Lemma active_series (ps : list Priced) :
  List.filter active (mjoin ((fun p => run_points (snapshot_of (pr_row p)) (pr_ops p)) <$> ps)) =
  (fun p => burst_point (snapshot_of (pr_row p)) (pr_ops p)) <$> List.filter moved ps.
Proof.
  induction ps as [|p ps IH]; [done|]. rewrite fmap_cons, mjoin_cons, List.filter_app, IH, active_points. cbn [List.filter]. unfold moved at 2.
  by destruct (0 <? pr_ops p).
Qed.

Section one_index.
Context (l : list SnapshotColumns) (HS : StronglySorted apart l) (Hl : Forall row_ok l) (Hne : l <> []).
Let ps : list Priced := prices 1 None l.

Lemma of_rows {B} (f : SnapshotColumns -> B) : (fun r => f (pr_row r)) <$> ps = f <$> l.
Proof. transitivity (f <$> (pr_row <$> ps)); [by rewrite <- list_fmap_compose|]. unfold ps. by rewrite prices_rows. Qed.
Lemma of_ok {B} (f : SnapshotColumns -> B) (g : UsageSnapshot -> B) : (forall r, row_ok r -> f r = g (snapshot_of r)) -> f <$> l = g <$> (snapshot_of <$> l).
Proof.
  intros Hfg. rewrite <- list_fmap_compose. apply list_fmap_ext. intros i r Hr%list_elem_of_lookup_2. rewrite Forall_forall in Hl. by apply Hfg, Hl.
Qed.
Lemma series_of : usage_walk ∅ true (snapshot_of <$> l) = mjoin ((fun p => run_points (snapshot_of (pr_row p)) (pr_ops p)) <$> ps).
Proof. by apply (priced_series l 1 None). Qed.
Lemma nonempty_prices : exists p rest, ps = p :: rest.
Proof. unfold ps. destruct l as [|r rest]; [done|]. unfold prices. cbn. eauto. Qed.

Lemma observations_of : count (sql_sum (fun r => sc_observations (pr_row r)) ps) = totalObservations (usage_walk ∅ true (snapshot_of <$> l)).
Proof.
  rewrite usage_walk_observations. unfold totalObservations.
  transitivity (zsum id (sc_observations <$> l)).
  - destruct nonempty_prices as (p & rest & E). rewrite <- (of_rows sc_observations), E. cbn [sql_sum count default]. by rewrite zsum_fmap.
  - rewrite (of_ok sc_observations observationsOf) by (intros r Hr; by rewrite snapshot_observations). by rewrite zsum_fmap.
Qed.
Lemma active_runs_of : count_where moved ps = zsum observationsOf (List.filter active (usage_walk ∅ true (snapshot_of <$> l))).
Proof.
  rewrite series_of, active_series, zsum_fmap. unfold count_where. rewrite <- zsum_one. by apply zsum_ext.
Qed.
Lemma watched_of : count (watched ps) =
  zsum epoch_length match snapshot_of <$> l with [] => [] | run :: rest => epochs_walk run (end_ms run) run rest end.
Proof.
  destruct l as [|row rest] eqn:El; [done|]. apply Forall_cons in Hl as [Hr Hrest]. rewrite fmap_cons.
  unfold watched, ps, prices, epoched. cbn [windowed]. rewrite fmap_cons. fold (prices (1 + 1) (Some row) rest).
  set (p := price (order_row (1, None, row))). change (fun p => if pr_restarted p then 1 else 0) with restart_step. cbn [running].
  set (k := 0 + restart_step p).
  rewrite <- (watched_walk rest 1 k [(p, k)] row row); [|lia|done|done|done|lia|].
  - cbn [app]. destruct (group_by snd _) as [|g groups] eqn:Eg; [|done]. exfalso.
    assert ((k, rows_with snd k ((p, k) :: running restart_step k (prices (1 + 1) (Some row) rest))) ∈ @nil (Z * list (Priced * Z))) as Hin.
    { rewrite <- Eg. apply elem_of_group_by. split; [left|done]. }
    by apply elem_of_nil in Hin.
  - constructor; [by repeat constructor| | |].
    + exists (p, k). split; [done|]. split; [done|]. by apply (price_started (order_row (1, None, row))).
    + exists (p, k). split; [left|done].
    + repeat constructor; cbn; lia.
Qed.
Lemma newest_of : Some (count (sql_max ((fun r => span_end (pr_row r)) <$> ps))) = fold_left latest_of (end_ms <$> (snapshot_of <$> l)) None.
Proof.
  rewrite latest_is_max, of_rows, (of_ok span_end end_ms) by (intros r Hr; by apply span_end_ok).
  destruct l; [done|]. done.
Qed.
Lemma latest_activity_of : sql_max ((fun r => sc_capturedAt (pr_row r)) <$> List.filter moved ps) =
  fold_left latest_of (end_ms <$> List.filter active (usage_walk ∅ true (snapshot_of <$> l))) None.
Proof.
  rewrite latest_is_max, series_of, active_series, <- list_fmap_compose. f_equal. apply list_fmap_ext. intros i p _. cbn.
  unfold end_ms, spanEnd. cbn. lia.
Qed.
Lemma interior_gap_of : inject_Z (sql_max ((fun r => sc_maxGapMs (pr_row r)) <$> ps) ?? 0) = fold_left Qmax (interiorGap <$> (snapshot_of <$> l)) 0%Q.
Proof.
  rewrite of_rows, <- (of_ok (fun r => inject_Z (sc_maxGapMs r)) interiorGap) by (intros r Hr; by rewrite snapshot_gap).
  rewrite (list_fmap_compose sc_maxGapMs inject_Z). change 0%Q with (inject_Z 0). rewrite fold_Qmax_Z. f_equal.
  destruct l as [|r rest]; [done|]. apply Forall_cons in Hl as [Hr _]. pose proof (ok_gap _ Hr). cbn. f_equal. lia.
Qed.
Lemma blind_of minBlindMs : blindWindowsOf (omap (blind_pair minBlindMs) ps) = blind_walk minBlindMs (snapshot_of <$> l).
Proof.
  destruct l as [|row rest]; [done|]. apply Forall_cons in Hl as [Hr Hrest]. rewrite (priced_blind minBlindMs rest 1 row) by (done || lia). done.
Qed.
End one_index.

(** One index: the query and the fold agree on every field. *)
Lemma evidence_fold id minBlindMs rows : rows <> [] -> Forall row_ok rows -> ForallOrdPairs disjoint_runs rows ->
  (forall a b, a ∈ rows -> b ∈ rows -> sc_indexId a = sc_indexId b) ->
  ie_usage (foldFrom (evidence_row minBlindMs (id, rows))) = foldUsage (snapshot_of <$> rows) minBlindMs.
Proof.
  intros Hne Hok Hd Hi. pose proof (runs_apart rows Hok Hd Hi) as HS.
  assert (Forall row_ok (stable_sort (by_key sc_capturedAt) rows)) as Hl.
  { apply Forall_forall. intros r Hr%elem_of_stable_sort. rewrite Forall_forall in Hok. auto. }
  assert (stable_sort (by_key sc_capturedAt) rows <> []) as Hne'.
  { intros E. apply Hne. apply Permutation_nil_r. rewrite <- E. symmetry. apply stable_sort_perm. }
  unfold foldUsage, trustedWatchMs, counterEpochs, usageSeries. rewrite !sortedRuns_idemp, sorted_snapshots.
  unfold evidence_row. cbn [fst snd]. unfold ordered. rewrite <- list_fmap_compose.
  change (price ∘ order_row <$> over (stable_sort (by_key sc_capturedAt) rows)) with (prices 1 None (stable_sort (by_key sc_capturedAt) rows)).
  unfold foldFrom. cbn [ie_usage ec_runs ec_observations ec_activeRuns ec_trustedWatchMs ec_newestEndMs ec_latestActivityMs ec_maxInteriorGapMs ec_blindWindows].
  f_equal; [|by apply observations_of|by apply active_runs_of|by apply watched_of|by apply newest_of|by apply latest_activity_of
            |by apply interior_gap_of|by apply blind_of].
  by rewrite <- (prices_rows 1 None (stable_sort (by_key sc_capturedAt) rows)) at 2; rewrite !length_fmap.
Qed.
End fold.

(** *** The gates see no more than the windows that could refuse *)

Lemma blind_walk_refuses gap m recovered l : 0 <= gap -> m <= gap ->
  existsb (fun w => (gap <? bw_endMs w - bw_startMs w) && (recovered <? bw_endMs w)) (blind_walk m l) =
  existsb (fun w => (gap <? bw_endMs w - bw_startMs w) && (recovered <? bw_endMs w)) (blind_walk gap l).
Proof.
  intros Hg Hm. induction l as [|run [|next rest] IH]; [done|done|]. rewrite !blind_walk_cons. destruct (blindWindow run next) as [w|]; [|done].
  destruct (Z.ltb_spec gap (bw_endMs w - bw_startMs w)) as [Hw|Hw].
  - rewrite (proj2 (Z.ltb_lt _ _) (Z.le_lt_trans _ _ _ Hm Hw)). cbn [existsb]. by rewrite IH.
  - destruct (m <? bw_endMs w - bw_startMs w); [|done]. cbn [existsb]. rewrite (proj2 (Z.ltb_ge _ _) Hw). cbn. apply IH.
Qed.
Lemma refusal_from_fold history options now hours : 0 <= maxGapHours options ->
  usageTrustRefusalFrom (foldUsage history (maxGapHours options * HOUR_MS)) options now hours = usageTrustRefusal history options now hours.
Proof.
  intros Hg. unfold usageTrustRefusal, usageTrustRefusalFrom.
  cbn [foldUsage runs fold_observations fold_trustedWatchMs newestEndMs maxInteriorGapMs blindWindows].
  rewrite (blind_walk_refuses (maxGapHours options * HOUR_MS) 0); [done|unfold HOUR_MS; lia..].
Qed.

Lemma evidence_found `{Collation} (groups : list (nat * list SnapshotColumns)) minBlindMs id :
  NoDup groups.*1 ->
  evidence_for_index id ((fun row => (ec_indexId row, foldFrom row)) <$> (evidence_row minBlindMs <$> groups)) =
  (fun rows => foldFrom (evidence_row minBlindMs (id, rows))) <$> (snd <$> List.find (fun g => Nat.eqb g.1 id) groups).
Proof.
  intros Hn. unfold evidence_for_index. induction groups as [|[k rows] groups IH]; [done|]. rewrite !fmap_cons. cbn [List.find fst ec_indexId evidence_row].
  destruct (Nat.eqb_spec k id) as [->|]; [done|]. apply IH. cbn in Hn. by apply NoDup_cons in Hn as [_ ?].
Qed.
Lemma evidence_newest `{Collation} id minBlindMs rows :
  ie_hinted (foldFrom (evidence_row minBlindMs (id, rows))) = existsb sc_hinted rows /\
  (rows <> [] -> exists newest, last (stable_sort (by_key sc_capturedAt) rows) = Some newest /\
     ie_sizeBytes (foldFrom (evidence_row minBlindMs (id, rows))) = sc_sizeBytes newest /\
     ie_memberCount (foldFrom (evidence_row minBlindMs (id, rows))) = Z.of_nat (length (sc_perMember newest))).
Proof.
  unfold evidence_row. cbn [fst snd]. unfold ordered. rewrite <- list_fmap_compose.
  change (price ∘ order_row <$> over (stable_sort (by_key sc_capturedAt) rows)) with (prices 1 None (stable_sort (by_key sc_capturedAt) rows)).
  set (l := stable_sort (by_key sc_capturedAt) rows). cbn [foldFrom ie_hinted ie_sizeBytes ie_memberCount ec_hinted ec_sizeBytes ec_memberCount].
  split.
  - transitivity (existsb sc_hinted l).
    + rewrite <- (prices_rows 1 None l) at 2. generalize (prices 1 None l) as ps. induction ps as [|p ps IH]; [done|]. cbn. by rewrite IH.
    + apply eq_true_iff_eq. rewrite !existsb_elem. unfold l. by setoid_rewrite elem_of_stable_sort.
  - intros Hne. destruct (last l) as [newest|] eqn:El.
    + exists newest. split; [done|]. rewrite <- (prices_rows 1 None l), fmap_last in El. destruct (last (prices 1 None l)) as [p|]; [|done].
      injection El as <-. done.
    + exfalso. apply last_None in El. apply Hne. apply Permutation_nil_r. rewrite <- El. symmetry. apply stable_sort_perm.
Qed.

(** C13. The fold of postgres is the fold of the analysis. Of every index with a run in
    the window, the query brings back what [foldUsage] finds in all its runs, rows
    of an older writer among them: so the trust gate and the class answer as on
    the whole history, although only the windows that could refuse were asked for;
    with it come the size and members of the newest run, and whether any run saw
    a hint. An index without a run has no entry. *)
Theorem usage_evidence_exact `{CollationLaws} (rows : list SnapshotColumns) (since : Z) (options : ClassifyOptions) (id : nat) :
  table_ok rows -> 0 <= maxGapHours options ->
  let history := history_of rows since id in
  match evidence_for_index id (usageEvidence rows since (maxGapHours options * HOUR_MS)) with
  | None => history = []
  | Some e =>
      ie_usage e = foldUsage history (maxGapHours options * HOUR_MS) /\
      (forall now hours, usageTrustRefusalFrom (ie_usage e) options now hours = usageTrustRefusal history options now hours) /\
      classifyUsageFrom (ie_usage e) options = classifyUsage history options /\
      ie_hinted e = existsb sc_hinted (rows_with sc_indexId id (List.filter (in_window since) rows)) /\
      exists newest, newest ∈ rows_with sc_indexId id (List.filter (in_window since) rows) /\
        (forall row, row ∈ rows_with sc_indexId id (List.filter (in_window since) rows) -> sc_lastSeenAt row <= sc_lastSeenAt newest) /\
        ie_sizeBytes e = sc_sizeBytes newest /\ ie_memberCount e = Z.of_nat (length (sc_perMember newest))
  end.
Proof.
  intros [Hok Hd] Hg. cbn zeta. unfold usageEvidence, evidenceQuery. rewrite evidence_found by apply group_by_keys. rewrite group_found.
  unfold history_of. destruct (rows_with sc_indexId id (List.filter (in_window since) rows)) as [|r0 rs] eqn:Er; [done|]. cbn [fmap option_fmap option_map].
  rewrite <- Er. set (mine := rows_with sc_indexId id (List.filter (in_window since) rows)) in *.
  assert (mine <> []) as Hne by (rewrite Er; done).
  assert (Forall row_ok mine) as Hokm by (apply Forall_filter_bool, Forall_filter_bool; done).
  assert (ForallOrdPairs disjoint_runs mine) as Hdm by (by apply ordpairs_filter, ordpairs_filter).
  assert (forall a b, a ∈ mine -> b ∈ mine -> sc_indexId a = sc_indexId b) as Hi.
  { intros a b [_ Ha%bool_decide_eq_true]%elem_of_filter_bool [_ Hb%bool_decide_eq_true]%elem_of_filter_bool. congruence. }
  pose proof (evidence_fold id (maxGapHours options * HOUR_MS) mine Hne Hokm Hdm Hi) as Ef. split; [done|]. rewrite Ef. split; [|split; [done|]].
  { intros now hours. by apply refusal_from_fold. }
  destruct (evidence_newest id (maxGapHours options * HOUR_MS) mine) as (-> & Hlast). split; [done|].
  destruct (Hlast Hne) as (newest & El & -> & ->). exists newest.
  destruct (last_interval _ _ _ newest (runs_apart mine Hokm Hdm Hi)) as [Hin Hle]; [|done|].
  { apply Forall_forall. intros r Hr%elem_of_stable_sort. rewrite Forall_forall in Hokm. by apply ok_span, Hokm. }
  rewrite elem_of_stable_sort in Hin. split; [done|]. split; [|done]. intros row Hrow. apply Hle. by apply elem_of_stable_sort.
Qed.

(** ** The rows of a pass *)

(** The dimension rows the evidence names, with their evidence. *)
Record Dimension := { dx_id : nat; dx_database : string; dx_collection : string; dx_indexName : string; dx_spec : EngineTypes.json }.
Definition classify_rows (dimensions : list Dimension) (usage : list (nat * IndexEvidence)) : list EvidenceRow :=
  omap (fun d => (fun e => {| er_database := dx_database d; er_collection := dx_collection d; er_indexName := dx_indexName d; er_spec := dx_spec d;
                              er_usage := ie_usage e; er_sizeBytes := ie_sizeBytes e; er_memberCount := ie_memberCount e; er_hinted := ie_hinted e |})
                   <$> evidence_for_index (dx_id d) usage)
    (List.filter (fun d => existsb (Nat.eqb (dx_id d)) (fst <$> usage)) dimensions).

(** ** A table of two indexes *)

#[local] Instance iso_collation : Collation := fun a b => match a, b with At x, At y => y <? x | _, _ => false end.
#[local] Instance iso_collation_laws : CollationLaws.
Proof. by intros a b. Qed.

(** Three runs of one index, the second by an older writer and a restart before the
    third, and one run of another. *)
Definition sample_row (id : nat) (from to n : Z) (ops_ : Z) (restarted : option bool) (delta : option Z) : SnapshotColumns :=
  {| sc_indexId := id; sc_capturedAt := from * HOUR_MS; sc_lastSeenAt := to * HOUR_MS; sc_observations := n; sc_maxGapMs := 0; sc_sizeBytes := 4096 + from;
     sc_hinted := false; sc_perMember := [{| member := "a"; ops := ops_; since := Some (At 0) |}]; sc_opsDelta := delta; sc_opsTotal := Some ops_;
     sc_countersRestarted := restarted; sc_countersStartedAt := Some 0 |}.
Definition sample_table : list SnapshotColumns :=
  [sample_row 1 100 200 101 3 (Some true) (Some 3); sample_row 1 0 10 11 5 (Some false) (Some 5); sample_row 2 0 50 51 0 (Some false) (Some 0);
   sample_row 1 20 30 11 9 None None].

Lemma usage_evidence_exact_witness :
  map ie_sizeBytes (snd <$> usageEvidence sample_table 0 (48 * HOUR_MS)) = [4096; 4196] /\
  match evidence_for_index 1 (usageEvidence sample_table 0 (48 * HOUR_MS)) with
  | Some e => activeRuns (ie_usage e) = 3 /\ fold_trustedWatchMs (ie_usage e) = 130 * HOUR_MS /\
      classifyUsageFrom (ie_usage e) CLASSIFY_OPTIONS = classifyUsage (history_of sample_table 0 1) CLASSIFY_OPTIONS
  | None => False
  end.
Proof.
  split; [reflexivity|]. assert (table_ok sample_table) as Hok.
  { split; [repeat constructor; cbn; unfold HOUR_MS; try lia; set_solver|]. repeat lazymatch goal with |- ForallOrdPairs _ _ => constructor | |- Forall _ _ => constructor end; unfold disjoint_runs, disjoint_spans; cbn; unfold HOUR_MS; lia. }
  pose proof (usage_evidence_exact sample_table 0 CLASSIFY_OPTIONS 1 Hok ltac:(done)) as Hw. cbn zeta in Hw.
  change (maxGapHours CLASSIFY_OPTIONS) with 48 in Hw.
  destruct (evidence_for_index 1 (usageEvidence sample_table 0 (48 * HOUR_MS))) as [e|] eqn:E; [|by vm_compute in E].
  destruct Hw as (_ & _ & Hc & _). split; [|split; [|exact Hc]]; vm_compute in E; injection E as <-; reflexivity.
Defined.
