(* ===== verification/LatencyEvidence.v ===== *)
(** What is asked of [latency_samples] in postgres: the evidence of the classify
    job ([apps/api/src/jobs/latency-evidence.ts]) and the two readings of the
    overview ([apps/api/src/insights/latency-folds.ts]).

    Each query is modelled one common table expression at a time, on the rows of
    one cluster.  The comments claim that the queries compute what [foldActivity],
    [foldObservation], [summarizeLatency] and [latencyPoints] compute of the same
    rows; those are the theorems below.  The first part is what the query of the
    evidence rests on: the weighted median of [medianObservationGap] does not
    depend on how the gaps are told apart, so that walking them one by one and
    walking one bucket per distinct length stop at the same value. *)
From S2P Require Import Prelude Relational Runs Latency Observed Activity Cooldowns ClassifyJob RunTable Collect.

(** ** The weighted median *)

#[export] Instance Q_eq_dec : EqDecision Q.
Proof. solve_decision. Defined.

(** The weight of the gaps up to a length. *)
Definition weight_upto (v : Q) (gaps : list Gap) : Z := weight_where (fun g => Qle_bool (ms g) v) gaps.

(** The least length at or past half the weight. *)
Definition halfway (gaps : list Gap) (v : Q) : Prop :=
  (exists g, g ∈ gaps /\ ms g == v)%Q /\ zsum weight gaps <= 2 * weight_upto v gaps /\
  (forall g, g ∈ gaps -> (ms g < v)%Q -> 2 * weight_upto (ms g) gaps < zsum weight gaps).
(** That length where it is past half, and its mean with the next where it is half. *)
Definition median_spec (gaps : list Gap) (m : Q) : Prop :=
  exists v, halfway gaps v /\
    ((zsum weight gaps < 2 * weight_upto v gaps /\ (m == v)%Q) \/
     (2 * weight_upto v gaps = zsum weight gaps /\
      exists h, h ∈ gaps /\ (v < ms h)%Q /\ (forall g, g ∈ gaps -> (v < ms g)%Q -> (ms h <= ms g)%Q) /\ (m == (v + ms h) / 2)%Q)).

(** The buckets: one gap per distinct length, with the weight of all of it. *)
Definition buckets (gaps : list Gap) : list Gap :=
  (fun group => {| ms := group.1; weight := zsum weight group.2 |}) <$> group_by (fun g => Qred (ms g)) gaps.

(** ** Lemmas *)

Lemma weight_upto_mono gaps u v : (forall g, g ∈ gaps -> 0 <= weight g) -> (u <= v)%Q -> weight_upto u gaps <= weight_upto v gaps.
Proof.
  intros Hw Huv. apply zsum_le. intros g Hg. specialize (Hw g Hg). destruct (Qle_bool (ms g) u) eqn:E1, (Qle_bool (ms g) v) eqn:E2; try lia.
  apply Qle_bool_iff in E1. exfalso. apply not_true_iff_false in E2. apply E2, Qle_bool_iff. lra.
Qed.
Lemma weight_upto_ext gaps u v : (u == v)%Q -> weight_upto u gaps = weight_upto v gaps.
Proof.
  intros E. apply zsum_ext. intros g _. replace (Qle_bool (ms g) v) with (Qle_bool (ms g) u); [done|].
  apply eq_true_iff_eq. rewrite !Qle_bool_iff. by rewrite E.
Qed.
Lemma halfway_unique gaps u v : halfway gaps u -> halfway gaps v -> (u == v)%Q.
Proof.
  intros [(g & Hg & Eg) [Hu Hu']] [(h & Hh & Eh) [Hv Hv']]. destruct (Q_dec u v) as [[Hlt|Hgt]|E]; [| |done]; exfalso.
  - specialize (Hv' g Hg). rewrite (weight_upto_ext gaps (ms g) u) in Hv' by done. assert (ms g < v)%Q by lra. specialize (Hv' H). lia.
  - specialize (Hu' h Hh). rewrite (weight_upto_ext gaps (ms h) v) in Hu' by done. assert (ms h < u)%Q by lra. specialize (Hu' H). lia.
Qed.
Lemma median_unique gaps m m' : median_spec gaps m -> median_spec gaps m' -> (m == m')%Q.
Proof.
  intros (v & Hv & Hm) (v' & Hv' & Hm'). pose proof (halfway_unique _ _ _ Hv Hv') as E. rewrite (weight_upto_ext gaps v' v) in Hm' by (by symmetry).
  destruct Hm as [[? E1]|[? (h & Hh & Hlt & Hleast & E1)]], Hm' as [[? E2]|[? (h' & Hh' & Hlt' & Hleast' & E2)]]; [lra|lia|lia|].
  assert (ms h == ms h')%Q; [|rewrite E1, E2, E, H1; lra].
  apply Qle_antisym; [apply Hleast|apply Hleast']; [done|lra|done|lra].
Qed.

(** The walk of the code finds it, on any sorted list. *)
Lemma walk_median pre suf :
  StronglySorted (fun x y => by_ms x y = true) (pre ++ suf) -> (forall g, g ∈ pre ++ suf -> 1 <= weight g) ->
  2 * zsum weight pre < zsum weight (pre ++ suf) -> suf <> [] ->
  exists m, median_walk (zsum weight (pre ++ suf)) (zsum weight pre) suf = Some m /\ median_spec (pre ++ suf) m.
Proof.
  revert pre. induction suf as [|g suf IH]; intros pre HS Hw Hpre Hne; [done|]. cbn [median_walk].
  assert (Hw0 : forall g', g' ∈ pre ++ g :: suf -> 0 <= weight g') by (intros g' Hg'; specialize (Hw g' Hg'); lia).
  assert (HSg : forall h, h ∈ suf -> (ms g <= ms h)%Q).
  { intros h Hh. rewrite (cons_middle g pre suf), app_assoc in HS. eapply sorted_app_le; [exact HS| |exact Hh]. set_solver. }
  assert (HSpre : forall h, h ∈ pre -> (ms h <= ms g)%Q) by (intros h Hh; eapply sorted_app_le; [exact HS|done|left]).
  pose proof (zsum_app weight pre (g :: suf)) as Htot. rewrite zsum_cons in Htot.
  assert (Hupto : weight_upto (ms g) (pre ++ g :: suf) = zsum weight pre + weight g + weight_upto (ms g) suf).
  { unfold weight_upto. rewrite weight_where_app. unfold weight_where at 2. rewrite zsum_cons. rewrite (proj2 (Qle_bool_iff (ms g) (ms g))) by lra.
    fold (weight_where (fun g0 => Qle_bool (ms g0) (ms g)) suf). unfold weight_where at 1. rewrite (zsum_ext _ weight pre); [lia|].
    intros h Hh. by rewrite (proj2 (Qle_bool_iff (ms h) (ms g))) by auto. }
  assert (Hsuf : 0 <= weight_upto (ms g) suf).
  { apply zsum_nonneg. intros h Hh. assert (0 <= weight h) by (apply Hw0; set_solver). destruct (Qle_bool _ _); lia. }
  assert (Hless : forall x, x ∈ pre ++ g :: suf -> (ms x < ms g)%Q -> 2 * weight_upto (ms x) (pre ++ g :: suf) < zsum weight (pre ++ g :: suf)).
  { intros x Hx Hlt. assert (weight_upto (ms x) (pre ++ g :: suf) <= zsum weight pre); [|lia]. unfold weight_upto. rewrite weight_where_app.
    rewrite (weight_where_none _ (g :: suf)).
    - assert (weight_where (fun g0 => Qle_bool (ms g0) (ms x)) pre <= zsum weight pre); [|lia]. apply weight_where_le. intros; apply Hw0; set_solver.
    - intros h Hh. apply not_true_iff_false. rewrite Qle_bool_iff. apply elem_of_cons in Hh as [->|Hh]; [lra|]. specialize (HSg h Hh). lra. }
  destruct (Z.ltb_spec (zsum weight (pre ++ g :: suf)) ((zsum weight pre + weight g) * 2)) as [E1|E1].
  { exists (ms g). split; [done|]. exists (ms g). split; [|left; split; [lia|lra]]. split; [|split; [lia|done]].
    exists g. split; [set_solver|lra]. }
  destruct (Z.eqb_spec ((zsum weight pre + weight g) * 2) (zsum weight (pre ++ g :: suf))) as [E2|E2].
  - destruct suf as [|h suf].
    { change (zsum weight []) with 0 in Htot. assert (1 <= weight g) by (apply Hw; set_solver).
      assert (0 <= zsum weight pre) by (apply zsum_nonneg; intros; apply Hw0; set_solver). lia. }
    cbn [head]. eexists. split; [done|]. exists (ms g). split; [split; [exists g; split; [set_solver|lra]|split; [lia|done]]|].
    assert (1 <= weight h) by (apply Hw; set_solver). pose proof (HSg h (list_elem_of_here _ _)) as Hgh.
    destruct (Qlt_le_dec (ms g) (ms h)) as [Hlt|Hge].
    + right. assert (weight_upto (ms g) (h :: suf) = 0) as E0.
      { apply weight_where_none. intros x Hx. apply not_true_iff_false. rewrite Qle_bool_iff. assert (ms h <= ms x)%Q; [|lra].
        apply elem_of_cons in Hx as [->|Hx]; [lra|]. replace (pre ++ g :: h :: suf) with ((pre ++ [g; h]) ++ suf) in HS by (by rewrite <- app_assoc).
        eapply sorted_app_le; [exact HS| |exact Hx]. set_solver. }
      split; [lia|]. exists h. split; [set_solver|]. split; [done|]. split; [|lra]. intros x Hx Hgx.
      apply elem_of_app in Hx as [Hx|[->|[->|Hx]%elem_of_cons]%elem_of_cons]; [specialize (HSpre x Hx); lra|lra|lra|].
      replace (pre ++ g :: h :: suf) with ((pre ++ [g; h]) ++ suf) in HS by (by rewrite <- app_assoc).
      eapply sorted_app_le; [exact HS| |exact Hx]. set_solver.
    + left. split; [|assert (ms h == ms g)%Q as -> by lra; field]. rewrite Hupto. unfold weight_upto, weight_where. rewrite zsum_cons. rewrite (proj2 (Qle_bool_iff (ms h) (ms g))) by lra.
      assert (0 <= zsum (fun g0 => if Qle_bool (ms g0) (ms g) then weight g0 else 0) suf); [|lia].
      apply zsum_nonneg. intros x Hx. assert (0 <= weight x) by (apply Hw0; set_solver). destruct (Qle_bool _ _); lia.
  - specialize (IH (pre ++ [g])). rewrite <- app_assoc in IH. cbn [app] in IH. rewrite (zsum_app _ pre [g]), zsum_cons in IH.
    change (zsum weight []) with 0 in IH. rewrite Z.add_0_r in IH. apply IH; [done|done|lia|].
    intros ->. change (zsum weight []) with 0 in Htot. assert (1 <= weight g) by (apply Hw; set_solver). assert (0 <= zsum weight pre) by (apply zsum_nonneg; intros; apply Hw0; set_solver). lia.
Qed.

(** ** Buckets *)

Lemma zsum_zero {A} (f : A -> Z) l : (forall x, x ∈ l -> f x = 0) -> zsum f l = 0.
Proof. intros Hf. induction l as [|x l IH]; [done|]. rewrite zsum_cons, Hf, IH by set_solver. done. Qed.
Lemma zsum_plus {A} (f g : A -> Z) l : zsum (fun x => f x + g x) l = zsum f l + zsum g l.
Proof. induction l as [|x l IH]; [done|]. rewrite !zsum_cons, IH. lia. Qed.
Lemma zsum_single {K} `{EqDecision K} (k : K) (v : Z) ks : NoDup ks -> k ∈ ks -> zsum (fun k' => if bool_decide (k = k') then v else 0) ks = v.
Proof.
  intros Hn Hk. induction Hn as [|x ks Hx _ IH]; [by apply elem_of_nil in Hk|]. rewrite zsum_cons. apply elem_of_cons in Hk as [->|Hk].
  - rewrite bool_decide_eq_true_2 by done. rewrite zsum_zero; [lia|]. intros y Hy. apply bool_decide_eq_false_2 || (rewrite bool_decide_eq_false_2; [done|]).
    congruence.
  - rewrite bool_decide_eq_false_2 by congruence. by rewrite IH.
Qed.
(** A sum is the sum over its groups. *)
Lemma zsum_rows_with {A K} `{EqDecision K} (key : A -> K) (f : A -> Z) ks l : NoDup ks -> (forall x, x ∈ l -> key x ∈ ks) ->
  zsum (fun k => zsum f (rows_with key k l)) ks = zsum f l.
Proof.
  intros Hn. induction l as [|x l IH]; intros Hk; [by apply zsum_zero|]. rewrite zsum_cons, <- IH by (intros; apply Hk; by right).
  rewrite <- (zsum_single (key x) (f x) ks Hn) by (apply Hk; left). rewrite <- zsum_plus. apply zsum_ext. intros k _.
  unfold rows_with. cbn [List.filter]. destruct (bool_decide (key x = k)); [by rewrite zsum_cons|done].
Qed.
Lemma zsum_groups {A K} `{EqDecision K} (key : A -> K) (f : A -> Z) l : zsum (fun g => zsum f g.2) (group_by key l) = zsum f l.
Proof.
  unfold group_by. rewrite zsum_fmap. cbn [snd]. apply zsum_rows_with; [apply NoDup_remove_dups|].
  intros x Hx. rewrite elem_of_remove_dups. by apply list_elem_of_fmap_2.
Qed.

Lemma bucket_where (f : Gap -> bool) gaps : (forall g h, ms g == ms h -> f g = f h)%Q -> weight_where f (buckets gaps) = weight_where f gaps.
Proof.
  intros Hf. unfold weight_where, buckets. rewrite zsum_fmap, <- (zsum_groups (fun g => Qred (ms g))). apply zsum_ext.
  intros [k rows] [_ ->]%elem_of_group_by. cbn [weight fst snd]. assert (forall g, g ∈ rows_with (fun g => Qred (ms g)) k gaps -> f g = f {| ms := k; weight := zsum weight (rows_with (fun g => Qred (ms g)) k gaps) |}) as Hg.
  { intros g [_ <-%bool_decide_eq_true]%elem_of_filter_bool. apply Hf. cbn. symmetry. apply Qred_correct. }
  destruct (f _) eqn:E; symmetry; [apply zsum_ext|apply zsum_zero]; intros g ->%Hg; done.
Qed.
Lemma bucket_upto v gaps : weight_upto v (buckets gaps) = weight_upto v gaps.
Proof. apply bucket_where. intros g h E. apply eq_true_iff_eq. rewrite !Qle_bool_iff. by rewrite E. Qed.
Lemma bucket_total gaps : zsum weight (buckets gaps) = zsum weight gaps.
Proof. unfold buckets. rewrite zsum_fmap. cbn [weight]. apply (zsum_groups (fun g => Qred (ms g)) weight). Qed.
Lemma in_bucket gaps g : g ∈ gaps -> exists b, b ∈ buckets gaps /\ (ms b == ms g)%Q.
Proof.
  intros Hg. exists {| ms := Qred (ms g); weight := zsum weight (rows_with (fun g => Qred (ms g)) (Qred (ms g)) gaps) |}.
  split; [|apply Qred_correct]. apply list_elem_of_fmap. exists (Qred (ms g), rows_with (fun g => Qred (ms g)) (Qred (ms g)) gaps).
  split; [done|]. apply elem_of_group_by. split; [|done]. by apply (list_elem_of_fmap_2 (fun g => Qred (ms g))).
Qed.
Lemma of_bucket gaps b : b ∈ buckets gaps -> exists g, g ∈ gaps /\ (ms b == ms g)%Q.
Proof.
  intros ([k rows] & -> & [Hk ->]%elem_of_group_by)%list_elem_of_fmap. apply list_elem_of_fmap in Hk as (g & -> & Hg).
  exists g. split; [done|]. apply Qred_correct.
Qed.
Lemma bucket_weight gaps b : (forall g, g ∈ gaps -> 1 <= weight g) -> b ∈ buckets gaps -> 1 <= weight b.
Proof.
  intros Hw ([k rows] & -> & [Hk ->]%elem_of_group_by)%list_elem_of_fmap. apply list_elem_of_fmap in Hk as (g & -> & Hg). cbn [weight snd].
  assert (g ∈ rows_with (fun g => Qred (ms g)) (Qred (ms g)) gaps) as Hin. { apply elem_of_filter_bool. split; [done|]. by apply bool_decide_eq_true. }
  assert (forall x, x ∈ rows_with (fun g => Qred (ms g)) (Qred (ms g)) gaps -> 1 <= weight x) as Hall by (intros x [Hx _]%elem_of_filter_bool; auto).
  destruct (rows_with _ _ gaps) as [|x xs]; [by apply elem_of_nil in Hin|]. rewrite zsum_cons. assert (1 <= weight x) by (apply Hall; left).
  assert (0 <= zsum weight xs); [|lia]. apply zsum_nonneg. intros y Hy. assert (1 <= weight y) by (apply Hall; by right). lia.
Qed.

(** The median of the buckets is the median of the gaps. *)
Lemma bucket_median gaps m : median_spec (buckets gaps) m -> median_spec gaps m.
Proof.
  intros (v & [(b & Hb & Eb) [Hhalf Hless]] & Hm). rewrite bucket_total, bucket_upto in *. exists v. split; [split; [|split; [done|]]|].
  - destruct (of_bucket _ _ Hb) as (g & Hg & E). exists g. split; [done|lra].
  - intros g Hg Hlt. destruct (in_bucket _ _ Hg) as (b' & Hb' & E). specialize (Hless b' Hb'). rewrite bucket_upto in Hless.
    rewrite (weight_upto_ext gaps (ms b') (ms g) E) in Hless. apply Hless. lra.
  - destruct Hm as [?|[? (h & Hh & Hlt & Hleast & E)]]; [by left|right]. split; [done|]. destruct (of_bucket _ _ Hh) as (h' & Hh' & E').
    exists h'. split; [done|]. split; [lra|]. split; [|by rewrite E, E'].
    intros g Hg Hgt. destruct (in_bucket _ _ Hg) as (b' & Hb' & E2). rewrite <- E', <- E2. apply Hleast; [done|lra].
Qed.
Lemma median_perm gaps gaps' m : gaps ≡ₚ gaps' -> median_spec gaps m -> median_spec gaps' m.
Proof.
  intros Hp (v & [(g & Hg & Eg) [Hhalf Hless]] & Hm). unfold weight_upto, weight_where in *.
  rewrite (zsum_perm weight _ _ Hp), (zsum_perm (fun g => if Qle_bool (ms g) v then weight g else 0) _ _ Hp) in Hhalf, Hm.
  exists v. unfold halfway, weight_upto, weight_where. split; [split; [|split; [done|]]|].
  - exists g. by rewrite <- Hp.
  - intros x Hx Hlt. rewrite <- (zsum_perm weight _ _ Hp), <- (zsum_perm (fun g => if Qle_bool (ms g) (ms x) then weight g else 0) _ _ Hp). apply Hless; [by rewrite Hp|done].
  - destruct Hm as [?|[? (h & Hh & Hlt & Hleast & E)]]; [by left|right]. split; [done|]. exists h. rewrite <- Hp. split; [done|]. split; [done|].
    split; [|done]. intros x Hx. apply Hleast. by rewrite Hp.
Qed.
(** The walk over sorted gaps, of any list. *)
Lemma sorted_walk_median gaps : gaps <> [] -> (forall g, g ∈ gaps -> 1 <= weight g) ->
  exists m, median_walk (zsum weight (stable_sort by_ms gaps)) 0 (stable_sort by_ms gaps) = Some m /\ median_spec gaps m.
Proof.
  intros Hne Hw. pose proof (stable_sort_perm by_ms gaps) as Hp. destruct (walk_median [] (stable_sort by_ms gaps)) as (m & Hm & Hs).
  - cbn [app]. apply stable_sort_sorted; eauto with js.
  - cbn [app]. intros g Hg%elem_of_stable_sort. auto.
  - cbn [app]. change (zsum weight []) with 0. rewrite (zsum_perm _ _ _ Hp). destruct gaps as [|g gaps]; [done|]. rewrite zsum_cons.
    assert (1 <= weight g) by (apply Hw; left). assert (0 <= zsum weight gaps); [|lia]. apply zsum_nonneg. intros h Hh.
    assert (1 <= weight h) by (apply Hw; by right). lia.
  - intros E. apply Hne. apply Permutation_nil_r. by rewrite <- E, Hp.
  - exists m. split; [done|]. by eapply median_perm.
Qed.

(** ** The evidence of a collection *)

(** *** readings and steps *)
Record Step := {
  st_capturedAt : Z;
  st_lastSeenAt : Z;
  st_betweenMs : option Z;
  st_interiorMs : option Q;
  st_interiorWeight : Z;
  st_moved : bool;
  st_drawable : bool;
}.
Definition step_of (w : Z * option LatencySampleRow * LatencySampleRow) : Step :=
  let '(_, previous, row) := w in
  {| st_capturedAt := lr_capturedAt row;
     st_lastSeenAt := lr_lastSeenAt row;
     st_betweenMs := (fun prev => lr_capturedAt row - lr_lastSeenAt prev) <$> previous;
     st_interiorMs :=
       if (1 <? lr_observations row) && (lr_capturedAt row <? lr_lastSeenAt row)
       then Some (inject_Z (lr_lastSeenAt row - lr_capturedAt row) / inject_Z (lr_observations row - 1))%Q else None;
     st_interiorWeight := lr_observations row - 1;
     st_moved :=
       match previous with
       | None => false
       | Some prev =>
           (0 <=? lr_selfReadOps row - lr_selfReadOps prev) &&
           (0 <? lr_readOps row - lr_readOps prev - (lr_selfReadOps row - lr_selfReadOps prev))
       end;
     st_drawable :=
       match previous with
       | None => false
       | Some prev => (0 <=? lr_readOps row - lr_readOps prev) && (0 <=? lr_readLatencyMicros row - lr_readLatencyMicros prev)
       end |}.
Definition sample_in_window (since : Z) (row : LatencySampleRow) : bool := since <=? lr_lastSeenAt row.
(** One partition of the window. *)
Definition steps (rows : list LatencySampleRow) : list Step := step_of <$> over (stable_sort (by_key lr_capturedAt) rows).

(** *** buckets, ranked and median: the weighted median of the intervals *)
Definition interior_gap (s : Step) : option Gap :=
  interior ← st_interiorMs s; if Qltb 0 interior then Some {| ms := interior; weight := st_interiorWeight s |} else None.
Definition between_gap (s : Step) : option Gap :=
  between ← st_betweenMs s; if 0 <? between then Some {| ms := inject_Z between; weight := 1 |} else None.
Definition gap_rows (ss : list Step) : list Gap := omap interior_gap ss ++ omap between_gap ss.
Record Ranked := { rk_ms : Q; rk_cumulative : Z; rk_total : Z; rk_next : option Q }.
Definition rank (total : Z) (row : Gap * Z) (lead : Gap * option Gap) : Ranked :=
  {| rk_ms := ms row.1; rk_cumulative := row.2; rk_total := total; rk_next := ms <$> lead.2 |}.
Definition ranked (bs : list Gap) : list Ranked :=
  let ordered := stable_sort by_ms bs in zip_with (rank (zsum weight bs)) (running weight 0 ordered) (leading ordered).
Definition cap_of (r : Ranked) : Q :=
  if rk_cumulative r * 2 =? rk_total r then match rk_next r with Some next => ((rk_ms r + next) / 2)%Q | None => rk_ms r end else rk_ms r.
Definition median_cap (bs : list Gap) : option Q :=
  cap_of <$> head (stable_sort (by_key rk_cumulative) (List.filter (fun r => rk_total r <=? rk_cumulative r * 2) (ranked bs))).

(** *** The row of one collection *)
Record LatencyColumns := { lc_capMs : option Q; lc_activeMs : option Q; lc_elapsedMs : Z; lc_drawableMs : option Z }.
Definition credited (cap : option Q) (s : Step) : option Q :=
  if st_moved s then
    match cap, st_betweenMs s with
    | Some cap, Some between => Some (Qmin (inject_Z between) (Qmin cap (inject_Z MAX_ACTIVE_CREDIT_MS)))
    | _, _ => None
    end
  else None.
Definition latency_row (rows : list LatencySampleRow) : LatencyColumns :=
  let ss := steps rows in
  let cap := median_cap (buckets (gap_rows ss)) in
  {| lc_capMs := cap;
     lc_activeMs := match omap (credited cap) ss with [] => None | credits => Some (qsum id credits) end;
     lc_elapsedMs := (sql_max (st_lastSeenAt <$> ss) ?? 0) - (sql_min (st_capturedAt <$> ss) ?? 0);
     lc_drawableMs := sql_sum id (omap (fun s => if st_drawable s then st_betweenMs s else None) ss) |}.
(** Each group with the name of its namespace. *)
Definition latency_rows (rows : list LatencySampleRow) (names : list NamespaceRow) (since : Z) : list (NamespaceRow * list LatencySampleRow) :=
  omap (fun group => (fun n => (n, group.2)) <$> List.find (fun n => Nat.eqb (nr_id n) group.1) names)
    (group_by lr_namespaceId (List.filter (sample_in_window since) rows)).

(** *** The reading of it *)
Definition evidence_of (row : LatencyColumns) : CollectionEvidence :=
  {| activity :=
       match lc_capMs row with
       | None => {| activeMs := 0; measurable := false |}
       | Some _ => {| activeMs := lc_activeMs row ?? 0%Q; measurable := true |}
       end;
     observation := {| hasHistory := true; elapsedMs := lc_elapsedMs row; drawableMs := lc_drawableMs row ?? 0 |} |}.
Definition collectionEvidence (rows : list LatencySampleRow) (names : list NamespaceRow) (since : Z) : list (string * CollectionEvidence) :=
  fold_left (fun evidence '(n, mine) => map_put (namespace_key n) (evidence_of (latency_row mine)) evidence) (latency_rows rows names since) [].

(** ** The overview *)

(** A row with its two averages since the row before it. *)
Record Averages := { av_row : LatencySampleRow; av_read : option Q; av_write : option Q }.
Definition averages_of (w : Z * option LatencySampleRow * LatencySampleRow) : Averages :=
  let '(_, previous, row) := w in
  let average (ops micros : LatencySampleRow -> Z) :=
    prev ← previous;
    if (0 <? ops row - ops prev) && (0 <=? micros row - micros prev)
    then Some (inject_Z (micros row - micros prev) / inject_Z (ops row - ops prev))%Q else None in
  {| av_row := row; av_read := average lr_readOps lr_readLatencyMicros; av_write := average lr_writeOps lr_writeLatencyMicros |}.
Definition averages (rows : list LatencySampleRow) : list Averages := averages_of <$> over (stable_sort (by_key lr_capturedAt) rows).

Record LatencySummary := {
  ls_samples : Z;
  ls_baselineRead : option Q;
  ls_currentRead : option Q;
  ls_baselineWrite : option Q;
  ls_currentWrite : option Q;
}.
(** The aggregates of a summary: [array_agg(...) filter (...)[1]] in either order. *)
Definition latency_summary (rows : list LatencySampleRow) : LatencySummary :=
  let ss := averages rows in
  {| ls_samples := sql_sum (fun s => Z.max (lr_observations (av_row s)) 1) ss ?? 0;
     ls_baselineRead := head (omap av_read ss);
     ls_currentRead := last (omap av_read ss);
     ls_baselineWrite := head (omap av_write ss);
     ls_currentWrite := last (omap av_write ss) |}.
(** The order of the answer, by names in the collation of the database, is left out. *)
Definition latencySummaries (rows : list LatencySampleRow) (names : list NamespaceRow) (since : Z) : list (NamespaceRow * LatencySummary) :=
  (fun '(n, mine) => (n, latency_summary mine)) <$> latency_rows rows names since.
(** The counts a chart is ranked by. *)
Definition latencyChartEvidence (rows : list LatencySampleRow) (names : list NamespaceRow) (since : Z) : list ChartEvidence :=
  (fun '(n, mine) =>
     let ss := averages mine in
     {| ce_database := nr_database n; ce_collection := nr_collection n;
        readPoints := count_where (fun s => is_some (av_read s)) ss;
        writePoints := count_where (fun s => is_some (av_write s)) ss;
        points := Z.of_nat (length ss) - 1 + count_where (fun s => lr_capturedAt (av_row s) <? lr_lastSeenAt (av_row s)) ss |})
  <$> latency_rows rows names since.

(** ** Notions the theorems are stated with *)

(** A row as the analysis would load it, and as the activity rule would. *)
Definition sample_run (row : LatencySampleRow) : Run :=
  runFrom {| Runs.row_capturedAt := inl (lr_capturedAt row); Runs.row_lastSeenAt := inl (lr_lastSeenAt row);
             Runs.row_observations := inject_Z (lr_observations row); Runs.row_maxGapMs := inject_Z (lr_maxGapMs row) |}.
Definition reading_of_row (row : LatencySampleRow) : LatencyReading :=
  {| lr_run := sample_run row; readOps := lr_readOps row; readLatencyMicros := lr_readLatencyMicros row;
     writeOps := lr_writeOps row; writeLatencyMicros := lr_writeLatencyMicros row |}.
Definition point_of_row (row : LatencySampleRow) : ActivityPoint :=
  {| ap_run := sample_run row; ap_readOps := lr_readOps row; selfReadOps := lr_selfReadOps row |}.

Definition sample_ok (row : LatencySampleRow) : Prop := lr_capturedAt row <= lr_lastSeenAt row /\ 1 <= lr_observations row.
(** The tables: no two runs of a namespace share an instant, every run has its
    namespace, and no two namespaces one name. *)
Record samples_ok (rows : list LatencySampleRow) (names : list NamespaceRow) : Prop := {
  so_rows : Forall sample_ok rows;
  so_apart : ForallOrdPairs (disjoint_spans lr_namespaceId lr_capturedAt lr_lastSeenAt) rows;
  so_ids : NoDup (nr_id <$> names);
  so_keys : NoDup (namespace_key <$> names);
  so_named : forall row, row ∈ rows -> lr_namespaceId row ∈ (nr_id <$> names);
}.
(** The runs of a namespace in the window. *)
Definition runs_of_namespace (rows : list LatencySampleRow) (since : Z) (n : NamespaceRow) : list LatencySampleRow :=
  rows_with lr_namespaceId (nr_id n) (List.filter (sample_in_window since) rows).

(** ** Lemmas *)

Lemma point_start row : start_ms (point_of_row row) = lr_capturedAt row.
Proof. done. Qed.
Lemma reading_start row : start_ms (reading_of_row row) = lr_capturedAt row.
Proof. done. Qed.
Lemma point_end row : sample_ok row -> end_ms (point_of_row row) = lr_lastSeenAt row.
Proof. intros [? _]. unfold end_ms, spanEnd. cbn. lia. Qed.
Lemma reading_end row : sample_ok row -> end_ms (reading_of_row row) = lr_lastSeenAt row.
Proof. intros [? _]. unfold end_ms, spanEnd. cbn. lia. Qed.
Lemma point_observations row : sample_ok row -> observationsOf (point_of_row row) = lr_observations row.
Proof. intros [_ ?]. unfold observationsOf. cbn. unfold Math_floor. rewrite Qfloor_Z. lia. Qed.
Lemma reading_observations row : observationsOf (reading_of_row row) = Z.max 1 (lr_observations row).
Proof. unfold observationsOf. cbn. unfold Math_floor. by rewrite Qfloor_Z. Qed.

(** *** The median *)

Lemma ranked_walk total l : (forall g, g ∈ l -> 1 <= weight g) -> forall seen,
  cap_of <$> head (List.filter (fun r => rk_total r <=? rk_cumulative r * 2) (zip_with (rank total) (running weight seen l) (leading l))) =
  median_walk total seen l.
Proof.
  intros Hw. induction l as [|g l IH]; intros seen; [done|]. cbn [running leading zip_with List.filter rank rk_total rk_cumulative fst snd median_walk].
  destruct (Z.leb_spec total ((seen + weight g) * 2)) as [Hle|Hlt].
  - cbn [head fmap option_fmap option_map]. unfold cap_of. cbn [rank rk_cumulative rk_total rk_next rk_ms fst snd].
    destruct (Z.ltb_spec total ((seen + weight g) * 2)).
    + rewrite (proj2 (Z.eqb_neq _ _)) by lia. done.
    + rewrite (proj2 (Z.eqb_eq _ _)) by lia. by destruct (head l).
  - rewrite (proj2 (Z.ltb_ge _ _)), (proj2 (Z.eqb_neq _ _)) by lia. apply IH. intros; apply Hw; by right.
Qed.
Lemma ranked_increasing total l : (forall g, g ∈ l -> 1 <= weight g) -> forall seen,
  StronglySorted (fun x y => by_key rk_cumulative x y = true) (zip_with (rank total) (running weight seen l) (leading l)) /\
  forall r, r ∈ zip_with (rank total) (running weight seen l) (leading l) -> seen < rk_cumulative r.
Proof.
  intros Hw. induction l as [|g l IH]; intros seen; [split; [constructor|set_solver]|]. cbn [running leading zip_with].
  assert (1 <= weight g) by (apply Hw; left). destruct (IH ltac:(intros; apply Hw; by right) (seen + weight g)) as [HS Hgt]. split.
  - constructor; [done|]. apply Forall_forall. intros r Hr. specialize (Hgt r Hr). unfold by_key. cbn [rank rk_cumulative snd]. lia.
  - intros r [->|Hr]%elem_of_cons; [cbn; lia|]. specialize (Hgt r Hr). lia.
Qed.
Lemma median_cap_walk bs : (forall g, g ∈ bs -> 1 <= weight g) -> median_cap bs = median_walk (zsum weight bs) 0 (stable_sort by_ms bs).
Proof.
  intros Hw. unfold median_cap, ranked.
  assert (forall g, g ∈ stable_sort by_ms bs -> 1 <= weight g) as Hw' by (intros g Hg%elem_of_stable_sort; auto).
  rewrite stable_sort_id; [by apply ranked_walk|]. apply StronglySorted_filter. by apply ranked_increasing.
Qed.

(** *** The intervals *)

Lemma interior_gap_of_row o prev row : sample_ok row ->
  match interior_gap (step_of (o, prev, row)) with None => [] | Some g => [g] end = interior_gaps (point_of_row row).
Proof.
  intros Hok. unfold interior_gap, interior_gaps. cbn [step_of st_interiorMs st_interiorWeight]. rewrite point_start, point_end, point_observations by done.
  replace (lr_capturedAt row <? lr_lastSeenAt row) with (0 <? lr_lastSeenAt row - lr_capturedAt row) by (apply eq_true_iff_eq; lia).
  destruct ((1 <? _) && (0 <? _)) eqn:E; [|done]. cbn [mbind option_bind].
  assert (Qltb 0 (inject_Z (lr_lastSeenAt row - lr_capturedAt row) / inject_Z (lr_observations row - 1)) = true) as ->; [|done].
  apply Qltb_lt. bools. apply Qlt_shift_div_l.
  - change 0%Q with (inject_Z 0). rewrite <- Zlt_Qlt. lia.
  - rewrite Qmult_0_l. change 0%Q with (inject_Z 0). rewrite <- Zlt_Qlt. lia.
Qed.
Lemma between_gap_of_row o prev row : sample_ok prev ->
  match between_gap (step_of (o, Some prev, row)) with None => [] | Some g => [g] end = between_gaps (point_of_row prev) (Some (point_of_row row)).
Proof. intros Hok. unfold between_gap, between_gaps. cbn [step_of st_betweenMs fmap option_fmap option_map mbind option_bind]. rewrite point_start, point_end by done. by destruct (0 <? _). Qed.

Lemma omap_cons_list {A B} (f : A -> option B) x l : omap f (x :: l) = match f x with None => [] | Some y => [y] end ++ omap f l.
Proof. cbn. by destruct (f x). Qed.

Lemma gap_rows_perm l : forall o prev, Forall sample_ok l -> (forall p, prev = Some p -> sample_ok p) ->
  gap_rows (step_of <$> windowed o prev l) ≡ₚ
  match prev with Some p => between_gaps (point_of_row p) (head (point_of_row <$> l)) | None => [] end ++ observationGaps (point_of_row <$> l).
Proof.
  induction l as [|row l IH]; intros o prev Hl Hp; [by destruct prev|]. apply Forall_cons in Hl as [Hr Hl].
  unfold gap_rows in *. cbn [windowed]. rewrite !fmap_cons, !omap_cons_list. cbn [observationGaps head].
  specialize (IH (o + 1) (Some row) Hl ltac:(congruence)). cbn [head] in IH. rewrite interior_gap_of_row by done.
  assert (match between_gap (step_of (o, prev, row)) with None => [] | Some g => [g] end =
          match prev with Some p => between_gaps (point_of_row p) (Some (point_of_row row)) | None => [] end) as ->.
  { destruct prev as [p|]; [|done]. apply between_gap_of_row. by apply Hp. }
  rewrite <- IH. clear IH. set (B := match prev with Some p => _ | None => _ end). set (I := interior_gaps _).
  set (oi := omap interior_gap _). set (ob := omap between_gap _).
  rewrite <- app_assoc, (app_assoc oi B), (Permutation_app_comm oi B), <- !app_assoc. rewrite (app_assoc I B), (Permutation_app_comm I B). by rewrite <- !app_assoc.
Qed.

(** *** Credits *)

Lemma Qmin_eq a b c : (b == c -> Qmin a b == Qmin a c)%Q.
Proof. intros E. destruct (Q.min_spec a b) as [[? ->]|[? ->]], (Q.min_spec a c) as [[? ->]|[? ->]]; lra. Qed.
Lemma Qmin_eq_l a b c : (a == b -> Qmin a c == Qmin b c)%Q.
Proof. intros E. destruct (Q.min_spec a c) as [[? ->]|[? ->]], (Q.min_spec b c) as [[? ->]|[? ->]]; lra. Qed.
Lemma credit_walk_cons cap a b l : credit_walk cap (a :: b :: l) = (interval_credit cap a b + credit_walk cap (b :: l))%Q.
Proof. done. Qed.
Lemma credit_walk_eq cap cap' l : (cap == cap' -> credit_walk cap l == credit_walk cap' l)%Q.
Proof.
  intros E. induction l as [|a [|b l] IH]; [done|done|]. rewrite !credit_walk_cons, IH. apply Qplus_inj_r. unfold interval_credit.
  destruct (_ <? 0); [done|]. destruct (0 <? _); [|done]. by apply Qmin_eq.
Qed.
Lemma credits_walk cap l : forall o prev, Forall sample_ok l -> sample_ok prev ->
  (qsum id (omap (credited (Some cap)) (step_of <$> windowed o (Some prev) l)) ==
   credit_walk (Qmin cap (inject_Z MAX_ACTIVE_CREDIT_MS)) (point_of_row <$> prev :: l))%Q.
Proof.
  induction l as [|row l IH]; intros o prev Hl Hp; [done|]. apply Forall_cons in Hl as [Hr Hl]. cbn [windowed].
  rewrite !fmap_cons, credit_walk_cons, <- (fmap_cons point_of_row row l), <- (IH (o + 1) row), omap_cons_list, qsum_app by done. apply Qplus_inj_r.
  unfold credited, interval_credit. cbn [step_of st_moved st_betweenMs fmap option_fmap option_map selfReadOps ap_readOps point_of_row].
  rewrite point_start, point_end by done.
  destruct (Z.leb_spec 0 (lr_selfReadOps row - lr_selfReadOps prev)), (Z.ltb_spec (lr_selfReadOps row - lr_selfReadOps prev) 0); try lia; cbn [andb]; [|done].
  destruct (0 <? _); [|done]. rewrite qsum_cons. change (qsum id []) with 0%Q. unfold id. lra.
Qed.
Lemma drawable_walk l : forall o prev, Forall sample_ok l -> sample_ok prev ->
  zsum id (omap (fun s => if st_drawable s then st_betweenMs s else None) (step_of <$> windowed o (Some prev) l)) =
  zsum window_length (windows_walk Read (reading_of_row <$> prev :: l)).
Proof.
  induction l as [|row l IH]; intros o prev Hl Hp; [done|]. apply Forall_cons in Hl as [Hr Hl]. cbn [windowed].
  rewrite !fmap_cons, omap_cons_list, zsum_app, (IH (o + 1) row) by done.
  change (windows_walk Read (reading_of_row prev :: reading_of_row row :: (reading_of_row <$> l))) with
    (window_between Read (reading_of_row prev) (reading_of_row row) ++ windows_walk Read (reading_of_row <$> row :: l)).
  rewrite zsum_app. f_equal. unfold window_between. cbn [deltaOf metric_ops metric_micros reading_of_row readOps readLatencyMicros step_of st_drawable st_betweenMs fmap option_fmap option_map].
  fold (reading_of_row prev) (reading_of_row row). rewrite reading_start, reading_end by done.
  destruct (Z.leb_spec 0 (lr_readOps row - lr_readOps prev)), (Z.ltb_spec (lr_readOps row - lr_readOps prev) 0); try lia; cbn [andb orb]; [|done].
  destruct (Z.leb_spec 0 (lr_readLatencyMicros row - lr_readLatencyMicros prev)), (Z.ltb_spec (lr_readLatencyMicros row - lr_readLatencyMicros prev) 0); try lia; done.
Qed.

(** *** One collection *)

Lemma sorted_points rows : sortedRuns (point_of_row <$> rows) = point_of_row <$> stable_sort (by_key lr_capturedAt) rows.
Proof. unfold sortedRuns. rewrite filter_all by (by intros x (r & -> & _)%list_elem_of_fmap). by apply stable_sort_fmap. Qed.
Lemma sorted_readings rows : sortedRuns (reading_of_row <$> rows) = reading_of_row <$> stable_sort (by_key lr_capturedAt) rows.
Proof. unfold sortedRuns. rewrite filter_all by (by intros x (r & -> & _)%list_elem_of_fmap). by apply stable_sort_fmap. Qed.

Lemma median_positive gaps m : (forall g, g ∈ gaps -> 0 < ms g)%Q -> median_spec gaps m -> (0 < m)%Q.
Proof.
  intros Hp (v & [(g & Hg & Eg) _] & [[_ E]|[_ (h & Hh & _ & _ & E)]]).
  - specialize (Hp g Hg). lra.
  - pose proof (Hp g Hg). pose proof (Hp h Hh). rewrite E. apply Qlt_shift_div_l; lra.
Qed.

Lemma activity_agrees l : Forall sample_ok l ->
  let ss := step_of <$> over l in
  match median_cap (buckets (gap_rows ss)) with
  | None => observationGaps (point_of_row <$> l) = []
  | Some cap => exists m, median_walk (zsum weight (stable_sort by_ms (observationGaps (point_of_row <$> l)))) 0
                            (stable_sort by_ms (observationGaps (point_of_row <$> l))) = Some m /\ (m == cap)%Q /\ (0 < m)%Q
  end.
Proof.
  intros Hl. cbn zeta. pose proof (gap_rows_perm l 1 None Hl ltac:(done)) as Hp. cbn [app] in Hp. fold (over l) in Hp.
  assert (forall g, g ∈ observationGaps (point_of_row <$> l) -> (0 < ms g)%Q /\ 1 <= weight g) as Hpos by (intros g; apply observationGaps_pos).
  set (rows := gap_rows (step_of <$> over l)) in *. set (gaps := observationGaps (point_of_row <$> l)) in *.
  assert (forall g, g ∈ rows -> 1 <= weight g) as Hw by (intros g; rewrite Hp; apply Hpos).
  rewrite median_cap_walk by (intros b; apply bucket_weight, Hw).
  destruct (decide (rows = [])) as [E|Hne].
  { rewrite E in *. cbn. by apply Permutation_nil_l in Hp. }
  assert (buckets rows <> []) as Hb.
  { intros E. destruct rows as [|g rows]; [done|]. destruct (in_bucket (g :: rows) g) as (b & Hin & _); [left|]. rewrite E in Hin. by apply elem_of_nil in Hin. }
  destruct (sorted_walk_median (buckets rows) Hb) as (m' & E' & Hm'); [intros b; apply bucket_weight, Hw|].
  rewrite (zsum_perm _ _ _ (stable_sort_perm by_ms (buckets rows))) in E'. rewrite E'.
  destruct (sorted_walk_median gaps) as (m & E & Hm); [|by intros g Hg; apply Hpos|].
  { intros Eg. apply Hne. rewrite Eg in Hp. by apply Permutation_nil_r in Hp. }
  exists m. split; [done|]. split.
  - eapply median_unique; [exact Hm|]. eapply median_perm; [exact Hp|]. by apply bucket_median.
  - eapply median_positive; [|exact Hm]. apply Hpos.
Qed.
Lemma sum_or_zero {A} (f : A -> Z) l : sql_sum f l ?? 0 = zsum f l.
Proof. by destruct l. Qed.

Section one_collection.
Context (rows : list LatencySampleRow) (Hok : Forall sample_ok rows) (Hne : rows <> [])
  (Hd : ForallOrdPairs (disjoint_spans lr_namespaceId lr_capturedAt lr_lastSeenAt) rows)
  (Hi : forall a b, a ∈ rows -> b ∈ rows -> lr_namespaceId a = lr_namespaceId b).
Let l := stable_sort (by_key lr_capturedAt) rows.

Lemma ordered_ok : Forall sample_ok l.
Proof. apply Forall_forall. intros r Hr%elem_of_stable_sort. rewrite Forall_forall in Hok. auto. Qed.
Lemma ordered_some : exists row rest, l = row :: rest.
Proof.
  destruct l as [|row rest] eqn:E; [|eauto]. exfalso. apply Hne. apply Permutation_nil_r. rewrite <- E. symmetry. apply stable_sort_perm.
Qed.

Lemma activity_exact :
  measurable (activity (evidence_of (latency_row rows))) = measurable (foldActivity (point_of_row <$> rows)) /\
  (activeMs (activity (evidence_of (latency_row rows))) == activeMs (foldActivity (point_of_row <$> rows)))%Q.
Proof.
  pose proof (activity_agrees l ordered_ok) as Ha. cbn zeta in Ha. unfold foldActivity, medianObservationGap.
  rewrite sortedRuns_idemp, sorted_points. fold l. unfold latency_row, evidence_of, steps. fold l. cbn [lc_capMs lc_activeMs activity].
  destruct (median_cap _) as [cap|].
  - destruct Ha as (m & Em & E & Hpos). destruct (observationGaps (point_of_row <$> l)) as [|g gaps] eqn:Eg; [done|]. rewrite Em.
    destruct (Qeq_bool m 0) eqn:Ez; [apply Qeq_bool_iff in Ez; exfalso; lra|]. cbn [measurable activeMs]. split; [done|].
    rewrite (credit_walk_eq _ (Qmin cap (inject_Z MAX_ACTIVE_CREDIT_MS))) by (by apply Qmin_eq_l).
    destruct ordered_some as (row & rest & El). pose proof ordered_ok as Hl. rewrite El in *. apply Forall_cons in Hl as [Hr Hrest].
    rewrite <- (credits_walk cap rest 2 row) by done. unfold over. cbn [windowed]. rewrite fmap_cons, omap_cons_list. cbn [credited step_of st_moved app].
    destruct (omap _ _); [done|]. cbn. lra.
  - rewrite Ha. done.
Qed.
Lemma observation_exact : observation (evidence_of (latency_row rows)) = foldObservation (reading_of_row <$> rows) Read.
Proof.
  unfold foldObservation, windowsOf. rewrite sorted_readings. fold l. unfold evidence_of, latency_row, steps. fold l. cbn [observation lc_elapsedMs lc_drawableMs].
  destruct ordered_some as (row & rest & El). pose proof ordered_ok as Hl.
  assert (StronglySorted (spans_apart lr_capturedAt lr_lastSeenAt) l) as HS.
  { apply (intervals_apart lr_namespaceId); [|done|done]. eapply Forall_impl; [exact Hok|]. by intros ? []. }
  assert (Forall (fun r => lr_capturedAt r <= lr_lastSeenAt r) l) as Hspan by (eapply Forall_impl; [exact Hl|]; by intros ? []).
  assert ((fun w => st_lastSeenAt (step_of w)) <$> over l = lr_lastSeenAt <$> l) as Elast.
  { rewrite <- (windowed_rows l 1 None) at 2. rewrite <- list_fmap_compose. apply list_fmap_ext. by intros i [[? ?] ?] _. }
  assert ((fun w => st_capturedAt (step_of w)) <$> over l = lr_capturedAt <$> l) as Efirst.
  { rewrite <- (windowed_rows l 1 None) at 2. rewrite <- list_fmap_compose. apply list_fmap_ext. by intros i [[? ?] ?] _. }
  rewrite <- !list_fmap_compose. unfold compose. rewrite Elast, Efirst, sum_or_zero.
  destruct (last l) as [newest|] eqn:En; [|rewrite El in En; by apply last_None in En].
  destruct (last_interval _ _ _ _ HS Hspan En) as [Hin Hle].
  rewrite (sql_max_is _ (lr_lastSeenAt newest)), (sql_min_is _ (lr_capturedAt row)).
  - rewrite fmap_last, En, El, !fmap_cons. cbn [head fmap option_fmap option_map default]. rewrite El in Hl. apply Forall_cons in Hl as [Hr Hrest]. f_equal.
    + rewrite reading_start, reading_end; [done|]. rewrite Forall_forall in Hok. apply Hok. by apply elem_of_stable_sort in Hin.
    + rewrite <- fmap_cons, <- (drawable_walk rest 2 row) by done. unfold over. cbn [windowed]. by rewrite fmap_cons, omap_cons_list.
  - rewrite El, fmap_cons. left.
  - intros x (r & -> & Hr)%list_elem_of_fmap. rewrite El in *. by eapply first_interval.
  - by apply list_elem_of_fmap_2.
  - intros x (r & -> & Hr)%list_elem_of_fmap. by apply Hle.
Qed.
End one_collection.

(** *** Every collection *)

Lemma put_all_get {X V} (key : X -> string) (v : X -> V) pairs : (forall p q, p ∈ pairs -> q ∈ pairs -> key p = key q -> p = q) -> forall k m,
  map_get k (fold_left (fun m p => map_put (key p) (v p) m) pairs m) =
  match List.find (fun p => String.eqb (key p) k) pairs with Some p => Some (v p) | None => map_get k m end.
Proof.
  induction pairs as [|p pairs IH]; intros Hinj k m; [done|]. cbn [fold_left List.find]. rewrite IH by (intros; apply Hinj; [by right|by right|done]).
  rewrite map_get_put. destruct (List.find _ pairs) as [q|] eqn:E; destruct (String.eqb_spec (key p) k) as [Ek|]; try done.
  apply find_elem in E as [Hq Eq%String.eqb_eq]. rewrite (Hinj p q); [done|left|by right|congruence].
Qed.
Lemma fold_left_ext_pairs {X Y V} (key : X * Y -> string) (v : X * Y -> V) (f : list (string * V) -> X * Y -> list (string * V)) pairs m :
  (forall m p, f m p = map_put (key p) (v p) m) -> fold_left f pairs m = fold_left (fun m p => map_put (key p) (v p) m) pairs m.
Proof. intros Hf. revert m. induction pairs as [|p pairs IH]; intros m; [done|]. cbn. by rewrite Hf, IH. Qed.
Lemma elem_of_latency_rows rows names since n mine : samples_ok rows names ->
  (n, mine) ∈ latency_rows rows names since <-> n ∈ names /\ mine = runs_of_namespace rows since n /\ mine <> [].
Proof.
  intros Hok. unfold latency_rows. rewrite list_elem_of_omap. split.
  - intros ([k group] & [Hk ->]%elem_of_group_by & E). cbn [fst snd] in E. destruct (List.find _ names) as [n'|] eqn:Ef; [|done]. injection E as -> <-.
    apply find_elem in Ef as [Hn Ek%Nat.eqb_eq]. subst k. split; [done|]. split; [done|]. intros E.
    apply list_elem_of_fmap in Hk as (r & Er & Hr). assert (r ∈ rows_with lr_namespaceId (nr_id n) (List.filter (sample_in_window since) rows)) as Hin.
    { apply elem_of_filter_bool. split; [done|]. apply bool_decide_eq_true. congruence. }
    rewrite E in Hin. by apply elem_of_nil in Hin.
  - intros (Hn & -> & Hne). exists (nr_id n, runs_of_namespace rows since n). split.
    + apply elem_of_group_by. split; [|done]. unfold runs_of_namespace in Hne. destruct (rows_with _ _ _) as [|r rs] eqn:Er; [done|].
      assert (r ∈ rows_with lr_namespaceId (nr_id n) (List.filter (sample_in_window since) rows)) as [Hr <-%bool_decide_eq_true]%elem_of_filter_bool by (rewrite Er; left).
      by apply list_elem_of_fmap_2.
    + cbn [fst snd]. destruct (List.find _ names) as [n'|] eqn:Ef.
      * apply find_elem in Ef as [Hn' Ek%Nat.eqb_eq]. rewrite (NoDup_fmap_elem nr_id names n' n (so_ids _ _ Hok) Hn' Hn Ek). done.
      * eapply find_none_elem in Ef; [|exact Hn]. cbn in Ef. by rewrite Nat.eqb_refl in Ef.
Qed.
Lemma namespace_rows_ok rows names since n : samples_ok rows names ->
  Forall sample_ok (runs_of_namespace rows since n) /\
  ForallOrdPairs (disjoint_spans lr_namespaceId lr_capturedAt lr_lastSeenAt) (runs_of_namespace rows since n) /\
  (forall a b, a ∈ runs_of_namespace rows since n -> b ∈ runs_of_namespace rows since n -> lr_namespaceId a = lr_namespaceId b).
Proof.
  intros Hok. split_and!.
  - apply Forall_filter_bool, Forall_filter_bool, Hok.
  - apply ordpairs_filter, ordpairs_filter, Hok.
  - intros a b [_ Ha%bool_decide_eq_true]%elem_of_filter_bool [_ Hb%bool_decide_eq_true]%elem_of_filter_bool. congruence.
Qed.

(** ** Theorems *)

(** C14. The evidence of a collection is the evidence of its readings. For every
    collection with a reading in the window, the query credits the hours of
    activity [foldActivity] credits, capped by the same median although it is taken
    over one row per distinct interval, and measures the observation
    [foldObservation] measures; so both gates of the classify job answer as on the
    readings themselves. A collection without a reading has no entry. *)
Theorem latency_evidence_exact (rows : list LatencySampleRow) (names : list NamespaceRow) (since : Z) (n : NamespaceRow) :
  samples_ok rows names -> n ∈ names ->
  let mine := runs_of_namespace rows since n in
  match map_get (namespace_key n) (collectionEvidence rows names since) with
  | None => mine = []
  | Some e =>
      mine <> [] /\
      measurable (activity e) = measurable (foldActivity (point_of_row <$> mine)) /\
      (activeHoursFrom (activity e) == activeHours (point_of_row <$> mine))%Q /\
      observation e = foldObservation (reading_of_row <$> mine) Read /\
      forall days, observationCanFinishFrom (observation e) days = observationCanFinish (reading_of_row <$> mine) Read days
  end.
Proof.
  intros Hok Hn. cbn zeta. unfold collectionEvidence.
  rewrite (fold_left_ext_pairs (fun p => namespace_key p.1) (fun p => evidence_of (latency_row p.2))) by (by intros ? []).
  rewrite put_all_get.
  - destruct (List.find _ _) as [[n' mine]|] eqn:E.
    + apply find_elem in E as [Hin Ek%String.eqb_eq]. apply elem_of_latency_rows in Hin as (Hn' & -> & Hne); [|done]. cbn [fst snd] in *.
      rewrite (NoDup_fmap_elem namespace_key names n' n (so_keys _ _ Hok) Hn' Hn Ek) in *.
      destruct (namespace_rows_ok rows names since n Hok) as (H1 & H2 & H3). destruct (activity_exact _ H1 Hne) as [Em Ea].
      pose proof (observation_exact _ H1 Hne H2 H3) as Eo. split; [done|]. split; [done|]. split; [|split; [done|]].
      * unfold activeHours, activeHoursFrom. rewrite Em. destruct (measurable (foldActivity _)); [by rewrite Ea|done].
      * intros days. unfold observationCanFinish. by rewrite Eo.
    + destruct (runs_of_namespace rows since n) as [|r mine] eqn:Em; [done|]. exfalso.
      assert ((n, runs_of_namespace rows since n) ∈ latency_rows rows names since) as Hin by (apply elem_of_latency_rows; [done|]; rewrite Em; done).
      eapply find_none_elem in E; [|exact Hin]. cbn in E. by rewrite String.eqb_refl in E.
  - intros [n1 m1] [n2 m2] H1 H2 E. cbn [fst] in E. apply elem_of_latency_rows in H1 as (Hn1 & -> & _); [|done].
    apply elem_of_latency_rows in H2 as (Hn2 & -> & _); [|done]. by rewrite (NoDup_fmap_elem namespace_key names n1 n2 (so_keys _ _ Hok) Hn1 Hn2 E).
Qed.

(** *** The overview *)

Lemma averages_walk (ops micros : LatencySampleRow -> Z) (field : Averages -> option Q) (window : LatencyReading -> LatencyReading -> option Q) l :
  (forall o prev row, field (averages_of (o, Some prev, row)) = window (reading_of_row prev) (reading_of_row row)) ->
  forall o prev, omap field (averages_of <$> windowed o (Some prev) l) = windows_of window (reading_of_row <$> prev :: l).
Proof.
  intros Hf. induction l as [|row l IH]; intros o prev; [done|]. cbn [windowed]. rewrite !fmap_cons, omap_cons_list, Hf, IH, fmap_cons.
  cbn [windows_of]. by destruct (window _ _).
Qed.
Lemma read_average o prev row : av_read (averages_of (o, Some prev, row)) = read_window (reading_of_row prev) (reading_of_row row).
Proof.
  unfold read_window, windowAvg. cbn. destruct (Z.ltb_spec 0 (lr_readOps row - lr_readOps prev)), (Z.leb_spec (lr_readOps row - lr_readOps prev) 0); try lia; [|done].
  destruct (Z.leb_spec 0 (lr_readLatencyMicros row - lr_readLatencyMicros prev)), (Z.ltb_spec (lr_readLatencyMicros row - lr_readLatencyMicros prev) 0); try lia; done.
Qed.
Lemma write_average o prev row : av_write (averages_of (o, Some prev, row)) = write_window (reading_of_row prev) (reading_of_row row).
Proof.
  unfold write_window, windowAvg. cbn. destruct (Z.ltb_spec 0 (lr_writeOps row - lr_writeOps prev)), (Z.leb_spec (lr_writeOps row - lr_writeOps prev) 0); try lia; [|done].
  destruct (Z.leb_spec 0 (lr_writeLatencyMicros row - lr_writeLatencyMicros prev)), (Z.ltb_spec (lr_writeLatencyMicros row - lr_writeLatencyMicros prev) 0); try lia; done.
Qed.
Lemma averages_of_rows rows : exists l, l = stable_sort (by_key lr_capturedAt) rows /\
  omap av_read (averages rows) = windows_of read_window (reading_of_row <$> l) /\
  omap av_write (averages rows) = windows_of write_window (reading_of_row <$> l) /\ av_row <$> averages rows = l.
Proof.
  eexists. split; [done|]. unfold averages, over. set (l := stable_sort _ rows). split_and!.
  - destruct l as [|row l]; [done|]. cbn [windowed]. rewrite fmap_cons, omap_cons_list. cbn [app averages_of av_read mbind option_bind].
    apply (averages_walk lr_readOps lr_readLatencyMicros), read_average.
  - destruct l as [|row l]; [done|]. cbn [windowed]. rewrite fmap_cons, omap_cons_list. cbn [app averages_of av_write mbind option_bind].
    apply (averages_walk lr_writeOps lr_writeLatencyMicros), write_average.
  - rewrite <- list_fmap_compose. rewrite <- (windowed_rows l 1 None) at 2. apply list_fmap_ext. by intros i [[? ?] ?] _.
Qed.

Lemma summary_exact rows : rows <> [] ->
  trendFrom (ls_samples (latency_summary rows))
    {| baseline := ls_baselineRead (latency_summary rows); current := ls_currentRead (latency_summary rows) |}
    {| baseline := ls_baselineWrite (latency_summary rows); current := ls_currentWrite (latency_summary rows) |}
  = summarizeLatency (reading_of_row <$> rows).
Proof.
  intros Hne. destruct (averages_of_rows rows) as (l & El & Er & Ew & Erows). unfold summarizeLatency, latency_summary, trendFrom.
  rewrite sorted_readings, <- El. cbn [ls_samples ls_baselineRead ls_currentRead ls_baselineWrite ls_currentWrite baseline current].
  rewrite sum_or_zero, Er, Ew. rewrite !last_lookup, !Nat.sub_1_r, <- !head_lookup. f_equal.
  unfold totalObservations. rewrite <- Erows, <- list_fmap_compose, zsum_fmap. apply zsum_ext. intros s _. unfold compose. rewrite reading_observations. lia.
Qed.

Lemma gap_points l : Forall sample_ok l -> l <> [] ->
  Z.of_nat (length (points_walk (reading_of_row <$> l))) = Z.of_nat (length l) - 1 + count_where (fun r => lr_capturedAt r <? lr_lastSeenAt r) l.
Proof.
  induction l as [|row l IH]; intros Hl Hne; [done|]. apply Forall_cons in Hl as [Hr Hl]. rewrite fmap_cons. cbn [points_walk].
  rewrite reading_start, reading_end by done. unfold count_where in *. cbn [List.filter]. rewrite length_app.
  destruct l as [|next l]; [cbn; destruct (_ <? _); cbn; lia|]. specialize (IH Hl ltac:(done)). rewrite fmap_cons in *.
  destruct (lr_capturedAt row <? lr_lastSeenAt row); cbn [length] in *; lia.
Qed.
Lemma count_some {A B} (f : A -> option B) l : count_where (fun x => is_some (f x)) l = Z.of_nat (length (omap f l)).
Proof. unfold count_where. f_equal. induction l as [|x l IH]; [done|]. cbn. destruct (f x); cbn; by rewrite IH. Qed.

(** The overview reads less and shows the same. Of every collection with a reading
    in the window, the summary and the counts the charts are ranked by are those of
    its readings: the first and the last measurable window of each metric, the
    collects they stand for, and as many points as would be drawn, gaps included. *)
Theorem latency_overview_exact (rows : list LatencySampleRow) (names : list NamespaceRow) (since : Z) :
  samples_ok rows names ->
  (latencySummaries rows names since).*1 = (latency_rows rows names since).*1 /\
  (forall n s, (n, s) ∈ latencySummaries rows names since ->
     trendFrom (ls_samples s) {| baseline := ls_baselineRead s; current := ls_currentRead s |} {| baseline := ls_baselineWrite s; current := ls_currentWrite s |}
     = summarizeLatency (reading_of_row <$> runs_of_namespace rows since n)) /\
  latencyChartEvidence rows names since =
    (fun '(n, mine) => chartEvidence (nr_database n) (nr_collection n) (latencyPoints (reading_of_row <$> mine))) <$> latency_rows rows names since /\
  (forall n mine, (n, mine) ∈ latency_rows rows names since <-> n ∈ names /\ mine = runs_of_namespace rows since n /\ mine <> []).
Proof.
  intros Hok. split; [unfold latencySummaries; rewrite <- list_fmap_compose; apply list_fmap_ext; by intros i [n mine] _|].
  split; [|split; [|by intros; apply elem_of_latency_rows]].
  - intros n s ([n' mine] & [= -> ->] & Hin)%list_elem_of_fmap. apply elem_of_latency_rows in Hin as (_ & -> & Hne); [|done]. by apply summary_exact.
  - apply list_fmap_ext. intros i [n mine] Hin%list_elem_of_lookup_2. apply elem_of_latency_rows in Hin as (_ & -> & Hne); [|done].
    destruct (namespace_rows_ok rows names since n Hok) as (H1 & _ & _). destruct (averages_of_rows (runs_of_namespace rows since n)) as (l & El & Er & Ew & Erows).
    unfold chartEvidence, latencyPoints. rewrite sorted_readings, <- El. f_equal.
    + rewrite count_some, Er, <- (points_windows readMicros) by done. by rewrite <- count_some.
    + rewrite count_some, Ew, <- (points_windows writeMicros) by done. by rewrite <- count_some.
    + rewrite gap_points.
      * rewrite <- Erows, length_fmap. f_equal. unfold count_where. by rewrite filter_fmap_bool, length_fmap.
      * rewrite El. apply Forall_forall. intros r Hr%elem_of_stable_sort. rewrite Forall_forall in H1. auto.
      * rewrite El. intros E. apply Hne, Permutation_nil_r. rewrite <- E. symmetry. apply stable_sort_perm.
Qed.

(** ** A namespace read over a day *)

Definition sample_at (id : nat) (from to n reads : Z) : LatencySampleRow :=
  {| lr_id := id; lr_namespaceId := 7; lr_readOps := reads; lr_selfReadOps := 0; lr_readLatencyMicros := 10 * reads; lr_writeOps := 0; lr_writeLatencyMicros := 0;
     lr_capturedAt := from * 3600000; lr_lastSeenAt := to * 3600000; lr_observations := n; lr_maxGapMs := 0 |}.
Definition orders_rows : list LatencySampleRow := [sample_at 1 0 3 4 100; sample_at 2 4 4 1 150; sample_at 3 5 9 5 160; sample_at 4 10 12 3 120].
Definition orders_names : list NamespaceRow := [{| nr_id := 7; nr_database := "shop"; nr_collection := "orders" |}].
Lemma orders_ok : samples_ok orders_rows orders_names.
Proof.
  constructor.
  - repeat constructor; cbn; lia.
  - repeat lazymatch goal with |- ForallOrdPairs _ _ => constructor | |- Forall _ _ => constructor end; unfold disjoint_spans; cbn; lia.
  - repeat constructor; set_solver.
  - repeat constructor; set_solver.
  - intros row Hrow. unfold orders_rows in Hrow. rewrite !elem_of_cons, elem_of_nil in Hrow. destruct Hrow as [->|[->|[->|[->|[]]]]]; cbn; left.
Qed.
Lemma latency_evidence_exact_witness :
  match map_get (namespace_key {| nr_id := 7; nr_database := "shop"; nr_collection := "orders" |}) (collectionEvidence orders_rows orders_names 0) with
  | Some e => Qeq_bool (activeHoursFrom (activity e)) 2 = true /\ drawableMs (observation e) = 2 * 3600000 /\
      observation e = foldObservation (reading_of_row <$> orders_rows) Read
  | None => False
  end.
Proof.
  pose proof (latency_evidence_exact orders_rows orders_names 0 {| nr_id := 7; nr_database := "shop"; nr_collection := "orders" |} orders_ok ltac:(left)) as Hw.
  cbn zeta in Hw. destruct (map_get _ _) as [e|] eqn:E; [|by vm_compute in Hw].
  destruct Hw as (_ & _ & _ & Ho & _). split; [|split; [|exact Ho]]; vm_compute in E; injection E as <-; reflexivity.
Defined.
Lemma latency_overview_exact_witness :
  latencyChartEvidence orders_rows orders_names 0 =
    [chartEvidence "shop" "orders" (latencyPoints (reading_of_row <$> orders_rows))].
Proof.
  destruct (latency_overview_exact orders_rows orders_names 0 orders_ok) as (_ & _ & E & _). rewrite E. reflexivity.
Defined.
