(* ===== verification/Groups.v ===== *)
(** The loop that keeps one value per key in a [Map], merging a value into the one
    its key has: [const prev = map.get(key); map.set(key, prev === undefined ? next
    : merge(prev, next))].  It is a grouping: the keys in the order they came, each
    with its own values merged. *)
From S2P Require Import Prelude.

Lemma distinct_from_snoc seen l x :
  distinct_from seen (l ++ [x]) = distinct_from seen l ++ (if bool_decide (x ∈ seen ++ l) then [] else [x]).
Proof.
  revert seen. induction l as [|y l IH]; intros seen; cbn; [by rewrite app_nil_r; case_bool_decide|].
  case_bool_decide as Hy.
  - rewrite IH. f_equal. apply (f_equal (fun b : bool => if b then [] else [x])), bool_decide_ext. set_solver.
  - rewrite IH. cbn. do 2 f_equal. apply (f_equal (fun b : bool => if b then [] else [x])), bool_decide_ext. set_solver.
Qed.
Lemma distinct_snoc l x : distinct_strings (l ++ [x]) = distinct_strings l ++ (if bool_decide (x ∈ l) then [] else [x]).
Proof. apply distinct_from_snoc. Qed.

Section groups.
Context {X : Type} (key : X -> string) (merge : X -> X -> X).

Definition put_group (groups : list (string * X)) (next : X) : list (string * X) :=
  map_put (key next) (match map_get (key next) groups with None => next | Some prev => merge prev next end) groups.
Definition grouped (xs : list X) : list (string * X) := fold_left put_group xs [].

(** The reference: the values of one key, merged. *)
Definition group_of (k : string) (xs : list X) : list X := List.filter (fun x => String.eqb (key x) k) xs.
Definition merged (xs : list X) : option X := match xs with [] => None | x :: xs => Some (fold_left merge xs x) end.

Lemma merged_snoc xs x : merged (xs ++ [x]) = Some (match merged xs with None => x | Some prev => merge prev x end).
Proof. destruct xs as [|y xs]; [done|]. cbn. by rewrite fold_left_app. Qed.
Lemma group_of_app k xs ys : group_of k (xs ++ ys) = group_of k xs ++ group_of k ys.
Proof. apply List.filter_app. Qed.
Lemma grouped_snoc xs x : grouped (xs ++ [x]) = put_group (grouped xs) x.
Proof. unfold grouped. by rewrite fold_left_app. Qed.

Lemma grouped_get k xs : map_get k (grouped xs) = merged (group_of k xs).
Proof.
  induction xs as [|x xs IH] using rev_ind; [done|]. rewrite grouped_snoc. unfold put_group. rewrite map_get_put, group_of_app. cbn.
  destruct (String.eqb_spec (key x) k) as [E|]; [|by rewrite app_nil_r].
  rewrite merged_snoc. rewrite E, IH. done.
Qed.

Lemma grouped_keys xs : (grouped xs).*1 = distinct_strings (key <$> xs).
Proof.
  induction xs as [|x xs IH] using rev_ind; [done|]. rewrite grouped_snoc, fmap_app. unfold put_group. cbn [fmap list_fmap].
  rewrite map_put_keys, IH, distinct_snoc. f_equal.
  apply (f_equal (fun b : bool => if b then [] else [key x])), bool_decide_ext, elem_of_distinct_strings.
Qed.
(** A grouping, one entry per key. *)
Lemma grouped_exact xs :
  grouped xs = omap (fun k => (fun x => (k, x)) <$> merged (group_of k xs)) (distinct_strings (key <$> xs)).
Proof.
  rewrite <- grouped_keys. assert (NoDup (grouped xs).*1) as Hn by (rewrite grouped_keys; apply distinct_from_NoDup).
  assert (forall k x, (k, x) ∈ grouped xs -> merged (group_of k xs) = Some x) as Hg.
  { intros k x Hx. rewrite <- grouped_get. by apply map_get_elem. }
  clear Hn. revert Hg. generalize (grouped xs) as l. induction l as [|[k x] l IH]; intros Hg; [done|]. cbn [fmap list_fmap omap list_omap fst].
  rewrite (Hg k x) by left. cbn. f_equal. apply IH. intros k' x' Hx. apply Hg. by right.
Qed.
Lemma grouped_values k x xs : (k, x) ∈ grouped xs <-> merged (group_of k xs) = Some x.
Proof. rewrite <- grouped_get, map_get_elem; [done|]. rewrite grouped_keys. apply distinct_from_NoDup. Qed.
End groups.

(** What a merge adds up, over a group. *)
Lemma merged_zsum {X} (merge : X -> X -> X) (f : X -> Z) xs x :
  (forall a b, f (merge a b) = f a + f b) -> merged merge xs = Some x -> f x = zsum f xs.
Proof.
  intros Hf. destruct xs as [|y xs]; [done|]. cbn. intros [= <-]. rewrite zsum_cons. revert y.
  induction xs as [|z xs IH]; intros y; cbn [fold_left]; [cbv [zsum]; cbn; lia|]. rewrite IH, Hf, zsum_cons. lia.
Qed.
Lemma merged_existsb {X} (merge : X -> X -> X) (f : X -> bool) xs x :
  (forall a b, f (merge a b) = f a || f b) -> merged merge xs = Some x -> f x = existsb f xs.
Proof.
  intros Hf. destruct xs as [|y xs]; [done|]. cbn. intros [= <-]. revert y.
  induction xs as [|z xs IH]; intros y; cbn [fold_left existsb]; [by rewrite orb_false_r|]. by rewrite IH, Hf, orb_assoc.
Qed.
Lemma merged_head {X A} (merge : X -> X -> X) (f : X -> A) xs x :
  (forall a b, f (merge a b) = f a) -> merged merge xs = Some x -> exists y, head xs = Some y /\ f x = f y.
Proof.
  intros Hf. destruct xs as [|y xs]; [done|]. cbn. intros [= <-]. exists y. split; [done|]. revert y.
  induction xs as [|z xs IH]; intros y; [done|]. cbn [fold_left]. by rewrite IH, Hf.
Qed.

(** Groups of one kind are the groups of the values of that kind. *)
Section kinds.
Context {X : Type} (key : X -> string) (merge : X -> X -> X) (kind : X -> bool).
Hypothesis merge_kind : forall a b, kind (merge a b) = kind a.

Let of_kind_ (e : string * X) : bool := kind (snd e).
Lemma filter_put k v (m : list (string * X)) :
  (forall old, (k, old) ∈ m -> kind old = kind v) ->
  List.filter of_kind_ (map_put k v m) = if kind v then map_put k v (List.filter of_kind_ m) else List.filter of_kind_ m.
Proof.
  subst of_kind_. induction m as [|[k' v'] m IH]; intros H; cbn; [by destruct (kind v)|].
  destruct (String.eqb_spec k' k) as [->|Hne]; cbn.
  - rewrite (H v') by left. destruct (kind v); cbn; [|done]. by rewrite String.eqb_refl.
  - rewrite IH by (intros; apply H; by right). destruct (kind v'), (kind v); cbn; try done.
    destruct (String.eqb_spec k' k); [done|]. done.
Qed.
Lemma get_of_kind k (m : list (string * X)) :
  NoDup m.*1 -> (forall old, map_get k m = Some old -> kind old = true) -> map_get k (List.filter of_kind_ m) = map_get k m.
Proof.
  intros Hn H. destruct (map_get k m) as [v|] eqn:E.
  - apply map_get_elem; [by apply NoDup_fmap_filter|]. apply elem_of_filter_bool. split; [by apply map_get_elem|]. by apply H.
  - apply map_get_none. intros ([k' v] & -> & Hin)%list_elem_of_fmap. apply elem_of_filter_bool in Hin as [Hin _].
    apply map_get_elem in Hin; [|done]. cbn in E. congruence.
Qed.
Lemma merged_kind xs x : merged merge xs = Some x -> exists y, y ∈ xs /\ kind x = kind y.
Proof.
  intros H. destruct (merged_head merge kind xs x merge_kind H) as (y & Hy & E). exists y. split; [|done].
  by apply head_Some_elem_of.
Qed.
Lemma grouped_of_kind xs :
  (forall x y, x ∈ xs -> y ∈ xs -> key x = key y -> kind x = kind y) ->
  List.filter of_kind_ (grouped key merge xs) = grouped key merge (List.filter kind xs).
Proof.
  induction xs as [|x xs IH] using rev_ind; intros H; [done|]. rewrite grouped_snoc, List.filter_app. cbn [List.filter].
  assert (Hold : forall old, map_get (key x) (grouped key merge xs) = Some old -> kind old = kind x).
  { intros old E. rewrite grouped_get in E. apply merged_kind in E as (y & Hy & ->). apply elem_of_filter_bool in Hy as [Hy Ek].
    apply String.eqb_eq in Ek. apply H; [apply elem_of_app; by left|apply elem_of_app; right; left|done]. }
  assert (Hn : NoDup (grouped key merge xs).*1) by (rewrite grouped_keys; apply distinct_from_NoDup).
  unfold put_group. set (v := match map_get (key x) (grouped key merge xs) with None => x | Some prev => merge prev x end).
  assert (Hv : kind v = kind x).
  { subst v. destruct (map_get (key x) (grouped key merge xs)) as [prev|]; [|done]. rewrite merge_kind. by apply Hold. }
  rewrite filter_put by (intros old Hin; rewrite Hv; apply Hold; by apply map_get_elem). rewrite Hv, IH by (intros a b Ha Hb; apply H; apply elem_of_app; by left).
  destruct (kind x) eqn:Ex; [|by rewrite app_nil_r]. rewrite grouped_snoc. unfold put_group. f_equal.
  subst v. rewrite <- IH by (intros a b Ha Hb; apply H; apply elem_of_app; by left). rewrite get_of_kind; [done|done|]. intros old E. by rewrite Hold.
Qed.
End kinds.

(** [map.set(key, next)]: the last value of a key is kept. *)
Section last_wins.
Context {X : Type} (key : X -> string).
Definition latest_of (xs : list X) : list X := (grouped key (fun _ next => next) xs).*2.
Lemma merged_last (xs : list X) : merged (fun _ next => next) xs = last xs.
Proof.
  induction xs as [|x xs IH] using rev_ind; [done|]. rewrite merged_snoc, last_snoc. by destruct (merged _ xs).
Qed.
Lemma latest_of_exact xs : latest_of xs = omap (fun k => last (group_of key k xs)) (distinct_strings (key <$> xs)).
Proof.
  unfold latest_of. rewrite grouped_exact. induction (distinct_strings (key <$> xs)) as [|k ks IH]; [done|]. cbn. rewrite merged_last.
  destruct (last (group_of key k xs)); [|done]. cbn. f_equal. exact IH.
Qed.
Lemma latest_keys xs : key <$> latest_of xs = distinct_strings (key <$> xs).
Proof.
  rewrite latest_of_exact. assert (Forall (fun k => exists x, last (group_of key k xs) = Some x /\ key x = k) (distinct_strings (key <$> xs))) as H.
  { apply Forall_forall. intros k (x & -> & Hx)%elem_of_distinct_strings%list_elem_of_fmap.
    assert (x ∈ group_of key (key x) xs) as Hg by (apply elem_of_filter_bool; by rewrite String.eqb_refl).
    destruct (last (group_of key (key x) xs)) as [y|] eqn:E; [|apply last_None in E; rewrite E in Hg; by apply elem_of_nil in Hg].
    exists y. split; [done|]. apply last_Some_elem_of, elem_of_filter_bool in E as [_ E]. by apply String.eqb_eq in E. }
  induction H as [|k ks (x & E & Ek) _ IH]; [done|]. cbn. rewrite E. cbn. by rewrite Ek, IH.
Qed.
Lemma latest_of_in xs x : x ∈ latest_of xs <-> last (group_of key (key x) xs) = Some x.
Proof.
  rewrite latest_of_exact, list_elem_of_omap. split.
  - intros (k & _ & E). assert (key x = k) as ->; [|done]. apply last_Some_elem_of, elem_of_filter_bool in E as [_ E]. by apply String.eqb_eq in E.
  - intros E. exists (key x). split; [|done]. apply elem_of_distinct_strings, list_elem_of_fmap. exists x. split; [done|].
    by apply last_Some_elem_of, elem_of_filter_bool in E as [E _].
Qed.
Lemma latest_of_nodup xs : NoDup (latest_of xs).
Proof. eapply NoDup_fmap_1 with (f := key). rewrite latest_keys. apply distinct_from_NoDup. Qed.
(** A value whose key comes again later is not there. *)
Lemma latest_of_superseded xs ys :
  (forall x, x ∈ xs -> exists y, y ∈ ys /\ key y = key x) -> Permutation (latest_of (xs ++ ys)) (latest_of ys).
Proof.
  intros H. apply NoDup_Permutation; [apply latest_of_nodup..|]. intros x. rewrite !latest_of_in, group_of_app, last_app.
  destruct (last (group_of key (key x) ys)) as [y|] eqn:E; [done|]. split; [|done]. intros Ex. exfalso.
  apply last_Some_elem_of, elem_of_filter_bool in Ex as [Ex _]. destruct (H x Ex) as (y & Hy & Ey).
  apply last_None in E. assert (y ∈ group_of key (key x) ys) as Hg by (apply elem_of_filter_bool; by rewrite Ey, String.eqb_refl).
  rewrite E in Hg. by apply elem_of_nil in Hg.
Qed.
End last_wins.

(** The loop that pushes each value into the list of its key. *)
Section buckets.
Context {X : Type} (key : X -> string).

Definition push_bucket (buckets : list (string * list X)) (x : X) : list (string * list X) :=
  map_put (key x) ((map_get (key x) buckets ?? []) ++ [x]) buckets.
Definition bucketed (xs : list X) : list (string * list X) := fold_left push_bucket xs [].

Lemma map_put_of_keys {V} k (v : V) (f : string -> V) ks : NoDup ks ->
  map_put k v ((fun k => (k, f k)) <$> ks) =
  ((fun k' => (k', if String.eqb k' k then v else f k')) <$> ks) ++ (if bool_decide (k ∈ ks) then [] else [(k, v)]).
Proof.
  induction ks as [|x ks IH]; intros Hn; [done|]. apply NoDup_cons in Hn as [Hx Hn]. cbn [fmap list_fmap map_put]. destruct (String.eqb_spec x k) as [->|Hne].
  - rewrite bool_decide_eq_true_2 by left. rewrite app_nil_r. f_equal. apply list_fmap_ext. intros i y Hy%list_elem_of_lookup_2.
    destruct (String.eqb_spec y k) as [->|]; done.
  - cbn [app]. f_equal. fold ((fun k => (k, f k)) <$> ks). rewrite IH by done. f_equal. apply (f_equal (fun b : bool => if b then [] else [(k, v)])).
    apply bool_decide_ext. rewrite elem_of_cons. naive_solver.
Qed.
(** A grouping: the keys in the order they came, each with its values in order. *)
Lemma bucketed_exact xs : bucketed xs = (fun k => (k, group_of key k xs)) <$> distinct_strings (key <$> xs).
Proof.
  induction xs as [|x xs IH] using rev_ind; [done|]. unfold bucketed in *. rewrite fold_left_app. cbn [fold_left]. rewrite IH. unfold push_bucket.
  assert (NoDup (distinct_strings (key <$> xs))) as Hn by apply distinct_from_NoDup.
  assert (NoDup ((fun k => (k, group_of key k xs)) <$> distinct_strings (key <$> xs)).*1) as Hn1 by (by rewrite <- list_fmap_compose, list_fmap_id).
  assert (map_get (key x) ((fun k => (k, group_of key k xs)) <$> distinct_strings (key <$> xs)) ?? [] = group_of key (key x) xs) as ->.
  { destruct (decide (key x ∈ distinct_strings (key <$> xs))) as [Hin|Hout].
    - rewrite (proj2 (map_get_elem (key x) (group_of key (key x) xs) _ Hn1)); [done|].
      by apply list_elem_of_fmap_2' with (key x).
    - rewrite map_get_none; [|by rewrite <- list_fmap_compose, list_fmap_id].
      cbn. symmetry. apply filter_nothing. intros y Hy. apply String.eqb_neq. intros E. apply Hout. apply elem_of_distinct_strings. rewrite <- E.
      by apply list_elem_of_fmap_2. }
  rewrite map_put_of_keys by done. rewrite fmap_app. cbn [fmap list_fmap]. rewrite distinct_snoc, fmap_app. f_equal.
  - apply list_fmap_ext. intros i k Hk. f_equal. rewrite group_of_app. cbn. destruct (String.eqb_spec k (key x)) as [->|Hne].
    + by rewrite String.eqb_refl.
    + destruct (String.eqb_spec (key x) k); [congruence|]. by rewrite app_nil_r.
  - rewrite (bool_decide_ext (key x ∈ distinct_strings (key <$> xs)) (key x ∈ key <$> xs)) by apply elem_of_distinct_strings.
    case_bool_decide as Hin; [done|]. cbn [fmap list_fmap]. do 2 f_equal.
    assert (group_of key (key x) xs = []) as E.
    { apply filter_nothing. intros y Hy. apply String.eqb_neq. intros E. apply Hin. rewrite <- E. by apply list_elem_of_fmap_2. }
    rewrite group_of_app, E. cbn. by rewrite String.eqb_refl.
Qed.
Lemma bucketed_get k xs : map_get k (bucketed xs) = if bool_decide (k ∈ key <$> xs) then Some (group_of key k xs) else None.
Proof.
  rewrite bucketed_exact. case_bool_decide as Hin.
  - apply map_get_elem; [rewrite <- list_fmap_compose, list_fmap_id; apply distinct_from_NoDup|]. apply list_elem_of_fmap_2' with k; [|done].
    by apply elem_of_distinct_strings.
  - apply map_get_none. rewrite <- list_fmap_compose, list_fmap_id, elem_of_distinct_strings. done.
Qed.
End buckets.
