(* ===== verification/MongoShapes.v ===== *)
(** How a MongoDB workload becomes query shapes: the first half of
    [apps/api/src/mongo/collector.ts], from a filter's fields to
    [collectSlowQueries], [collectQueryStats] and [collectWorkload], with the
    delete patterns and the hinted indexes.

    A value of the driver is a [bson].  The instances of a class (an ObjectId, a
    binary, a regular expression) are one value, [BOther]: the code asks of them
    only whether they are objects, and none has a member whose name begins with a
    dollar.  Numbers are exact, so NaN is left out.  A document the schemas
    (zod) refuse is [None]; what they accept is a record of what is read. *)
From S2P Require Import Prelude Relational EngineTypes Recurrence Purge Cooldowns Keys Groups RunTable Suggest Snapshots.

(** ** Values *)

Inductive bson :=
  | BNull | BBool (b : bool) | BNum (q : Q) | BStr (s : string) | BDate (ms : Z) | BOther
  | BArr (l : list bson) | BDoc (es : list (string * bson)).
Abbreviation document := (list (string * bson)).

Definition isRecord (value : bson) : bool :=
  match value with BDate _ | BOther | BDoc _ => true | _ => false end.
(** [Object.entries] of a record, and a member of it. *)
Definition entries_of (value : bson) : document := match value with BDoc es => es | _ => [] end.
Definition member_of (key : string) (value : bson) : option bson := map_get key (entries_of value).
Definition starts_with_dollar (s : string) : bool := String.prefix "$" s.

(** ** Predicates *)

Definition sortKeysOf (sortSpec : document) : list SortKey :=
  (fun '(field, value) =>
     {| sk_field := field; sk_direction := match value with BNum q => if Qeq_bool q (-1) then Neg else Pos | _ => Pos end |}) <$> sortSpec.
Definition sortIsServable (hasSortStage : bool) (sort : list SortKey) : bool := hasSortStage && (0 <? length sort)%nat.

Fixpoint keepFirst (seen fields : list string) : list string * list string :=
  match fields with
  | [] => (seen, [])
  | field :: fields =>
      if includes seen field then keepFirst seen fields
      else let '(seen, kept) := keepFirst (field :: seen) fields in (seen, field :: kept)
  end.
Definition dedupePredicates (equality range : list string) : list string * list string :=
  let '(seen, equality) := keepFirst [] equality in
  let '(_, range) := keepFirst seen range in
  (equality, range).

Definition RANGE_OPS : list string :=
  ["$gt"; "$gte"; "$lt"; "$lte"; "$ne"; "$nin"; "$in"; "$exists"; "$regex"]%string.
Definition isRangePredicate (value : bson) : bool :=
  isRecord value && existsb (fun '(key, _) => includes RANGE_OPS key) (entries_of value).

(** The fields pushed on the two lists, [$and] flattened. *)
Fixpoint collectPredicates (filter : bson) (found : list string * list string) {struct filter} : list string * list string :=
  match filter with
  | BDoc es =>
      fold_left (fun found entry =>
        let '(equality, range) := found in
        let field := fst entry in
        match snd entry with
        | BArr clauses =>
            if String.eqb field "$and"
            then fold_left (fun found clause => if isRecord clause then collectPredicates clause found else found) clauses found
            else if starts_with_dollar field then found else (equality ++ [field], range)
        | value =>
            if starts_with_dollar field then found
            else if isRangePredicate value then (equality, range ++ [field])
            else (equality ++ [field], range)
        end) es found
  | _ => found
  end.

(** ** Constants *)

(** [text.length]: UTF-16 units of a text in UTF-8. *)
Fixpoint utf16_length (s : string) : nat :=
  match s with
  | EmptyString => 0
  | String c s =>
      let n := Ascii.nat_of_ascii c in
      ((if (n <? 128)%nat then 1 else if (n <? 192)%nat then 0 else if (n <? 240)%nat then 1 else 2) + utf16_length s)%nat
  end.
Definition MAX_CONSTANT_LENGTH : nat := 64.
Definition hex_letter (c : Ascii.ascii) : bool :=
  let n := Ascii.nat_of_ascii (lower_ascii c) in
  ((48 <=? n)%nat && (n <=? 57)%nat) || ((97 <=? n)%nat && (n <=? 102)%nat).
Fixpoint all_hex (s : string) : bool := match s with EmptyString => true | String c s => hex_letter c && all_hex s end.
(** The text against one hexadecimal run per length, joined by dashes. *)
Fixpoint dashed_hex (runs : list nat) (s : string) : bool :=
  match runs with
  | [] => false
  | [n] => (String.length s =? n)%nat && all_hex s
  | n :: runs =>
      let head := String.substring 0 n s in
      (n <? String.length s)%nat && all_hex head && String.eqb (String.substring n 1 s) "-"
      && dashed_hex runs (String.substring (S n) (String.length s - S n) s)
  end.
Definition IDENTIFIER_SHAPED (s : string) : bool := dashed_hex [24%nat] s || dashed_hex [8; 4; 4; 4; 12]%nat s.

Definition isConstant (value : bson) : option ConstantValue :=
  match value with
  | BNum q => Some (CNum q)
  | BBool b => Some (CBool b)
  | BStr s => if (utf16_length s <=? MAX_CONSTANT_LENGTH)%nat && negb (IDENTIFIER_SHAPED s) then Some (CStr s) else None
  | _ => None
  end.
(** The constant a predicate compares with: itself, or that of a lone [$eq]. *)
Definition equality_constant (value : bson) : option ConstantValue :=
  match isConstant value with
  | Some c => Some c
  | None => if isRecord value && (length (entries_of value) =? 1)%nat then member_of "$eq" value ≫= isConstant else None
  end.
Definition assign {V} (target source : list (string * V)) : list (string * V) :=
  fold_left (fun target '(key, value) => map_put key value target) source target.
Fixpoint equalityConstants (filter : bson) : list (string * ConstantValue) :=
  match filter with
  | BDoc es =>
      fold_left (fun constants entry =>
        let field := fst entry in
        let plain value :=
          if starts_with_dollar field then constants
          else match equality_constant value with Some c => map_put field c constants | None => constants end in
        match snd entry with
        | BArr clauses =>
            if String.eqb field "$and"
            then fold_left (fun constants clause => if isRecord clause then assign constants (equalityConstants clause) else constants)
                   clauses constants
            else constants
        | value => plain value
        end) es []
  | _ => []
  end.

(** [===] of two literals. *)
Definition same_constant (a b : ConstantValue) : bool :=
  match a, b with
  | CStr s, CStr t => String.eqb s t
  | CNum q, CNum r => Qeq_bool q r
  | CBool b, CBool c => Bool.eqb b c
  | _, _ => false
  end.
Definition intersectConstants (previous next : list (string * ConstantValue)) : list (string * ConstantValue) :=
  List.filter (fun '(field, value) => match map_get field next with Some v => same_constant v value | None => false end) previous.

(** ** Pipelines *)

Definition record_member (key : string) (doc : document) : option bson :=
  match map_get key doc with Some v => if isRecord v then Some v else None | None => None end.
Definition string_member (key : string) (value : bson) : option string :=
  match member_of key value with Some (BStr s) => Some s | _ => None end.

Record PipelineShape := { ps_equality : list string; ps_sort : list SortKey; ps_range : list string }.
(** The stages an index can serve: they end at the first that is neither a
    [$match] nor a [$sort]. *)
Fixpoint leading_stages (pipeline : list document) (found : list string * list string) (sort : list SortKey)
    : (list string * list string) * list SortKey :=
  match pipeline with
  | [] => (found, sort)
  | stage :: rest =>
      match record_member "$match" stage, record_member "$sort" stage with
      | Some match_, _ => leading_stages rest (collectPredicates match_ found) sort
      | None, Some sortStage => leading_stages rest found (sort ++ sortKeysOf (entries_of sortStage))
      | None, None => (found, sort)
      end
  end.
Definition nothing_found {A B C} (equality : list A) (range : list B) (sort : list C) : bool :=
  (length equality =? 0)%nat && (length range =? 0)%nat && (length sort =? 0)%nat.
Definition pipelineShape (pipeline : list document) : option PipelineShape :=
  let '((equality, range), sort) := leading_stages pipeline ([], []) [] in
  let '(equality, range) := dedupePredicates equality range in
  if nothing_found equality range sort then None
  else Some {| ps_equality := equality; ps_sort := sort; ps_range := range |}.

Definition same_join (a b : LookupJoin) : bool := String.eqb (from a) (from b) && String.eqb (foreignField a) (foreignField b).
Definition lookup_stage (joins : list LookupJoin) (stage : document) : list LookupJoin :=
  match record_member "$lookup" stage with
  | None => joins
  | Some lookup =>
      match string_member "from" lookup, string_member "foreignField" lookup with
      | Some from, Some foreignField =>
          let join := {| from := from; foreignField := foreignField |} in
          if existsb (fun seen => same_join seen join) joins then joins else joins ++ [join]
      | _, _ => joins
      end
  end.
Definition lookupJoins (pipeline : list document) : list LookupJoin := fold_left lookup_stage pipeline [].

(** ** The shape of a command *)

Record CommandShape := {
  cm_equality : list string;
  cm_range : list string;
  cm_sort : list SortKey;
  cm_lookups : list LookupJoin;
}.
Definition direction_text (d : SortDirection) : string := match d with Pos => "1" | Neg => "-1" end.
Definition shapeMapKey (s : CommandShape) : string :=
  join "," (cm_equality s) +:+ "|" +:+
  join "," ((fun key => sk_field key +:+ ":" +:+ direction_text (sk_direction key)) <$> cm_sort s) +:+ "|" +:+
  join "," (cm_range s) +:+ "|" +:+
  join "," ((fun j => from j +:+ "." +:+ foreignField j) <$> cm_lookups s).

(** [None] where the loop goes on to the next entry. *)
Definition command_shape (filter sort : option document) (pipeline : option (list document)) : option CommandShape :=
  let shape :=
    match filter, pipeline with
    | Some filter, _ =>
        let '(equality, range) := collectPredicates (BDoc filter) ([], []) in
        let '(equality, range) := dedupePredicates equality range in
        Some {| cm_equality := equality; cm_range := range; cm_sort := (sortKeysOf <$> sort) ?? []; cm_lookups := [] |}
    | None, Some pipeline =>
        let lookups := lookupJoins pipeline in
        match pipelineShape pipeline with
        | Some shape => Some {| cm_equality := ps_equality shape; cm_range := ps_range shape; cm_sort := ps_sort shape; cm_lookups := lookups |}
        | None =>
            if (length lookups =? 0)%nat then None
            else Some {| cm_equality := []; cm_range := []; cm_sort := []; cm_lookups := lookups |}
        end
    | None, None => None
    end in
  match shape with
  | Some s => if nothing_found (cm_equality s) (cm_range s) (cm_sort s) && (length (cm_lookups s) =? 0)%nat then None else Some s
  | None => None
  end.

Definition HOUR_MS : Z := 3600000.
Definition observedFor (seen until : option Z) (now : Z) : option Q :=
  match seen with
  | None => None
  | Some seen =>
      let hours := (inject_Z (until ?? now - seen) / inject_Z HOUR_MS)%Q in
      if Qltb 0 hours then Some hours else None
  end.
Definition or_absent {A} (l : list A) : option (list A) := if (0 <? length l)%nat then Some l else None.

(** ** The profiler *)

Inductive Hint := HintName (name : string) | HintPattern (pattern : document).
Record ProfileCommand := {
  pc_filter : option document;
  pc_sort : option document;
  pc_pipeline : option (list document);
  pc_q : option document;
  pc_hint : option Hint;
}.
Record ProfileDoc := {
  pd_ts : option Z;
  planSummary : option string;
  pd_docsExamined : option Z;
  pd_hasSortStage : option bool;
  appName : option string;
  pd_command : option ProfileCommand;
}.

Record SlowShape := {
  sl_shape : CommandShape;
  sl_collscan : bool;
  sl_sortedInMemory : bool;
  sl_docsExamined : Z;
  sl_clients : list QueryClient;
  sl_count : Z;
  sl_constants : list (string * ConstantValue);
}.
Definition profiled_client (entry : ProfileDoc) : QueryClient := {| application := appName entry; driver := None |}.
Definition is_interactive (client : QueryClient) : bool := bool_decide (classifyClient client = Interactive).
Definition profiled_shape (entry : ProfileDoc) : option CommandShape :=
  match pd_command entry with
  | Some command => command_shape (pc_filter command) (pc_sort command) (pc_pipeline command)
  | None => None
  end.
Definition profiled_constants (entry : ProfileDoc) : list (string * ConstantValue) :=
  match pd_command entry ≫= pc_filter with Some filter => equalityConstants (BDoc filter) | None => [] end.
(** One entry on its own. *)
Definition slow_entry (entry : ProfileDoc) (shape : CommandShape) : SlowShape :=
  let client := profiled_client entry in
  {| sl_shape := shape;
     sl_collscan := text_includes (planSummary entry ?? "") "COLLSCAN";
     sl_sortedInMemory := sortIsServable (bool_decide (pd_hasSortStage entry = Some true)) (cm_sort shape);
     sl_docsExamined := if is_interactive client then 0 else pd_docsExamined entry ?? 0;
     sl_clients := [client];
     sl_count := if is_interactive client then 0 else 1;
     sl_constants := profiled_constants entry |}.
Definition same_text (a b : option string) : bool := bool_decide (a = b).
Definition merge_slow (prev next : SlowShape) : SlowShape :=
  {| sl_shape := sl_shape prev;
     sl_collscan := sl_collscan prev || sl_collscan next;
     sl_sortedInMemory := sl_sortedInMemory prev || sl_sortedInMemory next;
     sl_docsExamined := sl_docsExamined prev + sl_docsExamined next;
     sl_clients := fold_left (fun clients client =>
       if existsb (fun seen => same_text (application seen) (application client)) clients then clients else clients ++ [client])
       (sl_clients next) (sl_clients prev);
     sl_count := sl_count prev + sl_count next;
     sl_constants := intersectConstants (sl_constants prev) (sl_constants next) |}.
Definition slow_key (shape : SlowShape) : string := shapeMapKey (sl_shape shape).
Definition put_slow : list (string * SlowShape) -> SlowShape -> list (string * SlowShape) := put_group slow_key merge_slow.
Definition earlier (seen at_ : option Z) : option Z :=
  match seen, at_ with
  | _, None => seen
  | None, Some _ => at_
  | Some old, Some new => if new <? old then at_ else seen
  end.
Definition slow_query (window : option Q) (shape : SlowShape) : QueryShape :=
  {| equality := cm_equality (sl_shape shape); sort := cm_sort (sl_shape shape); range := cm_range (sl_shape shape);
     collscan := sl_collscan shape; sortedInMemory := Some (sl_sortedInMemory shape); count := sl_count shape;
     docsExamined := Some (sl_docsExamined shape); observedForHours := window; clients := Some (sl_clients shape);
     constants := or_absent (sl_constants shape); lookups := or_absent (cm_lookups (sl_shape shape)) |}.
(** [array().parse]: one document refused is the reading refused. *)
Definition parse_all {A} (docs : list (option A)) : read_error + list A :=
  if forallb is_some docs then inr (omap id docs) else inl (ReadError "a document does not parse").
Definition collectSlowQueries (profile : read_error + list (option ProfileDoc)) (now : Z) : read_error + list QueryShape :=
  let! raw := profile in
  let! entries := parse_all raw in
  let '(oldest, shapes) := fold_left (fun '(oldest, shapes) entry =>
    (earlier oldest (pd_ts entry),
     match profiled_shape entry with Some shape => put_slow shapes (slow_entry entry shape) | None => shapes end))
    entries (None, []) in
  inr (slow_query (observedFor oldest None now) <$> shapes.*2).

(** ** The store of query statistics *)

Record QueryExec := { qe_keysExamined : option Z; qe_docsExamined : option Z }.
Record QueryStatsMetrics := {
  execCount : Z;
  firstSeenTimestamp : option Z;
  qm_keysExamined : option Z;
  qm_docsExamined : option Z;
  qm_hasSortStage : option (option Z);
  queryExec : option QueryExec;
  queryPlanner : option (option (option Z));
}.
Record PlanMetrics := { pm_keysExamined : option Z; pm_docsExamined : option Z; pm_hasSortStage : option (option Z) }.
(** [a ?? b] of two that may be absent. *)
Definition or_else {A} (a b : option A) : option A := match a with Some _ => a | None => b end.
Definition planMetricsOf (metrics : QueryStatsMetrics) : PlanMetrics :=
  {| pm_keysExamined := or_else (qm_keysExamined metrics) (queryExec metrics ≫= qe_keysExamined);
     pm_docsExamined := or_else (qm_docsExamined metrics) (queryExec metrics ≫= qe_docsExamined);
     pm_hasSortStage := or_else (qm_hasSortStage metrics) (queryPlanner metrics ≫= id) |}.
Record QueryStatsDoc := {
  qd_application : option string;
  qd_driver : option string;
  qd_db : string;
  qd_coll : string;
  qd_filter : option document;
  qd_sort : option document;
  qd_pipeline : option (list document);
  qd_asOf : option Z;
  qd_metrics : QueryStatsMetrics;
}.

Record StatShape := {
  st_namespace : string;
  st_docsExamined : Z;
  st_clients : list QueryClient;
  st_shape : CommandShape;
  st_collscan : bool;
  st_sortedInMemory : bool;
  st_count : Z;
  st_firstSeen : option Z;
}.
Definition stat_namespace (entry : QueryStatsDoc) : string := workloadKey (qd_db entry) (qd_coll entry).
Definition stat_entry (entry : QueryStatsDoc) (shape : CommandShape) : StatShape :=
  let plan := planMetricsOf (qd_metrics entry) in
  let docsExamined := pm_docsExamined plan ?? 0 in
  let client := {| application := qd_application entry; driver := qd_driver entry |} in
  {| st_namespace := stat_namespace entry;
     st_docsExamined := if is_interactive client then 0 else docsExamined;
     st_clients := [client];
     st_shape := shape;
     st_collscan := (pm_keysExamined plan ?? 0 =? 0) && (0 <? docsExamined);
     st_sortedInMemory := sortIsServable (0 <? (pm_hasSortStage plan ≫= id) ?? 0) (cm_sort shape);
     st_count := if is_interactive client then 0 else execCount (qd_metrics entry);
     st_firstSeen := firstSeenTimestamp (qd_metrics entry) |}.
Definition merge_stat (prev next : StatShape) : StatShape :=
  {| st_namespace := st_namespace prev;
     st_docsExamined := st_docsExamined prev + st_docsExamined next;
     st_clients := st_clients prev ++ st_clients next;
     st_shape := st_shape prev;
     st_collscan := st_collscan prev || st_collscan next;
     st_sortedInMemory := st_sortedInMemory prev || st_sortedInMemory next;
     st_count := st_count prev + st_count next;
     st_firstSeen := earlier (st_firstSeen prev) (st_firstSeen next) |}.
Definition stat_key (shape : StatShape) : string := st_namespace shape +:+ nul_char +:+ shapeMapKey (st_shape shape).
Definition put_stat : list (string * StatShape) -> StatShape -> list (string * StatShape) := put_group stat_key merge_stat.
Definition stat_query (asOf : option Z) (now : Z) (shape : StatShape) : QueryShape :=
  {| equality := cm_equality (st_shape shape); sort := cm_sort (st_shape shape); range := cm_range (st_shape shape);
     collscan := st_collscan shape; sortedInMemory := Some (st_sortedInMemory shape); count := st_count shape;
     docsExamined := Some (st_docsExamined shape); observedForHours := observedFor (st_firstSeen shape) asOf now;
     clients := Some (st_clients shape); constants := None; lookups := or_absent (cm_lookups (st_shape shape)) |}.
Definition push_shape (byNamespace : list (string * list QueryShape)) (namespace : string) (shape : QueryShape) :=
  map_put namespace (map_get namespace byNamespace ?? [] ++ [shape]) byNamespace.
Definition stat_of (wanted : list string) (entry : QueryStatsDoc) : option StatShape :=
  if includes wanted (stat_namespace entry)
  then stat_entry entry <$> command_shape (qd_filter entry) (qd_sort entry) (qd_pipeline entry)
  else None.
Definition WorkloadTarget : Type := string * string.
Definition target_key (target : WorkloadTarget) : string := workloadKey (fst target) (snd target).
Definition collectQueryStats (store : read_error + list (option QueryStatsDoc)) (now : Z) (targets : list WorkloadTarget)
    : read_error + list (string * list QueryShape) :=
  match targets with
  | [] => inr []
  | _ =>
      let! raw := store in
      let wanted := target_key <$> targets in
      let entries := omap id raw in
      if negb (existsb (fun entry => is_some (pm_keysExamined (planMetricsOf (qd_metrics entry)))) entries) then inr []
      else
        let asOf := List.find (fun entry => is_some (qd_asOf entry)) entries ≫= qd_asOf in
        let shapes := fold_left put_stat (omap (stat_of wanted) entries) [] in
        inr (fold_left (fun byNamespace shape => push_shape byNamespace (st_namespace shape) (stat_query asOf now shape)) shapes.*2 [])
  end.

(** ** The workload *)

Fixpoint collect_each {A B} (read : A -> read_error + B) (xs : list A) : read_error + list B :=
  match xs with
  | [] => inr []
  | x :: xs => let! b := read x in let! bs := collect_each read xs in inr (b :: bs)
  end.
Definition collectWorkload (store : read_error + list (option QueryStatsDoc))
    (profile : string -> string -> read_error + list (option ProfileDoc)) (now : Z) (targets : list WorkloadTarget)
    : read_error + list (string * list QueryShape) :=
  let fromStats := match collectQueryStats store now targets with inr found => found | inl _ => [] end in
  let! answers := collect_each (fun target =>
    let shapes := map_get (target_key target) fromStats ?? [] in
    let! shapes :=
      if (0 <? length shapes)%nat then inr shapes else collectSlowQueries (profile (fst target) (snd target)) now in
    inr (target_key target, shapes)) targets in
  inr (assign [] answers).

(** ** Deletes and hints *)

(** Not null either. *)
Definition present (value : option bson) : option bson := match value with Some BNull => None | _ => value end.
Definition dateRangeCutoff (q : document) : option (string * Z) :=
  match List.filter (fun '(field, _) => negb (starts_with_dollar field)) q with
  | [(field, predicate)] =>
      if isRecord predicate then
        match or_else (present (member_of "$lt" predicate)) (member_of "$lte" predicate) with
        | Some (BDate cutoff) => Some (field, cutoff)
        | _ => None
        end
      else None
  | _ => None
  end.
Definition median (values : list Q) : Q :=
  let sorted := stable_sort Qle_bool values in
  let mid := Nat.div2 (length sorted) in
  let at_ := sorted !! mid ?? 0%Q in
  let before := match mid with O => at_ | S m => sorted !! m ?? at_ end in
  if Nat.even (length sorted) then ((before + at_) / 2)%Q else at_.
Definition delete_sample (entry : ProfileDoc) : option (string * Q) :=
  match pd_command entry ≫= pc_q, pd_ts entry with
  | Some q, Some ts =>
      match dateRangeCutoff q with
      | Some (field, cutoff) =>
          let retentionSeconds := (inject_Z (ts - cutoff) / 1000)%Q in
          if Qle_bool retentionSeconds 0 then None else Some (field, retentionSeconds)
      | None => None
      end
  | _, _ => None
  end.
Definition push_sample (samples : list (string * list Q)) (sample : string * Q) : list (string * list Q) :=
  let '(field, retention) := sample in map_put field (map_get field samples ?? [] ++ [retention]) samples.
Definition collectDeletePatterns (removes : read_error + list (option ProfileDoc)) : read_error + list PurgePattern :=
  let! raw := removes in
  let samples := fold_left push_sample (omap delete_sample (omap id raw)) [] in
  inr ((fun '(field, retentions) =>
    {| pp_field := field; pp_count := Z.of_nat (length retentions);
       medianRetentionSeconds := Some (Math_round (median retentions)) |}) <$> samples).

(** The hints of every member's ring that could be read. *)
Definition hint_of (entry : ProfileDoc) : option Hint := pd_command entry ≫= pc_hint.
Definition hint_name (hint : Hint) : option string :=
  match hint with HintName name => Some name | HintPattern pattern => string_member "$hint" (BDoc pattern) end.
Definition hint_pattern (hint : Hint) : option document :=
  match hint with
  | HintPattern pattern => if is_some (hint_name hint) then None else Some pattern
  | HintName _ => None
  end.
Definition pattern_names (pattern : document) (spec : IndexSpec) : bool :=
  let fields := pattern.*1 in
  let keys := field <$> keys spec in
  (length keys =? length fields)%nat && every_i (fun i f => bool_decide (fields !! i = Some f)) keys.
Definition collectHintedIndexes (rings : list (read_error + list (option ProfileDoc))) (listIndexes : read_error + list IndexSpec)
    : list string :=
  let raw := mjoin ((fun ring => match ring with inr docs => docs | inl _ => [] end) <$> rings) in
  let hints := omap hint_of (omap id raw) in
  let named := distinct_strings (omap hint_name hints) in
  let patterns := omap hint_pattern hints in
  match patterns with
  | [] => named
  | _ =>
      let specs := match listIndexes with inr specs => specs | inl _ => [] end in
      distinct_strings (named ++ mjoin ((fun pattern => name <$> List.filter (pattern_names pattern) specs) <$> patterns))
  end.

(** ** What a filter says *)

Lemma bson_ind' (P : bson -> Prop) :
  P BNull -> (forall b, P (BBool b)) -> (forall q, P (BNum q)) -> (forall s, P (BStr s)) -> (forall d, P (BDate d)) -> P BOther ->
  (forall l, Forall P l -> P (BArr l)) -> (forall es, Forall (fun e => P (snd e)) es -> P (BDoc es)) -> forall v, P v.
Proof.
  intros Hn Hb Hq Hs Hd Hx Ha Ho. fix IH 1. intros [|b|q|s|d| |l|es]; [exact Hn|apply Hb|apply Hq|apply Hs|apply Hd|exact Hx| |].
  - apply Ha. induction l as [|x l IHl]; constructor; [apply IH|exact IHl].
  - apply Ho. induction es as [|[k v] es IHl]; constructor; [apply IH|exact IHl].
Qed.

(** A filter binds a field to a predicate, by itself or in a clause of a
    conjunction, however deep. *)
Inductive binds : bson -> string -> bson -> Prop :=
| binds_field es field value : (field, value) ∈ es -> starts_with_dollar field = false -> binds (BDoc es) field value
| binds_clause es clauses clause field value :
    ("$and", BArr clauses) ∈ es -> clause ∈ clauses -> binds clause field value -> binds (BDoc es) field value.

Lemma binds_nil field value : ~ binds (BDoc []) field value.
Proof. inversion 1; subst; by apply elem_of_nil in H2 || apply elem_of_nil in H1. Qed.
Lemma binds_cons e es field value :
  binds (BDoc (e :: es)) field value <->
  (e = (field, value) /\ starts_with_dollar field = false)
  \/ (exists clauses clause, e = ("$and", BArr clauses) /\ clause ∈ clauses /\ binds clause field value)
  \/ binds (BDoc es) field value.
Proof.
  split.
  - inversion 1 as [es' f v Hin Hd|es' cs c f v Hin Hc Hb]; subst.
    + apply elem_of_cons in Hin as [<-|Hin]; [by left|]. right; right. by constructor.
    + apply elem_of_cons in Hin as [<-|Hin]; [right; left; by exists cs, c|]. right; right. by econstructor.
  - intros [[-> Hd]|[(cs & c & -> & Hc & Hb)|Hb]].
    + constructor; [left|done].
    + econstructor; [left|done|done].
    + inversion Hb; subst; [constructor; [by right|done]|econstructor; [by right|done|done]].
Qed.

Section predicates.
Let says (b : bool) (filter : bson) (f : string) : Prop := exists v, binds filter f v /\ isRangePredicate v = b.
Let found_by (filter : bson) (found found' : list string * list string) : Prop :=
  forall f, (f ∈ fst found' <-> f ∈ fst found \/ says false filter f) /\ (f ∈ snd found' <-> f ∈ snd found \/ says true filter f).

Let clauses_found clauses found :
  Forall (fun c => forall found, found_by c found (collectPredicates c found)) clauses ->
  forall f,
    let found' := fold_left (fun found clause => if isRecord clause then collectPredicates clause found else found) clauses found in
    (f ∈ fst found' <-> f ∈ fst found \/ exists c, c ∈ clauses /\ says false c f)
    /\ (f ∈ snd found' <-> f ∈ snd found \/ exists c, c ∈ clauses /\ says true c f).
Proof.
  intros Hc. revert found. induction Hc as [|c clauses Hc _ IH]; intros found f; cbn [fold_left].
  - split; (split; [by left|]); intros [?|(c & []%elem_of_nil & _)]; done.
  - setoid_rewrite elem_of_cons.
    assert (found_by c found (if isRecord c then collectPredicates c found else found)) as H.
    { destruct (isRecord c) eqn:E; [apply Hc|]. intros g. unfold says.
      split; (split; [by left|]); intros [?|(v & Hb & _)]; try done; by inversion Hb; subst. }
    destruct (IH (if isRecord c then collectPredicates c found else found) f) as [-> ->]. destruct (H f) as [-> ->].
    split; naive_solver.
Qed.

Lemma collectPredicates_spec filter found : found_by filter found (collectPredicates filter found).
Proof.
  revert found. cut ((forall found, found_by filter found (collectPredicates filter found)) /\
    match filter with BArr l => Forall (fun c => forall found, found_by c found (collectPredicates c found)) l | _ => True end); [by intros []|].
  assert (Hempty : forall v found, (forall f w, ~ binds v f w) -> found_by v found found).
  { intros v found Hv f. unfold says. split; (split; [by left|]); intros [?|(w & Hb & _)]; try done; by apply Hv in Hb. }
  induction filter as [|b|q|s|d| |l IH|es IH] using bson_ind';
    try (split; [intros found; apply Hempty; intros f w Hb; by inversion Hb|]; try done); [|split; [|done]].
  { eapply Forall_impl; [done|]. by intros c []. }
  cbn [collectPredicates]. induction IH as [|[field value] es [_ Hv] _ IH]; intros found; cbn [fold_left fst snd].
  { apply Hempty. intros f w. apply binds_nil. }
  destruct found as [equality range]. cbn [snd] in Hv.
  match goal with |- found_by _ _ (fold_left _ _ ?x) => set (next := x) end.
  set (step b f := exists v, isRangePredicate v = b /\ ((field, value) = (f, v) /\ starts_with_dollar f = false \/
    exists clauses clause, (field, value) = ("$and"%string, BArr clauses) /\ clause ∈ clauses /\ binds clause f v)).
  assert (Hstep : forall f, (f ∈ fst next <-> f ∈ equality \/ step false f) /\ (f ∈ snd next <-> f ∈ range \/ step true f)).
  { intros f. assert ((exists clauses, (field, value) = ("$and"%string, BArr clauses)) \/
      ~ exists clauses, (field, value) = ("$and"%string, BArr clauses)) as [[clauses [= -> ->]]|Hno].
    { destruct (String.eqb_spec field "$and") as [->|Hne]; [|right; by intros (cs & [= -> _])].
      destruct value; try (right; by intros (cs & [= ?])). left. by eexists. }
    - subst next. destruct (clauses_found clauses (equality, range) Hv f) as [Ee Er]. cbn [String.eqb fst snd] in *.
      assert (Hs : forall b, step b f <-> exists c, c ∈ clauses /\ says b c f).
      { intros b. split.
        - intros (v & Hr & [[[= <- <-] Hd]|(cs & c & [= <-] & Hc & Hb)]); [done|]. exists c. split; [done|]. by exists v.
        - intros (c & Hc & v & Hb & Hr). exists v. split; [done|]. right. by exists clauses, c. }
      rewrite !Hs. by split.
    - assert (Hs : forall b, step b f <-> field = f /\ starts_with_dollar field = false /\ isRangePredicate value = b).
      { intros b. split; [|intros (<- & Hd & Hr); exists value; eauto].
        intros (v & Hr & [[[= -> ->] Hd]|(cs & c & E & _)]); [done|]. exfalso. apply Hno. by exists cs. }
      rewrite !Hs. assert (next = if starts_with_dollar field then (equality, range)
            else if isRangePredicate value then (equality, range ++ [field]) else (equality ++ [field], range)) as ->.
      { subst next. destruct value; try done. destruct (String.eqb_spec field "$and") as [->|]; [|by destruct (starts_with_dollar field)].
        exfalso. apply Hno. eauto. }
      destruct (starts_with_dollar field) eqn:Ed; [|destruct (isRangePredicate value) eqn:Er]; cbn [fst snd];
        rewrite ?elem_of_app, ?list_elem_of_singleton; split; intuition congruence. }
  intros f. destruct (IH next f) as [-> ->]. destruct (Hstep f) as [-> ->]. unfold says. setoid_rewrite binds_cons.
  split; split.
  all: try (intros [[?|(v & Hr & [[E Hd]|Hc])]|(v & Hb & Hr)]; eauto 10).
  all: intros [?|(v & [[E Hd]|[Hc|Hb]] & Hr)]; eauto 10; left; right; exists v; eauto.
Qed.
End predicates.

Lemma keepFirst_spec seen fields :
  NoDup (snd (keepFirst seen fields))
  /\ (forall f, f ∈ snd (keepFirst seen fields) <-> f ∈ fields /\ f ∉ seen)
  /\ (forall f, f ∈ fst (keepFirst seen fields) <-> f ∈ fields \/ f ∈ seen).
Proof.
  revert seen. induction fields as [|x fields IH]; intros seen; cbn; [split_and!; [constructor|set_solver..]|].
  destruct (includes seen x) eqn:E; [apply includes_spec in E|apply not_true_iff_false in E; rewrite includes_spec in E].
  - destruct (IH seen) as (Hn & Hk & Hs). split_and!; [done| |].
    + intros f. rewrite Hk. set_solver.
    + intros f. rewrite Hs. set_solver.
  - destruct (IH (x :: seen)) as (Hn & Hk & Hs). destruct (keepFirst (x :: seen) fields) as [seen' kept]. cbn in *. split_and!.
    + constructor; [|done]. rewrite Hk. set_solver.
    + intros f. rewrite elem_of_cons, Hk. destruct (decide (f = x)) as [->|]; set_solver.
    + intros f. rewrite Hs. set_solver.
Qed.
Lemma dedupePredicates_spec equality range :
  let '(equality', range') := dedupePredicates equality range in
  NoDup (equality' ++ range')
  /\ (forall f, f ∈ equality' <-> f ∈ equality) /\ (forall f, f ∈ range' <-> f ∈ range /\ f ∉ equality).
Proof.
  unfold dedupePredicates. destruct (keepFirst_spec [] equality) as (Hn & Hk & Hs). destruct (keepFirst [] equality) as [seen e].
  destruct (keepFirst_spec seen range) as (Hn' & Hk' & _). destruct (keepFirst seen range) as [seen' r]. cbn in *. split_and!.
  - apply NoDup_app. split_and!; [done| |done]. intros f Hf. rewrite Hk', Hs. rewrite Hk in Hf. set_solver.
  - intros f. rewrite Hk. set_solver.
  - intros f. rewrite Hk', Hs. set_solver.
Qed.

(** The fields of a filter, each once: an equality where some clause compares the
    field with a value, a range where every clause does with an operator, and
    nothing else; what only an [$or] mentions is no field of it. *)
Theorem predicates_exact (filter : document) :
  let '(equality, range) := collectPredicates (BDoc filter) ([], []) in
  let '(equality, range) := dedupePredicates equality range in
  NoDup (equality ++ range)
  /\ (forall f, f ∈ equality <-> exists v, binds (BDoc filter) f v /\ isRangePredicate v = false)
  /\ (forall f, f ∈ range <-> (exists v, binds (BDoc filter) f v) /\ forall v, binds (BDoc filter) f v -> isRangePredicate v = true).
Proof.
  pose proof (collectPredicates_spec (BDoc filter) ([], [])) as H. destruct (collectPredicates _ _) as [e r]. cbn [fst snd] in H.
  pose proof (dedupePredicates_spec e r) as D. destruct (dedupePredicates e r) as [e' r']. destruct D as (Hn & He & Hr).
  assert (Hnil : forall f : string, f ∈ [] <-> False) by (intros f; by rewrite elem_of_nil).
  split_and!; [done| |].
  - intros f. rewrite He. destruct (H f) as [-> _]. rewrite Hnil. tauto.
  - intros f. rewrite Hr. destruct (H f) as [-> ->]. rewrite Hnil. split.
    + intros [[[]|(v & Hb & Hv)] Hno]. split; [by exists v|]. intros w Hw. apply not_false_iff_true. intros Ew. apply Hno. right. by exists w.
    + intros [(v & Hb) Hall]. split; [right; exists v; auto|]. intros [[]|(w & Hw & Ew)]. rewrite Hall in Ew; done.
Qed.

(** ** Literals *)

Lemma assign_get {V} k (v : V) target source :
  map_get k (assign target source) = Some v -> map_get k target = Some v \/ (k, v) ∈ source.
Proof.
  revert target. induction source as [|[k' v'] source IH]; intros target; cbn; [by left|]. intros [Ht|Hs]%IH.
  - rewrite map_get_put in Ht. destruct (String.eqb_spec k' k) as [->|]; [|by left]. injection Ht as ->. right. left.
  - right. by right.
Qed.
Lemma map_get_in {V} k (v : V) m : map_get k m = Some v -> (k, v) ∈ m.
Proof.
  unfold map_get. intros H. apply fmap_Some in H as ([k' v'] & Hf & ->). apply find_some in Hf as [Hin Hk].
  apply String.eqb_eq in Hk as ->. by apply list_elem_of_In.
Qed.
Lemma nodup_get {V} k (v : V) m : NoDup m.*1 -> (k, v) ∈ m -> map_get k m = Some v.
Proof. intros Hn Hin. by apply map_get_elem. Qed.
Lemma assign_nodup {V} (target source : list (string * V)) : NoDup target.*1 -> NoDup (assign target source).*1.
Proof. revert target. induction source as [|[k v] source IH]; intros target Hn; [done|]. by apply IH, map_put_nodup. Qed.

Section literals.
Let bound_in (filter : bson) (constants : list (string * ConstantValue)) : Prop :=
  NoDup constants.*1 /\ forall f c, map_get f constants = Some c -> exists v, binds filter f v /\ equality_constant v = Some c.

Let bound_put filter constants f v c :
  bound_in filter constants -> binds filter f v -> equality_constant v = Some c -> bound_in filter (map_put f c constants).
Proof.
  intros [Hn Hb] Hv Hc. split; [by apply map_put_nodup|]. intros g d. rewrite map_get_put.
  destruct (String.eqb_spec f g) as [<-|]; [|apply Hb]. intros [= <-]. by exists v.
Qed.
Let bound_clauses filter clauses constants :
  Forall (fun c => bound_in c (equalityConstants c)) clauses ->
  (forall c f v, c ∈ clauses -> binds c f v -> binds filter f v) -> bound_in filter constants ->
  bound_in filter (fold_left (fun constants clause => if isRecord clause then assign constants (equalityConstants clause) else constants) clauses constants).
Proof.
  intros Hc. revert constants. induction Hc as [|c clauses [Hn Hc] _ IH]; intros constants Hb Hk; [done|]. cbn [fold_left].
  apply IH; [intros; eapply Hb; [by right|done]|]. destruct (isRecord c); [|done]. destruct Hk as [Hkn Hk].
  split; [by apply assign_nodup|]. intros f d [Hd|Hd]%assign_get; [by apply Hk|].
  apply nodup_get, Hc in Hd as (v & Hv & Ed); [|done]. exists v. split; [eapply Hb; [left|done]|done].
Qed.

Lemma equalityConstants_spec filter : bound_in filter (equalityConstants filter).
Proof.
  cut (bound_in filter (equalityConstants filter) /\ match filter with BArr l => Forall (fun c => bound_in c (equalityConstants c)) l | _ => True end); [by intros []|].
  assert (Hempty : forall v, bound_in v []) by (intros v; split; [constructor|done]).
  induction filter as [|b|q|s|d| |l IH|es IH] using bson_ind'; try (split; [apply Hempty|done]).
  { split; [apply Hempty|]. eapply Forall_impl; [done|]. by intros c []. }
  split; [|done]. cbn [equalityConstants].
  assert (Hin : forall e, e ∈ es -> e ∈ es) by done. revert Hin. generalize es at 2 3 as all. intros all.
  generalize (Hempty (BDoc all)). generalize (@nil (string * ConstantValue)).
  induction IH as [|[field value] es [_ Hv] _ IHes]; intros constants Hk Hin; [done|]. cbn [fold_left fst snd].
  apply IHes; [|intros; apply Hin; by right]. specialize (Hin (field, value) ltac:(left)). cbn [snd] in Hv.
  assert (Hplain : bound_in (BDoc all) (if starts_with_dollar field then constants
    else match equality_constant value with Some c => map_put field c constants | None => constants end)).
  { destruct (starts_with_dollar field) eqn:Ed; [done|]. destruct (equality_constant value) as [c|] eqn:Ec; [|done].
    eapply bound_put; [done| |done]. by constructor. }
  destruct value; try done. destruct (String.eqb_spec field "$and") as [->|]; [|done].
  apply bound_clauses; [done| |done]. intros c f v Hc Hb. by econstructor.
Qed.
End literals.

(** What a text must be to be kept as a constant; a number or a boolean is kept as it is. *)
Definition text_guarded (c : ConstantValue) : Prop :=
  match c with CStr s => (utf16_length s <= MAX_CONSTANT_LENGTH)%nat /\ IDENTIFIER_SHAPED s = false | _ => True end.
Lemma isConstant_guarded v c : isConstant v = Some c -> text_guarded c.
Proof.
  destruct v; cbn; try done; [by intros [= <-]..|]. destruct (_ <=? _)%nat eqn:E; [|done]. destruct (IDENTIFIER_SHAPED s) eqn:Ei; [done|].
  intros [= <-]. cbn. split; [by apply Nat.leb_le|done].
Qed.
Lemma equality_constant_guarded v c : equality_constant v = Some c -> text_guarded c.
Proof.
  unfold equality_constant. destruct (isConstant v) eqn:E; [intros [= <-]; by eapply isConstant_guarded|].
  destruct (_ && _); [|done]. destruct (member_of "$eq" v) as [w|]; [|done]. cbn. apply isConstant_guarded.
Qed.

(** ** What the profiler's shapes add up *)

Lemma same_constant_refl c : same_constant c c = true.
Proof. destruct c; cbn; [apply String.eqb_refl|by apply Qeq_bool_iff|apply Bool.eqb_reflx]. Qed.
Lemma same_constant_trans a b c : same_constant a b = true -> same_constant b c = true -> same_constant a c = true.
Proof.
  destruct a, b, c; cbn; try done.
  - rewrite !String.eqb_eq. congruence.
  - rewrite !Qeq_bool_iff. apply Qeq_trans.
  - rewrite !Bool.eqb_true_iff. congruence.
Qed.
(** A field has this literal in a sample. *)
Definition has_literal (f : string) (c : ConstantValue) (constants : list (string * ConstantValue)) : Prop :=
  exists c', map_get f constants = Some c' /\ same_constant c' c = true.
Lemma intersect_in f c previous next :
  (f, c) ∈ intersectConstants previous next <-> (f, c) ∈ previous /\ has_literal f c next.
Proof.
  unfold intersectConstants, has_literal. rewrite elem_of_filter_bool. destruct (map_get f next); [|naive_solver].
  split; [intros [? ?]; eauto|]. by intros [? (c' & [= <-] & ?)].
Qed.
Lemma merged_constants xs x f c :
  merged merge_slow xs = Some x ->
  ((f, c) ∈ sl_constants x <-> exists y ys, xs = y :: ys /\ (f, c) ∈ sl_constants y /\ Forall (fun z => has_literal f c (sl_constants z)) ys).
Proof.
  destruct xs as [|y ys]; [done|]. cbn. intros [= <-].
  assert ((f, c) ∈ sl_constants (fold_left merge_slow ys y) <-> (f, c) ∈ sl_constants y /\ Forall (fun z => has_literal f c (sl_constants z)) ys) as ->.
  { revert y. induction ys as [|z ys IH]; intros y; cbn [fold_left]; [rewrite Forall_nil; tauto|].
    rewrite IH, Forall_cons. cbn [merge_slow sl_constants]. rewrite intersect_in. tauto. }
  naive_solver.
Qed.

(** The entries of one shape. *)
Definition of_shape (key : string) (entries : list ProfileDoc) : list ProfileDoc :=
  List.filter (fun entry => match profiled_shape entry with Some shape => String.eqb (shapeMapKey shape) key | None => false end) entries.
Definition slow_samples (entries : list ProfileDoc) : list SlowShape :=
  omap (fun entry => slow_entry entry <$> profiled_shape entry) entries.
Definition shape_keys (entries : list ProfileDoc) : list string := distinct_strings (shapeMapKey <$> omap profiled_shape entries).

Lemma slow_keys entries : slow_key <$> slow_samples entries = shapeMapKey <$> omap profiled_shape entries.
Proof.
  induction entries as [|e entries IH]; [done|]. cbn. destruct (profiled_shape e) as [s|]; [|done]. cbn. by rewrite <- IH.
Qed.
Lemma slow_group key entries : group_of slow_key key (slow_samples entries) = slow_samples (of_shape key entries).
Proof.
  induction entries as [|e entries IH]; [done|]. cbn. destruct (profiled_shape e) as [s|] eqn:E; [|done]. cbn [group_of List.filter fmap option_fmap option_map].
  unfold slow_key at 1. cbn [slow_entry sl_shape]. destruct (String.eqb (shapeMapKey s) key); [|done]. cbn. rewrite E. cbn. f_equal. apply IH.
Qed.
Lemma slow_samples_cons e s entries : profiled_shape e = Some s -> slow_samples (e :: entries) = slow_entry e s :: slow_samples entries.
Proof. intros E. unfold slow_samples. cbn. by rewrite E. Qed.
Lemma slow_zsum f g entries : (forall e s, profiled_shape e = Some s -> f (slow_entry e s) = g e) ->
  Forall (fun e => is_some (profiled_shape e) = true) entries -> zsum f (slow_samples entries) = zsum g entries.
Proof.
  intros Hf. induction 1 as [|e entries He _ IH]; [done|]. destruct (profiled_shape e) as [s|] eqn:E; [|done].
  rewrite (slow_samples_cons e s), !zsum_cons, IH by done. by rewrite (Hf e s).
Qed.
Lemma slow_existsb f g entries : (forall e s, profiled_shape e = Some s -> f (slow_entry e s) = g e) ->
  Forall (fun e => is_some (profiled_shape e) = true) entries -> existsb f (slow_samples entries) = existsb g entries.
Proof.
  intros Hf. induction 1 as [|e entries He _ IH]; [done|]. destruct (profiled_shape e) as [s|] eqn:E; [|done].
  rewrite (slow_samples_cons e s) by done. cbn [existsb]. by rewrite IH, (Hf e s).
Qed.
Lemma of_shape_shaped key entries : Forall (fun e => is_some (profiled_shape e) = true) (of_shape key entries).
Proof. apply List.Forall_forall. intros e He. apply filter_In in He as [_ He]. by destruct (profiled_shape e). Qed.
Lemma slow_fold entries oldest shapes :
  fold_left (fun '(oldest, shapes) entry =>
    (earlier oldest (pd_ts entry), match profiled_shape entry with Some shape => put_slow shapes (slow_entry entry shape) | None => shapes end))
    entries (oldest, shapes) =
  (fold_left earlier (pd_ts <$> entries) oldest, fold_left put_slow (slow_samples entries) shapes).
Proof.
  revert oldest shapes. induction entries as [|e entries IH]; intros oldest shapes; [done|]. cbn. rewrite IH.
  by destruct (profiled_shape e).
Qed.
Lemma parse_all_some {A} (xs : list A) : parse_all (Some <$> xs) = inr xs.
Proof.
  unfold parse_all. assert (forallb is_some (Some <$> xs) = true) as -> by (induction xs; done). f_equal. induction xs as [|x xs IH]; [done|].
  cbn. f_equal. apply IH.
Qed.

Definition program_runs (entries : list ProfileDoc) : list ProfileDoc :=
  List.filter (fun entry => negb (is_interactive (profiled_client entry))) entries.
Definition sorted_in_memory (entry : ProfileDoc) : bool :=
  bool_decide (pd_hasSortStage entry = Some true) && match profiled_shape entry with Some s => (0 <? length (cm_sort s))%nat | None => false end.
(** A shape tells the executions it was seen in. *)
Definition tells_executions (group : list ProfileDoc) (q : QueryShape) : Prop :=
  (exists first shape, head group = Some first /\ profiled_shape first = Some shape
     /\ equality q = cm_equality shape /\ range q = cm_range shape /\ sort q = cm_sort shape /\ lookups q = or_absent (cm_lookups shape)
     /\ forall f c, (f, c) ∈ constants q ?? [] <->
          (f, c) ∈ profiled_constants first /\ Forall (fun entry => has_literal f c (profiled_constants entry)) group)
  /\ count q = Z.of_nat (length (program_runs group))
  /\ docsExamined q = Some (zsum (fun entry => pd_docsExamined entry ?? 0) (program_runs group))
  /\ collscan q = existsb (fun entry => text_includes (planSummary entry ?? "") "COLLSCAN") group
  /\ sortedInMemory q = Some (existsb sorted_in_memory group).

Lemma zsum_counted (f : ProfileDoc -> Z) entries :
  zsum (fun entry => if is_interactive (profiled_client entry) then 0 else f entry) entries = zsum f (program_runs entries).
Proof.
  induction entries as [|e entries IH]; [done|]. rewrite zsum_cons, IH. unfold program_runs. cbn [List.filter]. destruct (is_interactive _); cbn [negb]; [lia|].
  by rewrite zsum_cons.
Qed.
Lemma or_absent_default {A} (l : list A) : or_absent l ?? [] = l.
Proof. by destruct l. Qed.

Lemma slow_query_tells window entries key s :
  merged merge_slow (group_of slow_key key (slow_samples entries)) = Some s ->
  tells_executions (of_shape key entries) (slow_query window s).
Proof.
  intros Hm. pose proof (of_shape_shaped key entries) as Hsh. rewrite slow_group in Hm. split_and!.
  - destruct (of_shape key entries) as [|e group] eqn:Eg; [done|]. apply Forall_cons in Hsh as [He Hg].
    destruct (profiled_shape e) as [shape|] eqn:Es; [|done]. rewrite (slow_samples_cons e shape) in Hm by done.
    destruct (merged_head merge_slow sl_shape _ _ (fun _ _ => eq_refl) Hm) as (y & [= <-] & Esh). exists e, shape. cbn [slow_entry sl_shape] in Esh.
    cbn [slow_query equality range sort lookups constants]. rewrite Esh. split_and!; [done..|]. intros f c. rewrite or_absent_default.
    rewrite (merged_constants _ _ f c Hm). rewrite Forall_cons. split.
    + intros (y & ys & [= <- <-] & Hc & Hl). cbn in Hc. split; [done|]. split.
      { exists c. split; [|apply same_constant_refl]. apply nodup_get; [|done]. unfold profiled_constants.
        destruct (pd_command e ≫= pc_filter); [apply equalityConstants_spec|constructor]. }
      clear -Hl Hg. induction Hg as [|x group Hx _ IH]; [done|]. destruct (profiled_shape x) as [sx|] eqn:Ex; [|done].
      rewrite (slow_samples_cons x sx) in Hl by done. apply Forall_cons in Hl as [Hl1 Hl]. constructor; [done|by apply IH].
    + intros (Hc & _ & Hl). eexists _, _. split; [done|]. split; [done|].
      clear -Hl Hg. induction Hg as [|x group Hx _ IH]; [constructor|]. destruct (profiled_shape x) as [sx|] eqn:Ex; [|done].
      apply Forall_cons in Hl as [Hl1 Hl]. rewrite (slow_samples_cons x sx) by done. constructor; [done|by apply IH].
  - cbn. rewrite (merged_zsum merge_slow sl_count _ _ (fun _ _ => eq_refl) Hm).
    rewrite (slow_zsum _ (fun e => if is_interactive (profiled_client e) then 0 else 1)) by done. by rewrite zsum_counted, zsum_one.
  - cbn. f_equal. rewrite (merged_zsum merge_slow sl_docsExamined _ _ (fun _ _ => eq_refl) Hm).
    rewrite (slow_zsum _ (fun e => if is_interactive (profiled_client e) then 0 else pd_docsExamined e ?? 0)) by done. apply zsum_counted.
  - cbn. rewrite (merged_existsb merge_slow sl_collscan _ _ (fun _ _ => eq_refl) Hm). by apply slow_existsb.
  - cbn. f_equal. rewrite (merged_existsb merge_slow sl_sortedInMemory _ _ (fun _ _ => eq_refl) Hm). apply slow_existsb; [|done].
    intros e sh E. unfold sorted_in_memory. by rewrite E.
Qed.

Lemma collectSlowQueries_grouped entries now :
  collectSlowQueries (inr (Some <$> entries)) now =
  inr (slow_query (observedFor (fold_left earlier (pd_ts <$> entries) None) None now) <$> (grouped slow_key merge_slow (slow_samples entries)).*2).
Proof. unfold collectSlowQueries. cbn [and_then]. rewrite parse_all_some. cbn [and_then]. by rewrite slow_fold. Qed.

(** The shapes of the profiler are its entries counted: one shape for each kind of
    query the ring holds, in the order they came, which counts the executions of
    programs and what they examined, says a scan or a blocking sort where any
    execution had one, and names a literal only where every execution compared the
    field with it; all over the window from the ring's oldest entry. *)
Theorem slow_queries_account (entries : list ProfileDoc) (now : Z) :
  exists shapes, collectSlowQueries (inr (Some <$> entries)) now = inr shapes
  /\ Forall2 (fun key q => tells_executions (of_shape key entries) q
       /\ observedForHours q = observedFor (fold_left earlier (pd_ts <$> entries) None) None now) (shape_keys entries) shapes.
Proof.
  eexists. split; [apply collectSlowQueries_grouped|]. unfold shape_keys. rewrite <- slow_keys, <- grouped_keys with (merge := merge_slow).
  rewrite <- list_fmap_compose. apply Forall2_fmap, Forall_Forall2_diag, Forall_forall. intros [key s] Hin.
  split; [|done]. apply slow_query_tells. by apply grouped_values.
Qed.

(** ** One read of the store for every collection *)

Lemma push_shapes_get {A} (namespace : A -> string) (query : A -> QueryShape) ns shapes byNamespace :
  map_get ns (fold_left (fun byNamespace shape => push_shape byNamespace (namespace shape) (query shape)) shapes byNamespace) ?? [] =
  map_get ns byNamespace ?? [] ++ (query <$> List.filter (fun shape => String.eqb (namespace shape) ns) shapes).
Proof.
  revert byNamespace. induction shapes as [|s shapes IH]; intros byNamespace; cbn [fold_left List.filter]; [by rewrite app_nil_r|].
  rewrite IH. unfold push_shape. rewrite map_get_put. destruct (String.eqb_spec (namespace s) ns) as [->|]; [|done].
  cbn. by rewrite <- app_assoc.
Qed.
Lemma push_shapes_some {A} (namespace : A -> string) (query : A -> QueryShape) ns shapes byNamespace :
  (forall l, map_get ns byNamespace = Some l -> l <> []) ->
  forall l, map_get ns (fold_left (fun byNamespace shape => push_shape byNamespace (namespace shape) (query shape)) shapes byNamespace) = Some l -> l <> [].
Proof.
  revert byNamespace. induction shapes as [|s shapes IH]; intros byNamespace H; [done|]. cbn [fold_left]. apply IH. intros l.
  unfold push_shape. rewrite map_get_put. destruct (String.eqb (namespace s) ns); [|apply H]. intros [= <-]. by destruct (map_get _ _ ?? []).
Qed.

(** Names as MongoDB allows them. *)
Definition stat_names_ok (entry : QueryStatsDoc) : bool := nul_free (qd_db entry) && nul_free (qd_coll entry).
Lemma workloadKey_app d c rest d' c' rest' :
  nul_free d = true -> nul_free c = true -> nul_free d' = true -> nul_free c' = true ->
  workloadKey d c +:+ nul_char +:+ rest = workloadKey d' c' +:+ nul_char +:+ rest' -> workloadKey d c = workloadKey d' c'.
Proof.
  intros Hd Hc Hd' Hc' E. unfold workloadKey in *. rewrite <- !text_assoc in E. apply nul_split in E as [-> E]; [|done..].
  by apply nul_split in E as [-> _].
Qed.
Definition store_shapes (wanted : list string) (entries : list QueryStatsDoc) : list StatShape :=
  (grouped stat_key merge_stat (omap (stat_of wanted) entries)).*2.
Lemma stat_of_namespace wanted entry s : stat_of wanted entry = Some s -> st_namespace s = stat_namespace entry /\ st_namespace s ∈ wanted.
Proof.
  unfold stat_of. destruct (includes wanted _) eqn:E; [|done]. apply includes_spec in E.
  destruct (command_shape _ _ _); [|done]. by intros [= <-].
Qed.
Lemma store_shapes_of wanted ns entries :
  forallb stat_names_ok entries = true -> ns ∈ wanted ->
  List.filter (fun s => String.eqb (st_namespace s) ns) (store_shapes wanted entries) = store_shapes [ns] entries.
Proof.
  intros Hok Hns. unfold store_shapes.
  assert (Hf : forall l : list (string * StatShape), List.filter (fun s => String.eqb (st_namespace s) ns) l.*2 =
    (List.filter (fun e => String.eqb (st_namespace (snd e)) ns) l).*2).
  { intros l. induction l as [|[k s] l IH]; [done|]. cbn. rewrite IH. by destruct (String.eqb _ _). }
  rewrite Hf, (grouped_of_kind stat_key merge_stat (fun s => String.eqb (st_namespace s) ns) (fun _ _ => eq_refl)).
  - do 2 f_equal. clear Hok. induction entries as [|e entries IH]; [done|]. cbn [omap list_omap].
    destruct (stat_of wanted e) as [s|] eqn:E.
    + destruct (stat_of_namespace _ _ _ E) as [En Hw]. cbn [List.filter]. unfold stat_of in *.
      destruct (includes wanted _); [|done]. rewrite <- En. destruct (String.eqb_spec (st_namespace s) ns) as [Es|Es].
      * assert (includes [ns] (st_namespace s) = true) as -> by (apply includes_spec; rewrite Es; left). rewrite E. by f_equal.
      * assert (includes [ns] (st_namespace s) = false) as ->; [|done]. apply not_true_iff_false. rewrite includes_spec. by intros ?%list_elem_of_singleton.
    + rewrite IH. unfold stat_of in *. destruct (includes [ns] (stat_namespace e)) eqn:Ei; [|done].
      apply includes_spec, list_elem_of_singleton in Ei. assert (includes wanted (stat_namespace e) = true) as Hw by (apply includes_spec; by rewrite Ei).
      rewrite Hw in E. by rewrite E.
  - intros x y (e & He & Ee)%list_elem_of_omap (e' & He' & Ee')%list_elem_of_omap Ek.
    rewrite forallb_forall in Hok. rewrite list_elem_of_In in He, He'. apply Hok in He, He'.
    unfold stat_names_ok in He, He'. bools. apply stat_of_namespace in Ee as [Ee _], Ee' as [Ee' _].
    unfold stat_key in Ek. rewrite Ee, Ee' in *. unfold stat_namespace in *. by rewrite (workloadKey_app _ _ _ _ _ _ (proj1 He) (proj2 He) (proj1 He') (proj2 He') Ek).
Qed.

(** Reading the store once for a whole cluster is reading it for each collection:
    what it answers for a target does not depend on what else was asked. *)
Theorem one_store_read_agrees (raw : list (option QueryStatsDoc)) (now : Z) (targets : list WorkloadTarget) (target : WorkloadTarget) :
  forallb stat_names_ok (omap id raw) = true -> target ∈ targets ->
  exists all alone, collectQueryStats (inr raw) now targets = inr all /\ collectQueryStats (inr raw) now [target] = inr alone
  /\ map_get (target_key target) all = map_get (target_key target) alone.
Proof.
  intros Hok Ht. unfold collectQueryStats. destruct targets as [|t ts] eqn:Et; [by apply elem_of_nil in Ht|]. rewrite <- Et in *. clear Et t ts.
  cbn [and_then]. destruct (negb (existsb _ (omap id raw))); [by exists [], []|]. eexists _, _. split; [reflexivity|]. split; [reflexivity|].
  set (asOf := _ ≫= qd_asOf). set (ns := target_key target). assert (ns ∈ target_key <$> targets) as Hns by (apply list_elem_of_fmap; by exists target).
  change (fold_left put_stat ?l []) with (grouped stat_key merge_stat l).
  change ((grouped stat_key merge_stat (omap (stat_of ?w) ?es)).*2) with (store_shapes w es).
  set (f := fun byNamespace shape => push_shape byNamespace (st_namespace shape) (stat_query asOf now shape)).
  assert (forall w, ns ∈ w -> map_get ns (fold_left f (store_shapes w (omap id raw)) []) ?? [] = stat_query asOf now <$> store_shapes [ns] (omap id raw)) as Hget.
  { intros w Hw. subst f. rewrite push_shapes_get, store_shapes_of by done. done. }
  assert (forall w l, map_get ns (fold_left f (store_shapes w (omap id raw)) []) = Some l -> l <> []) as Hne.
  { intros w. subst f. by apply push_shapes_some. }
  pose proof (Hget _ Hns) as H1. assert (ns ∈ target_key <$> [target]) as Hns' by (apply list_elem_of_fmap; exists target; split; [done|left]).
  pose proof (Hget _ Hns') as H2.
  pose proof (Hne (target_key <$> targets)) as N1. pose proof (Hne (target_key <$> [target])) as N2.
  destruct (map_get ns (fold_left f (store_shapes (target_key <$> targets) (omap id raw)) [])) as [l1|],
    (map_get ns (fold_left f (store_shapes (target_key <$> [target]) (omap id raw)) [])) as [l2|]; cbn in *; try done.
  - by rewrite H1, H2.
  - exfalso. apply (N1 l1 eq_refl). by rewrite H1, <- H2.
  - exfalso. apply (N2 l2 eq_refl). by rewrite H2, <- H1.
Qed.

(** ** Where a collection's workload comes from *)

Definition from_store (store : read_error + list (option QueryStatsDoc)) (now : Z) (targets : list WorkloadTarget) (target : WorkloadTarget)
    : list QueryShape :=
  match collectQueryStats store now targets with inr found => map_get (target_key target) found ?? [] | inl _ => [] end.
(** What answers for one target: the store, or the profiler where it has nothing. *)
Definition answers (store : read_error + list (option QueryStatsDoc)) (profile : string -> string -> read_error + list (option ProfileDoc))
    (now : Z) (targets : list WorkloadTarget) (target : WorkloadTarget) : read_error + list QueryShape :=
  match from_store store now targets target with
  | [] => collectSlowQueries (profile (fst target) (snd target)) now
  | shapes => inr shapes
  end.

Lemma collect_each_spec {A B} (read : A -> read_error + B) xs :
  match collect_each read xs with
  | inr bs => Forall2 (fun x b => read x = inr b) xs bs
  | inl e => exists before x after, xs = before ++ x :: after /\ read x = inl e /\ Forall (fun y => exists b, read y = inr b) before
  end.
Proof.
  induction xs as [|x xs IH]; cbn [collect_each]; [constructor|]. destruct (read x) as [e|b] eqn:E; cbn [and_then].
  - exists [], x, xs. by split_and!.
  - destruct (collect_each read xs) as [e|bs]; cbn [and_then].
    + destruct IH as (before & y & after & -> & Ey & Hb). exists (x :: before), y, after. split_and!; [done|done|]. constructor; [by exists b|done].
    + by constructor.
Qed.
Lemma assign_all {V} (entries : list (string * V)) : NoDup entries.*1 -> assign [] entries = entries.
Proof.
  intros Hn. unfold assign. assert (forall acc, NoDup (acc.*1 ++ entries.*1) ->
    fold_left (fun target '(key, value) => map_put key value target) entries acc = acc ++ entries) as H; [|by apply H].
  clear Hn. induction entries as [|[k v] entries IH]; intros acc Hn; [by rewrite app_nil_r|]. cbn [fold_left].
  assert (k ∉ acc.*1) as Hk. { intros Hk. cbn in Hn. apply NoDup_app in Hn as (_ & Hd & _). apply (Hd k Hk). left. }
  rewrite map_put_fresh by done. rewrite IH; [by rewrite <- app_assoc|]. by rewrite fmap_app, <- app_assoc.
Qed.

Lemma workload_falls_back_lemma store profile now targets :
  NoDup (target_key <$> targets) ->
  match collectWorkload store profile now targets with
  | inr out => Forall2 (fun target entry => fst entry = target_key target /\ answers store profile now targets target = inr (snd entry)) targets out
  | inl e => exists before target after, targets = before ++ target :: after
      /\ from_store store now targets target = [] /\ collectSlowQueries (profile (fst target) (snd target)) now = inl e
      /\ Forall (fun t => exists shapes, answers store profile now targets t = inr shapes) before
  end.
Proof.
  intros Hn. unfold collectWorkload. set (fromStats := match collectQueryStats store now targets with inr found => found | inl _ => [] end).
  set (read := fun target : WorkloadTarget => _). pose proof (collect_each_spec read targets) as H.
  assert (Hread : forall t, read t = match answers store profile now targets t with inr shapes => inr (target_key t, shapes) | inl e => inl e end).
  { intros t. subst read. unfold answers, from_store. cbn beta zeta. replace (match collectQueryStats store now targets with inr found => map_get (target_key t) found ?? [] | inl _ => [] end)
      with (map_get (target_key t) fromStats ?? []); [|subst fromStats; by destruct (collectQueryStats store now targets)].
    destruct (map_get (target_key t) fromStats ?? []); cbn; [|done]. by destruct (collectSlowQueries _ _). }
  destruct (collect_each read targets) as [e|bs]; cbn [and_then].
  - destruct H as (before & t & after & E & Et & Hb). exists before, t, after. rewrite Hread in Et. unfold answers in Et.
    destruct (from_store store now targets t) eqn:Ef; [|done]. split_and!; [done|done|by destruct (collectSlowQueries _ _); simplify_eq|].
    eapply Forall_impl; [done|]. cbn. intros t' [b Ht']. rewrite Hread in Ht'. destruct (answers store profile now targets t') as [|shapes]; [done|by exists shapes].
  - assert (Hf : Forall2 (fun target entry => fst entry = target_key target /\ answers store profile now targets target = inr (snd entry)) targets bs).
    { eapply Forall2_impl; [done|]. cbn. intros t b. rewrite Hread. destruct (answers store profile now targets t); [done|]. by intros [= <-]. }
    rewrite assign_all; [done|]. assert (bs.*1 = target_key <$> targets) as ->; [|done].
    clear -Hf. induction Hf as [|t b ts bs [E _] _ IH]; [done|]. cbn. by rewrite E, IH.
Qed.

(** An execution that compared a field with a literal. *)
Definition compared (entry : ProfileDoc) (f : string) (c : ConstantValue) : Prop :=
  exists filter v c', pd_command entry ≫= pc_filter = Some filter /\ binds (BDoc filter) f v
    /\ equality_constant v = Some c' /\ same_constant c' c = true.
Lemma profiled_compared entry f c : map_get f (profiled_constants entry) = Some c ->
  exists filter v, pd_command entry ≫= pc_filter = Some filter /\ binds (BDoc filter) f v /\ equality_constant v = Some c.
Proof.
  unfold profiled_constants. destruct (pd_command entry ≫= pc_filter) as [filter|]; [|done]. intros H.
  apply equalityConstants_spec in H as (v & Hb & Hc). by exists filter, v.
Qed.
Lemma profiled_nodup entry : NoDup (profiled_constants entry).*1.
Proof. unfold profiled_constants. destruct (pd_command entry ≫= pc_filter); [apply equalityConstants_spec|constructor]. Qed.
Lemma store_no_literals store now targets target q : q ∈ from_store store now targets target -> constants q = None.
Proof.
  unfold from_store, collectQueryStats. destruct targets as [|t ts]; [intros []%elem_of_nil|]. destruct store as [e|raw]; [intros []%elem_of_nil|].
  cbn [and_then]. destruct (negb _); [intros []%elem_of_nil|]. rewrite push_shapes_get. cbn. by intros (s & -> & _)%list_elem_of_fmap.
Qed.
Lemma parsed_all {A} (raw : list (option A)) xs : parse_all raw = inr xs -> raw = Some <$> xs.
Proof.
  unfold parse_all. destruct (forallb is_some raw) eqn:E; [|done]. intros [= <-]. induction raw as [|[x|] raw IH]; [done| |done].
  cbn in *. f_equal. by apply IH.
Qed.

(** C37. What a constant of a shape of the workload is. Every one came from the profiler of
    that shape's collection, and every execution of the shape the profiler holds, of
    which there is one, compared that very field with it; and one that is a text is
    short and is no identifier. Numbers and booleans are kept whatever they are, a
    number that identifies someone included. What else of a document a reading holds is
    not said. *)
Theorem workload_literals_guarded store profile now targets out key shapes q f c :
  NoDup (target_key <$> targets) -> collectWorkload store profile now targets = inr out ->
  (key, shapes) ∈ out -> q ∈ shapes -> (f, c) ∈ constants q ?? [] ->
  text_guarded c /\ exists target entries shape, target ∈ targets /\ target_key target = key
    /\ profile (fst target) (snd target) = inr (Some <$> entries)
    /\ of_shape shape entries <> [] /\ Forall (fun entry => compared entry f c) (of_shape shape entries).
Proof.
  intros Hn E Hin Hq Hc. pose proof (workload_falls_back_lemma store profile now targets Hn) as H. rewrite E in H.
  apply list_elem_of_lookup in Hin as [i Hi]. destruct (Forall2_lookup_r _ _ _ _ _ H Hi) as (t & Ht & Ek & Ea). cbn [fst snd] in Ek, Ea.
  apply list_elem_of_lookup_2 in Ht. unfold answers in Ea. destruct (from_store store now targets t) as [|q0 qs] eqn:Ef.
  - unfold collectSlowQueries in Ea. destruct (profile (fst t) (snd t)) as [|raw] eqn:Ep; [done|]. cbn [and_then] in Ea.
    destruct (parse_all raw) as [|entries] eqn:Er; [done|]. apply parsed_all in Er as ->.
    assert (collectSlowQueries (inr (Some <$> entries)) now = inr shapes) as Es.
    { unfold collectSlowQueries. cbn [and_then]. by rewrite parse_all_some. }
    rewrite collectSlowQueries_grouped in Es. injection Es as Es. rewrite <- Es in Hq.
    apply list_elem_of_fmap in Hq as (s & -> & Hs). apply list_elem_of_fmap in Hs as ([k s'] & -> & Hs). cbn [snd] in Hc.
    apply grouped_values, (slow_query_tells (observedFor (fold_left earlier (pd_ts <$> entries) None) None now)) in Hs as [(first & sh & Hh & _ & _ & _ & _ & _ & Hcs) _].
    apply Hcs in Hc as [Hf Hall]. split.
    + apply nodup_get, profiled_compared in Hf as (filter & v & _ & _ & Hv); [|apply profiled_nodup]. by eapply equality_constant_guarded.
    + exists t, entries, k. split_and!; [done|done|done|by destruct (of_shape k entries)|]. eapply Forall_impl; [done|]. cbn.
      intros e (c' & Hg & Hsame). apply profiled_compared in Hg as (filter & v & ? & ? & ?). by exists filter, v, c'.
  - injection Ea as <-. rewrite <- Ef in Hq. apply store_no_literals in Hq. rewrite Hq in Hc. by apply elem_of_nil in Hc.
Qed.

(** A collection's workload is read from the store of query statistics where it
    has any and from the profiler where it has none; a store that cannot be read
    costs nothing but its answers, and only a profiler that had to be asked and
    could not be ends the reading, with its own error. *)
Theorem workload_falls_back store profile now targets :
  NoDup (target_key <$> targets) ->
  match collectWorkload store profile now targets with
  | inr out => Forall2 (fun target entry => fst entry = target_key target /\ answers store profile now targets target = inr (snd entry)) targets out
  | inl e => exists before target after, targets = before ++ target :: after
      /\ from_store store now targets target = [] /\ collectSlowQueries (profile (fst target) (snd target)) now = inl e
      /\ Forall (fun t => exists shapes, answers store profile now targets t = inr shapes) before
  end.
Proof. apply workload_falls_back_lemma. Qed.

(** ** Hints *)

Lemma pattern_names_spec pattern spec : pattern_names pattern spec = true <-> pattern.*1 = field <$> keys spec.
Proof.
  unfold pattern_names. rewrite andb_true_iff, Nat.eqb_eq, every_i_spec. split.
  - intros [Hl He]. apply list_eq_same_length with (length pattern.*1); [|done|].
    { rewrite <- Hl. done. }
    intros i x y Hi Hx Hy. specialize (He i y Hy). apply bool_decide_eq_true in He. congruence.
  - intros E. rewrite E. split; [done|]. intros i x Hx. by apply bool_decide_eq_true.
Qed.
(** A hint names an index: by its name, by its name as an update keeps it, or by
    the fields of its keys in order. *)
Definition hints_at (specs : list IndexSpec) (hint : Hint) (n : string) : Prop :=
  hint_name hint = Some n
  \/ exists pattern spec, hint_pattern hint = Some pattern /\ spec ∈ specs /\ name spec = n /\ pattern.*1 = field <$> keys spec.

Definition named_by (hints : list Hint) (specs : list IndexSpec) : list string :=
  omap hint_name hints ++ mjoin ((fun pattern => name <$> List.filter (pattern_names pattern) specs) <$> omap hint_pattern hints).

(** The indexes a collection's queries name are those some hint in some member's
    ring names, and no others; a ring that cannot be read hides only itself, and
    where the indexes cannot be listed only hints by pattern go unseen. *)
Theorem hinted_exact (rings : list (read_error + list (option ProfileDoc))) (listIndexes : read_error + list IndexSpec) (n : string) :
  n ∈ collectHintedIndexes rings listIndexes <->
  exists docs entry hint, inr docs ∈ rings /\ Some entry ∈ docs /\ hint_of entry = Some hint
    /\ hints_at (match listIndexes with inr specs => specs | inl _ => [] end) hint n.
Proof.
  unfold collectHintedIndexes. set (specs := match listIndexes with inr specs => specs | inl _ => [] end).
  set (hints := omap hint_of _).
  assert (Hh : forall h, h ∈ hints <-> exists docs entry, inr docs ∈ rings /\ Some entry ∈ docs /\ hint_of entry = Some h).
  { intros h. subst hints. rewrite list_elem_of_omap. split.
    - intros (e & He & Eh). apply list_elem_of_omap in He as (o & Ho & Eo). cbn in Eo. subst o.
      apply list_elem_of_join in Ho as (docs & Ho & Hd). apply list_elem_of_fmap in Hd as (ring & -> & Hd).
      destruct ring as [|docs]; [by apply elem_of_nil in Ho|]. by exists docs, e.
    - intros (docs & e & Hd & He & Eh). exists e. split; [|done]. apply list_elem_of_omap. exists (Some e). split; [|done].
      apply list_elem_of_join. exists docs. split; [done|]. apply list_elem_of_fmap. by exists (inr docs). }
  assert (n ∈ named_by hints specs <-> exists h, h ∈ hints /\ hints_at specs h n) as Hn.
  { unfold named_by. rewrite elem_of_app, list_elem_of_omap, list_elem_of_join. unfold hints_at. split.
    - intros [(h & Hin & E)|(ns & Hns & Hp)]; [eauto|]. apply list_elem_of_fmap in Hp as (pattern & -> & Hp).
      apply list_elem_of_omap in Hp as (h & Hin & Ep). apply list_elem_of_fmap in Hns as (spec & -> & Hs).
      apply elem_of_filter_bool in Hs as [Hs Hk]. apply pattern_names_spec in Hk. exists h. split; [done|]. right. by exists pattern, spec.
    - intros (h & Hin & [E|(pattern & spec & Ep & Hs & <- & Ek)]); [left; eauto|]. right. eexists. split; cycle 1.
      + apply list_elem_of_fmap. exists pattern. split; [done|]. apply list_elem_of_omap. eauto.
      + apply list_elem_of_fmap. exists spec. split; [done|]. apply elem_of_filter_bool. split; [done|]. by apply pattern_names_spec. }
  assert (forall l, n ∈ match omap hint_pattern hints with [] => distinct_strings (omap hint_name hints) | _ => l end <->
    n ∈ match omap hint_pattern hints with [] => named_by hints specs | _ => l end) as Hempty.
  { intros l. destruct (omap hint_pattern hints) eqn:E; [|done]. unfold named_by. rewrite E. cbn. by rewrite app_nil_r, elem_of_distinct_strings. }
  rewrite Hempty. assert (n ∈ match omap hint_pattern hints with [] => named_by hints specs | _ =>
    distinct_strings (distinct_strings (omap hint_name hints) ++ mjoin ((fun pattern => name <$> List.filter (pattern_names pattern) specs) <$> omap hint_pattern hints)) end <->
    n ∈ named_by hints specs) as ->.
  { destruct (omap hint_pattern hints) eqn:E; [done|]. rewrite <- E. unfold named_by. by rewrite !elem_of_distinct_strings, !elem_of_app, elem_of_distinct_strings. }
  rewrite Hn. setoid_rewrite Hh. naive_solver.
Qed.

(** ** Deletes *)

Lemma push_samples_get f samples acc :
  map_get f (fold_left push_sample samples acc) ?? [] = map_get f acc ?? [] ++ (snd <$> List.filter (fun s => String.eqb (fst s) f) samples).
Proof.
  revert acc. induction samples as [|[g r] samples IH]; intros acc; cbn [fold_left List.filter fst]; [by rewrite app_nil_r|].
  rewrite IH. cbn [push_sample]. rewrite map_get_put. destruct (String.eqb_spec g f) as [->|]; [|done]. cbn. by rewrite <- app_assoc.
Qed.
Lemma push_samples_keys samples acc : NoDup acc.*1 -> (forall f l, (f, l) ∈ acc -> l <> []) ->
  let out := fold_left push_sample samples acc in NoDup out.*1 /\ forall f l, (f, l) ∈ out -> l <> [].
Proof.
  revert acc. induction samples as [|[g r] samples IH]; intros acc Hn Hl; [done|]. cbn [fold_left]. apply IH; cbn [push_sample]; [by apply map_put_nodup|].
  intros f l Hin. apply map_get_elem in Hin; [|by apply map_put_nodup]. rewrite map_get_put in Hin.
  destruct (String.eqb_spec g f) as [->|]; [injection Hin as <-; by destruct (map_get f acc ?? [])|]. apply (Hl f). by apply map_get_elem.
Qed.
Lemma median_between lo hi values : values <> [] -> Forall (fun v => lo <= v /\ v <= hi)%Q values -> (lo <= median values /\ median values <= hi)%Q.
Proof.
  intros Hne Hb. unfold median. set (sorted := stable_sort Qle_bool values).
  assert (Hs : Forall (fun v => lo <= v /\ v <= hi)%Q sorted).
  { apply Forall_forall. intros v Hv. apply elem_of_stable_sort in Hv. rewrite Forall_forall in Hb. by apply Hb. }
  assert (Hl : (0 < length sorted)%nat). { subst sorted. rewrite stable_sort_perm. by destruct values; [|cbn; lia]. }
  assert (Hmid : (Nat.div2 (length sorted) < length sorted)%nat) by (apply Nat.lt_div2; lia).
  apply lookup_lt_is_Some in Hmid as [x Hx]. rewrite Hx. cbn [default].
  assert (lo <= x /\ x <= hi)%Q as [H1 H2] by (by eapply Forall_lookup_1 in Hs).
  destruct (Nat.even (length sorted)); [|done].
  match goal with |- context [Qdiv (Qplus ?b _) _] => set (y := b) end.
  assert (lo <= y /\ y <= hi)%Q as [H3 H4].
  { subst y. destruct (Nat.div2 (length sorted)) as [|m]; [done|]. destruct (sorted !! m) as [z|] eqn:Ez; [|done].
    by eapply Forall_lookup_1 in Hs. }
  clearbody y. unfold id. split; [apply Qle_shift_div_l|apply Qle_shift_div_r]; lra.
Qed.

(** The deletes that age documents out, by field: each field once, with the deletes
    that named it alone and a date before their own, and a median of the ages they
    keep that lies between the youngest and the oldest, rounded. *)
Theorem delete_patterns_exact (raw : list (option ProfileDoc)) :
  exists patterns, collectDeletePatterns (inr raw) = inr patterns /\ NoDup (pp_field <$> patterns)
  /\ (forall f, f ∈ pp_field <$> patterns <-> exists r, (f, r) ∈ omap delete_sample (omap id raw))
  /\ forall p, p ∈ patterns ->
       let ages := snd <$> List.filter (fun s => String.eqb (fst s) (pp_field p)) (omap delete_sample (omap id raw)) in
       pp_count p = Z.of_nat (length ages) /\ ages <> [] /\ medianRetentionSeconds p = Some (Math_round (median ages))
       /\ forall lo hi, Forall (fun age => lo <= age /\ age <= hi)%Q ages -> (lo <= median ages /\ median ages <= hi)%Q.
Proof.
  unfold collectDeletePatterns. cbn [and_then]. set (samples := omap delete_sample (omap id raw)).
  destruct (push_samples_keys samples []) as [Hn Hne]; [constructor|by intros ? ? ?%elem_of_nil|].
  assert (Hget : forall f l, (f, l) ∈ fold_left push_sample samples [] -> l = snd <$> List.filter (fun s => String.eqb (fst s) f) samples).
  { intros f l Hin. apply map_get_elem in Hin; [|done]. pose proof (push_samples_get f samples []) as E. by rewrite Hin in E. }
  eexists. split; [reflexivity|]. rewrite <- list_fmap_compose.
  assert (Hf : (fold_left push_sample samples []).*1 = (pp_field ∘ fun '(field, retentions) =>
    {| pp_field := field; pp_count := Z.of_nat (length retentions); medianRetentionSeconds := Some (Math_round (median retentions)) |})
    <$> fold_left push_sample samples []).
  { apply list_fmap_ext. by intros i [f l] _. }
  rewrite <- Hf. split_and!; [done| |].
  - intros f. split.
    + intros ([g l] & -> & Hin)%list_elem_of_fmap. specialize (Hget _ _ Hin). specialize (Hne _ _ Hin). rewrite Hget in Hne.
      destruct (List.filter _ samples) as [|[g' r] rest] eqn:E; [done|]. assert ((g', r) ∈ List.filter (fun s => String.eqb (fst s) g) samples) as Hr by (rewrite E; left).
      apply elem_of_filter_bool in Hr as [Hr Eg]. apply String.eqb_eq in Eg. cbn in *. subst g'. by exists r.
    + intros [r Hr]. pose proof (push_samples_get f samples []) as E. cbn in E.
      destruct (map_get f (fold_left push_sample samples [])) as [l|] eqn:Ef.
      * apply map_get_in in Ef. by apply (list_elem_of_fmap_2 fst _ (f, l)).
      * exfalso. assert ((f, r) ∈ List.filter (fun s => String.eqb (fst s) f) samples) as Hin by (apply elem_of_filter_bool; by rewrite String.eqb_refl).
        cbn in E. destruct (List.filter _ samples); [by apply elem_of_nil in Hin|done].
  - intros p ([f l] & -> & Hin)%list_elem_of_fmap. cbn [pp_field pp_count medianRetentionSeconds]. rewrite <- (Hget _ _ Hin).
    split_and!; [done|by eapply Hne|done|]. intros lo hi. apply median_between. by eapply Hne.
Qed.

(** ** Two collections *)

Definition profiled_find (ts : Z) (filter : document) : ProfileDoc :=
  {| pd_ts := Some ts; planSummary := Some "COLLSCAN"%string; pd_docsExamined := Some 40; pd_hasSortStage := None; appName := Some "api"%string;
     pd_command := Some {| pc_filter := Some filter; pc_sort := None; pc_pipeline := None; pc_q := None; pc_hint := None |} |}.
Definition status_find (ts : Z) : ProfileDoc := profiled_find ts [("status", BStr "open"); ("age", BDoc [("$gt", BNum 3)])]%string.
Definition orders_ring (database collection : string) : read_error + list (option ProfileDoc) :=
  if String.eqb collection "orders" then inr [Some (status_find 7); Some (status_find 9)] else inr [].
Definition stored_find (collection : string) (count : Z) : QueryStatsDoc :=
  {| qd_application := Some "api"%string; qd_driver := None; qd_db := "shop"; qd_coll := collection;
     qd_filter := Some [("status"%string, BStr "?string")]; qd_sort := None; qd_pipeline := None; qd_asOf := Some 9;
     qd_metrics := {| execCount := count; firstSeenTimestamp := Some 2; qm_keysExamined := Some 0; qm_docsExamined := Some 40;
       qm_hasSortStage := None; queryExec := None; queryPlanner := None |} |}.

Lemma workload_literals_guarded_witness : exists out,
  collectWorkload (inl (ReadError "no store")) orders_ring 3600009 [("shop", "users"); ("shop", "orders")]%string = inr out
  /\ text_guarded (CStr "open") /\ exists target entries shape, target ∈ [("shop", "users"); ("shop", "orders")]%string
    /\ target_key target = workloadKey "shop" "orders" /\ orders_ring (fst target) (snd target) = inr (Some <$> entries)
    /\ of_shape shape entries <> [] /\ Forall (fun entry => compared entry "status" (CStr "open")) (of_shape shape entries).
Proof.
  eexists. split; [vm_compute; reflexivity|].
  eapply (workload_literals_guarded (inl (ReadError "no store")) orders_ring 3600009 [("shop", "users"); ("shop", "orders")]%string).
  - apply (bool_decide_eq_true_1 (NoDup _)). vm_compute. reflexivity.
  - vm_compute; reflexivity.
  - right. left.
  - left.
  - left.
Defined.
Lemma one_store_read_agrees_witness : exists all alone,
  collectQueryStats (inr [Some (stored_find "users" 3); None; Some (stored_find "orders" 5); Some (stored_find "orders" 6)]) 10 [("shop", "users"); ("shop", "orders")]%string = inr all
  /\ collectQueryStats (inr [Some (stored_find "users" 3); None; Some (stored_find "orders" 5); Some (stored_find "orders" 6)]) 10 [("shop", "orders")]%string = inr alone
  /\ map_get (target_key ("shop", "orders")%string) all = map_get (target_key ("shop", "orders")%string) alone.
Proof. apply one_store_read_agrees; [reflexivity|right; left]. Defined.
