(* ===== verification/MongoReads.v ===== *)
(** What the MongoDB collector reads of a cluster's nodes: the second half of
    [apps/api/src/mongo/collector.ts] with [connection.ts], [members.ts],
    [errors.ts], [self-reads.ts] and [version.ts] of the same directory.

    A node is the record of what it answers; a call may fail with an error of the
    driver.  The reads of one [Promise.all] touch nothing in common but the tally
    of our own reads, which adds up in any order, so they are in sequence here. *)
From S2P Require Import Prelude EngineTypes Runs Usage Cooldowns Keys Groups RunTable Suggest Snapshots Collect MongoShapes.

(** ** Errors and versions *)

Record DriverError := { de_server : bool; de_code : option Z; de_message : string }.
Definition isAuthorizationError (error : DriverError) : bool :=
  de_server error && (bool_decide (de_code error = Some 13)
    || text_includes (toLowerCase (de_message error)) "not authorized"
    || text_includes (toLowerCase (de_message error)) "requires authentication").

Record ServerVersion := { sv_major : Z; sv_minor : Z; sv_text : string }.
Definition MIN_MAJOR : Z := 6.
Definition MIN_MINOR : Z := 0.
Definition MAX_MAJOR : Z := 9.
Definition QUERY_STATS_PLAN_METRICS_MAJOR : Z := 8.
Definition hasQueryStatsPlanMetrics (version : option ServerVersion) : bool :=
  match version with None => false | Some v => QUERY_STATS_PLAN_METRICS_MAJOR <=? sv_major v end.
Definition isTestedVersion (version : option ServerVersion) : bool :=
  match version with None => false | Some v => sv_major v <=? MAX_MAJOR end.
Definition meetsVersionFloor (version : option ServerVersion) : bool :=
  match version with
  | None => false
  | Some v => (MIN_MAJOR <? sv_major v) || ((sv_major v =? MIN_MAJOR) && (MIN_MINOR <=? sv_minor v))
  end.
Definition found_version (version : option ServerVersion) : string :=
  match version with None => "an unreadable version" | Some v => "MongoDB " +:+ sv_text v end.
Definition MIN_VERSION_TEXT : string := show MIN_MAJOR +:+ "." +:+ show MIN_MINOR.
Definition MAX_VERSION_TEXT : string := show MAX_MAJOR +:+ ".x".
Definition unsupportedVersionMessage (version : option ServerVersion) : string :=
  found_version version +:+ " is older than the " +:+ MIN_VERSION_TEXT +:+ " Indexterity supports. " +:+
  "Releases before " +:+ MIN_VERSION_TEXT +:+ " are past end-of-life and take no security fixes, " +:+
  "and they cannot report the query workload the create side reads. Upgrade the server, " +:+
  "or run the analysis against a " +:+ MIN_VERSION_TEXT +:+ "+ replica.".
Definition untestedVersionMessage (version : option ServerVersion) : string :=
  found_version version +:+ " is newer than the " +:+ MAX_VERSION_TEXT +:+ " series Indexterity has been tested against. " +:+
  "Refusing rather than guessing: this engine hides, drops and builds indexes on a live " +:+
  "database, and a major release is where command behaviour moves. Set " +:+
  "ALLOW_UNTESTED_DATABASE_VERSION=true to proceed anyway.".
Definition versionRefusal (allowUntestedVersions : bool) (version : option ServerVersion) : option string :=
  if negb (meetsVersionFloor version) then Some (unsupportedVersionMessage version)
  else if negb (isTestedVersion version) && negb allowUntestedVersions then Some (untestedVersionMessage version)
  else None.

(** ** Our own reads *)

Definition READS_PER_COLL_STATS_STORAGE : Z := 2.
Definition READS_PER_COLL_STATS_LATENCY : Z := 1.
Definition readsPerIndexStats (version : option ServerVersion) : Z :=
  match version with None => 2 | Some v => if sv_major v <? 7 then 2 else 1 end.

(** The process's tally, in the order the keys were last written. *)
Definition MAX_NAMESPACES : nat := 50000.
Fixpoint evict (limit : nat) (key : string) (candidates counts : list (string * Z)) : list (string * Z) :=
  match candidates with
  | [] => counts
  | (candidate, _) :: candidates =>
      if (length counts <=? limit)%nat then counts
      else if String.eqb candidate key then evict limit key candidates counts
      else evict limit key candidates (map_delete candidate counts)
  end.
Definition add_reads (limit : nat) (key : string) (ops : Z) (counts : list (string * Z)) : list (string * Z) :=
  let held := map_get key counts ?? 0 in
  let counts := map_put key (held + ops) (map_delete key counts) in
  evict limit key counts counts.
Definition count_reads (key : string) (counts : list (string * Z)) : Z := map_get key counts ?? 0.
Definition shared_key (fingerprint database collection : string) : string :=
  fingerprint +:+ "/" +:+ database +:+ "/" +:+ collection.

(** ** The node a connection reaches *)

Record HelloNode := { hn_me : option string; hn_role : node_role }.
Definition is_true (value : option bson) : bool := match value with Some (BBool true) => true | _ => false end.
Definition text_of (value : option bson) : option string := match value with Some (BStr s) => Some s | _ => None end.
Definition nodeFromHello (hello : option document) : HelloNode :=
  match hello with
  | None => {| hn_me := None; hn_role := unknown_role |}
  | Some hello =>
      let primary_ := is_true (map_get "isWritablePrimary" hello) in
      let role :=
        if bool_decide (text_of (map_get "msg" hello) = Some "isdbgrid"%string) then mongos
        else match text_of (map_get "setName" hello) with
             | None => if primary_ then standalone else unknown_role
             | Some _ => if primary_ then primary else if is_true (map_get "secondary" hello) then secondary else unknown_role
             end in
      {| hn_me := text_of (map_get "me" hello); hn_role := role |}
  end.
Definition stringsAt (hello : document) (key : string) : list string :=
  match map_get key hello with Some (BArr l) => omap (fun v => text_of (Some v)) l | _ => [] end.
Definition membersFromHello (hello : option document) : list string :=
  match hello with
  | None => []
  | Some hello => distinct_strings (stringsAt hello "hosts" ++ stringsAt hello "passives")
  end.
Definition SYSTEM_DATABASES : list string := ["admin"; "local"; "config"]%string.
Definition withoutSystemDatabases (names : list string) : list string :=
  List.filter (fun name => negb (includes SYSTEM_DATABASES name)) names.

(** ** Documents, as the schemas give them *)

Record IndexStat := { is_name : string; is_host : string; is_ops : Z; is_since : Z }.
Record LatencyStatsDoc := { ls_host : string; ls_reads : LatencyPair; ls_writes : LatencyPair }.
Record IndexDescription := {
  id_name : string;
  id_key : list (string * bson);
  id_unique : option bool;
  id_sparse : option bool;
  id_hidden : option bool;
  expireAfterSeconds : option Q;
  partialFilterExpression : option (list (string * json));
  id_collation : option string;
}.
(** One document of [$collStats] under the lenient and under the strict schema. *)
Record CollStatsDoc := { cd_size : option (Z * Z); cd_indexSizes : option (list (string * Z)) }.
Record ServerStatusDoc := {
  ss_scanned : Z;
  ss_scannedObjects : Z;
  ss_collectionScans : option Z;
  ss_scanAndOrder : option Z;
  ss_readers : option Z;
  ss_writers : option Z;
  ss_resident : option Z;
}.

(** What a node answers. *)
Record Node := {
  mn_hello : DriverError + option document;
  mn_address : option string;
  mn_indexStats : string -> string -> DriverError + list (option IndexStat);
  mn_latencyStats : string -> string -> DriverError + list (option LatencyStatsDoc);
}.
Definition replicaMembers (node : Node) : DriverError + list string :=
  match mn_hello node with inl e => inl e | inr hello => inr (membersFromHello hello) end.
Definition helloNode (node : Node) : option HelloNode :=
  match mn_hello node with inl _ => None | inr hello => Some (nodeFromHello hello) end.

(** ** Members *)

Record MemberDial := { dl_host : string; dl_state : node_state; dl_connection : option Node }.
(** Whether the guard lets an address be dialled, and what the dial gives. *)
Definition dial (allowed : string -> bool) (connect : string -> option Node) (host : string) : MemberDial :=
  if negb (allowed host) then {| dl_host := host; dl_state := refused; dl_connection := None |}
  else match connect host with
       | Some node => {| dl_host := host; dl_state := answered; dl_connection := Some node |}
       | None => {| dl_host := host; dl_state := unreachable; dl_connection := None |}
       end.
Definition dials (primary : Node) (allowed : string -> bool) (connect : string -> option Node) : list MemberDial :=
  let hosts := match replicaMembers primary with inr hosts => hosts | inl _ => [] end in
  if (length hosts <=? 1)%nat then [] else dial allowed connect <$> hosts.
Definition answered_members (dialled : list MemberDial) : list (string * Node) :=
  omap (fun d => (fun node => (dl_host d, node)) <$> dl_connection d) dialled.
Definition profiledNodes (base : Node) (dialled : list MemberDial) : list (string * Node) :=
  match answered_members dialled with
  | [] => [(mn_address base ?? "the cluster"%string, base)]
  | nodes => nodes
  end.

(** The roster. *)
Definition member_node (d : MemberDial) : ClusterNode :=
  match dl_connection d with
  | None => {| nd_host := dl_host d; nd_role := unknown_role; nd_state := dl_state d |}
  | Some node =>
      match helloNode node with
      | None => {| nd_host := dl_host d; nd_role := unknown_role; nd_state := unreachable |}
      | Some self => {| nd_host := dl_host d; nd_role := hn_role self; nd_state := answered |}
      end
  end.
Definition collectNodes (base : Node) (dialled : list MemberDial) : option (list ClusterNode) :=
  match dialled with
  | [] =>
      match helloNode base with
      | None => None
      | Some self =>
          (fun host => [{| nd_host := host; nd_role := hn_role self; nd_state := answered |}]) <$> or_else (hn_me self) (mn_address base)
      end
  | _ => Some (member_node <$> dialled)
  end.

(** ** Usage *)

(** The readings of one node and what they cost the collection; a call that did
    not reach the server costs nothing. *)
Definition readIndexStats (node : Node) (database collection : string) (indexStatsCost : Z) : list IndexUsageStat * Z :=
  match mn_indexStats node database collection with
  | inl _ => ([], 0)
  | inr raw =>
      match parse_all raw with
      | inl _ => ([], indexStatsCost)
      | inr docs =>
          ((fun doc => {| iu_indexName := is_name doc; iu_host := is_host doc; iu_ops := is_ops doc; iu_since := At (is_since doc) |}) <$> docs,
           indexStatsCost)
      end
  end.
Definition stat_id (stat : IndexUsageStat) : string := iu_indexName stat +:+ nul_char +:+ iu_host stat.
Definition nameOf (address : option string) (dialledAs : list (string * string)) (members : nat) (statsHost : string) : string :=
  match map_get statsHost dialledAs with
  | Some dialled => dialled
  | None => if (members =? 0)%nat then address ?? statsHost else statsHost
  end.
Definition rename_host (host : string -> string) (stat : IndexUsageStat) : IndexUsageStat :=
  {| iu_indexName := iu_indexName stat; iu_host := host (iu_host stat); iu_ops := iu_ops stat; iu_since := iu_since stat |}.
Definition collectUsage (base : Node) (dialled : list MemberDial) (version : option ServerVersion) (database collection : string)
    : list IndexUsageStat * Z :=
  let members := answered_members dialled in
  let cost := readsPerIndexStats version in
  let read node := readIndexStats node database collection cost in
  let fromBase := read base in
  let fromMembers := (fun member => (fst member, read (snd member))) <$> members in
  let seen := latest_of stat_id (fst fromBase ++ mjoin ((fun m => fst (snd m)) <$> fromMembers)) in
  let dialledAs := fold_left (fun known m =>
    fold_left (fun known stat => map_put (iu_host stat) (fst m) known) (fst (snd m)) known) fromMembers [] in
  (rename_host (nameOf (mn_address base) dialledAs (length members)) <$> seen,
   snd fromBase + zsum (fun m => snd (snd m)) fromMembers).

(** ** Latency *)

Definition readLatencyStats (node : Node) (database collection : string) : (read_error + list LatencyStatsDoc) * Z :=
  match mn_latencyStats node database collection with
  | inl e => (inl (ReadError (de_message e)), 0)
  | inr raw => (parse_all raw, READS_PER_COLL_STATS_LATENCY)
  end.
Definition pair_sum (pair : LatencyStatsDoc -> LatencyPair) (docs : list LatencyStatsDoc) : LatencyPair :=
  {| lp_ops := zsum (fun d => lp_ops (pair d)) docs; lp_latencyMicros := zsum (fun d => lp_latencyMicros (pair d)) docs |}.
Definition sumLatencyStats (docs : list LatencyStatsDoc) : CollectionLatency :=
  let byHost := latest_of ls_host docs in
  {| cl_reads := pair_sum ls_reads byHost; cl_writes := pair_sum ls_writes byHost |}.
Definition collectionLatency (base : Node) (dialled : list MemberDial) (database collection : string) : (read_error + CollectionLatency) * Z :=
  match readLatencyStats base database collection with
  | (inl e, cost) => (inl e, cost)
  | (inr primary_, cost) =>
      let members := (fun member => readLatencyStats (snd member) database collection) <$> answered_members dialled in
      (inr (sumLatencyStats (primary_ ++ mjoin ((fun m => match fst m with inr docs => docs | inl _ => [] end) <$> members))),
       cost + zsum snd members)
  end.

(** ** Sizes, indexes, names, health *)

Record StorageStats := { ss_storage : CollectionStorage; ss_sizes : read_error + list (string * Z) }.
Definition add_size (totals : list (string * Z)) (entry : string * Z) : list (string * Z) :=
  map_put (fst entry) (map_get (fst entry) totals ?? 0 + snd entry) totals.
Definition readStorageStats (raw : list CollStatsDoc) : StorageStats :=
  let sized := omap cd_size raw in
  {| ss_storage := {| dataSizeBytes := zsum fst sized; docCount := zsum snd sized |};
     ss_sizes := let! docs := parse_all (cd_indexSizes <$> raw) in inr (fold_left (fold_left add_size) docs []) |}.
Definition mongo_indexSizes (raw : DriverError + list CollStatsDoc) : read_error + list (string * Z) :=
  match raw with inl e => inl (ReadError (de_message e)) | inr raw => ss_sizes (readStorageStats raw) end.
Definition mongo_collectionStorage (raw : DriverError + list CollStatsDoc) : read_error + CollectionStorage :=
  match raw with inl e => inl (ReadError (de_message e)) | inr raw => inr (ss_storage (readStorageStats raw)) end.

Definition mongo_listCollectionNames (database : string) (raw : DriverError + list (option string)) : read_error + list string :=
  match raw with
  | inl e =>
      inl (if isAuthorizationError e
           then DatabaseInaccessibleError ("no access to database " +:+ database +:+ " with these credentials")
           else ReadError (de_message e))
  | inr raw => let! names := parse_all raw in inr (List.filter (fun name => negb (String.prefix "system." name)) names)
  end.

Definition normalizeDirection (direction : bson) : IndexDirection :=
  match direction with
  | BNum q => if Qeq_bool q (-1) then Ordered Neg else Ordered Pos
  | BStr s =>
      if String.eqb s "2d" then TwoD else if String.eqb s "2dsphere" then TwoDSphere
      else if String.eqb s "text" then Text else if String.eqb s "hashed" then Hashed else Ordered Pos
  | _ => Ordered Pos
  end.
Definition toIndexSpec (desc : IndexDescription) : IndexSpec :=
  {| name := id_name desc;
     keys := (fun '(field, direction) => {| field := field; direction := normalizeDirection direction |}) <$> id_key desc;
     unique := id_unique desc ?? false; ttl := is_some (expireAfterSeconds desc);
     partial := is_some (partialFilterExpression desc); partialFilter := partialFilterExpression desc;
     sparse := id_sparse desc ?? false; hidden := id_hidden desc ?? false; isShardKey := false;
     collation := id_collation desc; include := None |}.
Definition shardKeyIsPrefix (shardKey indexFields : list string) : bool :=
  if (length shardKey =? 0)%nat || (length indexFields <? length shardKey)%nat then false
  else every_i (fun i field => bool_decide (indexFields !! i = Some field)) shardKey.
Definition with_shard_key (b : bool) (spec : IndexSpec) : IndexSpec :=
  {| name := name spec; keys := keys spec; unique := unique spec; ttl := ttl spec; partial := partial spec;
     partialFilter := partialFilter spec; sparse := sparse spec; hidden := hidden spec; isShardKey := b;
     collation := collation spec; include := include spec |}.
(** What [config.collections] says of a namespace: no row, or its key, which may not parse. *)
Definition shardKeyFields (raw : DriverError + option (option (list string))) : option (list string) :=
  match raw with inr (Some (Some key)) => Some key | _ => None end.
Definition mongo_listIndexes (raw : DriverError + list (option IndexDescription)) (shard : DriverError + option (option (list string)))
    : read_error + list IndexSpec :=
  match raw with
  | inl e => inl (ReadError (de_message e))
  | inr raw =>
      let! descriptions := parse_all raw in
      let specs := toIndexSpec <$> descriptions in
      inr (match shardKeyFields shard with
           | None => specs
           | Some shardKey => (fun spec => with_shard_key (shardKeyIsPrefix shardKey (field <$> keys spec)) spec) <$> specs
           end)
  end.

Definition collectServerHealth (raw : DriverError + option ServerStatusDoc) : option ServerHealth :=
  match raw with
  | inr (Some status) =>
      Some {| collectionScans := ss_collectionScans status ?? 0; scannedObjects := ss_scannedObjects status;
              scannedKeys := ss_scanned status; scanAndOrder := ss_scanAndOrder status ?? 0;
              queuedReaders := ss_readers status ?? 0; queuedWriters := ss_writers status ?? 0;
              residentMb := ss_resident status ?? 0 |}
  | _ => None
  end.

(** ** Each node once *)

(** A node read twice counts once: what the base connection read of a member that
    was also read on its own changes nothing. *)
Theorem latency_not_doubled (base members : list LatencyStatsDoc) :
  (forall doc, doc ∈ base -> exists again, again ∈ members /\ ls_host again = ls_host doc) ->
  sumLatencyStats (base ++ members) = sumLatencyStats members.
Proof.
  intros H. unfold sumLatencyStats, pair_sum. pose proof (latest_of_superseded ls_host base members H) as P.
  f_equal; f_equal; by apply zsum_perm.
Qed.

Definition member_reading (stat : IndexUsageStat) : string * string := (iu_indexName stat, iu_host stat).
Definition readings_of (base : Node) (dialled : list MemberDial) (version : option ServerVersion) (database collection : string)
    : list IndexUsageStat :=
  fst (readIndexStats base database collection (readsPerIndexStats version)) ++
  mjoin ((fun m => fst (readIndexStats (snd m) database collection (readsPerIndexStats version))) <$> answered_members dialled).
Definition dialled_names (dialled : list MemberDial) (version : option ServerVersion) (database collection : string) : list (string * string) :=
  fold_left (fun known m =>
    fold_left (fun known stat => map_put (iu_host stat) (fst m) known)
      (fst (readIndexStats (snd m) database collection (readsPerIndexStats version))) known) (answered_members dialled) [].
Definition node_name (base : Node) (dialled : list MemberDial) (version : option ServerVersion) (database collection host : string) : string :=
  nameOf (mn_address base) (dialled_names dialled version database collection) (length (answered_members dialled)) host.

Lemma collectUsage_readings base dialled version database collection :
  fst (collectUsage base dialled version database collection) =
  rename_host (node_name base dialled version database collection) <$> latest_of stat_id (readings_of base dialled version database collection).
Proof.
  unfold collectUsage, readings_of, node_name, dialled_names. cbn [fst]. rewrite <- list_fmap_compose.
  f_equal. f_equal. f_equal. clear. induction (answered_members dialled) as [|m ms IH] using rev_ind; [done|].
  rewrite fmap_app, !fold_left_app, <- IH. done.
Qed.

(** On a replica set an index has one reading of each node that answered, under
    the name the node was dialled by, and none is lost: provided the names tell
    the nodes apart. *)
Theorem usage_once_per_node base dialled version database collection :
  (forall s, s ∈ readings_of base dialled version database collection -> nul_free (iu_indexName s) = true) ->
  (forall s s', s ∈ readings_of base dialled version database collection -> s' ∈ readings_of base dialled version database collection ->
     node_name base dialled version database collection (iu_host s) = node_name base dialled version database collection (iu_host s') ->
     iu_host s = iu_host s') ->
  let usage := fst (collectUsage base dialled version database collection) in
  NoDup (member_reading <$> usage)
  /\ forall s, s ∈ readings_of base dialled version database collection ->
       exists r, r ∈ usage /\ iu_indexName r = iu_indexName s /\ iu_host r = node_name base dialled version database collection (iu_host s).
Proof.
  intros Hnul Hinj. cbn zeta. rewrite collectUsage_readings. set (readings := readings_of base dialled version database collection) in *.
  set (nm := node_name base dialled version database collection) in *.
  assert (Hin : forall x, x ∈ latest_of stat_id readings -> x ∈ readings).
  { intros x Hx%latest_of_in. apply last_Some_elem_of, elem_of_filter_bool in Hx as [Hx _]. done. }
  split.
  - rewrite <- list_fmap_compose. pose proof (latest_keys stat_id readings) as Hk.
    pose proof (distinct_from_NoDup [] (stat_id <$> readings)) as Hn. change (distinct_from [] (stat_id <$> readings)) with (distinct_strings (stat_id <$> readings)) in Hn.
    rewrite <- Hk in Hn. clear Hk. induction (latest_of stat_id readings) as [|x l IH]; [constructor|]. cbn in Hn |- *. apply NoDup_cons in Hn as [Hx Hl].
    constructor; [|apply IH; [intros; apply Hin; by right|done]]. intros (y & E & Hy)%list_elem_of_fmap. cbn in E. injection E as E1 E2.
    apply Hx. apply list_elem_of_fmap. exists y. split; [|done]. unfold stat_id. rewrite E1. do 2 f_equal. apply Hinj; [apply Hin; left|apply Hin; by right|done].
  - intros s Hs. assert (stat_id s ∈ stat_id <$> latest_of stat_id readings) as Hid.
    { rewrite latest_keys. apply elem_of_distinct_strings, list_elem_of_fmap. by exists s. }
    apply list_elem_of_fmap in Hid as (x & E & Hx). exists (rename_host nm x). split; [apply list_elem_of_fmap; by exists x|].
    unfold stat_id in E. apply nul_split in E as [E1 E2]; [|by apply Hnul|by apply Hnul, Hin]. cbn. by rewrite E1, E2.
Qed.

(** ** Through mongos *)

(** A mongos of two shards, and one index's counters on each. *)
Definition router (address index : string) (a b : Z) (since_a since_b : Z) : Node :=
  {| mn_hello := inr (Some [("msg"%string, BStr "isdbgrid"); ("isWritablePrimary"%string, BBool true)]); mn_address := Some address;
     mn_indexStats := fun _ _ =>
       inr [Some {| is_name := index; is_host := "shard0:27018"; is_ops := a; is_since := since_a |};
            Some {| is_name := index; is_host := "shard1:27018"; is_ops := b; is_since := since_b |}];
     mn_latencyStats := fun _ _ => inr [] |}.
Definition router_usage (address index : string) (a b since_a since_b : Z) (allowed : string -> bool) (connect : string -> option Node) : list MemberUsage :=
  let node := router address index a b since_a since_b in
  member_usage <$> fst (collectUsage node (dials node allowed connect) None "shop" "orders").

Lemma router_usage_named address index a b since_a since_b allowed connect :
  router_usage address index a b since_a since_b allowed connect =
  [{| member := address; ops := a; since := Some (At since_a) |}; {| member := address; ops := b; since := Some (At since_b) |}].
Proof.
  unfold router_usage. rewrite collectUsage_readings. change (dials _ allowed connect) with (@nil MemberDial).
  unfold readings_of. cbn [answered_members omap list_omap fmap list_fmap mjoin list_join]. rewrite app_nil_r.
  change (fst (readIndexStats _ _ _ _)) with
    [{| iu_indexName := index; iu_host := "shard0:27018"; iu_ops := a; iu_since := At since_a |};
     {| iu_indexName := index; iu_host := "shard1:27018"; iu_ops := b; iu_since := At since_b |}].
  set (s0 := {| iu_indexName := index |}). set (s1 := {| iu_indexName := index; iu_host := "shard1:27018" |}).
  assert (String.eqb (stat_id s1) (stat_id s0) = false /\ String.eqb (stat_id s0) (stat_id s1) = false) as [E1 E2].
  { split; apply String.eqb_neq; unfold stat_id; cbn; intros E; apply (inj (String.append index)) in E; done. }
  unfold latest_of, grouped, put_group. cbn [fold_left map_get List.find fmap option_fmap option_map]. unfold map_get. cbn -[stat_id String.eqb s0 s1].
  rewrite E2. cbn -[stat_id String.eqb s0 s1]. done.
Qed.

Lemma member_map_pair m1 m2 : member m1 = member m2 -> member_map [m1; m2] !! member m2 = Some m2.
Proof. intros E. unfold member_map. cbn. by rewrite lookup_insert_eq. Qed.

(** Through mongos the counters of the shards are mixed up. A mongos names no
    members, so the reading of every shard is stored under its one address, and
    the next collect compares each of them with the last: where one shard answered
    any number of queries from an index and came level with the other, the index
    reads as unused, with no restart to doubt it; where nobody used it and the
    shards began to count at different instants, it reads as used. *)
Theorem sharded_usage_misread (address index : string) (a d : nat) (s : Z) (allowed : string -> bool) (connect : string -> option Node) :
  let reading ops_a ops_b since_b := router_usage address index ops_a ops_b s since_b allowed connect in
  let held := Z.of_nat a in let moved := Z.of_nat (a + d) in
  (activityBetween (Some (member_map (reading held moved s))) (reading moved moved s) = 0
   /\ countersRestartedBetween (Some (member_map (reading held moved s))) (reading moved moved s) = false)
  /\ activityBetween (Some (member_map (reading held moved (s + 1)))) (reading held moved (s + 1)) = held.
Proof.
  cbn zeta beta. rewrite !router_usage_named.
  unfold activityBetween, countersRestartedBetween, member_restarted, member_activity. rewrite !zsum_cons. cbn [existsb member mbind option_bind].
  assert (forall m1 m2, member m1 = address -> member m2 = address -> member_map [m1; m2] !! address = Some m2) as Hget.
  { intros m1 m2 E1 E2. rewrite <- E2. apply member_map_pair. congruence. }
  rewrite !Hget by done. cbn [since ops mbind option_bind getTime]. rewrite !bool_decide_true by done. rewrite !Z.ltb_irrefl. cbn [negb orb].
  split; [split; [cbv [zsum foldr]; lia|done]|].
  rewrite (bool_decide_false (Some (At (s + 1)) = Some (At s))) by (intros [= E]; lia). rewrite bool_decide_true by done.
  cbn [negb orb]. cbv [zsum foldr]. lia.
Qed.

(** ** The tally *)

Lemma map_delete_keys {V} k (m : list (string * V)) : (map_delete k m).*1 = List.filter (fun k' => negb (String.eqb k' k)) m.*1.
Proof. induction m as [|[k' v] m IH]; [done|]. cbn. destruct (String.eqb k' k); cbn; [done|]. f_equal. exact IH. Qed.
Lemma map_delete_absent {V} k (m : list (string * V)) : k ∉ m.*1 -> map_delete k m = m.
Proof.
  induction m as [|[k' v] m IH]; [done|]. cbn. intros [Hne Hm]%not_elem_of_cons. destruct (String.eqb_spec k' k); [done|]. cbn. f_equal. by apply IH.
Qed.

(** The tally of our own reads adds up and stays bounded. After a write the
    namespace counts what it did and the new reads; the tally holds no more than
    its limit, and keeps every other namespace as it was but one: where a new
    namespace does not fit, the one written longest ago. *)
Theorem tally_bounded (limit : nat) (key : string) (ops : Z) (counts : list (string * Z)) :
  (0 < limit)%nat -> NoDup counts.*1 -> (length counts <= limit)%nat ->
  let counts' := add_reads limit key ops counts in
  NoDup counts'.*1 /\ (length counts' <= limit)%nat /\ last counts' = Some (key, count_reads key counts + ops)
  /\ count_reads key counts' = count_reads key counts + ops
  /\ forall other, other <> key -> map_get other counts' = map_get other counts
       \/ (map_get other counts' = None /\ key ∉ counts.*1 /\ length counts = limit /\ head counts.*1 = Some other).
Proof.
  intros Hlim Hn Hlen. cbn zeta. unfold add_reads, count_reads. set (held := map_get key counts ?? 0).
  set (rest := map_delete key counts). assert (key ∉ rest.*1) as Hkey.
  { subst rest. rewrite map_delete_keys. intros [_ E]%elem_of_filter_bool. by rewrite String.eqb_refl in E. }
  rewrite map_put_fresh by done. assert (Hrn : NoDup rest.*1) by (by apply map_delete_nodup).
  assert (Hget : forall other, other <> key -> map_get other rest = map_get other counts).
  { intros other Hne. subst rest. rewrite map_get_delete. destruct (String.eqb_spec key other); [done|]. done. }
  assert (Hput : forall l, NoDup l.*1 -> key ∉ l.*1 -> NoDup (l ++ [(key, held + ops)]).*1
     /\ map_get key (l ++ [(key, held + ops)]) ?? 0 = held + ops
     /\ forall other, other <> key -> map_get other (l ++ [(key, held + ops)]) = map_get other l).
  { intros l Hl Hk. rewrite <- (map_put_fresh key (held + ops) l Hk). split_and!; [by apply map_put_nodup| |].
    - by rewrite map_get_put, String.eqb_refl.
    - intros other Hne. rewrite map_get_put. by destruct (String.eqb_spec key other). }
  destruct (decide (length (rest ++ [(key, (held + ops)%Z)]) <= limit)%nat) as [Hfit|Hfull].
  - assert (evict limit key (rest ++ [(key, held + ops)]) (rest ++ [(key, held + ops)]) = rest ++ [(key, held + ops)]) as ->.
    { destruct (rest ++ [(key, held + ops)]) as [|[c v] l] eqn:E; [done|]. cbn [evict]. by rewrite (proj2 (Nat.leb_le _ _) Hfit). }
    destruct (Hput rest Hrn Hkey) as (H1 & H2 & H3). split_and!; [done|done|apply last_snoc|done|]. intros other Hne. left. rewrite H3, Hget; done.
  - assert (Hrest : rest = counts).
    { subst rest. apply map_delete_absent. intros Hin. apply Hfull. rewrite length_app. cbn [length].
      enough (length (map_delete key counts) < length counts)%nat by lia. rewrite <- (length_fmap fst (map_delete key counts)), map_delete_keys, <- (length_fmap fst counts).
      clear -Hin. induction counts.*1 as [|x l IH]; [by apply elem_of_nil in Hin|]. cbn. destruct (String.eqb_spec x key) as [->|Hne]; cbn.
      - pose proof (List.filter_length_le (fun k' => negb (String.eqb k' key)) l). lia.
      - apply elem_of_cons in Hin as [->|Hin]; [done|]. specialize (IH Hin). lia. }
    rewrite Hrest in *. clear Hrest. rewrite length_app in Hfull. cbn [length] in Hfull. assert (length counts = limit) as El by lia.
    destruct counts as [|[c v] l] eqn:Ec; [cbn in El; lia|]. cbn [app evict]. rewrite (proj2 (Nat.leb_gt _ _)) by (cbn [length]; rewrite length_app; cbn in El |- *; lia).
    cbn in Hkey. apply not_elem_of_cons in Hkey as [Hck Hkl]. destruct (String.eqb_spec c key); [done|].
    cbn in Hn. apply NoDup_cons in Hn as [Hcl Hl].
    assert (map_delete c ((c, v) :: l ++ [(key, held + ops)]) = l ++ [(key, held + ops)]) as ->.
    { cbn. rewrite String.eqb_refl. cbn. apply map_delete_absent. rewrite fmap_app. intros [?|E%list_elem_of_singleton]%elem_of_app; [done|]. cbn in E. congruence. }
    assert (evict limit key (l ++ [(key, held + ops)]) (l ++ [(key, held + ops)]) = l ++ [(key, held + ops)]) as ->.
    { destruct (l ++ [(key, held + ops)]) as [|[c' v'] l'] eqn:E; [done|]. cbn [evict]. rewrite (proj2 (Nat.leb_le _ _)); [done|].
      rewrite <- E, length_app. cbn in El |- *. lia. }
    destruct (Hput l Hl Hkl) as (H1 & H2 & H3). split_and!; [done|rewrite length_app; cbn in El |- *; lia|apply last_snoc|done|].
    intros other Hne. rewrite H3 by done. destruct (decide (other = c)) as [->|Hoc].
    + right. split_and!; [by apply map_get_none|cbn; by apply not_elem_of_cons|done|done].
    + left. unfold map_get at 2. cbn. destruct (String.eqb_spec c other); [congruence|]. done.
Qed.

(** An index backs the shard key exactly when the key's fields, in order, begin
    its own. *)
Lemma shardKeyIsPrefix_spec shardKey fields :
  shardKeyIsPrefix shardKey fields = true <-> shardKey <> [] /\ shardKey `prefix_of` fields.
Proof.
  unfold shardKeyIsPrefix. destruct ((length shardKey =? 0)%nat || (length fields <? length shardKey)%nat) eqn:E.
  - split; [done|]. intros [Hne [rest ->]]. rewrite length_app in E. bools. rewrite Nat.eqb_eq, Nat.ltb_lt in E.
    destruct shardKey; [done|]. cbn in E. lia.
  - bools. rewrite Nat.eqb_neq, Nat.ltb_ge in E. setoid_rewrite bool_decide_eq_true. split.
    + intros H. split; [intros ->; cbn in E; lia|]. exists (drop (length shardKey) fields). rewrite <- (take_drop (length shardKey) fields) at 1. f_equal.
      apply list_eq_same_length with (length shardKey); [done|rewrite length_take; lia|].
      intros i x y Hi Hx Hy. rewrite lookup_take in Hx. case_decide; [|done]. specialize (H i y Hy). congruence.
    + intros [_ [rest ->]] j x Hj. by apply lookup_app_l_Some.
Qed.

Lemma tally_bounded_witness :
  let counts' := add_reads 2 "c" 5 [("a", 1); ("b", 2)]%string in
  NoDup counts'.*1 /\ (length counts' <= 2)%nat /\ last counts' = Some ("c"%string, 5) /\ count_reads "c" counts' = 5
  /\ map_get "a" counts' = None.
Proof.
  destruct (tally_bounded 2 "c" 5 [("a", 1); ("b", 2)]%string) as (Hn & Hl & Hlast & Hc & _); [lia|apply (bool_decide_eq_true_1 (NoDup _)); reflexivity|cbn; lia|].
  split_and!; [exact Hn|exact Hl|exact Hlast|exact Hc|reflexivity].
Defined.
