(* ===== verification/Profiler.v ===== *)
(** The profiler of a MongoDB database kept on for the drops in flight, and what
    its ring says of failing operations: [apps/api/src/mongo/profiler.ts].

    A filter is a document of [MongoShapes].  What the driver and the runtime do
    to text is a class: [JSON.stringify] and [JSON.parse], and the driver's BSON
    in base64.  The marker's numbers are whole but for the sample rate. *)
From S2P Require Import Prelude Relational EngineTypes StoredSpec Failures Cooldowns Creates ClassifyJob SpecKey Impact MongoShapes.

Local Open Scope string_scope.
Local Open Scope Z_scope.
Local Open Scope list_scope.

(** ** Text *)

Class JsonText := { JSON_stringify : json -> string; JSON_parse : string -> option json }.
Class JsonTextLaws `{JsonText} : Prop := json_round_trip j : JSON_parse (JSON_stringify j) = Some j.
Class BsonText := { serialize : document -> string; deserialize : string -> document }.
Class BsonTextLaws `{BsonText} : Prop := bson_round_trip d : deserialize (serialize d) = d.

(** ** Settings *)

Record ProfilerSettings := {
  was : Z;
  slowms : Z;
  sampleRate : option Q;
  ps_filter : option document;
}.
Definition profilerBlindSpot (database : string) (settings : option ProfilerSettings) : option string :=
  match settings with
  | None => Some ("the profiler's settings on " +:+ database +:+ " could not be read, so it may keep only slow operations")
  | Some s =>
      if 2 <=? was s then None
      else if was s <=? 0 then Some ("the profiler on " +:+ database +:+ " has since been turned off")
      else if is_some (ps_filter s) then Some ("the profiler on " +:+ database +:+ " keeps only what its filter selects")
      else
        let rate := sampleRate s ?? 1%Q in
        if (slowms s <=? 0) && Qle_bool 1 rate then None
        else
          let which := if Qle_bool 1 rate then "operations"%string
                       else "a " +:+ show (Math_round (rate * 100)) +:+ "% sample of operations" in
          Some ("the profiler on " +:+ database +:+ " keeps only " +:+ which +:+ " slower than " +:+ show (slowms s) +:+
                " ms, and a failed one is fast")
  end.

(** ** The marker *)

Record WatchMarker := {
  wk_owner : string;
  prior_level : Z;
  prior_filter : option string;
  wk_slow : option (Z * Q);
  wk_watch : list (string * Z);
  wk_hints : list (string * list string);
  wk_gaps : option (list (Z * Z));
}.
Definition int_json (z : Z) : json := JNum (inject_Z z).
Definition as_int (v : json) : option Z := match v with JNum q => if (Qden q =? 1)%positive then Some (Qnum q) else None | _ => None end.
Definition as_number (v : json) : option Q := match v with JNum q => Some q | _ => None end.
Definition marker_json (m : WatchMarker) : json :=
  JObj ([("v", int_json 1); ("owner", JStr (wk_owner m));
         ("prior", JObj [("level", int_json (prior_level m)); ("filter", or_null JStr (prior_filter m))]);
         ("slow", or_null (fun '(ms, rate) => JObj [("ms", int_json ms); ("rate", JNum rate)]) (wk_slow m));
         ("watch", JObj ((fun '(ns, start) => (ns, int_json start)) <$> wk_watch m));
         ("hints", JObj ((fun '(ns, names) => (ns, JArr (JStr <$> names))) <$> wk_hints m))] ++
        match wk_gaps m with Some gaps => [("gaps", JArr ((fun '(a, b) => JArr [int_json a; int_json b]) <$> gaps))] | None => [] end).
(** The schema. *)
Definition as_record {A} (parse : json -> option A) (v : json) : option (list (string * A)) :=
  as_object v ≫= mapM (fun '(key, value) => (fun a => (key, a)) <$> parse value).
Definition as_list {A} (parse : json -> option A) (v : json) : option (list A) := as_array v ≫= mapM parse.
Definition as_gap (v : json) : option (Z * Z) :=
  match v with JArr [a; b] => match as_int a, as_int b with Some a, Some b => Some (a, b) | _, _ => None end | _ => None end.
Definition nullable {A} (parse : json -> option A) (v : json) : option (option A) :=
  match v with JNull => Some None | _ => Some <$> parse v end.
Definition optional {A} (parse : json -> option A) (object : list (string * json)) (key : string) : option (option A) :=
  match StoredSpec.member object key with None => Some None | Some v => Some <$> parse v end.
Definition as_slow (v : json) : option (Z * Q) :=
  o ← as_object v; ms ← required as_int o "ms"; rate ← required as_number o "rate"; Some (ms, rate).
Definition as_prior (v : json) : option (Z * option string) :=
  o ← as_object v; level ← required as_int o "level"; filter ← required (nullable as_string) o "filter"; Some (level, filter).
Definition watchMarker (v : json) : option WatchMarker :=
  o ← as_object v;
  version ← required as_int o "v";
  if negb (version =? 1) then None
  else
    owner ← required as_string o "owner";
    prior ← required as_prior o "prior";
    slow ← required (nullable as_slow) o "slow";
    watch ← required (as_record as_int) o "watch";
    hints ← required (as_record (as_list as_string)) o "hints";
    gaps ← optional (as_list as_gap) o "gaps";
    Some {| wk_owner := owner; prior_level := fst prior; prior_filter := snd prior; wk_slow := slow; wk_watch := watch; wk_hints := hints;
            wk_gaps := gaps |}.

Definition MARKER_PREFIX : string := "indexterity$".
Definition after_prefix (s : string) : string := String.substring (String.length MARKER_PREFIX) (String.length s - String.length MARKER_PREFIX) s.
(** The first text of a value that begins as a marker does. *)
Fixpoint markerString (value : bson) : option string :=
  match value with
  | BStr s => if String.prefix MARKER_PREFIX s then Some s else None
  | BArr l => foldr (fun child rest => match markerString child with Some s => Some s | None => rest end) None l
  | BDoc es => foldr (fun entry rest => match markerString (snd entry) with Some s => Some s | None => rest end) None es
  | _ => None
  end.

Section profiler.
Context `{JsonText} `{BsonText}.

Definition markerOf (filter : option document) : option WatchMarker :=
  match filter ≫= fun f => markerString (BDoc f) with
  | None => None
  | Some found => JSON_parse (after_prefix found) ≫= watchMarker
  end.

Definition number (z : Z) : bson := BNum (inject_Z z).
Definition keptClause (marker : WatchMarker) : document :=
  match prior_filter marker with
  | Some filter => deserialize filter
  | None =>
      let '(ms, rate) := wk_slow marker ?? (100, 1%Q) in
      let threshold := [("millis"%string, BDoc [("$gte"%string, number ms)])] in
      if Qle_bool 1 rate then threshold
      else [("$and"%string, BArr [BDoc threshold; BDoc [("$sampleRate"%string, BNum rate)]])]
  end.
Definition hint_clauses (keys : list (string * document)) (ns name : string) : list bson :=
  let at_ value := BDoc [("command.hint"%string, BDoc [("$eq"%string, value)])] in
  [at_ (BStr name); at_ (BDoc [("$hint"%string, BStr name)])] ++
  match map_get (ns +:+ nul_char +:+ name) keys with Some pattern => [at_ (BDoc pattern)] | None => [] end.
Definition failed_clause (namespaces : list string) : bson :=
  BDoc [("ns", BDoc [("$in", BArr (BStr <$> namespaces))]);
        ("$or", BArr [BDoc [("ok", number 0)]; BDoc [("errCode", BDoc [("$exists", BBool true)])]])]%string.
Definition marker_clause (marker : WatchMarker) : bson :=
  BDoc [("ns"%string, BDoc [("$eq"%string, BStr (MARKER_PREFIX +:+ JSON_stringify (marker_json marker)))])].
Definition hinted_clause (keys : list (string * document)) (entry : string * list string) : option bson :=
  let '(ns, names) := entry in
  match names with
  | [] => None
  | _ => Some (BDoc [("ns"%string, BStr ns); ("$or"%string, BArr (mjoin (hint_clauses keys ns <$> names)))])
  end.
Definition watchFilter (marker : WatchMarker) (keys : list (string * document)) : document :=
  [("$or"%string, BArr ([BDoc (keptClause marker); failed_clause (wk_watch marker).*1]
     ++ omap (hinted_clause keys) (wk_hints marker) ++ [marker_clause marker]))].

(** ** One step for one database on one node *)

Inductive WatchStep :=
  | KEEP | SET (marker : WatchMarker) | RESTORE (level : Z) (filter : option document) | DECLINE (reason : string).
(** A node's watch to put back as it was; [RESTORE] without a filter is "unset". *)
Record Resume := { rs_starts : list (string * Z); rs_seenAt : Z; rs_gaps : list (Z * Z) }.

(** [keys.sort()]: by code unit, which is by code point here. *)
Definition sort_texts (l : list string) : list string := stable_sort String.leb l.
Definition least (l : list Z) : option Z :=
  match l with [] => None | x :: l => Some (fold_left Z.min l x) end.
Definition markerFor (owner : string) (prior : Z * option string) (settings : ProfilerSettings) (wanted : list (string * list string))
    (watched : list (string * Z)) (gaps : list (Z * Z)) (now : Z) : WatchMarker :=
  let namespaces := sort_texts wanted.*1 in
  let watch := (fun ns => (ns, map_get ns watched ?? now)) <$> namespaces in
  let kept := stable_sort (fun a b => fst a <=? fst b)
    (List.filter (fun gap => match least watch.*2 with Some earliest => earliest <? snd gap | None => false end) gaps) in
  {| wk_owner := owner; prior_level := fst prior; prior_filter := snd prior;
     wk_slow := match snd prior with None => Some (slowms settings, sampleRate settings ?? 1%Q) | Some _ => None end;
     wk_watch := watch;
     wk_hints := (fun ns => (ns, sort_texts (distinct_strings (map_get ns wanted ?? [])))) <$> namespaces;
     wk_gaps := or_absent kept |}.
Definition sameMarker (a b : WatchMarker) : bool :=
  String.eqb (@canonicalSpec String.leb (marker_json a)) (@canonicalSpec String.leb (marker_json b)).

Definition planWatch (database owner : string) (settings : ProfilerSettings) (wanted : list (string * list string)) (now : Z)
    (resume : option Resume) : WatchStep :=
  let marker := markerOf (ps_filter settings) in
  let nothing := (length wanted =? 0)%nat in
  match marker with
  | Some marker =>
      if negb (String.eqb (wk_owner marker) owner) then
        if nothing then KEEP
        else DECLINE ("another Indexterity registration of this cluster has the profiler on " +:+ database)
      else if nothing then
        RESTORE (if was settings =? 1 then prior_level marker else was settings) (deserialize <$> prior_filter marker)
      else if was settings =? 0 then
        DECLINE ("the profiler on " +:+ database +:+ " was turned off after Indexterity turned it on")
      else if 2 <=? was settings then KEEP
      else
        let next := markerFor owner (prior_level marker, prior_filter marker) settings wanted (wk_watch marker) (wk_gaps marker ?? []) now in
        if sameMarker next marker then KEEP else SET next
  | None =>
      if nothing then KEEP
      else if 2 <=? was settings then KEEP
      else
        let rate := sampleRate settings ?? 1%Q in
        if negb (is_some (ps_filter settings)) && (slowms settings <=? 0) then
          if (was settings =? 1) && Qle_bool 1 rate then KEEP
          else DECLINE ("slowms is 0 on " +:+ database +:+ ", so keeping its slow-query log unchanged would profile every operation")
        else
          SET (markerFor owner (was settings, serialize <$> ps_filter settings) settings wanted
            (match resume with Some r => rs_starts r | None => [] end)
            (match resume with Some r => rs_gaps r ++ [(rs_seenAt r, now)] | None => [] end) now)
  end.
End profiler.

(** ** What failed *)

Record FailureGroup := { fg_code : option Z; fg_name : option string; fg_hint : option Hint; fg_failed : Z }.
Record SortedFailures := { sf_hinted : Z; sf_suspect : Z; sf_suspectKinds : FailureTally; sf_unrelated : FailureTally }.
Definition BAD_VALUE : Z := 2.
Definition SUSPECT (code : Z) : option string :=
  if code =? 50 then Some "MaxTimeMSExpired" else if code =? 292 then Some "QueryExceededMemoryLimitNoDiskUseAllowed"
  else if code =? 291 then Some "NoQueryExecutionPlans" else if code =? 27 then Some "IndexNotFound" else None.
(** [===] of two values of a key pattern: what is compared is a number or a text. *)
Definition same_direction (a b : bson) : bool :=
  match a, b with
  | BNum q, BNum r => Qeq_bool q r | BStr s, BStr t => String.eqb s t | BBool b, BBool c => Bool.eqb b c | BNull, BNull => true
  | _, _ => false
  end.
Definition hintsAt (hint : option Hint) (index : string) (key : option document) : bool :=
  match hint with
  | None => false
  | Some (HintName name) => String.eqb name index
  | Some (HintPattern pattern) =>
      match string_member "$hint" (BDoc pattern) with
      | Some wrapped => String.eqb wrapped index
      | None =>
          match key with
          | None => true
          | Some key =>
              (length pattern =? length key)%nat &&
              every_i (fun i '(field, direction) =>
                match key !! i with Some (f, d) => String.eqb f field && same_direction d direction | None => false end) pattern
          end
      end
  end.
Definition failure_kind (group : FailureGroup) : string :=
  let known := fg_code group ≫= SUSPECT in
  or_else (fg_name group) known ?? (match fg_code group with None => "unnamed errors" | Some code => "error " +:+ show code end).
Definition failure_tally (group : FailureGroup) : Tally := {| t_kind := failure_kind group; t_failed := fg_failed group |}.
Section failures.
Context `{Locale}.
Definition sortFailures (groups : list FailureGroup) (index : string) (key : option document) : SortedFailures :=
  let at_index := List.filter (fun g => bool_decide (fg_code g = Some BAD_VALUE) && hintsAt (fg_hint g) index key) groups in
  let others := List.filter (fun g => negb (bool_decide (fg_code g = Some BAD_VALUE) && hintsAt (fg_hint g) index key)) groups in
  let suspects := List.filter (fun g => is_some (fg_code g ≫= SUSPECT)) others in
  let rest := List.filter (fun g => negb (is_some (fg_code g ≫= SUSPECT))) others in
  let suspectKinds := mergeTallies [failure_tally <$> suspects] in
  {| sf_hinted := zsum fg_failed at_index; sf_suspect := zsum t_failed suspectKinds; sf_suspectKinds := suspectKinds;
     sf_unrelated := mergeTallies [failure_tally <$> rest] |}.
Definition recorded (failures : SortedFailures) : Z := sf_hinted failures + sf_suspect failures + zsum t_failed (sf_unrelated failures).

(** ** The ring *)

Record RingFill := { rf_bytes : Z; rf_entries : Z; capBytes : Z; capEntries : option Z }.
Definition ring_full (count cap : Z) : bool := Qle_bool (inject_Z cap * (9 # 10)) (inject_Z count).
Definition ringTurnedOver (fill : option RingFill) : option bool :=
  match fill with
  | None => None
  | Some fill =>
      if capBytes fill <=? 0 then None
      else Some (ring_full (rf_bytes fill) (capBytes fill)
                 || match capEntries fill with Some cap => ring_full (rf_entries fill) cap | None => false end)
  end.
(** The ring's options and what it holds, where both answer and parse. *)
Record RingOptions := { ro_capped : option bool; ro_size : option Z; ro_max : option Z }.
Definition ringFillOn (ring : option RingOptions) (used : option (Z * Z)) : option RingFill :=
  match ring, used with
  | Some ring, Some (size, numObjects) =>
      match ro_capped ring, ro_size ring with
      | Some true, Some cap => Some {| rf_bytes := size; rf_entries := numObjects; capBytes := cap; capEntries := ro_max ring |}
      | _, _ => None
      end
  | _, _ => None
  end.
Definition greatest (l : list Z) : option Z :=
  match l with [] => None | x :: l => Some (fold_left Z.max l x) end.
Definition ringReach (rings : list (option RingFill * option Z)) : option Z :=
  greatest (omap (fun '(fill, oldest) => if bool_decide (ringTurnedOver fill = Some true) then oldest else None) rings).

(** ** The reading of one node *)

Definition reading_window (failures : SortedFailures) (reach : Z) (blind : option string) : FailedOpsReading :=
  WINDOW {| hinted := Some (sf_hinted failures); suspect := sf_suspect failures; suspectKinds := sf_suspectKinds failures;
            unrelated := sf_unrelated failures; fw_reachMs := reach; blindSpot := blind |}.
Definition missedClause (database : string) (gaps : list (Z * Z)) : option string :=
  match head gaps, last gaps with
  | Some first, Some last =>
      if (length gaps =? 1)%nat then
        Some ("a restart cleared the profiler on " +:+ database +:+ " between " +:+ utcMinute (fst first) +:+ " and " +:+
              utcMinute (snd first) +:+ ", so failures from the restart until " +:+ utcMinute (snd first) +:+ " were not recorded")
      else
        let most := zsum (fun gap => snd gap - fst gap) gaps in
        Some ("restarts cleared the profiler on " +:+ database +:+ " " +:+ show (Z.of_nat (length gaps)) +:+ " times between " +:+
              utcMinute (fst first) +:+ " and " +:+ utcMinute (snd last) +:+ ", so failures in up to " +:+ span most +:+
              " of that were not recorded")
  | _, _ => None
  end.
Definition failedOpsReading `{JsonText} (database collection : string) (failures : SortedFailures) (sinceMs : Z) (oldest : option Z)
    (fill : option RingFill) (settings : option ProfilerSettings) (throughMongos : bool) : FailedOpsReading :=
  if throughMongos then
    match oldest with
    | None => NO_SOURCE (database +:+ "'s primary shard has profiled nothing, and mongos cannot say whether its profiler is on")
    | Some oldest => reading_window failures oldest
        (Some ("only " +:+ database +:+ "'s primary shard is read, and mongos cannot say how its profiler is set"))
    end
  else
    let marker := markerOf (settings ≫= ps_filter) in
    let since := marker ≫= fun m => map_get (database +:+ "." +:+ collection) (wk_watch m) in
    let level := was <$> settings in
    match since with
    | Some since =>
        if bool_decide (level = Some 1) then
          let caveats := omap id
            [(if sinceMs <? since then Some ("the profiler on " +:+ database +:+ " has recorded failures only since " +:+
                utcMinute since +:+ ", after the hide") else None);
             missedClause database (List.filter (fun gap => sinceMs <? snd gap) ((marker ≫= wk_gaps) ?? []))] in
          reading_window failures
            (if bool_decide (ringTurnedOver fill = Some false) then since else Z.max since (oldest ?? since))
            (match caveats with [] => None | _ => Some (join "; " caveats) end)
        else if bool_decide (level = Some 0) then
          let off := "the profiler on " +:+ database +:+ " was turned off after Indexterity turned it on" in
          match oldest with
          | Some oldest => if recorded failures =? 0 then NO_SOURCE off else reading_window failures (Z.max since oldest) (Some off)
          | None => NO_SOURCE off
          end
        else
          match oldest with
          | None => NO_SOURCE ("the profiler on " +:+ database +:+ " has recorded nothing yet")
          | Some oldest => reading_window failures oldest (profilerBlindSpot database settings)
          end
    | None =>
        if bool_decide (level = Some 0) && (recorded failures =? 0) then NO_SOURCE ("the profiler is off on " +:+ database)
        else
          match oldest with
          | None => NO_SOURCE ("the profiler on " +:+ database +:+ " has recorded nothing yet")
          | Some oldest => reading_window failures oldest (profilerBlindSpot database settings)
          end
    end.

(** ** Every node's reading as one *)

Definition said (texts : list (string * option string)) : option string :=
  let present := omap (fun '(host, text) => (fun t => (host, t)) <$> text) texts in
  match present with
  | [] => None
  | (_, first) :: _ =>
      if (length (distinct_strings present.*2) =? 1)%nat && (length present =? length texts)%nat then Some first
      else Some (join "; " ((fun '(host, text) => "on " +:+ host +:+ ", " +:+ text) <$> present))
  end.
Definition reading_caveat (reading : FailedOpsReading) : option string :=
  match reading with WINDOW w => blindSpot w | NO_SOURCE reason => Some reason end.
Definition windows_of (readings : list (string * FailedOpsReading)) : list FailedOpsWindow :=
  omap (fun '(_, reading) => match reading with WINDOW w => Some w | NO_SOURCE _ => None end) readings.
Definition add_known (sum next : option Z) : option Z :=
  match sum, next with Some sum, Some next => Some (sum + next) | _, _ => None end.
Definition combineReadings (readings : list (string * FailedOpsReading)) : FailedOpsReading :=
  match readings with
  | [] => NO_SOURCE "no member could be read"
  | [(_, only)] => only
  | _ =>
      let windows := windows_of readings in
      let caveats := (fun '(host, reading) => (host, reading_caveat reading)) <$> readings in
      match greatest (fw_reachMs <$> windows) with
      | None => NO_SOURCE (said caveats ?? "no member could be read")
      | Some reach =>
          WINDOW {| hinted := fold_left add_known (hinted <$> windows) (Some 0); suspect := zsum suspect windows;
                    suspectKinds := mergeTallies (suspectKinds <$> windows); unrelated := mergeTallies (unrelated <$> windows);
                    fw_reachMs := reach; blindSpot := said caveats |}
      end
  end.
End failures.

(** ** The marker comes back *)

Section laws.
Context `{JsonTextLaws} `{BsonTextLaws}.

Lemma substring_app a b : String.substring (String.length a) (String.length (a +:+ b) - String.length a) (a +:+ b) = b.
Proof.
  induction a as [|c a IH]; [|exact IH].
  change (String.substring 0 (String.length b - 0) b = b). rewrite Nat.sub_0_r. induction b as [|c b IH]; [done|]. cbn. by f_equal.
Qed.
Lemma prefix_app a b : String.prefix a (a +:+ b) = true.
Proof. induction a as [|c a IH]; [by destruct b|]. change (String.prefix (String c a) (String c (a +:+ b)) = true).
  cbn [String.prefix]. by destruct (Ascii.ascii_dec c c).
Qed.

Lemma mapM_some {A B} (f : A -> option B) (g : B -> A) l : (forall b, f (g b) = Some b) -> mapM f (g <$> l) = Some l.
Proof. intros Hf. induction l as [|x l IH]; [done|]. cbn. rewrite Hf. cbn. by rewrite IH. Qed.
Lemma as_int_json z : as_int (int_json z) = Some z.
Proof. done. Qed.
Lemma watchMarker_json m : watchMarker (marker_json m) = Some m.
Proof.
  destruct m as [owner level filter slow watch hints gaps]. unfold watchMarker, marker_json. cbn [as_object mbind option_bind].
  unfold required, optional, StoredSpec.member. cbn [wk_owner prior_level prior_filter wk_slow wk_watch wk_hints wk_gaps].
  cbn [List.find app fst snd fmap option_fmap option_map String.eqb Ascii.eqb Bool.eqb mbind option_bind as_int int_json inject_Z Qden Qnum Pos.eqb Z.eqb negb as_string].
  assert (as_prior (JObj [("level", int_json level); ("filter", or_null JStr filter)]) = Some (level, filter)) as -> by (by destruct filter).
  cbn [mbind option_bind].
  assert (nullable as_slow (or_null (fun '(ms, rate) => JObj [("ms", int_json ms); ("rate", JNum rate)]) slow) = Some slow) as -> by (by destruct slow as [[]|]).
  cbn [mbind option_bind].
  assert (as_record as_int (JObj ((fun '(ns, start) => (ns, int_json start)) <$> watch)) = Some watch) as ->.
  { unfold as_record. cbn. apply mapM_some. by intros []. }
  assert (as_record (as_list as_string) (JObj ((fun '(ns, names) => (ns, JArr (JStr <$> names))) <$> hints)) = Some hints) as ->.
  { unfold as_record. cbn. apply mapM_some. intros [ns names]. unfold as_list. cbn. by rewrite mapM_some. }
  cbn [mbind option_bind].
  destruct gaps as [gaps|]; cbn [List.find app fst snd fmap option_fmap option_map String.eqb Ascii.eqb Bool.eqb mbind option_bind].
  - assert (as_list as_gap (JArr ((fun '(a, b) => JArr [int_json a; int_json b]) <$> gaps)) = Some gaps) as ->; [|done].
    unfold as_list. cbn. apply mapM_some. by intros [].
  - done.
Qed.

(** ** Passes over one database of one node *)

(** How the server reports a filter: rewritten, but with the texts it has. *)
Context (reported : document -> document).
Hypothesis reported_marker : forall f, markerString (BDoc (reported f)) = markerString (BDoc f).

(** The [profile] command a step sends. *)
Definition after_step (keys : list (string * document)) (settings : ProfilerSettings) (step : WatchStep) : ProfilerSettings :=
  match step with
  | KEEP | DECLINE _ => settings
  | SET marker =>
      {| was := 1; slowms := slowms settings; sampleRate := sampleRate settings; ps_filter := Some (reported (watchFilter marker keys)) |}
  | RESTORE level filter =>
      {| was := level; slowms := slowms settings; sampleRate := sampleRate settings; ps_filter := reported <$> filter |}
  end.

Definition plain (s : string) : bool := negb (String.prefix MARKER_PREFIX s).
Definition plain_wants (wanted : list (string * list string)) : Prop :=
  Forall (fun '(ns, names) => plain ns = true /\ Forall (fun name => plain name = true) names) wanted.
Definition plain_keys (keys : list (string * document)) : Prop := Forall (fun '(_, pattern) => markerString (BDoc pattern) = None) keys.
Definition plain_marker (m : WatchMarker) : Prop :=
  markerString (BDoc (keptClause m)) = None /\ Forall (fun ns => plain ns = true) (wk_watch m).*1
  /\ Forall (fun '(ns, names) => plain ns = true /\ Forall (fun name => plain name = true) names) (wk_hints m).

Definition first_marker (l : list bson) : option string :=
  foldr (fun child rest => match markerString child with Some s => Some s | None => rest end) None l.
Lemma first_marker_app l1 l2 : first_marker (l1 ++ l2) = match first_marker l1 with Some s => Some s | None => first_marker l2 end.
Proof. induction l1 as [|x l1 IH]; [done|]. cbn. destruct (markerString x); [done|]. exact IH. Qed.
Lemma first_marker_none l : Forall (fun v => markerString v = None) l -> first_marker l = None.
Proof. induction 1 as [|x l Hx _ IH]; [done|]. cbn. by rewrite Hx. Qed.
Lemma plain_text s : plain s = true -> markerString (BStr s) = None.
Proof. unfold plain. cbn. by destruct (String.prefix MARKER_PREFIX s). Qed.
Lemma marker_arr l : markerString (BArr l) = first_marker l.
Proof. done. Qed.
Lemma hint_clauses_plain keys ns name : plain_keys keys -> plain name = true -> Forall (fun v => markerString v = None) (hint_clauses keys ns name).
Proof.
  intros Hk Hn. apply plain_text in Hn. unfold hint_clauses. cbn -[markerString].
  constructor; [cbn -[MARKER_PREFIX]; cbn -[MARKER_PREFIX] in Hn; by rewrite Hn|].
  constructor; [cbn -[MARKER_PREFIX]; cbn -[MARKER_PREFIX] in Hn; by rewrite Hn|].
  destruct (map_get _ keys) as [pattern|] eqn:E; [|constructor]. apply map_get_in in E. unfold plain_keys in Hk. rewrite Forall_forall in Hk.
  specialize (Hk _ E). cbn -[markerString] in Hk. constructor; [|constructor]. cbn -[MARKER_PREFIX] in *. by rewrite Hk.
Qed.
Lemma hinted_clause_plain keys ns names v : plain_keys keys -> plain ns = true -> Forall (fun name => plain name = true) names ->
  hinted_clause keys (ns, names) = Some v -> markerString v = None.
Proof.
  intros Hk Hns Hn. unfold hinted_clause. destruct names as [|n names]; [done|]. intros [= <-]. apply plain_text in Hns.
  assert (first_marker (mjoin (hint_clauses keys ns <$> (n :: names))) = None) as Hj.
  { apply first_marker_none. induction Hn as [|x l Hx _ IH]; [constructor|]. cbn [fmap list_fmap mjoin list_join]. apply Forall_app.
    split; [by apply hint_clauses_plain|exact IH]. }
  change (match markerString (BStr ns) with Some s => Some s | None => match first_marker (mjoin (hint_clauses keys ns <$> (n :: names))) with Some s => Some s | None => None end end = None).
  by rewrite Hns, Hj.
Qed.
Lemma markerOf_watchFilter m keys : plain_marker m -> plain_keys keys -> markerOf (Some (reported (watchFilter m keys))) = Some m.
Proof.
  intros (Hkept & Hns & Hh) Hk. unfold markerOf. cbn [mbind option_bind]. rewrite reported_marker.
  assert (markerString (BDoc (watchFilter m keys)) = Some (MARKER_PREFIX +:+ JSON_stringify (marker_json m))) as ->.
  { unfold watchFilter.
    change (markerString (BDoc [("$or", BArr ?l)])) with (match first_marker l with Some s => Some s | None => None end).
    rewrite !first_marker_app.
    assert (first_marker [BDoc (keptClause m); failed_clause (wk_watch m).*1] = None) as ->.
    { apply first_marker_none. constructor; [done|]. constructor; [|constructor].
      assert (first_marker (BStr <$> (wk_watch m).*1) = None) as Hf.
      { apply first_marker_none. apply Forall_fmap. eapply Forall_impl; [done|]. intros ns Hp. by apply plain_text. }
      change (match match first_marker (BStr <$> (wk_watch m).*1) with Some s => Some s | None => None end with Some s => Some s | None => None end = None). by rewrite Hf. }
    assert (first_marker (omap (hinted_clause keys) (wk_hints m)) = None) as ->.
    { apply first_marker_none. apply Forall_forall. intros v (  [ns names] & Hin & E)%list_elem_of_omap.
      rewrite Forall_forall in Hh. destruct (Hh _ Hin) as [Hp Hn]. by eapply hinted_clause_plain. }
    change (first_marker [marker_clause m]) with
      (match match match markerString (BStr (MARKER_PREFIX +:+ JSON_stringify (marker_json m))) with Some s => Some s | None => None end with Some s => Some s | None => None end with Some s => Some s | None => None end).
    cbn [markerString]. by rewrite prefix_app. }
  unfold after_prefix. rewrite substring_app, json_round_trip. cbn [mbind option_bind]. apply watchMarker_json.
Qed.

Record WatchPass := { wp_wanted : list (string * list string); wp_now : Z; wp_resume : option Resume; wp_keys : list (string * document) }.
Definition run_pass (database owner : string) (settings : ProfilerSettings) (p : WatchPass) : ProfilerSettings :=
  after_step (wp_keys p) settings (planWatch database owner settings (wp_wanted p) (wp_now p) (wp_resume p)).
Definition plain_pass (p : WatchPass) : Prop := plain_wants (wp_wanted p) /\ plain_keys (wp_keys p).
(** A pass that wants nothing of the database any more. *)
Definition giving_back (now : Z) : WatchPass := {| wp_wanted := []; wp_now := now; wp_resume := None; wp_keys := [] |}.

(** A filter of the customer's own, as the server reports it. *)
Definition customers (settings : ProfilerSettings) : Prop :=
  match ps_filter settings with Some f => markerString (BDoc f) = None /\ reported f = f | None => True end.
Definition watched_from (owner : string) (original settings : ProfilerSettings) : Prop :=
  exists m, markerOf (ps_filter settings) = Some m /\ wk_owner m = owner /\ prior_level m = was original
    /\ prior_filter m = serialize <$> ps_filter original
    /\ was settings = 1 /\ slowms settings = slowms original /\ sampleRate settings = sampleRate original.

Lemma sort_texts_in l x : x ∈ sort_texts l <-> x ∈ l.
Proof. apply elem_of_stable_sort. Qed.
Lemma markerFor_plain owner prior settings wanted watched gaps now :
  plain_wants wanted -> (forall f, snd prior = Some f -> markerString (BDoc (deserialize f)) = None) ->
  plain_marker (markerFor owner prior settings wanted watched gaps now).
Proof.
  intros Hw Hp. unfold plain_wants in Hw. rewrite Forall_forall in Hw.
  assert (Hns : forall ns, ns ∈ sort_texts wanted.*1 -> plain ns = true).
  { intros ns Hin. rewrite sort_texts_in in Hin. apply list_elem_of_fmap in Hin as ([ns' names] & -> & Hin). by apply Hw in Hin as [? _]. }
  split; [|split].
  - unfold keptClause, markerFor. cbn [prior_filter wk_slow]. destruct (snd prior) as [f|]; [by apply Hp|]. cbn.
    by destruct (Qle_bool 1 _).
  - cbn. apply Forall_forall. intros ns Hin. apply list_elem_of_fmap in Hin as ([ns' t] & -> & Hin).
    apply list_elem_of_fmap in Hin as (ns & E & Hin). injection E as -> _. by apply Hns.
  - cbn. apply Forall_forall. intros [ns names] Hin. apply list_elem_of_fmap in Hin as (ns' & E & Hin). injection E as -> ->.
    split; [by apply Hns|]. apply Forall_forall. intros name Hn. rewrite sort_texts_in, elem_of_distinct_strings in Hn.
    destruct (map_get ns' wanted) as [l|] eqn:Eg; [|by apply elem_of_nil in Hn]. apply map_get_in in Eg. apply Hw in Eg as [_ Eg].
    rewrite Forall_forall in Eg. by apply Eg.
Qed.
Lemma planWatch_none database owner settings now resume : markerOf (ps_filter settings) = None -> planWatch database owner settings [] now resume = KEEP.
Proof. intros E. unfold planWatch. by rewrite E. Qed.

Lemma run_pass_watched database owner original settings p :
  customers original -> plain_pass p -> (0 < length (wp_wanted p))%nat ->
  settings = original /\ markerOf (ps_filter original) = None \/ watched_from owner original settings ->
  run_pass database owner settings p = original /\ settings = original \/ watched_from owner original (run_pass database owner settings p).
Proof.
  intros Hc [Hw Hk] Hne Hs. unfold run_pass, planWatch. destruct (Nat.eqb_spec (length (wp_wanted p)) 0) as [E|_]; [lia|].
  assert (Hset : forall prior watched gaps, prior = (was original, serialize <$> ps_filter original) ->
    slowms settings = slowms original -> sampleRate settings = sampleRate original ->
    watched_from owner original (after_step (wp_keys p) settings (SET (markerFor owner prior settings (wp_wanted p) watched gaps (wp_now p))))).
  { intros prior watched gaps -> Es Er. exists (markerFor owner (was original, serialize <$> ps_filter original) settings (wp_wanted p) watched gaps (wp_now p)).
    cbn [after_step ps_filter was slowms sampleRate]. split_and!; try done. apply markerOf_watchFilter; [|done]. apply markerFor_plain; [done|].
    intros f. cbn [snd]. unfold customers in Hc. destruct (ps_filter original) as [g|]; [|done]. intros [= <-]. rewrite bson_round_trip. apply Hc. }
  destruct Hs as [[-> Hn]|(m & Hm & Ho & Hl & Hf & Hw1 & Hs & Hr)].
  - rewrite Hn. destruct (2 <=? was original); [by left|].
    destruct (negb (is_some (ps_filter original)) && (slowms original <=? 0)); [left; by destruct (_ && _)|]. right. by apply Hset.
  - rewrite Hm, Ho, String.eqb_refl. cbn [negb]. rewrite Hw1. cbn [Z.eqb Z.leb Z.compare Pos.compare Pos.compare_cont].
    right. destruct (sameMarker _ m); [by exists m|]. apply Hset; [by rewrite Hl, Hf|done|done].
Qed.

Lemma run_pass_released database owner original settings p :
  customers original -> wp_wanted p = [] ->
  settings = original /\ markerOf (ps_filter original) = None \/ watched_from owner original settings ->
  run_pass database owner settings p = original.
Proof.
  intros Hc Hw0 [[-> Hn]|(m & Hm & Ho & Hl & Hf & Hw & Hsl & Hr)]; unfold run_pass; rewrite Hw0; [by rewrite planWatch_none|].
  unfold planWatch. rewrite Hm, Ho, String.eqb_refl. cbn [negb length Nat.eqb]. rewrite Hw. cbn [Z.eqb Pos.eqb after_step].
  rewrite Hl, Hf, Hsl, Hr. destruct original as [level slow rate filter]. cbn in *. f_equal. destruct filter as [f|]; [|done]. cbn.
  rewrite bson_round_trip. f_equal. unfold customers in Hc. apply Hc.
Qed.

(** The profiler is given back as it was found. Whatever passes come and go while
    drops are in flight, with whatever collections and hints they watch, once
    nothing is wanted of the database its level and its filter are what they were
    before the first of them. *)
Theorem profiler_given_back (database owner : string) (original : ProfilerSettings) (passes : list WatchPass) (now : Z) :
  customers original -> markerOf (ps_filter original) = None ->
  Forall (fun p => plain_pass p /\ (0 < length (wp_wanted p))%nat) passes ->
  run_pass database owner (fold_left (run_pass database owner) passes original) (giving_back now) = original.
Proof.
  intros Hc Hn Hp.
  assert (forall settings, settings = original /\ markerOf (ps_filter original) = None \/ watched_from owner original settings ->
    run_pass database owner (fold_left (run_pass database owner) passes settings) (giving_back now) = original) as Hall; [|apply Hall; by left].
  induction Hp as [|p passes [Hplain Hne] _ IH]; intros settings Hs; cbn [fold_left].
  - by apply (run_pass_released database owner original).
  - apply IH. destruct (run_pass_watched database owner original settings p Hc Hplain Hne Hs) as [[-> _]|Hw]; [by left|by right].
Qed.

Lemma filter_idem {A} (f : A -> bool) l : Forall (fun x => f x = true) l -> List.filter f l = l.
Proof. induction 1 as [|x l Hx _ IH]; [done|]. cbn. by rewrite Hx, IH. Qed.
Lemma map_get_fmap {V} (f : string -> V) ns l : ns ∈ l -> map_get ns ((fun k => (k, f k)) <$> l) = Some (f ns).
Proof.
  induction l as [|x l IH]; [intros []%elem_of_nil|]. intros Hin. unfold map_get. cbn. destruct (String.eqb_spec x ns) as [->|Hne]; [done|].
  apply elem_of_cons in Hin as [->|Hin]; [done|]. exact (IH Hin).
Qed.
(** Deciding again over what was decided changes nothing. *)
Lemma markerFor_again owner prior s s' wanted watched gaps now now' :
  slowms s' = slowms s -> sampleRate s' = sampleRate s ->
  let m := markerFor owner prior s wanted watched gaps now in
  markerFor owner prior s' wanted (wk_watch m) (wk_gaps m ?? []) now' = m.
Proof.
  intros Hs Hr m. unfold m, markerFor. cbn [wk_watch wk_gaps]. rewrite Hs, Hr, or_absent_default.
  set (namespaces := sort_texts wanted.*1).
  assert ((fun ns => (ns, map_get ns ((fun ns => (ns, map_get ns watched ?? now)) <$> namespaces) ?? now')) <$> namespaces =
    (fun ns => (ns, map_get ns watched ?? now)) <$> namespaces) as ->.
  { apply list_fmap_ext. intros i ns Hi. apply list_elem_of_lookup_2 in Hi. by rewrite (map_get_fmap (fun ns => map_get ns watched ?? now)). }
  do 2 f_equal. set (late := fun gap : Z * Z => _).
  assert (forall x y : Z * Z, (fst x <=? fst y) = false -> (fst y <=? fst x) = true) as Ht by (intros; lia).
  assert (forall x y z : Z * Z, (fst x <=? fst y) = true -> (fst y <=? fst z) = true -> (fst x <=? fst z) = true) as Htr by (intros; lia).
  rewrite filter_idem.
  - apply stable_sort_id. by apply stable_sort_sorted.
  - apply Forall_forall. intros gap Hg. apply elem_of_stable_sort, elem_of_filter_bool in Hg as [_ Hg]. done.
Qed.

(** One command is enough: after a pass that sets the profiler, a pass that wants
    the same finds nothing to do, whenever it comes. *)
Theorem watch_settles (database owner : string) (original settings : ProfilerSettings) (p : WatchPass) (m : WatchMarker) (now' : Z) (resume' : option Resume) :
  customers original -> plain_pass p ->
  settings = original /\ markerOf (ps_filter original) = None \/ watched_from owner original settings ->
  planWatch database owner settings (wp_wanted p) (wp_now p) (wp_resume p) = SET m ->
  planWatch database owner (after_step (wp_keys p) settings (SET m)) (wp_wanted p) now' resume' = KEEP.
Proof.
  intros Hc [Hw Hk] Hs E.
  assert (Hne : (length (wp_wanted p) =? 0)%nat = false).
  { unfold planWatch in E. cbv zeta in E. destruct (length (wp_wanted p) =? 0)%nat; [|done]. destruct (markerOf (ps_filter settings)) as [k|]; [|done]. by destruct (negb _). }
  assert (Hm : exists prior watched gaps, m = markerFor owner prior settings (wp_wanted p) watched gaps (wp_now p)
    /\ (forall f, snd prior = Some f -> markerString (BDoc (deserialize f)) = None)).
  { unfold planWatch in E. rewrite Hne in E. destruct Hs as [[-> Hn]|(k & Hm & Ho & Hl & Hf & Hw1 & _)].
    - rewrite Hn in E. destruct (2 <=? was original); [done|]. destruct (negb _ && _); [by destruct (_ && _)|]. injection E as <-.
      eexists _, _, _. split; [reflexivity|]. intros f. cbn [snd]. unfold customers in Hc. destruct (ps_filter original); [|done].
      intros [= <-]. rewrite bson_round_trip. apply Hc.
    - rewrite Hm, Ho, String.eqb_refl in E. cbn [negb] in E. rewrite Hw1 in E. cbn [Z.eqb Z.leb Z.compare Pos.compare Pos.compare_cont] in E. destruct (sameMarker _ k); [done|]. injection E as <-.
      eexists _, _, _. split; [reflexivity|]. intros f. cbn [snd]. rewrite Hf. unfold customers in Hc. destruct (ps_filter original); [|done].
      intros [= <-]. rewrite bson_round_trip. apply Hc. }
  destruct Hm as (prior & watched & gaps & -> & Hprior). set (m := markerFor _ _ _ _ _ _ _).
  unfold planWatch. cbn [after_step ps_filter was]. rewrite markerOf_watchFilter; [|by apply markerFor_plain|done].
  change (wk_owner m) with owner. rewrite String.eqb_refl, Hne. cbn [negb Z.eqb Z.leb Z.compare Pos.compare Pos.compare_cont].
  change (prior_level m) with (fst prior). change (prior_filter m) with (snd prior). rewrite <- surjective_pairing.
  subst m. rewrite (markerFor_again owner prior settings _ (wp_wanted p) watched gaps (wp_now p)) by done.
  unfold sameMarker. by rewrite String.eqb_refl.
Qed.

(** What somebody else decided stays. The profiler is set only where nobody turned
    it off after us and no other registration has it, and given back only where it
    is ours, at the level somebody has since set if it is no longer ours. *)
Theorem watch_leaves_others (database owner : string) (settings : ProfilerSettings) (wanted : list (string * list string)) (now : Z) (resume : option Resume) :
  match planWatch database owner settings wanted now resume with
  | SET m => wk_owner m = owner /\ was settings < 2 /\
      match markerOf (ps_filter settings) with Some held => wk_owner held = owner /\ was settings <> 0 | None => True end
  | RESTORE level filter => wanted = [] /\ exists held, markerOf (ps_filter settings) = Some held /\ wk_owner held = owner
      /\ filter = deserialize <$> prior_filter held /\ level = (if was settings =? 1 then prior_level held else was settings)
  | KEEP | DECLINE _ => True
  end.
Proof.
  unfold planWatch. destruct (markerOf (ps_filter settings)) as [held|].
  - destruct (String.eqb_spec (wk_owner held) owner) as [Ho|]; cbn [negb]; [|by destruct (_ =? 0)%nat].
    destruct wanted as [|w wanted]; cbn [length Nat.eqb]; [split; [done|by exists held]|].
    destruct (Z.eqb_spec (was settings) 0); [done|]. destruct (Z.leb_spec 2 (was settings)); [done|].
    destruct (sameMarker _ held); [done|]. done.
  - destruct wanted as [|w wanted]; cbn [length Nat.eqb]; [done|]. destruct (Z.leb_spec 2 (was settings)); [done|].
    destruct (negb _ && _); [by destruct (_ && _)|]. done.
Qed.
End laws.

(** ** The failures add up *)

Section failures_laws.
Context `{Locale}.

Lemma add_tally_total merged t : zsum t_failed (add_tally merged t) = zsum t_failed merged + t_failed t.
Proof.
  induction merged as [|m rest IH]; [unfold zsum; cbn; lia|]. cbn. destruct (String.eqb _ _); rewrite !zsum_cons; cbn; [lia|].
  rewrite IH. lia.
Qed.
Lemma mergeTallies_total tallies : zsum t_failed (mergeTallies tallies) = zsum t_failed (mjoin tallies).
Proof.
  unfold mergeTallies. rewrite (zsum_perm _ _ _ (stable_sort_perm _ _)).
  assert (forall l acc, zsum t_failed (fold_left add_tally l acc) = zsum t_failed acc + zsum t_failed l) as ->.
  { induction l as [|t l IH]; intros acc; cbn [fold_left]; [unfold zsum at 3; cbn; lia|]. rewrite IH, add_tally_total, zsum_cons. lia. }
  done.
Qed.
Lemma zsum_split {A} (f : A -> bool) (g : A -> Z) l :
  zsum g l = zsum g (List.filter f l) + zsum g (List.filter (fun x => negb (f x)) l).
Proof. induction l as [|x l IH]; [done|]. cbn. rewrite zsum_cons. destruct (f x); cbn; rewrite zsum_cons; lia. Qed.
Lemma zsum_filter_if {A} (f : A -> bool) (g : A -> Z) l : zsum g (List.filter f l) = zsum (fun x => if f x then g x else 0) l.
Proof. induction l as [|x l IH]; [done|]. cbn. rewrite zsum_cons. destruct (f x); cbn; [rewrite zsum_cons|]; lia. Qed.
Lemma zsum_mjoin {A} (g : A -> Z) (ls : list (list A)) : zsum g (mjoin ls) = zsum (zsum g) ls.
Proof. induction ls as [|l ls IH]; [done|]. change (mjoin (l :: ls)) with (l ++ mjoin ls). rewrite zsum_app, IH. by rewrite zsum_cons. Qed.
Lemma said_some host (texts : list (string * option string)) t : (host, t) ∈ texts -> t <> None -> said texts <> None.
Proof.
  intros Hin Ht. destruct t as [t|]; [|done]. unfold said.
  destruct (omap _ texts) as [|[h f] present] eqn:E; [|by destruct (_ && _)].
  assert ((host, t) ∈ omap (fun '(host, text) => (fun t => (host, t)) <$> text) texts) as Hp; [|rewrite E in Hp; by apply elem_of_nil in Hp].
  apply list_elem_of_omap. by exists (host, Some t).
Qed.
Lemma tallied groups : zsum t_failed (mjoin [failure_tally <$> groups]) = zsum fg_failed groups.
Proof. cbn [mjoin list_join]. rewrite app_nil_r. induction groups as [|g groups IH]; [done|]. cbn [fmap list_fmap]. by rewrite !zsum_cons, IH. Qed.

Lemma greatest_spec l : match greatest l with None => l = [] | Some m => m ∈ l /\ Forall (fun x => x <= m) l end.
Proof.
  destruct l as [|x l]; [done|]. cbn. revert x. induction l as [|y l IH]; intros x; cbn; [split; [left|by repeat constructor]|].
  destruct (IH (Z.max x y)) as [Hin Hle]. inversion_clear Hle as [|? ? Hm Hl]. split.
  - apply elem_of_cons in Hin as [E|Hin]; [|by do 2 right]. destruct (Z.max_spec x y) as [[_ Em]|[_ Em]]; rewrite E, Em; [right; left|left].
  - constructor; [lia|]. constructor; [lia|done].
Qed.
Lemma add_known_spec l init : fold_left add_known l init =
  match init with Some s => if forallb is_some l then Some (s + zsum (fun x => x ?? 0) l) else None | None => None end.
Proof.
  revert init. induction l as [|x l IH]; intros [s|]; cbn [fold_left forallb]; rewrite ?IH; cbn [add_known]; try done.
  - f_equal. unfold zsum. cbn. lia.
  - destruct x as [x|]; cbn; [|done]. destruct (forallb is_some l); [|done]. rewrite zsum_cons. cbn. f_equal. lia.
Qed.

(** Every failure that was read is in one of the three places, and the index
    answers for a refused hint only where the hint is at it. *)
Theorem sorted_failures_account (groups : list FailureGroup) (index : string) (key : option document) :
  recorded (sortFailures groups index key) = zsum fg_failed groups
  /\ sf_hinted (sortFailures groups index key) =
       zsum (fun g => if bool_decide (fg_code g = Some BAD_VALUE) && hintsAt (fg_hint g) index key then fg_failed g else 0) groups
  /\ sf_suspect (sortFailures groups index key) =
       zsum (fun g => if is_some (fg_code g ≫= SUSPECT) then fg_failed g else 0) groups.
Proof.
  set (at_ := fun g => bool_decide (fg_code g = Some BAD_VALUE) && hintsAt (fg_hint g) index key).
  unfold recorded, sortFailures. cbn [sf_hinted sf_suspect sf_unrelated]. rewrite !mergeTallies_total, !tallied. fold at_. split_and!.
  - rewrite (zsum_split at_ fg_failed groups), (zsum_split (fun g => is_some (fg_code g ≫= SUSPECT)) fg_failed (List.filter (fun g => negb (at_ g)) groups)).
    apply eq_sym, Z.add_assoc.
  - apply zsum_filter_if.
  - rewrite !zsum_filter_if. apply zsum_ext. intros g _. subst at_. cbn.
    case_bool_decide as E; [|done]. rewrite E. cbn. by destruct (hintsAt _ _ _).
Qed.

(** Nodes read one by one say what they say together: counts add up, a count one
    of them could not take is not made up from the others, and the window is no
    longer than the shortest of theirs. *)
Theorem combined_reading_adds_up (readings : list (string * FailedOpsReading)) (w : FailedOpsWindow) :
  (2 <= length readings)%nat -> combineReadings readings = WINDOW w ->
  hinted w = (if forallb is_some (hinted <$> windows_of readings) then Some (zsum (fun v => hinted v ?? 0) (windows_of readings)) else None)
  /\ suspect w = zsum suspect (windows_of readings)
  /\ zsum t_failed (suspectKinds w) = zsum (fun v => zsum t_failed (suspectKinds v)) (windows_of readings)
  /\ zsum t_failed (unrelated w) = zsum (fun v => zsum t_failed (unrelated v)) (windows_of readings)
  /\ fw_reachMs w ∈ fw_reachMs <$> windows_of readings
  /\ (forall v, v ∈ windows_of readings -> fw_reachMs v <= fw_reachMs w)
  /\ (forall host reading, (host, reading) ∈ readings -> reading_caveat reading <> None -> blindSpot w <> None).
Proof.
  intros Hl E. destruct readings as [|[h r] [|r2 readings]]; cbn in Hl; try lia. unfold combineReadings in E.
  set (all := (h, r) :: r2 :: readings) in *. pose proof (greatest_spec (fw_reachMs <$> windows_of all)) as Hg.
  destruct (greatest _) as [reach|]; [|done]. injection E as <-. cbn [hinted suspect suspectKinds unrelated fw_reachMs blindSpot].
  destruct Hg as [Hin Hle]. rewrite add_known_spec, zsum_fmap, !mergeTallies_total, !zsum_mjoin, !zsum_fmap. split_and!; try done.
  - intros v Hv. rewrite Forall_fmap, Forall_forall in Hle. by apply Hle.
  - intros host reading Hr Hc. apply (said_some host _ (reading_caveat reading)); [|done].
    change ((host, reading_caveat reading) ∈ (fun '(host, reading) => (host, reading_caveat reading)) <$> all). apply list_elem_of_fmap. by exists (host, reading).
Qed.
End failures_laws.

(** ** Texts there can be *)

Fixpoint bits (p : positive) : string :=
  match p with xH => "" | xO p => "0" +:+ bits p | xI p => "1" +:+ bits p end%string.
Fixpoint of_bits (s : string) : positive :=
  match s with EmptyString => xH | String (Ascii.Ascii one _ _ _ _ _ _ _) s => if one then xI (of_bits s) else xO (of_bits s) end.
Lemma of_bits_bits p : of_bits (bits p) = p.
Proof. induction p as [p IH|p IH|]; [exact (f_equal xI IH)|exact (f_equal xO IH)|done]. Qed.

Fixpoint bson_tree (v : bson) : gen_tree (bool + (Z * positive) + string + Z) :=
  match v with
  | BNull => GenNode 0 []
  | BOther => GenNode 4 []
  | BBool b => GenLeaf (inl (inl (inl b)))
  | BNum q => GenLeaf (inl (inl (inr (Qnum q, Qden q))))
  | BStr s => GenLeaf (inl (inr s))
  | BDate ms => GenLeaf (inr ms)
  | BArr l => GenNode 1 (map bson_tree l)
  | BDoc es => GenNode 2 (map (fun e => GenNode 3 [GenLeaf (inl (inr (fst e))); bson_tree (snd e)]) es)
  end.
Fixpoint tree_bson (t : gen_tree (bool + (Z * positive) + string + Z)) : bson :=
  match t with
  | GenLeaf (inl (inl (inl b))) => BBool b
  | GenLeaf (inl (inl (inr (n, d)))) => BNum {| Qnum := n; Qden := d |}
  | GenLeaf (inl (inr s)) => BStr s
  | GenLeaf (inr ms) => BDate ms
  | GenNode 1 l => BArr (map tree_bson l)
  | GenNode 2 l => BDoc (map (fun e => match e with GenNode _ [GenLeaf (inl (inr k)); v] => (k, tree_bson v) | _ => (""%string, BNull) end) l)
  | GenNode 4 _ => BOther
  | GenNode _ _ => BNull
  end.
Lemma tree_bson_tree v : tree_bson (bson_tree v) = v.
Proof.
  induction v as [| | [n d]| | | |l IH|es IH] using bson_ind'; try done; cbn; f_equal.
  - induction IH as [|x l Hx _ IH]; [done|]. cbn. by rewrite Hx, IH.
  - induction IH as [|[k v] l Hx _ IH]; [done|]. cbn in *. by rewrite Hx, IH.
Qed.
Definition bit_json : JsonText :=
  {| JSON_stringify := fun j => bits (encode (value_tree j)); JSON_parse := fun s => tree_value <$> decode (of_bits s) |}.
Definition bit_bson : BsonText :=
  {| serialize := fun d => bits (encode (bson_tree (BDoc d)));
     deserialize := fun s => match tree_bson <$> decode (of_bits s) with Some (BDoc d) => d | _ => [] end |}.
Lemma bit_json_laws : @JsonTextLaws bit_json.
Proof. intros j. cbn. rewrite of_bits_bits, decode_encode. cbn. by rewrite tree_value_tree. Qed.
Lemma bit_bson_laws : @BsonTextLaws bit_bson.
Proof. intros d. cbn -[bson_tree]. rewrite of_bits_bits, decode_encode. cbn -[bson_tree tree_bson]. by rewrite tree_bson_tree. Qed.

(** A database whose owner profiles one collection's slow operations, and the
    passes of a drop on another. *)
Definition their_settings : ProfilerSettings :=
  {| was := 1; slowms := 100; sampleRate := Some 1%Q; ps_filter := Some [("ns"%string, BStr "shop.orders")] |}.
Definition drop_pass (now : Z) : WatchPass :=
  {| wp_wanted := [("shop.users", ["email_1"])]%string; wp_now := now; wp_resume := None;
     wp_keys := [("shop.users" +:+ nul_char +:+ "email_1", [("email"%string, number 1)])] |}.
Lemma profiler_given_back_witness :
  @run_pass bit_json bit_bson (fun f => f) "shop" "ix" (fold_left (@run_pass bit_json bit_bson (fun f => f) "shop" "ix") [drop_pass 5; drop_pass 9] their_settings) (giving_back 12) = their_settings.
Proof.
  apply (@profiler_given_back bit_json bit_json_laws bit_bson bit_bson_laws (fun f => f)).
  - reflexivity.
  - done.
  - reflexivity.
  - assert (forall now, plain_pass (drop_pass now)) as Hp by (intros; split; repeat constructor).
    repeat constructor; apply Hp.
Defined.
Lemma watch_settles_witness : exists m,
  @planWatch bit_json bit_bson "shop" "ix" their_settings [("shop.users", ["email_1"])]%string 5 None = SET m
  /\ @planWatch bit_json bit_bson "shop" "ix" (@after_step bit_json bit_bson (fun f => f) (wp_keys (drop_pass 5)) their_settings (SET m)) [("shop.users", ["email_1"])]%string 9 None = KEEP.
Proof.
  eexists. split; [reflexivity|].
  apply (@watch_settles bit_json bit_json_laws bit_bson bit_bson_laws (fun f => f) ltac:(done) "shop" "ix" their_settings their_settings (drop_pass 5)).
  - done.
  - split; repeat constructor.
  - left. by split.
  - reflexivity.
Defined.
