(* ===== verification/Watch.v ===== *)
(** The profilers of a cluster's nodes brought in line with the drops in flight:
    [MongoFailureWatch] of [apps/api/src/mongo/failure-watch.ts].

    The profilers are a map from a node and a database to its settings.  What a
    pass meets is an environment: which reads fail, which commands are refused,
    the rings and the clock.  Nothing else changes the profilers during a pass. *)
From S2P Require Import Prelude EngineTypes Failures Cooldowns Store FailureWatch Snapshots Collect MongoShapes MongoReads Profiler.

Local Open Scope string_scope.
Local Open Scope Z_scope.
Local Open Scope list_scope.

Abbreviation Ring := (option RingFill * option Z)%type.
Abbreviation Profilers := (gmap (string * string) ProfilerSettings).
Abbreviation Wants := (list (string * list string)).

(** What a pass meets: at a node and a database, and at a collection. *)
Record Surroundings := {
  unread : string -> string -> bool;
  refuses : string -> string -> option DriverError;
  sr_ring : string -> string -> Ring;
  clock : string -> string -> Z;
  index_names : string -> string -> list (option string * option document);
  as_text : DriverError -> string;
}.

Inductive NodeOutcome :=
  | NODE_WATCHED (since : list (string * Z)) (ours : bool) (gaps : list (Z * Z)) (ring : Ring)
  | NODE_UNWATCHED (reason : string) (ours : bool).
Definition outcome_ours (outcome : NodeOutcome) : bool :=
  match outcome with NODE_WATCHED _ ours _ _ | NODE_UNWATCHED _ ours => ours end.

(** database -> namespace -> the indexes whose hint to record there. *)
Definition add_target (out : list (string * Wants)) (target : WatchTarget) : list (string * Wants) :=
  let namespaces := map_get (wt_database target) out ?? [] in
  let ns := wt_database target +:+ "." +:+ wt_collection target in
  let hints := map_get ns namespaces ?? [] in
  map_put (wt_database target) (map_put ns (if beforeHide target then hints ++ [wt_indexName target] else hints) namespaces) out.
Definition byDatabase (targets : list WatchTarget) : list (string * Wants) := fold_left add_target targets [].

Definition sinceOf (marker : WatchMarker) : list (string * Z) := wk_watch marker.
Definition resumeOn (host : string) (remembered : option WatchMemory) : option Resume :=
  match remembered with
  | None => None
  | Some remembered =>
      match wm_confirmed remembered !! host with
      | None => None
      | Some seenAt =>
          Some {| rs_starts := List.filter (fun '(_, start) => 0 <? start) (map_to_list (wm_starts remembered));
                  rs_seenAt := seenAt;
                  rs_gaps := (fun gap => (gap_from gap, gap_to gap)) <$> List.filter (fun gap => String.eqb (gap_host gap) host) (wm_gaps remembered) |}
      end
  end.
Definition slice_from (n : nat) (s : string) : string := String.substring n (String.length s - n) s.
Definition keyPatterns (sr : Surroundings) (database : string) (wanted : Wants) : list (string * document) :=
  fold_left (fun out '(ns, names) =>
    match names with
    | [] => out
    | _ =>
        fold_left (fun out '(name, key) =>
          match name, key with
          | Some name, Some key => if includes names name then map_put (ns +:+ nul_char +:+ name) key out else out
          | _, _ => out
          end) (index_names sr database (slice_from (String.length database + 1) ns)) out
    end) wanted [].

Definition message_of (sr : Surroundings) (error : DriverError) : string :=
  if String.eqb (de_message error) "" then as_text sr error else de_message error.
Definition refusal (sr : Surroundings) (database : string) (error : DriverError) : string :=
  if isAuthorizationError error then
    "Indexterity's user may not turn the profiler on for " +:+ database +:+ " (it needs the enableProfiler action)"
  else if de_server error && (bool_decide (de_code error = Some 8000) || text_includes (de_message error) "CMD_NOT_ALLOWED") then
    "this deployment does not allow the profile command, so the profiler on " +:+ database +:+ " cannot be turned on"
  else "the profiler on " +:+ database +:+ " could not be turned on (" +:+ message_of sr error +:+ ")".

Definition latest_since (wanted : Wants) (since : gmap string Z) (of_node : list (string * Z)) : gmap string Z :=
  fold_left (fun since ns => <[ns := Z.max (since !! ns ?? 0) (map_get ns of_node ?? 0)]> since) wanted.*1 since.
Definition node_since (outcome : NodeOutcome) : list (string * Z) :=
  match outcome with NODE_WATCHED since _ _ _ => since | NODE_UNWATCHED _ _ => [] end.
Definition node_gaps (entry : string * NodeOutcome) : list WatchGap :=
  match snd entry with
  | NODE_WATCHED _ _ gaps _ => (fun '(from, to) => {| gap_host := fst entry; gap_from := from; gap_to := to |}) <$> gaps
  | NODE_UNWATCHED _ _ => []
  end.
Definition node_ring (outcome : NodeOutcome) : Ring :=
  match outcome with NODE_WATCHED _ _ _ ring => ring | NODE_UNWATCHED _ _ => (None, None) end.
Definition refused_nodes (outcomes : list (string * NodeOutcome)) : list (string * string) :=
  omap (fun '(host, outcome) => match outcome with NODE_UNWATCHED reason _ => Some (host, reason) | NODE_WATCHED _ _ _ _ => None end) outcomes.
Definition combine (wanted : Wants) (outcomes : list (string * NodeOutcome)) : DatabaseWatch :=
  let ours := existsb (fun '(_, outcome) => outcome_ours outcome) outcomes in
  match wanted with
  | [] => RELEASED ours
  | _ =>
      match refused_nodes outcomes with
      | [] =>
          WATCHED {| w_since := fold_left (latest_since wanted) ((fun '(_, outcome) => node_since outcome) <$> outcomes) ∅;
                     w_ours := ours; w_confirmed := outcomes.*1; w_gaps := mjoin (node_gaps <$> outcomes);
                     w_ringReachMs := ringReach ((fun '(_, outcome) => node_ring outcome) <$> outcomes) |}
      | (_, first) :: _ as refused =>
          UNWATCHED
            (if (length (distinct_strings refused.*2) =? 1)%nat && (length refused =? length outcomes)%nat then first
             else join "; " ((fun '(host, reason) => "on " +:+ host +:+ ", " +:+ reason) <$> refused)) ours
      end
  end.

Section watch.
Context `{JsonText} `{BsonText} (reported : document -> document).

Definition step (sr : Surroundings) (owner database : string) (wanted : Wants) (remembered : option WatchMemory) (host : string)
    (profilers : Profilers) : Profilers * NodeOutcome :=
  match (if unread sr host database then None else profilers !! (host, database)) with
  | None => (profilers, NODE_UNWATCHED ("the profiler's settings on " +:+ database +:+ " could not be read") false)
  | Some settings =>
      let marker := markerOf (ps_filter settings) in
      let ours := match marker with Some marker => String.eqb (wk_owner marker) owner | None => false end in
      let todo := planWatch database owner settings wanted (clock sr host database) (resumeOn host remembered) in
      let done := <[(host, database) := after_step reported (keyPatterns sr database wanted) settings todo]> profilers in
      match todo with
      | KEEP =>
          (profilers,
           NODE_WATCHED
             (match marker with
              | Some marker => if ours && (was settings =? 1) then sinceOf marker else (fun ns => (ns, 0)) <$> wanted.*1
              | None => (fun ns => (ns, 0)) <$> wanted.*1
              end)
             ours (if ours then (marker ≫= wk_gaps) ?? [] else []) (sr_ring sr host database))
      | SET marker =>
          match refuses sr host database with
          | Some error => (profilers, NODE_UNWATCHED (refusal sr database error) ours)
          | None => (done, NODE_WATCHED (sinceOf marker) true (wk_gaps marker ?? []) (sr_ring sr host database))
          end
      | RESTORE _ _ =>
          match refuses sr host database with
          | Some error => (profilers, NODE_UNWATCHED ("the profiler on " +:+ database +:+ " could not be given back (" +:+ message_of sr error +:+ ")") true)
          | None => (done, NODE_UNWATCHED "" false)
          end
      | DECLINE reason => (profilers, NODE_UNWATCHED reason ours)
      end
  end.

Definition steps (sr : Surroundings) (owner database : string) (wanted : Wants) (remembered : option WatchMemory) (hosts : list string)
    (profilers : Profilers) : Profilers * list (string * NodeOutcome) :=
  fold_left (fun '(profilers, outcomes) host =>
    let '(profilers, outcome) := step sr owner database wanted remembered host profilers in (profilers, outcomes ++ [(host, outcome)]))
    hosts (profilers, []).

Definition pass_databases (targets : list WatchTarget) (release : list string) : list string :=
  distinct_strings ((byDatabase targets).*1 ++ release).
Definition through_mongos (wanted : list (string * Wants)) (database : string) : DatabaseWatch :=
  if is_some (map_get database wanted)
  then UNWATCHED ("the profiler is set on each shard, and Indexterity reaches " +:+ database +:+ " through mongos") false
  else RELEASED false.
Definition reconcile_database (sr : Surroundings) (owner : string) (wanted : list (string * Wants)) (memory : gmap string WatchMemory)
    (hosts : list string) (state : Profilers * list (string * DatabaseWatch)) (database : string) : Profilers * list (string * DatabaseWatch) :=
  let '(profilers, out) := state in
  let want := map_get database wanted ?? [] in
  let '(profilers, outcomes) := steps sr owner database want (memory !! database) hosts profilers in
  (profilers, map_put database (combine want outcomes) out).
Definition is_mongos (base : Node) : bool :=
  match helloNode base with Some self => match hn_role self with mongos => true | _ => false end | None => false end.
Definition reconcile (sr : Surroundings) (base : Node) (dialled : list MemberDial) (owner : string) (targets : list WatchTarget)
    (release : list string) (memory : gmap string WatchMemory) (profilers : Profilers) : Profilers * list (string * DatabaseWatch) :=
  let wanted := byDatabase targets in
  let databases := pass_databases targets release in
  if (length databases =? 0)%nat then (profilers, [])
  else if is_mongos base then
    (profilers, fold_left (fun out database => map_put database (through_mongos wanted database) out) databases [])
  else fold_left (reconcile_database sr owner wanted memory (profiledNodes base dialled).*1) databases (profilers, []).
End watch.

(** ** Failed operations on every node *)

(** One node's answers: the failures of the collection since an instant, grouped,
    or the error of reading or parsing them; its settings, its oldest entry, how
    full its ring is and whether it is a mongos. *)
Record RingNode := {
  rn_failures : DriverError + list FailureGroup;
  rn_settings : option ProfilerSettings;
  rn_oldest : option Z;
  rn_fill : option RingFill;
  rn_mongos : bool;
}.
Definition by_pattern (group : FailureGroup) : bool :=
  match fg_hint group with Some (HintPattern pattern) => negb (is_some (string_member "$hint" (BDoc pattern))) | _ => false end.
Definition keyPatternOf (specs : DriverError + list (option string * option document)) (indexName : string) : option document :=
  match specs with
  | inl _ => None
  | inr specs => List.find (fun '(name, _) => bool_decide (name = Some indexName)) specs ≫= snd
  end.
Definition failedOpsOn `{JsonText} `{Locale} (sr : Surroundings) (node : RingNode) (database collection : string) (sinceMs : Z) (indexName : string)
    (keyOf : option document) : FailedOpsReading :=
  match rn_failures node with
  | inl error =>
      NO_SOURCE (if isAuthorizationError error then "these credentials cannot read system.profile on " +:+ database
                 else "system.profile on " +:+ database +:+ " could not be read (" +:+ message_of sr error +:+ ")")
  | inr groups =>
      let key := if existsb by_pattern groups then keyOf else None in
      failedOpsReading database collection (sortFailures groups indexName key) sinceMs (rn_oldest node) (rn_fill node) (rn_settings node) (rn_mongos node)
  end.
Definition collectFailedOps `{JsonText} `{Locale} (sr : Surroundings) (nodes : list (string * RingNode)) (specs : DriverError + list (option string * option document))
    (database collection : string) (sinceMs : Z) (indexName : string) : FailedOpsReading :=
  combineReadings ((fun '(host, node) =>
    (host, failedOpsOn sr node database collection sinceMs indexName (keyPatternOf specs indexName))) <$> nodes).

(** The pattern of the index is read only where some hint is a pattern, which
    changes nothing: the failures sort as they would with it. *)
Theorem key_read_when_needed `{Locale} (groups : list FailureGroup) (index : string) (key : option document) :
  sortFailures groups index (if existsb by_pattern groups then key else None) = sortFailures groups index key.
Proof.
  destruct (existsb by_pattern groups) eqn:E; [done|].
  assert (forall g, g ∈ groups -> hintsAt (fg_hint g) index None = hintsAt (fg_hint g) index key) as Hh.
  { intros g Hg. assert (by_pattern g = false) as Hb.
    { destruct (by_pattern g) eqn:Eb; [|done]. rewrite <- E. symmetry. apply existsb_exists. exists g. by rewrite <- list_elem_of_In. }
    unfold by_pattern in Hb. destruct (fg_hint g) as [[name|pattern]|]; [done| |done]. cbn.
    by destruct (string_member "$hint" (BDoc pattern)). }
  assert (forall f g : FailureGroup -> bool, (forall x, x ∈ groups -> f x = g x) -> List.filter f groups = List.filter g groups) as Hf.
  { clear. induction groups as [|x l IH]; intros f g Hfg; [done|]. cbn. rewrite (Hfg x) by left. rewrite (IH f g) by (intros; apply Hfg; by right). done. }
  unfold sortFailures. rewrite (Hf _ (fun g => bool_decide (fg_code g = Some BAD_VALUE) && hintsAt (fg_hint g) index key)) by (intros; by rewrite Hh).
  rewrite (Hf (fun g => negb (bool_decide (fg_code g = Some BAD_VALUE) && hintsAt (fg_hint g) index None))
    (fun g => negb (bool_decide (fg_code g = Some BAD_VALUE) && hintsAt (fg_hint g) index key))) by (intros; by rewrite Hh). done.
Qed.

(** ** One node and one database at a time *)

Section laws.
Context `{JsonTextLaws} `{BsonTextLaws} (reported : document -> document).
Hypothesis reported_marker : forall f, markerString (BDoc (reported f)) = markerString (BDoc f).
Implicit Types (sr : Surroundings) (profilers : Profilers).

Definition pass_of sr database wanted remembered host : WatchPass :=
  {| wp_wanted := wanted; wp_now := clock sr host database; wp_resume := resumeOn host remembered; wp_keys := keyPatterns sr database wanted |}.
(** Nothing fails at a node for a database. *)
Definition answers sr host database : Prop := unread sr host database = false /\ refuses sr host database = None.

Lemma step_elsewhere sr owner database wanted remembered host profilers at_ :
  at_ <> (host, database) -> (step reported sr owner database wanted remembered host profilers).1 !! at_ = profilers !! at_.
Proof.
  intros Hne. unfold step. destruct (if unread _ _ _ then _ else _) as [settings|]; [|done].
  destruct (planWatch _ _ _ _ _ _); [done| | |done]; destruct (refuses _ _ _); cbn [fst]; try done; by rewrite lookup_insert_ne.
Qed.
Lemma step_here sr owner database wanted remembered host profilers settings :
  answers sr host database -> profilers !! (host, database) = Some settings ->
  (step reported sr owner database wanted remembered host profilers).1 !! (host, database) =
    Some (run_pass reported database owner settings (pass_of sr database wanted remembered host)).
Proof.
  intros [Hu Hr] Hp. unfold step, run_pass. cbn [pass_of wp_wanted wp_now wp_resume wp_keys]. rewrite Hu, Hp.
  destruct (planWatch _ _ _ _ _ _); rewrite ?Hr; cbn [fst]; try (rewrite lookup_insert_eq; done); done.
Qed.
Lemma step_same sr owner database wanted remembered host profilers profilers' :
  profilers !! (host, database) = profilers' !! (host, database) ->
  (step reported sr owner database wanted remembered host profilers).2 = (step reported sr owner database wanted remembered host profilers').2
  /\ (step reported sr owner database wanted remembered host profilers).1 !! (host, database) =
     (step reported sr owner database wanted remembered host profilers').1 !! (host, database).
Proof.
  intros E. unfold step. rewrite <- E. destruct (if unread _ _ _ then _ else _) as [settings|] eqn:Es; [|done].
  destruct (planWatch _ _ _ _ _ _); [done| | |done]; destruct (refuses _ _ _); cbn [fst snd]; try done; by rewrite !lookup_insert_eq.
Qed.

(** The steps of a database, each as if it were alone. *)
Lemma steps_at sr owner database wanted remembered hosts profilers : NoDup hosts ->
  (steps reported sr owner database wanted remembered hosts profilers).2 =
    (fun host => (host, (step reported sr owner database wanted remembered host profilers).2)) <$> hosts
  /\ forall at_, (steps reported sr owner database wanted remembered hosts profilers).1 !! at_ =
       (if bool_decide (snd at_ = database /\ fst at_ ∈ hosts)
        then (step reported sr owner database wanted remembered (fst at_) profilers).1 !! at_ else profilers !! at_).
Proof.
  induction hosts as [|host hosts IH] using rev_ind; intros Hn.
  - split; [done|]. intros at_. rewrite bool_decide_eq_false_2; [done|]. intros [_ []%elem_of_nil].
  - apply NoDup_app in Hn as (Hn & Hd & _). destruct (IH Hn) as [IHo IHs].
    unfold steps in *. rewrite fold_left_app. cbn [fold_left]. destruct (fold_left _ hosts _) as [mid outcomes]. cbn [fst snd] in *.
    assert (Hmid : mid !! (host, database) = profilers !! (host, database)).
    { rewrite IHs. rewrite bool_decide_eq_false_2; [done|]. intros [_ Hin]. apply (Hd _ Hin). by left. }
    destruct (step_same sr owner database wanted remembered host mid profilers Hmid) as [Eo Es].
    destruct (step reported sr owner database wanted remembered host mid) as [next outcome] eqn:Est. cbn [fst snd] in *. split.
    + rewrite IHo, fmap_app. cbn. by rewrite Eo.
    + intros [h d]. cbn [fst snd]. destruct (decide ((h, d) = (host, database))) as [E|Hne].
      * injection E as -> ->. rewrite Es. rewrite bool_decide_eq_true_2; [done|]. split; [done|]. apply elem_of_app. right. by left.
      * assert (next !! (h, d) = mid !! (h, d)) as ->.
        { pose proof (step_elsewhere sr owner database wanted remembered host mid (h, d) Hne) as Hs. by rewrite Est in Hs. }
        rewrite IHs. cbn [fst snd]. do 2 case_bool_decide; try done; set_solver.
Qed.

(** The databases of a pass, each as if it were alone. *)
Lemma fold_databases sr owner wanted memory hosts databases profilers : NoDup hosts -> NoDup databases ->
  let result := fold_left (reconcile_database reported sr owner wanted memory hosts) databases (profilers, []) in
  let at_node d h := step reported sr owner d (map_get d wanted ?? []) (memory !! d) h profilers in
  (forall h d, result.1 !! (h, d) = if bool_decide (d ∈ databases /\ h ∈ hosts) then (at_node d h).1 !! (h, d) else profilers !! (h, d))
  /\ forall d, map_get d result.2 =
       if bool_decide (d ∈ databases) then Some (combine (map_get d wanted ?? []) ((fun h => (h, (at_node d h).2)) <$> hosts)) else None.
Proof.
  intros Hh. induction databases as [|d' databases IH] using rev_ind; intros Hn; cbn zeta.
  - split; [|done]. intros h d. rewrite bool_decide_eq_false_2; [done|]. intros [[]%elem_of_nil _].
  - apply NoDup_app in Hn as (Hn & Hd & _). cbn zeta in IH. destruct (IH Hn) as [IHs IHo]. clear IH.
    rewrite fold_left_app. cbn [fold_left]. destruct (fold_left _ databases _) as [mid out]. cbn [fst snd] in *.
    assert (Hmid : forall h, mid !! (h, d') = profilers !! (h, d')).
    { intros h. rewrite IHs, bool_decide_eq_false_2; [done|]. intros [Hin _]. apply (Hd _ Hin). by left. }
    unfold reconcile_database. destruct (steps_at sr owner d' (map_get d' wanted ?? []) (memory !! d') hosts mid Hh) as [Eo Es].
    destruct (steps _ _ _ _ _ _ hosts mid) as [next outcomes]. cbn [fst snd] in *. split.
    + intros h d. rewrite Es. cbn [fst snd]. destruct (decide (d = d')) as [->|Hne].
      * case_bool_decide as E1; [rewrite bool_decide_eq_true_2 by set_solver|rewrite bool_decide_eq_false_2 by set_solver; apply Hmid].
        by apply step_same.
      * rewrite bool_decide_eq_false_2 by naive_solver. rewrite IHs. do 2 case_bool_decide; try done; set_solver.
    + intros d. rewrite map_get_put. destruct (String.eqb_spec d' d) as [->|Hne].
      * rewrite bool_decide_eq_true_2 by set_solver. do 2 f_equal. rewrite Eo. apply list_fmap_ext. intros i h _. f_equal. by apply step_same.
      * rewrite IHo. do 2 case_bool_decide; try done; set_solver.
Qed.
Lemma reconcile_at sr base dialled owner targets release memory profilers :
  is_mongos base = false -> NoDup (profiledNodes base dialled).*1 ->
  let result := reconcile reported sr base dialled owner targets release memory profilers in
  let wanted := byDatabase targets in
  let hosts := (profiledNodes base dialled).*1 in
  let databases := pass_databases targets release in
  let at_node d h := step reported sr owner d (map_get d wanted ?? []) (memory !! d) h profilers in
  (forall h d, result.1 !! (h, d) = if bool_decide (d ∈ databases /\ h ∈ hosts) then (at_node d h).1 !! (h, d) else profilers !! (h, d))
  /\ forall d, map_get d result.2 =
       if bool_decide (d ∈ databases) then Some (combine (map_get d wanted ?? []) ((fun h => (h, (at_node d h).2)) <$> hosts)) else None.
Proof.
  intros Hm Hh. cbn zeta. unfold reconcile. destruct (Nat.eqb_spec (length (pass_databases targets release)) 0) as [E|_].
  - apply length_zero_iff_nil in E. rewrite E. split; [|done]. intros h d. rewrite bool_decide_eq_false_2; [done|]. intros [[]%elem_of_nil _].
  - rewrite Hm.
    apply fold_databases; [done|]. unfold pass_databases, distinct_strings. apply distinct_from_NoDup.
Qed.

(** ** Over passes *)

Record ClusterPass := {
  cp_surroundings : Surroundings; cp_base : Node; cp_dialled : list MemberDial; cp_targets : list WatchTarget;
  cp_release : list string; cp_memory : gmap string WatchMemory }.
Definition run_cluster (owner : string) (profilers : Profilers) (p : ClusterPass) : Profilers :=
  (reconcile reported (cp_surroundings p) (cp_base p) (cp_dialled p) owner (cp_targets p) (cp_release p) (cp_memory p) profilers).1.
Definition wanted_of (p : ClusterPass) (d : string) : Wants := map_get d (byDatabase (cp_targets p)) ?? [].
Definition plain_at (h d : string) (p : ClusterPass) : Prop :=
  NoDup (profiledNodes (cp_base p) (cp_dialled p)).*1
  /\ plain_pass (pass_of (cp_surroundings p) d (wanted_of p d) (cp_memory p !! d) h).

Definition found_or_watched (owner : string) (original settings : ProfilerSettings) : Prop :=
  settings = original /\ markerOf (ps_filter original) = None \/ watched_from owner original settings.
Lemma step_kept sr owner database wanted remembered host profilers settings :
  ~ answers sr host database -> profilers !! (host, database) = Some settings ->
  (step reported sr owner database wanted remembered host profilers).1 !! (host, database) = Some settings.
Proof.
  intros Hn Hp. unfold step, answers in *. destruct (unread _ _ _); [done|]. rewrite Hp.
  destruct (planWatch _ _ _ _ _ _); [done| | |done]; (destruct (refuses _ _ _) eqn:E; [done|]; by destruct Hn).
Qed.
Lemma answers_dec sr host database : answers sr host database \/ ~ answers sr host database.
Proof. unfold answers. destruct (unread _ _ _), (refuses _ _ _); naive_solver. Qed.
Lemma step_invariant sr owner original database wanted remembered host profilers settings :
  customers reported original -> markerOf (ps_filter original) = None -> plain_pass (pass_of sr database wanted remembered host) ->
  profilers !! (host, database) = Some settings -> found_or_watched owner original settings ->
  exists settings', (step reported sr owner database wanted remembered host profilers).1 !! (host, database) = Some settings'
    /\ found_or_watched owner original settings'.
Proof.
  intros Hc Hn Hplain Hp Hs. destruct (answers_dec sr host database) as [Ha|Ha].
  - eexists. split; [by apply step_here|]. destruct wanted as [|w wanted].
    + left. split; [|done]. by apply run_pass_released.
    + destruct (run_pass_watched reported reported_marker database owner original settings (pass_of sr database (w :: wanted) remembered host)) as [[E _]|Hw]; try done.
      * cbn. lia.
      * left. by split.
      * by right.
  - exists settings. split; [by apply step_kept|done].
Qed.

Lemma elem_of_databases targets release d :
  d ∈ pass_databases targets release <-> d ∈ (byDatabase targets).*1 \/ d ∈ release.
Proof. unfold pass_databases. rewrite elem_of_distinct_strings, elem_of_app. done. Qed.
Lemma map_get_is_some {V} k (m : list (string * V)) : is_some (map_get k m) = true <-> k ∈ m.*1.
Proof.
  split.
  - destruct (map_get k m) as [v|] eqn:E; [|done]. intros _. apply map_get_in in E. apply list_elem_of_fmap. by exists (k, v).
  - intros Hin. destruct (map_get k m) as [v|] eqn:E; [done|]. exfalso. induction m as [|[k' v'] m IH]; [by apply elem_of_nil in Hin|].
    unfold map_get in E. cbn in E, Hin. destruct (String.eqb_spec k' k) as [->|Hne]; [done|].
    apply elem_of_cons in Hin as [->|Hin]; [done|]. by apply IH.
Qed.
Lemma byDatabase_target targets d : d ∈ (byDatabase targets).*1 <-> d ∈ wt_database <$> targets.
Proof.
  unfold byDatabase. induction targets as [|t targets IH] using rev_ind; [done|].
  rewrite fold_left_app, fmap_app, elem_of_app, <- IH. cbn [fold_left]. unfold add_target at 1.
  rewrite <- !map_get_is_some, map_get_put. cbn. rewrite list_elem_of_singleton.
  destruct (String.eqb_spec (wt_database t) d) as [->|Hne]; naive_solver.
Qed.
Lemma run_cluster_elsewhere owner profilers p h d :
  NoDup (profiledNodes (cp_base p) (cp_dialled p)).*1 ->
  run_cluster owner profilers p !! (h, d) = profilers !! (h, d)
  \/ run_cluster owner profilers p !! (h, d) =
     (step reported (cp_surroundings p) owner d (wanted_of p d) (cp_memory p !! d) h profilers).1 !! (h, d).
Proof.
  intros Hn. unfold run_cluster. destruct (is_mongos (cp_base p)) eqn:Hm.
  - left. unfold reconcile. rewrite Hm. by destruct (_ =? 0)%nat.
  - destruct (reconcile_at (cp_surroundings p) _ _ owner (cp_targets p) (cp_release p) (cp_memory p) profilers Hm Hn) as [-> _].
    case_bool_decide; [by right|by left].
Qed.

(** C31. Every profiler of the cluster is given back as it was found. Whatever passes
    came before, whichever nodes they reached, read or were refused by, the pass
    that releases a database and is answered by a node leaves that node's profiler
    as it was before the first of them. *)
Theorem cluster_given_back (owner h d : string) (original : ProfilerSettings) (passes : list ClusterPass) (final : ClusterPass) (profilers : Profilers) :
  customers reported original -> markerOf (ps_filter original) = None -> profilers !! (h, d) = Some original ->
  Forall (plain_at h d) passes -> plain_at h d final ->
  is_mongos (cp_base final) = false -> h ∈ (profiledNodes (cp_base final) (cp_dialled final)).*1 ->
  d ∈ cp_release final -> d ∉ wt_database <$> cp_targets final -> answers (cp_surroundings final) h d ->
  run_cluster owner (fold_left (run_cluster owner) passes profilers) final !! (h, d) = Some original.
Proof.
  intros Hc Hn Hp Hpasses [Hnd Hplain] Hm Hh Hd Hw Ha.
  assert (exists settings, fold_left (run_cluster owner) passes profilers !! (h, d) = Some settings /\ found_or_watched owner original settings)
    as (settings & Hs & Hinv).
  { assert (exists settings, profilers !! (h, d) = Some settings /\ found_or_watched owner original settings) as Hstart by (exists original; split; [done|by left]).
    clear Hp. revert profilers Hstart. induction Hpasses as [|p passes [Hpn Hpp] _ IH]; intros profilers (settings & Hs & Hinv); cbn [fold_left]; [by exists settings|].
    apply IH. destruct (run_cluster_elsewhere owner profilers p h d Hpn) as [->| ->]; [by exists settings|]. by eapply step_invariant. }
  unfold run_cluster at 1.
  destruct (reconcile_at (cp_surroundings final) _ _ owner (cp_targets final) (cp_release final) (cp_memory final) (fold_left (run_cluster owner) passes profilers) Hm Hnd) as [-> _].
  rewrite bool_decide_eq_true_2 by (split; [apply elem_of_databases; by right|done]).
  assert (map_get d (byDatabase (cp_targets final)) = None) as Hg.
  { destruct (map_get d _) eqn:E; [|done]. exfalso. apply Hw, byDatabase_target, map_get_is_some. by rewrite E. }
  erewrite step_here by done. f_equal. apply run_pass_released; [done..| |done]. cbn. by rewrite Hg.
Qed.

(** ** What being watched means *)

(** The profiler keeps every operation, or every failure of the wanted collections
    from no later than [since]. *)
Definition records (owner : string) (wanted : Wants) (since : gmap string Z) (settings : ProfilerSettings) : Prop :=
  2 <= was settings
  \/ (was settings = 1 /\ ps_filter settings = None /\ slowms settings <= 0 /\ (1 <= sampleRate settings ?? 1)%Q)
  \/ (was settings = 1 /\ exists m next, markerOf (ps_filter settings) = Some m /\ wk_owner m = owner
      /\ (wk_watch next).*1 = sort_texts wanted.*1 /\ sameMarker next m = true
      /\ forall ns, ns ∈ wanted.*1 -> map_get ns (wk_watch m) ?? 0 <= since !! ns ?? 0).
(** No filter has a text that only looks like a marker. *)
Definition readable (settings : ProfilerSettings) : Prop :=
  0 <= was settings /\
  match markerOf (ps_filter settings) with
  | Some m => forall f, prior_filter m = Some f -> markerString (BDoc (deserialize f)) = None
  | None => forall f, ps_filter settings = Some f -> markerString (BDoc f) = None
  end.

Lemma latest_since_le wanted since of_node ns :
  since !! ns ?? 0 <= latest_since wanted since of_node !! ns ?? 0
  /\ (ns ∈ wanted.*1 -> map_get ns of_node ?? 0 <= latest_since wanted since of_node !! ns ?? 0).
Proof.
  unfold latest_since. induction wanted.*1 as [|n l IH] using rev_ind; [split; [done|intros []%elem_of_nil]|].
  rewrite fold_left_app. cbn [fold_left]. destruct (decide (n = ns)) as [->|Hne].
  - rewrite lookup_insert_eq. cbn. split; lia.
  - rewrite lookup_insert_ne by done. split; [apply IH|]. intros [Hin|E%list_elem_of_singleton]%elem_of_app; [by apply IH|done].
Qed.
Lemma combined_since_le wanted of_nodes since ns :
  since !! ns ?? 0 <= fold_left (latest_since wanted) of_nodes since !! ns ?? 0
  /\ forall of_node, of_node ∈ of_nodes -> ns ∈ wanted.*1 -> map_get ns of_node ?? 0 <= fold_left (latest_since wanted) of_nodes since !! ns ?? 0.
Proof.
  revert since. induction of_nodes as [|n of_nodes IH]; intros since; cbn [fold_left]; [split; [done|by intros ? []%elem_of_nil]|].
  destruct (IH (latest_since wanted since n)) as [Hs Hn]. destruct (latest_since_le wanted since n ns) as [H1' H2']. split; [by etrans|].
  intros of_node [->|Hin]%elem_of_cons Hw; [|by apply Hn]. etrans; [by apply H2'|done].
Qed.
Lemma combine_watched wanted outcomes w : combine wanted outcomes = WATCHED w ->
  wanted <> [] /\ forall h outcome, (h, outcome) ∈ outcomes -> exists since ours gaps ring, outcome = NODE_WATCHED since ours gaps ring
    /\ forall ns, ns ∈ wanted.*1 -> map_get ns since ?? 0 <= w_since w !! ns ?? 0.
Proof.
  unfold combine. destruct wanted as [|x wanted]; [done|]. destruct (refused_nodes outcomes) as [|[]] eqn:E; [|done]. intros [= <-]. split; [done|].
  intros h outcome Hin. destruct outcome as [since ours gaps ring|reason ours].
  - exists since, ours, gaps, ring. split; [done|]. intros ns Hns. cbn [w_since]. eapply combined_since_le; [|done].
    apply list_elem_of_fmap. by exists (h, NODE_WATCHED since ours gaps ring).
  - exfalso. assert ((h, reason) ∈ refused_nodes outcomes) as Hr; [|rewrite E in Hr; by apply elem_of_nil in Hr].
    apply list_elem_of_omap. by exists (h, NODE_UNWATCHED reason ours).
Qed.

Lemma markerFor_namespaces owner prior settings wanted watched gaps now :
  (wk_watch (markerFor owner prior settings wanted watched gaps now)).*1 = sort_texts wanted.*1.
Proof. cbn. rewrite <- list_fmap_compose. erewrite list_fmap_ext; [apply list_fmap_id|]. done. Qed.
Lemma plan_set database owner settings wanted now resume m :
  plain_wants wanted -> readable settings -> planWatch database owner settings wanted now resume = SET m -> wanted <> []
  /\ plain_marker m /\ wk_owner m = owner /\ (wk_watch m).*1 = sort_texts wanted.*1.
Proof.
  intros Hw [_ Hr] E. assert (wanted <> []) as Hne.
  { intros ->. unfold planWatch in E. destruct (markerOf _); [|done]. by destruct (negb _). }
  split; [done|]. unfold planWatch in E. assert ((length wanted =? 0)%nat = false) as El by (by destruct wanted). rewrite El in E.
  destruct (markerOf (ps_filter settings)) as [held|].
  - destruct (negb _); [done|]. destruct (was settings =? 0); [done|]. destruct (2 <=? was settings); [done|].
    destruct (sameMarker _ held); [done|]. injection E as <-. split_and!; [by apply markerFor_plain|done|apply markerFor_namespaces].
  - destruct (2 <=? was settings); [done|]. destruct (negb _ && _); [by destruct (_ && _)|]. injection E as <-.
    split_and!; [apply markerFor_plain; [done|]|done|apply markerFor_namespaces].
    intros f. cbn [snd]. destruct (ps_filter settings) as [g|]; [|done]. intros [= <-]. rewrite bson_round_trip. by apply Hr.
Qed.
Lemma plan_keep database owner settings wanted now resume : wanted <> [] -> 0 <= was settings ->
  planWatch database owner settings wanted now resume = KEEP ->
  2 <= was settings \/ (was settings = 1 /\ ps_filter settings = None /\ slowms settings <= 0 /\ (1 <= sampleRate settings ?? 1)%Q)
  \/ (was settings = 1 /\ exists m next, markerOf (ps_filter settings) = Some m /\ wk_owner m = owner
      /\ (wk_watch next).*1 = sort_texts wanted.*1 /\ sameMarker next m = true).
Proof.
  intros Hne H0' E. unfold planWatch in E. assert ((length wanted =? 0)%nat = false) as El by (by destruct wanted). rewrite El in E.
  destruct (markerOf (ps_filter settings)) as [held|].
  - destruct (String.eqb_spec (wk_owner held) owner) as [Ho|]; [|done]. cbn [negb] in E.
    destruct (Z.eqb_spec (was settings) 0); [done|]. destruct (Z.leb_spec 2 (was settings)); [by left|].
    destruct (sameMarker _ held) eqn:Es; [|done]. right. right. split; [lia|]. eexists _, _. split_and!; [done|done| |exact Es]. apply markerFor_namespaces.
  - destruct (Z.leb_spec 2 (was settings)); [by left|]. destruct (ps_filter settings); [done|]. cbn [is_some negb andb] in E.
    destruct (Z.leb_spec (slowms settings) 0); [|done]. destruct (Z.eqb_spec (was settings) 1); [|done]. cbn [andb] in E.
    destruct (Qle_bool 1 _) eqn:Eq; [|done]. right. left. split_and!; try done. by apply Qle_bool_iff.
Qed.

Lemma step_watched sr owner database wanted remembered host profilers since ours gaps ring (latest : gmap string Z) :
  wanted <> [] -> plain_pass (pass_of sr database wanted remembered host) ->
  (forall settings, profilers !! (host, database) = Some settings -> readable settings) ->
  (step reported sr owner database wanted remembered host profilers).2 = NODE_WATCHED since ours gaps ring ->
  (forall ns, ns ∈ wanted.*1 -> map_get ns since ?? 0 <= latest !! ns ?? 0) ->
  exists settings, (step reported sr owner database wanted remembered host profilers).1 !! (host, database) = Some settings
    /\ records owner wanted latest settings.
Proof.
  intros Hw [Hpw Hpk] Hread. unfold step. destruct (if unread _ _ _ then _ else _) as [settings|] eqn:Es; [|done].
  assert (Hp : profilers !! (host, database) = Some settings) by (by destruct (unread sr host database)).
  pose proof (Hread _ Hp) as Hr. destruct (planWatch _ _ _ _ _ _) as [|m|level filter|reason] eqn:Eplan; cbn [fst snd].
  - intros [= <- _ _ _] Hl. exists settings. split; [done|].
    destruct (plan_keep _ _ _ _ _ _ Hw (proj1 Hr) Eplan) as [|[|(H1' & m & next & Hm & Ho & Hn & Hsm)]]; [by left|by right; left|].
    right. right. split; [done|]. exists m, next. split_and!; try done. rewrite Hm, Ho, String.eqb_refl, H1' in Hl. cbn [andb Z.eqb Pos.eqb] in Hl. exact Hl.
  - destruct (refuses _ _ _); [done|]. cbn [fst snd]. intros [= <- _ _ _] Hl. eexists. split; [apply lookup_insert_eq|].
    destruct (plan_set _ _ _ _ _ _ _ Hpw Hr Eplan) as (_ & Hplain & Ho & Hns). right. right. split; [done|].
    exists m, m. cbn [after_step ps_filter]. split_and!; [by apply markerOf_watchFilter|done|done| |done]. unfold sameMarker. apply String.eqb_refl.
  - by destruct (refuses _ _ _).
  - done.
Qed.

(** C32. A database said to be watched is watched on every node: after the pass each
    node's profiler keeps every operation, or holds our filter over exactly the
    collections of the drops in flight, in place no later than the instant the
    answer gives for each. *)
Theorem watched_on_every_node (sr : Surroundings) (base : Node) (dialled : list MemberDial) (owner d : string) (targets : list WatchTarget)
    (release : list string) (memory : gmap string WatchMemory) (profilers : Profilers) (w : Watched) :
  let wanted := map_get d (byDatabase targets) ?? [] in
  let hosts := (profiledNodes base dialled).*1 in
  is_mongos base = false -> NoDup hosts ->
  (forall h, h ∈ hosts -> plain_pass (pass_of sr d wanted (memory !! d) h)) ->
  (forall h settings, h ∈ hosts -> profilers !! (h, d) = Some settings -> readable settings) ->
  map_get d (reconcile reported sr base dialled owner targets release memory profilers).2 = Some (WATCHED w) ->
  forall h, h ∈ hosts -> exists settings,
    (reconcile reported sr base dialled owner targets release memory profilers).1 !! (h, d) = Some settings
    /\ records owner wanted (w_since w) settings.
Proof.
  intros wanted hosts Hm Hnd Hplain Hread Hw h Hh.
  destruct (reconcile_at sr base dialled owner targets release memory profilers Hm Hnd) as [Hs Ho].
  rewrite Ho in Hw. fold wanted hosts in Hw, Hs. case_bool_decide as Hd; [|done]. injection Hw as Hw.
  apply combine_watched in Hw as [Hne Hall].
  destruct (Hall h _ (proj2 (list_elem_of_fmap _ _ _) (ex_intro _ h (conj eq_refl Hh)))) as (since & our & gaps & ring & E & Hl).
  rewrite Hs, bool_decide_eq_true_2 by done. eapply step_watched; eauto.
Qed.

(** ** What is forgotten *)

(** One read that fails is enough to lose a profiler. Where the settings of the only
    node cannot be read for one pass, the pass deletes the row that remembers the
    database, and a later pass that wants nothing of it leaves our filter where it
    is: the database is not among those to release. *)
Theorem unread_profiler_forgotten (sr : Surroundings) (base : Node) (dialled : list MemberDial) (owner d host : string)
    (targets : list WatchTarget) (table : WatchTable) (memory : gmap string WatchMemory) (profilers : Profilers) (now : Z) :
  is_mongos base = false -> (profiledNodes base dialled).*1 = [host] -> unread sr host d = true ->
  d ∈ wt_database <$> targets \/ d ∈ watch_release table targets ->
  let pass := reconcile reported sr base dialled owner targets (watch_release table targets) memory profilers in
  exists watch, map_get d pass.2 = Some watch
    /\ record_watch table now table (d, watch) !! d = None
    /\ forall (next : ClusterPass) (listed : WatchTable),
         NoDup (profiledNodes (cp_base next) (cp_dialled next)).*1 -> listed !! d = None ->
         cp_release next = watch_release listed (cp_targets next) -> d ∉ wt_database <$> cp_targets next ->
         run_cluster owner pass.1 next !! (host, d) = profilers !! (host, d).
Proof.
  intros Hm Hh Hu Hd pass.
  assert (NoDup (profiledNodes base dialled).*1) as Hnd by (rewrite Hh; apply NoDup_singleton).
  destruct (reconcile_at sr base dialled owner targets (watch_release table targets) memory profilers Hm Hnd) as [Hs Ho]. fold pass in Hs, Ho.
  rewrite Hh in Ho, Hs. set (wanted := map_get d (byDatabase targets) ?? []) in *.
  assert (Hstep : step reported sr owner d wanted (memory !! d) host profilers =
    (profilers, NODE_UNWATCHED ("the profiler's settings on " +:+ d +:+ " could not be read") false)) by (unfold step; by rewrite Hu).
  eexists. split; [|split].
  - rewrite Ho. rewrite bool_decide_eq_true_2; [reflexivity|]. apply elem_of_databases. destruct Hd as [Hd|Hd]; [left; by apply byDatabase_target|by right].
  - fold wanted. cbn [fmap list_fmap]. rewrite Hstep. cbn [snd]. unfold combine. destruct wanted; apply lookup_delete_eq.
  - intros next listed Hn Hl Hr Hw.
    assert (pass.1 !! (host, d) = profilers !! (host, d)) as <-.
    { rewrite Hs. case_bool_decide; [|done]. fold wanted. by rewrite Hstep. }
    unfold run_cluster. destruct (is_mongos (cp_base next)) eqn:Em; [unfold reconcile; rewrite Em; by destruct (_ =? 0)%nat|].
    destruct (reconcile_at (cp_surroundings next) _ _ owner (cp_targets next) (cp_release next) (cp_memory next) pass.1 Em Hn) as [-> _].
    rewrite bool_decide_eq_false_2; [done|]. intros [Hin _]. apply elem_of_databases in Hin as [Hin|Hin]; [by apply Hw, byDatabase_target|].
    rewrite Hr in Hin. unfold watch_release in Hin. apply elem_of_filter_bool in Hin as [Hin _]. apply list_elem_of_fmap in Hin as ([d' row] & -> & Hin).
    apply elem_of_map_to_list in Hin. cbn in Hl. by rewrite Hl in Hin.
Qed.
End laws.

(** ** A standalone server *)

Definition calm : Surroundings :=
  {| unread := fun _ _ => false; refuses := fun _ _ => None; sr_ring := fun _ _ => (None, None); clock := fun _ _ => 5;
     index_names := fun _ _ => [(Some "email_1"%string, Some [("email"%string, number 1)])]; as_text := de_message |}.
Definition blinded : Surroundings :=
  {| unread := fun _ _ => true; refuses := fun _ _ => None; sr_ring := fun _ _ => (None, None); clock := fun _ _ => 7;
     index_names := fun _ _ => []; as_text := de_message |}.
Definition lone_server : Node :=
  {| mn_hello := inr None; mn_address := Some "db1:27017"%string; mn_indexStats := fun _ _ => inr []; mn_latencyStats := fun _ _ => inr [] |}.
Definition email_drop : WatchTarget := {| wt_database := "shop"; wt_collection := "users"; wt_indexName := "email_1"; beforeHide := true |}.
Definition their_profilers : Profilers := {[ ("db1:27017", "shop")%string := their_settings ]}.
Definition watch_pass (targets : list WatchTarget) (release : list string) : ClusterPass :=
  {| cp_surroundings := calm; cp_base := lone_server; cp_dialled := []; cp_targets := targets; cp_release := release; cp_memory := ∅ |}.

Lemma cluster_given_back_witness :
  @run_cluster bit_json bit_bson (fun f => f) "ix"
    (fold_left (@run_cluster bit_json bit_bson (fun f => f) "ix") [watch_pass [email_drop] []] their_profilers) (watch_pass [] ["shop"%string])
    !! ("db1:27017", "shop")%string = Some their_settings.
Proof.
  apply (@cluster_given_back bit_json bit_json_laws bit_bson bit_bson_laws (fun f => f)); try done.
  - repeat constructor; set_solver.
  - repeat constructor; set_solver.
  - by left.
  - by left.
  - apply not_elem_of_nil.
Defined.
Lemma watched_on_every_node_witness : exists w,
  map_get "shop" (@reconcile bit_json bit_bson (fun f => f) calm lone_server [] "ix" [email_drop] [] ∅ their_profilers).2 = Some (WATCHED w)
  /\ exists settings, (@reconcile bit_json bit_bson (fun f => f) calm lone_server [] "ix" [email_drop] [] ∅ their_profilers).1 !! ("db1:27017", "shop")%string = Some settings
    /\ @records bit_json "ix" [("shop.users", ["email_1"])]%string (w_since w) settings.
Proof.
  eexists. split; [reflexivity|].
  apply (@watched_on_every_node bit_json bit_json_laws bit_bson bit_bson_laws (fun f => f) ltac:(done) calm lone_server [] "ix" "shop" [email_drop] [] ∅ their_profilers).
  - done.
  - apply NoDup_singleton.
  - intros h _. split; repeat constructor.
  - intros h settings Hh. apply list_elem_of_singleton in Hh as ->. unfold their_profilers. rewrite lookup_singleton_eq. intros [= <-]. split; [done|].
    change (forall f, Some [("ns"%string, BStr "shop.orders")] = Some f -> markerString (BDoc f) = None). by intros f [= <-].
  - reflexivity.
  - by left.
Defined.
Lemma unread_profiler_forgotten_witness :
  let pass := @reconcile bit_json bit_bson (fun f => f) blinded lone_server [] "ix" [email_drop] [] ∅ their_profilers in
  exists watch, map_get "shop" pass.2 = Some watch /\ record_watch ∅ 9 ∅ ("shop"%string, watch) !! "shop"%string = None
    /\ @run_cluster bit_json bit_bson (fun f => f) "ix" pass.1 (watch_pass [] []) !! ("db1:27017", "shop")%string = Some their_settings.
Proof.
  destruct (@unread_profiler_forgotten bit_json bit_json_laws bit_bson bit_bson_laws (fun f => f) ltac:(done) blinded lone_server [] "ix" "shop" "db1:27017" [email_drop] ∅ ∅ their_profilers 9
    eq_refl eq_refl eq_refl (or_introl (list_elem_of_here _ _))) as (watch & Hw & Hr & Hn).
  exists watch. split; [exact Hw|]. split; [exact Hr|]. apply (Hn (watch_pass [] []) ∅); try done.
  - apply NoDup_singleton.
  - apply not_elem_of_nil.
Defined.
