(* ===== verification/SqlText.v ===== *)
(** The texts of the SQL Server engine: quoted names, the constants and offsets of
    a plan, the tables and indexes a plan or a statement names.  Models the text
    functions of [apps/api/src/mssql/connection.ts], [workload.ts],
    [delete-patterns.ts] and [collector.ts].

    A regular expression is the function that matches it at one place; none of
    those here has a choice to go back on, which the comments say of each. *)
From Stdlib Require Import Ascii.
From S2P Require Import Prelude EngineTypes NetGuard.

Local Open Scope string_scope.
Local Open Scope list_scope.

(** ** Names *)

Definition close : Ascii.ascii := "]".
(** [name.replaceAll("]", "]]")]. *)
Fixpoint double_close (s : string) : string :=
  match s with
  | EmptyString => EmptyString
  | String c s => if Ascii.eqb c close then String close (String close (double_close s)) else String c (double_close s)
  end.
(** [text.replaceAll("cc", "c")] of one character. *)
Fixpoint halve (c : Ascii.ascii) (s : string) : string :=
  match s with
  | EmptyString => EmptyString
  | String a EmptyString => s
  | String a (String b s as rest) => if Ascii.eqb a c && Ascii.eqb b c then String c (halve c s) else String a (halve c rest)
  end.
Definition quoteIdent (name : string) : string := "[" +:+ double_close name +:+ "]".

(** [text.indexOf(".")], as the texts before and after. *)
Fixpoint at_first (c : Ascii.ascii) (s : string) : option (string * string) :=
  match s with
  | EmptyString => None
  | String a s =>
      if Ascii.eqb a c then Some ("", s) else match at_first c s with Some (before, after) => Some (String a before, after) | None => None end
  end.
Definition splitCollectionName (collection : string) : string * string :=
  match at_first "." collection with None => ("dbo", collection) | Some parts => parts end.
Definition qualifiedTable (database collection : string) : string :=
  let '(schema, table) := splitCollectionName collection in
  quoteIdent database +:+ "." +:+ quoteIdent schema +:+ "." +:+ quoteIdent table.
Definition qualifiedCollection (collection : string) : string :=
  let '(schema, table) := splitCollectionName collection in schema +:+ "." +:+ table.

(** A text without its last character, where that is [c]. *)
Fixpoint strip_last (c : Ascii.ascii) (s : string) : option string :=
  match s with
  | EmptyString => None
  | String a EmptyString => if Ascii.eqb a c then Some "" else None
  | String a s => match strip_last c s with Some s => Some (String a s) | None => None end
  end.
(** A text between two characters. *)
Definition between (first last_ : Ascii.ascii) (s : string) : option string :=
  match s with String a s => if Ascii.eqb a first then strip_last last_ s else None | EmptyString => None end.
(** No character that ends a line, which a dot of a regular expression does not match. *)
Fixpoint one_line (s : string) : bool :=
  match s with
  | EmptyString => true
  | String c rest =>
      negb (in_codes 10 10 c || in_codes 13 13 c
        || (in_codes 226 226 c && match rest with String d (String e _) => in_codes 128 128 d && in_codes 168 169 e | _ => false end))
      && one_line rest
  end.
Definition unbracket (value : option string) : option string :=
  match value with
  | None => None
  | Some value =>
      match between "[" "]" value with
      | Some inner => if one_line inner then Some (halve close inner) else Some value
      | None => Some value
      end
  end.

(** ** Constants *)

(** White space, as [trim] and [\s] have it, in ASCII. *)
Definition is_space (c : Ascii.ascii) : bool := in_codes 9 13 c || in_codes 32 32 c.
Fixpoint trim_start (s : string) : string :=
  match s with String c rest => if is_space c then trim_start rest else s | EmptyString => s end.
Fixpoint trim_end (s : string) : string :=
  match s with
  | EmptyString => EmptyString
  | String c rest => match trim_end rest with EmptyString => if is_space c then EmptyString else String c EmptyString | rest => String c rest end
  end.
Definition trim (s : string) : string := trim_end (trim_start s).
Definition is_word (c : Ascii.ascii) : bool := is_digit c || in_codes 65 90 c || in_codes 97 122 c || in_codes 95 95 c.

(** The longest start of characters of a class, and what follows it. *)
Fixpoint run_of (f : Ascii.ascii -> bool) (s : string) : string * string :=
  match s with
  | EmptyString => ("", "")
  | String c rest => if f c then let '(run, after) := run_of f rest in (String c run, after) else ("", s)
  end.
Fixpoint digits_value (s : string) (value : Z) : Z :=
  match s with EmptyString => value | String c s => digits_value s (value * 10 + (code c - 48)) end.
Definition after_text (prefix s : string) : option string :=
  if String.prefix prefix s then Some (String.substring (String.length prefix) (String.length s - String.length prefix) s) else None.
(** [/^-?\d+(\.\d+)?$/], as the number it is. *)
Definition decimal (text : string) : option Q :=
  let '(negative, text) := match after_text "-" text with Some rest => (true, rest) | None => (false, text) end in
  let '(whole, rest) := run_of is_digit text in
  if String.eqb whole "" then None
  else
    let fraction :=
      if String.eqb rest "" then Some ""
      else match after_text "." rest with
           | Some rest => let '(fraction, after) := run_of is_digit rest in
                          if String.eqb after "" && negb (String.eqb fraction "") then Some fraction else None
           | None => None
           end in
    match fraction with
    | None => None
    | Some fraction =>
        let magnitude :=
          if String.eqb fraction "" then inject_Z (digits_value whole 0)
          else Qmake (digits_value fraction (digits_value whole 0)) (Pos.pow 10 (Pos.of_nat (String.length fraction))) in
        Some (if negative then Qopp magnitude else magnitude)
    end.
Definition quote_mark : Ascii.ascii := "'".
Definition parseConstValue (raw : string) : option ConstantValue :=
  let text := trim raw in
  let text := match between "(" ")" text with Some inner => inner | None => text end in
  let unprefixed := match after_text "N" text with Some rest => rest | None => text end in
  match between quote_mark quote_mark unprefixed with
  | Some inner => Some (CStr (halve quote_mark inner))
  | None => CNum <$> decimal text
  end.

(** ** Offsets *)

Definition SECONDS_PER_UNIT : list (string * Z) :=
  [("second", 1); ("minute", 60); ("hour", 3600); ("day", 86400); ("week", 604800); ("month", 2592000); ("year", 31536000)]%Z.
(** A match at one place, with the character before it. *)
Definition word_boundary (before : option Ascii.ascii) : bool := match before with Some c => negb (is_word c) | None => true end.
Fixpoint first_match {A} (at_ : option Ascii.ascii -> string -> option A) (before : option Ascii.ascii) (s : string) : option A :=
  match at_ before s with
  | Some found => Some found
  | None => match s with EmptyString => None | String c rest => first_match at_ (Some c) rest end
  end.
Definition signed_digits (s : string) : option (Z * string) :=
  let '(negative, rest) := match after_text "-" s with Some rest => (true, rest) | None => (false, s) end in
  let '(digits, after) := run_of is_digit rest in
  if String.eqb digits "" then None else Some ((if negative then - digits_value digits 0 else digits_value digits 0)%Z, after).
(** [/\bdateadd\((\w+),\s*\((-?\d+)\)/i]: a unit ends at the comma. *)
Definition dateadd_at (before : option Ascii.ascii) (s : string) : option (string * Z) :=
  if negb (word_boundary before) then None
  else
    rest ← after_text "dateadd(" (toLowerCase s);
    let '(unit_, rest) := run_of is_word rest in
    if String.eqb unit_ "" then None
    else
      rest ← after_text "," rest;
      rest ← after_text "(" (snd (run_of is_space rest));
      offset ← signed_digits rest;
      let '(offset, rest) := offset in
      _ ← after_text ")" rest;
      Some (unit_, offset).
Definition retentionSecondsFrom (scalarString : string) : option Z :=
  match first_match dateadd_at None scalarString with
  | None => None
  | Some (unit_, offset) =>
      match map_get unit_ SECONDS_PER_UNIT with
      | None => None
      | Some seconds => if (0 <=? offset)%Z then None else Some (Z.abs offset * seconds)%Z
      end
  end.

(** ** What a plan names *)

(** [text.matchAll]: a match of [n] characters is followed by the next after it. *)
Fixpoint match_all {A} (at_ : option Ascii.ascii -> string -> option (A * nat)) (before : option Ascii.ascii) (skip : nat) (s : string) : list A :=
  match s with
  | EmptyString => []
  | String c rest =>
      match skip with
      | S skip => match_all at_ (Some c) skip rest
      | O =>
          match at_ before s with
          | Some (found, n) => found :: match_all at_ (Some c) (Nat.pred n) rest
          | None => match_all at_ (Some c) 0 rest
          end
      end
  end.
Definition double_quote : Ascii.ascii := Ascii.ascii_of_nat 34.
Definition dq : string := String double_quote EmptyString.
(** A bracketed name up to the quote that ends it: no quote is in it. *)
Definition quoted_name (s : string) : option (string * string) :=
  match at_first double_quote s with
  | Some (name, rest) => match between "[" "]" name with Some _ => Some (name, rest) | None => None end
  | None => None
  end.
Definition table_at (_ : option Ascii.ascii) (s : string) : option (string * string * nat) :=
  rest ← after_text ("Schema=" +:+ dq) s;
  schema ← quoted_name rest;
  rest ← after_text (" Table=" +:+ dq) (snd schema);
  table ← quoted_name rest;
  Some (fst schema, fst table, String.length s - String.length (snd table))%nat.
Definition tablesOfPlan (planXml : string) : list string :=
  distinct_strings (omap (fun '(schema, table) =>
    schema ← unbracket (Some schema); table ← unbracket (Some table); Some (schema +:+ "." +:+ table)) (match_all table_at None 0 planXml)).
Definition isReadPlan (planXml : string) : bool := text_includes planXml ("StatementType=" +:+ dq +:+ "SELECT" +:+ dq).
Definition tablePlanMarker (collection : string) : string :=
  let '(schema, table) := splitCollectionName collection in
  "Schema=" +:+ dq +:+ quoteIdent schema +:+ dq +:+ " Table=" +:+ dq +:+ quoteIdent table +:+ dq.

(** ** Hints *)

Definition hint_char (c : Ascii.ascii) : bool := is_word c || in_codes 35 36 c || in_codes 64 64 c.
(** [/\bINDEX\s*[(=]\s*(\[[^\]]+\]|[A-Za-z0-9_#$@]+)/i]: the character after the
    space tells which alternative it is. *)
Definition index_hint_at (before : option Ascii.ascii) (s : string) : option (string * nat) :=
  if negb (word_boundary before) then None
  else
    _ ← after_text "index" (toLowerCase s);
    let rest := snd (run_of is_space (drop_chars 5 s)) in
    match rest with
    | String c rest =>
        if negb (Ascii.eqb c "(" || Ascii.eqb c "=") then None
        else
          let rest := snd (run_of is_space rest) in
          match rest with
          | String "[" inner =>
              match at_first close inner with
              | Some (name, after) => if String.eqb name "" then None else Some (name, (String.length s - String.length after)%nat)
              | None => None
              end
          | _ =>
              let '(name, after) := run_of hint_char rest in
              if String.eqb name "" then None else Some (name, (String.length s - String.length after)%nat)
          end
    | EmptyString => None
    end.
Definition indexNamesFromHintText (text : string) : list string :=
  List.filter (fun name => (0 <? String.length name)%nat && negb (all_chars is_digit name)) (match_all index_hint_at None 0 text).

(** [(?:[^\]]|\]\])+] up to a bracket that stands alone. *)
Fixpoint bracketed (s : string) : option (string * string) :=
  match s with
  | EmptyString => None
  | String a rest =>
      if Ascii.eqb a close then
        match rest with
        | String b after => if Ascii.eqb b close then match bracketed after with Some (name, rest) => Some (String close name, rest) | None => None end
                            else Some ("", rest)
        | EmptyString => Some ("", "")
        end
      else match bracketed rest with Some (name, rest) => Some (String a name, rest) | None => None end
  end.
(** [/Index="\[((?:[^\]]|\]\])+)\]"/], the name with its brackets halved. *)
Definition forced_index_at (_ : option Ascii.ascii) (s : string) : option (string * nat) :=
  rest ← after_text ("Index=" +:+ dq +:+ "[") s;
  name ← bracketed rest;
  after ← after_text dq (snd name);
  if String.eqb (fst name) "" then None else Some (fst name, (String.length s - String.length after)%nat).
Definition indexNamesFromForcedPlan (planXml : string) : list string := match_all forced_index_at None 0 planXml.

Definition hintsFromStore (collections hintTexts forcedPlans : list string) : list (string * list string) :=
  fold_left (fun out collection =>
    let needle := toLowerCase (snd (splitCollectionName collection)) in
    let hinted := mjoin (indexNamesFromHintText <$> List.filter (fun text => text_includes (toLowerCase text) needle) hintTexts) in
    let marker := tablePlanMarker collection in
    let forced := mjoin (indexNamesFromForcedPlan <$> List.filter (fun planXml => text_includes planXml marker) forcedPlans) in
    map_put collection (distinct_strings (hinted ++ forced)) out) collections [].

(** ** Quoted names read back *)

Definition starts_with_close (s : string) : bool := match s with String c _ => Ascii.eqb c close | EmptyString => false end.
Lemma bracketed_quoted name rest : starts_with_close rest = false -> bracketed (double_close name +:+ "]" +:+ rest) = Some (name, rest).
Proof.
  intros Hr. induction name as [|c name IH].
  - change (double_close "" +:+ "]" +:+ rest) with (String close rest). cbn [bracketed]. rewrite Ascii.eqb_refl.
    destruct rest as [|b rest]; [done|]. cbn [starts_with_close] in Hr. by rewrite Hr.
  - cbn [double_close]. destruct (Ascii.eqb_spec c close) as [->|Hne].
    + change (String close (String close (double_close name)) +:+ "]" +:+ rest) with (String close (String close (double_close name +:+ "]" +:+ rest))).
      cbn [bracketed]. rewrite Ascii.eqb_refl. by rewrite IH.
    + change (String c (double_close name) +:+ "]" +:+ rest) with (String c (double_close name +:+ "]" +:+ rest)).
      cbn [bracketed]. apply Ascii.eqb_neq in Hne. by rewrite Hne, IH.
Qed.
(** A bracketed identifier at the front of a statement. *)
Definition read_identifier (s : string) : option (string * string) := rest ← after_text "[" s; bracketed rest.
Lemma after_text_app p s : after_text p (p +:+ s) = Some s.
Proof.
  unfold after_text. assert (String.prefix p (p +:+ s) = true) as ->.
  { induction p as [|c p IH]; [by destruct s|]. rewrite app_cons. cbn. by destruct (Ascii.ascii_dec c c). }
  f_equal. induction p as [|c p IH]; [|exact IH]. change (String.substring 0 (String.length s - 0) s = s). rewrite Nat.sub_0_r.
  induction s as [|c s IH]; [done|]. cbn. by f_equal.
Qed.
Lemma read_quoteIdent name rest : starts_with_close rest = false -> read_identifier (quoteIdent name +:+ rest) = Some (name, rest).
Proof.
  intros Hr. unfold read_identifier, quoteIdent. rewrite !append_assoc_text, after_text_app. cbn [mbind option_bind]. by apply bracketed_quoted.
Qed.

Lemma qualified_reads (database collection rest : string) :
  starts_with_close rest = false ->
  exists after_database after_schema,
    read_identifier (qualifiedTable database collection +:+ rest) = Some (database, "." +:+ after_database)
    /\ read_identifier after_database = Some ((splitCollectionName collection).1, "." +:+ after_schema)
    /\ read_identifier after_schema = Some ((splitCollectionName collection).2, rest).
Proof.
  intros Hr. unfold qualifiedTable. destruct (splitCollectionName collection) as [schema table]. cbn [fst snd].
  exists (quoteIdent schema +:+ "." +:+ quoteIdent table +:+ rest), (quoteIdent table +:+ rest).
  rewrite !append_assoc_text. split_and!; [by rewrite read_quoteIdent|by rewrite read_quoteIdent|by apply read_quoteIdent].
Qed.
(** Nothing in a name ends it: whatever the three names are made of, the statement
    reads back the database, the schema and the table it was written with, and what
    follows them is what the code wrote there. *)
Theorem qualified_reads_back (database collection rest : string) :
  starts_with_close rest = false ->
  exists after_database after_schema,
    read_identifier (qualifiedTable database collection +:+ rest) = Some (database, "." +:+ after_database)
    /\ read_identifier after_database = Some ((splitCollectionName collection).1, "." +:+ after_schema)
    /\ read_identifier after_schema = Some ((splitCollectionName collection).2, rest).
Proof. apply qualified_reads. Qed.

Lemma strip_last_app c s : strip_last c (s +:+ String c "") = Some s.
Proof.
  induction s as [|a s IH]; [change ("" +:+ String c "") with (String c ""); cbn [strip_last]; by rewrite Ascii.eqb_refl|].
  rewrite app_cons. cbn [strip_last]. rewrite IH. by destruct (s +:+ String c "") eqn:E; [destruct s|].
Qed.
Lemma halve_double name : halve close (double_close name) = name.
Proof.
  induction name as [|c name IH]; [done|]. cbn [double_close]. destruct (Ascii.eqb_spec c close) as [->|Hne].
  - change (halve close (String close (String close (double_close name)))) with (if Ascii.eqb close close && Ascii.eqb close close then String close (halve close (double_close name)) else String close (halve close (String close (double_close name)))).
    rewrite Ascii.eqb_refl. cbn [andb]. by rewrite IH.
  - apply Ascii.eqb_neq in Hne. cbn [halve]. rewrite Hne. cbn [andb]. destruct (double_close name) eqn:E; [|by rewrite <- IH].
    f_equal. destruct name as [|d name]; [done|]. cbn in E. by destruct (Ascii.eqb d close).
Qed.
(** A plan's name of a table is the table's name. *)
Lemma unbracket_quoteIdent name : one_line (double_close name) = true -> unbracket (Some (quoteIdent name)) = Some name.
Proof.
  intros Ho. unfold unbracket, quoteIdent, between. rewrite app_cons. cbn [Ascii.eqb Bool.eqb].
  change ("" +:+ double_close name +:+ "]") with (double_close name +:+ String close ""). rewrite strip_last_app, Ho. by rewrite halve_double.
Qed.

(** Of the hints T-SQL has, those that name several indexes are read for the first
    only, and those written with an equals sign and a parenthesis not at all. *)
Lemma hinted_indexes_missed :
  indexNamesFromHintText "SELECT a FROM t WITH (INDEX(ix_a, ix_b))" = ["ix_a"]
  /\ indexNamesFromHintText "SELECT a FROM t WITH (INDEX = (ix_a))" = []
  /\ indexNamesFromHintText "SELECT a FROM t WITH (INDEX([ix a]))" = ["ix a"].
Proof. by vm_compute. Qed.

Lemma qualified_reads_back_witness :
  qualifiedTable "a]b" "dbo.t] DROP" +:+ " SET" = "[a]]b].[dbo].[t]] DROP] SET"
  /\ exists after_database after_schema,
       read_identifier (qualifiedTable "a]b" "dbo.t] DROP" +:+ " SET") = Some ("a]b", "." +:+ after_database)
       /\ read_identifier after_database = Some ("dbo", "." +:+ after_schema)
       /\ read_identifier after_schema = Some ("t] DROP", " SET").
Proof. split; [by vm_compute|]. exact (qualified_reads_back "a]b" "dbo.t] DROP" " SET" eq_refl). Defined.
