(* ===== verification/SqlPlans.v ===== *)
(** Query Store plans read into query shapes and purges:
    [apps/api/src/mssql/workload.ts], [delete-patterns.ts] and [plan-facts.ts].

    The XML parser is a parameter; what it gives is a tree of texts, lists and
    objects.  Yielding to the event loop between chunks changes no result, and
    interning replaces a name by an equal one, so neither is here. *)
From S2P Require Import Prelude EngineTypes Recurrence Purge Cooldowns Keys Groups Suggest MongoShapes SqlText.

Local Open Scope string_scope.
Local Open Scope Z_scope.
Local Open Scope list_scope.

(** ** Trees *)

Inductive xml := XText (s : string) | XList (l : list xml) | XNode (es : list (string * xml)).
Abbreviation XmlNode := (list (string * xml)).
Definition as_node (value : xml) : option XmlNode := match value with XNode es => Some es | _ => None end.
Definition asArray (value : option xml) : list XmlNode :=
  match value with
  | Some (XList l) => omap as_node l
  | Some (XNode es) => [es]
  | _ => []
  end.
Definition attr (node : XmlNode) (name : string) : option string :=
  match map_get ("@" +:+ name) node with Some (XText s) => Some s | _ => None end.
Definition child (node : XmlNode) (key : string) : option xml := map_get key node.
(** Depth-first, every element of a name. *)
Fixpoint collect (key : string) (root : xml) : list XmlNode :=
  match root with
  | XList l => mjoin (map (collect key) l)
  | XNode es => mjoin (map (fun e => (if String.eqb (fst e) key then asArray (Some (snd e)) else []) ++ collect key (snd e)) es)
  | XText _ => []
  end.
Definition collect_in (key : string) (node : XmlNode) : list XmlNode := collect key (XNode node).

Definition tableOf (node : XmlNode) (database : string) : option string :=
  if negb (bool_decide (unbracket (attr node "Database") = Some database)) then None
  else match unbracket (attr node "Schema"), unbracket (attr node "Table") with
       | Some schema, Some table => Some (schema +:+ "." +:+ table)
       | _, _ => None
       end.
(** A column of the database: its table and its name. *)
Definition column_of (database : string) (node : XmlNode) : option (string * string) :=
  match tableOf node database, unbracket (attr node "Column") with
  | Some table, Some name => Some (table, name)
  | _, _ => None
  end.

(** ** The shape of each table in a plan *)

Record TableShape := {
  ts_equality : list string;
  ts_range : list string;
  ts_sort : list SortKey;
  ts_collscan : bool;
  ts_sortedInMemory : bool;
  ts_constants : list (string * ConstantValue);
}.
Record MissingIndexSuggestion := { mi_table : string; mi_equality : list string; mi_range : list string }.
Record PlanShapes := { perTable : list (string * TableShape); pl_missing : list MissingIndexSuggestion }.

Definition fresh_shape : TableShape :=
  {| ts_equality := []; ts_range := []; ts_sort := []; ts_collscan := false; ts_sortedInMemory := false; ts_constants := [] |}.
Definition shapeFor (tables : list (string * TableShape)) (table : string) : TableShape := map_get table tables ?? fresh_shape.
(** [shapeFor] and a change of the shape it gives. *)
Definition in_shape (table : string) (f : TableShape -> TableShape) (tables : list (string * TableShape)) : list (string * TableShape) :=
  map_put table (f (shapeFor tables table)) tables.
Definition set_add (l : list string) (x : string) : list string := if includes l x then l else l ++ [x].

Definition add_equality (name : string) (s : TableShape) : TableShape :=
  {| ts_equality := set_add (ts_equality s) name; ts_range := ts_range s; ts_sort := ts_sort s; ts_collscan := ts_collscan s;
     ts_sortedInMemory := ts_sortedInMemory s; ts_constants := ts_constants s |}.
Definition add_range (name : string) (s : TableShape) : TableShape :=
  {| ts_equality := ts_equality s; ts_range := set_add (ts_range s) name; ts_sort := ts_sort s; ts_collscan := ts_collscan s;
     ts_sortedInMemory := ts_sortedInMemory s; ts_constants := ts_constants s |}.
Definition add_constant (name : string) (value : ConstantValue) (s : TableShape) : TableShape :=
  {| ts_equality := ts_equality s; ts_range := ts_range s; ts_sort := ts_sort s; ts_collscan := ts_collscan s;
     ts_sortedInMemory := ts_sortedInMemory s; ts_constants := map_put name value (ts_constants s) |}.
Definition add_scan (scanned : bool) (s : TableShape) : TableShape :=
  {| ts_equality := ts_equality s; ts_range := ts_range s; ts_sort := ts_sort s; ts_collscan := ts_collscan s || scanned;
     ts_sortedInMemory := ts_sortedInMemory s; ts_constants := ts_constants s |}.
Definition add_sort (name : string) (ascending : bool) (s : TableShape) : TableShape :=
  {| ts_equality := ts_equality s; ts_range := ts_range s;
     ts_sort := if existsb (fun key => String.eqb (sk_field key) name) (ts_sort s) then ts_sort s
                else ts_sort s ++ [{| sk_field := name; sk_direction := if ascending then EngineTypes.Pos else Neg |}];
     ts_collscan := ts_collscan s; ts_sortedInMemory := true; ts_constants := ts_constants s |}.

(** [toUpperCase] on ASCII letters. *)
Fixpoint toUpperCase (s : string) : string :=
  match s with
  | EmptyString => EmptyString
  | String c s =>
      let n := Ascii.nat_of_ascii c in
      String (if (97 <=? n)%nat && (n <=? 122)%nat then Ascii.ascii_of_nat (n - 32) else c) (toUpperCase s)
  end.
Definition RANGE_OPS_SQL : list string := ["GT"; "GE"; "LT"; "LE"].
Definition DML_STATEMENT_TYPES : list string := ["SELECT"; "INSERT"; "UPDATE"; "DELETE"; "MERGE"].
Definition is_dml (root : xml) : bool :=
  existsb (fun stmt => match attr stmt "StatementType" with Some type => includes DML_STATEMENT_TYPES (toUpperCase type) | None => false end)
    (collect "StmtSimple" root).

Definition is_attr (node : XmlNode) (name value : string) : bool := bool_decide (attr node name = Some value).
Definition seek_roots (root : xml) : list XmlNode :=
  List.filter (fun scan => negb (is_attr scan "Lookup" "1")) (collect "IndexScan" root).
Definition index_scan (database : string) (tables : list (string * TableShape)) (scan : XmlNode) : list (string * TableShape) :=
  fold_left (fun tables object =>
    match tableOf object database with
    | None => tables
    | Some table =>
        let hasSeek := (0 <? length (asArray (child scan "SeekPredicates")))%nat in
        let clustered := is_attr object "IndexKind" "Clustered" in
        in_shape table (add_scan (negb hasSeek && clustered)) tables
    end) (asArray (child scan "Object")) tables.
Definition table_scan (database : string) (tables : list (string * TableShape)) (scan : XmlNode) : list (string * TableShape) :=
  fold_left (fun tables object =>
    match tableOf object database with None => tables | Some table => in_shape table (add_scan true) tables end)
    (asArray (child scan "Object")) tables.

(** The constant under a node, where there is one. *)
Definition constant_at (nodes : list XmlNode) : option ConstantValue :=
  match nodes with [] => None | node :: _ => attr node "ConstValue" ≫= parseConstValue end.
Definition part_columns (database : string) (part : XmlNode) : list (string * string) :=
  omap (column_of database) (mjoin (collect_in "ColumnReference" <$> asArray (child part "RangeColumns"))).
Definition part_constants (part : XmlNode) (columns : list (string * string)) : list (string * string * ConstantValue) :=
  let expressions := mjoin ((fun wrapper => asArray (child wrapper "ScalarOperator")) <$> asArray (child part "RangeExpressions")) in
  if negb (length expressions =? length columns)%nat then []
  else omap (fun '(column, expression) => (fun value => (column, value)) <$> constant_at (asArray (child expression "Const")))
         (zip columns expressions).
Definition seek_part (database : string) (prefix : bool) (tables : list (string * TableShape)) (part : XmlNode) : list (string * TableShape) :=
  let columns := part_columns database part in
  let tables := fold_left (fun tables '(table, name) => in_shape table (if prefix then add_equality name else add_range name) tables) columns tables in
  if prefix then
    fold_left (fun tables '(table, name, value) => in_shape table (add_constant name value) tables) (part_constants part columns) tables
  else tables.
Definition seek_predicate (database : string) (tables : list (string * TableShape)) (seek : XmlNode) : list (string * TableShape) :=
  fold_left (fun tables '(element, prefix) => fold_left (seek_part database prefix) (collect_in element seek) tables)
    [("Prefix", true); ("StartRange", false); ("EndRange", false)] tables.

Definition compare_step (database : string) (tables : list (string * TableShape)) (compare : XmlNode) : list (string * TableShape) :=
  match attr compare "CompareOp" with
  | None => tables
  | Some op =>
      let isEquality := String.eqb op "EQ" in
      if negb isEquality && negb (includes RANGE_OPS_SQL op) then tables
      else
        match omap (column_of database) (collect_in "ColumnReference" compare) with
        | [(table, name)] =>
            if isEquality then
              in_shape table (fun s =>
                let s := add_equality name s in
                match constant_at (collect_in "Const" compare) with Some value => add_constant name value s | None => s end) tables
            else in_shape table (add_range name) tables
        | _ => tables
        end
  end.
Definition order_step (database : string) (tables : list (string * TableShape)) (orderBy : XmlNode) : list (string * TableShape) :=
  let ascending := negb (is_attr orderBy "Ascending" "0") in
  fold_left (fun tables '(table, name) => in_shape table (add_sort name ascending) tables)
    (omap (column_of database) (collect_in "ColumnReference" orderBy)) tables.

Definition group_names (usage : string) (suggestion : XmlNode) : list string :=
  mjoin ((fun group =>
    if is_attr group "Usage" usage then omap (fun column => unbracket (attr column "Name")) (asArray (child group "Column")) else [])
    <$> asArray (child suggestion "ColumnGroup")).
Definition suggestion_of (database : string) (suggestion : XmlNode) : option MissingIndexSuggestion :=
  match tableOf suggestion database with
  | None => None
  | Some table =>
      let equality := group_names "EQUALITY" suggestion in
      let range := group_names "INEQUALITY" suggestion in
      if (0 <? length equality + length range)%nat then Some {| mi_table := table; mi_equality := equality; mi_range := range |} else None
  end.

Definition shapesOfPlan (root : option xml) (database : string) : PlanShapes :=
  match root with
  | None => {| perTable := []; pl_missing := [] |}
  | Some root =>
      if negb (is_dml root) then {| perTable := []; pl_missing := [] |}
      else
        let tables := fold_left (index_scan database) (seek_roots root) [] in
        let tables := fold_left (table_scan database) (collect "TableScan" root) tables in
        let tables := fold_left (seek_predicate database) (mjoin (collect_in "SeekPredicateNew" <$> seek_roots root)) tables in
        let tables := fold_left (compare_step database) (collect "Compare" root) tables in
        let tables := fold_left (order_step database) (collect "OrderByColumn" root) tables in
        {| perTable := tables; pl_missing := omap (suggestion_of database) (collect "MissingIndex" root) |}
  end.

(** What the fold needs of a plan. *)
Record PlanTableShape := {
  pt_table : string;
  pt_equality : list string;
  pt_range : list string;
  pt_sort : list SortKey;
  pt_collscan : bool;
  pt_sortedInMemory : bool;
  pt_constants : option (list (string * ConstantValue));
}.
Record PlanShapeFacts := { pf_shapes : list PlanTableShape; pf_missing : list MissingIndexSuggestion }.
Definition compact_shape (entry : string * TableShape) : option PlanTableShape :=
  let '(table, shape) := entry in
  if (length (ts_equality shape) + length (ts_range shape) + length (ts_sort shape) =? 0)%nat && negb (ts_collscan shape) then None
  else Some {| pt_table := table; pt_equality := ts_equality shape; pt_range := ts_range shape; pt_sort := ts_sort shape;
               pt_collscan := ts_collscan shape; pt_sortedInMemory := ts_sortedInMemory shape; pt_constants := or_absent (ts_constants shape) |}.
Definition compactShapes (shapes : PlanShapes) : PlanShapeFacts :=
  {| pf_shapes := omap compact_shape (perTable shapes); pf_missing := pl_missing shapes |}.

(** ** The fold of a database's plans *)

(** An instant as the driver gives it: [None] is null, or a text that is no date. *)
Record FactRow := { fr_facts : PlanShapeFacts; fr_execs : Z; fr_totalIo : Q; fr_firstSeen : option Z }.
Definition hoursBetween (first : option Z) (now : Z) : option Q :=
  match first with
  | None => None
  | Some start => let hours := (inject_Z (now - start) / inject_Z HOUR_MS)%Q in if Qltb 0 hours then Some hours else None
  end.
Record Accumulated := {
  ac_equality : list string;
  ac_sort : list SortKey;
  ac_range : list string;
  ac_collscan : bool;
  ac_sortedInMemory : bool;
  ac_count : Z;
  ac_totalIo : Q;
  ac_firstSeenMs : option Z;
  ac_constants : list (string * ConstantValue);
}.
(** [[...names].sort()]: by code unit. *)
Definition sorted_names (names : list string) : list string := stable_sort String.leb names.
Definition sort_text (key : SortKey) : string := sk_field key +:+ ":" +:+ direction_text (sk_direction key).
Definition acc_key (a : Accumulated) : string :=
  join nul_char [join "," (sorted_names (ac_equality a)); join "," (sort_text <$> ac_sort a); join "," (sorted_names (ac_range a))].
(** What one row adds, as the first of its shape. *)
Definition shape_sample (row : FactRow) (s : PlanTableShape) : Accumulated :=
  {| ac_equality := pt_equality s; ac_sort := pt_sort s; ac_range := pt_range s; ac_collscan := pt_collscan s;
     ac_sortedInMemory := pt_sortedInMemory s; ac_count := fr_execs row; ac_totalIo := fr_totalIo row; ac_firstSeenMs := fr_firstSeen row;
     ac_constants := pt_constants s ?? [] |}.
Definition suggestion_sample (row : FactRow) (m : MissingIndexSuggestion) : Accumulated :=
  {| ac_equality := mi_equality m; ac_sort := []; ac_range := mi_range m; ac_collscan := false; ac_sortedInMemory := false;
     ac_count := fr_execs row; ac_totalIo := fr_totalIo row; ac_firstSeenMs := fr_firstSeen row; ac_constants := [] |}.
Definition earliest_of (a b : option Z) : option Z :=
  match a, b with Some a, Some b => Some (Z.min a b) | Some a, None => Some a | None, b => b end.
Definition merge_acc (existing next : Accumulated) : Accumulated :=
  {| ac_equality := ac_equality existing; ac_sort := ac_sort existing; ac_range := ac_range existing;
     ac_collscan := ac_collscan existing || ac_collscan next; ac_sortedInMemory := ac_sortedInMemory existing || ac_sortedInMemory next;
     ac_count := ac_count existing + ac_count next; ac_totalIo := (ac_totalIo existing + ac_totalIo next)%Q;
     ac_firstSeenMs := earliest_of (ac_firstSeenMs existing) (ac_firstSeenMs next);
     ac_constants := intersectConstants (ac_constants existing) (ac_constants next) |}.
(** Whatever one row folds, and the target it folds it into. *)
Definition wanted_tables (database : string) (targets : list WorkloadTarget) : list (string * string) :=
  fold_left (fun wanted target =>
    if String.eqb (fst target) database then map_put (snd target) (workloadKey (fst target) (snd target)) wanted else wanted) targets [].
Definition row_samples (wanted : list (string * string)) (row : FactRow) : list (string * Accumulated) :=
  omap (fun s => (fun key => (key, shape_sample row s)) <$> map_get (pt_table s) wanted) (pf_shapes (fr_facts row))
  ++ omap (fun m => (fun key => (key, suggestion_sample row m)) <$> map_get (mi_table m) wanted) (pf_missing (fr_facts row)).
Definition fold_sample (accumulators : list (string * list (string * Accumulated))) (sample : string * Accumulated)
    : list (string * list (string * Accumulated)) :=
  let '(key, next) := sample in
  map_put key (put_group acc_key merge_acc (map_get key accumulators ?? []) next) accumulators.
Definition acc_query (now : Z) (a : Accumulated) : QueryShape :=
  {| equality := ac_equality a; sort := ac_sort a; range := ac_range a; collscan := ac_collscan a; sortedInMemory := Some (ac_sortedInMemory a);
     count := ac_count a; docsExamined := Some (Math_round (ac_totalIo a)); observedForHours := hoursBetween (ac_firstSeenMs a) now;
     clients := None; constants := or_absent (ac_constants a); lookups := None |}.
Definition shapesFromFacts (targets : list WorkloadTarget) (database : string) (rows : list FactRow) (now : Z) : list (string * list QueryShape) :=
  let wanted := wanted_tables database targets in
  let accumulators := fold_left (fun acc row => fold_left fold_sample (row_samples wanted row) acc) rows [] in
  (fun '(key, byShape) => (key, acc_query now <$> byShape.*2)) <$> accumulators.

(** ** Purges *)

Record PlanPurge := { pg_table : string; pg_field : string; pg_retentionSeconds : option Z }.
Definition OLDER_THAN : list string := ["LT"; "LE"].
(** The column each table compares: the first reference to a table decides. *)
Definition columnsByTable (database : string) (node : XmlNode) : list (string * string) :=
  let first := fold_left (fun first reference =>
    match tableOf reference database with
    | Some table => if is_some (map_get table first) then first else map_put table (attr reference "Column") first
    | None => first
    end) (collect_in "ColumnReference" node) [] in
  omap (fun '(table, field) => (fun field => (table, field)) <$> field) first.
Definition purges_in (database : string) (scalarString : option string) (node : XmlNode) : list PlanPurge :=
  (fun '(table, field) => {| pg_table := table; pg_field := field; pg_retentionSeconds := scalarString ≫= retentionSecondsFrom |})
  <$> columnsByTable database node.
Definition older_than (node : XmlNode) (name : string) : bool := match attr node name with Some op => includes OLDER_THAN op | None => false end.
Definition operator_purges (database : string) (operator : XmlNode) : list PlanPurge :=
  mjoin (purges_in database (attr operator "ScalarString")
    <$> List.filter (fun compare => older_than compare "CompareOp") (asArray (child operator "Compare"))).
Definition range_purges (database : string) (range : XmlNode) : list PlanPurge :=
  if negb (older_than range "ScanType") then []
  else
    match asArray (child range "RangeColumns") with
    | [] => []
    | columns :: _ =>
        let cutoff := match asArray (child range "RangeExpressions") with
                      | [] => None
                      | expressions :: _ => head (asArray (child expressions "ScalarOperator"))
                      end in
        purges_in database (cutoff ≫= fun cutoff => attr cutoff "ScalarString") columns
    end.
Definition purgesOfPlan (tree : option xml) (database : string) : list PlanPurge :=
  match tree with
  | None => []
  | Some tree =>
      mjoin ((fun statement =>
        mjoin (operator_purges database <$> collect_in "ScalarOperator" statement)
        ++ mjoin (range_purges database <$> collect_in "EndRange" statement))
        <$> List.filter (fun statement => is_attr statement "StatementType" "DELETE") (collect "StmtSimple" tree))
  end.

Record PurgeBucket := { pb_count : Z; pb_retentions : list Z }.
(** One plan's purges of a table, a column once. *)
Definition row_fields (collection : string) (purges : list PlanPurge) : list (string * option Z) :=
  fold_left (fun fields purge =>
    if String.eqb (pg_table purge) collection
    then map_put (pg_field purge) (or_else (mjoin (map_get (pg_field purge) fields)) (pg_retentionSeconds purge)) fields
    else fields) purges [].
Definition put_purge (execs : Z) (byField : list (string * PurgeBucket)) (entry : string * option Z) : list (string * PurgeBucket) :=
  let '(field, retention) := entry in
  let bucket := map_get field byField ?? {| pb_count := 0; pb_retentions := [] |} in
  map_put field {| pb_count := pb_count bucket + execs;
                   pb_retentions := pb_retentions bucket ++ match retention with Some r => replicate (Z.to_nat execs) r | None => [] end |} byField.
Definition sql_median (values : list Z) : Z :=
  let sorted := stable_sort Z.leb values in
  let middle := Nat.div2 (length sorted) in
  if Nat.odd (length sorted) then sorted !! middle ?? 0
  else Math_round (inject_Z (sorted !! (Nat.pred middle) ?? 0 + sorted !! middle ?? 0) / 2).
Definition deletePatternsFromFacts (rows : list (list PlanPurge * Z)) (collection : string) : list PurgePattern :=
  let byField := fold_left (fun byField '(purges, execs) => fold_left (put_purge execs) (row_fields collection purges) byField) rows [] in
  (fun '(field, bucket) =>
    {| pp_field := field; pp_count := pb_count bucket;
       medianRetentionSeconds := match pb_retentions bucket with [] => None | l => Some (sql_median l) end |}) <$> byField.

(** ** Everything read off one plan *)

Section parser.
Context (parsePlanXml : string -> option xml).

Record PlanWorkload := { pw_facts : PlanShapeFacts; pw_purges : list PlanPurge }.
Definition workloadOfPlan (planXml database : string) : PlanWorkload :=
  let tree := parsePlanXml planXml in
  {| pw_facts := compactShapes (shapesOfPlan tree database); pw_purges := purgesOfPlan tree database |}.
Definition parseShowplanShapes (planXml database : string) : PlanShapes := shapesOfPlan (parsePlanXml planXml) database.
Record PlanRow := { pr_planXml : string; pr_execs : Z; pr_totalIo : Q; pr_firstSeen : option Z }.
Definition shapesFromPlans (targets : list WorkloadTarget) (database : string) (rows : list PlanRow) (now : Z) : list (string * list QueryShape) :=
  shapesFromFacts targets database
    ((fun row => {| fr_facts := compactShapes (parseShowplanShapes (pr_planXml row) database); fr_execs := pr_execs row; fr_totalIo := pr_totalIo row;
                    fr_firstSeen := pr_firstSeen row |}) <$> rows) now.
Definition deletePatternsFromPlans (rows : list (string * Z)) (database collection : string) : list PurgePattern :=
  deletePatternsFromFacts ((fun '(planXml, execs) => (purgesOfPlan (parsePlanXml planXml) database, execs)) <$> rows) collection.
End parser.

(** ** A plan speaks of its own database *)

Lemma xml_ind' (P : xml -> Prop) :
  (forall s, P (XText s)) -> (forall l, Forall P l -> P (XList l)) -> (forall es, Forall (fun e => P (snd e)) es -> P (XNode es)) -> forall x, P x.
Proof.
  intros Ht Hl Hn. fix IH 1. intros [s|l|es]; [apply Ht| |].
  - apply Hl. induction l as [|x l IHl]; constructor; [apply IH|exact IHl].
  - apply Hn. induction es as [|[k v] es IHl]; constructor; [apply IH|exact IHl].
Qed.
Lemma elem_of_mjoin_map {A B} (f : A -> list B) (l : list A) y : y ∈ mjoin (map f l) <-> exists x, x ∈ l /\ y ∈ f x.
Proof.
  induction l as [|x l IH]; cbn; [split; [intros []%elem_of_nil|intros (? & []%elem_of_nil & _)]|].
  change (y ∈ f x ++ mjoin (map f l) <-> exists z, z ∈ x :: l /\ y ∈ f z). rewrite elem_of_app, IH. set_solver.
Qed.
(** An element under an element is an element of the tree. *)
Lemma collect_under k k' root node n : node ∈ collect k root -> n ∈ collect_in k' node -> n ∈ collect k' root.
Proof.
  revert node. induction root as [s|l IH|es IH] using xml_ind'; intros node; [intros []%elem_of_nil| |]; cbn [collect]; rewrite !elem_of_mjoin_map.
  - intros (x & Hx & Hn) Hc. exists x. split; [done|]. rewrite Forall_forall in IH. by eapply IH.
  - intros (e & He & Hn) Hc. exists e. split; [done|]. apply elem_of_app in Hn as [Hn|Hn].
    + apply elem_of_app. right. destruct (String.eqb (fst e) k); [|by apply elem_of_nil in Hn].
      destruct (snd e) as [s|l|es']; cbn in Hn; [by apply elem_of_nil in Hn| |].
      * apply list_elem_of_omap in Hn as (v & Hv & En). cbn [collect]. apply elem_of_mjoin_map. exists v. split; [done|].
        destruct v; [done|done|]. injection En as ->. exact Hc.
      * apply list_elem_of_singleton in Hn as ->. exact Hc.
    + apply elem_of_app. right. rewrite Forall_forall in IH. by eapply IH.
Qed.
Lemma collect_child k k' root node n : node ∈ collect k root -> n ∈ asArray (child node k') -> n ∈ collect k' root.
Proof.
  intros Hn Hc. eapply collect_under; [done|]. unfold child in Hc. destruct (map_get k' node) as [v|] eqn:E; [|by apply elem_of_nil in Hc].
  apply map_get_in in E. unfold collect_in. cbn [collect]. apply elem_of_mjoin_map. exists (k', v). split; [done|]. cbn [fst snd].
  rewrite String.eqb_refl. apply elem_of_app. by left.
Qed.

(** Some element of the plan names the table, in that database. *)
Definition named_in (root : xml) (database table : string) : Prop :=
  exists k node, node ∈ collect k root /\ tableOf node database = Some table.
Definition all_named (root : xml) (database : string) (tables : list (string * TableShape)) : Prop :=
  forall table, table ∈ tables.*1 -> named_in root database table.

Lemma in_shape_keys table f tables t : t ∈ (in_shape table f tables).*1 <-> t = table \/ t ∈ tables.*1.
Proof.
  unfold in_shape. rewrite map_put_keys. case_bool_decide as E; [set_solver|]. rewrite elem_of_app, list_elem_of_singleton. tauto.
Qed.
Lemma in_shape_named root database table f tables :
  named_in root database table -> all_named root database tables -> all_named root database (in_shape table f tables).
Proof. intros Hn Ha t Ht. apply in_shape_keys in Ht as [->|Ht]; [done|by apply Ha]. Qed.
Lemma column_named root database k node table name :
  node ∈ collect k root -> column_of database node = Some (table, name) -> named_in root database table.
Proof.
  intros Hn. unfold column_of. destruct (tableOf node database) as [t|] eqn:E; [|done]. destruct (unbracket _); [|done]. intros [= -> _]. by exists k, node.
Qed.
(** A loop that only touches named tables. *)
Lemma fold_named {A} root database (f : list (string * TableShape) -> A -> list (string * TableShape)) l tables :
  (forall tables x, x ∈ l -> all_named root database tables -> all_named root database (f tables x)) ->
  all_named root database tables -> all_named root database (fold_left f l tables).
Proof.
  revert tables. induction l as [|x l IH]; intros tables Hf Ha; [done|]. cbn. apply IH; [intros; apply Hf; [by right|done]|]. apply Hf; [left|done].
Qed.

Lemma index_scan_named root database tables scan : scan ∈ seek_roots root ->
  all_named root database tables -> all_named root database (index_scan database tables scan).
Proof.
  intros [Hs _]%elem_of_filter_bool Ha. apply fold_named; [|done]. intros ts object Ho Hts. destruct (tableOf object database) as [t|] eqn:E; [|done].
  apply in_shape_named; [|done]. exists "Object", object. split; [by eapply collect_child|done].
Qed.
Lemma table_scan_named root database tables scan : scan ∈ collect "TableScan" root ->
  all_named root database tables -> all_named root database (table_scan database tables scan).
Proof.
  intros Hs Ha. apply fold_named; [|done]. intros ts object Ho Hts. destruct (tableOf object database) as [t|] eqn:E; [|done].
  apply in_shape_named; [|done]. exists "Object", object. split; [by eapply collect_child|done].
Qed.
Lemma part_columns_named root database k part table name : part ∈ collect k root ->
  (table, name) ∈ part_columns database part -> named_in root database table.
Proof.
  intros Hp (node & Hn & E)%list_elem_of_omap. apply list_elem_of_join in Hn as (l & Hn & Hl). apply list_elem_of_fmap in Hl as (rc & -> & Hr).
  eapply column_named; [|done]. eapply collect_under; [|done]. by eapply collect_child.
Qed.
Lemma seek_part_named root database prefix k part tables : part ∈ collect k root ->
  all_named root database tables -> all_named root database (seek_part database prefix tables part).
Proof.
  intros Hp Ha. unfold seek_part. assert (Hcols : all_named root database (fold_left (fun tables '(table, name) =>
    in_shape table (if prefix then add_equality name else add_range name) tables) (part_columns database part) tables)).
  { apply fold_named; [|done]. intros ts [t n] Hin Hts. apply in_shape_named; [by eapply part_columns_named|done]. }
  destruct prefix; [|done]. apply fold_named; [|done]. intros ts [[t n] v] Hin Hts. apply in_shape_named; [|done].
  unfold part_constants in Hin. destruct (negb _); [by apply elem_of_nil in Hin|].
  apply list_elem_of_omap in Hin as ([[t' n'] e] & Hz & E). destruct (constant_at _); [|done]. injection E as -> -> ->.
  apply elem_of_zip_l in Hz. by eapply part_columns_named.
Qed.
Lemma seek_predicate_named root database seek tables : seek ∈ mjoin (collect_in "SeekPredicateNew" <$> seek_roots root) ->
  all_named root database tables -> all_named root database (seek_predicate database tables seek).
Proof.
  intros Hs Ha. apply list_elem_of_join in Hs as (l & Hs & Hl). apply list_elem_of_fmap in Hl as (scan & -> & Hscan). apply elem_of_filter_bool in Hscan as [Hscan _].
  pose proof (collect_under _ _ _ _ _ Hscan Hs) as Hseek. apply fold_named; [|done]. intros ts [element prefix] _ Hts.
  apply fold_named; [|done]. intros ts' part Hp Hts'. eapply seek_part_named; [|done]. by eapply collect_under.
Qed.
Lemma compare_named root database compare tables : compare ∈ collect "Compare" root ->
  all_named root database tables -> all_named root database (compare_step database tables compare).
Proof.
  intros Hc Ha. unfold compare_step. destruct (attr compare "CompareOp") as [op|]; [|done]. destruct (negb _ && _); [done|].
  destruct (omap _ _) as [|[t n] [|]] eqn:E; try done.
  assert (named_in root database t) as Hn.
  { assert ((t, n) ∈ omap (column_of database) (collect_in "ColumnReference" compare)) as (node & Hin & Ec)%list_elem_of_omap by (rewrite E; left).
    eapply column_named; [|done]. by eapply collect_under. }
  destruct (String.eqb op "EQ"); by apply in_shape_named.
Qed.
Lemma order_named root database orderBy tables : orderBy ∈ collect "OrderByColumn" root ->
  all_named root database tables -> all_named root database (order_step database tables orderBy).
Proof.
  intros Ho Ha. apply fold_named; [|done]. intros ts [t n] (node & Hin & Ec)%list_elem_of_omap Hts. apply in_shape_named; [|done].
  eapply column_named; [|done]. by eapply collect_under.
Qed.

(** A plan says nothing of other databases, and one that changes the schema says
    nothing at all: every table it has a shape or a suggestion for is named by
    some element of the plan as a table of the database it was read in. *)
Theorem plan_shapes_of_database (root : xml) (database table : string) :
  table ∈ (perTable (shapesOfPlan (Some root) database)).*1 ++ (mi_table <$> pl_missing (shapesOfPlan (Some root) database)) ->
  is_dml root = true /\ exists k node, node ∈ collect k root /\ tableOf node database = Some table.
Proof.
  unfold shapesOfPlan. destruct (is_dml root); cbn [negb perTable pl_missing]; [|intros []%elem_of_nil]. intros Hin. split; [done|].
  apply elem_of_app in Hin as [Hin|Hin].
  - revert Hin.
    assert (all_named root database []) as H0 by (intros t []%elem_of_nil).
    assert (all_named root database (fold_left (order_step database) (collect "OrderByColumn" root)
      (fold_left (compare_step database) (collect "Compare" root) (fold_left (seek_predicate database) (mjoin (collect_in "SeekPredicateNew" <$> seek_roots root))
        (fold_left (table_scan database) (collect "TableScan" root) (fold_left (index_scan database) (seek_roots root) [])))))) as Hall; [|apply Hall].
    repeat (apply fold_named; [intros; first [by apply order_named|by apply compare_named|by apply seek_predicate_named|by apply table_scan_named|by apply index_scan_named]|]).
    done.
  - apply list_elem_of_fmap in Hin as (m & -> & Hin). apply list_elem_of_omap in Hin as (node & Hn & E). unfold suggestion_of in E.
    destruct (tableOf node database) as [t|] eqn:Et; [|done]. destruct (0 <? _)%nat; [|done]. injection E as <-. by exists "MissingIndex", node.
Qed.

(** ** The fold is a grouping *)

Lemma fold_left_mjoin {A B C} (f : A -> B -> A) (g : C -> list B) (l : list C) a :
  fold_left (fun a x => fold_left f (g x) a) l a = fold_left f (mjoin (g <$> l)) a.
Proof.
  revert a. induction l as [|x l IH]; intros a; [done|]. cbn [fold_left fmap list_fmap].
  change (mjoin (g x :: (g <$> l))) with (g x ++ mjoin (g <$> l)). by rewrite fold_left_app, IH.
Qed.
Definition samples_for (key : string) (samples : list (string * Accumulated)) : list Accumulated :=
  (List.filter (fun '(k, _) => String.eqb k key) samples).*2.
Lemma fold_samples key samples :
  map_get key (fold_left fold_sample samples []) =
  match samples_for key samples with [] => None | own => Some (grouped acc_key merge_acc own) end.
Proof.
  unfold samples_for. induction samples as [|[k a] samples IH] using rev_ind; [done|]. rewrite fold_left_app, List.filter_app, fmap_app. cbn [fold_left].
  unfold fold_sample at 1. rewrite map_get_put. cbn [List.filter]. destruct (String.eqb_spec k key) as [->|Hne]; cbn [fmap list_fmap fst snd]; [|by rewrite app_nil_r].
  rewrite IH. destruct ((List.filter (fun '(k, _) => String.eqb k key) samples).*2) as [|x own] eqn:E; [done|].
  cbn [app default from_option]. f_equal. change (x :: own ++ [a]) with ((x :: own) ++ [a]). by rewrite grouped_snoc.
Qed.
Lemma grouped_merged {X} (key : X -> string) merge xs :
  (grouped key merge xs).*2 = omap (fun k => merged merge (group_of key k xs)) (distinct_strings (key <$> xs)).
Proof.
  rewrite grouped_exact. generalize (distinct_strings (key <$> xs)) as ks. induction ks as [|k ks IH]; [done|]. cbn [omap list_omap].
  destruct (merged merge (group_of key k xs)); cbn [fmap option_fmap option_map list_fmap]; [cbn [fmap list_fmap snd]; by f_equal|done].
Qed.
Lemma map_get_fmap_values {V W} (f : V -> W) key (m : list (string * V)) :
  map_get key ((fun '(k, v) => (k, f v)) <$> m) = f <$> map_get key m.
Proof.
  unfold map_get. induction m as [|[k v] m IH]; [done|]. cbn. destruct (String.eqb k key); [done|exact IH].
Qed.

(** The shapes of a table are the plans that touch it, counted: one shape for each
    set of predicates and order, in the order they came, which adds up executions
    and reads, says a scan or a sort where any plan had one, and keeps a constant
    only where every plan compared with it. *)
Theorem facts_fold_exact (targets : list WorkloadTarget) (database : string) (rows : list FactRow) (now : Z) (key : string) :
  let own := samples_for key (mjoin (row_samples (wanted_tables database targets) <$> rows)) in
  map_get key (shapesFromFacts targets database rows now) =
    (match own with
     | [] => None
     | _ => Some (acc_query now <$> omap (fun k => merged merge_acc (group_of acc_key k own)) (distinct_strings (acc_key <$> own)))
     end)
  /\ forall k a, merged merge_acc (group_of acc_key k own) = Some a ->
       ac_count a = zsum ac_count (group_of acc_key k own) /\ ac_collscan a = existsb ac_collscan (group_of acc_key k own)
       /\ ac_sortedInMemory a = existsb ac_sortedInMemory (group_of acc_key k own).
Proof.
  cbn zeta. set (samples := mjoin _). split.
  - unfold shapesFromFacts. rewrite fold_left_mjoin. fold samples. rewrite map_get_fmap_values with (f := fun byShape => acc_query now <$> byShape.*2).
    rewrite fold_samples. destruct (samples_for key samples) as [|x own]; [done|]. cbn [fmap option_fmap option_map]. do 2 f_equal.
    apply grouped_merged.
  - intros k a E. split_and!.
    + by apply (merged_zsum merge_acc ac_count).
    + by apply (merged_existsb merge_acc ac_collscan).
    + by apply (merged_existsb merge_acc ac_sortedInMemory).
Qed.

Lemma intersect_none l : intersectConstants l [] = [].
Proof. induction l as [|[f v] l IH]; [done|]. exact IH. Qed.
Lemma fold_two key a b : acc_key b = acc_key a -> fold_left fold_sample [(key, a); (key, b)] [] = [(key, [(acc_key a, merge_acc a b)])].
Proof.
  intros E. cbn [fold_left]. assert (fold_sample [] (key, a) = [(key, [(acc_key a, a)])]) as -> by done.
  unfold fold_sample. unfold map_get at 1. cbn [List.find]. rewrite String.eqb_refl. cbn [fmap option_fmap option_map snd default from_option map_put]. rewrite String.eqb_refl.
  change (id [(acc_key a, a)]) with [(acc_key a, a)]. unfold put_group, map_get. cbn [List.find]. rewrite E, String.eqb_refl. cbn [fmap option_fmap option_map snd map_put].
  by rewrite String.eqb_refl.
Qed.

(** Where the server suggests the index a scan is missing, the scan counts twice.
    The suggestion a plan carries has the predicates of the scan it is for; where
    there is no sort the two are one shape, whose executions and reads are then
    double those of the plan, and whose constants are lost: the suggestion has
    none to agree with. *)
Theorem suggestion_counted_twice (database table : string) (equality range : list string) (constants : list (string * ConstantValue)) (execs : Z) (io : Q) (first : option Z) (now : Z) :
  let scan := {| pt_table := table; pt_equality := equality; pt_range := range; pt_sort := []; pt_collscan := true; pt_sortedInMemory := false;
                 pt_constants := Some constants |} in
  let suggestion := {| mi_table := table; mi_equality := equality; mi_range := range |} in
  let row := {| fr_facts := {| pf_shapes := [scan]; pf_missing := [suggestion] |}; fr_execs := execs; fr_totalIo := io; fr_firstSeen := first |} in
  exists q, shapesFromFacts [(database, table)] database [row] now = [(workloadKey database table, [q])]
  /\ count q = 2 * execs /\ EngineTypes.constants q = None.
Proof.
  cbn zeta. set (scan := {| pt_table := table |}). set (suggestion := {| mi_table := table |}). set (row := {| fr_execs := execs |}).
  exists (acc_query now (merge_acc (shape_sample row scan) (suggestion_sample row suggestion))). split_and!.
  - unfold shapesFromFacts. assert (wanted_tables database [(database, table)] = [(table, workloadKey database table)]) as ->.
    { unfold wanted_tables. cbn [fold_left fst snd]. by rewrite String.eqb_refl. }
    assert (row_samples [(table, workloadKey database table)] row =
      [(workloadKey database table, shape_sample row scan); (workloadKey database table, suggestion_sample row suggestion)]) as Hs.
    { unfold row_samples, map_get. cbn [row fr_facts pf_shapes pf_missing scan suggestion pt_table mi_table List.find omap list_omap].
      rewrite String.eqb_refl. done. }
    cbn [fold_left]. rewrite Hs. by rewrite fold_two.
  - cbn. lia.
  - change (or_absent (intersectConstants constants []) = None). by rewrite intersect_none.
Qed.

(** ** Purges, counted *)

Definition purged (byField : list (string * PurgeBucket)) (field : string) : Z :=
  match map_get field byField with Some bucket => pb_count bucket | None => 0 end.
Definition purges_field (collection field : string) (row : list PlanPurge * Z) : bool :=
  existsb (fun purge => String.eqb (pg_table purge) collection && String.eqb (pg_field purge) field) (fst row).
Lemma row_fields_keys collection purges :
  NoDup (row_fields collection purges).*1
  /\ forall field execs, field ∈ (row_fields collection purges).*1 <-> purges_field collection field (purges, execs) = true.
Proof.
  unfold row_fields, purges_field. cbn [fst]. induction purges as [|p purges [IHn IH]] using rev_ind; [split; [constructor|]; intros f e; split; [intros []%elem_of_nil|done]|].
  rewrite fold_left_app. cbn [fold_left]. destruct (String.eqb (pg_table p) collection) eqn:E.
  - split; [by apply map_put_nodup|]. intros f e. rewrite existsb_app, orb_true_iff, <- (IH f e), map_put_keys. cbn. rewrite E, orb_false_r. cbn.
    rewrite elem_of_app. destruct (String.eqb_spec (pg_field p) f) as [->|Hne]; case_bool_decide as Hin; rewrite ?elem_of_nil, ?list_elem_of_singleton.
    + tauto.
    + tauto.
    + intuition congruence.
    + intuition congruence.
  - split; [done|]. intros f e. rewrite existsb_app, orb_true_iff, <- (IH f e). cbn. rewrite E. cbn. intuition congruence.
Qed.
Lemma put_purges execs fields byField field : NoDup fields.*1 ->
  purged (fold_left (put_purge execs) fields byField) field = purged byField field + (if bool_decide (field ∈ fields.*1) then execs else 0).
Proof.
  revert byField. induction fields as [|[f r] fields IH]; intros byField Hn; cbn [fold_left].
  - rewrite bool_decide_eq_false_2; [lia|]. apply not_elem_of_nil.
  - cbn [fmap list_fmap fst] in *. apply NoDup_cons in Hn as [Hf Hn]. rewrite IH by done. unfold purged at 1, put_purge. rewrite map_get_put.
    destruct (String.eqb_spec f field) as [->|Hne].
    + rewrite (bool_decide_eq_false_2 (field ∈ fields.*1)) by done. rewrite bool_decide_eq_true_2 by left. cbn. unfold purged.
      destruct (map_get field byField); cbn; lia.
    + fold (purged byField field). do 2 case_bool_decide; try lia; set_solver.
Qed.

(** A purge is counted once for each execution of each plan that does it, however
    many times the plan compares the column, and no other plan adds to it. *)
Theorem purges_counted (rows : list (list PlanPurge * Z)) (collection : string) :
  NoDup (pp_field <$> deletePatternsFromFacts rows collection)
  /\ forall p, p ∈ deletePatternsFromFacts rows collection ->
       pp_count p = zsum (fun row => if purges_field collection (pp_field p) row then snd row else 0) rows
       /\ exists row, row ∈ rows /\ purges_field collection (pp_field p) row = true.
Proof.
  unfold deletePatternsFromFacts. set (byField := fold_left _ rows []).
  assert (NoDup byField.*1 /\ (forall f, f ∈ byField.*1 -> exists row, row ∈ rows /\ purges_field collection f row = true)
    /\ forall f, purged byField f = zsum (fun row => if purges_field collection f row then snd row else 0) rows) as (Hn & Hin & Hc).
  { subst byField. induction rows as [|[purges execs] rows (IHn & IHi & IHc)] using rev_ind; [split_and!; [constructor|by intros f []%elem_of_nil|done]|].
    rewrite fold_left_app. cbn [fold_left]. set (acc := fold_left _ rows []) in *. destruct (row_fields_keys collection purges) as [Hrn Hrk]. split_and!.
    - clear -IHn. generalize (row_fields collection purges) as fields. intros fields. revert IHn. generalize acc. induction fields as [|[f r] fields IH]; intros m Hm; [done|].
      cbn [fold_left]. apply IH. by apply map_put_nodup.
    - intros f Hf. assert (forall fields m, f ∈ (fold_left (put_purge execs) fields m).*1 -> f ∈ m.*1 \/ f ∈ fields.*1) as Hk.
      { clear. induction fields as [|[g r] fields IH]; intros m; [by left|]. cbn [fold_left]. intros [Hm|Hm]%IH; [|set_solver].
        unfold put_purge in Hm. rewrite map_put_keys in Hm. case_bool_decide; set_solver. }
      apply Hk in Hf as [Hf|Hf]; [apply IHi in Hf as (row & ? & ?); exists row; set_solver|]. exists (purges, execs). split; [set_solver|]. by apply Hrk.
    - intros f. rewrite put_purges by done. rewrite zsum_app, IHc. cbv [zsum foldr]. cbn [snd].
      assert (bool_decide (f ∈ (row_fields collection purges).*1) = purges_field collection f (purges, execs)) as ->; [|lia].
      destruct (purges_field collection f (purges, execs)) eqn:E; [apply bool_decide_eq_true; by rewrite (Hrk f execs)|].
      apply bool_decide_eq_false. rewrite (Hrk f execs). by rewrite E. }
  split.
  - rewrite <- list_fmap_compose. erewrite list_fmap_ext; [exact Hn|]. by intros i [f b] _.
  - intros p ([f b] & -> & Hp)%list_elem_of_fmap. cbn [pp_count pp_field]. split.
    + rewrite <- Hc. unfold purged. by rewrite (proj2 (map_get_elem f b byField Hn) Hp).
    + apply Hin. apply list_elem_of_fmap. by exists (f, b).
Qed.

(** A select that scans a table of the database and one of another. *)
Definition object_of (database table : string) : xml :=
  XNode [("@Database", XText database); ("@Schema", XText "[dbo]"); ("@Table", XText table)].
Definition two_scans : xml :=
  XNode [("StmtSimple", XNode [("@StatementType", XText "SELECT");
    ("RelOp", XList [XNode [("TableScan", XNode [("Object", object_of "[shop]" "[orders]")])];
                     XNode [("TableScan", XNode [("Object", object_of "[audit]" "[log]")])]])])].
Lemma plan_shapes_of_database_witness :
  (perTable (shapesOfPlan (Some two_scans) "shop")).*1 = ["dbo.orders"]
  /\ exists k node, node ∈ collect k two_scans /\ tableOf node "shop" = Some "dbo.orders".
Proof.
  split; [by vm_compute|]. apply (plan_shapes_of_database two_scans "shop" "dbo.orders").
  replace ((perTable (shapesOfPlan (Some two_scans) "shop")).*1) with ["dbo.orders"] by (by vm_compute). left.
Defined.
