(* ===== verification/PlanCache.v ===== *)
(** What the SQL Server collector remembers of the plans it has read, and what it
    adds up from them: [apps/api/src/mssql/attributions.ts] and the plan functions
    of [collector.ts] in the same directory.

    A [Map] of plans is the list of its entries in insertion order, which is the
    order plans are given up in. *)
From S2P Require Import Prelude EngineTypes Recurrence Cooldowns Keys Groups RunTable Suggest Snapshots MongoShapes SqlText SqlPlans.

Local Open Scope string_scope.
Local Open Scope Z_scope.
Local Open Scope list_scope.

(** ** A map by plan *)

Fixpoint plan_put {V} (k : Z) (v : V) (m : list (Z * V)) : list (Z * V) :=
  match m with
  | [] => [(k, v)]
  | (k', v') :: m => if k' =? k then (k, v) :: m else (k', v') :: plan_put k v m
  end.
Definition plan_get {V} (k : Z) (m : list (Z * V)) : option V := snd <$> List.find (fun '(k', _) => k' =? k) m.

(** ** Attributions *)

Record PlanAttribution := { at_hash : string; at_tables : list string; at_isSelect : bool; at_workload : option PlanWorkload }.
Abbreviation Plans := (list (Z * PlanAttribution)).
Record PlanXmlRow := { px_planId : Z; px_hash : string; px_xml : string }.
Definition attributionOf (row : PlanXmlRow) : PlanAttribution :=
  {| at_hash := px_hash row; at_tables := tablesOfPlan (px_xml row); at_isSelect := isReadPlan (px_xml row); at_workload := None |}.
Definition attributionsToRead (known : Plans) (catalog : list (Z * string)) : Plans * list Z :=
  fold_left (fun '(kept, unread) '(planId, hash) =>
    match plan_get planId known with
    | Some have => if String.eqb (at_hash have) hash then (plan_put planId have kept, unread) else (kept, unread ++ [planId])
    | None => (kept, unread ++ [planId])
    end) catalog ([], []).

Definition PLAN_FETCH_CHUNK : nat := 50.
Fixpoint chunked (fuel : nat) (l : list Z) : list (list Z) :=
  match fuel, l with
  | O, _ | _, [] => []
  | S fuel, _ => take PLAN_FETCH_CHUNK l :: chunked fuel (drop PLAN_FETCH_CHUNK l)
  end.
(** What is kept, what was remembered, time after time, and what was thrown: each chunk
    is remembered before the next, the one that fails included.  What is remembered is
    the map that goes on being added to: here, what it holds when it is remembered, at
    which moment its bytes are counted. *)
Record Shipped := { sh_kept : Plans; sh_remembered : list Plans; sh_thrown : option string }.
Definition keep_rows (describe : PlanXmlRow -> PlanAttribution) (rows : list PlanXmlRow) (kept : Plans) : Plans :=
  fold_left (fun kept row => plan_put (px_planId row) (describe row) kept) rows kept.
Fixpoint ship_chunks (fetch : list Z -> string + list PlanXmlRow) (describe : PlanXmlRow -> PlanAttribution) (chunks : list (list Z))
    (state : Shipped) : Shipped :=
  match chunks with
  | [] => state
  | ids :: chunks =>
      match fetch ids with
      | inl error => {| sh_kept := sh_kept state; sh_remembered := sh_remembered state ++ [sh_kept state]; sh_thrown := Some error |}
      | inr rows =>
          let kept := keep_rows describe rows (sh_kept state) in
          ship_chunks fetch describe chunks {| sh_kept := kept; sh_remembered := sh_remembered state ++ [kept]; sh_thrown := None |}
      end
  end.
Definition shipPlanXml (unread : list Z) (kept : Plans) (fetch : list Z -> string + list PlanXmlRow) (describe : PlanXmlRow -> PlanAttribution) : Shipped :=
  ship_chunks fetch describe (chunked (length unread) unread) {| sh_kept := kept; sh_remembered := []; sh_thrown := None |}.

(** [planAttributions]: what the cache is told to hold for the database, time after
    time, and the answer. *)
Definition planAttributions (known : option Plans) (catalog : list (Z * string)) (shipAtMost : option nat)
    (fetch : list Z -> string + list PlanXmlRow) : list Plans * (string + option Plans) :=
  let '(kept, unread) := attributionsToRead (known ?? []) catalog in
  let shipping := match shipAtMost with Some n => if (n <? length unread)%nat then take n unread else unread | None => unread end in
  let shipped := shipPlanXml shipping kept fetch attributionOf in
  match sh_thrown shipped with
  | Some error => (sh_remembered shipped, inl error)
  | None => (sh_remembered shipped ++ [sh_kept shipped], inr (if (length shipping <? length unread)%nat then None else Some (sh_kept shipped)))
  end.

(** [workloadFacts]: what each plan says, from what is kept or read now. *)
Definition workload_known (entries : Plans) (plan : Z * string) : option PlanWorkload :=
  have ← plan_get (fst plan) entries; if String.eqb (at_hash have) (snd plan) then at_workload have else None.
Definition describe_workload (parsePlanXml : string -> option xml) (database : string) (row : PlanXmlRow) : PlanAttribution :=
  let plain := attributionOf row in
  {| at_hash := at_hash plain; at_tables := at_tables plain; at_isSelect := at_isSelect plain;
     at_workload := Some (workloadOfPlan parsePlanXml (px_xml row) database) |}.
Definition workloadFacts (parsePlanXml : string -> option xml) (database : string) (entries : option Plans) (plans : list (Z * string))
    (fetch : list Z -> string + list PlanXmlRow) : list Plans * (string + list (Z * PlanWorkload)) :=
  let held := entries ?? [] in
  let known := omap (fun plan => (fun w => (fst plan, w)) <$> workload_known held plan) plans in
  let unread := (List.filter (fun plan => negb (is_some (workload_known held plan))) plans).*1 in
  match unread with
  | [] => ([], inr (fold_left (fun facts '(planId, w) => plan_put planId w facts) known []))
  | _ =>
      let shipped := shipPlanXml unread held fetch (describe_workload parsePlanXml database) in
      match sh_thrown shipped with
      | Some error => (sh_remembered shipped, inl error)
      | None =>
          (sh_remembered shipped,
           inr (fold_left (fun facts '(planId, w) => plan_put planId w facts)
             (known ++ omap (fun planId => have ← plan_get planId (sh_kept shipped); w ← at_workload have; Some (planId, w)) unread) []))
      end
  end.

(** ** What the plans add up to *)

Record PlanStat := { st_planId : Z; st_execs : Z; st_micros : Q }.
Record TableLatency := { tl_readOps : Z; tl_readMicros : Q; tl_writeOps : Z; tl_writeMicros : Q }.
Definition no_latency : TableLatency := {| tl_readOps := 0; tl_readMicros := 0; tl_writeOps := 0; tl_writeMicros := 0 |}.
Definition add_stat (stat : PlanStat) (isSelect : bool) (sum : TableLatency) : TableLatency :=
  if isSelect then {| tl_readOps := tl_readOps sum + st_execs stat; tl_readMicros := (tl_readMicros sum + st_micros stat)%Q;
                      tl_writeOps := tl_writeOps sum; tl_writeMicros := tl_writeMicros sum |}
  else {| tl_readOps := tl_readOps sum; tl_readMicros := tl_readMicros sum; tl_writeOps := tl_writeOps sum + st_execs stat;
          tl_writeMicros := (tl_writeMicros sum + st_micros stat)%Q |}.
Definition plan_latency (plans : Plans) (sums : list (string * TableLatency)) (stat : PlanStat) : list (string * TableLatency) :=
  match plan_get (st_planId stat) plans with
  | None => sums
  | Some plan => fold_left (fun sums table => map_put table (add_stat stat (at_isSelect plan) (map_get table sums ?? no_latency)) sums) (at_tables plan) sums
  end.
Definition collection_latency (sum : TableLatency) : CollectionLatency :=
  {| cl_reads := {| lp_ops := tl_readOps sum; lp_latencyMicros := Math_round (tl_readMicros sum) |};
     cl_writes := {| lp_ops := tl_writeOps sum; lp_latencyMicros := Math_round (tl_writeMicros sum) |} |}.
Definition latencyFromPlans (plans : Plans) (stats : list PlanStat) : list (string * CollectionLatency) :=
  (fun '(table, sum) => (table, collection_latency sum)) <$> fold_left (plan_latency plans) stats [].

Record FailureRow := { fa_planId : Z; fa_failed : option Z; fa_reach : option Z }.
Definition failuresFromPlans (planIds : list Z) (rows : list FailureRow) : option (Z * Z) :=
  let '(failed, reachMs) := fold_left (fun '(failed, reachMs) row =>
    match (if bool_decide (fa_planId row ∈ planIds) then fa_reach row else None) with
    | None => (failed, reachMs)
    | Some at_ => (failed + fa_failed row ?? 0, match reachMs with None => Some at_ | Some r => if at_ <? r then Some at_ else Some r end)
    end) rows (0, None) in
  (fun reachMs => (failed, reachMs)) <$> reachMs.

(** ** The cache of every connection *)

Definition ATTRIBUTION_BYTES : Z := 256.
Definition constant_bytes (value : ConstantValue) : Z := 24 + match value with CStr s => 16 + Z.of_nat (utf16_length s) | _ => 0 end.
Definition shape_bytes (shape : PlanTableShape) : Z :=
  112 + 40 * Z.of_nat (length (pt_sort shape))
  + match pt_constants shape with Some constants => 64 + zsum (fun '(_, value) => constant_bytes value) constants | None => 0 end.
Definition workloadBytes (workload : PlanWorkload) : Z :=
  96 + zsum shape_bytes (pf_shapes (pw_facts workload)) + 56 * Z.of_nat (length (pf_missing (pw_facts workload)))
  + 56 * Z.of_nat (length (pw_purges workload)).
Definition entryBytes (entry : PlanAttribution) : Z :=
  ATTRIBUTION_BYTES + match at_workload entry with Some workload => workloadBytes workload | None => 0 end.
Definition plans_bytes (plans : Plans) : Z := zsum (fun '(_, entry) => entryBytes entry) plans.

Record Held := { hl_plans : Plans; hl_bytes : Z }.
Record PlanStores := { stores : list (string * Held); heldBytes : Z }.
(** The oldest entries of a database, until enough is freed. *)
Fixpoint shed_plans (excess freed : Z) (plans : Plans) : Plans * Z :=
  match plans with
  | [] => ([], 0)
  | (planId, entry) :: plans =>
      let size := entryBytes entry in
      if freed <? excess then shed_plans excess (freed + size) plans
      else let '(kept, keptBytes) := shed_plans excess freed plans in ((planId, entry) :: kept, keptBytes + size)
  end.
Definition evict_store (ceilingBytes : Z) (written : string) (cache : PlanStores) (store : string * Held) : PlanStores :=
  let '(key, held) := store in
  if (heldBytes cache <=? ceilingBytes) || String.eqb key written then cache
  else
    let excess := heldBytes cache - ceilingBytes in
    if hl_bytes held <=? excess then
      {| stores := map_delete key (stores cache); heldBytes := heldBytes cache - hl_bytes held |}
    else
      let '(kept, keptBytes) := shed_plans excess 0 (hl_plans held) in
      {| stores := map_put key {| hl_plans := kept; hl_bytes := keptBytes |} (stores cache);
         heldBytes := heldBytes cache - (hl_bytes held - keptBytes) |}.
Definition evictFor (ceilingBytes : Z) (written : string) (cache : PlanStores) : PlanStores :=
  fold_left (evict_store ceilingBytes written) (stores cache) cache.
Definition cache_key (fingerprint database : string) : string := fingerprint +:+ "/" +:+ database.
Definition cache_get (fingerprint database : string) (cache : PlanStores) : option Plans :=
  hl_plans <$> map_get (cache_key fingerprint database) (stores cache).
Definition write_store (key : string) (attributed : Plans) (cache : PlanStores) : PlanStores :=
  let cache :=
    match map_get key (stores cache) with
    | Some previous => {| stores := map_delete key (stores cache); heldBytes := heldBytes cache - hl_bytes previous |}
    | None => cache
    end in
  let bytes := plans_bytes attributed in
  {| stores := map_put key {| hl_plans := attributed; hl_bytes := bytes |} (stores cache); heldBytes := heldBytes cache + bytes |}.
Definition cache_set (ceilingBytes : Z) (fingerprint database : string) (attributed : Plans) (cache : PlanStores) : PlanStores :=
  let key := cache_key fingerprint database in evictFor ceilingBytes key (write_store key attributed cache).
(** One reading of a database's store, through the cache. *)
Definition planAttributions_cached (ceilingBytes : Z) (fingerprint database : string) (catalog : list (Z * string)) (shipAtMost : option nat)
    (fetch : list Z -> string + list PlanXmlRow) (cache : PlanStores) : PlanStores * (string + option Plans) :=
  let '(writes, answer) := planAttributions (cache_get fingerprint database cache) catalog shipAtMost fetch in
  (fold_left (fun cache attributed => cache_set ceilingBytes fingerprint database attributed cache) writes cache, answer).

(** ** Bounded, and giving up little *)

Definition total_bytes (l : list (string * Held)) : Z := zsum (fun '(_, held) => hl_bytes held) l.
Definition tallied_store (store : string * Held) : Prop := hl_bytes (snd store) = plans_bytes (hl_plans (snd store)).
(** The books are right. *)
Definition cache_ok (cache : PlanStores) : Prop :=
  NoDup (stores cache).*1 /\ Forall tallied_store (stores cache) /\ heldBytes cache = total_bytes (stores cache).

Lemma constant_bytes_nonneg v : 0 <= constant_bytes v.
Proof. unfold constant_bytes. destruct v; lia. Qed.
Lemma entryBytes_pos entry : 0 < entryBytes entry.
Proof.
  unfold entryBytes, ATTRIBUTION_BYTES. destruct (at_workload entry) as [w|]; [|lia]. unfold workloadBytes.
  assert (0 <= zsum shape_bytes (pf_shapes (pw_facts w))); [|lia]. apply zsum_nonneg. intros s _. unfold shape_bytes.
  destruct (pt_constants s) as [l|]; [|lia]. assert (0 <= zsum (fun '(_, value) => constant_bytes value) l); [|lia].
  apply zsum_nonneg. intros [] _. apply constant_bytes_nonneg.
Qed.
Lemma plans_bytes_nonneg plans : 0 <= plans_bytes plans.
Proof. apply zsum_nonneg. intros [k e] _. pose proof (entryBytes_pos e). lia. Qed.

Lemma plans_bytes_cons k e plans : plans_bytes ((k, e) :: plans) = entryBytes e + plans_bytes plans.
Proof. unfold plans_bytes. by rewrite zsum_cons. Qed.
Lemma plans_bytes_nil : plans_bytes [] = 0.
Proof. done. Qed.

(** What is given up is the front, just enough of it. *)
Lemma shed_plans_spec excess freed plans : freed <= excess -> excess - freed < plans_bytes plans ->
  exists dropped, plans = dropped ++ (shed_plans excess freed plans).1
  /\ (shed_plans excess freed plans).2 = plans_bytes (shed_plans excess freed plans).1
  /\ excess - freed <= plans_bytes dropped
  /\ (forall M, (forall k e, (k, e) ∈ plans -> entryBytes e <= M) -> 0 < M -> plans_bytes dropped < excess - freed + M).
Proof.
  assert (Hstop : forall plans freed, excess <= freed -> shed_plans excess freed plans = (plans, plans_bytes plans)).
  { clear. induction plans as [|[k e] ps IH]; intros f Hf; [done|]. cbn [shed_plans]. destruct (Z.ltb_spec f excess); [lia|]. rewrite IH by done.
    rewrite plans_bytes_cons. f_equal. lia. }
  revert freed. induction plans as [|[k e] plans IH]; intros freed Hf Hlt; [rewrite plans_bytes_nil in Hlt; lia|].
  pose proof (entryBytes_pos e) as He. rewrite plans_bytes_cons in Hlt.
  cbn [shed_plans]. destruct (Z.ltb_spec freed excess) as [Hfe|Hfe].
  - destruct (Z.le_gt_cases excess (freed + entryBytes e)) as [Hge|Hlt'].
    + rewrite Hstop by done. exists [(k, e)]. cbn [fst snd]. rewrite plans_bytes_cons, plans_bytes_nil. split_and!; [done|done|lia|].
      intros M HM HM0. specialize (HM k e ltac:(left)). lia.
    + destruct (IH (freed + entryBytes e)) as (dropped & Hp & Hk & Hge & Hm); [lia|lia|]. exists ((k, e) :: dropped). rewrite plans_bytes_cons. split_and!.
      * rewrite Hp at 1. done.
      * done.
      * lia.
      * intros M HM HM0. assert (plans_bytes dropped < excess - (freed + entryBytes e) + M); [|lia]. apply Hm; [|done].
        intros k' e' Hin. apply (HM k'). by right.
  - assert (freed = excess) as -> by lia. rewrite (Hstop plans excess) by lia. exists []. cbn [fst snd]. rewrite plans_bytes_cons, plans_bytes_nil. split_and!; [done|lia|lia|].
    intros M _ HM0. lia.
Qed.

(** ** One database at a time *)

Lemma total_put key held held' l : NoDup l.*1 -> map_get key l = Some held ->
  total_bytes (map_put key held' l) = total_bytes l - hl_bytes held + hl_bytes held'.
Proof.
  unfold total_bytes, map_get. induction l as [|[k h] l IH]; [done|]. cbn [fmap list_fmap fst]. intros [Hk Hn]%NoDup_cons. cbn [List.find map_put].
  destruct (String.eqb_spec k key) as [->|Hne]; cbn [fmap option_fmap option_map snd].
  - intros [= ->]. rewrite !zsum_cons. lia.
  - intros E. rewrite !zsum_cons, IH by done. lia.
Qed.
Lemma total_delete key held l : NoDup l.*1 -> map_get key l = Some held -> total_bytes (map_delete key l) = total_bytes l - hl_bytes held.
Proof.
  unfold total_bytes, map_get, map_delete. induction l as [|[k h] l IH]; [done|]. cbn [fmap list_fmap fst]. intros [Hk Hn]%NoDup_cons. cbn [List.find List.filter].
  destruct (String.eqb_spec k key) as [->|Hne]; cbn [fmap option_fmap option_map snd negb].
  - intros [= ->]. rewrite zsum_cons. assert (List.filter (fun '(k', _) => negb (String.eqb k' key)) l = l) as ->; [|lia].
    clear -Hk. induction l as [|[k h'] l IH]; [done|]. cbn. cbn in Hk. apply not_elem_of_cons in Hk as [Hne Hk].
    destruct (String.eqb_spec k key); [done|]. cbn. f_equal. by apply IH.
  - intros E. rewrite !zsum_cons, IH by done. lia.
Qed.
Lemma map_put_elem {V} k (v : V) m k' v' : NoDup m.*1 -> (k', v') ∈ map_put k v m <-> (k' = k /\ v' = v) \/ (k' <> k /\ (k', v') ∈ m).
Proof.
  intros Hn. rewrite <- !map_get_elem by (try apply map_put_nodup; done). rewrite map_get_put.
  destruct (String.eqb_spec k k') as [->|Hne]; [naive_solver|]. naive_solver.
Qed.
Lemma map_delete_elem {V} k (m : list (string * V)) k' v' : (k', v') ∈ map_delete k m <-> k' <> k /\ (k', v') ∈ m.
Proof.
  unfold map_delete. rewrite elem_of_filter_bool. destruct (String.eqb_spec k' k); naive_solver.
Qed.
Lemma map_delete_NoDup {V} k (m : list (string * V)) : NoDup m.*1 -> NoDup (map_delete k m).*1.
Proof. apply NoDup_fmap_filter. Qed.

Section bounded.
Context (ceilingBytes M : Z) (written : string).
Hypothesis entries_small : 0 < M.

Definition small_entries (cache : PlanStores) : Prop :=
  forall key held planId entry, (key, held) ∈ stores cache -> (planId, entry) ∈ hl_plans held -> entryBytes entry <= M.
(** What a database has left: all of it, or its newer plans, or nothing. *)
Definition left_of (before after : PlanStores) (key : string) : Prop :=
  match map_get key (stores after) with
  | None => True
  | Some held' => exists held dropped, map_get key (stores before) = Some held /\ hl_plans held = dropped ++ hl_plans held'
  end.

Lemma evict_store_spec cache key held :
  cache_ok cache -> small_entries cache -> map_get key (stores cache) = Some held ->
  let next := evict_store ceilingBytes written cache (key, held) in
  cache_ok next /\ small_entries next /\ heldBytes next <= heldBytes cache
  /\ (forall other, other <> key -> map_get other (stores next) = map_get other (stores cache))
  /\ left_of cache next key
  /\ (key <> written -> heldBytes next <= ceilingBytes \/ map_get key (stores next) = None)
  /\ (key = written -> next = cache)
  /\ (next = cache \/ ceilingBytes - M < heldBytes next).
Proof.
  intros (Hn & Ht & Hb) Hsmall Hg next. pose proof Hg as Hin. apply map_get_elem in Hin; [|done].
  assert (Hsame : next = cache -> cache_ok next /\ small_entries next /\ heldBytes next <= heldBytes cache
    /\ (forall other, other <> key -> map_get other (stores next) = map_get other (stores cache)) /\ left_of cache next key).
  { intros ->. split_and!; try done. unfold left_of. rewrite Hg. by exists held, []. }
  unfold evict_store in next. destruct (Z.leb_spec (heldBytes cache) ceilingBytes) as [Hle|Hgt]; cbn [orb] in next.
  { destruct (Hsame eq_refl) as (? & ? & ? & ? & ?). split_and!; try done; [by left|by left]. }
  destruct (String.eqb_spec key written) as [->|Hw].
  { destruct (Hsame eq_refl) as (? & ? & ? & ? & ?). split_and!; try done; by left. }
  assert (Htally : hl_bytes held = plans_bytes (hl_plans held)) by (rewrite Forall_forall in Ht; exact (Ht _ Hin)).
  pose proof (plans_bytes_nonneg (hl_plans held)) as Hnn. clear Hsame.
  destruct (Z.leb_spec (hl_bytes held) (heldBytes cache - ceilingBytes)) as [Hall|Hpart].
  - subst next. cbn [stores heldBytes]. assert (Hdel : map_get key (map_delete key (stores cache)) = None) by (rewrite map_get_delete, String.eqb_refl; done).
    split_and!.
    + split_and!; cbn [stores heldBytes]; [by apply map_delete_NoDup| |].
      * apply Forall_forall. intros [k h] [_ Hk]%map_delete_elem. rewrite Forall_forall in Ht. by apply Ht.
      * rewrite (total_delete key held) by done. lia.
    + intros k h p e [_ Hk]%map_delete_elem. by apply Hsmall with k.
    + lia.
    + intros other Hne. rewrite map_get_delete. by destruct (String.eqb_spec key other).
    + unfold left_of. cbn [stores]. by rewrite Hdel.
    + intros _. by right.
    + done.
    + right. lia.
  - destruct (shed_plans_spec (heldBytes cache - ceilingBytes) 0 (hl_plans held)) as (dropped & Hp & Hk & Hge & Hm); [lia|lia|].
    destruct (shed_plans _ 0 (hl_plans held)) as [kept keptBytes]. cbn [fst snd] in *. subst next. cbn [stores heldBytes].
    assert (Hsum : plans_bytes (hl_plans held) = plans_bytes dropped + plans_bytes kept) by (rewrite Hp; apply zsum_app).
    assert (Hput : map_get key (map_put key {| hl_plans := kept; hl_bytes := keptBytes |} (stores cache)) = Some {| hl_plans := kept; hl_bytes := keptBytes |})
      by (rewrite map_get_put, String.eqb_refl; done).
    split_and!.
    + split_and!; cbn [stores heldBytes]; [by apply map_put_nodup| |].
      * apply Forall_forall. intros [k h] [[-> ->]|[_ Hk']]%map_put_elem; [by cbn|rewrite Forall_forall in Ht; by apply Ht|done].
      * rewrite (total_put key held) by done. cbn [hl_bytes]. lia.
    + intros k h p e [[-> ->]|[_ Hk']]%map_put_elem; [|by apply Hsmall with k|done]. cbn [hl_plans]. intros He. apply (Hsmall key held p); [done|].
      rewrite Hp. apply elem_of_app. by right.
    + pose proof (plans_bytes_nonneg dropped). lia.
    + intros other Hne. rewrite map_get_put. by destruct (String.eqb_spec key other).
    + unfold left_of. cbn [stores]. rewrite Hput. by exists held, dropped.
    + intros _. left. lia.
    + done.
    + right. assert (plans_bytes dropped < heldBytes cache - ceilingBytes - 0 + M); [|lia]. apply Hm; [|done]. intros k e. by apply Hsmall with key.
Qed.

Definition evicted (start : PlanStores) (processed : list string) (cache : PlanStores) : Prop :=
  cache_ok cache /\ small_entries cache
  /\ (forall key, key ∉ processed \/ key = written -> map_get key (stores cache) = map_get key (stores start))
  /\ (forall key, left_of start cache key)
  /\ (forall key, key ∈ processed -> key <> written -> heldBytes cache <= ceilingBytes \/ map_get key (stores cache) = None)
  /\ (cache = start \/ ceilingBytes - M < heldBytes cache).
Lemma evict_all start processed todo cache :
  NoDup (processed ++ todo.*1) -> (forall key held, (key, held) ∈ todo -> map_get key (stores start) = Some held) ->
  evicted start processed cache -> evicted start (processed ++ todo.*1) (fold_left (evict_store ceilingBytes written) todo cache).
Proof.
  revert processed cache. induction todo as [|[key held] todo IH]; intros processed cache Hn Htodo (Hok & Hsm & Hsame & Hleft & Hdone & Hfew); cbn [fold_left fmap list_fmap fst].
  { by rewrite app_nil_r. }
  cbn [fmap list_fmap fst] in Hn. assert (key ∉ processed) as Hkp by (intros Hin; apply NoDup_app in Hn as (_ & Hd & _); apply (Hd _ Hin); left).
  assert (map_get key (stores cache) = Some held) as Hg by (rewrite Hsame by (by left); apply Htodo; left).
  destruct (evict_store_spec cache key held Hok Hsm Hg) as (Hok' & Hsm' & Hle & Hother & Hl & Hnow & Hw & Hf).
  change (processed ++ key :: todo.*1) with (processed ++ [key] ++ todo.*1) in *. rewrite app_assoc in *. apply IH; [done|intros k h Hin; apply Htodo; by right|].
  split_and!; [done|done| | | |].
  - intros k Hk. destruct (decide (k = key)) as [->|Hne].
    + destruct Hk as [Hk| ->]; [exfalso; apply Hk, elem_of_app; right; left|]. rewrite Hw by done. apply Hsame. by right.
    + rewrite Hother by done. apply Hsame. destruct Hk as [Hk|Hk]; [left; set_solver|by right].
  - intros k. destruct (decide (k = key)) as [->|Hne].
    + unfold left_of in *. destruct (map_get key (stores (evict_store ceilingBytes written cache (key, held)))) as [held'|]; [|done].
      destruct Hl as (h & dropped & Eh & Ep). exists h, dropped. split; [|done]. rewrite <- Eh. symmetry. apply Hsame. by left.
    + unfold left_of. rewrite Hother by done. exact (Hleft k).
  - intros k Hk Hkw. destruct (decide (k = key)) as [->|Hne]; [by apply Hnow|]. rewrite Hother by done.
    apply elem_of_app in Hk as [Hk|Hk%list_elem_of_singleton]; [|done]. destruct (Hdone k Hk Hkw); [left; lia|by right].
  - destruct Hf as [->|Hf]; [done|by right].
Qed.
End bounded.

Lemma write_store_ok key attributed cache : cache_ok cache -> cache_ok (write_store key attributed cache)
  /\ map_get key (stores (write_store key attributed cache)) = Some {| hl_plans := attributed; hl_bytes := plans_bytes attributed |}
  /\ forall other, other <> key -> map_get other (stores (write_store key attributed cache)) = map_get other (stores cache).
Proof.
  intros (Hn & Ht & Hb). unfold write_store.
  set (cleared := match map_get key (stores cache) with Some previous => _ | None => cache end).
  assert (cache_ok cleared /\ key ∉ (stores cleared).*1 /\ forall other, other <> key -> map_get other (stores cleared) = map_get other (stores cache))
    as ((Hn' & Ht' & Hb') & Hk & Ho).
  { subst cleared. destruct (map_get key (stores cache)) as [previous|] eqn:E.
    - split_and!; cbn [stores heldBytes]; [split_and!; cbn [stores heldBytes]| |].
      + by apply map_delete_NoDup.
      + apply Forall_forall. intros [k h] [_ Hk]%map_delete_elem. rewrite Forall_forall in Ht. by apply Ht.
      + rewrite (total_delete key previous) by done. lia.
      + intros ([k h] & -> & [Hne _]%map_delete_elem)%list_elem_of_fmap. done.
      + intros other Hne. rewrite map_get_delete. by destruct (String.eqb_spec key other).
    - split_and!; try done. intros ([k h] & -> & Hin)%list_elem_of_fmap. apply map_get_elem in Hin; [|done]. cbn in E. by rewrite E in Hin. }
  cbn [stores heldBytes]. split_and!.
  - split_and!; cbn [stores heldBytes]; [by apply map_put_nodup| |].
    + apply Forall_forall. intros [k h] [[-> ->]|[_ Hin]]%map_put_elem; [done|rewrite Forall_forall in Ht'; by apply Ht'|done].
    + rewrite map_put_fresh by done. unfold total_bytes. rewrite zsum_app, Hb'. unfold total_bytes. cbv [zsum foldr]. cbn. lia.
  - by rewrite map_get_put, String.eqb_refl.
  - intros other Hne. rewrite map_get_put. destruct (String.eqb_spec key other); [done|]. by apply Ho.
Qed.

(** What is written is held, whatever else is given up. *)
Lemma evict_keeps ceilingBytes written todo : forall cache, map_get written (stores (fold_left (evict_store ceilingBytes written) todo cache)) = map_get written (stores cache).
Proof.
  induction todo as [|[key held] todo IH]; intros cache; [done|]. cbn [fold_left]. rewrite IH. unfold evict_store.
  destruct (_ <=? ceilingBytes); [done|]. destruct (String.eqb_spec key written) as [|Hne]; [done|]. cbn [orb].
  destruct (hl_bytes held <=? _); cbn [stores]; [rewrite map_get_delete|destruct (shed_plans _ _ _); cbn [stores]; rewrite map_get_put]; by destruct (String.eqb_spec key written).
Qed.
Lemma write_store_get key attributed cache other :
  hl_plans <$> map_get other (stores (write_store key attributed cache)) = if String.eqb key other then Some attributed else hl_plans <$> map_get other (stores cache).
Proof.
  unfold write_store. cbn [stores]. rewrite map_get_put. destruct (String.eqb_spec key other) as [|Hne]; [done|].
  destruct (map_get key (stores cache)); [|done]. cbn [stores]. rewrite map_get_delete. by destruct (String.eqb_spec key other).
Qed.
Lemma cache_set_get ceilingBytes fingerprint database attributed cache :
  cache_get fingerprint database (cache_set ceilingBytes fingerprint database attributed cache) = Some attributed.
Proof. unfold cache_get, cache_set, evictFor. by rewrite evict_keeps, write_store_get, String.eqb_refl. Qed.
(** A write that fits gives nothing up. *)
Lemma evict_nothing ceilingBytes written todo cache : heldBytes cache <= ceilingBytes -> fold_left (evict_store ceilingBytes written) todo cache = cache.
Proof.
  intros Hf. induction todo as [|[key held] todo IH]; [done|]. cbn [fold_left]. unfold evict_store at 2. by rewrite (proj2 (Z.leb_le _ _)).
Qed.

(** C35. The cache of plans keeps its books and its ceiling. After a write the answer
    written is held whole; either everything fits, or nothing else is held; what
    another database has left are its newest plans; and no more is given up than
    it takes, to within one plan. *)
Theorem plan_cache_bounded (ceilingBytes M : Z) (fingerprint database : string) (attributed : Plans) (cache : PlanStores) :
  0 < M -> cache_ok cache -> small_entries M (write_store (cache_key fingerprint database) attributed cache) ->
  let cache' := cache_set ceilingBytes fingerprint database attributed cache in
  cache_ok cache' /\ cache_get fingerprint database cache' = Some attributed
  /\ (heldBytes cache' <= ceilingBytes \/ (stores cache').*1 = [cache_key fingerprint database])
  /\ (forall other, other <> cache_key fingerprint database -> left_of cache cache' other)
  /\ ((forall other, other <> cache_key fingerprint database -> map_get other (stores cache') = map_get other (stores cache))
      \/ ceilingBytes - M < heldBytes cache').
Proof.
  intros HM Hok Hsmall. cbn zeta. unfold cache_set. set (key := cache_key fingerprint database) in *.
  destruct (write_store_ok key attributed cache Hok) as (Hwok & Hwk & Hwo). set (start := write_store key attributed cache) in *.
  destruct (evict_all ceilingBytes M key HM start [] (stores start) start) as (Hok' & Hsm & Hsame & Hleft & Hdone & Hfew).
  - apply Hwok.
  - intros k h Hin. apply map_get_elem; [apply Hwok|done].
  - split_and!; try done; [|by intros k []%elem_of_nil|by left]. intros k. unfold left_of. destruct (map_get k (stores start)) as [h|] eqn:E; [|done]. by exists h, [].
  - fold (evictFor ceilingBytes key start) in *. cbn [app] in *. set (final := evictFor ceilingBytes key start) in *. split_and!.
    + done.
    + unfold cache_get. fold key. rewrite Hsame by (by right). by rewrite Hwk.
    + destruct (Z.le_gt_cases (heldBytes final) ceilingBytes) as [|Hgt]; [by left|right].
      assert (forall k, k ∈ (stores final).*1 -> k = key) as Honly.
      { intros k Hk. destruct (decide (k = key)) as [|Hne]; [done|]. exfalso. apply list_elem_of_fmap in Hk as ([k' h] & -> & Hin). cbn [fst] in *.
        apply map_get_elem in Hin; [|apply Hok']. destruct (Hdone k') as [|Hnone]; [|done|lia|by rewrite Hnone in Hin].
        specialize (Hleft k'). unfold left_of in Hleft. rewrite Hin in Hleft. destruct Hleft as (h0 & dropped & E0 & _).
        apply map_get_elem in E0; [|apply Hwok]. apply list_elem_of_fmap. by exists (k', h0). }
      assert (key ∈ (stores final).*1) as Hkin.
      { assert (map_get key (stores final) = Some {| hl_plans := attributed; hl_bytes := plans_bytes attributed |}) as E by (rewrite Hsame by (by right); done).
        apply map_get_elem in E; [|apply Hok']. apply list_elem_of_fmap. by eexists (key, _). }
      destruct Hok' as (Hn & _ & _). destruct (stores final).*1 as [|k1 [|k2 rest]] eqn:E; [by apply elem_of_nil in Hkin| |].
      * by rewrite (Honly k1) by left.
      * exfalso. rewrite (Honly k1) in Hn by left. rewrite (Honly k2) in Hn by (right; left). apply NoDup_cons in Hn as [Hn _]. apply Hn. left.
    + intros other Hne. specialize (Hleft other). unfold left_of in *. destruct (map_get other (stores final)) as [h|]; [|done].
      destruct Hleft as (h0 & dropped & E0 & Ep). exists h0, dropped. split; [|done]. by rewrite <- Hwo.
    + destruct Hfew as [->|Hfew]; [left|by right]. done.
Qed.

(** ** Reading a store over several passes *)

Lemma plan_get_put {V} k k' (v : V) m : plan_get k (plan_put k' v m) = if k' =? k then Some v else plan_get k m.
Proof.
  unfold plan_get. induction m as [|[x y] m IH]; cbn; [by destruct (k' =? k)|].
  destruct (Z.eqb_spec x k') as [->|Hne]; cbn; [by destruct (k' =? k)|].
  destruct (Z.eqb_spec x k) as [->|Hx]; cbn; [|exact IH]. destruct (Z.eqb_spec k' k); [congruence|done].
Qed.
(** The plan is known by this hash. *)
Definition known_plan (known : Plans) (plan : Z * string) : bool :=
  match plan_get (fst plan) known with Some have => String.eqb (at_hash have) (snd plan) | None => false end.
Lemma attributionsToRead_spec known catalog : NoDup catalog.*1 ->
  (attributionsToRead known catalog).2 = (List.filter (fun plan => negb (known_plan known plan)) catalog).*1
  /\ forall planId, plan_get planId (attributionsToRead known catalog).1 =
       if existsb (fun plan => (fst plan =? planId) && known_plan known plan) catalog then plan_get planId known else None.
Proof.
  intros Hn. unfold attributionsToRead. induction catalog as [|[planId hash] catalog IH] using rev_ind; [done|].
  rewrite fmap_app in Hn. apply NoDup_app in Hn as (Hn & _ & _). destruct (IH Hn) as [IHu IHk]. rewrite fold_left_app, List.filter_app, fmap_app. cbn [fold_left].
  destruct (fold_left _ catalog _) as [kept unread]. cbn [fst snd] in *.
  assert (Hsnoc : forall id, existsb (fun plan => (fst plan =? id) && known_plan known plan) (catalog ++ [(planId, hash)]) =
    existsb (fun plan => (fst plan =? id) && known_plan known plan) catalog || ((planId =? id) && known_plan known (planId, hash))).
  { intros id. rewrite existsb_app. cbn. by rewrite orb_false_r. }
  cbn [List.filter]. unfold known_plan at 2. cbn [fst snd]. destruct (plan_get planId known) as [have|] eqn:Eg.
  - destruct (String.eqb (at_hash have) hash) eqn:Eh; cbn [fst snd negb fmap list_fmap].
    + split; [by rewrite IHu, app_nil_r|]. intros id. rewrite plan_get_put, Hsnoc, IHk. unfold known_plan at 3. cbn [fst snd]. rewrite Eg, Eh.
      destruct (Z.eqb_spec planId id) as [->|]; [by rewrite orb_true_r, Eg|by rewrite orb_false_r].
    + split; [by rewrite IHu|]. intros id. rewrite Hsnoc, IHk. unfold known_plan at 3. cbn [fst snd]. by rewrite Eg, Eh, andb_false_r, orb_false_r.
  - cbn [fst snd negb fmap list_fmap]. split; [by rewrite IHu|]. intros id. rewrite Hsnoc, IHk. unfold known_plan at 3. cbn [fst snd].
    by rewrite Eg, andb_false_r, orb_false_r.
Qed.

Lemma filter_not_taken n (l : list Z) : NoDup l -> List.filter (fun x => negb (bool_decide (x ∈ take n l))) l = drop n l.
Proof.
  intros Hn. transitivity (List.filter (fun x => negb (bool_decide (x ∈ take n l))) (take n l ++ drop n l)); [by rewrite take_drop|].
  rewrite List.filter_app. rewrite <- (take_drop n l), NoDup_app in Hn. destruct Hn as (_ & Hd & _).
  rewrite filter_nothing; [cbn [app]|intros x Hx; by rewrite bool_decide_eq_true_2].
  apply filter_all. intros x Hx. rewrite bool_decide_eq_false_2; [done|]. intros Ht. exact (Hd x Ht Hx).
Qed.

Section converges.
Context (store : list PlanXmlRow).
Hypothesis store_ids : NoDup (px_planId <$> store).

Definition catalog_of : list (Z * string) := (fun row => (px_planId row, px_hash row)) <$> store.
Definition rows_of (ids : list Z) : list PlanXmlRow := List.filter (fun row => bool_decide (px_planId row ∈ ids)) store.
(** Every answer is the store's, and every other call fails. *)
Definition from_the_store (fetch : list Z -> string + list PlanXmlRow) : Prop := forall ids rows, fetch ids = inr rows -> rows = rows_of ids.
(** How many chunks land before the first that fails. *)
Fixpoint landed (fetch : list Z -> string + list PlanXmlRow) (chunks : list (list Z)) : nat :=
  match chunks with [] => 0 | ids :: chunks => match fetch ids with inl _ => 0 | inr _ => S (landed fetch chunks) end end.
Definition unread_of (known : Plans) : list Z := (attributionsToRead known catalog_of).2.
(** What the cache holds after a pass that started from these plans. *)
Definition read_on (known : Plans) (fetch : list Z -> string + list PlanXmlRow) : Plans := last (planAttributions (Some known) catalog_of None fetch).1 ?? known.

Lemma catalog_ids : catalog_of.*1 = px_planId <$> store.
Proof. unfold catalog_of. rewrite <- list_fmap_compose. done. Qed.
Lemma keep_rows_get rows kept planId : NoDup (px_planId <$> rows) ->
  plan_get planId (keep_rows attributionOf rows kept) =
  match List.find (fun row => px_planId row =? planId) rows with Some row => Some (attributionOf row) | None => plan_get planId kept end.
Proof.
  revert kept. unfold keep_rows. induction rows as [|row rows IH]; intros kept Hn; [done|]. cbn [fold_left fmap list_fmap List.find] in *.
  apply NoDup_cons in Hn as [Hr Hn]. rewrite IH by done. destruct (Z.eqb_spec (px_planId row) planId) as [<-|Hne].
  - destruct (List.find _ rows) as [row'|] eqn:E; [|by rewrite plan_get_put, Z.eqb_refl]. exfalso. apply List.find_some in E as [Hin E].
    apply Z.eqb_eq in E. apply Hr. apply list_elem_of_fmap. exists row'. by rewrite list_elem_of_In.
  - destruct (List.find _ rows); [done|]. rewrite plan_get_put. by destruct (Z.eqb_spec (px_planId row) planId).
Qed.
Lemma find_rows ids planId : List.find (fun row => px_planId row =? planId) (rows_of ids) =
  if bool_decide (planId ∈ ids) then List.find (fun row => px_planId row =? planId) store else None.
Proof.
  unfold rows_of. clear store_ids. induction store as [|row l IH]; cbn; [by case_bool_decide|].
  destruct (bool_decide (px_planId row ∈ ids)) eqn:E; cbn; destruct (Z.eqb_spec (px_planId row) planId) as [<-|Hne]; try exact IH.
  - by rewrite E.
  - rewrite IH, E. done.
Qed.
Lemma rows_ids ids : NoDup (px_planId <$> rows_of ids).
Proof. by apply NoDup_fmap_filter. Qed.
Lemma ship_chunks_get fetch chunks state planId : from_the_store fetch ->
  plan_get planId (sh_kept (ship_chunks fetch attributionOf chunks state)) =
  match (if bool_decide (planId ∈ concat (take (landed fetch chunks) chunks)) then List.find (fun row => px_planId row =? planId) store else None) with
  | Some row => Some (attributionOf row)
  | None => plan_get planId (sh_kept state)
  end.
Proof.
  intros Hf. revert state. induction chunks as [|ids chunks IH]; intros state; [done|]. cbn [ship_chunks landed]. destruct (fetch ids) as [e|rows] eqn:E; [done|].
  rewrite IH. cbn [sh_kept take concat]. rewrite (Hf _ _ E), (keep_rows_get (rows_of ids)) by apply rows_ids. rewrite find_rows.
  rewrite (bool_decide_ext (planId ∈ ids ++ concat (take (landed fetch chunks) chunks)) (planId ∈ ids \/ planId ∈ concat (take (landed fetch chunks) chunks))) by apply elem_of_app.
  rewrite bool_decide_or. destruct (bool_decide (planId ∈ ids)), (bool_decide (planId ∈ concat _)), (List.find _ store); done.
Qed.
Lemma ship_chunks_remembered fetch describe chunks state : sh_thrown state = None ->
  match sh_thrown (ship_chunks fetch describe chunks state) with
  | Some _ => last (sh_remembered (ship_chunks fetch describe chunks state)) = Some (sh_kept (ship_chunks fetch describe chunks state))
  | None => landed fetch chunks = length chunks
  end.
Proof.
  revert state. induction chunks as [|ids chunks IH]; intros state Hs; cbn [ship_chunks landed length]; [by rewrite Hs|].
  destruct (fetch ids) as [e|rows]; [cbn; by rewrite last_snoc|].
  specialize (IH {| sh_kept := keep_rows describe rows (sh_kept state); sh_remembered := sh_remembered state ++ [keep_rows describe rows (sh_kept state)]; sh_thrown := None |} eq_refl).
  destruct (sh_thrown (ship_chunks _ _ chunks _)); [done|]. by rewrite IH.
Qed.
Lemma chunked_take fuel (l : list Z) n : (length l <= fuel)%nat -> concat (take n (chunked fuel l)) = take (PLAN_FETCH_CHUNK * n) l.
Proof.
  revert l n. induction fuel as [|fuel IH]; intros l n Hl.
  - destruct l; [|cbn in Hl; lia]. cbn [chunked]. by rewrite !take_nil.
  - destruct l as [|x l]; [cbn [chunked]; by rewrite !take_nil|]. destruct n as [|n]; [by rewrite Nat.mul_0_r|]. cbn [chunked]. rewrite firstn_cons. cbn [concat].
    rewrite IH by (rewrite length_drop; unfold PLAN_FETCH_CHUNK; cbn [length] in *; lia).
    rewrite Nat.mul_succ_r, Nat.add_comm. by rewrite take_take_drop.
Qed.

(** A pass writes at least once. *)
Lemma writes_some known fetch : exists writes plans, (planAttributions (Some known) catalog_of None fetch).1 = writes ++ [plans].
Proof.
  unfold planAttributions, shipPlanXml. destruct (attributionsToRead _ _) as [kept unread].
  pose proof (ship_chunks_remembered fetch attributionOf (chunked (length unread) unread) {| sh_kept := kept; sh_remembered := []; sh_thrown := None |} eq_refl) as Hr.
  destruct (sh_thrown _); cbn [fst]; [|by do 2 eexists]. apply last_Some in Hr as [writes ->]. by do 2 eexists.
Qed.
(** What a pass that lands some chunks leaves unread. *)
Lemma read_on_unread known fetch : from_the_store fetch ->
  unread_of (read_on known fetch) = drop (PLAN_FETCH_CHUNK * landed fetch (chunked (length (unread_of known)) (unread_of known))) (unread_of known).
Proof.
  intros Hf. assert (NoDup catalog_of.*1) as Hc by (by rewrite catalog_ids).
  pose proof (attributionsToRead_spec known catalog_of Hc) as [Hu Hk]. fold (unread_of known) in Hu.
  set (chunks := chunked (length (unread_of known)) (unread_of known)) in *.
  assert (read_on known fetch = sh_kept (ship_chunks fetch attributionOf chunks {| sh_kept := (attributionsToRead known catalog_of).1; sh_remembered := []; sh_thrown := None |})) as ->.
  { unfold read_on, planAttributions, shipPlanXml. subst chunks. unfold unread_of.
    change (attributionsToRead (Some known ?? []) catalog_of) with (attributionsToRead known catalog_of).
    destruct (attributionsToRead known catalog_of) as [kept unread]. cbn [fst snd].
    pose proof (ship_chunks_remembered fetch attributionOf (chunked (length unread) unread) {| sh_kept := kept; sh_remembered := []; sh_thrown := None |} eq_refl) as Hr.
    destruct (sh_thrown _); cbn [fst]; [by rewrite Hr|by rewrite last_snoc]. }
  set (n := landed fetch chunks). set (after := sh_kept _).
  assert (Hafter : forall plan, plan ∈ catalog_of -> known_plan after plan = bool_decide (plan.1 ∈ take (PLAN_FETCH_CHUNK * n) (unread_of known)) || known_plan known plan).
  { intros plan Hin. pose proof Hin as Hin0. unfold catalog_of in Hin. apply list_elem_of_fmap in Hin as (row & -> & Hrow). cbn [fst]. unfold known_plan at 1. subst after. cbn [fst snd].
    rewrite ship_chunks_get by done. fold n. subst chunks. rewrite chunked_take by done. cbn [sh_kept].
    assert (List.find (fun r => px_planId r =? px_planId row) store = Some row) as Hfind.
    { clear -store_ids Hrow. induction store as [|r l IH]; [by apply elem_of_nil in Hrow|]. cbn [fmap list_fmap] in store_ids. apply NoDup_cons in store_ids as [Hr Hn]. cbn.
      apply elem_of_cons in Hrow as [->|Hrow]; [by rewrite Z.eqb_refl|]. destruct (Z.eqb_spec (px_planId r) (px_planId row)) as [E|]; [|by apply IH].
      exfalso. apply Hr. rewrite E. by apply list_elem_of_fmap_2. }
    destruct (bool_decide (px_planId row ∈ _)); [rewrite Hfind; cbn; by rewrite String.eqb_refl|]. rewrite Hk. cbn [orb].
    assert (existsb (fun plan => (plan.1 =? px_planId row) && known_plan known plan) catalog_of = known_plan known (px_planId row, px_hash row)) as ->.
    { apply eq_true_iff_eq. rewrite existsb_exists. split.
      - intros (plan & Hp & [E Hkn]%andb_prop). apply Z.eqb_eq in E. apply list_elem_of_In in Hp. assert (plan = (px_planId row, px_hash row)) as <-; [|done].
        apply (NoDup_fmap_elem fst catalog_of); done.
      - intros Hkn. exists (px_planId row, px_hash row). split; [by apply list_elem_of_In|]. cbn [fst]. by rewrite Z.eqb_refl. }
    unfold known_plan. cbn [fst snd]. by destruct (plan_get _ known) as [have|]; [destruct (String.eqb _ _) eqn:E; [by rewrite E|]|]. }
  unfold unread_of at 1. rewrite (proj1 (attributionsToRead_spec after catalog_of Hc)).
  assert (NoDup (unread_of known)) as Hnu by (rewrite Hu; by apply NoDup_fmap_filter).
  rewrite <- (filter_not_taken (PLAN_FETCH_CHUNK * n) (unread_of known) Hnu). 
  set (taken := fun x : Z => negb (bool_decide (x ∈ _))). rewrite Hu, filter_fmap_bool. f_equal.
  rewrite filter_filter_bool. apply filter_ext_bool. intros plan Hp. rewrite Hafter by done. rewrite negb_orb. apply andb_comm.
Qed.

(** *** Through the cache *)

Context (ceilingBytes : Z) (fingerprint database : string).
(** A pass over this database's store, and a write of what another database, of this
    connection or of another one, has been read to hold. *)
Inductive CacheEvent := ReadStore (fetch : list Z -> string + list PlanXmlRow) | Elsewhere (fingerprint' database' : string) (attributed : Plans).
Definition cache_event (cache : PlanStores) (event : CacheEvent) : PlanStores :=
  match event with
  | ReadStore fetch => (planAttributions_cached ceilingBytes fingerprint database catalog_of None fetch cache).1
  | Elsewhere fingerprint' database' attributed => cache_set ceilingBytes fingerprint' database' attributed cache
  end.
(** What is written elsewhere fits under the ceiling beside what is held. *)
Fixpoint fits (events : list CacheEvent) (cache : PlanStores) : Prop :=
  match events with
  | [] => True
  | event :: events =>
      match event with
      | ReadStore _ => True
      | Elsewhere fingerprint' database' attributed =>
          cache_key fingerprint' database' <> cache_key fingerprint database /\
          heldBytes (write_store (cache_key fingerprint' database') attributed cache) <= ceilingBytes
      end /\ fits events (cache_event cache event)
  end.
Definition held_plans (cache : PlanStores) : Plans := cache_get fingerprint database cache ?? [].
Definition fetches_of (events : list CacheEvent) : list (list Z -> string + list PlanXmlRow) :=
  omap (fun event => match event with ReadStore fetch => Some fetch | Elsewhere _ _ _ => None end) events.
Lemma pass_holds cache fetch : held_plans (cache_event cache (ReadStore fetch)) = read_on (held_plans cache) fetch.
Proof.
  unfold held_plans at 1, read_on, cache_event, planAttributions_cached.
  assert (planAttributions (cache_get fingerprint database cache) catalog_of None fetch = planAttributions (Some (held_plans cache)) catalog_of None fetch) as -> by done.
  pose proof (writes_some (held_plans cache) fetch) as Hw. destruct (planAttributions _ _ _ _) as [writes answer]. cbn [fst] in *.
  destruct Hw as (writes' & plans & ->). by rewrite fold_left_app, last_snoc; cbn [fold_left]; rewrite cache_set_get.
Qed.
Lemma elsewhere_holds cache fingerprint' database' attributed : cache_key fingerprint' database' <> cache_key fingerprint database ->
  heldBytes (write_store (cache_key fingerprint' database') attributed cache) <= ceilingBytes ->
  held_plans (cache_event cache (Elsewhere fingerprint' database' attributed)) = held_plans cache.
Proof.
  intros Hk Hf. unfold held_plans, cache_get, cache_event, cache_set, evictFor. rewrite evict_nothing by done. rewrite write_store_get.
  by destruct (String.eqb_spec (cache_key fingerprint' database') (cache_key fingerprint database)).
Qed.
Lemma events_hold events : forall cache, fits events cache ->
  held_plans (fold_left cache_event events cache) = fold_left read_on (fetches_of events) (held_plans cache).
Proof.
  induction events as [|[fetch|fingerprint' database' attributed] events IH]; intros cache; [done| |]; cbn [fits fold_left]; intros [Hf Hr]; rewrite IH by done.
  - by rewrite pass_holds.
  - destruct Hf as [Hk Hf]. by rewrite elsewhere_holds.
Qed.

(** The chunks that land, over passes. *)
Fixpoint landings (known : Plans) (fetches : list (list Z -> string + list PlanXmlRow)) : nat :=
  match fetches with
  | [] => 0
  | fetch :: fetches => landed fetch (chunked (length (unread_of known)) (unread_of known)) + landings (read_on known fetch) fetches
  end.
(** However little of a pass is answered, its first chunk is. *)
Fixpoint first_chunks_land (known : Plans) (fetches : list (list Z -> string + list PlanXmlRow)) : Prop :=
  match fetches with
  | [] => True
  | fetch :: fetches =>
      (unread_of known <> [] -> exists rows, fetch (take PLAN_FETCH_CHUNK (unread_of known)) = inr rows) /\ first_chunks_land (read_on known fetch) fetches
  end.
Lemma landed_first fetch unread : unread <> [] -> (exists rows, fetch (take PLAN_FETCH_CHUNK unread) = inr rows) ->
  (1 <= landed fetch (chunked (length unread) unread))%nat.
Proof. destruct unread as [|id unread]; [done|]. intros _ [rows E]. cbn [length chunked landed]. rewrite E. lia. Qed.
Lemma unread_none known row : unread_of known = [] -> row ∈ store -> known_plan known (px_planId row, px_hash row) = true.
Proof.
  unfold unread_of. rewrite (proj1 (attributionsToRead_spec known catalog_of ltac:(by rewrite catalog_ids))). intros E Hrow.
  destruct (known_plan known _) eqn:Ek; [done|]. apply fmap_nil_inv in E. exfalso. apply (not_elem_of_nil (px_planId row, px_hash row)). rewrite <- E.
  apply elem_of_filter_bool. split; [|by rewrite Ek]. unfold catalog_of. by apply list_elem_of_fmap_2'  with row.
Qed.
Lemma landings_unread fetches : Forall from_the_store fetches -> forall known,
  unread_of (fold_left read_on fetches known) = drop (PLAN_FETCH_CHUNK * landings known fetches) (unread_of known).
Proof.
  induction 1 as [|fetch fetches Hfetch Hf IH]; intros known; cbn [fold_left landings]; [by rewrite Nat.mul_0_r|].
  rewrite IH, read_on_unread by done. by rewrite drop_drop, Nat.mul_add_distr_l.
Qed.
Lemma landings_enough fetches : Forall from_the_store fetches -> forall known, first_chunks_land known fetches ->
  (length (unread_of known) <= PLAN_FETCH_CHUNK * length fetches)%nat -> (length (unread_of known) <= PLAN_FETCH_CHUNK * landings known fetches)%nat.
Proof.
  induction 1 as [|fetch fetches Hfetch Hf IH]; intros known Hs Hl; cbn [landings length first_chunks_land] in *; [done|]. destruct Hs as [Hs1 Hs].
  destruct (unread_of known) as [|id unread] eqn:E; [cbn; lia|]. rewrite <- E in *.
  assert (1 <= landed fetch (chunked (length (unread_of known)) (unread_of known)))%nat as H1 by (apply landed_first; [by rewrite E|apply Hs1; by rewrite E]).
  specialize (IH (read_on known fetch) Hs). rewrite read_on_unread, length_drop in IH by done.
  set (n := landed _ _) in *. set (m := landings _ _) in *. unfold PLAN_FETCH_CHUNK in *. lia.
Qed.
End converges.

(** C36. A store too large to read in one pass is read over several. The store does not
    change; passes over one database go through the shared cache, each to its end or
    to the first chunk that fails; and between them other databases are written, all
    fitting under the ceiling beside what is held (where they do not, plans are given
    up and read again). Then a pass that fails keeps the chunks that had landed, the
    next reads on from there, and what is left unread is what the chunks that landed
    have not reached; once the first chunk of each of as many passes as the store has
    chunks has landed, every plan is attributed. *)
Theorem plan_reading_converges (store : list PlanXmlRow) (ceilingBytes : Z) (fingerprint database : string) (events : list CacheEvent) (cache : PlanStores) :
  NoDup (px_planId <$> store) -> Forall (from_the_store store) (fetches_of events) -> fits store ceilingBytes fingerprint database events cache ->
  let held cache := held_plans fingerprint database cache in
  let final := fold_left (cache_event store ceilingBytes fingerprint database) events cache in
  unread_of store (held final) = drop (PLAN_FETCH_CHUNK * landings store (held cache) (fetches_of events)) (unread_of store (held cache))
  /\ (first_chunks_land store (held cache) (fetches_of events) ->
      (length (unread_of store (held cache)) <= PLAN_FETCH_CHUNK * length (fetches_of events))%nat ->
      forall row, row ∈ store -> known_plan (held final) (px_planId row, px_hash row) = true).
Proof.
  intros Hn Hf Hfits. cbn zeta. rewrite (events_hold store ceilingBytes fingerprint database) by done.
  generalize (held_plans fingerprint database cache) as known. generalize (fetches_of events) as fetches, Hf. clear Hf Hfits events cache.
  intros fetches Hf known. split; [by apply landings_unread|]. intros Hs Hlen row Hrow. apply (unread_none store); [done| |done].
  rewrite landings_unread by done. apply drop_ge. by apply landings_enough.
Qed.

(** ** Witnesses *)

(** Sixty plans, and a server that answers for fifty at a time and then not for
    the rest of the pass. *)
Definition sixty : list PlanXmlRow := (fun n : nat => {| px_planId := Z.of_nat n; px_hash := "h"; px_xml := "" |}) <$> List.seq 1 60.
Definition sixty_fetch (ids : list Z) : string + list PlanXmlRow := inr (rows_of sixty ids).
Definition tired_fetch (ids : list Z) : string + list PlanXmlRow :=
  match ids with 51 :: 52 :: _ => inl "timeout" | _ => inr (rows_of sixty ids) end.

Definition empty_cache : PlanStores := {| stores := []; heldBytes := 0 |}.
(** A pass that is cut short, a write of another database, and two passes after. *)
Definition sixty_events : list CacheEvent :=
  [ReadStore tired_fetch; Elsewhere "c" "other" [(7, {| at_hash := "h"; at_tables := []; at_isSelect := true; at_workload := None |})]; ReadStore sixty_fetch; ReadStore sixty_fetch].
Lemma plan_reading_converges_witness :
  unread_of sixty (held_plans "c" "a" (cache_event sixty 100000 "c" "a" empty_cache (ReadStore tired_fetch))) = Z.of_nat <$> List.seq 51 10
  /\ forall row, row ∈ sixty -> known_plan (held_plans "c" "a" (fold_left (cache_event sixty 100000 "c" "a") sixty_events empty_cache)) (px_planId row, px_hash row) = true.
Proof.
  assert (NoDup (px_planId <$> sixty)) as Hn by (apply (bool_decide_unpack _); by vm_compute).
  assert (from_the_store sixty tired_fetch) as Ht by (intros ids rows; unfold tired_fetch; repeat case_match; congruence).
  assert (from_the_store sixty sixty_fetch) as Hs by (intros ids rows; unfold sixty_fetch; congruence).
  split.
  - destruct (plan_reading_converges sixty 100000 "c" "a" [ReadStore tired_fetch] empty_cache Hn) as [E _]; [by repeat constructor|by split|].
    cbn [fold_left] in E. rewrite E. by vm_compute.
  - apply (plan_reading_converges sixty 100000 "c" "a" sixty_events empty_cache Hn).
    + by repeat constructor.
    + split; [done|]. split; [split; [by vm_compute|by vm_compute]|]. done.
    + cbn [fetches_of sixty_events omap list_omap first_chunks_land]. split_and!; [intros _; eexists; vm_compute; reflexivity|intros _; by eexists|intros _; by eexists|done].
    + apply Nat.leb_le. by vm_compute.
Defined.

(** Two plans of one database, and one of another that does not fit beside them. *)
Definition plain_plan : PlanAttribution := {| at_hash := "h"; at_tables := []; at_isSelect := true; at_workload := None |}.
Definition two_held : PlanStores :=
  {| stores := [("c/a", {| hl_plans := [(1, plain_plan); (2, plain_plan)]; hl_bytes := 512 |})]; heldBytes := 512 |}.
Lemma plan_cache_bounded_witness :
  cache_get "c" "b" (cache_set 600 "c" "b" [(7, plain_plan)] two_held) = Some [(7, plain_plan)]
  /\ cache_get "c" "a" (cache_set 600 "c" "b" [(7, plain_plan)] two_held) = Some [(2, plain_plan)].
Proof.
  destruct (plan_cache_bounded 600 256 "c" "b" [(7, plain_plan)] two_held) as (_ & E & _).
  - lia.
  - split_and!; [|repeat constructor|done]. cbn. constructor; [apply not_elem_of_nil|constructor].
  - intros key held planId entry Hs Hp. vm_compute in Hs.
    repeat (apply elem_of_cons in Hs as [[= -> ->]|Hs]); [| |by apply elem_of_nil in Hs]; cbn in Hp;
      repeat (apply elem_of_cons in Hp as [[= -> ->]|Hp]; [by vm_compute|]); by apply elem_of_nil in Hp.
  - split; [exact E|by vm_compute].
Defined.
