(* ===== verification/Sessions.v ===== *)
(** Calls on a server: a reading may fail, a statement may change the server or
    fail, and either failure ends the call unless it is caught.  What the executors
    of the three engines share. *)
From S2P Require Import Prelude EngineTypes Store.

Local Open Scope string_scope.

Definition call (Srv A : Type) : Type := Srv -> Srv * (exn + A).

#[export] Instance call_ret {Srv} : MRet (call Srv) := fun A a s => (s, inr a).
#[export] Instance call_bind {Srv} : MBind (call Srv) := fun A B k m s =>
  match m s with (s', inr a) => k a s' | (s', inl e) => (s', inl e) end.

Section calls.
Context {Srv : Type}.

Definition fail_with {A} (e : exn) : call Srv A := fun s => (s, inl e).
(** A reading, and a reading of how the server stands. *)
Definition ask {A} (f : Srv -> exn + A) : call Srv A := fun s => (s, f s).

(** What a driver throws: the message, and the numbers of the error and of the
    errors that caused it, outermost first. *)
Record DriverError := { de_numbers : list (option Z); de_message : string }.
Definition thrown (e : DriverError) : exn := Thrown (de_message e).
(** One statement. *)
Definition run (f : Srv -> Srv * (DriverError + unit)) : call Srv unit := fun s =>
  match f s with (s', inl e) => (s', inl (thrown e)) | (s', inr tt) => (s', inr tt) end.
(** One statement, and what is done with the error it throws. *)
Definition run_or {A} (f : Srv -> Srv * (DriverError + unit)) (handler : DriverError -> call Srv A) (next : call Srv A) : call Srv A := fun s =>
  match f s with (s', inl e) => handler e s' | (s', inr tt) => next s' end.

(** What a statement left where it succeeded, and where it failed with an error that is
    the server's own answer.  Of an error that is not, a connection lost while the
    statement was under way, nothing is said: it may have been carried out. *)
Definition left_by {X} (answered : DriverError -> Prop) (out : DriverError + unit) (before after now : X) : Prop :=
  match out with inr _ => now = after | inl e => answered e -> now = before end.
Lemma left_by_answered {X} (answered : DriverError -> Prop) (out : DriverError + unit) (before after now : X) :
  (forall e, out = inl e -> answered e) -> left_by answered out before after now -> now = if out is inr _ then after else before.
Proof. intros Ha. destruct out as [e|[]]; cbn; [intros H; by apply H, Ha|done]. Qed.

(** The guard every write starts with. *)
Definition assertWritable (readOnly : bool) (action : string) : call Srv unit :=
  if readOnly then fail_with (Thrown ("Cluster is read-only; refusing to " +:+ action +:+ ".")) else mret tt.
Definition assert_none (refusal : option string) : call Srv unit :=
  match refusal with Some text => fail_with (Thrown text) | None => mret tt end.

(** ** A call that changes nothing *)

Definition quiet {A} (m : call Srv A) : Prop := forall s, (m s).1 = s.
Lemma quiet_ret {A} (a : A) : quiet (mret a).
Proof. done. Qed.
Lemma quiet_fail {A} e : quiet (fail_with (A := A) e).
Proof. done. Qed.
Lemma quiet_ask {A} (f : Srv -> exn + A) : quiet (ask f).
Proof. done. Qed.
Lemma quiet_bind {A B} (m : call Srv A) (k : A -> call Srv B) : quiet m -> (forall a, quiet (k a)) -> quiet (m ≫= k).
Proof. intros Hm Hk s. unfold mbind, call_bind. specialize (Hm s). destruct (m s) as [s' [e|a]]; cbn in *; [done|]. subst s'. apply Hk. Qed.
Lemma quiet_writable readOnly action : quiet (assertWritable readOnly action).
Proof. by destruct readOnly. Qed.
Lemma quiet_none refusal : quiet (assert_none refusal).
Proof. by destruct refusal. Qed.

(** On a read-only cluster the guard is the whole call. *)
Lemma read_only_call {A} action (k : unit -> call Srv A) s :
  (assertWritable true action ≫= k) s = (s, inl (Thrown ("Cluster is read-only; refusing to " +:+ action +:+ "."))).
Proof. done. Qed.

(** A call that got past a part that changes nothing. *)
Lemma bind_quiet {A B} (m : call Srv A) (k : A -> call Srv B) s : quiet m ->
  (m ≫= k) s = match (m s).2 with inl e => (s, inl e) | inr a => k a s end.
Proof. intros Hm. unfold mbind, call_bind. specialize (Hm s). destruct (m s) as [s' [e|a]]; cbn in *; by subst s'. Qed.
End calls.

Create HintDb calls.
#[export] Hint Resolve quiet_ret quiet_fail quiet_ask quiet_bind quiet_writable quiet_none : calls.
