(* ===== verification/SqlServer.v ===== *)
(** The SQL Server adapter's index catalog and its writes:
    [apps/api/src/mssql/executor.ts], [version.ts], and [listIndexes] and
    [indexesByCollection] of [collector.ts] in the same directory.

    The server is a parameter: what the catalog query answers, what a statement
    does.  [MssqlLaws] says what SQL Server documents of both, and under it the
    adapter keeps what the passes rely on, [SessionLaws] and [BuildLaws], where every
    statement is answered. *)
From Stdlib Require Import Ascii.
From S2P Require Import Prelude EngineTypes NetGuard Redundancy Store Sessions Groups SqlText.

Local Open Scope string_scope.
Local Open Scope Z_scope.
Local Open Scope list_scope.

(** ** Versions *)

Record MssqlServerVersion := { mv_major : Z; mv_minor : Z; mv_text : string }.
Definition PRODUCT_NAMES : list (Z * string) :=
  [(13, "SQL Server 2016"); (14, "SQL Server 2017"); (15, "SQL Server 2019"); (16, "SQL Server 2022"); (17, "SQL Server 2025")].
Definition mssqlProductName (version : MssqlServerVersion) : string :=
  match List.find (fun '(major, _) => major =? mv_major version) PRODUCT_NAMES with
  | Some (_, text) => text
  | None => "SQL Server (engine version " +:+ mv_text version +:+ ")"
  end.
Definition MSSQL_MIN_MAJOR : Z := 13.
Definition MSSQL_MAX_TESTED_MAJOR : Z := 17.
(** [/^(\d+)\.(\d+)/]. *)
Definition two_numbers (text : string) : option (Z * Z) :=
  let '(major, rest) := run_of is_digit text in
  match major, after_text "." rest with
  | EmptyString, _ | _, None => None
  | _, Some rest =>
      match fst (run_of is_digit rest) with
      | EmptyString => None
      | minor => Some (digits_value major 0, digits_value minor 0)
      end
  end.
Definition parseMssqlVersion (value : option string) : option MssqlServerVersion :=
  text ← value; '(major, minor) ← two_numbers (trim text); Some {| mv_major := major; mv_minor := minor; mv_text := text |}.
Definition mssqlVersionRefusal (allowUntestedVersions : bool) (version : option MssqlServerVersion) : option string :=
  match version with
  | None => Some ("the server's version could not be read, and an unreadable version is " +:+
      "treated as unsupported: this engine disables and drops indexes on a live " +:+ "database, and it does not guess")
  | Some version =>
      if mv_major version <? MSSQL_MIN_MAJOR then
        Some (mssqlProductName version +:+ " is older than the SQL Server 2016 floor. " +:+
          "Query Store — the only workload signal that survives a restart — does not " +:+
          "exist there, and releases that old take no security fixes. Upgrade the " +:+ "server, or point Indexterity at a 2016+ instance")
      else if (MSSQL_MAX_TESTED_MAJOR <? mv_major version) && negb allowUntestedVersions then
        Some (mssqlProductName version +:+ " is newer than the SQL Server 2025 series this " +:+
          "engine has been tested against. Refusing rather than guessing: DISABLE/REBUILD " +:+
          "semantics and the usage-stats reset behaviour have moved between releases " +:+
          "before. Set ALLOW_UNTESTED_DATABASE_VERSION=true to proceed anyway")
      else None
  end.

(** ** The catalog *)

Record IndexRow := {
  ir_indexName : string; ir_indexType : Z; ir_isUnique : bool; ir_isPrimaryKey : bool; ir_isUniqueConstraint : bool;
  ir_isDisabled : bool; ir_hasFilter : bool; ir_filterDefinition : option string; ir_keyOrdinal : Z; ir_isDescending : bool;
  ir_columnName : string; ir_isIncluded : bool; ir_indexColumnId : Z;
}.
Definition row_key (row : IndexRow) : IndexKey :=
  {| field := ir_columnName row; direction := Ordered (if ir_isDescending row then Neg else EngineTypes.Pos) |}.
Definition by_ordinal (a b : IndexRow) : bool := ir_keyOrdinal a <=? ir_keyOrdinal b.
Definition by_column (a b : IndexRow) : bool := ir_indexColumnId a <=? ir_indexColumnId b.
Definition key_rows (rows : list IndexRow) : list IndexRow := List.filter (fun row => negb (ir_isIncluded row)) rows.
Definition include_rows (rows : list IndexRow) : list IndexRow := List.filter ir_isIncluded rows.
Definition toMssqlIndexSpec (rows : list IndexRow) : option IndexSpec :=
  match rows with
  | [] => None
  | first :: _ =>
      match row_key <$> stable_sort by_ordinal (key_rows rows) with
      | [] => None
      | keys =>
          let include := ir_columnName <$> stable_sort by_column (include_rows rows) in
          Some {| name := ir_indexName first; EngineTypes.keys := keys;
                  unique := ir_isUnique first || ir_isPrimaryKey first || ir_isUniqueConstraint first; ttl := false;
                  partial := ir_hasFilter first;
                  partialFilter := (fun definition => [("definition", JStr definition)]) <$> ir_filterDefinition first;
                  sparse := false; hidden := ir_isDisabled first; isShardKey := ir_indexType first =? 1; collation := None;
                  include := match include with [] => None | _ => Some include end |}
      end
  end.
(** [listIndexes], on the rows the query answers for one table. *)
Definition specs_of (rows : list IndexRow) : list IndexSpec := omap (fun '(_, bucket) => toMssqlIndexSpec bucket) (bucketed ir_indexName rows).
(** [indexesByCollection], on the rows of every table of the database. *)
Definition indexes_by_table (rows : list (string * IndexRow)) : list (string * list IndexSpec) :=
  (fun '(table, forTable) => (table, specs_of forTable.*2)) <$> bucketed fst rows.

(** ** The server *)

Record IndexStateRow := { is_type : Z; is_isUnique : bool; is_isPrimaryKey : bool; is_isUniqueConstraint : bool; is_isDisabled : bool }.
(** A table is named by [qualifiedTable], in the queries and in the statements. *)
Class MssqlServer (Srv : Type) := {
  index_rows : Srv -> string -> exn + list IndexRow;
  index_state : Srv -> string -> string -> exn + list IndexStateRow;
  mssql_version : Srv -> exn + option MssqlServerVersion;
  supportsOnlineRebuild : Srv -> exn + bool;
  execute : string -> Srv -> Srv * (DriverError + unit);
}.

(** ** The executor *)

(** [/an index or statistics with name .* already exists on table/i]. *)
Fixpoint on_line (part text : string) : bool :=
  String.prefix part text ||
  match text with
  | EmptyString => false
  | String c rest => one_line (String c "") && on_line part rest
  end.
Fixpoint name_taken_text (text : string) : bool :=
  match after_text "an index or statistics with name " text with
  | Some rest => on_line " already exists on table" rest
  | None => false
  end || match text with EmptyString => false | String _ rest => name_taken_text rest end.
Definition has_number (number : Z) (error : DriverError) : bool :=
  existsb (fun n => bool_decide (n = Some number)) (take 5 (de_numbers error)).
Definition isNameTaken (error : DriverError) : bool := has_number 1913 error || name_taken_text (toLowerCase (de_message error)).

Definition refusalToDisable (state : IndexStateRow) : option string :=
  if negb (is_type state =? 2) then Some "refusing to disable a clustered index: the whole table goes offline until it is rebuilt"
  else if is_isPrimaryKey state then Some "refusing to disable a primary key index: every referencing foreign key would be disabled with it"
  else if is_isUniqueConstraint state || is_isUnique state then
    Some ("refusing to disable a unique index: uniqueness stops being enforced while it is " +:+
          "disabled, and re-enabling fails if duplicates arrived in the meantime")
  else None.

Definition disable_statement (table indexName : string) : string := "ALTER INDEX " +:+ quoteIdent indexName +:+ " ON " +:+ table +:+ " DISABLE".
Definition rebuild_statement (table indexName : string) : string := "ALTER INDEX " +:+ quoteIdent indexName +:+ " ON " +:+ table +:+ " REBUILD".
Definition drop_statement (table indexName : string) : string := "DROP INDEX " +:+ quoteIdent indexName +:+ " ON " +:+ table.
Definition key_text (key : string * SortDirection) : string :=
  quoteIdent (fst key) +:+ " " +:+ (if snd key is Neg then "DESC" else "ASC").
Definition create_statement (unique : bool) (name table : string) (keys : list (string * SortDirection)) (included : list string)
    (where_ : option string) : string :=
  "CREATE " +:+ (if unique then "UNIQUE " else "") +:+ "NONCLUSTERED INDEX " +:+ quoteIdent name +:+ " " +:+
  "ON " +:+ table +:+ " (" +:+ String.concat ", " (key_text <$> keys) +:+ ")" +:+
  (if included is [] then "" else " INCLUDE (" +:+ String.concat ", " (quoteIdent <$> included) +:+ ")") +:+
  (if where_ is Some definition then " WHERE " +:+ definition else "").

Section executor.
Context {Srv : Type} `{MssqlServer Srv} (allowUntestedVersions readOnly : bool).

Definition mssql_supported : call Srv unit := version ← ask mssql_version; assert_none (mssqlVersionRefusal allowUntestedVersions version).
Definition indexState (table indexName : string) : call Srv (option IndexStateRow) :=
  rows ← ask (fun s => index_state s table indexName); mret (head rows).
Definition found (table indexName : string) : call Srv IndexStateRow :=
  state ← indexState table indexName;
  match state with None => fail_with (Thrown ("index not found: " +:+ indexName)) | Some state => mret state end.

Definition mssql_hide (database collection indexName : string) : call Srv unit :=
  assertWritable readOnly "hide index";;
  mssql_supported;;
  state ← found (qualifiedTable database collection) indexName;
  if is_isDisabled state then mret tt
  else assert_none (refusalToDisable state);; run (execute (disable_statement (qualifiedTable database collection) indexName)).
Definition rebuild (table indexName : string) : call Srv unit :=
  online ← ask supportsOnlineRebuild;
  let statement := rebuild_statement table indexName in
  if online : bool then run_or (execute (statement +:+ " WITH (ONLINE = ON)")) (fun _ => run (execute statement)) (mret tt)
  else run (execute statement).
Definition mssql_unhide (database collection indexName : string) : call Srv unit :=
  assertWritable readOnly "unhide index";;
  mssql_supported;;
  state ← found (qualifiedTable database collection) indexName;
  if negb (is_isDisabled state) then mret tt else rebuild (qualifiedTable database collection) indexName.
Definition mssql_drop (database collection indexName : string) : call Srv unit :=
  assertWritable readOnly "drop index";;
  mssql_supported;;
  state ← found (qualifiedTable database collection) indexName;
  if negb (is_type state =? 2) || is_isPrimaryKey state || is_isUniqueConstraint state then
    fail_with (Thrown ("refusing to drop a clustered or constraint-backing index — that is a schema " +:+ "change, not an index cleanup"))
  else run (execute (drop_statement (qualifiedTable database collection) indexName)).

(** The predicate of a filter, or a refusal to build one that is not SQL. *)
Definition filter_definition (filter : option (list (string * json))) : call Srv (option string) :=
  match filter with
  | None | Some [] => mret None
  | Some entries =>
      match map_get "definition" entries with
      | Some (JStr (String _ _ as definition)) => mret (Some definition)
      | _ => fail_with (Refused "cannot create a filtered index from a non-SQL filter expression")
      end
  end.
Definition included_columns (keys : list (string * SortDirection)) (include : option (list string)) : list string :=
  List.filter (fun column => negb (bool_decide (column ∈ keys.*1))) (include ?? []).
(** Every caller names the index, so the name is never derived from the keys. *)
Definition mssql_create (database collection : string) (keys : list (string * SortDirection)) (options : CreateIndexOptions) : call Srv IndexBuildOutcome :=
  assertWritable readOnly "create index";;
  mssql_supported;;
  match keys with
  | [] => fail_with (Thrown "cannot create an index with no keys")
  | _ =>
      definition ← filter_definition (co_partialFilterExpression options);
      run_or (execute (create_statement (co_unique options) (co_name options) (qualifiedTable database collection) keys
                         (included_columns keys (co_include options)) definition))
        (fun error =>
           fail_with (if isNameTaken error
                      then Refused ("an index or statistics object named " +:+ co_name options +:+ " already exists on " +:+ collection)
                      else thrown error))
        (mret BUILT)
  end.
End executor.

(** ** What SQL Server documents *)

Definition set_disabled (b : bool) (indexName : string) (row : IndexRow) : IndexRow :=
  if String.eqb (ir_indexName row) indexName then
    {| ir_indexName := ir_indexName row; ir_indexType := ir_indexType row; ir_isUnique := ir_isUnique row; ir_isPrimaryKey := ir_isPrimaryKey row;
       ir_isUniqueConstraint := ir_isUniqueConstraint row; ir_isDisabled := b; ir_hasFilter := ir_hasFilter row;
       ir_filterDefinition := ir_filterDefinition row; ir_keyOrdinal := ir_keyOrdinal row; ir_isDescending := ir_isDescending row;
       ir_columnName := ir_columnName row; ir_isIncluded := ir_isIncluded row; ir_indexColumnId := ir_indexColumnId row |}
  else row.
Definition of_index (indexName : string) (row : IndexRow) : bool := String.eqb (ir_indexName row) indexName.
Definition state_of (row : IndexRow) : IndexStateRow :=
  {| is_type := ir_indexType row; is_isUnique := ir_isUnique row; is_isPrimaryKey := ir_isPrimaryKey row;
     is_isUniqueConstraint := ir_isUniqueConstraint row; is_isDisabled := ir_isDisabled row |}.
(** The rows of an index that a [CREATE INDEX] leaves. *)
Definition created_row (unique : bool) (indexName : string) (definition : option string) (column : string) (id ordinal : nat)
    (descending included : bool) : IndexRow :=
  {| ir_indexName := indexName; ir_indexType := 2; ir_isUnique := unique; ir_isPrimaryKey := false; ir_isUniqueConstraint := false;
     ir_isDisabled := false; ir_hasFilter := is_some definition; ir_filterDefinition := definition; ir_keyOrdinal := Z.of_nat ordinal;
     ir_isDescending := descending; ir_columnName := column; ir_isIncluded := included; ir_indexColumnId := Z.of_nat id |}.
Definition created_rows (unique : bool) (indexName : string) (keys : list (string * SortDirection)) (included : list string)
    (definition : option string) : list IndexRow :=
  imap (fun i '(column, direction) => created_row unique indexName definition column (S i) (S i) (if direction is Neg then true else false) false) keys
  ++ imap (fun i column => created_row unique indexName definition column (length keys + S i) 0 false true) included.

(** One index of the catalog: it has a key; no column is both a key and included;
    a filter is a predicate as the server writes it. *)
Definition index_ok (normal : string -> string) (rows : list IndexRow) : Prop :=
  key_rows rows <> [] /\
  (forall row row', row ∈ key_rows rows -> row' ∈ include_rows rows -> ir_columnName row <> ir_columnName row') /\
  (forall row, row ∈ rows -> ir_hasFilter row = is_some (ir_filterDefinition row) /\
     (forall definition, ir_filterDefinition row = Some definition -> definition <> "" /\ normal definition = definition)).

(** [rows] is the catalog of a table, by its qualified name, and [normal] how the
    server writes a predicate back.  What is executed is one statement, of which
    what follows WHERE is the predicate; one the server answers with an error changed
    no index.  Names are compared as they are spelled: the collation is one that tells
    the cases of a letter apart.  [answered] are the errors that are an answer of the
    server. *)
Class MssqlLaws (Srv : Type) `{MssqlServer Srv} (rows : Srv -> string -> list IndexRow) (normal : string -> string) (answered : DriverError -> Prop) : Prop := {
  index_rows_true s table out : index_rows s table = inr out -> out = rows s table;
  index_state_true s table indexName states row :
    index_state s table indexName = inr states -> row ∈ rows s table -> ir_indexName row = indexName -> head states = Some (state_of row);
  rows_ok s table indexName : indexName ∈ (ir_indexName <$> rows s table) -> index_ok normal (List.filter (of_index indexName) (rows s table));
  disable_effect s d c indexName state states s' out :
    index_state s (qualifiedTable d c) indexName = inr (state :: states) -> is_type state = 2 -> is_isPrimaryKey state = false ->
    execute (disable_statement (qualifiedTable d c) indexName) s = (s', out) ->
    left_by answered out (rows s (qualifiedTable d c)) (set_disabled true indexName <$> rows s (qualifiedTable d c)) (rows s' (qualifiedTable d c)) /\
    forall other, other <> (qualifiedTable d c) -> rows s' other = rows s other;
  rebuild_effect s d c indexName how s' out :
    how = "" \/ how = " WITH (ONLINE = ON)" -> execute (rebuild_statement (qualifiedTable d c) indexName +:+ how) s = (s', out) ->
    left_by answered out (rows s (qualifiedTable d c)) (set_disabled false indexName <$> rows s (qualifiedTable d c)) (rows s' (qualifiedTable d c)) /\
    forall other, other <> (qualifiedTable d c) -> rows s' other = rows s other;
  drop_statement_effect s d c indexName state states s' out :
    index_state s (qualifiedTable d c) indexName = inr (state :: states) -> is_type state = 2 ->
    execute (drop_statement (qualifiedTable d c) indexName) s = (s', out) ->
    left_by answered out (rows s (qualifiedTable d c)) (List.filter (fun row => negb (of_index indexName row)) (rows s (qualifiedTable d c))) (rows s' (qualifiedTable d c)) /\
    forall other, other <> (qualifiedTable d c) -> rows s' other = rows s other;
  create_statement_effect s d c unique indexName keys included definition s' out :
    keys <> [] -> execute (create_statement unique indexName (qualifiedTable d c) keys included definition) s = (s', out) ->
    match out with
    | inr _ => exists before after, indexName ∉ (ir_indexName <$> rows s (qualifiedTable d c)) /\ rows s (qualifiedTable d c) = before ++ after /\
        rows s' (qualifiedTable d c) = before ++ created_rows unique indexName keys included (normal <$> definition) ++ after
    | inl e => answered e -> rows s' (qualifiedTable d c) = rows s (qualifiedTable d c)
    end /\
    forall other, other <> (qualifiedTable d c) -> rows s' other = rows s other;
}.

(** Every statement is answered: what fails is an error of the server's own. *)
Definition every_statement_answered (Srv : Type) `{MssqlServer Srv} (answered : DriverError -> Prop) : Prop :=
  forall text s e, (execute text s).2 = inl e -> answered e.

(** ** The session *)

(** The passes name a table as the collector listed it, [schema.table]; the other
    spelling of a table, without its schema, is never asked for. *)
Definition named_in_full (collection : string) : bool := is_some (at_first "."%char collection).
Definition for_table {Srv A} (collection : string) (m : call Srv A) : call Srv A :=
  if named_in_full collection then m else fail_with (Thrown ("not a table of the collector: " +:+ collection)).
(** The adapter's session: its catalog and its writes, and the readings of any
    session for the rest. *)
Definition mssql_session {Srv} `{MssqlServer Srv} (allowUntestedVersions readOnly : bool) (readings : EngineSession Srv) : EngineSession Srv := {|
  listIndexes s database collection :=
    if named_in_full collection then
      match index_rows s (qualifiedTable database collection) with inl e => inl e | inr rows => inr (specs_of rows) end
    else inr [];
  collectUsage := @collectUsage Srv readings;
  collectHintedIndexes := @collectHintedIndexes Srv readings;
  readLatency := @readLatency Srv readings;
  collectionWrites := @collectionWrites Srv readings;
  latencyByCollection := @latencyByCollection Srv readings;
  collectFailedOps := @collectFailedOps Srv readings;
  hide s database collection indexName := for_table collection (mssql_hide allowUntestedVersions readOnly database collection indexName) s;
  unhide s database collection indexName := for_table collection (mssql_unhide allowUntestedVersions readOnly database collection indexName) s;
  drop_index s database collection indexName := for_table collection (mssql_drop allowUntestedVersions readOnly database collection indexName) s;
  create s database collection keys options := for_table collection (mssql_create allowUntestedVersions readOnly database collection keys options) s;
  settleBuild := None;
  reconcile := None;
|}.
(** The indexes of a table. *)
Definition mssql_indexes {Srv} (rows : Srv -> string -> list IndexRow) (s : Srv) (database collection : string) : list IndexSpec :=
  if named_in_full collection then specs_of (rows s (qualifiedTable database collection)) else [].
(** What this engine builds: an index that is not clustered, on ordered keys, with
    columns beside them or none, and a predicate as the server writes one. *)
Definition mssql_holds (normal : string -> string) (spec : IndexSpec) : Prop :=
  ttl spec = false /\ sparse spec = false /\ collation spec = None /\ isShardKey spec = false /\
  partial spec = is_some (partialFilter spec) /\
  (forall filter, partialFilter spec = Some filter ->
     exists definition, filter = [("definition", JStr definition)] /\ definition <> "" /\ normal definition = definition) /\
  keys spec <> [] /\
  (forall columns, include spec = Some columns -> columns <> [] /\ forall column, column ∈ columns -> column ∉ (field <$> keys spec)).

(** ** Tables by their names *)

Lemma at_first_split c s before after : at_first c s = Some (before, after) -> s = before +:+ String c after.
Proof.
  revert before. induction s as [|a s IH]; intros before; [done|]. cbn [at_first]. destruct (Ascii.eqb_spec a c) as [->|].
  - by intros [= <- <-].
  - destruct (at_first c s) as [[b t]|]; [|done]. intros [= <- <-]. by rewrite (IH b).
Qed.
Lemma split_named collection : named_in_full collection = true ->
  collection = (splitCollectionName collection).1 +:+ "." +:+ (splitCollectionName collection).2.
Proof.
  unfold named_in_full, splitCollectionName. destruct (at_first _ collection) as [[schema table]|] eqn:E; [|done]. intros _. cbn [fst snd].
  by apply at_first_split in E.
Qed.
(** Two names in full of one table are one name. *)
Lemma qualifiedTable_inj database collection database' collection' :
  named_in_full collection = true -> named_in_full collection' = true ->
  qualifiedTable database collection = qualifiedTable database' collection' -> (database, collection) = (database', collection').
Proof.
  intros Hn Hn' E.
  destruct (qualified_reads database collection "" eq_refl) as (d1 & s1 & H1 & H2 & H3).
  destruct (qualified_reads database' collection' "" eq_refl) as (d2 & s2 & H1' & H2' & H3').
  rewrite E in H1. rewrite H1 in H1'. injection H1' as -> Ed. change (d1 = d2) in Ed. subst d2. rewrite H2 in H2'. injection H2' as Es Ed.
  change (s1 = s2) in Ed. subst s2. rewrite H3 in H3'. injection H3' as Et. f_equal. rewrite (split_named collection), (split_named collection') by done.
  by rewrite Es, Et.
Qed.

(** ** The indexes of a catalog *)

Lemma specs_of_exact rows :
  specs_of rows = omap (fun k => toMssqlIndexSpec (List.filter (of_index k) rows)) (distinct_strings (ir_indexName <$> rows)).
Proof.
  unfold specs_of. rewrite bucketed_exact. generalize (distinct_strings (ir_indexName <$> rows)) as ks. induction ks as [|k ks IH]; [done|]. cbn.
  destruct (toMssqlIndexSpec _); [f_equal; exact IH|exact IH].
Qed.
Lemma spec_name rows spec k : Forall (fun row => ir_indexName row = k) rows -> toMssqlIndexSpec rows = Some spec -> name spec = k.
Proof.
  destruct rows as [|first rest]; [done|]. intros [Hk _]%Forall_cons. unfold toMssqlIndexSpec. destruct (row_key <$> _); [done|]. by intros [= <-].
Qed.
Lemma of_index_all k rows : Forall (fun row => ir_indexName row = k) (List.filter (of_index k) rows).
Proof. apply Forall_forall. intros row [_ Hk]%elem_of_filter_bool. by apply String.eqb_eq in Hk. Qed.
Lemma elem_of_specs rows spec : spec ∈ specs_of rows <-> toMssqlIndexSpec (List.filter (of_index (name spec)) rows) = Some spec.
Proof.
  rewrite specs_of_exact, list_elem_of_omap. split.
  - intros (k & _ & E). by rewrite (spec_name _ _ _ (of_index_all k rows) E).
  - intros E. exists (name spec). split; [|done]. apply elem_of_distinct_strings. destruct (List.filter _ rows) as [|row l] eqn:Ef; [done|].
    assert (row ∈ List.filter (of_index (name spec)) rows) as [Hin Hk]%elem_of_filter_bool by (rewrite Ef; left).
    apply String.eqb_eq in Hk. rewrite <- Hk. by apply list_elem_of_fmap_2.
Qed.

(** *** Disabling and rebuilding *)

Section disabled.
Context (b : bool) (indexName : string).
Abbreviation f := (set_disabled b indexName).
Lemma disabled_name row : ir_indexName (f row) = ir_indexName row.
Proof. unfold set_disabled. by destruct (String.eqb _ _). Qed.
Lemma disabled_included row : ir_isIncluded (f row) = ir_isIncluded row.
Proof. unfold set_disabled. by destruct (String.eqb _ _). Qed.
Lemma disabled_ordinal x y : by_ordinal (f x) (f y) = by_ordinal x y.
Proof. unfold by_ordinal, set_disabled. by do 2 destruct (String.eqb _ _). Qed.
Lemma disabled_column x y : by_column (f x) (f y) = by_column x y.
Proof. unfold by_column, set_disabled. by do 2 destruct (String.eqb _ _). Qed.
Lemma disabled_key row : row_key (f row) = row_key row.
Proof. unfold row_key, set_disabled. by destruct (String.eqb _ _). Qed.
Lemma disabled_columnName row : ir_columnName (f row) = ir_columnName row.
Proof. unfold set_disabled. by destruct (String.eqb _ _). Qed.

Lemma disabled_spec rows : toMssqlIndexSpec (f <$> rows) =
  (fun spec => if String.eqb (name spec) indexName then set_hidden b spec else spec) <$> toMssqlIndexSpec rows.
Proof.
  destruct rows as [|first rest]; [done|]. unfold toMssqlIndexSpec. cbn [fmap list_fmap]. rewrite <- !(fmap_cons f first rest).
  set (rows := first :: rest). unfold key_rows, include_rows. rewrite !filter_fmap_bool.
  rewrite (filter_ext_bool (fun x => negb (ir_isIncluded (f x))) (fun x => negb (ir_isIncluded x))) by (intros; by rewrite disabled_included).
  rewrite (filter_ext_bool (fun x => ir_isIncluded (f x)) ir_isIncluded) by (intros; by rewrite disabled_included).
  rewrite (stable_sort_fmap by_ordinal by_ordinal) by apply disabled_ordinal. rewrite (stable_sort_fmap by_column by_column) by apply disabled_column.
  rewrite <- !list_fmap_compose. rewrite (list_fmap_ext (row_key ∘ f) row_key) by (intros; apply disabled_key).
  rewrite (list_fmap_ext (ir_columnName ∘ f) ir_columnName) by (intros; apply disabled_columnName).
  destruct (row_key <$> _); [done|]. unfold set_disabled. cbn. by destruct (String.eqb (ir_indexName first) indexName).
Qed.
Lemma disabled_specs rows : specs_of (f <$> rows) = mark_hidden b indexName (specs_of rows).
Proof.
  rewrite !specs_of_exact. unfold mark_hidden. rewrite <- list_fmap_compose. rewrite (list_fmap_ext (ir_indexName ∘ f) ir_indexName) by (intros; apply disabled_name).
  rewrite list_fmap_omap. apply list_omap_ext, Forall_Forall2_diag, Forall_forall. intros k _. rewrite filter_fmap_bool.
  rewrite (filter_ext_bool (fun x => of_index k (f x)) (of_index k)) by (intros; unfold of_index; by rewrite disabled_name). apply disabled_spec.
Qed.
End disabled.

(** *** Dropping *)

Lemma distinct_from_ext seen seen' l : (forall x, x ∈ l -> x ∈ seen <-> x ∈ seen') -> distinct_from seen l = distinct_from seen' l.
Proof.
  revert seen seen'. induction l as [|x l IH]; intros seen seen' He; [done|]. cbn [distinct_from].
  rewrite (bool_decide_ext (x ∈ seen) (x ∈ seen')) by (apply He; left). case_bool_decide.
  - apply IH. intros y Hy. apply He. by right.
  - f_equal. apply IH. intros y Hy. rewrite !elem_of_cons. rewrite He by (by right). done.
Qed.
Lemma distinct_from_filter p seen l : distinct_from seen (List.filter p l) = List.filter p (distinct_from seen l).
Proof.
  revert seen. induction l as [|x l IH]; intros seen; [done|]. cbn [List.filter distinct_from]. destruct (p x) eqn:Hp; cbn [distinct_from]; case_bool_decide as Hx.
  - apply IH.
  - cbn [List.filter]. rewrite Hp. f_equal. apply IH.
  - apply IH.
  - cbn [List.filter]. rewrite Hp, <- IH. apply distinct_from_ext. intros y [_ Hy]%elem_of_filter_bool. rewrite elem_of_cons.
    split; [by right|]. intros [->|]; [congruence|done].
Qed.
Lemma filter_out_index k n rows : k <> n -> List.filter (of_index k) (List.filter (fun row => negb (of_index n row)) rows) = List.filter (of_index k) rows.
Proof.
  intros Hne. rewrite filter_filter_bool. apply filter_ext_bool. intros row _. unfold of_index.
  destruct (String.eqb_spec (ir_indexName row) k) as [->|]; [|by rewrite andb_false_r]. by destruct (String.eqb_spec k n).
Qed.
Lemma dropped_specs n rows : specs_of (List.filter (fun row => negb (of_index n row)) rows) = without_index n (specs_of rows).
Proof.
  rewrite !specs_of_exact. unfold without_index.
  assert (ir_indexName <$> List.filter (fun row => negb (of_index n row)) rows = List.filter (fun k => negb (String.eqb k n)) (ir_indexName <$> rows)) as ->
    by (by rewrite filter_fmap_bool).
  unfold distinct_strings. rewrite distinct_from_filter. generalize (distinct_from [] (ir_indexName <$> rows)) as ks. induction ks as [|k ks IH]; [done|].
  cbn [List.filter]. destruct (String.eqb_spec k n) as [->|Hne]; cbn [negb].
  - cbn [omap list_omap]. destruct (toMssqlIndexSpec (List.filter (of_index n) rows)) as [spec|] eqn:E; [|exact IH]. cbn [List.filter].
    rewrite (spec_name _ _ _ (of_index_all n rows) E), String.eqb_refl. exact IH.
  - cbn [omap list_omap]. rewrite filter_out_index by done. destruct (toMssqlIndexSpec (List.filter (of_index k) rows)) as [spec|] eqn:E; [|exact IH]. cbn [List.filter].
    rewrite (spec_name _ _ _ (of_index_all k rows) E). destruct (String.eqb_spec k n); [done|]. cbn. f_equal. exact IH.
Qed.

(** *** Building *)

Lemma distinct_strings_perm l l' : l ≡ₚ l' -> distinct_strings l ≡ₚ distinct_strings l'.
Proof.
  intros Hp. apply NoDup_Permutation; [apply distinct_from_NoDup..|]. intros x. by rewrite !elem_of_distinct_strings, Hp.
Qed.
Lemma omap_perm {A B} (f : A -> option B) l l' : l ≡ₚ l' -> omap f l ≡ₚ omap f l'.
Proof.
  induction 1 as [|x l l' _ IH|x y l|]; [done| | |by etrans]; cbn; [by destruct (f x); rewrite ?IH|].
  destruct (f x), (f y); try done. constructor.
Qed.
Lemma added_specs n new before after : Forall (fun row => ir_indexName row = n) new -> new <> [] ->
  n ∉ (ir_indexName <$> before ++ after) ->
  specs_of (before ++ new ++ after) ≡ₚ specs_of (before ++ after) ++ option_list (toMssqlIndexSpec new).
Proof.
  intros Hnew Hne Hn. rewrite !specs_of_exact.
  assert (distinct_strings (ir_indexName <$> before ++ new ++ after) ≡ₚ distinct_strings (ir_indexName <$> before ++ after) ++ [n]) as Hp.
  { apply NoDup_Permutation; [apply distinct_from_NoDup| |].
    - apply NoDup_app. split_and!; [apply distinct_from_NoDup| |apply NoDup_singleton]. intros x Hx ->%list_elem_of_singleton. apply Hn. by apply elem_of_distinct_strings.
    - intros x. rewrite elem_of_app, !elem_of_distinct_strings, list_elem_of_singleton, !fmap_app, !elem_of_app.
      assert (x ∈ ir_indexName <$> new <-> x = n); [|naive_solver]. rewrite Forall_forall in Hnew. split; [intros (row & -> & Hr)%list_elem_of_fmap; by apply Hnew|].
      intros ->. destruct new as [|row new]; [done|]. rewrite <- (Hnew row) by left. apply list_elem_of_fmap_2. left. }
  rewrite (omap_perm _ _ _ Hp), omap_app. cbn [omap list_omap].
  assert (List.filter (of_index n) (before ++ new ++ after) = new) as ->.
  { rewrite !List.filter_app, (filter_all (of_index n) new); [|intros row Hr; rewrite Forall_forall in Hnew; apply String.eqb_eq; by apply Hnew].
    rewrite fmap_app, not_elem_of_app in Hn. destruct Hn as [Hb Ha].
    assert (forall l, n ∉ (ir_indexName <$> l) -> List.filter (of_index n) l = []) as Hnone.
    { intros l Hl. apply filter_nothing. intros row Hr. apply String.eqb_neq. intros <-. apply Hl. by apply list_elem_of_fmap_2. }
    by rewrite (Hnone before), (Hnone after), app_nil_r. }
  assert (omap (fun k => toMssqlIndexSpec (List.filter (of_index k) (before ++ new ++ after))) (distinct_strings (ir_indexName <$> before ++ after)) =
    omap (fun k => toMssqlIndexSpec (List.filter (of_index k) (before ++ after))) (distinct_strings (ir_indexName <$> before ++ after))) as ->.
  { apply list_omap_ext, Forall_Forall2_diag, Forall_forall. intros k Hk. rewrite !List.filter_app, (filter_nothing (of_index k) new); [done|].
    intros row Hr. rewrite Forall_forall in Hnew. unfold of_index. rewrite (Hnew row) by done. apply String.eqb_neq. intros ->. apply Hn. by apply elem_of_distinct_strings. }
  by destruct (toMssqlIndexSpec new).
Qed.

Lemma imap_sorted {A B} (le : B -> B -> bool) (f : nat -> A -> B) l :
  (forall i j x y, (i <= j)%nat -> le (f i x) (f j y) = true) -> StronglySorted (fun x y => le x y = true) (imap f l).
Proof.
  revert f. induction l as [|x l IH]; intros f Hf; [constructor|]. cbn. constructor.
  - apply IH. intros i j y z Hij. apply Hf. lia.
  - apply Forall_forall. intros y (i & z & -> & _)%elem_of_lookup_imap_1. apply Hf. lia.
Qed.
Lemma imap_filter_none {A B} (f : nat -> A -> B) (p : B -> bool) l : (forall i x, p (f i x) = false) -> List.filter p (imap f l) = [].
Proof. intros Hp. apply filter_nothing. by intros y (i & z & -> & _)%elem_of_lookup_imap_1. Qed.
Lemma imap_filter_all {A B} (f : nat -> A -> B) (p : B -> bool) l : (forall i x, p (f i x) = true) -> List.filter p (imap f l) = imap f l.
Proof. intros Hp. apply filter_all. by intros y (i & z & -> & _)%elem_of_lookup_imap_1. Qed.
Lemma fmap_imap_const {A B C} (f : nat -> A -> B) (g : B -> C) (h : A -> C) l : (forall i x, g (f i x) = h x) -> g <$> imap f l = h <$> l.
Proof. intros Hg. rewrite fmap_imap. rewrite (imap_ext _ (fun _ x => h x)) by (intros; cbn; apply Hg). apply imap_const. Qed.

(** The index a statement builds, as the collector reads it back. *)
Definition built_spec (unique_ : bool) (indexName : string) (ks : list (string * SortDirection)) (included : list string) (definition : option string) : IndexSpec :=
  {| name := indexName; keys := (fun '(f, d) => {| field := f; direction := Ordered d |}) <$> ks; unique := unique_; ttl := false;
     partial := is_some definition; partialFilter := (fun definition => [("definition", JStr definition)]) <$> definition; sparse := false;
     hidden := false; isShardKey := false; collation := None; include := match included with [] => None | _ => Some included end |}.
Lemma created_rows_spec unique_ indexName ks included definition : ks <> [] ->
  toMssqlIndexSpec (created_rows unique_ indexName ks included definition) = Some (built_spec unique_ indexName ks included definition).
Proof.
  intros Hks. unfold created_rows. set (fk := fun i '(column, direction) => _). set (fi := fun i column => created_row _ _ _ column (_ + S i) _ _ _).
  assert (key_rows (imap fk ks ++ imap fi included) = imap fk ks) as Hk.
  { unfold key_rows. rewrite List.filter_app, imap_filter_all, imap_filter_none, app_nil_r; [done|done|]. by intros i [c d]. }
  assert (include_rows (imap fk ks ++ imap fi included) = imap fi included) as Hi.
  { unfold include_rows. rewrite List.filter_app, imap_filter_none, imap_filter_all; [done|done|]. by intros i [c d]. }
  assert (stable_sort by_ordinal (imap fk ks) = imap fk ks) as Hsk.
  { apply stable_sort_id, imap_sorted. intros i j [c d] [c' d'] Hij. apply Z.leb_le. cbn. lia. }
  assert (stable_sort by_column (imap fi included) = imap fi included) as Hsi.
  { apply stable_sort_id, imap_sorted. intros i j x y Hij. apply Z.leb_le. cbn. lia. }
  assert (row_key <$> imap fk ks = (fun '(f, d) => {| field := f; direction := Ordered d |}) <$> ks) as Hrk.
  { apply fmap_imap_const. by intros i [c []]. }
  assert (ir_columnName <$> imap fi included = included) as Hri.
  { rewrite (fmap_imap_const _ _ id) by done. apply list_fmap_id. }
  destruct ks as [|[f d] ks]; [done|]. unfold toMssqlIndexSpec. cbn [imap app] in *. unfold toMssqlIndexSpec. rewrite Hk, Hi, Hsk, Hsi, Hri, Hrk.
  unfold built_spec. cbn. by rewrite !orb_false_r.
Qed.

(** ** What each write came to *)

Definition ran (r : DriverError + unit) : exn + unit := match r with inl e => inl (thrown e) | inr tt => inr tt end.


Section cases.
Context {Srv : Type} `{MssqlServer Srv} (allow readOnly : bool).

Lemma found_cases table n s :
  (exists e, found table n s = (s, inl e)) \/
  (exists state states, index_state s table n = inr (state :: states) /\ found table n s = (s, inr state)).
Proof.
  unfold found, indexState, ask, mbind, call_bind, mret, call_ret. destruct (index_state s table n) as [e|[|state states]].
  - left. by eexists.
  - left. by eexists.
  - right. by exists state, states.
Qed.
(** A write that got past its guards has found the index. *)
Lemma guarded_cases {A} action table n (k : IndexStateRow -> call Srv A) s :
  let m := assertWritable readOnly action;; mssql_supported allow;; state ← found table n; k state in
  (exists e, m s = (s, inl e)) \/
  (exists state states, readOnly = false /\ index_state s table n = inr (state :: states) /\ m s = k state s).
Proof.
  intros m. destruct readOnly eqn:Hro; [left; by eexists|].
  assert (m s = match (mssql_supported allow s).2 with inl e => (s, inl e) | inr _ => (state ← found table n; k state) s end) as ->.
  { subst m. unfold assertWritable. change (mret tt ≫= ?f) with (f tt). apply bind_quiet. unfold mssql_supported. eauto with calls. }
  destruct (mssql_supported allow s).2 as [e|[]]; [left; by eexists|].
  unfold mbind, call_bind. destruct (found_cases table n s) as [[e ->]|(state & states & E & ->)]; [left; by eexists|right].
  by exists state, states.
Qed.

Lemma hide_cases d c n s :
  (exists e, mssql_hide allow readOnly d c n s = (s, inl e)) \/
  (exists state states, readOnly = false /\ index_state s (qualifiedTable d c) n = inr (state :: states) /\
     ((is_isDisabled state = true /\ mssql_hide allow readOnly d c n s = (s, inr tt)) \/
      (is_isDisabled state = false /\ refusalToDisable state = None /\
       mssql_hide allow readOnly d c n s = (let '(s', r) := execute (disable_statement (qualifiedTable d c) n) s in (s', ran r))))).
Proof.
  unfold mssql_hide. destruct (guarded_cases "hide index" (qualifiedTable d c) n (fun state => if is_isDisabled state then mret tt
    else assert_none (refusalToDisable state);; run (execute (disable_statement (qualifiedTable d c) n))) s) as [[e E]|(state & states & Hro & Hs & E)]; rewrite E; [left; by eexists|].
  destruct (is_isDisabled state) eqn:Ed; [right; exists state, states; split_and!; auto|].
  destruct (refusalToDisable state) as [text|] eqn:Er; [left; by eexists|]. right. exists state, states. split_and!; [done|done|]. right. split_and!; [done|done|].
  cbn. unfold run, mbind, call_bind. cbn. by destruct (execute _ s) as [s' [e|[]]].
Qed.
Lemma rebuild_cases table n s :
  (exists e, rebuild table n s = (s, inl e)) \/
  (exists s1 r, (s1 = s \/ exists e, execute (rebuild_statement table n +:+ " WITH (ONLINE = ON)") s = (s1, inl e)) /\
     (exists how, (how = "" \/ how = " WITH (ONLINE = ON)") /\ execute (rebuild_statement table n +:+ how) s1 = r) /\ rebuild table n s = (let '(s', r) := r in (s', ran r))).
Proof.
  unfold rebuild, mbind, call_bind, ask. destruct (supportsOnlineRebuild s) as [e|[]]; [left; by eexists| |]; right.
  - unfold run_or. destruct (execute (rebuild_statement table n +:+ " WITH (ONLINE = ON)") s) as [s1 [e|[]]] eqn:E1.
    + exists s1, (execute (rebuild_statement table n) s1). split_and!; [right; by eexists| |].
      * exists "". split; [by left|]. by rewrite append_empty_r.
      * unfold run. by destruct (execute (rebuild_statement table n) s1) as [s' [e'|[]]].
    + exists s, (s1, inr tt). split_and!; [by left| |done]. exists " WITH (ONLINE = ON)". split; [by right|done].
  - exists s, (execute (rebuild_statement table n) s). split_and!; [by left| |].
    + exists "". split; [by left|]. by rewrite append_empty_r.
    + unfold run. by destruct (execute (rebuild_statement table n) s) as [s' [e'|[]]].
Qed.
Lemma drop_cases d c n s :
  (exists e, mssql_drop allow readOnly d c n s = (s, inl e)) \/
  (exists state states, readOnly = false /\ index_state s (qualifiedTable d c) n = inr (state :: states) /\
     is_type state = 2 /\ is_isPrimaryKey state = false /\ is_isUniqueConstraint state = false /\
     mssql_drop allow readOnly d c n s = (let '(s', r) := execute (drop_statement (qualifiedTable d c) n) s in (s', ran r))).
Proof.
  unfold mssql_drop. destruct (guarded_cases "drop index" (qualifiedTable d c) n (fun state =>
    if negb (is_type state =? 2) || is_isPrimaryKey state || is_isUniqueConstraint state then
      fail_with (Thrown ("refusing to drop a clustered or constraint-backing index — that is a schema " +:+ "change, not an index cleanup"))
    else run (execute (drop_statement (qualifiedTable d c) n))) s) as [[e E]|(state & states & Hro & Hs & E)]; rewrite E; [left; by eexists|].
  destruct (Z.eqb_spec (is_type state) 2), (is_isPrimaryKey state) eqn:Ep, (is_isUniqueConstraint state) eqn:Eu; cbn [negb orb]; try (left; by eexists).
  right. exists state, states. split_and!; try done. unfold run. by destruct (execute _ s) as [s' [e'|[]]].
Qed.
Lemma create_cases d c ks options s :
  (exists e, mssql_create allow readOnly d c ks options s = (s, inl e)) \/
  (exists definition, readOnly = false /\ ks <> [] /\ (filter_definition (co_partialFilterExpression options) s).2 = inr definition /\
     let '(s', r) := execute (create_statement (co_unique options) (co_name options) (qualifiedTable d c) ks (included_columns ks (co_include options)) definition) s in
     match r with
     | inl _ => exists e, mssql_create allow readOnly d c ks options s = (s', inl e)
     | inr tt => mssql_create allow readOnly d c ks options s = (s', inr BUILT)
     end).
Proof.
  destruct readOnly eqn:Hro; [left; by eexists|]. destruct ks as [|k ks'].
  { left. exists (if (mssql_supported allow s).2 is inl e then e else Thrown "cannot create an index with no keys"). unfold mssql_create, assertWritable.
    change (mret tt ≫= ?f) with (f tt). cbn beta. rewrite bind_quiet by (unfold mssql_supported; eauto with calls). by destruct (mssql_supported allow s).2. }
  set (ks := k :: ks'). set (filter := co_partialFilterExpression options).
  set (rest := fun definition => run_or (execute (create_statement (co_unique options) (co_name options) (qualifiedTable d c) ks (included_columns ks (co_include options)) definition))
    (fun error => fail_with (if isNameTaken error then Refused ("an index or statistics object named " +:+ co_name options +:+ " already exists on " +:+ c) else thrown error)) (mret BUILT)).
  assert (mssql_create allow false d c ks options s = match (mssql_supported allow s).2 with inl e => (s, inl e) | inr _ =>
    match (filter_definition filter s).2 with inl e => (s, inl e) | inr definition => rest definition s end end) as ->.
  { unfold mssql_create, assertWritable. change (mret tt ≫= ?f) with (f tt). cbn beta. rewrite bind_quiet by (unfold mssql_supported; eauto with calls).
    destruct (mssql_supported allow s).2 as [e|[]]; [done|]. subst ks. cbn beta iota. apply bind_quiet. unfold filter_definition. repeat case_match; eauto with calls. }
  destruct (mssql_supported allow s).2 as [e|[]]; [left; by eexists|]. destruct (filter_definition filter s).2 as [e|definition]; [left; by eexists|].
  right. exists definition. split_and!; [done|done|done|]. unfold rest, run_or. destruct (execute _ s) as [s' [e|[]]]; [by eexists|done].
Qed.
End cases.

(** ** The adapter keeps what the passes rely on *)

Section laws.
Context {Srv : Type} `{MssqlServer Srv} (rows : Srv -> string -> list IndexRow) (normal : string -> string) (answered : DriverError -> Prop) `{!MssqlLaws Srv rows normal answered}.
Context (arrives : every_statement_answered Srv answered).
Context (allow readOnly : bool) (readings : EngineSession Srv).
#[local] Instance session : EngineSession Srv := mssql_session allow readOnly readings.
Abbreviation indexes := (mssql_indexes rows).

(** What each statement leaves, since every one is answered. *)
Lemma statement_leaves text s s' out table changed (R : Prop) : execute text s = (s', out) ->
  left_by answered out (rows s table) changed (rows s' table) /\ R -> rows s' table = (if out is inr _ then changed else rows s table) /\ R.
Proof. intros E [Hl HR]. split; [|done]. eapply left_by_answered; [|exact Hl]. intros e ->. apply (arrives text s). by rewrite E. Qed.
Lemma disable_leaves s d c n state states s' out : index_state s (qualifiedTable d c) n = inr (state :: states) -> is_type state = 2 ->
  is_isPrimaryKey state = false -> execute (disable_statement (qualifiedTable d c) n) s = (s', out) ->
  rows s' (qualifiedTable d c) = (if out is inr _ then set_disabled true n <$> rows s (qualifiedTable d c) else rows s (qualifiedTable d c)) /\
  forall other, other <> qualifiedTable d c -> rows s' other = rows s other.
Proof. intros Hs Ht Hp E. by eapply statement_leaves, disable_effect. Qed.
Lemma rebuild_leaves s d c n how s' out : how = "" \/ how = " WITH (ONLINE = ON)" ->
  execute (rebuild_statement (qualifiedTable d c) n +:+ how) s = (s', out) ->
  rows s' (qualifiedTable d c) = (if out is inr _ then set_disabled false n <$> rows s (qualifiedTable d c) else rows s (qualifiedTable d c)) /\
  forall other, other <> qualifiedTable d c -> rows s' other = rows s other.
Proof. intros Hh E. by eapply statement_leaves, rebuild_effect. Qed.
Lemma drop_leaves s d c n state states s' out : index_state s (qualifiedTable d c) n = inr (state :: states) -> is_type state = 2 ->
  execute (drop_statement (qualifiedTable d c) n) s = (s', out) ->
  rows s' (qualifiedTable d c) = (if out is inr _ then List.filter (fun row => negb (of_index n row)) (rows s (qualifiedTable d c)) else rows s (qualifiedTable d c)) /\
  forall other, other <> qualifiedTable d c -> rows s' other = rows s other.
Proof. intros Hs Ht E. by eapply statement_leaves, drop_statement_effect. Qed.

(** A change of one table is a change of that table's indexes and of no other's. *)
Lemma one_table s s' d c changed :
  named_in_full c = true -> rows s' (qualifiedTable d c) = changed -> (forall other, other <> qualifiedTable d c -> rows s' other = rows s other) ->
  indexes s' d c = specs_of changed /\ forall d' c', (d', c') <> (d, c) -> indexes s' d' c' = indexes s d' c'.
Proof.
  intros Hc Hr Ho. unfold mssql_indexes. rewrite Hc, Hr. split; [done|]. intros d' c' Hne. destruct (named_in_full c') eqn:Hc'; [|done].
  rewrite Ho; [done|]. intros E. apply Hne. by apply qualifiedTable_inj.
Qed.
Lemma no_change s d c : indexes s d c = indexes s d c /\ forall d' c', (d', c') <> (d, c) -> indexes s d' c' = indexes s d' c'.
Proof. done. Qed.

(** What the state query says of an index is what the listing has. *)
Lemma state_hidden s d c n state states spec : named_in_full c = true ->
  index_state s (qualifiedTable d c) n = inr (state :: states) -> spec ∈ indexes s d c -> name spec = n -> hidden spec = is_isDisabled state.
Proof.
  intros Hc Hs. unfold mssql_indexes. rewrite Hc. intros Hin%elem_of_specs Hn. rewrite Hn in Hin.
  destruct (List.filter _ _) as [|row l] eqn:Ef; [done|].
  assert (row ∈ List.filter (of_index n) (rows s (qualifiedTable d c))) as [Hrow Hk]%elem_of_filter_bool by (rewrite Ef; left).
  apply String.eqb_eq in Hk. pose proof (index_state_true _ _ _ _ _ Hs Hrow Hk) as [= ->].
  unfold toMssqlIndexSpec in Hin. destruct (row_key <$> _); [done|]. by injection Hin as <-.
Qed.
Lemma mark_same b n specs : (forall spec, spec ∈ specs -> name spec = n -> hidden spec = b) -> mark_hidden b n specs = specs.
Proof.
  intros Hh. unfold mark_hidden. rewrite <- (list_fmap_id specs) at 2. apply list_fmap_ext. intros i spec Hs%list_elem_of_lookup_2.
  destruct (String.eqb_spec (name spec) n) as [E|]; [|done]. specialize (Hh _ Hs E). destruct spec. cbn in *. unfold set_hidden. cbn. by subst.
Qed.

Lemma mssql_hide_effect s d c n s' out : hide s d c n = (s', out) ->
  indexes s' d c = (if out is inr _ then mark_hidden true n (indexes s d c) else indexes s d c) /\
  forall d' c', (d', c') <> (d, c) -> indexes s' d' c' = indexes s d' c'.
Proof.
  cbn [hide session mssql_session]. unfold for_table. destruct (named_in_full c) eqn:Hc; [|by intros [= <- <-]].
  destruct (hide_cases allow readOnly d c n s) as [[e ->]|(state & states & _ & Hs & [[Hd ->]|(Hd & Hr & ->)])].
  - by intros [= <- <-].
  - intros [= <- <-]. split; [|done]. symmetry. apply mark_same. intros spec Hin Hn. rewrite <- Hd. by eapply state_hidden.
  - destruct (execute _ s) as [s1 r] eqn:Ee. intros [= <- <-]. unfold refusalToDisable in Hr.
    destruct (Z.eqb_spec (is_type state) 2) as [Ht|]; [|done]. destruct (is_isPrimaryKey state) eqn:Hp; [done|]. cbn [negb] in Hr.
    destruct (disable_leaves _ _ _ _ _ _ _ _ Hs Ht Hp Ee) as [Hrows Ho]. destruct (one_table s s1 d c _ Hc Hrows Ho) as [-> Hf]. split; [|done].
    unfold mssql_indexes. rewrite Hc. destruct r as [e|[]]; cbn [ran]; [done|]. apply disabled_specs.
Qed.
Lemma rebuild_changes s d c n s' out : named_in_full c = true -> rebuild (qualifiedTable d c) n s = (s', out) ->
  indexes s' d c = (if out is inr _ then mark_hidden false n (indexes s d c) else indexes s d c) /\
  forall d' c', (d', c') <> (d, c) -> indexes s' d' c' = indexes s d' c'.
Proof.
  intros Hc. destruct (rebuild_cases (qualifiedTable d c) n s) as [[e ->]|(s1 & [s2 r] & H1 & (how & Hhow & He) & ->)]; [by intros [= <- <-]|].
  intros [= <- <-].
  assert (rows s1 (qualifiedTable d c) = rows s (qualifiedTable d c) /\ forall other, other <> qualifiedTable d c -> rows s1 other = rows s other) as [Hr1 Ho1].
  { destruct H1 as [->|[e H1]]; [done|]. by apply rebuild_leaves in H1; [|by right]. }
  destruct (rebuild_leaves _ _ _ _ _ _ _ Hhow He) as [Hr2 Ho2]. rewrite Hr1 in Hr2.
  destruct (one_table s s2 d c _ Hc Hr2) as [-> Hf]; [intros other Hne; by rewrite Ho2, Ho1|]. split; [|done].
  unfold mssql_indexes. rewrite Hc. destruct r as [e|[]]; cbn [ran]; [done|]. apply disabled_specs.
Qed.
Lemma mssql_unhide_effect s d c n s' out : unhide s d c n = (s', out) ->
  indexes s' d c = (if out is inr _ then mark_hidden false n (indexes s d c) else indexes s d c) /\
  forall d' c', (d', c') <> (d, c) -> indexes s' d' c' = indexes s d' c'.
Proof.
  cbn [unhide session mssql_session]. unfold for_table. destruct (named_in_full c) eqn:Hc; [|by intros [= <- <-]]. unfold mssql_unhide.
  destruct (guarded_cases allow readOnly "unhide index" (qualifiedTable d c) n
    (fun state => if negb (is_isDisabled state) then mret tt else rebuild (qualifiedTable d c) n) s) as [[e ->]|(state & states & _ & Hs & ->)]; [by intros [= <- <-]|].
  destruct (is_isDisabled state) eqn:Hd; cbn [negb]; [by apply rebuild_changes|]. intros [= <- <-]. split; [|done]. symmetry. apply mark_same.
  intros spec Hin Hn. rewrite <- Hd. by eapply state_hidden.
Qed.
Lemma mssql_drop_effect s d c n s' out : drop_index s d c n = (s', out) ->
  indexes s' d c = (if out is inr _ then without_index n (indexes s d c) else indexes s d c) /\
  forall d' c', (d', c') <> (d, c) -> indexes s' d' c' = indexes s d' c'.
Proof.
  cbn [drop_index session mssql_session]. unfold for_table. destruct (named_in_full c) eqn:Hc; [|by intros [= <- <-]].
  destruct (drop_cases allow readOnly d c n s) as [[e ->]|(state & states & _ & Hs & Ht & _ & _ & ->)]; [by intros [= <- <-]|].
  destruct (execute _ s) as [s1 r] eqn:Ee. intros [= <- <-]. destruct (drop_leaves _ _ _ _ _ _ _ _ Hs Ht Ee) as [Hrows Ho].
  destruct (one_table s s1 d c _ Hc Hrows Ho) as [-> Hf]. split; [|done].
  unfold mssql_indexes. rewrite Hc. destruct r as [e|[]]; cbn [ran]; [done|]. apply dropped_specs.
Qed.

Lemma listed_name s table n : n ∈ (ir_indexName <$> rows s table) -> n ∈ (name <$> specs_of (rows s table)).
Proof.
  intros Hn. pose proof (rows_ok s table n Hn) as (Hk & _). set (mine := List.filter (of_index n) (rows s table)) in *.
  assert (exists spec, toMssqlIndexSpec mine = Some spec) as [spec E].
  { destruct mine as [|first rest]; [done|]. unfold toMssqlIndexSpec. destruct (row_key <$> _) eqn:E; [|by eexists].
    apply fmap_nil_inv in E. exfalso. apply Hk. apply Permutation_nil_r. by rewrite <- E, stable_sort_perm. }
  pose proof (spec_name _ _ _ (of_index_all n _) E) as Hsn. apply list_elem_of_fmap. exists spec. split; [done|]. apply elem_of_specs. by rewrite Hsn.
Qed.
Lemma created_rows_named u n ks included definition : Forall (fun row => ir_indexName row = n) (created_rows u n ks included definition).
Proof.
  apply Forall_app. split; apply Forall_forall; intros row (i & x & -> & _)%elem_of_lookup_imap_1; [by destruct x|done].
Qed.
Lemma created_rows_some u n ks included definition : ks <> [] -> created_rows u n ks included definition <> [].
Proof. by destruct ks. Qed.

(** Where the engine can hold what was asked for, it is what is built. *)
Lemma built_as_asked ks options definition s :
  (filter_definition (Srv := Srv) (co_partialFilterExpression options) s).2 = inr definition -> mssql_holds normal (created_spec ks options) ->
  built_spec (co_unique options) (co_name options) ks (included_columns ks (co_include options)) (normal <$> definition) = created_spec ks options.
Proof.
  intros Hf (_ & Hs & Hco & _ & _ & Hp & _ & Hi). unfold created_spec, built_spec in *. cbn in Hs, Hco, Hp, Hi. rewrite Hs, Hco.
  assert (is_some (normal <$> definition) = is_some (co_partialFilterExpression options) /\
    ((fun definition => [("definition", JStr definition)]) <$> (normal <$> definition)) = co_partialFilterExpression options) as [-> ->].
  { destruct (co_partialFilterExpression options) as [filter|]; [|by injection Hf as <-]. destruct (Hp filter eq_refl) as (text & -> & Hne & Hno). cbn in Hf.
    destruct text as [|a text]; [done|]. injection Hf as <-. cbn. by rewrite Hno. }
  assert (match included_columns ks (co_include options) with [] => None | _ => Some (included_columns ks (co_include options)) end = co_include options) as ->; [|done].
  unfold included_columns. destruct (co_include options) as [columns|]; [|done]. destruct (Hi columns eq_refl) as [Hne Hd]. cbn.
  rewrite filter_all; [by destruct columns|]. intros column Hc. rewrite bool_decide_eq_false_2; [done|]. intros (k & -> & Hk)%list_elem_of_fmap.
  apply (Hd k.1 Hc). rewrite <- list_fmap_compose. apply list_elem_of_fmap. exists k. by destruct k.
Qed.

(** A build adds its index, or changes nothing. *)
Lemma create_adds s d c ks options s' out : create s d c ks options = (s', out) ->
  (if out is inr BUILT
   then exists spec, indexes s' d c ≡ₚ indexes s d c ++ [spec] /\ name spec = co_name options /\ hidden spec = false /\
          (mssql_holds normal (created_spec ks options) -> spec = created_spec ks options)
   else indexes s' d c = indexes s d c) /\
  forall d' c', (d', c') <> (d, c) -> indexes s' d' c' = indexes s d' c'.
Proof.
  cbn [create session mssql_session]. unfold for_table. destruct (named_in_full c) eqn:Hc; [|by intros [= <- <-]].
  destruct (create_cases allow readOnly d c ks options s) as [[e ->]|(definition & _ & Hks & Hf & He)]; [by intros [= <- <-]|].
  destruct (execute _ s) as [s1 r] eqn:Ee. destruct (create_statement_effect _ _ _ _ _ _ _ _ _ _ Hks Ee) as [Hrows Ho]. destruct r as [error|[]].
  - specialize (Hrows (arrives _ _ error ltac:(by rewrite Ee))). destruct He as [e ->]. intros [= <- <-]. destruct (one_table s s1 d c _ Hc Hrows Ho) as [-> Hfr]. split; [|done]. unfold mssql_indexes. by rewrite Hc.
  - rewrite He. intros [= <- <-]. destruct Hrows as (before & after & Hn & Hb & Ha). destruct (one_table s s1 d c _ Hc Ha Ho) as [-> Hfr]. split; [|done].
    exists (built_spec (co_unique options) (co_name options) ks (included_columns ks (co_include options)) (normal <$> definition)). split_and!; [|done|done|].
    + unfold mssql_indexes in *. rewrite Hc in *. rewrite added_specs; [|apply created_rows_named|by apply created_rows_some|by rewrite <- Hb].
      rewrite created_rows_spec by done. by rewrite <- Hb.
    + intros Hh. by eapply built_as_asked.
Qed.
Lemma mssql_listed_holds s d c spec : spec ∈ indexes s d c -> isShardKey spec = false -> mssql_holds normal (set_hidden false spec).
Proof.
  intros Hin Hcl. revert Hin. unfold mssql_indexes. destruct (named_in_full c); [|by intros []%elem_of_nil]. set (table := qualifiedTable d c). intros Hin%elem_of_specs.
  assert (name spec ∈ (ir_indexName <$> rows s table)) as Hn.
  { destruct (List.filter _ _) as [|row l] eqn:Ef; [done|].
    assert (row ∈ List.filter (of_index (name spec)) (rows s table)) as [Hr Hk]%elem_of_filter_bool by (rewrite Ef; left).
    apply String.eqb_eq in Hk. rewrite <- Hk. by apply list_elem_of_fmap_2. }
  destruct (rows_ok s table _ Hn) as (_ & Hdisj & Hfil). destruct (List.filter _ _) as [|first rest]; [done|].
  destruct (Hfil first) as [Hf1 Hf2]; [left|]. unfold toMssqlIndexSpec in Hin. set (mine := first :: rest) in *.
  destruct (row_key <$> _) as [|k ks] eqn:Ek; [done|]. injection Hin as <-. split_and!; try done.
  - cbn. rewrite Hf1. by destruct (ir_filterDefinition first).
  - intros filter. cbn. destruct (ir_filterDefinition first) as [text|]; [|done]. intros [= <-]. exists text. split; [done|]. by apply Hf2.
  - intros columns. cbn. set (inc := ir_columnName <$> _). intros Hinc. assert (columns = inc /\ inc <> []) as [-> Hne] by (destruct inc; [done|by injection Hinc as <-]).
    split; [done|]. intros column (row & -> & Hr)%list_elem_of_fmap Hkey. apply elem_of_stable_sort in Hr.
    rewrite <- fmap_cons, <- Ek in Hkey. rewrite <- list_fmap_compose in Hkey.
    apply list_elem_of_fmap in Hkey as (row' & E & Hr'). apply elem_of_stable_sort in Hr'. by apply (Hdisj row' row).
Qed.

(** The adapter is a session as the passes want one, for every server that does
    what SQL Server documents. *)
#[local] Instance mssql_session_laws : SessionLaws Srv indexes.
Proof.
  split.
  - intros s d c specs. cbn [listIndexes session mssql_session]. unfold mssql_indexes. destruct (named_in_full c); [|by intros [= <-]].
    destruct (index_rows s _) as [e|out] eqn:E; [done|]. intros [= <-]. by rewrite (index_rows_true _ _ _ E).
  - apply mssql_hide_effect.
  - apply mssql_unhide_effect.
  - apply mssql_drop_effect.
  - intros s d c ks options d' c' spec. destruct (create s d c ks options) as [s' out] eqn:E. cbn [fst]. destruct (create_adds _ _ _ _ _ _ _ E) as [Hsame Hother].
    destruct (decide ((d', c') = (d, c))) as [[= -> ->]|Hne]; [|by rewrite Hother]. destruct out as [e|[|]]; [by rewrite Hsame| |by rewrite Hsame].
    destruct Hsame as (new & -> & _ & Hh & _). intros [Hin| ->%list_elem_of_singleton]%elem_of_app; [done|congruence].
  - done.
  - done.
Qed.
#[local] Instance mssql_build_laws : BuildLaws Srv indexes (mssql_holds normal).
Proof. split; [intros; by apply create_adds|apply mssql_listed_holds]. Qed.
End laws.


(** ** What no write touches *)

Lemma refusal_none state : refusalToDisable state = None ->
  is_type state = 2 /\ is_isPrimaryKey state = false /\ is_isUniqueConstraint state = false /\ is_isUnique state = false.
Proof.
  unfold refusalToDisable. destruct (Z.eqb_spec (is_type state) 2), (is_isPrimaryKey state), (is_isUniqueConstraint state), (is_isUnique state); done.
Qed.
(** What [DISABLE] must not touch is listed as never to be dropped. *)
Lemma refused_never_drop rows first spec : toMssqlIndexSpec rows = Some spec -> head rows = Some first ->
  ir_indexType first = 1 \/ ir_indexType first = 2 -> refusalToDisable (state_of first) <> None -> isNeverDrop spec = true.
Proof.
  destruct rows as [|row rest]; [done|]. cbn [head]. intros Hs [= ->] Ht Hr. unfold toMssqlIndexSpec in Hs. destruct (row_key <$> _); [done|].
  injection Hs as <-. apply not_false_iff_true. intros Hn%isNeverDrop_false. cbn in Hn. destruct Hn as (_ & Hu & _ & Hc & _).
  apply orb_false_iff in Hu as [[Hu Hp]%orb_false_iff Hq]. apply Z.eqb_neq in Hc. apply Hr. unfold refusalToDisable. cbn.
  destruct Ht as [Ht|Ht]; [done|]. by rewrite Ht, Hu, Hp, Hq.
Qed.

(** C18. A guard of its own, whatever the passes above it ask for: on a read-only
    cluster no write sends a statement; what is disabled was just found there,
    enabled, nonclustered, and neither a primary key nor unique; what is dropped is
    nonclustered and backs no constraint. An index, clustered or not, that the guard
    of disabling refuses is listed as one [isNeverDrop] marks, which the rules of the
    analysis leave alone; the original of a re-order is proposed past that mark, and
    where it is unique this guard is what refuses it ([reorder_original_refused] of
    [SqlMemory]). *)
Theorem mssql_writes_guarded {Srv : Type} `{MssqlServer Srv} (allow readOnly : bool) (d c n : string) (s : Srv) :
  (readOnly = true -> (mssql_hide allow readOnly d c n s).1 = s /\ (mssql_unhide allow readOnly d c n s).1 = s /\
     (mssql_drop allow readOnly d c n s).1 = s /\ forall ks options, (mssql_create allow readOnly d c ks options s).1 = s) /\
  ((mssql_hide allow readOnly d c n s).1 = s \/
   exists state states, index_state s (qualifiedTable d c) n = inr (state :: states) /\ is_isDisabled state = false /\
     is_type state = 2 /\ is_isPrimaryKey state = false /\ is_isUniqueConstraint state = false /\ is_isUnique state = false /\
     (mssql_hide allow readOnly d c n s).1 = (execute (disable_statement (qualifiedTable d c) n) s).1) /\
  ((mssql_drop allow readOnly d c n s).1 = s \/
   exists state states, index_state s (qualifiedTable d c) n = inr (state :: states) /\
     is_type state = 2 /\ is_isPrimaryKey state = false /\ is_isUniqueConstraint state = false /\
     (mssql_drop allow readOnly d c n s).1 = (execute (drop_statement (qualifiedTable d c) n) s).1) /\
  (forall rows first spec, toMssqlIndexSpec rows = Some spec -> head rows = Some first ->
     ir_indexType first = 1 \/ ir_indexType first = 2 -> refusalToDisable (state_of first) <> None -> isNeverDrop spec = true).
Proof.
  split_and!.
  - by intros ->.
  - destruct (hide_cases allow readOnly d c n s) as [[e ->]|(state & states & _ & Hs & [[_ ->]|(Hd & Hr & ->)])]; [by left|by left|right].
    apply refusal_none in Hr as (? & ? & ? & ?). exists state, states. split_and!; try done. by destruct (execute _ s).
  - destruct (drop_cases allow readOnly d c n s) as [[e ->]|(state & states & _ & Hs & Ht & Hp & Hu & ->)]; [by left|right].
    exists state, states. split_and!; try done. by destruct (execute _ s).
  - apply refused_never_drop.
Qed.

(** ** One read of a database *)

Definition of_table (table : string) (row : string * IndexRow) : bool := String.eqb (fst row) table.
(** The rows of every table at once, split by table, are the rows of each asked
    for alone, two indexes of one name in two tables included. *)
Lemma batched_indexes_agree (rows : list (string * IndexRow)) (table : string) :
  map_get table (indexes_by_table rows) ?? [] = specs_of (List.filter (of_table table) rows).*2.
Proof.
  unfold indexes_by_table.
  assert (forall m : list (string * list (string * IndexRow)), map_get table ((fun '(t, forTable) => (t, specs_of forTable.*2)) <$> m) =
    (fun forTable => specs_of forTable.*2) <$> map_get table m) as ->.
  { unfold map_get. induction m as [|[t x] m IH]; [done|]. cbn. destruct (String.eqb t table); [done|exact IH]. }
  rewrite bucketed_get. case_bool_decide as Hin; [done|]. cbn. replace (List.filter (of_table table) rows) with (@nil (string * IndexRow)); [done|].
  symmetry. apply filter_nothing. intros row Hr. apply String.eqb_neq. intros <-. apply Hin. by apply list_elem_of_fmap_2.
Qed.
