(* ===== verification/SqlMemory.v ===== *)
(** A SQL Server held in memory, which reads the statements it is sent as text:
    it shows that the laws [SqlServer] takes of a server can be kept, and concrete
    writes run on it. *)
From S2P Require Import Prelude EngineTypes NetGuard Redundancy Preflight Regression Failures Store Memory Sessions Groups SqlText SqlServer.

Local Open Scope string_scope.
Local Open Scope Z_scope.
Local Open Scope list_scope.

(** ** Reading a statement *)

Inductive Statement :=
  | Disable (table indexName : string)
  | Rebuild (table indexName : string)
  | Drop (table indexName : string)
  | Create (unique : bool) (indexName table : string) (keys : list (string * SortDirection)) (included : list string) (definition : option string).

Definition read_table (text : string) : option (string * string) :=
  '(database, rest) ← read_identifier text; rest ← after_text "." rest;
  '(schema, rest) ← read_identifier rest; rest ← after_text "." rest;
  '(table, rest) ← read_identifier rest;
  Some (quoteIdent database +:+ "." +:+ quoteIdent schema +:+ "." +:+ quoteIdent table, rest).
(** An index and its table. *)
Definition read_on (text : string) : option (string * string * string) :=
  '(indexName, rest) ← read_identifier text; rest ← after_text " ON " rest; '(table, rest) ← read_table rest; Some (indexName, table, rest).
Definition read_direction (text : string) : option (SortDirection * string) :=
  match after_text " DESC" text with
  | Some rest => Some (Neg, rest)
  | None => (fun rest => (EngineTypes.Pos, rest)) <$> after_text " ASC" text
  end.
Fixpoint read_keys (fuel : nat) (text : string) : option (list (string * SortDirection) * string) :=
  match fuel with
  | O => None
  | S fuel =>
      '(column, rest) ← read_identifier text;
      '(direction, rest) ← read_direction rest;
      match after_text ", " rest with
      | Some rest => '(more, rest) ← read_keys fuel rest; Some ((column, direction) :: more, rest)
      | None => rest ← after_text ")" rest; Some ([(column, direction)], rest)
      end
  end.
Fixpoint read_columns (fuel : nat) (text : string) : option (list string * string) :=
  match fuel with
  | O => None
  | S fuel =>
      '(column, rest) ← read_identifier text;
      match after_text ", " rest with
      | Some rest => '(more, rest) ← read_columns fuel rest; Some (column :: more, rest)
      | None => rest ← after_text ")" rest; Some ([column], rest)
      end
  end.
Definition read_where (text : string) : option (option string) :=
  if String.eqb text "" then Some None else Some <$> after_text " WHERE " text.
Definition read_create (unique : bool) (text : string) : option Statement :=
  rest ← after_text "NONCLUSTERED INDEX " text;
  '(indexName, table, rest) ← read_on rest;
  rest ← after_text " (" rest;
  '(keys, rest) ← read_keys (String.length rest) rest;
  '(included, rest) ← (match after_text " INCLUDE (" rest with
                       | Some rest => read_columns (String.length rest) rest
                       | None => Some ([], rest)
                       end);
  definition ← read_where rest;
  Some (Create unique indexName table keys included definition).
Definition read_alter (text : string) : option Statement :=
  '(indexName, table, rest) ← read_on text;
  if String.eqb rest " DISABLE" then Some (Disable table indexName)
  else if String.eqb rest " REBUILD" || String.eqb rest " REBUILD WITH (ONLINE = ON)" then Some (Rebuild table indexName)
  else None.
Definition read_drop (text : string) : option Statement :=
  '(indexName, table, rest) ← read_on text; if String.eqb rest "" then Some (Drop table indexName) else None.
Definition read_statement (text : string) : option Statement :=
  match after_text "ALTER INDEX " text with
  | Some rest => read_alter rest
  | None =>
      match after_text "DROP INDEX " text with
      | Some rest => read_drop rest
      | None =>
          rest ← after_text "CREATE " text;
          match after_text "UNIQUE " rest with Some rest => read_create true rest | None => read_create false rest end
      end
  end.

(** ** Every statement the adapter writes is read as what it means *)

Lemma read_table_ok d c rest : starts_with_close rest = false -> read_table (qualifiedTable d c +:+ rest) = Some (qualifiedTable d c, rest).
Proof.
  intros Hr. unfold read_table, qualifiedTable. destruct (splitCollectionName c) as [schema table]. rewrite !append_assoc_text.
  rewrite read_quoteIdent by done. cbn [mbind option_bind]. rewrite after_text_app. cbn [mbind option_bind].
  rewrite read_quoteIdent by done. cbn [mbind option_bind]. rewrite after_text_app. cbn [mbind option_bind].
  by rewrite read_quoteIdent.
Qed.
Lemma read_on_ok n d c rest : starts_with_close rest = false ->
  read_on (quoteIdent n +:+ " ON " +:+ qualifiedTable d c +:+ rest) = Some (n, qualifiedTable d c, rest).
Proof.
  intros Hr. unfold read_on. rewrite read_quoteIdent by done. cbn [mbind option_bind]. rewrite after_text_app. cbn [mbind option_bind].
  by rewrite read_table_ok.
Qed.
Lemma read_disable d c n : read_statement (disable_statement (qualifiedTable d c) n) = Some (Disable (qualifiedTable d c) n).
Proof. unfold read_statement, disable_statement. rewrite after_text_app. unfold read_alter. by rewrite read_on_ok. Qed.
Lemma read_rebuild d c n how : how = "" \/ how = " WITH (ONLINE = ON)" ->
  read_statement (rebuild_statement (qualifiedTable d c) n +:+ how) = Some (Rebuild (qualifiedTable d c) n).
Proof.
  intros Hh. unfold read_statement, rebuild_statement. rewrite !append_assoc_text, after_text_app. unfold read_alter. rewrite read_on_ok by done.
  by destruct Hh as [-> | ->].
Qed.
Lemma read_drop_ok d c n : read_statement (drop_statement (qualifiedTable d c) n) = Some (Drop (qualifiedTable d c) n).
Proof.
  unfold read_statement, drop_statement. change (after_text "ALTER INDEX " ("DROP INDEX " +:+ ?t)) with (@None string). cbn iota. rewrite after_text_app.
  unfold read_drop. rewrite <- (append_empty_r (qualifiedTable d c)) at 1. by rewrite read_on_ok.
Qed.

Lemma concat_cons2 sep x y l : String.concat sep (x :: y :: l) = x +:+ sep +:+ String.concat sep (y :: l).
Proof. done. Qed.
Lemma read_direction_ok (dir : SortDirection) rest : read_direction (" " +:+ (if dir is Neg then "DESC" else "ASC") +:+ rest) = Some (dir, rest).
Proof.
  unfold read_direction. destruct dir.
  - change (after_text " DESC" (" " +:+ "ASC" +:+ rest)) with (@None string). cbn iota. change (" " +:+ "ASC" +:+ rest) with (" ASC" +:+ rest). by rewrite after_text_app.
  - change (" " +:+ "DESC" +:+ rest) with (" DESC" +:+ rest). by rewrite after_text_app.
Qed.
Lemma read_keys_ok ks : forall fuel rest, ks <> [] -> (length ks <= fuel)%nat ->
  read_keys fuel (String.concat ", " (key_text <$> ks) +:+ ")" +:+ rest) = Some (ks, rest).
Proof.
  induction ks as [|[f dir] ks IH]; intros [|fuel] rest Hne Hl; try done; [cbn in Hl; lia|]. cbn [length] in Hl.
  assert (forall more, read_identifier (key_text (f, dir) +:+ more) = Some (f, " " +:+ (if dir is Neg then "DESC" else "ASC") +:+ more)) as Hk.
  { intros more. unfold key_text. cbn [fst snd]. rewrite !append_assoc_text. by rewrite read_quoteIdent. }
  destruct ks as [|k2 ks].
  - cbn [fmap list_fmap String.concat read_keys]. rewrite Hk. cbn [mbind option_bind]. rewrite read_direction_ok. cbn [mbind option_bind].
    change (after_text ", " (")" +:+ rest)) with (@None string). cbn iota. by rewrite after_text_app.
  - cbn [fmap list_fmap]. rewrite concat_cons2. change (key_text k2 :: list_fmap _ _ key_text ks) with (key_text <$> k2 :: ks).
    cbn [read_keys]. rewrite !append_assoc_text, Hk. cbn [mbind option_bind]. rewrite read_direction_ok. cbn [mbind option_bind]. rewrite after_text_app.
    by rewrite IH by (done || lia).
Qed.
Lemma read_columns_ok columns : forall fuel rest, columns <> [] -> (length columns <= fuel)%nat ->
  read_columns fuel (String.concat ", " (quoteIdent <$> columns) +:+ ")" +:+ rest) = Some (columns, rest).
Proof.
  induction columns as [|f columns IH]; intros [|fuel] rest Hne Hl; try done; [cbn in Hl; lia|]. cbn [length] in Hl. destruct columns as [|f2 columns].
  - cbn [fmap list_fmap String.concat read_columns]. rewrite read_quoteIdent by done. cbn [mbind option_bind].
    change (after_text ", " (")" +:+ rest)) with (@None string). cbn iota. by rewrite after_text_app.
  - cbn [fmap list_fmap]. rewrite concat_cons2. change (quoteIdent f2 :: list_fmap _ _ quoteIdent columns) with (quoteIdent <$> f2 :: columns).
    cbn [read_columns]. rewrite !append_assoc_text, read_quoteIdent by done. cbn [mbind option_bind]. rewrite after_text_app.
    by rewrite IH by (done || lia).
Qed.
Lemma length_app_text a b : String.length (a +:+ b) = (String.length a + String.length b)%nat.
Proof. induction a as [|c a IH]; [done|]. rewrite app_cons. cbn. by rewrite IH. Qed.
Lemma concat_length (texts : list string) : Forall (fun t => 1 <= String.length t)%nat texts -> (length texts <= String.length (String.concat ", " texts))%nat.
Proof.
  induction 1 as [|t texts Ht _ IH]; [cbn; lia|]. destruct texts as [|t2 texts]; [cbn in *; lia|]. rewrite concat_cons2, !length_app_text. cbn [length] in *. lia.
Qed.
Lemma quoted_length name rest : (1 <= String.length (quoteIdent name +:+ rest))%nat.
Proof. rewrite length_app_text. unfold quoteIdent. rewrite length_app_text. cbn. lia. Qed.
Lemma listed_length {A} (text : A -> string) (items : list A) rest : (forall x, 1 <= String.length (text x))%nat ->
  (length items <= String.length (String.concat ", " (text <$> items) +:+ rest))%nat.
Proof.
  intros Ht. rewrite length_app_text. assert (length (text <$> items) <= String.length (String.concat ", " (text <$> items)))%nat as H by (apply concat_length, Forall_fmap, Forall_forall; auto).
  rewrite length_fmap in H. lia.
Qed.

Lemma read_where_ok definition : read_where (if definition is Some text then " WHERE " +:+ text else "") = Some definition.
Proof.
  unfold read_where. destruct definition as [text|]; [|done]. change (String.eqb (" WHERE " +:+ text) "") with false. cbn iota. by rewrite after_text_app.
Qed.
Lemma read_create_ok u n d c ks included definition : ks <> [] ->
  read_create u ("NONCLUSTERED INDEX " +:+ quoteIdent n +:+ " " +:+ "ON " +:+ qualifiedTable d c +:+ " (" +:+ String.concat ", " (key_text <$> ks) +:+ ")" +:+
    (if included is [] then "" else " INCLUDE (" +:+ String.concat ", " (quoteIdent <$> included) +:+ ")") +:+
    (if definition is Some text then " WHERE " +:+ text else "")) = Some (Create u n (qualifiedTable d c) ks included definition).
Proof.
  intros Hks. unfold read_create. rewrite after_text_app. cbn [mbind option_bind].
  set (tail := String.concat ", " (key_text <$> ks) +:+ _).
  change (quoteIdent n +:+ " " +:+ "ON " +:+ qualifiedTable d c +:+ " (" +:+ tail) with (quoteIdent n +:+ " ON " +:+ qualifiedTable d c +:+ " (" +:+ tail).
  rewrite read_on_ok by done. cbn [mbind option_bind]. rewrite after_text_app. cbn [mbind option_bind]. subst tail.
  rewrite read_keys_ok; [|done|apply listed_length; intros [f dir]; apply quoted_length]. cbn [mbind option_bind].
  destruct included as [|f included].
  - change ("" +:+ ?t) with t. destruct definition as [text|].
    + change (after_text " INCLUDE (" (" WHERE " +:+ text)) with (@None string). cbn [mbind option_bind]. by rewrite (read_where_ok (Some text)).
    + done.
  - rewrite !append_assoc_text, after_text_app. cbn iota. rewrite read_columns_ok; [|done|apply listed_length; intros x; rewrite <- (append_empty_r (quoteIdent x)); apply quoted_length].
    cbn [mbind option_bind]. by rewrite read_where_ok.
Qed.
Lemma read_create_statement u n d c ks included definition : ks <> [] ->
  read_statement (create_statement u n (qualifiedTable d c) ks included definition) = Some (Create u n (qualifiedTable d c) ks included definition).
Proof.
  intros Hks. unfold read_statement, create_statement.
  change (after_text "ALTER INDEX " ("CREATE " +:+ ?t)) with (@None string). change (after_text "DROP INDEX " ("CREATE " +:+ ?t)) with (@None string). cbn iota.
  rewrite after_text_app. cbn [mbind option_bind]. destruct u; cbn iota.
  - rewrite after_text_app. by apply read_create_ok.
  - change ("" +:+ ?t) with t. change (after_text "UNIQUE " ("NONCLUSTERED INDEX " +:+ ?t)) with (@None string). cbn iota. by apply read_create_ok.
Qed.

(** ** The server *)

#[export] Instance IndexStateRow_eq_dec : EqDecision IndexStateRow.
Proof. solve_decision. Defined.
(** One index of a table is sound, and its rows agree on it. *)
Definition row_okb (rows : list IndexRow) (row : IndexRow) : bool :=
  let mine := List.filter (of_index (ir_indexName row)) rows in
  bool_decide (key_rows mine <> []) &&
  forallb (fun key => forallb (fun included => negb (String.eqb (ir_columnName key) (ir_columnName included))) (include_rows mine)) (key_rows mine) &&
  Bool.eqb (ir_hasFilter row) (is_some (ir_filterDefinition row)) && bool_decide (ir_filterDefinition row <> Some "") &&
  forallb (fun other => bool_decide (state_of other = state_of row)) mine.
Definition rows_okb (rows : list IndexRow) : bool := forallb (row_okb rows) rows.
Definition catalog_okb (tables : gmap string (list IndexRow)) : bool := bool_decide (map_Forall (fun _ rows => rows_okb rows = true) tables).

Definition SqlMemory : Type := { tables : gmap string (list IndexRow) | catalog_okb tables = true }.
Definition sql_rows (s : SqlMemory) (table : string) : list IndexRow := proj1_sig s !! table ?? [].
(** The change of a table, unless it would leave an index no server has. *)
Definition change_table (table : string) (rows : list IndexRow) (s : SqlMemory) : SqlMemory * (DriverError + unit) :=
  match decide (catalog_okb (<[table := rows]> (proj1_sig s)) = true) with
  | left ok => (exist _ _ ok, inr tt)
  | right _ => (s, inl {| de_numbers := []; de_message := "the statement was refused" |})
  end.
Definition no_index (indexName : string) : DriverError := {| de_numbers := [Some 7999]; de_message := "Could not find any index named " +:+ indexName |}.
Definition has_rows (s : SqlMemory) (table indexName : string) : bool := existsb (of_index indexName) (sql_rows s table).
Definition sql_execute (text : string) (s : SqlMemory) : SqlMemory * (DriverError + unit) :=
  match read_statement text with
  | None => (s, inl {| de_numbers := [Some 102]; de_message := "Incorrect syntax" |})
  | Some (Disable table n) =>
      if has_rows s table n then change_table table (set_disabled true n <$> sql_rows s table) s else (s, inl (no_index n))
  | Some (Rebuild table n) =>
      if has_rows s table n then change_table table (set_disabled false n <$> sql_rows s table) s else (s, inl (no_index n))
  | Some (Drop table n) =>
      if has_rows s table n then change_table table (List.filter (fun row => negb (of_index n row)) (sql_rows s table)) s else (s, inl (no_index n))
  | Some (Create unique n table keys included definition) =>
      if has_rows s table n then
        (s, inl {| de_numbers := [Some 1913]; de_message := "The operation failed because an index or statistics with name '" +:+ n +:+ "' already exists on table." |})
      else change_table table (sql_rows s table ++ created_rows unique n keys included definition) s
  end.
#[export] Instance sql_memory : MssqlServer SqlMemory := {|
  index_rows s table := inr (sql_rows s table);
  index_state s table n := inr (state_of <$> List.filter (of_index n) (sql_rows s table));
  mssql_version _ := inr (parseMssqlVersion (Some "16.0.4250.1"));
  supportsOnlineRebuild _ := inr true;
  execute := sql_execute;
|}.

Lemma sql_rows_okb s table : rows_okb (sql_rows s table) = true.
Proof.
  destruct s as [tables Hok]. unfold sql_rows. cbn. unfold catalog_okb in Hok. apply bool_decide_eq_true in Hok.
  destruct (tables !! table) as [rows|] eqn:E; [|done]. cbn. exact (Hok _ _ E).
Qed.
Lemma change_table_effect table changed s s' out : change_table table changed s = (s', out) ->
  sql_rows s' table = (if out is inr _ then changed else sql_rows s table) /\ forall other, other <> table -> sql_rows s' other = sql_rows s other.
Proof.
  unfold change_table. destruct (decide _) as [ok|]; intros [= <- <-]; [|done]. unfold sql_rows. cbn. split; [by rewrite lookup_insert_eq|].
  intros other Hne. by rewrite lookup_insert_ne.
Qed.
Lemma refused_effect table s s' (e : DriverError) (out : DriverError + unit) changed : (s, inl e) = (s', out) ->
  sql_rows s' table = (if out is inr _ then changed else sql_rows s table) /\ forall other, other <> table -> sql_rows s' other = sql_rows s other.
Proof. by intros [= <- <-]. Qed.

(** Every error is this server's own answer. *)
Lemma memory_left (out : DriverError + unit) (before after now : list IndexRow) (R : Prop) :
  now = (if out is inr _ then after else before) /\ R -> left_by (fun _ => True) out before after now /\ R.
Proof. intros [-> HR]. by destruct out. Qed.
#[export] Instance sql_memory_laws : MssqlLaws SqlMemory sql_rows (fun definition => definition) (fun _ => True).
Proof.
  split.
  - by intros s table out [= <-].
  - intros s table n states row [= <-] Hrow Hn. pose proof (sql_rows_okb s table) as Hok. unfold rows_okb in Hok. rewrite forallb_forall in Hok.
    specialize (Hok row (proj1 (list_elem_of_In _ _) Hrow)). unfold row_okb in Hok. rewrite Hn in Hok. apply andb_prop in Hok as [_ Hok]. rewrite forallb_forall in Hok.
    destruct (List.filter (of_index n) (sql_rows s table)) as [|first rest] eqn:Ef.
    + exfalso. apply (not_elem_of_nil row). rewrite <- Ef. apply elem_of_filter_bool. split; [done|]. by apply String.eqb_eq.
    + cbn. f_equal. specialize (Hok first (or_introl eq_refl)). by apply bool_decide_eq_true in Hok.
  - intros s table n (row & -> & Hrow)%list_elem_of_fmap. pose proof (sql_rows_okb s table) as Hok. unfold rows_okb in Hok. rewrite forallb_forall in Hok.
    set (mine := List.filter (of_index (ir_indexName row)) (sql_rows s table)). split_and!.
    + specialize (Hok row (proj1 (list_elem_of_In _ _) Hrow)). unfold row_okb in Hok. fold mine in Hok. repeat apply andb_prop in Hok as [Hok ?].
      by apply bool_decide_eq_true in Hok.
    + specialize (Hok row (proj1 (list_elem_of_In _ _) Hrow)). unfold row_okb in Hok. fold mine in Hok. repeat apply andb_prop in Hok as [Hok ?].
      intros key inc Hk Hi. rewrite forallb_forall in H2. specialize (H2 key (proj1 (list_elem_of_In _ _) Hk)). rewrite forallb_forall in H2.
      specialize (H2 inc (proj1 (list_elem_of_In _ _) Hi)). apply negb_true_iff, String.eqb_neq in H2. done.
    + intros r [Hr _]%elem_of_filter_bool. specialize (Hok r (proj1 (list_elem_of_In _ _) Hr)). unfold row_okb in Hok. repeat apply andb_prop in Hok as [Hok ?].
      split; [by apply eqb_prop|]. intros definition Hd. split; [|done]. apply bool_decide_eq_true in H0. intros ->. by rewrite Hd in H0.
  - intros s d c n state states s' out _ _ _ E. apply memory_left. revert E. cbn [execute sql_memory]. unfold sql_execute. rewrite read_disable.
    destruct (has_rows _ _ _); [apply change_table_effect|apply refused_effect].
  - intros s d c n how s' out Hh E. apply memory_left. revert E. cbn [execute sql_memory]. unfold sql_execute. rewrite read_rebuild by done.
    destruct (has_rows _ _ _); [apply change_table_effect|apply refused_effect].
  - intros s d c n state states s' out _ _ E. apply memory_left. revert E. cbn [execute sql_memory]. unfold sql_execute. rewrite read_drop_ok.
    destruct (has_rows _ _ _); [apply change_table_effect|apply refused_effect].
  - intros s d c u n ks included definition s' out Hks. cbn [execute sql_memory]. unfold sql_execute. rewrite read_create_statement by done.
    destruct (has_rows _ _ _) eqn:Eh; [by intros [= <- <-]|]. intros [Hr Ho]%change_table_effect. split; [|done]. destruct out as [e|[]]; [done|].
    exists (sql_rows s (qualifiedTable d c)), []. split_and!; [|by rewrite app_nil_r|].
    + intros (row & Hn & Hrow)%list_elem_of_fmap. apply not_true_iff_false in Eh. apply Eh. apply existsb_exists. exists row.
      split; [by apply list_elem_of_In|]. apply String.eqb_eq. done.
    + rewrite app_nil_r, Hr. by destruct definition.
Qed.

(** ** A table *)

Definition plain_row (n column : string) (ordinal : Z) : IndexRow :=
  {| ir_indexName := n; ir_indexType := 2; ir_isUnique := false; ir_isPrimaryKey := false; ir_isUniqueConstraint := false; ir_isDisabled := false;
     ir_hasFilter := false; ir_filterDefinition := None; ir_keyOrdinal := ordinal; ir_isDescending := false; ir_columnName := column;
     ir_isIncluded := false; ir_indexColumnId := ordinal |}.
Definition orders_table : string := qualifiedTable "shop" "dbo.orders".
Definition orders : gmap string (list IndexRow) :=
  {[ orders_table := [{| ir_indexName := "pk"; ir_indexType := 1; ir_isUnique := true; ir_isPrimaryKey := true; ir_isUniqueConstraint := false;
                         ir_isDisabled := false; ir_hasFilter := false; ir_filterDefinition := None; ir_keyOrdinal := 1; ir_isDescending := false;
                         ir_columnName := "id"; ir_isIncluded := false; ir_indexColumnId := 1 |};
                      plain_row "ix_a" "a" 1; plain_row "ix_ab" "a" 1; plain_row "ix_ab" "b" 2] ]}.
Definition sql_shop : SqlMemory := exist _ orders (eq_refl : catalog_okb orders = true).

Definition names_hidden (s : SqlMemory) : list (string * bool) :=
  (fun spec => (name spec, hidden spec)) <$> mssql_indexes sql_rows s "shop" "dbo.orders".
(** The readings of the session are not asked for here. *)
Definition no_readings : EngineSession SqlMemory := {|
  listIndexes _ _ _ := inr []; collectUsage _ _ _ := inr []; collectHintedIndexes _ _ _ := inr [];
  readLatency _ _ _ := inr {| ls_ops := 0; ls_latencyMicros := 0 |}; collectionWrites _ _ _ := inr {| ls_ops := 0; ls_latencyMicros := 0 |};
  latencyByCollection := None; collectFailedOps _ _ _ _ _ := inr (NO_SOURCE ""); hide s _ _ _ := (s, inr tt); unhide s _ _ _ := (s, inr tt);
  drop_index s _ _ _ := (s, inr tt); create s _ _ _ _ := (s, inr BUILT); settleBuild := None; reconcile := None |}.
Definition sql_session : EngineSession SqlMemory := mssql_session false false no_readings.

(** A unique index and the replacement a re-order built beside it. *)
Definition unique_row (n column : string) (ordinal : Z) (descending : bool) : IndexRow :=
  {| ir_indexName := n; ir_indexType := 2; ir_isUnique := true; ir_isPrimaryKey := false; ir_isUniqueConstraint := false; ir_isDisabled := false;
     ir_hasFilter := false; ir_filterDefinition := None; ir_keyOrdinal := ordinal; ir_isDescending := descending; ir_columnName := column;
     ir_isIncluded := false; ir_indexColumnId := ordinal |}.
Definition reordered : gmap string (list IndexRow) :=
  {[ orders_table := [unique_row "ux_ab" "a" 1 false; unique_row "ux_ab" "b" 2 false; unique_row "ux_ab_new" "a" 1 false; unique_row "ux_ab_new" "b" 2 true] ]}.
Definition reordered_shop : SqlMemory := exist _ reordered (eq_refl : catalog_okb reordered = true).
(** The pre-flight lets a re-order's original go, past the mark of [isNeverDrop],
    and the executor refuses to disable it: the row can only fail. *)
Theorem reorder_original_refused :
  let specs := mssql_indexes sql_rows reordered_shop "shop" "dbo.orders" in
  isNeverDrop <$> find_index specs "ux_ab" = Some true /\
  safe (preflightDrop specs [] [] {| dt_type := DROP_REDUNDANT; dt_indexName := "ux_ab"; supersededBy := Some "ux_ab_new" |}) = true /\
  @hide _ sql_session reordered_shop "shop" "dbo.orders" "ux_ab" =
    (reordered_shop, inl (Thrown ("refusing to disable a unique index: uniqueness stops being enforced while it is " +:+
      "disabled, and re-enabling fails if duplicates arrived in the meantime"))).
Proof. cbn zeta. split_and!; by vm_compute. Qed.

