(* ===== verification/Postgres.v ===== *)
(** The PostgreSQL adapter's catalog and its writes:
    [apps/api/src/postgres/executor.ts], [version.ts], [cron-apply.ts], and the
    catalog readings of [collector.ts] in the same directory.

    The server is a parameter: what each query answers, and what a statement or a
    call of the apply function does.  The route through pg_cron is asked for on
    every use; the code remembers its answer for the life of a session. *)
From Stdlib Require Import Ascii.
From S2P Require Import Prelude EngineTypes NetGuard Redundancy Preflight Regression Failures Store Memory Policy Build Sessions Groups SqlText SqlServer.

Local Open Scope string_scope.
Local Open Scope Z_scope.
Local Open Scope list_scope.

(** ** Versions *)

Record PostgresServerVersion := { pv_major : Z; pv_minor : Z; pv_text : string }.
Definition PG_MIN_MAJOR : Z := 14.
Definition PG_MAX_TESTED_MAJOR : Z := 18.
Definition PG_LAST_IDX_SCAN_MAJOR : Z := 16.
Definition postgresHasLastIdxScan (version : PostgresServerVersion) : bool := PG_LAST_IDX_SCAN_MAJOR <=? pv_major version.
Definition postgresProductName (version : PostgresServerVersion) : string := "PostgreSQL " +:+ show (pv_major version).
(** [server_version_num], where it read as a number, and [server_version]. *)
Definition parsePostgresVersion (versionNum : option Z) (versionText : option string) : option PostgresServerVersion :=
  let text := trim (versionText ?? "") in
  let from_text := '(major, minor) ← two_numbers text; Some {| pv_major := major; pv_minor := minor; pv_text := text |} in
  match versionNum with
  | Some num =>
      if 100000 <=? num then
        Some {| pv_major := num / 10000; pv_minor := num mod 10000; pv_text := if String.eqb text "" then show num else text |}
      else from_text
  | None => from_text
  end.
Definition postgresVersionRefusal (version : option PostgresServerVersion) (allowUntested : bool) : option string :=
  match version with
  | None => Some ("the server's version could not be read, and an unreadable version is " +:+
      "treated as unsupported: this engine drops indexes on a live database, " +:+ "and it does not guess")
  | Some version =>
      if pv_major version <? PG_MIN_MAJOR then
        Some (postgresProductName version +:+ " is older than the PostgreSQL " +:+ show PG_MIN_MAJOR +:+ " floor. " +:+
          "Releases that old take no security fixes, and this engine connects with " +:+
          "credentials you gave it. Upgrade the server, or point Indexterity at a " +:+ show PG_MIN_MAJOR +:+ "+ instance")
      else if (PG_MAX_TESTED_MAJOR <? pv_major version) && negb allowUntested then
        Some (postgresProductName version +:+ " is newer than the PostgreSQL " +:+ show PG_MAX_TESTED_MAJOR +:+ " " +:+
          "series this engine has been tested against. Refusing rather than guessing: " +:+
          "index visibility and the statistics-reset behaviour have both moved between " +:+
          "releases before, and on this engine a drop cannot be un-hidden — only rebuilt. " +:+
          "Set ALLOW_UNTESTED_DATABASE_VERSION=true to proceed anyway")
      else None
  end.

(** ** The catalog *)

Definition splitTableRef (collection : string) : string * string :=
  match at_first "."%char collection with None => ("public", collection) | Some parts => parts end.
Definition joinTableRef (ref : string * string) : string := fst ref +:+ "." +:+ snd ref.

Record PgIndexRow := {
  pg_name : string; pg_unique : bool; pg_primary : bool; pg_valid : bool; pg_ready : bool; pg_method : string;
  pg_predicate : option string; pg_col : string; pg_descending : option bool; pg_include : bool; pg_ord : Z;
}.
Record PgEntry := { pe_first : PgIndexRow; pe_keys : list IndexKey; pe_include : list string }.
Definition fresh_entry (row : PgIndexRow) : PgEntry := {| pe_first := row; pe_keys := []; pe_include := [] |}.
Definition add_column (row : PgIndexRow) (entry : PgEntry) : PgEntry :=
  if pg_include row then {| pe_first := pe_first entry; pe_keys := pe_keys entry; pe_include := pe_include entry ++ [pg_col row] |}
  else {| pe_first := pe_first entry;
          pe_keys := pe_keys entry ++ [{| field := pg_col row;
            direction := Ordered (if bool_decide (pg_descending row = Some true) then Neg else EngineTypes.Pos) |}];
          pe_include := pe_include entry |}.
Definition add_pg_row (specs : list (string * PgEntry)) (row : PgIndexRow) : list (string * PgEntry) :=
  map_put (pg_name row) (add_column row (map_get (pg_name row) specs ?? fresh_entry row)) specs.
Definition pg_spec (entry : PgEntry) : IndexSpec :=
  let first := pe_first entry in
  {| name := pg_name first; keys := pe_keys entry; unique := pg_unique first; ttl := false; partial := is_some (pg_predicate first);
     partialFilter := (fun sql => [("sql", JStr sql)]) <$> pg_predicate first; sparse := false; hidden := false;
     isShardKey := pg_primary first; collation := None; include := match pe_include entry with [] => None | columns => Some columns end |}.
(** [listIndexes], on the rows the query answers. *)
Definition pg_specs (rows : list PgIndexRow) : list IndexSpec := pg_spec ∘ snd <$> fold_left add_pg_row rows [].

(** ** Names *)

Fixpoint double_dq (s : string) : string :=
  match s with
  | EmptyString => EmptyString
  | String c s => if Ascii.eqb c double_quote then String c (String c (double_dq s)) else String c (double_dq s)
  end.
Definition pg_quoteIdent (name : string) : string := dq +:+ double_dq name +:+ dq.

Definition IDENTIFIER_BYTES : nat := 63.
(** [/[^\w$]/g], each by an underscore, one for each UTF-16 code unit: a character
    outside ASCII is one, or two where it takes four bytes. *)
Fixpoint plain_name (s : string) : string :=
  match s with
  | EmptyString => EmptyString
  | String c rest =>
      if is_word c || in_codes 36 36 c then String c (plain_name rest)
      else if in_codes 128 191 c then plain_name rest
      else if in_codes 240 247 c then "__" +:+ plain_name rest
      else "_" +:+ plain_name rest
  end.
Fixpoint take_chars (n : nat) (s : string) : string :=
  match n, s with S n, String c s => String c (take_chars n s) | _, _ => EmptyString end.
(** What is left of a name is ASCII, so a code unit is a byte. *)
Definition truncateToBytes (value : string) (limit : nat) : string := take_chars limit value.
Definition postgresIndexName (sha8 : string -> string) (table : string) (keys : list (string * SortDirection)) (partial_ : bool) : string :=
  let parts := [table] ++ ((fun '(field, direction) => if direction is Neg then field +:+ "_desc" else field) <$> keys) ++
    (if partial_ then ["partial"] else []) ++ ["idx"] in
  let name := plain_name (String.concat "_" parts) in
  if (String.length name <=? IDENTIFIER_BYTES)%nat then name
  else let hash := sha8 name in truncateToBytes name (IDENTIFIER_BYTES - String.length hash - 1) +:+ "_" +:+ hash.

(** ** The apply function of pg_cron *)

Record CronProbe := { cp_securityDefiner : bool; cp_executable : bool; cp_owner : string }.
Record CronApplyRoute := { ca_installed : bool; ca_executable : bool; ca_owner : option string }.
Definition readCronApplyProbe (rows : list CronProbe) : CronApplyRoute :=
  match rows with
  | [] => {| ca_installed := false; ca_executable := false; ca_owner := None |}
  | row :: _ =>
      if negb (cp_securityDefiner row) then {| ca_installed := false; ca_executable := false; ca_owner := Some (cp_owner row) |}
      else {| ca_installed := true; ca_executable := cp_executable row; ca_owner := Some (cp_owner row) |}
  end.
Definition cronDirections (keys : list (string * SortDirection)) : list string :=
  (fun key => if snd key is Neg then "DESC" else "ASC") <$> keys.
(** The arguments of one call of the function. *)
Record CronBuild := {
  cb_database : string; cb_schema : string; cb_table : string; cb_name : string; cb_columns : list string; cb_directions : list string;
  cb_unique : bool; cb_include : list string;
}.

(** ** The server *)

Class PgServer (Srv : Type) := {
  pg_index_rows : Srv -> string -> string -> string -> exn + list PgIndexRow;
  pg_version : Srv -> exn + option PostgresServerVersion;
  inRecovery : Srv -> exn + bool;
  show_cron_database : Srv -> DriverError + list string;
  cron_probe : Srv -> string -> DriverError + list CronProbe;
  owner_rows : Srv -> string -> string -> string -> DriverError + list bool;
  holder_rows : Srv -> string -> string -> string -> exn + list (option string);
  valid_rows : Srv -> string -> string -> string -> exn + list bool;
  leftover_rows : Srv -> string -> string -> string -> DriverError + nat;
  status_rows : Srv -> string -> string -> exn + list (string * option string);
  cron_apply : string -> CronBuild -> Srv -> Srv * (DriverError + unit);
  cron_finish : string -> string -> Srv -> Srv * (DriverError + unit);
  pg_execute : string -> string -> Srv -> Srv * (DriverError + unit);
}.

Definition HideUnsupportedError (action : string) : exn :=
  Thrown ("PostgreSQL has no reversible index hide, so " +:+ action +:+ " is impossible here. " +:+
    "The only mechanism is clearing pg_index.indisvalid, which needs superuser " +:+
    "and cannot be delegated — so this engine observes from statistics instead " +:+
    "and its capabilities report hideIndexes: false. A caller reaching this has " +:+ "skipped that check.").
Definition partialPredicate (filter : option (list (string * json))) : string :=
  match filter with
  | Some entries =>
      match map_get "sql" entries with
      | Some (JStr sql) => if String.eqb (trim sql) "" then "" else " WHERE " +:+ sql
      | _ => ""
      end
  | None => ""
  end.
Definition pg_drop_statement (schema name : string) : string :=
  "DROP INDEX CONCURRENTLY IF EXISTS " +:+ pg_quoteIdent schema +:+ "." +:+ pg_quoteIdent name.
Definition pg_key_text (key : string * SortDirection) : string := pg_quoteIdent (fst key) +:+ (if snd key is Neg then " DESC" else "").
Definition pg_create_statement (schema table : string) (keys : list (string * SortDirection)) (options : CreateIndexOptions) : string :=
  "CREATE" +:+ (if co_unique options then " UNIQUE" else "") +:+ " INDEX CONCURRENTLY " +:+
  "IF NOT EXISTS " +:+ pg_quoteIdent (co_name options) +:+ " ON " +:+ pg_quoteIdent schema +:+ "." +:+ pg_quoteIdent table +:+ " " +:+
  "(" +:+ String.concat ", " (pg_key_text <$> keys) +:+ ")" +:+
  (match co_include options with None | Some [] => "" | Some columns => " INCLUDE (" +:+ String.concat ", " (pg_quoteIdent <$> columns) +:+ ")" end) +:+
  partialPredicate (co_partialFilterExpression options).

(** ** The executor *)

Section executor.
Context {Srv : Type} `{PgServer Srv} (allowUntested readOnly : bool).

(** The cron database, and whether the function there can be used. *)
Definition resolveCronRoute (s : Srv) : string * bool :=
  match show_cron_database s with
  | inr (String _ _ as database :: _) =>
      match cron_probe s database with
      | inr rows => let probe := readCronApplyProbe rows in (database, ca_installed probe && ca_executable probe)
      | inl _ => (database, false)
      end
  | _ => ("", false)
  end.
Definition ownsTable (s : Srv) (database schema table : string) : bool :=
  match owner_rows s database schema table with inr (owns :: _) => owns | _ => false end.
Definition nameHolder (database schema name : string) : call Srv (option string) :=
  rows ← ask (fun s => holder_rows s database schema name);
  mret ((fun table => match table with None => "another relation" | Some table => "an index on " +:+ schema +:+ "." +:+ table end) <$> head rows).
Definition finishBuild (indexName : string) : call Srv unit := fun s =>
  ((cron_finish (fst (resolveCronRoute s)) indexName s).1, inr tt).
Definition settle_pg (database collection indexName : string) : call Srv IndexBuildSettlement := fun s =>
  let route := resolveCronRoute s in
  if negb (snd route) then (s, inr (FAILED "the pg_cron apply function is no longer available"))
  else
    (index ← ask (fun s => valid_rows s database (fst (splitTableRef collection)) indexName);
     if bool_decide (head index = Some true) then finishBuild indexName;; mret READY
     else
       runs ← ask (fun s => status_rows s (fst route) indexName);
       match head runs with
       | Some (status, return_message) =>
           if String.eqb status "succeeded" || String.eqb status "failed" then
             finishBuild indexName;;
             mret (FAILED (if String.eqb status "failed" then return_message ?? "the build failed"
                           else "an earlier attempt left an invalid index, so the retry skipped the build"))
           else mret PENDING
       | None => mret PENDING
       end) s.

Definition pg_supported : call Srv unit :=
  version ← ask pg_version;
  assert_none (postgresVersionRefusal version allowUntested);;
  recovering ← ask inRecovery;
  if recovering : bool then
    fail_with (Thrown ("this server is in recovery (a standby), so it refuses every write. Point " +:+
      "Indexterity at the primary — a standby is worth reading for its own " +:+ "usage counters and cannot apply anything"))
  else mret tt.
Definition pg_hide (_ _ _ : string) : call Srv unit := fail_with (HideUnsupportedError "hiding an index").
Definition pg_unhide (_ _ _ : string) : call Srv unit := fail_with (HideUnsupportedError "un-hiding an index").
Definition pg_drop (database collection indexName : string) : call Srv unit :=
  assertWritable readOnly ("drop index " +:+ indexName);;
  pg_supported;;
  run (pg_execute database (pg_drop_statement (fst (splitTableRef collection)) indexName)).
(** Only an index that is neither valid nor ready is a leftover. *)
Definition dropInvalidLeftover (database schema name : string) : call Srv unit := fun s =>
  match leftover_rows s database schema name with
  | inl _ | inr O => (s, inr tt)
  | inr (S _) => ((pg_execute database (pg_drop_statement schema name) s).1, inr tt)
  end.
Definition cron_call (database collection : string) (keys : list (string * SortDirection)) (options : CreateIndexOptions) : CronBuild :=
  let '(schema, table) := splitTableRef collection in
  {| cb_database := database; cb_schema := schema; cb_table := table; cb_name := co_name options; cb_columns := keys.*1;
     cb_directions := cronDirections keys; cb_unique := co_unique options; cb_include := co_include options ?? [] |}.
(** Every caller names the index. *)
Definition pg_create (database collection : string) (keys : list (string * SortDirection)) (options : CreateIndexOptions) : call Srv IndexBuildOutcome :=
  let '(schema, table) := splitTableRef collection in
  let name := co_name options in
  assertWritable readOnly ("create index " +:+ name);;
  pg_supported;;
  holder ← nameHolder database schema name;
  match holder with
  | Some holder => fail_with (Refused ("the name " +:+ name +:+ " is already taken in schema " +:+ schema +:+ " by " +:+ holder))
  | None => fun s =>
      let route := resolveCronRoute s in
      if negb (ownsTable s database schema table) && snd route then
        if negb (String.eqb (partialPredicate (co_partialFilterExpression options)) "") then
          fail_with (Thrown ("refusing to build partial index " +:+ name +:+ " through the pg_cron apply function: " +:+
            "its predicate is arbitrary SQL and the function accepts identifiers only, " +:+
            "so the index would be built without the predicate. Apply this one with an " +:+ "owner connection string.")) s
        else (run (cron_apply (fst route) (cron_call database collection keys options));; mret OUTCOME_SCHEDULED) s
      else
        run_or (pg_execute database (pg_create_statement schema table keys options))
          (fun error => dropInvalidLeftover database schema name;; fail_with (thrown error))
          (mret BUILT) s
  end.
End executor.

(** The adapter's session: its catalog and its writes, and the readings of any
    session for the rest. *)
Definition pg_session {Srv} `{PgServer Srv} (allowUntested readOnly : bool) (readings : EngineSession Srv) : EngineSession Srv := {|
  listIndexes s database collection :=
    let '(schema, table) := splitTableRef collection in
    match pg_index_rows s database schema table with inl e => inl e | inr rows => inr (pg_specs rows) end;
  collectUsage := @collectUsage Srv readings;
  collectHintedIndexes _ _ _ := inr [];
  readLatency := @readLatency Srv readings;
  collectionWrites := @collectionWrites Srv readings;
  latencyByCollection := @latencyByCollection Srv readings;
  collectFailedOps _ _ _ _ _ := inr (NO_SOURCE "PostgreSQL keeps no per-table record of failed statements");
  hide s database collection indexName := pg_hide database collection indexName s;
  unhide s database collection indexName := pg_unhide database collection indexName s;
  drop_index s database collection indexName := pg_drop allowUntested readOnly database collection indexName s;
  create s database collection keys options := pg_create allowUntested readOnly database collection keys options s;
  settleBuild := Some (fun s database collection indexName => settle_pg database collection indexName s);
  reconcile := None;
|}.

(** ** Which way a build went *)

Section builds.
Context {Srv : Type} `{PgServer Srv} (allow readOnly : bool).

Lemma quiet_pg_supported : quiet (pg_supported (Srv := Srv) allow).
Proof. unfold pg_supported. repeat (apply quiet_bind; [eauto with calls|intros ?]). case_match; eauto with calls. Qed.
Lemma quiet_nameHolder d schema n : quiet (nameHolder (Srv := Srv) d schema n).
Proof. unfold nameHolder. eauto with calls. Qed.
#[local] Hint Resolve quiet_pg_supported quiet_nameHolder : calls.

(** What a build does once the name is known to be free. *)
Definition build_by_route (d c : string) (ks : list (string * SortDirection)) (options : CreateIndexOptions) (s : Srv) : Srv * (exn + IndexBuildOutcome) :=
  let '(schema, table) := splitTableRef c in
  if negb (ownsTable s d schema table) && snd (resolveCronRoute s) then
    if String.eqb (partialPredicate (co_partialFilterExpression options)) "" then
      let '(s', r) := cron_apply (fst (resolveCronRoute s)) (cron_call d c ks options) s in
      (s', match r with inl e => inl (thrown e) | inr _ => inr OUTCOME_SCHEDULED end)
    else (s, inl (Thrown ("refusing to build partial index " +:+ co_name options +:+ " through the pg_cron apply function: " +:+
            "its predicate is arbitrary SQL and the function accepts identifiers only, " +:+
            "so the index would be built without the predicate. Apply this one with an " +:+ "owner connection string.")))
  else
    let '(s', r) := pg_execute d (pg_create_statement schema table ks options) s in
    match r with
    | inl e => ((dropInvalidLeftover d schema (co_name options) s').1, inl (thrown e))
    | inr _ => (s', inr BUILT)
    end.
Lemma pg_create_cases d c ks options s :
  let schema := (splitTableRef c).1 in
  (exists e, pg_create allow readOnly d c ks options s = (s, inl e) /\
     (readOnly = false -> (pg_supported allow s).2 = inr tt ->
      forall rows, holder_rows s d schema (co_name options) = inr rows -> rows <> [] /\ exists m, e = Refused m)) \/
  (readOnly = false /\ (pg_supported allow s).2 = inr tt /\ holder_rows s d schema (co_name options) = inr [] /\
   pg_create allow readOnly d c ks options s = build_by_route d c ks options s).
Proof.
  unfold pg_create, build_by_route. destruct (splitTableRef c) as [schema table]. cbn [fst]. destruct readOnly; [left; by eexists|].
  unfold assertWritable. change (mret tt ≫= ?f) with (f tt). cbn beta. rewrite !(bind_quiet (pg_supported allow)) by apply quiet_pg_supported.
  destruct (pg_supported allow s).2 as [e|[]] eqn:Es; [left; by eexists|].
  rewrite !(bind_quiet (nameHolder d schema (co_name options))) by apply quiet_nameHolder.
  unfold nameHolder, mbind, call_bind, ask, mret, call_ret. destruct (holder_rows s d schema (co_name options)) as [e|[|holder holders]]; cbn.
  - left. by eexists.
  - right. split_and!; try done. destruct (negb (ownsTable s d schema table) && (resolveCronRoute s).2).
    + destruct (String.eqb (partialPredicate _) ""); [|done]. cbn [negb]. unfold run. by destruct (cron_apply _ _ s) as [s' [e|[]]].
    + unfold run_or. destruct (pg_execute _ _ s) as [s' [e|[]]]; [|done]. unfold dropInvalidLeftover. by destruct (leftover_rows _ _ _ _) as [?|[|?]].
  - left. eexists. split; [done|]. intros _ _ rows [= <-]. by eauto.
Qed.
End builds.

(** C19. A build goes one way. It is not attempted on a read-only or unsupported
    server, nor where anything in the schema has its name. One that is done was sent
    directly, as the one statement of its columns, its included columns and its
    predicate, by a role that owns the table or that has no usable route to pg_cron.
    One that is scheduled is of a role that does not own the table and has the route,
    and of a filter that has no predicate in SQL, since the scheduled call carries
    none: no filter, or one the executor does not recognise and builds in full. *)
Theorem pg_build_sound {Srv : Type} `{PgServer Srv} (allow readOnly : bool) (d c : string) (ks : list (string * SortDirection))
    (options : CreateIndexOptions) (s : Srv) :
  let '(schema, table) := splitTableRef c in
  let '(s', out) := pg_create allow readOnly d c ks options s in
  (readOnly = true \/ (pg_supported allow s).2 <> inr tt \/ holder_rows s d schema (co_name options) <> inr [] -> s' = s /\ exists e, out = inl e) /\
  (out = inr BUILT -> (ownsTable s d schema table = true \/ snd (resolveCronRoute s) = false) /\
     pg_execute d (pg_create_statement schema table ks options) s = (s', inr tt)) /\
  (out = inr OUTCOME_SCHEDULED -> ownsTable s d schema table = false /\ snd (resolveCronRoute s) = true /\
     partialPredicate (co_partialFilterExpression options) = "" /\
     cron_apply (fst (resolveCronRoute s)) (cron_call d c ks options) s = (s', inr tt)).
Proof.
  pose proof (pg_create_cases allow readOnly d c ks options s) as Hc. cbn zeta in Hc. destruct (splitTableRef c) as [schema table] eqn:Ec. cbn [fst] in Hc.
  destruct Hc as [(e & -> & _)|(-> & Hs & Hh & ->)]; [split_and!; [by eauto|done|done]|].
  unfold build_by_route. rewrite Ec. destruct (ownsTable s d schema table) eqn:Eo; cbn [negb andb].
  - destruct (pg_execute _ _ s) as [s1 [e|[]]] eqn:Ee; (split_and!; [intros [?|[?|?]]; congruence|intros [=]|intros [=]]). split; [by left|done].
  - destruct (resolveCronRoute s) as [cron usable] eqn:Er. cbn [fst snd]. destruct usable.
    + destruct (String.eqb_spec (partialPredicate (co_partialFilterExpression options)) "") as [Ep|]; [|split_and!; [intros [?|[?|?]]; congruence|done|done]].
      destruct (cron_apply _ _ s) as [s1 [e|[]]] eqn:Ea; (split_and!; [intros [?|[?|?]]; congruence|intros [=]|intros [=]]). done.
    + destruct (pg_execute _ _ s) as [s1 [e|[]]] eqn:Ee; (split_and!; [intros [?|[?|?]]; congruence|intros [=]|intros [=]]). split; [by right|done].
Qed.

(** ** How a scheduled build came out *)

(** The catalog decides whether a build is done, the job's history whether it is
    over. A build is ready only where the catalog has the index valid; one whose
    run says it succeeded is failed all the same where the index is not; and while
    nothing has finished, nothing is touched. *)
Theorem pg_settle_sound {Srv : Type} `{PgServer Srv} (d c n : string) (s : Srv) :
  let '(s', out) := settle_pg d c n s in
  let '(cron, usable) := resolveCronRoute s in
  match out with
  | inr READY => usable = true /\ (exists rows, valid_rows s d (splitTableRef c).1 n = inr (true :: rows)) /\ s' = (cron_finish cron n s).1
  | inr PENDING => s' = s /\ exists runs, status_rows s cron n = inr runs /\
      (forall status message, head runs = Some (status, message) -> status <> "succeeded" /\ status <> "failed")
  | inr (FAILED _) => (usable = false /\ s' = s) \/
      ((forall rows, valid_rows s d (splitTableRef c).1 n <> inr (true :: rows)) /\ s' = (cron_finish cron n s).1 /\
       exists status message runs, status_rows s cron n = inr ((status, message) :: runs) /\ (status = "succeeded" \/ status = "failed"))
  | inl _ => s' = s
  end.
Proof.
  unfold settle_pg, finishBuild. destruct (resolveCronRoute s) as [cron usable] eqn:Er. cbn [fst snd]. destruct usable; cbn [negb]; [|by left].
  unfold mbind, call_bind, ask, mret, call_ret. destruct (valid_rows s d (splitTableRef c).1 n) as [e|rows] eqn:Ev; [done|].
  case_bool_decide as Hv.
  { rewrite Er. cbn. split_and!; [done| |done]. destruct rows as [|r rows]; [done|]. injection Hv as ->. by eexists. }
  destruct (status_rows s cron n) as [e|runs] eqn:Es; [done|]. destruct runs as [|[status message] runs]; cbn [head].
  { split; [done|]. exists []. by split. }
  destruct (String.eqb_spec status "succeeded") as [E1|N1]; [|destruct (String.eqb_spec status "failed") as [E2|N2]]; cbn [orb].
  - rewrite Er. right. split_and!; [intros rs [= ->]; by apply Hv|done|]. exists status, message, runs. auto.
  - rewrite Er. right. split_and!; [intros rs [= ->]; by apply Hv|done|]. exists status, message, runs. auto.
  - split; [done|]. eexists. split; [done|]. by intros ? ? [= <- <-].
Qed.

(** ** What the listing leaves out *)

(** The access method, and whether the index is valid and maintained, as they may be. *)
Definition with_physical (f : PgIndexRow -> string * bool * bool) (row : PgIndexRow) : PgIndexRow :=
  let '(method, valid, ready) := f row in
  {| pg_name := pg_name row; pg_unique := pg_unique row; pg_primary := pg_primary row; pg_valid := valid; pg_ready := ready; pg_method := method;
     pg_predicate := pg_predicate row; pg_col := pg_col row; pg_descending := pg_descending row; pg_include := pg_include row; pg_ord := pg_ord row |}.
Definition same_entry (a b : string * PgEntry) : Prop :=
  fst a = fst b /\ pe_keys (snd a) = pe_keys (snd b) /\ pe_include (snd a) = pe_include (snd b) /\ pg_spec (snd a) = pg_spec (snd b).
Lemma same_get k l l' : Forall2 same_entry l l' ->
  match map_get k l, map_get k l' with Some a, Some b => same_entry (k, a) (k, b) | None, None => True | _, _ => False end.
Proof.
  unfold map_get. induction 1 as [|[k1 a] [k2 b] l l' (Ek & Hab) _ IH]; [done|]. cbn in Ek. subst k2. cbn. destruct (String.eqb_spec k1 k) as [->|]; [|exact IH].
  cbn. done.
Qed.
Lemma same_put k a b l l' : Forall2 same_entry l l' -> same_entry (k, a) (k, b) -> Forall2 same_entry (map_put k a l) (map_put k b l').
Proof.
  intros Hl Hab. induction Hl as [|[k1 x] [k2 y] l l' Hxy Hl IH]; [constructor; [done|constructor]|]. pose proof Hxy as [Ek _]. cbn in Ek. subst k2. cbn.
  destruct (String.eqb k1 k); constructor; done.
Qed.
Lemma same_column f row a b k : same_entry (k, a) (k, b) -> same_entry (k, add_column (with_physical f row) a) (k, add_column row b).
Proof.
  unfold with_physical. destruct (f row) as [[m v] r]. intros (_ & Hk & Hi & Hs). cbn in *. unfold add_column. cbn. destruct (pg_include row); unfold same_entry; cbn.
  - split_and!; [done|done|by rewrite Hi|]. unfold pg_spec in *. cbn. injection Hs as ? ? ? ? ? ? _. rewrite Hi. congruence.
  - split_and!; [done|by rewrite Hk|done|]. unfold pg_spec in *. cbn. injection Hs as ? ? ? ? ? ? _. rewrite Hk, Hi. congruence.
Qed.
Lemma pg_specs_physical f rows : pg_specs (with_physical f <$> rows) = pg_specs rows.
Proof.
  unfold pg_specs. assert (Forall2 same_entry (fold_left add_pg_row (with_physical f <$> rows) []) (fold_left add_pg_row rows [])) as Hs.
  { assert (Forall2 same_entry [] []) as H0 by constructor. revert H0. generalize (@nil (string * PgEntry)) at 1 3 as l. generalize (@nil (string * PgEntry)) as l'.
    induction rows as [|row rows IH]; intros l' l Hl; [done|]. cbn [fmap list_fmap fold_left]. apply IH. unfold add_pg_row.
    assert (pg_name (with_physical f row) = pg_name row) as -> by (unfold with_physical; by destruct (f row) as [[m v] r]).
    apply same_put; [done|]. apply same_column. pose proof (same_get (pg_name row) _ _ Hl) as Hg.
    destruct (map_get (pg_name row) l), (map_get (pg_name row) l'); try done. cbn. unfold same_entry, with_physical. by destruct (f row) as [[m v] r]. }
  induction Hs as [|a b l l' (_ & _ & _ & E) _ IH]; [done|]. cbn. by f_equal.
Qed.

Definition pg_row (n col : string) (ord : Z) : PgIndexRow :=
  {| pg_name := n; pg_unique := false; pg_primary := false; pg_valid := true; pg_ready := true; pg_method := "btree"; pg_predicate := None;
     pg_col := col; pg_descending := Some false; pg_include := false; pg_ord := ord |}.
(** An index on [a], and one on [(a, b)]. *)
Definition two_indexes : list PgIndexRow := [pg_row "orders_a_idx" "a" 1; pg_row "orders_a_b_idx" "a" 1; pg_row "orders_a_b_idx" "b" 2].
Definition drop_narrow : DropTarget := {| dt_type := DROP_REDUNDANT; dt_indexName := "orders_a_idx"; supersededBy := None |}.

(** The listing reads an index's access method and whether it is valid, and keeps
    neither: an index of any method, or the invalid leftover of a failed build, is
    listed like a working b-tree. So the pre-flight of a drop passes on the word of
    an index that serves nothing, on the engine where a drop cannot be taken back. *)
Theorem pg_unusable_index_covers (f : PgIndexRow -> string * bool * bool) (usage : list IndexUsage) :
  (forall rows, pg_specs (with_physical f <$> rows) = pg_specs rows) /\
  safe (preflightDrop (pg_specs (with_physical f <$> two_indexes)) usage [] drop_narrow) = true.
Proof. split; [intros; apply pg_specs_physical|]. rewrite pg_specs_physical. by vm_compute. Qed.

(** ** Names fit *)

Lemma take_chars_length n s : (String.length (take_chars n s) <= n)%nat.
Proof. revert s. induction n as [|n IH]; intros [|c s]; cbn; try lia. specialize (IH s). lia. Qed.
Definition plain_char (c : ascii) : bool := is_word c || in_codes 36 36 c.
Lemma plain_name_chars s : all_chars plain_char (plain_name s) = true.
Proof.
  induction s as [|c s IH]; [done|]. cbn [plain_name]. destruct (is_word c || in_codes 36 36 c) eqn:E.
  - cbn [all_chars]. unfold plain_char at 1. by rewrite E.
  - destruct (in_codes 128 191 c); [done|]. destruct (in_codes 240 247 c); exact IH.
Qed.
Lemma take_chars_all f n s : all_chars f s = true -> all_chars f (take_chars n s) = true.
Proof. revert s. induction n as [|n IH]; intros [|c s]; cbn; try done. intros [-> Hs]%andb_prop. by apply IH. Qed.
Lemma text_length_app a b : String.length (a +:+ b) = (String.length a + String.length b)%nat.
Proof. induction a as [|c a IH]; [done|]. rewrite app_cons. cbn. by rewrite IH. Qed.

(** A name fits the server's limit, so what is recorded is what the server has,
    and is made of plain characters, whatever the table and its columns are
    called. *)
Theorem pg_index_name_fits (sha8 : string -> string) (table : string) (ks : list (string * SortDirection)) (partial_ : bool) :
  (forall t, String.length (sha8 t) = 8%nat) -> (forall t, all_chars plain_char (sha8 t) = true) ->
  let name := postgresIndexName sha8 table ks partial_ in (String.length name <= IDENTIFIER_BYTES)%nat /\ all_chars plain_char name = true.
Proof.
  intros Hl Hc. cbn zeta. unfold postgresIndexName. set (full := plain_name _). destruct (Nat.leb_spec (String.length full) IDENTIFIER_BYTES) as [Hle|Hgt].
  - split; [done|]. apply plain_name_chars.
  - unfold truncateToBytes. rewrite Hl. split.
    + rewrite !text_length_app, Hl. pose proof (take_chars_length (IDENTIFIER_BYTES - 8 - 1) full). unfold IDENTIFIER_BYTES in *. cbn [String.length] in *. lia.
    + rewrite !all_chars_app, Hc, take_chars_all by apply plain_name_chars. done.
Qed.

(** ** A partial build nobody can make *)

Section stall.
Context {Srv : Type} `{PgServer Srv} (allow : bool) (readings : EngineSession Srv).
#[local] Instance stall_session : EngineSession Srv := pg_session allow false readings.

(** The role owns no table and builds through pg_cron, and this row's index has a
    predicate. *)
Definition partial_by_cron (s : Srv) (r : Recommendation) (target : TargetSpec) : Prop :=
  let d := rec_database r in
  let '(schema, table) := splitTableRef (rec_collection r) in
  (pg_supported allow s).2 = inr tt /\ ownsTable s d schema table = false /\ snd (resolveCronRoute s) = true /\
  holder_rows s d schema (rec_indexName r) = inr [] /\
  partialPredicate (co_partialFilterExpression (create_options (rec_indexName r) target)) <> "" /\
  exists rows, pg_index_rows s d schema table = inr rows /\
    notWorthBuilding (specOf (rec_indexName r) (decodeKeys (ts_keys target)) target) (pg_specs rows) = None.

Lemma partial_build_throws now built r target (s : Store Srv) :
  f_targetSpec (finding r) = Some target -> ts_keys target <> [] -> (rec_type r = REORDER -> is_Some (ts_options target)) ->
  partial_by_cron (live s) r target -> exists m, build_one now built r s = (s, inl (Thrown m)).
Proof.
  intros Ht Hk Hr Hp. unfold partial_by_cron in Hp. destruct (splitTableRef (rec_collection r)) as [schema table] eqn:Ec.
  destruct Hp as (Hs & Ho & Hu & Hh & Hw & rows & Hrows & Hnw). unfold build_one. rewrite Ht. destruct (ts_keys target) as [|key ks] eqn:Ek; [done|].
  assert (bool_decide (rec_type r = REORDER) && negb (is_some (ts_options target)) = false) as ->.
  { case_bool_decide as E; [|done]. destruct (Hr E) as [o ->]. done. }
  unfold read, mbind, pass_bind. cbn [listIndexes stall_session pg_session]. rewrite Ec, Hrows. rewrite Hnw.
  destruct (pg_create_cases allow false (rec_database r) (rec_collection r) (decodeKeys (key :: ks)) (create_options (rec_indexName r) target) (live s))
    as [(e & _ & Hno)|(_ & _ & _ & E)].
  { exfalso. rewrite Ec in Hno. by destruct (Hno eq_refl Hs _ Hh). }
  unfold build_by_route in E. rewrite Ec, Ho, Hu in E. cbn [negb andb] in E. apply String.eqb_neq in Hw. rewrite Hw in E.
  eexists. unfold try_catch, write. cbn [create stall_session pg_session]. rewrite E. cbn. by destruct s.
Qed.

(** C40. One such row stalls every build of the cluster. An approved build through
    pg_cron of an index with a predicate, the re-order of a partial unique index
    say, is refused by throwing, and not with the refusal the pass closes a row on:
    the pass ends where it met the row, the row stays approved, none after it is
    built, and the next pass meets it again. *)
Theorem pg_partial_build_stalls (ctx : BuildContext) (s : Store Srv) (r : Recommendation) (rest : list Recommendation) (target : TargetSpec) :
  List.filter (fun r => bool_decide (rec_type r ∈ BUILD_TYPES)) (in_state APPROVED s) = r :: rest ->
  window_open (bx_policy ctx ?? default_policy) (bx_now ctx) = true -> bx_readOnly ctx = false ->
  f_targetSpec (finding r) = Some target -> ts_keys target <> [] -> (rec_type r = REORDER -> is_Some (ts_options target)) ->
  partial_by_cron (live s) r target ->
  exists m, applyCreatesForCluster ctx s = (s, inl (Thrown m)).
Proof.
  intros Ha Hw Hro Ht Hk Hr Hp. destruct (partial_build_throws (bx_now ctx) 0 r target s Ht Hk Hr Hp) as [m E]. exists m.
  unfold applyCreatesForCluster, mbind at 1, pass_bind at 1, get. cbn zeta. rewrite Ha, Hw, Hro. cbn [for_each]. unfold mbind, pass_bind. by rewrite E.
Qed.
End stall.

(** ** Witnesses *)

Lemma pg_index_name_fits_witness :
  let table := "a_table_whose_name_alone_is_nearly_as_long_as_an_identifier_may_be" in
  let name := postgresIndexName (fun _ => "0123abcd") table [("été", Neg)] true in
  name = "a_table_whose_name_alone_is_nearly_as_long_as_an_ident_0123abcd" /\ (String.length name <= IDENTIFIER_BYTES)%nat.
Proof.
  cbn zeta. split; [by vm_compute|].
  apply (pg_index_name_fits (fun _ => "0123abcd") _ [("été", Neg)] true); intros t; by vm_compute.
Defined.

(** A server the role builds on through pg_cron, with one table. *)
Definition PgShop : Type := list PgIndexRow.
#[export] Instance pg_shop : PgServer PgShop := {|
  pg_index_rows s _ _ _ := inr s;
  pg_version _ := inr (parsePostgresVersion (Some 170011) (Some "17.11"));
  inRecovery _ := inr false;
  show_cron_database _ := inr ["postgres"];
  cron_probe _ _ := inr [{| cp_securityDefiner := true; cp_executable := true; cp_owner := "app" |}];
  owner_rows _ _ _ _ := inr [false];
  holder_rows s _ _ n := inr ((fun row => Some "orders") <$> List.filter (fun row => String.eqb (pg_name row) n) s);
  valid_rows s _ _ n := inr (pg_valid <$> List.filter (fun row => String.eqb (pg_name row) n) s);
  leftover_rows _ _ _ _ := inr 0%nat;
  status_rows _ _ _ := inr [];
  cron_apply _ _ s := (s, inr tt);
  cron_finish _ _ s := (s, inr tt);
  pg_execute _ _ s := (s, inl {| de_numbers := []; de_message := "must be owner of table orders" |});
|}.
Definition pg_readings : EngineSession PgShop := {|
  listIndexes _ _ _ := inr []; collectUsage _ _ _ := inr []; collectHintedIndexes _ _ _ := inr [];
  readLatency _ _ _ := inr {| ls_ops := 0; ls_latencyMicros := 0 |}; collectionWrites _ _ _ := inr {| ls_ops := 0; ls_latencyMicros := 0 |};
  latencyByCollection := None; collectFailedOps _ _ _ _ _ := inr (NO_SOURCE ""); hide s _ _ _ := (s, inr tt); unhide s _ _ _ := (s, inr tt);
  drop_index s _ _ _ := (s, inr tt); create s _ _ _ _ := (s, inr BUILT); settleBuild := None; reconcile := None |}.
(** The re-order of a unique index on the rows not deleted, and a build after it. *)
Definition live_only : list (string * json) := [("sql", JStr "deleted_at IS NULL")].
Definition reorder_spec : TargetSpec :=
  {| ts_keys := ["b"; "a"]; ts_retire := ["orders_u"]; ts_partial := None;
     ts_options := Some {| bo_unique := true; bo_sparse := false; bo_collation := None; bo_partialFilter := Some live_only; bo_include := None |};
     ts_supersededBy := None |}.
Definition pg_build (id : nat) (type : RecommendationType) (n : string) (target : TargetSpec) : Recommendation :=
  {| rec_id := id;
     finding := {| f_type := type; f_source := WORKLOAD; f_usageClass := None; f_database := "shop"; f_collection := "public.orders"; f_indexName := n;
                   f_score := 70; f_evidenceDays := None; f_estimatedBytesSaved := 0; f_urgent := false; f_targetSpec := Some target |};
     state := APPROVED; rationale := ""; hide_columns := no_hide; build_columns := no_build |}.
Definition plain_target : TargetSpec :=
  {| ts_keys := ["c"]; ts_retire := []; ts_partial := None; ts_options := None; ts_supersededBy := None |}.
Definition pg_shop_store : Store PgShop :=
  {| recs := [pg_build 0 REORDER "orders_b_a_idx" reorder_spec; pg_build 1 CREATE "orders_c_idx" plain_target]; actions := []; cooldowns := ∅; roi := [];
     nextId := 2; watchTable := ∅; notes := ∅; shapes := []; live := two_indexes |}.
Lemma pg_partial_build_stalls_witness :
  exists m, @applyCreatesForCluster PgShop (pg_session false false pg_readings) {| bx_policy := None; bx_readOnly := false; bx_now := 0 |} pg_shop_store =
    (pg_shop_store, inl (Thrown m)).
Proof.
  apply (pg_partial_build_stalls false pg_readings {| bx_policy := None; bx_readOnly := false; bx_now := 0 |} pg_shop_store
    (pg_build 0 REORDER "orders_b_a_idx" reorder_spec) [pg_build 1 CREATE "orders_c_idx" plain_target] reorder_spec); try reflexivity.
  - discriminate.
  - intros _. by eexists.
  - unfold partial_by_cron. change (splitTableRef _) with ("public", "orders"). cbv beta iota. split_and!; [by vm_compute..|discriminate|].
    exists two_indexes. split; by vm_compute.
Defined.
