(* ===== verification/MongoWrites.v ===== *)
(** The MongoDB adapter's writes: [apps/api/src/mongo/executor.ts], against the
    catalog [listIndexes] of [collector.ts] reads in the same directory.

    The server is a parameter: what it answers and what each command does.  Its
    indexes are the documents of its catalog; of a collation the collector keeps
    the locale and drops the rest. *)
From S2P Require Import Prelude EngineTypes Redundancy Preflight Regression Failures Store Owner Sessions MongoShapes MongoReads.

Local Open Scope string_scope.
Local Open Scope list_scope.

(** ** The server *)

(** A document of the catalog.  Of its collation, the locale and the other fields. *)
Record MongoIndex := { mx_description : IndexDescription; mx_collation : option (string * list (string * json)) }.
Definition mx_name (x : MongoIndex) : string := id_name (mx_description x).
(** The document as the collector's schema reads it. *)
Definition read_document (x : MongoIndex) : IndexDescription :=
  {| id_name := id_name (mx_description x); id_key := id_key (mx_description x); id_unique := id_unique (mx_description x);
     id_sparse := id_sparse (mx_description x); id_hidden := id_hidden (mx_description x);
     expireAfterSeconds := expireAfterSeconds (mx_description x);
     partialFilterExpression := partialFilterExpression (mx_description x); id_collation := fst <$> mx_collation x |}.

(** The options of [createIndex], as the executor sends them. *)
Record MongoOptions := {
  mo_name : string;
  mo_unique : bool;
  mo_sparse : bool;
  mo_locale : option string;
  mo_partialFilterExpression : option (list (string * json));
}.
Class MongoServer (Srv : Type) := {
  mongo_version : Srv -> exn + option ServerVersion;
  catalog : Srv -> string -> string -> MongoReads.DriverError + list MongoIndex;
  shard_reading : Srv -> string -> string -> MongoReads.DriverError + option (option (list string));
  coll_mod : string -> string -> string -> bool -> Srv -> Srv * (Sessions.DriverError + unit);
  drop_command : string -> string -> string -> Srv -> Srv * (Sessions.DriverError + unit);
  create_command : string -> string -> list (string * bson) -> MongoOptions -> Srv -> Srv * (Sessions.DriverError + unit);
}.

(** ** The executor *)

Section executor.
Context {Srv : Type} `{MongoServer Srv} (allowUntestedVersions readOnly : bool).

Definition mongo_supported : call Srv unit := version ← ask mongo_version; assert_none (versionRefusal allowUntestedVersions version).
Definition setHidden (database collection indexName : string) (hidden : bool) : call Srv unit :=
  assertWritable readOnly (if hidden then "hide index" else "unhide index");;
  mongo_supported;;
  run (coll_mod database collection indexName hidden).
Definition mongo_hide (database collection indexName : string) : call Srv unit := setHidden database collection indexName true.
Definition mongo_unhide (database collection indexName : string) : call Srv unit := setHidden database collection indexName false.
Definition mongo_drop (database collection indexName : string) : call Srv unit :=
  assertWritable readOnly "drop index";;
  mongo_supported;;
  run (drop_command database collection indexName).
Definition key_document (keys : list (string * SortDirection)) : list (string * bson) :=
  (fun '(field, direction) => (field, BNum (if direction is Neg then -1 else 1)%Q)) <$> keys.
(** [include] comes off, since the server refuses an option it does not know. *)
Definition mongo_options (options : CreateIndexOptions) : MongoOptions :=
  {| mo_name := co_name options; mo_unique := co_unique options; mo_sparse := co_sparse options; mo_locale := co_collation options;
     mo_partialFilterExpression := co_partialFilterExpression options |}.
Definition mongo_create (database collection : string) (keys : list (string * SortDirection)) (options : CreateIndexOptions) : call Srv IndexBuildOutcome :=
  assertWritable readOnly "create index";;
  mongo_supported;;
  run (create_command database collection (key_document keys) (mongo_options options));;
  mret BUILT.
End executor.

(** ** What the server does *)

Definition set_description_hidden (b : bool) (n : string) (x : MongoIndex) : MongoIndex :=
  if String.eqb (mx_name x) n then
    {| mx_description :=
         {| id_name := id_name (mx_description x); id_key := id_key (mx_description x); id_unique := id_unique (mx_description x);
            id_sparse := id_sparse (mx_description x); id_hidden := Some b; expireAfterSeconds := expireAfterSeconds (mx_description x);
            partialFilterExpression := partialFilterExpression (mx_description x); id_collation := id_collation (mx_description x) |};
       mx_collation := mx_collation x |}
  else x.
(** The document a build leaves.  A collation of which only the locale was given is
    filled in; the simple one is not stored. *)
Definition created_document (defaults : string -> list (string * json)) (key : list (string * bson)) (options : MongoOptions) : MongoIndex :=
  {| mx_description :=
       {| id_name := mo_name options; id_key := key; id_unique := if mo_unique options then Some true else None;
          id_sparse := if mo_sparse options then Some true else None; id_hidden := None; expireAfterSeconds := None;
          partialFilterExpression := mo_partialFilterExpression options; id_collation := None |};
     mx_collation := locale ← mo_locale options; if String.eqb locale "simple" then None else Some (locale, defaults locale) |}.

(** What the manual says of the commands, on a cluster that is not sharded: a
    command changes the named index of the named collection, or the server answers
    that it did not; a name is one index's; the simple collation is not listed.
    [answered] are the errors that are an answer of the server. *)
Class MongoLaws (Srv : Type) `{MongoServer Srv} (documents : Srv -> string -> string -> list MongoIndex) (defaults : string -> list (string * json))
    (answered : Sessions.DriverError -> Prop) : Prop := {
  catalog_true s d c out : catalog s d c = inr out -> out = documents s d c;
  unsharded s d c : shardKeyFields (shard_reading s d c) = None;
  coll_mod_effect s d c n b s' out : coll_mod d c n b s = (s', out) ->
    left_by answered out (documents s d c) (set_description_hidden b n <$> documents s d c) (documents s' d c) /\
    forall d' c', (d', c') <> (d, c) -> documents s' d' c' = documents s d' c';
  drop_command_effect s d c n s' out : n <> "*" -> drop_command d c n s = (s', out) ->
    left_by answered out (documents s d c) (List.filter (fun x => negb (String.eqb (mx_name x) n)) (documents s d c)) (documents s' d c) /\
    forall d' c', (d', c') <> (d, c) -> documents s' d' c' = documents s d' c';
  create_command_effect s d c key options s' out : create_command d c key options s = (s', out) ->
    left_by answered out (documents s d c)
      (if bool_decide (mo_name options ∈ (mx_name <$> documents s d c)) then documents s d c
       else documents s d c ++ [created_document defaults key options]) (documents s' d c) /\
    forall d' c', (d', c') <> (d, c) -> documents s' d' c' = documents s d' c';
  no_simple_collation s d c x rest : x ∈ documents s d c -> mx_collation x <> Some ("simple", rest);
}.

(** ** The session *)

Definition mongo_indexes {Srv} (documents : Srv -> string -> string -> list MongoIndex) (s : Srv) (d c : string) : list IndexSpec :=
  (fun x => toIndexSpec (read_document x)) <$> documents s d c.
(** What the engine can hold and list: no covering columns, and no simple collation. *)
Definition mongo_holds (spec : IndexSpec) : Prop :=
  include spec = None /\ collation spec <> Some "simple" /\ partial spec = is_some (partialFilter spec).
(** Every command sent is answered: what fails is an error of the server's own. *)
Definition every_answer_arrives (Srv : Type) `{MongoServer Srv} (answered : Sessions.DriverError -> Prop) : Prop :=
  (forall d c n b s e, (coll_mod d c n b s).2 = inl e -> answered e) /\
  (forall d c n s e, (drop_command d c n s).2 = inl e -> answered e) /\
  (forall d c key options s e, (create_command d c key options s).2 = inl e -> answered e).
(** A session asked to drop no index named "*", which [dropIndex] reads as every index
    and no index can be called: what the passes ask of it, who name indexes the
    collector listed and indexes they named themselves. *)
Definition without_star {Srv} (session : EngineSession Srv) : EngineSession Srv := {|
  Store.listIndexes := @Store.listIndexes Srv session;
  Store.collectUsage := @Store.collectUsage Srv session;
  Store.collectHintedIndexes := @Store.collectHintedIndexes Srv session;
  Store.readLatency := @Store.readLatency Srv session;
  Store.collectionWrites := @Store.collectionWrites Srv session;
  Store.latencyByCollection := @Store.latencyByCollection Srv session;
  Store.collectFailedOps := @Store.collectFailedOps Srv session;
  Store.hide := @Store.hide Srv session;
  Store.unhide := @Store.unhide Srv session;
  Store.drop_index s d c n := if String.eqb n "*" then (s, inl (Thrown "not the name of an index: *")) else @Store.drop_index Srv session s d c n;
  Store.create := @Store.create Srv session;
  Store.settleBuild := @Store.settleBuild Srv session;
  Store.reconcile := @Store.reconcile Srv session;
|}.
(** The adapter's session: its catalog and its writes, and the readings and the
    watch of any session for the rest. *)
Definition mongo_session {Srv} `{MongoServer Srv} (allowUntestedVersions readOnly : bool) (readings : EngineSession Srv) : EngineSession Srv := {|
  Store.listIndexes s d c :=
    match catalog s d c with
    | inl e => inl (Thrown (MongoReads.de_message e))
    | inr documents =>
        match mongo_listIndexes (inr (Some <$> (read_document <$> documents))) (shard_reading s d c) with
        | inl _ => inl (Thrown "unreadable")
        | inr specs => inr specs
        end
    end;
  Store.collectUsage := @Store.collectUsage Srv readings;
  Store.collectHintedIndexes := @Store.collectHintedIndexes Srv readings;
  Store.readLatency := @Store.readLatency Srv readings;
  Store.collectionWrites := @Store.collectionWrites Srv readings;
  Store.latencyByCollection := @Store.latencyByCollection Srv readings;
  Store.collectFailedOps := @Store.collectFailedOps Srv readings;
  Store.hide s d c n := mongo_hide allowUntestedVersions readOnly d c n s;
  Store.unhide s d c n := mongo_unhide allowUntestedVersions readOnly d c n s;
  Store.drop_index s d c n := mongo_drop allowUntestedVersions readOnly d c n s;
  Store.create s d c ks options := mongo_create allowUntestedVersions readOnly d c ks options s;
  Store.settleBuild := None;
  Store.reconcile := @Store.reconcile Srv readings;
|}.

(** ** Lemmas *)

Lemma quiet_mongo_supported {Srv} `{MongoServer Srv} allow : quiet (mongo_supported (Srv := Srv) allow).
Proof. unfold mongo_supported. auto with calls. Qed.
#[local] Hint Resolve quiet_mongo_supported : calls.

(** A write sends its command, or fails and sends nothing. *)
Lemma guarded_write {Srv A} `{MongoServer Srv} allow readOnly action (k : unit -> call Srv A) s :
  (exists e, (assertWritable readOnly action;; mongo_supported allow ≫= k) s = (s, inl e)) \/
  (readOnly = false /\ (mongo_supported allow s).2 = inr tt /\ (assertWritable readOnly action;; mongo_supported allow ≫= k) s = k tt s).
Proof.
  rewrite bind_quiet by auto with calls. destruct readOnly; [left; eauto|]. cbn [assertWritable mret call_ret snd].
  rewrite bind_quiet by auto with calls. destruct (mongo_supported allow s).2 as [e|[]]; [left; eauto|by right].
Qed.

Section laws.
Context {Srv : Type} `{MongoServer Srv} (documents : Srv -> string -> string -> list MongoIndex) (defaults : string -> list (string * json))
  (answered : Sessions.DriverError -> Prop) `{!MongoLaws Srv documents defaults answered} (arrives : every_answer_arrives Srv answered)
  (allow readOnly : bool) (readings : EngineSession Srv)
  (watch_leaves_indexes : forall watch l targets release memory d c, @Store.reconcile Srv readings = Some watch ->
     documents (watch l targets release memory).1 d c = documents l d c).
#[local] Instance adapter : EngineSession Srv := without_star (mongo_session allow readOnly readings).

Lemma read_hidden b n (xs : list MongoIndex) : (fun x => toIndexSpec (read_document x)) <$> (set_description_hidden b n <$> xs) =
  mark_hidden b n ((fun x => toIndexSpec (read_document x)) <$> xs).
Proof.
  unfold mark_hidden. rewrite <- !list_fmap_compose. apply list_fmap_ext. intros i x _. cbn. unfold set_description_hidden, mx_name. by destruct (String.eqb _ n).
Qed.
Lemma read_dropped n (xs : list MongoIndex) : (fun x => toIndexSpec (read_document x)) <$> List.filter (fun x => negb (String.eqb (mx_name x) n)) xs =
  without_index n ((fun x => toIndexSpec (read_document x)) <$> xs).
Proof. unfold without_index. by rewrite filter_fmap_bool. Qed.
Lemma read_names (xs : list MongoIndex) : name <$> ((fun x => toIndexSpec (read_document x)) <$> xs) = mx_name <$> xs.
Proof. by rewrite <- list_fmap_compose. Qed.

(** What the commands leave, every answer arriving. *)
Lemma coll_mod_leaves s d c n b s' out : coll_mod d c n b s = (s', out) ->
  documents s' d c = (if out is inr _ then set_description_hidden b n <$> documents s d c else documents s d c) /\
  forall d' c', (d', c') <> (d, c) -> documents s' d' c' = documents s d' c'.
Proof.
  intros E. pose proof E as [Hl Hf]%coll_mod_effect. split; [|done]. revert Hl. apply left_by_answered. intros e ->. eapply (proj1 arrives). by rewrite E.
Qed.
Lemma drop_command_leaves s d c n s' out : n <> "*" -> drop_command d c n s = (s', out) ->
  documents s' d c = (if out is inr _ then List.filter (fun x => negb (String.eqb (mx_name x) n)) (documents s d c) else documents s d c) /\
  forall d' c', (d', c') <> (d, c) -> documents s' d' c' = documents s d' c'.
Proof.
  intros Hn E. pose proof E as [Hl Hf]%drop_command_effect; [|done]. split; [|done]. revert Hl. apply left_by_answered. intros e ->. eapply (proj1 (proj2 arrives)). by rewrite E.
Qed.
Lemma create_command_leaves s d c key options s' out : create_command d c key options s = (s', out) ->
  documents s' d c =
    (if out is inr _
     then if bool_decide (mo_name options ∈ (mx_name <$> documents s d c)) then documents s d c
          else documents s d c ++ [created_document defaults key options]
     else documents s d c) /\
  forall d' c', (d', c') <> (d, c) -> documents s' d' c' = documents s d' c'.
Proof.
  intros E. pose proof E as [Hl Hf]%create_command_effect. split; [|done]. revert Hl. apply left_by_answered. intros e ->. eapply (proj2 (proj2 arrives)). by rewrite E.
Qed.

(** What a command did, where it is only run. *)
Lemma run_effect (f : Srv -> Srv * (Sessions.DriverError + unit)) s s' (out : exn + unit) : run f s = (s', out) ->
  exists r, f s = (s', r) /\ (if out is inr _ then r = inr tt else exists e, r = inl e).
Proof. unfold run. destruct (f s) as [s1 [e|[]]]; intros [= <- <-]; eauto. Qed.

Lemma hidden_effect (hidden_ : bool) s d c n s' out : setHidden allow readOnly d c n hidden_ s = (s', out) ->
  mongo_indexes documents s' d c = (if out is inr _ then mark_hidden hidden_ n (mongo_indexes documents s d c) else mongo_indexes documents s d c) /\
  forall d' c', (d', c') <> (d, c) -> mongo_indexes documents s' d' c' = mongo_indexes documents s d' c'.
Proof.
  unfold setHidden. intros Hw.
  destruct (guarded_write allow readOnly (if hidden_ then "hide index" else "unhide index") (fun _ => run (coll_mod d c n hidden_)) s) as [[e E]|(_ & _ & E)];
    rewrite E in Hw; [by injection Hw as <- <-|].
  apply run_effect in Hw as (r & [E1 E2]%coll_mod_leaves & Hr). unfold mongo_indexes. split; [|intros d' c' Hne; by rewrite E2].
  rewrite E1. destruct out; [by destruct Hr as [? ->]|subst r; apply read_hidden].
Qed.
Lemma mongo_drop_effect s d c n s' out : Store.drop_index s d c n = (s', out) ->
  mongo_indexes documents s' d c = (if out is inr _ then without_index n (mongo_indexes documents s d c) else mongo_indexes documents s d c) /\
  forall d' c', (d', c') <> (d, c) -> mongo_indexes documents s' d' c' = mongo_indexes documents s d' c'.
Proof.
  cbn [Store.drop_index adapter without_star mongo_session]. destruct (String.eqb_spec n "*") as [->|Hn]; [by intros [= <- <-]|].
  unfold mongo_drop. intros Hw.
  destruct (guarded_write allow readOnly "drop index" (fun _ => run (drop_command d c n)) s) as [[e E]|(_ & _ & E)]; rewrite E in Hw; [by injection Hw as <- <-|].
  apply run_effect in Hw as (r & [E1 E2]%drop_command_leaves & Hr); [|done]. unfold mongo_indexes. split; [|intros d' c' Hne; by rewrite E2].
  rewrite E1. destruct out; [by destruct Hr as [? ->]|subst r; apply read_dropped].
Qed.

Lemma created_read key options : mo_locale options <> Some "simple" ->
  toIndexSpec (read_document (created_document defaults (key_document key) options)) =
  created_spec key {| co_name := mo_name options; co_unique := mo_unique options; co_sparse := mo_sparse options; co_collation := mo_locale options;
                      co_partialFilterExpression := mo_partialFilterExpression options; co_include := None |}.
Proof.
  intros Hl. unfold toIndexSpec, created_spec. cbn. f_equal.
  - unfold key_document. rewrite <- list_fmap_compose. apply list_fmap_ext. by intros i [f []] _.
  - by destruct (mo_unique options).
  - by destruct (mo_sparse options).
  - destruct (mo_locale options) as [l|]; [|done]. cbn. destruct (String.eqb_spec l "simple"); [congruence|done].
Qed.
Lemma create_outcome s d c ks options s' out : mongo_create allow readOnly d c ks options s = (s', out) ->
  documents s' d c =
    (if out is inr _
     then if bool_decide (co_name options ∈ (mx_name <$> documents s d c)) then documents s d c
          else documents s d c ++ [created_document defaults (key_document ks) (mongo_options options)]
     else documents s d c) /\ (forall d' c', (d', c') <> (d, c) -> documents s' d' c' = documents s d' c') /\ out <> inr OUTCOME_SCHEDULED.
Proof.
  unfold mongo_create. intros Hw.
  destruct (guarded_write allow readOnly "create index" (fun _ => run (create_command d c (key_document ks) (mongo_options options));; mret BUILT) s)
    as [[e E]|(_ & _ & E)]; rewrite E in Hw; [by injection Hw as <- <-|].
  unfold mbind, call_bind in Hw. destruct (run _ s) as [s1 [e|[]]] eqn:Er; injection Hw as <- <-;
    apply run_effect in Er as (r & [E1 E2]%create_command_leaves & Hr); (split; [|split; [done|done]]); rewrite E1.
  - by destruct Hr as [? ->].
  - by subst r.
Qed.

#[local] Instance mongo_session_laws : SessionLaws Srv (mongo_indexes documents).
Proof.
  split.
  - intros s d c specs. cbn [Store.listIndexes adapter without_star mongo_session]. destruct (catalog s d c) as [e|xs] eqn:Ec; [done|]. apply catalog_true in Ec as ->.
    unfold mongo_listIndexes. rewrite parse_all_some. cbn. rewrite unsharded. intros [= <-]. unfold mongo_indexes. by rewrite <- list_fmap_compose.
  - intros s d c n s' out. apply hidden_effect.
  - intros s d c n s' out. apply hidden_effect.
  - intros s d c n s' out. apply mongo_drop_effect.
  - intros s d c ks options d' c' spec. cbn [Store.create adapter without_star mongo_session]. destruct (mongo_create _ _ _ _ _ _ s) as [s' out] eqn:E.
    apply create_outcome in E as (E1 & E2 & _). cbn [fst]. unfold mongo_indexes. intros Hin Hh.
    destruct (decide ((d', c') = (d, c))) as [[= -> ->]|Hne]; [|by rewrite E2 in Hin]. rewrite E1 in Hin. destruct out as [e|o]; [done|].
    destruct (bool_decide _); [done|]. rewrite fmap_app, elem_of_app in Hin. destruct Hin as [?|Hin]; [done|].
    apply list_elem_of_singleton in Hin as ->. done.
  - done.
  - intros watch l targets release memory d c Hw. unfold mongo_indexes. by rewrite (watch_leaves_indexes watch).
Qed.
#[local] Instance mongo_build_laws : BuildLaws Srv (mongo_indexes documents) mongo_holds.
Proof.
  split.
  - intros s d c ks options s' out Hn. cbn [Store.create adapter without_star mongo_session]. intros (E1 & E2 & Ho)%create_outcome. unfold mongo_indexes in *.
    split; [|intros d' c' Hne; by rewrite E2]. rewrite read_names in Hn. rewrite E1. destruct out as [e|[]]; [done| |done].
    rewrite bool_decide_eq_false_2 by done. rewrite fmap_app. exists (toIndexSpec (read_document (created_document defaults (key_document ks) (mongo_options options)))). split; [reflexivity|]. split; [done|]. split; [done|].
    intros (Hi & Hc & _). cbn in Hi, Hc. rewrite created_read by done. unfold created_spec. cbn. by rewrite Hi.
  - intros s d c spec (x & -> & Hx)%list_elem_of_fmap _. split; [done|]. split; [|done]. cbn. destruct (mx_collation x) as [[l rest]|] eqn:E; [|done].
    intros [= ->]. by eapply no_simple_collation.
Qed.
End laws.

(** ** Theorems *)


(** No command without its guards, whatever the passes ask for: on a read-only
    cluster, or a server of a version that is refused or could not be read, a write
    sends nothing and says so; and a build sends no option the server would not
    know. *)
Theorem mongo_writes_guarded {Srv : Type} `{MongoServer Srv} (allow readOnly : bool) (d c n : string) (s : Srv) :
  (readOnly = true \/ (mongo_supported allow s).2 <> inr tt ->
   (forall b, exists e, setHidden allow readOnly d c n b s = (s, inl e)) /\
   (exists e, mongo_drop allow readOnly d c n s = (s, inl e)) /\
   forall ks options, exists e, mongo_create allow readOnly d c ks options s = (s, inl e)) /\
  (forall version, mongo_version s = inr version -> versionRefusal allow version <> None -> (mongo_supported allow s).2 <> inr tt) /\
  (forall ks options, exists key sent, (mongo_create allow readOnly d c ks options s).1 = s \/
     (mongo_create allow readOnly d c ks options s).1 = (create_command d c key sent s).1 /\ mo_name sent = co_name options /\
     mo_partialFilterExpression sent = co_partialFilterExpression options /\ length key = length ks).
Proof.
  split; [|split].
  - intros Hr. split_and!.
    + intros b. destruct (guarded_write allow readOnly (if b then "hide index" else "unhide index") (fun _ => run (coll_mod d c n b)) s)
        as [[e E]|(-> & Ev & _)]; [by exists e|by destruct Hr].
    + destruct (guarded_write allow readOnly "drop index" (fun _ => run (drop_command d c n)) s) as [[e E]|(-> & Ev & _)]; [by exists e|by destruct Hr].
    + intros ks options. destruct (guarded_write allow readOnly "create index"
        (fun _ => run (create_command d c (key_document ks) (mongo_options options));; mret BUILT) s) as [[e E]|(-> & Ev & _)]; [by exists e|by destruct Hr].
  - intros version Ev Hr. unfold mongo_supported, mbind, call_bind, ask. rewrite Ev. by destruct (versionRefusal allow version).
  - intros ks options. exists (key_document ks), (mongo_options options). destruct (guarded_write allow readOnly "create index"
        (fun _ => run (create_command d c (key_document ks) (mongo_options options));; mret BUILT) s) as [[e E]|(_ & _ & E)]; unfold mongo_create; rewrite E; [by left|].
    right. unfold mbind, call_bind, run. destruct (create_command _ _ _ _ s) as [s1 [e|[]]]; split_and!; try done; by unfold key_document; rewrite length_fmap.
Qed.

(** ** Collations *)

(** An index with the other fields of its collation replaced. *)
Definition recollated (rest : list (string * json)) (x : MongoIndex) : MongoIndex :=
  {| mx_description := mx_description x; mx_collation := (fun collation => (fst collation, rest)) <$> mx_collation x |}.
Definition plain_document (n : string) (fields : list string) (collation : option (string * list (string * json))) : MongoIndex :=
  {| mx_description :=
       {| id_name := n; id_key := (fun f => (f, BNum 1%Q)) <$> fields; id_unique := None; id_sparse := None; id_hidden := None; expireAfterSeconds := None;
          partialFilterExpression := None; id_collation := None |};
     mx_collation := collation |}.

(** Of a collation only the locale is kept, although its strength decides which
    texts are equal. Two indexes that differ in the rest of their collations are
    listed alike; so an index of case-insensitive matches is redundant beside a
    longer one of exact matches, the pre-flight of its drop passes, and undoing the
    drop builds an index in the collation the locale has by default. *)
Theorem collation_flattened (defaults : string -> list (string * json)) (x : MongoIndex) (locale : string) (rest rest' : list (string * json)) (usage : list IndexUsage) :
  toIndexSpec (read_document (recollated rest x)) = toIndexSpec (read_document x) /\
  (let narrow := plain_document "name_1" ["name"] (Some (locale, rest)) in
   let wide := plain_document "name_1_city_1" ["name"; "city"] (Some (locale, rest')) in
   let specs := (fun x => toIndexSpec (read_document x)) <$> [narrow; wide] in
   isRedundantPrefix (toIndexSpec (read_document narrow)) (toIndexSpec (read_document wide)) = true /\
   safe (preflightDrop specs usage [] {| dt_type := DROP_REDUNDANT; dt_indexName := "name_1"; supersededBy := None |}) = true) /\
  (mx_collation x = Some (locale, rest) -> locale <> "simple" ->
   forall key, mx_collation (created_document defaults key (mongo_options (rebuildOptions (toIndexSpec (read_document x))))) = Some (locale, defaults locale)).
Proof.
  split; [|split].
  - unfold toIndexSpec. cbn. by destruct (mx_collation x).
  - cbn zeta. split; lazy -[bool_decide]; rewrite !(bool_decide_eq_true_2 (Some locale = Some locale)) by done; by vm_compute.
  - intros E Hl key. cbn. rewrite E. cbn. by destruct (String.eqb_spec locale "simple").
Qed.

(** ** A server in memory *)

Definition MongoMemory : Type := gmap (string * string) (list MongoIndex).
Definition memory_documents (s : MongoMemory) (d c : string) : list MongoIndex :=
  List.filter (fun x => negb (bool_decide (fst <$> mx_collation x = Some "simple"))) (s !! (d, c) ?? []).
Definition change_documents (d c : string) (xs : list MongoIndex) (s : MongoMemory) : MongoMemory * (Sessions.DriverError + unit) := (<[(d, c) := xs]> s, inr tt).
Definition no_such_index : Sessions.DriverError := {| Sessions.de_numbers := [Some 27%Z]; Sessions.de_message := "index not found" |}.
Definition is_there (s : MongoMemory) (d c n : string) : bool := existsb (fun x => String.eqb (mx_name x) n) (memory_documents s d c).
#[export] Instance mongo_memory : MongoServer MongoMemory := {|
  mongo_version _ := inr (Some {| sv_major := 8; sv_minor := 0; sv_text := "8.0.1" |});
  catalog s d c := inr (memory_documents s d c);
  shard_reading _ _ _ := inr None;
  coll_mod d c n b s := if is_there s d c n then change_documents d c (set_description_hidden b n <$> memory_documents s d c) s else (s, inl no_such_index);
  drop_command d c n s :=
    if String.eqb n "*" then change_documents d c [] s
    else if is_there s d c n then change_documents d c (List.filter (fun x => negb (String.eqb (mx_name x) n)) (memory_documents s d c)) s
    else (s, inl no_such_index);
  create_command d c key options s :=
    if bool_decide (mo_name options ∈ (mx_name <$> memory_documents s d c)) then (s, inr tt)
    else change_documents d c (memory_documents s d c ++ [created_document (fun _ => [("strength", JNum 3)]) key options]) s |}.

Lemma memory_change d c xs s : Forall (fun x => fst <$> mx_collation x <> Some "simple") xs -> memory_documents (<[(d, c) := xs]> s) d c = xs.
Proof.
  intros Hx. unfold memory_documents, MongoMemory in *. rewrite lookup_insert_eq. cbn. apply filter_all. intros x Hin. rewrite Forall_forall in Hx.
  rewrite bool_decide_eq_false_2; [done|]. by apply Hx.
Qed.
Lemma memory_elsewhere d c xs s d' c' : (d', c') <> (d, c) -> memory_documents (<[(d, c) := xs]> s) d' c' = memory_documents s d' c'.
Proof. intros Hne. unfold memory_documents, MongoMemory in *. rewrite lookup_insert_ne; congruence. Qed.
Lemma memory_no_simple s d c : Forall (fun x => fst <$> mx_collation x <> Some "simple") (memory_documents s d c).
Proof.
  apply Forall_forall. intros x [_ Hx]%elem_of_filter_bool E. by rewrite bool_decide_eq_true_2 in Hx.
Qed.
Lemma change_effect d c (b : bool) xs s s' (out : Sessions.DriverError + unit) : Forall (fun x => fst <$> mx_collation x <> Some "simple") xs ->
  (if b then change_documents d c xs s else (s, inl no_such_index)) = (s', out) ->
  memory_documents s' d c = (if out is inr _ then xs else memory_documents s d c) /\
  forall d' c', (d', c') <> (d, c) -> memory_documents s' d' c' = memory_documents s d' c'.
Proof.
  intros Hx. unfold change_documents. destruct b; intros [= <- <-]; [|done]. split; [by apply memory_change|]. intros. by apply memory_elsewhere.
Qed.
Lemma answer_left (out : Sessions.DriverError + unit) (before after now : list MongoIndex) (R : Prop) :
  now = (if out is inr _ then after else before) /\ R -> left_by (fun _ => True) out before after now /\ R.
Proof. intros [-> HR]. by destruct out. Qed.
#[export] Instance mongo_memory_laws : MongoLaws MongoMemory memory_documents (fun _ => [("strength", JNum 3)]) (fun _ => True).
Proof.
  split.
  - by intros s d c out [= <-].
  - done.
  - intros s d c n b s' out E. apply answer_left. revert E. apply change_effect. apply Forall_fmap. eapply Forall_impl; [apply memory_no_simple|]. intros x Hx. cbn.
    unfold set_description_hidden. by destruct (String.eqb _ n).
  - intros s d c n s' out Hn. cbn [drop_command mongo_memory]. destruct (String.eqb_spec n "*"); [done|]. intros E. apply answer_left. revert E. apply change_effect.
    apply Forall_filter_bool, memory_no_simple.
  - intros s d c key options s' out. cbn [create_command mongo_memory]. intros E. apply answer_left. revert E. case_bool_decide; [by intros [= <- <-]|].
    intros E. apply (change_effect d c true) in E; [done|]. apply Forall_app. split; [apply memory_no_simple|]. repeat constructor. cbn.
    destruct (mo_locale options) as [l|]; [|done]. cbn. destruct (String.eqb_spec l "simple"); [done|]. cbn. congruence.
  - intros s d c x rest Hx E. pose proof (memory_no_simple s d c) as Hn. rewrite Forall_forall in Hn. apply (Hn x Hx). by rewrite E.
Qed.

Definition mongo_shop : MongoMemory := {[ ("shop", "orders") := [plain_document "_id_" ["_id"] None; plain_document "a_1" ["a"] None; plain_document "a_1_b_1" ["a"; "b"] None] ]}.
Definition quiet_readings : EngineSession MongoMemory := {|
  Store.listIndexes _ _ _ := inr []; Store.collectUsage _ _ _ := inr []; Store.collectHintedIndexes _ _ _ := inr [];
  Store.readLatency _ _ _ := inr {| ls_ops := 0; ls_latencyMicros := 0 |}; Store.collectionWrites _ _ _ := inr {| ls_ops := 0; ls_latencyMicros := 0 |};
  Store.latencyByCollection := None; Store.collectFailedOps _ _ _ _ _ := inr (NO_SOURCE ""); Store.hide s _ _ _ := (s, inr tt); Store.unhide s _ _ _ := (s, inr tt);
  Store.drop_index s _ _ _ := (s, inr tt); Store.create s _ _ _ _ := (s, inr BUILT); Store.settleBuild := None; Store.reconcile := None |}.
Definition mongo_adapter : EngineSession MongoMemory := without_star (mongo_session false false quiet_readings).
Definition shown (s : MongoMemory) : list (string * bool) := (fun spec => (name spec, hidden spec)) <$> mongo_indexes memory_documents s "shop" "orders".

(** The manual's example of a case-insensitive index. *)
Lemma collation_flattened_witness :
  mx_collation (created_document (fun _ => [("strength", JNum 3)]) [] (mongo_options (rebuildOptions (toIndexSpec (read_document
    (plain_document "name_1" ["name"] (Some ("en", [("strength", JNum 2)])))))))) = Some ("en", [("strength", JNum 3)]).
Proof.
  exact (proj2 (proj2 (collation_flattened (fun _ => [("strength", JNum 3)]) (plain_document "name_1" ["name"] (Some ("en", [("strength", JNum 2)]))) "en"
    [("strength", JNum 2)] [] [])) eq_refl ltac:(done) []).
Defined.
