(* ===== verification/Regex.v ===== *)
(** Regular expressions as JavaScript matches them: alternatives in order, repeats
    as many times as they can and then fewer, captures by number.  A match is a
    place in the text after the one it started from; [matches] lists every one of
    them in the order the engine would try, so that the first is the one it takes.

    [reads] says the same as a relation, and [reads_matches] that they agree; the
    rest are the calls the code makes ([exec], [test], [matchAll], [replace]) and
    what their answers say of the text.  A character is a byte of UTF-8. *)
From Stdlib Require Import Ascii.
From S2P Require Import Prelude NetGuard SqlText.

Local Open Scope string_scope.
Local Open Scope list_scope.

(** ** Expressions *)

Inductive regex :=
| Nothing                                  (* the empty expression *)
| One (f : ascii -> bool)                  (* a class of characters *)
| Then (a b : regex)
| Or (a b : regex)                         (* a|b *)
| Many (a : regex)                         (* a* *)
| Zero (f : option ascii -> option ascii -> bool)   (* a test of the characters on both sides *)
| NotAhead (a : regex)                     (* (?!a) *)
| Group (n : nat) (a : regex).             (* (a) *)

Definition word_at (c : option ascii) : bool := match c with Some c => is_word c | None => false end.
Definition Boundary : regex := Zero (fun a b => xorb (word_at a) (word_at b)).                       (* \b *)
Definition Begin : regex := Zero (fun a _ => negb (is_some a)).                                        (* ^ *)
Definition NotBehind (f : ascii -> bool) : regex :=                                                   (* (?<![...]) *)
  Zero (fun a _ => match a with Some c => negb (f c) | None => true end).
(** [\m] and [\M] of PostgreSQL. *)
Definition Word_start : regex := Zero (fun a b => negb (word_at a) && word_at b).
Definition Word_end : regex := Zero (fun a b => word_at a && negb (word_at b)).
Definition Opt (a : regex) : regex := Or a Nothing.
Definition Plus (a : regex) : regex := Then a (Many a).
Definition char (c : ascii) : ascii -> bool := Ascii.eqb c.
(** A text as it is written, and with the flag [i]. *)
Fixpoint Lit (s : string) : regex :=
  match s with EmptyString => Nothing | String c s => Then (One (char c)) (Lit s) end.
Definition same_letter (c d : ascii) : bool := Ascii.eqb (lower_ascii c) (lower_ascii d).
Fixpoint Any_case (s : string) : regex :=
  match s with EmptyString => Nothing | String c s => Then (One (same_letter c)) (Any_case s) end.
Fixpoint One_of (rs : list regex) : regex :=
  match rs with [] => One (fun _ => false) | [r] => r | r :: rs => Or r (One_of rs) end.
Definition Word (s : string) : regex := Then Boundary (Then (Any_case s) Boundary).

(** ** Matching *)

(** A place in a text: the character before it, what follows, the captures so far. *)
Record place := { before : option ascii; text : string; groups : list (nat * string) }.
Definition at_place (b : option ascii) (s : string) : place := {| before := b; text := s; groups := [] |}.
Definition holds_at (f : option ascii -> option ascii -> bool) (p : place) : bool := f (before p) (String.get 0 (text p)).
(** The text from one place to a later one. *)
Definition between_places (p q : place) : string := String.substring 0 (String.length (text p) - String.length (text q)) (text p).
Definition moved_on (p q : place) : bool := (String.length (text q) <? String.length (text p))%nat.

(** A repeat ends where an iteration would not move on. *)
Fixpoint star (step : place -> list place) (fuel : nat) (p : place) : list place :=
  match fuel with
  | O => [p]
  | S fuel => mbind (star step fuel) (List.filter (moved_on p) (step p)) ++ [p]
  end.
Definition one (f : ascii -> bool) (p : place) : list place :=
  match text p with
  | String c rest => if f c then [{| before := Some c; text := rest; groups := groups p |}] else []
  | EmptyString => []
  end.
Fixpoint matches (r : regex) (p : place) : list place :=
  match r with
  | Nothing => [p]
  | One f => one f p
  | Then a b => mbind (matches b) (matches a p)
  | Or a b => matches a p ++ matches b p
  | Many a => star (matches a) (String.length (text p)) p
  | Zero f => if holds_at f p then [p] else []
  | NotAhead a => match matches a p with [] => [p] | _ => [] end
  | Group n a => (fun q => {| before := before q; text := text q; groups := (n, between_places p q) :: groups q |}) <$> matches a p
  end.

(** *** The calls *)

(** [r.exec(s)]: what comes before the first match, its start and its end. *)
Fixpoint exec_from (r : regex) (b : option ascii) (s : string) : option (string * place * place) :=
  match matches r (at_place b s) with
  | q :: _ => Some ("", at_place b s, q)
  | [] =>
      match s with
      | EmptyString => None
      | String c rest => match exec_from r (Some c) rest with Some (pre, p, q) => Some (String c pre, p, q) | None => None end
      end
  end.
Definition exec (r : regex) (s : string) : option (string * place * place) := exec_from r None s.
Definition test (r : regex) (s : string) : bool := is_some (exec r s).
Definition group (n : nat) (q : place) : option string := snd <$> List.find (fun '(m, _) => Nat.eqb m n) (groups q).

(** [s.matchAll(r)] and [s.replace(r, f)], the latter with the flag [g]. *)
Fixpoint match_all_from (fuel : nat) (r : regex) (b : option ascii) (s : string) : list (place * place) :=
  match fuel with
  | O => []
  | S fuel =>
      match exec_from r b s with
      | None => []
      | Some (_, p, q) =>
          (p, q) ::
          (if moved_on p q then match_all_from fuel r (before q) (text q)
           else match text q with String c rest => match_all_from fuel r (Some c) rest | EmptyString => [] end)
      end
  end.
Definition match_all (r : regex) (s : string) : list (place * place) := match_all_from (S (String.length s)) r None s.
Fixpoint replace_from (fuel : nat) (r : regex) (f : place -> place -> string) (b : option ascii) (s : string) : string :=
  match fuel with
  | O => s
  | S fuel =>
      match exec_from r b s with
      | None => s
      | Some (pre, p, q) =>
          pre +:+ f p q +:+
          (if moved_on p q then replace_from fuel r f (before q) (text q)
           else match text q with String c rest => String c (replace_from fuel r f (Some c) rest) | EmptyString => "" end)
      end
  end.
Definition replace_all (r : regex) (f : place -> place -> string) (s : string) : string := replace_from (S (String.length s)) r f None s.

(** ** What a match is *)

Inductive reads : regex -> place -> place -> Prop :=
| reads_nothing p : reads Nothing p p
| reads_one f c rest b gs : f c = true ->
    reads (One f) {| before := b; text := String c rest; groups := gs |} {| before := Some c; text := rest; groups := gs |}
| reads_then a b p q r : reads a p q -> reads b q r -> reads (Then a b) p r
| reads_left a b p q : reads a p q -> reads (Or a b) p q
| reads_right a b p q : reads b p q -> reads (Or a b) p q
| reads_stop a p : reads (Many a) p p
| reads_again a p q r : reads a p q -> moved_on p q = true -> reads (Many a) q r -> reads (Many a) p r
| reads_zero f p : holds_at f p = true -> reads (Zero f) p p
| reads_not_ahead a p : matches a p = [] -> reads (NotAhead a) p p
| reads_group n a p q : reads a p q ->
    reads (Group n a) p {| before := before q; text := text q; groups := (n, between_places p q) :: groups q |}.

Lemma star_reads (step : place -> list place) a : (forall p q, q ∈ step p <-> reads a p q) ->
  forall fuel p q, (String.length (text p) <= fuel)%nat -> q ∈ star step fuel p <-> reads (Many a) p q.
Proof.
  intros Hs. induction fuel as [|fuel IH]; intros p q Hp; cbn [star].
  - rewrite list_elem_of_singleton. split; [intros ->; constructor|]. intros H. inversion H; subst; [done|].
    match goal with H : moved_on _ _ = true |- _ => apply Nat.ltb_lt in H; lia end.
  - rewrite elem_of_app, list_elem_of_singleton, list_elem_of_bind. split.
    + intros [(x & Hx & Hin)| ->]; [|constructor]. apply list_elem_of_In, filter_In in Hin as [Hin Hm]. apply list_elem_of_In, Hs in Hin.
      assert (String.length (text x) <= fuel)%nat by (apply Nat.ltb_lt in Hm; lia). eapply reads_again; [done|done|]. by apply IH.
    + intros H. inversion H as [| | | | |? ? |? ? x ? Hr Hm Hrest| | |]; subst; [by right|]. left. exists x.
      assert (String.length (text x) <= fuel)%nat by (apply Nat.ltb_lt in Hm; lia). split; [by apply IH|].
      apply list_elem_of_In, filter_In. split; [|done]. by apply list_elem_of_In, Hs.
Qed.

(** The engine finds exactly the matches there are. *)
Lemma reads_matches r : forall p q, q ∈ matches r p <-> reads r p q.
Proof.
  induction r as [|f|a IHa b IHb|a IHa b IHb|a IHa|f|a IHa|n a IHa]; intros p q; cbn [matches].
  - rewrite list_elem_of_singleton. split; [intros ->; constructor|]. by inversion 1.
  - destruct p as [b [|c rest] gs]; cbn [one text groups]; [split; [by intros ?%not_elem_of_nil|by inversion 1]|].
    unfold one. cbn. destruct (f c) eqn:E; [rewrite list_elem_of_singleton; split; [intros ->; by constructor|by inversion 1]|].
    split; [by intros ?%not_elem_of_nil|]. inversion 1; subst. congruence.
  - rewrite list_elem_of_bind. setoid_rewrite IHb. setoid_rewrite IHa. split; [intros (x & Hb & Ha); by econstructor|].
    inversion 1; subst. eauto.
  - rewrite elem_of_app, IHa, IHb. split; [intros [?|?]; [by apply reads_left|by apply reads_right]|]. inversion 1; subst; auto.
  - by apply star_reads.
  - destruct (holds_at f p) eqn:E; [rewrite list_elem_of_singleton; split; [intros ->; by constructor|by inversion 1]|].
    split; [by intros ?%not_elem_of_nil|]. inversion 1; subst. congruence.
  - destruct (matches a p) eqn:E; [rewrite list_elem_of_singleton; split; [intros ->; by constructor|by inversion 1]|].
    split; [by intros ?%not_elem_of_nil|]. inversion 1; subst. congruence.
  - rewrite list_elem_of_fmap. setoid_rewrite IHa. split; [intros (x & -> & Hx); by constructor|]. inversion 1; subst. eauto.
Qed.

(** ** The text a match stands for *)

Fixpoint last_char (b : option ascii) (s : string) : option ascii :=
  match s with EmptyString => b | String c s => last_char (Some c) s end.
Lemma last_char_app b s t : last_char b (s +:+ t) = last_char (last_char b s) t.
Proof. revert b. induction s as [|c s IH]; intros b; [done|]. apply (IH (Some c)). Qed.
Lemma text_app_assoc (s t u : string) : (s +:+ t) +:+ u = s +:+ (t +:+ u).
Proof. induction s as [|c s IH]; [done|]. change (String c ((s +:+ t) +:+ u) = String c (s +:+ (t +:+ u))). by rewrite IH. Qed.
Lemma text_app_nil (s : string) : s +:+ "" = s.
Proof. induction s as [|c s IH]; [done|]. change (String c (s +:+ "") = String c s). by rewrite IH. Qed.
Lemma text_append_length (s t : string) : String.length (s +:+ t) = (String.length s + String.length t)%nat.
Proof. induction s as [|c s IH]; [done|]. change (S (String.length (s +:+ t)) = S (String.length s + String.length t)). by rewrite IH. Qed.
Lemma substring_start (s t : string) : String.substring 0 (String.length s) (s +:+ t) = s.
Proof. induction s as [|c s IH]; [by destruct t|]. change (String c (String.substring 0 (String.length s) (s +:+ t)) = String c s). by rewrite IH. Qed.
Lemma between_app p q s : text p = s +:+ text q -> between_places p q = s.
Proof. intros E. unfold between_places. rewrite E, text_append_length, Nat.add_sub. apply substring_start. Qed.

Lemma reads_text r p q : reads r p q -> exists s, text p = s +:+ text q /\ before q = last_char (before p) s.
Proof.
  induction 1 as [p|f c rest b gs E|a b p q r _ (s & Es & Bs) _ (t & Et & Bt)|a b p q _ IH|a b p q _ IH|a p
                 |a p q r _ (s & Es & Bs) _ _ (t & Et & Bt)|f p E|a p E|n a p q _ IH];
    try done; try (by exists "").
  - by exists (String c "").
  - exists (s +:+ t). by rewrite text_app_assoc, <- Et, last_char_app, <- Bs.
  - exists (s +:+ t). by rewrite text_app_assoc, <- Et, last_char_app, <- Bs.
Qed.

(** *** Where a match is found *)

Lemma exec_from_some r s : forall b pre p q, exec_from r b s = Some (pre, p, q) ->
  s = pre +:+ text p /\ p = at_place (last_char b pre) (text p) /\ head (matches r p) = Some q.
Proof.
  induction s as [|c s IH]; intros b pre p q; cbn [exec_from]; destruct (matches r (at_place b _)) as [|x xs] eqn:E; try done.
  - intros [= <- <- <-]. cbn. by rewrite E.
  - destruct (exec_from r (Some c) s) as [[[pre' p'] q']|] eqn:E'; [|done]. intros [= <- <- <-].
    destruct (IH _ _ _ _ E') as (Es & Ep & Hq). split; [by rewrite Es at 1|done].
  - intros [= <- <- <-]. cbn. by rewrite E.
Qed.
Lemma exec_from_none r s : forall b, exec_from r b s = None <-> forall pre suf, s = pre +:+ suf -> matches r (at_place (last_char b pre) suf) = [].
Proof.
  induction s as [|c s IH]; intros b; cbn [exec_from]; destruct (matches r (at_place b _)) as [|x xs] eqn:E.
  - split; [|done]. intros _ [|a pre] [|d suf]; try done.
  - split; [done|]. intros H. specialize (H "" "" eq_refl). cbn in H. congruence.
  - destruct (exec_from r (Some c) s) as [[[pre' p'] q']|] eqn:E'.
    + split; [done|]. intros H. enough (exec_from r (Some c) s = None) by congruence. apply IH. intros pre suf ->. by apply (H (String c pre) suf).
    + split; [|done]. intros _ [|a pre] suf Hs; [change (String c s = suf) in Hs; by subst|]. injection Hs as <- Hs. rewrite IH in E'. by apply (E' pre suf).
  - split; [done|]. intros H. specialize (H "" (String c s) eq_refl). cbn in H. congruence.
Qed.
Lemma exec_some r s pre p q : exec r s = Some (pre, p, q) ->
  s = pre +:+ text p /\ p = at_place (last_char None pre) (text p) /\ reads r p q.
Proof.
  intros (Es & Ep & Hq)%exec_from_some. split; [done|]. split; [done|]. apply reads_matches.
  destruct (matches r p); [done|]. injection Hq as ->. apply list_elem_of_here.
Qed.
Lemma test_true r s : test r s = true <-> exists pre suf q, s = pre +:+ suf /\ reads r (at_place (last_char None pre) suf) q.
Proof.
  unfold test. destruct (exec r s) as [[[pre p] q]|] eqn:E; cbn [is_some].
  - split; [|done]. intros _. destruct (exec_some _ _ _ _ _ E) as (Es & Ep & Hr). exists pre, (text p), q. by rewrite <- Ep.
  - split; [done|]. intros (pre & suf & q & -> & Hr). unfold exec in E. rewrite exec_from_none in E.
    apply reads_matches in Hr. rewrite (E pre suf eq_refl) in Hr. by apply not_elem_of_nil in Hr.
Qed.
Lemma test_false r s : test r s = false <-> forall pre suf, s = pre +:+ suf -> matches r (at_place (last_char None pre) suf) = [].
Proof. unfold test, exec. rewrite <- exec_from_none. by destruct (exec_from r None s). Qed.

Lemma match_all_from_spec r fuel : forall b s p q, (p, q) ∈ match_all_from fuel r b s ->
  exists pre, s = pre +:+ text p /\ p = at_place (last_char b pre) (text p) /\ reads r p q.
Proof.
  induction fuel as [|fuel IH]; intros b s p q; cbn [match_all_from]; [by intros ?%not_elem_of_nil|].
  destruct (exec_from r b s) as [[[pre x] y]|] eqn:E; [|by intros ?%not_elem_of_nil].
  destruct (exec_from_some _ _ _ _ _ _ E) as (Es & Ex & Hy).
  assert (reads r x y) as Hr. { apply reads_matches. destruct (matches r x); [done|]. injection Hy as ->. apply list_elem_of_here. }
  rewrite elem_of_cons. intros [[= -> ->]|Hin]; [by exists pre|].
  destruct (reads_text _ _ _ Hr) as (t & Et & Bt). rewrite Ex in Bt. cbn in Bt.
  assert (exists u, s = u +:+ text y /\ before y = last_char b u) as (u & Eu & Bu).
  { exists (pre +:+ t). rewrite text_app_assoc, <- Et, last_char_app. by split. }
  destruct (moved_on x y).
  - destruct (IH _ _ _ _ Hin) as (v & Ev & Hp & Hv). exists (u +:+ v). rewrite text_app_assoc, <- Ev, last_char_app, <- Bu. by split.
  - destruct (text y) as [|c rest] eqn:Ey; [by apply not_elem_of_nil in Hin|]. destruct (IH _ _ _ _ Hin) as (v & Ev & Hp & Hv).
    exists (u +:+ String c v). rewrite Eu, Ev, text_app_assoc, last_char_app. split; [done|]. by split.
Qed.
(** Every match of [matchAll] is a match in the text. *)
Lemma match_all_spec r s p q : (p, q) ∈ match_all r s -> exists pre, s = pre +:+ text p /\ p = at_place (last_char None pre) (text p) /\ reads r p q.
Proof. apply match_all_from_spec. Qed.

(** ** Expressions with no choice to go back on *)

(** The place after the longest run of a class. *)
Definition skip (f : ascii -> bool) (p : place) : place :=
  {| before := last_char (before p) (run_of f (text p)).1; text := (run_of f (text p)).2; groups := groups p |}.
Lemma skip_cons f b c rest gs : f c = true ->
  skip f {| before := b; text := String c rest; groups := gs |} = skip f {| before := Some c; text := rest; groups := gs |}.
Proof. intros E. unfold skip. cbn [text before groups run_of]. rewrite E. by destruct (run_of f rest). Qed.
Lemma skip_stop f p : match text p with String c _ => f c = false | EmptyString => True end -> skip f p = p.
Proof. destruct p as [b [|c rest] gs]; [done|]. cbn [text]. intros E. unfold skip. cbn [text before groups run_of]. by rewrite E. Qed.
Lemma skip_run f b s t gs : (forall c, String.get 0 t = Some c -> f c = false) -> String.length s = String.length (run_of f s).1 ->
  skip f {| before := b; text := s +:+ t; groups := gs |} = {| before := last_char b s; text := t; groups := gs |}.
Proof.
  intros Ht. revert b. induction s as [|c s IH]; intros b Hs.
  - rewrite skip_stop; [done|]. cbn [text]. change ("" +:+ t) with t. destruct t; [done|]. by apply Ht.
  - cbn [run_of] in Hs. destruct (f c) eqn:E; [|done]. destruct (run_of f s) as [run after] eqn:Er. cbn in Hs.
    change (String c s +:+ t) with (String c (s +:+ t)). rewrite skip_cons by done. apply IH. cbn. lia.
Qed.

Lemma moved_one b c rest gs gs' :
  moved_on {| before := b; text := String c rest; groups := gs |} {| before := Some c; text := rest; groups := gs' |} = true.
Proof. apply Nat.ltb_lt. cbn. lia. Qed.
Lemma one_cons f b c rest gs : one f {| before := b; text := String c rest; groups := gs |} =
  if f c then [{| before := Some c; text := rest; groups := gs |}] else [].
Proof. done. Qed.
Lemma star_munch f (k : place -> list place) : (forall q c rest, text q = String c rest -> f c = true -> k q = []) ->
  forall fuel p, (String.length (text p) <= fuel)%nat -> mbind k (star (one f) fuel p) = k (skip f p).
Proof.
  intros Hk. induction fuel as [|fuel IH]; intros [b s gs] Hp; cbn [text] in Hp.
  - destruct s; [|cbn in Hp; lia]. rewrite skip_stop by done. cbn [star]. apply app_nil_r.
  - cbn [star]. destruct s as [|c rest]; [rewrite skip_stop by done; apply app_nil_r|]. rewrite one_cons.
    destruct (f c) eqn:E.
    + rewrite skip_cons by done. cbn [List.filter]. rewrite moved_one.
      rewrite bind_app. cbn [mbind list_bind]. rewrite !app_nil_r. fold (mbind k (star (one f) fuel {| before := Some c; text := rest; groups := gs |})). rewrite IH by (cbn in Hp |- *; lia).
      rewrite (Hk {| before := b; text := String c rest; groups := gs |} c rest) by done. apply app_nil_r.
    + rewrite skip_stop by done. apply app_nil_r.
Qed.
(** A repeated class before what cannot start with it takes the whole run. *)
Lemma munch f k p : (forall q c rest, text q = String c rest -> f c = true -> matches k q = []) ->
  matches (Then (Many (One f)) k) p = matches k (skip f p).
Proof. intros Hk. cbn [matches]. by apply star_munch. Qed.
Lemma star_head f fuel p : (String.length (text p) <= fuel)%nat -> head (star (one f) fuel p) = Some (skip f p).
Proof.
  revert p. induction fuel as [|fuel IH]; intros [b s gs] Hp; cbn [text] in Hp.
  - destruct s; [|cbn in Hp; lia]. by rewrite skip_stop.
  - cbn [star]. destruct s as [|c rest]; [by rewrite skip_stop|]. rewrite one_cons. destruct (f c) eqn:E; [|by rewrite skip_stop].
    cbn [List.filter]. rewrite moved_one. cbn [mbind list_bind].
    rewrite app_nil_r, skip_cons by done. specialize (IH {| before := Some c; text := rest; groups := gs |}). cbn in Hp.
    destruct (star _ _ _); [discriminate IH; cbn; lia|]. apply IH. cbn. lia.
Qed.
(** At the end of an expression it takes the whole run first. *)
Lemma many_head f p : head (matches (Many (One f)) p) = Some (skip f p).
Proof. by apply star_head. Qed.

Lemma then_one a b p q : matches a p = [q] -> matches (Then a b) p = matches b q.
Proof. intros E. cbn [matches]. rewrite E. apply app_nil_r. Qed.
Lemma then_none a b p : matches a p = [] -> matches (Then a b) p = [].
Proof. intros E. cbn [matches]. by rewrite E. Qed.
Lemma then_assoc a b c p : matches (Then (Then a b) c) p = matches (Then a (Then b c)) p.
Proof. cbn [matches]. induction (matches a p) as [|q l IH]; [done|]. rewrite !bind_cons, bind_app, IH. done. Qed.
Lemma one_yes f b c rest gs : f c = true ->
  matches (One f) {| before := b; text := String c rest; groups := gs |} = [{| before := Some c; text := rest; groups := gs |}].
Proof. intros E. cbn. unfold one. cbn. by rewrite E. Qed.
Lemma one_no f p : match text p with String c _ => f c = false | EmptyString => True end -> matches (One f) p = [].
Proof. destruct p as [b [|c rest] gs]; [done|]. cbn. intros E. unfold one. cbn. by rewrite E. Qed.
Lemma any_case_yes s s' t b gs : toLowerCase s = toLowerCase s' ->
  matches (Any_case s) {| before := b; text := s' +:+ t; groups := gs |} = [{| before := last_char b s'; text := t; groups := gs |}].
Proof.
  revert s' b. induction s as [|c s IH]; intros [|d s'] b; try done. cbn [toLowerCase]. intros [= E1 E2].
  change (String d s' +:+ t) with (String d (s' +:+ t)). cbn [Any_case]. rewrite (then_one _ _ _ {| before := Some d; text := s' +:+ t; groups := gs |}); [by apply (IH s' (Some d))|]. apply one_yes. apply Ascii.eqb_eq. exact E1.
Qed.
Lemma any_case_reads s p q : reads (Any_case s) p q ->
  exists s', toLowerCase s' = toLowerCase s /\ text p = s' +:+ text q /\ before q = last_char (before p) s' /\ groups q = groups p.
Proof.
  revert p. induction s as [|c s IH]; intros p H; cbn [Any_case] in H; inversion H; subst; [by exists ""|].
  match goal with H : reads (One _) _ _ |- _ => inversion H; subst end.
  match goal with H : reads (Any_case _) _ _ |- _ => destruct (IH _ H) as (s' & E1 & E2 & E3 & E4) end. cbn in *.
  match goal with H : same_letter c ?d = true |- _ => apply Ascii.eqb_eq in H; exists (String d s') end. cbn. rewrite E1, E2. split_and!; [by f_equal|done|done|done].
Qed.

(** *** What each kind of expression reads *)

Lemma reads_run f p q : reads (Many (One f)) p q ->
  exists s, all_chars f s = true /\ text p = s +:+ text q /\ before q = last_char (before p) s /\ groups q = groups p.
Proof.
  intros H. remember (Many (One f)) as r eqn:E. induction H as [| | | | | |a p q r Hr _ _ _ IH| | |]; try discriminate E; injection E as ->; [by exists ""|].
  destruct (IH eq_refl) as (s & Hs & Es & Bs & Gs). inversion Hr as [|? c rest b gs Hc| | | | | | | |]; subst. exists (String c s). cbn in *.
  rewrite Hc, Hs, Es. done.
Qed.
Lemma reads_some f p q : reads (Plus (One f)) p q ->
  exists c s, f c = true /\ all_chars f s = true /\ text p = String c s +:+ text q /\ before q = last_char (before p) (String c s) /\ groups q = groups p.
Proof.
  inversion 1 as [| |? ? ? x ? Ha Hb| | | | | | |]; subst. inversion Ha as [|? c rest b gs Hc| | | | | | | |]; subst.
  apply reads_run in Hb as (s & Hs & Es & Bs & Gs). exists c, s. cbn in *. by rewrite Es.
Qed.
Lemma reads_lit s p q : reads (Lit s) p q -> text p = s +:+ text q /\ before q = last_char (before p) s /\ groups q = groups p.
Proof.
  revert p. induction s as [|c s IH]; intros p H; cbn [Lit] in H; inversion H as [|? ? ? ? ? ?|? ? ? x ? Ha Hb| | | | | | |]; subst; [done|].
  inversion Ha as [|? d rest b gs Hc| | | | | | | |]; subst. apply Ascii.eqb_eq in Hc as <-. destruct (IH _ Hb) as (E & B & G). cbn in *. by rewrite E.
Qed.
Lemma reads_one_of rs p q : rs <> [] -> reads (One_of rs) p q <-> exists r, r ∈ rs /\ reads r p q.
Proof.
  induction rs as [|r [|r' rs] IH]; intros Hn; [done| |].
  - cbn. split; [intros H; exists r; by rewrite list_elem_of_singleton|]. by intros (x & ->%list_elem_of_singleton & H).
  - change (One_of (r :: r' :: rs)) with (Or r (One_of (r' :: rs))). split.
    + inversion 1; subst; [exists r; by rewrite elem_of_cons; auto|]. destruct (proj1 (IH ltac:(done))) as (x & Hx & Hr); [done|].
      exists x. rewrite elem_of_cons. auto.
    + intros (x & [->|Hx]%elem_of_cons & Hr); [by apply reads_left|]. apply reads_right, IH; [done|]. by exists x.
Qed.
Lemma reads_zero_inv f p q : reads (Zero f) p q -> q = p /\ f (before p) (String.get 0 (text p)) = true.
Proof. by inversion 1. Qed.
Lemma reads_then_inv a b p r : reads (Then a b) p r -> exists q, reads a p q /\ reads b q r.
Proof. inversion 1; subst. eauto. Qed.
Lemma reads_or_inv a b p q : reads (Or a b) p q -> reads a p q \/ reads b p q.
Proof. inversion 1; auto. Qed.
Lemma reads_opt_inv a p q : reads (Opt a) p q -> reads a p q \/ q = p.
Proof. inversion 1 as [| | |? ? ? ? Ha|? ? ? ? Hb| | | | |]; subst; [by left|]. right. by inversion Hb. Qed.
Lemma reads_group_inv n a p q : reads (Group n a) p q ->
  exists x, reads a p x /\ q = {| before := before x; text := text x; groups := (n, between_places p x) :: groups x |}.
Proof. inversion 1; subst. eauto. Qed.

(** ** Whole words *)

(** A text that stands in another with no word on either side of it. *)
Definition whole_word (w s : string) : Prop :=
  exists pre suf, s = pre +:+ w +:+ suf /\ word_at (last_char None pre) = false /\ word_at (String.get 0 suf) = false.
Lemma last_char_word b s c : all_chars is_word (String c s) = true -> word_at (last_char b (String c s)) = true.
Proof.
  revert b c. induction s as [|d s IH]; intros b c; [cbn; by rewrite andb_true_r|]. cbn [all_chars]. intros [_ H]%andb_true_iff.
  change (word_at (last_char (Some c) (String d s)) = true). by apply IH.
Qed.
Lemma get_zero_app c s t : String.get 0 (String c s +:+ t) = Some c.
Proof. done. Qed.
Lemma get_zero_nonempty s t : s <> "" -> String.get 0 (s +:+ t) = String.get 0 s.
Proof. by destruct s. Qed.
(** [\b] on both sides of an expression that reads a word finds it where it stands. *)
Lemma word_found r w s : w <> "" -> all_chars is_word w = true -> whole_word w s ->
  (forall b t, exists q, reads r {| before := b; text := w +:+ t; groups := [] |} q /\ before q = last_char b w /\ text q = t) ->
  test (Then Boundary (Then r Boundary)) s = true.
Proof.
  intros Hw Hc (pre & suf & -> & Hb & Ha) Hr. apply test_true. destruct (Hr (last_char None pre) suf) as (q & Hq & Eb & Et).
  exists pre, (w +:+ suf), q. split; [done|]. destruct w as [|c w]; [done|]. eapply reads_then.
  - apply reads_zero. unfold holds_at. cbn [before text at_place]. rewrite Hb, get_zero_app. cbn in Hc |- *. apply andb_true_iff in Hc as [Hc _]. by rewrite Hc.
  - eapply reads_then; [exact Hq|]. apply reads_zero. unfold holds_at. rewrite Eb, Et, (last_char_word _ w c Hc), Ha. done.
Qed.
Lemma word_test W w s : w <> "" -> all_chars is_word w = true -> toLowerCase W = toLowerCase w -> whole_word w s -> test (Word W) s = true.
Proof.
  intros Hw Hc E Hs. apply (word_found _ w); [done|done|done|]. intros b t. eexists. split; [|split].
  - apply reads_matches. rewrite (any_case_yes W w) by done. apply list_elem_of_here.
  - done.
  - done.
Qed.

(** ** Replacing, a character at a time *)

Section replacing.
Context (r : regex) (f : place -> place -> string).

Lemma exec_shorter b s pre p q : exec_from r b s = Some (pre, p, q) ->
  (String.length (text q) <= String.length (text p))%nat /\ (String.length (text p) <= String.length s)%nat.
Proof.
  intros (Es & _ & Hq)%exec_from_some. assert (reads r p q) as Hr. { apply reads_matches. destruct (matches r p); [done|]. injection Hq as ->. apply list_elem_of_here. }
  destruct (reads_text _ _ _ Hr) as (t & Et & _). rewrite Es, text_append_length. apply (f_equal String.length) in Et. rewrite text_append_length in Et. lia.
Qed.
Lemma replace_fuel n : forall fuel fuel' b s, (String.length s <= n)%nat -> (String.length s < fuel)%nat -> (String.length s < fuel')%nat ->
  replace_from fuel r f b s = replace_from fuel' r f b s.
Proof.
  induction n as [|n IH]; intros [|fuel] [|fuel'] b s Hn H1 H2; try lia; cbn [replace_from];
    destruct (exec_from r b s) as [[[pre p] q]|] eqn:E; try done; destruct (exec_shorter _ _ _ _ _ E) as [Hq Hp]; do 2 f_equal;
    unfold moved_on; destruct (Nat.ltb_spec (String.length (text q)) (String.length (text p))).
  - lia.
  - destruct (text q) as [|c rest]; [done|]. cbn in *. lia.
  - apply IH; lia.
  - destruct (text q) as [|c rest]; [done|]. cbn in Hq. f_equal. apply IH; lia.
Qed.
Lemma replace_step fuel b s : replace_from (S fuel) r f b s =
  match exec_from r b s with
  | None => s
  | Some (pre, p, q) =>
      pre +:+ f p q +:+
      (if moved_on p q then replace_from fuel r f (before q) (text q)
       else match text q with String c rest => String c (replace_from fuel r f (Some c) rest) | EmptyString => "" end)
  end.
Proof. done. Qed.
(** [replace_all] from a place inside a text. *)
Definition replaced (b : option ascii) (s : string) : string := replace_from (S (String.length s)) r f b s.
Lemma replaced_found b s q qs : matches r (at_place b s) = q :: qs -> moved_on (at_place b s) q = true ->
  replaced b s = f (at_place b s) q +:+ replaced (before q) (text q).
Proof.
  intros E Hm. unfold replaced at 1. rewrite replace_step.
  assert (exec_from r b s = Some ("", at_place b s, q)) as -> by (destruct s; cbn [exec_from]; by rewrite E).
  rewrite Hm. change ("" +:+ ?x) with x. f_equal. apply Nat.ltb_lt in Hm. cbn [text at_place] in Hm. by apply (replace_fuel (String.length s)); lia.
Qed.
Lemma replaced_skip b c s : matches r (at_place b (String c s)) = [] -> replaced b (String c s) = String c (replaced (Some c) s).
Proof.
  intros E. unfold replaced. rewrite !replace_step. cbn [exec_from]. rewrite E. destruct (exec_from r (Some c) s) as [[[pre p] q]|] eqn:E'; [|done].
  destruct (exec_shorter _ _ _ _ _ E') as [Hq Hp]. change (String c pre +:+ ?x) with (String c (pre +:+ x)). do 3 f_equal.
  unfold moved_on. destruct (Nat.ltb_spec (String.length (text q)) (String.length (text p))).
  - apply (replace_fuel (String.length (text q))); cbn; lia.
  - destruct (text q) as [|d rest] eqn:Eq; [done|]. f_equal. cbn in Hq, Hp. apply (replace_fuel (String.length rest)); cbn; lia.
Qed.
Lemma replaced_end b : matches r (at_place b "") = [] -> replaced b "" = "".
Proof. intros E. unfold replaced. rewrite replace_step. cbn [exec_from]. by rewrite E. Qed.
End replacing.

Lemma lower_split s a b : toLowerCase s = a +:+ b -> exists s1 s2, s = s1 +:+ s2 /\ toLowerCase s1 = a /\ toLowerCase s2 = b.
Proof.
  revert s. induction a as [|c a IH]; intros s E; [by exists "", s|]. destruct s as [|d s]; [done|].
  change (String (lower_ascii d) (toLowerCase s) = String c (a +:+ b)) in E. injection E as E1 E2. destruct (IH _ E2) as (s1 & s2 & -> & <- & <-).
  exists (String d s1), s2. split; [done|]. split; [|done]. cbn. by rewrite E1.
Qed.
Lemma toLowerCase_app s t : toLowerCase (s +:+ t) = toLowerCase s +:+ toLowerCase t.
Proof. induction s as [|c s IH]; [done|]. change (String (lower_ascii c) (toLowerCase (s +:+ t)) = String (lower_ascii c) (toLowerCase s +:+ toLowerCase t)). by rewrite IH. Qed.
Lemma any_case_no c s p : match String.get 0 (text p) with Some d => same_letter c d = false | None => True end -> matches (Any_case (String c s)) p = [].
Proof. intros H. cbn [Any_case]. apply then_none, one_no. by destruct (text p). Qed.
Lemma lit_yes s t b gs : matches (Lit s) {| before := b; text := s +:+ t; groups := gs |} = [{| before := last_char b s; text := t; groups := gs |}].
Proof.
  revert b. induction s as [|c s IH]; intros b; [done|]. cbn [Lit]. rewrite (then_one _ _ _ {| before := Some c; text := s +:+ t; groups := gs |}); [apply (IH (Some c))|].
  apply one_yes, Ascii.eqb_refl.
Qed.
Lemma run_of_app f s t : all_chars f s = true -> match String.get 0 t with Some c => f c = false | None => True end -> run_of f (s +:+ t) = (s, t).
Proof.
  intros Hs Ht. induction s as [|c s IH].
  - change ("" +:+ t) with t. destruct t as [|c t]; [done|]. cbn in *. by rewrite Ht.
  - cbn in Hs. apply andb_true_iff in Hs as [Hc Hs]. change (String c s +:+ t) with (String c (s +:+ t)). cbn [run_of]. rewrite Hc, IH by done. done.
Qed.
Lemma run_of_spec f s : s = (run_of f s).1 +:+ (run_of f s).2 /\ all_chars f (run_of f s).1 = true /\
  match String.get 0 (run_of f s).2 with Some c => f c = false | None => True end.
Proof.
  induction s as [|c s IH]; [done|]. cbn [run_of]. destruct (f c) eqn:E; [|cbn; by rewrite E].
  destruct (run_of f s) as [run after]. cbn in *. destruct IH as (-> & -> & H). by rewrite E.
Qed.
