(* ===== verification/PgShapes.v ===== *)
(** What the PostgreSQL engine reads: [apps/api/src/postgres/workload.ts] whole, and
    the reads of [apps/api/src/postgres/collector.ts] beside its listing of indexes
    ([Postgres] has that one), with [health.ts] and [members.ts].

    A statement is a text with its literals replaced, and every fact about it comes
    from the regular expressions below, which are those of the code; [\s] is white
    space in ASCII.  What the server answers to each query is a parameter; the
    totals of [statementTotals] are computed here as its query computes them. *)
From Stdlib Require Import Ascii.
From S2P Require Import Prelude EngineTypes Runs Snapshots Failures NetGuard SqlText Groups Suggest Purge Collect Postgres Regex.

Local Open Scope string_scope.
Local Open Scope list_scope.

(** ** The expressions *)

Record NormalizedStatement := { ns_query : string; ns_calls : Z; ns_rows : Z }.

Definition spaces : regex := Many (One is_space).
Definition some_space : regex := Plus (One is_space).
Definition one_of_words (words : list regex) : regex := Then Boundary (Then (Group 1 (One_of words)) Boundary).

Definition SINGLE_TABLE : regex := Then Begin (Then spaces (Then (Any_case "SELECT") Boundary)).
Definition WHERE_RE : regex := Word "WHERE".
Definition ORDER_BY : regex := Then (Any_case "ORDER") (Then some_space (Any_case "BY")).
Definition FOR_RE : regex :=
  Then (Any_case "FOR") (Then some_space (Group 2 (One_of [Any_case "UPDATE"; Any_case "SHARE"; Then (Any_case "NO") (Then some_space (Any_case "KEY"))]))).
Definition TAIL_RE : regex :=
  one_of_words [Then (Any_case "GROUP") (Then some_space (Any_case "BY")); Any_case "HAVING"; ORDER_BY; Any_case "LIMIT"; Any_case "OFFSET"; FOR_RE].
Definition ORDER_BY_RE : regex := Then Boundary (Then ORDER_BY Boundary).
Definition AFTER_ORDER_RE : regex := one_of_words [Any_case "LIMIT"; Any_case "OFFSET"; FOR_RE].
Definition COMPLEX_WORDS : list string := ["JOIN"; "UNION"; "INTERSECT"; "EXCEPT"; "WITH"].
Definition SUBQUERY : regex := Then (Lit "(") (Then spaces (Then (Any_case "SELECT") Boundary)).
Definition COMPLEX : regex := Or (one_of_words (Any_case <$> COMPLEX_WORDS)) SUBQUERY.

Definition ident_start (c : ascii) : bool := in_codes 65 90 c || in_codes 97 122 c || in_codes 95 95 c.
Definition ident_char (c : ascii) : bool := ident_start c || is_digit c || char "$" c.
Definition inner_char (c : ascii) : bool := negb (char double_quote c).
Definition IDENT : regex :=
  Or (Then (One (char double_quote)) (Then (Plus (One inner_char)) (One (char double_quote))))
     (Then (One ident_start) (Many (One ident_char))).
Definition COLUMN : regex := Then (Opt (Then IDENT (Lit "."))) (Group 1 IDENT).
(** What may not stand before a column: a word, a dot or an open bracket. *)
Definition attached (c : ascii) : bool := is_word c || char "." c || char "(" c.
Definition EQUALITY_RE : regex :=
  Then (NotBehind attached) (Then COLUMN (Then spaces (Then (Lit "=") (Then spaces (Then (Lit "$") (Plus (One is_digit))))))).
Definition RANGE_OPERATOR : regex := One_of [Lit ">="; Lit "<="; Lit ">"; Lit "<"; Then (Any_case "BETWEEN") Boundary].
Definition RANGE_RE : regex := Then (NotBehind attached) (Then COLUMN (Then spaces RANGE_OPERATOR)).
Definition SORT_RE : regex := Then Begin (Then spaces (Then COLUMN (Opt (Group 2 (Then some_space (One_of [Any_case "ASC"; Any_case "DESC"])))))).
Definition DELETE_RE : regex :=
  Then Begin (Then spaces (Then (Any_case "DELETE") (Then some_space (Then (Any_case "FROM") (Then some_space
    (Then (Plus (One (fun c => negb (is_space c)))) (Then some_space (Then (Any_case "WHERE") (Then some_space
    (Then COLUMN (Then spaces (Then (Lit "<") (Then (Opt (Lit "=")) (One is_space)))))))))))))).
Definition CLOCK_RE : regex := one_of_words (Any_case <$> ["now"; "current_timestamp"; "current_date"; "localtimestamp"]).

(** ** Reading a statement *)

(** A quoted name without its quotes: [name.slice(1, -1)]. *)
Fixpoint without_last (s : string) : string :=
  match s with EmptyString => EmptyString | String _ EmptyString => EmptyString | String c s => String c (without_last s) end.
Definition unquote (name : string) : string :=
  match name with String c rest => if char double_quote c then without_last rest else name | EmptyString => name end.
Definition clauseBetween (query : string) (opens until : regex) : string :=
  match exec opens query with
  | None => ""
  | Some (_, _, after) => match exec until (text after) with Some (clause, _, _) => clause | None => text after end
  end.
Definition whereClause (query : string) : string := clauseBetween query WHERE_RE TAIL_RE.
Definition orderByClause (query : string) : string := clauseBetween query ORDER_BY_RE AFTER_ORDER_RE.
Definition matchAll (re : regex) (s : string) : list string := omap (fun '(_, q) => unquote <$> group 1 q) (match_all re s).
Definition NOT_COLUMNS : list string :=
  ["and"; "or"; "not"; "null"; "is"; "in"; "like"; "ilike"; "between"; "now"; "interval"; "true"; "false"; "current_date"; "current_timestamp";
   "localtimestamp"; "asc"; "desc"; "nulls"; "first"; "last"].
Definition reserved (name : string) : bool := includes NOT_COLUMNS (toLowerCase name).
Definition columns (names : list string) : list string := distinct_strings (List.filter (fun name => negb (reserved name)) names).
(** Every run of white space as one space, and none at the ends. *)
Definition normalized (query : string) : string := trim (replace_all some_space (fun _ _ => " ") query).

Definition sort_key (part : string) : option SortKey :=
  if test (Lit "(") part then None
  else
    '(_, _, q) ← exec SORT_RE part;
    name ← group 1 q;
    if reserved (unquote name) then None
    else Some {| sk_field := unquote name; sk_direction := if test (Any_case "desc") (group 2 q ?? "") then Neg else Pos |}.
Definition sortKeys (clause : string) : list SortKey :=
  if String.eqb (trim clause) "" then [] else omap sort_key (split_on "," clause).

Definition shapeOf (statement : NormalizedStatement) : option QueryShape :=
  let query := normalized (ns_query statement) in
  if negb (test SINGLE_TABLE query) || test COMPLEX query then None
  else
    let where_ := whereClause query in
    if test (Word "OR") where_ then None
    else
      let equality_ := columns (matchAll EQUALITY_RE where_) in
      let range_ := List.filter (fun name => negb (includes equality_ name)) (columns (matchAll RANGE_RE where_)) in
      let sort_ := sortKeys (orderByClause query) in
      match equality_, range_, sort_ with
      | [], [], [] => None
      | _, _, _ =>
          Some {| equality := equality_; sort := sort_; range := range_; collscan := false; sortedInMemory := None; EngineTypes.count := ns_calls statement;
                  docsExamined := Some (ns_rows statement); observedForHours := None; clients := None; constants := None; lookups := None |}
      end.

Definition deletePatternOf (statement : NormalizedStatement) : option PurgePattern :=
  let query := normalized (ns_query statement) in
  '(_, _, q) ← exec DELETE_RE query;
  field ← group 1 q;
  if reserved (unquote field) then None
  else if negb (test CLOCK_RE query) then None
  else Some {| pp_field := unquote field; pp_count := ns_calls statement; medianRetentionSeconds := None |}.

(** ** Notions the theorems are stated with *)

(** An identifier as it is written, quoted or not. *)
Definition identifier (s : string) : Prop :=
  (exists inner, s = dq +:+ inner +:+ dq /\ inner <> "" /\ all_chars inner_char inner = true) \/
  (exists c rest, s = String c rest /\ ident_start c = true /\ all_chars ident_char rest = true).
Definition qualifier (s : string) : Prop := s = "" \/ exists i, identifier i /\ s = i +:+ ".".
(** The column [name] stands in a clause, on its own, and [rest] follows it. *)
Definition column_before (name rest clause : string) : Prop :=
  exists pre table spelled, clause = pre +:+ (table +:+ (spelled +:+ rest)) /\ qualifier table /\ identifier spelled /\ unquote spelled = name
    /\ match last_char None pre with Some c => attached c = false | None => True end.
Definition blank (s : string) : Prop := all_chars is_space s = true.
(** [name = $n], and [name] before what the reading of ranges takes for an operator of
    one: a sign of order, the sign of difference, or BETWEEN, with white space before
    it or none. *)
Definition bound_equal (name clause : string) : Prop :=
  exists ws ws' d after, column_before name (ws +:+ ("=" +:+ (ws' +:+ ("$" +:+ String d after)))) clause /\ blank ws /\ blank ws' /\ is_digit d = true.
Definition bound_range (name clause : string) : Prop :=
  exists ws op after, column_before name (ws +:+ (op +:+ after)) clause /\ blank ws /\
    (op ∈ [">="; "<="; ">"; "<"] /\ (op = "<" -> String.get 0 after <> Some ">"%char) \/ op = "<>" \/ toLowerCase op = "between").

(** ** Lemmas *)

Lemma ident_reads p q : reads IDENT p q -> exists s, identifier s /\ text p = s +:+ text q /\ groups q = groups p.
Proof.
  inversion 1 as [| | |? ? ? ? Hq|? ? ? ? Hp| | | | |]; subst.
  - apply reads_then_inv in Hq as (x & Hx & (y & Hy & Hz)%reads_then_inv). inversion Hx as [|? c rest b gs Hc| | | | | | | |]; subst.
    apply reads_some in Hy as (d & s & Hd & Hs & Es & _ & Gs). inversion Hz as [|? e rest' b' gs' He| | | | | | | |]; subst.
    apply Ascii.eqb_eq in Hc, He. subst c e. cbn [text groups] in *. exists (dq +:+ String d s +:+ dq). split; [|split; [|done]].
    + left. exists (String d s). split; [done|]. split; [done|]. cbn [all_chars]. by rewrite Hd.
    + rewrite Es, !text_app_assoc. done.
  - apply reads_then_inv in Hp as (x & Hx & Hy). inversion Hx as [|? c rest b gs Hc| | | | | | | |]; subst.
    apply reads_run in Hy as (s & Hs & Es & _ & Gs). cbn in *. exists (String c s). split; [right; by exists c, s|]. by rewrite Es.
Qed.
Lemma column_reads p q : reads COLUMN p q ->
  exists table spelled, qualifier table /\ identifier spelled /\ text p = table +:+ (spelled +:+ text q) /\ groups q = (1%nat, spelled) :: groups p.
Proof.
  intros (x & Hx & (y & Hy & ->)%reads_group_inv)%reads_then_inv.
  assert (exists table, qualifier table /\ text p = table +:+ text x /\ groups x = groups p) as (table & Ht & Et & Gt).
  { apply reads_opt_inv in Hx as [(z & (s & Hs & Es & Gs)%ident_reads & (E & _ & G)%reads_lit)%reads_then_inv| ->]; [|by exists ""; split; [left|]].
    exists (s +:+ "."). split; [right; by exists s|]. by rewrite Es, E, text_app_assoc, <- Gs. }
  destruct (ident_reads _ _ Hy) as (s & Hs & Es & Gs). exists table, s. split_and!; [done|done| |].
  - by rewrite Et, Es.
  - cbn. by rewrite (between_app _ _ _ Es), Gs, Gt.
Qed.
Lemma column_found {k} clause p q : (p, q) ∈ match_all (Then (NotBehind attached) (Then COLUMN k)) clause ->
  exists x spelled, reads k x q /\ column_before (unquote spelled) (text x) clause /\ groups x = [(1%nat, spelled)].
Proof.
  intros (pre & Ec & Ep & (y & [-> Hz]%reads_zero_inv & (x & Hx & Hk)%reads_then_inv)%reads_then_inv)%match_all_spec.
  apply column_reads in Hx as (table & spelled & Ht & Hs & Et & Gt). exists x, spelled. rewrite Ep in Gt. split; [done|]. split; [|done].
  exists pre, table, spelled. rewrite <- Et. split_and!; [done|done|done|done|]. rewrite Ep in Hz. cbn in Hz.
  destruct (last_char None pre); [by apply negb_true_iff|done].
Qed.
Lemma elem_of_matchAll re s name : name ∈ matchAll re s <-> exists p q spelled, (p, q) ∈ match_all re s /\ group 1 q = Some spelled /\ name = unquote spelled.
Proof.
  unfold matchAll. rewrite list_elem_of_omap. split.
  - intros ([p q] & Hin & E). destruct (group 1 q) as [spelled|] eqn:G; [|done]. injection E as <-. by exists p, q, spelled.
  - intros (p & q & spelled & Hin & G & ->). exists (p, q). by rewrite G.
Qed.
Lemma equality_found clause name : name ∈ matchAll EQUALITY_RE clause -> bound_equal name clause.
Proof.
  intros (p & q & s & Hin & G & ->)%elem_of_matchAll. destruct (column_found _ _ _ Hin) as (x & spelled & Hk & Hc & Gx).
  apply reads_then_inv in Hk as (y & (ws & Hws & Ews & _ & Gy)%reads_run & (z & (Ez & _ & Gz)%reads_lit & Hk)%reads_then_inv).
  apply reads_then_inv in Hk as (u & (ws' & Hws' & Eu & _ & Gu)%reads_run & (v & (Ev & _ & Gv)%reads_lit & Hd)%reads_then_inv).
  apply reads_some in Hd as (d & ds & Hd & _ & Ed & _ & Gd). unfold group in G. rewrite Gd, Gv, Gu, Gz, Gy, Gx in G. injection G as <-.
  exists ws, ws', d, (ds +:+ text q). split_and!; [|done..]. by rewrite Ews, Ez, Eu, Ev, Ed in Hc.
Qed.

Lemma range_found clause name : name ∈ matchAll RANGE_RE clause -> bound_range name clause.
Proof.
  intros (p & q & s & Hin & G & ->)%elem_of_matchAll. destruct (column_found _ _ _ Hin) as (x & spelled & Hk & Hc & Gx).
  apply reads_then_inv in Hk as (y & (ws & Hws & Ews & _ & Gy)%reads_run & Hop).
  assert (exists op, text y = op +:+ text q /\ groups q = groups y /\ (op ∈ [">="; "<="; ">"; "<"] \/ toLowerCase op = "between")) as (op & Eop & Gop & Hop').
  { apply reads_one_of in Hop as (r & Hr & Hq); [|done]. rewrite !elem_of_cons in Hr. destruct Hr as [->|[->|[->|[->|[->|Hr]]]]].
    - apply reads_lit in Hq as (E & _ & G'). exists ">=". set_solver.
    - apply reads_lit in Hq as (E & _ & G'). exists "<=". set_solver.
    - apply reads_lit in Hq as (E & _ & G'). exists ">". set_solver.
    - apply reads_lit in Hq as (E & _ & G'). exists "<". set_solver.
    - apply reads_then_inv in Hq as (z & (w & Hw & E & _ & G')%any_case_reads & [-> _]%reads_zero_inv). exists w. auto.
    - by apply not_elem_of_nil in Hr. }
  unfold group in G. rewrite Gop, Gy, Gx in G. injection G as <-. rewrite Ews, Eop in Hc. destruct Hop' as [Hop'|Hop']; [|by exists ws, op, (text q); auto].
  destruct (decide (op = "<" /\ String.get 0 (text q) = Some ">"%char)) as [[-> Eg]|Hn]; [|by exists ws, op, (text q); split_and!; [..|left]; naive_solver].
  destruct (text q) as [|c rest]; [done|]. injection Eg as ->. exists ws, "<>", rest. split_and!; [exact Hc|done|auto].
Qed.

Lemma complex_word w s : w <> "" -> all_chars is_word w = true -> (exists W, W ∈ COMPLEX_WORDS /\ toLowerCase W = toLowerCase w) -> whole_word w s ->
  test COMPLEX s = true.
Proof.
  intros Hw Hc (W & HW & E) Hs. apply test_true.
  assert (test (one_of_words (Any_case <$> COMPLEX_WORDS)) s = true) as (pre & suf & q & Es & Hr)%test_true.
  { apply (word_found _ w); [done|done|done|]. intros b t. eexists. split; [|split].
    - apply reads_group, reads_one_of; [done|]. exists (Any_case W). split; [by apply list_elem_of_fmap_2|]. apply reads_matches.
      rewrite (any_case_yes W w) by done. apply list_elem_of_here.
    - done.
    - done. }
  exists pre, suf, q. split; [done|]. by apply reads_left.
Qed.
Lemma elem_of_columns name names : name ∈ columns names <-> name ∈ names /\ reserved name = false.
Proof. unfold columns. rewrite elem_of_distinct_strings, elem_of_filter_bool, negb_true_iff. done. Qed.
Lemma no_char_before b pre : is_some (last_char b pre) = false -> pre = "".
Proof.
  destruct pre as [|c pre]; [done|]. intros H. exfalso. change (is_some (last_char (Some c) pre) = false) in H. revert c H.
  induction pre as [|d pre IH]; intros c; [done|]. apply (IH d).
Qed.
Lemma select_found query : test SINGLE_TABLE query = true -> exists ws select rest, query = ws +:+ (select +:+ rest) /\ blank ws /\ toLowerCase select = "select".
Proof.
  intros (pre & suf & q & -> & Hr)%test_true. apply reads_then_inv in Hr as (x & [-> Hb]%reads_zero_inv & (y & (ws & Hws & Ey & _)%reads_run & Hr)%reads_then_inv).
  apply negb_true_iff, no_char_before in Hb as ->. apply reads_then_inv in Hr as (z & (w & Hw & Ez & _)%any_case_reads & _).
  exists ws, w, (text z). by rewrite <- Ez, <- Ey.
Qed.
Lemma sort_key_found part key : sort_key part = Some key ->
  exists ws table spelled rest, part = ws +:+ (table +:+ (spelled +:+ rest)) /\ blank ws /\ qualifier table /\ identifier spelled
    /\ sk_field key = unquote spelled /\ reserved (unquote spelled) = false /\ test (Lit "(") part = false.
Proof.
  unfold sort_key. destruct (test (Lit "(") part) eqn:Et; [done|]. destruct (exec SORT_RE part) as [[[pre p] q]|] eqn:E; [|done].
  cbn. destruct (group 1 q) as [name|] eqn:G; [|done]. cbn. destruct (reserved (unquote name)) eqn:R; [done|]. intros [= <-]. cbn [sk_field].
  destruct (exec_some _ _ _ _ _ E) as (Ep & Ea & Hr). apply reads_then_inv in Hr as (x & [-> Hb]%reads_zero_inv & (y & (ws & Hws & Ey & _ & Gy)%reads_run & Hr)%reads_then_inv).
  apply reads_then_inv in Hr as (z & (table & spelled & Ht & Hs & Ez & Gz)%column_reads & Ho).
  assert (group 1 q = Some spelled) as G'.
  { apply reads_opt_inv in Ho as [(u & (v & Hv & Hu)%reads_then_inv & ->)%reads_group_inv| ->].
    - apply reads_some in Hv as (? & ? & _ & _ & _ & _ & Gv). apply reads_one_of in Hu as (r & Hr & Hu); [|done].
      assert (groups u = groups v) as Gu by (rewrite !elem_of_cons in Hr; destruct Hr as [->|[->|[]%not_elem_of_nil]]; by apply any_case_reads in Hu as (? & _ & _ & _ & ?)).
      unfold group. cbn. by rewrite Gu, Gv, Gz.
    - unfold group. by rewrite Gz. }
  rewrite G in G'. injection G' as ->. exists ws, table, spelled, (text z).
  assert (pre = "") as -> by (rewrite Ea in Hb; by apply negb_true_iff, no_char_before in Hb).
  split_and!; try done. rewrite Ep. change ("" +:+ text p) with (text p). by rewrite Ey, Ez.
Qed.

(** ** Theorems *)

(** C33. What is read off a statement is in it. A shape comes from a SELECT with none of the
    words JOIN, UNION, INTERSECT, EXCEPT and WITH anywhere and no OR in its condition.
    Each of its equalities is a name of the condition, with no word, dot or bracket
    before it or its qualifier, and an equals sign and a parameter after it; each of its ranges is such
    a name with a sign of order after it, the sign of difference, which is read as a
    range, or BETWEEN, to which it may be glued; no name is in both, twice in one, or
    a reserved word; each sort key leads a part of the ORDER BY, between commas, with
    no bracket in it; a shape has one of the three; and its counts are those of the
    statement. That a name so read is a column of the table, and that the comparison
    is of the column alone, is not said: [pg_statement_misread] lists statements of
    which they do not hold. *)
Theorem pg_shape_sound (statement : NormalizedStatement) (shape : QueryShape) :
  shapeOf statement = Some shape ->
  let query := normalized (ns_query statement) in
  (exists ws select rest, query = ws +:+ (select +:+ rest) /\ blank ws /\ toLowerCase select = "select") /\
  (forall w, w <> "" -> all_chars is_word w = true -> whole_word w query -> toLowerCase w ∉ toLowerCase <$> COMPLEX_WORDS) /\
  (forall w, toLowerCase w = "or" -> ~ whole_word w (whereClause query)) /\
  (forall name, name ∈ equality shape -> bound_equal name (whereClause query) /\ reserved name = false) /\
  (forall name, name ∈ range shape -> bound_range name (whereClause query) /\ reserved name = false /\ name ∉ equality shape) /\
  NoDup (equality shape) /\ NoDup (range shape) /\
  (forall key, key ∈ sort shape -> exists part ws table spelled rest, part ∈ split_on "," (orderByClause query) /\ part = ws +:+ (table +:+ (spelled +:+ rest))
     /\ blank ws /\ qualifier table /\ identifier spelled /\ sk_field key = unquote spelled /\ reserved (sk_field key) = false /\ test (Lit "(") part = false) /\
  ~ (equality shape = [] /\ range shape = [] /\ sort shape = []) /\
  EngineTypes.count shape = ns_calls statement /\ docsExamined shape = Some (ns_rows statement) /\ collscan shape = false.
Proof.
  unfold shapeOf. set (query := normalized (ns_query statement)). cbn zeta. destruct (test SINGLE_TABLE query) eqn:Es; [|done].
  destruct (test COMPLEX query) eqn:Ec; [done|]. cbn [orb negb]. destruct (test (Word "OR") (whereClause query)) eqn:Eo; [done|].
  set (eqs := columns (matchAll EQUALITY_RE (whereClause query))). set (ranges := List.filter _ _). set (sorts := sortKeys (orderByClause query)).
  intros Hs. assert (equality shape = eqs /\ range shape = ranges /\ sort shape = sorts /\ ~ (eqs = [] /\ ranges = [] /\ sorts = []) /\
    EngineTypes.count shape = ns_calls statement /\ docsExamined shape = Some (ns_rows statement) /\ collscan shape = false) as (-> & -> & -> & Hne & Hcount).
  { destruct eqs, ranges, sorts; try discriminate Hs; injection Hs as <-; split_and!; try done; by intros (? & ? & ?). }
  split_and!; try done; try (by apply Hcount).
  - by apply select_found.
  - intros w Hw Hc Hin (W & E & HW)%list_elem_of_fmap. enough (test COMPLEX query = true) by congruence. apply (complex_word w); [done|done| |done]. by exists W.
  - intros w E Hin. enough (test (Word "OR") (whereClause query) = true) by congruence.
    assert (w <> "" /\ all_chars is_word w = true) as [Hn Hc].
    { destruct w as [|a [|b [|? ?]]]; try done. injection E as Ea Eb. split; [done|]. cbn [all_chars].
      assert (forall c d, lower_ascii c = d -> in_codes 97 122 d = true -> is_word c = true) as Hl.
      { intros c d <-. destruct c as [[] [] [] [] [] [] [] []]; vm_compute; done. }
      rewrite (Hl _ _ Ea), (Hl _ _ Eb); by vm_compute. }
    by apply (word_test "OR" w).
  - intros name [Hin Hr]%elem_of_columns. split; [by apply equality_found|done].
  - intros name. unfold ranges. rewrite elem_of_filter_bool, negb_true_iff, elem_of_columns. intros [[Hin Hr] He].
    split_and!; [by apply range_found|done|]. by intros Hx%includes_spec; rewrite Hx in He.
  - apply distinct_from_NoDup.
  - apply NoDup_ListNoDup, List.NoDup_filter, NoDup_ListNoDup, distinct_from_NoDup.
  - intros key. unfold sorts, sortKeys. destruct (String.eqb _ _); [by intros ?%not_elem_of_nil|]. intros (part & Hp & E)%list_elem_of_omap.
    destruct (sort_key_found _ _ E) as (ws & table & spelled & rest & Ep & Hw & Ht & Hi & Ef & Hr & Hb). exists part, ws, table, spelled, rest. by rewrite Ef.
Qed.

(** ** Statements *)

Definition stated (query : string) : NormalizedStatement := {| ns_query := query; ns_calls := 3; ns_rows := 9 |}.
Definition sample_statement : NormalizedStatement :=
  stated "SELECT * FROM sales.orders o WHERE o.customer_id = $1 AND lower(email) = $2 AND total BETWEEN $3 AND $4 ORDER BY created_at DESC LIMIT $5".
Definition sample_shape : QueryShape :=
  {| equality := ["customer_id"]; sort := [{| sk_field := "created_at"; sk_direction := Neg |}]; range := ["total"]; collscan := false;
     sortedInMemory := None; EngineTypes.count := 3; docsExamined := Some 9; observedForHours := None; clients := None; constants := None; lookups := None |}.

Lemma pg_shape_sound_witness :
  shapeOf sample_statement = Some sample_shape /\ bound_equal "customer_id" (whereClause (normalized (ns_query sample_statement)))
  /\ bound_range "total" (whereClause (normalized (ns_query sample_statement))) /\ ~ whole_word "or" (whereClause (normalized (ns_query sample_statement))).
Proof.
  assert (shapeOf sample_statement = Some sample_shape) as E by (vm_compute; reflexivity). split; [exact E|].
  destruct (pg_shape_sound sample_statement sample_shape E) as (_ & _ & Hor & He & Hr & _).
  split; [apply He; left|]. split; [apply Hr; left|]. by apply Hor.
Defined.

(** The columns, ranges and sort keys of a statement, as they are read. *)
Definition read_of (query : string) : option (list string * list string * list string) :=
  (fun shape => (equality shape, range shape, sk_field <$> sort shape)) <$> shapeOf (stated query).

(** What is not simple is not always refused. A column that must differ from a
    parameter, or whose name ends in between, is read as a range, the latter under a
    name cut short; a part of an arithmetic expression as its column; of two tables
    joined by a comma the columns of both as those of one; a later argument of a call
    as a sort key, and what follows an expression in an ORDER BY as what leads it;
    and a name that is not quoted keeps its capitals, which the server folds. *)
Theorem pg_statement_misread :
  read_of "SELECT * FROM t WHERE status <> $1" = Some ([], ["status"], []) /\
  read_of "SELECT * FROM t WHERE in_between = $1" = Some (["in_between"], ["in_"], []) /\
  read_of "SELECT * FROM t WHERE total - paid > $1" = Some ([], ["paid"], []) /\
  read_of "SELECT * FROM t, u WHERE t.id = u.id AND u.kind = $1" = Some (["kind"], [], []) /\
  read_of "SELECT * FROM t ORDER BY coalesce(a, b)" = Some ([], [], ["b"]) /\
  read_of "SELECT * FROM t ORDER BY lower(a), b" = Some ([], [], ["b"]) /\
  read_of "SELECT * FROM t WHERE Customer_ID = $1" = Some (["Customer_ID"], [], []).
Proof. by vm_compute. Qed.
