(* ===== verification/PgReads.v ===== *)
(** What the PostgreSQL collector reads: [apps/api/src/postgres/collector.ts] beside
    its listing of indexes ([Postgres] has that one), [health.ts], [members.ts] and
    the catalog reads of [connection.ts] in the same directory.

    What the server answers to each query is a parameter; the totals of
    [statementTotals] are computed here as its query computes them, over the rows of
    [pg_stat_statements].  A counter arrives as a number or as its digits, and null
    is 0. *)
From Stdlib Require Import Ascii.
From S2P Require Import Prelude EngineTypes Runs Snapshots Failures NetGuard SqlText Groups Suggest Purge Collect Postgres Regex PgShapes.

Local Open Scope string_scope.
Local Open Scope list_scope.

(** ** The server's answers *)

Record PgError := { px_code : option string; px_message : string }.
Record PostgresServerIdentity := {
  pi_member : string;
  pi_startedAt : string;
  pi_statsReset : option string;
  pi_inRecovery : bool;
  pi_version : option PostgresServerVersion;
}.
(** A row of [pg_stat_statements]; [total_exec_time] is in milliseconds. *)
Record PgStatement := { st_query : string; st_calls : Z; st_rows : option Z; st_totalExecTime : Q }.
Record HealthRow := {
  seq_scans : option Z; seq_rows : option Z; idx_rows : option Z; temp_files : option Z;
  lock_waits : option Z; write_waits : option Z; buffers_mb : option Z;
}.
Record PgReads := {
  serverIdentity : PgError + PostgresServerIdentity;
  table_names : string -> PgError + list string;
  usage_rows : string -> string -> string -> PgError + list (string * option Z);
  last_used_rows : string -> string -> string -> PgError + list (string * option string);
  size_rows : string -> string -> string -> PgError + list (string * option Z);
  storage_rows : string -> string -> string -> PgError + list (option Z * option Z);
  statement_rows : string -> PgError + list PgStatement;
  health_rows : PgError + list HealthRow;
  replica_rows : PgError + list (option string);
  database_rows : PgError + list string;
  user_tables : string -> PgError + list bool;
}.

(** ** Failures *)

Definition INACCESSIBLE_CODES : list string := ["3D000"; "28000"; "28P01"; "42501"].
Definition isDatabaseInaccessible (error : PgError) : bool :=
  match px_code error with Some code => includes INACCESSIBLE_CODES code | None => false end.
Definition inaccessible (database : string) : read_error :=
  DatabaseInaccessibleError ("no access to database " +:+ database +:+ " with these credentials").
Definition guarded {A} (database : string) (read : PgError + A) : read_error + A :=
  match read with
  | inl error => inl (if isDatabaseInaccessible error then inaccessible database else ReadError (px_message error))
  | inr answer => inr answer
  end.
(** A read outside the classifier. *)
Definition plain {A} (read : PgError + A) : read_error + A :=
  match read with inl error => inl (ReadError (px_message error)) | inr answer => inr answer end.

Definition ref_of (ref : string * string) : regex := Then (Any_case (fst ref)) (Then (Lit ".") (Any_case (snd ref))).
(** The names are escaped, so each is matched as it is written. *)
Definition attributesTo (query : string) (ref : string * string) : bool :=
  test (Then Boundary (Then (Opt (Then (Any_case (fst ref)) (Lit "."))) (Then (Any_case (snd ref)) Boundary))) query.

Definition READ_PREFIXES : list string := ["SELECT"; "WITH"; "TABLE"].
Definition WRITE_PREFIXES : list string := ["INSERT"; "UPDATE"; "DELETE"; "MERGE"; "COPY"; "TRUNCATE"].

Section reads.
Context (server : PgReads).

Definition pg_version : option PostgresServerVersion := match serverIdentity server with inl _ => None | inr identity => pi_version identity end.

(** ** The reads of one table *)

Definition pg_listCollectionNames (database : string) : read_error + list string := guarded database (table_names server database).
Definition pg_collectUsage (database collection : string) : read_error + list (string * string * Z * string) :=
  let '(schema, table) := splitTableRef collection in
  let! identity := plain (serverIdentity server) in
  let since := pi_statsReset identity ?? pi_startedAt identity in
  let! rows := guarded database (usage_rows server database schema table) in
  inr ((fun '(index_name, ops) => (index_name, pi_member identity, ops ?? 0, since)) <$> rows).
Definition collectLastUsed (database collection : string) : read_error + list (string * string) :=
  match pg_version with
  | None => inr []
  | Some version =>
      if negb (postgresHasLastIdxScan version) then inr []
      else
        let '(schema, table) := splitTableRef collection in
        let! rows := guarded database (last_used_rows server database schema table) in
        inr (fold_left (fun used '(index_name, last_used) => match last_used with Some at_ => map_put index_name at_ used | None => used end) rows [])
  end.
Definition pg_indexSizes (database collection : string) : read_error + list (string * Z) :=
  let '(schema, table) := splitTableRef collection in
  let! rows := guarded database (size_rows server database schema table) in
  inr (fold_left (fun sizes '(index_name, bytes) => map_put index_name (bytes ?? 0) sizes) rows []).
Definition pg_collectionStorage (database collection : string) : read_error + Z * Z :=
  let '(schema, table) := splitTableRef collection in
  let! rows := guarded database (storage_rows server database schema table) in
  inr match head rows with None => (0, 0) | Some (bytes, live) => (bytes ?? 0, live ?? 0) end.

(** ** Latency *)

(** [query ~* ('\m' || name || '\M') and upper(btrim(query)) like any (prefixes)]. *)
Fixpoint toUpperCase (s : string) : string :=
  match s with
  | EmptyString => EmptyString
  | String c s => String (if in_codes 97 122 c then Ascii.ascii_of_nat (Ascii.nat_of_ascii c - 32) else c) (toUpperCase s)
  end.
Fixpoint ltrim (s : string) : string := match s with String c rest => if char " " c then ltrim rest else s | EmptyString => s end.
Definition statement_of (ref : string * string) (prefixes : list string) (row : PgStatement) : bool :=
  test (Then Word_start (Then (ref_of ref) Word_end)) (st_query row) &&
  existsb (fun prefix => String.prefix prefix (toUpperCase (ltrim (st_query row)))) prefixes.
Record PgLatency := { pl_ops : Z; pl_latencyMicros : Q }.
Definition statementTotals (database collection : string) (prefixes : list string) : read_error + PgLatency :=
  let ref := splitTableRef collection in
  let! rows := guarded database (statement_rows server database) in
  let mine := List.filter (statement_of ref prefixes) rows in
  inr {| pl_ops := zsum st_calls mine; pl_latencyMicros := (qsum st_totalExecTime mine * 1000)%Q |}.
Definition readLatency (database collection : string) : read_error + PgLatency := statementTotals database collection READ_PREFIXES.
Definition pg_collectionLatency (database collection : string) : read_error + PgLatency * PgLatency :=
  let! reads := statementTotals database collection READ_PREFIXES in
  let! writes := statementTotals database collection WRITE_PREFIXES in
  inr (reads, writes).

(** ** Statements *)

Definition statementsFor (database : string) : read_error + list NormalizedStatement :=
  match guarded database (statement_rows server database) with
  | inl (DatabaseInaccessibleError message) => inl (DatabaseInaccessibleError message)
  | inl (ReadError _) => inr []
  | inr rows =>
      inr ((fun row => {| ns_query := st_query row; ns_calls := st_calls row; ns_rows := st_rows row ?? 0 |}) <$>
           List.filter (fun row => (0 <? st_calls row)%Z) rows)
  end.
(** [target.database] and [target.collection]. *)
Definition target_shapes (statements : list NormalizedStatement) (target : string * string) : list QueryShape :=
  omap (fun statement => if attributesTo (ns_query statement) (splitTableRef (snd target)) then shapeOf statement else None) statements.
Definition put_target (statements : list NormalizedStatement) (shapes : list (string * list QueryShape)) (target : string * string) :
    list (string * list QueryShape) :=
  match target_shapes statements target with [] => shapes | found => map_put (workloadKey (fst target) (snd target)) found shapes end.
Definition pg_workload_group (shapes : read_error + list (string * list QueryShape)) (group : string * list (string * string)) :
    read_error + list (string * list QueryShape) :=
  let! shapes := shapes in
  match statementsFor (fst group) with
  | inl (DatabaseInaccessibleError _) => inr shapes
  | inl error => inl error
  | inr statements => inr (fold_left (put_target statements) (snd group) shapes)
  end.
Definition pg_collectWorkload (targets : list (string * string)) : read_error + list (string * list QueryShape) :=
  fold_left pg_workload_group (bucketed fst targets) (inr []).
Definition pg_collectDeletePatterns (database collection : string) : read_error + list PurgePattern :=
  let ref := splitTableRef collection in
  let! statements := statementsFor database in
  inr (omap (fun statement => if attributesTo (ns_query statement) ref then deletePatternOf statement else None) statements).
Definition pg_collectHintedIndexes : list string := [].
Definition pg_collectFailedOps : FailedOpsReading := NO_SOURCE "PostgreSQL keeps no per-table record of failed statements".
Definition pg_collectSlowQueries : list QueryShape := [].

(** ** The server *)

Definition collectPostgresHealth : option ServerHealth :=
  match health_rows server with
  | inl _ => None
  | inr rows =>
      (fun row =>
         {| collectionScans := seq_scans row ?? 0; scannedObjects := seq_rows row ?? 0; scannedKeys := idx_rows row ?? 0;
            scanAndOrder := temp_files row ?? 0; queuedReaders := lock_waits row ?? 0; queuedWriters := write_waits row ?? 0;
            residentMb := buffers_mb row ?? 0 |}) <$> head rows
  end.
Definition collectPostgresNodes : option (list ClusterNode) :=
  match serverIdentity server with
  | inl _ => None
  | inr identity =>
      let self := {| nd_host := pi_member identity; nd_role := if pi_inRecovery identity then secondary else primary; nd_state := answered |} in
      if pi_inRecovery identity then Some [self]
      else
        match replica_rows server with
        | inl _ => None
        | inr replicas =>
            Some (self :: omap (fun host =>
              let host := trim (host ?? "") in
              if String.eqb host "" then None else Some {| nd_host := host; nd_role := secondary; nd_state := refused |}) replicas)
        end
  end.

Definition DEFAULT_DATABASE : string := "postgres".
(** The pool a database is asked through: the empty key where the string names it. *)
Definition keyFor (named : option string) (database : string) : string := if bool_decide (named = Some database) then "" else database.
Definition holdsUserTables (database : string) : bool :=
  match user_tables server database with inl _ => false | inr rows => head rows ?? false end.
Definition pg_listDatabaseNames (named : option string) : read_error + list string :=
  let! names := plain (database_rows server) in
  if negb (includes names DEFAULT_DATABASE) then inr names
  else if holdsUserTables (keyFor named DEFAULT_DATABASE) then inr names
  else inr (List.filter (fun name => negb (String.eqb name DEFAULT_DATABASE)) names).
End reads.

(** ** Notions the theorems are stated with *)

Definition target_key (target : string * string) : string := workloadKey (fst target) (snd target).
(** What a table of its own would be answered. *)
Definition shapes_wanted (server : PgReads) (target : string * string) : option (list QueryShape) :=
  match statementsFor server (fst target) with
  | inl _ => None
  | inr statements => match target_shapes statements target with [] => None | found => Some found end
  end.
(** The workload read holds exactly what the targets handled so far would be answered. *)
Definition answers (server : PgReads) (targets : list (string * string)) (shapes : list (string * list QueryShape)) : Prop :=
  forall k found, map_get k shapes = Some found <-> exists target, target ∈ targets /\ target_key target = k /\ shapes_wanted server target = Some found.
(** The failures the read is made for: no access, and no [pg_stat_statements]. *)
Definition foreseen (error : PgError) : Prop := isDatabaseInaccessible error = true \/ px_code error = Some "42P01".
Definition is_fraction (q : Q) : Prop := forall z : Z, ~ (inject_Z z == q)%Q.

(** ** Lemmas *)

Lemma foreseen_answers server d error : foreseen error -> statement_rows server d = inl error ->
  (exists message, statementsFor server d = inl message) \/ statementsFor server d = inr [].
Proof. intros _ E. unfold statementsFor. rewrite E. cbn [guarded]. destruct (isDatabaseInaccessible error); [left; by eexists|by right]. Qed.

Section workload.
Context (server : PgReads) (targets : list (string * string))
  (Hkeys : forall t t', t ∈ targets -> t' ∈ targets -> target_key t = target_key t' -> t = t').

Lemma put_target_answers statements seen shapes t : seen ⊆ targets -> t ∈ targets -> statementsFor server (fst t) = inr statements ->
  answers server seen shapes -> answers server (seen ++ [t]) (put_target statements shapes t).
Proof.
  intros Hs Ht Est Ha k found. unfold answers in Ha.
  assert (shapes_wanted server t = match target_shapes statements t with [] => None | found => Some found end) as Ew by (unfold shapes_wanted; by rewrite Est).
  unfold put_target. destruct (target_shapes statements t) as [|x xs] eqn:E.
  - rewrite Ha. split; intros (t' & Ht' & Ek & Hw); exists t'; (split; [|done]); [set_solver|].
    apply elem_of_app in Ht' as [| ->%list_elem_of_singleton]; [done|congruence].
  - rewrite map_get_put. change (workloadKey t.1 t.2) with (target_key t). destruct (String.eqb_spec (target_key t) k) as [<-|Hne].
    + split; [intros [= <-]; exists t; set_solver|]. intros (t' & Ht' & Ek & Hw).
      assert (t' = t) as -> by (apply Hkeys; [set_solver|done|done]). congruence.
    + rewrite Ha. split; intros (t' & Ht' & Ek & Hw); exists t'; (split; [|done]); [set_solver|].
      apply elem_of_app in Ht' as [| ->%list_elem_of_singleton]; [done|congruence].
Qed.
Lemma put_targets_answers statements ts : forall seen shapes, seen ⊆ targets -> ts ⊆ targets ->
  (forall t, t ∈ ts -> statementsFor server (fst t) = inr statements) -> answers server seen shapes ->
  answers server (seen ++ ts) (fold_left (put_target statements) ts shapes).
Proof.
  induction ts as [|t ts IH]; intros seen shapes Hs Hts Hst Ha; [by rewrite app_nil_r|]. cbn [fold_left].
  rewrite (cons_middle t seen ts), app_assoc. apply IH; [set_solver|set_solver|set_solver|]. apply put_target_answers; set_solver.
Qed.
Lemma groups_answers groups : forall seen shapes, seen ⊆ targets ->
  (forall d ts, (d, ts) ∈ groups -> ts ⊆ targets /\ forall t, t ∈ ts -> fst t = d) -> answers server seen shapes ->
  exists shapes', fold_left (pg_workload_group server) groups (inr shapes) = inr shapes' /\ answers server (seen ++ mjoin (snd <$> groups)) shapes'.
Proof.
  induction groups as [|[d ts] groups IH]; intros seen shapes Hs Hg Ha; [exists shapes; by rewrite app_nil_r|].
  destruct (Hg d ts) as [Hts Hd]; [left|]. cbn [fold_left]. assert (mjoin (snd <$> (d, ts) :: groups) = ts ++ mjoin (snd <$> groups)) as -> by done.
  rewrite app_assoc. unfold pg_workload_group at 2. cbn [fst snd]. unfold statementsFor at 1.
  assert (forall t, t ∈ ts -> statementsFor server (fst t) = statementsFor server d) as Hst by (intros t Ht; by rewrite (Hd t Ht)).
  destruct (statementsFor server d) as [[message|message]|statements] eqn:E; unfold statementsFor in E; rewrite E.
  - apply IH; [set_solver|intros; apply Hg; by right|]. intros k found. unfold answers in Ha. rewrite Ha.
    split; intros (t & Ht & Ek & Hw); exists t; (split; [|done]); [set_solver|]. apply elem_of_app in Ht as [|Ht]; [done|].
    unfold shapes_wanted in Hw. rewrite (Hst t Ht) in Hw. done.
  - destruct (guarded d _) as [[]|]; done.
  - apply IH; [set_solver|intros; apply Hg; by right|]. by apply put_targets_answers.
Qed.
End workload.

(** ** Theorems *)

(** C34. One read of every table's workload is a read of each, where each database
    answers, cannot be entered with the credentials, or lacks the extension: the read
    answers; it has an entry for exactly the tables that have a shape, with the shapes
    a read of that table alone would give; and a database that does not answer costs
    its own tables only. What any other failure means is left out: the code answers
    it as it does a missing extension, where a comment has it end the pass. *)
Theorem pg_workload_exact (server : PgReads) (targets : list (string * string)) :
  (forall t t', t ∈ targets -> t' ∈ targets -> target_key t = target_key t' -> t = t') ->
  (forall t error, t ∈ targets -> statement_rows server (fst t) = inl error -> foreseen error) ->
  exists shapes, pg_collectWorkload server targets = inr shapes /\
    (forall k found, map_get k shapes = Some found <->
       exists target, target ∈ targets /\ target_key target = k /\ shapes_wanted server target = Some found) /\
    (forall target, target ∈ targets -> (exists error, statement_rows server (fst target) = inl error) -> map_get (target_key target) shapes = None).
Proof.
  intros Hkeys Hforeseen. unfold pg_collectWorkload.
  destruct (groups_answers server targets Hkeys (bucketed fst targets) [] []) as (shapes & E & Ha).
  - set_solver.
  - intros d ts Hin. rewrite bucketed_exact in Hin. apply list_elem_of_fmap in Hin as (k & [= -> ->] & _).
    split; [by intros t [? _]%elem_of_filter_bool|]. intros t [_ Ht]%elem_of_filter_bool. by apply String.eqb_eq.
  - intros k found. split; [done|]. by intros (t & Ht%not_elem_of_nil & _).
  - assert (forall t, t ∈ mjoin (snd <$> bucketed fst targets) <-> t ∈ targets) as Hm.
    { intros t. rewrite bucketed_exact, list_elem_of_join. split.
      - intros (ts & Ht & (g & -> & (k & -> & _)%list_elem_of_fmap)%list_elem_of_fmap). by apply elem_of_filter_bool in Ht as [? _].
      - intros Ht. exists (group_of fst (fst t) targets). split; [apply elem_of_filter_bool; by rewrite String.eqb_refl|].
        rewrite <- list_fmap_compose. apply list_elem_of_fmap. exists (fst t). split; [done|]. by apply elem_of_distinct_strings, list_elem_of_fmap_2. }
    exists shapes. split; [done|]. split.
    + intros k found. unfold answers in Ha. rewrite Ha. cbn [app]. by setoid_rewrite Hm.
    + intros t Ht (error & Et). destruct (map_get (target_key t) shapes) as [found|] eqn:Eg; [|done].
      apply Ha in Eg as (t' & Ht' & Ek & Hw). cbn [app] in Ht'. rewrite Hm in Ht'. rewrite (Hkeys t' t Ht' Ht Ek) in Hw.
      unfold shapes_wanted in Hw. by destruct (foreseen_answers _ _ _ (Hforeseen _ _ Ht Et) Et) as [(message & E')|E']; rewrite E' in Hw.
Qed.

Lemma prefix_first a x s : String.prefix (String a x) s = true -> exists s', s = String a s' /\ String.prefix x s' = true.
Proof. destruct s as [|b s]; [done|]. cbn [String.prefix]. destruct (ascii_dec a b) as [->|]; [|done]. intros H. by exists s. Qed.
Lemma one_kind ref row : statement_of ref READ_PREFIXES row = true -> statement_of ref WRITE_PREFIXES row = false.
Proof.
  unfold statement_of. destruct (test _ _); [|done]. cbn [andb]. generalize (toUpperCase (ltrim (st_query row))) as s. intros s Hr.
  destruct (existsb _ WRITE_PREFIXES) eqn:Hw; [|done]. exfalso. unfold READ_PREFIXES, WRITE_PREFIXES in *. cbn [existsb] in Hr, Hw.
  rewrite orb_false_r in Hr, Hw. repeat (apply orb_true_iff in Hr as [Hr|Hr] || idtac); repeat (apply orb_true_iff in Hw as [Hw|Hw] || idtac);
  apply prefix_first in Hr as (s1 & -> & Hr); apply prefix_first in Hw as (s2 & [=] & Hw); subst;
  apply prefix_first in Hr as (s1 & -> & Hr); apply prefix_first in Hw as (s2' & [=] & Hw).
Qed.
Lemma split_sum (f g : PgStatement -> bool) rows : (forall r, f r = true -> g r = false) -> (forall r, r ∈ rows -> 0 <= st_calls r) ->
  zsum st_calls (List.filter f rows) + zsum st_calls (List.filter g rows) <= zsum st_calls rows.
Proof.
  intros Hd Hc. induction rows as [|r rows IH]; [done|]. assert (0 <= st_calls r) by (apply Hc; left). specialize (IH ltac:(intros; apply Hc; by right)).
  cbn [List.filter]. destruct (f r) eqn:Ef; [rewrite (Hd r Ef)|destruct (g r)]; rewrite ?zsum_cons; lia.
Qed.

(** Of the statements of a store each counts once: what is read as reads and what is
    read as writes of a table are of different statements that name it, and together
    no more than the store holds. *)
Theorem pg_latency_split (server : PgReads) (database collection : string) (rows : list PgStatement) (reads_ writes : PgLatency) :
  statement_rows server database = inr rows -> (forall r, r ∈ rows -> 0 <= st_calls r) ->
  pg_collectionLatency server database collection = inr (reads_, writes) ->
  pl_ops reads_ + pl_ops writes <= zsum st_calls rows /\
  pl_ops reads_ = zsum st_calls (List.filter (statement_of (splitTableRef collection) READ_PREFIXES) rows) /\
  (forall r, statement_of (splitTableRef collection) READ_PREFIXES r = true -> statement_of (splitTableRef collection) WRITE_PREFIXES r = false).
Proof.
  intros Er Hc. unfold pg_collectionLatency, statementTotals. rewrite Er. cbn [guarded]. intros [= <- <-]. cbn [pl_ops]. split; [|split; [done|]].
  - apply split_sum; [|done]. intros r. apply one_kind.
  - intros r. apply one_kind.
Qed.

(** ** A server in memory *)

Definition no_answer {A} : PgError + A := inl {| px_code := Some "42P01"; px_message := "relation does not exist" |}.
Definition sealed {A} : PgError + A := inl {| px_code := Some "28000"; px_message := "no access" |}.
Definition statement (query : string) (calls : Z) (ms : Q) : PgStatement := {| st_query := query; st_calls := calls; st_rows := Some calls; st_totalExecTime := ms |}.
Definition sample_statements : list PgStatement :=
  [statement "SELECT * FROM sales.orders WHERE customer_id = $1 ORDER BY created_at DESC" 40 (5 # 2)%Q;
   statement "UPDATE sales.orders SET status = $1 WHERE id = $2" 7 3%Q;
   statement "SELECT 1" 3 (1 # 4096)%Q;
   statement "SELECT * FROM sales.orders o WHERE o.total > $1" 2 (1 # 4096)%Q].
Definition sample_server : PgReads :=
  {| serverIdentity := no_answer; table_names := fun _ => no_answer; usage_rows := fun _ _ _ => no_answer; last_used_rows := fun _ _ _ => no_answer;
     size_rows := fun _ _ _ => no_answer; storage_rows := fun _ _ _ => no_answer;
     statement_rows := fun d => if String.eqb d "shop" then inr sample_statements else if String.eqb d "vault" then sealed else no_answer;
     health_rows := no_answer; replica_rows := no_answer; database_rows := no_answer; user_tables := fun _ => no_answer |}.
Definition sample_targets : list (string * string) := [("shop", "sales.orders"); ("vault", "public.keys"); ("shop", "sales.lines"); ("plain", "public.t")].

Lemma pg_workload_exact_witness :
  exists shapes, pg_collectWorkload sample_server sample_targets = inr shapes /\
    map_get (target_key ("vault", "public.keys")) shapes = None /\
    exists found, map_get (target_key ("shop", "sales.orders")) shapes = Some found /\ length found = 2%nat.
Proof.
  destruct (pg_workload_exact sample_server sample_targets) as (shapes & E & Ha & Hn).
  - intros t t' Ht Ht'. unfold sample_targets in Ht, Ht'. rewrite !elem_of_cons, elem_of_nil in Ht, Ht'.
    destruct Ht as [->|[->|[->|[->|[]]]]], Ht' as [->|[->|[->|[->|[]]]]]; try done; intros [=].
  - intros t error Ht. unfold sample_targets in Ht. rewrite !elem_of_cons, elem_of_nil in Ht.
    destruct Ht as [->|[->|[->|[->|[]]]]]; intros [= <-]; [left|right]; done.
  - exists shapes. split; [exact E|]. split.
    + apply Hn; [right; left|]. eexists. vm_compute. reflexivity.
    + eexists. split; [apply Ha; exists ("shop", "sales.orders"); split; [left|split; [done|vm_compute; reflexivity]]|done].
Defined.
Lemma pg_latency_split_witness :
  exists r w, pg_collectionLatency sample_server "shop" "sales.orders" = inr (r, w) /\ pl_ops r = 42 /\ pl_ops w = 7 /\ pl_ops r + pl_ops w <= 52.
Proof.
  eexists. eexists. split; [vm_compute; reflexivity|]. split; [done|]. split; [done|].
  apply (pg_latency_split sample_server "shop" "sales.orders" sample_statements); [done| |vm_compute; reflexivity].
  intros r Hr. unfold sample_statements in Hr. rewrite !elem_of_cons, elem_of_nil in Hr. destruct Hr as [->|[->|[->|[->|[]]]]]; done.
Defined.

(** The time of a table's statements is not a whole number of microseconds, and
    nothing rounds it: the column it is stored in holds integers. *)
Theorem pg_latency_fractional :
  exists r w, pg_collectionLatency sample_server "shop" "sales.orders" = inr (r, w) /\ is_fraction (pl_latencyMicros r).
Proof.
  eexists. eexists. split; [vm_compute; reflexivity|]. intros z E. unfold Qeq in E. change (z * 8192 = 20482000 * 1) in E. lia.
Qed.
