(* ===== verification/UrlText.v ===== *)
(** What the connection strings of the engines share: the texts of a URL
    ([encodeURIComponent], [decodeURIComponent], [URLSearchParams]), [Number] of a
    text and the ports read with it, and [TlsOverrides], what the owner agreed to of
    the transport ([apps/api/src/engine/ports.ts]).

    A text is UTF-8, so that to encode a character is to encode its bytes.
    [decodeURIComponent] throws where an escape is not two hexadecimal digits or
    what is escaped is not UTF-8: its answer is then [None].  [URLSearchParams]
    never throws: an escape that is none stays as it is, and bytes that are not
    UTF-8 are kept where JavaScript has a replacement character. *)
From Stdlib Require Import Ascii.
From S2P Require Import Prelude NetGuard SqlText Regex.

Local Open Scope string_scope.
Local Open Scope list_scope.

(** ** Escapes *)

Definition percent : ascii := "%".
Definition hex_char (n : Z) : ascii := Ascii.ascii_of_nat (Z.to_nat (if (n <? 10)%Z then 48 + n else 55 + n)).
(** A byte as an escape. *)
Definition escape (c : ascii) (rest : string) : string := String percent (String (hex_char (code c / 16)) (String (hex_char (code c mod 16)) rest)).
Definition escaped (s : string) : option (ascii * string) :=
  match s with
  | String p (String a (String b rest)) =>
      if char percent p then
        match hex_value a, hex_value b with
        | Some x, Some y => Some (Ascii.ascii_of_nat (Z.to_nat (x * 16 + y)), rest)
        | _, _ => None
        end
      else None
  | _ => None
  end.
Fixpoint encode_with (kept : ascii -> bool) (s : string) : string :=
  match s with EmptyString => EmptyString | String c s => if kept c then String c (encode_with kept s) else escape c (encode_with kept s) end.
Definition alphanumeric (c : ascii) : bool := is_digit c || in_codes 65 90 c || in_codes 97 122 c.
(** The characters a component of a URI may hold. *)
Definition unreserved (c : ascii) : bool := alphanumeric c || existsb (Ascii.eqb c) ["-"; "_"; "."; "!"; "~"; "*"; "'"; "("; ")"]%char.
Definition encodeURIComponent : string -> string := encode_with unreserved.

(** ** UTF-8 *)

(** The bytes that may follow the first byte of a character. *)
Definition continuations (c : ascii) : option (list (Z * Z)) :=
  let lead := code c in
  if (lead <? 128)%Z then Some []
  else if in_codes 194 223 c then Some [(128, 191)]
  else if in_codes 224 224 c then Some [(160, 191); (128, 191)]
  else if in_codes 237 237 c then Some [(128, 159); (128, 191)]
  else if in_codes 225 239 c then Some [(128, 191); (128, 191)]
  else if in_codes 240 240 c then Some [(144, 191); (128, 191); (128, 191)]
  else if in_codes 241 243 c then Some [(128, 191); (128, 191); (128, 191)]
  else if in_codes 244 244 c then Some [(128, 143); (128, 191); (128, 191)]
  else None.
(** The rest of a character, each byte in its range, read by [next]. *)
Fixpoint following (next : string -> option (ascii * string)) (ranges : list (Z * Z)) (s : string) : option (string * string) :=
  match ranges with
  | [] => Some ("", s)
  | (lo, hi) :: ranges =>
      '(c, s) ← next s;
      if in_codes lo hi c then '(cs, s) ← following next ranges s; Some (String c cs, s) else None
  end.
Definition next_byte (s : string) : option (ascii * string) := match s with String c s => Some (c, s) | EmptyString => None end.

Fixpoint decode_from (fuel : nat) (s : string) : option string :=
  match fuel, s with
  | _, EmptyString => Some ""
  | O, _ => None
  | S fuel, String c rest =>
      if char percent c then
        '(lead, rest) ← escaped s;
        ranges ← continuations lead;
        '(cs, rest) ← following escaped ranges rest;
        decoded ← decode_from fuel rest;
        Some (String lead cs +:+ decoded)
      else decoded ← decode_from fuel rest; Some (String c decoded)
  end.
Definition decodeURIComponent (s : string) : option string := decode_from (String.length s) s.

(** Well-formed UTF-8. *)
Inductive utf8 : string -> Prop :=
| utf8_nil : utf8 ""
| utf8_char c cs rest ranges : continuations c = Some ranges -> following next_byte ranges (cs +:+ rest) = Some (cs, rest) -> utf8 rest ->
    utf8 (String c (cs +:+ rest)).

(** ** [URLSearchParams] *)

(** The first piece of a text before a character, and what follows it. *)
Definition cut (c : ascii) (s : string) : string * option string :=
  match at_first c s with Some (before_, after) => (before_, Some after) | None => (s, None) end.
Fixpoint form_decode (fuel : nat) (s : string) : string :=
  match fuel, s with
  | _, EmptyString => ""
  | O, _ => s
  | S fuel, String c rest =>
      if char "+" c then String " " (form_decode fuel rest)
      else match escaped s with
           | Some (b, rest) => String b (form_decode fuel rest)
           | None => String c (form_decode fuel rest)
           end
  end.
Definition form_text (s : string) : string := form_decode (String.length s) s.
Definition form_entry (part : string) : string * string :=
  let '(name, value) := cut "=" part in (form_text name, form_text (value ?? "")).
(** [new URLSearchParams(query)], as its entries. *)
Definition parse_query (query : string) : list (string * string) :=
  form_entry <$> List.filter (fun part => negb (String.eqb part "")) (split_on "&" query).
Definition form_kept (c : ascii) : bool := alphanumeric c || existsb (Ascii.eqb c) ["*"; "-"; "."; "_"]%char.
Fixpoint form_encode (s : string) : string :=
  match s with
  | EmptyString => EmptyString
  | String c s => if char " " c then String "+" (form_encode s) else if form_kept c then String c (form_encode s) else escape c (form_encode s)
  end.
Definition print_query (entries : list (string * string)) : string :=
  join "&" ((fun '(name, value) => form_encode name +:+ "=" +:+ form_encode value) <$> entries).

(** [search.delete], [search.set], and every spelling of a key taken out. *)
Definition search_delete (key : string) : list (string * string) -> list (string * string) :=
  List.filter (fun '(name, _) => negb (String.eqb name key)).
Fixpoint search_set (key value : string) (entries : list (string * string)) : list (string * string) :=
  match entries with
  | [] => [(key, value)]
  | (name, old) :: entries => if String.eqb name key then (key, value) :: search_delete key entries else (name, old) :: search_set key value entries
  end.
Definition drop_param (key : string) (entries : list (string * string)) : list (string * string) :=
  foldl (fun kept existing => if String.eqb (toLowerCase existing) key then search_delete existing kept else kept) entries (fst <$> entries).

(** ** What the owner agreed to *)

Record TlsOverrides := { allowInvalidCertificates : bool; allowInvalidHostnames : bool; insecure : bool }.
Definition NO_TLS_OVERRIDES : TlsOverrides := {| allowInvalidCertificates := false; allowInvalidHostnames := false; insecure := false |}.

(** ** Numbers *)

(** [Number(text)] as the exact number the text writes, [None] for what is none
    or is infinite. *)
Definition scaled (digits exponent : Z) : Q :=
  if (0 <=? exponent)%Z then inject_Z (digits * 10 ^ exponent) else Qmake digits (Z.to_pos (10 ^ (- exponent))).
Definition signed (s : string) : bool * string :=
  match s with String c rest => if char "-" c then (true, rest) else if char "+" c then (false, rest) else (false, s) | EmptyString => (false, s) end.
Definition exponent_part (s : string) : option Z :=
  match s with
  | EmptyString => Some 0%Z
  | String e rest =>
      if char "e" e || char "E" e then
        let '(negative, rest) := signed rest in
        let '(run, after) := run_of is_digit rest in
        if String.eqb run "" || negb (String.eqb after "") then None
        else Some (if negative then (- digits_value run 0)%Z else digits_value run 0)
      else None
  end.
Definition unsigned (s : string) : option Q :=
  let '(whole, rest) := run_of is_digit s in
  let '(fraction, rest) := match rest with String c after => if char "." c then run_of is_digit after else ("", rest) | EmptyString => ("", rest) end in
  if String.eqb (whole +:+ fraction) "" then None
  else e ← exponent_part rest; Some (scaled (digits_value (whole +:+ fraction) 0) (e - Z.of_nat (String.length fraction))).
Fixpoint based_from (base : Z) (s : string) (value : Z) : option Z :=
  match s with
  | EmptyString => Some value
  | String c s => d ← hex_value c; if (d <? base)%Z then based_from base s (value * base + d) else None
  end.
Definition based (base : Z) (s : string) : option Q := if String.eqb s "" then None else inject_Z <$> based_from base s 0.
Definition Number (s : string) : option Q :=
  let s := trim s in
  if String.eqb s "" then Some 0%Q
  else match s with
       | String z (String x rest) =>
           if char "0" z && same_letter "x" x then based 16 rest
           else if char "0" z && same_letter "o" x then based 8 rest
           else if char "0" z && same_letter "b" x then based 2 rest
           else let '(negative, rest) := signed s in if negative then Qopp <$> unsigned rest else unsigned rest
       | _ => unsigned s
       end.
(** The nearest double of a positive number, ties to even: 53 digits in base 2. *)
Definition round_div (a b : Z) : Z :=
  let q := (a / b)%Z in
  let twice := (2 * (a mod b))%Z in
  if (twice <? b)%Z then q else if (b <? twice)%Z then (q + 1)%Z else if Z.even q then q else (q + 1)%Z.
Definition double (q : Q) : Q :=
  let n := Qnum q in
  let d := Zpos (Qden q) in
  let k := (Z.log2 n - Z.log2 d)%Z in
  let k := if (d * 2 ^ Z.max 0 k <=? n * 2 ^ Z.max 0 (- k))%Z then k else (k - 1)%Z in
  let shift := (52 - k)%Z in
  if (0 <=? shift)%Z then Qmake (round_div (n * 2 ^ shift) d) (Z.to_pos (2 ^ shift))
  else inject_Z (round_div n (d * 2 ^ (- shift)) * 2 ^ (- shift)).
(** [Number(raw)] where it is an integer above zero; an absent text is NaN. *)
Definition positive_integer (raw : option string) : option Z :=
  q ← raw ≫= Number;
  if (0 <? Qnum q)%Z then
    let n := double q in
    let whole := (Qnum n / Zpos (Qden n))%Z in
    if (Qnum n mod Zpos (Qden n) =? 0)%Z && (0 <? whole)%Z then Some whole else None
  else None.
(** [Number.isInteger(port) && port > 0 && port < 65536 ? port : missing]. *)
Definition port_or (missing : Z) (raw : option string) : Z :=
  match positive_integer raw with Some port => if (port <? 65536)%Z then port else missing | None => missing end.

(** [text.length]: two for a character of four bytes. *)
Fixpoint js_length (s : string) : Z :=
  match s with
  | EmptyString => 0
  | String c s => ((if in_codes 128 191 c then 0 else if (240 <=? code c)%Z then 2 else 1) + js_length s)%Z
  end.

(** ** Lemmas *)

Lemma code_bound c : 0 <= code c < 256.
Proof. by destruct c as [[] [] [] [] [] [] [] []]. Qed.
Lemma escape_read c rest : escaped (escape c rest) = Some (c, rest).
Proof. unfold escape, escaped. by destruct c as [[] [] [] [] [] [] [] []]. Qed.
Lemma escape_percent c rest : exists s, escape c rest = String percent s.
Proof. by eexists. Qed.
Lemma continuations_high c ranges : continuations c = Some ranges -> Forall (fun r => (128 <= r.1)%Z) ranges.
Proof.
  unfold continuations. repeat match goal with |- context [if ?b then _ else _] => destruct b end; intros [= <-]; repeat constructor; cbn; lia.
Qed.

Section encoding.
Context (kept : ascii -> bool) (Hkept : forall c, kept c = true -> c <> percent /\ (code c < 128)%Z).

Lemma encode_cons c s : encode_with kept (String c s) = if kept c then String c (encode_with kept s) else escape c (encode_with kept s).
Proof. done. Qed.
Lemma encode_app s t : encode_with kept (s +:+ t) = encode_with kept s +:+ encode_with kept t.
Proof.
  induction s as [|c s IH]; [done|]. change (String c s +:+ t) with (String c (s +:+ t)). rewrite !encode_cons, IH. by destruct (kept c).
Qed.
Lemma following_encoded ranges : Forall (fun r => (128 <= r.1)%Z) ranges -> forall cs rest,
  following next_byte ranges (cs +:+ rest) = Some (cs, rest) -> following escaped ranges (encode_with kept (cs +:+ rest)) = Some (cs, encode_with kept rest).
Proof.
  induction 1 as [|[lo hi] ranges Hlo _ IH]; intros cs rest; cbn [following]; [by intros [= <-]|].
  destruct cs as [|c cs].
  - change ("" +:+ rest) with rest. destruct rest as [|c rest]; [done|]. cbn. destruct (in_codes lo hi c); [|done]. destruct (following next_byte ranges rest) as [[]|]; done.
  - change (String c cs +:+ rest) with (String c (cs +:+ rest)). cbn [next_byte mbind option_bind]. destruct (in_codes lo hi c) eqn:E; [|done].
    destruct (following next_byte ranges (cs +:+ rest)) as [[cs' rest']|] eqn:Ef; [|done]. cbn [mbind option_bind]. intros [= -> ->].
    assert (kept c = false) as Hk.
    { apply not_true_is_false. intros Hk%Hkept. unfold in_codes in E. apply andb_true_iff in E as [E _]. apply Z.leb_le in E. cbn in Hlo. lia. }
    rewrite encode_cons, Hk, escape_read. cbn [mbind option_bind]. rewrite E, (IH _ _ Ef). done.
Qed.
(** What was encoded decodes to itself. *)
Lemma decode_encoded s : utf8 s -> forall fuel, (String.length (encode_with kept s) <= fuel)%nat -> decode_from fuel (encode_with kept s) = Some s.
Proof.
  induction 1 as [|c cs rest ranges Hc Hf _ IH]; intros fuel Hfuel; [by destruct fuel|].
  rewrite encode_cons in *. destruct (kept c) eqn:Ek.
  - destruct (Hkept c Ek) as [Hp Hlow]. assert (ranges = []) as -> by (unfold continuations in Hc; rewrite (proj2 (Z.ltb_lt _ _) Hlow) in Hc; by injection Hc).
    cbn [following] in Hf. injection Hf as <-. change ("" +:+ rest) with rest in *. destruct fuel as [|fuel]; [cbn in Hfuel; lia|]. cbn [decode_from].
    assert (char percent c = false) as -> by (apply Ascii.eqb_neq; congruence). rewrite IH by (cbn in Hfuel; lia). done.
  - destruct fuel as [|fuel]; [cbn in Hfuel; lia|]. destruct (escape_percent c (encode_with kept (cs +:+ rest))) as (s' & Es). rewrite Es. cbn [decode_from].
    change (char percent percent) with true. cbn [mbind option_bind]. rewrite <- Es, escape_read. cbn [mbind option_bind]. rewrite Hc. cbn [mbind option_bind].
    rewrite (following_encoded ranges (continuations_high _ _ Hc) cs rest Hf). cbn [mbind option_bind]. rewrite IH; [done|].
    unfold escape in Hfuel. cbn [String.length] in Hfuel. rewrite encode_app, text_append_length in Hfuel. lia.
Qed.
End encoding.

Lemma unreserved_kept c : unreserved c = true -> c <> percent /\ (code c < 128)%Z.
Proof. destruct c as [[] [] [] [] [] [] [] []]; vm_compute; done. Qed.
Lemma component_decodes s : utf8 s -> decodeURIComponent (encodeURIComponent s) = Some s.
Proof. intros Hs. unfold decodeURIComponent. apply (decode_encoded unreserved unreserved_kept s Hs). done. Qed.
(** A component holds none of the characters that end one. *)
Lemma hex_plain n : (0 <= n < 16)%Z -> unreserved (hex_char n) = true.
Proof.
  intros H. assert (Forall (fun k => unreserved (hex_char k) = true) (seqZ 0 16)) as Hall by (vm_compute; repeat constructor).
  rewrite Forall_forall in Hall. by apply Hall, elem_of_seqZ.
Qed.
Lemma escape_chars f c rest : f percent = true -> (forall d, unreserved d = true -> f d = true) -> all_chars f (escape c rest) = all_chars f rest.
Proof.
  intros Hp Hf. unfold escape. cbn [all_chars]. pose proof (code_bound c). rewrite Hp, !Hf; [done| |]; apply hex_plain.
  - apply Z.mod_pos_bound. lia.
  - split; [apply Z.div_pos; lia|]. apply Z.div_lt_upper_bound; lia.
Qed.
Lemma component_chars s : all_chars (fun c => unreserved c || char percent c) (encodeURIComponent s) = true.
Proof.
  induction s as [|c s IH]; [done|]. unfold encodeURIComponent in *. rewrite encode_cons. destruct (unreserved c) eqn:E.
  - cbn [all_chars]. by rewrite E, IH.
  - rewrite escape_chars; [done|done|]. by intros d ->.
Qed.

(** *** A text before a character *)

Definition no_char (c : ascii) : ascii -> bool := fun d => negb (Ascii.eqb d c).
Lemma at_first_part c a b : all_chars (no_char c) a = true -> at_first c (a +:+ String c b) = Some (a, b).
Proof.
  induction a as [|d a IH]; [intros _; change ("" +:+ String c b) with (String c b); cbn [at_first]; by rewrite Ascii.eqb_refl|].
  change (String d a +:+ String c b) with (String d (a +:+ String c b)). cbn [all_chars at_first]. intros [Hd Ha]%andb_true_iff.
  unfold no_char in Hd. apply negb_true_iff in Hd. by rewrite Hd, (IH Ha).
Qed.
Lemma at_first_no c s : all_chars (no_char c) s = true -> at_first c s = None.
Proof.
  induction s as [|d s IH]; [done|]. cbn [all_chars at_first]. intros [Hd Ha]%andb_true_iff. unfold no_char in Hd. apply negb_true_iff in Hd. by rewrite Hd, (IH Ha).
Qed.
Lemma at_first_some c s a b : at_first c s = Some (a, b) -> s = a +:+ String c b /\ all_chars (no_char c) a = true.
Proof.
  revert a. induction s as [|d s IH]; intros a; cbn [at_first]; [done|]. destruct (Ascii.eqb d c) eqn:E.
  - intros [= <- <-]. by apply Ascii.eqb_eq in E as ->.
  - destruct (at_first c s) as [[x y]|]; [|done]. intros [= <- <-]. destruct (IH _ eq_refl) as [-> H]. split; [done|]. cbn [all_chars]. unfold no_char at 1. by rewrite E.
Qed.
Lemma at_first_none c s : at_first c s = None -> all_chars (no_char c) s = true.
Proof.
  induction s as [|d s IH]; [done|]. cbn [at_first all_chars]. unfold no_char at 1. destruct (Ascii.eqb d c) eqn:E; [done|].
  destruct (at_first c s) as [[x y]|]; [done|]. intros _. by rewrite IH.
Qed.

(** *** The query *)

Lemma form_kept_plain c : form_kept c = true -> unreserved c = true \/ c = "*"%char.
Proof. destruct c as [[] [] [] [] [] [] [] []]; vm_compute; auto. Qed.
Lemma form_decode_encode s : forall fuel, (String.length (form_encode s) <= fuel)%nat -> form_decode fuel (form_encode s) = s.
Proof.
  induction s as [|c s IH]; intros fuel Hf; [by destruct fuel|]. cbn [form_encode] in *.
  destruct (char " " c) eqn:Es; [|destruct (form_kept c) eqn:Ek]; destruct fuel as [|fuel]; try (cbn in Hf; lia).
  - apply Ascii.eqb_eq in Es as <-. cbn [form_decode]. change (char "+" "+") with true. cbn [String.length] in Hf. cbn match. rewrite IH by lia. done.
  - cbn [form_decode String.length] in *. assert (char "+" c = false /\ escaped (String c (form_encode s)) = None) as [-> ->].
    { unfold char, escaped. destruct (form_encode s) as [|? [|]]; destruct c as [[] [] [] [] [] [] [] []]; vm_compute in Ek; try discriminate Ek; done. }
    rewrite IH by lia. done.
  - unfold escape in *. cbn [form_decode String.length] in *. change (char "+" percent) with false. cbn match. fold (escape c (form_encode s)). rewrite escape_read.
    rewrite IH by lia. done.
Qed.
Lemma form_text_encode s : form_text (form_encode s) = s.
Proof. by apply form_decode_encode. Qed.
Definition form_char (c : ascii) : bool := form_kept c || char "+" c || char percent c.
Lemma form_chars s : all_chars form_char (form_encode s) = true.
Proof.
  induction s as [|c s IH]; [done|]. cbn [form_encode]. destruct (char " " c); [|destruct (form_kept c) eqn:E].
  - cbn [all_chars]. by rewrite IH.
  - cbn [all_chars]. unfold form_char at 1. by rewrite E, IH.
  - unfold escape. cbn [all_chars]. rewrite IH, andb_true_r. by destruct c as [[] [] [] [] [] [] [] []].
Qed.
Lemma form_free c s : form_char c = false -> all_chars (no_char c) (form_encode s) = true.
Proof.
  intros Hc. apply (all_chars_impl form_char); [|apply form_chars]. intros d Hd. unfold no_char. apply negb_true_iff, Ascii.eqb_neq. congruence.
Qed.
Definition form_pair (e : string * string) : string := form_encode e.1 +:+ "=" +:+ form_encode e.2.
Lemma form_entry_pair e : form_entry (form_pair e) = e.
Proof.
  destruct e as [k v]. unfold form_entry, form_pair, cut. cbn [fst snd].
  change (form_encode k +:+ "=" +:+ form_encode v) with (form_encode k +:+ String "=" (form_encode v)). rewrite at_first_part by by apply form_free.
  cbv beta iota delta [default id]. by rewrite !form_text_encode.
Qed.
Lemma split_join c l : l <> [] -> Forall (fun s => all_chars (no_char c) s = true) l -> split_on (String c "") (join (String c "") l) = l.
Proof.
  assert (forall s, all_chars (no_char c) s = true -> all_chars (not_char (String c "")) s = true) as Hno.
  { intros s. apply all_chars_impl. intros d Hd. unfold no_char, is_char in *. apply negb_true_iff in Hd. apply negb_true_iff.
    apply String.eqb_neq. intros [= ->]. by rewrite Ascii.eqb_refl in Hd. }
  intros Hn H. induction H as [|x l Hx Hl IH]; [done|]. destruct l as [|y l]; [cbn [join]; by apply split_on_whole, Hno|].
  change (join (String c "") (x :: y :: l)) with (x +:+ String c (join (String c "") (y :: l))). rewrite split_on_part by by apply Hno. by rewrite IH.
Qed.
Lemma one_free c d : d <> c -> all_chars (no_char c) (String d "") = true.
Proof. intros H. cbn [all_chars]. unfold no_char. by rewrite (proj2 (Ascii.eqb_neq _ _) H). Qed.
Lemma form_pair_free c e : form_char c = false -> c <> "="%char -> all_chars (no_char c) (form_pair e) = true.
Proof.
  intros Hc He. unfold form_pair. rewrite !all_chars_app, !form_free by done. by rewrite one_free by congruence.
Qed.
Lemma print_query_pairs l : print_query l = join "&" (form_pair <$> l).
Proof. unfold print_query. f_equal. apply list_fmap_ext. by intros ? []. Qed.
(** What is printed reads back, whatever it holds. *)
Lemma query_reads l : parse_query (print_query l) = l.
Proof.
  rewrite print_query_pairs. unfold parse_query. destruct l as [|e l]; [done|]. rewrite split_join; [|done|].
  - rewrite forallb_filter_id.
    + rewrite <- list_fmap_compose. rewrite <- (list_fmap_id (e :: l)) at 2. apply list_fmap_ext. intros _ x _. apply form_entry_pair.
    + apply forallb_forall. intros x (y & -> & _)%list_elem_of_In%list_elem_of_fmap. unfold form_pair. destruct (form_encode y.1); done.
  - apply Forall_fmap, Forall_true. intros x. by apply form_pair_free.
Qed.
Lemma join_free c d l : d <> c -> Forall (fun s => all_chars (no_char c) s = true) l -> all_chars (no_char c) (join (String d "") l) = true.
Proof.
  intros Hd. induction 1 as [|x l Hx Hl IH]; [done|]. destruct l as [|y l]; [done|].
  change (join (String d "") (x :: y :: l)) with (x +:+ String d "" +:+ join (String d "") (y :: l)). by rewrite !all_chars_app, Hx, IH, one_free.
Qed.
Lemma join_in sep x l : x ∈ l -> exists pre suf, join sep l = pre +:+ x +:+ suf /\ (pre = "" \/ exists front, pre = front +:+ sep).
Proof.
  induction l as [|y l IH]; [by intros ?%not_elem_of_nil|]. intros [->|Hin]%elem_of_cons.
  - destruct l as [|z l]; [exists "", ""; split; [by rewrite text_app_nil|by left]|]. exists "", (sep +:+ join sep (z :: l)). split; [done|by left].
  - destruct (IH Hin) as (pre & suf & E & Hpre). destruct l as [|z l]; [by apply not_elem_of_nil in Hin|].
    change (join sep (y :: z :: l)) with (y +:+ sep +:+ join sep (z :: l)). rewrite E.
    exists (y +:+ sep +:+ pre), suf. split; [by rewrite !text_app_assoc|]. right. destruct Hpre as [->|[front ->]].
    + exists y. by rewrite text_app_nil.
    + exists (y +:+ sep +:+ front). by rewrite !text_app_assoc.
Qed.
Lemma print_query_free c l : form_char c = false -> c <> "="%char -> c <> "&"%char -> all_chars (no_char c) (print_query l) = true.
Proof.
  intros Hc He Ha. rewrite print_query_pairs. apply join_free; [congruence|]. apply Forall_fmap, Forall_true. intros x. by apply form_pair_free.
Qed.

Lemma search_set_new key value l : (forall e, e ∈ l -> e.1 <> key) -> search_set key value l = l ++ [(key, value)].
Proof.
  induction l as [|[k v] l IH]; intros H; [done|]. cbn [search_set]. destruct (String.eqb_spec k key) as [->|_].
  - exfalso. apply (H (key, v)); [left|done].
  - cbn. rewrite IH; [done|]. intros e He. apply H. by right.
Qed.
Lemma filter_filter {A} (f g : A -> bool) l : List.filter f (List.filter g l) = List.filter (fun x => g x && f x) l.
Proof. induction l as [|x l IH]; [done|]. cbn. destruct (g x); cbn; [|by rewrite IH]. destruct (f x); by rewrite IH. Qed.
Lemma drop_param_filter key l : drop_param key l = List.filter (fun '(name, _) => negb (String.eqb (toLowerCase name) key)) l.
Proof.
  unfold drop_param.
  assert (forall names acc, foldl (fun kept existing => if String.eqb (toLowerCase existing) key then search_delete existing kept else kept) acc names =
    List.filter (fun e : string * string => negb (existsb (fun name => String.eqb (toLowerCase name) key && String.eqb e.1 name) names)) acc) as H.
  { induction names as [|n names IH]; intros acc; cbn [foldl existsb].
    - by rewrite forallb_filter_id by by apply forallb_forall.
    - rewrite IH. destruct (String.eqb (toLowerCase n) key) eqn:E; [|done]. unfold search_delete. rewrite filter_filter. apply List.filter_ext. intros [k v]. cbn. by rewrite negb_orb. }
  rewrite H. apply filter_ext_in. intros [k v] Hin%list_elem_of_In. cbn [fst]. f_equal. apply eq_true_iff_eq. rewrite existsb_exists. split.
  - intros (n & _ & [Hn Hk]%andb_true_iff). apply String.eqb_eq in Hk. by subst.
  - intros Hk. exists k. split; [|by rewrite Hk, String.eqb_refl]. apply list_elem_of_In, list_elem_of_fmap. by exists (k, v).
Qed.

(** *** Ports *)

Definition digits (s : string) : bool := all_chars is_digit s.
Lemma pretty_char_code n : (n < 10)%N -> code (pretty_N_char n) = (48 + Z.of_N n)%Z.
Proof.
  intros H. assert (forallb (fun k => Z.eqb (code (pretty_N_char (N.of_nat k))) (48 + Z.of_nat k)) (seq 0 10) = true) as Hall by (vm_compute; reflexivity).
  rewrite forallb_forall in Hall. specialize (Hall (N.to_nat n)). rewrite N2Nat.id, Z.eqb_eq, N_nat_Z in Hall. apply Hall, in_seq. lia.
Qed.
Lemma pretty_char_digit n : is_digit (pretty_N_char n) = true.
Proof. unfold pretty_N_char. by destruct n as [|[[[[?|?|]|[?|?|]|]|[[?|?|]|[?|?|]|]|]|[[[?|?|]|[?|?|]|]|[[?|?|]|[?|?|]|]|]|]]. Qed.
Lemma digits_value_app s v : digits_value s v = (v * 10 ^ Z.of_nat (String.length s) + digits_value s 0)%Z.
Proof.
  revert v. induction s as [|c s IH]; intros v; [cbn; lia|]. cbn [digits_value String.length]. rewrite IH, (IH (0 * 10 + _)%Z).
  rewrite Nat2Z.inj_succ, Z.pow_succ_r by lia. ring.
Qed.
Lemma pretty_go_value x : forall s, digits s = true ->
  digits (pretty_N_go x s) = true /\ digits_value (pretty_N_go x s) 0 = (Z.of_N x * 10 ^ Z.of_nat (String.length s) + digits_value s 0)%Z.
Proof.
  induction (N.lt_wf_0 x) as [x _ IH]; intros s Hs. assert (x = 0 \/ 0 < x)%N as [->|Hx] by lia.
  - rewrite pretty_N_go_0. split; [done|]. lia.
  - rewrite pretty_N_go_step by done. destruct (IH (x `div` 10)%N ltac:(by apply N.div_lt) (String (pretty_N_char (x `mod` 10)) s)) as [-> ->].
    { unfold digits in *. cbn [all_chars]. by rewrite pretty_char_digit, Hs. }
    split; [done|]. cbn [digits_value String.length]. rewrite digits_value_app, pretty_char_code by (apply N.mod_lt; lia).
    rewrite Nat2Z.inj_succ, Z.pow_succ_r by lia. rewrite N2Z.inj_div, N2Z.inj_mod. pose proof (Z.div_mod (Z.of_N x) 10). lia.
Qed.
Lemma show_digits n : (0 < n)%Z -> digits (show n) = true /\ digits_value (show n) 0 = n /\ show n <> "".
Proof.
  intros Hn. destruct n as [|p|p]; try lia. change (show (Zpos p)) with (pretty (Npos p)). unfold pretty, pretty_N. rewrite decide_False by done.
  destruct (pretty_go_value (Npos p) "" eq_refl) as [Hd Hv]. split; [done|]. split; [by rewrite Hv; cbn; lia|].
  intros E. rewrite E in Hv. cbn in Hv. lia.
Qed.
Lemma trim_start_kept s : all_chars (fun c => negb (is_space c)) s = true -> trim_start s = s.
Proof. destruct s as [|c s]; [done|]. cbn [all_chars trim_start]. by intros [->%negb_true_iff _]%andb_true_iff. Qed.
Lemma trim_end_kept s : all_chars (fun c => negb (is_space c)) s = true -> trim_end s = s.
Proof.
  induction s as [|c s IH]; [done|]. cbn [all_chars trim_end]. intros [Hc%negb_true_iff Hs]%andb_true_iff. rewrite (IH Hs), Hc. by destruct s.
Qed.
Lemma trim_kept s : all_chars (fun c => negb (is_space c)) s = true -> trim s = s.
Proof. intros H. unfold trim. by rewrite trim_start_kept, trim_end_kept. Qed.
Lemma run_all f s : all_chars f s = true -> run_of f s = (s, "").
Proof. induction s as [|c s IH]; [done|]. cbn [all_chars run_of]. intros [-> H]%andb_true_iff. by rewrite IH. Qed.
Lemma digit_not c d : is_digit c = true -> is_digit d = false -> char d c = false.
Proof. intros Hc Hd. apply Ascii.eqb_neq. congruence. Qed.
Lemma letter_not_digit x c : is_digit c = true -> In x ["x"; "o"; "b"]%char -> same_letter x c = false.
Proof. intros Hc Hx. destruct Hx as [<-|[<-|[<-|[]]]]; destruct c as [[] [] [] [] [] [] [] []]; vm_compute in Hc; try discriminate Hc; done. Qed.
Lemma Number_digits s : digits s = true -> s <> "" -> Number s = Some (inject_Z (digits_value s 0)).
Proof.
  intros Hs Hn. unfold Number. rewrite trim_kept.
  2: { eapply all_chars_impl; [|exact Hs]. intros c Hc. by destruct c as [[] [] [] [] [] [] [] []]; vm_compute in Hc; try discriminate Hc. }
  destruct (String.eqb_spec s "") as [|_]; [done|].
  assert (unsigned s = Some (inject_Z (digits_value s 0))) as Hu.
  { unfold unsigned. rewrite run_all by done. rewrite text_app_nil. destruct (String.eqb_spec s ""); [done|]. cbn [exponent_part mbind option_bind].
    unfold scaled. cbn [String.length]. change (0 <=? 0 - Z.of_nat 0)%Z with true. cbn match. change (10 ^ (0 - Z.of_nat 0))%Z with 1%Z. by rewrite Z.mul_1_r. }
  destruct s as [|z [|x rest]]; [done|done|]. unfold digits in Hs. pose proof Hs as Hs'. cbn [all_chars] in Hs'. apply andb_true_iff in Hs' as [Hz [Hx _]%andb_true_iff].
  rewrite !letter_not_digit by (done || (cbn; tauto)). rewrite !andb_false_r. unfold signed. by rewrite !digit_not.
Qed.
Lemma double_integer n : (0 < n < 2 ^ 53)%Z -> exists s, (0 <= s)%Z /\ double (inject_Z n) = Qmake (n * 2 ^ s) (Z.to_pos (2 ^ s)).
Proof.
  intros Hn. unfold double. change (Qnum (inject_Z n)) with n. change (Zpos (Qden (inject_Z n))) with 1%Z. change (Z.log2 1) with 0%Z.
  rewrite Z.sub_0_r. pose proof (Z.log2_spec n ltac:(lia)) as [Hlo Hhi]. pose proof (Z.log2_nonneg n).
  rewrite Z.max_r, Z.max_l by lia. rewrite (proj2 (Z.leb_le (1 * 2 ^ Z.log2 n) (n * 2 ^ 0))) by lia.
  assert (Z.log2 n < 53)%Z by (apply Z.log2_lt_pow2; lia).
  rewrite (proj2 (Z.leb_le 0 (52 - Z.log2 n))) by lia. exists (52 - Z.log2 n)%Z. split; [lia|]. f_equal. unfold round_div. by rewrite Z.mod_1_r, Z.div_1_r.
Qed.
Lemma port_reads missing n : (0 < n < 65536)%Z -> port_or missing (Some (show n)) = n.
Proof.
  intros Hn. destruct (show_digits n ltac:(lia)) as (Hd & Hv & Hne). unfold port_or, positive_integer. cbn [mbind option_bind]. rewrite Number_digits, Hv by done.
  cbn [mbind option_bind]. change (Qnum (inject_Z n)) with n. rewrite (proj2 (Z.ltb_lt 0 n)) by lia. destruct (double_integer n ltac:(lia)) as (s & Hs & ->). cbn [Qnum Qden].
  rewrite Z2Pos.id by lia. rewrite Z.mod_mul, Z.div_mul by lia. cbn [Z.eqb andb]. rewrite !(proj2 (Z.ltb_lt _ _)) by lia. done.
Qed.
Lemma port_bounds missing raw : (0 < missing < 65536)%Z -> (0 < port_or missing raw < 65536)%Z.
Proof.
  intros Hm. unfold port_or, positive_integer. destruct (raw ≫= Number) as [q|]; [|done]. cbn [mbind option_bind]. destruct (0 <? Qnum q)%Z; [|done].
  destruct (_ && _) eqn:E; [|done]. rewrite andb_true_iff, Z.ltb_lt in E. destruct (_ <? 65536)%Z eqn:E'; [|done]. apply Z.ltb_lt in E'. lia.
Qed.
