(* ===== verification/SqlConn.v ===== *)
(** The connection strings of SQL Server: [apps/api/src/mssql/conn-string.ts], and
    what [apps/api/src/mssql/client.ts] asks of one and configures the driver with.

    The WHATWG [URL] of the first form is a parameter, seen as what the code reads of
    it and the setters it calls; the ADO form is modelled in full.  A malformed escape
    in a URL makes [decodeURIComponent] throw ([None]). *)
From Stdlib Require Import Ascii.
From S2P Require Import Prelude NetGuard SqlText SqlServer Regex UrlText PgConn.

Local Open Scope string_scope.
Local Open Scope list_scope.

Definition DEFAULT_MSSQL_PORT : Z := 1433.
Inductive MssqlForm := url_form | ado_form.
#[global] Instance MssqlForm_eq_dec : EqDecision MssqlForm.
Proof. solve_decision. Defined.
Record ParsedMssqlConnString := {
  ms_form : MssqlForm;
  ms_host : string;
  ms_port : Z;
  ms_database : string;
  ms_user : string;
  ms_password : string;
  ms_params : gmap string string
}.

(** *** The URL of the platform *)

(** What the code reads of a URL. *)
Record UrlView := {
  protocol : string; hostname : string; url_port : string; pathname : string; username : string; url_password : string;
  searchParams : list (string * string)
}.
Class UrlApi := {
  Url : Type;
  new_URL : string -> option Url;
  url_view : Url -> UrlView;
  set_hostname : string -> Url -> Url;
  set_port : string -> Url -> Url;
  set_username : string -> Url -> Url;
  set_password : string -> Url -> Url;
  set_search : list (string * string) -> Url -> Url;
  url_toString : Url -> string
}.
(** A URL begins with its scheme, white space and control characters aside. *)
Definition before_scheme (c : ascii) : bool := alphanumeric c || existsb (Ascii.eqb c) ["+"; "-"; "."]%char || (code c <=? 32)%Z.
Class UrlLaws `{UrlApi} := {
  url_has_scheme value url : new_URL value = Some url -> exists a rest, value = a +:+ String ":" rest /\ all_chars before_scheme a = true
}.

Section conn_string.
Context `{UrlApi}.

(** ** The string as read *)

(** [/^(mssql|sqlserver):$/i]. *)
Definition URL_SCHEMES (text : string) : bool := existsb (String.eqb (toLowerCase text)) ["mssql:"; "sqlserver:"].
Inductive AdoAlias := ado_server | ado_database | ado_user | ado_password.
#[global] Instance AdoAlias_eq_dec : EqDecision AdoAlias.
Proof. solve_decision. Defined.
Definition SERVER_KEYS : list string := ["server"; "data source"; "address"; "addr"; "network address"].
Definition ADO_ALIASES (key : string) : option AdoAlias :=
  if existsb (String.eqb key) SERVER_KEYS then Some ado_server
  else if existsb (String.eqb key) ["database"; "initial catalog"] then Some ado_database
  else if existsb (String.eqb key) ["user id"; "uid"; "user"] then Some ado_user
  else if existsb (String.eqb key) ["password"; "pwd"] then Some ado_password
  else None.

Definition without_protocol (value : string) : string :=
  match strip_case "tcp:" value with
  | Some (_, rest) => rest
  | None => match strip_case "np:" value with
            | Some (_, rest) => rest
            | None => match strip_case "lpc:" value with Some (_, rest) => rest | None => value end
            end
  end.
Definition splitAdoServer (value : string) : string * Z :=
  let parts := split_on "," (without_protocol value) in
  (trim (head parts ?? ""), port_or DEFAULT_MSSQL_PORT (parts !! 1%nat)).

Fixpoint split_ado (s current : string) (braced : bool) : list string :=
  match s with
  | EmptyString => [current]
  | String c s =>
      if char ";" c && negb braced then current :: split_ado s "" braced
      else split_ado s (current +:+ String c "") (if char "{" c then true else if char "}" c then false else braced)
  end.
Definition splitAdoSegments (value : string) : list string := split_ado value "" false.

(** A value without the quoting of ADO. *)
Definition ado_unquoted (raw : string) : string :=
  let wrapped (front back : ascii) := inner ← between front back raw; if one_line inner then Some inner else None in
  match wrapped "{" "}" with
  | Some inner => inner
  | None => match wrapped double_quote double_quote with Some inner => inner | None => raw end
  end%char.
Definition ado_value (entry : string) : string := ado_unquoted (trim entry).
Record AdoFields := { a_server : string * Z; a_database : string; a_user : string; a_password : string; a_params : gmap string string }.
Definition no_ado : AdoFields := {| a_server := ("", DEFAULT_MSSQL_PORT); a_database := ""; a_user := ""; a_password := ""; a_params := ∅ |}.
Definition read_ado (fields : AdoFields) (segment : string) : AdoFields :=
  let '{| a_server := server; a_database := database; a_user := user; a_password := password; a_params := params |} := fields in
  match segment_parts segment with
  | None => fields
  | Some (key, entry) =>
      let unquoted := ado_value entry in
      match ADO_ALIASES key with
      | Some ado_server => {| a_server := splitAdoServer unquoted; a_database := database; a_user := user; a_password := password; a_params := params |}
      | Some ado_database => {| a_server := server; a_database := unquoted; a_user := user; a_password := password; a_params := params |}
      | Some ado_user => {| a_server := server; a_database := database; a_user := unquoted; a_password := password; a_params := params |}
      | Some ado_password => {| a_server := server; a_database := database; a_user := user; a_password := unquoted; a_params := params |}
      | None => {| a_server := server; a_database := database; a_user := user; a_password := password; a_params := <[key := unquoted]> params |}
      end
  end.
(** [/(^|;)\s*(server|data source|address|addr|network address)\s*=/i]. *)
Definition SERVER_KEY : regex :=
  Then (Or Begin (One (char ";"))) (Then (Many (One is_space)) (Then (One_of (Any_case <$> SERVER_KEYS)) (Then (Many (One is_space)) (One (char "="))))).
Definition ado_connection (fields : AdoFields) : option ParsedMssqlConnString :=
  let '(host, port) := a_server fields in
  if String.eqb host "" then None
  else Some {| ms_form := ado_form; ms_host := host; ms_port := port; ms_database := a_database fields; ms_user := a_user fields;
               ms_password := a_password fields; ms_params := a_params fields |}.
Definition parseAdo (value : string) : option ParsedMssqlConnString :=
  if test SERVER_KEY value then ado_connection (foldl read_ado no_ado (splitAdoSegments value)) else None.

Definition urlOf (value : string) : option Url :=
  url ← new_URL value;
  if negb (URL_SCHEMES (protocol (url_view url))) then None
  else if String.eqb (hostname (url_view url)) "" then None
  else Some url.
Definition parseUrl (value : string) : option (option ParsedMssqlConnString) :=
  match urlOf value with
  | None => Some None
  | Some url =>
      let view := url_view url in
      host ← decodeURIComponent (hostname view);
      database ← decodeURIComponent (match pathname view with String c rest => if char "/" c then rest else pathname view | EmptyString => "" end);
      user ← decodeURIComponent (username view);
      password ← decodeURIComponent (url_password view);
      Some (Some {| ms_form := url_form; ms_host := host; ms_port := positive_integer (Some (url_port view)) ?? DEFAULT_MSSQL_PORT; ms_database := database;
                    ms_user := user; ms_password := password; ms_params := params_from ∅ (searchParams view) |})
  end.
Definition parseMssqlConnString (value : string) : option (option ParsedMssqlConnString) :=
  if (js_length value =? 0)%Z || (4096 <? js_length value)%Z then Some None
  else parsed ← parseUrl value; Some (match parsed with Some parsed => Some parsed | None => parseAdo value end).
Definition isMssqlConnString (value : string) : option bool := is_some <$> parseMssqlConnString value.
(** [mssqlHosts(value).hosts]; [isSrv] is always false. *)
Definition mssqlHosts (value : string) : option (list string) :=
  parsed ← parseMssqlConnString value;
  Some (match parsed with Some parsed => [ms_host parsed +:+ ":" +:+ show (ms_port parsed)] | None => [] end).

(** ** Rewriting *)

(** The segments that are kept: those with something in them, and whose key is none
    of those refused. *)
Definition keeps_ado (refused : string -> bool) (segment : string) : bool :=
  match segment_parts segment with Some (key, _) => negb (refused key) | None => negb (String.eqb (trim segment) "") end.
Definition kept_ado (refused : string -> bool) (value : string) : list string := List.filter (keeps_ado refused) (splitAdoSegments value).
Definition ado_aliased (aliases : list AdoAlias) (key : string) : bool := existsb (fun alias => bool_decide (ADO_ALIASES key = Some alias)) aliases.
Definition not_blank (segment : string) : bool := negb (String.eqb (trim segment) "").

Definition retargetMssqlConnString (value host : string) (port : Z) : option string :=
  parsed ← parseMssqlConnString value;
  Some (match parsed with
        | None => value
        | Some parsed =>
            match ms_form parsed with
            | url_form => match urlOf value with None => value | Some url => url_toString (set_port (show port) (set_hostname host url)) end
            | ado_form => join ";" (["Server=" +:+ host +:+ "," +:+ show port] ++ List.filter not_blank (kept_ado (ado_aliased [ado_server]) value))
            end
        end).
Definition withMssqlCredentials (value user password : string) : option string :=
  parsed ← parseMssqlConnString value;
  Some (match parsed with
        | None => value
        | Some parsed =>
            match ms_form parsed with
            | url_form =>
                match urlOf value with
                | None => value
                | Some url => url_toString (set_password (encodeURIComponent password) (set_username (encodeURIComponent user) url))
                end
            | ado_form =>
                join ";" (List.filter not_blank (kept_ado (ado_aliased [ado_user; ado_password]) value ++ ["User Id={" +:+ user +:+ "}"; "Password={" +:+ password +:+ "}"]))
            end
        end).

Definition withParam (value key : string) (replacement : option string) : option string :=
  parsed ← parseMssqlConnString value;
  Some (match parsed with
        | None => value
        | Some parsed =>
            match ms_form parsed with
            | url_form =>
                match urlOf value with
                | None => value
                | Some url =>
                    let search := drop_param key (searchParams (url_view url)) in
                    url_toString (set_search (match replacement with Some replacement => search_set key replacement search | None => search end) url)
                end
            | ado_form =>
                let kept := join ";" (kept_ado (String.eqb key) value) in
                match replacement with None => kept | Some replacement => kept +:+ ";" +:+ key +:+ "=" +:+ replacement end
            end
        end).

(** ** What the string asks of the transport *)

Inductive EncryptMode := encrypt_on | encrypt_off | encrypt_strict.
#[global] Instance EncryptMode_eq_dec : EqDecision EncryptMode.
Proof. solve_decision. Defined.
Definition encryptModeOf (parsed : ParsedMssqlConnString) : EncryptMode :=
  match toLowerCase <$> ms_params parsed !! "encrypt" with
  | None => encrypt_on
  | Some raw =>
      if String.eqb raw "strict" then encrypt_strict
      else if String.eqb raw "false" || String.eqb raw "no" || String.eqb raw "optional" then encrypt_off
      else encrypt_on
  end.
Definition trustsServerCertificate (parsed : ParsedMssqlConnString) : bool :=
  match toLowerCase <$> ms_params parsed !! "trustservercertificate" with Some raw => String.eqb raw "true" || String.eqb raw "yes" | None => false end.
Definition applyMssqlTlsOverrides (value : string) (overrides : TlsOverrides) : option string :=
  parsed ← parseMssqlConnString value;
  match parsed with
  | None => Some value
  | Some parsed =>
      result ← (if insecure overrides then withParam value "encrypt" (Some "false")
                else if bool_decide (encryptModeOf parsed = encrypt_off) then withParam value "encrypt" None
                else Some value);
      withParam result "trustservercertificate" (if allowInvalidCertificates overrides then Some "true" else None)
  end.

(** *** A replica's routing URL *)

Definition End : regex := Zero (fun _ b => negb (is_some b)).
(** [/^tcp:\/\/(\[[^\]]+\]|[^:/]+)(?::(\d+))?\/?$/i]. *)
Definition ROUTING : regex :=
  Then Begin (Then (Any_case "tcp://") (Then
    (Group 1 (Or (Then (One (char "[")) (Then (Plus (One (fun c => negb (char "]" c)))) (One (char "]"))))
                 (Plus (One (fun c => negb (char ":" c || char "/" c))))))
    (Then (Opt (Then (One (char ":")) (Group 2 (Plus (One is_digit))))) (Then (Opt (One (char "/"))) End)))).
(** [host.replace(/^\[|\]$/g, "")]. *)
Definition unbracketed (host : string) : string :=
  let host := match host with String c rest => if char "[" c then rest else host | EmptyString => "" end in
  strip_last "]" host ?? host.
Definition parseRoutingUrl (value : option string) : option (string * Z) :=
  value ← value;
  '(_, _, q) ← exec ROUTING (trim value);
  let host := unbracketed (group 1 q ?? "") in
  if String.eqb host "" then None else Some (host, port_or DEFAULT_MSSQL_PORT (group 2 q)).

(** ** Before it connects *)

Definition no_encryption : string :=
  "refusing to connect without encryption: remove Encrypt=false (the driver " +:+
  "encrypts by default) — set ALLOW_INSECURE_CLUSTER_TLS=true if this " +:+
  "deployment manages databases over a trusted network".
Definition unchecked_certificate : string :=
  "refusing to connect with TrustServerCertificate=true: encryption whose " +:+
  "certificate is not checked is a connection anyone in the path can be. " +:+
  "Turn on the invalid-certificates option when connecting the cluster if " +:+
  "that is intended, or drop it from the connection string".
Definition mssql_hostnames_alone : string :=
  "SQL Server's driver validates the hostname as part of certificate " +:+
  "validation and cannot skip one without the other. Use the " +:+
  "invalid-certificates option instead if that is intended".
Definition assertMssqlTlsEnforced (allowInsecureTls : bool) (value : string) (overrides : TlsOverrides) : option (option string) :=
  if allowInsecureTls then Some None
  else
    parsed ← parseMssqlConnString value;
    Some (match parsed with
          | None => None
          | Some parsed =>
              if bool_decide (encryptModeOf parsed = encrypt_off) && negb (insecure overrides) then Some no_encryption
              else if trustsServerCertificate parsed && negb (allowInvalidCertificates overrides) then Some unchecked_certificate
              else if allowInvalidHostnames overrides && negb (allowInvalidCertificates overrides) then Some mssql_hostnames_alone
              else None
          end).
Inductive EncryptOption := encrypt_flag (on : bool) | encrypt_strictly.
Record MssqlConfig := {
  mc_server : string; mc_port : Z; mc_database : option string; mc_user : option string; mc_password : option string;
  mc_encrypt : EncryptOption; mc_trustServerCertificate : bool; mc_readOnlyIntent : bool
}.
Definition unless_empty (text : string) : option string := if String.eqb text "" then None else Some text.
Definition mssqlConfig (parsed : ParsedMssqlConnString) (overrides : option TlsOverrides) (readOnlyIntent : option bool) : MssqlConfig :=
  let mode := encryptModeOf parsed in
  {| mc_server := ms_host parsed; mc_port := ms_port parsed; mc_database := unless_empty (ms_database parsed); mc_user := unless_empty (ms_user parsed);
     mc_password := unless_empty (ms_password parsed);
     mc_encrypt := if bool_decide (mode = encrypt_strict) then encrypt_strictly else encrypt_flag (bool_decide (mode = encrypt_on));
     mc_trustServerCertificate := trustsServerCertificate parsed && ((allowInvalidCertificates <$> overrides) ?? false);
     mc_readOnlyIntent := readOnlyIntent ?? false |}.
End conn_string.

(** ** The segments of the ADO form *)

(** A segment ends where its braces are closed, and no separator is outside them. *)
Fixpoint scan (s : string) (braced : bool) : option bool :=
  match s with
  | EmptyString => Some braced
  | String c s => if char ";" c && negb braced then None else scan s (if char "{" c then true else if char "}" c then false else braced)
  end.
Definition closed_segment (segment : string) : bool :=
  bool_decide (scan segment false = Some false) && match at_first "=" segment with Some (key, _) => all_chars (no_char ":") key | None => all_chars (no_char ":") segment end.

Lemma split_scan s rest current braced b : scan s braced = Some b -> split_ado (s +:+ rest) current braced = split_ado rest (current +:+ s) b.
Proof.
  revert current braced. induction s as [|c s IH]; intros current braced; cbn [scan]; [intros [= <-]; by rewrite text_app_nil|].
  change (String c s +:+ rest) with (String c (s +:+ rest)). cbn [split_ado]. destruct (char ";" c && negb braced); [done|]. intros H. rewrite (IH _ _ H). by rewrite text_cons_app.
Qed.
Lemma split_join_ado segments : segments <> [] -> Forall (fun segment => closed_segment segment = true) segments -> splitAdoSegments (join ";" segments) = segments.
Proof.
  unfold splitAdoSegments. intros Hn H. induction H as [|x l Hx Hl IH]; [done|]. unfold closed_segment in Hx. apply andb_true_iff in Hx as [Hx%bool_decide_eq_true _].
  destruct l as [|y l].
  - cbn [join]. rewrite <- (text_app_nil x) at 1. by rewrite (split_scan _ _ _ _ _ Hx).
  - change (join ";" (x :: y :: l)) with (x +:+ String ";" (join ";" (y :: l))). rewrite (split_scan _ _ _ _ _ Hx). cbn [split_ado].
    change (char ";" ";" && negb false) with true. cbn match. by rewrite IH.
Qed.
Lemma trim_start_split s : exists a, s = a +:+ trim_start s /\ all_chars is_space a = true.
Proof.
  induction s as [|c s (a & E & Ha)]; [by exists ""|]. cbn [trim_start]. destruct (is_space c) eqn:Ec; [|by exists ""]. exists (String c a). split; [by rewrite E at 1|].
  cbn [all_chars]. by rewrite Ec, Ha.
Qed.
Lemma trim_end_split s : exists b, s = trim_end s +:+ b /\ all_chars is_space b = true.
Proof.
  induction s as [|c s (b & E & Hb)]; [by exists ""|]. cbn [trim_end]. destruct (trim_end s) as [|d t].
  - destruct (is_space c) eqn:Ec.
    + exists (String c s). split; [done|]. cbn [all_chars]. rewrite Ec. by rewrite E.
    + exists b. change (String c "" +:+ b) with (String c b). by rewrite E.
  - exists b. split; [|done]. by rewrite E at 1.
Qed.
Lemma trim_split s : exists a b, s = a +:+ trim s +:+ b /\ all_chars is_space a = true /\ all_chars is_space b = true.
Proof.
  destruct (trim_start_split s) as (a & Ea & Ha). destruct (trim_end_split (trim_start s)) as (b & Eb & Hb). exists a, b. split; [|done]. unfold trim. by rewrite <- Eb.
Qed.
Lemma reads_spaces a t b gs : all_chars is_space a = true ->
  reads (Many (One is_space)) {| before := b; text := a +:+ t; groups := gs |} {| before := last_char b a; text := t; groups := gs |}.
Proof.
  revert b. induction a as [|c a IH]; intros b; [intros _; apply reads_stop|]. cbn [all_chars]. intros [Hc Ha]%andb_true_iff.
  change (String c a +:+ t) with (String c (a +:+ t)). eapply reads_again; [by apply reads_one|apply moved_one|by apply IH].
Qed.
Lemma server_key_found pre raw rest : pre = "" \/ (exists front, pre = front +:+ ";") -> existsb (String.eqb (key_of raw)) SERVER_KEYS = true ->
  test SERVER_KEY (pre +:+ raw +:+ String "=" rest) = true.
Proof.
  intros Hpre (key & Hkey & Hk%String.eqb_eq)%existsb_exists. apply test_true. destruct (trim_split raw) as (a & b & Er & Ha & Hb). unfold key_of in Hk.
  assert (forall c, exists q, reads (Then (Many (One is_space)) (Then (One_of (Any_case <$> SERVER_KEYS)) (Then (Many (One is_space)) (One (char "=")))))
    {| before := c; text := raw +:+ String "=" rest; groups := [] |} q) as Hr.
  { intros c. rewrite Er, !text_app_assoc. eexists. eapply reads_then; [by apply reads_spaces|].
    apply (reads_then _ _ _ {| before := last_char (last_char c a) (trim raw); text := b +:+ String "=" rest; groups := [] |});
      [|eapply reads_then; [by apply (reads_spaces b)|by apply reads_one]].
    apply reads_one_of; [done|]. exists (Any_case key). split; [apply list_elem_of_fmap; exists key; split; [done|by apply list_elem_of_In]|].
    apply reads_matches. rewrite any_case_yes; [left|]. rewrite Hk. assert (forallb (fun k => String.eqb (toLowerCase k) k) SERVER_KEYS = true) as Hl by done.
    rewrite forallb_forall in Hl. by apply String.eqb_eq, Hl. }
  destruct Hpre as [->|[front ->]].
  - destruct (Hr None) as [q Hq]. exists "", (raw +:+ String "=" rest), q. split; [done|]. eapply reads_then; [|exact Hq]. apply reads_left. by apply reads_matches; left.
  - destruct (Hr (Some ";"%char)) as [q Hq]. exists front, (String ";" (raw +:+ String "=" rest)), q. split; [by rewrite text_app_assoc|].
    eapply reads_then; [|exact Hq]. apply reads_right. by apply reads_one.
Qed.
Lemma scheme_clash a rest p c q : all_chars before_scheme a = true -> all_chars (no_char ":") p = true -> before_scheme c = false -> c <> ":"%char ->
  a +:+ String ":" rest = p +:+ String c q -> False.
Proof.
  intros Ha Hp Hc Hn. revert a Ha. induction p as [|d p IH]; intros [|e a] Ha E; cbn [all_chars] in *.
  - by injection E as E _.
  - injection E as -> _. by rewrite Hc in Ha.
  - injection E as <- _. done.
  - apply andb_true_iff in Hp as [_ Hp], Ha as [_ Ha]. injection E as _ E. by apply (IH Hp a).
Qed.

Section ado.
Context `{UrlLaws}.

Definition get_ado (a : AdoAlias) (segment : string) : option string :=
  reading (fun key entry => if bool_decide (ADO_ALIASES key = Some a) then Some (ado_value entry) else None) segment.
Definition ado_option : string -> option (string * string) :=
  reading (fun key entry => if bool_decide (ADO_ALIASES key = None) then Some (key, ado_value entry) else None).
Definition last_ado (a : AdoAlias) (segments : list string) : option string := last (omap (get_ado a) segments).
Definition ado_fields (segments : list string) : AdoFields :=
  {| a_server := (splitAdoServer <$> last_ado ado_server segments) ?? ("", DEFAULT_MSSQL_PORT); a_database := last_ado ado_database segments ?? "";
     a_user := last_ado ado_user segments ?? ""; a_password := last_ado ado_password segments ?? ""; a_params := params_from ∅ (omap ado_option segments) |}.
Lemma last_cons_or {A} (x : A) l d : last (x :: l) ?? d = last l ?? x.
Proof. destruct l as [|y l]; [done|]. rewrite last_cons_cons. destruct (last (y :: l)) eqn:E; [done|]. by apply last_None in E. Qed.
Lemma read_ado_fields segments : foldl read_ado no_ado segments = ado_fields segments.
Proof.
  assert (forall fields, foldl read_ado fields segments =
    {| a_server := (splitAdoServer <$> last_ado ado_server segments) ?? a_server fields; a_database := last_ado ado_database segments ?? a_database fields;
       a_user := last_ado ado_user segments ?? a_user fields; a_password := last_ado ado_password segments ?? a_password fields;
       a_params := params_from (a_params fields) (omap ado_option segments) |}) as ->; [|done].
  induction segments as [|x l IH]; intros fields; [by destruct fields|]. cbn [foldl]. rewrite IH. unfold last_ado. cbn [omap list_omap].
  assert (forall a, get_ado a x = '(key, entry) ← segment_parts x; if bool_decide (ADO_ALIASES key = Some a) then Some (ado_value entry) else None) as Hg by done.
  assert (ado_option x = '(key, entry) ← segment_parts x; if bool_decide (ADO_ALIASES key = None) then Some (key, ado_value entry) else None) as Ho by done.
  unfold read_ado. destruct fields. rewrite !Hg, !Ho. destruct (segment_parts x) as [[key entry]|] eqn:E; cbn [mbind option_bind]; [|done].
  destruct (ADO_ALIASES key) as [[]|]; rewrite ?bool_decide_false by done; rewrite ?bool_decide_true by done; rewrite ?last_cons_or;
    cbn [a_server a_database a_user a_password a_params]; try done.
  - f_equal. destruct (omap (get_ado ado_server) l) as [|y ys]; [done|]. rewrite last_cons_cons. destruct (last (y :: ys)) eqn:El; [done|]. by apply last_None in El.
  - f_equal. cbn [params_from foldl]. by rewrite (key_lower _ _ _ E).
Qed.
Lemma ado_not_url segments : segments <> [] -> Forall (fun segment => closed_segment segment = true) segments -> new_URL (join ";" segments) = None.
Proof.
  intros Hn Hs. destruct Hs as [|x l Hx _]; [done|]. destruct (new_URL (join ";" (x :: l))) as [url|] eqn:E; [|done]. exfalso.
  destruct (url_has_scheme _ _ E) as (a & rest & Ev & Ha). unfold closed_segment in Hx. apply andb_true_iff in Hx as [_ Hx].
  assert (exists t, join ";" (x :: l) = x +:+ t /\ match t with String c _ => c = ";"%char | EmptyString => True end) as (t & Et & Ht).
  { destruct l as [|y l]; [exists ""; by rewrite text_app_nil|]. by exists (String ";" (join ";" (y :: l))). }
  rewrite Et in Ev. destruct (at_first "=" x) as [[key entry]|] eqn:Ek.
  - apply at_first_some in Ek as [-> _]. rewrite text_app_assoc in Ev. change (String "=" entry +:+ t) with (String "=" (entry +:+ t)) in Ev. by eapply scheme_clash, eq_sym, Ev.
  - destruct t as [|c t].
    + rewrite text_app_nil in Ev. rewrite Ev, all_chars_app in Hx. apply andb_true_iff in Hx as [_ Hx]. cbn [all_chars] in Hx. done.
    + subst c. by eapply scheme_clash, eq_sym, Ev.
Qed.
Lemma ado_named segments parsed : ado_connection (ado_fields segments) = Some parsed -> omap (get_ado ado_server) segments <> [].
Proof. unfold ado_connection, ado_fields, last_ado. cbn [a_server]. intros E E'. rewrite E' in E. done. Qed.
Lemma server_segment segments : omap (get_ado ado_server) segments <> [] ->
  exists segment raw entry, segment ∈ segments /\ at_first "=" segment = Some (raw, entry) /\ existsb (String.eqb (key_of raw)) SERVER_KEYS = true.
Proof.
  intros Hne. destruct (omap (get_ado ado_server) segments) as [|v vs] eqn:E; [done|]. assert (v ∈ omap (get_ado ado_server) segments) as Hv by (rewrite E; left).
  apply list_elem_of_omap in Hv as (segment & Hin & Hs). unfold get_ado, reading, segment_parts in Hs. destruct (at_first "=" segment) as [[raw entry]|] eqn:Ea; [|done].
  cbn [fmap option_fmap option_map prod_map fst snd mbind option_bind] in Hs. exists segment, raw, entry. split; [done|]. split; [done|].
  case_bool_decide as Hk; [|done]. unfold ADO_ALIASES in Hk. destruct (existsb (String.eqb (key_of raw)) SERVER_KEYS); [done|].
  repeat match type of Hk with (if ?b then _ else _) = _ => destruct b; [done|] end. done.
Qed.
Lemma print_parse_ado segments : Forall (fun segment => closed_segment segment = true) segments -> omap (get_ado ado_server) segments <> [] ->
  (js_length (join ";" segments) <= 4096)%Z -> parseMssqlConnString (join ";" segments) = Some (ado_connection (ado_fields segments)).
Proof.
  intros Hs Hh Hl. assert (segments <> []) as Hne by by intros ->. destruct (server_segment _ Hh) as (segment & raw & entry & Hin & Ea & Hk).
  destruct (join_in ";" _ _ Hin) as (pre & suf & E & Hpre). apply at_first_some in Ea as [-> _].
  assert (join ";" segments = pre +:+ raw +:+ String "=" (entry +:+ suf)) as Ep by (by rewrite E, text_app_assoc).
  unfold parseMssqlConnString. rewrite (proj2 (Z.ltb_ge _ _)) by done. rewrite (proj2 (Z.eqb_neq _ _)).
  - cbn [orb]. unfold parseUrl, urlOf. rewrite ado_not_url by done. cbn [mbind option_bind]. unfold parseAdo. rewrite Ep, server_key_found, <- Ep by done.
    by rewrite split_join_ado, read_ado_fields.
  - rewrite Ep, !js_length_app. cbn [js_length]. pose proof (js_length_nonneg pre). pose proof (js_length_nonneg raw). pose proof (js_length_nonneg (entry +:+ suf)).
    change (in_codes 128 191 "=") with false. change (240 <=? code "=")%Z with false. cbn match. lia.
Qed.
Lemma parse_ado value parsed : parseMssqlConnString value = Some (Some parsed) -> ms_form parsed = ado_form -> ado_connection (ado_fields (splitAdoSegments value)) = Some parsed.
Proof.
  unfold parseMssqlConnString. destruct (_ || _); [done|]. destruct (parseUrl value) as [[x|]|] eqn:E; cbn [mbind option_bind]; [|intros [= Hp] _|done].
  - intros [= <-] Hf. revert E. unfold parseUrl. destruct (urlOf value) as [url|]; [|done]. cbv zeta.
    repeat match goal with |- context [decodeURIComponent ?x] => destruct (decodeURIComponent x); [|done]; cbn [mbind option_bind] end. intros [= E]. rewrite <- E in Hf. discriminate Hf.
  - revert Hp. unfold parseAdo. destruct (test _ _); [|done]. by rewrite read_ado_fields.
Qed.

(** *** What a rewrite says *)

Definition set_ms_params (params : gmap string string) (parsed : ParsedMssqlConnString) : ParsedMssqlConnString :=
  {| ms_form := ms_form parsed; ms_host := ms_host parsed; ms_port := ms_port parsed; ms_database := ms_database parsed; ms_user := ms_user parsed;
     ms_password := ms_password parsed; ms_params := params |}.
Definition set_ms_credentials (user password : string) (parsed : ParsedMssqlConnString) : ParsedMssqlConnString :=
  {| ms_form := ms_form parsed; ms_host := ms_host parsed; ms_port := ms_port parsed; ms_database := ms_database parsed; ms_user := user;
     ms_password := password; ms_params := ms_params parsed |}.
Definition set_server (host : string) (port : Z) (parsed : ParsedMssqlConnString) : ParsedMssqlConnString :=
  {| ms_form := ms_form parsed; ms_host := host; ms_port := port; ms_database := ms_database parsed; ms_user := ms_user parsed;
     ms_password := ms_password parsed; ms_params := ms_params parsed |}.
(** A string of the ADO form, each of whose segments is closed. *)
Definition ado_editable (value : string) (parsed : ParsedMssqlConnString) : Prop :=
  ms_form parsed = ado_form /\ Forall (fun segment => closed_segment segment = true) (splitAdoSegments value).
Lemma ado_connection_iff fields parsed : ado_connection fields = Some parsed <->
  ms_form parsed = ado_form /\ ms_host parsed <> "" /\ (ms_host parsed, ms_port parsed) = a_server fields /\ ms_database parsed = a_database fields
  /\ ms_user parsed = a_user fields /\ ms_password parsed = a_password fields /\ ms_params parsed = a_params fields.
Proof.
  unfold ado_connection. destruct (a_server fields) as [host port] eqn:E. split.
  - destruct (String.eqb_spec host ""); [done|]. by intros [= <-].
  - destruct parsed. cbn [ms_form ms_host ms_port ms_database ms_user ms_password ms_params]. intros (-> & Hn & [= <- <-] & -> & -> & -> & ->). by apply String.eqb_neq in Hn as ->.
Qed.
Lemma kept_closed (keep : string -> bool) segments : Forall (fun segment => closed_segment segment = true) segments ->
  Forall (fun segment => closed_segment segment = true) (List.filter keep segments).
Proof. rewrite !Forall_forall. intros Hs x [Hx _]%list_elem_of_In%filter_In. by apply Hs, list_elem_of_In. Qed.
Lemma keeps_ado_parts refused segment key entry : segment_parts segment = Some (key, entry) -> keeps_ado refused segment = negb (refused key).
Proof. unfold keeps_ado. by intros ->. Qed.
Lemma ado_kept a refused segments : (forall key, ADO_ALIASES key = Some a -> refused key = false) ->
  omap (get_ado a) (List.filter (keeps_ado refused) segments) = omap (get_ado a) segments.
Proof. intros Hr. apply reading_kept. intros segment key entry x E. rewrite (keeps_ado_parts _ _ _ _ E). case_bool_decide; [|done]. by rewrite Hr. Qed.
Lemma ado_gone a refused segments : (forall key, ADO_ALIASES key = Some a -> refused key = true) ->
  omap (get_ado a) (List.filter (keeps_ado refused) segments) = [].
Proof. intros Hr. apply reading_gone. intros segment key entry x E. rewrite (keeps_ado_parts _ _ _ _ E). case_bool_decide; [|done]. by rewrite Hr. Qed.
Lemma ado_options_kept refused segments : (forall key, ADO_ALIASES key = None -> refused key = false) ->
  omap ado_option (List.filter (keeps_ado refused) segments) = omap ado_option segments.
Proof. intros Hr. apply reading_kept. intros segment key entry x E. rewrite (keeps_ado_parts _ _ _ _ E). case_bool_decide; [|done]. by rewrite Hr. Qed.
Lemma ado_options_without key segments :
  omap ado_option (List.filter (keeps_ado (String.eqb key)) segments) = List.filter (fun '(name, _) => negb (String.eqb (toLowerCase name) key)) (omap ado_option segments).
Proof. apply reading_without; [apply keeps_ado_parts|]. intros k entry x. by case_bool_decide; [intros [= <-]|]. Qed.
Lemma join_snoc sep l x : l <> [] -> join sep (l ++ [x]) = join sep l +:+ sep +:+ x.
Proof.
  induction l as [|y l IH]; intros Hn; [done|]. destruct l as [|z l]; [done|]. change ((y :: z :: l) ++ [x]) with (y :: (z :: l) ++ [x]).
  change (join sep (y :: (z :: l) ++ [x])) with (y +:+ sep +:+ join sep ((z :: l) ++ [x])). rewrite IH by done. change (join sep (y :: z :: l)) with (y +:+ sep +:+ join sep (z :: l)).
  by rewrite !text_app_assoc.
Qed.
(** An option and a value as the code writes them. *)
Definition ado_name (key : string) : Prop := all_chars key_char key = true /\ toLowerCase key = key /\ ADO_ALIASES key = None /\ scan (key +:+ "=") false = Some false.
Definition ado_word (value : string) : Prop := ado_value value = value /\ scan value false = Some false.
Lemma scan_app s t braced b : scan s braced = Some b -> scan (s +:+ t) braced = scan t b.
Proof.
  revert braced. induction s as [|c s IH]; intros braced; cbn [scan]; [by intros [= <-]|]. change (String c s +:+ t) with (String c (s +:+ t)). cbn [scan].
  destruct (char ";" c && negb braced); [done|]. apply IH.
Qed.
Lemma key_no_colon key : all_chars key_char key = true -> all_chars (no_char ":") key = true.
Proof. apply class_free. done. Qed.
Lemma word_closed key word : ado_name key -> ado_word word -> closed_segment (key +:+ "=" +:+ word) = true.
Proof.
  intros (Hk & _ & _ & Hs) [_ Hw]. unfold closed_segment. rewrite <- text_app_assoc, (scan_app _ _ _ _ Hs), Hw, bool_decide_true by done.
  rewrite text_app_assoc. change (key +:+ "=" +:+ word) with (key +:+ String "=" word). rewrite at_first_part; [by apply key_no_colon|].
  eapply all_chars_impl; [|exact Hk]. intros c. unfold key_char. by intros [_ ?]%andb_true_iff.
Qed.
Lemma ado_param value parsed key replacement : parseMssqlConnString value = Some (Some parsed) -> ado_editable value parsed -> ado_name key ->
  match replacement with Some replacement => ado_word replacement | None => True end ->
  exists value', withParam value key replacement = Some value' /\
    ((js_length value' <= 4096)%Z -> let parsed' := set_ms_params (set_param key replacement (ms_params parsed)) parsed in
       parseMssqlConnString value' = Some (Some parsed') /\ ado_editable value' parsed').
Proof.
  intros Hv [Hf Hs] Hkey Hword. pose proof Hkey as (Hk & Hl & Ha & _). pose proof (parse_ado _ _ Hv Hf) as Hr. pose proof (ado_named _ _ Hr) as Hne.
  set (kept := List.filter (keeps_ado (String.eqb key)) (splitAdoSegments value)). set (extra := match replacement with Some r => [key +:+ "=" +:+ r] | None => [] end).
  assert (forall k a, ADO_ALIASES k = Some a -> String.eqb key k = false) as Hkept by (intros k a E; apply String.eqb_neq; intros ->; congruence).
  assert (omap (get_ado ado_server) kept <> []) as Hnk by (subst kept; rewrite ado_kept by (intros; by eapply Hkept); done).
  exists (join ";" (kept ++ extra)). split.
  { unfold withParam. rewrite Hv. cbn [mbind option_bind]. rewrite Hf. f_equal. change (kept_ado (String.eqb key) value) with kept. subst extra.
    destruct replacement; [|by rewrite app_nil_r]. rewrite join_snoc; [done|]. by intros ->. }
  assert (forall a, omap (get_ado a) extra = []) as Hextra.
  { intros a. subst extra. destruct replacement as [r|]; [|done]. cbn [omap list_omap]. unfold get_ado, reading. rewrite segment_reads, Hl by done. cbn [mbind option_bind]. by rewrite Ha. }
  assert (Forall (fun segment => closed_segment segment = true) (kept ++ extra)) as Hclosed.
  { apply Forall_app. split; [by apply kept_closed|]. subst extra. destruct replacement; [|done]. constructor; [|done]. by apply word_closed. }
  assert (kept ++ extra <> []) as Hnn by by (destruct kept; [done|]).
  intros Hlen. cbv zeta. split; [|split; [done|by rewrite split_join_ado]].
  rewrite print_parse_ado; [|done|by rewrite omap_app, Hextra, app_nil_r|done].
  f_equal. apply ado_connection_iff. apply ado_connection_iff in Hr. unfold ado_fields, last_ado in *.
  cbn [a_server a_database a_user a_password a_params set_ms_params ms_form ms_host ms_port ms_database ms_user ms_password ms_params] in *.
  rewrite !omap_app, !Hextra, !app_nil_r. subst kept. rewrite !ado_kept by (intros; by eapply Hkept). destruct Hr as (-> & Hh & Hsv & -> & -> & -> & Hp). repeat split; try done.
  rewrite params_app, ado_options_without, params_filter by apply lookup_empty. rewrite Hp. subst extra. destruct replacement as [r|]; [|done].
  assert (ado_option (key +:+ "=" +:+ r) = Some (key, r)) as Ho.
  { unfold ado_option, reading. rewrite segment_reads, Hl by done. cbn [mbind option_bind]. rewrite Ha. rewrite bool_decide_true by done. by destruct Hword as [-> _]. }
  cbn [omap list_omap set_param]. rewrite Ho. cbn [params_from foldl]. by rewrite Hl, insert_delete_eq.
Qed.

(** *** Credentials and servers *)

Lemma named_not_blank segment key entry : segment_parts segment = Some (key, entry) -> not_blank segment = true.
Proof.
  unfold segment_parts, not_blank. destruct (at_first "=" segment) as [[raw e]|] eqn:E; [|done]. intros _. apply negb_true_iff, String.eqb_neq. intros Ht.
  destruct (trim_split segment) as (a & b & Es & Ha & Hb). rewrite Ht in Es. change ("" +:+ b) with b in Es. apply at_first_some in E as [E _].
  assert (all_chars is_space segment = true) as Hs by by rewrite Es, all_chars_app, Ha, Hb. rewrite E, all_chars_app in Hs. apply andb_true_iff in Hs as [_ Hs]. done.
Qed.
Lemma blank_aside {A} (f : string -> string -> option A) segments : omap (reading f) (List.filter not_blank segments) = omap (reading f) segments.
Proof. apply reading_kept. intros segment key entry x E _. by eapply named_not_blank. Qed.
Lemma blank_fields segments : ado_fields (List.filter not_blank segments) = ado_fields segments.
Proof. unfold ado_fields, last_ado, get_ado, ado_option. by rewrite !(blank_aside (A := string)), (blank_aside (A := string * string)). Qed.
Lemma strip_last_snoc c s : strip_last c (s +:+ String c "") = Some s.
Proof.
  induction s as [|d s IH]; [change ("" +:+ String c "") with (String c ""); cbn [strip_last]; by rewrite Ascii.eqb_refl|].
  change (String d s +:+ String c "") with (String d (s +:+ String c "")). destruct s as [|e s].
  { change ("" +:+ String c "") with (String c "") in *. cbn [strip_last]. by rewrite Ascii.eqb_refl. }
  change ((String e s) +:+ String c "") with (String e (s +:+ String c "")) in *. cbn [strip_last] in *. by rewrite IH.
Qed.
Lemma trim_end_snoc s c : is_space c = false -> trim_end (s +:+ String c "") = s +:+ String c "".
Proof.
  intros Hc. induction s as [|d s IH]; [change ("" +:+ String c "") with (String c ""); cbn; by rewrite Hc|].
  change (String d s +:+ String c "") with (String d (s +:+ String c "")). cbn [trim_end]. rewrite IH. by destruct s.
Qed.
(** A text that braces can quote. *)
Definition bracable (text : string) : bool := all_chars (no_char "}") text && one_line text.
Lemma braced_value text : one_line text = true -> ado_value ("{" +:+ text +:+ "}") = text.
Proof.
  intros Hl. unfold ado_value, trim. change ("{" +:+ text +:+ "}") with (String "{" (text +:+ String "}" "")). cbn [trim_start]. change (is_space "{") with false. cbn match.
  change (String "{" (text +:+ String "}" "")) with (String "{" text +:+ String "}" ""). rewrite trim_end_snoc by done.
  change (String "{" text +:+ String "}" "") with (String "{" (text +:+ String "}" "")). unfold ado_unquoted, between. change (Ascii.eqb "{" "{") with true. cbn match.
  rewrite strip_last_snoc. cbn [mbind option_bind]. by rewrite Hl.
Qed.
Lemma scan_braced text : all_chars (no_char "}") text = true -> scan text true = Some true.
Proof.
  induction text as [|c text IH]; [done|]. cbn [all_chars scan]. unfold no_char at 1. intros [Hc%negb_true_iff Ht]%andb_true_iff. rewrite andb_false_r.
  unfold char. rewrite (Ascii.eqb_sym "}" c), Hc. destruct (Ascii.eqb "{" c); by apply IH.
Qed.
Lemma braced_closed name text : all_chars (no_char "=") name = true -> all_chars (no_char ":") name = true -> scan (name +:+ "={") false = Some true -> bracable text = true ->
  closed_segment (name +:+ "={" +:+ text +:+ "}") = true.
Proof.
  intros He Hc Hs [Ht _]%andb_true_iff. unfold closed_segment. rewrite <- (text_app_assoc name), (scan_app _ _ _ _ Hs), (scan_app _ _ _ _ (scan_braced _ Ht)).
  change (scan "}" true) with (Some false). rewrite bool_decide_true by done. rewrite text_app_assoc.
  change (name +:+ "={" +:+ text +:+ "}") with (name +:+ String "=" ("{" +:+ text +:+ "}")). by rewrite at_first_part.
Qed.
Lemma braced_parts name text : all_chars (no_char "=") name = true -> segment_parts (name +:+ "={" +:+ text +:+ "}") = Some (key_of name, "{" +:+ text +:+ "}").
Proof. intros He. unfold segment_parts. change (name +:+ "={" +:+ text +:+ "}") with (name +:+ String "=" ("{" +:+ text +:+ "}")). by rewrite at_first_part. Qed.
Lemma braced_reads name text a b : all_chars (no_char "=") name = true -> one_line text = true -> ADO_ALIASES (key_of name) = Some b ->
  get_ado a (name +:+ "={" +:+ text +:+ "}") = (if bool_decide (a = b) then Some text else None) /\ ado_option (name +:+ "={" +:+ text +:+ "}") = None.
Proof.
  intros He Hl Hb. unfold get_ado, ado_option, reading. rewrite braced_parts by done. cbn [mbind option_bind]. rewrite Hb, braced_value by done. split; [|done].
  destruct (decide (a = b)) as [->|Hn]; [by rewrite !bool_decide_true|]. by rewrite !bool_decide_false by congruence.
Qed.
Lemma ado_aliased_kept aliases a : ~ a ∈ aliases -> forall key, ADO_ALIASES key = Some a -> ado_aliased aliases key = false.
Proof. intros Hn key Hk. unfold ado_aliased. apply not_true_is_false. intros (b & Hb & E%bool_decide_eq_true)%existsb_exists. apply Hn. replace a with b by congruence. by apply list_elem_of_In. Qed.
Lemma ado_aliased_gone aliases a : a ∈ aliases -> forall key, ADO_ALIASES key = Some a -> ado_aliased aliases key = true.
Proof. intros Hn key Hk. apply existsb_exists. exists a. split; [by apply list_elem_of_In|by apply bool_decide_eq_true]. Qed.
Lemma ado_aliased_none aliases key : ADO_ALIASES key = None -> ado_aliased aliases key = false.
Proof. intros Hk. apply not_true_is_false. intros (b & Hb & E%bool_decide_eq_true)%existsb_exists. congruence. Qed.
Lemma ado_rewrite segments parsed' : Forall (fun segment => closed_segment segment = true) segments -> ado_connection (ado_fields segments) = Some parsed' ->
  (js_length (join ";" (List.filter not_blank segments)) <= 4096)%Z -> parseMssqlConnString (join ";" (List.filter not_blank segments)) = Some (Some parsed').
Proof.
  intros Hs Hr Hl. rewrite print_parse_ado; [by rewrite blank_fields, Hr|by apply kept_closed| |done]. unfold get_ado. rewrite blank_aside. by eapply ado_named.
Qed.
Lemma ado_credentials value parsed user password : parseMssqlConnString value = Some (Some parsed) -> ado_editable value parsed -> bracable user = true -> bracable password = true ->
  exists value', withMssqlCredentials value user password = Some value' /\
    ((js_length value' <= 4096)%Z -> parseMssqlConnString value' = Some (Some (set_ms_credentials user password parsed))).
Proof.
  intros Hv [Hf Hs] Hu Hp. pose proof (parse_ado _ _ Hv Hf) as Hr. unfold withMssqlCredentials. rewrite Hv. cbn [mbind option_bind]. rewrite Hf. eexists. split; [reflexivity|].
  apply ado_rewrite.
  - apply Forall_app. split; [by apply kept_closed|]. rewrite !Forall_cons. split; [by apply (braced_closed "User Id")|]. split; [by apply (braced_closed "Password")|done].
  - pose proof Hu as [_ Hu1]%andb_true_iff. pose proof Hp as [_ Hp1]%andb_true_iff.
    pose proof (fun a => proj1 (braced_reads "User Id" user a ado_user eq_refl Hu1 eq_refl)) as Gu. pose proof (proj2 (braced_reads "User Id" user ado_user ado_user eq_refl Hu1 eq_refl)) as Ou.
    pose proof (fun a => proj1 (braced_reads "Password" password a ado_password eq_refl Hp1 eq_refl)) as Gp.
    pose proof (proj2 (braced_reads "Password" password ado_user ado_password eq_refl Hp1 eq_refl)) as Op.
    change ("User Id" +:+ "={" +:+ user +:+ "}") with ("User Id={" +:+ user +:+ "}") in *. change ("Password" +:+ "={" +:+ password +:+ "}") with ("Password={" +:+ password +:+ "}") in *.
    apply ado_connection_iff. apply ado_connection_iff in Hr. unfold ado_fields, last_ado, kept_ado in *. rewrite !omap_app, ado_options_kept by (intros; by apply ado_aliased_none).
    rewrite !(ado_gone ado_user), !(ado_gone ado_password) by (apply ado_aliased_gone; by repeat constructor). rewrite !ado_kept by (apply ado_aliased_kept; alias_not).
    cbn [omap list_omap]. rewrite !Gu, !Gp, Ou, Op. vm_compute bool_decide. rewrite !app_nil_r. cbn [app a_server a_database a_user a_password a_params] in *.
    cbn [set_ms_credentials ms_form ms_host ms_port ms_database ms_user ms_password ms_params]. naive_solver.
Qed.

Definition server_char (c : ascii) : bool := host_char c || char "," c.
Lemma server_text_char host port : all_chars host_char host = true -> (0 < port)%Z -> all_chars server_char (host +:+ "," +:+ show port) = true.
Proof.
  intros Hh Hp. destruct (show_digits port Hp) as (Hd & _). rewrite !all_chars_app. rewrite (all_chars_impl host_char server_char host) by (try done; intros c; unfold server_char; by intros ->).
  rewrite (all_chars_impl is_digit server_char (show port)); [done| |done]. intros c. unfold server_char, host_char, alphanumeric. by intros ->.
Qed.
Lemma server_plain c : server_char c = true -> is_space c = false /\ char ";" c = false /\ char "{" c = false /\ char "}" c = false /\ Ascii.eqb c double_quote = false.
Proof. destruct c as [[] [] [] [] [] [] [] []]; vm_compute; done. Qed.
Lemma scan_server s : all_chars server_char s = true -> scan s false = Some false.
Proof. induction s as [|c s IH]; [done|]. cbn [all_chars scan]. intros [(_ & -> & -> & -> & _)%server_plain Hs]%andb_true_iff. by apply IH. Qed.
Lemma server_value s : all_chars server_char s = true -> ado_value s = s.
Proof.
  intros Hs. unfold ado_value. rewrite (class_trim server_char) by (done || (intros c Hc; by apply server_plain in Hc as [? _])). unfold ado_unquoted, between.
  destruct s as [|c s]; [done|]. cbn [all_chars] in Hs. apply andb_true_iff in Hs as [(_ & _ & Hb & _ & Hq)%server_plain _]. unfold char in Hb. rewrite (Ascii.eqb_sym c "{"), Hb, Hq. done.
Qed.
Lemma strip_case_comma name s t : all_chars (no_char ",") (toLowerCase name) = true -> strip_case name s = None -> strip_case name (s +:+ String "," t) = None.
Proof.
  revert s. induction name as [|c name IH]; intros [|d s] Hn; cbn [strip_case toLowerCase all_chars] in *; try done.
  - intros _. change ("" +:+ String "," t) with (String "," t). apply andb_true_iff in Hn as [Hn _]. unfold no_char in Hn. apply negb_true_iff in Hn. unfold same_letter.
    change (lower_ascii ",") with ","%char. by rewrite Hn.
  - change (String d s +:+ String "," t) with (String d (s +:+ String "," t)). cbn [strip_case]. apply andb_true_iff in Hn as [_ Hn]. destruct (same_letter c d); [|done].
    destruct (strip_case name s) as [[f r]|] eqn:E; cbn [mbind option_bind]; [done|]. intros _. by rewrite (IH _ Hn E).
Qed.
(** A host that does not begin as a protocol does. *)
Definition no_protocol (host : string) : bool := negb (existsb (fun name => is_some (strip_case name host)) ["tcp:"; "np:"; "lpc:"]).
Lemma server_splits host port : host_plain host = true -> no_protocol host = true -> (0 < port < 65536)%Z ->
  splitAdoServer (host +:+ "," +:+ show port) = (host, port).
Proof.
  intros Hh Hn Hp. unfold host_plain in Hh. apply andb_true_iff in Hh as [_ Hh]. unfold no_protocol in Hn. apply negb_true_iff in Hn. cbn [existsb] in Hn. rewrite !orb_false_iff in Hn.
  destruct Hn as (N1 & N2 & N3 & _). assert (without_protocol (host +:+ "," +:+ show port) = host +:+ "," +:+ show port) as E.
  { unfold without_protocol. change (host +:+ "," +:+ show port) with (host +:+ String "," (show port)).
    rewrite !strip_case_comma; try done; [by destruct (strip_case "lpc:" host)|by destruct (strip_case "np:" host)|by destruct (strip_case "tcp:" host)]. }
  unfold splitAdoServer. rewrite E. destruct (show_digits port ltac:(lia)) as (Hd & _).
  assert (forall f s, f ","%char = false -> all_chars f s = true -> all_chars (not_char ",") s = true) as Hno.
  { intros f s Hf Hs. eapply all_chars_impl; [|exact Hs]. intros c Hc'. unfold is_char. apply negb_true_iff, String.eqb_neq. intros [= ->]. congruence. }
  change (host +:+ "," +:+ show port) with (host +:+ String "," (show port)). rewrite split_on_part by by apply (Hno host_char). rewrite split_on_whole by by apply (Hno is_digit).
  cbn [head default id lookup list_lookup]. rewrite (class_trim host_char) by (done || (intros c Hc; by apply authority_space, host_authority)). by rewrite port_reads.
Qed.
Lemma ado_retarget value parsed host port : parseMssqlConnString value = Some (Some parsed) -> ado_editable value parsed ->
  host_plain host = true -> no_protocol host = true -> (0 < port < 65536)%Z ->
  exists value', retargetMssqlConnString value host port = Some value' /\
    ((js_length value' <= 4096)%Z -> parseMssqlConnString value' = Some (Some (set_server host port parsed))).
Proof.
  intros Hv [Hf Hs] Hh Hn Hport. pose proof (parse_ado _ _ Hv Hf) as Hr. unfold retargetMssqlConnString. rewrite Hv. cbn [mbind option_bind]. rewrite Hf. eexists. split; [reflexivity|].
  set (server := "Server=" +:+ host +:+ "," +:+ show port). pose proof Hh as Hc. unfold host_plain in Hc. apply andb_true_iff in Hc as [Hne Hc].
  pose proof (server_text_char host port Hc ltac:(lia)) as Ht.
  assert (segment_parts server = Some ("server", host +:+ "," +:+ show port)) as Hsp by done.
  assert (forall a, get_ado a server = if bool_decide (a = ado_server) then Some (host +:+ "," +:+ show port) else None) as Hg.
  { intros a. unfold get_ado, reading. rewrite Hsp. cbn [mbind option_bind]. rewrite server_value by done. by destruct a. }
  assert (ado_option server = None) as Ho by done.
  assert (closed_segment server = true) as Hcl.
  { subst server. change ("Server=" +:+ host +:+ "," +:+ show port) with ("Server=" +:+ (host +:+ "," +:+ show port)). unfold closed_segment.
    rewrite (scan_app "Server=" _ false false eq_refl), scan_server by done. by rewrite bool_decide_true. }
  assert ([server] ++ List.filter not_blank (kept_ado (ado_aliased [ado_server]) value) = List.filter not_blank ([server] ++ kept_ado (ado_aliased [ado_server]) value)) as ->.
  { cbn [app List.filter]. by rewrite (named_not_blank _ _ _ Hsp). }
  apply ado_rewrite; [apply Forall_app; split; [by constructor|by apply kept_closed]|].
  apply ado_connection_iff. apply ado_connection_iff in Hr. unfold ado_fields, last_ado, kept_ado in *. cbn [app omap list_omap]. rewrite !Hg, Ho.
  rewrite ado_options_kept by (intros; by apply ado_aliased_none). rewrite (ado_gone ado_server) by (apply ado_aliased_gone; by repeat constructor).
  rewrite !ado_kept by (apply ado_aliased_kept; alias_not). vm_compute bool_decide. cbn [last fmap option_fmap option_map default id a_server a_database a_user a_password a_params] in *.
  rewrite server_splits by done. cbn [set_server ms_form ms_host ms_port ms_database ms_user ms_password ms_params].
  destruct Hr as (? & ? & ? & ? & ? & ? & ?). repeat split; try done. intros ->. done.
Qed.

(** ** Properties *)

(** The options a string is left with. *)
Definition with_encrypt (parsed : ParsedMssqlConnString) (overrides : TlsOverrides) : gmap string string :=
  if insecure overrides then set_param "encrypt" (Some "false") (ms_params parsed)
  else if bool_decide (encryptModeOf parsed = encrypt_off) then set_param "encrypt" None (ms_params parsed)
  else ms_params parsed.
Definition with_tls (parsed : ParsedMssqlConnString) (overrides : TlsOverrides) : ParsedMssqlConnString :=
  set_ms_params (set_param "trustservercertificate" (if allowInvalidCertificates overrides then Some "true" else None) (with_encrypt parsed overrides)) parsed.
Lemma with_tls_modes parsed overrides :
  encryptModeOf (with_tls parsed overrides) = (if insecure overrides then encrypt_off else if bool_decide (encryptModeOf parsed = encrypt_off) then encrypt_on else encryptModeOf parsed)
  /\ trustsServerCertificate (with_tls parsed overrides) = allowInvalidCertificates overrides.
Proof.
  unfold with_tls, with_encrypt. split.
  - unfold encryptModeOf at 1, set_ms_params. cbn [ms_params].
    assert (forall o params, set_param "trustservercertificate" o params !! "encrypt" = params !! "encrypt") as -> by (intros [|] params; cbn [set_param]; [by rewrite lookup_insert_ne|by rewrite lookup_delete_ne]).
    destruct (insecure overrides); [by cbn [set_param]; rewrite lookup_insert_eq|]. case_bool_decide as Ho; [by cbn [set_param]; rewrite lookup_delete_eq|done].
  - unfold trustsServerCertificate, set_ms_params. cbn [ms_params]. destruct (allowInvalidCertificates overrides); cbn [set_param]; [by rewrite lookup_insert_eq|by rewrite lookup_delete_eq].
Qed.
Lemma same_params parsed : set_ms_params (ms_params parsed) parsed = parsed.
Proof. by destruct parsed. Qed.
Lemma mssql_overrides_applied value parsed overrides : parseMssqlConnString value = Some (Some parsed) -> ado_editable value parsed ->
  exists value', applyMssqlTlsOverrides value overrides = Some value' /\
    ((js_length value' <= 4096)%Z -> parseMssqlConnString value' = Some (Some (with_tls parsed overrides))).
Proof.
  intros Hv He. assert (exists v1, (if insecure overrides then withParam value "encrypt" (Some "false")
     else if bool_decide (encryptModeOf parsed = encrypt_off) then withParam value "encrypt" None else Some value) = Some v1 /\
     ((js_length v1 <= 4096)%Z -> let parsed' := set_ms_params (with_encrypt parsed overrides) parsed in parseMssqlConnString v1 = Some (Some parsed') /\ ado_editable v1 parsed')) as (v1 & E1 & H1).
  { unfold with_encrypt. destruct (insecure overrides); [by apply ado_param|]. destruct (bool_decide _); [by apply ado_param|]. exists value. split; [done|]. intros _. by rewrite same_params. }
  unfold applyMssqlTlsOverrides. rewrite Hv. cbn [mbind option_bind]. rewrite E1. cbn [mbind option_bind]. destruct (Z.le_gt_cases (js_length v1) 4096) as [Hl|Hl].
  - destruct (H1 Hl) as [P1 E]. destruct (ado_param v1 _ "trustservercertificate" (if allowInvalidCertificates overrides then Some "true" else None) P1 E) as (v2 & -> & H2); [done| |].
    { by destruct (allowInvalidCertificates overrides). }
    exists v2. split; [done|]. intros Hl2. destruct (H2 Hl2) as [-> _]. done.
  - assert (parseMssqlConnString v1 = Some None) as P1 by (unfold parseMssqlConnString; rewrite (proj2 (Z.ltb_lt _ _)) by lia; by rewrite orb_true_r).
    unfold withParam. rewrite P1. cbn [mbind option_bind]. exists v1. split; [done|]. lia.
Qed.


(** Handed to another user, or to another server, an ADO string reads with that
    user's credentials, whatever braces can quote, or with that server; everything
    else reads as it did. *)
Theorem mssql_rewrites_exact value parsed user password host port : parseMssqlConnString value = Some (Some parsed) -> ado_editable value parsed ->
  bracable user = true -> bracable password = true -> host_plain host = true -> no_protocol host = true -> (0 < port < 65536)%Z ->
  (exists value', withMssqlCredentials value user password = Some value' /\
     ((js_length value' <= 4096)%Z -> parseMssqlConnString value' = Some (Some (set_ms_credentials user password parsed))))
  /\ (exists value', retargetMssqlConnString value host port = Some value' /\
     ((js_length value' <= 4096)%Z -> parseMssqlConnString value' = Some (Some (set_server host port parsed)))).
Proof. intros. split; [by apply ado_credentials|by apply ado_retarget]. Qed.
End ado.

(** ** Witnesses *)

(** A platform that reads what comes before the first colon as a scheme and the rest
    as a host. *)
#[local] Instance some_urls : UrlApi := {|
  Url := UrlView;
  new_URL := fun value =>
    '(scheme, rest) ← at_first ":" value;
    if all_chars before_scheme scheme
    then Some {| protocol := scheme +:+ ":"; hostname := rest; url_port := ""; pathname := ""; username := ""; url_password := ""; searchParams := [] |}
    else None;
  url_view := id;
  set_hostname := fun host url => {| protocol := protocol url; hostname := host; url_port := url_port url; pathname := pathname url; username := username url;
                                     url_password := url_password url; searchParams := searchParams url |};
  set_port := fun _ url => url; set_username := fun _ url => url; set_password := fun _ url => url; set_search := fun _ url => url;
  url_toString := fun url => protocol url +:+ hostname url
|}.
#[local] Instance some_url_laws : @UrlLaws some_urls.
Proof.
  constructor. intros value url. cbn. destruct (at_first ":" value) as [[a rest]|] eqn:E; [|done]. cbn. destruct (all_chars before_scheme a) eqn:Ea; [|done].
  intros _. exists a, rest. split; [by apply at_first_some in E as [-> _]|done].
Defined.
Definition pasted_ado : string := "Server=tcp:sql.example,1444; Database=shop ;User Id=admin;Password={a;b=c};Encrypt=false;TrustServerCertificate=True;App=x".
Definition ms_parsed_of (value : string) : ParsedMssqlConnString :=
  match parseMssqlConnString value with
  | Some (Some parsed) => parsed
  | _ => {| ms_form := url_form; ms_host := ""; ms_port := 0; ms_database := ""; ms_user := ""; ms_password := ""; ms_params := ∅ |}
  end.
Lemma ado_editable_all value parsed : bool_decide (ms_form parsed = ado_form) = true -> forallb closed_segment (splitAdoSegments value) = true -> ado_editable value parsed.
Proof. intros Hf%bool_decide_eq_true Hs. split; [done|]. rewrite forallb_forall in Hs. apply Forall_forall. intros x Hx%list_elem_of_In. by apply Hs. Qed.
(** What is pasted as strict is made plaintext where plaintext is agreed to, which
    the comment on the function says it survives. *)
Theorem mssql_strict_weakened : exists value', applyMssqlTlsOverrides "Server=sql.example;Encrypt=strict" {| allowInvalidCertificates := false; allowInvalidHostnames := false; insecure := true |} = Some value'
  /\ value' = "Server=sql.example;encrypt=false".
Proof. eexists. split; [vm_compute; reflexivity|vm_compute; reflexivity]. Qed.
(** A password that holds a closing brace ends the quoting: what follows is read as
    an option of its own, and here as the server. *)
Theorem mssql_brace_redirects : exists value', withMssqlCredentials "Server=sql.example" "reader" "p};Server=evil.example;x={" = Some value'
  /\ mssqlHosts value' = Some ["evil.example:1433"].
Proof. eexists. split; [vm_compute; reflexivity|vm_compute; reflexivity]. Qed.
Lemma pasted_reads : parseMssqlConnString pasted_ado = Some (Some (ms_parsed_of pasted_ado)).
Proof. vm_compute. reflexivity. Qed.
Lemma pasted_editable : ado_editable pasted_ado (ms_parsed_of pasted_ado).
Proof. apply ado_editable_all; vm_compute; reflexivity. Qed.
Example mssql_rewrites_exact_witness : exists value', withMssqlCredentials pasted_ado "reader" "it's; {here" = Some value' /\ is_some (parseMssqlConnString value') = true.
Proof.
  destruct (mssql_rewrites_exact pasted_ado (ms_parsed_of pasted_ado) "reader" "it's; {here" "10.0.0.2" 1433 pasted_reads pasted_editable eq_refl eq_refl eq_refl eq_refl ltac:(lia))
    as ((value' & E & H) & _).
  exists value'. split; [exact E|]. rewrite H; [reflexivity|]. vm_compute in E. injection E as <-. vm_compute. discriminate.
Defined.
