(* ===== verification/Privileges.v ===== *)
(** What the credentials of a MongoDB cluster may do, and the role they run as:
    [apps/api/src/mongo/role.ts], [diagnose.ts] and [provision.ts], with the rules all
    engines share in [apps/api/src/engine/provision.ts] and [observe.ts] and the check
    of [apps/api/src/jobs/privilege-check.ts].

    A privilege is a resource and actions; what it authorizes is [grantsNamespace] of
    the code, on a namespace.  A diagnosis is a function of what the server answers.
    The server a user is provisioned on is a class of its commands. *)
From Stdlib Require Import Ascii.
From S2P Require Import Prelude EngineTypes Creates MongoReads Regex.

Local Open Scope string_scope.
Local Open Scope list_scope.

(** ** The scope of a diagnosis *)

Definition scopeForDiagnosis (available : list string) (observed : option (list string)) : list string :=
  match observed with
  | None => available
  | Some observed =>
      let scoped := List.filter (includes observed) available in
      if (0 <? length scoped)%nat then scoped else available
  end.
Definition unobservedDatabases (available : list string) (observed : option (list string)) : list string :=
  match observed with None => [] | Some observed => List.filter (fun name => negb (includes observed name)) available end.

(** ** The role *)

Definition ENGINE_ROLE : string := "indexterityEngine".
Inductive RoleResource := cluster_resource | namespace_resource (db collection : string).
#[global] Instance RoleResource_eq_dec : EqDecision RoleResource.
Proof. solve_decision. Defined.
Record RolePrivilege := { ro_resource : RoleResource; ro_actions : list string }.
Definition BASE_PRIVILEGES : list RolePrivilege := [
  {| ro_resource := cluster_resource; ro_actions := ["listDatabases"; "serverStatus"; "queryStatsRead"; "queryStatsReadTransformed"] |};
  {| ro_resource := namespace_resource "" ""; ro_actions := ["listCollections"; "listIndexes"; "indexStats"; "collStats"; "createIndex"; "dropIndex"; "collMod"] |};
  {| ro_resource := namespace_resource "" "system.profile"; ro_actions := ["find"] |};
  {| ro_resource := namespace_resource "config" "collections"; ro_actions := ["find"] |}
].
Record RoleChange := { rc_revision : Z; rc_release : string; rc_check : string; rc_grant : RolePrivilege }.
Definition ROLE_CHANGES : list RoleChange := [
  {| rc_revision := 1; rc_release := "0.29.0"; rc_check := "enableProfiler";
     rc_grant := {| ro_resource := namespace_resource "" ""; ro_actions := ["enableProfiler"] |} |}
].
Definition sameResource (a b : RoleResource) : bool := bool_decide (a = b).
(** The actions of a grant, on the first privilege of its resource or as one of
    their own. *)
Definition join_actions (held actions : list string) : list string :=
  foldl (fun held action => if includes held action then held else held ++ [action]) held actions.
Fixpoint fold_grant (out : list RolePrivilege) (grant : RolePrivilege) : list RolePrivilege :=
  match out with
  | [] => [grant]
  | privilege :: out =>
      if sameResource (ro_resource privilege) (ro_resource grant)
      then {| ro_resource := ro_resource privilege; ro_actions := join_actions (ro_actions privilege) (ro_actions grant) |} :: out
      else privilege :: fold_grant out grant
  end.
Definition withChanges (base : list RolePrivilege) (changes : list RoleChange) : list RolePrivilege := foldl fold_grant base (rc_grant <$> changes).
Definition ENGINE_PRIVILEGES : list RolePrivilege := withChanges BASE_PRIVILEGES ROLE_CHANGES.

(** [JSON.stringify] of a text, and of grants. *)
Definition json_string (s : string) : string := quote_char +:+ json_chars s +:+ quote_char.
Definition json_field (name value : string) : string := json_string name +:+ ":" +:+ value.
Definition resource_text (resource : RoleResource) : string :=
  match resource with
  | cluster_resource => "{" +:+ json_field "cluster" "true" +:+ "}"
  | namespace_resource db collection => "{" +:+ json_field "db" (json_string db) +:+ "," +:+ json_field "collection" (json_string collection) +:+ "}"
  end.
Definition grant_text (grant : RolePrivilege) : string :=
  "{" +:+ json_field "resource" (resource_text (ro_resource grant)) +:+ "," +:+
  json_field "actions" ("[" +:+ join "," (json_string <$> ro_actions grant) +:+ "]") +:+ "}".
Definition changes_after (changes : list RoleChange) (revision : Z) : list RoleChange := List.filter (fun change => revision <? rc_revision change)%Z changes.
Definition grantChangesStatement (revision : Z) : option string :=
  let grants := rc_grant <$> changes_after ROLE_CHANGES revision in
  match grants with
  | [] => None
  | _ => Some ("db.getSiblingDB(" +:+ json_string "admin" +:+ ").grantPrivilegesToRole(" +:+ json_string ENGINE_ROLE +:+ ", [" +:+ join "," (grant_text <$> grants) +:+ "])")
  end.

(** ** What is asked for *)

Inductive PrivilegeTier := CORE | APPLY | WORKLOAD | PROVISION | SURPLUS.
#[global] Instance PrivilegeTier_eq_dec : EqDecision PrivilegeTier.
Proof. solve_decision. Defined.
Inductive Scope := cluster_scope | anyDb (collection : option string) | exact (db collection : string).
Record RequiredPrivilege := {
  rp_key : string; rp_label : string; rp_enables : string; rp_tier : PrivilegeTier; rp_actions : list string; rp_scope : Scope
}.
Definition REQUIRED_PRIVILEGES : list RequiredPrivilege := [
  {| rp_key := "listDatabases"; rp_label := "List databases";
     rp_enables := "finding which databases to analyze";
     rp_tier := CORE; rp_actions := ["listDatabases"]; rp_scope := cluster_scope |};
  {| rp_key := "listCollections"; rp_label := "List collections";
     rp_enables := "finding collections inside each database";
     rp_tier := CORE; rp_actions := ["listCollections"]; rp_scope := anyDb None |};
  {| rp_key := "listIndexes"; rp_label := "List indexes";
     rp_enables := "reading index specs (keys, uniqueness, collation)";
     rp_tier := CORE; rp_actions := ["listIndexes"]; rp_scope := anyDb None |};
  {| rp_key := "indexStats"; rp_label := "Index usage stats ($indexStats)";
     rp_enables := "usage counters — the whole drop decision rests on these";
     rp_tier := CORE; rp_actions := ["indexStats"]; rp_scope := anyDb None |};
  {| rp_key := "collStats"; rp_label := "Collection stats ($collStats)";
     rp_enables := "sizes, document counts and read/write latency — ROI and the regression gates";
     rp_tier := CORE; rp_actions := ["collStats"]; rp_scope := anyDb None |};
  {| rp_key := "collMod"; rp_label := "Hide/unhide indexes (collMod)";
     rp_enables := "the reversible hide step before any drop";
     rp_tier := APPLY; rp_actions := ["collMod"]; rp_scope := anyDb None |};
  {| rp_key := "dropIndex"; rp_label := "Drop indexes";
     rp_enables := "removing an index after it survives the observe window";
     rp_tier := APPLY; rp_actions := ["dropIndex"]; rp_scope := anyDb None |};
  {| rp_key := "createIndex"; rp_label := "Create indexes";
     rp_enables := "building recommended indexes and undoing a drop";
     rp_tier := APPLY; rp_actions := ["createIndex"]; rp_scope := anyDb None |};
  {| rp_key := "queryStats"; rp_label := "Query stats ($queryStats)";
     rp_enables := "workload analysis without the profiler (full detail on mongo 8.0+)";
     rp_tier := WORKLOAD; rp_actions := ["queryStatsRead"; "queryStatsReadTransformed"]; rp_scope := cluster_scope |};
  {| rp_key := "serverStatus"; rp_label := "Server status";
     rp_enables := "the five-minute health probe (collection scans, lock queues) — " +:+ "note this also exposes connection counts, network totals and storage-engine internals";
     rp_tier := WORKLOAD; rp_actions := ["serverStatus"]; rp_scope := cluster_scope |};
  {| rp_key := "profiler"; rp_label := "Read system.profile";
     rp_enables := "workload analysis fallback, partial-index and TTL detection, and two drop safeguards — " +:+ "spotting indexes named by hint() and rolling back a hide that makes queries fail — " +:+ "while the profiler is on";
     rp_tier := WORKLOAD; rp_actions := ["find"]; rp_scope := anyDb (Some "system.profile") |};
  {| rp_key := "enableProfiler"; rp_label := "Turn the profiler on";
     rp_enables := "the failed-operations check on clusters whose profiler is off — for a hidden " +:+ "index's observe window, Indexterity records failed operations and hint() on " +:+ "that collection, keeps the slow-query log as it was, and gives the settings back after";
     rp_tier := WORKLOAD; rp_actions := ["enableProfiler"]; rp_scope := anyDb None |};
  {| rp_key := "shardConfig"; rp_label := "Read config.collections";
     rp_enables := "shard-key detection on sharded clusters";
     rp_tier := WORKLOAD; rp_actions := ["find"]; rp_scope := exact "config" "collections" |}
].
Definition PROVISION_PRIVILEGES : list RequiredPrivilege := [
  {| rp_key := "createRole"; rp_label := "Create a role (createRole)";
     rp_enables := "defining the " +:+ ENGINE_ROLE +:+ " role that scopes the user";
     rp_tier := PROVISION; rp_actions := ["createRole"]; rp_scope := exact "admin" "" |};
  {| rp_key := "createUser"; rp_label := "Create a user (createUser)";
     rp_enables := "creating the `indexterity` user Indexterity would run as";
     rp_tier := PROVISION; rp_actions := ["createUser"]; rp_scope := exact "admin" "" |};
  {| rp_key := "grantRole"; rp_label := "Grant a role (grantRole)";
     rp_enables := "attaching that role to that user";
     rp_tier := PROVISION; rp_actions := ["grantRole"]; rp_scope := exact "admin" "" |}
].
Definition SURPLUS_ROLES : list (string * string) := [
  ("root",
   "everything on the deployment — reading and rewriting every document, and creating users");
  ("userAdminAnyDatabase",
   "creating and altering users and roles on every database, which is how any grant is made");
  ("readWriteAnyDatabase",
   "reading and writing every document on every database");
  ("dbOwner",
   "reading, writing and administering everything in that database");
  ("dbAdminAnyDatabase",
   "administering every database — including dropping one — on top of the index actions the engine does use")
].
Definition WRITE_ACTIONS : list string := ["insert"; "update"; "remove"].

(** ** What is held *)

Record MongoResource := { mr_db : option string; mr_collection : option string; mr_cluster : option bool; mr_anyResource : option bool }.
Record MongoPrivilege := { mp_resource : MongoResource; mp_actions : list string }.
Record MongoRole := { role_name : string; role_db : string }.
Record MongoUser := { mu_user : string; mu_db : string }.

Definition grantsCluster (privileges : list MongoPrivilege) (action : string) : bool :=
  existsb (fun privilege =>
    (bool_decide (mr_cluster (mp_resource privilege) = Some true) || bool_decide (mr_anyResource (mp_resource privilege) = Some true))
    && includes (mp_actions privilege) action) privileges.
Definition covers_namespace (privilege : MongoPrivilege) (action db collection : string) : bool :=
  includes (mp_actions privilege) action &&
  (bool_decide (mr_anyResource (mp_resource privilege) = Some true) ||
   match mr_db (mp_resource privilege), mr_collection (mp_resource privilege) with
   | Some d, Some c => (String.eqb d "" || String.eqb d db) && (String.eqb c "" || String.eqb c collection)
   | _, _ => false
   end).
Definition grantsNamespace (privileges : list MongoPrivilege) (action db collection : string) : bool :=
  existsb (fun privilege => covers_namespace privilege action db collection) privileges.
Definition grants_action (scope : Scope) (privileges : list MongoPrivilege) (userDatabases : list string) (action : string) : bool :=
  match scope with
  | cluster_scope => grantsCluster privileges action
  | exact db collection => grantsNamespace privileges action db collection
  | anyDb collection =>
      let collection := collection ?? "" in
      grantsNamespace privileges action "" collection ||
      ((0 <? length userDatabases)%nat && forallb (fun db => grantsNamespace privileges action db collection) userDatabases)
  end.
Definition grants (required : RequiredPrivilege) (privileges : list MongoPrivilege) (userDatabases : list string) : bool :=
  forallb (grants_action (rp_scope required) privileges userDatabases) (rp_actions required).

Record PrivilegeCheck := {
  pc_key : string; pc_label : string; pc_enables : string; pc_tier : PrivilegeTier; pc_granted : bool; pc_command : option string
}.
Definition toCheck (required : RequiredPrivilege) (granted : bool) : PrivilegeCheck :=
  {| pc_key := rp_key required; pc_label := rp_label required; pc_enables := rp_enables required; pc_tier := rp_tier required;
     pc_granted := granted; pc_command := None |}.
Definition evaluatePrivileges (privileges : list MongoPrivilege) (userDatabases : list string) : list PrivilegeCheck :=
  (fun required => toCheck required (grants required privileges userDatabases)) <$> REQUIRED_PRIVILEGES.
Definition evaluateProvisioning (privileges : list MongoPrivilege) : list PrivilegeCheck :=
  (fun required => toCheck required (grants required privileges [])) <$> PROVISION_PRIVILEGES.
Definition canProvisionWith (privileges : list MongoPrivilege) : bool := forallb pc_granted (evaluateProvisioning privileges).

(** *** What is held and never used *)

Definition role_text (role db : string) : string := "{ role: " +:+ json_string role +:+ ", db: " +:+ json_string db +:+ " }".
Definition revokeRoles (user : option MongoUser) (held : list (string * list string)) : option string :=
  match user with
  | None => None
  | Some user =>
      let roles : list string := concat (List.map (fun '(role, on) => List.map (role_text role) on) held) in
      match roles with
      | [] => None
      | _ => Some ("db.getSiblingDB(" +:+ json_string (mu_db user) +:+ ").revokeRolesFromUser(" +:+ json_string (mu_user user) +:+ ", [" +:+ join ", " roles +:+ "])")
      end
  end.
Definition held_roles (roles : list MongoRole) : list (string * string * list string) :=
  List.filter (fun '(_, _, on) => (0 <? length on)%nat)
    ((fun '(role, holds) => (role, holds, role_db <$> List.filter (fun r => String.eqb (role_name r) role) roles)) <$> SURPLUS_ROLES).
Definition surplus_role (user : option MongoUser) (entry : string * string * list string) : PrivilegeCheck :=
  let '(role, holds, on) := entry in
  {| pc_key := "surplus_" +:+ role; pc_label := if bool_decide (on = ["admin"]) then role else role +:+ " on " +:+ join ", " on;
     pc_enables := holds; pc_tier := SURPLUS; pc_granted := true; pc_command := revokeRoles user [(role, on)] |}.
Definition write_required (action : string) : RequiredPrivilege :=
  {| rp_key := action; rp_label := action; rp_enables := action; rp_tier := SURPLUS; rp_actions := [action]; rp_scope := anyDb None |}.
Definition evaluateSurplus (roles : list MongoRole) (privileges : list MongoPrivilege) (userDatabases : list string) (user : option MongoUser) : list PrivilegeCheck :=
  let held := held_roles roles in
  let writeActions := List.filter (fun action => grants (write_required action) privileges userDatabases) WRITE_ACTIONS in
  (surplus_role user <$> held) ++
  (if (0 <? length writeActions)%nat then
     [{| pc_key := "surplus_write"; pc_label := join ", " writeActions +:+ " on the databases in scope";
         pc_enables :=
           if (0 <? length held)%nat
           then "changing the documents in your collections — which is what the role above carries. " +:+
                "Nothing in the pipeline writes a document: it lists, reads statistics, hides, drops " +:+
                "and creates indexes"
           else "changing the documents in your collections. Nothing in the pipeline writes a " +:+
                "document — it lists, reads statistics, hides, drops and creates indexes — so this " +:+
                "comes from a custom role, which only db.updateRole on that role can narrow";
         pc_tier := SURPLUS; pc_granted := true; pc_command := None |}]
   else []).

(** ** A diagnosis *)

(** *** The store of query statistics *)

Record QueryStatsSampling := { rateLimit : Q; sampleRate : option Q }.
Definition queryStatsAdvisory (sampling : option QueryStatsSampling) (version : option ServerVersion) : option string :=
  match sampling with
  | None => None
  | Some sampling =>
      let rate := sampleRate sampling ?? 0%Q in
      if Qle_bool rate 0 && Qeq_bool (rateLimit sampling) 0 then
        Some ("$queryStats is available but not sampling — internalQueryStatsRateLimit is 0, the " +:+
              "default, so the server records no query shapes. Set it (-1 records every shape) or " +:+
              "enable the profiler; otherwise index suggestions have no workload to read.")
      else if negb (hasQueryStatsPlanMetrics version) then
        Some ("$queryStats on MongoDB " +:+ ((sv_text <$> version) ?? "this release") +:+ " reports execution counts only — " +:+
              "it cannot say whether a query scanned or sorted in memory, which is what index " +:+
              "suggestions are made of. Enable the profiler on the databases you want analyzed, or " +:+
              "upgrade to 8.0 where the store carries plan metrics.")
      else if Qltb 0 rate && Qltb rate 1 then
        Some ("$queryStats is recording a sample — internalQueryStatsSampleRate is " +:+ number_text rate +:+ ", " +:+
              "so about " +:+ number_text (Math_round (rate * 1000) # 10) +:+ "% of executions are counted (0.01 is the " +:+
              "MongoDB 9.0 default). Counts are read as they are, so index suggestions come out weaker " +:+
              "than the workload warrants, and a query that runs rarely may never appear. Set it to 1 " +:+
              "to count every execution.")
      else None
  end.

(** *** What the server answers *)

Record ConnectionStatus := {
  authenticatedUsers : list MongoUser;
  authenticatedUserRoles : option (list MongoRole);
  authenticatedUserPrivileges : option (list MongoPrivilege)
}.
(** The answer to each command the diagnosis sends, or the message it fails with. *)
Record Answers := {
  an_version : string + option ServerVersion;
  an_status : string + ConnectionStatus;
  an_databases : string + list string;
  an_rateLimit : string + Q;
  an_sampleRate : string + Q
}.
Definition readQueryStatsSampling (answers : Answers) : option QueryStatsSampling :=
  match an_rateLimit answers with
  | inl _ => None
  | inr rate => Some {| rateLimit := rate; sampleRate := match an_sampleRate answers with inl _ => None | inr sample => Some sample end |}
  end.

Record ConnectionDiagnosis := {
  cd_reachable : bool; cd_message : option string; cd_username : option string; cd_authEnabled : bool; cd_canProvision : bool;
  cd_ready : bool; cd_canApply : bool; cd_privileges : list PrivilegeCheck; cd_surplus : list PrivilegeCheck;
  cd_missing : list string; cd_databases : list string
}.
Definition in_tier (tier : PrivilegeTier) (check : PrivilegeCheck) : bool := bool_decide (pc_tier check = tier).
Definition tier_granted (tier : PrivilegeTier) (privileges : list PrivilegeCheck) : bool := forallb pc_granted (List.filter (in_tier tier) privileges).
Definition summarize (privileges : list PrivilegeCheck) (reachable : bool) (message username : option string) (authEnabled canProvision : bool)
    (surplus : list PrivilegeCheck) (databases : list string) : ConnectionDiagnosis :=
  {| cd_reachable := reachable; cd_message := message; cd_username := username; cd_authEnabled := authEnabled; cd_canProvision := canProvision;
     cd_ready := tier_granted CORE privileges; cd_canApply := tier_granted APPLY privileges; cd_privileges := privileges; cd_surplus := surplus;
     cd_missing := pc_label <$> List.filter (fun check => negb (pc_granted check) && (in_tier CORE check || in_tier APPLY check)) privileges;
     cd_databases := databases |}.
Definition allGranted (granted : bool) : list PrivilegeCheck := (fun required => toCheck required granted) <$> (REQUIRED_PRIVILEGES ++ PROVISION_PRIVILEGES).
Definition failure (message : string) : ConnectionDiagnosis := summarize (allGranted false) false (Some message) None false false [] [].
(** [/Authentication failed|AuthenticationFailed|bad auth/i] and its twin. *)
Definition AUTH_FAILED : regex := One_of (Any_case <$> ["Authentication failed"; "AuthenticationFailed"; "bad auth"]).
Definition NO_ANSWER : regex := One_of (Any_case <$> ["getaddrinfo"; "ECONNREFUSED"; "ETIMEDOUT"; "Server selection timed out"]).
Definition failure_of (message : string) : ConnectionDiagnosis :=
  if test AUTH_FAILED message then failure "authentication failed — check the username and password."
  else if test NO_ANSWER message then failure "cluster unreachable — check the host, port and network access."
  else failure message.
Definition diagnoseConnection (allowUntestedVersions : bool) (answers : Answers) (observedDatabases : option (list string)) : ConnectionDiagnosis :=
  match an_version answers with
  | inl message => failure_of message
  | inr version =>
      match versionRefusal allowUntestedVersions version with
      | Some refusal => failure refusal
      | None =>
          match an_status answers with
          | inl message => failure_of message
          | inr status =>
              let privileges := authenticatedUserPrivileges status ?? [] in
              let roles := authenticatedUserRoles status ?? [] in
              let '(userDatabases, listWorks) := match an_databases answers with inr names => (withoutSystemDatabases names, true) | inl _ => ([], false) end in
              let inScope := scopeForDiagnosis userDatabases observedDatabases in
              match head (authenticatedUsers status) with
              | None =>
                  if listWorks then
                    summarize (allGranted true) true
                      (Some ("this deployment has authentication disabled — every privilege is available, " +:+
                             "and a dedicated user could not be enforced. Enable auth before production use."))
                      None false false [] userDatabases
                  else failure ("connected, but the string carries no credentials and the server requires them — " +:+
                                "add a username and password.")
              | Some user =>
                  let checks := evaluatePrivileges privileges inScope in
                  let provisioning := evaluateProvisioning privileges in
                  let grantedQueryStats := existsb (fun check => String.eqb (pc_key check) "queryStats" && pc_granted check) checks in
                  let advisory := if grantedQueryStats then queryStatsAdvisory (readQueryStatsSampling answers) version else None in
                  summarize (checks ++ provisioning) true advisory (Some (mu_user user)) true (forallb pc_granted provisioning)
                    (evaluateSurplus roles privileges inScope (Some user)) userDatabases
              end
          end
      end
  end.
Definition privilegesOnConnection (answers : Answers) (observedDatabases : option (list string)) : option (list PrivilegeCheck) :=
  match an_status answers with
  | inl _ => None
  | inr status =>
      match head (authenticatedUsers status) with
      | None => Some (allGranted true)
      | Some _ =>
          match an_databases answers with
          | inl _ => None
          | inr names => Some (evaluatePrivileges (authenticatedUserPrivileges status ?? []) (scopeForDiagnosis (withoutSystemDatabases names) observedDatabases))
          end
      end
  end.

(** ** What a release added *)

Record PrivilegeChange := { ch_revision : Z; ch_release : string; ch_key : string; ch_label : string; ch_enables : string }.
(** A change in the words of its check; [present] throws where there is none. *)
Definition change_of (change : RoleChange) : option PrivilegeChange :=
  (fun check => {| ch_revision := rc_revision change; ch_release := rc_release change; ch_key := rp_key check; ch_label := rp_label check; ch_enables := rp_enables check |})
  <$> List.find (fun required => String.eqb (rp_key required) (rc_check change)) REQUIRED_PRIVILEGES.
Definition PRIVILEGE_CHANGES : list PrivilegeChange := omap change_of ROLE_CHANGES.
Definition privilegeChanges (engine : ClusterEngine) : list PrivilegeChange := match engine with MONGODB => PRIVILEGE_CHANGES | _ => [] end.
Definition last_revision (changes : list PrivilegeChange) : Z := (ch_revision <$> last changes) ?? 0%Z.
Definition currentPrivilegesRevision (engine : ClusterEngine) : Z := last_revision (privilegeChanges engine).
Fixpoint held_from (held : Z) (changes : list PrivilegeChange) (checks : list PrivilegeCheck) : Z :=
  match changes with
  | [] => held
  | change :: changes =>
      match List.find (fun check => String.eqb (pc_key check) (ch_key change)) checks with
      | Some check => if pc_granted check then held_from (ch_revision change) changes checks else held
      | None => held
      end
  end.
Definition heldPrivilegesRevision (engine : ClusterEngine) (checks : list PrivilegeCheck) : Z := held_from 0 (privilegeChanges engine) checks.

Inductive CredentialPosture := PROVISIONED | ADMIN | SCOPED.
#[global] Instance CredentialPosture_eq_dec : EqDecision CredentialPosture.
Proof. solve_decision. Defined.
Record PrivilegesRow := {
  pr_engine : ClusterEngine; pr_credentialPosture : option CredentialPosture; pr_provisionedUsername : option string;
  privilegesRevision : Z; privilegesCheckedRevision : Z
}.
Record NewPrivileges := { np_pending : list PrivilegeChange; np_command : option string; np_canUpgrade : bool }.
Definition newPrivilegesFor (row : PrivilegesRow) : NewPrivileges :=
  let pending :=
    if bool_decide (pr_credentialPosture row = Some ADMIN) then []
    else List.filter (fun change => (privilegesRevision row <? ch_revision change)%Z && (ch_revision change <=? privilegesCheckedRevision row)%Z)
           (privilegeChanges (pr_engine row)) in
  let ours := is_some (pr_provisionedUsername row) && (0 <? length pending)%nat in
  {| np_pending := pending;
     np_command := if ours then match pr_engine row with MONGODB => grantChangesStatement (privilegesRevision row) | _ => None end else None;
     np_canUpgrade := ours && bool_decide (pr_engine row = MONGODB) |}.
(** [checkNewPrivileges]: the row as the collect leaves it. *)
Definition checkNewPrivileges (row : PrivilegesRow) (checkPrivileges : option (list PrivilegeCheck)) : PrivilegesRow :=
  let current := currentPrivilegesRevision (pr_engine row) in
  if (current <=? privilegesRevision row)%Z then row
  else match checkPrivileges with
       | None => row
       | Some checks =>
           let held := heldPrivilegesRevision (pr_engine row) checks in
           {| pr_engine := pr_engine row; pr_credentialPosture := pr_credentialPosture row; pr_provisionedUsername := pr_provisionedUsername row;
              privilegesRevision := Z.max (privilegesRevision row) held; privilegesCheckedRevision := Z.max (privilegesCheckedRevision row) current |}
       end.

(** ** Provisioning *)

Definition SCOPED_USERNAME : string := "indexterity".
Definition quote (text : string) : string := quote_char +:+ text +:+ quote_char.
Definition alreadyProvisionedMessage (dropCommand : string) : string :=
  "this cluster already has an Indexterity user called " +:+ quote SCOPED_USERNAME +:+ ", so it is " +:+
  "already connected here — open that cluster instead of adding the same one twice. " +:+
  "If it was disconnected and the user was left behind, remove it with " +:+ dropCommand +:+ " and provision again.".
Definition dropUserStatement (username : string) : string := "db.getSiblingDB(" +:+ quote "admin" +:+ ").dropUser(" +:+ quote username +:+ ")".
Definition isDuplicateUserError (error : DriverError) : bool :=
  de_server error && (bool_decide (de_code error = Some 51003%Z) || bool_decide (de_code error = Some 11000%Z) || test (Any_case "already exists") (de_message error)).
Definition withoutQueryStats (privileges : list RolePrivilege) : list RolePrivilege :=
  List.filter (fun privilege => (0 <? length (ro_actions privilege))%nat)
    ((fun privilege => {| ro_resource := ro_resource privilege; ro_actions := List.filter (fun name => negb (String.prefix "queryStats" name)) (ro_actions privilege) |}) <$> privileges).

(** The commands of the database [admin], and the ping of the probe. *)
Class AdminServer (Srv : Type) := {
  usersInfo : Srv -> string -> DriverError + bool;
  rolesInfo : Srv -> string -> DriverError + bool;
  createRole : string -> list RolePrivilege -> Srv -> Srv * (DriverError + unit);
  updateRole : string -> list RolePrivilege -> Srv -> Srv * (DriverError + unit);
  createUser : string -> string -> list string -> Srv -> Srv * (DriverError + unit);
  dropUser : string -> Srv -> Srv * (DriverError + unit);
  ping_as : string -> string -> Srv -> DriverError + unit
}.
Inductive ProvisionError := ProvisionDeniedError (message : string) | Raised (error : DriverError).

Section provisioning.
Context {Srv : Type} `{AdminServer Srv}.

Definition scopedUserExists (s : Srv) : bool := match usersInfo s SCOPED_USERNAME with inr found => found | inl _ => false end.
Definition upsertEngineRole (s : Srv) : Srv * (DriverError + unit) :=
  match rolesInfo s ENGINE_ROLE with
  | inl e => (s, inl e)
  | inr found =>
      let command := if found then updateRole else createRole in
      match command ENGINE_ROLE ENGINE_PRIVILEGES s with
      | (s, inl e) => if de_server e && text_includes (de_message e) "queryStatsRead" then command ENGINE_ROLE (withoutQueryStats ENGINE_PRIVILEGES) s else (s, inl e)
      | done_ => done_
      end
  end.
(** The user provisioned, or why not; the string it connects with is [scopedConnString]. *)
Definition provisionScopedUser (password : string) (s : Srv) : Srv * (ProvisionError + string) :=
  let username := SCOPED_USERNAME in
  let already := ProvisionDeniedError (alreadyProvisionedMessage (dropUserStatement username)) in
  if scopedUserExists s then (s, inl already)
  else
    let '(s, made) := match upsertEngineRole s with (s, inr tt) => createUser username password [ENGINE_ROLE] s | failed => failed end in
    match made with
    | inl e =>
        (s, inl (if isDuplicateUserError e then already
                 else if isAuthorizationError e then ProvisionDeniedError
                   ("these credentials cannot create roles/users on the cluster " +:+
                    "(Atlas manages users via its own UI/API) — create the scoped user there " +:+
                    "and connect with its string instead")
                 else Raised e))
    | inr tt =>
        match ping_as username password s with
        | inl e => ((dropUser username s).1, inl (Raised e))
        | inr tt => (s, inr username)
        end
    end.
Definition upgradeEngineRole (s : Srv) : Srv * (ProvisionError + unit) :=
  let raised e := if isAuthorizationError e then ProvisionDeniedError
      ("these credentials cannot change roles on the cluster — upgrading " +:+ ENGINE_ROLE +:+ " " +:+
       "needs userAdminAnyDatabase, or viewRole, grantRole and revokeRole on every " +:+
       "database including config, because the role's privileges reach all of them") else Raised e in
  match rolesInfo s ENGINE_ROLE with
  | inl e => (s, inl (raised e))
  | inr false => (s, inl (ProvisionDeniedError
      ("there is no " +:+ ENGINE_ROLE +:+ " role on this cluster to upgrade — the admin string " +:+
       "may point at a different cluster than the one Indexterity provisioned")))
  | inr true => match upsertEngineRole s with (s, inl e) => (s, inl (raised e)) | (s, inr tt) => (s, inr tt) end
  end.
End provisioning.

(** ** What the definitions are held against *)

(** A grant as [connectionStatus] gives it back. *)
Definition reported (privilege : RolePrivilege) : MongoPrivilege :=
  {| mp_resource := match ro_resource privilege with
                    | cluster_resource => {| mr_db := None; mr_collection := None; mr_cluster := Some true; mr_anyResource := None |}
                    | namespace_resource db collection => {| mr_db := Some db; mr_collection := Some collection; mr_cluster := None; mr_anyResource := None |}
                    end;
     mp_actions := ro_actions privilege |}.
(** What a requirement is on: every namespace of its scope, by a name of its own. *)
Definition wanted_on (scope : Scope) (db collection : string) : Prop :=
  match scope with
  | cluster_scope => False
  | anyDb None => db <> "" /\ collection <> ""
  | anyDb (Some c) => db <> "" /\ collection = c
  | exact d c => db = d /\ collection = c
  end.
(** The changes a cluster at a revision has had. *)
Definition changes_upto (changes : list RoleChange) (revision : Z) : list RoleChange := List.filter (fun change => rc_revision change <=? revision)%Z changes.
(** A role without one action of one resource. *)
Definition without_action (resource : RoleResource) (action : string) (role : list RolePrivilege) : list RolePrivilege :=
  (fun privilege => if sameResource (ro_resource privilege) resource
                    then {| ro_resource := ro_resource privilege; ro_actions := List.filter (fun a => negb (String.eqb a action)) (ro_actions privilege) |}
                    else privilege) <$> role.
Definition fails_check (privileges : list MongoPrivilege) (dbs : list string) : bool := existsb (fun check => negb (pc_granted check)) (evaluatePrivileges privileges dbs).

(** ** Namespaces *)

Lemma covers_iff p a db c :
  covers_namespace p a db c = true <->
  a ∈ mp_actions p /\ (mr_anyResource (mp_resource p) = Some true \/
    exists d c', mr_db (mp_resource p) = Some d /\ mr_collection (mp_resource p) = Some c' /\ (d = "" \/ d = db) /\ (c' = "" \/ c' = c)).
Proof.
  unfold covers_namespace. rewrite andb_true_iff, orb_true_iff, includes_spec, bool_decide_eq_true.
  destruct (mr_db (mp_resource p)) as [d|], (mr_collection (mp_resource p)) as [c'|];
    try (split; intros [Ha [Hr|Hr]]; try discriminate; auto; destruct Hr as (? & ? & ? & ? & _); discriminate).
  rewrite andb_true_iff, !orb_true_iff, !String.eqb_eq. split.
  - intros [Ha [Hr|[Hd Hc]]]; split; auto. right. eauto 8.
  - intros [Ha [Hr|(d' & c'' & Hd & Hc & Hd' & Hc')]]; simplify_eq; auto.
Qed.
Lemma grantsNamespace_iff ps a db c : grantsNamespace ps a db c = true <-> exists p, p ∈ ps /\ covers_namespace p a db c = true.
Proof. apply existsb_elem. Qed.
Lemma grantsNamespace_app ps qs a db c : grantsNamespace (ps ++ qs) a db c = grantsNamespace ps a db c || grantsNamespace qs a db c.
Proof. apply existsb_app. Qed.
Lemma grantsNamespace_cons p ps a db c : grantsNamespace (p :: ps) a db c = covers_namespace p a db c || grantsNamespace ps a db c.
Proof. done. Qed.
(** The probe of a wildcard stands for every name. *)
Lemma grants_everywhere ps a c db : grantsNamespace ps a "" c = true -> grantsNamespace ps a db c = true.
Proof.
  rewrite !grantsNamespace_iff. intros (p & Hp & Hc). exists p. split; [done|]. apply covers_iff in Hc. apply covers_iff.
  destruct Hc as [Ha [Hr|(d & c' & Hd & Hc & [->| ->] & Hc')]]; split; auto; right; eauto 8.
Qed.
Lemma grants_every_collection ps a db c : grantsNamespace ps a db "" = true -> grantsNamespace ps a db c = true.
Proof.
  rewrite !grantsNamespace_iff. intros (p & Hp & Hc). exists p. split; [done|]. apply covers_iff in Hc. apply covers_iff.
  destruct Hc as [Ha [Hr|(d & c' & Hd & Hc & Hd' & [->| ->])]]; split; auto; right; eauto 8.
Qed.
(** A name no privilege has: what covers it is a wildcard. *)
Definition db_names (ps : list MongoPrivilege) : list string := "" :: omap (fun p => mr_db (mp_resource p)) ps.
Definition collection_names (ps : list MongoPrivilege) : list string := "" :: omap (fun p => mr_collection (mp_resource p)) ps.
Lemma fresh_db ps a db c : db ∉ db_names ps -> grantsNamespace ps a db c = true -> grantsNamespace ps a "" c = true.
Proof.
  rewrite !grantsNamespace_iff. intros Hn (p & Hp & Hc). exists p. split; [done|]. apply covers_iff in Hc. apply covers_iff.
  destruct Hc as [Ha [Hr|(d & c' & Hd & Hc & [->| ->] & Hc')]]; split; auto; [right; eauto 8|].
  destruct Hn. right. apply list_elem_of_omap. eauto.
Qed.
Lemma fresh_collection ps a db c : c ∉ collection_names ps -> grantsNamespace ps a db c = true -> grantsNamespace ps a db "" = true.
Proof.
  rewrite !grantsNamespace_iff. intros Hn (p & Hp & Hc). exists p. split; [done|]. apply covers_iff in Hc. apply covers_iff.
  destruct Hc as [Ha [Hr|(d & c' & Hd & Hc & Hd' & [->| ->])]]; split; auto; [right; eauto 8|].
  destruct Hn. right. apply list_elem_of_omap. eauto.
Qed.
Definition fresh_of (l : list string) : string := fresh l.
Lemma fresh_of_nin l : fresh_of l ∉ l.
Proof. apply infinite_is_fresh. Qed.
Lemma fresh_of_db ps : fresh_of (db_names ps) <> "".
Proof. intros He. apply (fresh_of_nin (db_names ps)). rewrite He. left. Qed.
Lemma fresh_of_collection ps : fresh_of (collection_names ps) <> "".
Proof. intros He. apply (fresh_of_nin (collection_names ps)). rewrite He. left. Qed.

(** The probe asked of a database is every namespace wanted of it. *)
Definition asked_of (collection : option string) (c : string) : Prop := match collection with None => c <> "" | Some c' => c = c' end.
Lemma probe_database ps a db collection :
  grantsNamespace ps a db (collection ?? "") = true <-> forall c, asked_of collection c -> grantsNamespace ps a db c = true.
Proof.
  destruct collection as [c'|]; simpl; split.
  - intros Hg c ->. done.
  - auto.
  - intros Hg c _. by apply grants_every_collection.
  - intros Hall. apply (fresh_collection _ _ _ (fresh_of (collection_names ps))); [apply fresh_of_nin|].
    apply Hall, fresh_of_collection.
Qed.
Lemma probe_everywhere ps a collection :
  grantsNamespace ps a "" (collection ?? "") = true <-> forall db, db <> "" -> grantsNamespace ps a db (collection ?? "") = true.
Proof.
  split.
  - intros Hg db _. by apply grants_everywhere.
  - intros Hall. apply (fresh_db _ _ (fresh_of (db_names ps))); [apply fresh_of_nin|]. apply Hall, fresh_of_db.
Qed.
Lemma bool_decide_nonempty (l : list string) : (0 <? length l)%nat = true <-> l <> [].
Proof. destruct l; simpl; split; done. Qed.
Lemma grants_action_anyDb ps dbs collection a :
  grants_action (anyDb collection) ps dbs a = true <->
  (forall db c, wanted_on (anyDb collection) db c -> grantsNamespace ps a db c = true) \/
  (dbs <> [] /\ forall db, db ∈ dbs -> forall c, asked_of collection c -> grantsNamespace ps a db c = true).
Proof.
  unfold grants_action. rewrite orb_true_iff, andb_true_iff, forallb_elem, bool_decide_nonempty. f_equiv.
  - rewrite probe_everywhere. split.
    + intros Hall db c Hw. destruct collection as [c'|]; simpl in *; destruct Hw as [Hd Hc]; [subst; auto|].
      apply grants_every_collection. auto.
    + intros Hall db Hd. apply probe_database. intros c Hw. apply Hall. destruct collection; simpl in *; auto.
  - split; intros [Hn Hall]; (split; [done|]); intros db Hdb; [by apply probe_database, Hall|]. apply probe_database. auto.
Qed.

(** ** The role, folded from its changes *)

Lemma covers_actions r acts acts' a db c :
  (a ∈ acts <-> a ∈ acts') -> covers_namespace (reported {| ro_resource := r; ro_actions := acts |}) a db c = covers_namespace (reported {| ro_resource := r; ro_actions := acts' |}) a db c.
Proof. intros Hi. apply eq_bool_prop_intro. rewrite !Is_true_true, !covers_iff. simpl. rewrite Hi. done. Qed.
Lemma join_actions_in held actions a : a ∈ join_actions held actions <-> a ∈ held \/ a ∈ actions.
Proof.
  unfold join_actions. revert held. induction actions as [|b actions IH]; intros held; simpl; [set_solver|].
  rewrite IH. destruct (includes held b) eqn:Hb; [apply includes_spec in Hb|]; set_solver.
Qed.
Lemma covers_union r acts acts' a db c :
  covers_namespace (reported {| ro_resource := r; ro_actions := join_actions acts acts' |}) a db c =
  covers_namespace (reported {| ro_resource := r; ro_actions := acts |}) a db c || covers_namespace (reported {| ro_resource := r; ro_actions := acts' |}) a db c.
Proof. apply eq_bool_prop_intro. rewrite !Is_true_true, orb_true_iff, !covers_iff. simpl. rewrite join_actions_in. tauto. Qed.
Definition carries_cluster (a : string) (p : MongoPrivilege) : bool :=
  (bool_decide (mr_cluster (mp_resource p) = Some true) || bool_decide (mr_anyResource (mp_resource p) = Some true)) && includes (mp_actions p) a.
Lemma carries_union r acts acts' a :
  carries_cluster a (reported {| ro_resource := r; ro_actions := join_actions acts acts' |}) =
  carries_cluster a (reported {| ro_resource := r; ro_actions := acts |}) || carries_cluster a (reported {| ro_resource := r; ro_actions := acts' |}).
Proof.
  unfold carries_cluster. simpl. rewrite <- andb_orb_distrib_r. f_equal. apply eq_bool_prop_intro.
  rewrite !Is_true_true, orb_true_iff, !includes_spec. apply join_actions_in.
Qed.

(** What a privilege authorizes is what any of its actions does, so folding changes in
    only adds what they grant. *)
Section folding.
Context (f : MongoPrivilege -> bool).
Context (f_union : forall r acts acts', f (reported {| ro_resource := r; ro_actions := join_actions acts acts' |}) =
  f (reported {| ro_resource := r; ro_actions := acts |}) || f (reported {| ro_resource := r; ro_actions := acts' |})).

Lemma fold_grant_authorizes out grant : existsb f (reported <$> fold_grant out grant) = existsb f (reported <$> out) || f (reported grant).
Proof.
  induction out as [|[r acts] out IH]; simpl; [by rewrite orb_comm|]. destruct grant as [r' acts']. unfold sameResource. simpl.
  case_bool_decide; subst; rewrite !fmap_cons; cbn [existsb].
  - rewrite f_union. destruct (f (reported {| ro_resource := r'; ro_actions := acts |})), (f (reported {| ro_resource := r'; ro_actions := acts' |})); simpl; rewrite ?orb_true_r, ?orb_false_r; done.
  - rewrite IH. apply orb_assoc.
Qed.
Lemma withChanges_authorizes base changes :
  existsb f (reported <$> withChanges base changes) = existsb f (reported <$> base) || existsb f (reported <$> (rc_grant <$> changes)).
Proof.
  unfold withChanges. revert base. induction changes as [|change changes IH]; intros base; [simpl; by rewrite orb_false_r|].
  rewrite fmap_cons. cbn [foldl]. rewrite IH, fold_grant_authorizes. by rewrite <- orb_assoc.
Qed.
Lemma changes_split changes revision :
  existsb f (reported <$> (rc_grant <$> changes)) =
  existsb f (reported <$> (rc_grant <$> changes_upto changes revision)) || existsb f (reported <$> (rc_grant <$> changes_after changes revision)).
Proof.
  unfold changes_upto, changes_after. induction changes as [|change changes IH]; [done|]. rewrite !fmap_cons. cbn [existsb List.filter]. rewrite IH.
  destruct (Z.leb_spec (rc_revision change) revision); [rewrite (proj2 (Z.ltb_ge _ _)) by lia|rewrite (proj2 (Z.ltb_lt _ _)) by lia]; rewrite !fmap_cons; cbn [existsb].
  - apply orb_assoc.
  - rewrite orb_comm, <- orb_assoc. f_equal. apply orb_comm.
Qed.
Lemma upgraded_authorizes base changes revision :
  existsb f (reported <$> withChanges base changes) =
  existsb f (reported <$> withChanges base (changes_upto changes revision)) || existsb f (reported <$> (rc_grant <$> changes_after changes revision)).
Proof. by rewrite !withChanges_authorizes, (changes_split changes revision), orb_assoc. Qed.
End folding.

(** ** The role as provisioned *)

Lemma not_everywhere ps dbs collection a : (forall db, grantsNamespace ps a db (collection ?? "") = false) -> grants_action (anyDb collection) ps dbs a = false.
Proof.
  intros Hn. unfold grants_action. rewrite Hn. simpl. destruct dbs as [|db dbs]; [done|]. simpl. by rewrite Hn.
Qed.
Lemma engine_checks_granted dbs check : check ∈ evaluatePrivileges (reported <$> ENGINE_PRIVILEGES) dbs -> pc_granted check = true.
Proof.
  intros Hc. apply list_elem_of_fmap in Hc as (r & -> & Hr). apply forallb_elem. intros a Ha.
  enough (grants_action (rp_scope r) (reported <$> ENGINE_PRIVILEGES) [] a = true) as Hg.
  { destruct (rp_scope r); [done| |done]. unfold grants_action in *. rewrite orb_true_iff in *. destruct Hg as [Hg|Hg]; [auto|done]. }
  assert (forallb (fun r => forallb (grants_action (rp_scope r) (reported <$> ENGINE_PRIVILEGES) []) (rp_actions r)) REQUIRED_PRIVILEGES = true) as Hall by (vm_compute; reflexivity).
  rewrite forallb_elem in Hall. specialize (Hall r Hr). rewrite forallb_elem in Hall. auto.
Qed.
Lemma engine_find db c : grantsNamespace (reported <$> ENGINE_PRIVILEGES) "find" db c = true <-> c = "system.profile" \/ (db = "config" /\ c = "collections").
Proof.
  rewrite grantsNamespace_iff. split.
  - intros (p & Hp & Hc). apply covers_iff in Hc as [Ha Hr]. apply list_elem_of_fmap in Hp as (q & -> & Hq).
    assert (Forall (fun q => "find" ∈ ro_actions q -> ro_resource q = namespace_resource "" "system.profile" \/ ro_resource q = namespace_resource "config" "collections") ENGINE_PRIVILEGES) as Hall.
    { apply (bool_decide_unpack _). vm_compute. exact I. }
    rewrite Forall_forall in Hall. specialize (Hall q Hq Ha). destruct Hall as [Hn|Hn]; simpl in Hr; rewrite Hn in Hr; destruct Hr as [?|(d & c' & Hd & Hc & Hd' & Hc')]; simpl in *; simplify_eq; naive_solver.
  - intros [->|[-> ->]]; rewrite <- grantsNamespace_iff; [apply grants_everywhere|]; vm_compute; reflexivity.
Qed.
Lemma engine_writes_nothing db c action : action ∈ WRITE_ACTIONS -> grantsNamespace (reported <$> ENGINE_PRIVILEGES) action db c = false.
Proof.
  intros Ha. apply not_true_iff_false. rewrite grantsNamespace_iff. intros (p & Hp & Hc). apply covers_iff in Hc as [Hin _].
  assert (forallb (fun p => forallb (fun a => negb (includes (mp_actions p) a)) WRITE_ACTIONS) (reported <$> ENGINE_PRIVILEGES) = true) as Hall by (vm_compute; reflexivity).
  rewrite forallb_elem in Hall. specialize (Hall p Hp). rewrite forallb_elem in Hall. specialize (Hall action Ha).
  apply negb_true_iff, not_true_iff_false in Hall. apply Hall, includes_spec, Hin.
Qed.
Lemma engine_no_surplus dbs user :
  evaluateSurplus [{| role_name := ENGINE_ROLE; role_db := "admin" |}] (reported <$> ENGINE_PRIVILEGES) dbs user = [].
Proof.
  unfold evaluateSurplus. assert (held_roles [{| role_name := ENGINE_ROLE; role_db := "admin" |}] = []) as -> by (vm_compute; reflexivity).
  rewrite filter_nothing; [done|]. intros action Ha. unfold grants, write_required. cbn [rp_actions rp_scope forallb].
  rewrite not_everywhere; [done|]. intros db. by apply engine_writes_nothing.
Qed.
(** Taking an action away: on the databases in scope nothing else carries it. *)
Lemma only_on ps a collection :
  forallb (fun p => negb (includes (mp_actions p) a && negb (bool_decide (mr_anyResource (mp_resource p) = None) &&
    match mr_collection (mp_resource p) with Some c => negb (String.eqb c "") && negb (String.eqb c collection) | None => true end))) ps = true ->
  forall db, grantsNamespace ps a db collection = false.
Proof.
  intros Hall db. apply not_true_iff_false. rewrite grantsNamespace_iff. intros (p & Hp & Hc). apply covers_iff in Hc as [Ha Hr].
  rewrite forallb_elem in Hall. specialize (Hall p Hp). apply includes_spec in Ha. rewrite Ha in Hall.
  destruct Hr as [Hr|(d & c' & Hd & Hcol & _ & Hc)]; [by rewrite Hr in Hall|]. rewrite Hcol in Hall.
  destruct Hc as [->| ->]; [by destruct (bool_decide _)|]. rewrite String.eqb_refl in Hall. by destruct (bool_decide _), (String.eqb collection "").
Qed.
Lemma failing_check r ps dbs : r ∈ REQUIRED_PRIVILEGES -> grants r ps dbs = false -> fails_check ps dbs = true.
Proof.
  intros Hr Hg. apply existsb_elem. exists (toCheck r (grants r ps dbs)). split.
  - apply list_elem_of_fmap. eauto.
  - simpl. by rewrite Hg.
Qed.
(** The requirement that fails without an action, decided on the role alone. *)
Definition names_failing (ps : list MongoPrivilege) (r : RequiredPrivilege) : bool :=
  existsb (fun a =>
    match rp_scope r with
    | anyDb collection =>
        forallb (fun p => negb (includes (mp_actions p) a && negb (bool_decide (mr_anyResource (mp_resource p) = None) &&
          match mr_collection (mp_resource p) with Some c => negb (String.eqb c "") && negb (String.eqb c (collection ?? "")) | None => true end))) ps
    | scope => negb (grants_action scope ps [] a)
    end) (rp_actions r).
Lemma names_failing_sound ps r dbs : names_failing ps r = true -> grants r ps dbs = false.
Proof.
  intros Hn. apply existsb_elem in Hn as (a & Ha & Hn). apply not_true_iff_false. unfold grants. rewrite forallb_elem.
  intros Hall. specialize (Hall a Ha). destruct (rp_scope r) as [|collection|d c]; simpl in Hn.
  - simpl in Hall. by rewrite Hall in Hn.
  - rewrite not_everywhere in Hall; [done|]. by apply only_on.
  - simpl in Hall. by rewrite Hall in Hn.
Qed.
Lemma engine_minimal_lemma p a dbs : p ∈ ENGINE_PRIVILEGES -> a ∈ ro_actions p -> fails_check (reported <$> without_action (ro_resource p) a ENGINE_PRIVILEGES) dbs = true.
Proof.
  intros Hp Ha.
  assert (forallb (fun p => forallb (fun a => existsb (names_failing (reported <$> without_action (ro_resource p) a ENGINE_PRIVILEGES)) REQUIRED_PRIVILEGES) (ro_actions p)) ENGINE_PRIVILEGES = true) as Hall by (vm_compute; reflexivity).
  rewrite forallb_elem in Hall. specialize (Hall p Hp). rewrite forallb_elem in Hall. specialize (Hall a Ha).
  apply existsb_elem in Hall as (r & Hr & Hn). apply (failing_check r); [done|]. by apply names_failing_sound.
Qed.
(** What is left without the statistics of queries. *)
Lemma degraded_checks dbs :
  (fun check => (pc_key check, pc_granted check)) <$> evaluatePrivileges (reported <$> withoutQueryStats ENGINE_PRIVILEGES) dbs =
  (fun required => (rp_key required, negb (String.eqb (rp_key required) "queryStats"))) <$> REQUIRED_PRIVILEGES.
Proof.
  unfold evaluatePrivileges. rewrite <- list_fmap_compose. apply list_fmap_ext. intros i r Hr. simpl. f_equal.
  assert (forallb (fun r => Bool.eqb (forallb (grants_action (rp_scope r) (reported <$> withoutQueryStats ENGINE_PRIVILEGES) []) (rp_actions r)) (negb (String.eqb (rp_key r) "queryStats"))
    && (negb (String.eqb (rp_key r) "queryStats") || match rp_scope r with anyDb _ => false | _ => true end)) REQUIRED_PRIVILEGES = true) as Hall.
  { vm_compute. reflexivity. }
  rewrite forallb_elem in Hall. apply list_elem_of_lookup_2 in Hr. specialize (Hall r Hr). rewrite !andb_true_iff, orb_true_iff in Hall.
  destruct Hall as [He Hs]. apply eqb_prop in He. rewrite <- He. unfold grants. destruct (String.eqb (rp_key r) "queryStats") eqn:Hk; simpl in *.
  - destruct Hs as [Hs|Hs]; [done|]. by destruct (rp_scope r).
  - rewrite He. apply forallb_elem. rewrite forallb_elem in He. intros a Ha. specialize (He a Ha). destruct (rp_scope r); [done| |done].
    unfold grants_action in *. rewrite orb_true_iff in *. destruct He as [He|He]; [auto|done].
Qed.

(** ** The check of new privileges *)

Definition check_history (row : PrivilegesRow) (history : list (option (list PrivilegeCheck))) : PrivilegesRow := foldl checkNewPrivileges row history.
(** An answer that shows the action held, by the check of its name. *)
Definition shows_profiler (checks : list PrivilegeCheck) : bool :=
  match List.find (fun check => String.eqb (pc_key check) "enableProfiler") checks with Some check => pc_granted check | None => false end.
Definition PROFILER_CHANGE : PrivilegeChange :=
  {| ch_revision := 1; ch_release := "0.29.0"; ch_key := "enableProfiler"; ch_label := "Turn the profiler on";
     ch_enables := "the failed-operations check on clusters whose profiler is off — for a hidden " +:+
      "index's observe window, Indexterity records failed operations and hint() on " +:+
      "that collection, keeps the slow-query log as it was, and gives the settings back after" |}.
Lemma mongodb_changes : privilegeChanges MONGODB = [PROFILER_CHANGE].
Proof. vm_compute. reflexivity. Qed.
Lemma no_changes engine : engine <> MONGODB -> privilegeChanges engine = [].
Proof. by destruct engine. Qed.
Lemma held_profiler checks : heldPrivilegesRevision MONGODB checks = if shows_profiler checks then 1 else 0.
Proof.
  unfold heldPrivilegesRevision, shows_profiler. rewrite mongodb_changes. unfold held_from. cbn [ch_key ch_revision PROFILER_CHANGE].
  by destruct (List.find _ _) as [check|]; [destruct (pc_granted check)|].
Qed.
Definition row_at (row : PrivilegesRow) (held checked : Z) : PrivilegesRow :=
  {| pr_engine := pr_engine row; pr_credentialPosture := pr_credentialPosture row; pr_provisionedUsername := pr_provisionedUsername row;
     privilegesRevision := held; privilegesCheckedRevision := checked |}.
Lemma checked_by_now (checked : Z) (some : bool) : ((1 <=? (if some then Z.max checked 1 else checked)) = (1 <=? checked) || some)%Z.
Proof. destruct some; [|by rewrite orb_false_r]. rewrite orb_true_r. apply Z.leb_le. lia. Qed.
Lemma check_unchanged row history : (currentPrivilegesRevision (pr_engine row) <= privilegesRevision row)%Z -> check_history row history = row.
Proof.
  intros Hr. unfold check_history. induction history as [|answer history IH]; [done|]. cbn [foldl]. rewrite <- IH at 2. f_equal.
  unfold checkNewPrivileges. by rewrite (proj2 (Z.leb_le _ _)).
Qed.
Lemma check_mongodb row history : pr_engine row = MONGODB -> privilegesRevision row = 0 ->
  check_history row history =
  row_at row (if existsb shows_profiler (omap id history) then 1 else 0)
    (if existsb is_some history then Z.max (privilegesCheckedRevision row) 1 else privilegesCheckedRevision row).
Proof.
  intros Hm H0. assert (currentPrivilegesRevision MONGODB = 1) as Hc by (unfold currentPrivilegesRevision; by rewrite mongodb_changes).
  unfold check_history. induction history as [|answer history IH] using rev_ind; [destruct row; cbn in *; by subst|].
  rewrite foldl_app, IH, omap_app, !existsb_app. cbn [foldl]. clear IH. unfold checkNewPrivileges. cbn [pr_engine row_at]. rewrite Hm, Hc.
  cbn [privilegesRevision row_at]. destruct (existsb shows_profiler (omap id history)) eqn:Hs.
  - assert (existsb is_some history = true) as Hi.
    { apply existsb_elem in Hs as (checks & Hin & _). apply list_elem_of_omap in Hin as (o & Ho & He). apply existsb_elem. exists o.
      split; [done|]. by simpl in He; rewrite He. }
    rewrite Hi. done.
  - destruct answer as [checks|]; simpl; rewrite ?orb_false_r; [|done]. rewrite held_profiler. unfold row_at. simpl.
    rewrite orb_true_r. f_equal; try done; [by destruct (shows_profiler checks)|]. destruct (existsb is_some history); lia.
Qed.

(** ** Provisioning *)

(** What the commands do to the users and roles of the server: a command that fails
    leaves both as they were.  [role_of] and [user_of] are what is stored. *)
Class AdminLaws (Srv : Type) `{AdminServer Srv} := {
  role_of : Srv -> string -> option (list RolePrivilege);
  user_of : Srv -> string -> option (string * list string);
  usersInfo_stored s name found : usersInfo s name = inr found -> found = is_some (user_of s name);
  rolesInfo_stored s name found : rolesInfo s name = inr found -> found = is_some (role_of s name);
  createRole_stores name ps s :
    match createRole name ps s with
    | (s', inr _) => role_of s name = None /\ role_of s' = (fun n => if String.eqb n name then Some ps else role_of s n) /\ user_of s' = user_of s
    | (s', inl _) => role_of s' = role_of s /\ user_of s' = user_of s
    end;
  updateRole_stores name ps s :
    match updateRole name ps s with
    | (s', inr _) => is_some (role_of s name) = true /\ role_of s' = (fun n => if String.eqb n name then Some ps else role_of s n) /\ user_of s' = user_of s
    | (s', inl _) => role_of s' = role_of s /\ user_of s' = user_of s
    end;
  createUser_stores name pwd roles s :
    match createUser name pwd roles s with
    | (s', inr _) => user_of s name = None /\ user_of s' = (fun n => if String.eqb n name then Some (pwd, roles) else user_of s n) /\ role_of s' = role_of s
    | (s', inl _) => role_of s' = role_of s /\ user_of s' = user_of s
    end;
  dropUser_stores name s :
    match dropUser name s with
    | (s', inr _) => user_of s' = (fun n => if String.eqb n name then None else user_of s n) /\ role_of s' = role_of s
    | (s', inl _) => role_of s' = role_of s /\ user_of s' = user_of s
    end;
  ping_authenticates name pwd s : ping_as name pwd s = inr tt -> fst <$> user_of s name = Some pwd
}.
(** A role Indexterity writes. *)
Definition engine_role (role : list RolePrivilege) : Prop := role = ENGINE_PRIVILEGES \/ role = withoutQueryStats ENGINE_PRIVILEGES.

Section provisioned.
Context {Srv : Type} `{AdminLaws Srv}.

(** What upserting leaves: the users, every other role, and a role of ours if it succeeds. *)
Definition role_written (s s' : Srv) : Prop :=
  user_of s' = user_of s /\ (forall n, n <> ENGINE_ROLE -> role_of s' n = role_of s n).
Lemma command_writes (found : bool) ps s :
  match (if found then updateRole else createRole) ENGINE_ROLE ps s with
  | (s', inr _) => role_written s s' /\ role_of s' ENGINE_ROLE = Some ps
  | (s', inl _) => user_of s' = user_of s /\ role_of s' = role_of s
  end.
Proof.
  unfold role_written. destruct found; [pose proof (updateRole_stores ENGINE_ROLE ps s) as Hw; destruct (updateRole _ _ _) as [s' [e|u]]
    |pose proof (createRole_stores ENGINE_ROLE ps s) as Hw; destruct (createRole _ _ _) as [s' [e|u]]]; [tauto| |tauto|];
    destruct Hw as (_ & -> & ->); rewrite String.eqb_refl; (split; [split; [done|]|done]); intros n Hn; by rewrite (proj2 (String.eqb_neq _ _) Hn).
Qed.
Lemma upsert_writes s :
  match upsertEngineRole s with
  | (s', inr _) => role_written s s' /\ exists role, role_of s' ENGINE_ROLE = Some role /\ engine_role role
  | (s', inl _) => user_of s' = user_of s /\ role_of s' = role_of s
  end.
Proof.
  unfold upsertEngineRole. destruct (rolesInfo s ENGINE_ROLE) as [e|found]; [done|].
  pose proof (command_writes found ENGINE_PRIVILEGES s) as Hw. destruct ((if found then updateRole else createRole) ENGINE_ROLE ENGINE_PRIVILEGES s) as [s1 [e|u]].
  - destruct (de_server e && text_includes (de_message e) "queryStatsRead"); [|done].
    pose proof (command_writes found (withoutQueryStats ENGINE_PRIVILEGES) s1) as Hw1. unfold role_written, engine_role in *.
    destruct ((if found then updateRole else createRole) ENGINE_ROLE (withoutQueryStats ENGINE_PRIVILEGES) s1) as [s2 [e2|u]].
    + destruct Hw as [Hu Hr], Hw1 as [Hu1 Hr1]. by rewrite Hu1, Hr1.
    + destruct Hw as [Hu Hr], Hw1 as [[Hu1 Hr1] Ho]. rewrite Hu1, Hu. split; [split; [done|]|eauto]. intros n Hn. by rewrite Hr1, Hr.
  - destruct Hw as [Hw Ho]. split; [done|]. exists ENGINE_PRIVILEGES. split; [done|by left].
Qed.
(** A failed probe takes the user away again, unless the drop fails too. *)
Lemma drop_undoes pwd roles s s1 :
  user_of s SCOPED_USERNAME = None -> user_of s1 = (fun n => if String.eqb n SCOPED_USERNAME then Some (pwd, roles) else user_of s n) ->
  role_of (dropUser SCOPED_USERNAME s1).1 = role_of s1 /\
  ((forall n, user_of (dropUser SCOPED_USERNAME s1).1 n = user_of s n) \/ exists e, (dropUser SCOPED_USERNAME s1).2 = inl e /\ user_of (dropUser SCOPED_USERNAME s1).1 = user_of s1).
Proof.
  intros Hn Hs. pose proof (dropUser_stores SCOPED_USERNAME s1) as Hd. destruct (dropUser SCOPED_USERNAME s1) as [s2 [e|u]]; simpl.
  - destruct Hd as [-> ->]. eauto.
  - destruct Hd as [-> ->]. split; [done|]. left. intros n. destruct (String.eqb_spec n SCOPED_USERNAME) as [->|Hne]; [done|].
    rewrite Hs. by rewrite (proj2 (String.eqb_neq _ _) Hne).
Qed.
End provisioned.

(** *** A server in memory *)

(** The roles and users it holds, whether it knows the actions of the statistics of
    queries, and whether its users can connect. *)
Record MemServer := { ms_roles : string -> option (list RolePrivilege); ms_users : string -> option (string * list string); ms_queryStats : bool; ms_reachable : bool }.
Definition ms_refused (code : option Z) (message : string) : DriverError := {| de_server := true; de_code := code; de_message := message |}.
Definition ms_write (name : string) (ps : list RolePrivilege) (s : MemServer) : MemServer :=
  {| ms_roles := fun n => if String.eqb n name then Some ps else ms_roles s n; ms_users := ms_users s; ms_queryStats := ms_queryStats s; ms_reachable := ms_reachable s |}.
Definition ms_accepts (ps : list RolePrivilege) (s : MemServer) : bool := ms_queryStats s || forallb (fun p => negb (includes (ro_actions p) "queryStatsRead")) ps.
Definition ms_with_users (users : string -> option (string * list string)) (s : MemServer) : MemServer :=
  {| ms_roles := ms_roles s; ms_users := users; ms_queryStats := ms_queryStats s; ms_reachable := ms_reachable s |}.
#[global] Instance mem_admin : AdminServer MemServer := {
  usersInfo s name := inr (is_some (ms_users s name));
  rolesInfo s name := inr (is_some (ms_roles s name));
  createRole name ps s :=
    if is_some (ms_roles s name) then (s, inl (ms_refused (Some 51002%Z) "Role already exists"))
    else if ms_accepts ps s then (ms_write name ps s, inr tt) else (s, inl (ms_refused (Some 9%Z) "Unrecognized action privilege strings: queryStatsRead"));
  updateRole name ps s :=
    if negb (is_some (ms_roles s name)) then (s, inl (ms_refused (Some 31%Z) "No role named that"))
    else if ms_accepts ps s then (ms_write name ps s, inr tt) else (s, inl (ms_refused (Some 9%Z) "Unrecognized action privilege strings: queryStatsRead"));
  createUser name pwd roles s :=
    if is_some (ms_users s name) then (s, inl (ms_refused (Some 51003%Z) "User already exists"))
    else (ms_with_users (fun n => if String.eqb n name then Some (pwd, roles) else ms_users s n) s, inr tt);
  dropUser name s := (ms_with_users (fun n => if String.eqb n name then None else ms_users s n) s, inr tt);
  ping_as name pwd s :=
    if ms_reachable s && bool_decide (fst <$> ms_users s name = Some pwd) then inr tt
    else inl {| de_server := false; de_code := None; de_message := "connection refused" |}
}.
#[global] Instance mem_laws : AdminLaws MemServer.
Proof.
  refine {| role_of := ms_roles; user_of := ms_users |}.
  - by intros s name found [= <-].
  - by intros s name found [= <-].
  - intros name ps s. simpl. destruct (ms_roles s name); [done|]. by destruct (ms_accepts ps s).
  - intros name ps s. simpl. destruct (ms_roles s name); [|done]. by destruct (ms_accepts ps s).
  - intros name pwd roles s. simpl. by destruct (ms_users s name).
  - done.
  - intros name pwd s. simpl. destruct (ms_reachable s); [|done]. simpl. by case_bool_decide.
Defined.
Definition mem_empty (queryStats reachable : bool) : MemServer := {| ms_roles := fun _ => None; ms_users := fun _ => None; ms_queryStats := queryStats; ms_reachable := reachable |}.

(** ** The theorems *)

(** C28. The role Indexterity provisions is exactly what it checks for.  A user that holds it
    alone diagnoses clean whatever the databases in scope: every check is granted, and
    nothing it holds is surplus.  It is least: without any one action of any one
    privilege some check fails.  It reads no document: [find] is authorized on
    [system.profile] and [config.collections] and on no other namespace, and no action
    that changes a document is authorized anywhere. *)
Theorem engine_role_exact (dbs : list string) (user : option MongoUser) :
  (forall check, check ∈ evaluatePrivileges (reported <$> ENGINE_PRIVILEGES) dbs -> pc_granted check = true) /\
  evaluateSurplus [{| role_name := ENGINE_ROLE; role_db := "admin" |}] (reported <$> ENGINE_PRIVILEGES) dbs user = [] /\
  (forall p a, p ∈ ENGINE_PRIVILEGES -> a ∈ ro_actions p ->
    fails_check (reported <$> without_action (ro_resource p) a ENGINE_PRIVILEGES) dbs = true) /\
  (forall db c, grantsNamespace (reported <$> ENGINE_PRIVILEGES) "find" db c = true <-> c = "system.profile" \/ (db = "config" /\ c = "collections")) /\
  (forall action db c, action ∈ WRITE_ACTIONS -> grantsNamespace (reported <$> ENGINE_PRIVILEGES) action db c = false).
Proof.
  split; [apply engine_checks_granted|]. split; [apply engine_no_surplus|]. split; [intros; by apply engine_minimal_lemma|].
  split; [apply engine_find|]. intros. by apply engine_writes_nothing.
Qed.

(** On a server that knows no statistics of queries the role is granted without them, and
    then that check alone fails. *)
Theorem degraded_role_exact (dbs : list string) :
  (fun check => (pc_key check, pc_granted check)) <$> evaluatePrivileges (reported <$> withoutQueryStats ENGINE_PRIVILEGES) dbs =
  (fun required => (rp_key required, negb (String.eqb (rp_key required) "queryStats"))) <$> REQUIRED_PRIVILEGES.
Proof. apply degraded_checks. Qed.

(** A check says what it is read as.  It is granted exactly when each of its actions is
    authorized on every namespace of its scope: cluster-wide; on the one namespace; or
    on the collections asked of, either of every database there could be, or of every
    database in scope, of which there is one. *)
Theorem check_exact (required : RequiredPrivilege) (privileges : list MongoPrivilege) (dbs : list string) :
  grants required privileges dbs = true <->
  forall action, action ∈ rp_actions required ->
    match rp_scope required with
    | cluster_scope => exists p, p ∈ privileges /\ carries_cluster action p = true
    | exact db c => grantsNamespace privileges action db c = true
    | anyDb collection =>
        (forall db c, wanted_on (anyDb collection) db c -> grantsNamespace privileges action db c = true) \/
        (dbs <> [] /\ forall db, db ∈ dbs -> forall c, asked_of collection c -> grantsNamespace privileges action db c = true)
    end.
Proof.
  unfold grants. rewrite forallb_elem. apply forall_proper. intros action. destruct (rp_scope required) as [|collection|d c].
  - unfold grants_action, grantsCluster. by rewrite existsb_elem.
  - by rewrite grants_action_anyDb.
  - done.
Qed.

(** A role left at an old revision, and the grants of the changes after it, authorize
    what the role of today does: on every namespace, and on the cluster. *)
Theorem upgrade_statement_exact (base : list RolePrivilege) (changes : list RoleChange) (revision : Z) (action db c : string) :
  let held := reported <$> withChanges base (changes_upto changes revision) in
  let granted := reported <$> (rc_grant <$> changes_after changes revision) in
  grantsNamespace (reported <$> withChanges base changes) action db c = grantsNamespace (held ++ granted) action db c /\
  grantsCluster (reported <$> withChanges base changes) action = grantsCluster (held ++ granted) action.
Proof.
  simpl. unfold grantsNamespace, grantsCluster. rewrite !existsb_app. split.
  - apply upgraded_authorizes. intros. apply covers_union.
  - apply (upgraded_authorizes (carries_cluster action)). intros. apply carries_union.
Qed.

(** C30. What a cluster's owner is told of privileges a release added, after any history of
    collects, answered or not, from wherever its row started. The change there is, the
    profiler's, is shown exactly on a MongoDB cluster that is not connected as an
    administrator, whose row has not reached the change, of which a check has been
    answered, and of which no answer since shows the action held; the statement that grants it and the upgrade are offered exactly where it is shown and
    the cluster's user was provisioned. *)
Theorem notice_exact (row : PrivilegesRow) (history : list (option (list PrivilegeCheck))) : (0 <= privilegesRevision row)%Z ->
  let told := newPrivilegesFor (check_history row history) in
  let shown := bool_decide (pr_engine row = MONGODB) && negb (bool_decide (pr_credentialPosture row = Some ADMIN)) && (privilegesRevision row =? 0)%Z &&
    ((1 <=? privilegesCheckedRevision row)%Z || existsb is_some history) && negb (existsb shows_profiler (omap id history)) in
  np_pending told = (if shown then [PROFILER_CHANGE] else []) /\
  np_canUpgrade told = shown && is_some (pr_provisionedUsername row) /\
  np_command told = (if shown && is_some (pr_provisionedUsername row) then grantChangesStatement 0 else None).
Proof.
  intros Hr. cbn zeta. destruct (decide (pr_engine row = MONGODB)) as [Hm|Hne].
  - rewrite (bool_decide_eq_true_2 (pr_engine row = MONGODB)) by done. destruct (Z.eqb_spec (privilegesRevision row) 0) as [H0|Hn0].
    + rewrite check_mongodb by done. unfold newPrivilegesFor. cbn [pr_credentialPosture row_at pr_engine privilegesRevision privilegesCheckedRevision pr_provisionedUsername].
      rewrite Hm, mongodb_changes, (bool_decide_eq_true_2 (MONGODB = MONGODB)) by done. cbn [List.filter ch_revision PROFILER_CHANGE].
      case_bool_decide; [by rewrite !andb_false_r|]. rewrite checked_by_now.
      by destruct ((1 <=? _)%Z || _), (existsb shows_profiler (omap id history)), (pr_provisionedUsername row).
    + assert (currentPrivilegesRevision (pr_engine row) = 1) as Hc by (unfold currentPrivilegesRevision; by rewrite Hm, mongodb_changes).
      rewrite check_unchanged by lia. unfold newPrivilegesFor. rewrite Hm, mongodb_changes. cbn [List.filter ch_revision PROFILER_CHANGE].
      rewrite (proj2 (Z.ltb_ge _ _)) by lia. cbn [andb]. rewrite !andb_false_r. cbn [andb].
      by destruct (bool_decide _), (is_some (pr_provisionedUsername row)).
  - assert (currentPrivilegesRevision (pr_engine row) = 0) as Hc by (unfold currentPrivilegesRevision; by rewrite no_changes).
    rewrite check_unchanged by lia. unfold newPrivilegesFor. rewrite (no_changes _ Hne), (bool_decide_eq_false_2 (pr_engine row = MONGODB)) by done.
    by destruct (bool_decide (pr_credentialPosture row = Some ADMIN)), (is_some (pr_provisionedUsername row)).
Qed.

(** C29. Provisioning, on every outcome.  Users and roles of other names are as they were.
    Success means there was no user of ours and there is one, with the password given
    and the one role, which holds what the engine runs, or that less the statistics of
    queries.  Failure leaves our user as it was, unless the server made it, the probe
    failed and the drop failed too.  A user already there is never replaced, and one
    the server tells of is refused before anything is written. *)
Theorem provision_exact {Srv : Type} `{AdminLaws Srv} (password : string) (s : Srv) :
  let '(s', result) := provisionScopedUser password s in
  (forall n, n <> ENGINE_ROLE -> role_of s' n = role_of s n) /\
  (forall n, n <> SCOPED_USERNAME -> user_of s' n = user_of s n) /\
  (usersInfo s SCOPED_USERNAME = inr true ->
    s' = s /\ result = inl (ProvisionDeniedError (alreadyProvisionedMessage (dropUserStatement SCOPED_USERNAME)))) /\
  match result with
  | inr username =>
      username = SCOPED_USERNAME /\ user_of s SCOPED_USERNAME = None /\ user_of s' SCOPED_USERNAME = Some (password, [ENGINE_ROLE]) /\
      exists role, role_of s' ENGINE_ROLE = Some role /\ engine_role role
  | inl _ =>
      user_of s' SCOPED_USERNAME = user_of s SCOPED_USERNAME \/
      (user_of s SCOPED_USERNAME = None /\ user_of s' SCOPED_USERNAME = Some (password, [ENGINE_ROLE]) /\
       exists s1 e, dropUser SCOPED_USERNAME s1 = (s', inl e))
  end.
Proof.
  unfold provisionScopedUser, scopedUserExists. destruct (usersInfo s SCOPED_USERNAME) as [e0|[]] eqn:Hinfo; [| |].
  2: { split; [done|]. split; [done|]. split; [done|]. by left. }
  all: pose proof (upsert_writes s) as Hup; destruct (upsertEngineRole s) as [s1 [e|[]]];
    [destruct Hup as [Hu Hr]; rewrite Hu, Hr; repeat split; try done; by left|].
  all: destruct Hup as [[Hu Hr] (role & Hrole & Hengine)]; pose proof (createUser_stores SCOPED_USERNAME password [ENGINE_ROLE] s1) as Hc;
    destruct (createUser SCOPED_USERNAME password [ENGINE_ROLE] s1) as [s2 [e|[]]];
    [destruct Hc as [Hr2 Hu2]; rewrite Hu2, Hr2, Hu; repeat split; try done; by left|].
  all: destruct Hc as (Hn & Hu2 & Hr2); rewrite Hu in Hu2, Hn.
  all: destruct (ping_as SCOPED_USERNAME password s2) as [e|[]];
    [|rewrite Hu2, Hr2, String.eqb_refl; split; [done|]; split; [intros n Hne; by rewrite (proj2 (String.eqb_neq _ _) Hne)|]; split; [done|]; eauto 8].
  all: destruct (drop_undoes password [ENGINE_ROLE] s s2 Hn Hu2) as [Hr3 Hd]; rewrite Hr3, Hr2; split; [done|].
  all: destruct Hd as [Hd|(e' & He & Hd)]; [split; [by intros n _|]; split; [done|]; by left|].
  all: rewrite Hd, Hu2, String.eqb_refl; split; [intros n Hne; by rewrite (proj2 (String.eqb_neq _ _) Hne)|]; split; [done|]; right; split; [done|]; split; [done|].
  all: exists s2, e'; rewrite <- He; by destruct (dropUser SCOPED_USERNAME s2).
Qed.

(** Upgrading the role: only on a cluster that has it, nobody's user changes, no other
    role does, and success leaves the role of today. *)
Theorem upgrade_role_exact {Srv : Type} `{AdminLaws Srv} (s : Srv) :
  let '(s', result) := upgradeEngineRole s in
  user_of s' = user_of s /\ (forall n, n <> ENGINE_ROLE -> role_of s' n = role_of s n) /\
  match result with
  | inr _ => is_some (role_of s ENGINE_ROLE) = true /\ exists role, role_of s' ENGINE_ROLE = Some role /\ engine_role role
  | inl _ => role_of s' ENGINE_ROLE = role_of s ENGINE_ROLE
  end.
Proof.
  unfold upgradeEngineRole. destruct (rolesInfo s ENGINE_ROLE) as [e|[]] eqn:Hinfo; [done| |done].
  apply rolesInfo_stored in Hinfo. pose proof (upsert_writes s) as Hup. destruct (upsertEngineRole s) as [s1 [e|[]]].
  - by destruct Hup as [-> ->].
  - destruct Hup as [[Hu Hr] Hrole]. split; [done|]. split; [done|]. by split.
Qed.

Lemma checked_granted tier dbs provisioning :
  Forall (fun check => pc_tier check = PROVISION) provisioning -> tier <> PROVISION ->
  tier_granted tier (evaluatePrivileges (reported <$> ENGINE_PRIVILEGES) dbs ++ provisioning) = true.
Proof.
  intros Hp Ht. unfold tier_granted. apply forallb_elem. intros check Hc. apply elem_of_filter_bool in Hc as [Hin Hc].
  apply elem_of_app in Hin as [Hin|Hin]; [by apply engine_checks_granted in Hin|].
  rewrite Forall_forall in Hp. apply Hp in Hin. unfold in_tier in Hc. apply bool_decide_eq_true in Hc. congruence.
Qed.
Lemma none_missing dbs provisioning :
  Forall (fun check => pc_tier check = PROVISION) provisioning ->
  List.filter (fun check => negb (pc_granted check) && (in_tier CORE check || in_tier APPLY check)) (evaluatePrivileges (reported <$> ENGINE_PRIVILEGES) dbs ++ provisioning) = [].
Proof.
  intros Hp. apply filter_nothing. intros check Hin. apply elem_of_app in Hin as [Hin|Hin].
  - by rewrite (engine_checks_granted _ _ Hin).
  - rewrite Forall_forall in Hp. apply Hp in Hin. unfold in_tier. rewrite Hin. by rewrite andb_false_r.
Qed.
Lemma provisioning_tier privileges : Forall (fun check => pc_tier check = PROVISION) (evaluateProvisioning privileges).
Proof. unfold evaluateProvisioning, PROVISION_PRIVILEGES. by repeat constructor. Qed.

(** The user Indexterity provisions, diagnosed by any server whose version is not
    refused, on any databases and any selection of them: ready, able to apply, nothing
    missing and nothing surplus, and not able to make another user. *)
Theorem provisioned_diagnosis allow version name names observed rate sample :
  versionRefusal allow version = None ->
  let d := diagnoseConnection allow
    {| an_version := inr version;
       an_status := inr {| authenticatedUsers := [{| mu_user := name; mu_db := "admin" |}];
                           authenticatedUserRoles := Some [{| role_name := ENGINE_ROLE; role_db := "admin" |}];
                           authenticatedUserPrivileges := Some (reported <$> ENGINE_PRIVILEGES) |};
       an_databases := names; an_rateLimit := rate; an_sampleRate := sample |} observed in
  cd_reachable d = true /\ cd_ready d = true /\ cd_canApply d = true /\ cd_missing d = [] /\ cd_surplus d = [] /\ cd_canProvision d = false /\ cd_authEnabled d = true.
Proof.
  intros Hv. cbn zeta. unfold diagnoseConnection. cbn [an_version an_status an_databases]. rewrite Hv.
  cbn [authenticatedUsers authenticatedUserRoles authenticatedUserPrivileges default from_option id]. cbn [head hd_error].
  change (head [{| mu_user := name; mu_db := "admin" |}]) with (Some {| mu_user := name; mu_db := "admin" |}).
  destruct (match names with inl _ => _ | inr _ => _ end) as [dbs works]. unfold summarize.
  cbn [cd_reachable cd_ready cd_canApply cd_missing cd_surplus cd_canProvision cd_authEnabled].
  rewrite !checked_granted, none_missing, engine_no_surplus by (done || apply provisioning_tier).
  repeat split.
Qed.

(** A grant of [find] on the wildcard resource shows [config.collections] readable,
    whatever else is held: the wildcard is taken to cover every database there is. *)
Theorem wildcard_covers_config dbs :
  let wildcard := [reported {| ro_resource := namespace_resource "" ""; ro_actions := ["find"] |}] in
  (fun check => pc_granted check) <$> List.filter (fun check => String.eqb (pc_key check) "shardConfig") (evaluatePrivileges wildcard dbs) = [true].
Proof.
  cbn zeta. unfold evaluatePrivileges. rewrite filter_fmap_bool. vm_compute. reflexivity.
Qed.

(** *** Witnesses *)

(** A provisioned cluster of an older release, asked twice and answered once. *)
Definition older_row : PrivilegesRow :=
  {| pr_engine := MONGODB; pr_credentialPosture := Some PROVISIONED; pr_provisionedUsername := Some SCOPED_USERNAME; privilegesRevision := 0; privilegesCheckedRevision := 0 |}.
Lemma notice_exact_witness :
  let told := newPrivilegesFor (check_history older_row [None; Some []]) in
  np_pending told = [PROFILER_CHANGE] /\ np_canUpgrade told = true.
Proof. destruct (notice_exact older_row [None; Some []] ltac:(discriminate)) as (Hp & Hu & _). split; [exact Hp|exact Hu]. Defined.
Lemma provision_exact_witness :
  let s := mem_empty false true in
  let '(s', result) := provisionScopedUser "secret" s in
  result = inr SCOPED_USERNAME /\ ms_users s' SCOPED_USERNAME = Some ("secret", [ENGINE_ROLE]) /\
  (exists role, ms_roles s' ENGINE_ROLE = Some role /\ engine_role role) /\
  (forall n, n <> SCOPED_USERNAME -> ms_users s' n = None).
Proof.
  cbn zeta. pose proof (provision_exact "secret" (mem_empty false true)) as Hp.
  assert ((provisionScopedUser "secret" (mem_empty false true)).2 = inr SCOPED_USERNAME) as Hr by (vm_compute; reflexivity).
  destruct (provisionScopedUser "secret" (mem_empty false true)) as [s' result]. simpl in Hr. subst result.
  destruct Hp as (_ & Hu & _ & _ & _ & Hus & Hrole). split; [reflexivity|]. split; [exact Hus|]. split; [exact Hrole|]. exact Hu.
Defined.
Lemma provisioned_diagnosis_witness :
  cd_ready (diagnoseConnection false
    {| an_version := inr (Some {| sv_major := 8; sv_minor := 0; sv_text := "8.0.4" |});
       an_status := inr {| authenticatedUsers := [{| mu_user := SCOPED_USERNAME; mu_db := "admin" |}];
                           authenticatedUserRoles := Some [{| role_name := ENGINE_ROLE; role_db := "admin" |}];
                           authenticatedUserPrivileges := Some (reported <$> ENGINE_PRIVILEGES) |};
       an_databases := inr ["shop"; "admin"]; an_rateLimit := inl "denied"; an_sampleRate := inl "denied" |} (Some ["shop"])) = true.
Proof.
  destruct (provisioned_diagnosis false (Some {| sv_major := 8; sv_minor := 0; sv_text := "8.0.4" |}) SCOPED_USERNAME (inr ["shop"; "admin"]) (Some ["shop"]) (inl "denied") (inl "denied")
    ltac:(vm_compute; reflexivity)) as (_ & Hr & _). exact Hr.
Defined.
